(* ===== verification/_CoqProject ===== *)
-Q . S2P
Prelude.v
State.v
Bytes.v
Reader.v
Utf8.v
Json.v
Ids.v
Registry.v
Materializer.v
Layout.v
Prepared.v
Dto.v
DtoSession.v
DtoFacts.v
Frame.v
Qdrant.v
QdrantCalls.v
SourceRow.v
PreparationRow.v
ObjectStore.v
Literal.v
ExactResult.v
RawExact.v
DecodedExact.v
Database.v
Control.v
ControlSpec.v
ControlRefine.v
ControlState.v
ControlSample.v
ControlInventory.v
ControlWriter.v
ControlAdmission.v
PreparationControl.v
PreparationSpec.v
PreparationState.v
PreparedSource.v
PreparedSafety.v
ClientResponse.v
ResponseAccepted.v
ControlHistory.v
PublicationRow.v
Publication.v
PublicationSpec.v
PublicationLifecycle.v
PublicationRefine.v
PublicationHistory.v
PublicationSample.v
PublicationOutcome.v
PublicationRetire.v
PublicationSafety.v
PublicationRead.v
PublicationVerify.v
PublicationCapture.v
VerifiedQuery.v
Window.v
PublicationPin.v
PlainControl.v
PlainSafety.v
PublishedCorpus.v
PublishedSafety.v
PublishedSample.v
PublishedStaging.v
Session.v
SessionSafety.v
PublishedView.v
PublishedResult.v
FramedSearch.v
FramedSafety.v
