(* ===== verification/Prelude.v ===== *)
(** * Verification library of the ELIOT Search workspace

    ELIOT Search is a local search engine in Rust.  It admits files, keeps their bytes as
    immutable objects, turns each into a prepared text of bounded units, publishes the units
    of a whole corpus as one generation of points of a vector store (Qdrant), and answers
    queries over exactly one committed generation.  The control state (which files, which
    preparations, which generation) lives in an embedded key-value store (redb).  A query
    never trusts the vector store: every answer is checked against the control state and
    against stored bytes.  This library models that core and proves it correct.

    ** The parts and where they are modelled

    Paths are under [src/]; a definition keeps the name of the Rust item it translates.

    - Values.  [Prelude], [Bytes], [Reader], [Utf8]: machine integers at their width, results
      and the fallible monads, byte strings, the bounded readers, UTF-8 validity.  [State]:
      operations over a state that a failure keeps, and the rule of consequence by which the
      programs that compose several components are verified.  [Json]: JSON values, their
      accessors and their text.
      [Ids] (crates/search-contracts), [Registry] (search-source/search-source-registry).
    - Preparation.  [Materializer] (search-prep/search-materializer), [Layout] and [Prepared]
      (search-prep/search-unitizer: layout.rs; prepared.rs, prepared/).
    - One prepared source.  [PreparedSource] (bins/eliot-searchd/src/prepared_source.rs)
      composes the object store, the unitizer and the control state, and writes the response;
      [PreparedSafety] proves what it answers.  [ClientResponse]
      (bins/eliot-search/src/prepared_response.rs, published_response.rs) is the command line's
      check of a response; [ResponseAccepted] joins the two.
    - Objects.  [ObjectStore] (search-source/search-revision-store/src/lib.rs).
    - Control state of sources (search-control-redb).  [SourceRow] and [PreparationRow] are
      the row codecs; [Database] is the interface of the store; [Control], [ControlInventory]
      and [ControlAdmission] are current_source.rs; [PreparationControl] is
      current_preparation.rs.  [ControlSpec] and [PreparationSpec] give the abstract corpus
      and the specification of every operation; [ControlRefine], [ControlState],
      [ControlWriter] and [PreparationState] prove the operations against it; [ControlHistory]
      takes the union of all operations as a transition system.  [ControlSample] holds
      concrete databases.
    - The control file.  [PlainControl] (search-control-redb/src/plain_control.rs) inspects,
      initializes and recovers it over an interface of files and of the engine;
      [PlainSafety] proves that no data is lost.
    - Publication (search-control-redb/src/publication.rs, publication/).  [PublicationRow] is
      codec.rs; [Publication] holds the transactions that reserve, stage, upload, commit,
      abandon and retire a generation; [PublicationRead] the capture of the corpus, the reads,
      the exhaustive verification of verify.rs and the pinned view.  [PublicationSpec] gives
      the specifications; [PublicationLifecycle], [PublicationRefine], [PublicationHistory],
      [PublicationOutcome], [PublicationRetire], [PublicationSafety], [PublicationVerify],
      [PublicationCapture] and [PublicationPin] carry the proofs, [PublicationSample] the
      concrete generations.
    - The publication of a corpus.  [PublishedCorpus] (bins/eliot-searchd/src/
      published_corpus.rs) composes the control state, the objects and the bridge: it captures,
      stages, uploads, verifies, commits and removes.  [PublishedSafety] has the rules by which
      its parts keep the control state and what each call was sent under, [PublishedStaging]
      the staging of pages, [PublishedView] the whole, [PublishedResult] the response that
      the command line accepts, [PublishedSample] a publication that runs.
    - The bridge to the vector store.  [Qdrant] (search-index-qdrant/search-qdrant-bridge):
      schema, codec, backend/, and the single-dispatch runner; [QdrantCalls] what its calls
      prove.
    - Queries (bins/eliot-searchd).  [Literal] (exact_literal.rs), [ExactResult],
      [RawExact] (raw_exact.rs), [DecodedExact] (decoded_exact.rs), [VerifiedQuery]
      (verified_query.rs).
    - The wire (search-provider-protocol).  [Dto], [DtoSession], [DtoFacts] (dto.rs) and
      [Frame] (frame.rs).
    - The framed session (bins/eliot-searchd/src/framed_search).  [Window] (window.rs,
      window/expand.rs) is the retained result, its pages and expansions; [Session]
      (session.rs, session/worker.rs) the event loop and the worker as a step relation;
      [SessionSafety] its invariant; [FramedSearch] (framed_search.rs) is the exchange of a
      single query, [FramedSafety] its invariant.

    ** How state and effects are modelled

    - Integers are [Z] with every checked, saturating and converting operation written out at
      its width; [usize] is 64 bits wide.  Bytes are [list Z]; strings are their UTF-8 bytes.
    - A fallible function returns [result].  A function that reads the clock or the cancel
      flag runs in the monad [M], which consumes an oracle of interruptions; a theorem about
      it holds for every oracle.  An effect of a database runs with an [env], which may refuse
      any call and may lose the report of a commit that happened.  An answer in the calm
      environment, where nothing interrupts, is exact; in every other it is that answer or an
      interruption's own error ([refines], [outcome], [yields], [answered]).
    - The store [redb] is the class [Redb] of snapshots and transactions with the documented
      laws of its calls; a finite map of finite maps is an instance.  One writer holds the
      database at a time (the crate's file lock), so a transaction is atomic.
    - JSON (serde), protobuf (prost), BLAKE3, random identities and the Qdrant server are
      arguments of the definitions that use them.  A round trip of an encoder is a named law
      where a theorem needs it, and each witness instantiates it by a concrete function.  No
      theorem assumes anything of the server: what it answers is an arbitrary value.
    - A publication runs over a [World]: the control database, the object directory and the
      log of every call to the server, each with the control database of its moment.  The
      server's answers are a function of how many calls came before: it may answer anything,
      and differently each time.
    - The control file lives on a [Disk] of inodes, of which one is under the path; the engine
      on its bytes is the class [Engine], every call of which may fail as it likes, and
      [EngineLaws] states what a success means.
    - The session is a record [System] of the exchange and the worker; [step] has one
      constructor per event: input, output, a clock tick, the worker taking a command and
      finishing it.  A worker may panic at any command, which covers every abnormal end.

    ** What is proved

    - Codecs: what is written, what is accepted, and that both agree on one encoding, for
      source rows, preparation rows, publication rows, prepared artifacts and wire frames.
    - Preparation: the units partition the text, the outcome of every branch, acceptance of
      an artifact exactly for the canonical encodings.
    - The control file: only a file that holds nothing is formatted, and it then stands for
      the empty corpus, from which the histories below start; recovery touches the file only
      after it succeeded on an exact copy.
    - Control: every history of operations under every environment moves an abstract corpus
      by whole specified moves; no lost update; answers are true of the committed state;
      inventories are complete; retries succeed.
    - Publication: the current generation changes only by committing a complete, uploaded and
      settled build; an operation sent to the vector store is kept until it is settled;
      retirement ends and removes exactly its rows; a capture is the whole corpus; the
      exhaustive verification accepts exactly the complete point graphs, on which every point
      then resolves and no other identity does.
    - Prepared sources: an answer is of the registered source and its committed outcome, a
      ready outcome is the canonical artifact of the stored bytes, and the response line is
      accepted whole by the command line.
    - The corpus: every mutation that a publication sends is recorded in the committed state
      before it is sent, an insertion carries exactly its stored page with the verified texts,
      a deletion is of no collection in use; a view is answered only of the committed
      generation, every point of which the server gave back unchanged; staging follows its
      plan, and splitting pages ends.
    - The bridge: a readback succeeds exactly when the server holds the batch, and a mutation
      that fails definitely was not sent, or was answered.
    - Queries: literal scans equal the reference definition; both exact executors compute the
      specified answer; ranked answers are bound to the generation and to stored bytes.
    - Interfaces: [Pins] (a pinned view resolves points of its own generation), [Opens] (a
      window can be opened over it) and [Unsigned] join the parts: the session's theorems
      use [Opens], the window discharges it from [Pins], [PublicationPin] discharges [Pins]
      for the views of a control database whose saved sources carry drawn identities.
    - Session: in every interleaving the output is whole frames and a prefix of one more, and
      its pages are the retained vector up to the cursor.  A single query: the output is a
      prefix of one valid answer that the messages read explain, and a good end wrote it all.

    ** Fuel

    A loop that is not structural takes fuel where the definition must terminate by itself,
    and a theorem shows the given fuel is enough: decimal texts have at most 20 digits
    ([u64]); the unit loop and the line scan run at most once per byte; a sweep of retired
    rows runs at most once more than the rows it finds; the page loop halves or clips at most
    once per retained item; the frame buffer consumes at least a byte per call;
    a page of n points is split at most n - 1 times, so 2n + 1 rounds are enough; the removal
    of a generation gets a round for every row of the swept tables; every turn of the copy of
    a control file reads at least a byte.

    ** What is not modelled

    - Process and file I/O: the CLI (bins/eliot-search) but for its checks
      of responses, the daemon's bootstrap and argument
      parsing, search-provider-client (child processes and pipes), search-runtime-owner
      (directory creation, locks and permissions), search-safe-reader (system calls).
    - Concurrent changes of the control file from outside: the callers hold the root.  The
      checks of plain_control.rs against them are modelled, but nothing makes them fire.
    - vendor/ (redb, ignore) is third-party; kernel.rs and legacy_inventory.rs of the revision
      store are not compiled into it. *)

From stdpp Require Export base list numbers strings.
From Stdlib Require Export Lia.

Declare Scope eliot_scope.
Delimit Scope eliot_scope with eliot.
#[export] Set Default Goal Selector "!".
Open Scope Z_scope.

(** ** Machine integers

    Every Rust integer is a [Z]; its width appears in the checked operations. *)

Definition U8_MAX : Z := 2 ^ 8 - 1.
Definition U16_MAX : Z := 2 ^ 16 - 1.
Definition U32_MAX : Z := 2 ^ 32 - 1.
Definition U64_MAX : Z := 2 ^ 64 - 1.
Definition USIZE_MAX : Z := 2 ^ 64 - 1.
Definition ISIZE_MAX : Z := 2 ^ 63 - 1.

(** [checked_add], [checked_sub], [checked_mul] at a width given by its maximum. *)
Definition checked_add (maximum a b : Z) : option Z :=
  if a + b <=? maximum then Some (a + b) else None.
Definition checked_mul (maximum a b : Z) : option Z :=
  if a * b <=? maximum then Some (a * b) else None.
Definition checked_sub (a b : Z) : option Z :=
  if b <=? a then Some (a - b) else None.
Definition saturating_sub (a b : Z) : Z := Z.max 0 (a - b).
(** [T::try_from(value)] into an unsigned type. *)
Definition try_from (maximum v : Z) : option Z :=
  if (0 <=? v) && (v <=? maximum) then Some v else None.

(** [.filter(|x| p)] on an [Option]. *)
Definition option_keep {A} (p : A -> bool) (o : option A) : option A :=
  match o with Some a => if p a then Some a else None | None => None end.

(** [slice.len()] of a byte or element vector. *)
Definition len {A} (l : list A) : Z := Z.of_nat (length l).

(** ** Results *)

Inductive result (E A : Type) : Type :=
  | Ok (a : A)
  | Err (e : E).
Arguments Ok {E A} a.
Arguments Err {E A} e.

#[export] Instance result_ret (E : Type) : MRet (result E) := fun A a => Ok a.
#[export] Instance result_bind (E : Type) : MBind (result E) := fun A B k m =>
  match m with Ok a => k a | Err e => Err e end.
#[export] Instance result_fmap (E : Type) : FMap (result E) := fun A B f m =>
  match m with Ok a => Ok (f a) | Err e => Err e end.

#[export] Instance result_eq_dec {E A} `{EqDecision E, EqDecision A} :
  EqDecision (result E A).
Proof. solve_decision. Defined.

(** [opt.ok_or(e)] *)
Definition ok_or {E A} (e : E) (o : option A) : result E A :=
  match o with Some a => Ok a | None => Err e end.
(** [if bad { return Err(e) }] *)
Definition reject_if {E} (bad : bool) (e : E) : result E unit :=
  if bad then Err e else Ok tt.
(** [r.map_err(f)] *)
Definition map_err {E F A} (f : E -> F) (r : result E A) : result F A :=
  match r with Ok a => Ok a | Err e => Err (f e) end.
Definition is_ok {E A} (r : result E A) : bool :=
  match r with Ok _ => true | Err _ => false end.
Definition result_ok {E A} (r : result E A) : option A :=
  match r with Ok a => Some a | Err _ => None end.

Lemma bind_ok_inv {E A B} (m : result E A) (k : A -> result E B) b :
  m ≫= k = Ok b -> exists a, m = Ok a /\ k a = Ok b.
Proof. destruct m; cbn; [eauto|discriminate]. Qed.

Lemma ok_inj {E A} (a b : A) : @Ok E A a = Ok b -> a = b.
Proof. congruence. Qed.

Lemma reject_if_ok {E} bad (e : E) u : reject_if bad e = Ok u -> bad = false.
Proof. destruct bad; [discriminate|done]. Qed.

Lemma reject_if_false {E} bad (e : E) : bad = false -> reject_if bad e = Ok tt.
Proof. by intros ->. Qed.

Lemma ok_or_inv {E A} (e : E) (o : option A) a : ok_or e o = Ok a -> o = Some a.
Proof. destruct o; cbn; congruence. Qed.

Lemma map_err_ok {E F A} (f : E -> F) (r : result E A) a :
  map_err f r = Ok a -> r = Ok a.
Proof. destruct r; cbn; congruence. Qed.

Lemma option_keep_inv {A} p (o : option A) a :
  option_keep p o = Some a -> o = Some a /\ p a = true.
Proof. destruct o; cbn; [destruct (p a0) eqn:?|]; naive_solver. Qed.

Lemma checked_add_inv m a b c : checked_add m a b = Some c -> c = a + b /\ a + b <= m.
Proof. unfold checked_add. destruct (a + b <=? m) eqn:H; naive_solver lia. Qed.
Lemma checked_add_some m a b : a + b <= m -> checked_add m a b = Some (a + b).
Proof. intros H. unfold checked_add. by replace (a + b <=? m) with true by lia. Qed.
Lemma checked_mul_inv m a b c : checked_mul m a b = Some c -> c = a * b /\ a * b <= m.
Proof. unfold checked_mul. destruct (a * b <=? m) eqn:H; naive_solver lia. Qed.
Lemma checked_mul_some m a b : a * b <= m -> checked_mul m a b = Some (a * b).
Proof. intros H. unfold checked_mul. by replace (a * b <=? m) with true by lia. Qed.
Lemma checked_sub_inv a b c : checked_sub a b = Some c -> c = a - b /\ b <= a.
Proof. unfold checked_sub. destruct (b <=? a) eqn:H; naive_solver lia. Qed.
Lemma checked_sub_some a b : b <= a -> checked_sub a b = Some (a - b).
Proof. intros H. unfold checked_sub. by replace (b <=? a) with true by lia. Qed.
Lemma try_from_some m v : 0 <= v <= m -> try_from m v = Some v.
Proof. intros H. unfold try_from. by replace ((0 <=? v) && (v <=? m)) with true by lia. Qed.
Lemma try_from_inv m v w : try_from m v = Some w -> w = v /\ 0 <= v <= m.
Proof. unfold try_from. destruct ((0 <=? v) && (v <=? m)) eqn:H; naive_solver lia. Qed.

(** ** The environment of an operation

    The Rust code reads a cancellation flag and a monotonic clock at each
    [check(deadline, cancelled)], and asks the allocator at each [try_reserve].
    One observation of that environment is consumed by each of them; a finite
    list that runs out stands for an environment that stays calm. *)

(** A database or random-source call consumes one more: it fails, or, for a commit, its
    report is lost after the transaction became durable. *)
Inductive observation : Type := Calm | CancelSeen | DeadlineSeen | NoMemory | CallFailed | ReportLost.
Definition env : Type := list observation.
Definition observe (w : env) : observation * env :=
  match w with [] => (Calm, []) | o :: w' => (o, w') end.

(** Computations that consult the environment and may fail. *)
Definition M (E A : Type) : Type := env -> result E A * env.
#[export] Instance M_ret (E : Type) : MRet (M E) := fun A a w => (Ok a, w).
#[export] Instance M_bind (E : Type) : MBind (M E) := fun A B k m w =>
  match m w with
  | (Ok a, w') => k a w'
  | (Err e, w') => (Err e, w')
  end.
Definition lift {E A} (r : result E A) : M E A := fun w => (r, w).
Definition fail {E A} (e : E) : M E A := fun w => (Err e, w).
Definition run {E A} (m : M E A) (w : env) : result E A := fst (m w).
(** [match m { Ok(a) => .., Err(e) => .. }] on a fallible call of another component. *)
Definition match_result {E F A B} (m : M E A) (k : result E A -> M F B) : M F B :=
  fun w => let '(r, w') := m w in k r w'.
(** [m.map_err(f)?] on a computation. *)
Definition lift_err {E F A} (f : E -> F) (m : M E A) : M F A :=
  fun w => match m w with (Ok a, w') => (Ok a, w') | (Err e, w') => (Err (f e), w') end.

(** [check(deadline, cancelled)?] with the component's two errors. *)
Definition check_with {E} (cancelled deadline : E) : M E unit := fun w =>
  match observe w with
  | (CancelSeen, w') => (Err cancelled, w')
  | (DeadlineSeen, w') => (Err deadline, w')
  | (_, w') => (Ok tt, w')
  end.
(** [v.try_reserve_exact(n).map_err(|_| e)?] *)
Definition reserve_with {E} (refused : E) : M E unit := fun w =>
  match observe w with
  | (NoMemory, w') => (Err refused, w')
  | (_, w') => (Ok tt, w')
  end.

(** [call().map_err(|_| e)?] on a call whose failure the program cannot foresee. *)
Definition call {E} (failed : E) : M E unit := fun w =>
  match observe w with
  | (CallFailed, w') | (ReportLost, w') => (Err failed, w')
  | (_, w') => (Ok tt, w')
  end.

(** The growth step of a bounded push: [if v.len() == v.capacity() { let additional =
    v.capacity().max(16).min(maximum - v.len()); v.try_reserve_exact(additional)? }];
    the result is the capacity afterwards. *)
Definition grow {E} (refused : E) (length capacity maximum : Z) : M E Z :=
  if length =? capacity then
    _ ← reserve_with refused;
    mret (capacity + Z.min (Z.max capacity 16) (maximum - length))
  else mret capacity.

(** An environment that never interrupts. *)
Definition calm (w : env) : Prop := Forall (fun o => o = Calm) w.
#[export] Instance observation_eq_dec : EqDecision observation.
Proof. solve_decision. Defined.
#[export] Instance calm_dec w : Decision (calm w).
Proof. unfold calm. apply _. Defined.

(** The errors an environment can cause in a component. *)
Class Interrupt (E : Type) := interrupt : E -> Prop.

(** [refines m r]: whatever the environment does, [m] gives the pure result [r]
    or stops with one of the interruption errors; in a calm environment it
    gives [r].  A cancelled, expired or refused operation never produces a
    different value. *)
Definition refines {E A} `{Interrupt E} (m : M E A) (r : result E A) : Prop :=
  forall w,
    (run m w = r \/ exists e, run m w = Err e /\ interrupt e) /\
    (calm w -> run m w = r /\ calm (snd (m w))).

Section Refinement.
Context {E : Type} `{Interrupt E}.

Lemma refines_ret {A} (a : A) : refines (mret a : M E A) (Ok a).
Proof. intros w. cbn. auto. Qed.

Lemma refines_lift {A} (r : result E A) : refines (lift r) r.
Proof. intros w. cbn. auto. Qed.

Lemma refines_fail {A} (e : E) : refines (fail e : M E A) (Err e).
Proof. intros w. cbn. auto. Qed.

Lemma refines_check c d :
  interrupt c -> interrupt d -> refines (check_with c d) (Ok tt).
Proof.
  intros Hc Hd [|o w]; cbn.
  - auto.
  - split.
    + destruct o; unfold run; cbn; eauto.
    + intros Hw. apply Forall_cons in Hw as [-> Hw]. auto.
Qed.

Lemma refines_reserve e : interrupt e -> refines (reserve_with e) (Ok tt).
Proof.
  intros He [|o w]; cbn.
  - auto.
  - split.
    + destruct o; unfold run; cbn; eauto.
    + intros Hw. apply Forall_cons in Hw as [-> Hw]. auto.
Qed.

Lemma refines_call e : interrupt e -> refines (call e) (Ok tt).
Proof.
  intros He [|o w]; cbn.
  - auto.
  - split.
    + destruct o; unfold run; cbn; eauto.
    + intros Hw. apply Forall_cons in Hw as [-> Hw]. auto.
Qed.

Lemma refines_bind {A B} (m : M E A) r (k : A -> M E B) s :
  refines m r -> (forall a, r = Ok a -> refines (k a) (s a)) ->
  refines (m ≫= k) (r ≫= s).
Proof.
  intros Hm Hk w. specialize (Hm w) as [Hany Hcalm]. unfold run in *.
  unfold mbind, M_bind, result_bind in *. destruct (m w) as [o w'] eqn:Ew. cbn in *. split.
  - destruct Hany as [-> | (e & -> & He)].
    + destruct r as [a|e]; [|by left]. destruct (Hk a eq_refl w') as [Hw _].
      exact Hw.
    + right. eauto.
  - intros Hw. destruct (Hcalm Hw) as [-> Hw'].
    destruct r as [a|e]; [|done]. by apply (Hk a eq_refl w').
Qed.

(** A step whose pure result is known. *)
Lemma refines_bind_ok {A B} (m : M E A) a (k : A -> M E B) s :
  refines m (Ok a) -> refines (k a) s -> refines (m ≫= k) s.
Proof. intros Hm Hk. apply (refines_bind m (Ok a) k (fun _ => s)); [done|]. by intros ? [= <-]. Qed.

Lemma refines_bind_err {A B} (m : M E A) e (k : A -> M E B) :
  refines m (Err e) -> refines (m ≫= k) (Err e).
Proof. intros Hm. by apply (refines_bind m (Err e) k (fun _ => Err e)). Qed.

(** [check; k] where the pure side has no counterpart. *)
Lemma refines_seq {B} (m : M E unit) (k : unit -> M E B) s :
  refines m (Ok tt) -> refines (k tt) s -> refines (m ≫= k) s.
Proof. intros Hm Hk. apply (refines_bind m (Ok tt) k (fun _ => s)); [done|by intros []]. Qed.

(** [lift r ≫= k] where the pure side is a case on [r]. *)
Lemma refines_pure {A B} (r : result E A) (k : A -> M E B) s :
  (forall a, r = Ok a -> refines (k a) s) ->
  (forall e, r = Err e -> s = Err e) ->
  refines (lift r ≫= k) s.
Proof.
  intros Hk He. destruct r as [a|e].
  - exact (Hk a eq_refl).
  - rewrite (He e eq_refl). apply refines_fail.
Qed.

Lemma refines_seq_ret {A B} (a : A) (k : A -> M E B) s :
  refines (k a) s -> refines (mret a ≫= k) s.
Proof. done. Qed.

Lemma refines_assoc {A B C} (m : M E A) (f : A -> M E B) (g : B -> M E C) r :
  refines (m ≫= fun a => f a ≫= g) r -> refines ((m ≫= f) ≫= g) r.
Proof.
  intros Hr w. specialize (Hr w). unfold run, mbind, M_bind in *.
  by destruct (m w) as [[a|e] w'].
Qed.

(** [lift (reject_if b e) ≫= k] when the pure side starts with the same guard. *)
Lemma refines_guard {A} b e (k : unit -> M E A) s :
  (b = true -> s = Err e) -> (b = false -> refines (k tt) s) ->
  refines (lift (reject_if b e) ≫= k) s.
Proof.
  intros Ht Hf. apply refines_pure.
  - intros [] Hb. apply Hf. by eapply reject_if_ok.
  - intros e' Hb. destruct b; cbn in Hb; [|done]. injection Hb as <-. by apply Ht.
Qed.

(** [lift (ok_or e o) ≫= k] when [o] is defined. *)
Lemma refines_some {A B} (o : option A) a e (k : A -> M E B) s :
  o = Some a -> refines (k a) s -> refines (lift (ok_or e o) ≫= k) s.
Proof. by intros ->. Qed.

Lemma refines_calm {A} (m : M E A) r w : refines m r -> calm w -> run m w = r.
Proof. intros Hm Hw. by apply (Hm w). Qed.

Lemma refines_any {A} (m : M E A) r w :
  refines m r -> run m w = r \/ exists e, run m w = Err e /\ interrupt e.
Proof. intros Hm. apply (Hm w). Qed.

(** A step with a known result: it is interrupted, or the rest runs on what is left of the
    environment. *)
Lemma refines_then {A B} (m : M E A) a (k : A -> M E B) w :
  refines m (Ok a) ->
  (exists e, run (m ≫= k) w = Err e /\ interrupt e /\ ~ calm w) \/
  (exists w', run (m ≫= k) w = run (k a) w' /\ (calm w -> calm w')).
Proof.
  intros Hm. destruct (Hm w) as [Hany Hcalm]. unfold run, mbind, M_bind in *.
  destruct (m w) as [o w'] eqn:Ew. cbn in *. destruct Hany as [-> | (e & -> & He)].
  - right. exists w'. split; [done|]. intros Hw. by apply Hcalm.
  - left. exists e. split_and!; [done|done|]. intros Hw. by destruct (Hcalm Hw).
Qed.

Lemma refines_stop {A B} (m : M E A) e (k : A -> M E B) w :
  refines m (Err e) ->
  run (m ≫= k) w = Err e \/ (exists e', run (m ≫= k) w = Err e' /\ interrupt e' /\ ~ calm w).
Proof.
  intros Hm. destruct (Hm w) as [Hany Hcalm]. unfold run, mbind, M_bind in *.
  destruct (m w) as [o w'] eqn:Ew. cbn in *. destruct Hany as [-> | (e' & -> & He)]; [by left|].
  destruct (decide (calm w)) as [Hw|Hw].
  - destruct (Hcalm Hw) as [[= ->] _]. by left.
  - right. by exists e'.
Qed.

(** [refines_then] for a property of the result. *)
Lemma run_then {A B} (m : M E A) a (k : A -> M E B) w (P : result E B -> Prop) :
  refines m (Ok a) -> (forall e, interrupt e -> ~ calm w -> P (Err e)) ->
  (forall w', (calm w -> calm w') -> P (run (k a) w')) -> P (run (m ≫= k) w).
Proof.
  intros Hm Hi Hk. destruct (refines_then m a k w Hm) as [(e & -> & He & Hc)|(w' & -> & Hc)]; [by apply Hi|by apply Hk].
Qed.

(** A successful run is the pure result, whatever happened. *)
Lemma refines_ok {A} (m : M E A) r w a : refines m r -> run m w = Ok a -> r = Ok a.
Proof.
  intros Hm Ha. destruct (Hm w) as [[Hr|(e & He & _)] _].
  - by rewrite <- Hr.
  - congruence.
Qed.
End Refinement.

Lemma refines_lift_err {E F A} `{Interrupt E, Interrupt F} (f : E -> F) (m : M E A) r :
  (forall e, interrupt e -> interrupt (f e)) ->
  refines m r -> refines (lift_err f m) (map_err f r).
Proof.
  intros Hf Hm w. specialize (Hm w) as [Hany Hcalm]. unfold run, lift_err in *.
  destruct (m w) as [o w'] eqn:Ew. cbn in *. split.
  - destruct Hany as [-> | (e & -> & He)].
    + left. by destruct r.
    + right. exists (f e). auto.
  - intros Hw. destruct (Hcalm Hw) as [-> Hw']. by destruct r.
Qed.

Lemma refines_match {E F A B} `{Interrupt E, Interrupt F} (m : M E A) r (k : result E A -> M F B) s :
  refines m r -> (forall e, interrupt e -> exists f, k (Err e) = fail f /\ interrupt f) ->
  refines (k r) s -> refines (match_result m k) s.
Proof.
  intros Hm Hi Hk w. specialize (Hm w) as [Hany Hcalm]. unfold run, match_result in *.
  destruct (m w) as [o w'] eqn:Ew. cbn in *. split.
  - destruct Hany as [->|(e & -> & He)].
    + destruct (Hk w') as [Hw _]. exact Hw.
    + right. destruct (Hi e He) as (f & -> & Hf). exists f. by split.
  - intros Hw. destruct (Hcalm Hw) as [-> Hw']. by apply Hk.
Qed.

Lemma run_bind_ok {E A B} (m : M E A) (k : A -> M E B) w b :
  run (m ≫= k) w = Ok b -> exists a w', m w = (Ok a, w') /\ run (k a) w' = Ok b.
Proof. unfold run, mbind, M_bind. destruct (m w) as [[a|e] w']; [eauto|done]. Qed.

Lemma run_lift_ok {E A B} (r : result E A) (k : A -> M E B) w b :
  run (lift r ≫= k) w = Ok b -> exists a, r = Ok a /\ run (k a) w = Ok b.
Proof. destruct r as [a|e]; [by exists a|done]. Qed.

(** [outcome m Q X]: every value [m] returns satisfies [Q], and every error
    satisfies [X] or is one of the interruption errors of an environment that was
    not calm. *)
Definition outcome {E A} `{Interrupt E} (m : M E A) (Q : A -> Prop) (X : E -> Prop) : Prop :=
  forall w,
    match run m w with Ok a => Q a | Err e => X e \/ (interrupt e /\ ~ calm w) end /\
    (calm w -> calm (snd (m w))).

Lemma lift_ok_bind {E A B} (a : A) (k : A -> M E B) : lift (Ok a) ≫= k = k a.
Proof. done. Qed.

Section Outcome.
Context {E : Type} `{Interrupt E}.
Implicit Types X : E -> Prop.

Lemma outcome_ret {A} (a : A) (Q : A -> Prop) X : Q a -> outcome (mret a : M E A) Q X.
Proof. intros Ha w. by cbn. Qed.

Lemma outcome_lift {A} (r : result E A) (Q : A -> Prop) X :
  (forall a, r = Ok a -> Q a) -> (forall e, r = Err e -> X e) -> outcome (lift r) Q X.
Proof. intros HQ HX w. cbn. destruct r; auto. Qed.

Lemma outcome_fail {A} (e : E) (Q : A -> Prop) X : X e -> outcome (fail e : M E A) Q X.
Proof. intros He w. cbn. auto. Qed.

Lemma outcome_refines {A} (m : M E A) r (Q : A -> Prop) X :
  refines m r -> (forall a, r = Ok a -> Q a) -> (forall e, r = Err e -> X e) -> outcome m Q X.
Proof.
  intros Hm HQ HX w. destruct (Hm w) as [Hany Hcalm]. split; [|intros Hw; by apply Hcalm].
  destruct Hany as [-> | (e & He & Hi)].
  - destruct r; auto.
  - rewrite He. destruct r as [a|e'].
    + right. split; [done|]. intros Hw. destruct (Hcalm Hw) as [Hr _]. congruence.
    + destruct (decide (calm w)) as [Hw|Hw].
      * destruct (Hcalm Hw) as [Hr _]. left. apply HX. congruence.
      * auto.
Qed.

Lemma outcome_bind {A B} (m : M E A) (k : A -> M E B) (R : A -> Prop) Q X :
  outcome m R X -> (forall a, R a -> outcome (k a) Q X) -> outcome (m ≫= k) Q X.
Proof.
  intros Hm Hk w. specialize (Hm w) as [Hr Hc]. unfold run, mbind, M_bind in *.
  destruct (m w) as [[a|e] w'] eqn:Ew; cbn in *; [|done].
  destruct (Hk a Hr w') as [Hq Hc']. unfold run in Hq. split; [|intros Hw; auto].
  destruct (k a w') as [[b|e] w'']; cbn in *; [done|].
  destruct Hq as [?|[? Hn]]; [by left|right]. split; [done|]. intros Hw. apply Hn. auto.
Qed.

(** [lift r ≫= k], by cases on the pure result. *)
Lemma outcome_pure {A B} (r : result E A) (k : A -> M E B) Q X :
  (forall a, r = Ok a -> outcome (k a) Q X) -> (forall e, r = Err e -> X e) ->
  outcome (lift r ≫= k) Q X.
Proof.
  intros Hk He. destruct r as [a|e]; [exact (Hk a eq_refl)|]. intros w.
  split; [left; by apply He|done].
Qed.

Lemma outcome_guard {B} b e (k : unit -> M E B) Q X :
  (b = true -> X e) -> (b = false -> outcome (k tt) Q X) ->
  outcome (lift (reject_if b e) ≫= k) Q X.
Proof.
  intros Ht Hf. destruct b; [|exact (Hf eq_refl)]. intros w.
  split; [left; by apply Ht|done].
Qed.

(** A step that always succeeds unless interrupted. *)
Lemma outcome_seq {B} (m : M E unit) (k : unit -> M E B) Q X :
  refines m (Ok tt) -> outcome (k tt) Q X -> outcome (m ≫= k) Q X.
Proof.
  intros Hm Hk. apply (outcome_bind _ _ (fun _ => True)); [|by intros []].
  by eapply outcome_refines.
Qed.

(** A step with a known value. *)
Lemma outcome_known {A B} (m : M E A) a (k : A -> M E B) Q X :
  refines m (Ok a) -> outcome (k a) Q X -> outcome (m ≫= k) Q X.
Proof.
  intros Hm Hk. apply (outcome_bind _ _ (fun b => b = a)); [|by intros b ->].
  eapply outcome_refines; [exact Hm|by intros b [= <-]|done].
Qed.

Lemma outcome_check c d X (Q : unit -> Prop) :
  interrupt c -> interrupt d -> Q tt -> outcome (check_with c d) Q X.
Proof.
  intros. eapply outcome_refines; [by apply refines_check|by intros [] _|done].
Qed.

Lemma outcome_grow (refused : E) l c m X (Q : Z -> Prop) :
  interrupt refused -> (forall z, Q z) -> outcome (grow refused l c m) Q X.
Proof.
  intros Hi HQ. unfold grow. case_match; [|by apply outcome_ret].
  apply (outcome_bind _ _ (fun _ => True)); [|by intros; apply outcome_ret].
  by eapply outcome_refines; [apply refines_reserve|..].
Qed.

Lemma outcome_weaken {A} (m : M E A) (Q R : A -> Prop) X Y :
  outcome m Q X -> (forall a, Q a -> R a) -> (forall e, X e -> Y e) -> outcome m R Y.
Proof.
  intros Hm HQ HX w. specialize (Hm w) as [Hr Hc]. split; [|done].
  destruct (run m w); [auto|]. destruct Hr as [?|?]; auto.
Qed.

Lemma outcome_ok {A} (m : M E A) (Q : A -> Prop) X w a :
  outcome m Q X -> run m w = Ok a -> Q a.
Proof. intros Hm Ha. destruct (Hm w) as [Hr _]. by rewrite Ha in Hr. Qed.

Lemma outcome_err {A} (m : M E A) (Q : A -> Prop) X w e :
  outcome m Q X -> run m w = Err e -> X e \/ (interrupt e /\ ~ calm w).
Proof. intros Hm He. destruct (Hm w) as [Hr _]. by rewrite He in Hr. Qed.

(** Computations that never look at the environment. *)
Definition steady {A} (m : M E A) : Prop := forall w, m w = (run m [], w).

Lemma steady_lift {A} (r : result E A) : steady (lift r).
Proof. done. Qed.

Lemma steady_bind {A B} (m : M E A) (k : A -> M E B) :
  steady m -> (forall a, steady (k a)) -> steady (m ≫= k).
Proof.
  intros Hm Hk w. unfold run, mbind, M_bind. rewrite (Hm w), (Hm []). unfold run.
  destruct (m []) as [[a|e] w']; cbn; [apply Hk|done].
Qed.

Lemma refines_steady {A} (m : M E A) : steady m -> refines m (run m []).
Proof.
  intros Hm w. assert (run m w = run m []) as Hw by (unfold run at 1; by rewrite (Hm w)).
  rewrite Hw. split; [by left|]. intros Hc. by rewrite (Hm w).
Qed.

Lemma refines_grow {B} (refused : E) l c m (k : Z -> M E B) s :
  interrupt refused -> (forall z, refines (k z) s) -> refines (grow refused l c m ≫= k) s.
Proof.
  intros Hi Hk. unfold grow. case_match; [|by apply refines_seq_ret].
  apply refines_assoc, refines_seq; [by apply refines_reserve|]. by apply refines_seq_ret.
Qed.
End Outcome.

(** [yields m Q r]: [m] computes the pure result [r] up to the relation [Q] on values: its
    error, a related value, or an interruption. *)
Definition yields {E A B} `{Interrupt E} (m : M E A) (Q : A -> B -> Prop) (r : result E B) : Prop :=
  outcome m (fun a => exists b, r = Ok b /\ Q a b) (fun e => r = Err e).

Section Yields.
Context {E : Type} `{Interrupt E}.

Lemma yields_ret {A B} (a : A) (b : B) (Q : A -> B -> Prop) : Q a b -> yields (mret a) Q (Ok b).
Proof. intros. apply outcome_ret. eauto. Qed.

Lemma yields_bind {A B C X} (m : M E A) (Q : A -> B -> Prop) r (k : A -> M E C) (R : C -> X -> Prop) s :
  yields m Q r -> (forall a b, r = Ok b -> Q a b -> yields (k a) R (s b)) -> yields (m ≫= k) R (r ≫= s).
Proof.
  intros Hm Hk. unfold yields in *. destruct r as [b|e].
  - eapply outcome_bind; [eapply (outcome_weaken _ _ (fun a => Q a b) _ (fun e => s b = Err e)); [exact Hm|by intros a (? & [= <-] & ?)|done]|].
    intros a Ha. by apply (Hk a b).
  - eapply outcome_bind; [eapply (outcome_weaken _ _ (fun _ => False) _ (fun e' => @Err E X e = Err e')); [exact Hm|by intros a (? & ? & _)|by intros e' [= ->]]|done].
Qed.

(** The same pure step on both sides. *)
Lemma yields_pure {A C X} (r : result E A) (k : A -> M E C) (R : C -> X -> Prop) s :
  (forall a, r = Ok a -> yields (k a) R (s a)) -> yields (lift r ≫= k) R (r ≫= s).
Proof.
  intros Hk. apply (yields_bind _ eq); [|by intros a b Hr ->; apply Hk]. unfold yields. apply outcome_lift; eauto.
Qed.

(** A step of the code alone. *)
Lemma yields_known {A C X} (m : M E A) a (k : A -> M E C) (R : C -> X -> Prop) (r : result E X) :
  refines m (Ok a) -> yields (k a) R r -> yields (m ≫= k) R r.
Proof. intros. by eapply outcome_known. Qed.

Lemma yields_value {A C X} (r : result E A) a (k : A -> M E C) (R : C -> X -> Prop) (s : result E X) :
  r = Ok a -> yields (k a) R s -> yields (lift r ≫= k) R s.
Proof. by intros ->. Qed.

Lemma yields_seq_ret {A C X} (a : A) (k : A -> M E C) (R : C -> X -> Prop) (s : result E X) :
  yields (k a) R s -> yields (mret a ≫= k) R s.
Proof. done. Qed.

(** The last pure step of the specification, which the code follows by a few calls. *)
Lemma yields_tail {A C} (r : result E A) (k : A -> M E C) (R : C -> A -> Prop) :
  (forall a, r = Ok a -> yields (k a) R (Ok a)) -> yields (lift r ≫= k) R r.
Proof.
  intros Hk. destruct r as [a|e]; [exact (Hk a eq_refl)|]. intros w. split; [by left|done].
Qed.

Lemma yields_stop {A C X} (e : E) (k : A -> M E C) (R : C -> X -> Prop) : yields (lift (Err e) ≫= k) R (Err e).
Proof. intros w. split; [by left|done]. Qed.

(** Guards that differ in form only. *)
Lemma yields_guard {C X} b b' (e : E) (k : unit -> M E C) (R : C -> X -> Prop) s :
  b = b' -> (b = false -> yields (k tt) R (s tt)) -> yields (lift (reject_if b e) ≫= k) R (reject_if b' e ≫= s).
Proof. intros <- Hk. apply yields_pure. intros [] Hb. apply Hk. by eapply reject_if_ok. Qed.

Lemma yields_weaken {A B} (m : M E A) (Q R : A -> B -> Prop) (r : result E B) :
  yields m Q r -> (forall a b, r = Ok b -> Q a b -> R a b) -> yields m R r.
Proof. intros Hm HQ. eapply outcome_weaken; [exact Hm| |done]. intros a (b & Hb & ?). eauto. Qed.

Lemma yields_refines {A} (m : M E A) (r : result E A) : refines m r -> yields m eq r.
Proof. intros Hm. eapply outcome_refines; [exact Hm|eauto|done]. Qed.

Lemma yields_assoc {A B C X} (m : M E A) (f : A -> M E B) (g : B -> M E C) (R : C -> X -> Prop) (r : result E X) :
  yields (m ≫= fun a => f a ≫= g) R r -> yields ((m ≫= f) ≫= g) R r.
Proof.
  intros Hm w. specialize (Hm w). unfold run, mbind, M_bind in *. by destruct (m w) as [[a|e] w'].
Qed.
End Yields.

(** [map_err] of a component's errors into its caller's. *)
Lemma outcome_lift_err {E F A} `{Interrupt E, Interrupt F} (f : E -> F) (m : M E A) Q X Y :
  outcome m Q X -> (forall e, interrupt e -> interrupt (f e)) -> (forall e, X e -> Y (f e)) ->
  outcome (lift_err f m) Q Y.
Proof.
  intros Hm Hf HX w. specialize (Hm w) as [Hr Hc]. unfold run, lift_err in *.
  destruct (m w) as [[a|e] w'] eqn:Ew; cbn in *; [done|]. split; [|done].
  destruct Hr as [?|[? ?]]; [left|right]; auto.
Qed.

(** A fallible call of another component whose pure result is known, and what follows it. *)
Lemma outcome_match {E F A B} `{Interrupt E, Interrupt F} (m : M E A) r (k : result E A -> M F B) Q X :
  refines m r -> (forall e, interrupt e -> exists f, k (Err e) = fail f /\ interrupt f) ->
  outcome (k r) Q X -> outcome (match_result m k) Q X.
Proof.
  intros Hm Hi Hk w. destruct (Hm w) as [Hany Hcalm]. destruct (Hk (snd (m w))) as [Hr Hc].
  unfold run, match_result in *. destruct (m w) as [o w'] eqn:Ew. cbn in *. destruct Hany as [->|(e & -> & He)].
  - split; [|intros Hw; by apply Hc, Hcalm]. destruct (fst (k r w')); [done|].
    destruct Hr as [?|[? Hn]]; [by left|right]. split; [done|]. intros Hw. by apply Hn, Hcalm.
  - destruct (Hi e He) as (f & Hf & Hif). rewrite Hf in *. cbn. destruct (decide (calm w)) as [Hw|Hw].
    + destruct (Hcalm Hw) as [<- Hw']. rewrite Hf in Hr. cbn in Hr.
      split; [left|done]. by destruct Hr as [|[_ []]].
    + split; [by right|done].
Qed.

(** The same with a call known by its outcome; after an interruption the rest only fails. *)
Lemma outcome_handle {E F A B} `{Interrupt E, Interrupt F} (m : M E A) (k : result E A -> M F B) R X Q Y :
  outcome m R X -> (forall a, R a -> outcome (k (Ok a)) Q Y) -> (forall e, X e -> outcome (k (Err e)) Q Y) ->
  (forall e, interrupt e -> outcome (k (Err e)) (fun _ => False) interrupt) -> outcome (match_result m k) Q Y.
Proof.
  intros Hm Hok Herr Hint w. destruct (Hm w) as [Hr Hc]. unfold run, match_result in *.
  destruct (m w) as [o w'] eqn:Ew. cbn in *.
  assert (outcome (k o) Q Y \/ (outcome (k o) (fun _ => False) interrupt /\ ~ calm w)) as [Hk|[Hk Hn]].
  { destruct o as [a|e]; [left; by apply Hok|]. destruct Hr as [?|[? ?]]; [left; by apply Herr|right; auto]. }
  - destruct (Hk w') as [Hq Hc']. split; [|intros Hw; auto]. unfold run in Hq.
    destruct (fst (k o w')); [done|]. destruct Hq as [?|[? Hn]]; [by left|right]. split; [done|]. auto.
  - destruct (Hk w') as [Hq _]. split; [|done]. unfold run in Hq. destruct (fst (k o w')); [done|].
    right. split; [|done]. by destruct Hq as [?|[? _]].
Qed.

(** [uniform m]: the environment can interrupt [m] but not change its result, which is
    the one a calm environment gives. *)
Definition uniform {E A} `{Interrupt E} (m : M E A) : Prop := refines m (run m []).

Lemma refines_uniform {E A} `{Interrupt E} (m : M E A) r : refines m r -> uniform m.
Proof. intros Hm. unfold uniform. by rewrite (refines_calm m r [] Hm ltac:(constructor)). Qed.

Lemma uniform_bind {E A B} `{Interrupt E} (m : M E A) (k : A -> M E B) :
  uniform m -> (forall a, uniform (k a)) -> uniform (m ≫= k).
Proof.
  intros Hm Hk. apply (refines_uniform _ (run m [] ≫= fun a => run (k a) [])).
  apply refines_bind; [done|]. intros a _. apply Hk.
Qed.

Lemma uniform_bind_lift {E A B} `{Interrupt E} (r : result E A) (k : A -> M E B) :
  (forall a, r = Ok a -> uniform (k a)) -> uniform (lift r ≫= k).
Proof.
  intros Hk. destruct r as [a|e]; [by apply (Hk a)|]. apply (refines_uniform _ (Err e)), refines_fail.
Qed.

Lemma uniform_lift {E A} `{Interrupt E} (r : result E A) : uniform (lift r).
Proof. apply (refines_uniform _ r), refines_lift. Qed.
Lemma uniform_ret {E A} `{Interrupt E} (a : A) : uniform (mret a : M E A).
Proof. apply (refines_uniform _ (Ok a)), refines_ret. Qed.
Lemma uniform_fail {E A} `{Interrupt E} (e : E) : uniform (fail e : M E A).
Proof. apply (refines_uniform _ (Err e)), refines_fail. Qed.
Lemma uniform_check {E} `{Interrupt E} c d : interrupt c -> interrupt d -> uniform (check_with c d).
Proof. intros. by apply (refines_uniform _ (Ok tt)), refines_check. Qed.
Lemma uniform_reserve {E} `{Interrupt E} e : interrupt e -> uniform (reserve_with e).
Proof. intros. by apply (refines_uniform _ (Ok tt)), refines_reserve. Qed.

Create HintDb eliot.
#[export] Hint Resolve uniform_lift uniform_ret uniform_fail uniform_check uniform_reserve : eliot.
#[export] Hint Resolve refines_ret refines_lift refines_fail refines_check
  refines_reserve refines_call refines_lift_err : eliot.

(** Run one step of a [refines] goal. *)
Ltac refine_step :=
  match goal with
  | |- refines (mbind _ (check_with _ _)) _ =>
      apply refines_seq; [apply refines_check; try done|]
  | |- refines (mbind _ (reserve_with _)) _ =>
      apply refines_seq; [apply refines_reserve; try done|]
  | |- refines (mbind _ (call _)) _ =>
      apply refines_seq; [apply refines_call; try done|]
  | |- refines (mbind _ (mbind _ _)) _ => apply refines_assoc
  | |- refines (mbind _ (mret _)) _ => apply refines_seq_ret
  | |- refines (mbind _ (lift _)) (mbind _ _) =>
      apply refines_bind; [apply refines_lift|intros ? ?]
  | |- refines (mret _) _ => apply refines_ret
  | |- refines (lift _) _ => apply refines_lift
  | |- refines (fail _) _ => apply refines_fail
  end.

(** Prove a computation uniform by its structure. *)
Ltac solve_uniform :=
  repeat first
    [ solve [auto with eliot nocore]
    | apply uniform_bind; [|intros ?]
    | match goal with
      | |- uniform (match ?x with _ => _ end) => destruct x
      | |- uniform (let _ := _ in _) => cbv zeta
      end ].

(** Invert a chain of result binds that ended in [Ok]. *)
Ltac inv_ok :=
  repeat match goal with
  | H : Ok _ = Ok _ |- _ => injection H as H; subst
  | H : Err _ = Ok _ |- _ => discriminate H
  | H : Ok _ = Err _ |- _ => discriminate H
  | H : mbind _ _ = Ok _ |- _ => apply bind_ok_inv in H as (? & ? & ?)
  | H : mret _ = Ok _ |- _ => unfold mret, result_ret in H
  | H : reject_if _ _ = Ok _ |- _ => apply reject_if_ok in H
  | H : ok_or _ _ = Ok _ |- _ => apply ok_or_inv in H
  | H : map_err _ _ = Ok _ |- _ => apply map_err_ok in H
  | H : option_keep _ _ = Some _ |- _ => apply option_keep_inv in H as [? ?]
  | H : checked_add _ _ _ = Some _ |- _ => apply checked_add_inv in H as [? ?]
  | H : checked_sub _ _ = Some _ |- _ => apply checked_sub_inv in H as [? ?]
  | H : try_from _ _ = Some _ |- _ => apply try_from_inv in H as [? ?]
  end.

(** Turn boolean guards into propositions. *)
Ltac to_prop :=
  repeat match goal with
  | H : (_ || _) = false |- _ => apply orb_false_iff in H as [? ?]
  | H : (_ && _) = true |- _ => apply andb_true_iff in H as [? ?]
  | H : negb _ = false |- _ => apply negb_false_iff in H
  | H : negb _ = true |- _ => apply negb_true_iff in H
  | H : bool_decide _ = true |- _ => apply bool_decide_eq_true_1 in H
  | H : bool_decide _ = false |- _ => apply bool_decide_eq_false_1 in H
  | H : (_ =? _) = true |- _ => apply Z.eqb_eq in H
  | H : (_ =? _) = false |- _ => apply Z.eqb_neq in H
  | H : (_ <=? _) = true |- _ => apply Z.leb_le in H
  | H : (_ <=? _) = false |- _ => apply Z.leb_gt in H
  | H : (_ <? _) = true |- _ => apply Z.ltb_lt in H
  | H : (_ <? _) = false |- _ => apply Z.ltb_ge in H
  end.

(** Evaluate a boolean comparison that holds (or fails) in the context. *)
Ltac solve_bool :=
  repeat match goal with
  | |- (_ && _) = true => apply andb_true_intro; split
  | |- (_ || _) = false => apply orb_false_intro
  | |- negb _ = true => apply negb_true_iff
  | |- negb _ = false => apply negb_false_iff
  | |- (_ <=? _)%Z = true => apply Z.leb_le
  | |- (_ <=? _)%Z = false => apply Z.leb_gt
  | |- (_ <? _)%Z = true => apply Z.ltb_lt
  | |- (_ <? _)%Z = false => apply Z.ltb_ge
  | |- (_ =? _)%Z = true => apply Z.eqb_eq
  | |- (_ =? _)%Z = false => apply Z.eqb_neq
  | |- (_ =? _)%nat = true => apply Nat.eqb_eq
  | |- (_ =? _)%nat = false => apply Nat.eqb_neq
  | |- bool_decide _ = true => apply bool_decide_eq_true_2
  | |- bool_decide _ = false => apply bool_decide_eq_false_2
  end; try done; try lia.
Tactic Notation "is_true" constr(b) :=
  let H := fresh in assert (b = true) as H by solve_bool; rewrite ?H; clear H.
Tactic Notation "is_true" constr(b) "in" hyp(K) :=
  let H := fresh in assert (b = true) as H by solve_bool; rewrite ?H in K; clear H.
Tactic Notation "is_false" constr(b) :=
  let H := fresh in assert (b = false) as H by solve_bool; rewrite ?H; clear H.
Tactic Notation "is_false" constr(b) "in" hyp(K) :=
  let H := fresh in assert (b = false) as H by solve_bool; rewrite ?H in K; clear H.
