(* ===== verification/State.v ===== *)
(** Stateful operations: a computation over a state and an environment, that keeps the state
    it reached when it fails, and the rule of consequence by which the programs that compose
    components (bins/eliot-searchd) are verified. *)

From S2P Require Import Prelude.

(** ** The monad *)

(** [St S E A]: run on a state [S], give an [A] or fail with an [E]; either way there is a
    state afterwards. *)
Definition St (S E A : Type) : Type := S -> env -> (result E A * S) * env.
#[export] Instance St_ret {S E} : MRet (St S E) := fun A a s w => ((Ok a, s), w).
#[export] Instance St_bind {S E} : MBind (St S E) := fun A B k m s w =>
  match m s w with
  | ((Ok a, s'), w') => k a s' w'
  | ((Err e, s'), w') => ((Err e, s'), w')
  end.

Section Operations.
Context {S E : Type}.

(** A step that reads the state. *)
Definition st_read {A} (m : S -> M E A) : St S E A := fun s w => let '(r, w') := m s w in ((r, s), w').
Definition st_lift {A} (r : result E A) : St S E A := st_read (fun _ => lift r).
Definition st_env {A} (m : M E A) : St S E A := st_read (fun _ => m).
Definition st_gets {A} (f : S -> A) : St S E A := fun s w => ((Ok (f s), s), w).
Definition st_modify (f : S -> S) : St S E unit := fun s w => ((Ok tt, f s), w).

(** An operation of a component, on its part of the state. *)
Definition st_on {T A} (get : S -> T) (put : T -> S -> S) (m : St T E A) : St S E A := fun s w =>
  let '((r, t), w') := m (get s) w in ((r, put t s), w').

(** [m.map_err(f)?] *)
Definition st_err {F A} (f : F -> E) (m : St S F A) : St S E A := fun s w =>
  let '((r, s'), w') := m s w in ((map_err f r, s'), w').

(** [let result = m;] *)
Definition st_result {F A} (m : St S F A) : St S E (result F A) := fun s w =>
  let '((r, s'), w') := m s w in ((Ok r, s'), w').
End Operations.

(** ** Guarantees

    [runs P m Q X]: from a state of [P], under every environment, [m] returns a value and a
    state of [Q], or fails with an error and a state of [X]. *)
Definition runs {S E A} (P : S -> Prop) (m : St S E A) (Q : A -> S -> Prop) (X : E -> S -> Prop) : Prop :=
  forall s w, P s -> match fst (m s w) with (Ok a, s') => Q a s' | (Err e, s') => X e s' end.

Section Runs.
Context {S E : Type}.
Implicit Types (P : S -> Prop) (X : E -> S -> Prop).

Lemma runs_ret {A} P (a : A) (Q : A -> S -> Prop) X : (forall s, P s -> Q a s) -> runs P (mret a) Q X.
Proof. intros HQ s w Hs. by apply HQ. Qed.

Lemma runs_bind {A B} P (m : St S E A) (R : A -> S -> Prop) (k : A -> St S E B) (Q : B -> S -> Prop) X :
  runs P m R X -> (forall a, runs (R a) (k a) Q X) -> runs P (m ≫= k) Q X.
Proof.
  intros Hm Hk s w Hs. specialize (Hm s w Hs). unfold mbind, St_bind.
  destruct (m s w) as [[[a|e] s'] w']; [|done]. exact (Hk a s' w' Hm).
Qed.

(** A step that keeps what holds: [check], [try_reserve], a read of no interest. *)
Lemma runs_seq {A B} P (m : St S E A) (k : A -> St S E B) (Q : B -> S -> Prop) X :
  runs P m (fun _ => P) X -> (forall a, runs P (k a) Q X) -> runs P (m ≫= k) Q X.
Proof. intros Hm Hk. by eapply runs_bind. Qed.

Lemma runs_weaken {A} P P' (m : St S E A) (Q Q' : A -> S -> Prop) X X' :
  runs P m Q X -> (forall s, P' s -> P s) -> (forall a s, Q a s -> Q' a s) -> (forall e s, X e s -> X' e s) -> runs P' m Q' X'.
Proof.
  intros Hm HP HQ HX s w Hs. specialize (Hm s w (HP s Hs)). destruct (fst (m s w)) as [[a|e] s']; auto.
Qed.

(** Facts that do not depend on the state. *)
Lemma runs_pull {A} P (F : Prop) (m : St S E A) (Q : A -> S -> Prop) X :
  (F -> runs P m Q X) -> runs (fun s => F /\ P s) m Q X.
Proof. intros Hm s w [HF Hs]. by apply Hm. Qed.
Lemma runs_facts {A} (F : Prop) P P' (m : St S E A) (Q : A -> S -> Prop) X :
  (forall s, P s -> F /\ P' s) -> (F -> runs P' m Q X) -> runs P m Q X.
Proof. intros HF Hm s w Hs. destruct (HF s Hs) as [? ?]. by apply Hm. Qed.
Lemma runs_ex {A B} (P : B -> S -> Prop) (m : St S E A) (Q : A -> S -> Prop) X :
  (forall b, runs (P b) m Q X) -> runs (fun s => exists b, P b s) m Q X.
Proof. intros Hm s w [b Hs]. by apply (Hm b). Qed.

(** [st_lift r ≫= k] by cases on [r]. *)
Lemma runs_pure {A B} P (r : result E A) (k : A -> St S E B) (Q : B -> S -> Prop) X :
  (forall a, r = Ok a -> runs P (k a) Q X) -> (forall e s, r = Err e -> P s -> X e s) -> runs P (st_lift r ≫= k) Q X.
Proof. intros Hk HX s w Hs. destruct r as [a|e]; [exact (Hk a eq_refl s w Hs)|]. by apply HX. Qed.
Lemma runs_lift {A} P (r : result E A) (Q : A -> S -> Prop) X :
  (forall a s, r = Ok a -> P s -> Q a s) -> (forall e s, r = Err e -> P s -> X e s) -> runs P (st_lift r) Q X.
Proof. intros HQ HX s w Hs. cbn. destruct r as [a|e]; [by apply HQ|by apply HX]. Qed.

(** A read, by what it can return. *)
Lemma runs_read {A} P (m : S -> M E A) (Q : A -> S -> Prop) X :
  (forall s w, P s -> match run (m s) w with Ok a => Q a s | Err e => X e s end) -> runs P (st_read m) Q X.
Proof. intros Hm s w Hs. specialize (Hm s w Hs). unfold st_read, run in *. by destruct (m s w) as [[a|e] w']. Qed.
Lemma runs_outcome {A} `{Interrupt E} P (m : S -> M E A) (R : S -> A -> Prop) (Y : S -> E -> Prop) (Q : A -> S -> Prop) X :
  (forall s, P s -> outcome (m s) (R s) (Y s)) ->
  (forall a s, P s -> R s a -> Q a s) -> (forall e s, P s -> X e s) -> runs P (st_read m) Q X.
Proof.
  intros Hm HQ HX. apply runs_read. intros s w Hs. destruct (Hm s Hs w) as [Hr _].
  destruct (run (m s) w); [by apply HQ|by apply HX].
Qed.
(** A step of which only the environment matters. *)
Lemma runs_env {A} P (m : M E A) (Q : A -> S -> Prop) X :
  (forall a w s, run m w = Ok a -> P s -> Q a s) -> (forall e s, P s -> X e s) -> runs P (st_env m) Q X.
Proof. intros HQ HX. apply runs_read. intros s w Hs. destruct (run m w) eqn:E'; [by eapply HQ|by apply HX]. Qed.

Lemma runs_gets {A} P (f : S -> A) (Q : A -> S -> Prop) X : (forall s, P s -> Q (f s) s) -> runs P (st_gets f) Q X.
Proof. intros HQ s w Hs. by apply HQ. Qed.
Lemma runs_modify P f (Q : unit -> S -> Prop) X : (forall s, P s -> Q tt (f s)) -> runs P (st_modify f) Q X.
Proof. intros HQ s w Hs. by apply HQ. Qed.

Lemma runs_err {F A} P (f : F -> E) (m : St S F A) (Q : A -> S -> Prop) (X : F -> S -> Prop) (Y : E -> S -> Prop) :
  runs P m Q X -> (forall e s, X e s -> Y (f e) s) -> runs P (st_err f m) Q Y.
Proof.
  intros Hm HX s w Hs. specialize (Hm s w Hs). unfold st_err. destruct (m s w) as [[[a|e] s'] w']; [done|by apply HX].
Qed.
Lemma runs_result {F A} P (m : St S F A) (Q : A -> S -> Prop) (Y : F -> S -> Prop) (R : result F A -> S -> Prop) X :
  runs P m Q Y -> (forall a s, Q a s -> R (Ok a) s) -> (forall e s, Y e s -> R (Err e) s) -> runs P (st_result m) R X.
Proof.
  intros Hm HQ HE s w Hs. specialize (Hm s w Hs). unfold st_result. destruct (m s w) as [[[a|e] s'] w']; [by apply HQ|by apply HE].
Qed.

Lemma runs_attempt {F A} P (m : M F A) (R : result F A -> S -> Prop) X :
  (forall r w s, run m w = r -> P s -> R r s) -> runs P (st_result (st_env m)) R X.
Proof. intros HR s w Hs. unfold st_result, st_env, st_read. specialize (HR (run m w) w s eq_refl Hs). unfold run in HR. by destruct (m w). Qed.

(** An operation of a component, by what it does to the component's part. *)
Lemma runs_on {T A} P (get : S -> T) put (m : St T E A) (Q : A -> S -> Prop) X :
  (forall s w, P s -> match fst (m (get s) w) with (Ok a, t) => Q a (put t s) | (Err e, t) => X e (put t s) end) ->
  runs P (st_on get put m) Q X.
Proof. intros Hm s w Hs. specialize (Hm s w Hs). unfold st_on. by destruct (m (get s) w) as [[[a|e] t] w']. Qed.
End Runs.
