(* ===== verification/Bytes.v ===== *)
(** Byte strings: little- and big-endian integers, slices, chunks, lowercase hex,
    byte-string literals, lexicographic order, and the bounded byte reader that
    the saved-artifact and control-row decoders share. *)

From Stdlib Require Import Sorted.
From S2P Require Import Prelude.

(** A Rust [u8] is an integer in [0, 256); [Vec<u8>], [&[u8]], [String] and [&str]
    are lists of them. *)
Definition is_byte (b : Z) : Prop := 0 <= b < 256.
Definition bytes_ok (l : list Z) : Prop := Forall is_byte l.
#[export] Instance is_byte_dec b : Decision (is_byte b).
Proof. unfold is_byte. apply _. Defined.
#[export] Instance bytes_ok_dec l : Decision (bytes_ok l).
Proof. unfold bytes_ok. apply _. Defined.

(** A string literal of the source as its bytes. *)
Definition str (s : string) : list Z :=
  map (fun c => Z.of_N (Ascii.N_of_ascii c)) (String.list_ascii_of_string s).

(** ** Fixed-width integers *)

(** [v.to_le_bytes()] for an [n]-byte integer. *)
Fixpoint le_bytes (n : nat) (v : Z) : list Z :=
  match n with O => [] | S n => v mod 256 :: le_bytes n (v / 256) end.
(** [uN::from_le_bytes(bytes)] *)
Fixpoint le_value (l : list Z) : Z :=
  match l with [] => 0 | b :: l => b + 256 * le_value l end.
(** [v.to_be_bytes()] and [uN::from_be_bytes(bytes)] *)
Definition be_bytes (n : nat) (v : Z) : list Z := rev (le_bytes n v).
Definition be_value (l : list Z) : Z := le_value (rev l).

Lemma le_bytes_length n v : length (le_bytes n v) = n.
Proof. revert v. induction n; intros; cbn; [done|by rewrite IHn]. Qed.

Lemma le_bytes_ok n v : bytes_ok (le_bytes n v).
Proof.
  revert v. induction n; intros v; cbn; constructor; [|apply IHn].
  unfold is_byte. apply Z.mod_pos_bound. lia.
Qed.

Lemma le_value_le_bytes n v : 0 <= v < 256 ^ Z.of_nat n -> le_value (le_bytes n v) = v.
Proof.
  revert v. induction n as [|n IH]; intros v Hv; cbn [le_bytes le_value].
  - cbn in Hv. lia.
  - rewrite IH.
    + pose proof (Z.div_mod v 256). lia.
    + rewrite Nat2Z.inj_succ, Z.pow_succ_r in Hv by lia.
      split; [apply Z.div_pos; lia|apply Z.div_lt_upper_bound; lia].
Qed.

Lemma le_value_bound l : bytes_ok l -> 0 <= le_value l < 256 ^ len l.
Proof.
  unfold len. induction 1 as [|b l Hb _ IH]; cbn [le_value length].
  - cbn. lia.
  - unfold is_byte in Hb. rewrite Nat2Z.inj_succ, Z.pow_succ_r by lia. lia.
Qed.

Lemma le_bytes_le_value l n : bytes_ok l -> length l = n -> le_bytes n (le_value l) = l.
Proof.
  intros Hl <-. induction Hl as [|b l Hb Hl IH]; cbn [le_bytes le_value length]; [done|].
  unfold is_byte in Hb. f_equal.
  - rewrite (Z.mul_comm 256), Z.mod_add by lia. apply Z.mod_small. lia.
  - rewrite (Z.mul_comm 256), Z.div_add, (Z.div_small b), Z.add_0_l by lia. exact IH.
Qed.

Lemma le_bytes_inj n a b :
  0 <= a < 256 ^ Z.of_nat n -> 0 <= b < 256 ^ Z.of_nat n -> le_bytes n a = le_bytes n b -> a = b.
Proof.
  intros Ha Hb Heq. apply (f_equal le_value) in Heq.
  by rewrite !le_value_le_bytes in Heq.
Qed.

Lemma be_bytes_length n v : length (be_bytes n v) = n.
Proof. unfold be_bytes. by rewrite length_rev, le_bytes_length. Qed.

Lemma be_bytes_ok n v : bytes_ok (be_bytes n v).
Proof. unfold bytes_ok, be_bytes. apply Forall_rev, le_bytes_ok. Qed.
Lemma be_bytes_inj n a b :
  0 <= a < 256 ^ Z.of_nat n -> 0 <= b < 256 ^ Z.of_nat n -> be_bytes n a = be_bytes n b -> a = b.
Proof.
  intros Ha Hb Heq. apply (le_bytes_inj n); [done..|].
  apply (f_equal (@rev Z)) in Heq. unfold be_bytes in Heq. by rewrite !rev_involutive in Heq.
Qed.

Lemma be_value_be_bytes n v : 0 <= v < 256 ^ Z.of_nat n -> be_value (be_bytes n v) = v.
Proof.
  intros Hv. unfold be_value, be_bytes. rewrite rev_involutive. by apply le_value_le_bytes.
Qed.

Lemma be_bytes_be_value l n : bytes_ok l -> length l = n -> be_bytes n (be_value l) = l.
Proof.
  intros Hl <-. unfold be_bytes, be_value.
  rewrite le_bytes_le_value; [apply rev_involutive| |apply length_rev].
  unfold bytes_ok in *. rewrite Forall_forall in *. intros x Hx.
  apply Hl. rewrite list_elem_of_In in *. by apply in_rev.
Qed.

#[global] Arguments le_bytes : simpl never.
#[global] Arguments le_value : simpl never.
#[global] Arguments be_bytes : simpl never.
#[global] Arguments be_value : simpl never.

(** Arithmetic with the widths unfolded. *)
Ltac width :=
  unfold U8_MAX, U16_MAX, U32_MAX, U64_MAX, USIZE_MAX, ISIZE_MAX in *;
  change (256 ^ Z.of_nat 1) with (2 ^ 8) in *; change (256 ^ Z.of_nat 2) with (2 ^ 16) in *;
  change (256 ^ Z.of_nat 4) with (2 ^ 32) in *; change (256 ^ Z.of_nat 8) with (2 ^ 64) in *;
  lia.

(** ** Slices and chunks *)

(** [bytes.get(s..e)] *)
Definition slice {A} (l : list A) (s e : Z) : option (list A) :=
  if (0 <=? s) && (s <=? e) && (e <=? len l)
  then Some (take (Z.to_nat (e - s)) (drop (Z.to_nat s) l)) else None.
(** [bytes.get(i)] *)
Definition at_ {A} (l : list A) (i : Z) : option A :=
  if 0 <=? i then l !! Z.to_nat i else None.

Lemma at_nat {A} (l : list A) (k : nat) : at_ l (Z.of_nat k) = l !! k.
Proof.
  unfold at_. rewrite (proj2 (Z.leb_le 0 (Z.of_nat k))) by lia. by rewrite Nat2Z.id.
Qed.

Lemma slice_inv {A} (l : list A) s e x :
  slice l s e = Some x ->
  0 <= s <= e /\ e <= len l /\ x = take (Z.to_nat (e - s)) (drop (Z.to_nat s) l).
Proof.
  unfold slice. destruct ((0 <=? s) && (s <=? e) && (e <=? len l)) eqn:H; [|done].
  intros [= <-]. to_prop. repeat split; lia.
Qed.

Lemma slice_some {A} (l : list A) s e :
  0 <= s <= e -> e <= len l ->
  slice l s e = Some (take (Z.to_nat (e - s)) (drop (Z.to_nat s) l)).
Proof.
  intros. unfold slice.
  by replace ((0 <=? s) && (s <=? e) && (e <=? len l)) with true by lia.
Qed.

Lemma slice_length {A} (l : list A) s e x : slice l s e = Some x -> len x = e - s.
Proof.
  intros H. apply slice_inv in H as (? & ? & ->). unfold len in *.
  rewrite length_take, length_drop. lia.
Qed.

(** [starts_with] of strings and byte slices. *)
Definition starts_with (key prefix : list Z) : bool := bool_decide (take (length prefix) key = prefix).

(** [bytes.chunks(n)] *)
Fixpoint chunks_from {A} (fuel n : nat) (l : list A) : list (list A) :=
  match l, fuel with
  | [], _ | _, O => []
  | _, S fuel => take n l :: chunks_from fuel n (drop n l)
  end.
Definition chunks {A} (n : nat) (l : list A) : list (list A) := chunks_from (length l) n l.

Lemma chunks_from_concat {A} n (l : list A) fuel :
  (0 < n)%nat -> (length l <= fuel)%nat -> concat (chunks_from fuel n l) = l.
Proof.
  intros Hn. revert l. induction fuel as [|fuel IH]; intros [|a l] Hl; cbn in Hl; try done; [lia|].
  destruct n as [|n]; [lia|].
  change (take (S n) (a :: l) ++ concat (chunks_from fuel (S n) (drop (S n) (a :: l))) = a :: l).
  rewrite IH; [apply take_drop|]. rewrite length_drop. cbn [length]. lia.
Qed.

Lemma chunks_concat {A} n (l : list A) : (0 < n)%nat -> concat (chunks n l) = l.
Proof. intros. by apply chunks_from_concat. Qed.

Lemma len_app {A} (a b : list A) : len (a ++ b) = len a + len b.
Proof. unfold len. rewrite length_app. lia. Qed.
Lemma len_cons {A} (a : A) l : len (a :: l) = 1 + len l.
Proof. unfold len. cbn. lia. Qed.
Lemma len_nil {A} : len (@nil A) = 0.
Proof. done. Qed.
Lemma len_nonneg {A} (l : list A) : 0 <= len l.
Proof. unfold len. lia. Qed.
Lemma len_fmap {A B} (f : A -> B) l : len (f <$> l) = len l.
Proof. unfold len. by rewrite length_fmap. Qed.
Lemma len_le_bytes n v : len (le_bytes n v) = Z.of_nat n.
Proof. unfold len. by rewrite le_bytes_length. Qed.
Lemma len_zero_nil {A} (l : list A) : len l = 0 -> l = [].
Proof. destruct l; [done|]. unfold len. cbn. lia. Qed.

Create Rewrite HintDb len.
#[export] Hint Rewrite @len_app @len_cons @len_nil len_le_bytes : len.

(** ** Lowercase hexadecimal *)

Definition HEX : list Z := str "0123456789abcdef".
(** [HEX[usize::from(nibble)]] *)
Definition hex_digit (nibble : Z) : Z := nth (Z.to_nat nibble) HEX 0.
Definition hex_pair (b : Z) : list Z := [hex_digit (Z.shiftr b 4); hex_digit (Z.land b 15)].
(** The digit loops of [hex_encode], [hex], [uuid_text] and [selection_key]. *)
Definition hex_encode (bytes : list Z) : list Z := bytes ≫= hex_pair.

(** [b.is_ascii_digit()] and [(b'a'..=b'f').contains(&b)] *)
Definition ascii_digit (b : Z) : bool := (48 <=? b) && (b <=? 57).
Definition ascii_af (b : Z) : bool := (97 <=? b) && (b <=? 102).
Definition lower_hex_byte (b : Z) : bool := ascii_digit b || ascii_af b.
Definition lower_hex_value (b : Z) : option Z :=
  if ascii_digit b then Some (b - 48)
  else if ascii_af b then Some (b - 97 + 10) else None.

(** Finite case analysis over the 256 byte values. *)
Definition all_bytes : list Z := map Z.of_nat (seq 0 256).
Lemma forall_bytes (p : Z -> bool) b :
  forallb p all_bytes = true -> is_byte b -> p b = true.
Proof.
  intros Hp Hb. rewrite forallb_forall in Hp. apply Hp.
  unfold all_bytes. apply in_map_iff. exists (Z.to_nat b). unfold is_byte in Hb.
  split; [lia|]. apply in_seq. lia.
Qed.

Lemma forall_bytes_dec (P : Z -> Prop) `{forall b, Decision (P b)} :
  forallb (fun b => bool_decide (P b)) all_bytes = true -> forall b, is_byte b -> P b.
Proof.
  intros Hp b Hb.
  pose proof (forall_bytes (fun b => bool_decide (P b)) b Hp Hb) as Hd.
  by apply bool_decide_eq_true_1 in Hd.
Qed.

Lemma hex_pair_lower b : is_byte b -> Forall (fun d => lower_hex_byte d = true) (hex_pair b).
Proof. revert b. refine (forall_bytes_dec _ _). by vm_compute. Qed.

Lemma hex_pair_value b : is_byte b ->
  lower_hex_value (hex_digit (Z.shiftr b 4)) = Some (Z.shiftr b 4) /\
  lower_hex_value (hex_digit (Z.land b 15)) = Some (Z.land b 15) /\
  Z.shiftr b 4 * 16 + Z.land b 15 = b /\
  Z.lor (Z.shiftl (Z.shiftr b 4) 4) (Z.land b 15) = b.
Proof. revert b. refine (forall_bytes_dec _ _). by vm_compute. Qed.

Lemma hex_encode_length l : length (hex_encode l) = (2 * length l)%nat.
Proof. induction l; cbn in *; [done|]. unfold hex_encode in *. lia. Qed.

Lemma hex_encode_cons b l : hex_encode (b :: l) = hex_pair b ++ hex_encode l.
Proof. done. Qed.

Lemma hex_encode_lower l :
  bytes_ok l -> Forall (fun d => lower_hex_byte d = true) (hex_encode l).
Proof.
  induction 1 as [|b l Hb _ IH]; [constructor|].
  rewrite hex_encode_cons. apply Forall_app. by split; [apply hex_pair_lower|].
Qed.

(** ** Lexicographic order of byte strings ([str] and [\[u8\]] comparison) *)

Fixpoint bytes_compare (a b : list Z) : comparison :=
  match a, b with
  | [], [] => Eq
  | [], _ :: _ => Lt
  | _ :: _, [] => Gt
  | x :: a, y :: b => match x ?= y with Eq => bytes_compare a b | c => c end
  end.
Definition bytes_lt (a b : list Z) : bool :=
  match bytes_compare a b with Lt => true | _ => false end.

Lemma bytes_compare_eq a b : bytes_compare a b = Eq <-> a = b.
Proof.
  revert b. induction a as [|x a IH]; intros [|y b]; cbn; try done.
  destruct (Z.compare_spec x y); [subst; rewrite IH; naive_solver|..];
    (split; [done|intros [= -> ->]; lia]).
Qed.

Lemma bytes_compare_antisym a b : bytes_compare b a = CompOpp (bytes_compare a b).
Proof.
  revert b. induction a as [|x a IH]; intros [|y b]; cbn; try done.
  rewrite (Z.compare_antisym x y). destruct (x ?= y); cbn; auto.
Qed.

Lemma bytes_lt_trans a b c : bytes_lt a b = true -> bytes_lt b c = true -> bytes_lt a c = true.
Proof.
  unfold bytes_lt. revert b c. induction a as [|x a IH]; intros [|y b] [|z c]; cbn; try done.
  destruct (Z.compare_spec x y), (Z.compare_spec y z), (Z.compare_spec x z);
    subst; try done; try lia; eauto.
Qed.

Lemma bytes_lt_irrefl a : bytes_lt a a = false.
Proof. unfold bytes_lt. by rewrite (proj2 (bytes_compare_eq a a) eq_refl). Qed.

Lemma bytes_lt_total a b : bytes_lt a b = false -> a = b \/ bytes_lt b a = true.
Proof.
  unfold bytes_lt. rewrite (bytes_compare_antisym a b).
  destruct (bytes_compare a b) eqn:H; cbn; try done; [|by right].
  left. by apply bytes_compare_eq.
Qed.

(** ** Search among strictly sorted keys *)

Definition sorted_keys (keys : list (list Z)) : Prop := StronglySorted (fun a b => bytes_lt a b = true) keys.

(** [slice.binary_search_by_key]; every turn halves the range. *)
Fixpoint search_range (keys : list (list Z)) (key : list Z) (fuel : nat) (low high : Z) : option Z :=
  if low <? high then
    match fuel with
    | O => None
    | S fuel =>
        let middle := low + (high - low) / 2 in
        match at_ keys middle with
        | None => None
        | Some found =>
            match bytes_compare found key with
            | Eq => Some middle
            | Lt => search_range keys key fuel (middle + 1) high
            | Gt => search_range keys key fuel low middle
            end
        end
    end
  else None.
Definition binary_search (keys : list (list Z)) (key : list Z) : option Z :=
  search_range keys key (length keys) 0 (len keys).

Lemma sorted_lookup keys i j a b :
  sorted_keys keys -> keys !! i = Some a -> keys !! j = Some b -> (i < j)%nat -> bytes_lt a b = true.
Proof.
  intros Hs. revert i j. induction Hs as [|x l Hs IH Hx]; intros i j Ha Hb Hij; [done|].
  destruct j as [|j]; [lia|]. cbn in Hb. destruct i as [|i]; cbn in Ha.
  - injection Ha as ->. rewrite Forall_forall in Hx. apply Hx. by eapply list_elem_of_lookup_2.
  - apply (IH i j); [done|done|lia].
Qed.

Lemma sorted_keys_inj keys i j a : sorted_keys keys -> keys !! i = Some a -> keys !! j = Some a -> i = j.
Proof.
  intros Hs Hi Hj. destruct (lt_eq_lt_dec i j) as [[Hlt|Heq]|Hgt]; [|done|].
  - pose proof (sorted_lookup _ _ _ _ _ Hs Hi Hj Hlt) as Hb. by rewrite bytes_lt_irrefl in Hb.
  - pose proof (sorted_lookup _ _ _ _ _ Hs Hj Hi Hgt) as Hb. by rewrite bytes_lt_irrefl in Hb.
Qed.

(** The side of the middle on which the key must be. *)
Lemma middle_side keys m x key i :
  sorted_keys keys -> keys !! m = Some x -> keys !! i = Some key ->
  match bytes_compare x key with Eq => i = m | Lt => (m < i)%nat | Gt => (i < m)%nat end.
Proof.
  intros Hs Hm Hi. destruct (bytes_compare x key) eqn:Hc.
  - apply bytes_compare_eq in Hc as ->. by eapply sorted_keys_inj.
  - destruct (lt_eq_lt_dec i m) as [[Hlt|Heq]|Hgt]; [| |done]; exfalso.
    + pose proof (sorted_lookup _ _ _ _ _ Hs Hi Hm Hlt) as Hb. unfold bytes_lt in Hb.
      rewrite bytes_compare_antisym, Hc in Hb. done.
    + subst i. rewrite Hi in Hm. injection Hm as ->. by rewrite (proj2 (bytes_compare_eq x x) eq_refl) in Hc.
  - destruct (lt_eq_lt_dec i m) as [[Hlt|Heq]|Hgt]; [done| |]; exfalso.
    + subst i. rewrite Hi in Hm. injection Hm as ->. by rewrite (proj2 (bytes_compare_eq x x) eq_refl) in Hc.
    + pose proof (sorted_lookup _ _ _ _ _ Hs Hm Hi Hgt) as Hb. unfold bytes_lt in Hb. by rewrite Hc in Hb.
Qed.

Lemma search_range_spec keys key fuel : forall low high n,
  sorted_keys keys -> 0 <= low -> high <= len keys -> high - low <= Z.of_nat fuel ->
  search_range keys key fuel low high = Some n <->
  low <= n < high /\ keys !! Z.to_nat n = Some key.
Proof.
  induction fuel as [|fuel IH]; intros low high n Hs Hlow Hhigh Hfuel; cbn [search_range].
  - is_false (low <? high). split; [done|lia].
  - destruct (low <? high) eqn:Hlt; to_prop; [|split; [done|lia]].
    set (middle := low + (high - low) / 2).
    assert (low <= middle < high) as Hm.
    { unfold middle. pose proof (Z.div_mod (high - low) 2 ltac:(lia)).
      pose proof (Z.mod_pos_bound (high - low) 2 ltac:(lia)). lia. }
    destruct (lookup_lt_is_Some_2 keys (Z.to_nat middle)) as [x Hx]; [unfold len in *; lia|].
    replace middle with (Z.of_nat (Z.to_nat middle)) at 1 by lia. rewrite at_nat, Hx.
    assert (keys !! Z.to_nat n = Some key -> match bytes_compare x key with
      | Eq => Z.to_nat n = Z.to_nat middle | Lt => (Z.to_nat middle < Z.to_nat n)%nat
      | Gt => (Z.to_nat n < Z.to_nat middle)%nat end) as Hside by by apply middle_side.
    destruct (bytes_compare x key) eqn:Hcmp.
    + apply bytes_compare_eq in Hcmp as ->. split; [intros [= <-]; split; [lia|done]|].
      intros [Hn Hk]. specialize (Hside Hk). f_equal. lia.
    + rewrite IH by (done || lia). split; intros [Hn Hk]; (split; [|done]); specialize (Hside Hk); lia.
    + rewrite IH by (done || lia). split; intros [Hn Hk]; (split; [|done]); specialize (Hside Hk); lia.
Qed.

(** The search finds a key exactly where it stands. *)
Lemma binary_search_spec keys key n :
  sorted_keys keys -> binary_search keys key = Some n <-> 0 <= n /\ keys !! Z.to_nat n = Some key.
Proof.
  intros Hs. unfold binary_search. rewrite search_range_spec by (done || unfold len; lia).
  split; intros [Hn Hk]; (split; [|done]); [lia|]. apply lookup_lt_Some in Hk. unfold len. lia.
Qed.
