(* ===== verification/Reader.v ===== *)
(** The bounded reader behind every decoder of the workspace: a byte slice, a
    position, and [take] with its overflow and out-of-range errors.  The component
    files instantiate it with their own error type.  The two relations below state
    what a parser accepts ([parses]) and what its success proves ([accounts]). *)

From S2P Require Import Prelude Bytes.

Record reader := Reader { r_bytes : list Z; r_position : Z }.

(** A parser over a reader. *)
Definition P (E A : Type) : Type := reader -> result E (A * reader).
#[export] Instance P_ret (E : Type) : MRet (P E) := fun A a r => Ok (a, r).
#[export] Instance P_bind (E : Type) : MBind (P E) := fun A B k p r =>
  match p r with Ok (a, r') => k a r' | Err e => Err e end.
Definition of_result {E A} (x : result E A) : P E A := fun r =>
  match x with Ok a => Ok (a, r) | Err e => Err e end.

(** [take(count)]: checked end, checked range, then advance. *)
Definition take_bytes {E} (overflow short : E) (count : Z) : P E (list Z) := fun r =>
  match checked_add USIZE_MAX (r_position r) count with
  | None => Err overflow
  | Some stop =>
      match slice (r_bytes r) (r_position r) stop with
      | None => Err short
      | Some x => Ok (x, Reader (r_bytes r) stop)
      end
  end.

(** [uN::from_le_bytes(self.array()?)]: an [N]-byte take; the conversion of a
    slice of length [N] into an array cannot fail. *)
Definition take_uint {E} (overflow short : E) (n : nat) : P E Z :=
  x ← take_bytes overflow short (Z.of_nat n); mret (le_value x).

(** [self.position == self.bytes.len()] *)
Definition at_end (r : reader) : bool := r_position r =? len (r_bytes r).

(** The unread suffix of a well-formed reader. *)
Definition reads (r : reader) (s : list Z) : Prop :=
  0 <= r_position r <= len (r_bytes r) /\ len (r_bytes r) <= ISIZE_MAX /\
  drop (Z.to_nat (r_position r)) (r_bytes r) = s.

Lemma reads_start l : len l <= ISIZE_MAX -> reads (Reader l 0) l.
Proof. intros. unfold reads. cbn. pose proof (len_nonneg l). repeat split; lia. Qed.

Lemma reads_at_end r s : reads r s -> at_end r = bool_decide (s = []).
Proof.
  intros (Hp & _ & <-). unfold at_end, len in *. case_bool_decide as Hd.
  - apply (f_equal length) in Hd. rewrite length_drop in Hd. cbn in Hd. lia.
  - apply Z.eqb_neq. intros Heq. apply Hd, drop_ge. lia.
Qed.

Lemma reads_length r s : reads r s -> len s = len (r_bytes r) - r_position r.
Proof. intros (Hp & _ & <-). unfold len in *. rewrite length_drop. lia. Qed.

Lemma take_bytes_reads {E} (o e : E) r xs rest :
  reads r (xs ++ rest) ->
  exists r', take_bytes o e (len xs) r = Ok (xs, r') /\ reads r' rest.
Proof.
  intros Hr. pose proof (reads_length _ _ Hr) as Hl. rewrite len_app in Hl.
  pose proof (len_nonneg rest). pose proof (len_nonneg xs).
  destruct Hr as (Hp & Hs & Hd).
  unfold take_bytes. rewrite checked_add_some by (unfold USIZE_MAX, ISIZE_MAX in *; lia).
  rewrite slice_some by lia. eexists. split.
  - rewrite Hd. do 3 f_equal. unfold len in *. rewrite take_app_length'; [done|lia].
  - unfold reads. cbn. repeat split; try lia.
    rewrite Z2Nat.inj_add by lia. rewrite <- drop_drop, Hd.
    apply drop_app_length'. unfold len. lia.
Qed.

Lemma take_bytes_inv {E} (o e : E) n r x r' s :
  0 <= n -> reads r s -> take_bytes o e n r = Ok (x, r') ->
  exists s', s = x ++ s' /\ len x = n /\ reads r' s'.
Proof.
  intros Hn Hr. unfold take_bytes.
  destruct (checked_add _ _ _) as [stop|] eqn:Hc; [|done].
  apply checked_add_inv in Hc as [-> Hc].
  destruct (slice _ _ _) as [y|] eqn:Hy; [|done]. intros [= <- <-].
  pose proof (slice_length _ _ _ _ Hy) as Hly.
  apply slice_inv in Hy as (H1 & H2 & Hy).
  destruct Hr as (Hp & Hs & <-).
  exists (drop (Z.to_nat n) (drop (Z.to_nat (r_position r)) (r_bytes r))). repeat split; cbn; try lia.
  - rewrite Hy. replace (Z.to_nat (r_position r + n - r_position r)) with (Z.to_nat n) by lia.
    by rewrite take_drop.
  - rewrite drop_drop. f_equal. lia.
Qed.

(** ** Acceptance: [p] reads exactly [xs] and returns [v]. *)

Definition parses {E A} (p : P E A) (xs : list Z) (v : A) : Prop :=
  forall r rest, reads r (xs ++ rest) -> exists r', p r = Ok (v, r') /\ reads r' rest.

Lemma parses_ret {E A} (v : A) : parses (mret v : P E A) [] v.
Proof. intros r rest Hr. exists r. done. Qed.

Lemma parses_of_result {E A} (x : result E A) v : x = Ok v -> parses (of_result x) [] v.
Proof. intros -> r rest Hr. exists r. done. Qed.

Lemma parses_bind {E A B} (p : P E A) (k : A -> P E B) xs ys v w :
  parses p xs v -> parses (k v) ys w -> parses (p ≫= k) (xs ++ ys) w.
Proof.
  intros Hp Hk r rest Hr. rewrite <- (assoc_L (++)) in Hr.
  destruct (Hp _ _ Hr) as (r1 & Hpr & Hr1). destruct (Hk _ _ Hr1) as (r2 & Hkr & Hr2).
  exists r2. unfold mbind, P_bind. by rewrite Hpr.
Qed.

Lemma parses_bind_nil {E A B} (p : P E A) (k : A -> P E B) ys v w :
  parses p [] v -> parses (k v) ys w -> parses (p ≫= k) ys w.
Proof. apply (parses_bind p k []). Qed.

Lemma parses_take {E} (o e : E) n xs : len xs = n -> parses (take_bytes o e n) xs xs.
Proof. intros <- r rest Hr. by apply take_bytes_reads. Qed.

Lemma parses_uint {E} (o e : E) n v :
  0 <= v < 256 ^ Z.of_nat n -> parses (take_uint o e n) (le_bytes n v) v.
Proof.
  intros Hv. unfold take_uint. rewrite <- (app_nil_r (le_bytes n v)). eapply parses_bind.
  - apply parses_take, len_le_bytes.
  - rewrite le_value_le_bytes by done. apply parses_ret.
Qed.

Lemma parses_last {E A B} (p : P E A) (k : A -> P E B) xs v w :
  parses p xs v -> parses (k v) [] w -> parses (p ≫= k) xs w.
Proof. intros Hp Hk. rewrite <- (app_nil_r xs). by eapply parses_bind. Qed.

(** ** Accounting: a successful [p] consumed bytes [xs] related to its value. *)

Definition accounts {E A} (p : P E A) (R : A -> list Z -> Prop) : Prop :=
  forall r s v r', reads r s -> bytes_ok s -> p r = Ok (v, r') ->
    exists xs s', s = xs ++ s' /\ bytes_ok xs /\ reads r' s' /\ bytes_ok s' /\ R v xs.

Lemma accounts_ret {E A} (v : A) : accounts (mret v : P E A) (fun w xs => w = v /\ xs = []).
Proof. intros r s w r' Hr Hs [= <- <-]. exists [], s. split_and!; try done. constructor. Qed.

Lemma accounts_of_result {E A} (x : result E A) :
  accounts (of_result x) (fun w xs => x = Ok w /\ xs = []).
Proof.
  intros r s w r' Hr Hs. unfold of_result. destruct x; [|done]. intros [= <- <-].
  exists [], s. split_and!; try done. constructor.
Qed.

Lemma accounts_bind {E A B} (p : P E A) (k : A -> P E B) R S :
  accounts p R -> (forall v, accounts (k v) (S v)) ->
  accounts (p ≫= k) (fun w xs => exists v ys zs, xs = ys ++ zs /\ R v ys /\ S v w zs).
Proof.
  intros Hp Hk r s w r' Hr Hs. unfold mbind, P_bind. destruct (p r) as [[v r1]|] eqn:Hpr; [|done].
  intros Hkr. destruct (Hp _ _ _ _ Hr Hs Hpr) as (ys & s1 & -> & Hys & Hr1 & Hs1 & HR).
  destruct (Hk v _ _ _ _ Hr1 Hs1 Hkr) as (zs & s2 & -> & Hzs & Hr2 & Hs2 & HS).
  exists (ys ++ zs), s2. rewrite (assoc_L (++)). split_and!; try done; [by apply Forall_app|].
  eauto 10.
Qed.

Lemma accounts_take {E} (o e : E) n :
  0 <= n -> accounts (take_bytes o e n) (fun v xs => v = xs /\ len v = n).
Proof.
  intros Hn r s v r' Hr Hs Ht.
  destruct (take_bytes_inv _ _ _ _ _ _ _ Hn Hr Ht) as (s' & -> & Hl & Hr').
  apply Forall_app in Hs as [? ?]. by exists v, s'.
Qed.

Lemma accounts_uint {E} (o e : E) n :
  accounts (take_uint o e n) (fun v xs => xs = le_bytes n v /\ 0 <= v < 256 ^ Z.of_nat n).
Proof.
  intros r s v r' Hr Hs Ht.
  assert (exists x, take_bytes o e (Z.of_nat n) r = Ok (x, r') /\ v = le_value x) as (x & Hx & ->).
  { unfold take_uint, mbind, P_bind in Ht.
    destruct (take_bytes o e (Z.of_nat n) r) as [[x r1]|]; [|done].
    injection Ht as <- <-. eauto. }
  destruct (take_bytes_inv _ _ _ _ _ _ _ (Nat2Z.is_nonneg n) Hr Hx) as (s' & -> & Hl & Hr').
  apply Forall_app in Hs as [Hxs ?]. exists x, s'. split_and!; try done.
  - symmetry. apply le_bytes_le_value; [done|]. unfold len in Hl. lia.
  - by apply le_value_bound.
  - rewrite <- Hl. by apply le_value_bound.
Qed.

Lemma accounts_weaken {E A} (p : P E A) (R S : A -> list Z -> Prop) :
  accounts p R -> (forall v xs, R v xs -> S v xs) -> accounts p S.
Proof.
  intros Hp HRS r s v r' Hr Hs Ht.
  destruct (Hp _ _ _ _ Hr Hs Ht) as (xs & s' & ? & ? & ? & ? & ?). exists xs, s'. eauto 10.
Qed.

(** ** Codecs: a parser that accepts exactly the encodings of its values *)

Record codec {E A} (p : P E A) (enc : A -> list Z) (W : A -> Prop) : Prop := {
  codec_parses : forall v, W v -> parses p (enc v) v;
  codec_accounts : accounts p (fun v xs => xs = enc v /\ W v) }.

(** Running a codec on the unread bytes [s] of [r]: either [s] starts with the encoding
    of one value, which is returned, or it starts with none. *)
Lemma outcome_codec {E A B} `{Interrupt E} (p : P E A) enc W r s (k : A * reader -> M E B) Q X :
  codec p enc W -> reads r s -> bytes_ok s ->
  (forall v r' s', s = enc v ++ s' -> W v -> reads r' s' -> bytes_ok s' ->
     (forall v2 s2, W v2 -> s = enc v2 ++ s2 -> v2 = v /\ s2 = s') -> outcome (k (v, r')) Q X) ->
  (forall e, (forall v2 s2, W v2 -> s = enc v2 ++ s2 -> False) -> X e) ->
  outcome (lift (p r) ≫= k) Q X.
Proof.
  intros Hc Hr Hs Hok Herr. apply outcome_pure.
  - intros [v r'] Hp.
    destruct (codec_accounts _ _ _ Hc _ _ _ _ Hr Hs Hp) as (xs & s' & Hxs & _ & Hr' & Hs' & -> & HW).
    apply (Hok v r' s'); try done. intros v2 s2 HW2 H2. rewrite H2 in Hr.
    destruct (codec_parses _ _ _ Hc v2 HW2 r s2 Hr) as (r2 & Hp2 & _).
    assert (v2 = v) as -> by congruence. split; [done|]. rewrite Hxs in H2. by apply app_inv_head in H2.
  - intros e He. apply Herr. intros v2 s2 HW2 H2. rewrite H2 in Hr.
    destruct (codec_parses _ _ _ Hc v2 HW2 r s2 Hr) as (r2 & Hp2 & _). congruence.
Qed.

Lemma codec_take {E} (o e : E) n :
  0 <= n -> codec (take_bytes o e n) (fun v => v) (fun v => len v = n).
Proof.
  intros Hn. split; [intros v Hv; by apply parses_take|].
  eapply accounts_weaken; [by apply accounts_take|]. by intros v xs [-> ?].
Qed.

Lemma codec_uint {E} (o e : E) n :
  codec (take_uint o e n) (le_bytes n) (fun v => 0 <= v < 256 ^ Z.of_nat n).
Proof. split; [intros v Hv; by apply parses_uint|]. apply accounts_uint. Qed.

(** [take], with the range of its bytes. *)
Lemma codec_bytes {E} (o e : E) n :
  0 <= n -> codec (take_bytes o e n) (fun v => v) (fun v => len v = n /\ bytes_ok v).
Proof.
  intros Hn. split; [intros v [Hv _]; by apply parses_take|].
  intros r s v r' Hr Hs Ht. destruct (accounts_take o e n Hn _ _ _ _ Hr Hs Ht)
    as (xs & s' & -> & Hxs & ? & ? & -> & Hl). exists xs, s'. by split_and!.
Qed.

(** A codec on the same values with an equal encoding. *)
Lemma codec_ext {E A} (p : P E A) (enc enc' : A -> list Z) (W : A -> Prop) :
  codec p enc W -> (forall v, W v -> enc v = enc' v) -> codec p enc' W.
Proof.
  intros [Hp Ha] He. split.
  - intros v Hv. rewrite <- He by done. by apply Hp.
  - eapply accounts_weaken; [exact Ha|]. cbv beta. intros v xs [-> ?]. by rewrite He.
Qed.

(** The end of a structure: the value is determined by the fields read before. *)
Lemma codec_ret {E A} (v : A) (W : A -> Prop) :
  (forall u, W u <-> u = v) -> codec (mret v : P E A) (fun _ => []) W.
Proof.
  intros HW. split.
  - intros u ->%HW. apply parses_ret.
  - eapply accounts_weaken; [apply accounts_ret|]. cbv beta. intros u xs [-> ->]. by rewrite HW.
Qed.

(** One field [f] of a structure, then the others. *)
Lemma codec_bind {E A B} (f : B -> A) (p : P E A) (k : A -> P E B) encA WA encB (W : B -> Prop) :
  codec p encA WA -> (forall b, W b -> WA (f b)) ->
  (forall a, WA a -> codec (k a) encB (fun b => W b /\ f b = a)) ->
  codec (p ≫= k) (fun b => encA (f b) ++ encB b) W.
Proof.
  intros Hp Hf Hk. split.
  - intros b Hb. eapply parses_bind; [apply (codec_parses _ _ _ Hp), Hf, Hb|].
    by apply (codec_parses _ _ _ (Hk (f b) (Hf b Hb))).
  - intros r s b r' Hr Hs Ht. unfold mbind, P_bind in Ht. destruct (p r) as [[a r1]|] eqn:Hpr; [|done].
    destruct (codec_accounts _ _ _ Hp _ _ _ _ Hr Hs Hpr) as (xs & s1 & -> & Hxs & Hr1 & Hs1 & -> & Ha).
    destruct (codec_accounts _ _ _ (Hk a Ha) _ _ _ _ Hr1 Hs1 Ht) as (ys & s2 & -> & Hys & Hr2 & Hs2 & -> & HW & <-).
    exists (encA (f b) ++ encB b), s2. rewrite (assoc_L (++)). split_and!; try done. by apply Forall_app.
Qed.

(** A converted field: a tag, a checked width, an enumeration. *)
Lemma codec_map {E A B} (g : B -> A) (p : P E A) (f : A -> result E B) encA WA (W : B -> Prop) :
  codec p encA WA -> (forall b, W b -> WA (g b) /\ f (g b) = Ok b) ->
  (forall a b, WA a -> f a = Ok b -> a = g b /\ W b) ->
  codec (p ≫= fun a => of_result (f a)) (fun b => encA (g b)) W.
Proof.
  intros Hp Hg Hf. split.
  - intros b Hb. destruct (Hg b Hb) as [Ha He]. eapply parses_last; [by apply (codec_parses _ _ _ Hp)|].
    by apply parses_of_result.
  - eapply accounts_weaken.
    + eapply accounts_bind; [apply (codec_accounts _ _ _ Hp)|]. intros a. apply accounts_of_result.
    + cbv beta. intros b xs (a & ys & zs & -> & [-> Ha] & Hb & ->). rewrite app_nil_r.
      by destruct (Hf a b Ha Hb) as [-> ?].
Qed.

(** A constructor around a codec. *)
Lemma codec_wrap {E A B} (C : A -> B) (p : P E A) enc W encB (WB : B -> Prop) :
  codec p enc W -> (forall b, WB b <-> exists a, b = C a /\ W a) -> (forall a, encB (C a) = enc a) ->
  codec (p ≫= fun a => mret (C a)) encB WB.
Proof.
  intros Hp HW He. split.
  - intros b (a & -> & Ha)%HW. rewrite He. eapply parses_last; [by apply (codec_parses _ _ _ Hp)|].
    apply parses_ret.
  - eapply accounts_weaken.
    + eapply accounts_bind; [apply (codec_accounts _ _ _ Hp)|]. intros a. apply accounts_ret.
    + cbv beta. intros b xs (a & ys & zs & -> & [-> Ha] & -> & ->). rewrite app_nil_r, He.
      split; [done|]. apply HW. eauto.
Qed.

(** A branch that only fails. *)
Lemma codec_fail {E A} (e : E) enc (W : A -> Prop) :
  (forall v, ~ W v) -> codec (of_result (Err e)) enc W.
Proof. intros HW. split; [intros v Hv; by apply HW in Hv|by intros ? ? ? ? ? ?]. Qed.

(** Reading a whole input with a codec: it is the encoding of the value or an error. *)
Lemma codec_whole {E A} (p : P E A) enc (W : A -> Prop) (e : E) l v :
  codec p enc W -> len l <= ISIZE_MAX -> bytes_ok l ->
  (match p (Reader l 0) with Ok (a, r) => if at_end r then Ok a else Err e | Err e' => Err e' end = Ok v
   <-> W v /\ l = enc v).
Proof.
  intros Hc Hl Hb. pose proof (reads_start l Hl) as Hr. split.
  - destruct (p (Reader l 0)) as [[a r]|] eqn:Hp; [|done]. destruct (at_end r) eqn:He; [|done].
    intros [= ->]. destruct (codec_accounts _ _ _ Hc _ _ _ _ Hr Hb Hp) as (xs & s' & -> & _ & Hr' & _ & -> & HW).
    rewrite (reads_at_end _ _ Hr') in He. to_prop. subst s'. by rewrite app_nil_r.
  - intros [HW ->]. rewrite <- (app_nil_r (enc v)) in Hr at 2.
    destruct (codec_parses _ _ _ Hc v HW _ _ Hr) as (r' & -> & Hr').
    rewrite (reads_at_end _ _ Hr'). done.
Qed.

Create HintDb codec.
#[export] Hint Resolve parses_ret parses_of_result parses_take parses_uint
  accounts_ret accounts_of_result accounts_take accounts_uint : codec.
