(* ===== verification/Utf8.v ===== *)
(** UTF-8 as the Rust standard library defines it: [str::from_utf8],
    [str::is_char_boundary] and [str::get(range)] over byte strings, with the facts
    the unitizer relies on (boundaries are the valid suffixes, an ASCII byte ends at
    a boundary, and boundaries are at most four bytes apart). *)

From S2P Require Import Prelude Bytes.

Definition between (lo hi b : Z) : bool := (lo <=? b) && (b <=? hi).
Definition continuation (b : Z) : bool := between 128 191 b.

(** [String::from_utf8(bytes).is_ok()] *)
Fixpoint utf8_valid (l : list Z) : bool :=
  match l with
  | [] => true
  | b :: t =>
      if between 0 127 b then utf8_valid t
      else match t with
      | [] => false
      | c1 :: t1 =>
          if between 194 223 b then continuation c1 && utf8_valid t1
          else match t1 with
          | [] => false
          | c2 :: t2 =>
              if between 224 239 b then
                (if b =? 224 then between 160 191 c1
                 else if b =? 237 then between 128 159 c1 else continuation c1)
                && continuation c2 && utf8_valid t2
              else match t2 with
              | [] => false
              | c3 :: t3 =>
                  between 240 244 b
                  && (if b =? 240 then between 144 191 c1
                      else if b =? 244 then between 128 143 c1 else continuation c1)
                  && continuation c2 && continuation c3 && utf8_valid t3
              end
          end
      end
  end.

(** [text.is_char_boundary(index)] *)
Definition is_char_boundary (text : list Z) (index : Z) : bool :=
  if index =? 0 then true
  else match at_ text index with
       | Some b => negb (continuation b)
       | None => index =? len text
       end.

(** [text.get(start..end)] on a [str]. *)
Definition str_get (text : list Z) (s e : Z) : option (list Z) :=
  if is_char_boundary text s && is_char_boundary text e then slice text s e else None.

Lemma utf8_valid_bytes l : utf8_valid l = true -> bytes_ok l.
Proof.
  unfold bytes_ok. remember (length l) as n eqn:Hn. revert l Hn.
  induction n as [n IH] using lt_wf_ind. intros l -> Hv.
  assert (forall t, (length t < length l)%nat -> utf8_valid t = true -> Forall is_byte t) as IH'.
  { intros t Ht. by apply (IH _ Ht). }
  clear IH. unfold is_byte. destruct l as [|b t]; [constructor|]. cbn in Hv.
  unfold continuation, between in Hv. cbn in IH'.
  repeat case_match; to_prop; try done;
    repeat (constructor; [try lia|]); try (apply IH'; [cbn; lia|done]).
Qed.

(** The first scalar of a nonempty valid string spans one to four bytes. *)
Lemma utf8_step l :
  utf8_valid l = true -> l <> [] ->
  exists k, (1 <= k <= 4)%nat /\ (k <= length l)%nat /\ utf8_valid (drop k l) = true /\
    (forall i b, (0 < i < k)%nat -> l !! i = Some b -> continuation b = true) /\
    (forall b, l !! 0%nat = Some b -> continuation b = false /\ (b < 128 -> k = 1%nat)).
Proof.
  intros Hv Hl. destruct l as [|b t]; [done|]. cbn in Hv.
  destruct (between 0 127 b) eqn:E0.
  { exists 1%nat. split_and!; [lia|lia|cbn; lia|done|intros i ? Hi; lia|].
    intros ? [= <-]. unfold continuation, between in *. to_prop. lia. }
  destruct t as [|c1 t1]; [done|].
  destruct (between 194 223 b) eqn:E1.
  { exists 2%nat. to_prop. split_and!; [lia|lia|cbn; lia|done|..].
    - intros [|[|i]] x Hi; [lia| |lia]. by intros [= <-].
    - intros ? [= <-]. unfold continuation, between in *. to_prop. lia. }
  destruct t1 as [|c2 t2]; [done|].
  destruct (between 224 239 b) eqn:E2.
  { exists 3%nat. to_prop. split_and!; [lia|lia|cbn; lia|done|..].
    - intros [|[|[|i]]] x Hi; [lia| | |lia]; intros [= <-]; [|done].
      unfold continuation, between in *. repeat case_match; to_prop; lia.
    - intros ? [= <-]. unfold continuation, between in *. to_prop. lia. }
  destruct t2 as [|c3 t3]; [done|].
  exists 4%nat. to_prop. split_and!; [lia|lia|cbn; lia|done|..].
  - intros [|[|[|[|i]]]] x Hi; [lia| | | |lia]; intros [= <-]; [|done..].
    unfold continuation, between in *. repeat case_match; to_prop; lia.
  - intros ? [= <-]. unfold continuation, between in *. to_prop. lia.
Qed.

Lemma is_char_boundary_nat l (i : nat) :
  is_char_boundary l (Z.of_nat i) =
    if (i =? 0)%nat then true
    else match l !! i with Some b => negb (continuation b) | None => (i =? length l)%nat end.
Proof.
  unfold is_char_boundary, at_, len. rewrite Nat2Z.id.
  is_true (0 <=? Z.of_nat i).
  destruct i; [done|]. change (S i =? 0)%nat with false. is_false (Z.of_nat (S i) =? 0).
  case_match; [done|]. destruct (Nat.eqb_spec (S i) (length l)), (Z.eqb_spec (Z.of_nat (S i)) (Z.of_nat (length l)));
    done || lia.
Qed.

(** The character boundaries of a valid string are exactly the positions whose
    suffix is valid. *)
Lemma boundary_valid l (i : nat) :
  utf8_valid l = true -> (i <= length l)%nat ->
  is_char_boundary l (Z.of_nat i) = true <-> utf8_valid (drop i l) = true.
Proof.
  intros Hv Hi. rewrite is_char_boundary_nat.
  remember (length l) as n eqn:Hn. revert l i Hn Hv Hi.
  induction n as [n IH] using lt_wf_ind. intros l i -> Hv Hi.
  destruct i as [|i]; [by rewrite drop_0|]. change (S i =? 0)%nat with false.
  destruct (decide (l = [])) as [->|Hl]; [cbn in Hi; lia|].
  destruct (utf8_step l Hv Hl) as (k & Hk & Hkl & Hd & Hcont & _).
  destruct (decide (S i < k)%nat) as [Hlt|Hge].
  - destruct (lookup_lt_is_Some_2 l (S i)) as [b Hb]; [lia|].
    rewrite Hb, (Hcont (S i) b) by (lia || done). split; [done|].
    rewrite (drop_S _ _ _ Hb). intros Hs. pose proof (Hcont (S i) b ltac:(lia) Hb) as Hc.
    cbn in Hs. unfold continuation, between in *.
    repeat case_match; to_prop; try done; lia.
  - destruct (decide (S i = k)) as [Heq|Hne].
    + rewrite Heq, Hd. split; [done|]. intros _.
      destruct (l !! k) as [b|] eqn:Hb.
      * apply negb_true_iff. destruct (utf8_step (drop k l) Hd) as (? & ? & ? & ? & ? & H0).
        { intros Hn. apply (f_equal length) in Hn. rewrite length_drop in Hn. cbn in Hn.
          apply lookup_lt_Some in Hb. lia. }
        apply H0. by rewrite lookup_drop, Nat.add_0_r.
      * apply lookup_ge_None in Hb. rewrite Nat.eqb_eq. lia.
    + specialize (IH (length (drop k l))).
      rewrite length_drop in IH. specialize (IH ltac:(lia) (drop k l) (S i - k)%nat).
      rewrite length_drop in IH. specialize (IH eq_refl Hd ltac:(lia)).
      rewrite drop_drop, lookup_drop in IH.
      replace (k + (S i - k))%nat with (S i) in IH by lia.
      replace (S i - k =? 0)%nat with false in IH by (symmetry; apply Nat.eqb_neq; lia).
      rewrite <- IH. case_match; [done|]. rewrite !Nat.eqb_eq. lia.
Qed.

Lemma boundary_end l : is_char_boundary l (len l) = true.
Proof.
  unfold len. rewrite is_char_boundary_nat. case_match; [done|].
  case_match eqn:Hb; [apply lookup_lt_Some in Hb; lia|apply Nat.eqb_refl].
Qed.

(** The position after an ASCII byte is a boundary. *)
Lemma boundary_after_ascii l (i : nat) b :
  utf8_valid l = true -> l !! i = Some b -> 0 <= b < 128 ->
  is_char_boundary l (Z.of_nat (S i)) = true.
Proof.
  intros Hv Hb Hr. pose proof (lookup_lt_Some _ _ _ Hb) as Hi.
  apply boundary_valid; [done|lia|].
  assert (utf8_valid (drop i l) = true) as Hd.
  { apply boundary_valid; [done|lia|]. rewrite is_char_boundary_nat, Hb.
    case_match; [done|]. unfold continuation, between. apply negb_true_iff.
    replace (128 <=? b) with false by lia. done. }
  rewrite (drop_S _ _ _ Hb) in Hd. cbn in Hd. unfold between in Hd.
  by replace ((0 <=? b) && (b <=? 127)) with true in Hd by lia.
Qed.

(** From a boundary the next one is at most four bytes away. *)
Lemma boundary_next l (i : nat) :
  utf8_valid l = true -> (i < length l)%nat -> is_char_boundary l (Z.of_nat i) = true ->
  exists j, (i < j <= i + 4)%nat /\ (j <= length l)%nat /\
    is_char_boundary l (Z.of_nat j) = true.
Proof.
  intros Hv Hi Hb. apply boundary_valid in Hb; [|done|lia].
  destruct (utf8_step (drop i l) Hb) as (k & Hk & Hkl & Hd & ? & ?).
  { intros Hn. apply (f_equal length) in Hn. rewrite length_drop in Hn. cbn in Hn. lia. }
  rewrite length_drop in Hkl. exists (i + k)%nat. split_and!; try lia.
  apply boundary_valid; [done|lia|]. by rewrite <- drop_drop.
Qed.

Lemma boundary_le l i : is_char_boundary l i = true -> 0 <= i <= len l.
Proof.
  unfold is_char_boundary, at_, len. destruct (Z.eqb_spec i 0); [lia|].
  destruct (0 <=? i) eqn:Hi; to_prop; [|lia].
  destruct (l !! Z.to_nat i) eqn:Hl; intros; [|lia].
  apply lookup_lt_Some in Hl. lia.
Qed.

(** A valid prefix leaves exactly the validity of the rest. *)
Lemma utf8_valid_app a b : utf8_valid a = true -> utf8_valid (a ++ b) = utf8_valid b.
Proof.
  remember (length a) as n eqn:Hn. revert a Hn. induction n as [n IH] using lt_wf_ind. intros a -> Hv.
  assert (forall t, (length t < length a)%nat -> utf8_valid t = true -> utf8_valid (t ++ b) = utf8_valid b) as IH'.
  { intros t Ht. by apply (IH _ Ht). }
  clear IH. destruct a as [|b0 t]; [done|]. cbn [utf8_valid app] in *.
  destruct (between 0 127 b0); [apply IH'; [cbn; lia|done]|].
  destruct t as [|c1 t1]; [done|]. cbn [app].
  destruct (between 194 223 b0).
  { apply andb_true_iff in Hv as [-> Hv]. apply IH'; [cbn; lia|done]. }
  destruct t1 as [|c2 t2]; [done|]. cbn [app].
  destruct (between 224 239 b0).
  { apply andb_true_iff in Hv as [Hg Hv]. rewrite Hg. apply IH'; [cbn; lia|done]. }
  destruct t2 as [|c3 t3]; [done|]. cbn [app].
  apply andb_true_iff in Hv as [Hg Hv]. rewrite Hg. apply IH'; [cbn; lia|done].
Qed.

(** A valid string that occurs in a valid string occurs between character boundaries. *)
Lemma str_get_occurrence text literal s :
  utf8_valid text = true -> utf8_valid literal = true -> literal <> [] ->
  slice text s (s + len literal) = Some literal -> str_get text s (s + len literal) = Some literal.
Proof.
  intros Ht Hl Hne Hs. pose proof (slice_inv _ _ _ _ Hs) as (H0 & H1 & Hd). pose proof (len_nonneg literal) as Hn.
  assert (drop (Z.to_nat s) text = literal ++ drop (Z.to_nat (s + len literal)) text) as Hsplit.
  { rewrite <- (take_drop (Z.to_nat (s + len literal - s)) (drop (Z.to_nat s) text)). rewrite <- Hd. f_equal.
    rewrite drop_drop. f_equal. lia. }
  assert (is_char_boundary text s = true) as Hb.
  { replace s with (Z.of_nat (Z.to_nat s)) by lia. rewrite is_char_boundary_nat.
    case_match; [done|]. rewrite <- (Nat.add_0_r (Z.to_nat s)), <- lookup_drop, Hsplit.
    destruct (utf8_step literal Hl Hne) as (k & Hk & Hkl & _ & _ & Hfirst).
    destruct literal as [|b literal]; [done|]. cbn. by destruct (Hfirst b eq_refl) as [-> _]. }
  unfold str_get. rewrite Hb, Hs. cbn [andb].
  assert (is_char_boundary text (s + len literal) = true) as ->; [|done].
  assert (utf8_valid (drop (Z.to_nat s) text) = true) as Hds.
  { apply boundary_valid; [done|unfold len in *; lia|]. by rewrite Z2Nat.id by lia. }
  rewrite Hsplit, utf8_valid_app in Hds by done.
  apply boundary_valid in Hds; [|done|unfold len in *; lia]. by rewrite Z2Nat.id in Hds by lia.
Qed.
