(* ===== verification/Json.v ===== *)
(** JSON values as [serde_json] has them, and the accessors the programs use.  Text is not
    modelled here: the functions that print and parse it are arguments of their users. *)

From stdpp Require Import gmap fin_maps fin_map_dom.
From S2P Require Import Prelude Bytes Utf8.

Module Value.
(** Numbers are [u64] here, or some other number. *)
Inductive t : Type :=
  | Null
  | Bool (b : bool)
  | Number (n : Z)
  | OtherNumber
  | String (text : list Z)
  | Array (items : list t)
  | Object (fields : gmap (list Z) t).

#[global] Instance t_eq : EqDecision t.
Proof.
  refine (fix go (v w : t) : Decision (v = w) :=
    match v, w return Decision (v = w) with
    | Null, Null | OtherNumber, OtherNumber => left eq_refl
    | Bool a, Bool b => cast_if (decide (a = b))
    | Number a, Number b => cast_if (decide (a = b))
    | String a, String b => cast_if (decide (a = b))
    | Array a, Array b => cast_if (@list_eq_dec _ go a b)
    | Object a, Object b => cast_if (@gmap_eq_dec _ _ _ _ go a b)
    | _, _ => right _
    end); congruence.
Defined.

(** [value.get(key)] *)
Definition get (value : t) (key : list Z) : option t :=
  match value with Object fields => fields !! key | _ => None end.
Definition as_str (value : t) : option (list Z) := match value with String text => Some text | _ => None end.
Definition as_u64 (value : t) : option Z := match value with Number n => Some n | _ => None end.
Definition is_boolean (value : t) : bool := match value with Bool _ => true | _ => false end.
Definition is_null (value : t) : bool := match value with Null => true | _ => false end.
(** [json!({..})]: the fields are distinct literals. *)
Definition object (fields : list (list Z * t)) : t := Object (list_to_map fields).
(** [value\[key\] = new] *)
Definition set (value : t) (key : list Z) (new : t) : t :=
  match value with Object fields => Object (<[key := new]> fields) | v => v end.

(** ** Reading what was written *)

(** The first field of that name. *)
Fixpoint find (fields : list (list Z * t)) (key : list Z) : option t :=
  match fields with
  | [] => None
  | (k, v) :: fields => if bool_decide (k = key) then Some v else find fields key
  end.

Lemma get_object fields key : get (object fields) key = find fields key.
Proof.
  induction fields as [|[k v] fields IH]; cbn [find]; [apply lookup_empty|]. unfold get, object in *. rewrite list_to_map_cons.
  case_bool_decide as Hk; [subst; by rewrite lookup_insert_eq|]. rewrite <- IH. by apply lookup_insert_ne.
Qed.

(** An object with exactly these keys. *)
Definition has_keys (value : t) (names : list (list Z)) : Prop :=
  exists fields, value = Object fields /\ dom fields = list_to_set names.

Lemma has_keys_object fields names : fields.*1 = names -> has_keys (object fields) names.
Proof. intros <-. exists (list_to_map fields). split; [done|]. by rewrite dom_list_to_map_L. Qed.
Lemma has_keys_set value names key new : has_keys value names -> bool_decide (key ∈ names) = true -> has_keys (set value key new) names.
Proof.
  intros (fields & -> & Hd) Hk%bool_decide_eq_true. eexists. split; [done|]. rewrite dom_insert_L, Hd.
  apply (elem_of_list_to_set (C := gset (list Z))) in Hk. set_solver.
Qed.
Lemma get_set value names key new other : has_keys value names ->
  get (set value key new) other = if bool_decide (key = other) then Some new else get value other.
Proof.
  intros (fields & -> & _). cbn. case_bool_decide as Hk; [subst; by rewrite lookup_insert_eq|by apply lookup_insert_ne].
Qed.

(** Several assignments, one after another. *)
Definition sets (value : t) (updates : list (list Z * t)) : t := foldl (fun v update => set v (fst update) (snd update)) value updates.

Lemma has_keys_sets names updates : forall value,
  has_keys value names -> forallb (fun update => bool_decide (fst update ∈ names)) updates = true -> has_keys (sets value updates) names.
Proof.
  induction updates as [|[k v] updates IH]; intros value Hv Hu; [done|]. cbn [forallb fst] in Hu. apply andb_true_iff in Hu as [Hk Hu].
  apply IH; [|done]. by apply has_keys_set.
Qed.

Lemma find_app a b key : find (a ++ b) key = match find a key with Some v => Some v | None => find b key end.
Proof. induction a as [|[k v] a IH]; cbn; [done|]. by case_bool_decide. Qed.

Lemma get_sets fields updates key : get (sets (object fields) updates) key = find (reverse updates ++ fields) key.
Proof.
  assert (has_keys (object fields) (fields.*1)) as Hk by by apply has_keys_object.
  assert (exists m, object fields = Object m) as [m Hm] by (destruct Hk as (m & ? & _); by exists m).
  rewrite find_app, <- (get_object fields), Hm. clear Hm Hk. revert m. induction updates as [|[k v] updates IH]; intros m; [done|].
  unfold sets in *. cbn [foldl set fst snd]. rewrite IH, reverse_cons, find_app. destruct (find (reverse updates) key); [done|].
  cbn. case_bool_decide as Hk; [subst; by rewrite lookup_insert_eq|by rewrite lookup_insert_ne].
Qed.
End Value.
Abbreviation Value := Value.t.

(** What is relied on of [serde_json::to_vec] and [serde_json::from_slice]: the text is one
    line of UTF-8, as control characters are escaped and nothing is pretty-printed, and
    parses to the value it came from. *)
Class SerdeJson := {
  to_vec : Value -> option (list Z);
  from_slice : list Z -> option Value;
  to_vec_line v text : to_vec v = Some text ->
    utf8_valid text = true /\ text <> [] /\ ~ (10 ∈ text) /\ ~ (13 ∈ text) /\ from_slice text = Some v }.
