(* ===== verification/Ids.v ===== *)
(** The crate [search-contracts]: source identities and digest bytes with their
    canonical textual forms (crates/search-contracts/src/{ids,error,bounds}.rs). *)

From S2P Require Import Prelude Bytes.

Definition MAX_FRAME_BYTES : Z := 8 * 1024 * 1024.

Inductive ContractErrorKind : Type := MalformedPayload | InvalidCharacter.
Record ContractError := { contract_kind : ContractErrorKind; contract_field : list Z }.
Definition contract_error (kind : ContractErrorKind) (field : list Z) : ContractError :=
  {| contract_kind := kind; contract_field := field |}.
Definition malformed (field : list Z) : ContractError := contract_error MalformedPayload field.
Definition contract_code (e : ContractError) : list Z := str "INVALID_CONTRACT_SHAPE".

(** [UuidBytes], [SourceNamespaceId] and [SourceId] wrap the same sixteen bytes. *)
Module Uuid.
Definition dash : Z := 45.

(** [lower_hex] *)
Definition lower_hex (value : Z) : option Z :=
  if (48 <=? value) && (value <=? 57) then Some (value - 48)
  else if (97 <=? value) && (value <=? 102) then Some (value - 97 + 10)
  else None.

Definition dash_position (position : Z) : bool :=
  (position =? 8) || (position =? 13) || (position =? 18) || (position =? 23).

(** The loop that fills [compact], skipping the four dash positions. *)
Fixpoint compact_loop (position : Z) (bytes : list Z) : result ContractError (list Z) :=
  match bytes with
  | [] => Ok []
  | byte :: rest =>
      if dash_position position then compact_loop (position + 1) rest
      else if negb (ascii_digit byte) && negb (ascii_af byte)
      then Err (contract_error InvalidCharacter (str "uuid"))
      else tail ← compact_loop (position + 1) rest; Ok (byte :: tail)
  end.

(** The loop over [compact.as_chunks::<2>()]. *)
Fixpoint pair_loop (compact : list Z) : result ContractError (list Z) :=
  match compact with
  | h :: l :: rest =>
      high ← ok_or (malformed (str "uuid")) (lower_hex h);
      low ← ok_or (malformed (str "uuid")) (lower_hex l);
      tail ← pair_loop rest;
      Ok (Z.lor (Z.shiftl high 4 mod 256) low :: tail)
  | _ => Ok []
  end.

Definition parse (value : list Z) : result ContractError (list Z) :=
  if negb (len value =? 36)
     || negb (bool_decide (at_ value 8 = Some dash))
     || negb (bool_decide (at_ value 13 = Some dash))
     || negb (bool_decide (at_ value 18 = Some dash))
     || negb (bool_decide (at_ value 23 = Some dash))
  then Err (contract_error InvalidCharacter (str "uuid"))
  else compact ← compact_loop 0 value; pair_loop compact.

(** [Display]: the five dash-separated groups of [hex_encode]. *)
Definition display (bytes : list Z) : list Z :=
  let hex := hex_encode bytes in
  take 8 hex ++ dash :: take 4 (drop 8 hex) ++ dash :: take 4 (drop 12 hex)
    ++ dash :: take 4 (drop 16 hex) ++ dash :: take 12 (drop 20 hex).

(** A stored identifier: sixteen bytes. *)
Definition wf (bytes : list Z) : Prop := length bytes = 16%nat /\ bytes_ok bytes.

(** ** Hex pairs *)

Lemma lower_hex_value_eq v : lower_hex v = lower_hex_value v.
Proof. done. Qed.

Lemma lower_hex_digit h a : lower_hex h = Some a -> h = hex_digit a /\ 0 <= a < 16.
Proof.
  intros Hh.
  assert (is_byte h) as Hb.
  { unfold lower_hex, is_byte in *. repeat case_match; to_prop; try done; lia. }
  revert h Hb Hh. intros h Hb.
  pose proof (forall_bytes (fun h => match lower_hex h with
    | Some a => (h =? hex_digit a) && (0 <=? a) && (a <? 16) | None => true end) h) as H.
  specialize (H ltac:(by vm_compute) Hb). cbv beta in H. intros Ha. rewrite Ha in H. to_prop. done.
Qed.

Lemma nibbles_join a b : 0 <= a < 16 -> 0 <= b < 16 ->
  let c := Z.lor (Z.shiftl a 4 mod 256) b in
  is_byte c /\ Z.shiftr c 4 = a /\ Z.land c 15 = b.
Proof.
  intros Ha Hb. cbn zeta.
  pose proof (forall_bytes (fun c => let c' := Z.lor (Z.shiftl (c / 16) 4 mod 256) (c mod 16) in
    (0 <=? c') && (c' <? 256) && (Z.shiftr c' 4 =? c / 16) && (Z.land c' 15 =? c mod 16))
    (16 * a + b)) as H.
  specialize (H ltac:(by vm_compute) ltac:(unfold is_byte; lia)). cbv beta zeta in H.
  replace ((16 * a + b) / 16) with a in H by (apply (Z.div_unique _ 16 a b); lia).
  replace ((16 * a + b) mod 16) with b in H by (apply (Z.mod_unique _ 16 a b); lia).
  to_prop. unfold is_byte. done.
Qed.

Lemma nibbles_split b : is_byte b ->
  Z.lor (Z.shiftl (Z.shiftr b 4) 4 mod 256) (Z.land b 15) = b.
Proof. revert b. refine (forall_bytes_dec _ _). by vm_compute. Qed.

Lemma pair_loop_hex l : bytes_ok l -> pair_loop (hex_encode l) = Ok l.
Proof.
  induction 1 as [|b l Hb _ IH]; [done|]. rewrite hex_encode_cons. cbn [hex_pair app pair_loop].
  destruct (hex_pair_value b Hb) as (H1 & H2 & _ & _).
  rewrite <- lower_hex_value_eq in H1, H2. rewrite H1. cbn [ok_or]. rewrite H2, IH. cbn. by rewrite nibbles_split.
Qed.

Lemma pair_loop_inv c l :
  pair_loop c = Ok l -> Nat.Even (length c) -> hex_encode l = c /\ bytes_ok l.
Proof.
  intros H Heven. remember (length c) as n eqn:Hn. revert c l Hn H.
  induction n as [n IH] using lt_wf_ind. intros [|h [|x c]] l -> H.
  - cbn in H. inv_ok. split; [done|constructor].
  - by destruct Heven as [[|k] Hk]; cbn in Hk; lia.
  - cbn [pair_loop] in H. inv_ok.
    destruct (IH (length c)) with (c := c) (l := x2) as [Hc Hl]; try done.
    + cbn. lia.
    + destruct Heven as [k Hk]. exists (k - 1)%nat. cbn in Hk. lia.
    + apply lower_hex_digit in H as [-> ?]. apply lower_hex_digit in H0 as [-> ?].
      destruct (nibbles_join x0 x1) as (? & Hhi & Hlo); [done..|].
      rewrite hex_encode_cons, Hc. unfold hex_pair. rewrite Hhi, Hlo.
      split; [done|by constructor].
Qed.

(** ** The dash layout *)

Lemma compact_segment p xs rest :
  Forall (fun d => lower_hex_byte d = true) xs ->
  (forall i, p <= i < p + len xs -> dash_position i = false) ->
  compact_loop p (xs ++ rest) = (tail ← compact_loop (p + len xs) rest; Ok (xs ++ tail)).
Proof.
  intros Hxs. revert p. induction Hxs as [|x xs Hx _ IH]; intros p Hd.
  - cbn [app]. rewrite len_nil, Z.add_0_r. by destruct (compact_loop p rest).
  - cbn [app compact_loop]. rewrite (Hd p) by (rewrite len_cons; pose proof (len_nonneg xs); lia).
    unfold lower_hex_byte in Hx. rewrite <- negb_orb, Hx. cbn [negb].
    rewrite IH by (intros i Hi; apply Hd; rewrite len_cons; lia).
    rewrite len_cons. replace (p + 1 + len xs) with (p + (1 + len xs)) by lia.
    by destruct (compact_loop (p + (1 + len xs)) rest).
Qed.

Lemma compact_dash p c rest :
  dash_position p = true -> compact_loop p (c :: rest) = compact_loop (p + 1) rest.
Proof. intros Hd. cbn. by rewrite Hd. Qed.

(** Success of the loop splits a segment off: every byte was lowercase hex. *)
Lemma compact_segment_inv p xs rest c :
  (forall i, p <= i < p + len xs -> dash_position i = false) ->
  compact_loop p (xs ++ rest) = Ok c ->
  exists tail, c = xs ++ tail /\ compact_loop (p + len xs) rest = Ok tail.
Proof.
  revert p c. induction xs as [|x xs IH]; intros p c Hd Hc.
  - exists c. by rewrite len_nil, Z.add_0_r.
  - cbn [app compact_loop] in Hc.
    rewrite (Hd p) in Hc by (rewrite len_cons; pose proof (len_nonneg xs); lia).
    destruct (negb _ && negb _); [done|]. inv_ok.
    destruct (IH (p + 1) x0) as (tail & -> & Ht); [|done|].
    { intros i Hi. apply Hd. rewrite len_cons. lia. }
    exists tail. rewrite len_cons. by replace (p + (1 + len xs)) with (p + 1 + len xs) by lia.
Qed.

Lemma take_drop_next {A} (i n : nat) (l : list A) :
  take i l ++ take n (drop i l) = take (i + n) l.
Proof. by rewrite <- take_take_drop. Qed.

Lemma groups (h : list Z) : length h = 32%nat ->
  take 8 h ++ take 4 (drop 8 h) ++ take 4 (drop 12 h) ++ take 4 (drop 16 h)
    ++ take 12 (drop 20 h) = h.
Proof.
  intros Hl. rewrite !(assoc_L (++)), take_drop_next, take_drop_next, take_drop_next,
    take_drop_next. apply take_ge. lia.
Qed.

Lemma hex_lower_part (h : list Z) i n :
  Forall (fun d => lower_hex_byte d = true) h ->
  Forall (fun d => lower_hex_byte d = true) (take n (drop i h)).
Proof. intros. by apply Forall_take, Forall_drop. Qed.

Lemma at_app_mid (xs : list Z) y ys i : i = len xs -> at_ (xs ++ y :: ys) i = Some y.
Proof.
  intros ->. unfold at_, len. is_true (0 <=? Z.of_nat (length xs)).
  rewrite Nat2Z.id. by apply list_lookup_middle.
Qed.

(** The textual shape of a UUID: five groups separated by dashes. *)
Lemma shape a b c d e :
  length a = 8%nat -> length b = 4%nat -> length c = 4%nat -> length d = 4%nat ->
  length e = 12%nat ->
  let v := a ++ dash :: b ++ dash :: c ++ dash :: d ++ dash :: e in
  len v = 36 /\ at_ v 8 = Some dash /\ at_ v 13 = Some dash /\ at_ v 18 = Some dash
    /\ at_ v 23 = Some dash.
Proof.
  intros Ha Hb Hc Hd He. cbn zeta. split_and!.
  - unfold len. rewrite !length_app. cbn [length]. rewrite !length_app. cbn [length].
    rewrite !length_app. cbn [length]. rewrite !length_app. cbn [length]. lia.
  - apply at_app_mid. unfold len. lia.
  - replace (a ++ dash :: b ++ dash :: c ++ dash :: d ++ dash :: e)
      with ((a ++ dash :: b) ++ dash :: c ++ dash :: d ++ dash :: e) by (by rewrite <- (assoc_L (++))).
    apply at_app_mid. unfold len. rewrite length_app. cbn [length]. lia.
  - replace (a ++ dash :: b ++ dash :: c ++ dash :: d ++ dash :: e)
      with ((a ++ dash :: b ++ dash :: c) ++ dash :: d ++ dash :: e)
      by (rewrite <- (assoc_L (++)); cbn; by rewrite <- (assoc_L (++))).
    apply at_app_mid. unfold len. rewrite !length_app. cbn [length].
    rewrite length_app. cbn [length]. lia.
  - replace (a ++ dash :: b ++ dash :: c ++ dash :: d ++ dash :: e)
      with ((a ++ dash :: b ++ dash :: c ++ dash :: d) ++ dash :: e)
      by (rewrite <- (assoc_L (++)); cbn; rewrite <- (assoc_L (++)); cbn;
          by rewrite <- (assoc_L (++))).
    apply at_app_mid. unfold len. rewrite !length_app. cbn [length].
    rewrite !length_app. cbn [length]. rewrite length_app. cbn [length]. lia.
Qed.

Lemma shape_inv v :
  len v = 36 -> at_ v 8 = Some dash -> at_ v 13 = Some dash -> at_ v 18 = Some dash ->
  at_ v 23 = Some dash ->
  v = take 8 v ++ dash :: take 4 (drop 9 v) ++ dash :: take 4 (drop 14 v)
    ++ dash :: take 4 (drop 19 v) ++ dash :: take 12 (drop 24 v).
Proof.
  intros Hl H8 H13 H18 H23.
  change (v !! 8%nat = Some dash) in H8. change (v !! 13%nat = Some dash) in H13.
  change (v !! 18%nat = Some dash) in H18. change (v !! 23%nat = Some dash) in H23.
  rewrite <- (take_drop 8 v) at 1. f_equal. rewrite (drop_S _ _ _ H8). f_equal.
  rewrite <- (take_drop 4 (drop 9 v)) at 1. f_equal. rewrite drop_drop. cbn [Nat.add].
  rewrite (drop_S _ _ _ H13). f_equal.
  rewrite <- (take_drop 4 (drop 14 v)) at 1. f_equal. rewrite drop_drop. cbn [Nat.add].
  rewrite (drop_S _ _ _ H18). f_equal.
  rewrite <- (take_drop 4 (drop 19 v)) at 1. f_equal. rewrite drop_drop. cbn [Nat.add].
  rewrite (drop_S _ _ _ H23). f_equal.
  rewrite take_ge; [done|]. rewrite length_drop. unfold len in Hl. lia.
Qed.

Lemma segment_free p n :
  (p = 0 /\ n = 8 \/ p = 9 /\ n = 4 \/ p = 14 /\ n = 4 \/ p = 19 /\ n = 4 \/ p = 24 /\ n = 12) ->
  forall i, p <= i < p + n -> dash_position i = false.
Proof. intros Hp i Hi. unfold dash_position. solve_bool. Qed.

(** Reading the five groups back. *)
Lemma compact_shape a b c d e :
  length a = 8%nat -> length b = 4%nat -> length c = 4%nat -> length d = 4%nat ->
  length e = 12%nat ->
  Forall (fun x => lower_hex_byte x = true) (a ++ b ++ c ++ d ++ e) ->
  compact_loop 0 (a ++ dash :: b ++ dash :: c ++ dash :: d ++ dash :: e)
    = Ok (a ++ b ++ c ++ d ++ e).
Proof.
  intros Ha Hb Hc Hd He Hall. rewrite !Forall_app in Hall. destruct Hall as (Fa & Fb & Fc & Fd & Fe).
  assert (len a = 8 /\ len b = 4 /\ len c = 4 /\ len d = 4 /\ len e = 12) as (La & Lb & Lc & Ld & Le)
    by (unfold len; lia).
  rewrite compact_segment by (done || (apply segment_free; lia)). rewrite compact_dash by (by rewrite La).
  rewrite La. rewrite compact_segment by (done || (apply segment_free; lia)).
  rewrite compact_dash by (by rewrite Lb). rewrite Lb.
  rewrite compact_segment by (done || (apply segment_free; lia)).
  rewrite compact_dash by (by rewrite Lc). rewrite Lc.
  rewrite compact_segment by (done || (apply segment_free; lia)).
  rewrite compact_dash by (by rewrite Ld). rewrite Ld.
  rewrite <- (app_nil_r e) at 1. rewrite compact_segment by (done || (apply segment_free; lia)).
  cbn. by rewrite app_nil_r.
Qed.

Lemma compact_shape_inv a b c d e x :
  length a = 8%nat -> length b = 4%nat -> length c = 4%nat -> length d = 4%nat ->
  length e = 12%nat ->
  compact_loop 0 (a ++ dash :: b ++ dash :: c ++ dash :: d ++ dash :: e) = Ok x ->
  x = a ++ b ++ c ++ d ++ e.
Proof.
  intros Ha Hb Hc Hd He H.
  assert (len a = 8 /\ len b = 4 /\ len c = 4 /\ len d = 4 /\ len e = 12) as (La & Lb & Lc & Ld & Le)
    by (unfold len; lia).
  apply compact_segment_inv in H as (x1 & -> & H); [|apply segment_free; lia].
  rewrite La, compact_dash in H by done.
  apply compact_segment_inv in H as (x2 & -> & H); [|apply segment_free; lia].
  rewrite Lb, compact_dash in H by done.
  apply compact_segment_inv in H as (x3 & -> & H); [|apply segment_free; lia].
  rewrite Lc, compact_dash in H by done.
  apply compact_segment_inv in H as (x4 & -> & H); [|apply segment_free; lia].
  rewrite Ld, compact_dash in H by done. rewrite <- (app_nil_r e) in H.
  apply compact_segment_inv in H as (x5 & -> & H); [|apply segment_free; lia].
  cbn in H. inv_ok. by rewrite app_nil_r.
Qed.

Lemma display_length b : wf b -> len (display b) = 36.
Proof.
  intros [Hl Hb]. unfold display. cbn zeta.
  apply shape; rewrite length_take, ?length_drop, hex_encode_length; lia.
Qed.

(** The canonical spelling: [parse] accepts exactly the strings [display] prints. *)
Lemma parse_display_ok b : wf b -> parse (display b) = Ok b.
Proof.
  intros [Hl Hb]. pose proof (hex_encode_length b) as Hh.
  assert (length (hex_encode b) = 32%nat) as H32 by lia. unfold parse, display. cbn zeta.
  edestruct (shape (take 8 (hex_encode b)) (take 4 (drop 8 (hex_encode b)))
    (take 4 (drop 12 (hex_encode b))) (take 4 (drop 16 (hex_encode b)))
    (take 12 (drop 20 (hex_encode b)))) as (-> & -> & -> & -> & ->);
    try (rewrite length_take, ?length_drop; lia).
  cbn [Z.eqb Pos.eqb negb orb]. rewrite !bool_decide_true by done. cbn [negb orb].
  rewrite compact_shape; try (rewrite length_take, ?length_drop; lia).
  - cbn. rewrite groups by done. by apply pair_loop_hex.
  - rewrite groups by done. by apply hex_encode_lower.
Qed.

Lemma parse_ok_display v b : parse v = Ok b -> display b = v /\ wf b.
Proof.
  unfold parse. destruct (_ || _) eqn:Hg; [done|]. to_prop. intros (c & Hc & Hp)%bind_ok_inv.
  assert (len v = 36) as Hlen36 by done. apply shape_inv in Hlen36 as Hv; [|done..].
  set (g1 := take 8 v) in *. set (g2 := take 4 (drop 9 v)) in *.
  set (g3 := take 4 (drop 14 v)) in *. set (g4 := take 4 (drop 19 v)) in *.
  set (g5 := take 12 (drop 24 v)) in *.
  assert (length g1 = 8%nat /\ length g2 = 4%nat /\ length g3 = 4%nat /\ length g4 = 4%nat
    /\ length g5 = 12%nat) as (L1 & L2 & L3 & L4 & L5).
  { unfold len in Hlen36. subst g1 g2 g3 g4 g5. rewrite !length_take, !length_drop. lia. }
  rewrite Hv in Hc. apply compact_shape_inv in Hc; [|done..]. subst c.
  assert (length (g1 ++ g2 ++ g3 ++ g4 ++ g5) = 32%nat) as L by (rewrite !length_app; lia).
  apply pair_loop_inv in Hp as [He Hb]; [|rewrite L; by exists 16%nat].
  pose proof (hex_encode_length b) as Hlen. rewrite He, L in Hlen.
  split; [|split; [lia|done]]. unfold display. cbn zeta. rewrite He. rewrite Hv at 1.
  rewrite take_app_length' by lia.
  rewrite (drop_app_length' g1) by lia. rewrite (take_app_length' g2) by lia.
  rewrite (drop_app_add' g1 _ 8 4) by lia. rewrite (drop_app_length' g2) by lia.
  rewrite (take_app_length' g3) by lia.
  rewrite (drop_app_add' g1 _ 8 8) by lia. rewrite (drop_app_add' g2 _ 4 4) by lia.
  rewrite (drop_app_length' g3), (take_app_length' g4) by lia.
  rewrite (drop_app_add' g1 _ 8 12) by lia. rewrite (drop_app_add' g2 _ 4 8) by lia.
  rewrite (drop_app_add' g3 _ 4 4), (drop_app_length' g4) by lia.
  by rewrite (take_ge g5) by lia.
Qed.

(** The textual form of a source identity is canonical: [parse] accepts a string
    exactly when it is the [Display] of sixteen stored bytes, and returns those bytes.
    Uppercase digits, misplaced dashes and other spellings are all refused. *)
Theorem uuid_canonical v b : parse v = Ok b <-> wf b /\ v = display b.
Proof.
  split.
  - intros H. by destruct (parse_ok_display v b H) as [<- ?].
  - intros [Hb ->]. by apply parse_display_ok.
Qed.
End Uuid.

(** [Blake3Digest32]: thirty-two bytes, displayed as lowercase hex. *)
Module Digest.
Definition wf (bytes : list Z) : Prop := length bytes = 32%nat /\ bytes_ok bytes.
Definition display (bytes : list Z) : list Z := hex_encode bytes.
End Digest.
