(* ===== verification/Registry.v ===== *)
(** The crate [search-source-registry]: preparation settings, object references,
    native file keys and current source rows
    (crates/search-source/search-source-registry/src/lib.rs). *)

From S2P Require Import Prelude Bytes Ids.

Definition SOURCE_OBJECT_FORMAT_VERSION : Z := 1.
Definition MAX_SOURCE_OBJECT_BYTES : Z := 8 * 1024 * 1024.
Definition MAX_PREPARATION_UNIT_BYTES : Z := 64 * 1024.
Definition MAX_PREPARATION_RESPONSE_BYTES : Z := 6 * 64 * 1024 + 4096.
Definition MAX_PUBLICATION_RESPONSE_BYTES : Z := 64 * 2048 + 4096.

Record PreparationSettings := {
  utf8_version : Z;
  line_unitizer_version : Z;
  preferred_unit_bytes : Z;
  max_unit_bytes : Z }.
#[export] Instance PreparationSettings_eq : EqDecision PreparationSettings.
Proof. solve_decision. Defined.

Definition default_settings : PreparationSettings :=
  {| utf8_version := 1; line_unitizer_version := 1;
     preferred_unit_bytes := 16 * 1024; max_unit_bytes := MAX_PREPARATION_UNIT_BYTES |}.

Definition is_supported (s : PreparationSettings) : bool :=
  (utf8_version s =? 1) && (line_unitizer_version s =? 1)
  && (0 <? preferred_unit_bytes s)
  && (preferred_unit_bytes s <=? max_unit_bytes s)
  && (max_unit_bytes s <=? MAX_PREPARATION_UNIT_BYTES).

(** Field widths: [u16], [u16], [u32], [u32]. *)
Definition settings_wf (s : PreparationSettings) : Prop :=
  0 <= utf8_version s <= U16_MAX /\ 0 <= line_unitizer_version s <= U16_MAX /\
  0 <= preferred_unit_bytes s <= U32_MAX /\ 0 <= max_unit_bytes s <= U32_MAX.

Inductive ObjectKind : Type := Source | Prepared.
#[export] Instance ObjectKind_eq : EqDecision ObjectKind.
Proof. solve_decision. Defined.

Definition kind_tag (k : ObjectKind) : Z := match k with Source => 1 | Prepared => 2 end.
Definition kind_from_tag (tag : Z) : option ObjectKind :=
  if tag =? 1 then Some Source else if tag =? 2 then Some Prepared else None.
Definition kind_name (k : ObjectKind) : list Z :=
  match k with Source => str "source" | Prepared => str "prepared" end.

Record ObjectRef := {
  format_version : Z;
  kind : ObjectKind;
  digest : list Z;
  byte_length : Z }.
#[export] Instance ObjectRef_eq : EqDecision ObjectRef.
Proof. solve_decision. Defined.

Definition source_ref (d : list Z) (n : Z) : ObjectRef :=
  {| format_version := SOURCE_OBJECT_FORMAT_VERSION; kind := Source; digest := d; byte_length := n |}.
Definition prepared_ref (d : list Z) (n : Z) : ObjectRef :=
  {| format_version := SOURCE_OBJECT_FORMAT_VERSION; kind := Prepared; digest := d; byte_length := n |}.

Definition object_wf (o : ObjectRef) : Prop :=
  0 <= format_version o <= U16_MAX /\ Digest.wf (digest o) /\ 0 <= byte_length o <= U64_MAX.

Inductive NativeFileKey : Type :=
  | Unix (device inode : Z)
  | Windows (volume_serial file_index : Z).
#[export] Instance NativeFileKey_eq : EqDecision NativeFileKey.
Proof. solve_decision. Defined.

Definition key_wf (k : NativeFileKey) : Prop :=
  match k with
  | Unix device inode => 0 <= device <= U64_MAX /\ 0 <= inode <= U64_MAX
  | Windows volume index => 0 <= volume <= U32_MAX /\ 0 <= index <= U64_MAX
  end.

(** [to_bytes]: a zeroed array of seventeen bytes, filled from fixed offsets. *)
Definition key_to_bytes (k : NativeFileKey) : list Z :=
  match k with
  | Unix device inode => [1] ++ le_bytes 8 device ++ le_bytes 8 inode
  | Windows volume index => [2] ++ le_bytes 4 volume ++ [0; 0; 0; 0] ++ le_bytes 8 index
  end.

(** [from_bytes] on an array of seventeen bytes. *)
Definition key_from_bytes (bytes : list Z) : option NativeFileKey :=
  match at_ bytes 0 with
  | Some tag =>
      if tag =? 1 then
        device ← slice bytes 1 9; inode ← slice bytes 9 17;
        Some (Unix (le_value device) (le_value inode))
      else if (tag =? 2) && bool_decide (slice bytes 5 9 = Some [0; 0; 0; 0]) then
        volume ← slice bytes 1 5; index ← slice bytes 9 17;
        Some (Windows (le_value volume) (le_value index))
      else None
  | None => None
  end.

Record CurrentSourceRecord := {
  source_namespace_id : list Z;
  source_id : list Z;
  row_revision : Z;
  registration_revision : Z;
  locator : list Z;
  file_key : NativeFileKey;
  object_ref : ObjectRef }.
#[export] Instance CurrentSourceRecord_eq : EqDecision CurrentSourceRecord.
Proof. solve_decision. Defined.

(** The Rust type's own range: identities of sixteen bytes, [u64] revisions. *)
Definition record_wf (r : CurrentSourceRecord) : Prop :=
  Uuid.wf (source_namespace_id r) /\ Uuid.wf (source_id r) /\
  0 <= row_revision r <= U64_MAX /\ 0 <= registration_revision r <= U64_MAX /\
  bytes_ok (locator r) /\ len (locator r) <= ISIZE_MAX /\
  key_wf (file_key r) /\ object_wf (object_ref r).

(** ** Laws *)

Lemma kind_from_tag_tag k : kind_from_tag (kind_tag k) = Some k.
Proof. by destruct k. Qed.

Lemma kind_from_tag_inv t k : kind_from_tag t = Some k -> t = kind_tag k.
Proof.
  unfold kind_from_tag. destruct (Z.eqb_spec t 1), (Z.eqb_spec t 2); naive_solver.
Qed.

Lemma key_to_bytes_length k : length (key_to_bytes k) = 17%nat.
Proof.
  destruct k; cbn [key_to_bytes]; rewrite !length_app, !le_bytes_length; reflexivity.
Qed.

Lemma key_to_bytes_ok k : bytes_ok (key_to_bytes k).
Proof.
  destruct k; cbn [key_to_bytes]; unfold bytes_ok; rewrite !Forall_app; split_and!;
    try apply le_bytes_ok; repeat constructor; unfold is_byte; lia.
Qed.

Lemma slice_mid {A} (a b c : list A) s e :
  s = len a -> e = len a + len b -> slice (a ++ b ++ c) s e = Some b.
Proof.
  intros -> ->. pose proof (len_nonneg a). pose proof (len_nonneg b). pose proof (len_nonneg c).
  rewrite slice_some by (rewrite ?len_app; lia). unfold len.
  rewrite drop_app_length' by lia. by rewrite take_app_length' by lia.
Qed.

Lemma slice_end {A} (a b : list A) s e :
  s = len a -> e = len a + len b -> slice (a ++ b) s e = Some b.
Proof. intros Hs He. rewrite <- (app_nil_r b) at 1. by apply slice_mid. Qed.

Lemma key_from_to_bytes k : key_wf k -> key_from_bytes (key_to_bytes k) = Some k.
Proof.
  destruct k as [d i|v i]; intros [H1 H2]; unfold key_from_bytes.
  - change (at_ (key_to_bytes (Unix d i)) 0) with (Some 1). cbn [Z.eqb Pos.eqb].
    assert (slice (key_to_bytes (Unix d i)) 1 9 = Some (le_bytes 8 d)) as ->.
    { cbn [key_to_bytes]. apply slice_mid; by rewrite ?len_le_bytes. }
    assert (slice (key_to_bytes (Unix d i)) 9 17 = Some (le_bytes 8 i)) as ->.
    { cbn [key_to_bytes]. rewrite (assoc_L (++)).
      apply slice_end; by rewrite ?len_app, ?len_le_bytes. }
    cbn. by rewrite !le_value_le_bytes by width.
  - change (at_ (key_to_bytes (Windows v i)) 0) with (Some 2). cbn [Z.eqb Pos.eqb].
    assert (slice (key_to_bytes (Windows v i)) 5 9 = Some [0; 0; 0; 0]) as ->.
    { cbn [key_to_bytes]. rewrite (assoc_L (++)).
      apply slice_mid; by rewrite ?len_app, ?len_le_bytes. }
    rewrite bool_decide_true by done. cbn [andb].
    assert (slice (key_to_bytes (Windows v i)) 1 5 = Some (le_bytes 4 v)) as ->.
    { cbn [key_to_bytes]. apply slice_mid; by rewrite ?len_le_bytes. }
    assert (slice (key_to_bytes (Windows v i)) 9 17 = Some (le_bytes 8 i)) as ->.
    { cbn [key_to_bytes]. rewrite !(assoc_L (++)).
      apply slice_end; by rewrite ?len_app, ?len_le_bytes. }
    cbn. by rewrite !le_value_le_bytes by width.
Qed.

Lemma split_at_slice {A} (l : list A) s e x :
  slice l s e = Some x -> l = take (Z.to_nat s) l ++ x ++ drop (Z.to_nat e) l.
Proof.
  intros H. apply slice_inv in H as (H1 & H2 & ->).
  rewrite <- (take_drop (Z.to_nat s) l) at 1. f_equal.
  rewrite <- (take_drop (Z.to_nat (e - s)) (drop (Z.to_nat s) l)) at 1. f_equal.
  rewrite drop_drop. f_equal. lia.
Qed.

Lemma slice_bytes_ok l s e x : slice l s e = Some x -> bytes_ok l -> bytes_ok x.
Proof. intros H Hl. apply slice_inv in H as (_ & _ & ->). by apply Forall_take, Forall_drop. Qed.

Lemma length_cons_inv {A} (l : list A) n :
  length l = S n -> exists x t, l = x :: t /\ length t = n.
Proof. destruct l; [done|]. intros [= <-]. eauto. Qed.

Lemma key_to_from_bytes b k :
  length b = 17%nat -> bytes_ok b -> key_from_bytes b = Some k -> key_to_bytes k = b /\ key_wf k.
Proof.
  intros Hl Hb. unfold key_from_bytes. destruct b as [|t b]; [done|].
  change (at_ (t :: b) 0) with (Some t). cbv iota. injection Hl as Hl.
  apply Forall_cons in Hb as [Ht Hb].
  assert (forall s e (x : list Z), 1 <= s -> slice (t :: b) s e = Some x ->
    x = take (Z.to_nat (e - s)) (drop (Z.to_nat (s - 1)) b) /\ bytes_ok x /\ len x = e - s) as Hsl.
  { intros s e x Hs Hx. split_and!.
    - apply slice_inv in Hx as (_ & _ & ->). f_equal.
      replace (Z.to_nat s) with (S (Z.to_nat (s - 1))) by lia. done.
    - eapply slice_bytes_ok; [done|by constructor].
    - by eapply slice_length. }
  destruct (Z.eqb_spec t 1) as [->|Hne].
  - destruct (slice _ 1 9) as [d|] eqn:Hd; [|done]. destruct (slice _ 9 17) as [i|] eqn:Hi; [|done].
    cbn. intros [= <-]. apply Hsl in Hd as (Hd & Hdo & Hdl); [|lia].
    apply Hsl in Hi as (Hi & Hio & Hil); [|lia]. unfold len in *.
    pose proof (le_value_bound d Hdo). pose proof (le_value_bound i Hio). split.
    + cbn [key_to_bytes]. rewrite !le_bytes_le_value by (done || lia). cbn [app]. f_equal.
      rewrite Hd, Hi. change (Z.to_nat (9 - 1)) with 8%nat. change (Z.to_nat (17 - 9)) with 8%nat.
      change (Z.to_nat (1 - 1)) with 0%nat. rewrite drop_0, (take_ge (drop 8 b)), take_drop; [done|].
      rewrite length_drop. lia.
    + unfold key_wf, len in *. rewrite Hdl, Hil in *. change (9 - 1) with (Z.of_nat 8) in *.
      change (17 - 9) with (Z.of_nat 8) in *. width.
  - destruct (Z.eqb_spec t 2) as [->|]; [|done]. cbn [andb]. case_bool_decide as Hz; [|done].
    destruct (slice _ 1 5) as [v|] eqn:Hv; [|done]. destruct (slice _ 9 17) as [i|] eqn:Hi; [|done].
    cbn. intros [= <-]. apply Hsl in Hz as (Hz & _ & _); [|lia].
    apply Hsl in Hv as (Hv & Hvo & Hvl); [|lia].
    apply Hsl in Hi as (Hi & Hio & Hil); [|lia]. unfold len in *.
    pose proof (le_value_bound v Hvo). pose proof (le_value_bound i Hio). split.
    + cbn [key_to_bytes]. rewrite !le_bytes_le_value by (done || lia). cbn [app]. f_equal.
      change (0 :: 0 :: 0 :: 0 :: i) with ([0; 0; 0; 0] ++ i). rewrite Hz, Hv, Hi.
      change (Z.to_nat (9 - 1)) with 8%nat. change (Z.to_nat (17 - 9)) with 8%nat.
      change (Z.to_nat (1 - 1)) with 0%nat. change (Z.to_nat (5 - 1)) with 4%nat.
      change (Z.to_nat (9 - 5)) with 4%nat. rewrite drop_0, (take_ge (drop 8 b)) by (rewrite length_drop; lia).
      replace (drop 8 b) with (drop 4 (drop 4 b)) by (by rewrite drop_drop).
      by rewrite !take_drop.
    + unfold key_wf, len in *. rewrite Hvl, Hil in *. change (5 - 1) with (Z.of_nat 4) in *.
      change (17 - 9) with (Z.of_nat 8) in *. width.
Qed.

(** The fixed native-key encoding is a bijection between file keys and the accepted
    seventeen-byte arrays: decoding inverts encoding, and every accepted array (unknown
    tags and nonzero padding are refused) is the encoding of the key it decodes to. *)
Theorem native_key_bijection b k :
  length b = 17%nat /\ bytes_ok b /\ key_from_bytes b = Some k <->
  key_wf k /\ b = key_to_bytes k.
Proof.
  split.
  - intros (Hl & Hb & Hk). by destruct (key_to_from_bytes b k Hl Hb Hk) as [<- ?].
  - intros [Hk ->]. split_and!;
      [apply key_to_bytes_length|apply key_to_bytes_ok|by apply key_from_to_bytes].
Qed.
