(* ===== verification/Materializer.v ===== *)
(** The crate [search-materializer]: unchanged UTF-8 text with its exact logical lines
    (crates/search-prep/search-materializer/src/{error,utf8/model,utf8/scan,utf8/materialize}.rs). *)

From S2P Require Import Prelude Bytes Utf8.

Inductive MaterializationError : Type :=
  | InvalidLimits | InputTooLarge | OutputTooLarge | BinaryContent | InvalidUtf8
  | TooManyLines | AllocationFailed | OffsetOverflow | Cancelled | Deadline.
#[export] Instance MaterializationError_eq : EqDecision MaterializationError.
Proof. solve_decision. Defined.

Definition code (e : MaterializationError) : list Z :=
  match e with
  | InvalidLimits => str "MATERIALIZATION_INVALID_LIMITS"
  | InputTooLarge => str "MATERIALIZATION_INPUT_TOO_LARGE"
  | OutputTooLarge => str "MATERIALIZATION_OUTPUT_TOO_LARGE"
  | BinaryContent => str "MATERIALIZATION_BINARY_CONTENT"
  | InvalidUtf8 => str "MATERIALIZATION_INVALID_UTF8"
  | TooManyLines => str "MATERIALIZATION_TOO_MANY_LINES"
  | AllocationFailed => str "MATERIALIZATION_ALLOCATION_FAILED"
  | OffsetOverflow => str "MATERIALIZATION_OFFSET_OVERFLOW"
  | Cancelled => str "MATERIALIZATION_CANCELLED"
  | Deadline => str "MATERIALIZATION_DEADLINE"
  end.

#[export] Instance materialization_interrupt : Interrupt MaterializationError :=
  fun e => e = Cancelled \/ e = Deadline \/ e = AllocationFailed.

Record MaterializationLimits := {
  max_input_bytes : Z;
  max_output_bytes : Z;
  max_lines : Z }.

Record LineSpan := {
  line_index : Z;
  source_start : Z;
  source_end : Z;
  content_end : Z }.
#[export] Instance LineSpan_eq : EqDecision LineSpan.
Proof. solve_decision. Defined.

Record MaterializedText := { text : list Z; lines : list LineSpan }.

(** [size_of::<LineSpan>()]: four [u64] fields. *)
Definition LINE_SPAN_BYTES : Z := 32.

(** [MaterializationLimits::validate] *)
Definition validate (limits : MaterializationLimits) : result MaterializationError unit :=
  _ ← reject_if ((max_input_bytes limits =? 0) || (max_output_bytes limits =? 0)
                 || (max_lines limits =? 0)) InvalidLimits;
  _ ← ok_or OffsetOverflow
        (option_keep (fun bytes => bytes <=? ISIZE_MAX)
          (checked_mul USIZE_MAX (max_lines limits) LINE_SPAN_BYTES));
  Ok tt.

(** [scan.rs: check] *)
Definition check : M MaterializationError unit := check_with Cancelled Deadline.

(** ** Binary classification *)

(** A byte below 0x20 other than tab, line feed, carriage return and form feed. *)
Definition is_control (byte : Z) : bool :=
  (byte <? 32) && negb ((byte =? 9) || (byte =? 10) || (byte =? 13) || (byte =? 12)).

(** [bytes.len().div_ceil(100).max(4)] *)
Definition control_threshold (bytes : list Z) : Z := Z.max ((len bytes + 99) / 100) 4.

(** The inner loop over one chunk. *)
Fixpoint control_chunk (threshold controls : Z) (chunk : list Z) : result MaterializationError Z :=
  match chunk with
  | [] => Ok controls
  | byte :: rest =>
      if byte =? 0 then Err BinaryContent
      else if is_control byte then
        if threshold <=? controls + 1 then Err BinaryContent
        else control_chunk threshold (controls + 1) rest
      else control_chunk threshold controls rest
  end.

(** The outer loop, with its check before each chunk. *)
Fixpoint control_chunks (threshold controls : Z) (cs : list (list Z)) : M MaterializationError unit :=
  match cs with
  | [] => mret tt
  | chunk :: rest =>
      _ ← check;
      controls' ← lift (control_chunk threshold controls chunk);
      control_chunks threshold controls' rest
  end.

Definition reject_binary_controls (bytes : list Z) : M MaterializationError unit :=
  control_chunks (control_threshold bytes) 0 (chunks 1024 bytes).

(** ** Logical lines *)

(** [push_line]: a bounded push into a vector of the given capacity. *)
Definition push_line (ls : list LineSpan) (capacity start content_stop stop maximum : Z)
    : M MaterializationError (list LineSpan * Z) :=
  _ ← lift (reject_if (maximum <=? len ls) TooManyLines);
  capacity' ← grow AllocationFailed (len ls) capacity maximum;
  index ← lift (ok_or OffsetOverflow (try_from U64_MAX (len ls)));
  start64 ← lift (ok_or OffsetOverflow (try_from U64_MAX start));
  stop64 ← lift (ok_or OffsetOverflow (try_from U64_MAX stop));
  content64 ← lift (ok_or OffsetOverflow (try_from U64_MAX content_stop));
  mret (ls ++ [{| line_index := index; source_start := start64; source_end := stop64;
                  content_end := content64 |}], capacity').

(** The [while] loop of [scan_lines]; [rest] is [bytes\[index..\]]. *)
Fixpoint scan_loop (maximum : Z) (rest : list Z) (index start : Z)
    (ls : list LineSpan) (capacity : Z) : M MaterializationError (Z * (list LineSpan * Z)) :=
  match rest with
  | [] => mret (start, (ls, capacity))
  | byte :: tail =>
      _ ← (if index mod 1024 =? 0 then check else mret tt);
      let push terminator after :=
        stop ← lift (ok_or OffsetOverflow (checked_add USIZE_MAX index terminator));
        pushed ← push_line ls capacity start index stop maximum;
        after stop pushed in
      match tail with
      | next :: tail' =>
          if (byte =? 13) && (next =? 10) then
            push 2 (fun stop pushed => scan_loop maximum tail' stop stop (fst pushed) (snd pushed))
          else if (byte =? 10) || (byte =? 13) then
            push 1 (fun stop pushed => scan_loop maximum tail stop stop (fst pushed) (snd pushed))
          else scan_loop maximum tail (index + 1) start ls capacity
      | [] =>
          if (byte =? 10) || (byte =? 13) then
            push 1 (fun stop pushed => scan_loop maximum tail stop stop (fst pushed) (snd pushed))
          else scan_loop maximum tail (index + 1) start ls capacity
      end
  end.

Definition scan_lines (bytes : list Z) (limits : MaterializationLimits)
    : M MaterializationError (list LineSpan) :=
  scanned ← scan_loop (max_lines limits) bytes 0 0 [] 0;
  let '(start, (ls, capacity)) := scanned in
  final ← (if start <? len bytes
           then push_line ls capacity start (len bytes) (len bytes) (max_lines limits)
           else mret (ls, capacity));
  _ ← check;
  mret (fst final).

(** [materialize_utf8] *)
Definition materialize_utf8 (bytes : list Z) (limits : MaterializationLimits)
    : M MaterializationError MaterializedText :=
  _ ← check;
  _ ← lift (validate limits);
  _ ← lift (reject_if (max_input_bytes limits <? len bytes) InputTooLarge);
  _ ← lift (reject_if (max_output_bytes limits <? len bytes) OutputTooLarge);
  _ ← reject_binary_controls bytes;
  _ ← lift (reject_if (negb (utf8_valid bytes)) InvalidUtf8);
  _ ← check;
  ls ← scan_lines bytes limits;
  mret {| text := bytes; lines := ls |}.

(** ** What the scanners compute *)

(** The refused contents: a zero byte, or at least the threshold of controls. *)
Definition is_binary (bytes : list Z) : bool :=
  existsb (Z.eqb 0) bytes
  || (control_threshold bytes <=? len (filter (fun b => is_control b = true) bytes)).

(** The logical lines of [rest], which starts at [index] inside the line [n] that
    started at [start]. *)
Fixpoint lines_from (rest : list Z) (index start n : Z) : list LineSpan :=
  let span stop := {| line_index := n; source_start := start; source_end := stop;
                      content_end := index |} in
  match rest with
  | [] => if start <? index then [span index] else []
  | byte :: tail =>
      match tail with
      | next :: tail' =>
          if (byte =? 13) && (next =? 10) then
            span (index + 2) :: lines_from tail' (index + 2) (index + 2) (n + 1)
          else if (byte =? 10) || (byte =? 13) then
            span (index + 1) :: lines_from tail (index + 1) (index + 1) (n + 1)
          else lines_from tail (index + 1) start n
      | [] =>
          if (byte =? 10) || (byte =? 13) then
            span (index + 1) :: lines_from tail (index + 1) (index + 1) (n + 1)
          else lines_from tail (index + 1) start n
      end
  end.
Definition logical_lines (bytes : list Z) : list LineSpan := lines_from bytes 0 0 0.

(** The result of [materialize_utf8] in an environment that does not interrupt. *)
Definition materialize_spec (bytes : list Z) (limits : MaterializationLimits)
    : result MaterializationError MaterializedText :=
  _ ← validate limits;
  _ ← reject_if (max_input_bytes limits <? len bytes) InputTooLarge;
  _ ← reject_if (max_output_bytes limits <? len bytes) OutputTooLarge;
  _ ← reject_if (is_binary bytes) BinaryContent;
  _ ← reject_if (negb (utf8_valid bytes)) InvalidUtf8;
  _ ← reject_if (max_lines limits <? len (logical_lines bytes)) TooManyLines;
  Ok {| text := bytes; lines := logical_lines bytes |}.

(** ** The scanners refine them *)

Lemma refines_mat_check : refines check (Ok tt).
Proof. apply refines_check; unfold interrupt, materialization_interrupt; auto. Qed.

Lemma control_chunk_app t c a b :
  control_chunk t c (a ++ b) = (c' ← control_chunk t c a; control_chunk t c' b).
Proof.
  revert c. induction a as [|x a IH]; intros c; [done|]. cbn [app control_chunk].
  repeat case_match; by rewrite ?IH.
Qed.

Lemma control_chunk_spec t c l :
  c < t ->
  control_chunk t c l =
    if existsb (Z.eqb 0) l || (t <=? c + len (filter (fun b => is_control b = true) l))
    then Err BinaryContent else Ok (c + len (filter (fun b => is_control b = true) l)).
Proof.
  revert c. induction l as [|x l IH]; intros c Hc; cbn [control_chunk existsb].
  - rewrite filter_nil, len_nil, Z.add_0_r. by is_false (t <=? c).
  - rewrite Z.eqb_sym. destruct (Z.eqb_spec 0 x); [done|]. cbn [orb].
    rewrite filter_cons. case_decide as Hx.
    + rewrite Hx, len_cons. pose proof (len_nonneg (filter (fun b => is_control b = true) l)).
      destruct (t <=? c + 1) eqn:Ht; to_prop.
      * is_true (t <=? c + (1 + len (filter (fun b => is_control b = true) l))).
        by rewrite orb_true_r.
      * rewrite IH by lia. by replace (c + 1 + len (filter (fun b => is_control b = true) l))
          with (c + (1 + len (filter (fun b => is_control b = true) l))) by lia.
    + apply not_true_is_false in Hx. rewrite Hx. by apply IH.
Qed.

Lemma refines_control_chunks t c cs :
  refines (control_chunks t c cs) (_ ← control_chunk t c (concat cs); Ok tt).
Proof.
  revert c. induction cs as [|chunk cs IH]; intros c; cbn [control_chunks concat].
  - apply refines_ret.
  - rewrite control_chunk_app. apply refines_seq; [apply refines_mat_check|].
    apply refines_pure.
    + intros c' Hc'. rewrite Hc'. apply IH.
    + intros e He. by rewrite He.
Qed.

Lemma control_threshold_pos bytes : 0 < control_threshold bytes.
Proof. unfold control_threshold. lia. Qed.

Lemma refines_reject_binary bytes :
  refines (reject_binary_controls bytes) (reject_if (is_binary bytes) BinaryContent).
Proof.
  unfold reject_binary_controls.
  replace (reject_if (is_binary bytes) BinaryContent)
    with (_ ← control_chunk (control_threshold bytes) 0 (concat (chunks 1024 bytes)); Ok tt).
  - apply refines_control_chunks.
  - rewrite chunks_concat by lia. rewrite control_chunk_spec by apply control_threshold_pos.
    unfold is_binary. rewrite Z.add_0_l. by destruct (_ || _).
Qed.

Lemma refines_push_line {B} ls cap start mid stop maximum (k : _ -> M MaterializationError B) s :
  0 <= start <= U64_MAX -> 0 <= mid <= U64_MAX -> 0 <= stop <= U64_MAX -> len ls <= U64_MAX ->
  (maximum <= len ls -> s = Err TooManyLines) ->
  (len ls < maximum -> forall cap', refines (k (ls ++ [{| line_index := len ls;
      source_start := start; source_end := stop; content_end := mid |}], cap')) s) ->
  refines (push_line ls cap start mid stop maximum ≫= k) s.
Proof.
  intros H1 H2 H3 H4 Herr Hok. unfold push_line. pose proof (len_nonneg ls).
  apply refines_assoc, refines_guard; intros Hm; to_prop; [by apply Herr|].
  apply refines_assoc, refines_grow; [unfold interrupt, materialization_interrupt; auto|].
  intros cap'. do 4 (apply refines_assoc; eapply refines_some; [by apply try_from_some|]).
  apply refines_seq_ret, Hok. lia.
Qed.

(** The tail of [scan_lines] after its loop. *)
Definition scan_finish (size maximum : Z) (scanned : Z * (list LineSpan * Z))
    : M MaterializationError (list LineSpan) :=
  let '(start, (ls, capacity)) := scanned in
  final ← (if start <? size
           then push_line ls capacity start size size maximum
           else mret (ls, capacity));
  _ ← check;
  mret (fst final).

(** The lines found so far followed by those of the rest, within the ceiling. *)
Definition bounded_lines (maximum : Z) (ls more : list LineSpan)
    : result MaterializationError (list LineSpan) :=
  if maximum <? len ls + len more then Err TooManyLines else Ok (ls ++ more).

Lemma bounded_lines_snoc maximum ls l more :
  bounded_lines maximum (ls ++ [l]) more = bounded_lines maximum ls (l :: more).
Proof.
  unfold bounded_lines. rewrite len_app, !len_cons, len_nil, <- (assoc_L (++)). cbn.
  by replace (len ls + (1 + 0) + len more) with (len ls + (1 + len more)) by lia.
Qed.

Lemma bounded_lines_full maximum ls l more :
  maximum <= len ls -> bounded_lines maximum ls (l :: more) = Err TooManyLines.
Proof.
  intros. unfold bounded_lines. rewrite len_cons. pose proof (len_nonneg more).
  by is_true (maximum <? len ls + (1 + len more)).
Qed.

Lemma refines_scan_loop maximum rest : forall index start ls cap,
  0 <= start <= index -> index + len rest <= ISIZE_MAX -> len ls <= index -> len ls <= maximum ->
  refines (scan_loop maximum rest index start ls cap ≫= scan_finish (index + len rest) maximum)
    (bounded_lines maximum ls (lines_from rest index start (len ls))).
Proof.
  assert (forall index start ls cap tail t more size,
    0 <= start <= index -> 0 < t -> index + t <= ISIZE_MAX -> len ls <= index ->
    len ls <= maximum ->
    (forall ls' cap', len ls' = len ls + 1 -> len ls' <= maximum ->
       refines (scan_loop maximum tail (index + t) (index + t) ls' cap' ≫= scan_finish size maximum)
               (bounded_lines maximum ls' more)) ->
    refines ((stop' ← lift (ok_or OffsetOverflow (checked_add USIZE_MAX index t));
              pushed ← push_line ls cap start index stop' maximum;
              scan_loop maximum tail stop' stop' (fst pushed) (snd pushed))
              ≫= scan_finish size maximum)
            (bounded_lines maximum ls ({| line_index := len ls; source_start := start;
               source_end := index + t; content_end := index |} :: more))) as Hpush.
  { intros index start ls cap tail t more size Hs Hlt Hstop Hl Hmax IH.
    pose proof (len_nonneg ls). apply refines_assoc.
    eapply refines_some; [apply checked_add_some; width|].
    apply refines_assoc, refines_push_line; try width.
    - intros. by apply bounded_lines_full.
    - intros Hm cap'. cbn [fst snd]. rewrite <- bounded_lines_snoc. apply IH;
        rewrite len_app, len_cons, len_nil; lia. }
  induction rest as [rest IH] using (induction_ltof1 _ (@length Z)). unfold ltof in IH.
  intros index start ls cap Hs Hsize Hl Hmax. pose proof (len_nonneg ls).
  destruct rest as [|byte tail].
  - cbn [scan_loop lines_from]. apply refines_seq_ret. unfold scan_finish.
    rewrite len_nil, Z.add_0_r in *. destruct (start <? index) eqn:Hlt.
    + apply refines_push_line; try width.
      * intros. by apply bounded_lines_full.
      * intros Hm cap'. apply refines_seq; [apply refines_mat_check|]. cbn [fst].
        unfold bounded_lines. rewrite len_cons, len_nil.
        is_false (maximum <? len ls + (1 + 0)). apply refines_ret.
    + apply refines_seq_ret, refines_seq; [apply refines_mat_check|].
      unfold bounded_lines. rewrite len_nil. is_false (maximum <? len ls + 0).
      rewrite app_nil_r. apply refines_ret.
  - rewrite len_cons in *. cbn [scan_loop lines_from].
    apply refines_assoc, refines_seq; [case_match; [apply refines_mat_check|apply refines_ret]|].
    pose proof (len_nonneg tail).
    assert (refines (scan_loop maximum tail (index + 1) start ls cap
        ≫= scan_finish (index + (1 + len tail)) maximum)
        (bounded_lines maximum ls (lines_from tail (index + 1) start (len ls)))) as Hskip.
    { replace (index + (1 + len tail)) with (index + 1 + len tail) by lia.
      apply IH; cbn; lia. }
    assert (refines ((stop ← lift (ok_or OffsetOverflow (checked_add USIZE_MAX index 1));
        pushed ← push_line ls cap start index stop maximum;
        scan_loop maximum tail stop stop (fst pushed) (snd pushed))
          ≫= scan_finish (index + (1 + len tail)) maximum)
        (bounded_lines maximum ls ({| line_index := len ls; source_start := start;
           source_end := index + 1; content_end := index |}
           :: lines_from tail (index + 1) (index + 1) (len ls + 1)))) as Hone.
    { eapply Hpush; try lia. intros ls' cap' Hl' Hm'. rewrite <- Hl'.
      replace (index + (1 + len tail)) with (index + 1 + len tail) by lia.
      apply IH; cbn; lia. }
    destruct tail as [|next tail']; [by case_match|].
    destruct ((byte =? 13) && (next =? 10)) eqn:Hcr; [|by case_match].
    rewrite len_cons in *.
    pose proof (len_nonneg tail').
    eapply Hpush; try lia. intros ls' cap' Hl' Hm'. rewrite <- Hl'.
    replace (index + (1 + (1 + len tail'))) with (index + 2 + len tail') by lia.
    apply IH; cbn; lia.
Qed.

Lemma refines_scan_lines bytes limits :
  len bytes <= ISIZE_MAX -> 0 <= max_lines limits ->
  refines (scan_lines bytes limits)
    (_ ← reject_if (max_lines limits <? len (logical_lines bytes)) TooManyLines;
     Ok (logical_lines bytes)).
Proof.
  intros Hb Hm. assert (len (@nil LineSpan) = 0) as Hnil by done.
  pose proof (refines_scan_loop (max_lines limits) bytes 0 0 [] 0
    ltac:(lia) ltac:(lia) ltac:(lia) ltac:(lia)) as Hr.
  unfold bounded_lines in Hr. rewrite Hnil in Hr. rewrite !Z.add_0_l in Hr.
  unfold logical_lines. destruct (max_lines limits <? _); exact Hr.
Qed.

Lemma refines_materialize bytes limits :
  len bytes <= ISIZE_MAX -> 0 <= max_lines limits ->
  refines (materialize_utf8 bytes limits) (materialize_spec bytes limits).
Proof.
  intros Hb Hm. unfold materialize_utf8, materialize_spec.
  apply refines_seq; [apply refines_mat_check|].
  refine_step. refine_step. refine_step.
  apply refines_bind; [apply refines_reject_binary|intros ? _].
  refine_step. apply refines_seq; [apply refines_mat_check|].
  replace (_ ← reject_if (max_lines limits <? _) TooManyLines; _)
    with (ls ← (_ ← reject_if (max_lines limits <? len (logical_lines bytes)) TooManyLines;
                Ok (logical_lines bytes)); Ok {| text := bytes; lines := ls |})
    by (by destruct (max_lines limits <? _)).
  apply refines_bind; [by apply refines_scan_lines|intros ? _]. apply refines_ret.
Qed.

(** ** The lines of a materialized text

    A text is a sequence of pieces, each a content without terminator bytes and its
    terminator; a carriage return directly before a line feed belongs to that line
    feed, and only the last piece may lack a terminator. *)

Definition no_terminator (c : list Z) : Prop := Forall (fun b => b <> 10 /\ b <> 13) c.

Definition terminates (t rest : list Z) : Prop :=
  t = [10] \/ t = [13; 10] \/ (t = [13] /\ head rest <> Some 10).

Inductive line_split : list Z -> list (list Z * list Z) -> Prop :=
  | split_empty : line_split [] []
  | split_open c : c <> [] -> no_terminator c -> line_split c [(c, [])]
  | split_line c t rest pieces :
      no_terminator c -> terminates t rest -> line_split rest pieces ->
      line_split (c ++ t ++ rest) ((c, t) :: pieces).

(** The byte ranges of the pieces, numbered from [n] and starting at [start]. *)
Fixpoint spans (n start : Z) (pieces : list (list Z * list Z)) : list LineSpan :=
  match pieces with
  | [] => []
  | (c, t) :: pieces =>
      {| line_index := n; source_start := start; source_end := start + len c + len t;
         content_end := start + len c |} :: spans (n + 1) (start + len c + len t) pieces
  end.

Lemma first_terminator c c' x x' r r' :
  no_terminator c -> no_terminator c' -> (x = 10 \/ x = 13) -> (x' = 10 \/ x' = 13) ->
  c ++ x :: r = c' ++ x' :: r' -> c = c' /\ x = x' /\ r = r'.
Proof.
  intros Hc Hc' Hx Hx'. revert c' Hc'.
  induction Hc as [|b c Hb Hc IH]; intros c' Hc' Heq; destruct Hc' as [|b' c' Hb' Hc'];
    cbn in Heq; injection Heq as H1 H2; [done|lia|lia|].
  destruct (IH c' Hc' H2) as (-> & -> & ->). by subst.
Qed.

Lemma terminates_cons t rest : terminates t rest -> exists x s, t = x :: s /\ (x = 10 \/ x = 13).
Proof. intros [-> | [-> | [-> _]]]; eauto 10. Qed.

Lemma cut_unique c c' t t' r r' :
  no_terminator c -> no_terminator c' -> terminates t r -> terminates t' r' ->
  c ++ t ++ r = c' ++ t' ++ r' -> c = c' /\ t = t' /\ r = r'.
Proof.
  intros Hc Hc' Ht Ht' Heq.
  destruct (terminates_cons _ _ Ht) as (x & s & -> & Hx).
  destruct (terminates_cons _ _ Ht') as (x' & s' & -> & Hx'). cbn [app] in Heq.
  apply first_terminator in Heq as (-> & -> & Hs); try done.
  unfold terminates in *. split; [done|].
  destruct Ht as [[= -> ->]|[[= -> ->]|[[= -> ->] Hh]]],
    Ht' as [[= ->]|[[= ->]|[[= ->] Hh']]]; cbn in Hs; try discriminate; subst;
    try (by injection Hs); try done; by cbn in *.
Qed.

Lemma no_terminator_cut c t r : terminates t r -> ~ no_terminator (c ++ t ++ r).
Proof.
  intros Ht H. destruct (terminates_cons _ _ Ht) as (x & s & -> & Hx).
  apply Forall_app in H as [_ H]. apply Forall_cons in H as [H _]. lia.
Qed.

Lemma cut_not_nil c t r : terminates t r -> c ++ t ++ r <> [].
Proof.
  intros Ht H. destruct (terminates_cons _ _ Ht) as (x & s & -> & _). by destruct c.
Qed.

Lemma line_split_unique l ps qs : line_split l ps -> line_split l qs -> ps = qs.
Proof.
  intros Hp. revert qs.
  induction Hp as [|c Hc Hn|c t r ps Hn Ht Hr IH]; intros qs Hq;
    inversion Hq as [Hl|c' Hc' Hn' Hl|c' t' r' ps' Hn' Ht' Hr' Hl]; subst; try done.
  - by apply cut_not_nil in Hl.
  - by apply no_terminator_cut in Hn.
  - symmetry in Hl. by apply cut_not_nil in Hl.
  - by apply no_terminator_cut in Hn'.
  - apply cut_unique in Hl as (-> & -> & ->); try done. f_equal. auto.
Qed.

Lemma lines_from_spans rest : forall pending index start n,
  no_terminator pending -> index = start + len pending ->
  exists pieces, line_split (pending ++ rest) pieces /\
    lines_from rest index start n = spans n start pieces.
Proof.
  induction rest as [rest IH] using (induction_ltof1 _ (@length Z)). unfold ltof in IH.
  intros p index start n Hp ->. destruct rest as [|byte tail].
  - rewrite app_nil_r. cbn [lines_from]. pose proof (len_nonneg p).
    destruct (start <? start + len p) eqn:Hs; to_prop.
    + exists [(p, [])]. split.
      * apply split_open; [|done]. intros ->. unfold len in Hs. cbn in Hs. lia.
      * cbn [spans]. by rewrite len_nil, Z.add_0_r.
    + rewrite (len_zero_nil p) by lia. exists []. by split; [constructor|].
  - assert (byte <> 10 -> byte <> 13 -> exists pieces,
      line_split (p ++ byte :: tail) pieces /\
      lines_from tail (start + len p + 1) start n = spans n start pieces) as Hskip.
    { intros H1 H2. rewrite cons_middle, (assoc_L (++)). apply IH; [cbn; lia| |].
      - apply Forall_app. split; [done|]. by repeat constructor.
      - rewrite len_app, len_cons, len_nil. lia. }
    assert (forall t more, byte :: tail = t ++ more -> terminates t more ->
      exists pieces, line_split (p ++ byte :: tail) pieces /\
        {| line_index := n; source_start := start; source_end := start + len p + len t;
           content_end := start + len p |}
          :: lines_from more (start + len p + len t) (start + len p + len t) (n + 1)
        = spans n start pieces) as Hcut.
    { intros t more Hbt Ht. rewrite Hbt.
      destruct (IH more) with (pending := @nil Z) (index := start + len p + len t)
        (start := start + len p + len t) (n := n + 1) as (ps & Hps & Heq).
      - destruct (terminates_cons _ _ Ht) as (x & s & -> & _). rewrite Hbt, length_app. cbn. lia.
      - constructor.
      - by rewrite len_nil, Z.add_0_r.
      - exists ((p, t) :: ps). split; [by apply split_line|]. cbn [spans]. by rewrite Heq. }
    cbn [lines_from]. destruct tail as [|next tail'].
    + destruct (Z.eqb_spec byte 10) as [->|]; [apply (Hcut [10] []); [done|by left]|].
      destruct (Z.eqb_spec byte 13) as [->|]; [apply (Hcut [13] []); [done|by right; right]|].
      by apply Hskip.
    + destruct (Z.eqb_spec byte 10) as [->|].
      { apply (Hcut [10] (next :: tail')); [done|by left]. }
      destruct (Z.eqb_spec byte 13) as [->|]; [|by apply Hskip].
      cbn [andb orb]. destruct (Z.eqb_spec next 10) as [->|].
      * apply (Hcut [13; 10] tail'); [done|by right; left].
      * apply (Hcut [13] (next :: tail')); [done|]. right; right. split; [done|]. cbn. congruence.
Qed.

Lemma logical_lines_split bytes :
  exists pieces, line_split bytes pieces /\ logical_lines bytes = spans 0 0 pieces.
Proof. apply (lines_from_spans bytes [] 0 0 0); [constructor|done]. Qed.

Lemma materialize_spec_ok bytes limits m :
  materialize_spec bytes limits = Ok m ->
  m = {| text := bytes; lines := logical_lines bytes |} /\ utf8_valid bytes = true /\
  len (logical_lines bytes) <= max_lines limits /\ is_binary bytes = false /\
  len bytes <= max_input_bytes limits /\ len bytes <= max_output_bytes limits.
Proof. unfold materialize_spec. intros H. inv_ok. to_prop. split_and!; done || lia. Qed.

Lemma run_materialize_ok bytes limits w m :
  len bytes <= ISIZE_MAX -> 0 <= max_lines limits ->
  run (materialize_utf8 bytes limits) w = Ok m -> materialize_spec bytes limits = Ok m.
Proof. intros Hb Hm. by apply refines_ok, refines_materialize. Qed.

(** ** A coordinate view of the line inventory, used by the unitizer *)

(** [ls] are consecutive nonempty ranges numbered from [n] that cover
    \[start, size). *)
Fixpoint tiled (size n start : Z) (ls : list LineSpan) : Prop :=
  match ls with
  | [] => start = size
  | l :: ls =>
      line_index l = n /\ source_start l = start /\ start < source_end l <= size /\
      start <= content_end l <= source_end l /\ tiled size (n + 1) (source_end l) ls
  end.

(** The end of the line that contains the start of [rest], which is at [index]. *)
Fixpoint line_stop (rest : list Z) (index : Z) : Z :=
  match rest with
  | [] => index
  | byte :: tail =>
      if (byte =? 13) && match tail with next :: _ => next =? 10 | [] => false end then index + 2
      else if (byte =? 10) || (byte =? 13) then index + 1
      else line_stop tail (index + 1)
  end.

Lemma line_stop_range rest index :
  index <= line_stop rest index <= index + len rest /\
  (rest <> [] -> index < line_stop rest index).
Proof.
  revert index. induction rest as [|byte tail IH]; intros index; cbn [line_stop].
  - rewrite len_nil. split; [lia|done].
  - rewrite len_cons. destruct (IH (index + 1)) as [? _]. pose proof (len_nonneg tail).
    destruct tail as [|next tail'].
    + rewrite andb_false_r. case_match; lia.
    + rewrite len_cons in *. pose proof (len_nonneg tail').
      repeat case_match; lia.
Qed.

Lemma lines_from_cons rest : forall index start n,
  start <= index -> start < index + len rest ->
  let stop := line_stop rest index in
  exists content, index <= content <= stop /\
    lines_from rest index start n =
      {| line_index := n; source_start := start; source_end := stop; content_end := content |}
        :: lines_from (drop (Z.to_nat (stop - index)) rest) stop stop (n + 1).
Proof.
  induction rest as [|byte tail IH]; intros index start n Hs Hne; cbn zeta.
  - rewrite len_nil in Hne. cbn [line_stop lines_from]. is_true (start <? index).
    exists index. split; [lia|]. rewrite drop_nil. cbn [lines_from]. by is_false (index <? index).
  - rewrite len_cons in Hne.
    assert (exists content, index <= content <= line_stop tail (index + 1) /\
      lines_from tail (index + 1) start n =
        {| line_index := n; source_start := start; source_end := line_stop tail (index + 1);
           content_end := content |}
          :: lines_from (drop (Z.to_nat (line_stop tail (index + 1) - index)) (byte :: tail))
               (line_stop tail (index + 1)) (line_stop tail (index + 1)) (n + 1)) as Hskip.
    { destruct (IH (index + 1) start n) as (content & Hc & ->); [lia..|].
      exists content. split; [lia|]. pose proof (line_stop_range tail (index + 1)) as [? _].
      replace (Z.to_nat (line_stop tail (index + 1) - index))
        with (S (Z.to_nat (line_stop tail (index + 1) - (index + 1)))) by lia.
      done. }
    cbn [lines_from line_stop].
    assert (forall t, (byte =? 10) || (byte =? 13) = true -> t = 1 \/ t = 2 ->
      exists content, index <= content <= index + t /\
      {| line_index := n; source_start := start; source_end := index + t; content_end := index |}
        :: lines_from (drop (Z.to_nat t) (byte :: tail)) (index + t) (index + t) (n + 1)
      = {| line_index := n; source_start := start; source_end := index + t;
           content_end := content |}
        :: lines_from (drop (Z.to_nat (index + t - index)) (byte :: tail)) (index + t)
             (index + t) (n + 1)) as Hcut.
    { intros t _ Ht. exists index. split; [lia|]. by replace (index + t - index) with t by lia. }
    destruct tail as [|next tail'].
    + rewrite andb_false_r. destruct ((byte =? 10) || (byte =? 13)) eqn:Hb; [|done].
      apply (Hcut 1); auto.
    + destruct ((byte =? 13) && (next =? 10)) eqn:Hcr.
      * apply (Hcut 2); [|auto]. to_prop. subst. done.
      * destruct ((byte =? 10) || (byte =? 13)) eqn:Hb; [|done]. apply (Hcut 1); auto.
Qed.

Lemma tiled_lines_from rest : forall index n,
  tiled (index + len rest) n index (lines_from rest index index n).
Proof.
  induction rest as [rest IH] using (induction_ltof1 _ (@length Z)). unfold ltof in IH.
  intros index n. destruct rest as [|b rest].
  - cbn [lines_from]. is_false (index <? index). cbn. rewrite len_nil. lia.
  - pose proof (line_stop_range (b :: rest) index) as [Hle Hlt]. specialize (Hlt ltac:(done)).
    destruct (lines_from_cons (b :: rest) index index n) as (content & Hc & ->).
    { lia. } { rewrite len_cons. pose proof (len_nonneg rest). lia. }
    cbn [tiled line_index source_start source_end content_end].
    set (stop := line_stop (b :: rest) index) in *.
    split_and!; try lia.
    replace (index + len (b :: rest))
      with (stop + len (drop (Z.to_nat (stop - index)) (b :: rest))).
    + apply IH. rewrite length_drop. cbn [length]. lia.
    + unfold len in *. rewrite length_drop. lia.
Qed.

Lemma tiled_logical_lines bytes : tiled (len bytes) 0 0 (logical_lines bytes).
Proof. apply (tiled_lines_from bytes 0 0). Qed.

(** A line ends behind an ASCII terminator or at the end of the text. *)
Lemma line_stop_last rest index :
  rest <> [] -> line_stop rest index = index + len rest \/
  exists b, at_ rest (line_stop rest index - index - 1) = Some b /\ (b = 10 \/ b = 13).
Proof.
  revert index. induction rest as [|byte tail IH]; intros index Hne; [done|].
  cbn [line_stop]. destruct ((byte =? 13) && _) eqn:Hcr.
  - right. destruct tail as [|next tail']; [by rewrite andb_false_r in Hcr|]. to_prop. subst.
    exists 10. replace (index + 2 - index - 1) with 1 by lia. auto.
  - destruct ((byte =? 10) || (byte =? 13)) eqn:Hb.
    + right. exists byte. replace (index + 1 - index - 1) with 0 by lia. split; [done|].
      apply orb_true_iff in Hb as [Hb|Hb]; to_prop; auto.
    + destruct tail as [|next tail']; [left; cbn; rewrite len_cons, len_nil; lia|].
      destruct (IH (index + 1) ltac:(done)) as [->|(b & Hb' & Hor)].
      * left. rewrite !len_cons. lia.
      * right. exists b. split; [|done]. revert Hb'. unfold at_.
        destruct (0 <=? line_stop (next :: tail') (index + 1) - (index + 1) - 1) eqn:Hz; [|done].
        to_prop. is_true (0 <=? line_stop (next :: tail') (index + 1) - index - 1).
        replace (Z.to_nat (line_stop (next :: tail') (index + 1) - index - 1))
          with (S (Z.to_nat (line_stop (next :: tail') (index + 1) - (index + 1) - 1))) by lia.
        done.
Qed.

Lemma line_ends_boundary bytes : forall k n l,
  utf8_valid bytes = true -> (k <= length bytes)%nat ->
  l ∈ lines_from (drop k bytes) (Z.of_nat k) (Z.of_nat k) n ->
  is_char_boundary bytes (source_end l) = true.
Proof.
  intros k n l Hv. remember (length bytes - k)%nat as m eqn:Hm. revert k n Hm.
  induction m as [m IH] using lt_wf_ind. intros k n -> Hk Hl.
  destruct (drop k bytes) as [|b rest] eqn:Hd.
  { cbn [lines_from] in Hl. is_false (Z.of_nat k <? Z.of_nat k) in Hl. by apply elem_of_nil in Hl. }
  assert (length (b :: rest) = length bytes - k)%nat as Hlen by (by rewrite <- Hd, length_drop).
  pose proof (line_stop_range (b :: rest) (Z.of_nat k)) as [Hle Hlt]. specialize (Hlt ltac:(done)).
  destruct (lines_from_cons (b :: rest) (Z.of_nat k) (Z.of_nat k) n) as (content & _ & Heq).
  { lia. } { rewrite len_cons. pose proof (len_nonneg rest). lia. }
  rewrite Heq in Hl. clear Heq. set (stop := line_stop (b :: rest) (Z.of_nat k)) in *.
  unfold len in Hle. apply elem_of_cons in Hl as [->|Hl].
  - cbn [source_end]. destruct (line_stop_last (b :: rest) (Z.of_nat k)) as [Hend|(t & Ht & Hor)]; [done|..].
    + fold stop in Hend. replace stop with (len bytes); [apply boundary_end|].
      rewrite Hend. unfold len. lia.
    + fold stop in Ht. unfold at_ in Ht. is_true (0 <=? stop - Z.of_nat k - 1) in Ht.
      rewrite <- Hd, lookup_drop in Ht.
      replace stop with (Z.of_nat (S (k + Z.to_nat (stop - Z.of_nat k - 1)))) by lia.
      eapply boundary_after_ascii; [done|done|lia].
  - replace stop with (Z.of_nat (Z.to_nat stop)) in Hl by lia.
    rewrite <- Hd, drop_drop in Hl.
    replace (k + Z.to_nat (Z.of_nat (Z.to_nat stop) - Z.of_nat k))%nat with (Z.to_nat stop) in Hl by lia.
    eapply (IH (length bytes - Z.to_nat stop)%nat); [..|exact Hl]; lia.
Qed.

(** ** Claims *)

(** C4. In a calm environment [materialize_utf8] returns exactly the specified
    outcome: the limit errors in their order, [BinaryContent] when a zero byte or
    at least max(4, ceil(n/100)) other control bytes occur anywhere in the input
    (whatever the 1024-byte chunking), [InvalidUtf8], [TooManyLines], or the
    unchanged text with its logical lines.  Under any sequence of cancellations,
    expired deadlines and refused allocations it returns that outcome or the
    interruption's error, never a different text or inventory. *)
Theorem materialize_exact bytes limits w
    (Hsize : len bytes <= ISIZE_MAX) (Hlines : 0 <= max_lines limits) :
  (run (materialize_utf8 bytes limits) w = materialize_spec bytes limits \/
   exists e, run (materialize_utf8 bytes limits) w = Err e /\
     (e = Cancelled \/ e = Deadline \/ e = AllocationFailed)) /\
  (calm w -> run (materialize_utf8 bytes limits) w = materialize_spec bytes limits).
Proof.
  pose proof (refines_materialize bytes limits Hsize Hlines) as Hr. split.
  - exact (refines_any _ _ w Hr).
  - exact (refines_calm _ _ w Hr).
Qed.

Definition small_limits : MaterializationLimits :=
  {| max_input_bytes := 64; max_output_bytes := 64; max_lines := 8 |}.

Lemma materialize_exact_witness :
  run (materialize_utf8 (str "a" ++ [13; 10] ++ str "b") small_limits) [Calm; Calm; Calm; Calm; NoMemory]
    = Err AllocationFailed /\
  run (materialize_utf8 (str "a" ++ [13; 10] ++ str "b") small_limits) []
    = materialize_spec (str "a" ++ [13; 10] ++ str "b") small_limits.
Proof.
  split; [reflexivity|].
  apply (materialize_exact (str "a" ++ [13; 10] ++ str "b") small_limits []);
    [vm_compute; congruence | vm_compute; congruence | constructor].
Defined.

(** Every text [materialize_utf8] returns is the input, unchanged, and its line
    inventory is the byte ranges of the only division of that input into lines: each
    line's content has no carriage return or line feed, a CR LF pair is one
    terminator, and only the last line may lack one.  Numbering, starts, ends and
    content ends are those of the pieces, and there are at most [max_lines]. *)
Theorem materialize_splits_lines bytes limits w m
    (Hsize : len bytes <= ISIZE_MAX) (Hlines : 0 <= max_lines limits)
    (Hok : run (materialize_utf8 bytes limits) w = Ok m) :
  text m = bytes /\ utf8_valid bytes = true /\
  exists pieces, line_split bytes pieces /\ lines m = spans 0 0 pieces /\
    len (lines m) <= max_lines limits /\
    forall other, line_split bytes other -> other = pieces.
Proof.
  apply run_materialize_ok, materialize_spec_ok in Hok as (-> & Hv & Hl & _); try done.
  destruct (logical_lines_split bytes) as (pieces & Hp & Heq).
  split_and!; try done. exists pieces. split_and!; try done.
  intros other Ho. by apply (line_split_unique bytes).
Qed.

Lemma materialize_splits_lines_witness :
  exists pieces, line_split (str "a" ++ [13; 10] ++ str "b") pieces /\
    spans 0 0 [(str "a", [13; 10]); (str "b", [])] = spans 0 0 pieces.
Proof.
  destruct (materialize_splits_lines (str "a" ++ [13; 10] ++ str "b") small_limits []
    {| text := str "a" ++ [13; 10] ++ str "b";
       lines := spans 0 0 [(str "a", [13; 10]); (str "b", [])] |})
    as (_ & _ & pieces & Hp & Heq & _); [vm_compute; congruence..|].
  exists pieces. split; [exact Hp|exact Heq].
Defined.
