(* ===== verification/Layout.v ===== *)
(** The unitizer of the crate [search-unitizer]: its errors and execution ceilings
    (crates/search-prep/search-unitizer/src/{error,prepared}.rs) and the division of a
    materialized text into line-preferred units (src/layout.rs). *)

From S2P Require Import Prelude Bytes Utf8 Registry Materializer.

Inductive PreparationError : Type :=
  | BinaryContent | InvalidUtf8 | InputTooLarge | OutputTooLarge | TooManyLines
  | TooManyUnits | UnitTooLarge | EncodedTooLarge | InvalidSettings | InvalidLimits
  | AllocationFailed | OffsetOverflow | Cancelled | Deadline | InvalidArtifact
  | BindingMismatch | IntegrityFailure.
#[export] Instance PreparationError_eq : EqDecision PreparationError.
Proof. solve_decision. Defined.

Definition code (e : PreparationError) : list Z :=
  match e with
  | BinaryContent => str "PREPARATION_BINARY_CONTENT"
  | InvalidUtf8 => str "PREPARATION_INVALID_UTF8"
  | InputTooLarge => str "PREPARATION_INPUT_TOO_LARGE"
  | OutputTooLarge => str "PREPARATION_OUTPUT_TOO_LARGE"
  | TooManyLines => str "PREPARATION_TOO_MANY_LINES"
  | TooManyUnits => str "PREPARATION_TOO_MANY_UNITS"
  | UnitTooLarge => str "PREPARATION_UNIT_TOO_LARGE"
  | EncodedTooLarge => str "PREPARATION_ENCODED_TOO_LARGE"
  | InvalidSettings => str "PREPARATION_SETTINGS_INVALID"
  | InvalidLimits => str "PREPARATION_LIMITS_INVALID"
  | AllocationFailed => str "PREPARATION_ALLOCATION_FAILED"
  | OffsetOverflow => str "PREPARATION_OFFSET_OVERFLOW"
  | Cancelled => str "PREPARATION_CANCELLED"
  | Deadline => str "PREPARATION_DEADLINE"
  | InvalidArtifact => str "PREPARATION_ARTIFACT_INVALID"
  | BindingMismatch => str "PREPARATION_BINDING_MISMATCH"
  | IntegrityFailure => str "PREPARATION_INTEGRITY_FAILURE"
  end.

(** [From<MaterializationError>] *)
Definition from_materialization (e : MaterializationError) : PreparationError :=
  match e with
  | Materializer.InvalidLimits => InvalidLimits
  | Materializer.InputTooLarge => InputTooLarge
  | Materializer.OutputTooLarge => OutputTooLarge
  | Materializer.BinaryContent => BinaryContent
  | Materializer.InvalidUtf8 => InvalidUtf8
  | Materializer.TooManyLines => TooManyLines
  | Materializer.AllocationFailed => AllocationFailed
  | Materializer.OffsetOverflow => OffsetOverflow
  | Materializer.Cancelled => Cancelled
  | Materializer.Deadline => Deadline
  end.

#[export] Instance preparation_interrupt : Interrupt PreparationError :=
  fun e => e = Cancelled \/ e = Deadline \/ e = AllocationFailed.

Lemma preparation_cancelled : interrupt Cancelled.
Proof. by left. Qed.
Lemma preparation_deadline : interrupt Deadline.
Proof. by right; left. Qed.
Lemma preparation_allocation : interrupt AllocationFailed.
Proof. by right; right. Qed.
#[export] Hint Resolve preparation_cancelled preparation_deadline preparation_allocation : eliot.

Record PreparationLimits := {
  max_input_bytes : Z;
  max_output_bytes : Z;
  max_lines : Z;
  max_units : Z;
  max_encoded_bytes : Z }.

(** [size_of::<UnitSpan>()]: two [usize], two [u64] and two [bool], padded to eight. *)
Definition UNIT_SPAN_BYTES : Z := 40.

(** [PreparationLimits::validate] *)
Definition validate_limits (limits : PreparationLimits) : result PreparationError unit :=
  _ ← reject_if ((max_input_bytes limits =? 0) || (max_output_bytes limits =? 0)
                 || (max_lines limits =? 0) || (max_units limits =? 0)
                 || (max_encoded_bytes limits =? 0)) InvalidLimits;
  let fits bytes := ok_or OffsetOverflow (option_keep (fun size => size <=? ISIZE_MAX) bytes) in
  _ ← fits (checked_mul USIZE_MAX (max_lines limits) LINE_SPAN_BYTES);
  _ ← fits (checked_mul USIZE_MAX (max_units limits) UNIT_SPAN_BYTES);
  Ok tt.

(** [PreparationLimits::check_text_length] *)
Definition check_text_length (limits : PreparationLimits) (length : Z)
    : result PreparationError unit :=
  _ ← reject_if (max_input_bytes limits <? length) InputTooLarge;
  reject_if (max_output_bytes limits <? length) OutputTooLarge.

(** [prepared.rs: check] *)
Definition check : M PreparationError unit := check_with Cancelled Deadline.

(** [UnitSpan]; its [source_start] and [source_end] are the representation's own byte
    coordinates. *)
Record UnitSpan := {
  unit_start : Z;
  unit_end : Z;
  logical_line_start : Z;
  logical_line_end : Z;
  starts_at_line_boundary : bool;
  ends_at_line_boundary : bool }.
#[export] Instance UnitSpan_eq : EqDecision UnitSpan.
Proof. solve_decision. Defined.

(** [slice.partition_point(p)]: on a slice whose elements satisfying [p] come first,
    their number. *)
Fixpoint partition_point {A} (p : A -> bool) (l : list A) : Z :=
  match l with
  | [] => 0
  | x :: l => if p x then 1 + partition_point p l else 0
  end.

(** [while end > start && !text.is_char_boundary(end) { end -= 1 }] with
    [end = start + n]. *)
Fixpoint retreat (text : list Z) (start : Z) (n : nat) : Z :=
  match n with
  | O => start
  | S m => let stop := start + Z.of_nat n in
           if is_char_boundary text stop then stop else retreat text start m
  end.

(** [while end <= hard && !text.is_char_boundary(end) { end += 1 }] with
    [n = hard + 1 - end]. *)
Fixpoint advance (text : list Z) (stop : Z) (n : nat) : Z :=
  match n with
  | O => stop
  | S m => if is_char_boundary text stop then stop else advance text (stop + 1) m
  end.

(** [choose_end] *)
Definition choose_end (text : list Z) (lines : list LineSpan)
    (start preferred_bytes hard_bytes : Z) : result PreparationError Z :=
  preferred_sum ← ok_or OffsetOverflow (checked_add USIZE_MAX start preferred_bytes);
  let preferred := Z.min preferred_sum (len text) in
  hard_sum ← ok_or OffsetOverflow (checked_add USIZE_MAX start hard_bytes);
  let hard := Z.min hard_sum (len text) in
  if (hard =? len text) && (len text - start <=? preferred_bytes) then Ok (len text)
  else
    preferred64 ← ok_or OffsetOverflow (try_from U64_MAX preferred);
    start64 ← ok_or OffsetOverflow (try_from U64_MAX start);
    hard64 ← ok_or OffsetOverflow (try_from U64_MAX hard);
    let after := partition_point (fun line => source_end line <=? preferred64) lines in
    match option_keep (fun line => start64 <? source_end line)
            (index ← checked_sub after 1; at_ lines index) with
    | Some line => ok_or OffsetOverflow (try_from USIZE_MAX (source_end line))
    | None =>
        match option_keep (fun line => source_end line <=? hard64) (at_ lines after) with
        | Some line => ok_or OffsetOverflow (try_from USIZE_MAX (source_end line))
        | None =>
            let stop := retreat text start (Z.to_nat (preferred - start)) in
            stop' ← (if stop <=? start then
                next ← ok_or OffsetOverflow (checked_add USIZE_MAX start 1);
                Ok (advance text next (Z.to_nat (hard + 1 - next)))
              else Ok stop);
            _ ← reject_if ((stop' <=? start) || (hard <? stop')) UnitTooLarge;
            Ok stop'
        end
    end.

(** The [while start < text.len()] loop of [unitize_text].  Every turn moves [start]
    forward, so [len text] turns are enough. *)
Fixpoint unit_loop (fuel : nat) (text : list Z) (lines : list LineSpan) (preferred hard maximum : Z)
    (start : Z) (units : list UnitSpan) (capacity : Z) : M PreparationError (list UnitSpan) :=
  if start <? len text then
    match fuel with
    | O => fail InvalidArtifact
    | S fuel =>
        _ ← check;
        _ ← lift (reject_if (maximum <=? len units) TooManyUnits);
        stop ← lift (choose_end text lines start preferred hard);
        _ ← lift (reject_if ((stop <=? start) || (hard <? stop - start)) UnitTooLarge);
        start64 ← lift (ok_or OffsetOverflow (try_from U64_MAX start));
        end64 ← lift (ok_or OffsetOverflow (try_from U64_MAX stop));
        first ← lift (ok_or InvalidArtifact
          (at_ lines (partition_point (fun line => source_end line <=? start64) lines)));
        last ← lift (ok_or InvalidArtifact
          (at_ lines (partition_point (fun line => source_end line <? end64) lines)));
        capacity' ← grow AllocationFailed (len units) capacity maximum;
        line_end ← lift (ok_or OffsetOverflow (checked_add U64_MAX (line_index last) 1));
        let unit :=
          {| unit_start := start; unit_end := stop;
             logical_line_start := line_index first; logical_line_end := line_end;
             starts_at_line_boundary := source_start first =? start64;
             ends_at_line_boundary := source_end last =? end64 |} in
        unit_loop fuel text lines preferred hard maximum stop (units ++ [unit]) capacity'
    end
  else mret units.

(** [unitize_text] *)
Definition unitize_text (product : MaterializedText) (settings : PreparationSettings)
    (limits : PreparationLimits) : M PreparationError (list UnitSpan) :=
  preferred ← lift (ok_or OffsetOverflow (try_from USIZE_MAX (preferred_unit_bytes settings)));
  hard ← lift (ok_or OffsetOverflow (try_from USIZE_MAX (max_unit_bytes settings)));
  units ← unit_loop (length (text product)) (text product) (lines product) preferred hard
            (max_units limits) 0 [] 0;
  _ ← check;
  mret units.

(** ** What a unit inventory promises *)

(** [u] is a nonempty range of at most [hard] bytes between character boundaries of
    [text], with the numbers of its first line and of the line after its last one, and
    the two flags that say whether it starts and ends with a line. *)
Definition unit_valid (text : list Z) (hard : Z) (u : UnitSpan) : Prop :=
  unit_start u < unit_end u <= unit_start u + hard /\ unit_end u <= len text /\
  is_char_boundary text (unit_start u) = true /\ is_char_boundary text (unit_end u) = true /\
  exists first last, first ∈ logical_lines text /\ last ∈ logical_lines text /\
    source_start first <= unit_start u < source_end first /\
    source_start last < unit_end u <= source_end last /\
    logical_line_start u = line_index first /\ logical_line_end u = line_index last + 1 /\
    starts_at_line_boundary u = (source_start first =? unit_start u) /\
    ends_at_line_boundary u = (source_end last =? unit_end u).

(** The units cover [text] from [start] without gap or overlap. *)
Fixpoint unit_partition (text : list Z) (hard start : Z) (us : list UnitSpan) : Prop :=
  match us with
  | [] => start = len text
  | u :: us => unit_start u = start /\ unit_valid text hard u /\
               unit_partition text hard (unit_end u) us
  end.

(** A unit is cut inside a line only if no line ends within its hard bound. *)
Definition cut_justified (text : list Z) (hard : Z) (u : UnitSpan) : Prop :=
  ends_at_line_boundary u = false ->
  forall l, l ∈ logical_lines text -> unit_start u < source_end l -> unit_start u + hard < source_end l.

(** ** Binary search over a tiled inventory *)

Lemma at_0 {A} (x : A) l : at_ (x :: l) 0 = Some x.
Proof. done. Qed.

Lemma at_succ {A} (x : A) l i : 0 <= i -> at_ (x :: l) (1 + i) = at_ l i.
Proof.
  intros Hi. unfold at_. is_true (0 <=? 1 + i). is_true (0 <=? i).
  by replace (Z.to_nat (1 + i)) with (S (Z.to_nat i)) by lia.
Qed.

Lemma partition_point_nonneg {A} (p : A -> bool) l : 0 <= partition_point p l.
Proof. induction l; cbn; [lia|]. case_match; lia. Qed.

Lemma tiled_member ls : forall size n s l,
  tiled size n s ls -> l ∈ ls ->
  s <= source_start l /\ source_start l < source_end l <= size /\
  n <= line_index l < n + len ls.
Proof.
  induction ls as [|l ls IH]; intros size n s l' Ht Hl; [by apply elem_of_nil in Hl|].
  destruct Ht as (? & ? & ? & ? & Ht). rewrite len_cons. pose proof (len_nonneg ls).
  apply elem_of_cons in Hl as [->|Hl]; [lia|].
  destruct (IH _ _ _ _ Ht Hl) as (? & ? & ?). lia.
Qed.

Lemma tiled_count ls : forall size n s, tiled size n s ls -> len ls <= size - s.
Proof.
  induction ls as [|l ls IH]; intros size n s Ht; cbn in Ht; [rewrite len_nil; lia|].
  destruct Ht as (? & ? & ? & ? & Ht). specialize (IH _ _ _ Ht). rewrite len_cons. lia.
Qed.

(** Only one line contains the position before [x]. *)
Lemma tiled_same ls : forall size n s x l l',
  tiled size n s ls -> l ∈ ls -> l' ∈ ls -> source_start l < x <= source_end l ->
  source_start l' < x <= source_end l' -> l' = l.
Proof.
  induction ls as [|l0 ls IH]; intros size n s x l l' Ht Hl Hl' Hx Hx'; [by apply elem_of_nil in Hl|].
  destruct Ht as (? & ? & ? & ? & Ht).
  apply elem_of_cons in Hl as [->|Hl]; apply elem_of_cons in Hl' as [->|Hl']; [done|..|eauto].
  - pose proof (tiled_member _ _ _ _ _ Ht Hl'). lia.
  - pose proof (tiled_member _ _ _ _ _ Ht Hl). lia.
Qed.

Lemma tiled_same_end size n s x l l' ls :
  tiled size n s ls -> l ∈ ls -> l' ∈ ls -> source_start l < x <= source_end l ->
  source_end l' = x -> l' = l.
Proof.
  intros Ht Hl Hl' Hx Hx'. eapply tiled_same; eauto.
  pose proof (tiled_member _ _ _ _ _ Ht Hl'). lia.
Qed.

Lemma tiled_find ls : forall size n s x,
  tiled size n s ls -> s <= x < size ->
  exists l, at_ ls (partition_point (fun l => source_end l <=? x) ls) = Some l /\
    l ∈ ls /\ source_start l <= x < source_end l.
Proof.
  induction ls as [|l ls IH]; intros size n s x Ht Hx; cbn in Ht; [lia|].
  destruct Ht as (? & ? & ? & ? & Ht). cbn [partition_point].
  destruct (source_end l <=? x) eqn:Hl; to_prop.
  - destruct (IH _ _ _ x Ht ltac:(lia)) as (l' & Hat & Hin & ?).
    exists l'. rewrite at_succ by apply partition_point_nonneg. split_and!; try done; [|lia..].
    by apply list_elem_of_further.
  - exists l. rewrite at_0. split_and!; try done; [|lia..]. apply list_elem_of_here.
Qed.

Lemma tiled_find_end ls : forall size n s x,
  tiled size n s ls -> s < x <= size ->
  exists l, at_ ls (partition_point (fun l => source_end l <? x) ls) = Some l /\
    l ∈ ls /\ source_start l < x <= source_end l.
Proof.
  induction ls as [|l ls IH]; intros size n s x Ht Hx; cbn in Ht; [lia|].
  destruct Ht as (? & ? & ? & ? & Ht). cbn [partition_point].
  destruct (source_end l <? x) eqn:Hl; to_prop.
  - destruct (IH _ _ _ x Ht ltac:(lia)) as (l' & Hat & Hin & ?).
    exists l'. rewrite at_succ by apply partition_point_nonneg. split_and!; try done; [|lia..].
    by apply list_elem_of_further.
  - exists l. rewrite at_0. split_and!; try done; [|lia..]. apply list_elem_of_here.
Qed.

(** The line before the partition point is the last that ends by [x]; the line at it
    is the first that ends later. *)
Lemma tiled_before ls : forall size n s x,
  tiled size n s ls ->
  let after := partition_point (fun l => source_end l <=? x) ls in
  match (index ← checked_sub after 1; at_ ls index) with
  | Some l => l ∈ ls /\ source_end l <= x /\
              forall l', l' ∈ ls -> source_end l' <= x -> source_end l' <= source_end l
  | None => forall l', l' ∈ ls -> x < source_end l'
  end.
Proof.
  induction ls as [|l ls IH]; intros size n s x Ht; cbn zeta.
  { cbn. intros l' Hl'. by apply elem_of_nil in Hl'. }
  destruct Ht as (? & ? & ? & ? & Ht). cbn [partition_point].
  destruct (source_end l <=? x) eqn:Hl; to_prop.
  - specialize (IH _ _ _ x Ht). cbn zeta in IH.
    set (k := partition_point (fun l => source_end l <=? x) ls) in *.
    pose proof (partition_point_nonneg (fun l => source_end l <=? x) ls). fold k in H3.
    rewrite checked_sub_some by lia. cbn [mbind option_bind].
    replace (1 + k - 1) with k by lia. destruct (Z.eq_dec k 0) as [Hk|Hk].
    + rewrite Hk, at_0. split_and!; [apply list_elem_of_here|done|].
      intros l' Hl'. apply elem_of_cons in Hl' as [->|Hl']; [lia|].
      rewrite Hk in IH. cbn in IH. specialize (IH l' Hl'). lia.
    + rewrite checked_sub_some in IH by lia. cbn [mbind option_bind] in IH.
      replace k with (1 + (k - 1)) by lia. rewrite at_succ by lia.
      assert (exists l0, at_ ls (k - 1) = Some l0) as [l0 Hl0].
      { destruct (at_ ls (k - 1)) eqn:Hat; [eauto|]. exfalso. revert Hat. unfold at_.
        is_true (0 <=? k - 1). intros Hat%lookup_ge_None.
        assert (k <= len ls); [|unfold len in *; lia]. unfold k. clear.
        induction ls; cbn; [done|]. rewrite len_cons. pose proof (len_nonneg ls). case_match; lia. }
      rewrite Hl0 in IH |- *. destruct IH as (Hin & Hle & Hmax).
      split_and!; [by apply list_elem_of_further|done|].
      intros l' Hl'. apply elem_of_cons in Hl' as [->|Hl']; [|auto]. intros _.
      pose proof (tiled_member _ _ _ _ _ Ht Hin). lia.
  - cbn. intros l' Hl'. apply elem_of_cons in Hl' as [->|Hl']; [lia|].
    pose proof (tiled_member _ _ _ _ _ Ht Hl'). lia.
Qed.

Lemma tiled_after ls : forall size n s x,
  tiled size n s ls ->
  match at_ ls (partition_point (fun l => source_end l <=? x) ls) with
  | Some l => l ∈ ls /\ x < source_end l /\
              forall l', l' ∈ ls -> x < source_end l' -> source_end l <= source_end l'
  | None => forall l', l' ∈ ls -> source_end l' <= x
  end.
Proof.
  induction ls as [|l ls IH]; intros size n s x Ht.
  { cbn. intros l' Hl'. by apply elem_of_nil in Hl'. }
  destruct Ht as (? & ? & ? & ? & Ht). cbn [partition_point].
  destruct (source_end l <=? x) eqn:Hl; to_prop.
  - rewrite at_succ by apply partition_point_nonneg. specialize (IH _ _ _ x Ht).
    destruct (at_ ls _) as [l0|].
    + destruct IH as (Hin & Hle & Hmin). split_and!; [by apply list_elem_of_further|done|].
      intros l' Hl'. apply elem_of_cons in Hl' as [->|Hl']; [lia|auto].
    + intros l' Hl'. apply elem_of_cons in Hl' as [->|Hl']; [done|auto].
  - rewrite at_0. split_and!; [apply list_elem_of_here|lia|].
    intros l' Hl'. apply elem_of_cons in Hl' as [->|Hl']; [lia|].
    pose proof (tiled_member _ _ _ _ _ Ht Hl'). lia.
Qed.

(** ** The boundary searches *)

Lemma retreat_spec text start n :
  let stop := retreat text start n in
  start <= stop <= start + Z.of_nat n /\
  (start < stop -> is_char_boundary text stop = true) /\
  (forall i, stop < i <= start + Z.of_nat n -> is_char_boundary text i = false).
Proof.
  cbn zeta. induction n as [|n IH]; cbn [retreat].
  - split_and!; try lia.
  - cbn zeta. destruct (is_char_boundary text (start + Z.of_nat (S n))) eqn:Hb.
    + split_and!; try lia; done.
    + destruct IH as (IH1 & IH2 & IH3). split_and!; try lia; [done|].
      intros i Hi. destruct (Z.eq_dec i (start + Z.of_nat (S n))) as [->|]; [done|]. apply IH3. lia.
Qed.

Lemma advance_spec text stop n :
  let stop' := advance text stop n in
  stop <= stop' <= stop + Z.of_nat n /\
  (stop' < stop + Z.of_nat n -> is_char_boundary text stop' = true) /\
  (forall i, stop <= i < stop' -> is_char_boundary text i = false).
Proof.
  cbn zeta. revert stop. induction n as [|n IH]; intros stop; cbn [advance].
  - split_and!; try lia.
  - destruct (is_char_boundary text stop) eqn:Hb.
    + split_and!; try lia; done.
    + destruct (IH (stop + 1)) as (IH1 & IH2 & IH3). split_and!; try lia.
      * intros. apply IH2. lia.
      * intros i Hi. destruct (Z.eq_dec i stop) as [->|]; [done|]. apply IH3. lia.
Qed.

Lemma boundary_within text start :
  utf8_valid text = true -> 0 <= start < len text -> is_char_boundary text start = true ->
  exists j, start < j <= start + 4 /\ j <= len text /\ is_char_boundary text j = true.
Proof.
  intros Hv Hs Hb. unfold len in *.
  destruct (boundary_next text (Z.to_nat start)) as (j & ? & ? & ?); [done|lia| |].
  - by rewrite Z2Nat.id by lia.
  - exists (Z.of_nat j). split_and!; try lia. done.
Qed.

(** The cut inside a line, reached when no line ends between [start] and the hard
    bound: the last character boundary within the preferred size, else the next one. *)
Lemma cut_inside text start preferred hard :
  utf8_valid text = true -> len text <= ISIZE_MAX -> 0 <= start -> start < preferred < len text ->
  preferred <= hard <= len text -> is_char_boundary text start = true ->
  let stop := retreat text start (Z.to_nat (preferred - start)) in
  match (stop' ← (if stop <=? start then
            next ← ok_or OffsetOverflow (checked_add USIZE_MAX start 1);
            Ok (advance text next (Z.to_nat (hard + 1 - next)))
          else Ok stop);
         _ ← reject_if ((stop' <=? start) || (hard <? stop')) UnitTooLarge;
         Ok stop')
  with
  | Ok stop' => start < stop' <= hard /\ is_char_boundary text stop' = true
  | Err e => e = UnitTooLarge /\ hard < start + 4
  end.
Proof.
  intros Hv Hsize Hs Hp Hh Hb. cbn zeta.
  destruct (retreat_spec text start (Z.to_nat (preferred - start))) as (R1 & R2 & R3).
  set (stop := retreat text start (Z.to_nat (preferred - start))) in *.
  destruct (stop <=? start) eqn:Hle; to_prop.
  - rewrite checked_add_some by width. cbn [mbind result_bind ok_or].
    destruct (advance_spec text (start + 1) (Z.to_nat (hard + 1 - (start + 1)))) as (A1 & A2 & A3).
    set (stop' := advance text (start + 1) (Z.to_nat (hard + 1 - (start + 1)))) in *.
    is_false (stop' <=? start). cbn [orb]. destruct (hard <? stop') eqn:Hlt; to_prop; cbn.
    + split; [done|]. destruct (boundary_within text start Hv ltac:(lia) Hb) as (j & Hj & Hjl & Hjb).
      destruct (decide (hard < j)); [lia|]. by rewrite A3 in Hjb by lia.
    + split; [lia|]. apply A2. lia.
  - cbn. is_false (stop <=? start). is_false (hard <? stop). cbn. split; [lia|]. by apply R2.
Qed.

Lemma choose_end_spec text start preferred hard :
  utf8_valid text = true -> len text <= ISIZE_MAX -> 0 <= start < len text ->
  is_char_boundary text start = true -> 0 < preferred <= hard -> hard <= U32_MAX ->
  match choose_end text (logical_lines text) start preferred hard with
  | Ok stop => start < stop <= start + hard /\ stop <= len text /\
      is_char_boundary text stop = true /\
      ((exists l, l ∈ logical_lines text /\ source_end l = stop) \/
       forall l, l ∈ logical_lines text -> start < source_end l -> start + hard < source_end l)
  | Err e => e = UnitTooLarge /\ hard < 4
  end.
Proof.
  intros Hv Hsize Hs Hb Hp Hh. pose proof (tiled_logical_lines text) as Ht.
  assert (forall l, l ∈ logical_lines text -> is_char_boundary text (source_end l) = true) as Hends.
  { intros l Hl. by apply (line_ends_boundary text 0 0 l Hv ltac:(lia)). }
  assert (forall l, l ∈ logical_lines text -> 0 <= source_end l <= len text) as Hin.
  { intros l Hl. pose proof (tiled_member _ _ _ _ _ Ht Hl). lia. }
  unfold choose_end. rewrite !checked_add_some by width. cbn [mbind result_bind ok_or].
  destruct (_ && _) eqn:Hearly; to_prop.
  { split_and!; [lia..|apply boundary_end|]. left.
    destruct (tiled_find_end _ _ _ _ (len text) Ht ltac:(lia)) as (l & _ & Hl & Hle).
    exists l. split; [done|]. specialize (Hin l Hl). lia. }
  assert (start + preferred < len text) as Hpl by (apply andb_false_iff in Hearly as [?|?]; to_prop; lia).
  rewrite (Z.min_l (start + preferred)) by lia.
  rewrite !try_from_some by width. cbn [mbind result_bind ok_or].
  pose proof (tiled_before _ _ _ _ (start + preferred) Ht) as Hbefore. cbn zeta in Hbefore.
  pose proof (tiled_after _ _ _ _ (start + preferred) Ht) as Hafter.
  set (after := partition_point (fun l => source_end l <=? start + preferred) (logical_lines text)) in *.
  set (before := (index ← checked_sub after 1; at_ (logical_lines text) index)) in *.
  destruct (option_keep _ before) as [l|] eqn:Hkeep.
  { apply option_keep_inv in Hkeep as [Hl Hgt]. rewrite Hl in Hbefore. to_prop.
    destruct Hbefore as (Hl' & Hle & _). specialize (Hin l Hl'). rewrite try_from_some by width.
    cbn. split_and!; try lia; eauto. }
  assert (forall l, l ∈ logical_lines text -> start < source_end l -> start + preferred < source_end l)
    as Hnone.
  { intros l Hl Hgt. destruct before as [l0|] eqn:H0; [|auto]. cbn in Hkeep.
    destruct (start <? source_end l0) eqn:Hlt; [done|]. to_prop. destruct Hbefore as (_ & _ & Hmax).
    destruct (decide (source_end l <= start + preferred)) as [Hle|]; [|lia].
    specialize (Hmax l Hl Hle). lia. }
  destruct (tiled_find _ _ _ _ start Ht ltac:(lia)) as (l0 & _ & Hl0 & Hl0s).
  destruct (at_ (logical_lines text) after) as [l|] eqn:Hat; cbn [option_keep].
  2:{ specialize (Hafter l0 Hl0). specialize (Hnone l0 Hl0). lia. }
  destruct Hafter as (Hl & Hgt & Hmin). pose proof (Hin l Hl).
  destruct (source_end l <=? Z.min (start + hard) (len text)) eqn:Hle; to_prop.
  { rewrite try_from_some by width. cbn. split_and!; try lia; eauto. }
  rewrite Z.min_l by lia.
  pose proof (cut_inside text start (start + preferred) (start + hard) Hv Hsize
    ltac:(lia) ltac:(lia) ltac:(lia) Hb) as Hcut. cbn zeta in Hcut.
  rewrite checked_add_some in Hcut by width. cbn [mbind result_bind ok_or] in Hcut.
  match goal with |- match ?r with _ => _ end => destruct r end.
  - destruct Hcut as [? ?]. split_and!; try lia; [done|]. right. intros l' Hl' Hgt'.
    specialize (Hnone l' Hl' Hgt'). specialize (Hmin l' Hl'). lia.
  - destruct Hcut. split; [done|lia].
Qed.

Section Units.
Context (text : list Z) (preferred hard : Z).
Context (Hv : utf8_valid text = true) (Hsize : len text <= ISIZE_MAX).
Context (Hp : 0 < preferred <= hard) (Hh : hard <= U32_MAX).

(** One unit between two chosen ends. *)
Lemma unit_between start stop first last :
  0 <= start < stop -> stop <= start + hard -> stop <= len text ->
  is_char_boundary text start = true -> is_char_boundary text stop = true ->
  at_ (logical_lines text) (partition_point (fun l => source_end l <=? start) (logical_lines text)) = Some first ->
  at_ (logical_lines text) (partition_point (fun l => source_end l <? stop) (logical_lines text)) = Some last ->
  unit_valid text hard
    {| unit_start := start; unit_end := stop; logical_line_start := line_index first;
       logical_line_end := line_index last + 1;
       starts_at_line_boundary := source_start first =? start;
       ends_at_line_boundary := source_end last =? stop |}.
Proof.
  intros Hs He Hl Hb Hb' Hf Hla. pose proof (tiled_logical_lines text) as Ht.
  destruct (tiled_find _ _ _ _ start Ht ltac:(lia)) as (f & Hf' & Hfin & Hfs).
  destruct (tiled_find_end _ _ _ _ stop Ht ltac:(lia)) as (l & Hl' & Hlin & Hls).
  rewrite Hf in Hf'. injection Hf' as <-. rewrite Hla in Hl'. injection Hl' as <-.
  unfold unit_valid. cbn. split_and!; try lia; try done. exists first, last. done.
Qed.

Lemma unit_loop_outcome fuel : forall start units capacity maximum,
  0 <= start <= len text -> len text - start <= Z.of_nat fuel ->
  is_char_boundary text start = true -> len units <= start ->
  outcome (unit_loop fuel text (logical_lines text) preferred hard maximum start units capacity)
    (fun us => exists more, us = units ++ more /\ unit_partition text hard start more /\
       Forall (cut_justified text hard) more /\ (more <> [] -> len us <= maximum))
    (fun e => (e = TooManyUnits /\ maximum < len text) \/ (e = UnitTooLarge /\ hard < 4)).
Proof.
  pose proof (tiled_logical_lines text) as Ht.
  induction fuel as [|fuel IH]; intros start units capacity maximum Hs Hf Hb Hu;
    cbn [unit_loop]; destruct (start <? len text) eqn:Hlt; to_prop.
  1: lia.
  1, 3: apply outcome_ret; exists []; rewrite app_nil_r; split_and!; try done; cbn; lia.
  apply (outcome_bind _ _ (fun _ => True)).
  { apply outcome_check; unfold interrupt, preparation_interrupt; auto. }
  intros _ _. apply (outcome_bind _ _ (fun _ => len units < maximum)).
  { apply outcome_lift; unfold reject_if; intros a; destruct (maximum <=? len units) eqn:Hm;
      intros [=]; to_prop; subst; [lia|]. left. split; [done|lia]. }
  intros _ Hm. pose proof (choose_end_spec text start preferred hard Hv Hsize ltac:(lia) Hb Hp Hh) as Hc.
  eapply outcome_bind.
  { apply outcome_lift with (Q := fun stop => choose_end text (logical_lines text) start preferred hard = Ok stop);
      [done|]. intros e He. rewrite He in Hc. by right. }
  intros stop Hstop. rewrite Hstop in Hc. destruct Hc as (Hr & Hle & Hbs & Hcut).
  is_false ((stop <=? start) || (hard <? stop - start)).
  rewrite !try_from_some by width.
  destruct (tiled_find _ _ _ _ start Ht ltac:(lia)) as (first & Hfirst & Hfin & Hfs).
  destruct (tiled_find_end _ _ _ _ stop Ht ltac:(lia)) as (last & Hlast & Hlin & Hls).
  pose proof (unit_between start stop first last ltac:(lia) ltac:(lia) Hle Hb Hbs Hfirst Hlast) as Hunit.
  cbn [reject_if ok_or]. rewrite !lift_ok_bind.
  rewrite Hfirst, Hlast. cbn [ok_or]. rewrite !lift_ok_bind.
  pose proof (tiled_member _ _ _ _ _ Ht Hlin) as (_ & _ & Hidx).
  pose proof (tiled_count _ _ _ _ Ht) as Hcount.
  apply (outcome_bind _ _ (fun _ => True)).
  { apply outcome_grow; [unfold interrupt, preparation_interrupt; auto|done]. }
  intros capacity' _. rewrite checked_add_some by width. cbn [ok_or]. rewrite lift_ok_bind.
  cbv zeta. set (unit := {| unit_start := start |}) in *.
  assert (len (units ++ [unit]) = len units + 1) as Hlen by (by rewrite len_app, len_cons, len_nil).
  eapply outcome_weaken; [apply (IH stop (units ++ [unit]) capacity' maximum); try done; lia| |done].
  intros us (more & -> & Hpart & Hcuts & Hmax). exists (unit :: more).
  split_and!.
  - by rewrite <- (assoc_L (++)).
  - cbn. done.
  - constructor; [|done]. unfold cut_justified. cbn. intros Hflag l Hl Hgt.
    destruct Hcut as [(l' & Hl' & Heq)|Hcut]; [|auto].
    to_prop. by destruct (tiled_same_end _ _ _ stop last l' _ Ht) as [].
  - intros _. destruct more; [|by apply Hmax]. rewrite app_nil_r. lia.
Qed.
End Units.

Lemma unit_partition_start text hard us : forall start,
  unit_partition text hard start us -> 0 <= start -> start <= len text.
Proof.
  induction us as [|u us IH]; intros start Hp Hs; cbn in Hp; [lia|].
  destruct Hp as (<- & (Hv & ? & _) & _). lia.
Qed.

Lemma is_supported_bounds s : is_supported s = true ->
  0 < preferred_unit_bytes s <= max_unit_bytes s /\ max_unit_bytes s <= 64 * 1024.
Proof. unfold is_supported, MAX_PREPARATION_UNIT_BYTES. intros. to_prop. lia. Qed.

Lemma unitize_outcome bytes settings limits :
  utf8_valid bytes = true -> len bytes <= ISIZE_MAX -> is_supported settings = true ->
  outcome (unitize_text {| text := bytes; lines := logical_lines bytes |} settings limits)
    (fun us => unit_partition bytes (max_unit_bytes settings) 0 us /\
       Forall (cut_justified bytes (max_unit_bytes settings)) us /\
       (us <> [] -> len us <= max_units limits))
    (fun e => (e = TooManyUnits /\ max_units limits < len bytes) \/
              (e = UnitTooLarge /\ max_unit_bytes settings < 4)).
Proof.
  intros Hv Hs Hsup. apply is_supported_bounds in Hsup as [Hp Hh]. pose proof (len_nonneg bytes).
  unfold unitize_text. cbn [text lines]. rewrite !try_from_some by width.
  cbn [ok_or]. rewrite !lift_ok_bind. eapply outcome_bind.
  - apply (unit_loop_outcome bytes _ _ Hv Hs Hp ltac:(width)); unfold len; cbn; lia || done.
  - cbv beta. intros us (more & -> & ?). rewrite app_nil_l in *.
    apply (outcome_bind _ _ (fun _ => True)).
    + apply outcome_check; unfold interrupt, preparation_interrupt; auto.
    + intros _ _. apply outcome_ret. naive_solver.
Qed.

(** ** Claims *)

(** C3. The units of a materialized text partition it: in order, without gap or
    overlap, each a nonempty range of at most [max_unit_bytes] bytes between character
    boundaries, with the numbers of the lines it touches and the two line-boundary
    flags true to the line inventory.  A unit ends inside a line only if no line ends
    within its hard bound.  The loop terminates, and the only refusals (other than an
    interruption by the environment) are a text longer than [max_units] and, for hard
    bounds below the four bytes of a UTF-8 scalar, [UnitTooLarge]. *)
Theorem unitize_partitions bytes settings limits w
    (Hutf8 : utf8_valid bytes = true) (Hsize : len bytes <= ISIZE_MAX)
    (Hsettings : is_supported settings = true) :
  match run (unitize_text {| text := bytes; lines := logical_lines bytes |} settings limits) w with
  | Ok us => unit_partition bytes (max_unit_bytes settings) 0 us /\
             Forall (cut_justified bytes (max_unit_bytes settings)) us /\
             (us <> [] -> len us <= max_units limits)
  | Err TooManyUnits => max_units limits < len bytes
  | Err UnitTooLarge => max_unit_bytes settings < 4
  | Err e => (e = Cancelled \/ e = Deadline \/ e = AllocationFailed) /\ ~ calm w
  end.
Proof.
  destruct (unitize_outcome bytes settings limits Hutf8 Hsize Hsettings w) as [H _].
  destruct (run _ w) as [us|e]; [done|].
  destruct H as [[[-> ?]|[-> ?]]|[Hi Hc]]; [done..|].
  destruct Hi as [->|[->| ->]]; auto.
Qed.

Definition small_settings : PreparationSettings :=
  {| utf8_version := 1; line_unitizer_version := 1; preferred_unit_bytes := 4; max_unit_bytes := 6 |}.
Definition small_limits : PreparationLimits :=
  {| max_input_bytes := 64; max_output_bytes := 64; max_lines := 8; max_units := 8;
     max_encoded_bytes := 1024 |}.
Definition small_text : list Z := str "ab" ++ [10] ++ str "cdefghijk" ++ [13; 10].

Lemma unitize_partitions_witness :
  run (unitize_text {| text := small_text; lines := logical_lines small_text |}
         small_settings small_limits) []
  = Ok [{| unit_start := 0; unit_end := 3; logical_line_start := 0; logical_line_end := 1;
           starts_at_line_boundary := true; ends_at_line_boundary := true |};
        {| unit_start := 3; unit_end := 7; logical_line_start := 1; logical_line_end := 2;
           starts_at_line_boundary := true; ends_at_line_boundary := false |};
        {| unit_start := 7; unit_end := 11; logical_line_start := 1; logical_line_end := 2;
           starts_at_line_boundary := false; ends_at_line_boundary := false |};
        {| unit_start := 11; unit_end := 14; logical_line_start := 1; logical_line_end := 2;
           starts_at_line_boundary := false; ends_at_line_boundary := true |}]
  /\ unit_partition small_text 6 0
       (default [] (result_ok (run (unitize_text {| text := small_text; lines := logical_lines small_text |}
         small_settings small_limits) []))).
Proof.
  split; [reflexivity|].
  pose proof (unitize_partitions small_text small_settings small_limits [] eq_refl
    ltac:(vm_compute; congruence) eq_refl) as H.
  exact (proj1 H).
Defined.
