(* ===== verification/Prepared.v ===== *)
(** The complete prepared artifact of the crate [search-unitizer]: its encoding, the
    borrowed acceptance of a saved artifact, and the whole preparation
    (crates/search-prep/search-unitizer/src/{prepared,prepared/wire,prepared/encode,prepared/decode}.rs). *)

From S2P Require Import Prelude Bytes Reader Utf8 Ids Registry Materializer Layout.

(** ** wire.rs *)

Definition MAGIC : list Z := str "ELSPRP01".
Definition VERSION : Z := 1.
Definition BINDING_BYTES : Z := 16 + 16 + 8 + 2 + 1 + 32 + 8.
Definition SETTINGS_BYTES : Z := 2 + 2 + 4 + 4.
Definition HEADER_BYTES : Z := len MAGIC + 2 + BINDING_BYTES + SETTINGS_BYTES + 8 + 8.
Definition UNIT_BYTES : Z := 8 + 8 + 8 + 8 + 1 + 1.

Definition encoded_size (text units : Z) : result PreparationError Z :=
  ok_or OffsetOverflow
    (size ← checked_mul USIZE_MAX units UNIT_BYTES;
     size ← checked_add USIZE_MAX size HEADER_BYTES;
     checked_add USIZE_MAX size text).

(** [put_usize]: the bytes appended to [out]. *)
Definition put_usize (out : list Z) (value : Z) : result PreparationError (list Z) :=
  value64 ← ok_or OffsetOverflow (try_from U64_MAX value);
  Ok (out ++ le_bytes 8 value64).

Definition take (count : Z) : P PreparationError (list Z) :=
  take_bytes OffsetOverflow InvalidArtifact count.
Definition uint (n : nat) : P PreparationError Z := take_uint OffsetOverflow InvalidArtifact n.
Definition read_usize : P PreparationError Z :=
  v ← uint 8; of_result (ok_or OffsetOverflow (try_from USIZE_MAX v)).
Definition boolean : P PreparationError bool :=
  x ← take 1;
  of_result (if bool_decide (x = [0]) then Ok false
             else if bool_decide (x = [1]) then Ok true else Err InvalidArtifact).

(** [read()? != expected], refused with [e]. *)
Definition expect {A} `{EqDecision A} (p : P PreparationError A) (expected : A)
    (e : PreparationError) : P PreparationError unit :=
  x ← p; of_result (reject_if (negb (bool_decide (x = expected))) e).

(** ** encode.rs *)

(** The fixed header before the two counts. *)
Definition binding (source : CurrentSourceRecord) (settings : PreparationSettings) : list Z :=
  MAGIC ++ le_bytes 2 VERSION
  ++ source_namespace_id source ++ source_id source
  ++ le_bytes 8 (registration_revision source)
  ++ le_bytes 2 (format_version (object_ref source))
  ++ [kind_tag (kind (object_ref source))]
  ++ digest (object_ref source)
  ++ le_bytes 8 (byte_length (object_ref source))
  ++ le_bytes 2 (utf8_version settings)
  ++ le_bytes 2 (line_unitizer_version settings)
  ++ le_bytes 4 (preferred_unit_bytes settings)
  ++ le_bytes 4 (max_unit_bytes settings).

Fixpoint put_chunks (out : list Z) (cs : list (list Z)) : M PreparationError (list Z) :=
  match cs with
  | [] => mret out
  | chunk :: cs => _ ← check; put_chunks (out ++ chunk) cs
  end.

(** [u8::from(flag)] *)
Definition flag_byte (b : bool) : Z := if b then 1 else 0.

Definition put_unit (out : list Z) (unit : UnitSpan) : result PreparationError (list Z) :=
  out ← put_usize out (unit_start unit);
  out ← put_usize out (unit_end unit);
  Ok (out ++ le_bytes 8 (logical_line_start unit) ++ le_bytes 8 (logical_line_end unit)
          ++ [flag_byte (starts_at_line_boundary unit)] ++ [flag_byte (ends_at_line_boundary unit)]).

Fixpoint put_units (out : list Z) (units : list UnitSpan) : M PreparationError (list Z) :=
  match units with
  | [] => mret out
  | unit :: units =>
      _ ← check;
      out ← lift (put_unit out unit);
      put_units out units
  end.

Definition encode (source : CurrentSourceRecord) (settings : PreparationSettings)
    (product : MaterializedText) (units : list UnitSpan) (limits : PreparationLimits)
    : M PreparationError (list Z) :=
  _ ← check;
  size ← lift (encoded_size (len (text product)) (len units));
  _ ← lift (reject_if (max_encoded_bytes limits <? size) EncodedTooLarge);
  _ ← reserve_with AllocationFailed;
  let out := binding source settings in
  out ← lift (put_usize out (len (text product)));
  out ← lift (put_usize out (len units));
  out ← put_chunks out (chunks (Z.to_nat 8192) (text product));
  out ← put_units out units;
  _ ← check;
  mret out.

(** ** decode.rs *)

Record Line := { line_first : Z; line_last : Z; line_number : Z }.
Record Lines := { lines_bytes : list Z; lines_offset : Z; lines_index : Z }.

(** The [while] loop of [Lines::next]; [rest] is [bytes\[offset..\]]. *)
Fixpoint next_loop (rest : list Z) (offset : Z) : M PreparationError Z :=
  match rest with
  | [] => mret offset
  | byte :: tail =>
      _ ← (if offset mod 1024 =? 0 then check else mret tt);
      if (byte =? 13) && match tail with next :: _ => next =? 10 | [] => false end
      then mret (offset + 2)
      else if (byte =? 10) || (byte =? 13) then mret (offset + 1)
      else next_loop tail (offset + 1)
  end.

(** [Lines::next] *)
Definition next (maximum : Z) (lines : Lines) : M PreparationError (option Line * Lines) :=
  _ ← check;
  if lines_offset lines =? len (lines_bytes lines) then mret (None, lines)
  else
    index ← lift (ok_or OffsetOverflow (try_from USIZE_MAX (lines_index lines)));
    _ ← lift (reject_if (maximum <=? index) TooManyLines);
    let start := lines_offset lines in
    offset ← next_loop (drop (Z.to_nat start) (lines_bytes lines)) start;
    let line := {| line_first := start; line_last := offset; line_number := lines_index lines |} in
    index' ← lift (ok_or OffsetOverflow (checked_add U64_MAX (lines_index lines) 1));
    mret (Some line, {| lines_bytes := lines_bytes lines; lines_offset := offset;
                        lines_index := index' |}).

(** [while cond(line) { line = lines.next(..)?.ok_or(InvalidArtifact)? }].  Every
    turn moves past a nonempty line, so the text's length bounds the turns. *)
Fixpoint skip_lines (fuel : nat) (maximum : Z) (cond : Line -> bool) (line : Line) (lines : Lines)
    : M PreparationError (Line * Lines) :=
  if cond line then
    match fuel with
    | O => fail InvalidArtifact
    | S fuel =>
        step ← next maximum lines;
        line' ← lift (ok_or InvalidArtifact (fst step));
        skip_lines fuel maximum cond line' (snd step)
    end
  else mret (line, lines).

(** The six fields of one saved descriptor. *)
Definition read_unit : P PreparationError UnitSpan :=
  source_start ← read_usize;
  source_end ← read_usize;
  line_start ← uint 8;
  line_end ← uint 8;
  starts ← boolean;
  ends ← boolean;
  mret {| unit_start := source_start; unit_end := source_end;
          logical_line_start := line_start; logical_line_end := line_end;
          starts_at_line_boundary := starts; ends_at_line_boundary := ends |}.

(** The body of the [for _ in 0..count] loop of [read_units]. *)
Definition unit_step (text : list Z) (hard maximum : Z) (r : reader) (lines : Lines)
    (current : option Line) (expected_start : Z)
    : M PreparationError (UnitSpan * (reader * (Lines * Line))) :=
  _ ← check;
  read ← lift (read_unit r);
  let '(unit, r) := read in
  _ ← lift (reject_if
        (negb (unit_start unit =? expected_start)
         || (unit_end unit <=? unit_start unit)
         || (len text <? unit_end unit)
         || (hard <? unit_end unit - unit_start unit)
         || negb (is_char_boundary text (unit_start unit))
         || negb (is_char_boundary text (unit_end unit))) InvalidArtifact);
  line ← lift (ok_or InvalidArtifact current);
  found ← skip_lines (length text) maximum
            (fun first => line_last first <=? unit_start unit) line lines;
  let '(first, lines) := found in
  found ← skip_lines (length text) maximum
            (fun last => line_last last <? unit_end unit) first lines;
  let '(last, lines) := found in
  _ ← lift (reject_if
        (negb (logical_line_start unit =? line_number first)
         || negb (bool_decide (Some (logical_line_end unit)
                               = checked_add U64_MAX (line_number last) 1))
         || negb (eqb (starts_at_line_boundary unit) (unit_start unit =? line_first first))
         || negb (eqb (ends_at_line_boundary unit) (unit_end unit =? line_last last)))
        InvalidArtifact);
  mret (unit, (r, (lines, last))).

Fixpoint units_loop (count : nat) (text : list Z) (hard maximum : Z) (r : reader) (lines : Lines)
    (current : option Line) (expected_start : Z) (units : list UnitSpan)
    : M PreparationError (list UnitSpan * (reader * Z)) :=
  match count with
  | O => mret (units, (r, expected_start))
  | S count =>
      step ← unit_step text hard maximum r lines current expected_start;
      let '(unit, (r, (lines, last))) := step in
      units_loop count text hard maximum r lines (Some last) (unit_end unit) (units ++ [unit])
  end.

Definition read_units (r : reader) (text : list Z) (count : Z) (settings : PreparationSettings)
    (limits : PreparationLimits) : M PreparationError (list UnitSpan * reader) :=
  _ ← lift (reject_if (negb (eqb (len text =? 0) (count =? 0))) InvalidArtifact);
  hard ← lift (ok_or OffsetOverflow (try_from USIZE_MAX (max_unit_bytes settings)));
  _ ← reserve_with AllocationFailed;
  step ← next (max_lines limits) {| lines_bytes := text; lines_offset := 0; lines_index := 0 |};
  let '(current, lines) := step in
  done ← units_loop (Z.to_nat count) text hard (max_lines limits) r lines current 0 [];
  let '(units, (r, expected_start)) := done in
  _ ← lift (reject_if (negb (expected_start =? len text)) InvalidArtifact);
  mret (units, r).

(** [read_binding]: each field is read and compared before the next is read. *)
Definition read_binding (source : CurrentSourceRecord) (settings : PreparationSettings)
    : P PreparationError unit :=
  _ ← expect (take (len MAGIC)) MAGIC InvalidArtifact;
  _ ← expect (uint 2) VERSION InvalidArtifact;
  _ ← expect (take 16) (source_namespace_id source) BindingMismatch;
  _ ← expect (take 16) (source_id source) BindingMismatch;
  _ ← expect (uint 8) (registration_revision source) BindingMismatch;
  _ ← expect (uint 2) (format_version (object_ref source)) BindingMismatch;
  _ ← expect (take 1) [kind_tag (kind (object_ref source))] BindingMismatch;
  _ ← expect (take 32) (digest (object_ref source)) BindingMismatch;
  _ ← expect (uint 8) (byte_length (object_ref source)) BindingMismatch;
  _ ← expect (uint 2) (utf8_version settings) BindingMismatch;
  _ ← expect (uint 2) (line_unitizer_version settings) BindingMismatch;
  _ ← expect (uint 4) (preferred_unit_bytes settings) BindingMismatch;
  expect (uint 4) (max_unit_bytes settings) BindingMismatch.

(** [PreparedUtf8] *)
Record PreparedUtf8 := { prepared_text : list Z; prepared_units : list UnitSpan }.
#[export] Instance PreparedUtf8_eq : EqDecision PreparedUtf8.
Proof. solve_decision. Defined.

(** ** prepared.rs, with BLAKE3 a parameter *)

Section Preparation.
(** [blake3::hash] of a whole byte string; the incremental hasher of the crate gives
    the hash of the concatenation of the updates. *)
Context (blake3 : list Z -> list Z).

Record Hasher := { hashed : list Z }.
Definition hasher_new : Hasher := {| hashed := [] |}.
Definition hasher_update (h : Hasher) (bytes : list Z) : Hasher := {| hashed := hashed h ++ bytes |}.
Definition hasher_finalize (h : Hasher) : list Z := blake3 (hashed h).

Fixpoint hash_chunks (h : Hasher) (cs : list (list Z)) : M PreparationError Hasher :=
  match cs with
  | [] => mret h
  | chunk :: cs => _ ← check; hash_chunks (hasher_update h chunk) cs
  end.

(** [verify_digest] *)
Definition verify_digest (source : CurrentSourceRecord) (bytes : list Z) : M PreparationError unit :=
  h ← hash_chunks hasher_new (chunks (Z.to_nat 8192) bytes);
  _ ← check;
  lift (reject_if (negb (bool_decide (hasher_finalize h = digest (object_ref source))))
          IntegrityFailure).

(** [validate] *)
Definition validate (source : CurrentSourceRecord) (settings : PreparationSettings)
    (limits : PreparationLimits) : M PreparationError unit :=
  _ ← check;
  _ ← lift (validate_limits limits);
  _ ← lift (reject_if (negb (is_supported settings)) InvalidSettings);
  _ ← lift (reject_if ((registration_revision source =? 0)
        || negb (bool_decide (kind (object_ref source) = Source))
        || negb (format_version (object_ref source) =? SOURCE_OBJECT_FORMAT_VERSION)
        || (MAX_SOURCE_OBJECT_BYTES <? byte_length (object_ref source))) BindingMismatch);
  length ← lift (ok_or OffsetOverflow (try_from USIZE_MAX (byte_length (object_ref source))));
  lift (check_text_length limits length).

(** [decode::decode] *)
Definition decode (artifact : list Z) (source : CurrentSourceRecord)
    (settings : PreparationSettings) (limits : PreparationLimits)
    : M PreparationError PreparedUtf8 :=
  _ ← lift (reject_if (max_encoded_bytes limits <? len artifact) EncodedTooLarge);
  _ ← lift (reject_if (len artifact <? HEADER_BYTES) InvalidArtifact);
  read ← lift (read_binding source settings (Reader artifact 0));
  read ← lift (read_usize (snd read));
  let '(text_length, r) := read in
  read ← lift (read_usize r);
  let '(unit_count, r) := read in
  _ ← lift (reject_if (max_units limits <? unit_count) TooManyUnits);
  _ ← lift (check_text_length limits text_length);
  _ ← lift (reject_if (negb (bool_decide (try_from U64_MAX text_length
                                          = Some (byte_length (object_ref source))))) BindingMismatch);
  size ← lift (encoded_size text_length unit_count);
  _ ← lift (reject_if (negb (size =? len artifact)) InvalidArtifact);
  _ ← check;
  read ← lift (take text_length r);
  let '(text_bytes, r) := read in
  _ ← lift (reject_if (negb (utf8_valid text_bytes)) InvalidArtifact);
  _ ← verify_digest source text_bytes;
  read ← read_units r text_bytes unit_count settings limits;
  let '(units, r) := read in
  _ ← lift (reject_if (negb (at_end r)) InvalidArtifact);
  _ ← check;
  mret {| prepared_text := text_bytes; prepared_units := units |}.

Definition decode_prepared_utf8 (artifact : list Z) (expected_source : CurrentSourceRecord)
    (expected_settings : PreparationSettings) (limits : PreparationLimits)
    : M PreparationError PreparedUtf8 :=
  _ ← validate expected_source expected_settings limits;
  decode artifact expected_source expected_settings limits.

Definition prepare_utf8 (source : CurrentSourceRecord) (verified_bytes : list Z)
    (settings : PreparationSettings) (limits : PreparationLimits)
    : M PreparationError (list Z) :=
  _ ← validate source settings limits;
  _ ← lift (reject_if (negb (bool_decide (try_from U64_MAX (len verified_bytes)
                              = Some (byte_length (object_ref source))))) BindingMismatch);
  _ ← verify_digest source verified_bytes;
  product ← lift_err from_materialization (materialize_utf8 verified_bytes
    {| Materializer.max_input_bytes := max_input_bytes limits;
       Materializer.max_output_bytes := max_output_bytes limits;
       Materializer.max_lines := max_lines limits |});
  units ← unitize_text product settings limits;
  encode source settings product units limits.
End Preparation.

(** ** The artifact's bytes *)

Definition unit_bytes (u : UnitSpan) : list Z :=
  le_bytes 8 (unit_start u) ++ le_bytes 8 (unit_end u)
  ++ le_bytes 8 (logical_line_start u) ++ le_bytes 8 (logical_line_end u)
  ++ [flag_byte (starts_at_line_boundary u)] ++ [flag_byte (ends_at_line_boundary u)].

Definition artifact_of (source : CurrentSourceRecord) (settings : PreparationSettings)
    (p : PreparedUtf8) : list Z :=
  binding source settings ++ le_bytes 8 (len (prepared_text p)) ++ le_bytes 8 (len (prepared_units p))
  ++ prepared_text p ++ (prepared_units p ≫= unit_bytes).

(** The ranges of the four numbers of a descriptor. *)
Definition unit_wf (u : UnitSpan) : Prop :=
  0 <= unit_start u <= U64_MAX /\ 0 <= unit_end u <= U64_MAX /\
  0 <= logical_line_start u <= U64_MAX /\ 0 <= logical_line_end u <= U64_MAX.

Lemma flag_byte_cases b : flag_byte b = 0 \/ flag_byte b = 1.
Proof. destruct b; auto. Qed.

Lemma len_unit_bytes u : len (unit_bytes u) = UNIT_BYTES.
Proof. unfold unit_bytes. by autorewrite with len. Qed.

Lemma len_units_bytes us : len (us ≫= unit_bytes) = UNIT_BYTES * len us.
Proof.
  induction us as [|u us IH]; [done|]. rewrite bind_cons, len_app, len_unit_bytes, len_cons. lia.
Qed.

Lemma len_binding source settings :
  record_wf source -> len (binding source settings) + 16 = HEADER_BYTES.
Proof.
  intros ((Hn & _) & (Hi & _) & _ & _ & _ & _ & _ & _ & (Hd & _) & _).
  unfold binding. autorewrite with len. unfold len. rewrite Hn, Hi, Hd. done.
Qed.

Lemma len_artifact source settings p :
  record_wf source ->
  len (artifact_of source settings p)
    = HEADER_BYTES + len (prepared_text p) + UNIT_BYTES * len (prepared_units p).
Proof.
  intros Hw. pose proof (len_binding source settings Hw). unfold artifact_of.
  autorewrite with len. rewrite len_units_bytes. lia.
Qed.

Lemma encoded_size_ok text units :
  0 <= text -> 0 <= units -> HEADER_BYTES + text + UNIT_BYTES * units <= USIZE_MAX ->
  encoded_size text units = Ok (HEADER_BYTES + text + UNIT_BYTES * units).
Proof.
  unfold encoded_size. assert (HEADER_BYTES = 121) as -> by done. unfold UNIT_BYTES. intros.
  rewrite checked_mul_some by lia. cbn [mbind option_bind].
  rewrite checked_add_some by lia. cbn [mbind option_bind].
  rewrite checked_add_some by lia. cbn [ok_or]. f_equal. lia.
Qed.

Lemma encoded_size_inv text units size :
  encoded_size text units = Ok size -> size = HEADER_BYTES + text + UNIT_BYTES * units.
Proof.
  unfold encoded_size. intros H. apply ok_or_inv in H.
  destruct (checked_mul _ _ _) as [a|] eqn:Ha; [|done]. apply checked_mul_inv in Ha as [-> _].
  cbn [mbind option_bind] in H. destruct (checked_add _ _ HEADER_BYTES) as [b|] eqn:Hb; [|done].
  apply checked_add_inv in Hb as [-> _]. cbn [mbind option_bind] in H.
  apply checked_add_inv in H as [-> _]. lia.
Qed.

(** ** What the readers accept, and what their success proves *)

Lemma parses_expect {A} `{EqDecision A} (p : P PreparationError A) xs v e :
  parses p xs v -> parses (expect p v e) xs tt.
Proof.
  intros Hp. unfold expect. eapply parses_last; [exact Hp|].
  apply parses_of_result. by rewrite bool_decide_true.
Qed.

Lemma parses_usize v : 0 <= v <= U64_MAX -> parses read_usize (le_bytes 8 v) v.
Proof.
  intros Hv. unfold read_usize. eapply parses_last; [apply parses_uint; width|].
  apply parses_of_result. by rewrite try_from_some.
Qed.

Lemma parses_boolean b : parses boolean [flag_byte b] b.
Proof.
  unfold boolean. eapply parses_last; [by apply parses_take|].
  apply parses_of_result. by destruct b.
Qed.

Lemma parses_unit u : unit_wf u -> parses read_unit (unit_bytes u) u.
Proof.
  intros (H1 & H2 & H3 & H4). unfold read_unit, unit_bytes.
  eapply parses_bind; [by apply parses_usize|].
  eapply parses_bind; [by apply parses_usize|].
  eapply parses_bind; [apply parses_uint; width|].
  eapply parses_bind; [apply parses_uint; width|].
  eapply parses_bind; [apply parses_boolean|].
  eapply parses_last; [apply parses_boolean|]. destruct u. apply parses_ret.
Qed.

Lemma parses_binding source settings :
  record_wf source -> settings_wf settings ->
  parses (read_binding source settings) (binding source settings) tt.
Proof.
  intros ((Hn & _) & (Hi & _) & _ & Hreg & _ & _ & _ & (Hf & (Hd & _) & Hb)) (S1 & S2 & S3 & S4).
  unfold read_binding, binding.
  eapply parses_bind; [by apply parses_expect, parses_take|].
  eapply parses_bind; [by apply parses_expect, parses_uint|].
  do 2 (eapply parses_bind; [apply parses_expect, parses_take; unfold len; lia|]).
  do 2 (eapply parses_bind; [apply parses_expect, parses_uint; width|]).
  eapply parses_bind; [by apply parses_expect, parses_take|].
  eapply parses_bind; [apply parses_expect, parses_take; unfold len; lia|].
  do 4 (eapply parses_bind; [apply parses_expect, parses_uint; width|]).
  apply parses_expect, parses_uint. width.
Qed.

Lemma accounts_usize :
  accounts read_usize (fun v xs => xs = le_bytes 8 v /\ 0 <= v <= U64_MAX).
Proof.
  unfold read_usize. eapply accounts_weaken.
  - eapply accounts_bind; [apply accounts_uint|]. intros. apply accounts_of_result.
  - cbv beta. intros v xs (x & ys & zs & -> & [-> Hx] & Hv & ->). rewrite app_nil_r. inv_ok.
    by subst.
Qed.

Lemma accounts_boolean : accounts boolean (fun b xs => xs = [flag_byte b]).
Proof.
  unfold boolean. eapply accounts_weaken.
  - eapply accounts_bind; [apply accounts_take; lia|]. intros. apply accounts_of_result.
  - cbv beta. intros b xs (x & ys & zs & -> & [-> _] & Hb & ->). rewrite app_nil_r.
    repeat case_bool_decide; by inv_ok.
Qed.

Lemma accounts_unit : accounts read_unit (fun u xs => xs = unit_bytes u /\ unit_wf u).
Proof.
  unfold read_unit. eapply accounts_weaken.
  - eapply accounts_bind; [apply accounts_usize|intros s].
    eapply accounts_bind; [apply accounts_usize|intros e].
    eapply accounts_bind; [apply accounts_uint|intros ls].
    eapply accounts_bind; [apply accounts_uint|intros le].
    eapply accounts_bind; [apply accounts_boolean|intros b1].
    eapply accounts_bind; [apply accounts_boolean|intros b2]. apply accounts_ret.
  - cbv beta. intros u xs H. decompose record H. subst. unfold unit_bytes, unit_wf. cbn.
    rewrite ?app_nil_r. split; [done|]. width.
Qed.

Lemma codec_usize : codec read_usize (le_bytes 8) (fun v => 0 <= v <= U64_MAX).
Proof. split; [apply parses_usize|apply accounts_usize]. Qed.

Lemma codec_unit : codec read_unit unit_bytes unit_wf.
Proof. split; [apply parses_unit|apply accounts_unit]. Qed.

Lemma accounts_take_eq n v e :
  0 <= n -> accounts (expect (take n) v e) (fun _ xs => xs = v).
Proof.
  intros Hn r s u r' Hr Hs Ht. unfold expect, mbind, P_bind in Ht.
  destruct (take n r) as [[x r1]|] eqn:Hx; [|done].
  destruct (accounts_take _ _ n Hn _ _ _ _ Hr Hs Hx) as (xs & s' & -> & ? & ? & ? & -> & _).
  unfold of_result in Ht. case_bool_decide as Hb; [|done]. injection Ht as <- <-.
  exists xs, s'. done.
Qed.

Lemma accounts_uint_eq n v e :
  accounts (expect (uint n) v e) (fun _ xs => xs = le_bytes n v).
Proof.
  intros r s u r' Hr Hs Ht. unfold expect, mbind, P_bind in Ht.
  destruct (uint n r) as [[x r1]|] eqn:Hx; [|done].
  destruct (accounts_uint _ _ n _ _ _ _ Hr Hs Hx) as (xs & s' & -> & ? & ? & ? & -> & _).
  unfold of_result in Ht. case_bool_decide as Hb; [|done]. injection Ht as <- <-.
  subst x. by exists (le_bytes n v), s'.
Qed.

Lemma accounts_then {A B} (p : P PreparationError A) (q : P PreparationError B) xs ys :
  accounts p (fun _ l => l = xs) -> accounts q (fun _ l => l = ys) ->
  accounts (p ≫= fun _ => q) (fun _ l => l = xs ++ ys).
Proof.
  intros Hp Hq. eapply accounts_weaken; [eapply accounts_bind; [exact Hp|intros; exact Hq]|].
  cbv beta. by intros v l (? & ? & ? & -> & -> & ->).
Qed.

Lemma accounts_binding source settings :
  accounts (read_binding source settings) (fun _ xs => xs = binding source settings).
Proof.
  unfold read_binding, binding.
  repeat (apply accounts_then; [first [apply accounts_take_eq; by vm_compute | apply accounts_uint_eq]|]).
  apply accounts_uint_eq.
Qed.

Lemma codec_binding source settings :
  record_wf source -> settings_wf settings ->
  codec (read_binding source settings) (fun _ => binding source settings) (fun _ => True).
Proof.
  intros. split; [intros [] _; by apply parses_binding|].
  eapply accounts_weaken; [apply accounts_binding|]. by cbn.
Qed.

(** ** The line cursor walks the logical lines *)

#[local] Ltac interrupts := unfold interrupt, preparation_interrupt; auto.

Definition to_line (l : LineSpan) : Line :=
  {| line_first := source_start l; line_last := source_end l; line_number := line_index l |}.

(** The lines that [Lines] has still to produce. *)
Definition cursor (text : list Z) (st : Lines) (ls : list LineSpan) : Prop :=
  lines_bytes st = text /\ 0 <= lines_offset st <= len text /\
  0 <= lines_index st <= lines_offset st /\
  ls = lines_from (drop (Z.to_nat (lines_offset st)) text) (lines_offset st) (lines_offset st)
         (lines_index st).

(** [f] is the line read last and [ls] those still to come. *)
Definition walk (text : list Z) (maximum : Z) (st : Lines) (f : LineSpan) (ls : list LineSpan) : Prop :=
  cursor text st ls /\ line_index f < maximum /\ exists pre, logical_lines text = pre ++ f :: ls.

Lemma refines_prep_check : refines Layout.check (Ok tt).
Proof. apply refines_check; interrupts. Qed.

Lemma refines_next_loop rest offset : refines (next_loop rest offset) (Ok (line_stop rest offset)).
Proof.
  revert offset. induction rest as [|byte tail IH]; intros offset; cbn [next_loop line_stop].
  - apply refines_ret.
  - apply refines_seq; [case_match; [apply refines_prep_check|apply refines_ret]|].
    destruct tail as [|next tail'].
    + rewrite !andb_false_r. case_match; [apply refines_ret|apply IH].
    + repeat case_match; apply refines_ret || apply IH.
Qed.

Lemma cursor_start text :
  cursor text {| lines_bytes := text; lines_offset := 0; lines_index := 0 |} (logical_lines text).
Proof. unfold cursor. cbn. pose proof (len_nonneg text). split_and!; try lia; done. Qed.

Lemma next_outcome text maximum st ls :
  len text <= ISIZE_MAX -> cursor text st ls ->
  outcome (next maximum st)
    (fun '(o, st') => match ls with
       | [] => o = None
       | l :: ls' => o = Some (to_line l) /\ cursor text st' ls' /\ line_index l < maximum
       end)
    (fun e => e = TooManyLines /\ exists l, l ∈ ls /\ maximum <= line_index l).
Proof.
  intros Hsize (<- & Ho & Hi & ->). set (text := lines_bytes st) in *. unfold next. fold text.
  set (rest := drop (Z.to_nat (lines_offset st)) text).
  assert (len rest = len text - lines_offset st) as Hrest
    by (unfold rest, len in *; rewrite length_drop; lia).
  apply (outcome_bind _ _ (fun _ => True)); [apply outcome_check; interrupts|intros _ _].
  destruct (Z.eqb_spec (lines_offset st) (len text)) as [Heq|Hne].
  { apply outcome_ret. rewrite (len_zero_nil rest) by lia. cbn [lines_from].
    by is_false (lines_offset st <? lines_offset st). }
  rewrite try_from_some by width. cbn [ok_or]. rewrite lift_ok_bind.
  assert (rest <> []) as Hnil by (intros Hr; rewrite Hr, len_nil in Hrest; lia).
  pose proof (line_stop_range rest (lines_offset st)) as [Hle Hlt]. specialize (Hlt Hnil).
  destruct (lines_from_cons rest (lines_offset st) (lines_offset st) (lines_index st))
    as (content & Hc & ->); [lia|lia|].
  set (stop := line_stop rest (lines_offset st)) in *.
  apply (outcome_bind _ _ (fun _ => lines_index st < maximum)).
  { apply outcome_lift; unfold reject_if; intros a; destruct (maximum <=? lines_index st) eqn:Hm;
      intros [=]; to_prop; subst; [lia|]. split; [done|].
    eexists. split; [apply list_elem_of_here|]. done. }
  intros _ Hm. apply (outcome_bind _ _ (fun o => o = stop)).
  { eapply outcome_refines; [apply refines_next_loop|by intros ? [= <-]|done]. }
  intros ? ->. rewrite checked_add_some by width. cbn [ok_or]. rewrite lift_ok_bind.
  apply outcome_ret. split; [done|]. split; [|done]. unfold cursor. cbn.
  split; [done|]. split; [lia|]. split; [lia|]. unfold rest. rewrite drop_drop.
  by replace (Z.to_nat (lines_offset st) + Z.to_nat (stop - lines_offset st))%nat with (Z.to_nat stop) by lia.
Qed.

Lemma tiled_suffix pre : forall size n s ls,
  tiled size n s (pre ++ ls) -> exists n' s', tiled size n' s' ls.
Proof.
  induction pre as [|l pre IH]; intros size n s ls Ht; cbn in Ht; [eauto|].
  destruct Ht as (_ & _ & _ & _ & Ht). eauto.
Qed.

(** Skipping the lines that end by [y] stops at the line that contains [y]. *)
Lemma skip_outcome text maximum cond y fuel : forall st f ls,
  len text <= ISIZE_MAX -> (forall l, cond (to_line l) = (source_end l <=? y)) ->
  walk text maximum st f ls -> source_start f <= y < len text -> (length ls <= fuel)%nat ->
  outcome (skip_lines fuel maximum cond (to_line f) st)
    (fun '(line, st') => exists f' ls', line = to_line f' /\ walk text maximum st' f' ls' /\
       source_start f' <= y < source_end f')
    (fun e => e = TooManyLines /\ maximum < len (logical_lines text)).
Proof.
  pose proof (tiled_logical_lines text) as Ht.
  induction fuel as [|fuel IH]; intros st f ls Hsize Hcond Hw Hy Hfuel; cbn [skip_lines];
    rewrite Hcond; (destruct (source_end f <=? y) eqn:Hf; to_prop; [|apply outcome_ret; exists f, ls; split_and!; lia || done]);
    destruct Hw as (Hcur & Hmax & pre & Hpre); pose proof Ht as Hsuf; rewrite Hpre in Hsuf;
    apply tiled_suffix in Hsuf as (n & s & Hn & Hs & Hr & _ & Hsuf);
    (destruct ls as [|l ls]; [cbn in Hsuf; lia|]); [cbn in Hfuel; lia|].
  eapply outcome_bind; [eapply outcome_weaken; [by apply next_outcome|intros ? H; exact H|]|].
  - intros e (-> & l' & Hl' & Hle). split; [done|].
    assert (l' ∈ logical_lines text) as Hin.
    { rewrite Hpre. apply elem_of_app. right. by apply list_elem_of_further. }
    pose proof (tiled_member _ _ _ _ _ Ht Hin). lia.
  - intros [o st'] (-> & Hcur' & Hmax'). cbn [fst snd ok_or]. rewrite lift_ok_bind.
    destruct Hsuf as (? & ? & ? & ? & ?).
    apply (IH st' l ls); try done; [|lia|cbn in Hfuel; lia].
    split_and!; [done|done|]. exists (pre ++ [f]). rewrite Hpre, <- (assoc_L (++)). done.
Qed.

Lemma unit_valid_wf text hard u :
  len text <= ISIZE_MAX -> unit_valid text hard u -> unit_wf u.
Proof.
  intros Hs (? & ? & Hb & _ & f & l & Hf & Hl & _ & _ & Hls & Hle & _).
  pose proof (tiled_logical_lines text) as Ht. pose proof (boundary_le _ _ Hb).
  pose proof (tiled_member _ _ _ _ _ Ht Hf). pose proof (tiled_member _ _ _ _ _ Ht Hl).
  pose proof (tiled_count _ _ _ _ Ht). unfold unit_wf. width.
Qed.

Lemma walk_in text maximum st f ls : walk text maximum st f ls -> f ∈ logical_lines text.
Proof.
  intros (_ & _ & pre & Hpre). rewrite Hpre. apply elem_of_app. right. apply list_elem_of_here.
Qed.

Lemma walk_fuel text maximum st f ls : walk text maximum st f ls -> (length ls <= length text)%nat.
Proof.
  intros (_ & _ & pre & Hpre). pose proof (tiled_count _ _ _ _ (tiled_logical_lines text)) as Hc.
  rewrite Hpre, len_app, len_cons in Hc. pose proof (len_nonneg pre). unfold len in *. lia.
Qed.

(** The line that contains a position, as a step that either finds it or exceeds the
    line ceiling. *)
Lemma find_outcome text maximum cond y st f ls :
  len text <= ISIZE_MAX -> (forall l, cond (to_line l) = (source_end l <=? y)) ->
  walk text maximum st f ls -> source_start f <= y < len text ->
  outcome (skip_lines (length text) maximum cond (to_line f) st)
    (fun '(line, st') => exists f' ls', line = to_line f' /\ walk text maximum st' f' ls' /\
       source_start f' <= y < source_end f')
    (fun e => e = TooManyLines /\ maximum < len (logical_lines text)).
Proof. intros. eapply skip_outcome; eauto. by eapply walk_fuel. Qed.

(** What one turn of [read_units] establishes; [s] are the bytes still unread. *)
Lemma unit_step_outcome text hard maximum r s st f ls start :
  len text <= ISIZE_MAX -> reads r s -> bytes_ok s ->
  walk text maximum st f ls -> source_start f <= start -> 0 <= start ->
  outcome (unit_step text hard maximum r st (Some (to_line f)) start)
    (fun '(u, (r', (st', last))) => exists s' f' ls',
       s = unit_bytes u ++ s' /\ bytes_ok s' /\ reads r' s' /\ unit_start u = start /\
       unit_valid text hard u /\ logical_line_end u <= maximum /\
       last = to_line f' /\ walk text maximum st' f' ls' /\ source_start f' <= unit_end u)
    (fun e => forall u s', s = unit_bytes u ++ s' -> unit_start u = start ->
       unit_valid text hard u -> e = TooManyLines /\ maximum < len (logical_lines text)).
Proof.
  intros Hsize Hr Hs Hw Hf Hstart. pose proof (tiled_logical_lines text) as Ht. unfold unit_step.
  apply outcome_seq; [apply refines_prep_check|].
  eapply outcome_codec; [apply codec_unit|done..| |].
  2:{ intros e He u s' Hu _ Hv. destruct (He u s'); [by eapply unit_valid_wf|done]. }
  intros u r1 s1 -> Hwf Hr1 Hs1 Hsame.
  assert (forall u' s', unit_bytes u ++ s1 = unit_bytes u' ++ s' -> unit_valid text hard u' -> u' = u) as Huniq.
  { intros u' s' Hb Hv. apply (Hsame u' s'); [by eapply unit_valid_wf|done]. }
  clear Hsame. apply outcome_guard.
  { intros Hbad u' s' Hb Hus Hv. pose proof (Huniq u' s' Hb Hv) as ->. exfalso.
    destruct Hv as (? & ? & Hb1 & Hb2 & _). rewrite Hb1, Hb2 in Hbad. cbn in Hbad.
    repeat (apply orb_true_iff in Hbad as [Hbad|Hbad]); to_prop; lia || done. }
  intros Hgood. to_prop. cbn [ok_or]. rewrite lift_ok_bind.
  eapply outcome_bind.
  { eapply outcome_weaken; [apply (find_outcome text maximum _ (unit_start u) st f ls); try done; lia
                           |intros ? H'; exact H'|auto]. }
  intros [line st1] (f1 & ls1 & -> & Hw1 & Hf1). eapply outcome_bind.
  { eapply outcome_weaken; [apply (find_outcome text maximum _ (unit_end u - 1) st1 f1 ls1); try done; try lia
                           |intros ? H'; exact H'|auto].
    intros l. cbn. destruct (Z.ltb_spec (source_end l) (unit_end u)); symmetry; solve_bool. }
  intros [line st2] (f2 & ls2 & -> & Hw2 & Hf2).
  pose proof (walk_in _ _ _ _ _ Hw1) as Hin1. pose proof (walk_in _ _ _ _ _ Hw2) as Hin2.
  pose proof (tiled_member _ _ _ _ _ Ht Hin2) as (_ & _ & Hidx).
  pose proof (tiled_count _ _ _ _ Ht) as Hcount.
  cbn [to_line line_first line_last line_number]. rewrite checked_add_some by width.
  apply outcome_guard.
  { intros Hbad u' s' Hb Hus Hv. pose proof (Huniq u' s' Hb Hv) as ->. exfalso.
    destruct Hv as (_ & _ & _ & _ & g1 & g2 & Hg1 & Hg2 & Hc1 & Hc2 & E1 & E2 & E3 & E4).
    assert (g1 = f1) as -> by (eapply (tiled_same _ _ _ _ (unit_start u + 1)); eauto; lia).
    assert (g2 = f2) as -> by (eapply (tiled_same _ _ _ _ (unit_end u)); eauto; lia).
    rewrite E1, E2, E3, E4, !Z.eqb_refl, bool_decide_true in Hbad by done.
    rewrite (Z.eqb_sym (unit_start u)), (Z.eqb_sym (unit_end u)) in Hbad.
    by destruct (_ =? _), (_ =? _) in Hbad. }
  intros Hflags. to_prop. apply outcome_ret. exists s1, f2, ls2.
  repeat match goal with
  | H : Bool.eqb _ _ = true |- _ => apply Bool.eqb_prop in H
  | H : Some _ = Some _ |- _ => injection H as H
  end. split_and!; try done; try lia.
  - unfold unit_valid. split_and!; try lia; try done. exists f1, f2.
    rewrite (Z.eqb_sym (source_start f1)), (Z.eqb_sym (source_end f2)).
    split_and!; done || lia.
  - destruct Hw2 as (_ & ? & _). lia.
Qed.

Lemma unit_partition_end text hard us : forall start,
  unit_partition text hard start us -> us = [] -> start = len text.
Proof. by intros start H ->. Qed.

Lemma units_loop_outcome text hard maximum count : forall r s st f ls start units,
  len text <= ISIZE_MAX -> reads r s -> bytes_ok s ->
  walk text maximum st f ls -> source_start f <= start -> 0 <= start ->
  outcome (units_loop count text hard maximum r st (Some (to_line f)) start units)
    (fun '(us, (r', stop)) => exists more s', us = units ++ more /\ length more = count /\
       s = (more ≫= unit_bytes) ++ s' /\ bytes_ok s' /\ reads r' s' /\
       (stop = len text -> unit_partition text hard start more) /\
       Forall (fun u => logical_line_end u <= maximum) more /\
       (forall us' s2, s = (us' ≫= unit_bytes) ++ s2 -> length us' = count ->
          unit_partition text hard start us' -> stop = len text /\ s2 = s'))
    (fun e => forall us' s2, s = (us' ≫= unit_bytes) ++ s2 -> length us' = count ->
       unit_partition text hard start us' -> e = TooManyLines /\ maximum < len (logical_lines text)).
Proof.
  induction count as [|count IH]; intros r s st f ls start units Hsize Hr Hs Hw Hf Hstart;
    cbn [units_loop].
  - apply outcome_ret. exists [], s. rewrite app_nil_r. split_and!; try done.
    intros us' s2 Hs2 Hl Hp. apply nil_length_inv in Hl as ->. done.
  - eapply outcome_bind.
    { eapply outcome_weaken; [by apply (unit_step_outcome text hard maximum r s st f ls start)
                             |intros ? H'; exact H'|].
      intros e He us' s2 Hs2 Hl Hp. destruct us' as [|u us']; [done|].
      destruct Hp as (Hu & Hv & _). apply (He u ((us' ≫= unit_bytes) ++ s2)); done. }
    intros (u & r1 & st1 & last) (s1 & f1 & ls1 & -> & Hs1 & Hr1 & Hu & Hv & Hmax & -> & Hw1 & Hf1).
    assert (forall us' s2, unit_bytes u ++ s1 = (us' ≫= unit_bytes) ++ s2 -> length us' = S count ->
      unit_partition text hard start us' -> exists us2, us' = u :: us2 /\
        s1 = (us2 ≫= unit_bytes) ++ s2 /\ length us2 = count /\ unit_partition text hard (unit_end u) us2)
      as Hcons.
    { intros us' s2 Hs2 Hl Hp. destruct us' as [|u' us']; [done|]. destruct Hp as (Hu' & Hv' & Hp).
      rewrite bind_cons, <- (assoc_L (++)) in Hs2.
      destruct (parses_unit u (unit_valid_wf _ _ _ Hsize Hv) (Reader (unit_bytes u ++ s1) 0) s1) as (? & E1 & _).
      { apply reads_start. pose proof (reads_length _ _ Hr). destruct Hr as ((? & ?) & ? & _). lia. }
      destruct (parses_unit u' (unit_valid_wf _ _ _ Hsize Hv') (Reader (unit_bytes u ++ s1) 0)
        ((us' ≫= unit_bytes) ++ s2)) as (? & E2 & _).
      { rewrite <- Hs2. apply reads_start. pose proof (reads_length _ _ Hr). destruct Hr as ((? & ?) & ? & _). lia. }
      assert (u' = u) as -> by congruence. apply app_inv_head in Hs2. exists us'.
      split_and!; try done. by injection Hl. }
    destruct Hv as (Hb & Hv). eapply outcome_weaken.
    + apply (IH r1 s1 st1 f1 ls1 (unit_end u)); try done. lia.
    + intros (us & r2 & stop) (more & s' & -> & Hl & -> & Hs' & Hr' & Hp & Hm & Hall).
      exists (u :: more), s'. split_and!; try done.
      * by rewrite <- (assoc_L (++)).
      * cbn. by rewrite Hl.
      * intros Hstop. split; [done|]. split; [done|]. auto.
      * by constructor.
      * intros us' s2 Hs2 Hl' Hp'. destruct (Hcons us' s2 Hs2 Hl' Hp') as (us2 & -> & Hs2' & Hl2 & Hp2).
        eauto.
    + intros e He us' s2 Hs2 Hl' Hp'. destruct (Hcons us' s2 Hs2 Hl' Hp') as (us2 & -> & Hs2' & Hl2 & Hp2).
      eauto.
Qed.

Lemma tiled_last_index ls : forall size n s l,
  tiled size n s ls -> l ∈ ls -> source_end l = size -> line_index l = n + len ls - 1.
Proof.
  induction ls as [|l0 ls IH]; intros size n s l Ht Hl He; [by apply elem_of_nil in Hl|].
  destruct Ht as (? & ? & ? & ? & Ht). rewrite len_cons. apply elem_of_cons in Hl as [->|Hl].
  - destruct ls as [|l1 ls]; [rewrite len_nil; lia|]. cbn in Ht. lia.
  - rewrite (IH _ _ _ _ Ht Hl He). lia.
Qed.

Lemma partition_lines text hard maximum us : forall start,
  0 <= start < len text -> unit_partition text hard start us ->
  Forall (fun u => logical_line_end u <= maximum) us -> len (logical_lines text) <= maximum.
Proof.
  induction us as [|u us IH]; intros start Hs Hp Hm; [cbn in Hp; lia|].
  destruct Hp as (<- & Hv & Hp). apply Forall_cons in Hm as [Hu Hm].
  destruct Hv as (? & ? & _ & _ & f & l & Hf & Hl & _ & Hr & _ & Hle & _).
  pose proof (tiled_logical_lines text) as Ht. pose proof (tiled_member _ _ _ _ _ Ht Hl).
  destruct (decide (unit_end u < len text)); [apply (IH (unit_end u)); [lia|done..]|].
  pose proof (tiled_last_index _ _ _ _ _ Ht Hl ltac:(lia)). lia.
Qed.

Lemma partition_empty text hard us :
  unit_partition text hard 0 us -> (len text =? 0) = (len us =? 0).
Proof.
  destruct us as [|u us]; cbn [unit_partition].
  - intros <-. done.
  - intros (Hs & (? & ? & _) & _). rewrite len_cons. pose proof (len_nonneg us).
    destruct (Z.eqb_spec (len text) 0), (Z.eqb_spec (1 + len us) 0); done || lia.
Qed.

Lemma read_units_outcome text settings limits r s count :
  len text <= ISIZE_MAX -> 0 <= max_unit_bytes settings <= U32_MAX -> 0 <= count ->
  0 <= max_lines limits -> reads r s -> bytes_ok s ->
  outcome (read_units r text count settings limits)
    (fun '(us, r') => exists s', s = (us ≫= unit_bytes) ++ s' /\ reads r' s' /\ len us = count /\
       unit_partition text (max_unit_bytes settings) 0 us /\
       len (logical_lines text) <= max_lines limits /\
       forall us' s2, s = (us' ≫= unit_bytes) ++ s2 -> len us' = count ->
         unit_partition text (max_unit_bytes settings) 0 us' -> s2 = s')
    (fun e => forall us' s2, s = (us' ≫= unit_bytes) ++ s2 -> len us' = count ->
       unit_partition text (max_unit_bytes settings) 0 us' ->
       max_lines limits < len (logical_lines text)).
Proof.
  intros Hsize Hh Hc Hl Hr Hs. unfold read_units. apply outcome_guard.
  { intros Hbad us' s2 _ <- Hp. rewrite (partition_empty _ _ _ Hp) in Hbad.
    by rewrite eqb_reflx in Hbad. }
  intros Hempty. to_prop. apply Bool.eqb_prop in Hempty.
  rewrite try_from_some by width. cbn [ok_or]. rewrite lift_ok_bind.
  apply outcome_seq; [apply refines_reserve; interrupts|].
  pose proof (tiled_logical_lines text) as Ht. eapply outcome_bind.
  { eapply outcome_weaken; [apply next_outcome; [done|apply cursor_start]|intros ? H'; exact H'|].
    intros e (_ & l & Hl' & Hle) us' s2 _ _ _. pose proof (tiled_member _ _ _ _ _ Ht Hl'). lia. }
  intros [o st] Hnext. destruct (Z.eqb_spec (len text) 0) as [Hz|Hz].
  - symmetry in Hempty. to_prop. subst count. cbn [Z.to_nat units_loop].
    change (mret ?a ≫= ?k) with (k a). cbv beta iota. apply outcome_guard.
    { intros Hbad. to_prop. lia. }
    intros _. apply outcome_ret. exists s. rewrite (len_zero_nil text Hz).
    split_and!; try done. intros us' s2 -> Hl' _. apply len_zero_nil in Hl' as ->. done.
  - destruct (logical_lines text) as [|l ls] eqn:Hlines; [cbn in Ht; lia|].
    destruct Hnext as (-> & Hcur & Hmax). eapply outcome_bind.
    { eapply outcome_weaken; [apply (units_loop_outcome text _ _ _ r s st l ls 0 []); try done|intros ? H'; exact H'|].
      - split_and!; [done|done|by exists []].
      - cbn in Ht. lia.
      - intros e He us' s2 Hs2 Hl' Hp. rewrite <- Hlines.
        apply (He us' s2 Hs2); [unfold len in *; lia|done]. }
    intros (us & r' & stop) (more & s' & -> & Hlen & -> & Hs' & Hr' & Hp & Hm & Hall).
    apply outcome_guard.
    + intros Hbad us' s2 Hs2 Hl' Hp'. to_prop.
      destruct (Hall us' s2 Hs2 ltac:(unfold len in *; lia) Hp') as [? _]. done.
    + intros Hstop. to_prop. apply outcome_ret. exists s'. cbn [app].
      split_and!; [done|done|unfold len in *; lia|auto|..].
      * rewrite <- Hlines. pose proof (len_nonneg text).
        eapply (partition_lines text (max_unit_bytes settings) _ more 0); auto. lia.
      * intros us' s2 Hs2 Hl' Hp'.
        by destruct (Hall us' s2 Hs2 ltac:(unfold len in *; lia) Hp') as [_ ?].
Qed.

Section Correctness.
Context (blake3 : list Z -> list Z) (source : CurrentSourceRecord) (settings : PreparationSettings)
  (limits : PreparationLimits).
Context (Hsource : record_wf source) (Hsettings : settings_wf settings)
  (Hlimits : 0 <= max_lines limits).

(** The value a saved artifact must hold to be accepted. *)
Definition accepted (p : PreparedUtf8) : Prop :=
  utf8_valid (prepared_text p) = true /\
  blake3 (prepared_text p) = digest (object_ref source) /\
  len (prepared_text p) = byte_length (object_ref source) /\
  unit_partition (prepared_text p) (max_unit_bytes settings) 0 (prepared_units p) /\
  len (logical_lines (prepared_text p)) <= max_lines limits /\
  len (prepared_units p) <= max_units limits /\
  len (prepared_text p) <= max_input_bytes limits /\
  len (prepared_text p) <= max_output_bytes limits /\
  len (artifact_of source settings p) <= max_encoded_bytes limits.

Lemma refines_hash_chunks h cs :
  refines (hash_chunks h cs) (Ok {| hashed := hashed h ++ concat cs |}).
Proof.
  revert h. induction cs as [|c cs IH]; intros h; cbn [hash_chunks concat].
  - rewrite app_nil_r. destruct h. apply refines_ret.
  - apply refines_seq; [apply refines_prep_check|]. specialize (IH (hasher_update h c)).
    cbn [hasher_update hashed] in IH. by rewrite <- (assoc_L (++)) in IH.
Qed.

Lemma refines_verify_digest bytes :
  refines (verify_digest blake3 source bytes)
    (reject_if (negb (bool_decide (blake3 bytes = digest (object_ref source)))) IntegrityFailure).
Proof.
  unfold verify_digest.
  apply (refines_bind _ (Ok {| hashed := bytes |}) _
    (fun _ => reject_if (negb (bool_decide (blake3 bytes = digest (object_ref source)))) IntegrityFailure)).
  - rewrite <- (chunks_concat (Z.to_nat 8192) bytes) at 2 by lia.
    apply (refines_hash_chunks hasher_new).
  - intros h [= <-]. apply refines_seq; [apply refines_prep_check|]. apply refines_lift.
Qed.

Lemma refines_validate :
  refines (validate source settings limits) (run (validate source settings limits) []).
Proof.
  unfold validate.
  match goal with |- refines (_ ≫= ?k) _ => change (refines (Layout.check ≫= k) (run (k tt) [])) end.
  apply refines_seq; [apply refines_prep_check|]. apply refines_steady. repeat (apply steady_bind; [apply steady_lift|intros]). apply steady_lift.
Qed.

Lemma accepted_len p :
  accepted p -> len (artifact_of source settings p) <= ISIZE_MAX ->
  encoded_size (len (prepared_text p)) (len (prepared_units p)) = Ok (len (artifact_of source settings p)).
Proof.
  intros _ Ha. rewrite len_artifact in Ha |- * by done.
  rewrite encoded_size_ok; [done|apply len_nonneg..|]. width.
Qed.

(** What follows the binding in the artifact of [p]. *)
Definition payload_of (p : PreparedUtf8) : list Z :=
  le_bytes 8 (len (prepared_text p)) ++ le_bytes 8 (len (prepared_units p))
  ++ prepared_text p ++ (prepared_units p ≫= unit_bytes).

Lemma payload_bounds p s :
  s = payload_of p -> len s <= ISIZE_MAX ->
  0 <= len (prepared_text p) <= ISIZE_MAX /\ 0 <= len (prepared_units p) <= ISIZE_MAX.
Proof.
  intros -> Hs. unfold payload_of in Hs. autorewrite with len in Hs. rewrite len_units_bytes in Hs.
  unfold UNIT_BYTES in Hs. pose proof (len_nonneg (prepared_text p)).
  pose proof (len_nonneg (prepared_units p)). lia.
Qed.

(** The text and its units, once the counts have been read. *)
Lemma decode_text_outcome r s n count :
  reads r s -> bytes_ok s -> 0 <= n <= ISIZE_MAX -> 0 <= count ->
  len s = n + UNIT_BYTES * count -> n = byte_length (object_ref source) ->
  outcome
    (read ← lift (take n r);
     let '(text_bytes, r) := read in
     _ ← lift (reject_if (negb (utf8_valid text_bytes)) InvalidArtifact);
     _ ← verify_digest blake3 source text_bytes;
     read ← read_units r text_bytes count settings limits;
     let '(units, r) := read in
     _ ← lift (reject_if (negb (at_end r)) InvalidArtifact);
     _ ← Layout.check;
     mret {| prepared_text := text_bytes; prepared_units := units |})
    (fun p => s = prepared_text p ++ (prepared_units p ≫= unit_bytes) /\
       len (prepared_text p) = n /\ len (prepared_units p) = count /\
       utf8_valid (prepared_text p) = true /\
       blake3 (prepared_text p) = digest (object_ref source) /\
       unit_partition (prepared_text p) (max_unit_bytes settings) 0 (prepared_units p) /\
       len (logical_lines (prepared_text p)) <= max_lines limits)
    (fun e => forall p, s = prepared_text p ++ (prepared_units p ≫= unit_bytes) ->
       len (prepared_text p) = n -> len (prepared_units p) = count -> ~ accepted p).
Proof.
  intros Hr Hs Hn Hc Hlen Hbl. eapply outcome_codec; [apply codec_take; lia|done..| |].
  2:{ intros e He p Hp Ht _ _. by apply (He (prepared_text p) (prepared_units p ≫= unit_bytes)). }
  intros t r1 s1 -> Ht Hr1 Hs1 Hsame.
  assert (forall p, t ++ s1 = prepared_text p ++ (prepared_units p ≫= unit_bytes) ->
    len (prepared_text p) = n -> t = prepared_text p /\ (prepared_units p ≫= unit_bytes) = s1) as Hp.
  { intros p Hp Hpn. by destruct (Hsame _ _ Hpn Hp) as [-> ->]. }
  clear Hsame. apply outcome_guard.
  { intros Hbad p Hps Hpn _ (Hv & _). destruct (Hp p Hps Hpn) as [-> _]. by rewrite Hv in Hbad. }
  intros Hv. to_prop. eapply (outcome_bind _ _ (fun _ => blake3 t = digest (object_ref source))).
  { eapply outcome_refines; [apply refines_verify_digest|..].
    - intros [] Hb%reject_if_ok. by to_prop.
    - intros e He p Hps Hpn _ (_ & Hd & _). destruct (Hp p Hps Hpn) as [-> _].
      by rewrite bool_decide_true in He. }
  intros _ Hd. destruct Hsettings as (_ & _ & _ & Hmu). eapply outcome_bind.
  { eapply outcome_weaken; [apply (read_units_outcome t settings limits r1 s1 count); try done; lia
                           |intros ? H'; exact H'|].
    intros e He p Hps Hpn Hpc Hacc. destruct (Hp p Hps Hpn) as [-> Hu].
    destruct Hacc as (_ & _ & _ & Hpart & Hlines & _).
    specialize (He (prepared_units p) []). rewrite app_nil_r in He.
    specialize (He (eq_sym Hu) Hpc Hpart). lia. }
  intros [us r2] (s2 & -> & Hr2 & Hcount & Hpart & Hlines & Huniq).
  assert (s2 = []) as ->.
  { apply len_zero_nil. rewrite !len_app, len_units_bytes in Hlen. rewrite Ht, Hcount in Hlen. lia. }
  apply outcome_guard.
  { intros Hbad. rewrite (reads_at_end _ _ Hr2), bool_decide_true in Hbad; done. }
  intros _. apply outcome_seq; [apply refines_prep_check|]. apply outcome_ret.
  cbn [prepared_text prepared_units]. rewrite app_nil_r. split_and!; done.
Qed.

Lemma decode_outcome artifact :
  bytes_ok artifact -> len artifact <= ISIZE_MAX ->
  outcome (decode blake3 artifact source settings limits)
    (fun p => artifact = artifact_of source settings p /\ accepted p)
    (fun e => forall p, artifact = artifact_of source settings p -> ~ accepted p).
Proof.
  intros Hok Hsize. unfold decode. pose proof (len_binding source settings Hsource) as Hbl.
  apply outcome_guard.
  { intros Hbad p -> Hp. to_prop. unfold accepted in Hp. lia. }
  intros Hmax. to_prop. apply outcome_guard.
  { intros Hbad p -> _. to_prop. rewrite len_artifact in Hbad by done. unfold UNIT_BYTES in Hbad.
    pose proof (len_nonneg (prepared_text p)). pose proof (len_nonneg (prepared_units p)). lia. }
  intros Hmin. pose proof (reads_start artifact Hsize) as Hr0. to_prop.
  eapply outcome_codec; [by apply codec_binding|done..| |].
  2:{ intros e He p -> _. by apply (He tt (payload_of p) I). }
  intros [] r1 s1 -> _ Hr1 Hs1 _. cbn [snd]. rewrite len_app in Hmin, Hmax, Hsize.
  pose proof (len_nonneg (binding source settings)).
  assert (forall p, binding source settings ++ s1 = artifact_of source settings p -> s1 = payload_of p) as Hs.
  { intros p Hp. by apply app_inv_head in Hp. }
  assert (forall p, s1 = payload_of p ->
    0 <= len (prepared_text p) <= ISIZE_MAX /\ 0 <= len (prepared_units p) <= ISIZE_MAX) as Hb.
  { intros p Hp. apply (payload_bounds p s1 Hp). lia. }
  eapply outcome_codec; [apply codec_usize|done..| |].
  2:{ intros e He p Hp%Hs _. pose proof (Hb p Hp). eapply (He (len (prepared_text p))); [width|exact Hp]. }
  intros n r2 s2 -> Hn Hr2 Hs2 Hsame1.
  eapply outcome_codec; [apply codec_usize|done..| |].
  2:{ intros e He p Hp%Hs _. pose proof (Hb p Hp).
      destruct (Hsame1 (len (prepared_text p)) _ ltac:(cbn; width) Hp) as [_ <-]. eapply (He (len (prepared_units p))); [width|done]. }
  intros c r3 s3 -> Hc Hr3 Hs3 Hsame2.
  assert (forall p, binding source settings ++ le_bytes 8 n ++ le_bytes 8 c ++ s3
      = artifact_of source settings p ->
    len (prepared_text p) = n /\ len (prepared_units p) = c /\
    s3 = prepared_text p ++ (prepared_units p ≫= unit_bytes)) as Hpay.
  { intros p Hp%Hs. pose proof (Hb p Hp). destruct (Hsame1 (len (prepared_text p)) _ ltac:(cbn; width) Hp) as [E1 E2].
    symmetry in E2. destruct (Hsame2 (len (prepared_units p)) _ ltac:(cbn; width) E2) as [E3 E4]. done. }
  clear Hs Hb Hsame1 Hsame2. rewrite !len_app, !len_le_bytes in *. pose proof (len_nonneg s3).
  apply outcome_guard.
  { intros Hbad p Hp Hacc. destruct (Hpay p Hp) as (<- & <- & _). unfold accepted in Hacc. to_prop. lia. }
  intros Hcount. to_prop. apply outcome_pure.
  2:{ intros e He p Hp Hacc. destruct (Hpay p Hp) as (<- & <- & _). destruct Hacc as (_ & _ & _ & _ & _ & _ & H1 & H2 & _).
      unfold check_text_length in He. rewrite !reject_if_false in He by solve_bool. done. }
  intros [] Htl. apply outcome_guard.
  { intros Hbad p Hp (_ & _ & Hbyte & _). destruct (Hpay p Hp) as (<- & _ & _).
    rewrite try_from_some, bool_decide_true in Hbad by (done || congruence). done. }
  intros Hbyte. to_prop. rewrite try_from_some in Hbyte by done. injection Hbyte as Hbyte.
  apply outcome_pure.
  2:{ intros e He p Hp _. destruct (Hpay p Hp) as (E1 & E2 & ->). rewrite len_app, len_units_bytes, E1, E2 in *.
      rewrite encoded_size_ok in He by (unfold UNIT_BYTES in *; width). done. }
  intros size Hsz%encoded_size_inv. apply outcome_guard.
  { intros Hbad p Hp _. destruct (Hpay p Hp) as (E1 & E2 & ->). to_prop.
    apply Hbad. rewrite Hsz, !len_app, len_units_bytes, E1, E2. lia. }
  intros Heq. to_prop. apply outcome_seq; [apply refines_prep_check|].
  subst size.
  eapply outcome_weaken; [apply (decode_text_outcome r3 s3 n c); try done; try lia|..].
  - unfold UNIT_BYTES in *. lia.
  - intros p (-> & <- & <- & ? & ? & ? & ?). split; [done|].
    unfold accepted. apply bind_ok_inv in Htl as ([] & Ht1%reject_if_ok & Ht2%reject_if_ok). to_prop.
    assert (len (artifact_of source settings p) = HEADER_BYTES + len (prepared_text p)
      + UNIT_BYTES * len (prepared_units p)) as Hal by by apply len_artifact.
    rewrite len_app, len_units_bytes in Hmax. split_and!; done || lia.
  - intros e He p Hp. destruct (Hpay p Hp) as (E1 & E2 & E3). by apply He.
Qed.

(** ** The encoder writes exactly the artifact of its product *)

Lemma refines_put_chunks cs : forall out, refines (put_chunks out cs) (Ok (out ++ concat cs)).
Proof.
  induction cs as [|c cs IH]; intros out; cbn [put_chunks concat].
  - rewrite app_nil_r. apply refines_ret.
  - apply refines_seq; [apply refines_prep_check|]. rewrite (assoc_L (++)). apply IH.
Qed.

Lemma put_unit_ok out u : unit_wf u -> put_unit out u = Ok (out ++ unit_bytes u).
Proof.
  intros (H1 & H2 & H3 & H4). unfold put_unit, put_usize, unit_bytes.
  rewrite !try_from_some by done. cbn. by rewrite <- !(assoc_L (++)).
Qed.

Lemma refines_put_units us : forall out,
  Forall unit_wf us -> refines (put_units out us) (Ok (out ++ (us ≫= unit_bytes))).
Proof.
  induction us as [|u us IH]; intros out Hw; cbn [put_units].
  - cbn. rewrite app_nil_r. apply refines_ret.
  - apply Forall_cons in Hw as [Hu Hw]. apply refines_seq; [apply refines_prep_check|].
    rewrite put_unit_ok by done. rewrite lift_ok_bind, bind_cons, (assoc_L (++)). by apply IH.
Qed.

Lemma encode_outcome p ls :
  Forall unit_wf (prepared_units p) -> len (artifact_of source settings p) <= ISIZE_MAX ->
  outcome (encode source settings {| text := prepared_text p; lines := ls |} (prepared_units p) limits)
    (fun a => a = artifact_of source settings p /\ len a <= max_encoded_bytes limits)
    (fun e => e = EncodedTooLarge /\ max_encoded_bytes limits < len (artifact_of source settings p)).
Proof.
  intros Hw Ha. unfold encode. cbn [text]. apply outcome_seq; [apply refines_prep_check|].
  pose proof (len_artifact source settings p Hsource) as Hlen.
  pose proof (len_nonneg (prepared_text p)). pose proof (len_nonneg (prepared_units p)).
  assert (HEADER_BYTES = 121) as Hhb by done. unfold UNIT_BYTES in Hlen.
  rewrite encoded_size_ok by (unfold UNIT_BYTES; width). rewrite lift_ok_bind.
  replace (HEADER_BYTES + len (prepared_text p) + UNIT_BYTES * len (prepared_units p))
    with (len (artifact_of source settings p)) by (unfold UNIT_BYTES; lia).
  apply outcome_guard; [intros Hbad; by to_prop|]. intros Hfit. to_prop.
  apply outcome_seq; [apply refines_reserve; interrupts|].
  unfold put_usize. rewrite !try_from_some by width. cbn [ok_or mbind result_bind].
  rewrite !lift_ok_bind. apply (outcome_bind _ _ (fun out => out = (((binding source settings
    ++ le_bytes 8 (len (prepared_text p))) ++ le_bytes 8 (len (prepared_units p))) ++ prepared_text p))).
  { eapply outcome_refines; [apply refines_put_chunks| |done].
    intros a [= <-]. by rewrite chunks_concat by lia. }
  intros ? ->. apply (outcome_bind _ _ (fun out => out = artifact_of source settings p)).
  { eapply outcome_refines; [by apply refines_put_units| |done].
    intros a Heq%ok_inj. subst a. unfold artifact_of. by rewrite !(assoc_L (++)). }
  intros ? ->. apply outcome_seq; [apply refines_prep_check|]. by apply outcome_ret.
Qed.

Lemma unit_partition_wf text hard us : forall start,
  len text <= ISIZE_MAX -> unit_partition text hard start us -> Forall unit_wf us.
Proof.
  induction us as [|u us IH]; intros start Hs Hp; [constructor|].
  destruct Hp as (_ & Hv & Hp). constructor; [by eapply unit_valid_wf|by eapply IH].
Qed.

Lemma unit_partition_count text hard us : forall start,
  unit_partition text hard start us -> len us <= len text - start.
Proof.
  induction us as [|u us IH]; intros start Hp; cbn in Hp; [rewrite len_nil; lia|].
  destruct Hp as (<- & (? & _) & Hp). specialize (IH _ Hp). rewrite len_cons. lia.
Qed.

Lemma settings_numbers : is_supported settings = true -> settings_wf settings.
Proof.
  unfold is_supported, settings_wf, MAX_PREPARATION_UNIT_BYTES. intros. to_prop. width.
Qed.

Lemma binding_bytes_ok : bytes_ok (binding source settings).
Proof.
  destruct Hsource as ((_ & Hn) & (_ & Hi) & _ & _ & _ & _ & _ & _ & (_ & Hd) & _).
  unfold binding. repeat (apply Forall_app; split); try apply le_bytes_ok; try done.
  - apply (bool_decide_eq_true_1 (bytes_ok MAGIC)). by vm_compute.
  - constructor; [|constructor]. unfold is_byte. destruct (kind (object_ref source)); cbn; lia.
Qed.

Lemma unit_bytes_ok u : bytes_ok (unit_bytes u).
Proof.
  unfold unit_bytes. repeat (apply Forall_app; split); try apply le_bytes_ok;
    (constructor; [|constructor]); unfold is_byte; destruct (flag_byte_cases (starts_at_line_boundary u)),
    (flag_byte_cases (ends_at_line_boundary u)); lia.
Qed.

Lemma artifact_bytes_ok p :
  utf8_valid (prepared_text p) = true -> bytes_ok (artifact_of source settings p).
Proof.
  intros Hv. unfold artifact_of.
  apply Forall_app; split; [apply binding_bytes_ok|].
  apply Forall_app; split; [apply le_bytes_ok|].
  apply Forall_app; split; [apply le_bytes_ok|].
  apply Forall_app; split; [by apply utf8_valid_bytes|].
  induction (prepared_units p) as [|u us IH]; [constructor|]. rewrite bind_cons.
  apply Forall_app. split; [apply unit_bytes_ok|done].
Qed.

(** The conditions [validate] establishes, as far as the rest needs them. *)
Lemma validate_ok :
  run (validate source settings limits) [] = Ok tt ->
  is_supported settings = true /\ byte_length (object_ref source) <= MAX_SOURCE_OBJECT_BYTES /\
  byte_length (object_ref source) <= max_input_bytes limits /\
  byte_length (object_ref source) <= max_output_bytes limits.
Proof.
  unfold validate. intros Hv.
  match type of Hv with run (_ ≫= ?k) _ = _ => change (run (k tt) [] = Ok tt) in Hv end.
  apply run_lift_ok in Hv as ([] & _ & Hv).
  apply run_lift_ok in Hv as ([] & Hs%reject_if_ok & Hv).
  apply run_lift_ok in Hv as ([] & Hb%reject_if_ok & Hv).
  apply run_lift_ok in Hv as (n & Hn%ok_or_inv%try_from_inv & Hv). destruct Hn as [-> _].
  apply bind_ok_inv in Hv as ([] & H1%reject_if_ok & H2%reject_if_ok). to_prop. done.
Qed.

(** The materializer's limits as [prepare_utf8] passes them. *)
Definition materialization_limits : MaterializationLimits :=
  {| Materializer.max_input_bytes := max_input_bytes limits;
     Materializer.max_output_bytes := max_output_bytes limits;
     Materializer.max_lines := max_lines limits |}.

(** The refusals of [prepare_utf8], in the order of its steps. *)
Definition prepare_refused (bytes : list Z) (e : PreparationError) : Prop :=
  run (validate source settings limits) [] = Err e \/
  (e = BindingMismatch /\ len bytes <> byte_length (object_ref source)) \/
  (e = IntegrityFailure /\ blake3 bytes <> digest (object_ref source)) \/
  (exists e', e = from_materialization e' /\ materialize_spec bytes materialization_limits = Err e') \/
  (e = TooManyUnits /\ max_units limits < len bytes) \/
  (e = UnitTooLarge /\ max_unit_bytes settings < 4) \/
  (e = EncodedTooLarge /\ max_encoded_bytes limits < HEADER_BYTES + len bytes + UNIT_BYTES * len bytes).

Lemma prepare_outcome bytes :
  bytes_ok bytes -> len bytes <= ISIZE_MAX -> 0 <= max_units limits ->
  outcome (prepare_utf8 blake3 source bytes settings limits)
    (fun a => exists us, a = artifact_of source settings {| prepared_text := bytes; prepared_units := us |} /\
       accepted {| prepared_text := bytes; prepared_units := us |} /\
       Forall (cut_justified bytes (max_unit_bytes settings)) us /\
       run (validate source settings limits) [] = Ok tt)
    (prepare_refused bytes).
Proof.
  intros Hb Hsize Hmu. unfold prepare_utf8, prepare_refused.
  apply (outcome_bind _ _ (fun _ => run (validate source settings limits) [] = Ok tt)).
  { eapply outcome_refines; [apply refines_validate|by intros []|auto]. }
  intros _ Hval. destruct (validate_ok Hval) as (Hsup & Hobj & Hin & Hout).
  pose proof (len_nonneg bytes). unfold MAX_SOURCE_OBJECT_BYTES in Hobj.
  rewrite try_from_some by width. apply outcome_guard.
  { intros Hbad. to_prop. right; left. split; [done|congruence]. }
  intros Hlen. to_prop. injection Hlen as Hlen.
  apply (outcome_bind _ _ (fun _ => blake3 bytes = digest (object_ref source))).
  { eapply outcome_refines; [apply refines_verify_digest|..].
    - intros [] Hd%reject_if_ok. by to_prop.
    - intros e He. case_bool_decide; [done|]. injection He as <-. tauto. }
  intros _ Hd. fold materialization_limits.
  apply (outcome_bind _ _ (fun m => m = {| text := bytes; lines := logical_lines bytes |} /\
    utf8_valid bytes = true /\ len (logical_lines bytes) <= max_lines limits)).
  { eapply outcome_lift_err with (X := fun e' => materialize_spec bytes materialization_limits = Err e').
    - eapply outcome_refines; [by apply refines_materialize| |done].
      intros m Hm. by apply materialize_spec_ok in Hm as (-> & ? & ? & _).
    - intros e [->|[->| ->]]; interrupts.
    - intros e' He'. right; right; right; left. eauto. }
  intros ? (-> & Hv & Hlines). eapply outcome_bind.
  { eapply outcome_weaken; [by apply unitize_outcome|intros ? H'; exact H'|]. cbv beta. intros e He. tauto. }
  intros us (Hpart & Hcuts & Hcount).
  pose proof (unit_partition_count _ _ _ _ Hpart) as Hus. pose proof (len_nonneg us).
  pose proof (len_artifact source settings {| prepared_text := bytes; prepared_units := us |} Hsource) as Hal.
  cbn [prepared_text prepared_units] in Hal. assert (HEADER_BYTES = 121) as Hhb by done.
  eapply outcome_weaken.
  - apply (encode_outcome {| prepared_text := bytes; prepared_units := us |}).
    + by eapply unit_partition_wf.
    + rewrite Hal, Hhb. unfold UNIT_BYTES. width.
  - cbv beta. intros a [-> Ha]. exists us. split_and!; try done. unfold accepted.
    cbn [prepared_text prepared_units]. split_and!; try done; try lia.
    destruct us; [rewrite len_nil; lia|]. by apply Hcount.
  - cbv beta. intros e [-> He]. do 6 right. split; [done|]. rewrite Hal in He. unfold UNIT_BYTES in *. lia.
Qed.

(** ** An artifact determines its text and units *)

Lemma unit_bytes_inj u v xs ys :
  unit_wf u -> unit_wf v -> len (unit_bytes u ++ xs) <= ISIZE_MAX ->
  unit_bytes u ++ xs = unit_bytes v ++ ys -> u = v /\ xs = ys.
Proof.
  intros Hu Hv Hs Heq.
  destruct (parses_unit u Hu (Reader (unit_bytes u ++ xs) 0) xs) as (? & E1 & _); [by apply reads_start|].
  destruct (parses_unit v Hv (Reader (unit_bytes u ++ xs) 0) ys) as (? & E2 & _).
  { rewrite <- Heq. by apply reads_start. }
  assert (u = v) as -> by congruence. split; [done|]. by apply app_inv_head in Heq.
Qed.

Lemma units_bytes_inj us : forall vs,
  Forall unit_wf us -> Forall unit_wf vs -> len (us ≫= unit_bytes) <= ISIZE_MAX ->
  (us ≫= unit_bytes) = (vs ≫= unit_bytes) -> us = vs.
Proof.
  induction us as [|u us IH]; intros [|v vs] Hu Hv Hs Heq; [done|..].
  - apply (f_equal len) in Heq. rewrite !len_units_bytes, (@len_nil UnitSpan), len_cons in Heq.
    unfold UNIT_BYTES in Heq. pose proof (len_nonneg vs). lia.
  - apply (f_equal len) in Heq. rewrite !len_units_bytes, (@len_nil UnitSpan), len_cons in Heq.
    unfold UNIT_BYTES in Heq. pose proof (len_nonneg us). lia.
  - apply Forall_cons in Hu as [Hu1 Hu], Hv as [Hv1 Hv]. rewrite !bind_cons in Heq. rewrite bind_cons in Hs.
    apply unit_bytes_inj in Heq as [-> Heq]; try done. f_equal. apply IH; try done.
    rewrite len_app, len_unit_bytes in Hs. unfold UNIT_BYTES in Hs. lia.
Qed.

Lemma artifact_of_inj p q :
  accepted p -> accepted q -> len (artifact_of source settings p) <= ISIZE_MAX ->
  artifact_of source settings p = artifact_of source settings q -> p = q.
Proof.
  intros Hp Hq Hs Heq. pose proof (len_artifact source settings p Hsource) as Hl. rewrite Hl in Hs.
  assert (HEADER_BYTES = 121) as Hhb by done. unfold UNIT_BYTES in *.
  pose proof (len_nonneg (prepared_text p)). pose proof (len_nonneg (prepared_units p)).
  assert (len (prepared_text p) = len (prepared_text q)) as Hlt.
  { destruct Hp as (_ & _ & -> & _), Hq as (_ & _ & -> & _). done. }
  unfold artifact_of in Heq. apply app_inv_head in Heq. rewrite Hlt in Heq. apply app_inv_head in Heq.
  apply app_inj_1 in Heq as [_ Heq]; [|by rewrite !le_bytes_length].
  apply app_inj_1 in Heq as [Ht Hu]; [|unfold len in Hlt; lia].
  assert (forall r, accepted r -> len (prepared_text r) <= ISIZE_MAX -> Forall unit_wf (prepared_units r)) as Hwf.
  { intros r (_ & _ & _ & Hpart & _) Hr. by eapply unit_partition_wf. }
  apply units_bytes_inj in Hu.
  - destruct p, q. cbn in *. by subst.
  - apply Hwf; [done|lia].
  - apply Hwf; [done|lia].
  - rewrite len_units_bytes. unfold UNIT_BYTES. lia.
Qed.
End Correctness.

(** ** Acceptance under interruptions, and the text it returns *)

Lemma next_loop_uniform rest : forall offset, uniform (next_loop rest offset).
Proof. induction rest; intros offset; cbn [next_loop]; unfold check; solve_uniform. Qed.
#[export] Hint Resolve next_loop_uniform : eliot.

Lemma next_uniform maximum lines : uniform (next maximum lines).
Proof. unfold next, check. solve_uniform. Qed.
#[export] Hint Resolve next_uniform : eliot.

Lemma skip_lines_uniform fuel maximum cond : forall line lines, uniform (skip_lines fuel maximum cond line lines).
Proof. induction fuel; intros line lines; cbn [skip_lines]; solve_uniform. Qed.
#[export] Hint Resolve skip_lines_uniform : eliot.

Lemma unit_step_uniform text hard maximum r lines current expected_start :
  uniform (unit_step text hard maximum r lines current expected_start).
Proof. unfold unit_step, check. solve_uniform. Qed.
#[export] Hint Resolve unit_step_uniform : eliot.

Lemma units_loop_uniform count text hard maximum : forall r lines current expected_start units,
  uniform (units_loop count text hard maximum r lines current expected_start units).
Proof. induction count; intros; cbn [units_loop]; solve_uniform. Qed.
#[export] Hint Resolve units_loop_uniform : eliot.

Lemma hash_chunks_uniform cs : forall h, uniform (hash_chunks h cs).
Proof. induction cs; intros h; cbn [hash_chunks]; unfold check; solve_uniform. Qed.
#[export] Hint Resolve hash_chunks_uniform : eliot.

Lemma decode_prepared_uniform blake3 artifact source settings limits :
  uniform (decode_prepared_utf8 blake3 artifact source settings limits).
Proof. unfold decode_prepared_utf8, validate, decode, verify_digest, read_units, check. solve_uniform. Qed.

(** Whatever the saved bytes are, an accepted text is valid UTF-8. *)
Lemma decode_prepared_valid blake3 artifact source settings limits w p :
  run (decode_prepared_utf8 blake3 artifact source settings limits) w = Ok p ->
  utf8_valid (prepared_text p) = true.
Proof.
  unfold decode_prepared_utf8, decode. intros H. apply run_bind_ok in H as (_ & w0 & _ & H). clear w.
  repeat first
    [ apply run_lift_ok in H as (? & ? & H)
    | apply run_bind_ok in H as (? & ? & ? & H)
    | match type of H with context [let '(_, _) := ?x in _] => destruct x end ].
  injection H as <-. cbn [prepared_text].
  repeat match goal with K : reject_if _ _ = Ok _ |- _ => apply reject_if_ok in K end.
  match goal with K : negb (utf8_valid _) = false |- _ => by apply negb_false_iff in K end.
Qed.

(** What [decode_prepared_utf8] accepts and why it refuses. *)
Lemma decode_prepared_outcome blake3 artifact source settings limits :
  record_wf source -> settings_wf settings -> 0 <= max_lines limits -> bytes_ok artifact -> len artifact <= ISIZE_MAX ->
  outcome (decode_prepared_utf8 blake3 artifact source settings limits)
    (fun p => run (validate source settings limits) [] = Ok tt /\
       artifact = artifact_of source settings p /\ accepted blake3 source settings limits p)
    (fun e => run (validate source settings limits) [] = Err e \/
       (forall p, artifact = artifact_of source settings p -> ~ accepted blake3 source settings limits p)).
Proof.
  intros Hsource Hsettings Hlines Hbytes Hsize. unfold decode_prepared_utf8.
  apply (outcome_bind _ _ (fun _ => run (validate source settings limits) [] = Ok tt)).
  - eapply outcome_refines; [by apply refines_validate|by intros []|auto].
  - intros _ Hv. eapply outcome_weaken; [by apply decode_outcome|by intros p []|by right].
Qed.

(** ** Claims *)

(** C1. [decode_prepared_utf8] accepts exactly the canonical artifacts.  When it
    returns a text and units, the saved bytes are the encoding of that source's
    binding, those settings, that text and those units, byte for byte; the text is
    valid UTF-8 with the source object's length and BLAKE3 digest, and the units
    partition it with line numbers and flags true to its logical lines, all within
    the limits.  When it refuses, the inputs fail validation, no such value exists
    for these bytes, or the environment interrupted it. *)
Theorem decode_exact blake3 artifact source settings limits w
    (Hsource : record_wf source) (Hsettings : settings_wf settings)
    (Hlines : 0 <= max_lines limits) (Hbytes : bytes_ok artifact) (Hsize : len artifact <= ISIZE_MAX) :
  match run (decode_prepared_utf8 blake3 artifact source settings limits) w with
  | Ok p => run (validate source settings limits) [] = Ok tt /\
            artifact = artifact_of source settings p /\ accepted blake3 source settings limits p
  | Err e => run (validate source settings limits) [] = Err e \/
             (forall p, artifact = artifact_of source settings p -> ~ accepted blake3 source settings limits p) \/
             ((e = Cancelled \/ e = Deadline \/ e = AllocationFailed) /\ ~ calm w)
  end.
Proof.
  pose proof (decode_prepared_outcome blake3 artifact source settings limits Hsource Hsettings Hlines Hbytes Hsize) as Ho.
  destruct (Ho w) as [Hw _]. destruct (run _ w) as [p|e]; [done|].
  destruct Hw as [[?|?]|[? ?]]; auto.
Qed.

(** C2. Preparation round trip: whenever [prepare_utf8] returns an artifact for some
    bytes, accepting that artifact against the same source, settings and limits gives
    back exactly those bytes as text, and units that partition it and are cut inside a
    line only where no line ends within the hard bound; only the environment can
    interrupt the acceptance. *)
Theorem prepare_decode_roundtrip blake3 bytes source settings limits w artifact
    (Hsource : record_wf source) (Hsettings : settings_wf settings)
    (Hlines : 0 <= max_lines limits) (Hunits : 0 <= max_units limits)
    (Hbytes : bytes_ok bytes) (Hsize : len bytes <= ISIZE_MAX)
    (Hok : run (prepare_utf8 blake3 source bytes settings limits) w = Ok artifact) :
  exists units,
    unit_partition bytes (max_unit_bytes settings) 0 units /\
    Forall (cut_justified bytes (max_unit_bytes settings)) units /\
    forall w',
      run (decode_prepared_utf8 blake3 artifact source settings limits) w'
        = Ok {| prepared_text := bytes; prepared_units := units |} \/
      exists e, run (decode_prepared_utf8 blake3 artifact source settings limits) w' = Err e /\
        (e = Cancelled \/ e = Deadline \/ e = AllocationFailed) /\ ~ calm w'.
Proof.
  apply (outcome_ok _ _ _ _ _ (prepare_outcome blake3 source settings limits Hsource Hlines
    bytes Hbytes Hsize Hunits)) in Hok as (us & -> & Hacc & Hcuts & Hval).
  set (p := {| prepared_text := bytes; prepared_units := us |}) in *.
  exists us. split; [by destruct Hacc as (_ & _ & _ & ? & _)|]. split; [done|]. intros w'.
  assert (len (artifact_of source settings p) <= ISIZE_MAX) as Hs.
  { rewrite len_artifact by done. destruct Hacc as (_ & _ & Hl & Hp & _).
    destruct (validate_ok source settings limits Hval) as (_ & Hobj & _).
    pose proof (unit_partition_count _ _ _ _ Hp). assert (HEADER_BYTES = 121) as Hhb by done.
    unfold UNIT_BYTES, MAX_SOURCE_OBJECT_BYTES in *. width. }
  assert (bytes_ok (artifact_of source settings p)) as Hb by (apply artifact_bytes_ok; [done|apply Hacc]).
  unfold decode_prepared_utf8.
  assert (outcome (_ ← validate source settings limits;
      decode blake3 (artifact_of source settings p) source settings limits)
    (fun q => q = p) (fun _ => False)) as Ho.
  { apply outcome_seq; [rewrite <- Hval; by apply refines_validate|].
    eapply outcome_weaken; [by apply decode_outcome|..].
    - intros q [Heq Hq]. symmetry. by apply (artifact_of_inj blake3 source settings limits).
    - intros e He. by apply (He p). }
  destruct (Ho w') as [Hw _]. destruct (run _ w') as [q|e]; [left; by rewrite Hw|].
  right. exists e. destruct Hw as [[]|]. done.
Qed.

(** Every branch of [prepare_utf8]: it returns the canonical artifact of the whole
    input, whose object length and digest the source record names; or it refuses with
    the error of the first failing step (validation, length binding, digest, the
    materializer's own refusal, too many units, an impossible unit bound, an encoding
    over its ceiling); or the environment interrupted it. *)
Theorem prepare_outcomes blake3 bytes source settings limits w
    (Hsource : record_wf source) (Hlines : 0 <= max_lines limits) (Hunits : 0 <= max_units limits)
    (Hbytes : bytes_ok bytes) (Hsize : len bytes <= ISIZE_MAX) :
  match run (prepare_utf8 blake3 source bytes settings limits) w with
  | Ok artifact => exists us,
      artifact = artifact_of source settings {| prepared_text := bytes; prepared_units := us |} /\
      accepted blake3 source settings limits {| prepared_text := bytes; prepared_units := us |}
  | Err e => prepare_refused blake3 source settings limits bytes e \/
             ((e = Cancelled \/ e = Deadline \/ e = AllocationFailed) /\ ~ calm w)
  end.
Proof.
  destruct (prepare_outcome blake3 source settings limits Hsource Hlines bytes Hbytes Hsize Hunits w)
    as [Hw _]. destruct (run _ w) as [a|e]; [|done].
  destruct Hw as (us & ? & ? & _). eauto.
Qed.

(** A concrete instance: a checksum in place of BLAKE3. *)
Definition toy_hash (bytes : list Z) : list Z := replicate 32 (foldr Z.add 0 bytes mod 256).
Definition small_source : CurrentSourceRecord :=
  {| source_namespace_id := replicate 16 1; source_id := replicate 16 2; row_revision := 1;
     registration_revision := 1; locator := str "/a"; file_key := Unix 1 2;
     object_ref := source_ref (toy_hash small_text) (len small_text) |}.

Lemma small_source_wf : record_wf small_source.
Proof.
  unfold record_wf, Uuid.wf, key_wf, object_wf, Digest.wf, small_source. cbn [file_key].
  apply (bool_decide_eq_true_1 _). by vm_compute.
Defined.

Definition small_artifact : list Z :=
  artifact_of small_source small_settings {| prepared_text := small_text; prepared_units :=
    default [] (result_ok (run (unitize_text {| text := small_text; lines := logical_lines small_text |}
      small_settings small_limits) [])) |}.

Lemma prepare_outcomes_witness :
  run (prepare_utf8 toy_hash small_source small_text small_settings small_limits) [] = Ok small_artifact /\
  exists us, small_artifact
    = artifact_of small_source small_settings {| prepared_text := small_text; prepared_units := us |}.
Proof.
  assert (run (prepare_utf8 toy_hash small_source small_text small_settings small_limits) [] = Ok small_artifact)
    as Hrun by (by vm_compute).
  split; [exact Hrun|].
  pose proof (prepare_outcomes toy_hash small_text small_source small_settings small_limits []
    small_source_wf ltac:(vm_compute; congruence) ltac:(vm_compute; congruence)
    ltac:(apply (bool_decide_eq_true_1 (bytes_ok small_text)); vm_compute; reflexivity) ltac:(vm_compute; congruence)) as H.
  rewrite Hrun in H. destruct H as (us & H & _). exists us. exact H.
Defined.

Lemma prepare_decode_roundtrip_witness :
  exists units, run (decode_prepared_utf8 toy_hash small_artifact small_source small_settings small_limits) []
    = Ok {| prepared_text := small_text; prepared_units := units |}.
Proof.
  destruct (prepare_decode_roundtrip toy_hash small_text small_source small_settings small_limits [] small_artifact
    small_source_wf ltac:(vm_compute; intuition congruence) ltac:(vm_compute; congruence) ltac:(vm_compute; congruence)
    ltac:(apply (bool_decide_eq_true_1 (bytes_ok small_text)); vm_compute; reflexivity) ltac:(vm_compute; congruence)
    ltac:(vm_compute; reflexivity)) as (us & _ & _ & Hd).
  exists us. destruct (Hd []) as [Hok|(e & _ & _ & Hc)]; [exact Hok|]. exfalso. apply Hc. constructor.
Defined.

Lemma decode_exact_witness :
  exists p, run (decode_prepared_utf8 toy_hash small_artifact small_source small_settings small_limits) [] = Ok p /\
    small_artifact = artifact_of small_source small_settings p.
Proof.
  pose proof (decode_exact toy_hash small_artifact small_source small_settings small_limits []
    small_source_wf ltac:(vm_compute; intuition congruence) ltac:(vm_compute; congruence)
    ltac:(apply (bool_decide_eq_true_1 (bytes_ok small_artifact)); vm_compute; reflexivity) ltac:(vm_compute; congruence)) as H.
  destruct (run (decode_prepared_utf8 toy_hash small_artifact small_source small_settings small_limits) [])
    as [p|e] eqn:Hrun.
  - exists p. split; [reflexivity|exact (proj1 (proj2 H))].
  - exfalso. vm_compute in Hrun. discriminate Hrun.
Defined.
