(* ===== verification/Dto.v ===== *)
(** The one-shot wire values of the crate [search-provider-protocol] and their
    validators (crates/search-provider-protocol/src/{lib,error,dto}.rs).  Each Rust type
    is a Module of the same name with a record [t] of its fields. *)

From S2P Require Import Prelude Bytes.

Inductive ProtocolError : Type :=
  | InvalidFrame | FrameTooLarge | InvalidMessage | InvalidCorrelation
  | ResourceExhausted | Serialization.
#[export] Instance ProtocolError_eq : EqDecision ProtocolError.
Proof. solve_decision. Defined.

Definition code (e : ProtocolError) : list Z :=
  match e with
  | InvalidFrame => str "QUERY_FRAME_INVALID"
  | FrameTooLarge => str "QUERY_FRAME_TOO_LARGE"
  | InvalidMessage => str "QUERY_MESSAGE_INVALID"
  | InvalidCorrelation => str "QUERY_RESPONSE_MISMATCH"
  | ResourceExhausted => str "QUERY_ALLOCATION_FAILED"
  | Serialization => str "QUERY_SERIALIZATION_FAILED"
  end.

(** ** lib.rs *)

Definition MAX_QUERY_BYTES : Z := 4096.
Definition MAX_ITEMS : Z := 64.
Definition MAX_UNIT_TEXT_BYTES : Z := 65536.
Definition MAX_REMAINING_MS : Z := 120000.
Definition QUERY_REQUEST_ID : Z := 1.

(** [if bad { return Err(ProtocolError::InvalidMessage) }] *)
Definition invalid_if (bad : bool) : result ProtocolError unit := reject_if bad InvalidMessage.

(** ** Textual identities *)

Definition lower_hex (value : list Z) (length : Z) : bool :=
  (len value =? length) && forallb (fun b => ascii_digit b || ascii_af b) value.

Fixpoint uuid_positions (i : Z) (value : list Z) : bool :=
  match value with
  | [] => true
  | b :: rest =>
      (if (i =? 8) || (i =? 13) || (i =? 18) || (i =? 23) then b =? 45
       else ascii_digit b || ascii_af b) && uuid_positions (i + 1) rest
  end.
Definition canonical_uuid (value : list Z) : bool :=
  (len value =? 36) && uuid_positions 0 value
  && existsb (fun b => negb (b =? 48) && negb (b =? 45)) value.

(** [ids.contains(&id)] *)
Definition contains (ids : list (list Z)) (id : list Z) : bool :=
  existsb (fun other => bool_decide (other = id)) ids.

(** The loop over [source_ids]: canonical and without repetition; [prior] is
    [ids\[..index\]]. *)
Fixpoint ids_loop (prior ids : list (list Z)) : result ProtocolError unit :=
  match ids with
  | [] => Ok tt
  | id :: rest =>
      _ ← invalid_if (negb (canonical_uuid id) || contains prior id);
      ids_loop (prior ++ [id]) rest
  end.
Definition validate_ids (source_ids : option (list (list Z))) : result ProtocolError unit :=
  match source_ids with None => Ok tt | Some ids => ids_loop [] ids end.

(** ** Requests *)

Module SearchRequest.
Record t := { query : list Z; limit : Z }.
Definition validate (self : t) : result ProtocolError unit :=
  invalid_if ((len (query self) =? 0) || (MAX_QUERY_BYTES <? len (query self))
    || existsb (Z.eqb 0) (query self) || (limit self =? 0) || (MAX_ITEMS <? limit self)).
End SearchRequest.

Module RawExactRequest.
Record t := { literal : list Z; source_ids : option (list (list Z)); limit : Z }.
Definition validate (self : t) : result ProtocolError unit :=
  _ ← invalid_if ((len (literal self) =? 0) || (MAX_QUERY_BYTES <? len (literal self))
    || (limit self =? 0) || (MAX_ITEMS <? limit self));
  validate_ids (source_ids self).
End RawExactRequest.

Module DecodedUtf8Request.
Record t := { literal : list Z; source_ids : option (list (list Z)); limit : Z }.
Definition validate (self : t) : result ProtocolError unit :=
  _ ← invalid_if ((len (literal self) =? 0) || (MAX_QUERY_BYTES <? len (literal self))
    || (limit self =? 0) || (MAX_ITEMS <? limit self));
  validate_ids (source_ids self).
End DecodedUtf8Request.

Module ClientFrame.
Inductive t :=
  | Query (request_id remaining_ms : Z) (request : SearchRequest.t)
  | RawExact (request_id remaining_ms : Z) (request : RawExactRequest.t)
  | DecodedUtf8 (request_id remaining_ms : Z) (request : DecodedUtf8Request.t)
  | Cancel (request_id : Z).

Definition check_remaining (remaining_ms : Z) : result ProtocolError unit :=
  invalid_if ((remaining_ms =? 0) || (MAX_REMAINING_MS <? remaining_ms)).

Definition validate (self : t) : result ProtocolError unit :=
  request_id ← match self with
    | Query request_id remaining_ms request =>
        _ ← check_remaining remaining_ms; _ ← SearchRequest.validate request; Ok request_id
    | RawExact request_id remaining_ms request =>
        _ ← check_remaining remaining_ms; _ ← RawExactRequest.validate request; Ok request_id
    | DecodedUtf8 request_id remaining_ms request =>
        _ ← check_remaining remaining_ms; _ ← DecodedUtf8Request.validate request; Ok request_id
    | Cancel request_id => Ok request_id
    end;
  reject_if (negb (request_id =? QUERY_REQUEST_ID)) InvalidCorrelation.
End ClientFrame.

(** ** Evidence *)

Inductive ObjectKindDto : Type := Source | Prepared.
#[export] Instance ObjectKindDto_eq : EqDecision ObjectKindDto.
Proof. solve_decision. Defined.

Module ObjectRefDto.
Record t := { version : Z; kind : ObjectKindDto; digest : list Z; bytes : Z }.
#[global] Instance t_eq : EqDecision t.
Proof. solve_decision. Defined.

Definition validate (self : t) (expected : ObjectKindDto) : result ProtocolError unit :=
  let maximum := match expected with
    | Source => 8 * 1024 * 1024
    | Prepared => 64 * 1024 * 1024
    end in
  invalid_if (negb (version self =? 1) || negb (bool_decide (kind self = expected))
    || negb (lower_hex (digest self) 64) || (maximum <? bytes self)
    || (bool_decide (expected = Prepared) && (bytes self =? 0))).
End ObjectRefDto.

(** [u64::from_str_radix(digits, 16)] on a string of at most sixteen digits; both
    letter cases are accepted, as is a leading plus sign. *)
Definition radix16_digit (b : Z) : option Z :=
  if ascii_digit b then Some (b - 48)
  else if (97 <=? b) && (b <=? 102) then Some (b - 97 + 10)
  else if (65 <=? b) && (b <=? 70) then Some (b - 65 + 10)
  else None.
Fixpoint radix16_loop (value : Z) (digits : list Z) : option Z :=
  match digits with
  | [] => Some value
  | b :: rest =>
      d ← radix16_digit b;
      shifted ← checked_mul U64_MAX value 16;
      next ← checked_add U64_MAX shifted d;
      radix16_loop next rest
  end.
Definition from_str_radix_16 (digits : list Z) : option Z :=
  match digits with
  | [] => None
  | b :: rest =>
      if b =? 43 then match rest with [] => None | _ => radix16_loop 0 rest end
      else radix16_loop 0 digits
  end.

Module EvidenceMetadata.
Record t := {
  generation : Z; point_id : list Z; source_namespace_id : list Z; source_id : list Z;
  input : ObjectRefDto.t; prepared : ObjectRefDto.t; unit_ordinal : Z;
  start : Z; stop : Z; line_start : Z; line_end : Z;
  starts_at_line_boundary : bool; ends_at_line_boundary : bool }.

Definition validate (self : t) (expected_generation : Z) : result ProtocolError unit :=
  _ ← invalid_if ((expected_generation =? 0) || negb (generation self =? expected_generation)
    || negb (lower_hex (point_id self) 32)
    || negb (bool_decide (from_str_radix_16 (take 16 (point_id self)) = Some expected_generation))
    || negb (canonical_uuid (source_namespace_id self)) || negb (canonical_uuid (source_id self))
    || (stop self <=? start self) || (MAX_UNIT_TEXT_BYTES <? stop self - start self)
    || (line_end self <=? line_start self));
  _ ← ObjectRefDto.validate (input self) Source;
  _ ← invalid_if (ObjectRefDto.bytes (input self) <? stop self);
  ObjectRefDto.validate (prepared self) Prepared.
End EvidenceMetadata.

(** An [f32] is its bit pattern; it is finite unless its exponent is all ones. *)
Definition is_finite (score : Z) : bool := negb (Z.land (Z.shiftr score 23) 255 =? 255).

Module SearchHit.
Record t := { rank : Z; score : Z; evidence : EvidenceMetadata.t; unit_text : list Z }.
End SearchHit.

Module FailureCode.
Definition t : Type := list Z.
Definition new (code : list Z) : result ProtocolError t :=
  _ ← invalid_if ((len code =? 0) || (64 <? len code)
    || negb (forallb (fun b => ((65 <=? b) && (b <=? 90)) || ascii_digit b || (b =? 95)) code));
  Ok code.
End FailureCode.

Module SearchGap.
Record t := { rank : Z; score : Z; evidence : EvidenceMetadata.t; code : FailureCode.t }.
End SearchGap.

Module SearchItem.
Inductive t := Hit (hit : SearchHit.t) | Gap (gap : SearchGap.t).

Definition rank (self : t) : Z :=
  match self with Hit hit => SearchHit.rank hit | Gap gap => SearchGap.rank gap end.
Definition evidence (self : t) : EvidenceMetadata.t :=
  match self with Hit hit => SearchHit.evidence hit | Gap gap => SearchGap.evidence gap end.

Definition validate (self : t) (generation : Z) : result ProtocolError unit :=
  score ← match self with
    | Hit hit =>
        let evidence := SearchHit.evidence hit in
        _ ← invalid_if ((MAX_UNIT_TEXT_BYTES <? len (SearchHit.unit_text hit))
          || negb (bool_decide (try_from U64_MAX (len (SearchHit.unit_text hit))
                = checked_sub (EvidenceMetadata.stop evidence) (EvidenceMetadata.start evidence))));
        Ok (SearchHit.score hit)
    | Gap gap =>
        _ ← invalid_if (negb (bool_decide (SearchGap.code gap = str "SOURCE_OBJECT_MISSING")
                              || bool_decide (SearchGap.code gap = str "PREPARED_OBJECT_MISSING")));
        Ok (SearchGap.score gap)
    end;
  _ ← invalid_if (negb (is_finite score));
  EvidenceMetadata.validate (evidence self) generation.
End SearchItem.

Inductive StopReason : Type := Complete | OutputLimit.
#[export] Instance StopReason_eq : EqDecision StopReason.
Proof. solve_decision. Defined.
Definition is_complete (stop : StopReason) : bool := bool_decide (stop = Complete).

(** ** Raw literal results *)

Module RawSourceRef.
Record t := {
  source_namespace_id : list Z; source_id : list Z; row_revision : Z;
  registration_revision : Z; input : ObjectRefDto.t }.
#[global] Instance t_eq : EqDecision t.
Proof. solve_decision. Defined.

Definition validate (self : t) : result ProtocolError unit :=
  _ ← invalid_if (negb (canonical_uuid (source_namespace_id self))
    || negb (canonical_uuid (source_id self))
    || (row_revision self =? 0) || (registration_revision self =? 0));
  ObjectRefDto.validate (input self) Source.
End RawSourceRef.

Module RawExactMatch.
Record t := { source : RawSourceRef.t; start : Z; stop : Z; bytes_hex : list Z }.
End RawExactMatch.

Module RawExactGap.
Record t := { source : RawSourceRef.t; code : FailureCode.t }.
End RawExactGap.

Module RawExactItem.
Inductive t := Match (hit : RawExactMatch.t) | Gap (gap : RawExactGap.t).

Definition source (self : t) : RawSourceRef.t :=
  match self with Match hit => RawExactMatch.source hit | Gap gap => RawExactGap.source gap end.

Definition validate (self : t) : result ProtocolError unit :=
  _ ← RawSourceRef.validate (source self);
  match self with
  | Match hit =>
      length ← ok_or InvalidMessage (option_keep (fun n => negb (n =? 0))
        (checked_sub (RawExactMatch.stop hit) (RawExactMatch.start hit)));
      _ ← invalid_if (ObjectRefDto.bytes (RawSourceRef.input (RawExactMatch.source hit))
                        <? RawExactMatch.stop hit);
      _ ← invalid_if (MAX_QUERY_BYTES <? length);
      digits ← ok_or InvalidMessage (try_from USIZE_MAX (length * 2));
      invalid_if (negb (lower_hex (RawExactMatch.bytes_hex hit) digits))
  | Gap gap => invalid_if (negb (bool_decide (RawExactGap.code gap = str "SOURCE_OBJECT_MISSING")))
  end.

(** [matches!((previous, item), (Match(a), Match(b)) if a.start < b.start)] *)
Definition later_match (previous item : t) : bool :=
  match previous, item with
  | Match a, Match b => RawExactMatch.start a <? RawExactMatch.start b
  | _, _ => false
  end.
End RawExactItem.

(** [bytes_hex.as_chunks::<2>().0.iter().zip(literal).any(pair differs)] *)
Fixpoint hex_differs (digits literal : list Z) : bool :=
  match digits, literal with
  | a :: b :: digits, byte :: literal =>
      negb (a =? hex_digit (Z.shiftr byte 4)) || negb (b =? hex_digit (Z.land byte 15))
      || hex_differs digits literal
  | _, _ => false
  end.

Module RawExactResult.
Record t := {
  generation : Z; selected_sources : Z; scanned_sources : Z; missing_sources : Z;
  scanned_bytes : Z; matches : Z; items : list RawExactItem.t;
  scan_complete : bool; complete_negative : bool; stop : StopReason }.

(** The two checks of an item against its predecessor. *)
Definition check_order (previous item : RawExactItem.t) : result ProtocolError unit :=
  let left := RawExactItem.source previous in
  let right := RawExactItem.source item in
  _ ← invalid_if (negb (bool_decide (RawSourceRef.source_namespace_id left
                                     = RawSourceRef.source_namespace_id right))
        || bytes_lt (RawSourceRef.source_id right) (RawSourceRef.source_id left));
  invalid_if (bool_decide (RawSourceRef.source_id left = RawSourceRef.source_id right)
        && (negb (bool_decide (left = right)) || negb (RawExactItem.later_match previous item))).

Fixpoint items_loop (previous : option RawExactItem.t) (match_count gap_count : Z)
    (items : list RawExactItem.t) : result ProtocolError (Z * Z) :=
  match items with
  | [] => Ok (match_count, gap_count)
  | item :: rest =>
      _ ← RawExactItem.validate item;
      let '(match_count, gap_count) := match item with
        | RawExactItem.Match _ => (match_count + 1, gap_count)
        | RawExactItem.Gap _ => (match_count, gap_count + 1)
        end in
      _ ← match previous with Some p => check_order p item | None => Ok tt end;
      items_loop (Some item) match_count gap_count rest
  end.

Definition validate (self : t) (requested_limit : Z) : result ProtocolError unit :=
  total ← ok_or InvalidMessage (checked_add U64_MAX (matches self) (missing_sources self));
  _ ← invalid_if ((generation self =? 0) || (requested_limit =? 0) || (MAX_ITEMS <? requested_limit)
    || (requested_limit <? len (items self))
    || negb (bool_decide (checked_add U64_MAX (scanned_sources self) (missing_sources self)
                          = Some (selected_sources self)))
    || negb (eqb (scan_complete self) (scanned_sources self =? selected_sources self))
    || negb (eqb (complete_negative self) (scan_complete self && (matches self =? 0)))
    || (scanned_bytes self <? matches self)
    || ((scanned_sources self =? 0) && negb (scanned_bytes self =? 0))
    || match try_from U64_MAX (len (items self)) with None => true | Some count => total <? count end
    || negb (eqb (is_complete (stop self)) (len (items self) =? total)));
  counts ← items_loop None 0 0 (items self);
  let '(match_count, gap_count) := counts in
  invalid_if ((matches self <? match_count) || (missing_sources self <? gap_count)).

Fixpoint literal_loop (literal : list Z) (length : Z) (items : list RawExactItem.t)
    : result ProtocolError unit :=
  match items with
  | [] => Ok tt
  | item :: rest =>
      _ ← match item with
        | RawExactItem.Match hit =>
            invalid_if (negb (RawExactMatch.stop hit - RawExactMatch.start hit =? length)
                        || hex_differs (RawExactMatch.bytes_hex hit) literal)
        | RawExactItem.Gap _ => Ok tt
        end;
      literal_loop literal length rest
  end.

Definition validate_request (self : t) (request : RawExactRequest.t) : result ProtocolError unit :=
  _ ← RawExactRequest.validate request;
  _ ← validate self (RawExactRequest.limit request);
  _ ← match RawExactRequest.source_ids request with
    | Some ids => invalid_if (negb (bool_decide (try_from U64_MAX (len ids) = Some (selected_sources self)))
        || existsb (fun item => negb (contains ids (RawSourceRef.source_id (RawExactItem.source item))))
             (items self))
    | None => Ok tt
    end;
  length ← ok_or InvalidMessage (try_from U64_MAX (len (RawExactRequest.literal request)));
  literal_loop (RawExactRequest.literal request) length (items self).
End RawExactResult.

(** ** Decoded UTF-8 results *)

Module DecodedUtf8Match.
Record t := {
  source : RawSourceRef.t; prepared : ObjectRefDto.t;
  representation_start : Z; representation_end : Z; source_start : Z; source_end : Z;
  text : list Z }.
End DecodedUtf8Match.

Module DecodedUtf8Gap.
Record t := { source : RawSourceRef.t; prepared : option ObjectRefDto.t; code : FailureCode.t }.
End DecodedUtf8Gap.

Module DecodedUtf8Item.
Inductive t := Match (hit : DecodedUtf8Match.t) | Gap (gap : DecodedUtf8Gap.t).

Definition source (self : t) : RawSourceRef.t :=
  match self with Match hit => DecodedUtf8Match.source hit | Gap gap => DecodedUtf8Gap.source gap end.

Definition validate (self : t) : result ProtocolError unit :=
  _ ← RawSourceRef.validate (source self);
  match self with
  | Match hit =>
      _ ← ObjectRefDto.validate (DecodedUtf8Match.prepared hit) Prepared;
      invalid_if ((DecodedUtf8Match.representation_end hit <=? DecodedUtf8Match.representation_start hit)
        || negb (DecodedUtf8Match.source_start hit =? DecodedUtf8Match.representation_start hit)
        || negb (DecodedUtf8Match.source_end hit =? DecodedUtf8Match.representation_end hit)
        || (ObjectRefDto.bytes (RawSourceRef.input (DecodedUtf8Match.source hit))
              <? DecodedUtf8Match.source_end hit)
        || (MAX_QUERY_BYTES <? len (DecodedUtf8Match.text hit))
        || negb (bool_decide (try_from U64_MAX (len (DecodedUtf8Match.text hit))
             = checked_sub (DecodedUtf8Match.source_end hit) (DecodedUtf8Match.source_start hit))))
  | Gap gap =>
      match DecodedUtf8Gap.prepared gap with
      | None => invalid_if (negb (bool_decide (DecodedUtf8Gap.code gap = str "PREPARATION_GAP")))
      | Some prepared =>
          if bool_decide (DecodedUtf8Gap.code gap = str "SOURCE_OBJECT_MISSING")
             || bool_decide (DecodedUtf8Gap.code gap = str "PREPARED_OBJECT_MISSING")
          then ObjectRefDto.validate prepared Prepared else Err InvalidMessage
      end
  end.

(** [(Match(a), Match(b)) if a.prepared == b.prepared && a.representation_start < ..] *)
Definition later_match (previous item : t) : bool :=
  match previous, item with
  | Match a, Match b =>
      bool_decide (DecodedUtf8Match.prepared a = DecodedUtf8Match.prepared b)
      && (DecodedUtf8Match.representation_start a <? DecodedUtf8Match.representation_start b)
  | _, _ => false
  end.
End DecodedUtf8Item.

Module DecodedUtf8Result.
Record t := {
  generation : Z; selected_sources : Z; scanned_sources : Z; gap_sources : Z;
  scanned_bytes : Z; matches : Z; items : list DecodedUtf8Item.t;
  scan_complete : bool; complete_negative : bool; stop : StopReason }.

Definition check_order (previous item : DecodedUtf8Item.t) : result ProtocolError unit :=
  let left := DecodedUtf8Item.source previous in
  let right := DecodedUtf8Item.source item in
  invalid_if (negb (bool_decide (RawSourceRef.source_namespace_id left
                                 = RawSourceRef.source_namespace_id right))
        || bytes_lt (RawSourceRef.source_id right) (RawSourceRef.source_id left)
        || (bool_decide (RawSourceRef.source_id left = RawSourceRef.source_id right)
            && (negb (bool_decide (left = right)) || negb (DecodedUtf8Item.later_match previous item)))).

Fixpoint items_loop (previous : option DecodedUtf8Item.t) (matches gaps : Z)
    (items : list DecodedUtf8Item.t) : result ProtocolError (Z * Z) :=
  match items with
  | [] => Ok (matches, gaps)
  | item :: rest =>
      _ ← DecodedUtf8Item.validate item;
      let '(matches, gaps) := match item with
        | DecodedUtf8Item.Match _ => (matches + 1, gaps)
        | DecodedUtf8Item.Gap _ => (matches, gaps + 1)
        end in
      _ ← match previous with Some p => check_order p item | None => Ok tt end;
      items_loop (Some item) matches gaps rest
  end.

Definition validate (self : t) (requested_limit : Z) : result ProtocolError unit :=
  total ← ok_or InvalidMessage (checked_add U64_MAX (matches self) (gap_sources self));
  _ ← invalid_if ((generation self =? 0) || (requested_limit =? 0) || (MAX_ITEMS <? requested_limit)
    || (requested_limit <? len (items self))
    || negb (bool_decide (checked_add U64_MAX (scanned_sources self) (gap_sources self)
                          = Some (selected_sources self)))
    || negb (eqb (scan_complete self) (scanned_sources self =? selected_sources self))
    || negb (eqb (complete_negative self) (scan_complete self && (matches self =? 0)))
    || (scanned_bytes self <? matches self)
    || ((scanned_sources self =? 0) && negb (scanned_bytes self =? 0))
    || (total <? len (items self))
    || negb (eqb (is_complete (stop self)) (len (items self) =? total)));
  counts ← items_loop None 0 0 (items self);
  let '(match_count, gap_count) := counts in
  invalid_if ((matches self <? match_count) || (gap_sources self <? gap_count)).

Fixpoint literal_loop (literal : list Z) (items : list DecodedUtf8Item.t)
    : result ProtocolError unit :=
  match items with
  | [] => Ok tt
  | item :: rest =>
      _ ← match item with
        | DecodedUtf8Item.Match hit => invalid_if (negb (bool_decide (DecodedUtf8Match.text hit = literal)))
        | DecodedUtf8Item.Gap _ => Ok tt
        end;
      literal_loop literal rest
  end.

Definition validate_request (self : t) (request : DecodedUtf8Request.t) : result ProtocolError unit :=
  _ ← DecodedUtf8Request.validate request;
  _ ← validate self (DecodedUtf8Request.limit request);
  _ ← match DecodedUtf8Request.source_ids request with
    | Some ids => invalid_if (negb (bool_decide (try_from U64_MAX (len ids) = Some (selected_sources self)))
        || existsb (fun item => negb (contains ids (RawSourceRef.source_id (DecodedUtf8Item.source item))))
             (items self))
    | None => Ok tt
    end;
  literal_loop (DecodedUtf8Request.literal request) (items self).
End DecodedUtf8Result.

(** ** The one-shot terminal *)

Module QueryOutcome.
Inductive t :=
  | Complete (generation : Z) (items : list SearchItem.t) (stop : StopReason)
  | RawExact (result : RawExactResult.t)
  | DecodedUtf8 (result : DecodedUtf8Result.t)
  | Cancelled
  | Failed (code : FailureCode.t).
End QueryOutcome.

Module Terminal.
Record t := { request_id : Z; outcome : QueryOutcome.t }.

(** The loop over the ranked items; [prior] is [items\[..index\]]. *)
Fixpoint items_loop (generation : Z) (prior items : list SearchItem.t) : result ProtocolError unit :=
  match items with
  | [] => Ok tt
  | item :: rest =>
      _ ← invalid_if (negb (SearchItem.rank item =? len prior + 1)
        || existsb (fun p => bool_decide (EvidenceMetadata.point_id (SearchItem.evidence p)
                                          = EvidenceMetadata.point_id (SearchItem.evidence item))) prior);
      _ ← SearchItem.validate item generation;
      items_loop generation (prior ++ [item]) rest
  end.

Definition validate (self : t) (requested_limit : Z) : result ProtocolError unit :=
  _ ← reject_if (negb (request_id self =? QUERY_REQUEST_ID)) InvalidCorrelation;
  _ ← invalid_if ((requested_limit =? 0) || (MAX_ITEMS <? requested_limit));
  match outcome self with
  | QueryOutcome.Complete generation items _ =>
      _ ← invalid_if ((generation =? 0) || (requested_limit <? len items));
      items_loop generation [] items
  | QueryOutcome.RawExact result => RawExactResult.validate result requested_limit
  | QueryOutcome.DecodedUtf8 result => DecodedUtf8Result.validate result requested_limit
  | QueryOutcome.Cancelled | QueryOutcome.Failed _ => Ok tt
  end.
End Terminal.

(** [deserialize_items]: the sequence visitor, over what the deserializer finds: an
    item, a value that is not an item, or no value at all. *)
Module Items.
Inductive element (T : Type) := Item (item : T) | Mistyped | Broken.
Arguments Item {T}.
Arguments Mistyped {T}.
Arguments Broken {T}.
Inductive error := Malformed | TooMany | AllocationFailed.

Fixpoint visit_seq {T} (items : list T) (seq : list (element T)) : M error (list T) :=
  match seq with
  | [] => mret items
  | next :: rest =>
      if len items <? MAX_ITEMS then
        item ← match next with Item item => mret item | _ => fail Malformed end;
        _ ← reserve_with AllocationFailed;
        visit_seq (items ++ [item]) rest
      else match next with Broken => fail Malformed | _ => fail TooMany end
  end.
End Items.
