(* ===== verification/DtoSession.v ===== *)
(** The session wire values of the crate [search-provider-protocol]: frames, pages,
    expansions, replies and their validators against the original query
    (crates/search-provider-protocol/src/dto.rs, from [WindowQuery] on). *)

From S2P Require Import Prelude Bytes Utf8 Dto.

Definition DEFAULT_WINDOW_PAGE_SIZE : Z := 16.
Definition MAX_WINDOW_TTL_MS : Z := 120000.
Definition SESSION_WINDOW_ID : Z := 1.
Definition MAX_EXPANSION_BYTES : Z := 65536.

Module WindowQuery.
Inductive t :=
  | Search (request : SearchRequest.t)
  | Raw (request : RawExactRequest.t)
  | DecodedUtf8 (request : DecodedUtf8Request.t).

Definition validate (self : t) : result ProtocolError unit :=
  match self with
  | Search request => SearchRequest.validate request
  | Raw request => RawExactRequest.validate request
  | DecodedUtf8 request => DecodedUtf8Request.validate request
  end.

Definition limit (self : t) : Z :=
  match self with
  | Search request => SearchRequest.limit request
  | Raw request => RawExactRequest.limit request
  | DecodedUtf8 request => DecodedUtf8Request.limit request
  end.

Definition is_search (self : t) : bool := match self with Search _ => true | _ => false end.
End WindowQuery.

Definition validate_page_size (size : Z) : result ProtocolError unit :=
  invalid_if ((size =? 0) || (MAX_ITEMS <? size)).
Definition validate_window_id (id : Z) : result ProtocolError unit :=
  if id =? SESSION_WINDOW_ID then Ok tt else Err InvalidMessage.

Module SessionClientFrame.
Inductive t :=
  | Open (request_id remaining_ms : Z) (query : WindowQuery.t) (page_size ttl_ms : Z)
  | Continue (request_id remaining_ms window_id page_size : Z)
  | Expand (request_id remaining_ms window_id item_index before_bytes after_bytes : Z)
  | Cancel (request_id : Z)
  | Close (request_id : Z).

Definition request_id (self : t) : Z :=
  match self with
  | Open request_id _ _ _ _ | Continue request_id _ _ _ | Expand request_id _ _ _ _ _
  | Cancel request_id | Close request_id => request_id
  end.

Definition validate (self : t) : result ProtocolError unit :=
  _ ← reject_if (request_id self =? 0) InvalidCorrelation;
  remaining ← match self with
    | Open _ remaining_ms query page_size ttl_ms =>
        _ ← WindowQuery.validate query;
        _ ← validate_page_size page_size;
        _ ← invalid_if ((ttl_ms =? 0) || (MAX_WINDOW_TTL_MS <? ttl_ms));
        Ok (Some remaining_ms)
    | Continue _ remaining_ms window_id page_size =>
        _ ← validate_window_id window_id;
        _ ← validate_page_size page_size;
        Ok (Some remaining_ms)
    | Expand _ remaining_ms window_id item_index before_bytes after_bytes =>
        _ ← validate_window_id window_id;
        _ ← invalid_if ((MAX_ITEMS <=? item_index)
          || match checked_add U64_MAX before_bytes after_bytes with
             | None => true
             | Some n => MAX_EXPANSION_BYTES <? n
             end);
        Ok (Some remaining_ms)
    | Cancel _ | Close _ => Ok None
    end;
  invalid_if (match remaining with
    | None => false
    | Some ms => (ms =? 0) || (MAX_REMAINING_MS <? ms)
    end).
End SessionClientFrame.

Module WindowItem.
Inductive t :=
  | Search (item : SearchItem.t)
  | Raw (item : RawExactItem.t)
  | DecodedUtf8 (item : DecodedUtf8Item.t).

Definition is_search (self : t) : bool := match self with Search _ => true | _ => false end.

Definition validate (self : t) (generation : Z) : result ProtocolError unit :=
  match self with
  | Search item => SearchItem.validate item generation
  | Raw item => RawExactItem.validate item
  | DecodedUtf8 item => DecodedUtf8Item.validate item
  end.

(** [validate_request]; the first part gives the selection and the item's source. *)
Definition validate_request (self : t) (query : WindowQuery.t) (generation : Z)
    : result ProtocolError unit :=
  _ ← validate self generation;
  selected ← match self, query with
    | Search _, WindowQuery.Search _ => Ok None
    | Raw item, WindowQuery.Raw request =>
        _ ← match item with
          | RawExactItem.Match hit =>
              invalid_if (negb (RawExactMatch.stop hit - RawExactMatch.start hit
                                =? len (RawExactRequest.literal request))
                || hex_differs (RawExactMatch.bytes_hex hit) (RawExactRequest.literal request))
          | RawExactItem.Gap _ => Ok tt
          end;
        Ok (Some (RawExactRequest.source_ids request, RawExactItem.source item))
    | DecodedUtf8 item, WindowQuery.DecodedUtf8 request =>
        _ ← match item with
          | DecodedUtf8Item.Match hit =>
              invalid_if (negb (bool_decide (DecodedUtf8Match.text hit = DecodedUtf8Request.literal request)))
          | DecodedUtf8Item.Gap _ => Ok tt
          end;
        Ok (Some (DecodedUtf8Request.source_ids request, DecodedUtf8Item.source item))
    | _, _ => Err InvalidMessage
    end;
  match selected with
  | None => Ok tt
  | Some (ids, source) =>
      invalid_if (match ids with
        | None => false
        | Some ids => negb (contains ids (RawSourceRef.source_id source))
        end)
  end.
End WindowItem.

(** [validate_window_order] *)
Definition window_order (left right : WindowItem.t) : bool :=
  match left, right with
  | WindowItem.Search a, WindowItem.Search b =>
      bool_decide (checked_add U8_MAX (SearchItem.rank a) 1 = Some (SearchItem.rank b))
  | WindowItem.Raw a, WindowItem.Raw b =>
      bool_decide (RawSourceRef.source_namespace_id (RawExactItem.source a)
                   = RawSourceRef.source_namespace_id (RawExactItem.source b))
      && (bytes_lt (RawSourceRef.source_id (RawExactItem.source a))
                   (RawSourceRef.source_id (RawExactItem.source b))
          || (bool_decide (RawExactItem.source a = RawExactItem.source b)
              && RawExactItem.later_match a b))
  | WindowItem.DecodedUtf8 a, WindowItem.DecodedUtf8 b =>
      bool_decide (RawSourceRef.source_namespace_id (DecodedUtf8Item.source a)
                   = RawSourceRef.source_namespace_id (DecodedUtf8Item.source b))
      && (bytes_lt (RawSourceRef.source_id (DecodedUtf8Item.source a))
                   (RawSourceRef.source_id (DecodedUtf8Item.source b))
          || (bool_decide (DecodedUtf8Item.source a = DecodedUtf8Item.source b)
              && DecodedUtf8Item.later_match a b))
  | _, _ => false
  end.
Definition validate_window_order (left right : WindowItem.t) : result ProtocolError unit :=
  if window_order left right then Ok tt else Err InvalidMessage.

Module WindowEntry.
Record t := { item_index : Z; item : WindowItem.t }.
End WindowEntry.

Module WindowSummary.
Record t := {
  generation : Z; retained_items : Z; found_matches : option Z;
  scan_complete : option bool; complete_negative : option bool; result_stop : StopReason }.
End WindowSummary.

Module WindowPage.
Record t := {
  window_id : Z; summary : WindowSummary.t; start_index : Z; next_index : Z;
  items : list WindowEntry.t; has_more : bool; page_stop : StopReason }.

(** The loop over the entries; [index] is the position in [items]. *)
Fixpoint entries_loop (self : t) (index : Z) (entries : list WindowEntry.t)
    : result ProtocolError unit :=
  match entries with
  | [] => Ok tt
  | entry :: rest =>
      _ ← invalid_if (negb (WindowEntry.item_index entry =? start_index self + index));
      _ ← WindowItem.validate (WindowEntry.item entry) (WindowSummary.generation (summary self));
      _ ← invalid_if (negb (eqb (WindowItem.is_search (WindowEntry.item entry))
            (bool_decide (WindowSummary.found_matches (summary self) = None))));
      _ ← match WindowEntry.item entry with
        | WindowItem.Search item =>
            invalid_if (negb (SearchItem.rank item =? WindowEntry.item_index entry + 1))
        | _ => Ok tt
        end;
      entries_loop self (index + 1) rest
  end.

Definition summary_shape (s : WindowSummary.t) : bool :=
  match WindowSummary.found_matches s, WindowSummary.scan_complete s, WindowSummary.complete_negative s with
  | None, None, None | Some _, Some _, Some _ => true
  | _, _, _ => false
  end.

Definition validate (self : t) : result ProtocolError unit :=
  _ ← validate_window_id (window_id self);
  let s := summary self in
  _ ← invalid_if ((WindowSummary.generation s =? 0) || (MAX_ITEMS <? WindowSummary.retained_items s)
    || (next_index self <? start_index self)
    || (WindowSummary.retained_items s <? next_index self)
    || negb (next_index self - start_index self =? len (items self))
    || negb (eqb (has_more self) (next_index self <? WindowSummary.retained_items s))
    || ((len (items self) =? 0) && has_more self)
    || negb (summary_shape s)
    || match WindowSummary.complete_negative s with
       | None => false
       | Some negative => negb (eqb negative
           (bool_decide (WindowSummary.scan_complete s = Some true)
            && bool_decide (WindowSummary.found_matches s = Some 0)))
       end);
  entries_loop self 0 (items self).

(** The loop over [emitted.iter().chain(&self.items)]; [prior] are the entries before,
    the last of which is [previous]. *)
Fixpoint request_loop (query : WindowQuery.t) (generation found gaps : Z)
    (prior : list WindowEntry.t) (previous : option WindowItem.t) (entries : list WindowEntry.t)
    : result ProtocolError (Z * Z) :=
  match entries with
  | [] => Ok (found, gaps)
  | entry :: rest =>
      _ ← WindowItem.validate_request (WindowEntry.item entry) query generation;
      counts ← match WindowEntry.item entry with
        | WindowItem.Search item =>
            _ ← invalid_if (existsb (fun p => match WindowEntry.item p with
                  | WindowItem.Search q =>
                      bool_decide (EvidenceMetadata.point_id (SearchItem.evidence q)
                                   = EvidenceMetadata.point_id (SearchItem.evidence item))
                  | _ => false
                  end) prior);
            Ok (found, gaps)
        | WindowItem.Raw (RawExactItem.Match _) | WindowItem.DecodedUtf8 (DecodedUtf8Item.Match _) =>
            Ok (found + 1, gaps)
        | WindowItem.Raw (RawExactItem.Gap _) | WindowItem.DecodedUtf8 (DecodedUtf8Item.Gap _) =>
            Ok (found, gaps + 1)
        end;
      _ ← match previous with
        | Some earlier => validate_window_order earlier (WindowEntry.item entry)
        | None => Ok tt
        end;
      request_loop query generation (fst counts) (snd counts) (prior ++ [entry])
        (Some (WindowEntry.item entry)) rest
  end.

Definition validate_request (self : t) (query : WindowQuery.t) (emitted : list WindowEntry.t)
    (page_size : Z) : result ProtocolError unit :=
  _ ← validate self;
  _ ← WindowQuery.validate query;
  _ ← validate_page_size page_size;
  let s := summary self in
  let expected := Z.min page_size (saturating_sub (WindowSummary.retained_items s) (len emitted)) in
  _ ← invalid_if (negb (start_index self =? len emitted)
    || (WindowQuery.limit query <? WindowSummary.retained_items s)
    || (expected <? len (items self))
    || negb (eqb (is_complete (page_stop self)) (len (items self) =? expected))
    || negb (eqb (WindowQuery.is_search query) (bool_decide (WindowSummary.found_matches s = None))));
  counts ← request_loop query (WindowSummary.generation s) 0 0 [] None (emitted ++ items self);
  let '(found, gaps) := counts in
  match WindowSummary.found_matches s with
  | None => Ok tt
  | Some total =>
      invalid_if ((total <? found)
        || ((0 <? gaps) && bool_decide (WindowSummary.scan_complete s = Some true))
        || ((next_index self =? WindowSummary.retained_items s)
            && is_complete (WindowSummary.result_stop s)
            && (negb (found =? total)
                || negb (bool_decide (WindowSummary.scan_complete s = Some (gaps =? 0))))))
  end.
End WindowPage.

Module ExpansionContent.
Inductive t := Raw (bytes_hex : list Z) | Utf8 (text : list Z).
End ExpansionContent.

Module WindowExpansion.
Record t := {
  window_id : Z; item_index : Z; source : RawSourceRef.t; prepared : option ObjectRefDto.t;
  representation_start : Z; representation_end : Z; source_start : Z; source_end : Z;
  content : ExpansionContent.t }.

Definition validate (self : t) : result ProtocolError unit :=
  _ ← validate_window_id (window_id self);
  _ ← RawSourceRef.validate (source self);
  length ← ok_or InvalidMessage (option_keep (fun n => negb (n =? 0) && (n <=? MAX_EXPANSION_BYTES))
    (checked_sub (representation_end self) (representation_start self)));
  _ ← invalid_if ((MAX_ITEMS <=? item_index self)
    || negb (source_start self =? representation_start self)
    || negb (source_end self =? representation_end self)
    || (ObjectRefDto.bytes (RawSourceRef.input (source self)) <? source_end self));
  match content self, prepared self with
  | ExpansionContent.Raw bytes_hex, None =>
      digits ← ok_or InvalidMessage (try_from USIZE_MAX (length * 2));
      invalid_if (negb (lower_hex bytes_hex digits))
  | ExpansionContent.Utf8 text, Some prepared =>
      _ ← ObjectRefDto.validate prepared Prepared;
      invalid_if (negb (bool_decide (try_from U64_MAX (len text) = Some length)))
  | _, _ => Err InvalidMessage
  end.

(** What [validate_request] takes from the original item: namespace, source id, input,
    prepared artifact, range, text, hex digits, whole source reference. *)
Record origin := {
  o_namespace : list Z; o_id : list Z; o_input : ObjectRefDto.t; o_prepared : option ObjectRefDto.t;
  o_start : Z; o_end : Z; o_text : option (list Z); o_hex : option (list Z);
  o_source : option RawSourceRef.t }.

Definition original_of (original : WindowItem.t) : option origin :=
  match original with
  | WindowItem.Search (SearchItem.Hit hit) =>
      let e := SearchHit.evidence hit in
      Some {| o_namespace := EvidenceMetadata.source_namespace_id e; o_id := EvidenceMetadata.source_id e;
              o_input := EvidenceMetadata.input e; o_prepared := Some (EvidenceMetadata.prepared e);
              o_start := EvidenceMetadata.start e; o_end := EvidenceMetadata.stop e;
              o_text := Some (SearchHit.unit_text hit); o_hex := None; o_source := None |}
  | WindowItem.Raw (RawExactItem.Match hit) =>
      let s := RawExactMatch.source hit in
      Some {| o_namespace := RawSourceRef.source_namespace_id s; o_id := RawSourceRef.source_id s;
              o_input := RawSourceRef.input s; o_prepared := None;
              o_start := RawExactMatch.start hit; o_end := RawExactMatch.stop hit;
              o_text := None; o_hex := Some (RawExactMatch.bytes_hex hit); o_source := Some s |}
  | WindowItem.DecodedUtf8 (DecodedUtf8Item.Match hit) =>
      let s := DecodedUtf8Match.source hit in
      Some {| o_namespace := RawSourceRef.source_namespace_id s; o_id := RawSourceRef.source_id s;
              o_input := RawSourceRef.input s; o_prepared := Some (DecodedUtf8Match.prepared hit);
              o_start := DecodedUtf8Match.representation_start hit;
              o_end := DecodedUtf8Match.representation_end hit;
              o_text := Some (DecodedUtf8Match.text hit); o_hex := None; o_source := Some s |}
  | _ => None
  end.

Definition validate_request (self : t) (request : SessionClientFrame.t) (original : WindowItem.t)
    : result ProtocolError unit :=
  _ ← validate self;
  match request with
  | SessionClientFrame.Expand _ _ wanted_window wanted_index before_bytes after_bytes =>
      o ← ok_or InvalidMessage (original_of original);
      let wanted_start := saturating_sub (o_start o) before_bytes in
      wanted_sum ← ok_or InvalidMessage (checked_add U64_MAX (o_end o) after_bytes);
      let wanted_end := Z.min wanted_sum (ObjectRefDto.bytes (o_input o)) in
      _ ← invalid_if (negb (wanted_window =? window_id self) || negb (wanted_index =? item_index self)
        || negb (bool_decide (RawSourceRef.source_namespace_id (source self) = o_namespace o))
        || negb (bool_decide (RawSourceRef.source_id (source self) = o_id o))
        || negb (bool_decide (RawSourceRef.input (source self) = o_input o))
        || negb (bool_decide (prepared self = o_prepared o))
        || match o_source o with None => false | Some s => negb (bool_decide (s = source self)) end
        || negb (representation_start self =? wanted_start)
        || negb (representation_end self =? wanted_end));
      from ← ok_or InvalidMessage (try_from USIZE_MAX (o_start o - wanted_start));
      to ← ok_or InvalidMessage (try_from USIZE_MAX (o_end o - wanted_start));
      match content self, o_text o, o_hex o with
      | ExpansionContent.Utf8 expanded, Some text, None =>
          invalid_if (negb (bool_decide (str_get expanded from to = Some text)))
      | ExpansionContent.Raw bytes_hex, None, Some hex =>
          invalid_if (negb (bool_decide (str_get bytes_hex (from * 2) (to * 2) = Some hex)))
      | _, _, _ => Err InvalidMessage
      end
  | _ => Err InvalidMessage
  end.
End WindowExpansion.

Module SessionOutcome.
Inductive t :=
  | Page (page : WindowPage.t)
  | Expanded (expansion : WindowExpansion.t)
  | Closed | Expired | Cancelled
  | Failed (code : FailureCode.t).
End SessionOutcome.

Module SessionReply.
Record t := { request_id : Z; outcome : SessionOutcome.t }.

Definition validate (self : t) : result ProtocolError unit :=
  _ ← reject_if ((request_id self =? 0)
        && negb (match outcome self with SessionOutcome.Expired => true | _ => false end))
      InvalidCorrelation;
  match outcome self with
  | SessionOutcome.Page page => WindowPage.validate page
  | SessionOutcome.Expanded expansion => WindowExpansion.validate expansion
  | _ => Ok tt
  end.
End SessionReply.
