(* ===== verification/DtoFacts.v ===== *)
(** What the wire validators guarantee: canonical identities, ranked terminals, the
    order and accounting of literal results, successive window pages, expansions. *)

From stdpp Require Import sorting.
From S2P Require Import Prelude Bytes Utf8 Ids Dto DtoSession.

Lemma invalid_if_ok bad u : invalid_if bad = Ok u <-> bad = false.
Proof. unfold invalid_if. destruct bad, u; split; intros; (done || discriminate). Qed.

(** Expose the guards of a validator that returned [Ok]. *)
Ltac open_guards :=
  repeat match goal with
  | H : invalid_if _ = Ok _ |- _ => apply invalid_if_ok in H
  | H : invalid_if ?b ≫= _ = Ok _ |- _ =>
      apply bind_ok_inv in H as ([] & ?%invalid_if_ok & H); cbv beta in H
  end.

(** [_ ← r; s = Ok] is the conjunction of both. *)
Lemma seq_ok {E A B} (r : result E A) (k : A -> result E B) b :
  r ≫= k = Ok b <-> exists a, r = Ok a /\ k a = Ok b.
Proof. split; [apply bind_ok_inv|]. intros (a & -> & ?). done. Qed.

Lemma seq_unit {E B} (r : result E unit) (s : result E B) b :
  (_ ← r; s) = Ok b <-> r = Ok tt /\ s = Ok b.
Proof. rewrite seq_ok. split; [intros ([] & ? & ?)|intros [? ?]]; eauto. Qed.

Lemma ok_tt {E} (r : result E unit) u : r = Ok u <-> r = Ok tt.
Proof. by destruct u. Qed.

(** ** Identities *)

Lemma uuid_positions_compact v : forall i,
  0 <= i -> uuid_positions i v = true ->
  (forall k b, v !! k = Some b -> Uuid.dash_position (i + Z.of_nat k) = true -> b = 45) /\
  exists c, Uuid.compact_loop i v = Ok c /\ Forall (fun b => b ∈ v /\ lower_hex_byte b = true) c.
Proof.
  induction v as [|b v IH]; intros i Hi Hv.
  - split; [intros k b Hk; by rewrite lookup_nil in Hk|]. exists []. by split.
  - cbn [uuid_positions] in Hv. apply andb_true_iff in Hv as [Hb Hv].
    destruct (IH (i + 1) ltac:(lia) Hv) as (Hd & c & Hc & Hall).
    fold (Uuid.dash_position i) in Hb. split.
    + intros [|k] x Hx Hdash.
      * rewrite Z.add_0_r in Hdash. rewrite Hdash in Hb. injection Hx as <-. by to_prop.
      * apply (Hd k x Hx). by replace (i + 1 + Z.of_nat k) with (i + Z.of_nat (S k)) by lia.
    + assert (Forall (fun x => x ∈ b :: v /\ lower_hex_byte x = true) c) as Hall'.
      { eapply Forall_impl; [exact Hall|]. intros x [Hx ?]. split; [by apply list_elem_of_further|done]. }
      cbn [Uuid.compact_loop]. destruct (Uuid.dash_position i); [by exists c|].
      rewrite <- negb_orb, Hb. cbn [negb]. rewrite Hc. exists (b :: c). split; [done|].
      constructor; [|done]. split; [apply list_elem_of_here|done].
Qed.

Lemma compact_uuid_positions v : forall i c,
  0 <= i -> Uuid.compact_loop i v = Ok c ->
  (forall k b, v !! k = Some b -> Uuid.dash_position (i + Z.of_nat k) = true -> b = 45) ->
  uuid_positions i v = true.
Proof.
  induction v as [|b v IH]; intros i c Hi Hc Hd; [done|]. cbn [uuid_positions Uuid.compact_loop] in *.
  fold (Uuid.dash_position i). assert (forall k x, v !! k = Some x ->
    Uuid.dash_position (i + 1 + Z.of_nat k) = true -> x = 45) as Hd'.
  { intros k x Hx Hk. apply (Hd (S k) x Hx). by replace (i + Z.of_nat (S k)) with (i + 1 + Z.of_nat k) by lia. }
  destruct (Uuid.dash_position i) eqn:Hp.
  - rewrite (Hd 0%nat b eq_refl) by (by rewrite Z.add_0_r). cbn. by eapply IH; [lia|..].
  - destruct (negb (ascii_digit b) && negb (ascii_af b)) eqn:Hb; [done|].
    apply bind_ok_inv in Hc as (c' & Hc & _). rewrite <- negb_orb in Hb. to_prop. rewrite Hb.
    by eapply IH; [lia|..].
Qed.

Lemma pair_loop_total c : Forall (fun b => lower_hex_byte b = true) c -> is_ok (Uuid.pair_loop c) = true.
Proof.
  intros Hc. remember (length c) as n eqn:Hn. revert c Hn Hc.
  induction n as [n IH] using lt_wf_ind. intros [|a [|b c]] -> Hc; [done..|].
  apply Forall_cons in Hc as [Ha Hc]. apply Forall_cons in Hc as [Hb Hc]. cbn [Uuid.pair_loop].
  assert (forall x, lower_hex_byte x = true -> exists y, Uuid.lower_hex x = Some y) as Hx.
  { intros x Hx. rewrite Uuid.lower_hex_value_eq. unfold lower_hex_byte, lower_hex_value in *.
    destruct (ascii_digit x); [eauto|]. cbn in Hx. rewrite Hx. eauto. }
  destruct (Hx a Ha) as [ya ->], (Hx b Hb) as [yb ->]. cbn [ok_or mbind result_bind].
  specialize (IH (length c) ltac:(cbn; lia) c eq_refl Hc). by destruct (Uuid.pair_loop c).
Qed.

Lemma pair_loop_zero c l : Forall (fun b => b = 48) c -> Uuid.pair_loop c = Ok l -> Forall (fun b => b = 0) l.
Proof.
  intros Hc. remember (length c) as n eqn:Hn. revert c l Hn Hc.
  induction n as [n IH] using lt_wf_ind. intros [|a [|b c]] l -> Hc Hl; [by injection Hl as <-..|].
  apply Forall_cons in Hc as [-> Hc]. apply Forall_cons in Hc as [-> Hc]. cbn in Hl.
  destruct (Uuid.pair_loop c) as [t|] eqn:Ht; [|done]. injection Hl as <-. constructor; [done|].
  eapply (IH (length c)); [cbn; lia|done..].
Qed.

Lemma parse_dashes v b : Uuid.parse v = Ok b -> len v = 36 /\
  (forall k x, v !! k = Some x -> Uuid.dash_position (0 + Z.of_nat k) = true -> x = 45) /\
  exists c, Uuid.compact_loop 0 v = Ok c /\ Uuid.pair_loop c = Ok b.
Proof.
  unfold Uuid.parse. destruct (_ || _) eqn:Hg; [done|]. intros H. apply bind_ok_inv in H as (c & ? & ?).
  to_prop. split; [done|]. split; [|eauto]. intros k x Hx Hp.
  assert (at_ v (0 + Z.of_nat k) = Some x) as Ha  by (by rewrite Z.add_0_l, at_nat).
  unfold Uuid.dash_position in Hp.
  repeat (apply orb_true_iff in Hp as [Hp|Hp]); to_prop; rewrite Hp in Ha; unfold Uuid.dash in *; congruence.
Qed.

Lemma dashes_parse v c : len v = 36 ->
  (forall k x, v !! k = Some x -> Uuid.dash_position (0 + Z.of_nat k) = true -> x = 45) ->
  Uuid.compact_loop 0 v = Ok c -> Uuid.parse v = Uuid.pair_loop c.
Proof.
  intros Hl Hd Hc. unfold Uuid.parse.
  assert (forall n : nat, (n < 36)%nat -> Uuid.dash_position (0 + Z.of_nat n) = true ->
    at_ v (Z.of_nat n) = Some Uuid.dash) as Ha.
  { intros n Hn Hp. destruct (lookup_lt_is_Some_2 v n) as [x Hx]; [unfold len in Hl; lia|].
    by rewrite at_nat, Hx, (Hd n x Hx Hp). }
  pose proof (Ha 8%nat ltac:(lia) eq_refl) as H8. pose proof (Ha 13%nat ltac:(lia) eq_refl) as H13.
  pose proof (Ha 18%nat ltac:(lia) eq_refl) as H18. pose proof (Ha 23%nat ltac:(lia) eq_refl) as H23.
  cbn in H8, H13, H18, H23. rewrite Hl, !bool_decide_true by done. cbn. by rewrite Hc.
Qed.

Lemma forall_zero_replicate l n : length l = n -> Forall (fun b => b = 0) l -> l = replicate n 0.
Proof. intros <-. induction 1 as [|b l -> _ IH]; cbn; by f_equal. Qed.

Lemma canonical_uuid_spec v :
  canonical_uuid v = true <-> exists b, Uuid.parse v = Ok b /\ b <> replicate 16 0.
Proof.
  unfold canonical_uuid. split.
  - intros H. apply andb_true_iff in H as [H Hnz]. apply andb_true_iff in H as [Hl Hpos].
    apply Z.eqb_eq in Hl. destruct (uuid_positions_compact v 0 ltac:(lia) Hpos) as (Hd & c & Hc & Hall).
    rewrite (dashes_parse v c) by done.
    assert (Forall (fun b => lower_hex_byte b = true) c) as Hhex by (eapply Forall_impl; [exact Hall|intros ? [_ Hx]; exact Hx]).
    pose proof (pair_loop_total c Hhex) as Hok. destruct (Uuid.pair_loop c) as [b|] eqn:Hb; [|done].
    exists b. split; [done|]. intros ->. rewrite <- (dashes_parse v c) in Hb by done.
    destruct (Uuid.parse_ok_display v _ Hb) as [<- _]. by vm_compute in Hnz.
  - intros (b & Hb & Hne). destruct (parse_dashes v b Hb) as (Hl & Hd & c & Hc & Hp).
    pose proof (compact_uuid_positions v 0 c ltac:(lia) Hc Hd) as Hpos.
    destruct (uuid_positions_compact v 0 ltac:(lia) Hpos) as (_ & c' & Hc' & Hall).
    assert (c' = c) as -> by congruence. rewrite Hl, Hpos. cbn [Z.eqb Pos.eqb andb].
    destruct (existsb _ v) eqn:Hex; [done|]. exfalso. apply Hne.
    destruct (Uuid.parse_ok_display v b Hb) as [_ [Hlen _]]. apply forall_zero_replicate; [done|].
    apply (pair_loop_zero c); [|done]. eapply Forall_impl; [exact Hall|]. intros x [Hx Hlow]. cbv beta.
    assert (forall y, y ∈ v -> negb (y =? 48) && negb (y =? 45) = false) as Hno.
    { intros y Hy. destruct (negb (y =? 48) && negb (y =? 45)) eqn:E; [|done].
      assert (existsb (fun b => negb (b =? 48) && negb (b =? 45)) v = true); [|congruence].
      apply existsb_exists. exists y. split; [by apply list_elem_of_In|done]. }
    specialize (Hno x Hx). apply andb_false_iff in Hno as [E|E]; to_prop; [done|]. by subst.
Qed.

(** The wire's UUID check and the contracts' UUID parser agree: a string is a
    canonical UUID on the wire exactly when [SourceId::parse] accepts it and the
    identity is not the nil UUID. *)
Theorem canonical_uuid_parse v :
  canonical_uuid v = true <-> exists b, Uuid.parse v = Ok b /\ b <> replicate 16 0.
Proof. apply canonical_uuid_spec. Qed.

(** ** Ranked terminals *)

Lemma ranked_loop generation items : forall prior,
  Terminal.items_loop generation prior items = Ok tt <->
    (forall i item, items !! i = Some item -> SearchItem.rank item = len prior + Z.of_nat i + 1) /\
    Forall (fun item => SearchItem.validate item generation = Ok tt) items /\
    (forall a b, a ∈ prior -> b ∈ items -> EvidenceMetadata.point_id (SearchItem.evidence a)
                                  <> EvidenceMetadata.point_id (SearchItem.evidence b)) /\
    NoDup (map (fun i => EvidenceMetadata.point_id (SearchItem.evidence i)) items).
Proof.
  induction items as [|item items IH]; intros prior; cbn [Terminal.items_loop map].
  - split; [|done]. intros _. split_and!; try done; [|by constructor].
    intros a b _ Hb. by apply elem_of_nil in Hb.
  - rewrite seq_unit, invalid_if_ok, orb_false_iff, negb_false_iff, Z.eqb_eq, seq_unit, IH.
    rewrite len_app, len_cons, len_nil, Forall_cons, NoDup_cons.
    assert (forall l, existsb (fun p => bool_decide (EvidenceMetadata.point_id (SearchItem.evidence p)
      = EvidenceMetadata.point_id (SearchItem.evidence item))) l = false <->
      forall a, a ∈ l -> EvidenceMetadata.point_id (SearchItem.evidence a)
                         <> EvidenceMetadata.point_id (SearchItem.evidence item)) as Hex.
    { intros l. rewrite <- not_true_iff_false, existsb_exists. split.
      - intros Hn a Ha Heq. apply Hn. exists a. split; [by apply list_elem_of_In|by apply bool_decide_eq_true_2].
      - intros Hall (a & Ha & Heq). apply bool_decide_eq_true_1 in Heq. apply (Hall a); [by apply list_elem_of_In|done]. }
    rewrite Hex. split.
    + intros ((Hr & Hprior) & Hv & Hranks & Hall & Hdis & Hnd). split_and!; try done.
      * intros [|i] x Hx; [injection Hx as <-; lia|]. rewrite (Hranks i x Hx). lia.
      * intros a b Ha Hb. apply elem_of_cons in Hb as [->|Hb]; [by apply Hprior|].
        apply Hdis; [|done]. apply elem_of_app. by left.
      * intros Hin. apply list_elem_of_fmap in Hin as (b & Heq & Hb). apply (Hdis item b); [|done|done].
        apply elem_of_app. right. apply list_elem_of_here.
    + intros (Hranks & (Hv & Hall) & Hdis & Hnin & Hnd). split_and!; try done.
      * rewrite (Hranks 0%nat item eq_refl). lia.
      * intros a Ha. apply Hdis; [done|apply list_elem_of_here].
      * intros i x Hx. rewrite (Hranks (S i) x Hx). lia.
      * intros a b Ha Hb. apply elem_of_app in Ha as [Ha|Ha].
        -- apply Hdis; [done|by apply list_elem_of_further].
        -- apply list_elem_of_singleton in Ha as ->. intros Heq. apply Hnin. apply list_elem_of_fmap. eauto.
Qed.

(** A completed search terminal validates exactly when it answers request one of
    generation [generation], holds at most the requested (and at most 64) items whose
    ranks are 1, 2, 3, ... in order, whose point identities are pairwise distinct, and
    each of which is itself a valid hit or gap of that generation. *)
Theorem terminal_complete_iff id generation items stop limit :
  Terminal.validate {| Terminal.request_id := id;
    Terminal.outcome := QueryOutcome.Complete generation items stop |} limit = Ok tt <->
  id = 1 /\ limit <> 0 /\ limit <= 64 /\ generation <> 0 /\ len items <= limit /\
  (forall i item, items !! i = Some item -> SearchItem.rank item = Z.of_nat i + 1) /\
  NoDup (map (fun i => EvidenceMetadata.point_id (SearchItem.evidence i)) items) /\
  Forall (fun item => SearchItem.validate item generation = Ok tt) items.
Proof.
  unfold Terminal.validate. cbn [Terminal.request_id Terminal.outcome].
  rewrite seq_unit.
  assert (forall b, @reject_if ProtocolError b InvalidCorrelation = Ok tt <-> b = false) as Hrej by (by intros []).
  rewrite Hrej, seq_unit, invalid_if_ok, seq_unit, invalid_if_ok, ranked_loop.
  rewrite !orb_false_iff, negb_false_iff, !Z.eqb_eq, !Z.eqb_neq, (Z.ltb_ge MAX_ITEMS limit), (Z.ltb_ge limit (len items)). change (len (@nil SearchItem.t)) with 0.
  unfold QUERY_REQUEST_ID, MAX_ITEMS. split.
  - intros (-> & (? & ?) & (? & ?) & Hr & ? & _ & ?). split_and!; try done.
  - intros (-> & ? & ? & ? & ? & Hr & ? & ?). split_and!; try done.
    intros a b Ha. by apply elem_of_nil in Ha.
Qed.

(** ** Literal results: one proof for raw and decoded items

    The two result types share their loop; the class states what the loop uses. *)

Class LiteralItem (T : Type) := {
  li_valid : T -> result ProtocolError unit;
  li_match : T -> bool;
  li_source : T -> RawSourceRef.t;
  li_later : T -> T -> bool;
  li_order : T -> T -> result ProtocolError unit;
  li_loop : option T -> Z -> Z -> list T -> result ProtocolError (Z * Z);
  li_order_eq a b : li_order a b =
    (_ ← invalid_if (negb (bool_decide (RawSourceRef.source_namespace_id (li_source a)
                                        = RawSourceRef.source_namespace_id (li_source b)))
          || bytes_lt (RawSourceRef.source_id (li_source b)) (RawSourceRef.source_id (li_source a)));
     invalid_if (bool_decide (RawSourceRef.source_id (li_source a) = RawSourceRef.source_id (li_source b))
          && (negb (bool_decide (li_source a = li_source b)) || negb (li_later a b))));
  li_loop_eq previous m g items : li_loop previous m g items =
    match items with
    | [] => Ok (m, g)
    | item :: rest =>
        _ ← li_valid item;
        _ ← match previous with Some p => li_order p item | None => Ok tt end;
        li_loop (Some item) (m + if li_match item then 1 else 0) (g + if li_match item then 0 else 1) rest
    end;
  li_later_match a b : li_later a b = true -> li_match a = true /\ li_match b = true;
  li_later_trans a b c : li_later a b = true -> li_later b c = true -> li_later a c = true }.

#[export] Instance raw_literal : LiteralItem RawExactItem.t.
Proof.
  refine {| li_valid := RawExactItem.validate;
    li_match i := match i with RawExactItem.Match _ => true | _ => false end;
    li_source := RawExactItem.source; li_later := RawExactItem.later_match;
    li_order := RawExactResult.check_order; li_loop := RawExactResult.items_loop |}.
  - done.
  - intros previous m g [|item items]; [done|]. cbn [RawExactResult.items_loop].
    destruct (RawExactItem.validate item); [|done]. cbn [mbind result_bind].
    destruct item; by rewrite ?Z.add_0_r.
  - by intros [] [].
  - intros [a|] [b|] [c|]; cbn; try done. rewrite !Z.ltb_lt. lia.
Defined.

#[export] Instance decoded_literal : LiteralItem DecodedUtf8Item.t.
Proof.
  refine {| li_valid := DecodedUtf8Item.validate;
    li_match i := match i with DecodedUtf8Item.Match _ => true | _ => false end;
    li_source := DecodedUtf8Item.source; li_later := DecodedUtf8Item.later_match;
    li_order := DecodedUtf8Result.check_order; li_loop := DecodedUtf8Result.items_loop |}.
  - intros a b. unfold DecodedUtf8Result.check_order, invalid_if. by repeat (destruct (bool_decide _) || destruct (bytes_lt _ _) || destruct (DecodedUtf8Item.later_match _ _)).
  - intros previous m g [|item items]; [done|]. cbn [DecodedUtf8Result.items_loop].
    destruct (DecodedUtf8Item.validate item); [|done]. cbn [mbind result_bind].
    destruct item; by rewrite ?Z.add_0_r.
  - by intros [] [].
  - intros [a|] [b|] [c|]; cbn; try done. intros H1 H2. to_prop.
    apply andb_true_iff. split; [apply bool_decide_eq_true_2; congruence|]. apply Z.ltb_lt. lia.
Defined.

Section LiteralResults.
Context {T : Type} `{LiteralItem T}.
Implicit Types a b c : T.

(** [a] comes before [b]: an earlier source, or an earlier match in the same revision
    of the same source. *)
Definition precedes a b : Prop :=
  RawSourceRef.source_namespace_id (li_source a) = RawSourceRef.source_namespace_id (li_source b) /\
  (bytes_lt (RawSourceRef.source_id (li_source a)) (RawSourceRef.source_id (li_source b)) = true \/
   (li_source a = li_source b /\ li_later a b = true)).

Definition matches_in (items : list T) : Z := len (filter (fun i => li_match i = true) items).
Definition gaps_in (items : list T) : Z := len (filter (fun i => li_match i = false) items).

Lemma order_precedes a b : li_order a b = Ok tt <-> precedes a b.
Proof.
  rewrite li_order_eq, seq_unit, !invalid_if_ok, orb_false_iff, negb_false_iff, bool_decide_eq_true.
  unfold precedes. split.
  - intros [[Hns Hlt] Hsame]. split; [done|].
    destruct (bytes_lt_total _ _ Hlt) as [Heq|?]; [right|by left].
    rewrite bool_decide_true in Hsame by done. cbn [andb] in Hsame.
    apply orb_false_iff in Hsame as [Hs Hl]. rewrite negb_false_iff in Hs, Hl.
    split; [by apply bool_decide_eq_true_1 in Hs|done].
  - intros [Hns [Hlt|[Heq Hl]]].
    + assert (bytes_lt (RawSourceRef.source_id (li_source b)) (RawSourceRef.source_id (li_source a)) = false) as Hba.
      { destruct (bytes_lt (RawSourceRef.source_id (li_source b)) (RawSourceRef.source_id (li_source a))) eqn:E; [|done].
        pose proof (bytes_lt_trans _ _ _ Hlt E) as Hc. by rewrite bytes_lt_irrefl in Hc. }
      rewrite Hba. split; [done|]. case_bool_decide as Hid; [|done].
      rewrite Hid, bytes_lt_irrefl in Hlt. done.
    + rewrite Heq, bytes_lt_irrefl, Hl, !bool_decide_true by done. done.
Qed.

#[global] Instance precedes_trans : Transitive precedes.
Proof.
  intros a b c [Hn1 H1] [Hn2 H2]. split; [congruence|].
  destruct H1 as [H1|[E1 L1]], H2 as [H2|[E2 L2]].
  - left. by eapply bytes_lt_trans.
  - left. by rewrite <- E2.
  - left. by rewrite E1.
  - right. split; [congruence|]. by eapply li_later_trans.
Qed.

Lemma literal_loop_iff items : forall previous m g m' g',
  li_loop previous m g items = Ok (m', g') <->
    Forall (fun i => li_valid i = Ok tt) items /\
    Sorted precedes (option_list previous ++ items) /\
    m' = m + matches_in items /\ g' = g + gaps_in items.
Proof.
  unfold matches_in, gaps_in.
  induction items as [|item items IH]; intros previous m g m' g'; rewrite li_loop_eq.
  - rewrite app_nil_r, !filter_nil, len_nil. split.
    + intros [= <- <-]. split_and!; try lia; [done|]. destruct previous; cbn; by repeat constructor.
    + intros (_ & _ & -> & ->). by rewrite !Z.add_0_r.
  - rewrite seq_unit, seq_unit, IH, Forall_cons, !filter_cons. cbn [option_list app].
    assert (match previous with Some p => li_order p item | None => Ok tt end = Ok tt <->
      HdRel (fun x y => precedes y x) item (option_list previous)) as Hprev.
    { destruct previous as [p|]; cbn [option_list].
      - rewrite order_precedes. split; [by constructor|]. intros Hh. by inversion Hh.
      - split; [by constructor|done]. }
    assert (Sorted precedes (option_list previous ++ item :: items) <->
      HdRel (fun x y => precedes y x) item (option_list previous) /\ Sorted precedes (item :: items)) as Hsort.
    { destruct previous as [p|]; cbn [option_list app].
      - split.
        + intros Hs. apply Sorted_inv in Hs as [Hs Hh]. split; [|done].
          apply HdRel_inv in Hh. by constructor.
        + intros [Hh Hs]. apply HdRel_inv in Hh. constructor; [done|by constructor].
      - split; [intros Hs; split; [constructor|done]|by intros []]. }
    rewrite Hprev, Hsort. destruct (li_match item).
    + rewrite decide_True, decide_False, len_cons by done. split; intros; destruct_and!; split_and!; lia || done.
    + rewrite decide_False, decide_True, len_cons by done. split; intros; destruct_and!; split_and!; lia || done.
Qed.

Lemma sorted_strongly items : Sorted precedes items -> StronglySorted precedes items.
Proof. apply Sorted_StronglySorted. intros ???. apply precedes_trans. Qed.

Lemma count_items items : matches_in items + gaps_in items = len items.
Proof.
  unfold matches_in, gaps_in. induction items as [|i items IH]; [done|].
  rewrite !filter_cons. destruct (li_match i).
  - rewrite decide_True, decide_False, !len_cons by done. lia.
  - rewrite decide_False, decide_True, !len_cons by done. lia.
Qed.

Lemma counts_nonneg items : 0 <= matches_in items /\ 0 <= gaps_in items.
Proof. split; apply len_nonneg. Qed.
End LiteralResults.

(** What a validated literal result says, for either item type. *)
Definition result_facts {T} `{LiteralItem T} (limit selected scanned gaps found : Z) (items : list T)
    (scan_complete complete_negative : bool) (stop : StopReason) : Prop :=
  StronglySorted precedes items /\ Forall (fun i => li_valid i = Ok tt) items /\
  scanned + gaps = selected /\ len items <= limit <= MAX_ITEMS /\
  matches_in items <= found /\ gaps_in items <= gaps /\
  (stop = Complete <-> matches_in items = found /\ gaps_in items = gaps) /\
  (scan_complete = true <-> gaps = 0) /\
  (complete_negative = true <-> gaps = 0 /\ found = 0) /\
  (complete_negative = true -> items = []).

Lemma eqb_false_negb a b : negb (eqb a b) = false <-> a = b.
Proof. rewrite negb_false_iff. by rewrite eqb_true_iff. Qed.

Lemma facts_of_guards {T} `{LiteralItem T} limit selected scanned gaps found (items : list T)
    scan negative stop total m g :
  limit <= MAX_ITEMS -> len items <= limit ->
  total = found + gaps -> scanned + gaps = selected ->
  scan = (scanned =? selected) -> negative = scan && (found =? 0) ->
  is_complete stop = (len items =? total) -> len items <= total ->
  li_loop None 0 0 items = Ok (m, g) -> m <= found -> g <= gaps ->
  result_facts limit selected scanned gaps found items scan negative stop.
Proof.
  intros Hlim Hlen -> Hsel Hscan Hneg Hstop Htot Hloop Hm Hg'.
  apply literal_loop_iff in Hloop as (Hall & Hsort & -> & ->). cbn [option_list app] in Hsort.
  pose proof (count_items items) as Hcount. pose proof (counts_nonneg items).
  assert (scan = true <-> gaps = 0) as Hsc.
  { rewrite Hscan, Z.eqb_eq. lia. }
  unfold result_facts. rewrite !Z.add_0_l in *. split_and!; try done; try lia.
  - by apply sorted_strongly.
  - unfold is_complete in Hstop. destruct (decide (stop = Complete)) as [E|E].
    + rewrite bool_decide_true in Hstop by done. symmetry in Hstop. to_prop. split; [lia|done].
    + rewrite bool_decide_false in Hstop by done. symmetry in Hstop. to_prop. split; [done|lia].
  - rewrite Hneg, andb_true_iff, Z.eqb_eq, Hsc. done.
  - rewrite Hneg, andb_true_iff, Z.eqb_eq, Hsc. intros [-> ->]. apply len_zero_nil. lia.
Qed.

(** Turn the accounting guard of a result validator into propositions. *)
Ltac open_accounting Hg :=
  repeat (apply orb_false_iff in Hg as [Hg ?]); rewrite ?eqb_false_negb in *; to_prop;
  repeat match goal with
  | H : checked_add _ _ _ = Some _ |- _ => apply checked_add_inv in H as [? ?]
  end.

Lemma raw_result_facts r limit : RawExactResult.validate r limit = Ok tt ->
  result_facts limit (RawExactResult.selected_sources r) (RawExactResult.scanned_sources r)
    (RawExactResult.missing_sources r) (RawExactResult.matches r) (RawExactResult.items r)
    (RawExactResult.scan_complete r) (RawExactResult.complete_negative r) (RawExactResult.stop r).
Proof. intros Hvalid.
  unfold RawExactResult.validate in Hvalid.
  apply bind_ok_inv in Hvalid as (total & Ht%ok_or_inv%checked_add_inv & Hvalid). destruct Ht as [-> _].
  apply bind_ok_inv in Hvalid as ([] & Hg%invalid_if_ok & Hvalid).
  apply bind_ok_inv in Hvalid as ([m g] & Hloop & Hc%invalid_if_ok).
  open_accounting Hg. destruct (try_from U64_MAX (len (RawExactResult.items r))) as [count|] eqn:Hcount; [|done].
  apply try_from_inv in Hcount as [-> _]. to_prop.
  eapply facts_of_guards; try done; lia.
Qed.

Lemma decoded_result_facts r limit : DecodedUtf8Result.validate r limit = Ok tt ->
  result_facts limit (DecodedUtf8Result.selected_sources r) (DecodedUtf8Result.scanned_sources r)
    (DecodedUtf8Result.gap_sources r) (DecodedUtf8Result.matches r) (DecodedUtf8Result.items r)
    (DecodedUtf8Result.scan_complete r) (DecodedUtf8Result.complete_negative r) (DecodedUtf8Result.stop r).
Proof. intros Hvalid.
  unfold DecodedUtf8Result.validate in Hvalid.
  apply bind_ok_inv in Hvalid as (total & Ht%ok_or_inv%checked_add_inv & Hvalid). destruct Ht as [-> _].
  apply bind_ok_inv in Hvalid as ([] & Hg%invalid_if_ok & Hvalid).
  apply bind_ok_inv in Hvalid as ([m g] & Hloop & Hc%invalid_if_ok).
  open_accounting Hg. eapply facts_of_guards; try done; lia.
Qed.

(** A raw literal result that validates accounts for every selected source: scanned
    and missing sources add up to the selection; emitted items are valid, strictly
    ordered by source and then by start (so no occurrence is repeated), and no more than
    the counts they are drawn from; [Complete] says exactly that every occurrence and
    gap was emitted; a complete-negative claim holds exactly when nothing was missing
    and nothing was found, and then no item is present. *)
Theorem raw_result_accounts r limit (Hvalid : RawExactResult.validate r limit = Ok tt) :
  result_facts limit (RawExactResult.selected_sources r) (RawExactResult.scanned_sources r)
    (RawExactResult.missing_sources r) (RawExactResult.matches r) (RawExactResult.items r)
    (RawExactResult.scan_complete r) (RawExactResult.complete_negative r) (RawExactResult.stop r).
Proof. by apply raw_result_facts. Qed.

(** A decoded UTF-8 result that validates gives the same account of the selected
    sources, where a gap is a source without an available representation. *)
Theorem decoded_result_accounts r limit (Hvalid : DecodedUtf8Result.validate r limit = Ok tt) :
  result_facts limit (DecodedUtf8Result.selected_sources r) (DecodedUtf8Result.scanned_sources r)
    (DecodedUtf8Result.gap_sources r) (DecodedUtf8Result.matches r) (DecodedUtf8Result.items r)
    (DecodedUtf8Result.scan_complete r) (DecodedUtf8Result.complete_negative r) (DecodedUtf8Result.stop r).
Proof. by apply decoded_result_facts. Qed.

(** ** Witnesses *)

Definition uuid_a : list Z := str "00000000-0000-0000-0000-00000000000a".
Definition uuid_b : list Z := str "00000000-0000-0000-0000-00000000000b".
Definition digest_a : list Z := replicate 64 97.
Definition input_a : ObjectRefDto.t :=
  {| ObjectRefDto.version := 1; ObjectRefDto.kind := Source; ObjectRefDto.digest := digest_a; ObjectRefDto.bytes := 100 |}.
Definition prepared_a : ObjectRefDto.t :=
  {| ObjectRefDto.version := 1; ObjectRefDto.kind := Prepared; ObjectRefDto.digest := digest_a; ObjectRefDto.bytes := 300 |}.
Definition source_a : RawSourceRef.t :=
  {| RawSourceRef.source_namespace_id := uuid_b; RawSourceRef.source_id := uuid_a;
     RawSourceRef.row_revision := 1; RawSourceRef.registration_revision := 1; RawSourceRef.input := input_a |}.
Definition match_at (start : Z) : RawExactItem.t :=
  RawExactItem.Match {| RawExactMatch.source := source_a; RawExactMatch.start := start;
    RawExactMatch.stop := start + 2; RawExactMatch.bytes_hex := str "6161" |}.
Definition raw_result_a : RawExactResult.t :=
  {| RawExactResult.generation := 1; RawExactResult.selected_sources := 1;
     RawExactResult.scanned_sources := 1; RawExactResult.missing_sources := 0;
     RawExactResult.scanned_bytes := 100; RawExactResult.matches := 3;
     RawExactResult.items := [match_at 4; match_at 5]; RawExactResult.scan_complete := true;
     RawExactResult.complete_negative := false; RawExactResult.stop := OutputLimit |}.

Lemma raw_result_accounts_witness :
  result_facts 2 1 1 0 3 [match_at 4; match_at 5] true false OutputLimit.
Proof.
  apply (raw_result_accounts raw_result_a 2). vm_compute. reflexivity.
Defined.

Definition decoded_at (start : Z) : DecodedUtf8Item.t :=
  DecodedUtf8Item.Match {| DecodedUtf8Match.source := source_a; DecodedUtf8Match.prepared := prepared_a;
    DecodedUtf8Match.representation_start := start; DecodedUtf8Match.representation_end := start + 2;
    DecodedUtf8Match.source_start := start; DecodedUtf8Match.source_end := start + 2;
    DecodedUtf8Match.text := str "aa" |}.
Definition decoded_result_a : DecodedUtf8Result.t :=
  {| DecodedUtf8Result.generation := 1; DecodedUtf8Result.selected_sources := 2;
     DecodedUtf8Result.scanned_sources := 1; DecodedUtf8Result.gap_sources := 1;
     DecodedUtf8Result.scanned_bytes := 100; DecodedUtf8Result.matches := 3;
     DecodedUtf8Result.items := [decoded_at 4; decoded_at 5]; DecodedUtf8Result.scan_complete := false;
     DecodedUtf8Result.complete_negative := false; DecodedUtf8Result.stop := OutputLimit |}.

Lemma decoded_result_accounts_witness :
  result_facts 2 2 1 1 3 [decoded_at 4; decoded_at 5] false false OutputLimit.
Proof.
  apply (decoded_result_accounts decoded_result_a 2). vm_compute. reflexivity.
Defined.

(** ** Successive window pages *)

(** A found occurrence or an explicit gap of a literal query. *)
Definition is_found (i : WindowItem.t) : bool :=
  match i with
  | WindowItem.Raw (RawExactItem.Match _) | WindowItem.DecodedUtf8 (DecodedUtf8Item.Match _) => true
  | _ => false
  end.
Definition is_gap (i : WindowItem.t) : bool :=
  match i with
  | WindowItem.Raw (RawExactItem.Gap _) | WindowItem.DecodedUtf8 (DecodedUtf8Item.Gap _) => true
  | _ => false
  end.
Definition count_items_of (p : WindowItem.t -> bool) (entries : list WindowEntry.t) : Z :=
  len (filter (fun e => p (WindowEntry.item e) = true) entries).
Definition point_of (e : WindowEntry.t) : option (list Z) :=
  match WindowEntry.item e with
  | WindowItem.Search item => Some (EvidenceMetadata.point_id (SearchItem.evidence item))
  | _ => None
  end.
Definition in_order (a b : WindowItem.t) : Prop := window_order a b = true.

Lemma count_items_nil p : count_items_of p [] = 0.
Proof. done. Qed.

Lemma count_items_cons p e l :
  count_items_of p (e :: l) = (if p (WindowEntry.item e) then 1 else 0) + count_items_of p l.
Proof.
  unfold count_items_of. rewrite filter_cons. destruct (p (WindowEntry.item e)).
  - by rewrite decide_True, len_cons by done.
  - by rewrite decide_False by done.
Qed.

Lemma window_order_ok a b : validate_window_order a b = Ok tt -> in_order a b.
Proof. unfold validate_window_order, in_order. by destruct (window_order a b). Qed.

(** The search points of [prior] followed by [entries] are distinct if those of
    [prior] are. *)
Lemma request_loop_ok query generation entries : forall f g prior previous f' g',
  WindowPage.request_loop query generation f g prior previous entries = Ok (f', g') ->
  Forall (fun e => WindowItem.validate_request (WindowEntry.item e) query generation = Ok tt) entries /\
  Sorted in_order (option_list previous ++ map WindowEntry.item entries) /\
  f' = f + count_items_of is_found entries /\ g' = g + count_items_of is_gap entries /\
  (NoDup (omap point_of prior) -> NoDup (omap point_of (prior ++ entries))).
Proof.
  induction entries as [|e entries IH]; intros f g prior previous f' g' Hl; cbn [WindowPage.request_loop] in Hl.
  - apply ok_inj in Hl. injection Hl as <- <-. cbn [map]. rewrite !app_nil_r.
    rewrite !count_items_nil, !Z.add_0_r. split_and!; try done.
    destruct previous; cbn; by repeat constructor.
  - apply bind_ok_inv in Hl as ([] & Hv & Hl). apply bind_ok_inv in Hl as ([f1 g1] & Hc & Hl).
    apply bind_ok_inv in Hl as ([] & Hord & Hl). cbn [fst snd] in Hl.
    destruct (IH _ _ _ _ _ _ Hl) as (Hall & Hsort & -> & -> & Hnd).
    assert (f1 = f + (if is_found (WindowEntry.item e) then 1 else 0) /\
            g1 = g + (if is_gap (WindowEntry.item e) then 1 else 0) /\
            (NoDup (omap point_of prior) -> NoDup (omap point_of (prior ++ [e])))) as (-> & -> & Hnd1).
    { unfold is_found, is_gap. rewrite omap_app. cbn [omap list_omap]. unfold point_of at 3.
      destruct (WindowEntry.item e) as [item|[]|[]];
        [|apply ok_inj in Hc; injection Hc as <- <-; rewrite app_nil_r; split_and!; done || lia..].
      apply bind_ok_inv in Hc as ([] & Hdup%invalid_if_ok & Hc). apply ok_inj in Hc. injection Hc as <- <-.
      split_and!; try lia. intros Hnd0. apply NoDup_app. split; [done|]. split; [|apply NoDup_singleton].
      intros x Hx Hin. apply list_elem_of_singleton in Hin as ->.
      apply list_elem_of_omap in Hx as (p & Hp & Hpt). revert Hdup. apply not_false_iff_true.
      apply existsb_exists. exists p. split; [by apply list_elem_of_In|]. unfold point_of in Hpt.
      destruct (WindowEntry.item p); [|done..]. injection Hpt as ->. by apply bool_decide_eq_true_2. }
    rewrite !count_items_cons. split_and!; try lia; [by constructor| |].
    + cbn [map]. cbn [option_list app] in Hsort. destruct previous as [p|]; [|done].
      constructor; [done|]. constructor. by apply window_order_ok.
    + intros Hnd0. rewrite (cons_middle e prior entries), (assoc_L (++)). auto.
Qed.

Lemma entries_loop_ok page entries : forall index,
  WindowPage.entries_loop page index entries = Ok tt ->
  forall i e, entries !! i = Some e ->
    WindowEntry.item_index e = WindowPage.start_index page + index + Z.of_nat i /\
    match WindowEntry.item e with
    | WindowItem.Search item => SearchItem.rank item = WindowEntry.item_index e + 1
    | _ => True
    end.
Proof.
  induction entries as [|e entries IH]; intros index Hl i x Hx; [by rewrite lookup_nil in Hx|].
  cbn [WindowPage.entries_loop] in Hl.
  apply bind_ok_inv in Hl as ([] & Hi%invalid_if_ok & Hl). apply bind_ok_inv in Hl as ([] & _ & Hl).
  apply bind_ok_inv in Hl as ([] & _ & Hl). apply bind_ok_inv in Hl as ([] & Hr & Hl). to_prop.
  destruct i as [|i].
  - injection Hx as <-. split; [lia|]. destruct (WindowEntry.item e); [|done..].
    apply invalid_if_ok in Hr. by to_prop.
  - destruct (IH _ Hl i x Hx) as [-> ?]. split; [lia|done].
Qed.

(** C5. A page accepted after the entries already emitted extends them to a prefix of
    the one retained result: its entries carry the next indexes without gap or
    repetition, every item of the whole prefix belongs to the original query, the
    prefix stays in order with distinct search points, [has_more] is true exactly when
    retained items remain, and [Complete] exactly when the page is as long as
    requested or exhausts them.  When the last page of a complete literal result
    arrives, the occurrences shown over all pages are the total the summary claimed and
    the scan is complete exactly if no gap was shown. *)
Theorem window_page_extends page query emitted page_size
    (Hvalid : WindowPage.validate_request page query emitted page_size = Ok tt) :
  let all := emitted ++ WindowPage.items page in
  let s := WindowPage.summary page in
  WindowPage.start_index page = len emitted /\ WindowPage.next_index page = len all /\
  len all <= WindowSummary.retained_items s <= WindowQuery.limit query /\
  (WindowPage.has_more page = true <-> len all < WindowSummary.retained_items s) /\
  (WindowPage.page_stop page = Complete <->
     len (WindowPage.items page) = Z.min page_size (WindowSummary.retained_items s - len emitted)) /\
  (forall i e, WindowPage.items page !! i = Some e ->
     WindowEntry.item_index e = len emitted + Z.of_nat i) /\
  Forall (fun e => WindowItem.validate_request (WindowEntry.item e) query (WindowSummary.generation s) = Ok tt) all /\
  Sorted in_order (map WindowEntry.item all) /\ NoDup (omap point_of all) /\
  forall total, WindowSummary.found_matches s = Some total ->
    count_items_of is_found all <= total /\
    (WindowPage.has_more page = false -> WindowSummary.result_stop s = Complete ->
       count_items_of is_found all = total /\
       WindowSummary.scan_complete s = Some (count_items_of is_gap all =? 0)).
Proof.
  cbn zeta. unfold WindowPage.validate_request in Hvalid.
  apply bind_ok_inv in Hvalid as ([] & Hpage & Hvalid). apply bind_ok_inv in Hvalid as ([] & _ & Hvalid).
  apply bind_ok_inv in Hvalid as ([] & _ & Hvalid). apply bind_ok_inv in Hvalid as ([] & Hg%invalid_if_ok & Hvalid).
  apply bind_ok_inv in Hvalid as ([found gaps] & Hloop & Htotal).
  unfold WindowPage.validate in Hpage. apply bind_ok_inv in Hpage as ([] & _ & Hpage).
  apply bind_ok_inv in Hpage as ([] & Hp%invalid_if_ok & Hentries).
  repeat (apply orb_false_iff in Hg as [Hg ?]). repeat (apply orb_false_iff in Hp as [Hp ?]).
  rewrite ?eqb_false_negb in *. to_prop.
  destruct (request_loop_ok _ _ _ _ _ _ _ _ _ Hloop) as (Hall & Hsort & -> & -> & Hnd).
  pose proof (len_nonneg emitted). rewrite len_app. unfold saturating_sub in *.
  assert (WindowPage.has_more page = true <->
    len emitted + len (WindowPage.items page) < WindowSummary.retained_items (WindowPage.summary page)) as Hmore.
  { match goal with E : WindowPage.has_more page = _ |- _ => rewrite E end. rewrite Z.ltb_lt. lia. }
  split; [lia|]. split; [lia|]. split; [lia|]. split; [exact Hmore|]. split.
  { unfold is_complete in *.
    match goal with E : bool_decide (WindowPage.page_stop page = Complete) = _ |- _ => rename E into Hstop end.
    destruct (decide (WindowPage.page_stop page = Complete)) as [Hc|Hc].
    - rewrite bool_decide_true in Hstop by done. symmetry in Hstop. to_prop. split; [lia|done].
    - rewrite bool_decide_false in Hstop by done. symmetry in Hstop. to_prop. split; [done|lia]. }
  split. { intros i e He. destruct (entries_loop_ok _ _ _ Hentries i e He) as [-> _]. lia. }
  split; [done|]. split; [done|]. split; [apply Hnd; constructor|].
  intros total Ht. rewrite Ht in Htotal. apply invalid_if_ok in Htotal.
    repeat (apply orb_false_iff in Htotal as [Htotal ?]). to_prop. split; [lia|].
    intros Hm Hs. match goal with E : (_ && _) && _ = false |- _ => revert E end.
    assert (WindowPage.next_index page = WindowSummary.retained_items (WindowPage.summary page)) as ->.
    { destruct (decide (len emitted + len (WindowPage.items page)
        < WindowSummary.retained_items (WindowPage.summary page))) as [E|]; [|lia].
      apply Hmore in E. congruence. }
    rewrite Z.eqb_refl, Hs. change (is_complete Complete) with true. cbn [andb].
    rewrite orb_false_iff, !negb_false_iff, Z.eqb_eq, bool_decide_eq_true, !Z.add_0_l. done.
Qed.

Definition raw_query_a : WindowQuery.t := WindowQuery.Raw
  {| RawExactRequest.literal := str "aa"; RawExactRequest.source_ids := None; RawExactRequest.limit := 4 |}.
Definition page_a : WindowPage.t :=
  {| WindowPage.window_id := 1;
     WindowPage.summary := {| WindowSummary.generation := 1; WindowSummary.retained_items := 2;
       WindowSummary.found_matches := Some 2; WindowSummary.scan_complete := Some true;
       WindowSummary.complete_negative := Some false; WindowSummary.result_stop := Complete |};
     WindowPage.start_index := 1; WindowPage.next_index := 2;
     WindowPage.items := [{| WindowEntry.item_index := 1; WindowEntry.item := WindowItem.Raw (match_at 5) |}];
     WindowPage.has_more := false; WindowPage.page_stop := Complete |}.

Lemma window_page_extends_witness :
  count_items_of is_found [{| WindowEntry.item_index := 0; WindowEntry.item := WindowItem.Raw (match_at 4) |};
    {| WindowEntry.item_index := 1; WindowEntry.item := WindowItem.Raw (match_at 5) |}] = 2.
Proof.
  pose proof (window_page_extends page_a raw_query_a
    [{| WindowEntry.item_index := 0; WindowEntry.item := WindowItem.Raw (match_at 4) |}] 16
    ltac:(vm_compute; reflexivity)) as H. cbn zeta in H.
  destruct H as (_ & _ & _ & _ & _ & _ & _ & _ & _ & H).
  exact (proj1 (proj2 (H 2 eq_refl) eq_refl eq_refl)).
Defined.

(** ** Expansions *)

(** An expansion accepted for an emitted item is the requested neighbourhood of
    that item in its own representation: it starts [before_bytes] before the original
    range (or at zero), ends [after_bytes] behind it (or at the end of the source
    object), is at most 65536 bytes long, names the same source, object and prepared
    artifact, and contains the original text (or the original hexadecimal bytes) at the
    original's own offset. *)
Theorem expansion_contains_original e original rid remaining window index before_bytes after_bytes o
    (Horigin : WindowExpansion.original_of original = Some o)
    (Hvalid : WindowExpansion.validate_request e
       (SessionClientFrame.Expand rid remaining window index before_bytes after_bytes) original = Ok tt) :
  WindowExpansion.representation_start e = Z.max 0 (WindowExpansion.o_start o - before_bytes) /\
  WindowExpansion.representation_end e
    = Z.min (WindowExpansion.o_end o + after_bytes) (ObjectRefDto.bytes (WindowExpansion.o_input o)) /\
  0 < WindowExpansion.representation_end e - WindowExpansion.representation_start e <= 65536 /\
  WindowExpansion.window_id e = window /\ WindowExpansion.item_index e = index /\
  RawSourceRef.source_namespace_id (WindowExpansion.source e) = WindowExpansion.o_namespace o /\
  RawSourceRef.source_id (WindowExpansion.source e) = WindowExpansion.o_id o /\
  RawSourceRef.input (WindowExpansion.source e) = WindowExpansion.o_input o /\
  WindowExpansion.prepared e = WindowExpansion.o_prepared o /\
  let from := WindowExpansion.o_start o - WindowExpansion.representation_start e in
  let to := WindowExpansion.o_end o - WindowExpansion.representation_start e in
  match WindowExpansion.content e with
  | ExpansionContent.Utf8 text =>
      len text = WindowExpansion.representation_end e - WindowExpansion.representation_start e /\
      exists t, WindowExpansion.o_text o = Some t /\ slice text from to = Some t
  | ExpansionContent.Raw hex =>
      len hex = 2 * (WindowExpansion.representation_end e - WindowExpansion.representation_start e) /\
      exists h, WindowExpansion.o_hex o = Some h /\ slice hex (from * 2) (to * 2) = Some h
  end.
Proof.
  unfold WindowExpansion.validate_request in Hvalid.
  apply bind_ok_inv in Hvalid as ([] & Hself & Hvalid). rewrite Horigin in Hvalid. cbn [ok_or] in Hvalid.
  apply bind_ok_inv in Hvalid as (? & [= <-] & Hvalid).
  apply bind_ok_inv in Hvalid as (sum & Hsum%ok_or_inv%checked_add_inv & Hvalid). destruct Hsum as [-> _].
  apply bind_ok_inv in Hvalid as ([] & Hg%invalid_if_ok & Hvalid).
  apply bind_ok_inv in Hvalid as (from & Hfrom%ok_or_inv%try_from_inv & Hvalid). destruct Hfrom as [-> _].
  apply bind_ok_inv in Hvalid as (to & Hto%ok_or_inv%try_from_inv & Hvalid). destruct Hto as [-> _].
  unfold WindowExpansion.validate in Hself.
  apply bind_ok_inv in Hself as ([] & _ & Hself). apply bind_ok_inv in Hself as ([] & _ & Hself).
  apply bind_ok_inv in Hself as (n & Hn%ok_or_inv%option_keep_inv & Hself).
  destruct Hn as [Hn%checked_sub_inv Hrange]. destruct Hn as [-> Hle].
  apply bind_ok_inv in Hself as ([] & _ & Hcontent).
  repeat (apply orb_false_iff in Hg as [Hg ?]). to_prop. unfold saturating_sub, MAX_EXPANSION_BYTES in *.
  split; [done|]. split; [done|]. split; [lia|]. split; [done|]. split; [done|]. split; [done|].
  split; [done|]. split; [done|]. split; [done|]. cbn zeta.
  assert (forall v s e x, str_get v s e = Some x -> slice v s e = Some x) as Hstr.
  { intros v s e' x. unfold str_get. by destruct (_ && _). }
  replace (WindowExpansion.representation_start e) with (0 `max` (WindowExpansion.o_start o - before_bytes)).
  destruct (WindowExpansion.content e) as [hex|text], (WindowExpansion.o_text o) as [t|],
    (WindowExpansion.o_hex o) as [h|]; try done; apply invalid_if_ok in Hvalid; to_prop.
  - destruct (WindowExpansion.prepared e); [done|].
    apply bind_ok_inv in Hcontent as (d & Hd%ok_or_inv%try_from_inv & Hcontent%invalid_if_ok).
    destruct Hd as [-> _]. unfold lower_hex in Hcontent. to_prop. split; [lia|]. eauto.
  - destruct (WindowExpansion.prepared e); [|done].
    apply bind_ok_inv in Hcontent as ([] & _ & Hcontent%invalid_if_ok). to_prop.
    apply try_from_inv in Hcontent as [Hc _]. split; [lia|]. eauto.
Qed.

Definition expansion_a : WindowExpansion.t :=
  {| WindowExpansion.window_id := 1; WindowExpansion.item_index := 0; WindowExpansion.source := source_a;
     WindowExpansion.prepared := None; WindowExpansion.representation_start := 2;
     WindowExpansion.representation_end := 7; WindowExpansion.source_start := 2;
     WindowExpansion.source_end := 7; WindowExpansion.content := ExpansionContent.Raw (str "7878616179") |}.

Lemma expansion_contains_original_witness :
  WindowExpansion.validate_request
    {| WindowExpansion.window_id := 1; WindowExpansion.item_index := 0; WindowExpansion.source := source_a;
       WindowExpansion.prepared := None; WindowExpansion.representation_start := 2;
       WindowExpansion.representation_end := 7; WindowExpansion.source_start := 2;
       WindowExpansion.source_end := 7; WindowExpansion.content := ExpansionContent.Raw (str "7878616179") |}
    (SessionClientFrame.Expand 2 50 1 0 2 1) (WindowItem.Raw (match_at 4)) = Ok tt /\
  WindowExpansion.representation_start expansion_a = 2.
Proof.
  assert (WindowExpansion.validate_request expansion_a (SessionClientFrame.Expand 2 50 1 0 2 1)
    (WindowItem.Raw (match_at 4)) = Ok tt) as Hv by (vm_compute; reflexivity).
  split; [exact Hv|].
  exact (proj1 (expansion_contains_original expansion_a (WindowItem.Raw (match_at 4)) 2 50 1 0 2 1 _ eq_refl Hv)).
Defined.

(** ** Bounded item sequences *)

Lemma visit_seq_ok {T} (seq : list (Items.element T)) : forall items w out,
  len items <= MAX_ITEMS -> run (Items.visit_seq items seq) w = Ok out ->
  exists more, seq = map Items.Item more /\ out = items ++ more /\ len out <= MAX_ITEMS.
Proof.
  induction seq as [|next seq IH]; intros items w out Hl Hr; cbn [Items.visit_seq] in Hr.
  - apply ok_inj in Hr as <-. exists []. by rewrite app_nil_r.
  - destruct (len items <? MAX_ITEMS) eqn:Hlt; to_prop; [|by destruct next].
    destruct next as [item| |]; [|done..]. unfold run, mbind, M_bind in Hr. cbn in Hr.
    destruct (reserve_with Items.AllocationFailed w) as [[[]|] w'] eqn:Hres; [|done].
    destruct (IH (items ++ [item]) w' out) as (more & -> & -> & Hle); [|done|].
    + rewrite len_app, len_cons, len_nil. lia.
    + exists (item :: more). split_and!; [done|by rewrite <- (assoc_L (++))|done].
Qed.

Lemma visit_seq_all {T} (xs : list T) : forall items,
  len items + len xs <= MAX_ITEMS -> run (Items.visit_seq items (map Items.Item xs)) [] = Ok (items ++ xs).
Proof.
  induction xs as [|x xs IH]; intros items Hl; cbn [Items.visit_seq map].
  - by rewrite app_nil_r.
  - rewrite len_cons in Hl. pose proof (len_nonneg xs). is_true (len items <? MAX_ITEMS).
    change (run _ []) with (run (Items.visit_seq (items ++ [x]) (map Items.Item xs)) []).
    rewrite IH; [by rewrite <- (assoc_L (++))|]. rewrite len_app, len_cons, len_nil. lia.
Qed.

(** The sequence visitor returns a list exactly when the input is a sequence of at
    most 64 items, and then it is that list: a sixty-fifth element, or one that is not
    an item, is refused, whatever the allocator does. *)
Theorem visit_seq_bounded {T} (seq : list (Items.element T)) xs :
  (exists w, run (Items.visit_seq [] seq) w = Ok xs) <-> seq = map Items.Item xs /\ len xs <= MAX_ITEMS.
Proof.
  split.
  - intros [w Hr]. destruct (visit_seq_ok seq [] w xs ltac:(by vm_compute) Hr) as (more & -> & -> & Hl). done.
  - intros [-> Hl]. exists []. apply (visit_seq_all xs []). done.
Qed.
