(* ===== verification/Frame.v ===== *)
(** Framing of the crate [search-provider-protocol]: the incremental single-frame
    buffer, the bounded encoder and decoder and the choice of the largest whole rank
    prefix (crates/search-provider-protocol/src/frame.rs).  JSON (serde) is a parameter:
    a serializer gives the chunks it writes, a parser accepts a body or not. *)

From S2P Require Import Prelude Bytes Ids Dto DtoSession.

Definition FRAME_PREFIX_BYTES : Z := 4.
Definition MAX_BODY_BYTES : Z := MAX_FRAME_BYTES - FRAME_PREFIX_BYTES.
Definition MAX_CLIENT_FRAME_BYTES : Z := 6 * MAX_QUERY_BYTES + 4096.

(** [dst\[at..at + xs.len()\].copy_from_slice(xs)] *)
Definition overwrite (dst : list Z) (at_index : Z) (xs : list Z) : list Z :=
  take (Z.to_nat at_index) dst ++ xs ++ drop (Z.to_nat (at_index + len xs)) dst.
(** [v.resize(n, 0)] *)
Definition resize (v : list Z) (n : Z) : list Z :=
  take (Z.to_nat n) v ++ replicate (Z.to_nat (n - len v)) 0.

Record FrameBuffer := {
  prefix : list Z; prefix_used : Z; buffer : list Z; used : Z; maximum : Z }.

Definition new (maximum : Z) : result ProtocolError FrameBuffer :=
  if (FRAME_PREFIX_BYTES + 1 <=? maximum) && (maximum <=? MAX_FRAME_BYTES) then
    Ok {| prefix := [0; 0; 0; 0]; prefix_used := 0; buffer := []; used := 0; maximum := maximum |}
  else Err FrameTooLarge.

(** The end of [push]: copy what still belongs to the frame. *)
Definition push_body (self : FrameBuffer) (input : list Z) (consumed : Z)
    : result ProtocolError Z * FrameBuffer :=
  let count := Z.min (len (buffer self) - used self) (len input - consumed) in
  let part := take (Z.to_nat count) (drop (Z.to_nat consumed) input) in
  (Ok (consumed + count),
   {| prefix := prefix self; prefix_used := prefix_used self;
      buffer := overwrite (buffer self) (used self) part; used := used self + count;
      maximum := maximum self |}).

(** [push]; [granted] is the allocator's answer to the one [try_reserve_exact]. *)
Definition push (granted : bool) (self : FrameBuffer) (input : list Z)
    : result ProtocolError Z * FrameBuffer :=
  if prefix_used self <? FRAME_PREFIX_BYTES then
    let count := Z.min (FRAME_PREFIX_BYTES - prefix_used self) (len input) in
    let self := {| prefix := overwrite (prefix self) (prefix_used self) (take (Z.to_nat count) input);
                   prefix_used := prefix_used self + count; buffer := buffer self; used := used self;
                   maximum := maximum self |} in
    if negb (prefix_used self =? FRAME_PREFIX_BYTES) then (Ok count, self)
    else
      match try_from USIZE_MAX (le_value (prefix self)) with
      | None => (Err FrameTooLarge, self)
      | Some body =>
          match checked_add USIZE_MAX body FRAME_PREFIX_BYTES with
          | None => (Err FrameTooLarge, self)
          | Some total =>
              if body =? 0 then (Err InvalidFrame, self)
              else if maximum self <? total then (Err FrameTooLarge, self)
              else if negb granted then (Err ResourceExhausted, self)
              else
                push_body
                  {| prefix := prefix self; prefix_used := prefix_used self;
                     buffer := overwrite (resize (buffer self) total) 0 (prefix self);
                     used := FRAME_PREFIX_BYTES; maximum := maximum self |} input count
          end
      end
  else push_body self input 0.

Definition is_empty (self : FrameBuffer) : bool := prefix_used self =? 0.
Definition is_complete_frame (self : FrameBuffer) : bool :=
  negb (len (buffer self) =? 0) && (used self =? len (buffer self)).
Definition frame (self : FrameBuffer) : option (list Z) :=
  if is_complete_frame self then Some (buffer self) else None.

(** A sequence of pushes, as a caller that keeps the buffer across polls makes them. *)
Fixpoint feed (self : FrameBuffer) (consumed : Z) (fragments : list (list Z))
    : result ProtocolError (Z * FrameBuffer) :=
  match fragments with
  | [] => Ok (consumed, self)
  | fragment :: rest =>
      match push true self fragment with
      | (Ok count, self) => feed self (consumed + count) rest
      | (Err e, _) => Err e
      end
  end.

(** ** The bounded writers *)

Record CappedWriter := { w_bytes : list Z; w_maximum : Z; w_failure : option ProtocolError }.

(** [CappedWriter::write]: whether it succeeded, and the writer afterwards. *)
Definition capped_write (w : CappedWriter) (input : list Z) (e : env) : (bool * CappedWriter) * env :=
  if w_maximum w - len (w_bytes w) <? len input then
    ((false, {| w_bytes := w_bytes w; w_maximum := w_maximum w; w_failure := Some FrameTooLarge |}), e)
  else match observe e with
  | (NoMemory, e') =>
      ((false, {| w_bytes := w_bytes w; w_maximum := w_maximum w; w_failure := Some ResourceExhausted |}), e')
  | (_, e') =>
      ((true, {| w_bytes := w_bytes w ++ input; w_maximum := w_maximum w; w_failure := w_failure w |}), e')
  end.

(** [serde_json::to_writer] writes its chunks in order until a write fails. *)
Fixpoint capped_write_all (w : CappedWriter) (cs : list (list Z)) (e : env)
    : (bool * CappedWriter) * env :=
  match cs with
  | [] => ((true, w), e)
  | c :: cs =>
      match capped_write w c e with
      | ((true, w'), e') => capped_write_all w' cs e'
      | failed => failed
      end
  end.

Record CountWriter := { c_length : Z; c_exceeded : bool }.
Definition count_write (w : CountWriter) (bytes : list Z) : bool * CountWriter :=
  if MAX_BODY_BYTES - c_length w <? len bytes then (false, {| c_length := c_length w; c_exceeded := true |})
  else (true, {| c_length := c_length w + len bytes; c_exceeded := c_exceeded w |}).
Fixpoint count_write_all (w : CountWriter) (cs : list (list Z)) : bool * CountWriter :=
  match cs with
  | [] => (true, w)
  | c :: cs =>
      match count_write w c with
      | (true, w') => count_write_all w' cs
      | failed => failed
      end
  end.

(** What a serializer does with a value: the chunks it writes, and whether it then
    succeeds. *)
Record written := { chunks_of : list (list Z); serialized : bool }.
Definition json_bytes (s : written) : list Z := concat (chunks_of s).

(** The [to_writer] call of [encode] and its error branch. *)
Definition write_json (value : written) (maximum : Z) : M ProtocolError (list Z) := fun e =>
  let '((ok, output), e') := capped_write_all
     {| w_bytes := [0; 0; 0; 0]; w_maximum := maximum; w_failure := None |} (chunks_of value) e in
  if ok && serialized value then (Ok (w_bytes output), e')
  else (Err (match w_failure output with Some failure => failure | None => Serialization end), e').

(** [encode] *)
Definition encode (value : written) (maximum : Z) : M ProtocolError (list Z) :=
  _ ← reserve_with ResourceExhausted;
  bytes ← write_json value maximum;
  body ← lift (ok_or FrameTooLarge (try_from U32_MAX (len bytes - FRAME_PREFIX_BYTES)));
  mret (overwrite bytes 0 (le_bytes 4 body)).

(** [fits] *)
Definition fits (value : written) : result ProtocolError bool :=
  let '(ok, output) := count_write_all {| c_length := 0; c_exceeded := false |} (chunks_of value) in
  if ok && serialized value then Ok true
  else if c_exceeded output then Ok false
  else Err Serialization.

(** [decode], with the JSON parser of the expected type. *)
Definition decode {T} (from_slice : list Z -> option T) (frame : list Z) (maximum : Z)
    : result ProtocolError T :=
  _ ← reject_if (maximum <? len frame) FrameTooLarge;
  prefix ← ok_or InvalidFrame (slice frame 0 FRAME_PREFIX_BYTES);
  body ← ok_or FrameTooLarge (try_from USIZE_MAX (le_value prefix));
  _ ← reject_if ((body =? 0) || negb (bool_decide (checked_add USIZE_MAX body FRAME_PREFIX_BYTES
                                                     = Some (len frame)))) InvalidFrame;
  ok_or InvalidMessage (from_slice (drop (Z.to_nat FRAME_PREFIX_BYTES) frame)).

(** ** The typed encoders and decoders *)

(** Serde's derived JSON codec of a wire type. *)
Class Json (T : Type) := { to_writer : T -> written; from_slice : list Z -> option T }.

Definition encode_client_frame `{Json ClientFrame.t} (message : ClientFrame.t) : M ProtocolError (list Z) :=
  _ ← lift (ClientFrame.validate message);
  encode (to_writer message) MAX_CLIENT_FRAME_BYTES.
Definition decode_client_frame `{Json ClientFrame.t} (frame : list Z) : result ProtocolError ClientFrame.t :=
  message ← decode from_slice frame MAX_CLIENT_FRAME_BYTES;
  _ ← ClientFrame.validate message;
  Ok message.

Definition encode_session_frame `{Json SessionClientFrame.t} (message : SessionClientFrame.t)
    : M ProtocolError (list Z) :=
  _ ← lift (SessionClientFrame.validate message);
  encode (to_writer message) MAX_CLIENT_FRAME_BYTES.
Definition decode_session_frame `{Json SessionClientFrame.t} (frame : list Z)
    : result ProtocolError SessionClientFrame.t :=
  message ← decode from_slice frame MAX_CLIENT_FRAME_BYTES;
  _ ← SessionClientFrame.validate message;
  Ok message.

Definition encode_session_reply `{Json SessionReply.t} (reply : SessionReply.t) : M ProtocolError (list Z) :=
  _ ← lift (SessionReply.validate reply);
  encode (to_writer reply) MAX_FRAME_BYTES.
Definition decode_session_reply `{Json SessionReply.t} (frame : list Z) : result ProtocolError SessionReply.t :=
  reply ← decode from_slice frame MAX_FRAME_BYTES;
  _ ← SessionReply.validate reply;
  Ok reply.

Definition encode_terminal_frame `{Json Terminal.t} (terminal : Terminal.t) : M ProtocolError (list Z) :=
  limit ← lift (ok_or InvalidMessage (try_from U8_MAX MAX_ITEMS));
  _ ← lift (Terminal.validate terminal limit);
  encode (to_writer terminal) MAX_FRAME_BYTES.
Definition decode_terminal_frame `{Json Terminal.t} (frame : list Z) (requested_limit : Z)
    : result ProtocolError Terminal.t :=
  terminal ← decode from_slice frame MAX_FRAME_BYTES;
  _ ← Terminal.validate terminal requested_limit;
  Ok terminal.

Definition prepare_raw_exact `{Json Terminal.t} (request_id : Z) (result : RawExactResult.t)
    : M ProtocolError (list Z) :=
  encode_terminal_frame {| Terminal.request_id := request_id; Terminal.outcome := QueryOutcome.RawExact result |}.
Definition prepare_decoded_utf8 `{Json Terminal.t} (request_id : Z) (result : DecodedUtf8Result.t)
    : M ProtocolError (list Z) :=
  encode_terminal_frame
    {| Terminal.request_id := request_id; Terminal.outcome := QueryOutcome.DecodedUtf8 result |}.

(** [CompleteWire] with its nested outcome, whose status is always ["complete"]. *)
Module CompleteWire.
Record t := { request_id : Z; generation : Z; items : list SearchItem.t; stop : StopReason }.
End CompleteWire.
Definition complete_wire (request_id generation : Z) (items : list SearchItem.t) : CompleteWire.t :=
  {| CompleteWire.request_id := request_id; CompleteWire.generation := generation;
     CompleteWire.items := items; CompleteWire.stop := OutputLimit |}.

(** The search for the longest fitting prefix; every turn halves [high - low]. *)
Fixpoint prefix_loop (fits_prefix : Z -> result ProtocolError bool) (fuel : nat) (low high : Z)
    : result ProtocolError Z :=
  if low <? high then
    match fuel with
    | O => Err Serialization
    | S fuel =>
        let middle := low + (high - low + 1) / 2 in
        fit ← fits_prefix middle;
        if fit : bool then prefix_loop fits_prefix fuel middle high
        else prefix_loop fits_prefix fuel low (middle - 1)
    end
  else Ok low.

Definition prepare_complete `{Json Terminal.t, Json CompleteWire.t}
    (request_id generation : Z) (items : list SearchItem.t) : M ProtocolError (list Z) :=
  let terminal := {| Terminal.request_id := request_id;
                     Terminal.outcome := QueryOutcome.Complete generation items Complete |} in
  limit ← lift (ok_or InvalidMessage (try_from U8_MAX MAX_ITEMS));
  _ ← lift (Terminal.validate terminal limit);
  whole ← lift (fits (to_writer terminal));
  if whole : bool then encode (to_writer terminal) MAX_FRAME_BYTES
  else
    let wire n := to_writer (complete_wire request_id generation (take (Z.to_nat n) items)) in
    low ← lift (prefix_loop (fun n => fits (wire n)) (length items) 0 (len items));
    encode (wire low) MAX_FRAME_BYTES.

(** ** The buffer after a stream, however it was cut *)

Definition declared (s : list Z) : Z := le_value (take 4 s).
Definition frame_total (s : list Z) : Z := declared s + 4.

(** What the first four bytes of the stream already decide. *)
Definition header_error (maximum : Z) (s : list Z) : option ProtocolError :=
  if len s <? 4 then None
  else if declared s =? 0 then Some InvalidFrame
  else if maximum <? frame_total s then Some FrameTooLarge
  else None.

(** How many bytes of [s] belong to the frame. *)
Definition taken (s : list Z) : Z := if len s <? 4 then len s else Z.min (len s) (frame_total s).

Definition zeros (n : Z) : list Z := replicate (Z.to_nat n) 0.

(** The buffer that has seen the stream [s]. *)
Definition received (maximum : Z) (s : list Z) : FrameBuffer :=
  if len s <? 4 then
    {| prefix := s ++ zeros (4 - len s); prefix_used := len s; buffer := []; used := 0; maximum := maximum |}
  else
    {| prefix := take 4 s; prefix_used := 4;
       buffer := take (Z.to_nat (taken s)) s ++ zeros (frame_total s - taken s); used := taken s;
       maximum := maximum |}.

Lemma overwrite_tail a z x at_index :
  at_index = len a -> overwrite (a ++ z) at_index x = a ++ x ++ drop (length x) z.
Proof.
  intros ->. unfold overwrite, len. rewrite take_app_length' by lia.
  do 2 f_equal. rewrite drop_app. rewrite drop_ge by lia. cbn. f_equal. lia.
Qed.

Lemma drop_zeros n m : (Z.of_nat n <= m)%Z -> drop n (zeros m) = zeros (m - Z.of_nat n).
Proof. intros. unfold zeros. rewrite drop_replicate. f_equal. lia. Qed.

Lemma len_take_z {A} (l : list A) n : 0 <= n <= len l -> len (take (Z.to_nat n) l) = n.
Proof. unfold len. rewrite length_take. lia. Qed.
Lemma len_drop_z {A} (l : list A) n : 0 <= n <= len l -> len (drop (Z.to_nat n) l) = len l - n.
Proof. unfold len. rewrite length_drop. lia. Qed.

Lemma take4_app (s f : list Z) : 4 <= len s -> take 4 (s ++ f) = take 4 s.
Proof. unfold len. intros. rewrite (take_app_le s f); [done|lia]. Qed.

Lemma take_split {A} (l : list A) a b :
  0 <= a -> 0 <= b -> take (Z.to_nat (a + b)) l = take (Z.to_nat a) l ++ take (Z.to_nat b) (drop (Z.to_nat a) l).
Proof.
  intros. rewrite Z2Nat.inj_add by lia. rewrite <- (take_drop (Z.to_nat a) l) at 1.
  rewrite take_app, take_take, length_take. f_equal; [f_equal; lia|].
  destruct (decide (Z.to_nat a <= length l)%nat).
  - f_equal. lia.
  - rewrite (drop_ge l) by lia. etransitivity; [apply take_nil|symmetry; apply take_nil].
Qed.

(** Copying the next bytes into a partly filled buffer. *)
Lemma push_body_fill maximum pre a rest total consumed input :
  len a <= total -> 0 <= consumed <= len input -> drop (Z.to_nat consumed) input = rest ->
  let count := Z.min (total - len a) (len rest) in
  push_body {| prefix := pre; prefix_used := 4; buffer := a ++ zeros (total - len a);
               used := len a; maximum := maximum |} input consumed
  = (Ok (consumed + count),
     {| prefix := pre; prefix_used := 4;
        buffer := (a ++ take (Z.to_nat count) rest) ++ zeros (total - (len a + count));
        used := len a + count; maximum := maximum |}).
Proof.
  intros Ha Hc <-. cbn zeta. rewrite len_drop_z by done. pose proof (len_nonneg a).
  unfold push_body. cbn [buffer used prefix prefix_used Frame.maximum].
  assert (len (a ++ zeros (total - len a)) = total) as ->.
  { rewrite len_app. unfold zeros. unfold len at 2. rewrite length_replicate. lia. }
  set (count := Z.min (total - len a) (len input - consumed)).
  rewrite overwrite_tail by done. do 2 f_equal.
  assert (length (take (Z.to_nat count) (drop (Z.to_nat consumed) input)) = Z.to_nat count) as ->.
  { rewrite length_take, length_drop. unfold len in *. lia. }
  rewrite drop_zeros by lia. rewrite (assoc_L (++)). do 2 f_equal. lia.
Qed.

Lemma declared_nonneg s : bytes_ok s -> 0 <= declared s.
Proof. intros Hs. unfold declared. apply le_value_bound. by apply Forall_take. Qed.

Lemma declared_small s : bytes_ok s -> declared s <= U32_MAX.
Proof.
  intros Hs. unfold declared. pose proof (le_value_bound (take 4 s) ltac:(by apply Forall_take)) as Hb.
  assert (256 ^ len (take 4 s) <= 256 ^ 4); [|width].
  apply Z.pow_le_mono_r; [lia|]. unfold len. rewrite length_take. lia.
Qed.

Lemma header_error_app maximum s f e :
  header_error maximum s = Some e -> header_error maximum (s ++ f) = Some e.
Proof.
  unfold header_error, frame_total, declared. rewrite len_app. pose proof (len_nonneg f).
  destruct (len s <? 4) eqn:E; [done|]. to_prop. is_false (len s + len f <? 4).
  by rewrite take4_app.
Qed.

Lemma header_none maximum s :
  header_error maximum s = None -> 4 <= len s -> bytes_ok s ->
  0 < declared s /\ frame_total s <= maximum.
Proof.
  unfold header_error. intros H Hl Hs. is_false (len s <? 4) in H. pose proof (declared_nonneg s Hs).
  destruct (declared s =? 0) eqn:E1; [done|]. destruct (maximum <? frame_total s) eqn:E2; [done|].
  to_prop. lia.
Qed.

Lemma taken_full s : 4 <= len s -> taken s = Z.min (len s) (frame_total s).
Proof. intros. unfold taken. by is_false (len s <? 4). Qed.

(** Three cases of one push: the header stays incomplete, it is completed, or it was
    complete before. *)
Lemma push_short maximum s f :
  len (s ++ f) < 4 -> push true (received maximum s) f = (Ok (len f), received maximum (s ++ f)).
Proof.
  rewrite len_app. intros Hl. pose proof (len_nonneg s). pose proof (len_nonneg f).
  unfold received. rewrite len_app. is_true (len s <? 4). is_true (len s + len f <? 4).
  unfold push. cbn [prefix_used prefix buffer used Frame.maximum]. unfold FRAME_PREFIX_BYTES.
  is_true (len s <? 4). rewrite Z.min_r by lia. rewrite take_ge by (unfold len; lia).
  is_false (len s + len f =? 4). cbn [negb]. do 2 f_equal.
  rewrite overwrite_tail by done. rewrite drop_zeros by (unfold len in *; lia).
  rewrite (assoc_L (++)). do 2 f_equal. unfold len. lia.
Qed.

Lemma push_header maximum s f :
  bytes_ok (s ++ f) -> maximum <= MAX_FRAME_BYTES -> len s < 4 -> 4 <= len (s ++ f) ->
  match header_error maximum (s ++ f) with
  | Some e => fst (push true (received maximum s) f) = Err e
  | None => push true (received maximum s) f = (Ok (taken (s ++ f) - len s), received maximum (s ++ f))
  end.
Proof.
  intros Hok Hmax Hs Hl. pose proof (len_nonneg s) as Hs0. pose proof Hl as Hl'. rewrite len_app in Hl.
  pose proof (declared_nonneg _ Hok) as Hd0. pose proof (declared_small _ Hok) as Hd1.
  set (need := 4 - len s).
  assert (overwrite (s ++ zeros need) (len s) (take (Z.to_nat need) f) = take 4 (s ++ f)) as Hprefix.
  { rewrite overwrite_tail by done. rewrite drop_zeros by (rewrite length_take; lia).
    assert (length (take (Z.to_nat need) f) = Z.to_nat need) as -> by (rewrite length_take; unfold need, len in *; lia).
    replace (need - Z.of_nat (Z.to_nat need)) with 0 by (unfold need; lia). cbn [zeros replicate Z.to_nat].
    rewrite app_nil_r, take_app, (take_ge s) by (unfold len in *; lia). f_equal. f_equal.
    unfold need, len. lia. }
  unfold received at 1 2. is_true (len s <? 4). unfold push. cbn [prefix_used prefix buffer used Frame.maximum].
  unfold FRAME_PREFIX_BYTES. is_true (len s <? 4). rewrite Z.min_l by lia. fold need. rewrite Hprefix.
  replace (len s + need) with 4 by (unfold need; lia). cbn [Z.eqb Pos.eqb negb].
  change (le_value (take 4 (s ++ f))) with (declared (s ++ f)).
  rewrite try_from_some by width. rewrite checked_add_some by width.
  change (declared (s ++ f) + 4) with (frame_total (s ++ f)). unfold header_error.
  is_false (len (s ++ f) <? 4). destruct (declared (s ++ f) =? 0) eqn:E1; [done|].
  destruct (maximum <? frame_total (s ++ f)) eqn:E2; [done|]. to_prop.
  assert (len (take 4 (s ++ f)) = 4) as Hp4 by (apply (len_take_z (s ++ f) 4); lia).
  assert (overwrite (resize [] (frame_total (s ++ f))) 0 (take 4 (s ++ f))
    = take 4 (s ++ f) ++ zeros (frame_total (s ++ f) - 4)) as ->.
  { unfold resize. rewrite take_nil, app_nil_l. fold (zeros (frame_total (s ++ f) - len (@nil Z))).
    rewrite len_nil, Z.sub_0_r. change (zeros (frame_total (s ++ f))) with ([] ++ zeros (frame_total (s ++ f))).
    rewrite overwrite_tail by done. rewrite app_nil_l. f_equal.
    assert (length (take 4 (s ++ f)) = 4%nat) as -> by (unfold len in Hp4; lia).
    apply drop_zeros. unfold frame_total. lia. }
  pose proof (push_body_fill maximum (take 4 (s ++ f)) (take 4 (s ++ f)) (drop (Z.to_nat need) f)
    (frame_total (s ++ f)) need f) as Hfill. rewrite Hp4 in Hfill. cbn zeta in Hfill.
  rewrite Hfill by (unfold frame_total, need in *; lia || done).
  rewrite len_drop_z by (unfold need; lia).
  assert (need + Z.min (frame_total (s ++ f) - 4) (len f - need) = taken (s ++ f) - len s) as Ht.
  { rewrite taken_full by done. rewrite len_app. unfold need. lia. }
  rewrite Ht. unfold received. is_false (len (s ++ f) <? 4). apply f_equal2; [done|].
  set (count := Z.min (frame_total (s ++ f) - 4) (len f - need)) in *.
  assert (taken (s ++ f) = 4 + count) as -> by (unfold need in *; lia). f_equal.
  f_equal. rewrite (take_split (s ++ f) 4 count) by (unfold count, frame_total, need in *; lia).
  change (Z.to_nat 4) with 4%nat. f_equal. f_equal.
  rewrite drop_app, (drop_ge s) by (unfold len in *; lia). cbn [app]. f_equal. unfold need, len. lia.
Qed.

Lemma push_rest maximum s f :
  bytes_ok (s ++ f) -> header_error maximum s = None -> 4 <= len s ->
  push true (received maximum s) f = (Ok (taken (s ++ f) - taken s), received maximum (s ++ f)).
Proof.
  intros Hok Hh Hs. pose proof (len_nonneg f).
  apply Forall_app in Hok as [Hoks _]. destruct (header_none _ _ Hh Hs Hoks) as [Hd _].
  assert (frame_total (s ++ f) = frame_total s) as Htot by (unfold frame_total, declared; by rewrite take4_app).
  assert (0 <= taken s <= len s /\ taken s <= frame_total s) as [Ht1 Ht2].
  { rewrite taken_full by done. unfold frame_total. lia. }
  unfold received. rewrite len_app. is_false (len s <? 4). is_false (len s + len f <? 4).
  unfold push. cbn [prefix_used]. unfold FRAME_PREFIX_BYTES. cbn [Z.ltb Z.compare Pos.compare Pos.compare_cont].
  pose proof (len_take_z s (taken s) Ht1) as Hlt.
  pose proof (push_body_fill maximum (take 4 s) (take (Z.to_nat (taken s)) s) f (frame_total s) 0 f) as Hfill.
  rewrite Hlt in Hfill. cbn zeta in Hfill. rewrite Hfill by (lia || done). rewrite Z.add_0_l.
  assert (taken (s ++ f) = taken s + Z.min (frame_total s - taken s) (len f)) as ->.
  { rewrite (taken_full (s ++ f)) by (rewrite len_app; lia). rewrite Htot, len_app, taken_full by done. lia. }
  set (count := Z.min (frame_total s - taken s) (len f)). rewrite take4_app, Htot by done.
  f_equal; [f_equal; lia|]. f_equal. f_equal.
  rewrite (take_split (s ++ f) (taken s) count) by (unfold count; lia). f_equal.
  - rewrite take_app_le; [done|]. unfold len in *. lia.
  - destruct (decide (taken s = len s)) as [E|E].
    + f_equal. rewrite E. unfold len. rewrite Nat2Z.id. by rewrite drop_app_length.
    + assert (count = 0) as -> by (unfold count; rewrite taken_full in * by done; lia).
      done.
Qed.

Lemma push_received maximum s f :
  bytes_ok (s ++ f) -> maximum <= MAX_FRAME_BYTES -> header_error maximum s = None ->
  match header_error maximum (s ++ f) with
  | Some e => fst (push true (received maximum s) f) = Err e
  | None => push true (received maximum s) f = (Ok (taken (s ++ f) - taken s), received maximum (s ++ f))
  end.
Proof.
  intros Hok Hmax Hh. pose proof (len_nonneg f). destruct (decide (len s < 4)) as [Hs|Hs].
  - assert (taken s = len s) as -> by (unfold taken; by is_true (len s <? 4)).
    destruct (decide (len (s ++ f) < 4)) as [Hl|Hl].
    + assert (header_error maximum (s ++ f) = None) as -> by (unfold header_error; by is_true (len (s ++ f) <? 4)).
      rewrite push_short by done. do 2 f_equal. unfold taken. is_true (len (s ++ f) <? 4).
      rewrite len_app. lia.
    + apply push_header; [done|done|done|lia].
  - assert (header_error maximum (s ++ f) = None) as ->.
    { unfold header_error, frame_total, declared in *. rewrite len_app, take4_app by lia.
      is_false (len s <? 4) in Hh. by is_false (len s + len f <? 4). }
    apply push_rest; [done|done|lia].
Qed.

Lemma feed_received maximum fragments : forall s consumed,
  bytes_ok (s ++ concat fragments) -> maximum <= MAX_FRAME_BYTES -> header_error maximum s = None ->
  feed (received maximum s) consumed fragments =
    match header_error maximum (s ++ concat fragments) with
    | Some e => Err e
    | None => Ok (consumed + (taken (s ++ concat fragments) - taken s), received maximum (s ++ concat fragments))
    end.
Proof.
  induction fragments as [|f fragments IH]; intros s consumed Hok Hmax Hh; cbn [concat feed].
  - rewrite app_nil_r, Hh. do 2 f_equal. lia.
  - cbn [concat] in Hok. rewrite (assoc_L (++)) in Hok |- *.
    assert (bytes_ok (s ++ f)) as Hok' by (by apply Forall_app in Hok as [? _]).
    pose proof (push_received maximum s f Hok' Hmax Hh) as Hp.
    destruct (header_error maximum (s ++ f)) as [e|] eqn:He.
    + rewrite (header_error_app _ _ _ _ He). destruct (push true (received maximum s) f) as [[] ?]; cbn in Hp; congruence.
    + rewrite Hp, IH by done. destruct (header_error maximum ((s ++ f) ++ concat fragments)); [done|].
      do 2 f_equal. lia.
Qed.

Lemma feed_spec maximum fragments fb :
  new maximum = Ok fb -> bytes_ok (concat fragments) ->
  let s := concat fragments in
  let total := le_value (take 4 s) + 4 in
  if len s <? 4 then exists fb', feed fb 0 fragments = Ok (len s, fb') /\ frame fb' = None
  else if le_value (take 4 s) =? 0 then feed fb 0 fragments = Err InvalidFrame
  else if maximum <? total then feed fb 0 fragments = Err FrameTooLarge
  else exists fb', feed fb 0 fragments = Ok (Z.min (len s) total, fb') /\
    frame fb' = if total <=? len s then Some (take (Z.to_nat total) s) else None.
Proof.
  intros Hnew Hbytes. cbn zeta. unfold new in Hnew. destruct (_ && _) eqn:Hrange; [|done]. apply ok_inj in Hnew as <-. to_prop.
  set (s := concat fragments) in *.
  pose proof (feed_received maximum fragments [] 0) as Hf. cbn [app] in Hf. fold s in Hf.
  specialize (Hf Hbytes ltac:(done) eq_refl).
  change (received maximum []) with {| prefix := [0; 0; 0; 0]; prefix_used := 0; buffer := []; used := 0;
    maximum := maximum |} in Hf.
  change (taken []) with 0 in Hf. rewrite Z.sub_0_r, Z.add_0_l in Hf.
  unfold header_error, frame_total, declared in Hf. pose proof (declared_nonneg s Hbytes) as Hd. unfold declared in Hd.
  destruct (len s <? 4) eqn:E0.
  - eexists. split; [rewrite Hf; unfold taken; by rewrite E0|]. unfold received. by rewrite E0.
  - destruct (le_value (take 4 s) =? 0) eqn:E1; [done|].
    destruct (maximum <? le_value (take 4 s) + 4) eqn:E2; [done|]. to_prop.
    eexists. split; [rewrite Hf, taken_full by done; done|].
    unfold received. is_false (len s <? 4). unfold frame, is_complete_frame. cbn [buffer used].
    rewrite taken_full by done. change (frame_total s) with (le_value (take 4 s) + 4).
    set (total := le_value (take 4 s) + 4) in *.
    assert (len (take (Z.to_nat (Z.min (len s) total)) s ++ zeros (total - Z.min (len s) total)) = total) as ->.
    { rewrite len_app, len_take_z by lia. unfold zeros, len at 2. rewrite length_replicate. lia. }
    is_false (total =? 0). cbn [negb andb]. destruct (total <=? len s) eqn:E3; to_prop.
    + rewrite Z.min_r by lia. rewrite Z.eqb_refl, Z.sub_diag. cbn [zeros Z.to_nat replicate]. by rewrite app_nil_r.
    + rewrite Z.min_l by lia. by is_false (len s =? total).
Qed.


(** ** The encoder *)

#[export] Instance protocol_interrupt : Interrupt ProtocolError := fun e => e = ResourceExhausted.

(** The frame of a body. *)
Definition frame_of (body : list Z) : list Z := le_bytes 4 (len body) ++ body.

Lemma capped_write_all_spec cs : forall w e,
  let '((ok, w'), e') := capped_write_all w cs e in
  (calm e -> calm e') /\
  if ok : bool then w_bytes w' = w_bytes w ++ concat cs /\ w_failure w' = w_failure w /\
             (len (w_bytes w) <= w_maximum w -> len (w_bytes w') <= w_maximum w)
  else (w_failure w' = Some FrameTooLarge /\ w_maximum w < len (w_bytes w ++ concat cs)) \/
       (w_failure w' = Some ResourceExhausted /\ ~ calm e).
Proof.
  induction cs as [|c cs IH]; intros w e; cbn [capped_write_all concat].
  - rewrite app_nil_r. split_and!; done.
  - unfold capped_write. destruct (w_maximum w - len (w_bytes w) <? len c) eqn:Hc; to_prop.
    { split; [done|]. left. split; [done|]. rewrite !len_app. pose proof (len_nonneg (concat cs)). lia. }
    set (w1 := {| w_bytes := w_bytes w ++ c; w_maximum := w_maximum w; w_failure := w_failure w |}).
    assert (forall e1, (calm e -> calm e1) -> let '((ok, w'), e') := capped_write_all w1 cs e1 in
      (calm e -> calm e') /\
      if ok : bool then w_bytes w' = w_bytes w ++ c ++ concat cs /\ w_failure w' = w_failure w /\
             (len (w_bytes w) <= w_maximum w -> len (w_bytes w') <= w_maximum w)
      else (w_failure w' = Some FrameTooLarge /\ w_maximum w < len (w_bytes w ++ c ++ concat cs)) \/
           (w_failure w' = Some ResourceExhausted /\ ~ calm e)) as Hnext.
    { intros e1 He1. specialize (IH w1 e1). destruct (capped_write_all w1 cs e1) as [[ok w'] e'].
      destruct IH as [IHc IH]. split; [auto|]. cbn [w1 w_bytes w_maximum w_failure] in IH.
      rewrite <- (assoc_L (++)) in IH. destruct ok.
      - destruct IH as (? & ? & Hl). split_and!; try done. intros _. apply Hl. rewrite len_app. lia.
      - destruct IH as [?|[? ?]]; [by left|right]. auto. }
    destruct e as [|o e]; cbn [observe].
    + by apply Hnext.
    + assert (calm (o :: e) -> calm e) as Hcalm by (intros H%Forall_cons; tauto).
      destruct o; try (by apply Hnext). split; [done|]. right. split; [done|].
      intros H%Forall_cons. by destruct H.
Qed.

Lemma overwrite_prefix (n : nat) z b x :
  length z = n -> length x = n -> overwrite (z ++ b) 0 x = x ++ b.
Proof.
  intros Hz Hx. unfold overwrite. rewrite take_0, app_nil_l, Z.add_0_l. f_equal.
  unfold len. rewrite Nat2Z.id. by rewrite drop_app_length' by lia.
Qed.

Lemma frame_encode_outcome value maximum :
  4 <= maximum <= MAX_FRAME_BYTES ->
  outcome (encode value maximum)
    (fun f => f = frame_of (json_bytes value) /\ len f <= maximum /\ serialized value = true)
    (fun e => (e = FrameTooLarge /\ maximum < 4 + len (json_bytes value)) \/
              (e = Serialization /\ serialized value = false)).
Proof.
  intros Hmax. unfold encode. apply outcome_seq; [by apply refines_reserve|].
  apply (outcome_bind _ _ (fun b => b = [0; 0; 0; 0] ++ json_bytes value /\ len b <= maximum /\
                                    serialized value = true)).
  - intros w. unfold write_json, run.
    pose proof (capped_write_all_spec (chunks_of value)
      {| w_bytes := [0; 0; 0; 0]; w_maximum := maximum; w_failure := None |} w) as Hw.
    destruct (capped_write_all _ _ w) as [[ok out] e']. cbn [w_bytes w_failure w_maximum] in Hw.
    destruct Hw as [Hc Hw]. destruct ok; cbn [andb].
    + destruct Hw as (Hb & Hf & Hl). destruct (serialized value) eqn:Hs; cbn; split; try done.
      * split; [done|]. split; [|done]. apply Hl. unfold len. cbn. lia.
      * left. right. by rewrite Hf.
    + cbn. split; [|done]. destruct Hw as [[-> Hlt]|[-> Hn]]; [left; left|right; done].
      split; [done|]. rewrite len_app in Hlt. exact Hlt.
  - intros b (-> & Hl & Hs). rewrite len_app in Hl |- *.
    change (len [0; 0; 0; 0]) with 4 in *. unfold FRAME_PREFIX_BYTES.
    replace (4 + len (json_bytes value) - 4) with (len (json_bytes value)) by lia.
    pose proof (len_nonneg (json_bytes value)). unfold MAX_FRAME_BYTES in Hmax.
    rewrite try_from_some by width. cbn [ok_or]. rewrite lift_ok_bind. apply outcome_ret.
    rewrite (overwrite_prefix 4) by (done || apply le_bytes_length). split; [done|]. split; [|done].
    unfold frame_of. rewrite len_app, len_le_bytes. done.
Qed.

Lemma decode_frame_of {T} (from_slice : list Z -> option T) body maximum :
  0 < len body -> len (frame_of body) <= maximum <= MAX_FRAME_BYTES ->
  decode from_slice (frame_of body) maximum = ok_or InvalidMessage (from_slice body).
Proof.
  intros Hb Hm. unfold MAX_FRAME_BYTES, frame_of in *. rewrite len_app, len_le_bytes in Hm.
  unfold decode. rewrite len_app, len_le_bytes. unfold reject_if at 1. change FRAME_PREFIX_BYTES with 4.
  is_false (maximum <? Z.of_nat 4 + len body). cbn [mbind result_bind].
  assert (slice (le_bytes 4 (len body) ++ body) 0 4 = Some (le_bytes 4 (len body))) as ->.
  { rewrite slice_some; [|lia|rewrite len_app, len_le_bytes; lia]. done. }
  cbn [ok_or mbind result_bind]. rewrite le_value_le_bytes by width. rewrite try_from_some by width.
  cbn [ok_or mbind result_bind]. rewrite checked_add_some by width.
  rewrite bool_decide_true by (f_equal; lia).
  is_false (len body =? 0). cbn [negb orb reject_if mbind result_bind]. done.
Qed.

Lemma feed_frame_of maximum body fragments fb :
  new maximum = Ok fb -> 0 < len body -> len (frame_of body) <= maximum -> bytes_ok body ->
  concat fragments = frame_of body ->
  exists fb', feed fb 0 fragments = Ok (len (frame_of body), fb') /\ frame fb' = Some (frame_of body).
Proof.
  intros Hn Hb Hm Hok Hc. assert (maximum <= MAX_FRAME_BYTES) as Hmax.
  { unfold new in Hn. destruct (_ && _) eqn:E; [|done]. by to_prop. }
  pose proof (feed_spec maximum fragments fb Hn) as H. rewrite Hc in H.
  specialize (H ltac:(apply Forall_app; split; [apply le_bytes_ok|done])). cbn zeta in H.
  assert (take 4 (frame_of body) = le_bytes 4 (len body)) as E.
  { unfold frame_of. apply take_app_length'. by rewrite le_bytes_length. }
  assert (len (frame_of body) = 4 + len body) as El by (unfold frame_of; by rewrite len_app, len_le_bytes).
  unfold MAX_FRAME_BYTES in *. rewrite E, El, le_value_le_bytes in H by width.
  is_false (4 + len body <? 4) in H. is_false (len body =? 0) in H. is_false (maximum <? len body + 4) in H.
  is_true (len body + 4 <=? 4 + len body) in H. rewrite Z.min_l in H by lia. rewrite El.
  destruct H as (fb' & Hf & Hfr). exists fb'. split; [done|]. rewrite Hfr, take_ge; [done|]. unfold len in *. lia.
Qed.

(** C9. The frame buffer does not depend on how the stream is cut: for every sequence
    of fragments, the sum of the bytes the pushes consume, the error and the resulting
    frame depend only on the concatenation.  Once four bytes have arrived a zero length
    is [InvalidFrame] and one over the ceiling [FrameTooLarge], before any body byte is
    stored; otherwise exactly the bytes of the one frame are consumed, never one of a
    second frame, and the complete frame is available as soon as and only when all of
    them arrived. *)
Theorem frame_buffer_fragments maximum fragments fb
    (Hnew : new maximum = Ok fb) (Hbytes : bytes_ok (concat fragments)) :
  let s := concat fragments in
  let total := le_value (take 4 s) + 4 in
  if len s <? 4 then exists fb', feed fb 0 fragments = Ok (len s, fb') /\ frame fb' = None
  else if le_value (take 4 s) =? 0 then feed fb 0 fragments = Err InvalidFrame
  else if maximum <? total then feed fb 0 fragments = Err FrameTooLarge
  else exists fb', feed fb 0 fragments = Ok (Z.min (len s) total, fb') /\
    frame fb' = if total <=? len s then Some (take (Z.to_nat total) s) else None.
Proof. by apply feed_spec. Qed.

Lemma frame_buffer_fragments_witness :
  exists fb fb', new 16 = Ok fb /\
    feed fb 0 [[3; 0]; [0]; [0; 7; 8]; [9; 1; 2; 3]] = Ok (7, fb') /\ frame fb' = Some [3; 0; 0; 0; 7; 8; 9].
Proof.
  pose proof (frame_buffer_fragments 16 [[3; 0]; [0]; [0; 7; 8]; [9; 1; 2; 3]] _ eq_refl
    ltac:(apply (bool_decide_eq_true_1 _); vm_compute; reflexivity)) as H.
  cbn -[feed frame] in H. destruct H as (fb' & Hf & Hfr). eexists _, fb'.
  split; [reflexivity|]. split; [exact Hf|exact Hfr].
Defined.


(** ** Typed frames *)

(** What the round trips need of serde's codec at one value: parsing the written bytes
    gives the value back, and they are bytes, at least one. *)
Definition faithful `{Json T} (v : T) : Prop :=
  from_slice (json_bytes (to_writer v)) = Some v /\
  0 < len (json_bytes (to_writer v)) /\ bytes_ok (json_bytes (to_writer v)).

(** A received frame: every way of cutting it into fragments assembles it again. *)
Definition assembled (maximum : Z) (f : list Z) : Prop :=
  forall fragments fb, new maximum = Ok fb -> concat fragments = f ->
    exists fb', feed fb 0 fragments = Ok (len f, fb') /\ frame fb' = Some f.

(** One direction of the wire: what [enc] sends, cut in any way, is what [dec] reads; an
    invalid value is refused before anything is written, and a valid one only if it is
    too large, cannot be serialized or memory is refused. *)
Definition carries `{Json T} (validate : T -> result ProtocolError unit) (maximum : Z)
    (enc : T -> M ProtocolError (list Z)) (dec : list Z -> result ProtocolError T) : Prop :=
  forall v, faithful v ->
    match validate v with
    | Err e => forall w, run (enc v) w = Err e
    | Ok _ =>
        outcome (enc v)
          (fun f => dec f = Ok v /\ len f <= maximum /\ assembled maximum f)
          (fun e => (e = FrameTooLarge /\ maximum < 4 + len (json_bytes (to_writer v))) \/
                    (e = Serialization /\ serialized (to_writer v) = false))
    end.

Lemma carries_validated `{Json T} (validate : T -> result ProtocolError unit) maximum :
  4 <= maximum <= MAX_FRAME_BYTES ->
  carries validate maximum
    (fun v => _ ← lift (validate v); encode (to_writer v) maximum)
    (fun f => v ← decode from_slice f maximum; _ ← validate v; Ok v).
Proof.
  intros Hmax v (Hparse & Hpos & Hok). destruct (validate v) as [[]|e] eqn:Hv; [|done].
  rewrite lift_ok_bind. eapply outcome_weaken; [by apply frame_encode_outcome| |done].
  intros f (-> & Hl & _). split_and!; [|done|].
  - rewrite decode_frame_of by lia. rewrite Hparse. cbn. by rewrite Hv.
  - intros fragments fb Hnew Hc. by eapply feed_frame_of.
Qed.

(** C10. Round trip of every typed frame: queries and cancellations, session operations,
    session replies and terminals.  A message that its own validation refuses is never
    written; a valid one becomes a frame of at most the ceiling of its direction, which
    the peer's buffer assembles whatever the fragmentation and which decodes to the same
    message; the only other outcomes are a body over the ceiling, a serializer failure
    and refused memory.  The JSON codec is the only assumption, at the message itself. *)
Theorem typed_frames_roundtrip `{Json ClientFrame.t, Json SessionClientFrame.t, Json SessionReply.t,
    Json Terminal.t} :
  carries ClientFrame.validate MAX_CLIENT_FRAME_BYTES encode_client_frame decode_client_frame /\
  carries SessionClientFrame.validate MAX_CLIENT_FRAME_BYTES encode_session_frame decode_session_frame /\
  carries SessionReply.validate MAX_FRAME_BYTES encode_session_reply decode_session_reply /\
  carries (fun t => Terminal.validate t MAX_ITEMS) MAX_FRAME_BYTES encode_terminal_frame
    (fun f => decode_terminal_frame f MAX_ITEMS).
Proof. split_and!; by apply carries_validated. Qed.

(** A codec that knows one value, written as an empty object. *)
Definition single_json {T} (v : T) : Json T :=
  {| to_writer := fun _ => {| chunks_of := [[123]; [125]]; serialized := true |};
     from_slice := fun bytes => if decide (bytes = [123; 125]) then Some v else None |}.

Definition cancel_frame : ClientFrame.t := ClientFrame.Cancel 1.

Lemma typed_frames_roundtrip_witness :
  exists f, run (@encode_client_frame (single_json cancel_frame) cancel_frame) [] = Ok f /\
    @decode_client_frame (single_json cancel_frame) f = Ok cancel_frame.
Proof.
  destruct (@typed_frames_roundtrip (single_json cancel_frame)
    {| to_writer := fun _ => {| chunks_of := []; serialized := true |}; from_slice := fun _ => None |}
    {| to_writer := fun _ => {| chunks_of := []; serialized := true |}; from_slice := fun _ => None |}
    {| to_writer := fun _ => {| chunks_of := []; serialized := true |}; from_slice := fun _ => None |})
    as [Hc _].
  specialize (Hc cancel_frame ltac:(split_and!; [reflexivity|reflexivity|
    apply (bool_decide_eq_true_1 _); vm_compute; reflexivity])).
  change (ClientFrame.validate cancel_frame) with (@Ok ProtocolError unit tt) in Hc.
  destruct (Hc []) as [Hf _]. exists (frame_of [123; 125]).
  assert (run (@encode_client_frame (single_json cancel_frame) cancel_frame) []
    = Ok (frame_of [123; 125])) as Hrun by (vm_compute; reflexivity).
  rewrite Hrun in Hf. split; [exact Hrun|apply Hf].
Defined.


(** ** The largest whole prefix *)

Lemma count_write_all_spec cs : forall w,
  0 <= c_length w <= MAX_BODY_BYTES -> c_exceeded w = false ->
  let '(ok, w') := count_write_all w cs in
  ok = (c_length w + len (concat cs) <=? MAX_BODY_BYTES) /\ c_exceeded w' = negb ok.
Proof.
  induction cs as [|c cs IH]; intros w Hl He; cbn [count_write_all concat].
  - rewrite He. cbn [negb]. split; [|done]. rewrite len_nil. symmetry. solve_bool.
  - unfold count_write. rewrite len_app. pose proof (len_nonneg c). pose proof (len_nonneg (concat cs)).
    destruct (MAX_BODY_BYTES - c_length w <? len c) eqn:Hc; to_prop.
    + split; [|done]. symmetry. solve_bool.
    + specialize (IH {| c_length := c_length w + len c; c_exceeded := c_exceeded w |}).
      cbn [c_length c_exceeded] in IH. specialize (IH ltac:(lia) He).
      destruct (count_write_all _ cs) as [ok w']. destruct IH as [-> ->]. split; [|done]. f_equal. lia.
Qed.

Lemma fits_spec value :
  serialized value = true -> fits value = Ok (4 + len (json_bytes value) <=? MAX_FRAME_BYTES).
Proof.
  intros Hs. unfold fits.
  pose proof (count_write_all_spec (chunks_of value) {| c_length := 0; c_exceeded := false |}) as Hc.
  cbn [c_length c_exceeded] in Hc. specialize (Hc ltac:(done) eq_refl).
  destruct (count_write_all _ _) as [ok out]. destruct Hc as [Hok Hex]. rewrite Hs, Hex.
  assert ((4 + len (json_bytes value) <=? MAX_FRAME_BYTES) = ok) as ->.
  { rewrite Hok. unfold MAX_BODY_BYTES, json_bytes, FRAME_PREFIX_BYTES.
    destruct (0 + len (concat (chunks_of value)) <=? MAX_FRAME_BYTES - 4) eqn:E; to_prop; solve_bool. }
  by destruct ok.
Qed.

(** The search on a downward-closed predicate. *)
Lemma prefix_loop_spec (p : Z -> bool) (q : Z -> result ProtocolError bool) fuel : forall low high,
  (forall n, low < n <= high -> q n = Ok (p n)) ->
  (forall i j, low < i <= j -> j <= high -> p j = true -> p i = true) ->
  low <= high -> high - low <= Z.of_nat fuel ->
  exists k, prefix_loop q fuel low high = Ok k /\ low <= k <= high /\
    (k = low \/ p k = true) /\ (forall j, k < j <= high -> p j = false).
Proof.
  induction fuel as [|fuel IH]; intros low high Hq Hp Hle Hfuel; cbn [prefix_loop].
  - is_false (low <? high). exists low. split_and!; try done; try lia; (by left) || (intros; lia).
  - destruct (low <? high) eqn:Hlt; to_prop.
    2:{ exists low. split_and!; try done; try lia; (by left) || (intros; lia). }
    set (middle := low + (high - low + 1) / 2).
    assert (low < middle <= high) as Hm.
    { unfold middle. pose proof (Z.div_mod (high - low + 1) 2 ltac:(lia)).
      pose proof (Z.mod_pos_bound (high - low + 1) 2 ltac:(lia)). lia. }
    rewrite Hq by done. cbn [mbind result_bind]. destruct (p middle) eqn:Hpm.
    + destruct (IH middle high) as (k & -> & Hk & Hor & Hj); [intros; apply Hq; lia
        |intros; eapply (Hp i j); eauto; lia|lia|lia|].
      exists k. split_and!; try done; try lia. right. by destruct Hor as [->|?].
    + destruct (IH low (middle - 1)) as (k & -> & Hk & Hor & Hj); [intros; apply Hq; lia
        |intros; eapply (Hp i j); eauto; lia|lia|lia|].
      exists k. split_and!; try done; try lia. intros j Hjk.
      destruct (decide (j <= middle - 1)); [apply Hj; lia|].
      destruct (p j) eqn:Hpj; [|done]. rewrite (Hp middle j) in Hpm; [done|lia|lia|done].
Qed.

Section Prepare.
Context `{Json Terminal.t, Json CompleteWire.t}.
Variables (request_id generation : Z) (items : list SearchItem.t).
Let terminal := {| Terminal.request_id := request_id;
                   Terminal.outcome := QueryOutcome.Complete generation items Complete |}.

(** The clipped terminal with the first [n] items. *)
Definition clipped (n : Z) : written :=
  to_writer (complete_wire request_id generation (take (Z.to_nat n) items)).
Definition frame_len (value : written) : Z := 4 + len (json_bytes value).

Lemma prepare_complete_outcome :
  serialized (to_writer terminal) = true -> (forall n, serialized (clipped n) = true) ->
  (forall i j, 0 <= i <= j -> j <= len items -> frame_len (clipped i) <= frame_len (clipped j)) ->
  outcome (prepare_complete request_id generation items)
    (fun f => Terminal.validate terminal MAX_ITEMS = Ok tt /\ len f <= MAX_FRAME_BYTES /\
       if frame_len (to_writer terminal) <=? MAX_FRAME_BYTES
       then f = frame_of (json_bytes (to_writer terminal))
       else exists n, 0 <= n <= len items /\ f = frame_of (json_bytes (clipped n)) /\
         forall j, n < j <= len items -> MAX_FRAME_BYTES < frame_len (clipped j))
    (fun e => Terminal.validate terminal MAX_ITEMS = Err e \/
       (e = FrameTooLarge /\ MAX_FRAME_BYTES < frame_len (to_writer terminal) /\
        MAX_FRAME_BYTES < frame_len (clipped 0))).
Proof.
  intros Hst Hsw Hmono. unfold prepare_complete. fold terminal.
  change (ok_or InvalidMessage (try_from U8_MAX MAX_ITEMS)) with (@Ok ProtocolError Z MAX_ITEMS).
  rewrite lift_ok_bind. apply outcome_pure; [|by left]. intros [] Hv.
  rewrite (fits_spec _ Hst), lift_ok_bind. fold (frame_len (to_writer terminal)).
  destruct (frame_len (to_writer terminal) <=? MAX_FRAME_BYTES) eqn:Hfit; to_prop.
  - eapply outcome_weaken; [by apply frame_encode_outcome| |].
    + intros f (-> & ? & _). by split_and!.
    + unfold frame_len in Hfit. intros e [[_ ?]|[_ ?]]; [lia|congruence].
  - change (fun n => fits (to_writer (complete_wire request_id generation (take (Z.to_nat n) items))))
      with (fun n => fits (clipped n)).
    destruct (prefix_loop_spec (fun n => frame_len (clipped n) <=? MAX_FRAME_BYTES) (fun n => fits (clipped n))
      (length items) 0 (len items)) as (k & Hk & Hrange & Hor & Hmax).
    { intros n _. apply fits_spec, Hsw. }
    { intros i j ? ? Hj. to_prop. pose proof (Hmono i j ltac:(lia) ltac:(lia)). solve_bool. }
    { apply len_nonneg. }
    { unfold len. lia. }
    rewrite Hk, lift_ok_bind. fold (clipped k).
    eapply outcome_weaken; [by apply frame_encode_outcome| |].
    + intros f (-> & ? & _). split_and!; [done|done|]. exists k. split_and!; try done; try lia.
      intros j Hj. specialize (Hmax j Hj). by to_prop.
    + intros e [[-> Hlt]|[_ Hs]]; [|rewrite Hsw in Hs; done]. fold (frame_len (clipped k)) in Hlt.
      right. split_and!; [done|lia|]. destruct Hor as [->|Hor]; [done|]. to_prop. lia.
Qed.

(** Preparing a complete answer.  With a serializer that succeeds and never writes
    less for more items: an invalid terminal is refused with its validation error; a
    terminal that fits is sent whole; otherwise the frame holds the longest rank prefix
    that fits, marked as clipped, every longer prefix being over the ceiling; the
    operation fails only when not even the empty prefix fits or memory is refused. *)
Theorem prepare_complete_maximal
    (Hterminal : serialized (to_writer terminal) = true)
    (Hwire : forall n, serialized (clipped n) = true)
    (Hmono : forall i j, 0 <= i <= j -> j <= len items -> frame_len (clipped i) <= frame_len (clipped j)) :
  outcome (prepare_complete request_id generation items)
    (fun f => Terminal.validate terminal MAX_ITEMS = Ok tt /\ len f <= MAX_FRAME_BYTES /\
       if frame_len (to_writer terminal) <=? MAX_FRAME_BYTES
       then f = frame_of (json_bytes (to_writer terminal))
       else exists n, 0 <= n <= len items /\ f = frame_of (json_bytes (clipped n)) /\
         forall j, n < j <= len items -> MAX_FRAME_BYTES < frame_len (clipped j))
    (fun e => Terminal.validate terminal MAX_ITEMS = Err e \/
       (e = FrameTooLarge /\ MAX_FRAME_BYTES < frame_len (to_writer terminal) /\
        MAX_FRAME_BYTES < frame_len (clipped 0))).
Proof. by apply prepare_complete_outcome. Qed.
End Prepare.

(** A serializer that writes one byte per item, and a whole answer as too large. *)
Definition item_json : Json CompleteWire.t :=
  {| to_writer := fun v => {| chunks_of := [replicate (length (CompleteWire.items v)) 120]; serialized := true |};
     from_slice := fun _ => None |}.
Definition big_json : Json Terminal.t :=
  {| to_writer := fun _ => {| chunks_of := replicate 9 (replicate (Z.to_nat 1048576) 120); serialized := true |};
     from_slice := fun _ => None |}.

Lemma prepare_complete_maximal_witness :
  exists f, run (@prepare_complete big_json item_json 1 3 []) [] = Ok f.
Proof.
  pose proof (@prepare_complete_maximal big_json item_json 1 3 []
    eq_refl (fun _ => eq_refl)) as Hmax.
  specialize (Hmax ltac:(intros i j _ _; unfold clipped; rewrite !take_nil; apply Z.le_refl)).
  destruct (Hmax []) as [Hf _]. clear Hmax. revert Hf.
  generalize (run (@prepare_complete big_json item_json 1 3 []) []). intros [f|e] Hf.
  - exact (ex_intro _ f eq_refl).
  - exfalso. destruct Hf as [[Hv|(_ & _ & Hlt)]|[_ Hn]].
    + vm_compute in Hv. discriminate.
    + vm_compute in Hlt. discriminate.
    + apply Hn. constructor.
Defined.
