(* ===== verification/Qdrant.v ===== *)
(** The crate [search-qdrant-bridge]: inputs and ceilings, the SDK messages it builds, the
    strict conversions of the replies, and the bounded calls over one channel
    (crates/search-index-qdrant/search-qdrant-bridge/src).  The server, the transport and
    the protobuf encoder are dependencies: what a call observes of them is an argument. *)

From stdpp Require Import gmap.
From S2P Require Import Prelude Bytes Utf8 Ids Dto.

(** ** Errors (error.rs) *)

Module BackendError.
Inductive t : Type :=
  | InvalidEndpoint | InvalidLimits | InvalidInput | RequestTooLarge | ResponseTooLarge
  | AllocationFailed | Authentication | UnsupportedServer | SchemaMismatch | PointMismatch
  | MalformedResponse | ReadinessNotProven | Cancelled | Deadline | Transport | BackendRefused
  | UnknownDispatch.
#[global] Instance t_eq : EqDecision t.
Proof. solve_decision. Defined.

Definition code (e : t) : list Z :=
  match e with
  | InvalidEndpoint => str "BACKEND_ENDPOINT_INVALID"
  | InvalidLimits => str "BACKEND_LIMITS_INVALID"
  | InvalidInput => str "BACKEND_INPUT_INVALID"
  | RequestTooLarge => str "BACKEND_REQUEST_TOO_LARGE"
  | ResponseTooLarge => str "BACKEND_RESPONSE_TOO_LARGE"
  | AllocationFailed => str "BACKEND_ALLOCATION_FAILED"
  | Authentication => str "BACKEND_AUTHENTICATION_FAILED"
  | UnsupportedServer => str "BACKEND_VERSION_UNSUPPORTED"
  | SchemaMismatch => str "BACKEND_SCHEMA_MISMATCH"
  | PointMismatch => str "BACKEND_POINT_MISMATCH"
  | MalformedResponse => str "BACKEND_RESPONSE_MALFORMED"
  | ReadinessNotProven => str "BACKEND_READINESS_NOT_PROVEN"
  | Cancelled => str "BACKEND_CANCELLED"
  | Deadline => str "BACKEND_DEADLINE"
  | Transport => str "BACKEND_TRANSPORT_FAILED"
  | BackendRefused => str "BACKEND_REFUSED"
  | UnknownDispatch => str "BACKEND_UNKNOWN_DISPATCH"
  end.
End BackendError.
Module Back := BackendError.

#[export] Instance backend_interrupt : Interrupt Back.t := fun e =>
  e ∈ [Back.Cancelled; Back.Deadline; Back.AllocationFailed].
Definition backend_check : M Back.t unit := check_with Back.Cancelled Back.Deadline.

(** ** Inputs and ceilings (model.rs) *)

Module Ceiling.
Definition MAX_PAGE_POINTS : Z := 128.
Definition MAX_REQUEST_BYTES : Z := 1048576.
Definition MAX_RESPONSE_BYTES : Z := 2097152.
Definition MAX_QUERY_BYTES : Z := 4096.
Definition MAX_HITS : Z := 64.
Definition MAX_POINT_TEXT_BYTES : Z := 65536.
End Ceiling.

Record BackendLimits := {
  max_batch_points : Z; max_request_bytes : Z; max_response_bytes : Z; max_query_bytes : Z; max_hits : Z }.
Definition default_limits : BackendLimits :=
  {| max_batch_points := Ceiling.MAX_PAGE_POINTS; max_request_bytes := Ceiling.MAX_REQUEST_BYTES;
     max_response_bytes := Ceiling.MAX_RESPONSE_BYTES; max_query_bytes := Ceiling.MAX_QUERY_BYTES;
     max_hits := Ceiling.MAX_HITS |}.

(** [for (selected, maximum) in ..] of [BackendLimits::validate] *)
Fixpoint limits_loop (pairs : list (Z * Z)) : result Back.t unit :=
  match pairs with
  | [] => Ok tt
  | (selected, maximum) :: pairs =>
      _ ← reject_if ((selected =? 0) || (maximum <? selected)) Back.InvalidLimits;
      limits_loop pairs
  end.
Definition validate_limits (self : BackendLimits) : result Back.t unit :=
  limits_loop [(max_batch_points self, Ceiling.MAX_PAGE_POINTS);
    (max_request_bytes self, Ceiling.MAX_REQUEST_BYTES); (max_response_bytes self, Ceiling.MAX_RESPONSE_BYTES);
    (max_query_bytes self, Ceiling.MAX_QUERY_BYTES); (max_hits self, Ceiling.MAX_HITS)].

Module PointInput.
Record t := { id : list Z; source_id : list Z; retrieval_text : list Z }.
#[global] Instance t_eq : EqDecision t.
Proof. solve_decision. Defined.
End PointInput.
Module Hit.
Record t := { id : list Z; source_id : list Z; score : Z }.
End Hit.

Definition ascii_alphanumeric (b : Z) : bool :=
  between 48 57 b || between 65 90 b || between 97 122 b.
Definition collection_name (name : list Z) : result Back.t unit :=
  reject_if ((len name =? 0) || (255 <? len name)
    || negb (forallb (fun b => ascii_alphanumeric b || (b =? 95) || (b =? 45)) name)) Back.InvalidInput.

(** ** SDK messages, as far as the bridge fills or reads them *)

Inductive Value := StringValue (text : list Z) | OtherValue.
Abbreviation payload := (gmap (list Z) (option Value)).
Inductive PointIdOptions := IdUuid (text : list Z) | IdNum (n : Z).
Record PointId := { point_id_options : option PointIdOptions }.
Record PointStruct := { struct_id : PointId; struct_payload : payload }.
Record UpsertPoints := {
  upsert_collection : list Z; upsert_wait : bool; upsert_points : list PointStruct; insert_mode : bool }.
Record RetrievedPoint := { retrieved_id : option PointId; retrieved_payload : payload; retrieved_vectors : bool }.
Record ScoredPoint := {
  scored_id : option PointId; scored_payload : payload; scored_score : Z; scored_vectors : bool }.
(** A query for the whole generation, or for the points of [query_only]. *)
Record QueryPoints := {
  query_collection : list Z; query_string : list Z; query_only : option (list PointId); query_limit : Z }.
Record GetPoints := { get_collection : list Z; get_ids : list PointId }.

(** ** Conversions (codec.rs) *)

Definition SOURCE_ID_KEY : list Z := str "source_id".
Definition TEXT_FIELD : list Z := str "retrieval_text".

Fixpoint uuid_loop (index : Z) (bytes : list Z) : list Z :=
  match bytes with
  | [] => []
  | byte :: bytes =>
      (if bool_decide (index ∈ [4; 6; 8; 10]) then [45] else [])
      ++ hex_pair byte ++ uuid_loop (index + 1) bytes
  end.
Definition uuid_text (bytes : list Z) : list Z := uuid_loop 0 bytes.
Definition point_id (bytes : list Z) : PointId := {| point_id_options := Some (IdUuid (uuid_text bytes)) |}.

Definition hex_value (byte : Z) : result Back.t Z :=
  if between 48 57 byte then Ok (byte - 48)
  else if between 97 102 byte then Ok (byte - 97 + 10)
  else Err Back.MalformedResponse.

(** [for (index, byte) in decoded.iter_mut().enumerate()], [n] turns from [index] on. *)
Fixpoint decode_loop (bytes : list Z) (n : nat) (index cursor : Z) : result Back.t (list Z) :=
  match n with
  | O => Ok []
  | S n =>
      cursor ← (if bool_decide (index ∈ [4; 6; 8; 10])
                then _ ← reject_if (negb (bool_decide (at_ bytes cursor = Some 45))) Back.MalformedResponse;
                     Ok (cursor + 1)
                else Ok cursor);
      high ← ok_or Back.MalformedResponse (at_ bytes cursor) ≫= hex_value;
      low ← ok_or Back.MalformedResponse (at_ bytes (cursor + 1)) ≫= hex_value;
      rest ← decode_loop bytes n (index + 1) (cursor + 2);
      Ok (high * 16 + low :: rest)
  end.
Definition decode_id (id : option PointId) : result Back.t (list Z) :=
  match id ≫= point_id_options with
  | Some (IdUuid text) =>
      _ ← reject_if (negb (len text =? 36)) Back.MalformedResponse;
      decode_loop text 16 0 0
  | _ => Err Back.MalformedResponse
  end.

Definition payload_string (p : payload) (key : list Z) : result Back.t (list Z) :=
  match mjoin (p !! key) with
  | Some (StringValue text) => Ok text
  | _ => Err Back.MalformedResponse
  end.
Definition payload_source (p : payload) : result Back.t (list Z) :=
  text ← payload_string p SOURCE_ID_KEY;
  _ ← reject_if (negb (len text =? 36)) Back.MalformedResponse;
  map_err (fun _ => Back.MalformedResponse) (Uuid.parse text).

(** The first loop of [encode_batch]. *)
Fixpoint batch_loop (points : list PointInput.t) (ids : list (list Z)) (lower_bound : Z) : M Back.t unit :=
  match points with
  | [] => mret tt
  | point :: points =>
      _ ← backend_check;
      _ ← lift (reject_if ((len (PointInput.retrieval_text point) =? 0)
                 || bool_decide (PointInput.id point ∈ ids)) Back.InvalidInput);
      _ ← lift (reject_if (Ceiling.MAX_POINT_TEXT_BYTES <? len (PointInput.retrieval_text point))
                 Back.RequestTooLarge);
      lower_bound ← lift (ok_or Back.RequestTooLarge
                       (checked_add USIZE_MAX lower_bound (len (PointInput.retrieval_text point))));
      _ ← lift (reject_if (Ceiling.MAX_REQUEST_BYTES <? lower_bound) Back.RequestTooLarge);
      batch_loop points (PointInput.id point :: ids) lower_bound
  end.
Definition point_struct (point : PointInput.t) : PointStruct :=
  {| struct_id := point_id (PointInput.id point);
     struct_payload := <[SOURCE_ID_KEY := Some (StringValue (Uuid.display (PointInput.source_id point)))]>
       {[TEXT_FIELD := Some (StringValue (PointInput.retrieval_text point))]} |}.
Fixpoint struct_loop (points : list PointInput.t) : M Back.t (list PointStruct) :=
  match points with
  | [] => mret []
  | point :: points => _ ← backend_check; rest ← struct_loop points; mret (point_struct point :: rest)
  end.

(** [message.encoded_len()] of the protobuf encoder. *)
Class Prost (T : Type) := encoded_len : T -> Z.

Definition encode_batch `{Prost UpsertPoints} (name : list Z) (points : list PointInput.t)
    : M Back.t UpsertPoints :=
  _ ← backend_check;
  _ ← lift (collection_name name);
  _ ← lift (reject_if (len points =? 0) Back.InvalidInput);
  _ ← lift (reject_if (Ceiling.MAX_PAGE_POINTS <? len points) Back.RequestTooLarge);
  _ ← batch_loop points [] (len name);
  _ ← reserve_with Back.AllocationFailed;
  encoded ← struct_loop points;
  let request := {| upsert_collection := name; upsert_wait := true; upsert_points := encoded;
                    insert_mode := true |} in
  _ ← lift (reject_if (Ceiling.MAX_REQUEST_BYTES <? encoded_len request) Back.RequestTooLarge);
  _ ← backend_check;
  mret request.

(** ** Calls (backend.rs) *)

(** One time slice of a polled request future: nothing yet, or the reply. *)
Inductive poll (T : Type) := Waiting | Arrived (reply : result Back.t T).
Arguments Waiting {T}.
Arguments Arrived {T} reply.

(** [stopped] *)
Definition stopped (error : Back.t) (mutation dispatched : bool) : Back.t :=
  if mutation && dispatched then Back.UnknownDispatch else error.

(** [deadline.checked_duration_since(Instant::now()).ok_or(Deadline)?] *)
Definition remaining_time : M Back.t unit := fun w =>
  match observe w with
  | (DeadlineSeen, w') => (Err Back.Deadline, w')
  | (_, w') => (Ok tt, w')
  end.

(** Both guards of a turn. *)
Definition slice_check : M Back.t unit := _ ← backend_check; remaining_time.

(** The loop of [run]; a future whose slices run out never replies, and the deadline
    passes. *)
Fixpoint run_loop {T} (mutation dispatched : bool) (slices : list (poll T)) : M Back.t T :=
  match_result slice_check (fun checked =>
    match checked with
    | Err error => fail (stopped error mutation dispatched)
    | Ok _ =>
        match slices with
        | [] => fail (stopped Back.Deadline mutation true)
        | Waiting :: slices => run_loop mutation true slices
        | Arrived (Ok value) :: _ => mret value
        | Arrived (Err error) :: _ => fail (stopped error mutation true)
        end
    end).
Definition run_future {T} (mutation : bool) (future : list (poll T)) : M Back.t T :=
  _ ← backend_check;
  run_loop mutation false future.

(** The status codes [read_error] tells apart. *)
Inductive StatusCode :=
  | Unauthenticated | PermissionDenied | StatusCancelled | DeadlineExceeded | Unavailable | Unknown | OtherStatus.
Definition read_error (status : StatusCode) : Back.t :=
  match status with
  | Unauthenticated | PermissionDenied => Back.Authentication
  | StatusCancelled => Back.Cancelled
  | DeadlineExceeded => Back.Deadline
  | Unavailable | Unknown => Back.Transport
  | OtherStatus => Back.BackendRefused
  end.

(** What the generated client gives of one request: its slices, and at the end the reply
    message or a status. *)
Inductive reply (T : Type) := Answer (message : T) | Refused (status : StatusCode).
Arguments Answer {T} message.
Arguments Refused {T} status.
Record future (T : Type) := { waiting : nat; finished : option (reply T) }.
Arguments waiting {T} f : rename.
Arguments finished {T} f : rename.
Definition slices {T} (f : future T) : list (poll T) :=
  replicate (waiting f) Waiting
  ++ match finished f with
     | None => []
     | Some (Answer message) => [Arrived (Ok message)]
     | Some (Refused status) => [Arrived (Err (read_error status))]
     end.

(** [call]; [in_runtime] is [Handle::try_current().is_ok()]. *)
Definition synchronous (in_runtime : bool) : result Back.t unit := reject_if in_runtime Back.InvalidInput.
Definition rpc {T} (in_runtime mutation : bool) (f : future T) : M Back.t T :=
  _ ← lift (synchronous in_runtime);
  run_future mutation (slices f).

(** [Backend::request]; the credential is transport metadata. *)
Definition request_message {T} `{Prost T} (limits : BackendLimits) (message : T) : M Back.t T :=
  _ ← backend_check;
  _ ← lift (reject_if (max_request_bytes limits <? encoded_len message) Back.RequestTooLarge);
  _ ← remaining_time;
  mret message.

(** ** Connecting (backend.rs)

    What the standard library and the transport answer about one endpoint. *)
Record Connection := {
  (** [authority.parse::<SocketAddr>()]: whether it is loopback, and its port. *)
  parse_authority : list Z -> option (bool * Z);
  (** [value.parse()] of an ASCII metadata value. *)
  ascii_metadata : list Z -> bool;
  on_connect : list Z -> list (poll ());
  on_health : future (list Z);
  on_list : future () }.

(** [endpoint.split_once("://")] *)
Fixpoint split_scheme (before text : list Z) : option (list Z * list Z) :=
  match text with
  | 58 :: 47 :: 47 :: rest => Some (before, rest)
  | b :: rest => split_scheme (before ++ [b]) rest
  | [] => None
  end.
Definition validate_endpoint (c : Connection) (endpoint : list Z) : result Back.t bool :=
  _ ← reject_if (256 <? len endpoint) Back.InvalidEndpoint;
  split ← ok_or Back.InvalidEndpoint (split_scheme [] endpoint);
  let '(scheme, authority) := split in
  _ ← reject_if (negb (bool_decide (scheme = str "http" \/ scheme = str "https"))) Back.InvalidEndpoint;
  socket ← ok_or Back.InvalidEndpoint (parse_authority c authority);
  let '(loopback, port) := socket in
  _ ← reject_if (negb loopback || (port =? 0)) Back.InvalidEndpoint;
  Ok (bool_decide (scheme = str "https")).

Inductive Probe := HealthCheck | ListCollections.
Definition verify_connection `{Prost Probe} (limits : BackendLimits) (c : Connection) (in_runtime : bool)
    : M Back.t unit :=
  _ ← request_message limits HealthCheck;
  version ← rpc in_runtime false (on_health c);
  _ ← lift (reject_if (negb (bool_decide (version = str "1.20.0"))) Back.UnsupportedServer);
  _ ← request_message limits ListCollections;
  _ ← rpc in_runtime false (on_list c);
  mret tt.

(** [Backend::connect]; a runtime that cannot be built and a transport the SDK refuses to
    configure are failed calls. *)
Definition connect `{Prost Probe} (limits : BackendLimits) (c : Connection) (in_runtime : bool)
    (endpoint : list Z) (api_key : option (list Z)) : M Back.t unit :=
  _ ← lift (synchronous in_runtime);
  _ ← backend_check;
  _ ← lift (validate_limits limits);
  tls ← lift (validate_endpoint c endpoint);
  _ ← lift (match api_key with
      | None => Ok tt
      | Some value =>
          _ ← reject_if ((len value =? 0) || (4096 <? len value)) Back.InvalidInput;
          reject_if (negb (ascii_metadata c value)) Back.InvalidInput
      end);
  _ ← call Back.Transport;
  _ ← remaining_time;
  _ ← call Back.InvalidEndpoint;
  _ ← (if tls : bool then call Back.Transport else mret tt);
  _ ← run_future false (on_connect c endpoint);
  verify_connection limits c in_runtime.

(** ** The fixed schema (schema.rs)

    The fields [verify] reads of the server's description; enumerations are compared with
    one expected value each, so a field is that comparison's outcome or its optional
    boolean. *)
Record TextParams := {
  code_tokenizer : bool; lowercase : option bool; ascii_folding : option bool;
  phrase_matching : option bool; enable_hnsw : option bool; pinned_memory : bool; bm25_scoring : bool;
  disabled_stemmer : bool; stopwords : bool; min_token_len : option Z; max_token_len : option Z; nested : bool }.
Record FieldSchema := { text_type : bool; text_index : option TextParams }.
Record CollectionParams := {
  shard_number : Z; replication_factor : option Z; write_consistency_factor : option Z;
  auto_sharding : bool;
  (** [None]; or whether the configuration is an empty map of named vectors. *)
  vectors_config : option bool;
  (** [None]; or how many sparse vectors there are. *)
  sparse_vectors : option Z }.
Record CollectionInfo := {
  green : bool; collection_params : option CollectionParams; payload_schema : gmap (list Z) FieldSchema }.

Definition verify_text (p : TextParams) : result Back.t unit :=
  reject_if (negb (code_tokenizer p) || negb (bool_decide (lowercase p = Some true))
    || negb (bool_decide (ascii_folding p = Some false)) || negb (bool_decide (phrase_matching p = Some false))
    || negb (bool_decide (enable_hnsw p = Some false)) || negb (pinned_memory p) || negb (bm25_scoring p)
    || negb (disabled_stemmer p) || stopwords p || bool_decide (is_Some (min_token_len p))
    || bool_decide (is_Some (max_token_len p)) || nested p) Back.SchemaMismatch.
Definition verify_info (info : CollectionInfo) : result Back.t unit :=
  _ ← reject_if (negb (green info)) Back.BackendRefused;
  params ← ok_or Back.SchemaMismatch (collection_params info);
  _ ← reject_if (negb (shard_number params =? 1) || negb (bool_decide (replication_factor params = Some 1))
    || negb (bool_decide (write_consistency_factor params = Some 1)) || negb (auto_sharding params))
    Back.SchemaMismatch;
  _ ← reject_if (bool_decide (vectors_config params = Some false)) Back.SchemaMismatch;
  _ ← reject_if (match sparse_vectors params with Some n => negb (n =? 0) | None => false end
    || negb (Z.of_nat (size (payload_schema info)) =? 1)) Back.SchemaMismatch;
  text ← ok_or Back.SchemaMismatch (payload_schema info !! TEXT_FIELD);
  _ ← reject_if (negb (text_type text)) Back.SchemaMismatch;
  params ← ok_or Back.SchemaMismatch (text_index text);
  verify_text params.

Inductive UpdateStatus := Completed | ClockRejected | OtherUpdate.
Definition completed (status : UpdateStatus) : result Back.t unit :=
  match status with
  | Completed => Ok tt
  | ClockRejected => Err Back.BackendRefused
  | OtherUpdate => Err Back.UnknownDispatch
  end.

(** ** Operations (backend/) *)

(** The requests that carry only a collection name. *)
Inductive Named :=
  | CreateCollection (name : list Z) | CreateTextIndex (name : list Z) | CollectionInfoOf (name : list Z)
  | CollectionExists (name : list Z) | DeleteCollection (name : list Z) | CountPoints (name : list Z).

(** What the channel gives of each request, in the order an operation sends them. *)
Record Channel := {
  on_create : Named -> future bool;
  on_index : Named -> future (option UpdateStatus);
  on_info : Named -> future (option CollectionInfo);
  (** [n]: how many times this operation has asked before. *)
  on_exists : nat -> Named -> future (option bool);
  on_delete : Named -> future bool;
  on_upsert : UpsertPoints -> future (option UpdateStatus);
  on_get : GetPoints -> future (list RetrievedPoint);
  on_count : Named -> future (option Z);
  on_query : QueryPoints -> future (list ScoredPoint) }.

Section Operations.
Context `{Prost UpsertPoints, Prost Named, Prost GetPoints, Prost QueryPoints}.
Context (limits : BackendLimits) (channel : Channel) (in_runtime : bool).
(** [char::is_alphanumeric] *)
Context (is_alphanumeric : Z -> bool).

Definition verify_schema (name : list Z) : M Back.t unit :=
  _ ← lift (collection_name name);
  request ← request_message limits (CollectionInfoOf name);
  reply ← rpc in_runtime false (on_info channel request);
  info ← lift (ok_or Back.MalformedResponse reply);
  lift (verify_info info).

(** The text index, its acknowledgement and the readback, whose every error is one. *)
Definition index_generation (name : list Z) : M Back.t unit :=
  request ← request_message limits (CreateTextIndex name);
  indexed ← rpc in_runtime true (on_index channel request);
  status ← lift (ok_or Back.UnknownDispatch indexed);
  _ ← lift (completed status);
  verify_schema name.
Definition create_generation (name : list Z) : M Back.t unit :=
  _ ← lift (collection_name name);
  request ← request_message limits (CreateCollection name);
  created ← rpc in_runtime true (on_create channel request);
  _ ← lift (reject_if (negb created) Back.BackendRefused);
  lift_err (fun _ => Back.UnknownDispatch) (index_generation name).

Definition exists_generation (n : nat) (name : list Z) : M Back.t bool :=
  _ ← lift (collection_name name);
  request ← request_message limits (CollectionExists name);
  reply ← rpc in_runtime false (on_exists channel n request);
  lift (ok_or Back.MalformedResponse reply).

Definition delete_generation (name : list Z) : M Back.t unit :=
  _ ← lift (collection_name name);
  present ← exists_generation 0 name;
  if negb present then mret tt
  else
    request ← request_message limits (DeleteCollection name);
    deleted ← rpc in_runtime true (on_delete channel request);
    remains ← (if negb deleted then mret true else exists_generation 1 name);
    lift (reject_if remains Back.BackendRefused).

(** [batch_request_bytes] *)
Definition batch_request_bytes (name : list Z) (points : list PointInput.t) : M Back.t Z :=
  request ← encode_batch name points;
  mret (encoded_len request).

Definition insert_only (name : list Z) (points : list PointInput.t) : M Back.t unit :=
  _ ← lift (reject_if (max_batch_points limits <? len points) Back.RequestTooLarge);
  message ← encode_batch name points;
  request ← request_message limits message;
  reply ← rpc in_runtime true (on_upsert channel request);
  status ← lift (ok_or Back.UnknownDispatch reply);
  lift (completed status).

(** [for point in reply.result] of [verify_points] *)
Fixpoint verify_loop (expected : list PointInput.t) (reply : list RetrievedPoint) (seen : list (list Z))
    : M Back.t unit :=
  match reply with
  | [] => mret tt
  | point :: reply =>
      _ ← backend_check;
      id ← lift (decode_id (retrieved_id point));
      _ ← lift (reject_if (bool_decide (id ∈ seen) || retrieved_vectors point
                 || negb (Z.of_nat (size (retrieved_payload point)) =? 2)) Back.PointMismatch);
      wanted ← lift (ok_or Back.PointMismatch (find (fun wanted => bool_decide (PointInput.id wanted = id)) expected));
      source ← lift (payload_source (retrieved_payload point));
      _ ← lift (reject_if (negb (bool_decide (source = PointInput.source_id wanted))) Back.PointMismatch);
      text ← lift (payload_string (retrieved_payload point) TEXT_FIELD);
      _ ← lift (reject_if (negb (bool_decide (text = PointInput.retrieval_text wanted))) Back.PointMismatch);
      verify_loop expected reply (id :: seen)
  end.
Definition verify_points (name : list Z) (expected : list PointInput.t) : M Back.t unit :=
  _ ← backend_check;
  _ ← lift (collection_name name);
  if len expected =? 0 then mret tt
  else
    _ ← lift (reject_if (max_batch_points limits <? len expected) Back.RequestTooLarge);
    _ ← encode_batch name expected;
    request ← request_message limits {| get_collection := name; get_ids := point_id ∘ PointInput.id <$> expected |};
    reply ← rpc in_runtime false (on_get channel request);
    _ ← lift (reject_if (len expected <? len reply) Back.ResponseTooLarge);
    _ ← lift (reject_if (negb (len reply =? len expected)) Back.PointMismatch);
    verify_loop expected reply [].

Definition count_exact (name : list Z) : M Back.t Z :=
  _ ← lift (collection_name name);
  request ← request_message limits (CountPoints name);
  reply ← rpc in_runtime false (on_count channel request);
  lift (ok_or Back.MalformedResponse reply).

(** [for point in reply.result] of [query_text] *)
Fixpoint hits_loop (reply : list ScoredPoint) (seen : list (list Z)) : M Back.t (list Hit.t) :=
  match reply with
  | [] => mret []
  | point :: reply =>
      _ ← backend_check;
      id ← lift (decode_id (scored_id point));
      _ ← lift (reject_if (bool_decide (id ∈ seen) || negb (is_finite (scored_score point))
                 || scored_vectors point || negb (Z.of_nat (size (scored_payload point)) =? 1))
                 Back.MalformedResponse);
      source ← lift (payload_source (scored_payload point));
      hits ← hits_loop reply (id :: seen);
      mret ({| Hit.id := id; Hit.source_id := source; Hit.score := scored_score point |} :: hits)
  end.
Definition query_text (name text : list Z) (limit : Z) : M Back.t (list Hit.t) :=
  _ ← backend_check;
  _ ← lift (collection_name name);
  _ ← lift (reject_if ((len text =? 0) || (limit =? 0) || (max_hits limits <? limit)) Back.InvalidInput);
  _ ← lift (reject_if (max_query_bytes limits <? len text) Back.RequestTooLarge);
  bounded ← lift (ok_or Back.InvalidInput (try_from U64_MAX limit));
  request ← request_message limits
    {| query_collection := name; query_string := text; query_only := None; query_limit := bounded |};
  reply ← rpc in_runtime false (on_query channel request);
  _ ← lift (reject_if (limit <? len reply) Back.ResponseTooLarge);
  _ ← reserve_with Back.AllocationFailed;
  hits_loop reply [].

(** The scalar values of a valid string. *)
Fixpoint chars (text : list Z) : list Z :=
  match text with
  | [] => []
  | b :: t =>
      if between 0 127 b then b :: chars t
      else match t with
      | [] => []
      | c1 :: t1 =>
          if between 194 223 b then (b - 192) * 64 + (c1 - 128) :: chars t1
          else match t1 with
          | [] => []
          | c2 :: t2 =>
              if between 224 239 b then ((b - 224) * 64 + (c1 - 128)) * 64 + (c2 - 128) :: chars t2
              else match t2 with
              | [] => []
              | c3 :: t3 => (((b - 240) * 64 + (c1 - 128)) * 64 + (c2 - 128)) * 64 + (c3 - 128) :: chars t3
              end
          end
      end
  end.

Fixpoint has_prefix (prefix text : list Z) : bool :=
  match prefix, text with
  | [], _ => true
  | p :: prefix, t :: text => (p =? t) && has_prefix prefix text
  | _, [] => false
  end.
(** [text.match_indices(query)] for a nonempty query: the non-overlapping occurrences, from
    the left; [skip] bytes belong to the previous one. *)
Fixpoint match_indices (query text : list Z) (start : Z) (skip : nat) : list Z :=
  match text with
  | [] => []
  | _ :: rest =>
      match skip with
      | S skip => match_indices query rest (start + 1) skip
      | O => if has_prefix query text then start :: match_indices query rest (start + 1) (length query - 1)
             else match_indices query rest (start + 1) 0
      end
  end.

Definition separator (character : Z) : bool := negb (is_alphanumeric character) && negb (character =? 95).
Fixpoint word_loop (text query : list Z) (starts : list Z) : M Back.t bool :=
  match starts with
  | [] => _ ← backend_check; mret false
  | start :: starts =>
      _ ← backend_check;
      let stop := start + len query in
      let before := last (chars (take (Z.to_nat start) text)) in
      let after := head (chars (drop (Z.to_nat stop) text)) in
      let free o := match o with None => true | Some c => separator c end in
      if free before && free after then mret true else word_loop text query starts
  end.
Definition saved_word (text query : list Z) : M Back.t bool := word_loop text query (match_indices query text 0 0).

(** [score <= 0.0] of a finite [f32] *)
Definition nonpositive (score : Z) : bool := (score =? 0) || (2 ^ 31 <=? score).
Definition verify_hit (points : list ScoredPoint) (expected : PointInput.t) : result Back.t unit :=
  match points with
  | [point] =>
      _ ← reject_if (negb (is_finite (scored_score point)) || scored_vectors point
             || negb (Z.of_nat (size (scored_payload point)) =? 1)) Back.MalformedResponse;
      id ← decode_id (scored_id point);
      _ ← reject_if (negb (bool_decide (id = PointInput.id expected))) Back.PointMismatch;
      source ← payload_source (scored_payload point);
      _ ← reject_if (negb (bool_decide (source = PointInput.source_id expected))) Back.PointMismatch;
      reject_if (nonpositive (scored_score point)) Back.ReadinessNotProven
  | [] => Err Back.ReadinessNotProven
  | _ => Err Back.ResponseTooLarge
  end.

Definition query_message (name : list Z) (expected : PointInput.t) (query : list Z) : QueryPoints :=
  {| query_collection := name; query_string := query;
     query_only := Some [point_id (PointInput.id expected)]; query_limit := 1 |}.
Definition verify_canary (name : list Z) (expected : PointInput.t) (query : list Z) : M Back.t unit :=
  _ ← backend_check;
  _ ← lift (collection_name name);
  _ ← lift (reject_if ((len (PointInput.retrieval_text expected) =? 0)
        || (Ceiling.MAX_POINT_TEXT_BYTES <? len (PointInput.retrieval_text expected))
        || (len query =? 0)
        || negb (forallb (fun c => is_alphanumeric c || (c =? 95)) (chars query))
        || negb (existsb is_alphanumeric (chars query))) Back.InvalidInput);
  _ ← lift (reject_if (max_query_bytes limits <? len query) Back.RequestTooLarge);
  saved ← saved_word (PointInput.retrieval_text expected) query;
  _ ← lift (reject_if (negb saved) Back.InvalidInput);
  request ← request_message limits (query_message name expected query);
  reply ← rpc in_runtime false (on_query channel request);
  _ ← backend_check;
  lift (verify_hit reply expected).
End Operations.

(** ** Point identities *)

Lemma uuid_text_length bytes : length bytes = 16%nat -> len (uuid_text bytes) = 36.
Proof. intros H. do 16 (destruct bytes as [|? bytes]; [done|]). by destruct bytes. Qed.

Lemma hex_value_ok b v : hex_value b = Ok v -> Uuid.lower_hex b = Some v.
Proof.
  unfold hex_value, Uuid.lower_hex, between. intros H. destruct (_ && _) eqn:E; [by injection H as ->|].
  destruct ((97 <=? b) && (b <=? 102)); [by injection H as ->|done].
Qed.

Lemma hex_join h l a b : hex_value h = Ok a -> hex_value l = Ok b -> is_byte (a * 16 + b) /\ hex_pair (a * 16 + b) = [h; l].
Proof.
  intros Ha%hex_value_ok%Uuid.lower_hex_digit Hb%hex_value_ok%Uuid.lower_hex_digit.
  destruct Ha as [-> Ha], Hb as [-> Hb]. split; [unfold is_byte; lia|]. unfold hex_pair.
  rewrite Z.shiftr_div_pow2 by lia. change 15 with (Z.ones 4). rewrite Z.land_ones by lia. change (2 ^ 4) with 16.
  rewrite <- (Z.div_unique (a * 16 + b) 16 a b) by lia. by rewrite <- (Z.mod_unique (a * 16 + b) 16 a b) by lia.
Qed.

Lemma at_drop {A} (l : list A) i x : at_ l i = Some x -> drop (Z.to_nat i) l = x :: drop (Z.to_nat (i + 1)) l /\ 0 <= i.
Proof.
  unfold at_. destruct (0 <=? i) eqn:E; [|done]. to_prop. intros H. split; [|done].
  rewrite (drop_S _ _ _ H). by replace (Z.to_nat (i + 1)) with (S (Z.to_nat i)) by lia.
Qed.

Lemma decode_loop_inv bytes n : forall index cursor l,
  decode_loop bytes n index cursor = Ok l ->
  length l = n /\ bytes_ok l /\ exists rest, drop (Z.to_nat cursor) bytes = uuid_loop index l ++ rest.
Proof.
  induction n as [|n IH]; intros index cursor l H.
  { cbn in H. inv_ok. split_and!; [done|constructor|by eexists]. }
  cbn [decode_loop] in H. apply bind_ok_inv in H as (c & Hc & H). inv_ok.
  match goal with H : decode_loop _ _ _ _ = Ok ?r |- _ => apply IH in H as (Hl & Hok & rest & Hd) end.
  match goal with Hh : hex_value ?h = Ok ?a, Hh' : hex_value ?h' = Ok ?b |- context [?a * 16 + ?b] =>
    destruct (hex_join _ _ _ _ Hh Hh') as [Hb Hp]
  end.
  repeat match goal with H : at_ _ _ = Some _ |- _ => apply at_drop in H as [? ?] end.
  split_and!; [cbn; by rewrite Hl|by constructor|]. exists rest.
  cbn [uuid_loop]. rewrite Hp.
  assert (drop (Z.to_nat cursor) bytes = (if bool_decide (index ∈ [4; 6; 8; 10]) then [45] else []) ++ drop (Z.to_nat c) bytes) as ->.
  { destruct (bool_decide (index ∈ _)); [|by injection Hc as <-]. inv_ok.
    match goal with H : negb _ = false |- _ => apply negb_false_iff, bool_decide_eq_true_1, at_drop in H as [-> _] end.
    done. }
  rewrite <- !(assoc_L (++)). f_equal. cbn [app].
  match goal with H : drop (Z.to_nat c) bytes = _ |- _ => rewrite H end.
  replace (Z.to_nat (c + 2)) with (Z.to_nat (c + 1 + 1)) in Hd by lia. congruence.
Qed.

Lemma decode_loop_uuid l : forall index before rest,
  bytes_ok l -> decode_loop (before ++ uuid_loop index l ++ rest) (length l) index (len before) = Ok l.
Proof.
  induction l as [|b l IH]; intros index before rest Hok; [done|]. apply Forall_cons in Hok as [Hb Hok].
  cbn [length decode_loop uuid_loop].
  set (dash := if bool_decide (index ∈ [4; 6; 8; 10]) then [45] else []).
  assert (forall (p : list Z) x q, at_ (p ++ x :: q) (len p) = Some x) as Hat.
  { intros p x q. unfold len. rewrite at_nat. by apply list_lookup_middle. }
  destruct (hex_pair_value b Hb) as (H1 & H2 & Hjoin & _).
  assert (forall h v, lower_hex_value h = Some v -> hex_value h = Ok v) as Hv.
  { intros h v. rewrite <- Uuid.lower_hex_value_eq. unfold hex_value, Uuid.lower_hex, between.
    repeat case_match; congruence. }
  apply Hv in H1, H2.
  assert ((if bool_decide (index ∈ [4; 6; 8; 10])
    then _ ← reject_if (negb (bool_decide (at_ (before ++ (dash ++ hex_pair b ++ uuid_loop (index + 1) l) ++ rest) (len before) = Some 45))) Back.MalformedResponse; Ok (len before + 1)
    else Ok (len before)) = Ok (len (before ++ dash))) as ->.
  { unfold dash. destruct (bool_decide (index ∈ _)); cbn [app].
    - rewrite Hat, bool_decide_true by done. cbn. by rewrite len_app.
    - by rewrite app_nil_r. }
  cbn [mbind result_bind].
  replace (before ++ (dash ++ hex_pair b ++ uuid_loop (index + 1) l) ++ rest)
    with ((before ++ dash) ++ hex_digit (Z.shiftr b 4) :: hex_digit (Z.land b 15) :: uuid_loop (index + 1) l ++ rest)
    by (unfold hex_pair; by rewrite <- !(assoc_L (++))).
  rewrite Hat. cbn [ok_or mbind result_bind]. rewrite H1. cbn [mbind result_bind].
  replace ((before ++ dash) ++ hex_digit (Z.shiftr b 4) :: hex_digit (Z.land b 15) :: uuid_loop (index + 1) l ++ rest)
    with (((before ++ dash) ++ [hex_digit (Z.shiftr b 4)]) ++ hex_digit (Z.land b 15) :: uuid_loop (index + 1) l ++ rest)
    by (by rewrite <- (assoc_L (++))).
  replace (len (before ++ dash) + 1) with (len ((before ++ dash) ++ [hex_digit (Z.shiftr b 4)])) by (by rewrite len_app).
  rewrite Hat. cbn [ok_or mbind result_bind]. rewrite H2. cbn [mbind result_bind].
  set (q := ((before ++ dash) ++ [hex_digit (Z.shiftr b 4)]) ++ [hex_digit (Z.land b 15)]).
  replace (((before ++ dash) ++ [hex_digit (Z.shiftr b 4)]) ++ hex_digit (Z.land b 15) :: uuid_loop (index + 1) l ++ rest)
    with (q ++ uuid_loop (index + 1) l ++ rest) by (unfold q; by rewrite <- (assoc_L (++))).
  replace (len (before ++ dash) + 2) with (len q) by (unfold q; rewrite !len_app; change (len [hex_digit (Z.shiftr b 4)]) with 1; change (len [hex_digit (Z.land b 15)]) with 1; lia).
  rewrite (IH _ q) by done. cbn. f_equal. f_equal.
  lia.
Qed.

(** A reply's identity decodes to sixteen bytes exactly when it is their canonical text. *)
Lemma decode_id_iff id bytes : decode_id id = Ok bytes <-> id = Some (point_id bytes) /\ Uuid.wf bytes.
Proof.
  split.
  - unfold decode_id. intros H. destruct id as [[[[text|n]|]]|]; cbn [mbind option_bind point_id_options] in H; try done.
    apply bind_ok_inv in H as ([] & Hlen & H). apply reject_if_ok in Hlen. to_prop.
    apply decode_loop_inv in H as (Hl & Hok & rest & Hd). rewrite drop_0 in Hd.
    assert (rest = []) as ->.
    { apply (f_equal len) in Hd. fold (uuid_text bytes) in Hd.
      rewrite len_app, uuid_text_length in Hd by done. destruct rest as [|b rest]; [done|].
      rewrite len_cons in Hd. pose proof (len_nonneg rest). lia. }
    rewrite app_nil_r in Hd. by subst text.
  - intros [-> [Hl Hok]]. unfold decode_id, point_id. cbn [mbind option_bind point_id_options].
    rewrite uuid_text_length by done. cbn [reject_if negb mbind result_bind]. rewrite <- Hl.
    pose proof (decode_loop_uuid bytes 0 [] [] Hok) as Hd. by rewrite app_nil_r in Hd.
Qed.

(** ** What an accepted reply says *)

(** A payload's text at a key. *)
Definition text_at (p : payload) (key text : list Z) : Prop := p !! key = Some (Some (StringValue text)).

Lemma payload_string_ok p key text : payload_string p key = Ok text <-> text_at p key text.
Proof.
  unfold payload_string, text_at. destruct (p !! key) as [[[t|]|]|]; cbn; split; congruence.
Qed.

Lemma payload_source_ok p bytes :
  payload_source p = Ok bytes -> text_at p SOURCE_ID_KEY (Uuid.display bytes) /\ Uuid.wf bytes.
Proof.
  unfold payload_source. intros (text & Ht & H)%bind_ok_inv.
  apply bind_ok_inv in H as ([] & _ & H%map_err_ok). apply Uuid.parse_ok_display in H as [<- Hwf].
  by apply payload_string_ok in Ht.
Qed.

Lemma map_one_key {V} (m : gmap (list Z) V) k v : Z.of_nat (size m) = 1 -> m !! k = Some v -> m = {[k := v]}.
Proof.
  intros Hs Hk. assert (delete k m = ∅) as Hd.
  { apply map_size_empty_inv. rewrite map_size_delete, Hk. lia. }
  rewrite <- (insert_delete_id m k v Hk), Hd. done.
Qed.

Lemma map_two_keys {V} (m : gmap (list Z) V) k v j u :
  Z.of_nat (size m) = 2 -> k <> j -> m !! k = Some v -> m !! j = Some u -> m = <[k := v]> {[j := u]}.
Proof.
  intros Hs Hne Hk Hj. rewrite <- (insert_delete_id m k v Hk). f_equal. apply map_one_key.
  - rewrite map_size_delete, Hk. lia.
  - by rewrite lookup_delete_ne.
Qed.

(** A scored point is read as a nomination: its identity, its only payload key and a finite
    score, without vectors. *)
Definition nominates (point : ScoredPoint) (hit : Hit.t) : Prop :=
  scored_id point = Some (point_id (Hit.id hit)) /\ Uuid.wf (Hit.id hit) /\
  scored_payload point = {[SOURCE_ID_KEY := Some (StringValue (Uuid.display (Hit.source_id hit)))]} /\
  Uuid.wf (Hit.source_id hit) /\
  scored_score point = Hit.score hit /\ is_finite (Hit.score hit) = true /\ scored_vectors point = false.

(** A stored point is exactly what [point_struct] sends. *)
Definition holds_point (point : RetrievedPoint) (p : PointInput.t) : Prop :=
  retrieved_id point = Some (struct_id (point_struct p)) /\
  retrieved_payload point = struct_payload (point_struct p) /\ retrieved_vectors point = false.

Ltac run_inv :=
  repeat match goal with
  | H : run (lift _ ≫= _) _ = Ok _ |- _ => apply run_lift_ok in H as (? & ? & H)
  | H : run (mbind _ _) _ = Ok _ |- _ => apply run_bind_ok in H as (? & ? & ? & H)
  | H : reject_if _ _ = Ok _ |- _ => apply reject_if_ok in H
  | H : ok_or _ _ = Ok _ |- _ => apply ok_or_inv in H
  | H : try_from _ _ = Some _ |- _ => apply try_from_inv in H as [-> ?]
  end.

Lemma hits_loop_ok reply : forall seen w hits,
  run (hits_loop reply seen) w = Ok hits ->
  Forall2 nominates reply hits /\ NoDup (Hit.id <$> hits) /\ Forall (fun h => Hit.id h ∉ seen) hits.
Proof.
  induction reply as [|point reply IH]; intros seen w hits H; cbn [hits_loop] in H.
  { apply ok_inj in H as <-. split_and!; constructor. }
  apply run_bind_ok in H as (_ & w1 & _ & H). apply run_lift_ok in H as (id & Hid & H).
  apply run_lift_ok in H as (u & Hg & H). apply run_lift_ok in H as (source & Hs & H).
  apply run_bind_ok in H as (rest & w2 & Hr & H). apply ok_inj in H as <-.
  apply decode_id_iff in Hid as [Hid Hwf]. apply payload_source_ok in Hs as [Hs Hswf].
  apply reject_if_ok in Hg. to_prop. destruct (IH (id :: seen) w1 rest) as (Hf & Hnd & Hout).
  { unfold run. by rewrite Hr. }
  split_and!.
  - constructor; [|done]. split_and!; try done. by apply map_one_key.
  - cbn. constructor; [|done]. rewrite list_elem_of_fmap. intros (h & Heq & Hin).
    rewrite Forall_forall in Hout. apply (Hout h Hin). rewrite <- Heq. apply list_elem_of_here.
  - constructor; [done|]. eapply Forall_impl; [exact Hout|]. cbn. set_solver.
Qed.

(** ** What a call's result says of the server *)

Lemma run_loop_ok {T} mutation (polls : list (poll T)) : forall dispatched w v,
  run (run_loop mutation dispatched polls) w = Ok v -> Arrived (Ok v) ∈ polls.
Proof.
  induction polls as [|p polls IH]; intros dispatched w v; cbn [run_loop]; unfold run, match_result;
    destruct (slice_check w) as [[u|e] w1]; cbn; try done.
  destruct p as [|[value|error]]; cbn; intros H; try done.
  - right. by eapply IH.
  - injection H as ->. left.
Qed.

Lemma rpc_ok {T} in_runtime mutation (f : future T) w v :
  run (rpc in_runtime mutation f) w = Ok v -> finished f = Some (Answer v).
Proof.
  unfold rpc, run_future. intros H. run_inv. apply run_loop_ok in H. unfold slices in H.
  apply elem_of_app in H as [H|H]; [by apply elem_of_replicate in H as [? _]|].
  destruct (finished f) as [[message|status]|]; [|by apply list_elem_of_singleton in H|by apply not_elem_of_nil in H].
  apply list_elem_of_singleton in H. congruence.
Qed.

(** After the first slice of a mutation every failure is [UnknownDispatch]. *)
Lemma run_loop_dispatched {T} (polls : list (poll T)) : forall w e,
  run (run_loop true true polls) w = Err e -> e = Back.UnknownDispatch.
Proof.
  induction polls as [|p polls IH]; intros w e; cbn [run_loop]; unfold run, match_result;
    destruct (slice_check w) as [[u|e'] w1]; cbn; try congruence.
  destruct p as [|[value|error]]; cbn; try congruence. apply IH.
Qed.

(** A definite failure of a mutating call happened before anything was sent: it does not
    depend on the server. *)
Lemma rpc_definite {T} in_runtime (f : future T) w e :
  run (rpc in_runtime true f) w = Err e ->
  e = Back.UnknownDispatch \/ forall g : future T, run (rpc in_runtime true g) w = Err e.
Proof.
  assert (forall g : future T, run (rpc in_runtime true g) w =
    if in_runtime then Err Back.InvalidInput
    else match backend_check w with
         | (Ok _, w1) => run (run_loop true false (slices g)) w1
         | (Err e, _) => Err e
         end) as Hrun.
  { intros g. unfold rpc, run_future, run. destruct in_runtime; cbn; [done|].
    unfold mbind, M_bind, lift. by destruct (backend_check w) as [[]]. }
  setoid_rewrite Hrun. destruct in_runtime; [by right|].
  destruct (backend_check w) as [[u|e'] w1]; [|by right]. unfold run. intros H.
  destruct (slice_check w1) as [[v|e'] w2] eqn:Hc.
  - left. destruct (slices f) as [|p polls]; cbn [run_loop] in *; unfold match_result in *; rewrite Hc in H; cbn in H.
    { congruence. }
    destruct p as [|[value|error]]; cbn in H; [|done|congruence]. eapply (run_loop_dispatched polls w2). exact H.
  - right. intros g. destruct (slices g), (slices f); cbn in *; unfold match_result in *; by rewrite Hc in *.
Qed.

Lemma run_bind_err {E A B} (m : M E A) (k : A -> M E B) w e :
  run (m ≫= k) w = Err e ->
  run m w = Err e \/ exists a w', m w = (Ok a, w') /\ run (k a) w' = Err e.
Proof. unfold run, mbind, M_bind. destruct (m w) as [[a|e'] w']; cbn; [right; eauto|left; congruence]. Qed.

(** A prefix that fails fails whatever follows it. *)
Lemma bind_err_any {E A B} (m : M E A) (k : A -> M E B) w e : run m w = Err e -> run (m ≫= k) w = Err e.
Proof. unfold run, mbind, M_bind. destruct (m w) as [[a|e'] w']; cbn; [done|by intros [= ->]]. Qed.

Lemma bind_ok_any {E A B} (m : M E A) (k : A -> M E B) w a w' : m w = (Ok a, w') -> run (m ≫= k) w = run (k a) w'.
Proof. unfold run, mbind, M_bind. by intros ->. Qed.

(** [m] prepares a request of a mutating call, [k] reads its reply. *)
Definition mutating {A T B} (in_runtime : bool) (m : M Back.t A) (send : A -> future T) (k : T -> M Back.t B)
    : M Back.t B := a ← m; reply ← rpc in_runtime true (send a); k reply.

(** A definite failure: the same whatever the server answers, so nothing was sent; or the
    server answered, and the failure is what its answer says. *)
Lemma mutating_definite {A T B} in_runtime (m : M Back.t A) (send : A -> future T) (k : T -> M Back.t B) w e :
  run (mutating in_runtime m send k) w = Err e ->
  e = Back.UnknownDispatch \/
  (forall send' k', run (mutating in_runtime m send' (k' : T -> M Back.t B)) w = Err e) \/
  exists a reply w', (exists w0, m w = (Ok a, w0)) /\ finished (send a) = Some (Answer reply) /\ run (k reply) w' = Err e.
Proof.
  unfold mutating. intros H. destruct (run_bind_err _ _ _ _ H) as [Hm|(a & w1 & Hm & Hk)].
  - right; left. intros send' k'. by apply bind_err_any.
  - destruct (run_bind_err _ _ _ _ Hk) as [Hr|(reply & w2 & Hr & Hlast)].
    + destruct (rpc_definite _ _ _ _ Hr) as [->|Hany]; [by left|]. right; left. intros send' k'.
      rewrite (bind_ok_any m _ w a w1 Hm). apply bind_err_any, Hany.
    + right; right. exists a, reply, w2. split_and!; [by exists w1| |done].
      eapply rpc_ok. unfold run. by rewrite Hr.
Qed.

Section Replies.
Context `{Prost UpsertPoints, Prost Named, Prost GetPoints, Prost QueryPoints}.
Context (limits : BackendLimits) (in_runtime : bool).

Lemma query_text_ok channel name text limit w hits :
  run (query_text limits channel in_runtime name text limit) w = Ok hits ->
  exists query reply, finished (on_query channel query) = Some (Answer reply) /\
    query = {| query_collection := name; query_string := text; query_only := None; query_limit := limit |} /\
    len hits <= limit /\ Forall2 nominates reply hits /\ NoDup (Hit.id <$> hits).
Proof.
  unfold query_text. intros Hr. apply run_bind_ok in Hr as (_ & w1 & _ & Hr).
  apply run_lift_ok in Hr as (u1 & _ & Hr). apply run_lift_ok in Hr as (u2 & _ & Hr).
  apply run_lift_ok in Hr as (u3 & _ & Hr). apply run_lift_ok in Hr as (bounded & Hb & Hr).
  apply ok_or_inv, try_from_inv in Hb as [-> _].
  apply run_bind_ok in Hr as (request & w2 & Hq & Hr). apply run_bind_ok in Hr as (r & w3 & Hf & Hr).
  apply run_lift_ok in Hr as (u4 & Hg & Hr). apply run_bind_ok in Hr as (u5 & w4 & _ & Hr).
  apply hits_loop_ok in Hr as (Hall & Hnd & _). apply reject_if_ok in Hg. to_prop.
  exists request, r. split_and!; [eapply (rpc_ok in_runtime false _ w2); unfold run; by rewrite Hf| |
    |done|done].
  - unfold request_message in Hq. assert (run (request_message limits {| query_collection := name;
      query_string := text; query_only := None; query_limit := limit |}) w1 = Ok request) as Hrun
      by (unfold run, request_message; by rewrite Hq).
    unfold request_message in Hrun. run_inv. by apply ok_inj in Hrun.
  - apply Forall2_length in Hall. unfold len in *. lia.
Qed.

Lemma verify_loop_ok expected reply : forall seen w,
  run (verify_loop expected reply seen) w = Ok tt ->
  exists ps, Forall2 holds_point reply ps /\ NoDup (PointInput.id <$> ps) /\
    Forall (fun p => p ∈ expected /\ PointInput.id p ∉ seen) ps.
Proof.
  induction reply as [|point reply IH]; intros seen w Hr; cbn [verify_loop] in Hr.
  { exists []. split_and!; constructor. }
  apply run_bind_ok in Hr as (_ & w1 & _ & Hr). apply run_lift_ok in Hr as (id & Hid & Hr).
  apply run_lift_ok in Hr as (u1 & Hg & Hr). apply run_lift_ok in Hr as (wanted & Hw & Hr).
  apply run_lift_ok in Hr as (source & Hs & Hr). apply run_lift_ok in Hr as (u2 & Hsrc & Hr).
  apply run_lift_ok in Hr as (text & Ht & Hr). apply run_lift_ok in Hr as (u3 & Htxt & Hr).
  apply reject_if_ok in Hg. apply reject_if_ok in Hsrc. apply reject_if_ok in Htxt. to_prop. subst source text.
  apply ok_or_inv, find_some in Hw as [Hin Hid']. to_prop. subst id.
  apply decode_id_iff in Hid as [Hid _]. apply payload_source_ok in Hs as [Hs _].
  apply payload_string_ok in Ht. destruct (IH _ _ Hr) as (ps & Hf & Hnd & Hall).
  exists (wanted :: ps). split_and!.
  - constructor; [|done]. split_and!; [done| |done]. unfold point_struct. cbn.
    apply map_two_keys; [done|done|exact Hs|exact Ht].
  - cbn. constructor; [|done]. rewrite list_elem_of_fmap. intros (p & Heq & Hp).
    rewrite Forall_forall in Hall. apply (Hall p Hp). rewrite <- Heq. apply list_elem_of_here.
  - constructor; [by rewrite list_elem_of_In|]. eapply Forall_impl; [exact Hall|]. cbn. set_solver.
Qed.

(** What a readback that succeeded read. *)
Lemma verify_points_held channel name expected w :
  run (verify_points limits channel in_runtime name expected) w = Ok tt ->
  expected = [] \/
  exists reply ps,
    finished (on_get channel {| get_collection := name; get_ids := point_id ∘ PointInput.id <$> expected |})
      = Some (Answer reply) /\
    Forall2 holds_point reply ps /\ ps ≡ₚ expected.
Proof.
  unfold verify_points. intros Hr. apply run_bind_ok in Hr as (_ & w1 & _ & Hr).
  apply run_lift_ok in Hr as (u1 & _ & Hr). destruct (len expected =? 0) eqn:Hlen.
  { left. to_prop. destruct expected; [done|]. rewrite len_cons in Hlen. pose proof (len_nonneg expected). lia. }
  right. apply run_lift_ok in Hr as (u2 & _ & Hr). apply run_bind_ok in Hr as (batch & w2 & Hbatch & Hr).
  apply run_bind_ok in Hr as (request & w3 & Hq & Hr). apply run_bind_ok in Hr as (reply & w4 & Hf & Hr).
  apply run_lift_ok in Hr as (u3 & _ & Hr). apply run_lift_ok in Hr as (u4 & Hcount%reject_if_ok & Hr).
  to_prop. apply verify_loop_ok in Hr as (ps & Hall & Hnd & Hin).
  exists reply, ps. split_and!; [|done|].
  - assert (request = {| get_collection := name; get_ids := point_id ∘ PointInput.id <$> expected |}) as <-.
    { match type of Hq with ?m _ = _ => assert (run m w2 = Ok request) as Hrun by (unfold run; by rewrite Hq) end.
      unfold request_message in Hrun. run_inv. by apply ok_inj in Hrun. }
    eapply (rpc_ok in_runtime false _ w3). unfold run. by rewrite Hf.
  - apply submseteq_length_Permutation.
    + apply NoDup_submseteq; [by eapply NoDup_fmap_1|]. intros p Hp. rewrite Forall_forall in Hin. by apply Hin.
    + apply Forall2_length in Hall. unfold len in *. lia.
Qed.
End Replies.

(** A server that holds one point. *)
Definition no_length {T} : Prost T := fun _ => 0.
Definition sample_point : PointInput.t :=
  {| PointInput.id := replicate 16 1; PointInput.source_id := replicate 16 2;
     PointInput.retrieval_text := str "alpha" |}.
Definition sample_channel : Channel := {|
  on_create _ := {| waiting := 0; finished := Some (Answer true) |};
  on_index _ := {| waiting := 0; finished := Some (Answer (Some Completed)) |};
  on_info _ := {| waiting := 0; finished := Some (Answer None) |};
  on_exists _ _ := {| waiting := 0; finished := Some (Answer (Some true)) |};
  on_delete _ := {| waiting := 0; finished := Some (Answer true) |};
  on_upsert _ := {| waiting := 3; finished := Some (Answer (Some Completed)) |};
  on_get _ := {| waiting := 1; finished := Some (Answer
    [{| retrieved_id := Some (point_id (replicate 16 1));
        retrieved_payload := struct_payload (point_struct sample_point); retrieved_vectors := false |}]) |};
  on_count _ := {| waiting := 0; finished := Some (Answer (Some 1)) |};
  on_query _ := {| waiting := 0; finished := Some (Answer []) |} |}.
