(* ===== verification/QdrantCalls.v ===== *)
(** What the calls of the bridge prove (crates/search-index-qdrant/search-qdrant-bridge):
    a readback succeeds exactly when the server holds the batch, and a mutation that fails
    definitely was not sent, or was answered. *)

From stdpp Require Import gmap.
From S2P Require Import Prelude Bytes Utf8 Ids Dto Qdrant.

(** ** Reads *)

Lemma backend_check_calm : refines backend_check (Ok tt).
Proof. apply refines_check; set_solver. Qed.
Lemma remaining_time_calm : refines remaining_time (Ok tt).
Proof.
  intros [|o w]; [by cbn; auto|]. split.
  - destruct o; cbn; (by left) || (right; eexists; split; [reflexivity|set_solver]).
  - intros [-> Hw]%Forall_cons. done.
Qed.
Lemma slice_check_calm : refines slice_check (Ok tt).
Proof. apply refines_seq; [apply backend_check_calm|apply remaining_time_calm]. Qed.

(** A guard whose interruption is passed on. *)
Lemma outcome_passed {E B} `{Interrupt E} (m : M E unit) (k : result E unit -> M E B) (Q : B -> Prop) (X : E -> Prop) :
  refines m (Ok tt) -> outcome (k (Ok tt)) Q X -> (forall e w, k (Err e) w = (Err e, w)) -> outcome (match_result m k) Q X.
Proof.
  intros Hm Hok He w. specialize (Hm w) as [Hany Hcalm]. unfold run, match_result in *. destruct (m w) as [[[]|e] w']; cbn in *.
  - destruct (Hok w') as [Hr Hc]. unfold run in Hr. split; [|intros Hw; by apply Hc, Hcalm].
    destruct (k (Ok tt) w') as [[b|e] w'']; cbn in *; [done|]. destruct Hr as [?|[? Hn]]; [by left|right]. split; [done|].
    intros Hw. by apply Hn, Hcalm.
  - rewrite He. cbn. split; [|by intros Hw; destruct (Hcalm Hw)]. destruct Hany as [?|(e' & [= ->] & ?)]; [done|right].
    split; [done|]. intros Hw. by destruct (Hcalm Hw).
Qed.

(** The reply of a read is the server's answer. *)
Lemma rpc_read_outcome {T} in_runtime (f : future T) :
  outcome (rpc in_runtime false f) (fun reply => in_runtime = false /\ finished f = Some (Answer reply))
    (fun _ => in_runtime = true \/ forall reply, finished f <> Some (Answer reply)).
Proof.
  unfold rpc, synchronous. apply outcome_guard; [by left|]. intros ->. unfold run_future. apply outcome_seq; [apply backend_check_calm|].
  enough (forall dispatched, outcome (run_loop false dispatched (slices f)) (fun reply => false = false /\ finished f = Some (Answer reply))
    (fun _ => false = true \/ forall reply, finished f <> Some (Answer reply))) as Hloop by apply Hloop.
  destruct f as [n fin]. unfold slices. cbn [waiting finished]. induction n as [|n IH]; intros dispatched; cbn [replicate app].
  - destruct fin as [[message|status]|]; cbn [run_loop]; (apply outcome_passed; [apply slice_check_calm| |by intros e w]).
    + by apply outcome_ret.
    + apply outcome_fail. by right.
    + apply outcome_fail. by right.
  - cbn [run_loop]. apply outcome_passed; [apply slice_check_calm|apply IH|by intros e w].
Qed.

Lemma request_outcome {T} `{Prost T} limits (message : T) :
  outcome (request_message limits message) (fun m => m = message /\ encoded_len message <= max_request_bytes limits)
    (fun _ => max_request_bytes limits < encoded_len message).
Proof.
  unfold request_message. apply outcome_seq; [apply backend_check_calm|]. apply outcome_guard; intros Hb; to_prop; [done|].
  apply outcome_seq; [apply remaining_time_calm|by apply outcome_ret].
Qed.

(** ** The batch *)

Definition total_text (points : list PointInput.t) : Z := foldr (fun p n => len (PointInput.retrieval_text p) + n) 0 points.
Definition batch_message (name : list Z) (points : list PointInput.t) : UpsertPoints :=
  {| upsert_collection := name; upsert_wait := true; upsert_points := point_struct <$> points; insert_mode := true |}.

(** What a batch must be to be encoded. *)
Definition text_ok (p : PointInput.t) : Prop := 0 < len (PointInput.retrieval_text p) <= Ceiling.MAX_POINT_TEXT_BYTES.
Record batch_ok `{Prost UpsertPoints} (name : list Z) (points : list PointInput.t) : Prop := {
  b_name : collection_name name = Ok tt;
  b_count : 0 < len points <= Ceiling.MAX_PAGE_POINTS;
  b_once : NoDup (PointInput.id <$> points);
  b_texts : Forall text_ok points;
  b_bytes : len name + total_text points <= Ceiling.MAX_REQUEST_BYTES;
  b_encoded : encoded_len (batch_message name points) <= Ceiling.MAX_REQUEST_BYTES }.

Lemma total_text_nonneg points : 0 <= total_text points.
Proof. induction points as [|p points IH]; [done|]. cbn. pose proof (len_nonneg (PointInput.retrieval_text p)). fold (total_text points). lia. Qed.

Definition loop_ok (points : list PointInput.t) (ids : list (list Z)) (lower : Z) : Prop :=
  NoDup (PointInput.id <$> points) /\ Forall (fun p => PointInput.id p ∉ ids) points /\ Forall text_ok points /\
  lower + total_text points <= Ceiling.MAX_REQUEST_BYTES.
Lemma loop_ok_cons p points ids lower :
  loop_ok (p :: points) ids lower <->
  text_ok p /\ (PointInput.id p ∉ ids) /\ loop_ok points (PointInput.id p :: ids) (lower + len (PointInput.retrieval_text p)).
Proof.
  unfold loop_ok. cbn [total_text foldr]. fold (total_text points). rewrite fmap_cons, NoDup_cons, !Forall_cons, !Forall_forall, !list_elem_of_fmap.
  split.
  - intros ((Hnot & Hnd) & (Hid & Hids) & (Ht & Hts) & Hb). split_and!; try done; [|lia].
    intros q Hq [Heq|Hin]%elem_of_cons; [apply Hnot; by exists q|by apply (Hids q)].
  - intros (Ht & Hid & Hnd & Hids & Hts & Hb). split_and!; try done; [| |lia].
    + intros (q & Heq & Hq). apply (Hids q Hq). rewrite <- Heq. apply list_elem_of_here.
    + intros q Hq Hin. apply (Hids q Hq). by right.
Qed.

Lemma batch_loop_outcome points : forall ids lower, 0 <= lower <= Ceiling.MAX_REQUEST_BYTES ->
  outcome (batch_loop points ids lower) (fun _ => loop_ok points ids lower) (fun _ => ~ loop_ok points ids lower).
Proof.
  induction points as [|p points IH]; intros ids lower Hl; cbn [batch_loop].
  { apply outcome_ret. split_and!; [constructor..|]. cbn. lia. }
  pose proof (len_nonneg (PointInput.retrieval_text p)) as Ht. pose proof (total_text_nonneg points) as Htot.
  set (next := loop_ok points (PointInput.id p :: ids) (lower + len (PointInput.retrieval_text p))).
  apply (outcome_weaken _ (fun _ => text_ok p /\ (PointInput.id p ∉ ids) /\ next) _ (fun _ => ~ (text_ok p /\ (PointInput.id p ∉ ids) /\ next)));
    [|intros u Hok; by apply loop_ok_cons|intros e Hno Hok; apply Hno; by apply loop_ok_cons].
  apply outcome_seq; [apply backend_check_calm|].
  apply outcome_guard; intros Hb.
  { apply orb_true_iff in Hb as [Hb|Hb]; to_prop; intros ([? ?] & ? & ?); [lia|done]. }
  apply orb_false_iff in Hb as [Hlen Hid]. to_prop. apply outcome_guard; intros Hb; to_prop.
  { intros ([? ?] & ?). lia. }
  rewrite checked_add_some by (unfold Ceiling.MAX_REQUEST_BYTES, Ceiling.MAX_POINT_TEXT_BYTES in *; width). cbn [ok_or].
  rewrite lift_ok_bind. apply outcome_guard; intros Hsum; to_prop.
  { intros (_ & _ & _ & _ & _ & Hbytes). lia. }
  eapply outcome_weaken; [apply IH; lia| |].
  - intros u Hok. split_and!; [split; lia|done|done].
  - intros e Hno (_ & _ & Hok). done.
Qed.

Lemma struct_loop_calm points : refines (struct_loop points) (Ok (point_struct <$> points)).
Proof.
  induction points as [|p points IH]; cbn [struct_loop]; [apply refines_ret|]. apply refines_seq; [apply backend_check_calm|].
  change (Ok (point_struct <$> p :: points)) with (Ok (point_struct <$> points) ≫= fun l => @Ok Back.t _ (point_struct p :: l)).
  apply refines_bind; [done|]. intros l _. apply refines_ret.
Qed.

(** A batch is encoded exactly when it may be. *)
Lemma encode_batch_outcome `{Prost UpsertPoints} name points :
  outcome (encode_batch name points) (fun message => message = batch_message name points /\ batch_ok name points)
    (fun _ => ~ batch_ok name points).
Proof.
  unfold encode_batch. apply outcome_seq; [apply backend_check_calm|].
  apply outcome_pure; [intros [] Hname|intros e Hname [Hn _ _ _ _ _]; congruence].
  assert (0 < len name <= 255) as Hlen.
  { apply reject_if_ok in Hname. apply orb_false_iff in Hname as [[H1 H2]%orb_false_iff _]. to_prop. pose proof (len_nonneg name). lia. }
  pose proof (len_nonneg points). apply outcome_guard; intros Hb; to_prop; [intros [_ [? _] _ _ _ _]; lia|].
  apply outcome_guard; intros Hmax; to_prop; [intros [_ [_ ?] _ _ _ _]; lia|].
  eapply outcome_bind; [eapply outcome_weaken; [apply (batch_loop_outcome points [] (len name)); unfold Ceiling.MAX_REQUEST_BYTES; lia|intros u Hok; exact Hok|]|].
  { intros e Hno [_ _ ? ? ? _]. apply Hno. split_and!; [done| |done|done]. apply Forall_forall. intros p _. apply not_elem_of_nil. }
  intros _ (Hnd & _ & Hts & Hbytes). apply outcome_seq; [apply refines_reserve; set_solver|].
  apply (outcome_known _ (point_struct <$> points)); [apply struct_loop_calm|]. fold (batch_message name points).
  apply outcome_guard; intros He; to_prop; [intros [_ _ _ _ _ ?]; lia|]. apply outcome_seq; [apply backend_check_calm|].
  apply outcome_ret. split; [done|]. constructor; try done. lia.
Qed.

(** ** The readback *)

Definition point_wf (p : PointInput.t) : Prop := Uuid.wf (PointInput.id p) /\ Uuid.wf (PointInput.source_id p).

(** The reply holds expected points, each once, none of [seen]. *)
Definition returns (expected : list PointInput.t) (reply : list RetrievedPoint) (seen : list (list Z)) : Prop :=
  exists ps, Forall2 holds_point reply ps /\ NoDup (PointInput.id <$> ps) /\
    Forall (fun p => p ∈ expected /\ PointInput.id p ∉ seen) ps.

Lemma returns_cons expected point reply seen :
  returns expected (point :: reply) seen <->
  exists p, holds_point point p /\ p ∈ expected /\ (PointInput.id p ∉ seen) /\ returns expected reply (PointInput.id p :: seen).
Proof.
  split.
  - intros (ps & Hf & Hnd & Hall). destruct ps as [|p ps]; [by inversion Hf|]. apply Forall2_cons in Hf as [Hp Hf].
    rewrite fmap_cons, NoDup_cons in Hnd. destruct Hnd as [Hnot Hnd]. apply Forall_cons in Hall as [[Hin Hs] Hall].
    exists p. split_and!; [done..|]. exists ps. split_and!; [done..|]. rewrite Forall_forall in Hall |- *. intros q Hq. destruct (Hall q Hq) as [? Hns].
    split; [done|]. intros [Heq|?]%elem_of_cons; [|done]. apply Hnot. rewrite <- Heq. by apply list_elem_of_fmap_2.
  - intros (p & Hp & Hin & Hs & ps & Hf & Hnd & Hall). exists (p :: ps). rewrite Forall_forall in Hall. split_and!; [by constructor| |].
    + rewrite fmap_cons, NoDup_cons. split; [|done]. intros (q & Heq & Hq)%list_elem_of_fmap. destruct (Hall q Hq) as [_ Hns]. apply Hns.
      rewrite <- Heq. apply list_elem_of_here.
    + constructor; [done|]. apply Forall_forall. intros q Hq. destruct (Hall q Hq) as [? Hns]. split; [done|]. intros ?. apply Hns. by right.
Qed.

(** The points of a batch are told apart by their identities. *)
Lemma find_expected expected p :
  NoDup (PointInput.id <$> expected) -> p ∈ expected -> find (fun q => bool_decide (PointInput.id q = PointInput.id p)) expected = Some p.
Proof.
  induction expected as [|q expected IH]; [by intros _ ?%not_elem_of_nil|]. rewrite fmap_cons, NoDup_cons. intros [Hnot Hnd] Hin. cbn [find].
  apply elem_of_cons in Hin as [->|Hin]; [by rewrite bool_decide_true|].
  rewrite bool_decide_false; [by apply IH|]. intros Heq. apply Hnot. rewrite Heq. by apply list_elem_of_fmap_2.
Qed.

Lemma payload_of_point p point : holds_point point p -> point_wf p ->
  decode_id (retrieved_id point) = Ok (PointInput.id p) /\ retrieved_vectors point = false /\
  Z.of_nat (size (retrieved_payload point)) = 2 /\ payload_source (retrieved_payload point) = Ok (PointInput.source_id p) /\
  payload_string (retrieved_payload point) TEXT_FIELD = Ok (PointInput.retrieval_text p).
Proof.
  intros (Hid & Hpay & Hv) [Hwid Hwsrc]. rewrite Hpay. split; [by apply decode_id_iff|]. split; [done|].
  unfold point_struct. cbn [struct_payload]. split; [|split].
  - rewrite map_size_insert_None, map_size_singleton; [done|]. by rewrite lookup_singleton_ne.
  - unfold payload_source. assert (payload_string _ SOURCE_ID_KEY = Ok (Uuid.display (PointInput.source_id p))) as -> by (apply payload_string_ok, lookup_insert_eq).
    cbn [mbind result_bind]. rewrite Uuid.parse_display_ok by done.
    assert (len (Uuid.display (PointInput.source_id p)) = 36) as -> by (by apply Uuid.display_length). done.
  - apply payload_string_ok. unfold text_at. rewrite lookup_insert_ne by done. by rewrite lookup_singleton_eq.
Qed.

Lemma verify_loop_outcome expected (Honce : NoDup (PointInput.id <$> expected)) (Hwf : Forall point_wf expected) reply : forall seen,
  outcome (verify_loop expected reply seen) (fun _ => returns expected reply seen) (fun _ => ~ returns expected reply seen).
Proof.
  rewrite Forall_forall in Hwf. induction reply as [|point reply IH]; intros seen; cbn [verify_loop].
  { apply outcome_ret. exists []. split_and!; constructor. }
  assert (returns expected (point :: reply) seen -> exists p, holds_point point p /\ p ∈ expected /\ (PointInput.id p ∉ seen) /\
    returns expected reply (PointInput.id p :: seen) /\ point_wf p) as Hinv.
  { intros (p & ? & ? & ? & ?)%returns_cons. exists p. split_and!; auto. }
  apply outcome_seq; [apply backend_check_calm|].
  apply outcome_pure; [intros id Hid|intros e Hid (p & Hp & _ & _ & _ & Hw)%Hinv; destruct (payload_of_point p point Hp Hw); congruence].
  apply outcome_guard.
  { intros Hb (p & Hp & _ & Hs & _ & Hw)%Hinv. destruct (payload_of_point p point Hp Hw) as (Hid' & Hv & Hsize & _).
    rewrite Hid in Hid'. injection Hid' as ->. rewrite Hv, Hsize, bool_decide_false in Hb by done. discriminate Hb. }
  intros Hg. apply orb_false_iff in Hg as [[Hseen Hvec]%orb_false_iff Hsize]. to_prop.
  apply outcome_pure.
  2: { intros e Hf (p & Hp & Hin & _ & _ & Hw)%Hinv. destruct (payload_of_point p point Hp Hw) as (Hid' & _). rewrite Hid in Hid'.
       injection Hid' as ->. by rewrite find_expected in Hf. }
  intros wanted Hfind%ok_or_inv. pose proof (find_some _ _ Hfind) as [Hin%list_elem_of_In Heq]. to_prop. subst id.
  assert (forall p, returns expected (point :: reply) seen -> holds_point point p -> point_wf p -> p = wanted) as Hsame.
  { intros p (q & Hq & Hqin & _ & _ & Hqw)%Hinv Hp Hw. destruct (payload_of_point q point Hq Hqw) as (Hqid & _).
    assert (q = wanted) as -> by (rewrite Hid in Hqid; injection Hqid as Hqid; rewrite Hqid, find_expected in Hfind by done; congruence).
    destruct (payload_of_point p point Hp Hw) as (E1 & _ & _ & E2 & E3). destruct (payload_of_point wanted point Hq Hqw) as (F1 & _ & _ & F2 & F3).
    destruct p, wanted. cbn in *. congruence. }
  assert (returns expected (point :: reply) seen -> payload_source (retrieved_payload point) = Ok (PointInput.source_id wanted) /\
    payload_string (retrieved_payload point) TEXT_FIELD = Ok (PointInput.retrieval_text wanted) /\ returns expected reply (PointInput.id wanted :: seen)) as Hneed.
  { intros Hr. destruct (Hinv Hr) as (p & Hp & _ & _ & Hrest & Hw). pose proof (Hsame p Hr Hp Hw) as ->.
    by destruct (payload_of_point wanted point Hp Hw) as (_ & _ & _ & ? & ?). }
  apply outcome_pure; [intros source Hsource|intros e Hsource (? & _)%Hneed; congruence].
  apply outcome_guard; [intros Hb (Hs & _)%Hneed; to_prop; congruence|intros Hb; to_prop; subst source].
  apply outcome_pure; [intros text Htext|intros e Htext (_ & ? & _)%Hneed; congruence].
  apply outcome_guard; [intros Hb (_ & Ht & _)%Hneed; to_prop; congruence|intros Hb; to_prop; subst text].
  eapply outcome_weaken; [apply IH| |intros e Hno (_ & _ & ?)%Hneed; done].
  intros u Hr. apply returns_cons. exists wanted. split_and!; [|done|done|done].
  apply decode_id_iff in Hid as [Hid _]. apply payload_source_ok in Hsource as [Hsource _]. apply payload_string_ok in Htext.
  split_and!; [done| |done]. unfold point_struct. cbn. by apply map_two_keys.
Qed.

Lemma returns_all expected reply :
  NoDup (PointInput.id <$> expected) ->
  (len reply = len expected /\ returns expected reply [] <-> exists ps, Forall2 holds_point reply ps /\ ps ≡ₚ expected).
Proof.
  intros Honce. split.
  - intros (Hlen & ps & Hf & Hnd & Hall). exists ps. split; [done|]. apply submseteq_length_Permutation.
    + apply NoDup_submseteq; [by eapply NoDup_fmap_1|]. intros p Hp. rewrite Forall_forall in Hall. by apply Hall.
    + apply Forall2_length in Hf. unfold len in Hlen. lia.
  - intros (ps & Hf & Hp). apply Forall2_length in Hf as Hl. apply Permutation_length in Hp as Hl'. split; [unfold len; lia|].
    exists ps. split_and!; [done|by rewrite Hp|]. apply Forall_forall. intros p Hin. split; [by rewrite <- Hp|apply not_elem_of_nil].
Qed.

Section Readback.
Context `{Prost UpsertPoints, Prost GetPoints}.
Context (limits : BackendLimits) (channel : Channel) (in_runtime : bool).

Definition asked (name : list Z) (points : list PointInput.t) : GetPoints :=
  {| get_collection := name; get_ids := point_id ∘ PointInput.id <$> points |}.

(** The call may be made, and the server's reply is the batch: as many points, in some order,
    each what an upload sends of one of them. *)
Definition reads_back (name : list Z) (expected : list PointInput.t) : Prop :=
  collection_name name = Ok tt /\
  (expected = [] \/
   in_runtime = false /\ len expected <= max_batch_points limits /\ batch_ok name expected /\
   encoded_len (asked name expected) <= max_request_bytes limits /\
   exists reply ps, finished (on_get channel (asked name expected)) = Some (Answer reply) /\
     Forall2 holds_point reply ps /\ ps ≡ₚ expected).

(** C22. Readback of a batch.  Verifying points succeeds exactly when the call may be made
    and the server returns exactly the expected points: as many, each once, in some order,
    with the identity, the source and the complete text that an upload of that batch sends,
    nothing else in the payload, and no vectors.  Whatever the environment does, a success
    means this, and a failure means that it does not hold or that the call was
    interrupted. *)
Theorem verify_points_exact name expected (Hwf : Forall point_wf expected) :
  outcome (verify_points limits channel in_runtime name expected)
    (fun _ => reads_back name expected) (fun _ => ~ reads_back name expected).
Proof.
  unfold verify_points, reads_back. apply outcome_seq; [apply backend_check_calm|].
  apply outcome_pure; [intros [] Hname|intros e Hname [? _]; congruence].
  destruct (len expected =? 0) eqn:Hz.
  { apply outcome_ret. split; [done|left]. by destruct expected. }
  assert (expected <> []) as Hne by (intros ->; done). apply outcome_guard; intros Hb; to_prop.
  { intros [_ [?|(_ & ? & _)]]; [done|lia]. }
  eapply outcome_bind; [eapply outcome_weaken; [apply encode_batch_outcome|intros m [_ Hok]; exact Hok|]|].
  { intros e Hno [_ [?|(_ & _ & ? & _)]]; done. }
  cbv beta. intros _ Hok. fold (asked name expected).
  eapply outcome_bind; [eapply outcome_weaken; [apply request_outcome|intros m Hm; exact Hm|]|].
  { intros e Hmax [_ [?|(_ & _ & _ & ? & _)]]; [done|unfold asked in *; lia]. }
  intros request [-> Hsize].
  eapply outcome_bind; [eapply outcome_weaken; [apply rpc_read_outcome|intros r Hr; exact Hr|]|].
  { intros e [Hrt|Hnone] [_ [?|(? & _ & _ & _ & reply & ps & Hf & _)]]; [done|congruence|done|by apply (Hnone reply)]. }
  intros reply [Hrt Hf]. pose proof (returns_all expected reply (b_once _ _ Hok)) as Hall.
  assert (reads_back name expected -> len reply = len expected /\ returns expected reply []) as Hneed.
  { intros [_ [?|(_ & _ & _ & _ & reply' & ps & Hf' & Hrest)]]; [done|]. rewrite Hf in Hf'. injection Hf' as <-. apply Hall. by exists ps. }
  apply outcome_guard; [intros Hb' [? _]%Hneed; to_prop; lia|intros _].
  apply outcome_guard; [intros Hb' [? _]%Hneed; to_prop; lia|intros Hlen]. to_prop.
  eapply outcome_weaken; [by apply verify_loop_outcome, Hwf; apply (b_once _ _ Hok)| |intros e Hno [_ ?]%Hneed; done].
  intros u Hr. split; [done|right]. split_and!; [done|done|done|done|]. destruct (proj1 Hall (conj Hlen Hr)) as (ps & ?). by exists reply, ps.
Qed.
End Readback.

(** ** Mutations *)

Section Mutations.
Context `{Prost UpsertPoints, Prost Named, Prost GetPoints, Prost QueryPoints}.
Context (limits : BackendLimits) (in_runtime : bool).

Lemma bind_assoc_run {E A B C} (m : M E A) (f : A -> M E B) (g : B -> M E C) w :
  run ((m ≫= f) ≫= g) w = run (m ≫= fun a => f a ≫= g) w.
Proof. unfold run, mbind, M_bind. by destruct (m w) as [[a|e] w']. Qed.

(** The request of [insert_only] and of [create_generation]. *)
Definition insert_request (name : list Z) (points : list PointInput.t) : M Back.t UpsertPoints :=
  _ ← lift (reject_if (max_batch_points limits <? len points) Back.RequestTooLarge);
  message ← encode_batch name points;
  request_message limits message.
Definition create_request (name : list Z) : M Back.t Named :=
  _ ← lift (collection_name name);
  request_message limits (CreateCollection name).

Lemma insert_only_mutating channel name points w :
  run (insert_only limits channel in_runtime name points) w =
  run (mutating in_runtime (insert_request name points) (on_upsert channel)
         (fun reply => status ← lift (ok_or Back.UnknownDispatch reply); lift (completed status))) w.
Proof.
  unfold insert_only, mutating, insert_request. rewrite !bind_assoc_run. unfold run, mbind, M_bind, lift.
  destruct (max_batch_points limits <? len points); cbn; [done|].
  by destruct (encode_batch name points w) as [[message|e] w'].
Qed.

Lemma create_generation_mutating channel name w :
  run (create_generation limits channel in_runtime name) w =
  run (mutating in_runtime (create_request name) (on_create channel)
         (fun created : bool => _ ← lift (reject_if (negb created) Back.BackendRefused);
            lift_err (fun _ => Back.UnknownDispatch) (index_generation limits channel in_runtime name))) w.
Proof.
  unfold create_generation, mutating, create_request. rewrite !bind_assoc_run. unfold run, mbind, M_bind, lift.
  by destruct (collection_name name).
Qed.

(** What the requests of a deletion ask. *)
Lemma exists_generation_ok channel n name w present :
  run (exists_generation limits channel in_runtime n name) w = Ok present ->
  finished (on_exists channel n (CollectionExists name)) = Some (Answer (Some present)).
Proof.
  unfold exists_generation. intros Hr. apply run_lift_ok in Hr as ([] & _ & Hr). apply run_bind_ok in Hr as (request & w1 & Hq & Hr).
  apply run_bind_ok in Hr as (reply & w2 & Hf & Hr). apply ok_or_inv in Hr as ->.
  destruct (outcome_ok _ _ _ w request (request_outcome limits (CollectionExists name)) ltac:(unfold run; by rewrite Hq)) as [-> _].
  eapply (rpc_ok in_runtime false _ w1). unfold run. by rewrite Hf.
Qed.
Lemma exists_generation_same channel channel' n name : on_exists channel' = on_exists channel ->
  exists_generation limits channel' in_runtime n name = exists_generation limits channel in_runtime n name.
Proof. unfold exists_generation. by intros ->. Qed.

(** A collection's index is read back after its server completed it. *)
Lemma index_generation_ok channel name w :
  run (index_generation limits channel in_runtime name) w = Ok tt ->
  finished (on_index channel (CreateTextIndex name)) = Some (Answer (Some Completed)) /\
  exists info, finished (on_info channel (CollectionInfoOf name)) = Some (Answer (Some info)) /\ verify_info info = Ok tt.
Proof.
  unfold index_generation, verify_schema. intros Hr. apply run_bind_ok in Hr as (request & w1 & Hq & Hr).
  destruct (outcome_ok _ _ _ w request (request_outcome limits (CreateTextIndex name)) ltac:(unfold run; by rewrite Hq)) as [-> _].
  apply run_bind_ok in Hr as (reply & w2 & Hf & Hr). apply run_lift_ok in Hr as (status & Hs%ok_or_inv & Hr). subst reply.
  apply run_lift_ok in Hr as ([] & Hdone & Hr). split.
  { rewrite (rpc_ok in_runtime true (on_index channel (CreateTextIndex name)) w1 (Some status)) by (unfold run; by rewrite Hf). by destruct status. }
  apply run_lift_ok in Hr as ([] & _ & Hr). apply run_bind_ok in Hr as (request & w3 & Hq' & Hr).
  destruct (outcome_ok _ _ _ w2 request (request_outcome limits (CollectionInfoOf name)) ltac:(unfold run; by rewrite Hq')) as [-> _].
  apply run_bind_ok in Hr as (reply & w4 & Hf' & Hr). apply run_lift_ok in Hr as (info & Hi%ok_or_inv & Hr). subst reply.
  exists info. split; [|exact Hr]. eapply (rpc_ok in_runtime false _ w3). unfold run. by rewrite Hf'.
Qed.

(** A request was prepared, and this is the server's answer to it. *)
Definition answered_with {R T} (request : M Back.t R) (send : R -> future T) (w : env) (answer : T) : Prop :=
  exists message w', request w = (Ok message, w') /\ finished (send message) = Some (Answer answer).

Lemma insert_only_ends channel name points w :
  match run (insert_only limits channel in_runtime name points) w with
  | Ok _ => answered_with (insert_request name points) (on_upsert channel) w (Some Completed)
  | Err e => e = Back.UnknownDispatch \/
      (forall channel', run (insert_only limits channel' in_runtime name points) w = Err e) \/
      (e = Back.BackendRefused /\ answered_with (insert_request name points) (on_upsert channel) w (Some ClockRejected))
  end.
Proof.
  rewrite insert_only_mutating. destruct (run (mutating _ _ _ _) w) as [u|e] eqn:Hr.
  - unfold mutating in Hr. apply run_bind_ok in Hr as (request & w1 & Hm & Hr).
    apply run_bind_ok in Hr as (r & w2 & Hf & Hr). exists request, w1. split; [done|].
    assert (finished (on_upsert channel request) = Some (Answer r)) as ->
      by (eapply (rpc_ok in_runtime true _ w1); unfold run; by rewrite Hf).
    apply run_lift_ok in Hr as (status & Hs%ok_or_inv & Hr). subst r. by destruct status.
  - apply mutating_definite in Hr as [->|[Hany|(request & r & w' & [w1 Hm] & Hf & Hk)]]; [by left|right; left..|].
    { intros channel'. rewrite insert_only_mutating. apply Hany. }
    unfold run, mbind, M_bind, lift in Hk. destruct r as [[]|]; cbn in Hk; [done| |left; congruence..]. right; right. split; [congruence|].
    exists request, w1. by split.
Qed.

Lemma create_generation_ends channel name w :
  match run (create_generation limits channel in_runtime name) w with
  | Ok _ => answered_with (create_request name) (on_create channel) w true /\
      finished (on_index channel (CreateTextIndex name)) = Some (Answer (Some Completed)) /\
      exists info, finished (on_info channel (CollectionInfoOf name)) = Some (Answer (Some info)) /\ verify_info info = Ok tt
  | Err e => e = Back.UnknownDispatch \/
      (forall channel', run (create_generation limits channel' in_runtime name) w = Err e) \/
      (e = Back.BackendRefused /\ answered_with (create_request name) (on_create channel) w false)
  end.
Proof.
  rewrite create_generation_mutating. destruct (run (mutating _ _ _ _) w) as [u|e] eqn:Hr.
  - unfold mutating in Hr. apply run_bind_ok in Hr as (request & w1 & Hm & Hr). apply run_bind_ok in Hr as (r & w2 & Hf & Hr).
    apply run_lift_ok in Hr as ([] & Hyes%reject_if_ok & Hr). to_prop. subst r. split.
    + exists request, w1. split; [done|]. eapply (rpc_ok in_runtime true _ w1). unfold run. by rewrite Hf.
    + apply (index_generation_ok channel name w2). unfold run, lift_err in Hr |- *.
      destruct (index_generation _ _ _ _ w2) as [[[]|e] w3]; [done|discriminate Hr].
  - apply mutating_definite in Hr as [->|[Hany|(request & r & w' & [w1 Hm] & Hf & Hk)]]; [by left|right; left..|].
    { intros channel'. rewrite create_generation_mutating. apply Hany. }
    destruct r; cbn [negb reject_if] in Hk.
    + rewrite lift_ok_bind in Hk. left. unfold run, lift_err in Hk.
      destruct (index_generation _ _ _ _ w') as [[v|e'] w2]; cbn in Hk; congruence.
    + right; right. split; [by injection Hk as <-|]. exists request, w1. by split.
Qed.

Lemma delete_generation_ends channel name w :
  match run (delete_generation limits channel in_runtime name) w with
  | Ok _ => finished (on_exists channel 0 (CollectionExists name)) = Some (Answer (Some false)) \/
      (finished (on_delete channel (DeleteCollection name)) = Some (Answer true) /\
       finished (on_exists channel 1 (CollectionExists name)) = Some (Answer (Some false)))
  | Err e => e = Back.UnknownDispatch \/
      (forall channel', on_exists channel' = on_exists channel -> run (delete_generation limits channel' in_runtime name) w = Err e) \/
      (e = Back.BackendRefused /\ finished (on_delete channel (DeleteCollection name)) = Some (Answer false)) \/
      (finished (on_delete channel (DeleteCollection name)) = Some (Answer true) /\
       (e = Back.BackendRefused /\ finished (on_exists channel 1 (CollectionExists name)) = Some (Answer (Some true)) \/
        exists w', run (exists_generation limits channel in_runtime 1 name) w' = Err e))
  end.
Proof.
  destruct (run (delete_generation limits channel in_runtime name) w) as [u|e] eqn:Hr; unfold delete_generation in Hr.
  - apply run_lift_ok in Hr as ([] & _ & Hr). apply run_bind_ok in Hr as (present & w1 & Hp & Hr).
    pose proof (exists_generation_ok channel 0 name w present ltac:(unfold run; by rewrite Hp)) as Hex.
    destruct present; cbn [negb] in Hr; [right|by left]. apply run_bind_ok in Hr as (request & w2 & Hq & Hr).
    destruct (outcome_ok _ _ _ w1 request (request_outcome limits (DeleteCollection name)) ltac:(unfold run; by rewrite Hq)) as [-> _].
    apply run_bind_ok in Hr as (deleted & w3 & Hf & Hr). apply run_bind_ok in Hr as (remains & w4 & Hrem & Hno%reject_if_ok). subst remains.
    destruct deleted; cbn [negb] in Hrem; [|discriminate Hrem]. split.
    + eapply (rpc_ok in_runtime true _ w2). unfold run. by rewrite Hf.
    + eapply (exists_generation_ok channel 1 name w3). unfold run. by rewrite Hrem.
  - destruct (run_bind_err _ _ _ _ Hr) as [Hname|([] & w1 & Hname & Hr1)].
    { right; left. intros channel' _. by apply bind_err_any. }
    destruct (run_bind_err _ _ _ _ Hr1) as [Hp|(present & w2 & Hp & Hr2)].
    { right; left. intros channel' Hsame. unfold delete_generation. rewrite (bind_ok_any _ _ w tt w1 Hname), (exists_generation_same channel channel' 0 name Hsame).
      by apply bind_err_any. }
    destruct present; cbn [negb] in Hr2; [|discriminate Hr2]. destruct (run_bind_err _ _ _ _ Hr2) as [Hq|(request & w3 & Hq & Hr3)].
    { right; left. intros channel' Hsame. unfold delete_generation. rewrite (bind_ok_any _ _ w tt w1 Hname), (exists_generation_same channel channel' 0 name Hsame).
      rewrite (bind_ok_any _ _ w1 true w2 Hp). by apply bind_err_any. }
    destruct (outcome_ok _ _ _ w2 request (request_outcome limits (DeleteCollection name)) ltac:(unfold run; by rewrite Hq)) as [-> _].
    destruct (run_bind_err _ _ _ _ Hr3) as [Hf|(deleted & w4 & Hf & Hr4)].
    { destruct (rpc_definite _ _ _ _ Hf) as [->|Hany]; [by left|right; left]. intros channel' Hsame. unfold delete_generation.
      rewrite (bind_ok_any _ _ w tt w1 Hname), (exists_generation_same channel channel' 0 name Hsame). rewrite (bind_ok_any _ _ w1 true w2 Hp).
      cbn [negb]. rewrite (bind_ok_any _ _ w2 _ w3 Hq). apply bind_err_any, Hany. }
    right; right. assert (finished (on_delete channel (DeleteCollection name)) = Some (Answer deleted)) as Hd
      by (eapply (rpc_ok in_runtime true _ w3); unfold run; by rewrite Hf).
    destruct deleted; cbn [negb] in Hr4; [right; split; [done|]|left; split; [|done]; by injection Hr4 as <-].
    destruct (run_bind_err _ _ _ _ Hr4) as [Hrem|(remains & w5 & Hrem & Hr5)]; [right; by exists w4|left].
    destruct remains; [|discriminate Hr5]. split; [by injection Hr5 as <-|]. eapply (exists_generation_ok channel 1 name w4). unfold run. by rewrite Hrem.
Qed.

(** C21. How a mutation ends.  An insertion and a creation succeed only when the server
    completed them, a deletion only when the server said that the collection is not there,
    at once or after it acknowledged the deletion.  One that fails with any error but
    [UnknownDispatch] either sent no mutation, so that it fails with the same error whatever
    the server would have done with one; or the server answered it: it refused, or, for a
    deletion alone, it acknowledged it and the readback that follows failed or found the
    collection still there. *)
Theorem mutation_errors_definite channel name points w :
  (match run (insert_only limits channel in_runtime name points) w with
   | Ok _ => answered_with (insert_request name points) (on_upsert channel) w (Some Completed)
   | Err e => e = Back.UnknownDispatch \/
       (forall channel', run (insert_only limits channel' in_runtime name points) w = Err e) \/
       (e = Back.BackendRefused /\ answered_with (insert_request name points) (on_upsert channel) w (Some ClockRejected))
   end) /\
  (match run (create_generation limits channel in_runtime name) w with
   | Ok _ => answered_with (create_request name) (on_create channel) w true /\
       finished (on_index channel (CreateTextIndex name)) = Some (Answer (Some Completed)) /\
       exists info, finished (on_info channel (CollectionInfoOf name)) = Some (Answer (Some info)) /\ verify_info info = Ok tt
   | Err e => e = Back.UnknownDispatch \/
       (forall channel', run (create_generation limits channel' in_runtime name) w = Err e) \/
       (e = Back.BackendRefused /\ answered_with (create_request name) (on_create channel) w false)
   end) /\
  (match run (delete_generation limits channel in_runtime name) w with
   | Ok _ => finished (on_exists channel 0 (CollectionExists name)) = Some (Answer (Some false)) \/
       (finished (on_delete channel (DeleteCollection name)) = Some (Answer true) /\
        finished (on_exists channel 1 (CollectionExists name)) = Some (Answer (Some false)))
   | Err e => e = Back.UnknownDispatch \/
       (forall channel', on_exists channel' = on_exists channel -> run (delete_generation limits channel' in_runtime name) w = Err e) \/
       (e = Back.BackendRefused /\ finished (on_delete channel (DeleteCollection name)) = Some (Answer false)) \/
       (finished (on_delete channel (DeleteCollection name)) = Some (Answer true) /\
        (e = Back.BackendRefused /\ finished (on_exists channel 1 (CollectionExists name)) = Some (Answer (Some true)) \/
         exists w', run (exists_generation limits channel in_runtime 1 name) w' = Err e))
   end).
Proof. split; [apply insert_only_ends|]. split; [apply create_generation_ends|apply delete_generation_ends]. Qed.
End Mutations.


(** ** Servers *)

(** One that has lost the point, and refuses every change. *)
Definition refusing_channel : Channel := {|
  on_create _ := {| waiting := 0; finished := Some (Answer false) |};
  on_index _ := {| waiting := 0; finished := Some (Answer (Some ClockRejected)) |};
  on_info _ := {| waiting := 0; finished := Some (Answer None) |};
  on_exists _ _ := {| waiting := 0; finished := Some (Answer (Some true)) |};
  on_delete _ := {| waiting := 2; finished := Some (Answer true) |};
  on_upsert _ := {| waiting := 3; finished := Some (Answer (Some ClockRejected)) |};
  on_get _ := {| waiting := 1; finished := Some (Answer []) |};
  on_count _ := {| waiting := 0; finished := Some (Answer (Some 0)) |};
  on_query _ := {| waiting := 0; finished := Some (Answer []) |} |}.

Lemma verify_points_exact_witness :
  Forall point_wf [sample_point] /\
  @reads_back no_length no_length default_limits sample_channel false (str "g") [sample_point] /\
  ~ @reads_back no_length no_length default_limits refusing_channel false (str "g") [sample_point].
Proof.
  assert (Forall point_wf [sample_point]) as Hwf.
  { constructor; [|constructor]. split; (split; [reflexivity|apply (bool_decide_eq_true_1 _); vm_compute; reflexivity]). }
  split; [exact Hwf|]. split.
  - destruct (@verify_points_exact no_length no_length default_limits sample_channel false (str "g") [sample_point] Hwf []) as [Hr _].
    assert (run (@verify_points no_length no_length default_limits sample_channel false (str "g") [sample_point]) [] = Ok tt) as Hrun by (vm_compute; reflexivity).
    rewrite Hrun in Hr. exact Hr.
  - destruct (@verify_points_exact no_length no_length default_limits refusing_channel false (str "g") [sample_point] Hwf []) as [Hr _].
    assert (run (@verify_points no_length no_length default_limits refusing_channel false (str "g") [sample_point]) [] = Err Back.PointMismatch) as Hrun by (vm_compute; reflexivity).
    rewrite Hrun in Hr. destruct Hr as [Hno|[_ Hn]]; [exact Hno|]. exfalso. apply Hn. constructor.
Defined.

(** The insertion was sent, and refused: its failure is definite, though it is not one from
    before the dispatch. *)
Lemma mutation_errors_definite_witness :
  run (@insert_only no_length default_limits refusing_channel false (str "g") [sample_point]) [] = Err Back.BackendRefused /\
  run (@insert_only no_length default_limits refusing_channel false (str "g") [sample_point]) (replicate 12 Calm ++ [CancelSeen]) = Err Back.UnknownDispatch /\
  answered_with (@insert_request no_length default_limits (str "g") [sample_point]) (on_upsert refusing_channel) [] (Some ClockRejected) /\
  finished (on_delete refusing_channel (DeleteCollection (str "g"))) = Some (Answer true).
Proof.
  assert (run (@insert_only no_length default_limits refusing_channel false (str "g") [sample_point]) [] = Err Back.BackendRefused) as Hi by (vm_compute; reflexivity).
  assert (run (@delete_generation no_length default_limits refusing_channel false (str "g")) [] = Err Back.BackendRefused) as Hd by (vm_compute; reflexivity).
  assert (run (@insert_only no_length default_limits sample_channel false (str "g") [sample_point]) [] = Ok tt) as Hs by (vm_compute; reflexivity).
  destruct (@mutation_errors_definite no_length no_length default_limits false refusing_channel (str "g") [sample_point] []) as (Hins & _ & Hdel).
  rewrite Hi in Hins. rewrite Hd in Hdel. split; [exact Hi|]. split; [vm_compute; reflexivity|]. split.
  - destruct Hins as [Hu|[Hany|[_ Ha]]]; [discriminate Hu| |exact Ha]. specialize (Hany sample_channel). rewrite Hs in Hany. discriminate Hany.
  - destruct Hdel as [Hu|[Hany|[[_ Hf]|[Ht _]]]]; [discriminate Hu| |vm_compute in Hf; discriminate Hf|exact Ht].
    reflexivity.
Defined.

(** A refusal is definite, and is the server's answer to an insertion that it was sent. *)
Lemma insertion_refused :
  run (@insert_only no_length default_limits refusing_channel false (str "g") [sample_point]) [] = Err Back.BackendRefused /\
  run (@insert_only no_length default_limits sample_channel false (str "g") [sample_point]) [] = Ok tt.
Proof. split; vm_compute; reflexivity. Qed.
