(* ===== verification/SourceRow.v ===== *)
(** The stored form of a current source row: the error type of
    [current_source] and [encode_record]/[decode_record]
    (crates/search-control-redb/src/current_source.rs). *)

From S2P Require Import Prelude Bytes Reader Ids Registry.

Definition MAX_LOCATOR_BYTES : Z := 32 * 1024.

Inductive SourceControlError : Type :=
  | InvalidLocator | UnsupportedPlatform | UnsupportedSchema | Corrupt | Stale | Database
  | RandomUnavailable | RevisionExhausted | InventoryLimit | Deadline | Cancelled.
#[export] Instance SourceControlError_eq : EqDecision SourceControlError.
Proof. solve_decision. Defined.

Definition source_code (e : SourceControlError) : list Z :=
  match e with
  | InvalidLocator => str "SOURCE_LOCATOR_INVALID"
  | UnsupportedPlatform => str "SOURCE_PLATFORM_UNSUPPORTED"
  | UnsupportedSchema => str "SOURCE_SCHEMA_UNSUPPORTED"
  | Corrupt => str "SOURCE_CONTROL_CORRUPT"
  | Stale => str "SOURCE_STALE"
  | Database => str "SOURCE_CONTROL_IO"
  | RandomUnavailable => str "SOURCE_ID_GENERATION_FAILED"
  | RevisionExhausted => str "SOURCE_REVISION_EXHAUSTED"
  | InventoryLimit => str "SOURCE_INVENTORY_LIMIT"
  | Deadline => str "SOURCE_CONTROL_DEADLINE"
  | Cancelled => str "SOURCE_CONTROL_CANCELLED"
  end.

(** [Decoder::take] and the fixed-width readers over it. *)
Definition dec_take {E} (corrupt : E) (length : Z) : P E (list Z) := take_bytes corrupt corrupt length.
Definition dec_uint {E} (corrupt : E) (n : nat) : P E Z := take_uint corrupt corrupt n.

Definition encode_record (record : CurrentSourceRecord) : result SourceControlError (list Z) :=
  _ ← reject_if ((row_revision record =? 0) || (registration_revision record =? 0)
    || negb (bool_decide (kind (object_ref record) = Source))
    || negb (format_version (object_ref record) =? SOURCE_OBJECT_FORMAT_VERSION)
    || (len (locator record) =? 0) || (MAX_LOCATOR_BYTES <? len (locator record))) Corrupt;
  locator_length ← ok_or Corrupt (try_from U32_MAX (len (locator record)));
  Ok ([1] ++ source_namespace_id record ++ source_id record
      ++ le_bytes 8 (registration_revision record) ++ le_bytes 8 (row_revision record)
      ++ le_bytes 4 locator_length ++ locator record ++ key_to_bytes (file_key record)
      ++ le_bytes 2 (format_version (object_ref record)) ++ [kind_tag (kind (object_ref record))]
      ++ digest (object_ref record) ++ le_bytes 8 (byte_length (object_ref record))).

(** The fields after the version byte. *)
Definition read_record : P SourceControlError CurrentSourceRecord :=
  source_namespace_id ← dec_take Corrupt 16;
  source_id ← dec_take Corrupt 16;
  registration_revision ← dec_uint Corrupt 8;
  row_revision ← dec_uint Corrupt 8;
  locator_length ← dec_uint Corrupt 4 ≫= fun v => of_result (ok_or Corrupt (try_from USIZE_MAX v));
  locator ← dec_take Corrupt locator_length;
  file_key ← dec_take Corrupt 17 ≫= fun v => of_result (ok_or Corrupt (key_from_bytes v));
  format_version ← dec_uint Corrupt 2;
  kind ← dec_uint Corrupt 1 ≫= fun v => of_result (ok_or UnsupportedSchema (kind_from_tag v));
  digest ← dec_take Corrupt 32;
  byte_length ← dec_uint Corrupt 8;
  mret {| source_namespace_id := source_namespace_id; source_id := source_id;
          row_revision := row_revision; registration_revision := registration_revision;
          locator := locator; file_key := file_key;
          object_ref := {| format_version := format_version; kind := kind; digest := digest;
                           byte_length := byte_length |} |}.

Definition decode_record (bytes : list Z) : result SourceControlError CurrentSourceRecord :=
  first ← dec_uint Corrupt 1 (Reader bytes 0);
  _ ← reject_if (negb (fst first =? 1)) UnsupportedSchema;
  fields ← read_record (snd first);
  let '(record, decoder) := fields in
  _ ← reject_if (negb (at_end decoder) || (row_revision record =? 0)
    || (registration_revision record =? 0)
    || negb (format_version (object_ref record) =? SOURCE_OBJECT_FORMAT_VERSION)
    || negb (bool_decide (kind (object_ref record) = Source))
    || (MAX_SOURCE_OBJECT_BYTES <? byte_length (object_ref record))) Corrupt;
  Ok record.

(** ** Laws *)

Lemma codec_key {E} (e : E) :
  codec (dec_take e 17 ≫= fun v => of_result (ok_or e (key_from_bytes v))) key_to_bytes key_wf.
Proof.
  eapply (codec_map key_to_bytes _ _ (fun v => v)); [by apply codec_bytes| |].
  - intros k Hk. split; [split|].
    + unfold len. by rewrite key_to_bytes_length.
    + apply key_to_bytes_ok.
    + by rewrite key_from_to_bytes.
  - intros v k [Hl Hv] Hk. apply ok_or_inv in Hk. unfold len in Hl.
    destruct (key_to_from_bytes v k) as [? ?]; [lia|done|done|done].
Qed.

Lemma codec_kind {E} (e e' : E) :
  codec (dec_uint e 1 ≫= fun v => of_result (ok_or e' (kind_from_tag v))) (fun k => [kind_tag k]) (fun _ => True).
Proof.
  eapply codec_ext; [eapply (codec_map kind_tag _ _ (le_bytes 1)); [apply codec_uint| |]|].
  - intros k _. rewrite kind_from_tag_tag. split; [destruct k; cbn; lia|done].
  - intros v k _ Hk. apply ok_or_inv, kind_from_tag_inv in Hk. done.
  - intros k _. by destruct k.
Qed.

Lemma codec_usize32 {E} (e : E) :
  codec (dec_uint e 4 ≫= fun v => of_result (ok_or e (try_from USIZE_MAX v))) (le_bytes 4)
    (fun v => 0 <= v <= U32_MAX).
Proof.
  eapply (codec_map (fun v => v) _ _ (le_bytes 4)); [apply codec_uint| |].
  - intros v Hv. rewrite try_from_some by width. split; [width|done].
  - intros v w Hv Hw. inv_ok. subst. split; [done|width].
Qed.

(** The bytes of a row after the version. *)
Definition row_fields (record : CurrentSourceRecord) : list Z :=
  source_namespace_id record ++ source_id record
  ++ le_bytes 8 (registration_revision record) ++ le_bytes 8 (row_revision record)
  ++ le_bytes 4 (len (locator record)) ++ locator record ++ key_to_bytes (file_key record)
  ++ le_bytes 2 (format_version (object_ref record)) ++ [kind_tag (kind (object_ref record))]
  ++ digest (object_ref record) ++ le_bytes 8 (byte_length (object_ref record)).

Lemma codec_record :
  codec read_record row_fields (fun r => record_wf r /\ len (locator r) <= U32_MAX).
Proof.
  unfold read_record, row_fields. eapply codec_ext.
  - eapply (codec_bind source_namespace_id); [by apply codec_bytes|intros r H; destruct H as [[[? ?] ?] ?]; unfold len; split; [lia|done]|intros ns Hns].
    eapply (codec_bind source_id); [by apply codec_bytes| |intros id Hid].
    { intros r [[(_ & [? ?] & _) _] _]. unfold len. split; [lia|done]. }
    eapply (codec_bind registration_revision); [apply codec_uint| |intros reg Hreg].
    { intros r H. unfold record_wf in H. width. }
    eapply (codec_bind row_revision); [apply codec_uint| |intros row Hrow].
    { intros r H. unfold record_wf in H. width. }
    eapply (codec_bind (fun r => len (locator r))); [apply codec_usize32| |intros n Hn].
    { intros r H. pose proof (len_nonneg (locator r)). width. }
    eapply (codec_bind locator); [apply codec_bytes, Hn| |intros loc Hloc].
    { intros r H. cbv beta in *. unfold record_wf in H. tauto. }
    eapply (codec_bind file_key); [apply codec_key| |intros k Hk].
    { intros r H. unfold record_wf in H. tauto. }
    eapply (codec_bind (fun r => format_version (object_ref r))); [apply codec_uint| |intros fv Hfv].
    { intros r H. unfold record_wf, object_wf in H. width. }
    eapply (codec_bind (fun r => kind (object_ref r))); [apply codec_kind|done|intros kd _].
    eapply (codec_bind (fun r => digest (object_ref r))); [by apply codec_bytes| |intros d Hd].
    { intros r H. unfold record_wf, object_wf, Digest.wf in H. unfold len. split; [lia|tauto]. }
    eapply (codec_bind (fun r => byte_length (object_ref r))); [apply codec_uint| |intros b Hb].
    { intros r H. unfold record_wf, object_wf in H. width. }
    apply codec_ret. intros [ns' id' row' reg' loc' k' [fv' kd' d' b']]. unfold len in *. split.
    + cbn. intros H. decompose record H. by subst.
    + intros [= -> -> -> -> -> -> -> -> -> ->]. cbn. unfold record_wf, object_wf, Digest.wf, Uuid.wf, len. cbn.
      split_and!; try tauto; width.
  - intros r _. cbn. rewrite ?app_nil_r. done.
Qed.

(** The guards of [encode_record]. *)
Definition encodable (record : CurrentSourceRecord) : Prop :=
  row_revision record <> 0 /\ registration_revision record <> 0 /\
  kind (object_ref record) = Source /\ format_version (object_ref record) = SOURCE_OBJECT_FORMAT_VERSION /\
  0 < len (locator record) <= MAX_LOCATOR_BYTES.

Lemma encode_record_ok r bytes :
  encode_record r = Ok bytes <-> encodable r /\ bytes = 1 :: row_fields r.
Proof.
  unfold encode_record, encodable, row_fields. pose proof (len_nonneg (locator r)). split.
  - intros H1. inv_ok. to_prop. subst. split; [|done].
    split_and!; done || lia.
  - intros ((? & ? & ? & ? & ?) & ->). rewrite reject_if_false by solve_bool. cbn [mbind result_bind].
    rewrite try_from_some by (unfold MAX_LOCATOR_BYTES in *; width). done.
Qed.

Lemma decode_record_ok r bytes :
  bytes_ok bytes -> len bytes <= ISIZE_MAX ->
  decode_record bytes = Ok r <->
  record_wf r /\ bytes = 1 :: row_fields r /\ len (locator r) <= U32_MAX /\
  row_revision r <> 0 /\ registration_revision r <> 0 /\
  kind (object_ref r) = Source /\ format_version (object_ref r) = SOURCE_OBJECT_FORMAT_VERSION /\
  byte_length (object_ref r) <= MAX_SOURCE_OBJECT_BYTES.
Proof.
  intros Hb Hl. pose proof (reads_start bytes Hl) as Hr. pose proof (@codec_uint SourceControlError Corrupt Corrupt 1) as C1.
  unfold decode_record, dec_uint. split.
  - intros H. apply bind_ok_inv in H as ([v r1] & Hv & H). cbn [fst snd] in H. apply bind_ok_inv in H as ([] & Hone & H).
    apply reject_if_ok in Hone. apply bind_ok_inv in H as ([w r2] & Hw & H). apply bind_ok_inv in H as ([] & Hg & H).
    apply ok_inj in H as ->. apply reject_if_ok in Hg.
    destruct (codec_accounts _ _ _ C1 _ _ _ _ Hr Hb Hv) as (xs & s1 & -> & _ & Hr1 & Hs1 & -> & _).
    destruct (codec_accounts _ _ _ codec_record _ _ _ _ Hr1 Hs1 Hw) as (ys & s2 & -> & _ & Hr2 & _ & -> & HW & HL).
    rewrite (reads_at_end _ _ Hr2) in Hg. to_prop. subst. rewrite app_nil_r. split_and!; try done.
  - intros (HW & -> & HL & H1 & H2 & H3 & H4 & H5).
    destruct (codec_parses _ _ _ C1 1 ltac:(done) _ (row_fields r) Hr) as (r1 & -> & Hr1).
    cbn [mbind result_bind fst snd]. rewrite reject_if_false by done. cbn [mbind result_bind].
    rewrite <- (app_nil_r (row_fields r)) in Hr1.
    destruct (codec_parses _ _ _ codec_record r (conj HW HL) _ _ Hr1) as (r2 & -> & Hr2).
    cbn [mbind result_bind]. rewrite (reads_at_end _ _ Hr2). by rewrite reject_if_false by solve_bool.
Qed.

(** The stored form of a source row: encoding then decoding returns the row, and a
    stored byte string decodes to a row only if it is that row's encoding, so equal rows
    have equal bytes and no byte string means two rows.  The two directions differ in one
    check each: the encoder does not look at the object's size, the decoder not at the
    locator's. *)
Theorem source_row_codec r bytes :
  record_wf r /\ encode_record r = Ok bytes /\ len bytes <= ISIZE_MAX /\
    byte_length (object_ref r) <= MAX_SOURCE_OBJECT_BYTES
  <-> bytes_ok bytes /\ len bytes <= ISIZE_MAX /\ decode_record bytes = Ok r /\
    0 < len (locator r) <= MAX_LOCATOR_BYTES.
Proof.
  rewrite encode_record_ok. unfold encodable. split.
  - intros (HW & ((? & ? & ? & ? & ?) & ->) & Hl & Hb).
    assert (bytes_ok (1 :: row_fields r)) as Hok.
    { destruct HW as ([_ ?] & [_ ?] & _ & _ & ? & _ & _ & _ & [_ ?] & _).
      constructor; [unfold is_byte; lia|]. unfold row_fields, bytes_ok. rewrite !Forall_app.
      split_and!; try done; try apply le_bytes_ok; try apply key_to_bytes_ok.
      repeat constructor; destruct (kind (object_ref r)); cbn; lia. }
    split_and!; try done; try lia. apply decode_record_ok; try done. split_and!; try done.
    unfold MAX_LOCATOR_BYTES in *. width.
  - intros (Hok & Hl & Hd & Hloc). apply decode_record_ok in Hd; [|done|done].
    decompose record Hd. split_and!; try done; lia.
Qed.
