(* ===== verification/PreparationRow.v ===== *)
(** The stored form of a current preparation: the data of [current_preparation], its
    errors, [encode]/[decode] and their validation
    (crates/search-control-redb/src/current_preparation.rs). *)

From S2P Require Import Prelude Bytes Reader Ids Registry SourceRow.

Inductive PreparationGap : Type :=
  | BinaryContent | InvalidUtf8 | InputTooLarge | OutputTooLarge | TooManyLines | TooManyUnits
  | UnitTooLarge | EncodedTooLarge.
#[export] Instance PreparationGap_eq : EqDecision PreparationGap.
Proof. solve_decision. Defined.

Definition gap_code (g : PreparationGap) : list Z :=
  match g with
  | BinaryContent => str "binary_content"
  | InvalidUtf8 => str "invalid_utf8"
  | InputTooLarge => str "input_too_large"
  | OutputTooLarge => str "output_too_large"
  | TooManyLines => str "too_many_lines"
  | TooManyUnits => str "too_many_units"
  | UnitTooLarge => str "unit_too_large"
  | EncodedTooLarge => str "encoded_too_large"
  end.
Definition gap_tag (g : PreparationGap) : Z :=
  match g with
  | BinaryContent => 1 | InvalidUtf8 => 2 | InputTooLarge => 3 | OutputTooLarge => 4
  | TooManyLines => 5 | TooManyUnits => 6 | UnitTooLarge => 7 | EncodedTooLarge => 8
  end.
Definition gap_from_tag (tag : Z) : option PreparationGap :=
  match tag with
  | 1 => Some BinaryContent | 2 => Some InvalidUtf8 | 3 => Some InputTooLarge
  | 4 => Some OutputTooLarge | 5 => Some TooManyLines | 6 => Some TooManyUnits
  | 7 => Some UnitTooLarge | 8 => Some EncodedTooLarge
  | _ => None
  end.

Inductive PreparationOutcome : Type :=
  | Ready (artifact : ObjectRef)
  | Gap (reason : PreparationGap).
#[export] Instance PreparationOutcome_eq : EqDecision PreparationOutcome.
Proof. solve_decision. Defined.

Record BoundPreparationOutcome := {
  source_row_revision : Z;
  bound_registration : Z;
  input : ObjectRef;
  bound_settings : PreparationSettings;
  outcome_result : PreparationOutcome }.
#[export] Instance BoundPreparationOutcome_eq : EqDecision BoundPreparationOutcome.
Proof. solve_decision. Defined.

Definition matches_input (self : BoundPreparationOutcome) (source : CurrentSourceRecord)
    (settings : PreparationSettings) : bool :=
  bool_decide ((bound_registration self, input self, bound_settings self)
    = (registration_revision source, object_ref source, settings)).

Record CurrentPreparation := {
  prep_namespace : list Z;
  prep_source_id : list Z;
  settings_revision : Z;
  settings : PreparationSettings;
  outcome_revision : Z;
  current_outcome : option BoundPreparationOutcome }.
#[export] Instance CurrentPreparation_eq : EqDecision CurrentPreparation.
Proof. solve_decision. Defined.

(** A source with its preparation, as publication captures it (publication.rs), and how many
    one corpus has at most. *)
Record CapturedSource := { captured_source : CurrentSourceRecord; captured_preparation : CurrentPreparation }.
#[export] Instance CapturedSource_eq : EqDecision CapturedSource.
Proof. solve_decision. Defined.
Definition MAX_SOURCES : Z := 4096.

Record PreparationCapture := {
  capture_source : CurrentSourceRecord;
  capture_settings : PreparationSettings;
  capture_settings_revision : Z;
  expected_outcome_revision : Z;
  expected_outcome : option BoundPreparationOutcome }.

Module PreparationControlError.
Inductive t : Type :=
  | NotRetained | NotSelected | InvalidSettings | UnsupportedSchema | Corrupt | Stale | Database
  | RevisionExhausted | InvalidOutcome | Deadline | Cancelled.
#[global] Instance t_eq : EqDecision t.
Proof. solve_decision. Defined.

Definition code (e : t) : list Z :=
  match e with
  | NotRetained => str "PREPARATION_SOURCE_NOT_RETAINED"
  | NotSelected => str "PREPARATION_NOT_SELECTED"
  | InvalidSettings => str "PREPARATION_SETTINGS_INVALID"
  | UnsupportedSchema => str "PREPARATION_SCHEMA_UNSUPPORTED"
  | Corrupt => str "PREPARATION_CONTROL_CORRUPT"
  | Stale => str "PREPARATION_STALE"
  | Database => str "PREPARATION_CONTROL_IO"
  | RevisionExhausted => str "PREPARATION_REVISION_EXHAUSTED"
  | InvalidOutcome => str "PREPARATION_OUTCOME_INVALID"
  | Deadline => str "PREPARATION_DEADLINE"
  | Cancelled => str "PREPARATION_CANCELLED"
  end.
End PreparationControlError.

(** [source_error] *)
Definition source_error (e : SourceControlError) : PreparationControlError.t :=
  match e with
  | UnsupportedSchema => PreparationControlError.UnsupportedSchema
  | Corrupt => PreparationControlError.Corrupt
  | _ => PreparationControlError.Database
  end.

Definition put_settings (s : PreparationSettings) : list Z :=
  le_bytes 2 (utf8_version s) ++ le_bytes 2 (line_unitizer_version s)
  ++ le_bytes 4 (preferred_unit_bytes s) ++ le_bytes 4 (max_unit_bytes s).
Definition put_object (o : ObjectRef) : list Z :=
  le_bytes 2 (format_version o) ++ [kind_tag (kind o)] ++ digest o ++ le_bytes 8 (byte_length o).

Definition valid_object (o : ObjectRef) (k : ObjectKind) : bool :=
  bool_decide (kind o = k)
  && (format_version o =? SOURCE_OBJECT_FORMAT_VERSION)
  && (negb (bool_decide (k = Source)) || (byte_length o <=? MAX_SOURCE_OBJECT_BYTES))
  && (negb (bool_decide (k = Prepared)) || (0 <? byte_length o)).

Definition validate_row (row : CurrentPreparation) : result PreparationControlError.t unit :=
  _ ← reject_if ((settings_revision row =? 0) || negb (is_supported (settings row)))
    PreparationControlError.Corrupt;
  match current_outcome row with
  | None => Ok tt
  | Some o =>
      _ ← reject_if ((outcome_revision row =? 0) || (source_row_revision o =? 0)
        || (bound_registration o =? 0) || negb (is_supported (bound_settings o))
        || negb (valid_object (input o) Source)) PreparationControlError.Corrupt;
      match outcome_result o with
      | Ready artifact =>
          reject_if (negb (valid_object artifact Prepared)) PreparationControlError.InvalidOutcome
      | Gap _ => Ok tt
      end
  end.

Definition result_tag (r : PreparationOutcome) : Z := match r with Ready _ => 1 | Gap _ => 2 end.
Definition put_result (r : PreparationOutcome) : list Z :=
  match r with Ready artifact => put_object artifact | Gap reason => [gap_tag reason] end.
Definition put_outcome (outcome : option BoundPreparationOutcome) : list Z :=
  match outcome with
  | None => [0]
  | Some o =>
      [result_tag (outcome_result o)]
      ++ le_bytes 8 (source_row_revision o) ++ le_bytes 8 (bound_registration o)
      ++ put_object (input o) ++ put_settings (bound_settings o) ++ put_result (outcome_result o)
  end.

Definition row_bytes (row : CurrentPreparation) : list Z :=
  [1] ++ prep_namespace row ++ prep_source_id row ++ le_bytes 8 (settings_revision row)
  ++ put_settings (settings row) ++ le_bytes 8 (outcome_revision row)
  ++ put_outcome (current_outcome row).

Definition encode_preparation (row : CurrentPreparation) : result PreparationControlError.t (list Z) :=
  _ ← validate_row row;
  Ok (row_bytes row).

(** [Cursor]: its methods and the decoder of a row. *)
Definition cursor_array (n : Z) : P PreparationControlError.t (list Z) :=
  dec_take PreparationControlError.Corrupt n.
Definition cursor_uint (n : nat) : P PreparationControlError.t Z :=
  dec_uint PreparationControlError.Corrupt n.
Definition cursor_settings : P PreparationControlError.t PreparationSettings :=
  utf8 ← cursor_uint 2; line ← cursor_uint 2; preferred ← cursor_uint 4; maximum ← cursor_uint 4;
  mret {| utf8_version := utf8; line_unitizer_version := line;
          preferred_unit_bytes := preferred; max_unit_bytes := maximum |}.
Definition cursor_object : P PreparationControlError.t ObjectRef :=
  version ← cursor_uint 2;
  kind ← cursor_uint 1 ≫= fun v => of_result (ok_or PreparationControlError.Corrupt (kind_from_tag v));
  digest ← cursor_array 32;
  length ← cursor_uint 8;
  mret {| format_version := version; kind := kind; digest := digest; byte_length := length |}.

Definition cursor_result (tag : Z) : P PreparationControlError.t PreparationOutcome :=
  if tag =? 1 then artifact ← cursor_object; mret (Ready artifact)
  else if tag =? 2 then
    reason ← cursor_uint 1 ≫= fun v => of_result (ok_or PreparationControlError.Corrupt (gap_from_tag v));
    mret (Gap reason)
  else of_result (Err PreparationControlError.Corrupt).

Definition cursor_bound (tag : Z) : P PreparationControlError.t BoundPreparationOutcome :=
  row ← cursor_uint 8; registration ← cursor_uint 8;
  input ← cursor_object; settings ← cursor_settings; outcome ← cursor_result tag;
  mret {| source_row_revision := row; bound_registration := registration; input := input;
          bound_settings := settings; outcome_result := outcome |}.

Definition cursor_outcome : P PreparationControlError.t (option BoundPreparationOutcome) :=
  tag ← cursor_uint 1;
  if tag =? 0 then mret None else outcome ← cursor_bound tag; mret (Some outcome).

Definition cursor_row : P PreparationControlError.t CurrentPreparation :=
  namespace ← cursor_array 16; id ← cursor_array 16;
  revision ← cursor_uint 8; settings ← cursor_settings; outcome_revision ← cursor_uint 8;
  outcome ← cursor_outcome;
  mret {| prep_namespace := namespace; prep_source_id := id; settings_revision := revision;
          settings := settings; outcome_revision := outcome_revision; current_outcome := outcome |}.

Definition decode_preparation (bytes : list Z) : result PreparationControlError.t CurrentPreparation :=
  first ← cursor_uint 1 (Reader bytes 0);
  _ ← reject_if (negb (fst first =? 1)) PreparationControlError.UnsupportedSchema;
  fields ← cursor_row (snd first);
  let '(row, c) := fields in
  _ ← reject_if (negb (at_end c)) PreparationControlError.Corrupt;
  _ ← validate_row row;
  Ok row.

(** ** Laws *)

(** Widths of the Rust types. *)
Definition bound_wf (o : BoundPreparationOutcome) : Prop :=
  0 <= source_row_revision o <= U64_MAX /\ 0 <= bound_registration o <= U64_MAX /\
  object_wf (input o) /\ settings_wf (bound_settings o) /\
  match outcome_result o with Ready artifact => object_wf artifact | Gap _ => True end.
Definition outcome_wf (o : option BoundPreparationOutcome) : Prop :=
  match o with Some o => bound_wf o | None => True end.
Definition preparation_wf (row : CurrentPreparation) : Prop :=
  Uuid.wf (prep_namespace row) /\ Uuid.wf (prep_source_id row) /\
  0 <= settings_revision row <= U64_MAX /\ settings_wf (settings row) /\
  0 <= outcome_revision row <= U64_MAX /\ outcome_wf (current_outcome row).

Lemma gap_from_tag_tag g : gap_from_tag (gap_tag g) = Some g.
Proof. by destruct g. Qed.

Lemma gap_from_tag_inv t g : gap_from_tag t = Some g -> t = gap_tag g.
Proof.
  unfold gap_from_tag. destruct t as [|p|p]; try done.
  repeat match goal with q : positive |- _ => destruct q; try done end; by intros [= <-].
Qed.

Lemma codec_settings : codec cursor_settings put_settings settings_wf.
Proof.
  unfold cursor_settings, put_settings, settings_wf. eapply codec_ext.
  - eapply (codec_bind utf8_version); [apply codec_uint|intros; width|intros u Hu].
    eapply (codec_bind line_unitizer_version); [apply codec_uint|intros ? ?; cbv beta in *; width|intros l Hl].
    eapply (codec_bind preferred_unit_bytes); [apply codec_uint|intros ? ?; cbv beta in *; width|intros p Hp].
    eapply (codec_bind max_unit_bytes); [apply codec_uint|intros ? ?; cbv beta in *; width|intros m Hm].
    apply codec_ret. intros []. split.
    + cbn. intros H. decompose record H. by subst.
    + intros [= -> -> -> ->]. cbn. width.
  - intros s _. cbn. by rewrite app_nil_r.
Qed.

Lemma codec_object : codec cursor_object put_object object_wf.
Proof.
  unfold cursor_object, put_object, object_wf, Digest.wf. eapply codec_ext.
  - eapply (codec_bind format_version); [apply codec_uint|intros ? ?; cbv beta in *; width|intros v Hv].
    eapply (codec_bind kind); [apply codec_kind|done|intros k _].
    eapply (codec_bind digest); [by apply codec_bytes| |intros d Hd].
    { intros o H. unfold len. split; [lia|tauto]. }
    eapply (codec_bind byte_length); [apply codec_uint|intros ? ?; cbv beta in *; width|intros n Hn].
    apply codec_ret. intros []. unfold len in *. split.
    + cbn. intros H. decompose record H. by subst.
    + intros [= -> -> -> ->]. cbn in *. split_and!; try tauto; width.
  - intros o _. cbn. by rewrite app_nil_r.
Qed.

Lemma codec_gap :
  codec (cursor_uint 1 ≫= fun v => of_result (ok_or PreparationControlError.Corrupt (gap_from_tag v)))
    (fun g => [gap_tag g]) (fun _ => True).
Proof.
  eapply codec_ext; [eapply (codec_map gap_tag _ _ (le_bytes 1)); [apply codec_uint| |]|].
  - intros g _. rewrite gap_from_tag_tag. split; [destruct g; cbn; lia|done].
  - intros v g _ Hg. by apply ok_or_inv, gap_from_tag_inv in Hg.
  - intros g _. by destruct g.
Qed.

Lemma codec_result tag :
  codec (cursor_result tag) put_result
    (fun r => match r with Ready artifact => object_wf artifact | Gap _ => True end /\ result_tag r = tag).
Proof.
  unfold cursor_result. destruct (Z.eqb_spec tag 1) as [->|H1]; [|destruct (Z.eqb_spec tag 2) as [->|H2]].
  - eapply (codec_wrap Ready); [apply codec_object| |done]. intros [a|g]; cbn; [split; [intros [? _]; eauto|intros (? & [= ->] & ?); done]|].
    split; [lia|]. by intros (? & ? & _).
  - eapply (codec_wrap Gap); [apply codec_gap| |done]. intros [a|g]; cbn; [|split; [intros [? _]; eauto|done]].
    split; [lia|]. by intros (? & ? & _).
  - apply codec_fail. intros [a|g]; cbn; lia.
Qed.

Lemma codec_bound tag :
  codec (cursor_bound tag)
    (fun o => le_bytes 8 (source_row_revision o) ++ le_bytes 8 (bound_registration o)
      ++ put_object (input o) ++ put_settings (bound_settings o) ++ put_result (outcome_result o))
    (fun o => bound_wf o /\ result_tag (outcome_result o) = tag).
Proof.
  unfold cursor_bound, bound_wf. eapply codec_ext.
  - eapply (codec_bind source_row_revision); [apply codec_uint|intros ? ?; cbv beta in *; width|intros r Hr].
    eapply (codec_bind bound_registration); [apply codec_uint|intros ? ?; cbv beta in *; width|intros g Hg].
    eapply (codec_bind input); [apply codec_object|tauto|intros i Hi].
    eapply (codec_bind bound_settings); [apply codec_settings|tauto|intros s Hs].
    eapply (codec_bind outcome_result); [apply (codec_result tag)|tauto|intros o Ho].
    apply codec_ret. intros []. split.
    + cbn. intros H. decompose record H. by subst.
    + intros [= -> -> -> -> ->]. cbn in *. split_and!; try tauto; width.
  - intros o _. cbn. by rewrite app_nil_r.
Qed.

(** What follows the tag of an optional outcome. *)
Definition tail_bytes (o : option BoundPreparationOutcome) : list Z := tl (put_outcome o).
Definition outcome_tag (o : option BoundPreparationOutcome) : Z :=
  match o with Some o => result_tag (outcome_result o) | None => 0 end.

Lemma codec_outcome : codec cursor_outcome put_outcome outcome_wf.
Proof.
  unfold cursor_outcome. eapply codec_ext.
  - eapply (codec_bind outcome_tag _ _ (le_bytes 1) _ tail_bytes); [apply codec_uint| |].
    { intros [o|] _; cbn; [destruct (outcome_result o); cbn|]; lia. }
    intros tag Ht. destruct (Z.eqb_spec tag 0) as [->|Hne].
    + eapply codec_ext; [apply (codec_ret None)|].
      * intros [o|]; cbn; [|tauto]. split; [|done]. destruct (outcome_result o); cbn; lia.
      * intros [o|]; cbn; [|done]. destruct (outcome_result o); cbn; lia.
    + eapply (codec_wrap Some); [apply (codec_bound tag)| |done].
      intros [o|]; cbn; [split; [intros [? ?]; eauto|by intros (? & [= ->] & ?)]|]. split; [lia|]. by intros (? & ? & _).
  - intros [o|] _; cbn; [by destruct (outcome_result o)|done].
Qed.

Lemma codec_row :
  codec cursor_row
    (fun row => prep_namespace row ++ prep_source_id row ++ le_bytes 8 (settings_revision row)
       ++ put_settings (settings row) ++ le_bytes 8 (outcome_revision row)
       ++ put_outcome (current_outcome row)) preparation_wf.
Proof.
  unfold cursor_row, preparation_wf, Uuid.wf. eapply codec_ext.
  - eapply (codec_bind prep_namespace); [by apply codec_bytes|unfold len; split; [lia|tauto]|intros ns Hns].
    eapply (codec_bind prep_source_id); [by apply codec_bytes|unfold len; split; [lia|tauto]|intros id Hid].
    eapply (codec_bind settings_revision); [apply codec_uint|intros ? ?; cbv beta in *; width|intros r Hr].
    eapply (codec_bind settings); [apply codec_settings|tauto|intros s Hs].
    eapply (codec_bind outcome_revision); [apply codec_uint|intros ? ?; cbv beta in *; width|intros u Hu].
    eapply (codec_bind current_outcome); [apply codec_outcome|tauto|intros o Ho].
    apply codec_ret. intros []. unfold len in *. split.
    + cbn. intros H. decompose record H. by subst.
    + intros [= -> -> -> -> -> ->]. cbn in *. split_and!; try tauto; width.
  - intros row _. cbn. by rewrite app_nil_r.
Qed.

Lemma put_object_ok o : object_wf o -> bytes_ok (put_object o).
Proof.
  intros (_ & [_ ?] & _). unfold put_object, bytes_ok. rewrite !Forall_app.
  split_and!; try done; try apply le_bytes_ok. repeat constructor; destruct (kind o); cbn; lia.
Qed.

Lemma put_settings_ok s : bytes_ok (put_settings s).
Proof. unfold put_settings, bytes_ok. rewrite !Forall_app. split_and!; apply le_bytes_ok. Qed.

Lemma row_bytes_ok row : preparation_wf row -> bytes_ok (row_bytes row).
Proof.
  intros ([_ Hn] & [_ Hi] & _ & _ & _ & Ho). unfold row_bytes, bytes_ok. rewrite !Forall_app.
  split_and!; try done; try apply le_bytes_ok; try apply put_settings_ok.
  - repeat constructor; unfold is_byte; lia.
  - destruct (current_outcome row) as [o|]; cbn [put_outcome].
    + destruct Ho as (_ & _ & Hin & _ & Hr). rewrite !Forall_app.
      split_and!; try apply le_bytes_ok; try apply put_settings_ok; try by apply put_object_ok.
      * repeat constructor; destruct (outcome_result o); cbn; lia.
      * destruct (outcome_result o) as [a|g]; cbn; [by apply put_object_ok|].
        repeat constructor; destruct g; cbn; lia.
    + repeat constructor; unfold is_byte; lia.
Qed.

Lemma len_put_object o : object_wf o -> len (put_object o) = 43.
Proof.
  intros (_ & [Hd _] & _). unfold put_object. rewrite !len_app, !len_le_bytes. unfold len. by rewrite Hd.
Qed.

Lemma len_put_settings s : len (put_settings s) = 12.
Proof. unfold put_settings. by rewrite !len_app, !len_le_bytes. Qed.

(** A row takes at most 176 bytes. *)
Lemma row_bytes_len row : preparation_wf row -> len (row_bytes row) <= 176.
Proof.
  intros ([Hn _] & [Hi _] & _ & _ & _ & Ho). unfold row_bytes.
  assert (len (put_outcome (current_outcome row)) <= 115) as Htail.
  { destruct (current_outcome row) as [o|]; cbn [put_outcome]; [|change (1 <= 115); lia].
    destruct Ho as (_ & _ & Hin & _ & Hr). rewrite !len_app, !len_le_bytes, len_put_settings.
    rewrite (len_put_object _ Hin). cbn [length]. change (len [result_tag (outcome_result o)]) with 1.
    destruct (outcome_result o) as [a|g]; cbn [put_result]; [rewrite (len_put_object _ Hr); lia|].
    change (len [gap_tag g]) with 1. lia. }
  rewrite !len_app, !len_le_bytes, len_put_settings. change (len [1]) with 1.
  unfold len in *. lia.
Qed.

Lemma decode_preparation_ok row bytes :
  bytes_ok bytes -> len bytes <= ISIZE_MAX ->
  decode_preparation bytes = Ok row <->
  preparation_wf row /\ bytes = row_bytes row /\ validate_row row = Ok tt.
Proof.
  intros Hb Hl. pose proof (reads_start bytes Hl) as Hr.
  pose proof (@codec_uint PreparationControlError.t PreparationControlError.Corrupt
    PreparationControlError.Corrupt 1) as C1.
  unfold decode_preparation, cursor_uint, dec_uint. split.
  - intros H. apply bind_ok_inv in H as ([v r1] & Hv & H). cbn [fst snd] in H.
    apply bind_ok_inv in H as ([] & Hone & H). apply reject_if_ok in Hone.
    apply bind_ok_inv in H as ([w r2] & Hw & H). apply bind_ok_inv in H as ([] & Hg & H).
    apply bind_ok_inv in H as ([] & Hvalid & H). apply ok_inj in H as ->. apply reject_if_ok in Hg.
    destruct (codec_accounts _ _ _ C1 _ _ _ _ Hr Hb Hv) as (xs & s1 & -> & _ & Hr1 & Hs1 & -> & _).
    destruct (codec_accounts _ _ _ codec_row _ _ _ _ Hr1 Hs1 Hw) as (ys & s2 & -> & _ & Hr2 & _ & -> & HW).
    rewrite (reads_at_end _ _ Hr2) in Hg. to_prop. subst. rewrite app_nil_r. by split_and!.
  - intros (HW & -> & Hvalid).
    destruct (codec_parses _ _ _ C1 1 ltac:(done) _ (drop 1 (row_bytes row)) Hr) as (r1 & -> & Hr1).
    cbn [mbind result_bind fst snd]. rewrite reject_if_false by done. cbn [mbind result_bind].
    cbn [row_bytes app drop] in Hr1. rewrite <- (app_nil_r (prep_namespace row ++ _)) in Hr1.
    destruct (codec_parses _ _ _ codec_row row HW _ _ Hr1) as (r2 & -> & Hr2).
    cbn [mbind result_bind]. rewrite (reads_at_end _ _ Hr2). rewrite reject_if_false by solve_bool.
    cbn [mbind result_bind]. by rewrite Hvalid.
Qed.

(** The stored form of a preparation is canonical: a byte string decodes to a row
    exactly when encoding that row succeeds and gives the same bytes.  Decoding what was
    encoded returns it, every accepted string is the only encoding of its row, and both
    directions refuse the same rows (zero revisions, unsupported settings, references of
    the wrong kind, an empty prepared artifact). *)
Theorem preparation_row_codec row bytes :
  preparation_wf row /\ encode_preparation row = Ok bytes <->
  bytes_ok bytes /\ len bytes <= ISIZE_MAX /\ decode_preparation bytes = Ok row.
Proof.
  split.
  - intros [HW H]. unfold encode_preparation in H. apply bind_ok_inv in H as ([] & Hv & H).
    apply ok_inj in H as <-. pose proof (row_bytes_ok row HW) as Hok. pose proof (row_bytes_len row HW).
    assert (len (row_bytes row) <= ISIZE_MAX) by width.
    split_and!; try done. by apply decode_preparation_ok.
  - intros (Hok & Hl & H). apply decode_preparation_ok in H as (HW & -> & Hv); [|done|done].
    split; [done|]. unfold encode_preparation. by rewrite Hv.
Qed.
