(* ===== verification/ObjectStore.v ===== *)
(** The crate [search-revision-store]: naming, storing and reading immutable objects
    (crates/search-source/search-revision-store/src/lib.rs).  BLAKE3 is a parameter; the
    object directory is what the metadata and read calls observe of each name. *)

From S2P Require Import Prelude Bytes Ids Registry.

Inductive ObjectStoreError : Type :=
  | InvalidReference | Missing | NotRegularFile | IntegrityFailure | ObjectAllocationFailed
  | ImmutableConflict | PublishFailed | Io | ObjectDeadline | ObjectCancelled.
#[export] Instance ObjectStoreError_eq : EqDecision ObjectStoreError.
Proof. solve_decision. Defined.

Definition object_code (e : ObjectStoreError) : list Z :=
  match e with
  | InvalidReference => str "OBJECT_REFERENCE_INVALID"
  | Missing => str "OBJECT_MISSING"
  | NotRegularFile => str "OBJECT_NOT_REGULAR_FILE"
  | IntegrityFailure => str "OBJECT_INTEGRITY_FAILURE"
  | ObjectAllocationFailed => str "OBJECT_ALLOCATION_FAILED"
  | ImmutableConflict => str "OBJECT_IMMUTABLE_CONFLICT"
  | PublishFailed => str "OBJECT_PUBLISH_FAILED"
  | Io => str "OBJECT_IO"
  | ObjectDeadline => str "OBJECT_DEADLINE"
  | ObjectCancelled => str "OBJECT_CANCELLED"
  end.

#[export] Instance object_interrupt : Interrupt ObjectStoreError := fun e =>
  e = ObjectCancelled \/ e = ObjectDeadline \/ e = ObjectAllocationFailed.
Definition object_check : M ObjectStoreError unit := check_with ObjectCancelled ObjectDeadline.

Lemma object_cancelled : interrupt ObjectCancelled.
Proof. by left. Qed.
Lemma object_deadline : interrupt ObjectDeadline.
Proof. by right; left. Qed.
Lemma object_allocation : interrupt ObjectAllocationFailed.
Proof. by right; right. Qed.
#[export] Hint Resolve object_cancelled object_deadline object_allocation : eliot.

(** The root owner's failures (crates/search-runtime/search-runtime-owner/src/plain_root.rs). *)
Module PlainRootError.
Inductive t : Type :=
  | InvalidPath | Busy | Absent | Unsupported | Corrupt | NeedsRepair | Archive | IncompleteImport
  | WrongState | AlreadyExists | Io | TooLarge | Cancelled | Deadline | Unavailable | ProbeLimit.
End PlainRootError.

(** The [map_err] of [store_object]. *)
Definition publish_failure (e : PlainRootError.t) : ObjectStoreError :=
  match e with
  | PlainRootError.AlreadyExists => ImmutableConflict
  | PlainRootError.Deadline => ObjectDeadline
  | PlainRootError.Cancelled => ObjectCancelled
  | _ => PublishFailed
  end.

(** [format!("v{}-{}-{}", ..)]; the version is 1 here, after the guard. *)
Definition object_name (reference : ObjectRef) (maximum_bytes : Z) : result ObjectStoreError (list Z) :=
  _ ← reject_if (negb (format_version reference =? SOURCE_OBJECT_FORMAT_VERSION)
    || (maximum_bytes =? 0) || (maximum_bytes <? byte_length reference)
    || (bool_decide (kind reference = Source) && (MAX_SOURCE_OBJECT_BYTES <? byte_length reference)))
    InvalidReference;
  Ok (str "v1-" ++ kind_name (kind reference) ++ str "-" ++ hex_encode (digest reference)).

(** What the calls of one read observe of a directory entry: [symlink_metadata] (absent,
    failing, not a regular file, or a file with a length), the bytes [read_to_end] gives
    of the opened file, and the length of its metadata afterwards. *)
Inductive entry : Type :=
  | Absent
  | Unreadable
  | Special
  | File (length : Z) (contents : option (list Z)) (length_after : option Z).
Definition directory : Type := list Z -> entry.

(** A file at rest. *)
Definition at_rest (bytes : list Z) : entry := File (len bytes) (Some bytes) (Some (len bytes)).

Section Store.
Context (blake3 : list Z -> list Z).

(** [reference] *)
Definition make_reference (k : ObjectKind) (bytes : list Z) (maximum_bytes : Z)
    : result ObjectStoreError ObjectRef :=
  byte_length ← ok_or InvalidReference (try_from U64_MAX (len bytes));
  _ ← reject_if (maximum_bytes <? byte_length) InvalidReference;
  let reference := match k with
    | Source => source_ref (blake3 bytes) byte_length
    | Prepared => prepared_ref (blake3 bytes) byte_length
    end in
  _ ← object_name reference maximum_bytes;
  Ok reference.

(** [read_object] *)
Definition read_object (root : directory) (reference : ObjectRef) (maximum_bytes : Z)
    : M ObjectStoreError (list Z) :=
  _ ← object_check;
  name ← lift (object_name reference maximum_bytes);
  match root name with
  | Absent => fail Missing
  | Unreadable => fail Io
  | Special => fail NotRegularFile
  | File length contents length_after =>
      _ ← lift (reject_if (negb (length =? byte_length reference) || (maximum_bytes <? length)) IntegrityFailure);
      bound ← lift (ok_or InvalidReference (checked_add U64_MAX (byte_length reference) 1));
      capacity ← lift (ok_or InvalidReference (try_from USIZE_MAX (byte_length reference)));
      _ ← reserve_with ObjectAllocationFailed;
      contents ← lift (ok_or Io contents);
      let bytes := take (Z.to_nat bound) contents in
      _ ← lift (reject_if (negb (bool_decide (try_from U64_MAX (len bytes) = Some (byte_length reference)))
                 || negb (bool_decide (blake3 bytes = digest reference))) IntegrityFailure);
      after ← lift (ok_or Io length_after);
      _ ← lift (reject_if (negb (after =? byte_length reference)) IntegrityFailure);
      _ ← object_check;
      mret bytes
  end.

(** [store_object].  [publish root name stage bytes maximum] is the root guard's
    [publish_object_noclobber], an argument here: whatever it does to the directory, the
    result below rests on the read-back alone. *)
Definition store_object
    (publish : directory -> list Z -> list Z -> list Z -> Z -> M PlainRootError.t directory)
    (root : directory) (k : ObjectKind) (bytes : list Z) (maximum_bytes : Z)
    : M ObjectStoreError (ObjectRef * directory) :=
  _ ← object_check;
  reference ← lift (make_reference k bytes maximum_bytes);
  name ← lift (object_name reference maximum_bytes);
  let stage := str "." ++ name ++ str ".stage" in
  root ← lift_err publish_failure (publish root name stage bytes maximum_bytes);
  readback ← read_object root reference maximum_bytes;
  _ ← lift (reject_if (negb (bool_decide (try_from U64_MAX (len readback) = Some (byte_length reference))))
        IntegrityFailure);
  mret (reference, root).

(** ** Specification *)

(** What a read returns when nothing interrupts it. *)
Definition object_at (root : directory) (reference : ObjectRef) (maximum_bytes : Z)
    : result ObjectStoreError (list Z) :=
  name ← object_name reference maximum_bytes;
  match root name with
  | Absent => Err Missing
  | Unreadable => Err Io
  | Special => Err NotRegularFile
  | File length contents length_after =>
      if negb (length =? byte_length reference) || (maximum_bytes <? length) then Err IntegrityFailure
      else
        contents ← ok_or Io contents;
        let bytes := take (Z.to_nat (byte_length reference + 1)) contents in
        if negb (len bytes =? byte_length reference) || negb (bool_decide (blake3 bytes = digest reference))
        then Err IntegrityFailure
        else
          after ← ok_or Io length_after;
          if after =? byte_length reference then Ok bytes else Err IntegrityFailure
  end.

Lemma read_object_refines root reference maximum_bytes :
  0 <= byte_length reference -> maximum_bytes < U64_MAX ->
  refines (read_object root reference maximum_bytes) (object_at root reference maximum_bytes).
Proof.
  intros Hb Hmax. unfold read_object, object_at, object_check. refine_step; [auto with eliot..|].
  destruct (object_name reference maximum_bytes) as [name|e] eqn:Hname; [|apply refines_lift].
  assert (byte_length reference <= maximum_bytes) as Hle.
  { unfold object_name in Hname. apply bind_ok_inv in Hname as ([] & Hg%reject_if_ok & _). to_prop. lia. }
  cbn [mbind result_bind]. rewrite lift_ok_bind. destruct (root name) as [| | |length contents after]; try apply refines_fail.
  destruct (negb (length =? byte_length reference) || (maximum_bytes <? length)); cbn [reject_if]; [apply refines_lift|].
  rewrite lift_ok_bind. rewrite checked_add_some by lia. cbn [ok_or]. rewrite lift_ok_bind.
  rewrite try_from_some by width. cbn [ok_or]. rewrite lift_ok_bind. refine_step; [auto with eliot|].
  destruct contents as [contents|]; cbn [ok_or mbind result_bind]; [|apply refines_lift].
  rewrite lift_ok_bind. cbv zeta. set (bytes := take (Z.to_nat (byte_length reference + 1)) contents).
  assert (len bytes <= byte_length reference + 1) as Hlen by (unfold bytes, len; rewrite length_take; lia).
  pose proof (len_nonneg bytes). rewrite try_from_some by lia.
  assert (bool_decide (Some (len bytes) = Some (byte_length reference)) = (len bytes =? byte_length reference)) as ->.
  { destruct (Z.eqb_spec (len bytes) (byte_length reference)) as [->|Hne].
    - by rewrite bool_decide_true.
    - rewrite bool_decide_false; [done|]. congruence. }
  destruct (negb (len bytes =? byte_length reference) || negb (bool_decide (blake3 bytes = digest reference)));
    cbn [reject_if]; [apply refines_lift|]. rewrite lift_ok_bind.
  destruct after as [after|]; cbn [ok_or mbind result_bind]; [|apply refines_lift]. rewrite lift_ok_bind.
  destruct (after =? byte_length reference); cbn [negb reject_if]; [|apply refines_lift].
  rewrite lift_ok_bind. refine_step; [auto with eliot..|]. apply refines_ret.
Qed.

Lemma object_at_ok root reference maximum_bytes bytes :
  object_at root reference maximum_bytes = Ok bytes ->
  len bytes = byte_length reference /\ blake3 bytes = digest reference /\
  byte_length reference <= maximum_bytes /\ format_version reference = SOURCE_OBJECT_FORMAT_VERSION.
Proof.
  unfold object_at. intros H. apply bind_ok_inv in H as (name & Hname & H).
  unfold object_name in Hname. apply bind_ok_inv in Hname as ([] & Hg%reject_if_ok & _). to_prop.
  destruct (root name) as [| | |length contents after]; try done.
  destruct (negb _ || _); [done|]. apply bind_ok_inv in H as (c & _ & H).
  destruct (negb _ || _) eqn:Hc; [done|]. apply bind_ok_inv in H as (a & _ & H).
  destruct (a =? byte_length reference); [|done]. apply ok_inj in H as <-. to_prop. split_and!; try done; lia.
Qed.
End Store.

Lemma hex_encode_inj a : forall b, bytes_ok a -> bytes_ok b -> hex_encode a = hex_encode b -> a = b.
Proof.
  induction a as [|x a IH]; intros [|y b] Ha Hb; rewrite ?hex_encode_cons; try done.
  apply Forall_cons in Ha as [Hx Ha]. apply Forall_cons in Hb as [Hy Hb]. unfold hex_pair. cbn [app].
  intros [= H1 H2 H3]. destruct (hex_pair_value x Hx) as (X1 & X2 & X3 & _).
  destruct (hex_pair_value y Hy) as (Y1 & Y2 & Y3 & _). rewrite H1 in X1. rewrite H2 in X2.
  f_equal; [|by apply IH]. congruence.
Qed.

(** Reading an object is verified: bytes are returned only if their length and hash
    are the reference's, [Missing] is reported only for an absent name, an unsupported or
    oversized reference touches nothing, and a stored file that carries the referenced
    bytes is returned unchanged unless the operation is interrupted.  No other success is
    possible, whatever the directory shows or does between the calls. *)
Theorem read_object_verified blake3 root reference maximum_bytes w
    (Hlength : 0 <= byte_length reference) (Hmaximum : maximum_bytes < U64_MAX) :
  match run (read_object blake3 root reference maximum_bytes) w with
  | Ok bytes =>
      len bytes = byte_length reference /\ blake3 bytes = digest reference /\
      byte_length reference <= maximum_bytes /\ format_version reference = SOURCE_OBJECT_FORMAT_VERSION
  | Err e =>
      (e = Missing -> exists name, object_name reference maximum_bytes = Ok name /\ root name = Absent) /\
      (forall name bytes, object_name reference maximum_bytes = Ok name -> root name = at_rest bytes ->
         len bytes = byte_length reference -> blake3 bytes = digest reference ->
         interrupt e /\ ~ calm w)
  end.
Proof.
  destruct (read_object_refines blake3 root reference maximum_bytes Hlength Hmaximum w) as [Hany Hcalm].
  destruct (run _ w) as [bytes|e] eqn:Hrun.
  - destruct Hany as [Hok|(e & He & _)]; [|done]. by apply (object_at_ok blake3 root).
  - split.
    + intros ->. destruct Hany as [Hm|(e & [= <-] & Hi)]; [|by destruct Hi as [|[|]]].
      symmetry in Hm. unfold object_at in Hm. destruct (object_name reference maximum_bytes) as [name|e] eqn:Hn.
      * exists name. split; [done|]. cbn in Hm. destruct (root name) as [| | |l c a]; try done.
        destruct (negb _ || _); [done|]. destruct c as [c|]; cbn in Hm; [|done].
        destruct (negb _ || _); [done|]. destruct a as [a|]; cbn in Hm; [|done]. by destruct (a =? _).
      * unfold object_name in Hn. destruct (reject_if _ _) eqn:Hg; cbn in *; [done|].
        unfold reject_if in Hg. destruct (_ || _ || _ || _); congruence.
    + intros name bytes Hn Hroot Hl Hh.
      assert (object_at blake3 root reference maximum_bytes = Ok bytes) as Hok.
      { assert (byte_length reference <= maximum_bytes).
        { unfold object_name in Hn. apply bind_ok_inv in Hn as ([] & Hg%reject_if_ok & _). to_prop. lia. }
        unfold object_at. rewrite Hn. cbn [mbind result_bind]. rewrite Hroot. unfold at_rest. cbv iota beta.
        rewrite Hl, Z.eqb_refl. is_false (maximum_bytes <? byte_length reference). cbn [negb orb ok_or mbind result_bind].
        rewrite take_ge by (unfold len in Hl; lia). rewrite Hl, Z.eqb_refl, bool_decide_true by done.
        done. }
      rewrite Hok in Hany, Hcalm. destruct Hany as [?|(e' & [= <-] & Hi)]; [done|]. split; [done|].
      intros Hw. by destruct (Hcalm Hw).
Qed.

Definition toy_digest (bytes : list Z) : list Z := replicate 32 (len bytes).
Definition toy_root (bytes : list Z) : directory := fun _ => at_rest bytes.

Lemma read_object_verified_witness :
  run (read_object toy_digest (toy_root [7; 8; 9]) (source_ref (replicate 32 3) 3) 8) [] = Ok [7; 8; 9] /\
  toy_digest [7; 8; 9] = replicate 32 3.
Proof.
  assert (run (read_object toy_digest (toy_root [7; 8; 9]) (source_ref (replicate 32 3) 3) 8) [] = Ok [7; 8; 9])
    as Hrun by (vm_compute; reflexivity).
  split; [exact Hrun|].
  pose proof (read_object_verified toy_digest (toy_root [7; 8; 9]) (source_ref (replicate 32 3) 3) 8 []
    ltac:(vm_compute; congruence) ltac:(vm_compute; reflexivity)) as H.
  rewrite Hrun in H. destruct H as (_ & H & _). exact H.
Defined.

(** Storing is content-addressed: a store that succeeds returns the reference of
    exactly the given bytes, the directory it leaves can serve that reference with bytes
    of the same length and hash, and a name determines kind and digest, so two different
    references never share a file. *)
Theorem store_object_addressed blake3 publish root k bytes maximum_bytes w reference root'
    (Hmaximum : maximum_bytes < U64_MAX)
    (Hstore : run (store_object blake3 publish root k bytes maximum_bytes) w = Ok (reference, root')) :
  reference = {| format_version := SOURCE_OBJECT_FORMAT_VERSION; kind := k; digest := blake3 bytes;
                 byte_length := len bytes |} /\
  (exists stored, object_at blake3 root' reference maximum_bytes = Ok stored /\
     len stored = len bytes /\ blake3 stored = blake3 bytes) /\
  (forall other maximum name, object_wf reference -> object_wf other ->
     object_name reference maximum_bytes = Ok name -> object_name other maximum = Ok name ->
     kind other = k /\ digest other = blake3 bytes).
Proof.
  unfold store_object, run in Hstore.
  assert (forall A (m : M ObjectStoreError A) B (k : A -> M ObjectStoreError B) w b,
    fst ((m ≫= k) w) = Ok b -> exists a w', m w = (Ok a, w') /\ fst (k a w') = Ok b) as Hinv.
  { intros A m B k0 w0 b Hb. unfold mbind, M_bind in Hb. destruct (m w0) as [[a|e] w1]; [eauto|done]. }
  apply Hinv in Hstore as (u1 & w1 & _ & H). apply Hinv in H as (ref & w2 & Href & H).
  injection Href as Href <-. apply Hinv in H as (name & w3 & Hname & H). injection Hname as Hname <-.
  apply Hinv in H as (root1 & w4 & _ & H). apply Hinv in H as (back & w5 & Hread & H).
  apply Hinv in H as (u2 & w6 & Hlen & H). injection H as <- <-.
  assert (ref = {| format_version := SOURCE_OBJECT_FORMAT_VERSION; kind := k; digest := blake3 bytes;
                   byte_length := len bytes |}) as ->.
  { unfold make_reference in Href. apply bind_ok_inv in Href as (n & Hn%ok_or_inv%try_from_inv & Href).
    destruct Hn as [-> _]. apply bind_ok_inv in Href as ([] & _ & Href). cbv zeta in Href.
    apply bind_ok_inv in Href as (nm & _ & Href). destruct k; by injection Href as <-. }
  split; [done|]. split.
  - exists back. pose proof (len_nonneg bytes) as Hb.
    set (ref := {| format_version := SOURCE_OBJECT_FORMAT_VERSION; kind := k;
      digest := blake3 bytes; byte_length := len bytes |}) in *.
    pose proof (read_object_refines blake3 root1 ref maximum_bytes Hb Hmaximum) as Hr.
    assert (run (read_object blake3 root1 ref maximum_bytes) w4 = Ok back) as Hrun by (unfold run; by rewrite Hread).
    pose proof (refines_ok _ _ _ _ Hr Hrun) as Hat. split; [done|].
    by destruct (object_at_ok blake3 _ _ _ _ Hat) as (? & ? & _).
  - intros other maximum nm (_ & [Hd1 Hd2] & _) (_ & [Ho1 Ho2] & _) H1 H2. unfold object_name in H1, H2.
    apply bind_ok_inv in H1 as ([] & _ & H1). apply bind_ok_inv in H2 as ([] & _ & H2).
    apply ok_inj in H1 as <-. apply ok_inj in H2. cbn [kind digest] in H2, Hd2.
    destruct (kind other), k; cbn in H2; injection H2 as H2; (split; [done|]); by apply hex_encode_inj.
Qed.

Lemma store_object_addressed_witness :
  exists root', run (store_object toy_digest (fun _ _ _ bytes _ => mret (toy_root bytes)) (fun _ => Absent)
    Source [7; 8; 9] 8) [] = Ok (source_ref (replicate 32 3) 3, root') /\
    exists stored, object_at toy_digest root' (source_ref (replicate 32 3) 3) 8 = Ok stored /\ len stored = 3.
Proof.
  exists (toy_root [7; 8; 9]).
  assert (run (store_object toy_digest (fun _ _ _ bytes _ => mret (toy_root bytes)) (fun _ => Absent)
    Source [7; 8; 9] 8) [] = Ok (source_ref (replicate 32 3) 3, toy_root [7; 8; 9])) as Hrun by (vm_compute; reflexivity).
  split; [exact Hrun|].
  destruct (store_object_addressed toy_digest (fun _ _ _ bytes _ => mret (toy_root bytes)) (fun _ => Absent)
    Source [7; 8; 9] 8 [] _ _ ltac:(vm_compute; reflexivity) Hrun) as (_ & (stored & Hs & Hl & _) & _).
  exists stored. split; [exact Hs|exact Hl].
Defined.
