(* ===== verification/Literal.v ===== *)
(** Literal matching shared by the raw and decoded executors of [eliot-searchd]: the
    failure type of queries, the compiled prefix table, the block-wise scan, and the
    conversions of stored references to wire references
    (bins/eliot-searchd/src/exact_literal.rs, verified_query.rs). *)

From Stdlib Require Import Sorted.
From S2P Require Import Prelude Bytes Ids Registry Dto SourceRow PreparationRow.

Inductive QueryFailure : Type :=
  | QueryCancelled
  | QueryDeadline
  | Code (code : list Z).
#[export] Instance QueryFailure_eq : EqDecision QueryFailure.
Proof. solve_decision. Defined.

Definition allocation_failed : QueryFailure := Code (str "QUERY_ALLOCATION_FAILED").

(** Interruptions: cancellation, the deadline, memory refused to the query itself, to the
    object store or to the artifact decoder, and a read of the pinned snapshot that the
    database failed (its codes). *)
#[export] Instance query_interrupt : Interrupt QueryFailure := fun e =>
  e = QueryCancelled \/ e = QueryDeadline \/
  e ∈ [allocation_failed; Code (str "OBJECT_ALLOCATION_FAILED"); Code (str "PREPARATION_ALLOCATION_FAILED");
       Code (str "PUBLICATION_ALLOCATION_FAILED"); Code (str "PUBLICATION_CONTROL_IO"); Code (str "PUBLICATION_CORRUPT");
       Code (str "PUBLICATION_RANDOM_UNAVAILABLE"); Code (str "PUBLICATION_LIMIT")].

Lemma query_cancelled : interrupt QueryCancelled.
Proof. by left. Qed.
Lemma query_deadline : interrupt QueryDeadline.
Proof. by right; left. Qed.
Lemma query_allocation : interrupt allocation_failed.
Proof. right; right. apply list_elem_of_here. Qed.
#[export] Hint Resolve query_cancelled query_deadline query_allocation : eliot.

Definition BLOCK_BYTES : Z := 8192.
Definition query_check : M QueryFailure unit := check_with QueryCancelled QueryDeadline.

(** An index out of range panics; no run of the code below does. *)
Record Literal := { lit_bytes : list Z; lit_prefix : list Z }.

(** [while matched != 0 && byte != bytes\[matched\] { matched = prefix\[matched - 1\]; }];
    every turn decreases [matched]. *)
Fixpoint fall (bytes prefix : list Z) (byte : Z) (fuel : nat) (matched : Z) : option Z :=
  if matched =? 0 then Some 0
  else
    match at_ bytes matched with
    | None => None
    | Some b =>
        if byte =? b then Some matched
        else
          match fuel with
          | O => None
          | S fuel =>
              match at_ prefix (matched - 1) with
              | None => None
              | Some next => fall bytes prefix byte fuel next
              end
          end
    end.

(** The fall and the comparison after it. *)
Definition advance_match (bytes prefix : list Z) (byte matched : Z) : option Z :=
  match fall bytes prefix byte (Z.to_nat matched) matched with
  | None => None
  | Some matched =>
      match at_ bytes matched with
      | None => None
      | Some b => Some (if byte =? b then matched + 1 else matched)
      end
  end.

(** [for index in 1..bytes.len()]; [prefix] holds the entries written so far, followed by
    the zeros of [resize]. *)
Fixpoint prefix_table (bytes : list Z) (rest : list Z) (index : Z) (prefix : list Z) (matched : Z)
    : option (list Z) :=
  match rest with
  | [] => Some prefix
  | byte :: rest =>
      match advance_match bytes prefix byte matched with
      | None => None
      | Some matched =>
          prefix_table bytes rest (index + 1) (<[Z.to_nat index := matched]> prefix) matched
      end
  end.

(** The code the process reports when it panics; it never does, by [literal_new]. *)
Definition PANIC : QueryFailure := Code (str "PANIC").

(** [Literal::new] *)
Definition literal_new (bytes : list Z) : M QueryFailure Literal :=
  _ ← query_check;
  _ ← lift (reject_if (len bytes =? 0) (Code (str "EXACT_LITERAL_INVALID")));
  _ ← reserve_with allocation_failed;
  prefix ← lift (ok_or PANIC (prefix_table bytes (tl bytes) 1 (replicate (length bytes) 0) 0));
  _ ← query_check;
  mret {| lit_bytes := bytes; lit_prefix := prefix |}.

(** [for (index, byte) in block.iter().enumerate()]; [found] is the callback with the
    state it captures. *)
Fixpoint scan_block {S} (self : Literal) (found : Z -> Z -> S -> M QueryFailure S)
    (consumed index matched : Z) (block : list Z) (s : S) : M QueryFailure (Z * S) :=
  match block with
  | [] => mret (matched, s)
  | byte :: block =>
      matched ← lift (ok_or PANIC (advance_match (lit_bytes self) (lit_prefix self) byte matched));
      if matched =? len (lit_bytes self) then
        let stop := consumed + index + 1 in
        s ← found (stop - len (lit_bytes self)) stop s;
        matched ← lift (ok_or PANIC (at_ (lit_prefix self) (matched - 1)));
        scan_block self found consumed (index + 1) matched block s
      else scan_block self found consumed (index + 1) matched block s
  end.

(** [for block in input.chunks(BLOCK_BYTES)] *)
Fixpoint scan_blocks {S} (self : Literal) (found : Z -> Z -> S -> M QueryFailure S)
    (consumed matched : Z) (blocks : list (list Z)) (s : S) : M QueryFailure S :=
  match blocks with
  | [] => mret s
  | block :: blocks =>
      _ ← query_check;
      state ← scan_block self found consumed 0 matched block s;
      scan_blocks self found (consumed + len block) (fst state) blocks (snd state)
  end.

(** [Literal::scan] *)
Definition scan {S} (self : Literal) (input : list Z) (found : Z -> Z -> S -> M QueryFailure S) (s : S)
    : M QueryFailure S :=
  s ← scan_blocks self found 0 0 (chunks (Z.to_nat BLOCK_BYTES) input) s;
  _ ← query_check;
  mret s.

(** [hex] *)
Definition hex (bytes : list Z) : M QueryFailure (list Z) :=
  _ ← reserve_with allocation_failed;
  mret (hex_encode bytes).

(** [object_ref] *)
Definition dto_kind (k : ObjectKind) : ObjectKindDto :=
  match k with Registry.Source => Dto.Source | Registry.Prepared => Dto.Prepared end.
Definition object_ref_dto (reference : ObjectRef) : M QueryFailure ObjectRefDto.t :=
  digest ← hex (digest reference);
  mret {| ObjectRefDto.version := format_version reference; ObjectRefDto.kind := dto_kind (kind reference);
          ObjectRefDto.digest := digest; ObjectRefDto.bytes := byte_length reference |}.

(** [source_ref] *)
Definition source_ref_dto (source : CurrentSourceRecord) : M QueryFailure RawSourceRef.t :=
  input ← object_ref_dto (object_ref source);
  mret {| RawSourceRef.source_namespace_id := Uuid.display (source_namespace_id source);
          RawSourceRef.source_id := Uuid.display (source_id source);
          RawSourceRef.row_revision := row_revision source;
          RawSourceRef.registration_revision := registration_revision source;
          RawSourceRef.input := input |}.

(** [inventory.binary_search_by_key(&id, |entry| entry.source.source_id).is_ok()] *)
Definition published (inventory : list CapturedSource) (id : list Z) : bool :=
  bool_decide (is_Some (binary_search ((fun entry => source_id (captured_source entry)) <$> inventory) id)).

Fixpoint select_ids (inventory : list CapturedSource) (ids selected : list (list Z))
    : M QueryFailure (list (list Z)) :=
  match ids with
  | [] => mret selected
  | id :: ids =>
      _ ← query_check;
      id ← lift (map_err (fun _ => Code (str "EXACT_SELECTION_INVALID")) (Uuid.parse id));
      _ ← lift (reject_if (negb (published inventory id)) (Code (str "EXACT_SOURCE_NOT_PUBLISHED")));
      select_ids inventory ids (selected ++ [id])
  end.

(** [select_sources] *)
Definition select_sources (inventory : list CapturedSource) (ids : option (list (list Z)))
    : M QueryFailure (list CapturedSource) :=
  inventory ← match ids with
    | None => mret inventory
    | Some ids =>
        _ ← reserve_with allocation_failed;
        selected ← select_ids inventory ids [];
        mret (filter (fun entry => source_id (captured_source entry) ∈ selected) inventory)
    end;
  _ ← query_check;
  mret inventory.

(** ** The prefix table *)

Section Kmp.
Variable p : list Z.

(** The first [k] bytes of the literal end the text. *)
Definition ends (k : nat) (t : list Z) : Prop := take k p `suffix_of` t.

(** [k] is the longest such prefix of at most [b] bytes. *)
Definition longest (t : list Z) (b k : nat) : Prop :=
  (k <= b)%nat /\ ends k t /\ forall j, (j <= b)%nat -> ends j t -> (j <= k)%nat.

(** The first [n] entries of the table hold the longest proper borders. *)
Definition table_upto (prefix : list Z) (n : nat) : Prop :=
  length prefix = length p /\
  forall i, (i < n)%nat -> exists k, prefix !! i = Some (Z.of_nat k) /\ longest (take (S i) p) i k.

Lemma ends_zero t : ends 0 t.
Proof. unfold ends. rewrite take_0. apply suffix_nil. Qed.

Lemma ends_within j k t :
  (j <= k)%nat -> (k <= length p)%nat -> ends j t -> ends k t -> ends j (take k p).
Proof.
  intros Hjk Hk Hj Hkt. unfold ends in *.
  destruct (suffix_weak_total _ _ _ Hj Hkt) as [H|H]; [done|].
  assert (k = j) as ->; [|done].
  apply suffix_length in H. rewrite !length_take in H. lia.
Qed.

Lemma ends_snoc k t b c :
  p !! k = Some c -> ends (S k) (t ++ [b]) <-> ends k t /\ b = c.
Proof.
  intros Hc. unfold ends. rewrite (take_S_r _ _ _ Hc). split.
  - intros H. pose proof (suffix_snoc_inv_1 _ _ _ _ H). pose proof (suffix_snoc_inv_2 _ _ _ _ H). done.
  - intros [H ->]. by apply suffix_app.
Qed.

Lemma longest_zero t b : (forall j, (j <= b)%nat -> ends j t -> j = 0%nat) -> longest t b 0.
Proof. intros H. split_and!; [lia|apply ends_zero|]. intros j Hj Ht. by rewrite (H j Hj Ht). Qed.

Lemma fall_spec prefix b t fuel : forall k,
  (k <= fuel)%nat -> (k < length p)%nat -> table_upto prefix k -> ends k t ->
  exists k', fall p prefix b fuel (Z.of_nat k) = Some (Z.of_nat k') /\ (k' <= k)%nat /\ ends k' t /\
    (k' = 0%nat \/ p !! k' = Some b) /\
    (forall j, (j <= k)%nat -> ends j t -> p !! j = Some b -> (j <= k')%nat).
Proof.
  induction fuel as [|fuel IH]; intros k Hfuel Hk Htable Hend.
  { assert (k = 0%nat) as -> by lia. exists 0%nat. cbn. split_and!; (done || (by left) || (intros; lia)). }
  cbn [fall]. destruct (Z.eqb_spec (Z.of_nat k) 0) as [Hz|Hz].
  { assert (k = 0%nat) as -> by lia. exists 0%nat. split_and!; (done || (by left) || (intros; lia)). }
  rewrite at_nat. destruct (lookup_lt_is_Some_2 p k Hk) as [c Hc]. rewrite Hc.
  destruct (Z.eqb_spec b c) as [->|Hbc].
  { exists k. split_and!; (done || (by right) || (intros; lia)). }
  replace (Z.of_nat k - 1) with (Z.of_nat (k - 1)) by lia. rewrite at_nat.
  destruct Htable as [Hlen Htable]. destruct (Htable (k - 1)%nat ltac:(lia)) as (n & -> & Hn1 & Hn2 & Hn3).
  replace (S (k - 1)) with k in * by lia.
  destruct (IH n) as (k' & -> & H1 & H2 & H3 & H4); [lia|lia| | |].
  - split; [done|]. intros i Hi. apply Htable. lia.
  - unfold ends in *. by etransitivity.
  - exists k'. split_and!; try done; [lia|]. intros j Hj Hjt Hjb.
    assert (j <> k) by (intros ->; congruence). apply H4; [|done|done].
    apply Hn3; [lia|]. apply (ends_within _ _ t); [lia|lia|done|done].
Qed.

(** One byte more: the fall and the comparison give the longest prefix again. *)
Lemma advance_match_spec prefix b t bound k :
  (bound < length p)%nat -> table_upto prefix k -> longest t bound k ->
  exists k', advance_match p prefix b (Z.of_nat k) = Some (Z.of_nat k') /\ longest (t ++ [b]) (S bound) k'.
Proof.
  intros Hb Htable (Hk & Hend & Hmax). unfold advance_match. rewrite Nat2Z.id.
  destruct (fall_spec prefix b t k k) as (k' & -> & H1 & H2 & H3 & H4); [lia|lia|done|done|].
  rewrite at_nat. destruct (lookup_lt_is_Some_2 p k' ltac:(lia)) as [c Hc]. rewrite Hc.
  assert (forall j c', p !! j = Some c' -> (S j <= S bound)%nat -> ends (S j) (t ++ [b]) ->
    (j <= k')%nat /\ b = c') as Hstep.
  { intros j c' Hj Hle Hend'. apply (ends_snoc _ _ _ _ Hj) in Hend' as [Hjt ->].
    split; [|done]. apply H4; [|done|done]. apply Hmax; [lia|done]. }
  destruct (Z.eqb_spec b c) as [->|Hbc].
  - exists (S k'). split; [f_equal; lia|]. split_and!; [lia|by apply (ends_snoc _ _ _ _ Hc)|].
    intros [|j] Hj Hend'; [lia|]. destruct (lookup_lt_is_Some_2 p j ltac:(lia)) as [c' Hc'].
    destruct (Hstep j c' Hc'); [lia|done|lia].
  - assert (k' = 0%nat) as -> by (destruct H3 as [?|?]; [done|congruence]).
    exists 0%nat. split; [done|]. apply longest_zero. intros [|j] Hj Hend'; [done|].
    destruct (lookup_lt_is_Some_2 p j ltac:(lia)) as [c' Hc'].
    destruct (Hstep j c' Hc') as [Hj0 ->]; [lia|done|]. assert (j = 0%nat) as -> by lia. congruence.
Qed.

Lemma prefix_table_spec rest : forall index prefix matched,
  rest = drop index p -> (0 < index <= length p)%nat ->
  longest (take index p) (index - 1) matched -> table_upto prefix index ->
  exists table, prefix_table p rest (Z.of_nat index) prefix (Z.of_nat matched) = Some table /\
    table_upto table (length p).
Proof.
  induction rest as [|b rest IH]; intros index prefix matched Hrest Hi Hm Htable; cbn [prefix_table].
  - exists prefix. split; [done|]. assert (index = length p) as <-; [|done].
    apply (f_equal length) in Hrest. rewrite length_drop in Hrest. cbn in Hrest. lia.
  - assert (index < length p)%nat as Hlt.
    { apply (f_equal length) in Hrest. rewrite length_drop in Hrest. cbn in Hrest. lia. }
    destruct (lookup_lt_is_Some_2 p index Hlt) as [c Hc].
    assert (b = c /\ rest = drop (S index) p) as [-> ->].
    { rewrite (drop_S p c index Hc) in Hrest. by injection Hrest. }
    destruct (advance_match_spec prefix c (take index p) (index - 1) matched) as (k' & -> & Hk'); [lia| |done|].
    { destruct Htable as [? Ht]. split; [done|]. intros i Hi'. apply Ht. destruct Hm. lia. }
    rewrite <- (take_S_r _ _ _ Hc) in Hk'. replace (S (index - 1)) with index in Hk' by lia.
    replace (Z.of_nat index + 1) with (Z.of_nat (S index)) by lia.
    apply IH; [done|lia|by replace (S index - 1)%nat with index by lia|].
    destruct Htable as [Hl Ht]. split; [by rewrite length_insert|]. intros i Hi'. rewrite Nat2Z.id.
    destruct (decide (i = index)) as [->|Hne].
    + exists k'. rewrite list_lookup_insert_eq by lia. done.
    + rewrite list_lookup_insert_ne by done. apply Ht. lia.
Qed.

(** After a whole match the table gives the state that allows overlaps. *)
Lemma longest_match t prefix :
  p <> [] -> table_upto prefix (length p) -> ends (length p) t ->
  exists k, at_ prefix (len p - 1) = Some (Z.of_nat k) /\ longest t (length p - 1) k.
Proof.
  intros Hp [_ Ht] Hend. assert (0 < length p)%nat by (destruct p; [done|cbn; lia]).
  destruct (Ht (length p - 1)%nat ltac:(lia)) as (k & Hk & H1 & H2 & H3).
  replace (S (length p - 1)) with (length p) in * by lia.
  exists k. unfold len. replace (Z.of_nat (length p) - 1) with (Z.of_nat (length p - 1)) by lia.
  rewrite at_nat. split; [done|]. split_and!; [done| |].
  - unfold ends in *. by etransitivity.
  - intros j Hj Hjt. apply H3; [done|]. apply (ends_within _ _ t); [lia|lia|done|done].
Qed.

(** The starts of the occurrences that end inside [rest], in order, after the text [t]. *)
Fixpoint hits (t rest : list Z) : list Z :=
  match rest with
  | [] => []
  | b :: rest =>
      (if decide (p `suffix_of` t ++ [b]) then [len t + 1 - len p] else []) ++ hits (t ++ [b]) rest
  end.

Lemma hits_app t a b : hits t (a ++ b) = hits t a ++ hits (t ++ a) b.
Proof.
  revert t. induction a as [|x a IH]; intros t; cbn [hits app]; [by rewrite app_nil_r|].
  rewrite IH, <- !(assoc_L (++)). done.
Qed.
End Kmp.

(** ** The scan *)

(** All starts of the literal in the input, overlapping ones included, in order. *)
Definition occurrences (literal input : list Z) : list Z :=
  Z.of_nat <$> filter (fun s => take (length literal) (drop s input) = literal)
    (seq 0 (length input + 1 - length literal)).

Lemma suffix_occurrence (p l : list Z) s :
  (s + length p <= length l)%nat ->
  p `suffix_of` take (s + length p) l <-> take (length p) (drop s l) = p.
Proof.
  intros Hs. assert (take (s + length p) l = take s l ++ take (length p) (drop s l)) as ->.
  { rewrite <- (take_drop s l) at 1. rewrite take_app, length_take, take_take. f_equal; f_equal; lia. }
  split.
  - intros [x Hx]. apply app_inj_2 in Hx as [_ ->]; [done|]. rewrite length_take, length_drop. lia.
  - intros ->. by exists (take s l).
Qed.

Lemma hits_shift (p l : list Z) n : forall s,
  (s + n + length p <= length l + 1)%nat ->
  (fun e : nat => Z.of_nat e - len p) <$> filter (fun e => p `suffix_of` take e l) (seq (s + length p) n)
  = Z.of_nat <$> filter (fun s => take (length p) (drop s l) = p) (seq s n).
Proof.
  induction n as [|n IH]; intros s Hs; [done|]. cbn [seq]. rewrite !filter_cons.
  specialize (IH (S s) ltac:(lia)). cbn [Nat.add] in IH. pose proof (suffix_occurrence p l s ltac:(lia)) as Hiff.
  destruct (decide (p `suffix_of` take (s + length p) l)) as [Hd|Hd],
    (decide (take (length p) (drop s l) = p)) as [He|He]; try tauto.
  cbn. rewrite IH. f_equal. unfold len. lia.
Qed.

Lemma hits_none (p l : list Z) n : forall s, (s + n <= length p)%nat ->
  filter (fun e => p `suffix_of` take e l) (seq s n) = [].
Proof.
  induction n as [|n IH]; intros s Hs; [done|]. cbn [seq]. rewrite filter_cons, IH by lia.
  rewrite decide_False; [done|]. intros Hd. apply suffix_length in Hd. rewrite length_take in Hd. lia.
Qed.

Lemma hits_spec p input : p <> [] -> hits p [] input = occurrences p input.
Proof.
  intros Hp.
  assert (forall rest t, hits p t rest
    = (fun e : nat => Z.of_nat e - len p) <$>
      filter (fun e => p `suffix_of` take e (t ++ rest)) (seq (S (length t)) (length rest))) as Hgen.
  { induction rest as [|b rest IH]; intros t; [done|]. cbn [hits length seq].
    rewrite IH, length_app. cbn [length]. rewrite Nat.add_1_r, <- (assoc_L (++)). cbn [app].
    rewrite filter_cons.
    assert (take (S (length t)) (t ++ b :: rest) = t ++ [b]) as ->.
    { rewrite take_app. rewrite take_ge by lia. f_equal. by replace (S (length t) - length t)%nat with 1%nat by lia. }
    destruct (decide (p `suffix_of` t ++ [b])); [|done]. cbn. f_equal. unfold len. lia. }
  rewrite Hgen. cbn [app length]. unfold occurrences.
  assert (0 < length p)%nat by (destruct p; [done|cbn; lia]).
  destruct (decide (length p <= length input)%nat) as [Hle|Hgt].
  - replace (length input) with ((length p - 1) + (length input + 1 - length p))%nat at 1 by lia.
    rewrite seq_app, filter_app, (hits_none p) by lia. cbn [app].
    replace (1 + (length p - 1))%nat with (0 + length p)%nat by lia. apply hits_shift. lia.
  - rewrite hits_none by lia. by replace (length input + 1 - length p)%nat with 0%nat by lia.
Qed.

(** The callback applied to each occurrence in turn. *)
Fixpoint fold_found {S E} (f : Z -> Z -> S -> result E S) (length : Z) (starts : list Z) (s : S)
    : result E S :=
  match starts with
  | [] => Ok s
  | start :: starts => s ← f start (start + length) s; fold_found f length starts s
  end.

Lemma fold_found_app {S E} (f : Z -> Z -> S -> result E S) n a b s :
  fold_found f n (a ++ b) s = (s ← fold_found f n a s; fold_found f n b s).
Proof.
  revert s. induction a as [|x a IH]; intros s; cbn [fold_found app]; [done|].
  destruct (f x (x + n) s); cbn; [apply IH|done].
Qed.

(** A compiled literal. *)
Definition literal_ok (self : Literal) : Prop :=
  lit_bytes self <> [] /\ table_upto (lit_bytes self) (lit_prefix self) (length (lit_bytes self)).

Lemma literal_new_refines bytes :
  exists l, lit_bytes l = bytes /\ (bytes <> [] -> literal_ok l) /\
    refines (literal_new bytes)
      (if len bytes =? 0 then Err (Code (str "EXACT_LITERAL_INVALID")) else Ok l).
Proof.
  destruct bytes as [|b bytes].
  { exists {| lit_bytes := []; lit_prefix := [] |}. split_and!; [done|done|]. unfold literal_new, query_check.
    refine_step; [auto with eliot..|]. apply refines_lift. }
  destruct (prefix_table_spec (b :: bytes) (tl (b :: bytes)) 1 (replicate (length (b :: bytes)) 0) 0)
    as (table & Ht & Hok); [done|cbn; lia| | |].
  { apply longest_zero. intros j Hj _. lia. }
  { split; [by rewrite length_replicate|]. intros i Hi. exists 0%nat. assert (i = 0%nat) as -> by lia.
    split; [done|]. apply longest_zero. intros j Hj _. lia. }
  exists {| lit_bytes := b :: bytes; lit_prefix := table |}. split_and!; [done|by split|].
  unfold literal_new, query_check. is_false (len (b :: bytes) =? 0).
  refine_step; [auto with eliot..|]. cbn [reject_if]. rewrite lift_ok_bind.
  refine_step; [auto with eliot|]. change (Z.of_nat 1) with 1 in Ht. change (Z.of_nat 0) with 0 in Ht.
  rewrite Ht. cbn [ok_or]. rewrite lift_ok_bind. refine_step; [auto with eliot..|]. apply refines_ret.
Qed.

Section Scan.
Context {S : Type} (self : Literal) (found : Z -> Z -> S -> M QueryFailure S)
  (f : Z -> Z -> S -> result QueryFailure S).
Hypothesis Hself : literal_ok self.
Hypothesis Hfound : forall a b s, refines (found a b s) (f a b s).

Local Abbreviation p := (lit_bytes self).

Lemma literal_positive : (0 < length p)%nat.
Proof. destruct Hself as [Hp _]. destruct p; [done|cbn; lia]. Qed.

Lemma scan_block_refines block : forall consumed index t k s,
  len t = consumed + index -> longest p t (length p - 1) k ->
  exists k', longest p (t ++ block) (length p - 1) k' /\
    refines (scan_block self found consumed index (Z.of_nat k) block s)
      (s ← fold_found f (len p) (hits p t block) s; Ok (Z.of_nat k', s)).
Proof.
  pose proof literal_positive as Hpos. destruct Hself as [Hp Htable].
  induction block as [|b block IH]; intros consumed index t k s Ht Hk; cbn [scan_block hits].
  - rewrite app_nil_r. exists k. split; [done|]. apply refines_ret.
  - destruct (advance_match_spec p (lit_prefix self) b t (length p - 1) k) as (k1 & Hadv & Hk1); [lia| |done|].
    { destruct Htable as [? Ht']. split; [done|]. intros i Hi. apply Ht'. destruct Hk. lia. }
    rewrite Hadv. cbn [ok_or]. rewrite lift_ok_bind. replace (Datatypes.S (length p - 1)) with (length p) in Hk1 by lia.
    assert (ends p (length p) (t ++ [b]) <-> p `suffix_of` t ++ [b]) as Hsuf by (unfold ends; by rewrite take_ge).
    assert (len (t ++ [b]) = consumed + (index + 1)) as Hnext by (rewrite len_app; unfold len in *; cbn; lia).
    destruct (decide (p `suffix_of` t ++ [b])) as [Hd|Hd].
    + assert (k1 = length p) as ->.
      { destruct Hk1 as (? & _ & Hmax). apply Nat.le_antisymm; [done|]. apply Hmax; [done|by apply Hsuf]. }
      destruct (longest_match p (t ++ [b]) (lit_prefix self) Hp Htable (proj2 Hsuf Hd)) as (k2 & Hat & Hk2).
      fold (len p). rewrite Hat. cbn [ok_or app fold_found].
      replace (consumed + index + 1 - len p) with (len t + 1 - len p) by lia.
      replace (consumed + index + 1) with (len t + 1 - len p + len p) by lia.
      assert (forall s', exists k', longest p ((t ++ [b]) ++ block) (length p - 1) k' /\
        refines (scan_block self found consumed (index + 1) (Z.of_nat k2) block s')
          (s ← fold_found f (len p) (hits p (t ++ [b]) block) s'; Ok (Z.of_nat k', s))) as Hrest.
      { intros s'. apply (IH consumed (index + 1) (t ++ [b]) k2 s'); done. }
      destruct (f (len t + 1 - len p) (len t + 1 - len p + len p) s) as [s1|e] eqn:Hf.
      * destruct (Hrest s1) as (k' & Hk' & Href). exists k'. rewrite <- (assoc_L (++)) in Hk'. split; [done|].
        rewrite Z.eqb_refl. cbn [mbind result_bind].
        eapply refines_bind_ok; [rewrite <- Hf; apply Hfound|].
        rewrite lift_ok_bind. exact Href.
      * destruct (Hrest s) as (k' & Hk' & _). exists k'. rewrite <- (assoc_L (++)) in Hk'. split; [done|].
        rewrite Z.eqb_refl. cbn [mbind result_bind].
        eapply refines_bind_err. rewrite <- Hf. apply Hfound.
    + assert (longest p (t ++ [b]) (length p - 1) k1 /\ k1 <> length p) as [Hk2 Hne].
      { destruct Hk1 as (Hle & Hend & Hmax).
        assert (k1 <> length p) as Hne by (intros ->; tauto).
        split; [|done]. split_and!; [lia|done|]. intros j Hj. apply Hmax. lia. }
      assert (Z.of_nat k1 <> len p) as Hne' by (unfold len; lia).
      is_false (Z.of_nat k1 =? len p).
      cbn [app]. destruct (IH consumed (index + 1) (t ++ [b]) k1 s) as (k' & Hk' & Href); [done|done|].
      exists k'. rewrite <- (assoc_L (++)) in Hk'. split; [done|exact Href].
Qed.
Lemma scan_blocks_refines blocks : forall t k s,
  longest p t (length p - 1) k ->
  refines (scan_blocks self found (len t) (Z.of_nat k) blocks s)
    (fold_found f (len p) (hits p t (concat blocks)) s).
Proof.
  induction blocks as [|block blocks IH]; intros t k s Hk; cbn [scan_blocks concat].
  - apply refines_ret.
  - unfold query_check. refine_step; [auto with eliot..|].
    rewrite hits_app, fold_found_app.
    destruct (scan_block_refines block (len t) 0 t k s) as (k' & Hk' & Hblock); [lia|done|].
    destruct (fold_found f (len p) (hits p t block) s) as [s1|e]; cbn [mbind result_bind] in *.
    + eapply refines_bind_ok; [exact Hblock|]. cbn [fst snd]. rewrite <- len_app. by apply IH.
    + by eapply refines_bind_err.
Qed.

(** The scan is the fold of the callback over all occurrences. *)
Lemma scan_refines input s :
  refines (scan self input found s) (fold_found f (len p) (occurrences p input) s).
Proof.
  destruct Hself as [Hp _]. unfold scan. rewrite <- (hits_spec p input Hp).
  pose proof (chunks_concat (Z.to_nat BLOCK_BYTES) input ltac:(unfold BLOCK_BYTES; lia)) as Hc.
  pose proof (scan_blocks_refines (chunks (Z.to_nat BLOCK_BYTES) input) [] 0 s) as Hs.
  rewrite Hc in Hs. change (len []) with 0 in Hs. change (Z.of_nat 0) with 0 in Hs.
  specialize (Hs ltac:(apply longest_zero; intros j Hj Hend; apply suffix_nil_inv in Hend;
    apply (f_equal length) in Hend; rewrite length_take in Hend; cbn in Hend; pose proof literal_positive; lia)).
  destruct (fold_found f (len p) (hits p [] input) s) as [s1|e].
  - eapply refines_bind_ok; [exact Hs|]. unfold query_check. refine_step; [auto with eliot..|].
    apply refines_ret.
  - by eapply refines_bind_err.
Qed.
End Scan.

(** C6. Literal matching is exact.  For every non-empty literal and every input, compiling
    the literal and scanning the input block by block calls the callback for precisely
    the positions where the literal occurs, overlapping ones included, in increasing order
    and with the right range, until the callback itself fails; the prefix table and the
    block boundaries are invisible.  An empty literal is refused.  The only other
    outcomes are a cancelled or expired operation and refused memory, and an index never
    leaves its array. *)
Theorem literal_scan_exact {S} (bytes input : list Z) (found : Z -> Z -> S -> M QueryFailure S)
    (f : Z -> Z -> S -> result QueryFailure S) (s : S)
    (Hfound : forall a b s, refines (found a b s) (f a b s)) :
  refines (literal ← literal_new bytes; scan literal input found s)
    (if len bytes =? 0 then Err (Code (str "EXACT_LITERAL_INVALID"))
     else fold_found f (len bytes) (occurrences bytes input) s).
Proof.
  destruct (literal_new_refines bytes) as (l & Hl & Hok & Hnew).
  destruct (len bytes =? 0) eqn:He.
  - by eapply refines_bind_err.
  - eapply refines_bind_ok; [exact Hnew|]. rewrite <- Hl. apply scan_refines; [|done].
    apply Hok. intros ->. by to_prop.
Qed.

(** Collecting the ranges of "aba" in "ababab". *)
Lemma literal_scan_exact_witness :
  run (literal ← literal_new (str "aba");
       scan literal (str "ababab") (fun a b s => mret (s ++ [(a, b)])) []) []
  = Ok [(0, 3); (2, 5)].
Proof.
  assert (calm []) as Hcalm by constructor.
  exact (refines_calm _ _ [] (literal_scan_exact (str "aba") (str "ababab")
    (fun a b s => mret (s ++ [(a, b)])) (fun a b s => Ok (s ++ [(a, b)])) []
    (fun a b s => refines_ret _)) Hcalm).
Defined.

(** ** Occurrences *)

Lemma occurrences_in literal input start :
  start ∈ occurrences literal input <->
  0 <= start /\ slice input start (start + len literal) = Some literal.
Proof.
  unfold occurrences. rewrite list_elem_of_fmap. setoid_rewrite list_elem_of_filter. setoid_rewrite elem_of_seq.
  split.
  - intros (s & -> & Hs & Hr). split; [lia|]. rewrite slice_some by (unfold len; lia).
    f_equal. rewrite <- Hs at 2. f_equal; [unfold len; lia|]. by rewrite Nat2Z.id.
  - intros [H0 Hs]. apply slice_inv in Hs as (H1 & H2 & Hs). exists (Z.to_nat start).
    split_and!; [lia| |unfold len in *; lia..]. rewrite Hs at 2. f_equal. unfold len. lia.
Qed.

Lemma occurrences_sorted literal input : StronglySorted Z.lt (occurrences literal input).
Proof.
  unfold occurrences. generalize (length input + 1 - length literal)%nat. intros n. generalize 0%nat.
  induction n as [|n IH]; intros s; cbn [seq]; [constructor|].
  rewrite filter_cons. destruct (decide _); [|apply IH]. cbn. constructor; [apply IH|].
  apply Forall_fmap, Forall_forall. intros x Hx. apply list_elem_of_filter in Hx as [_ Hx].
  apply elem_of_seq in Hx. cbn. lia.
Qed.

Lemma occurrences_count literal input :
  literal <> [] -> len (occurrences literal input) <= len input.
Proof.
  intros Hl. unfold occurrences, len. rewrite length_fmap.
  pose proof (length_filter (fun s => take (length literal) (drop s input) = literal)
    (seq 0 (length input + 1 - length literal))) as Hf.
  rewrite length_seq in Hf. assert (0 < length literal)%nat by (destruct literal; [done|cbn; lia]). lia.
Qed.

(** ** References and selection *)

Definition object_dto (reference : ObjectRef) : ObjectRefDto.t :=
  {| ObjectRefDto.version := format_version reference; ObjectRefDto.kind := dto_kind (kind reference);
     ObjectRefDto.digest := hex_encode (digest reference); ObjectRefDto.bytes := byte_length reference |}.
Definition source_dto (source : CurrentSourceRecord) : RawSourceRef.t :=
  {| RawSourceRef.source_namespace_id := Uuid.display (source_namespace_id source);
     RawSourceRef.source_id := Uuid.display (source_id source);
     RawSourceRef.row_revision := row_revision source;
     RawSourceRef.registration_revision := registration_revision source;
     RawSourceRef.input := object_dto (object_ref source) |}.

Lemma hex_refines bytes : refines (hex bytes) (Ok (hex_encode bytes)).
Proof. unfold hex. refine_step; [auto with eliot|]. apply refines_ret. Qed.

Lemma object_ref_refines reference : refines (object_ref_dto reference) (Ok (object_dto reference)).
Proof. unfold object_ref_dto. eapply refines_bind_ok; [apply hex_refines|]. apply refines_ret. Qed.

Lemma source_ref_refines source : refines (source_ref_dto source) (Ok (source_dto source)).
Proof. unfold source_ref_dto. eapply refines_bind_ok; [apply object_ref_refines|]. apply refines_ret. Qed.

(** An inventory in the order of the source table: strictly increasing identities. *)
Definition sorted_inventory (inventory : list CapturedSource) : Prop :=
  StronglySorted (fun a b => bytes_lt (source_id (captured_source a)) (source_id (captured_source b)) = true) inventory.

Lemma inventory_keys inventory :
  sorted_inventory inventory -> sorted_keys ((fun entry => source_id (captured_source entry)) <$> inventory).
Proof. unfold sorted_keys. induction 1 as [|x l Hs IH Hx]; cbn; constructor; [done|]. by apply Forall_fmap. Qed.

Lemma published_spec inventory id :
  sorted_inventory inventory ->
  published inventory id = true <-> exists entry, entry ∈ inventory /\ source_id (captured_source entry) = id.
Proof.
  intros Hs. unfold published. rewrite bool_decide_eq_true. split.
  - intros [n Hn]. apply binary_search_spec in Hn as [_ Hn]; [|by apply inventory_keys]. apply list_elem_of_lookup_2, list_elem_of_fmap in Hn as (entry & -> & ?). by exists entry.
  - intros (entry & Hin & <-). apply (list_elem_of_fmap_2 (fun entry => source_id (captured_source entry))) in Hin as (i & Hi)%list_elem_of_lookup.
    exists (Z.of_nat i). apply binary_search_spec; [by apply inventory_keys|].
    split; [lia|]. by rewrite Nat2Z.id.
Qed.

(** What an explicit selection does: the first identity that is malformed or not in the
    inventory decides the error. *)
Fixpoint parse_ids (inventory : list CapturedSource) (ids : list (list Z)) : result QueryFailure (list (list Z)) :=
  match ids with
  | [] => Ok []
  | text :: ids =>
      id ← map_err (fun _ => Code (str "EXACT_SELECTION_INVALID")) (Uuid.parse text);
      _ ← reject_if (negb (published inventory id)) (Code (str "EXACT_SOURCE_NOT_PUBLISHED"));
      rest ← parse_ids inventory ids;
      Ok (id :: rest)
  end.
Definition selection (inventory : list CapturedSource) (ids : option (list (list Z)))
    : result QueryFailure (list CapturedSource) :=
  match ids with
  | None => Ok inventory
  | Some ids =>
      selected ← parse_ids inventory ids;
      Ok (filter (fun entry => source_id (captured_source entry) ∈ selected) inventory)
  end.

Lemma select_ids_refines inventory ids : forall selected,
  refines (select_ids inventory ids selected) (rest ← parse_ids inventory ids; Ok (selected ++ rest)).
Proof.
  induction ids as [|text ids IH]; intros selected; cbn [select_ids parse_ids].
  - cbn. rewrite app_nil_r. apply refines_ret.
  - unfold query_check. refine_step; [auto with eliot..|].
    destruct (map_err _ (Uuid.parse text)) as [id|e]; cbn [mbind result_bind]; [|apply refines_lift].
    rewrite lift_ok_bind. destruct (negb (published inventory id)); cbn [reject_if mbind result_bind]; [apply refines_lift|].
    rewrite lift_ok_bind. specialize (IH (selected ++ [id])).
    destruct (parse_ids inventory ids) as [rest|e]; cbn [mbind result_bind] in *; [|exact IH].
    by rewrite <- (assoc_L (++)) in IH.
Qed.

Lemma select_refines inventory ids :
  refines (select_sources inventory ids) (selection inventory ids).
Proof.
  unfold select_sources, selection. destruct ids as [ids|].
  - apply refines_assoc. refine_step; [auto with eliot|]. apply refines_assoc.
    pose proof (select_ids_refines inventory ids []) as Hs.
    destruct (parse_ids inventory ids) as [selected|e]; cbn [mbind result_bind app] in *.
    + eapply refines_bind_ok; [exact Hs|]. apply refines_seq_ret. unfold query_check.
      refine_step; [auto with eliot..|]. apply refines_ret.
    + by eapply refines_bind_err.
  - apply refines_seq_ret. unfold query_check. refine_step; [auto with eliot..|]. apply refines_ret.
Qed.
