(* ===== verification/ExactResult.v ===== *)
(** What the raw and the decoded executors share: the counters and the bounded item
    prefix they accumulate over the selected sources, their closed form, the order of
    stored and displayed identities, and why the finished result passes the wire's own
    validation. *)

From Stdlib Require Import Sorted.
From S2P Require Import Prelude Bytes Ids Registry Dto DtoFacts SourceRow PreparationRow Literal.

(** ** Order of identities and of their texts *)

Lemma compare_app a b c d :
  length a = length b ->
  bytes_compare (a ++ c) (b ++ d) = match bytes_compare a b with Eq => bytes_compare c d | o => o end.
Proof.
  revert b. induction a as [|x a IH]; intros [|y b]; try done. intros [= Hl]. cbn. rewrite IH by done.
  by destruct (x ?= y).
Qed.

Lemma hex_pair_compare x y : is_byte x -> is_byte y -> bytes_compare (hex_pair x) (hex_pair y) = (x ?= y).
Proof.
  intros Hx Hy.
  pose (p x y := bool_decide (bytes_compare (hex_pair x) (hex_pair y) = (x ?= y))).
  assert (forallb (fun x => forallb (p x) all_bytes) all_bytes = true) as Hall by (vm_compute; reflexivity).
  pose proof (forall_bytes (fun x => forallb (p x) all_bytes) x Hall Hx) as Hp. cbv beta in Hp.
  pose proof (forall_bytes (p x) y Hp Hy) as Hxy. unfold p in Hxy. by to_prop.
Qed.

Lemma hex_compare a : forall b, bytes_ok a -> bytes_ok b ->
  bytes_compare (hex_encode a) (hex_encode b) = bytes_compare a b.
Proof.
  induction a as [|x a IH]; intros [|y b] Ha Hb; rewrite ?hex_encode_cons; try done.
  apply Forall_cons in Ha as [Hx Ha]. apply Forall_cons in Hb as [Hy Hb].
  rewrite compare_app by done. rewrite hex_pair_compare by done.
  change (bytes_compare (x :: a) (y :: b)) with (match x ?= y with Eq => bytes_compare a b | c => c end).
  rewrite IH by done. reflexivity.
Qed.

(** The dashes do not change the order. *)
Lemma display_compare a b :
  Uuid.wf a -> Uuid.wf b -> bytes_compare (Uuid.display a) (Uuid.display b) = bytes_compare a b.
Proof.
  intros [La Ha] [Lb Hb]. rewrite <- (hex_compare a b Ha Hb). unfold Uuid.display.
  pose proof (hex_encode_length a) as LA. pose proof (hex_encode_length b) as LB.
  set (h := hex_encode a) in *. set (g := hex_encode b) in *.
  assert (forall l : list Z, l = take 8 l ++ take 4 (drop 8 l) ++ take 4 (drop 12 l) ++ take 4 (drop 16 l)
    ++ drop 20 l) as Hsplit.
  { intros l. rewrite <- (take_drop 8 l) at 1. f_equal. rewrite <- (take_drop 4 (drop 8 l)) at 1. f_equal.
    rewrite drop_drop. rewrite <- (take_drop 4 (drop _ l)) at 1. f_equal. rewrite drop_drop.
    rewrite <- (take_drop 4 (drop _ l)) at 1. f_equal. by rewrite drop_drop. }
  transitivity (bytes_compare (take 8 h ++ take 4 (drop 8 h) ++ take 4 (drop 12 h) ++ take 4 (drop 16 h) ++ drop 20 h)
    (take 8 g ++ take 4 (drop 8 g) ++ take 4 (drop 12 g) ++ take 4 (drop 16 g) ++ drop 20 g));
    [|by rewrite <- !Hsplit].
  rewrite (take_ge (drop 20 h)) by (rewrite length_drop; lia).
  rewrite (take_ge (drop 20 g)) by (rewrite length_drop; lia).
  assert (forall x y c d, length x = length y ->
    bytes_compare (x ++ Uuid.dash :: c) (y ++ Uuid.dash :: d) = match bytes_compare x y with Eq => bytes_compare c d | o => o end) as Hd.
  { intros x y c d Hl. rewrite compare_app by done. cbn. done. }
  rewrite !Hd, !compare_app by (rewrite !length_take, ?length_drop; lia). done.
Qed.

Lemma display_lt a b :
  Uuid.wf a -> Uuid.wf b -> bytes_lt (Uuid.display a) (Uuid.display b) = bytes_lt a b.
Proof. intros. unfold bytes_lt. by rewrite display_compare. Qed.

(** ** Accumulation *)

(** The outcome of one source: a gap, or its matches and the bytes it scanned. *)
Inductive report (T : Type) := Unavailable (gap : T) | Scanned (matches : list T) (bytes : Z).
Arguments Unavailable {T} gap.
Arguments Scanned {T} matches bytes.

Section Reports.
Context {T : Type}.
Implicit Types rs : list (report T).

Definition report_items (r : report T) : list T :=
  match r with Unavailable gap => [gap] | Scanned ms _ => ms end.
Definition all_items rs : list T := rs ≫= report_items.
Definition total (f : report T -> Z) rs : Z := foldr (fun r sum => f r + sum) 0 rs.
Definition scanned_of (r : report T) : Z := match r with Scanned _ _ => 1 | Unavailable _ => 0 end.
Definition unavailable_of (r : report T) : Z := match r with Scanned _ _ => 0 | Unavailable _ => 1 end.
Definition found_of (r : report T) : Z := match r with Scanned ms _ => len ms | Unavailable _ => 0 end.
Definition bytes_of (r : report T) : Z := match r with Scanned _ n => n | Unavailable _ => 0 end.

(** The counters after some sources, and the items kept under a limit. *)
Record tally := { t_scanned : Z; t_unavailable : Z; t_bytes : Z; t_found : Z; t_items : list T }.
Definition tally_of (limit : Z) rs : tally :=
  {| t_scanned := total scanned_of rs; t_unavailable := total unavailable_of rs;
     t_bytes := total bytes_of rs; t_found := total found_of rs;
     t_items := take (Z.to_nat limit) (all_items rs) |}.

(** [if items.len() < limit { items.push(item) }] *)
Definition push_bounded (limit : Z) (items : list T) (item : T) : list T :=
  if len items <? limit then items ++ [item] else items.

Lemma push_bounded_take limit items item :
  0 <= limit ->
  push_bounded limit (take (Z.to_nat limit) items) item = take (Z.to_nat limit) (items ++ [item]).
Proof.
  intros Hl. unfold push_bounded. unfold len. rewrite length_take.
  destruct (Z.of_nat (Z.to_nat limit `min` length items) <? limit) eqn:E; to_prop.
  - rewrite (take_ge items) by lia. rewrite take_ge; [done|]. rewrite length_app. cbn. lia.
  - by rewrite take_app_le by lia.
Qed.

Lemma push_bounded_fold limit ms : forall items,
  0 <= limit ->
  foldl (push_bounded limit) (take (Z.to_nat limit) items) ms = take (Z.to_nat limit) (items ++ ms).
Proof.
  induction ms as [|m ms IH]; intros items Hl; cbn [foldl]; [by rewrite app_nil_r|].
  rewrite push_bounded_take, IH by done. by rewrite <- (assoc_L (++)).
Qed.

Lemma total_app f rs r : total f (rs ++ [r]) = total f rs + f r.
Proof. unfold total. induction rs as [|x rs IH]; cbn [app foldr]; lia. Qed.

Lemma total_nonneg f rs : Forall (fun r => 0 <= f r) rs -> 0 <= total f rs.
Proof. unfold total. induction 1; cbn [foldr]; lia. Qed.

Lemma total_le f g rs : Forall (fun r => f r <= g r) rs -> total f rs <= total g rs.
Proof. unfold total. induction 1; cbn [foldr]; lia. Qed.

Lemma total_count rs : total scanned_of rs + total unavailable_of rs = len rs.
Proof. unfold total. induction rs as [|[] rs IH]; cbn [foldr scanned_of unavailable_of]; rewrite ?len_cons in *; [done|lia..]. Qed.

Lemma all_items_app rs r : all_items (rs ++ [r]) = all_items rs ++ report_items r.
Proof. unfold all_items. rewrite bind_app. cbn. by rewrite app_nil_r. Qed.

Lemma all_items_count rs : len (all_items rs) = total found_of rs + total unavailable_of rs.
Proof.
  unfold total, all_items in *. induction rs as [|[g|ms n] rs IH]; [done|..];
    cbn [mbind list_bind foldr found_of unavailable_of report_items]; rewrite len_app, IH; [change (len [g]) with 1|]; lia.
Qed.

Lemma total_bound f bound rs : Forall (fun r => f r <= bound) rs -> total f rs <= bound * len rs.
Proof.
  unfold total. induction 1; cbn [foldr]; [change (len (@nil (report T))) with 0|rewrite len_cons]; lia.
Qed.
End Reports.

(** ** Well-formed inventories *)

(** What the inventory read promises of each row: the identities of one namespace, which
    are not nil, nonzero revisions, and a supported source object. *)
Definition source_ok (namespace : list Z) (s : CurrentSourceRecord) : Prop :=
  record_wf s /\ source_namespace_id s = namespace /\ namespace <> replicate 16 0 /\
  source_id s <> replicate 16 0 /\ row_revision s <> 0 /\ registration_revision s <> 0 /\
  kind (object_ref s) = Registry.Source /\ format_version (object_ref s) = SOURCE_OBJECT_FORMAT_VERSION /\
  byte_length (object_ref s) <= MAX_SOURCE_OBJECT_BYTES.

Definition inventory_ok (namespace : list Z) (inventory : list CapturedSource) : Prop :=
  sorted_inventory inventory /\ len inventory <= MAX_SOURCES /\
  Forall (fun entry => source_ok namespace (captured_source entry)) inventory.

Lemma display_canonical id : Uuid.wf id -> id <> replicate 16 0 -> canonical_uuid (Uuid.display id) = true.
Proof. intros Hw Hn. apply canonical_uuid_spec. exists id. split; [by apply Uuid.parse_display_ok|done]. Qed.

Lemma hex_lower_ok bytes n : bytes_ok bytes -> 2 * len bytes = n -> lower_hex (hex_encode bytes) n = true.
Proof.
  intros Hb Hn. unfold lower_hex. apply andb_true_iff. split.
  - unfold len in *. rewrite hex_encode_length. apply Z.eqb_eq. lia.
  - apply forallb_forall. intros b Hin%list_elem_of_In.
    pose proof (hex_encode_lower bytes Hb) as Hl. rewrite Forall_forall in Hl. by apply Hl.
Qed.

Lemma object_dto_valid s ns : source_ok ns s -> ObjectRefDto.validate (object_dto (object_ref s)) Dto.Source = Ok tt.
Proof.
  intros ((_ & _ & _ & _ & _ & _ & _ & (_ & [Hd1 Hd2] & _)) & _ & _ & _ & _ & _ & Hk & Hv & Hb).
  unfold ObjectRefDto.validate. apply invalid_if_ok. cbn. rewrite Hv, Hk.
  rewrite hex_lower_ok by (done || unfold len; lia). unfold MAX_SOURCE_OBJECT_BYTES in Hb.
  is_false (8 * 1024 * 1024 <? byte_length (object_ref s)). done.
Qed.

Lemma source_dto_valid s ns : source_ok ns s -> RawSourceRef.validate (source_dto s) = Ok tt.
Proof.
  intros Hok. pose proof (object_dto_valid s ns Hok) as Hobj.
  destruct Hok as ((Hns & Hid & _) & <- & Hn1 & Hn2 & Hr & Hg & _).
  unfold RawSourceRef.validate. rewrite seq_unit. split; [|exact Hobj]. apply invalid_if_ok. cbn.
  rewrite !display_canonical by done. is_false (row_revision s =? 0). is_false (registration_revision s =? 0). done.
Qed.

Lemma strongly_sorted_app {A} (R : A -> A -> Prop) a b :
  StronglySorted R a -> StronglySorted R b -> (forall x y, x ∈ a -> y ∈ b -> R x y) -> StronglySorted R (a ++ b).
Proof.
  intros Ha Hb. induction Ha as [|x a Ha IH Hx]; intros Hab; cbn; [done|].
  constructor.
  - apply IH. intros y z Hy. apply Hab. by apply list_elem_of_further.
  - apply Forall_app. split; [done|]. apply Forall_forall. intros y. apply Hab, list_elem_of_here.
Qed.

Lemma strongly_sorted_take {A} (R : A -> A -> Prop) n l : StronglySorted R l -> StronglySorted R (take n l).
Proof.
  intros Hl. revert n. induction Hl as [|x l Hl IH Hx]; intros [|n]; cbn; try constructor; [apply IH|].
  by apply Forall_take.
Qed.

Section Literals.
Context {T : Type} `{LiteralItem T}.

(** What an executor reports of one source. *)
Definition report_ok (s : CurrentSourceRecord) (r : report T) : Prop :=
  Forall (fun i => li_source i = source_dto s /\ li_valid i = Ok tt) (report_items r) /\
  match r with
  | Unavailable gap => li_match gap = false
  | Scanned ms n =>
      Forall (fun i => li_match i = true) ms /\ StronglySorted (fun a b => li_later a b = true) ms /\
      len ms <= n <= MAX_SOURCE_OBJECT_BYTES
  end.

Lemma report_sorted s r : report_ok s r -> StronglySorted precedes (report_items r).
Proof.
  intros [Hall Hr]. destruct r as [gap|ms n]; cbn [report_items] in *; [repeat constructor|].
  destruct Hr as (_ & Hs & _). induction Hs as [|x ms Hs IH Hx]; [constructor|].
  apply Forall_cons in Hall as [[Hsx _] Hall]. constructor; [by apply IH|].
  rewrite Forall_forall in Hx, Hall. apply Forall_forall. intros y Hy.
  destruct (Hall y Hy) as [Hsy _]. split; [by rewrite Hsx, Hsy|]. right. split; [by rewrite Hsx, Hsy|by apply Hx].
Qed.

(** All items of all sources, in inventory order, are in wire order. *)
Lemma reports_sorted namespace inventory reports :
  sorted_inventory inventory -> Forall (fun e => source_ok namespace (captured_source e)) inventory ->
  Forall2 (fun e r => report_ok (captured_source e) r) inventory reports ->
  StronglySorted precedes (all_items reports).
Proof.
  intros Hs Hok Hr. induction Hr as [|e r inventory reports Her Hr IH]; [constructor|].
  apply Forall_cons in Hok as [He Hok]. inversion_clear Hs as [|? ? Hs' Hlt].
  unfold all_items in *. cbn [mbind list_bind]. apply strongly_sorted_app.
  - by eapply report_sorted.
  - by apply IH.
  - intros x y Hx Hy. apply list_elem_of_bind in Hy as (r' & Hy & Hr').
    apply list_elem_of_lookup in Hr' as (k & Hk).
    apply (Forall2_lookup_r _ _ _ _ _ Hr) in Hk as (e' & Hk & Her').
    rewrite Forall_forall in Hlt, Hok. pose proof (list_elem_of_lookup_2 _ _ _ Hk) as Hin.
    specialize (Hlt e' Hin). specialize (Hok e' Hin). cbv beta in Hlt, Hok.
    destruct Her as [Hx' _], Her' as [Hy' _]. rewrite Forall_forall in Hx', Hy'.
    destruct (Hx' x Hx) as [Sx _], (Hy' y Hy) as [Sy _].
    destruct He as ((_ & We & _) & Ne & _), Hok as ((_ & We' & _) & Ne' & _).
    split; rewrite Sx, Sy; cbn; [by rewrite Ne, Ne'|]. left. by rewrite display_lt.
Qed.

Lemma reports_counts inventory reports :
  Forall2 (fun e r => report_ok (captured_source e) r) inventory reports ->
  matches_in (all_items reports) = total found_of reports /\
  gaps_in (all_items reports) = total unavailable_of reports.
Proof.
  unfold matches_in, gaps_in, all_items, total.
  induction 1 as [|e r inventory reports Her _ [IHm IHg]]; [done|]. cbn [mbind list_bind foldr].
  rewrite !filter_app, !len_app. cbn [mbind list_bind] in IHm, IHg. rewrite IHm, IHg.
  destruct Her as [_ Her]. destruct r as [gap|ms n]; cbn [report_items found_of unavailable_of] in *.
  - rewrite !filter_cons, Her. rewrite decide_False, decide_True by done. rewrite filter_nil. done.
  - destruct Her as (Hm & _).
    assert (filter (fun i => li_match i = true) ms = ms /\ filter (fun i => li_match i = false) ms = []) as [-> ->];
      [|done].
    induction Hm as [|x ms Hx _ [IH1 IH2]]; [done|]. rewrite !filter_cons, Hx, IH1, IH2.
    by rewrite decide_True, decide_False.
Qed.

Lemma counts_take n (l : list T) :
  matches_in (take n l) <= matches_in l /\ gaps_in (take n l) <= gaps_in l.
Proof.
  unfold matches_in, gaps_in. rewrite <- (take_drop n l) at 2 4. rewrite !filter_app, !len_app.
  pose proof (len_nonneg (filter (fun i => li_match i = true) (drop n l))).
  pose proof (len_nonneg (filter (fun i => li_match i = false) (drop n l))). lia.
Qed.

(** The item loop of the result's own validation accepts the kept prefix. *)
Lemma reports_loop namespace inventory reports limit :
  inventory_ok namespace inventory -> Forall2 (fun e r => report_ok (captured_source e) r) inventory reports ->
  exists m g, li_loop None 0 0 (take limit (all_items reports)) = Ok (m, g) /\
    m <= total found_of reports /\ g <= total unavailable_of reports.
Proof.
  intros (Hs & _ & Hok) Hr. pose proof (reports_sorted _ _ _ Hs Hok Hr) as Hsorted.
  destruct (reports_counts _ _ Hr) as [Hm Hg]. destruct (counts_take limit (all_items reports)) as [Hm' Hg'].
  exists (0 + matches_in (take limit (all_items reports))), (0 + gaps_in (take limit (all_items reports))).
  split; [|lia]. apply literal_loop_iff. split_and!; try done.
  - apply Forall_take. apply Forall_forall. intros x Hx.
    apply list_elem_of_bind in Hx as (r & Hx & Hin). apply list_elem_of_lookup in Hin as (k & Hk).
    apply (Forall2_lookup_r _ _ _ _ _ Hr) in Hk as (e & _ & [Hall _]).
    rewrite Forall_forall in Hall. by apply Hall.
  - cbn [option_list app]. by apply StronglySorted_Sorted, strongly_sorted_take.
Qed.

(** No counter overflows. *)
Lemma reports_bounds namespace inventory reports :
  inventory_ok namespace inventory -> Forall2 (fun e r => report_ok (captured_source e) r) inventory reports ->
  0 <= total found_of reports <= total bytes_of reports /\
  total bytes_of reports <= MAX_SOURCE_OBJECT_BYTES * MAX_SOURCES /\
  total scanned_of reports + total unavailable_of reports = len inventory /\
  0 <= total scanned_of reports /\ 0 <= total unavailable_of reports /\
  (total scanned_of reports = 0 -> total bytes_of reports = 0).
Proof.
  intros (_ & Hlen & _) Hr. pose proof (Forall2_length _ _ _ Hr) as Hl.
  assert (Forall (fun r : report T => 0 <= found_of r <= bytes_of r /\ bytes_of r <= MAX_SOURCE_OBJECT_BYTES /\
    0 <= scanned_of r /\ 0 <= unavailable_of r) reports) as Hb.
  { apply Forall_forall. intros r Hin. apply list_elem_of_lookup in Hin as (k & Hk).
    apply (Forall2_lookup_r _ _ _ _ _ Hr) in Hk as (e & _ & [_ Her]).
    destruct r as [gap|ms n]; cbn; [unfold MAX_SOURCE_OBJECT_BYTES; lia|].
    pose proof (len_nonneg ms). destruct Her as (_ & _ & ?). lia. }
  split_and!.
  - apply total_nonneg. eapply Forall_impl; [exact Hb|]. cbv beta. lia.
  - apply total_le. eapply Forall_impl; [exact Hb|]. cbv beta. lia.
  - etransitivity; [apply (total_bound bytes_of MAX_SOURCE_OBJECT_BYTES)|].
    + eapply Forall_impl; [exact Hb|]. cbv beta. lia.
    + apply Z.mul_le_mono_nonneg_l; [unfold MAX_SOURCE_OBJECT_BYTES; lia|]. unfold len in *. lia.
  - rewrite total_count. unfold len. lia.
  - apply total_nonneg. eapply Forall_impl; [exact Hb|]. cbv beta. lia.
  - apply total_nonneg. eapply Forall_impl; [exact Hb|]. cbv beta. lia.
  - clear Hr Hl. intros Hz. induction Hb as [|r rs (_ & _ & Hr & _) Hb IH]; [done|].
    assert (0 <= total scanned_of rs) as Hn.
    { apply total_nonneg. eapply Forall_impl; [exact Hb|]. cbv beta. lia. }
    unfold total in *. cbn [foldr] in *. rewrite IH by lia. destruct r; cbn in *; lia.
Qed.
End Literals.

(** ** Selections *)

Lemma ids_loop_nodup ids : forall prior,
  ids_loop prior ids = Ok tt -> NoDup ids /\ (forall id, id ∈ ids -> id ∉ prior).
Proof.
  induction ids as [|id ids IH]; intros prior H; cbn [ids_loop] in H.
  - split; [constructor|]. intros id Hid. by apply elem_of_nil in Hid.
  - apply seq_unit in H as [Hg H]. apply invalid_if_ok in Hg. apply orb_false_iff in Hg as [_ Hc].
    destruct (IH _ H) as [Hnd Hnot].
    assert (id ∉ prior) as Hid.
    { intros Hin. unfold contains in Hc. apply not_true_iff_false in Hc. apply Hc. apply existsb_exists.
      exists id. split; [by apply list_elem_of_In|by apply bool_decide_eq_true_2]. }
    split.
    + constructor; [|done]. intros Hin. apply (Hnot id Hin). apply elem_of_app. right. apply list_elem_of_here.
    + intros x Hx. apply elem_of_cons in Hx as [->|Hx]; [done|]. intros Hin. apply (Hnot x Hx).
      apply elem_of_app. by left.
Qed.

Lemma parse_ids_ok inventory ids : forall l,
  parse_ids inventory ids = Ok l ->
  ids = Uuid.display <$> l /\ Forall (fun id => published inventory id = true) l.
Proof.
  induction ids as [|text ids IH]; intros l H; cbn [parse_ids] in H.
  - by apply ok_inj in H as <-.
  - apply bind_ok_inv in H as (id & Hp%map_err_ok & H). apply bind_ok_inv in H as ([] & Hg%reject_if_ok & H).
    apply bind_ok_inv in H as (rest & Hr & H). apply ok_inj in H as <-.
    destruct (IH _ Hr) as [-> Hall]. to_prop. split; [|by constructor].
    cbn. f_equal. destruct (Uuid.parse_ok_display _ _ Hp) as [Hd _]. by symmetry.
Qed.

Lemma sorted_ids_nodup inventory :
  sorted_inventory inventory -> NoDup ((fun e => source_id (captured_source e)) <$> inventory).
Proof.
  induction 1 as [|e inventory Hs IH Hlt]; cbn; [constructor|]. constructor; [|done].
  intros Hin. apply list_elem_of_fmap in Hin as (e' & Heq & Hin). rewrite Forall_forall in Hlt.
  specialize (Hlt e' Hin). rewrite Heq, bytes_lt_irrefl in Hlt. done.
Qed.

Lemma sorted_filter (P : CapturedSource -> Prop) `{forall e, Decision (P e)} inventory :
  sorted_inventory inventory -> sorted_inventory (filter P inventory).
Proof.
  unfold sorted_inventory. induction 1 as [|e inventory Hs IH Hlt]; [constructor|].
  rewrite filter_cons. destruct (decide (P e)); [|done]. constructor; [done|].
  apply Forall_forall. intros x Hx. apply list_elem_of_filter in Hx as [_ Hx].
  rewrite Forall_forall in Hlt. by apply Hlt.
Qed.

Lemma selection_ok namespace inventory ids selected :
  inventory_ok namespace inventory -> selection inventory ids = Ok selected -> validate_ids ids = Ok tt ->
  inventory_ok namespace selected /\
  match ids with
  | None => selected = inventory
  | Some ids => len ids = len selected /\
      forall e, e ∈ selected -> contains ids (Uuid.display (source_id (captured_source e))) = true
  end.
Proof.
  intros (Hs & Hlen & Hok) Hsel Hvalid. unfold selection in Hsel. destruct ids as [ids|].
  2:{ apply ok_inj in Hsel as <-. by split_and!. }
  apply bind_ok_inv in Hsel as (l & Hl & Hsel). apply ok_inj in Hsel as <-.
  destruct (parse_ids_ok _ _ _ Hl) as [-> Hpub]. cbn [validate_ids] in Hvalid.
  destruct (ids_loop_nodup _ _ Hvalid) as [Hnd _]. apply NoDup_fmap_1 in Hnd.
  set (P := fun e : CapturedSource => source_id (captured_source e) ∈ l).
  split; [split_and!|split].
  - by apply sorted_filter.
  - pose proof (length_filter P inventory). unfold len in *. lia.
  - apply Forall_forall. intros e He. apply list_elem_of_filter in He as [_ He].
    rewrite Forall_forall in Hok. by apply Hok.
  - rewrite len_fmap.
    assert (l ≡ₚ (fun e => source_id (captured_source e)) <$> filter P inventory) as Hperm.
    { apply NoDup_Permutation; [done|by apply sorted_ids_nodup, sorted_filter|]. intros id. split.
      - intros Hid. rewrite Forall_forall in Hpub. specialize (Hpub id Hid).
        apply published_spec in Hpub as (e & He & <-); [|done]. apply list_elem_of_fmap. exists e.
        split; [done|]. by apply list_elem_of_filter.
      - intros Hid. apply list_elem_of_fmap in Hid as (e & -> & He). by apply list_elem_of_filter in He as [? _]. }
    apply Permutation_length in Hperm. rewrite length_fmap in Hperm. unfold len. lia.
  - intros e He. apply list_elem_of_filter in He as [Hin _]. unfold contains. apply existsb_exists.
    exists (Uuid.display (source_id (captured_source e))). split; [|by apply bool_decide_eq_true_2].
    apply list_elem_of_In, list_elem_of_fmap. eauto.
Qed.

Lemma mapM_forall2 {A B E} (f : A -> result E B) l : forall k,
  mapM f l = Ok k -> Forall2 (fun x y => f x = Ok y) l k.
Proof.
  induction l as [|x l IH]; intros k H; cbn [mapM] in H.
  - by apply ok_inj in H as <-.
  - apply bind_ok_inv in H as (y & Hy & H). apply bind_ok_inv in H as (k' & Hk & H).
    apply ok_inj in H as <-. constructor; [done|by apply IH].
Qed.
