(* ===== verification/RawExact.v ===== *)
(** The raw executor of [eliot-searchd]: literal bytes over one pinned source inventory
    (bins/eliot-searchd/src/raw_exact.rs). *)

From Stdlib Require Import Sorted.
From S2P Require Import Prelude Bytes Ids Registry Dto.
From S2P Require Import DtoFacts SourceRow PreparationRow ObjectStore Literal ExactResult.

(** What an executor uses of [PublishedView]: the generation's sequence and the inventory
    read, whose error is already a [QueryFailure]. *)
Record PublishedView := { view_generation : Z; source_inventory : M QueryFailure (list CapturedSource) }.

Definition input_limit : QueryFailure := Code (str "EXACT_INPUT_LIMIT").
Definition range_invalid : QueryFailure := Code (str "EVIDENCE_RANGE_INVALID").
Definition protocol_failure (e : ProtocolError) : QueryFailure := Code (Dto.code e).

(** The two arms for cancellation and the deadline, and the rest. *)
Definition object_failure (e : ObjectStoreError) : QueryFailure :=
  match e with
  | ObjectCancelled => QueryCancelled
  | ObjectDeadline => QueryDeadline
  | other => Code (object_code other)
  end.

(** Assignment to the fields that change during a scan. *)
Definition raw_update (result : RawExactResult.t) (scanned missing bytes matches : Z)
    (items : list RawExactItem.t) : RawExactResult.t :=
  {| RawExactResult.generation := RawExactResult.generation result;
     RawExactResult.selected_sources := RawExactResult.selected_sources result;
     RawExactResult.scanned_sources := scanned; RawExactResult.missing_sources := missing;
     RawExactResult.scanned_bytes := bytes; RawExactResult.matches := matches;
     RawExactResult.items := items;
     RawExactResult.scan_complete := RawExactResult.scan_complete result;
     RawExactResult.complete_negative := RawExactResult.complete_negative result;
     RawExactResult.stop := RawExactResult.stop result |}.

(** The callback of [scan_source]. *)
Definition raw_found (binding : RawSourceRef.t) (bytes : list Z) (limit start stop : Z)
    (result : RawExactResult.t) : M QueryFailure RawExactResult.t :=
  matches ← lift (ok_or input_limit (checked_add U64_MAX (RawExactResult.matches result) 1));
  items ←
    (if len (RawExactResult.items result) <? limit then
       matched ← lift (ok_or range_invalid (slice bytes start stop));
       start ← lift (ok_or range_invalid (try_from U64_MAX start));
       stop ← lift (ok_or range_invalid (try_from U64_MAX stop));
       digits ← hex matched;
       mret (RawExactResult.items result ++ [RawExactItem.Match
         {| RawExactMatch.source := binding; RawExactMatch.start := start; RawExactMatch.stop := stop;
            RawExactMatch.bytes_hex := digits |}])
     else mret (RawExactResult.items result));
  mret (raw_update result (RawExactResult.scanned_sources result) (RawExactResult.missing_sources result)
          (RawExactResult.scanned_bytes result) matches items).

Section Raw.
Context (blake3 : list Z -> list Z) (root : directory).

(** [scan_source] *)
Definition raw_scan_source (source : CurrentSourceRecord) (literal : Literal) (limit : Z)
    (result : RawExactResult.t) : M QueryFailure RawExactResult.t :=
  _ ← query_check;
  binding ← source_ref_dto source;
  match_result (read_object blake3 root (object_ref source) MAX_SOURCE_OBJECT_BYTES) (fun read =>
    match read with
    | Ok bytes =>
        result ← scan literal bytes (raw_found binding bytes limit) result;
        scanned_bytes ← lift (ok_or input_limit (checked_add U64_MAX (RawExactResult.scanned_bytes result)
                                                   (byte_length (object_ref source))));
        mret (raw_update result (RawExactResult.scanned_sources result + 1)
                (RawExactResult.missing_sources result) scanned_bytes (RawExactResult.matches result)
                (RawExactResult.items result))
    | Err Missing =>
        items ←
          (if len (RawExactResult.items result) <? limit then
             code ← lift (map_err protocol_failure (FailureCode.new (str "SOURCE_OBJECT_MISSING")));
             mret (RawExactResult.items result ++ [RawExactItem.Gap
               {| RawExactGap.source := binding; RawExactGap.code := code |}])
           else mret (RawExactResult.items result));
        mret (raw_update result (RawExactResult.scanned_sources result)
                (RawExactResult.missing_sources result + 1) (RawExactResult.scanned_bytes result)
                (RawExactResult.matches result) items)
    | Err e => fail (object_failure e)
    end).

(** [for entry in inventory] *)
Fixpoint raw_loop (inventory : list CapturedSource) (literal : Literal) (limit : Z)
    (result : RawExactResult.t) : M QueryFailure RawExactResult.t :=
  match inventory with
  | [] => mret result
  | entry :: inventory =>
      result ← raw_scan_source (captured_source entry) literal limit result;
      raw_loop inventory literal limit result
  end.

(** The end of [execute]: completeness, the stop reason and the result's own check. *)
Definition raw_finish (request : RawExactRequest.t) (r : RawExactResult.t)
    : result QueryFailure RawExactResult.t :=
  let scan_complete := RawExactResult.missing_sources r =? 0 in
  let complete_negative := scan_complete && (RawExactResult.matches r =? 0) in
  total ← ok_or input_limit (checked_add U64_MAX (RawExactResult.matches r)
                               (RawExactResult.missing_sources r));
  let stop := if negb (bool_decide (try_from U64_MAX (len (RawExactResult.items r)) = Some total))
    then OutputLimit else RawExactResult.stop r in
  let r := {|
    RawExactResult.generation := RawExactResult.generation r;
    RawExactResult.selected_sources := RawExactResult.selected_sources r;
    RawExactResult.scanned_sources := RawExactResult.scanned_sources r;
    RawExactResult.missing_sources := RawExactResult.missing_sources r;
    RawExactResult.scanned_bytes := RawExactResult.scanned_bytes r;
    RawExactResult.matches := RawExactResult.matches r;
    RawExactResult.items := RawExactResult.items r;
    RawExactResult.scan_complete := scan_complete;
    RawExactResult.complete_negative := complete_negative;
    RawExactResult.stop := stop |} in
  _ ← map_err protocol_failure (RawExactResult.validate_request r request);
  Ok r.

(** [execute] *)
Definition raw_execute (view : PublishedView) (request : RawExactRequest.t)
    : M QueryFailure RawExactResult.t :=
  _ ← query_check;
  _ ← lift (map_err protocol_failure (RawExactRequest.validate request));
  literal ← literal_new (RawExactRequest.literal request);
  inventory ← source_inventory view;
  inventory ← select_sources inventory (RawExactRequest.source_ids request);
  selected_sources ← lift (ok_or input_limit (try_from U64_MAX (len inventory)));
  _ ← reserve_with allocation_failed;
  result ← raw_loop inventory literal (RawExactRequest.limit request) {|
    RawExactResult.generation := view_generation view;
    RawExactResult.selected_sources := selected_sources; RawExactResult.scanned_sources := 0;
    RawExactResult.missing_sources := 0; RawExactResult.scanned_bytes := 0; RawExactResult.matches := 0;
    RawExactResult.items := []; RawExactResult.scan_complete := false;
    RawExactResult.complete_negative := false; RawExactResult.stop := Complete |};
  _ ← query_check;
  lift (raw_finish request result).
End Raw.

(** ** Specification *)

Definition raw_match (s : CurrentSourceRecord) (literal : list Z) (start : Z) : RawExactItem.t :=
  RawExactItem.Match
    {| RawExactMatch.source := source_dto s; RawExactMatch.start := start;
       RawExactMatch.stop := start + len literal; RawExactMatch.bytes_hex := hex_encode literal |}.
Definition raw_gap (s : CurrentSourceRecord) : RawExactItem.t :=
  RawExactItem.Gap {| RawExactGap.source := source_dto s; RawExactGap.code := str "SOURCE_OBJECT_MISSING" |}.

(** The result that reports a list of sources under a limit. *)
Definition raw_of (generation selected : Z) (t : tally) : RawExactResult.t :=
  {| RawExactResult.generation := generation; RawExactResult.selected_sources := selected;
     RawExactResult.scanned_sources := t_scanned t; RawExactResult.missing_sources := t_unavailable t;
     RawExactResult.scanned_bytes := t_bytes t; RawExactResult.matches := t_found t;
     RawExactResult.items := t_items t; RawExactResult.scan_complete := false;
     RawExactResult.complete_negative := false; RawExactResult.stop := Complete |}.
Definition raw_answer (generation limit : Z) (reports : list (report RawExactItem.t)) : RawExactResult.t :=
  let found := total found_of reports in
  let missing := total unavailable_of reports in
  let items := take (Z.to_nat limit) (all_items reports) in
  {| RawExactResult.generation := generation; RawExactResult.selected_sources := len reports;
     RawExactResult.scanned_sources := total scanned_of reports; RawExactResult.missing_sources := missing;
     RawExactResult.scanned_bytes := total bytes_of reports; RawExactResult.matches := found;
     RawExactResult.items := items; RawExactResult.scan_complete := (missing =? 0);
     RawExactResult.complete_negative := (missing =? 0) && (found =? 0);
     RawExactResult.stop := if len (all_items reports) <=? limit then Complete else OutputLimit |}.

Section RawSpec.
Context (blake3 : list Z -> list Z) (root : directory).

(** What one source contributes: every occurrence in its stored bytes, or a gap. *)
Definition raw_report (literal : list Z) (entry : CapturedSource) : result QueryFailure (report RawExactItem.t) :=
  let s := captured_source entry in
  match object_at blake3 root (object_ref s) MAX_SOURCE_OBJECT_BYTES with
  | Ok bytes => Ok (Scanned (raw_match s literal <$> occurrences literal bytes) (byte_length (object_ref s)))
  | Err Missing => Ok (Unavailable (raw_gap s))
  | Err e => Err (object_failure e)
  end.

Definition raw_spec (generation : Z) (inventory : list CapturedSource) (request : RawExactRequest.t)
    : result QueryFailure RawExactResult.t :=
  _ ← map_err protocol_failure (RawExactRequest.validate request);
  selected ← selection inventory (RawExactRequest.source_ids request);
  reports ← mapM (raw_report (RawExactRequest.literal request)) selected;
  Ok (raw_answer generation (RawExactRequest.limit request) reports).

Lemma raw_report_ok namespace literal entry r :
  literal <> [] -> len literal <= MAX_QUERY_BYTES -> bytes_ok literal ->
  source_ok namespace (captured_source entry) -> raw_report literal entry = Ok r -> report_ok (captured_source entry) r.
Proof.
  intros Hl Hmax Hlb Hs Hr. pose proof (source_dto_valid _ _ Hs) as Hv. unfold raw_report in Hr.
  destruct (object_at _ _ _ _) as [bytes|e] eqn:Hat.
  - apply ok_inj in Hr as <-. apply object_at_ok in Hat as (Hlen & _ & Hb & _).
    pose proof (len_nonneg literal) as Hl0. assert (0 < len literal) as Hlp.
    { destruct literal; [done|]. rewrite len_cons. pose proof (len_nonneg literal). lia. }
    split; cbn [report_items].
    + apply Forall_fmap, Forall_forall. intros start (H0 & Hsl)%occurrences_in. cbn.
      split; [done|]. apply slice_inv in Hsl as (H1 & H2 & _).
      unfold RawExactItem.validate. cbn. rewrite Hv. cbn [mbind result_bind].
      rewrite checked_sub_some by lia. replace (start + len literal - start) with (len literal) by lia. cbn [option_keep].
      is_false (len literal =? 0). cbn [negb ok_or mbind result_bind].
      unfold invalid_if. is_false (byte_length (object_ref (captured_source entry)) <? start + len literal).
      is_false (MAX_QUERY_BYTES <? len literal). cbn [reject_if mbind result_bind].
      rewrite try_from_some by (unfold MAX_QUERY_BYTES in *; width). cbn [ok_or mbind result_bind].
      by rewrite hex_lower_ok by (done || lia).
    + split_and!.
      * by apply Forall_fmap, Forall_forall.
      * pose proof (occurrences_sorted literal bytes) as Ho. induction Ho as [|x l Ho IH Hx]; [constructor|].
        cbn. constructor; [done|]. apply Forall_fmap. eapply Forall_impl; [exact Hx|]. intros y Hy. cbn. by apply Z.ltb_lt.
      * unfold len. rewrite length_fmap. fold (len (occurrences literal bytes)).
        pose proof (occurrences_count literal bytes Hl). lia.
      * done.
  - destruct e; try done. apply ok_inj in Hr as <-. split; cbn [report_items]; [|done].
    constructor; [|done]. cbn. split; [done|]. unfold RawExactItem.validate. cbn. rewrite Hv. done.
Qed.

(** The callback without its observations. *)
Definition raw_found_pure (binding : RawSourceRef.t) (bytes : list Z) (limit start stop : Z)
    (r : RawExactResult.t) : result QueryFailure RawExactResult.t :=
  matches ← ok_or input_limit (checked_add U64_MAX (RawExactResult.matches r) 1);
  items ←
    (if len (RawExactResult.items r) <? limit then
       matched ← ok_or range_invalid (slice bytes start stop);
       start ← ok_or range_invalid (try_from U64_MAX start);
       stop ← ok_or range_invalid (try_from U64_MAX stop);
       Ok (RawExactResult.items r ++ [RawExactItem.Match
         {| RawExactMatch.source := binding; RawExactMatch.start := start; RawExactMatch.stop := stop;
            RawExactMatch.bytes_hex := hex_encode matched |}])
     else Ok (RawExactResult.items r));
  Ok (raw_update r (RawExactResult.scanned_sources r) (RawExactResult.missing_sources r)
        (RawExactResult.scanned_bytes r) matches items).

Lemma raw_found_refines binding bytes limit start stop r :
  refines (raw_found binding bytes limit start stop r) (raw_found_pure binding bytes limit start stop r).
Proof.
  unfold raw_found, raw_found_pure. apply refines_bind; [apply refines_lift|intros matches _].
  apply refines_bind; [|intros items _; apply refines_ret].
  destruct (len (RawExactResult.items r) <? limit); [|apply refines_ret].
  apply refines_bind; [apply refines_lift|intros matched _].
  apply refines_bind; [apply refines_lift|intros a _].
  apply refines_bind; [apply refines_lift|intros b _].
  eapply refines_bind_ok; [apply hex_refines|]. apply refines_ret.
Qed.

Definition tally_found (t : tally) (limit : Z) (ms : list RawExactItem.t) : tally :=
  {| t_scanned := t_scanned t; t_unavailable := t_unavailable t; t_bytes := t_bytes t;
     t_found := t_found t + len ms; t_items := foldl (push_bounded limit) (t_items t) ms |}.

Lemma raw_found_all generation selected s bytes literal limit starts : forall t,
  len bytes <= MAX_SOURCE_OBJECT_BYTES -> (forall x, x ∈ starts -> x ∈ occurrences literal bytes) ->
  t_found t + len starts <= U64_MAX ->
  fold_found (raw_found_pure (source_dto s) bytes limit) (len literal) starts (raw_of generation selected t)
  = Ok (raw_of generation selected (tally_found t limit (raw_match s literal <$> starts))).
Proof.
  unfold tally_found. induction starts as [|start starts IH]; intros t Hb Hin Hf; cbn [fold_found].
  - f_equal. destruct t. cbn. by rewrite Z.add_0_r.
  - rewrite len_cons in Hf. pose proof (len_nonneg starts).
    destruct (proj1 (occurrences_in _ _ _) (Hin start (list_elem_of_here _ _))) as [H0 Hsl].
    pose proof (slice_inv _ _ _ _ Hsl) as (H1 & H2 & _). unfold MAX_SOURCE_OBJECT_BYTES in Hb.
    assert (raw_found_pure (source_dto s) bytes limit start (start + len literal) (raw_of generation selected t)
      = Ok (raw_of generation selected {| t_scanned := t_scanned t; t_unavailable := t_unavailable t;
              t_bytes := t_bytes t; t_found := t_found t + 1;
              t_items := push_bounded limit (t_items t) (raw_match s literal start) |})) as ->.
    { unfold raw_found_pure. cbn [raw_of RawExactResult.matches RawExactResult.items].
      rewrite checked_add_some by lia. cbn [ok_or mbind result_bind].
      rewrite Hsl, !try_from_some by width. unfold push_bounded. by destruct (len (t_items t) <? limit). }
    cbn [mbind result_bind].
    rewrite IH; [|done|intros x Hx; by apply Hin, list_elem_of_further|cbn; lia].
    cbn. rewrite len_cons, Z.add_assoc. done.
Qed.
Lemma raw_scan_refines generation selected literal limit entry rs namespace :
  literal_ok literal -> 0 <= limit -> source_ok namespace (captured_source entry) ->
  0 <= total found_of rs -> 0 <= total bytes_of rs ->
  total found_of rs + MAX_SOURCE_OBJECT_BYTES <= U64_MAX ->
  total bytes_of rs + MAX_SOURCE_OBJECT_BYTES <= U64_MAX ->
  refines (raw_scan_source blake3 root (captured_source entry) literal limit (raw_of generation selected (tally_of limit rs)))
    (r ← raw_report (lit_bytes literal) entry; Ok (raw_of generation selected (tally_of limit (rs ++ [r])))).
Proof.
  intros Hlit Hlimit Hs Hf0 Hb0 Hf Hb. unfold raw_scan_source, raw_report, query_check.
  refine_step; [auto with eliot..|]. eapply refines_bind_ok; [apply source_ref_refines|].
  set (s := captured_source entry) in *.
  assert (0 <= byte_length (object_ref s) <= MAX_SOURCE_OBJECT_BYTES) as Hbl.
  { destruct Hs as ((_ & _ & _ & _ & _ & _ & _ & _ & _ & ?) & _ & _ & _ & _ & _ & _ & _ & ?). lia. }
  apply (refines_match _ (object_at blake3 root (object_ref s) MAX_SOURCE_OBJECT_BYTES)).
  { apply read_object_refines; [lia|]. unfold MAX_SOURCE_OBJECT_BYTES. width. }
  { intros e [-> | [-> | -> ] ]; (eexists; split; [reflexivity|]); [auto with eliot..|].
    right; right. by apply list_elem_of_further, list_elem_of_here. }
  destruct (object_at blake3 root (object_ref s) MAX_SOURCE_OBJECT_BYTES) as [bytes|e] eqn:Hat.
  - apply object_at_ok in Hat as (Hlen & _ & _ & _). cbn [mbind result_bind].
    pose proof (occurrences_count (lit_bytes literal) bytes (proj1 Hlit)) as Hcount.
    eapply refines_bind_ok.
    { pose proof (scan_refines literal (raw_found (source_dto s) bytes limit)
        (raw_found_pure (source_dto s) bytes limit) Hlit (raw_found_refines (source_dto s) bytes limit) bytes
        (raw_of generation selected (tally_of limit rs))) as Hscan.
      rewrite raw_found_all in Hscan; [exact Hscan|lia|done|]. cbn. lia. }
    cbn [raw_of tally_found tally_of t_scanned t_unavailable t_bytes t_found t_items
      RawExactResult.scanned_bytes RawExactResult.scanned_sources RawExactResult.missing_sources
      RawExactResult.matches RawExactResult.items].
    rewrite checked_add_some by lia. cbn [ok_or]. rewrite lift_ok_bind.
    assert (forall x y : RawExactResult.t, x = y -> refines (mret x : M QueryFailure _) (Ok y)) as Heq
      by (intros x y ->; apply refines_ret). apply Heq.
    unfold raw_of, tally_of, raw_update. cbn. rewrite !total_app, all_items_app.
    cbn [scanned_of unavailable_of found_of bytes_of report_items]. rewrite push_bounded_fold by done.
    by rewrite len_fmap, Z.add_0_r.
  - destruct e; cbn [mbind result_bind]; try apply refines_fail.
    cbn [raw_of tally_of t_items RawExactResult.items].
    assert (forall items : list RawExactItem.t, items = push_bounded limit (take (Z.to_nat limit) (all_items rs)) (raw_gap s) ->
      raw_update (raw_of generation selected (tally_of limit rs)) (total scanned_of rs) (total unavailable_of rs + 1)
        (total bytes_of rs) (total found_of rs) items
      = raw_of generation selected (tally_of limit (rs ++ [Unavailable (raw_gap s)]))) as Hfinal.
    { intros items ->. rewrite push_bounded_take by done. unfold raw_of, tally_of, raw_update. cbn.
      rewrite !total_app, all_items_app. cbn [scanned_of unavailable_of found_of bytes_of report_items].
      by rewrite !Z.add_0_r. }
    apply (refines_bind_ok _ (push_bounded limit (take (Z.to_nat limit) (all_items rs)) (raw_gap s))).
    + unfold push_bounded. destruct (len (take (Z.to_nat limit) (all_items rs)) <? limit); [|apply refines_ret].
      change (map_err protocol_failure (FailureCode.new (str "SOURCE_OBJECT_MISSING")))
        with (@Ok QueryFailure (list Z) (str "SOURCE_OBJECT_MISSING")). rewrite lift_ok_bind. apply refines_ret.
    + rewrite <- (Hfinal _ eq_refl). apply refines_ret.
Qed.

Lemma raw_loop_refines generation selected literal limit namespace inventory : forall rs,
  literal_ok literal -> 0 <= limit -> len (lit_bytes literal) <= MAX_QUERY_BYTES -> bytes_ok (lit_bytes literal) ->
  Forall (fun e => source_ok namespace (captured_source e)) inventory ->
  0 <= total found_of rs <= total bytes_of rs ->
  total bytes_of rs + MAX_SOURCE_OBJECT_BYTES * len inventory <= U64_MAX ->
  refines (raw_loop blake3 root inventory literal limit (raw_of generation selected (tally_of limit rs)))
    (reports ← mapM (raw_report (lit_bytes literal)) inventory;
     Ok (raw_of generation selected (tally_of limit (rs ++ reports)))).
Proof.
  induction inventory as [|entry inventory IH]; intros rs Hlit Hlimit Hmax Hlb Hok Hf Hb; cbn [raw_loop mapM].
  - cbn. rewrite app_nil_r. apply refines_ret.
  - apply Forall_cons in Hok as [Hs Hok]. rewrite len_cons in Hb. pose proof (len_nonneg inventory).
    unfold MAX_SOURCE_OBJECT_BYTES in *.
    pose proof (raw_scan_refines generation selected literal limit entry rs namespace Hlit Hlimit Hs) as Hscan.
    specialize (Hscan ltac:(lia) ltac:(lia) ltac:(unfold MAX_SOURCE_OBJECT_BYTES; lia)
      ltac:(unfold MAX_SOURCE_OBJECT_BYTES; lia)).
    destruct (raw_report (lit_bytes literal) entry) as [r|e] eqn:Hr; cbn [mbind result_bind] in *.
    + eapply refines_bind_ok; [exact Hscan|].
      assert (0 <= found_of r <= bytes_of r /\ bytes_of r <= 8 * 1024 * 1024) as Hrb.
      { pose proof (raw_report_ok namespace _ _ _ (proj1 Hlit) Hmax Hlb Hs Hr) as [_ Hro].
        destruct r as [|ms n]; cbn; [lia|]. destruct Hro as (_ & _ & ?). pose proof (len_nonneg ms).
        unfold MAX_SOURCE_OBJECT_BYTES in *. lia. }
      specialize (IH (rs ++ [r]) Hlit Hlimit Hmax Hlb Hok). rewrite !total_app in IH.
      specialize (IH ltac:(lia) ltac:(lia)).
      destruct (mapM (raw_report (lit_bytes literal)) inventory); cbn [mbind result_bind] in *; [|done].
      by rewrite <- (assoc_L (++)) in IH.
    + by eapply refines_bind_err.
Qed.
(** Digits of the literal pass the client's comparison. *)
Lemma hex_differs_refl literal : hex_differs (hex_encode literal) literal = false.
Proof.
  induction literal as [|b literal IH]; [done|]. rewrite hex_encode_cons. unfold hex_pair. cbn [app hex_differs].
  by rewrite !Z.eqb_refl, IH.
Qed.

Lemma literal_loop_ok literal items :
  Forall (fun i => match i with
    | RawExactItem.Match hit => RawExactMatch.stop hit - RawExactMatch.start hit = len literal /\
        RawExactMatch.bytes_hex hit = hex_encode literal
    | RawExactItem.Gap _ => True
    end) items ->
  RawExactResult.literal_loop literal (len literal) items = Ok tt.
Proof.
  induction 1 as [|i items Hi _ IH]; [done|]. cbn [RawExactResult.literal_loop].
  destruct i as [hit|gap]; cbn [mbind result_bind]; [|done]. destruct Hi as [-> ->].
  by rewrite Z.eqb_refl, hex_differs_refl.
Qed.

Lemma raw_reports_ok namespace literal selected reports :
  literal <> [] -> len literal <= MAX_QUERY_BYTES -> bytes_ok literal ->
  Forall (fun e => source_ok namespace (captured_source e)) selected ->
  mapM (raw_report literal) selected = Ok reports ->
  Forall2 (fun e r => report_ok (captured_source e) r) selected reports.
Proof.
  intros Hne Hmax Hlb Hall Hrep. apply mapM_forall2 in Hrep.
  induction Hrep as [|e r selected reports Hr _ IH]; [constructor|]. apply Forall_cons in Hall as [He Hall].
  constructor; [by eapply raw_report_ok|by apply IH].
Qed.

(** The items of the answer are what the client compares with the literal. *)
Lemma raw_items_literal literal selected reports n :
  mapM (raw_report literal) selected = Ok reports ->
  Forall (fun i => match i with
    | RawExactItem.Match hit => RawExactMatch.stop hit - RawExactMatch.start hit = len literal /\
        RawExactMatch.bytes_hex hit = hex_encode literal
    | RawExactItem.Gap _ => True
    end /\ exists e, e ∈ selected /\ RawExactItem.source i = source_dto (captured_source e)) (take n (all_items reports)).
Proof.
  intros Hrep. apply Forall_take. apply mapM_forall2 in Hrep. unfold all_items.
  induction Hrep as [|e r selected reports Hr _ IH]; [constructor|]. cbn [mbind list_bind]. apply Forall_app. split.
  - unfold raw_report in Hr. destruct (object_at _ _ _ _) as [bytes|err].
    + apply ok_inj in Hr as <-. cbn [report_items]. apply Forall_fmap, Forall_forall. intros start _. cbn.
      split; [split; [lia|done]|]. exists e. split; [apply list_elem_of_here|done].
    + destruct err; try done. apply ok_inj in Hr as <-. constructor; [|constructor]. split; [done|].
      exists e. split; [apply list_elem_of_here|done].
  - eapply Forall_impl; [exact IH|]. cbv beta. intros x [? (e' & ? & ?)]. split; [done|].
    exists e'. split; [by apply list_elem_of_further|done].
Qed.

Lemma raw_answer_valid namespace generation inventory selected request reports :
  0 < generation -> inventory_ok namespace inventory -> bytes_ok (RawExactRequest.literal request) ->
  RawExactRequest.validate request = Ok tt -> 0 <= RawExactRequest.limit request ->
  selection inventory (RawExactRequest.source_ids request) = Ok selected ->
  mapM (raw_report (RawExactRequest.literal request)) selected = Ok reports ->
  RawExactResult.validate_request (raw_answer generation (RawExactRequest.limit request) reports) request = Ok tt.
Proof.
  intros Hgen Hinv Hlb Hreq Hlimit0 Hsel Hrep. pose proof Hreq as Hreq'. unfold RawExactRequest.validate in Hreq'.
  apply seq_unit in Hreq' as [Hg%invalid_if_ok Hids]. to_prop.
  destruct (selection_ok _ _ _ _ Hinv Hsel Hids) as [Hok Hids'].
  set (literal := RawExactRequest.literal request) in *. set (limit := RawExactRequest.limit request) in *.
  assert (literal <> []) as Hne by (intros E; rewrite E in *; done).
  pose proof (raw_reports_ok _ _ _ _ Hne ltac:(done) Hlb (proj2 (proj2 Hok)) Hrep) as Hreports.
  destruct (reports_loop namespace selected reports (Z.to_nat limit) Hok Hreports) as (m & g & Hloop & Hm & Hgap).
  destruct (reports_bounds namespace selected reports Hok Hreports) as (Hf & Hb & Hsum & Hs0 & Hu0 & Hz).
  pose proof (Forall2_length _ _ _ Hreports) as Hlen. pose proof (all_items_count reports) as Hall.
  assert (0 <= len selected <= MAX_SOURCES) as Hsl by (pose proof (len_nonneg selected); destruct Hok as (_ & ? & _); lia).
  assert (len reports = len selected) as Hlr by (unfold len; lia).
  assert (len (take (Z.to_nat limit) (all_items reports)) = Z.min limit (len (all_items reports))) as Htake.
  { unfold len. rewrite length_take. lia. }
  unfold MAX_SOURCE_OBJECT_BYTES, MAX_SOURCES, MAX_QUERY_BYTES, MAX_ITEMS in *.
  unfold RawExactResult.validate_request. rewrite Hreq. cbn [mbind result_bind]. fold limit.
  assert (RawExactResult.validate (raw_answer generation limit reports) limit = Ok tt) as ->.
  { unfold RawExactResult.validate. cbn [raw_answer RawExactResult.generation RawExactResult.selected_sources
      RawExactResult.scanned_sources RawExactResult.missing_sources RawExactResult.scanned_bytes
      RawExactResult.matches RawExactResult.items RawExactResult.scan_complete
      RawExactResult.complete_negative RawExactResult.stop].
    rewrite !checked_add_some by width. cbn [ok_or mbind result_bind]. rewrite Htake.
    rewrite try_from_some by (rewrite Hall; width).
    rewrite seq_unit. split.
    - apply invalid_if_ok. unfold MAX_ITEMS.
      repeat (apply orb_false_intro); try (apply Z.eqb_neq; lia); try (apply Z.ltb_ge; lia).
      + rewrite bool_decide_true; [done|]. f_equal. lia.
      + apply eqb_false_negb. destruct (Z.eqb_spec (total unavailable_of reports) 0), (Z.eqb_spec (total scanned_of reports) (len reports)); lia || done.
      + apply eqb_false_negb. done.
      + destruct (Z.eqb_spec (total scanned_of reports) 0) as [E|]; [|done]. cbn. rewrite (Hz E). done.
      + apply eqb_false_negb. destruct (Z.leb_spec (len (all_items reports)) limit); cbn; symmetry;
          [apply Z.eqb_eq|apply Z.eqb_neq]; lia.
    - change (RawExactResult.items_loop None 0 0) with (li_loop (T := RawExactItem.t) None 0 0).
      rewrite Hloop. cbn [mbind result_bind]. apply invalid_if_ok. apply orb_false_intro; apply Z.ltb_ge; lia. }
  cbn [mbind result_bind]. rewrite seq_unit. split.
  - destruct (RawExactRequest.source_ids request) as [ids|]; [|done]. destruct Hids' as [Hn Hcontains].
    apply invalid_if_ok. apply orb_false_intro.
    + cbn [raw_answer RawExactResult.selected_sources]. rewrite Hlr, Hn, try_from_some by width.
      by rewrite bool_decide_true.
    + cbn [raw_answer RawExactResult.items]. apply not_true_iff_false. intros (i & Hi & Hc)%existsb_exists.
      pose proof (raw_items_literal _ _ _ (Z.to_nat limit) Hrep) as Hitems. rewrite Forall_forall in Hitems.
      destruct (Hitems i ltac:(by apply list_elem_of_In)) as [_ (e & He & Hsrc)].
      rewrite Hsrc in Hc. cbn in Hc. by rewrite (Hcontains e He) in Hc.
  - fold literal. rewrite try_from_some by (pose proof (len_nonneg literal); width). cbn [ok_or mbind result_bind].
    cbn [raw_answer RawExactResult.items]. apply literal_loop_ok.
    eapply Forall_impl; [apply (raw_items_literal _ _ _ (Z.to_nat limit) Hrep)|]. by intros x [? _].
Qed.

Lemma raw_finish_answer generation request reports :
  let result := raw_of generation (len reports) (tally_of (RawExactRequest.limit request) reports) in
  0 <= RawExactRequest.limit request ->
  0 <= total found_of reports -> 0 <= total unavailable_of reports ->
  total found_of reports + total unavailable_of reports <= U64_MAX ->
  RawExactResult.validate_request (raw_answer generation (RawExactRequest.limit request) reports) request = Ok tt ->
  raw_finish request result = Ok (raw_answer generation (RawExactRequest.limit request) reports).
Proof.
  cbn zeta. set (limit := RawExactRequest.limit request). intros Hl Hf Hu Hsum Hvalid. unfold raw_finish.
  cbn [raw_of tally_of t_scanned t_unavailable t_bytes t_found t_items RawExactResult.generation
      RawExactResult.selected_sources RawExactResult.scanned_sources RawExactResult.missing_sources
      RawExactResult.scanned_bytes RawExactResult.matches RawExactResult.items RawExactResult.scan_complete
      RawExactResult.complete_negative RawExactResult.stop].
  rewrite checked_add_some by done. cbn [ok_or mbind result_bind].
  pose proof (all_items_count reports) as Hall.
  assert (len (take (Z.to_nat limit) (all_items reports)) = Z.min limit (len (all_items reports))) as Htake.
  { unfold len. rewrite length_take. lia. }
  assert ((if negb (bool_decide (try_from U64_MAX (len (take (Z.to_nat limit) (all_items reports)))
      = Some (total found_of reports + total unavailable_of reports))) then OutputLimit else Complete)
    = if len (all_items reports) <=? limit then Complete else OutputLimit) as ->.
  { rewrite Htake, try_from_some by lia. rewrite <- Hall.
    destruct (Z.leb_spec (len (all_items reports)) limit).
    - rewrite bool_decide_true; [done|]. f_equal. lia.
    - rewrite bool_decide_false; [done|]. intros [= E]. lia. }
  fold (raw_answer generation limit reports).
  change (map_err protocol_failure (RawExactResult.validate_request (raw_answer generation limit reports) request)
    ≫= (fun _ : () => Ok (raw_answer generation limit reports)) = Ok (raw_answer generation limit reports)).
  by rewrite Hvalid.
Qed.
End RawSpec.

(** C7. Raw exact search is exact.  Over an inventory of well-formed rows and any object
    directory, the executor returns precisely the answer of the specification: an invalid
    request and a bad selection are refused with their own codes, an unreadable object
    stops the search with the store's code, and otherwise every selected source is
    accounted for: a missing object as a gap, a readable one (verified by length and hash)
    with every occurrence of the literal in its bytes, overlapping ones included.  The
    counters never overflow, the kept items are the first ones in source and byte order,
    the stop reason says whether any was dropped, and the result always passes the wire's
    own validation against the request, so the executor's final self-check cannot fail.
    Only cancellation, the deadline, refused memory and a failed read of the snapshot can
    give another error, and never another answer. *)
Theorem raw_execute_exact blake3 root view inventory namespace request
    (Hgeneration : 0 < view_generation view) (Hinventory : inventory_ok namespace inventory)
    (Hview : refines (source_inventory view) (Ok inventory))
    (Hliteral : bytes_ok (RawExactRequest.literal request)) (Hlimit : 0 <= RawExactRequest.limit request) :
  refines (raw_execute blake3 root view request)
    (raw_spec blake3 root (view_generation view) inventory request) /\
  forall answer, raw_spec blake3 root (view_generation view) inventory request = Ok answer ->
    RawExactResult.validate_request answer request = Ok tt.
Proof.
  unfold raw_spec. destruct (RawExactRequest.validate request) as [[]|e] eqn:Hreq; cbn [map_err mbind result_bind].
  2:{ split; [|done]. unfold raw_execute, query_check. refine_step; [auto with eliot..|]. rewrite Hreq. apply refines_lift. }
  pose proof Hreq as Hg. unfold RawExactRequest.validate in Hg. apply seq_unit in Hg as [Hg%invalid_if_ok Hids]. to_prop.
  destruct (literal_new_refines (RawExactRequest.literal request)) as (l & Hl & Hlok & Hnew).
  assert (RawExactRequest.literal request <> []) as Hne by (intros E; rewrite E in *; done).
  is_false (len (RawExactRequest.literal request) =? 0) in Hnew.
  assert (forall selected reports, selection inventory (RawExactRequest.source_ids request) = Ok selected ->
    mapM (raw_report blake3 root (RawExactRequest.literal request)) selected = Ok reports ->
    RawExactResult.validate_request (raw_answer (view_generation view) (RawExactRequest.limit request) reports)
      request = Ok tt) as Hvalid by (intros; by eapply raw_answer_valid).
  split.
  - unfold raw_execute, query_check. refine_step; [auto with eliot..|]. rewrite Hreq. cbn [map_err]. rewrite lift_ok_bind.
    eapply refines_bind_ok; [exact Hnew|]. eapply refines_bind_ok; [exact Hview|].
    pose proof (select_refines inventory (RawExactRequest.source_ids request)) as Hsel.
    destruct (selection inventory (RawExactRequest.source_ids request)) as [selected|e] eqn:Eq;
      cbn [mbind result_bind]; [|by eapply refines_bind_err].
    eapply refines_bind_ok; [exact Hsel|].
    destruct (selection_ok _ _ _ _ Hinventory Eq Hids) as [(_ & Hlen & Hok) _].
    pose proof (len_nonneg selected). unfold MAX_SOURCES in Hlen. rewrite try_from_some by width.
    cbn [ok_or]. rewrite lift_ok_bind. refine_step; [auto with eliot|].
    pose proof (raw_loop_refines blake3 root (view_generation view) (len selected) l
      (RawExactRequest.limit request) namespace selected []) as Hloop.
    rewrite Hl in Hloop. specialize (Hloop (Hlok Hne) Hlimit ltac:(done) Hliteral Hok ltac:(done)).
    specialize (Hloop ltac:(unfold MAX_SOURCE_OBJECT_BYTES; cbn [total foldr]; width)).
    change (raw_of (view_generation view) (len selected) (tally_of (RawExactRequest.limit request) []))
      with (raw_of (view_generation view) (len selected) {| t_scanned := 0; t_unavailable := 0; t_bytes := 0;
        t_found := 0; t_items := take (Z.to_nat (RawExactRequest.limit request)) [] |}) in Hloop.
    rewrite take_nil in Hloop. cbn [app] in Hloop.
    destruct (mapM (raw_report blake3 root (RawExactRequest.literal request)) selected) as [reports|e] eqn:Hrep;
      cbn [mbind result_bind] in *; [|by eapply refines_bind_err].
    eapply refines_bind_ok; [exact Hloop|]. refine_step; [auto with eliot..|].
    pose proof (raw_reports_ok blake3 root _ _ _ _ Hne ltac:(done) Hliteral Hok Hrep) as Hreports.
    assert (len reports = len selected) as <- by (pose proof (Forall2_length _ _ _ Hreports); unfold len; lia).
    destruct (reports_bounds namespace selected reports) as (Hf & Hb & Hsum & Hs0 & Hu & _); [|done|].
    { by destruct (selection_ok _ _ _ _ Hinventory Eq Hids). }
    rewrite raw_finish_answer; [apply refines_lift|done|lia|lia| |by apply (Hvalid selected)].
    assert (len selected = len reports) by (pose proof (Forall2_length _ _ _ Hreports); unfold len; lia).
    unfold MAX_SOURCE_OBJECT_BYTES, MAX_SOURCES in *. width.
  - intros answer Ha. apply bind_ok_inv in Ha as (selected & Hs & Ha). apply bind_ok_inv in Ha as (reports & Hr & Ha).
    apply ok_inj in Ha as <-. by apply (Hvalid selected).
Qed.

(** A source whose object holds "banana", searched for "ana". *)
Definition banana : list Z := str "banana".
Definition banana_source : CurrentSourceRecord :=
  {| source_namespace_id := replicate 16 1; source_id := replicate 16 2; row_revision := 1;
     registration_revision := 1; locator := str "/a"; file_key := Unix 1 2;
     object_ref := source_ref (toy_digest banana) (len banana) |}.
Definition banana_entry : CapturedSource :=
  {| captured_source := banana_source;
     captured_preparation := {| prep_namespace := replicate 16 1; prep_source_id := replicate 16 2;
       settings_revision := 1; settings := default_settings; outcome_revision := 0; current_outcome := None |} |}.
Definition banana_view : PublishedView :=
  {| view_generation := 5; source_inventory := mret [banana_entry] |}.
Definition banana_request : RawExactRequest.t :=
  {| RawExactRequest.literal := str "ana"; RawExactRequest.source_ids := None; RawExactRequest.limit := 8 |}.

Lemma raw_execute_exact_witness :
  exists answer, run (raw_execute toy_digest (toy_root banana) banana_view banana_request) [] = Ok answer /\
    RawExactResult.matches answer = 2 /\ RawExactResult.validate_request answer banana_request = Ok tt.
Proof.
  destruct (raw_execute_exact toy_digest (toy_root banana) banana_view [banana_entry] (replicate 16 1) banana_request
    ltac:(vm_compute; reflexivity)
    ltac:(split; [repeat constructor|split; [vm_compute; congruence|constructor; [|constructor]]];
          split; [split_and!; try (split; [reflexivity|]); try (apply (bool_decide_eq_true_1 _); vm_compute; reflexivity);
                  vm_compute; try split_and!; try congruence;
                  apply (bool_decide_eq_true_1 _); vm_compute; reflexivity
                 |split_and!; vm_compute; congruence])
    (refines_ret _)
    ltac:(apply (bool_decide_eq_true_1 _); vm_compute; reflexivity) ltac:(vm_compute; congruence)) as [Href Hvalid].
  pose proof (refines_calm _ _ [] Href ltac:(constructor)) as Hrun.
  destruct (raw_spec toy_digest (toy_root banana) (view_generation banana_view) [banana_entry] banana_request)
    as [answer|e] eqn:Hs; [|vm_compute in Hs; discriminate].
  exists answer. split; [exact Hrun|]. split; [|exact (Hvalid answer eq_refl)].
  vm_compute in Hs. injection Hs as <-. reflexivity.
Defined.
