(* ===== verification/DecodedExact.v ===== *)
(** The decoded executor of [eliot-searchd]: literal text over one pinned inventory of
    prepared sources (bins/eliot-searchd/src/decoded_exact.rs). *)

From Stdlib Require Import Sorted.
From S2P Require Import Prelude Bytes Utf8 Ids Registry Layout Prepared.
From S2P Require Import Dto DtoFacts SourceRow PreparationRow ObjectStore Literal ExactResult RawExact.

Local Abbreviation take := List.firstn.

(** [RepresentationGap] *)
Record RepresentationGap := { gap_prepared : option ObjectRef; gap_reason : list Z }.

Definition decoded_limits : PreparationLimits :=
  {| max_input_bytes := 8 * 1024 * 1024; max_output_bytes := 8 * 1024 * 1024; max_lines := 1000000;
     max_units := 1000000; max_encoded_bytes := 64 * 1024 * 1024 |}.

(** The [map_err] of [visit_representation]. *)
Definition decode_failure (e : PreparationError) : QueryFailure :=
  match e with
  | Layout.Cancelled => QueryCancelled
  | Layout.Deadline => QueryDeadline
  | other => Code (Layout.code other)
  end.

(** Assignment to the fields that change during a scan. *)
Definition decoded_update (result : DecodedUtf8Result.t) (scanned gaps bytes matches : Z)
    (items : list DecodedUtf8Item.t) : DecodedUtf8Result.t :=
  {| DecodedUtf8Result.generation := DecodedUtf8Result.generation result;
     DecodedUtf8Result.selected_sources := DecodedUtf8Result.selected_sources result;
     DecodedUtf8Result.scanned_sources := scanned; DecodedUtf8Result.gap_sources := gaps;
     DecodedUtf8Result.scanned_bytes := bytes; DecodedUtf8Result.matches := matches;
     DecodedUtf8Result.items := items;
     DecodedUtf8Result.scan_complete := DecodedUtf8Result.scan_complete result;
     DecodedUtf8Result.complete_negative := DecodedUtf8Result.complete_negative result;
     DecodedUtf8Result.stop := DecodedUtf8Result.stop result |}.

(** The scan callback of [scan_source]. *)
Definition decoded_found (binding : RawSourceRef.t) (prepared : ObjectRefDto.t) (text : list Z)
    (limit start stop : Z) (result : DecodedUtf8Result.t) : M QueryFailure DecodedUtf8Result.t :=
  matches ← lift (ok_or input_limit (checked_add U64_MAX (DecodedUtf8Result.matches result) 1));
  items ←
    (if len (DecodedUtf8Result.items result) <? limit then
       matched ← lift (ok_or range_invalid (str_get text start stop));
       _ ← reserve_with allocation_failed;
       start ← lift (ok_or range_invalid (try_from U64_MAX start));
       stop ← lift (ok_or range_invalid (try_from U64_MAX stop));
       mret (DecodedUtf8Result.items result ++ [DecodedUtf8Item.Match
         {| DecodedUtf8Match.source := binding; DecodedUtf8Match.prepared := prepared;
            DecodedUtf8Match.representation_start := start; DecodedUtf8Match.representation_end := stop;
            DecodedUtf8Match.source_start := start; DecodedUtf8Match.source_end := stop;
            DecodedUtf8Match.text := matched |}])
     else mret (DecodedUtf8Result.items result));
  mret (decoded_update result (DecodedUtf8Result.scanned_sources result) (DecodedUtf8Result.gap_sources result)
          (DecodedUtf8Result.scanned_bytes result) matches items).

Section Decoded.
Context (blake3 : list Z -> list Z) (root : directory).

(** [visit_representation]; the callback's captured state is threaded through it. *)
Definition visit_representation {S} (captured : CapturedSource)
    (visit : ObjectRef -> PreparedUtf8 -> S -> M QueryFailure S) (s : S)
    : M QueryFailure (option RepresentationGap * S) :=
  _ ← query_check;
  outcome ← lift (ok_or (Code (str "EVIDENCE_BINDING_INVALID")) (current_outcome (captured_preparation captured)));
  match outcome_result outcome with
  | PreparationRow.Gap _ => mret (Some {| gap_prepared := None; gap_reason := str "PREPARATION_GAP" |}, s)
  | Ready artifact =>
      match_result (read_object blake3 root (object_ref (captured_source captured)) MAX_SOURCE_OBJECT_BYTES) (fun read =>
        match read with
        | Err Missing =>
            mret (Some {| gap_prepared := Some artifact; gap_reason := str "SOURCE_OBJECT_MISSING" |}, s)
        | Err e => fail (object_failure e)
        | Ok source =>
            match_result (read_object blake3 root artifact (64 * 1024 * 1024)) (fun read =>
              match read with
              | Err Missing =>
                  mret (Some {| gap_prepared := Some artifact; gap_reason := str "PREPARED_OBJECT_MISSING" |}, s)
              | Err e => fail (object_failure e)
              | Ok bytes =>
                  view ← lift_err decode_failure
                           (decode_prepared_utf8 blake3 bytes (captured_source captured)
                              (settings (captured_preparation captured)) decoded_limits);
                  _ ← lift (reject_if (negb (bool_decide (prepared_text view = source)))
                              (Code (str "EVIDENCE_TEXT_MISMATCH")));
                  _ ← query_check;
                  s ← visit artifact view s;
                  mret (None, s)
              end)
        end)
  end.

(** The visitor of [scan_source]. *)
Definition decoded_visit (binding : RawSourceRef.t) (source : CurrentSourceRecord) (literal : Literal) (limit : Z)
    (artifact : ObjectRef) (view : PreparedUtf8) (result : DecodedUtf8Result.t) : M QueryFailure DecodedUtf8Result.t :=
  prepared ← object_ref_dto artifact;
  result ← scan literal (prepared_text view) (decoded_found binding prepared (prepared_text view) limit) result;
  scanned_bytes ← lift (ok_or input_limit (checked_add U64_MAX (DecodedUtf8Result.scanned_bytes result)
                                             (byte_length (object_ref source))));
  mret (decoded_update result (DecodedUtf8Result.scanned_sources result + 1) (DecodedUtf8Result.gap_sources result)
          scanned_bytes (DecodedUtf8Result.matches result) (DecodedUtf8Result.items result)).

(** [scan_source] *)
Definition decoded_scan_source (captured : CapturedSource) (literal : Literal) (limit : Z)
    (result : DecodedUtf8Result.t) : M QueryFailure DecodedUtf8Result.t :=
  binding ← source_ref_dto (captured_source captured);
  visited ← visit_representation captured (decoded_visit binding (captured_source captured) literal limit) result;
  let '(gap, result) := visited in
  match gap with
  | None => mret result
  | Some gap =>
      items ←
        (if len (DecodedUtf8Result.items result) <? limit then
           prepared ← match gap_prepared gap with
             | None => mret None
             | Some reference => dto ← object_ref_dto reference; mret (Some dto)
             end;
           code ← lift (map_err protocol_failure (FailureCode.new (gap_reason gap)));
           mret (DecodedUtf8Result.items result ++ [DecodedUtf8Item.Gap
             {| DecodedUtf8Gap.source := binding; DecodedUtf8Gap.prepared := prepared;
                DecodedUtf8Gap.code := code |}])
         else mret (DecodedUtf8Result.items result));
      mret (decoded_update result (DecodedUtf8Result.scanned_sources result)
              (DecodedUtf8Result.gap_sources result + 1) (DecodedUtf8Result.scanned_bytes result)
              (DecodedUtf8Result.matches result) items)
  end.

(** [for entry in inventory] *)
Fixpoint decoded_loop (inventory : list CapturedSource) (literal : Literal) (limit : Z)
    (result : DecodedUtf8Result.t) : M QueryFailure DecodedUtf8Result.t :=
  match inventory with
  | [] => mret result
  | entry :: inventory =>
      result ← decoded_scan_source entry literal limit result;
      decoded_loop inventory literal limit result
  end.

(** The end of [execute]. *)
Definition decoded_finish (request : DecodedUtf8Request.t) (r : DecodedUtf8Result.t)
    : result QueryFailure DecodedUtf8Result.t :=
  let scan_complete := DecodedUtf8Result.gap_sources r =? 0 in
  let complete_negative := scan_complete && (DecodedUtf8Result.matches r =? 0) in
  total ← ok_or input_limit (checked_add U64_MAX (DecodedUtf8Result.matches r)
                               (DecodedUtf8Result.gap_sources r));
  let stop := if negb (bool_decide (try_from U64_MAX (len (DecodedUtf8Result.items r)) = Some total))
    then OutputLimit else DecodedUtf8Result.stop r in
  let r := {|
    DecodedUtf8Result.generation := DecodedUtf8Result.generation r;
    DecodedUtf8Result.selected_sources := DecodedUtf8Result.selected_sources r;
    DecodedUtf8Result.scanned_sources := DecodedUtf8Result.scanned_sources r;
    DecodedUtf8Result.gap_sources := DecodedUtf8Result.gap_sources r;
    DecodedUtf8Result.scanned_bytes := DecodedUtf8Result.scanned_bytes r;
    DecodedUtf8Result.matches := DecodedUtf8Result.matches r;
    DecodedUtf8Result.items := DecodedUtf8Result.items r;
    DecodedUtf8Result.scan_complete := scan_complete;
    DecodedUtf8Result.complete_negative := complete_negative;
    DecodedUtf8Result.stop := stop |} in
  _ ← map_err protocol_failure (DecodedUtf8Result.validate_request r request);
  Ok r.

(** [execute] *)
Definition decoded_execute (view : PublishedView) (request : DecodedUtf8Request.t)
    : M QueryFailure DecodedUtf8Result.t :=
  _ ← query_check;
  _ ← lift (map_err protocol_failure (DecodedUtf8Request.validate request));
  literal ← literal_new (DecodedUtf8Request.literal request);
  inventory ← source_inventory view;
  inventory ← select_sources inventory (DecodedUtf8Request.source_ids request);
  selected_sources ← lift (ok_or input_limit (try_from U64_MAX (len inventory)));
  _ ← reserve_with allocation_failed;
  result ← decoded_loop inventory literal (DecodedUtf8Request.limit request) {|
    DecodedUtf8Result.generation := view_generation view;
    DecodedUtf8Result.selected_sources := selected_sources; DecodedUtf8Result.scanned_sources := 0;
    DecodedUtf8Result.gap_sources := 0; DecodedUtf8Result.scanned_bytes := 0; DecodedUtf8Result.matches := 0;
    DecodedUtf8Result.items := []; DecodedUtf8Result.scan_complete := false;
    DecodedUtf8Result.complete_negative := false; DecodedUtf8Result.stop := Complete |};
  _ ← query_check;
  lift (decoded_finish request result).
End Decoded.

(** ** Specification *)

Definition decoded_match (s : CurrentSourceRecord) (artifact : ObjectRef) (literal : list Z) (start : Z)
    : DecodedUtf8Item.t :=
  DecodedUtf8Item.Match
    {| DecodedUtf8Match.source := source_dto s; DecodedUtf8Match.prepared := object_dto artifact;
       DecodedUtf8Match.representation_start := start;
       DecodedUtf8Match.representation_end := start + len literal;
       DecodedUtf8Match.source_start := start; DecodedUtf8Match.source_end := start + len literal;
       DecodedUtf8Match.text := literal |}.
Definition decoded_gap (s : CurrentSourceRecord) (gap : RepresentationGap) : DecodedUtf8Item.t :=
  DecodedUtf8Item.Gap
    {| DecodedUtf8Gap.source := source_dto s; DecodedUtf8Gap.prepared := object_dto <$> gap_prepared gap;
       DecodedUtf8Gap.code := gap_reason gap |}.

Definition decoded_of (generation selected : Z) (t : tally) : DecodedUtf8Result.t :=
  {| DecodedUtf8Result.generation := generation; DecodedUtf8Result.selected_sources := selected;
     DecodedUtf8Result.scanned_sources := t_scanned t; DecodedUtf8Result.gap_sources := t_unavailable t;
     DecodedUtf8Result.scanned_bytes := t_bytes t; DecodedUtf8Result.matches := t_found t;
     DecodedUtf8Result.items := t_items t; DecodedUtf8Result.scan_complete := false;
     DecodedUtf8Result.complete_negative := false; DecodedUtf8Result.stop := Complete |}.
(** The result that reports a list of sources under a limit. *)
Definition decoded_answer (generation limit : Z) (reports : list (report DecodedUtf8Item.t)) : DecodedUtf8Result.t :=
  let found := total found_of reports in
  let gaps := total unavailable_of reports in
  {| DecodedUtf8Result.generation := generation; DecodedUtf8Result.selected_sources := len reports;
     DecodedUtf8Result.scanned_sources := total scanned_of reports; DecodedUtf8Result.gap_sources := gaps;
     DecodedUtf8Result.scanned_bytes := total bytes_of reports; DecodedUtf8Result.matches := found;
     DecodedUtf8Result.items := take (Z.to_nat limit) (all_items reports);
     DecodedUtf8Result.scan_complete := (gaps =? 0);
     DecodedUtf8Result.complete_negative := (gaps =? 0) && (found =? 0);
     DecodedUtf8Result.stop := if len (all_items reports) <=? limit then Complete else OutputLimit |}.

(** A stored preparation outcome that names an artifact names a supported one. *)
Definition prepared_ok (entry : CapturedSource) : Prop :=
  forall outcome artifact, current_outcome (captured_preparation entry) = Some outcome ->
    outcome_result outcome = Ready artifact ->
    object_wf artifact /\ kind artifact = Registry.Prepared /\
    format_version artifact = SOURCE_OBJECT_FORMAT_VERSION /\ 0 < byte_length artifact <= 64 * 1024 * 1024.

Lemma object_failure_interrupt e : interrupt e -> interrupt (object_failure e).
Proof.
  intros [-> | [-> | -> ] ]; [auto with eliot..|]. right; right. by apply list_elem_of_further, list_elem_of_here.
Qed.

Lemma decode_failure_interrupt e : interrupt e -> interrupt (decode_failure e).
Proof.
  intros [-> | [-> | -> ] ]; [auto with eliot..|]. right; right.
  by apply list_elem_of_further, list_elem_of_further, list_elem_of_here.
Qed.

Section DecodedSpec.
Context (blake3 : list Z -> list Z) (root : directory).

(** The accepted artifact and text of one source, or why there is none. *)
Definition representation (captured : CapturedSource)
    : result QueryFailure (RepresentationGap + ObjectRef * PreparedUtf8) :=
  outcome ← ok_or (Code (str "EVIDENCE_BINDING_INVALID")) (current_outcome (captured_preparation captured));
  match outcome_result outcome with
  | PreparationRow.Gap _ => Ok (inl {| gap_prepared := None; gap_reason := str "PREPARATION_GAP" |})
  | Ready artifact =>
      match object_at blake3 root (object_ref (captured_source captured)) MAX_SOURCE_OBJECT_BYTES with
      | Err Missing => Ok (inl {| gap_prepared := Some artifact; gap_reason := str "SOURCE_OBJECT_MISSING" |})
      | Err e => Err (object_failure e)
      | Ok source =>
          match object_at blake3 root artifact (64 * 1024 * 1024) with
          | Err Missing => Ok (inl {| gap_prepared := Some artifact; gap_reason := str "PREPARED_OBJECT_MISSING" |})
          | Err e => Err (object_failure e)
          | Ok bytes =>
              view ← map_err decode_failure
                       (run (decode_prepared_utf8 blake3 bytes (captured_source captured)
                               (settings (captured_preparation captured)) decoded_limits) []);
              if bool_decide (prepared_text view = source) then Ok (inr (artifact, view))
              else Err (Code (str "EVIDENCE_TEXT_MISMATCH"))
          end
      end
  end.

(** What one source contributes: every occurrence in its accepted text, or a gap. *)
Definition decoded_report (literal : list Z) (entry : CapturedSource)
    : result QueryFailure (report DecodedUtf8Item.t) :=
  rep ← representation entry;
  Ok match rep with
     | inl gap => Unavailable (decoded_gap (captured_source entry) gap)
     | inr (artifact, view) =>
         Scanned (decoded_match (captured_source entry) artifact literal <$> occurrences literal (prepared_text view))
           (byte_length (object_ref (captured_source entry)))
     end.

Definition decoded_spec (generation : Z) (inventory : list CapturedSource) (request : DecodedUtf8Request.t)
    : result QueryFailure DecodedUtf8Result.t :=
  _ ← map_err protocol_failure (DecodedUtf8Request.validate request);
  selected ← selection inventory (DecodedUtf8Request.source_ids request);
  reports ← mapM (decoded_report (DecodedUtf8Request.literal request)) selected;
  Ok (decoded_answer generation (DecodedUtf8Request.limit request) reports).

(** What a representation gives the scan. *)
Lemma representation_text entry artifact view :
  representation entry = Ok (inr (artifact, view)) ->
  utf8_valid (prepared_text view) = true /\ len (prepared_text view) = byte_length (object_ref (captured_source entry)) /\
  (exists outcome, current_outcome (captured_preparation entry) = Some outcome /\ outcome_result outcome = Ready artifact).
Proof.
  unfold representation. intros H. apply bind_ok_inv in H as (outcome & Ho%ok_or_inv & H).
  destruct (outcome_result outcome) as [a|g] eqn:Hr; [|done].
  destruct (object_at _ _ (object_ref _) _) as [source|[]] eqn:Hs; try done.
  destruct (object_at _ _ a _) as [bytes|[]] eqn:Ha; try done.
  apply bind_ok_inv in H as (v & Hv%map_err_ok & H). case_bool_decide as Ht; [|done]. apply ok_inj in H.
  injection H as -> ->. split_and!; [by eapply decode_prepared_valid| |eauto].
  apply object_at_ok in Hs as (Hl & _). by rewrite Ht.
Qed.

Lemma representation_gap entry gap :
  representation entry = Ok (inl gap) ->
  match gap_prepared gap with
  | None => gap_reason gap = str "PREPARATION_GAP"
  | Some artifact => (gap_reason gap = str "SOURCE_OBJECT_MISSING" \/ gap_reason gap = str "PREPARED_OBJECT_MISSING") /\
      exists outcome, current_outcome (captured_preparation entry) = Some outcome /\ outcome_result outcome = Ready artifact
  end.
Proof.
  unfold representation. intros H. apply bind_ok_inv in H as (outcome & Ho%ok_or_inv & H).
  destruct (outcome_result outcome) as [a|g] eqn:Hr; [|by apply ok_inj in H; injection H as <-].
  destruct (object_at _ _ (object_ref _) _) as [source|[]] eqn:Hs; try done; [|apply ok_inj in H; injection H as <-; cbn; eauto].
  destruct (object_at _ _ a _) as [bytes|[]] eqn:Ha; try done; [|apply ok_inj in H; injection H as <-; cbn; eauto].
  apply bind_ok_inv in H as (v & _ & H). by case_bool_decide.
Qed.

Lemma visit_refines {S} entry namespace (visit : ObjectRef -> PreparedUtf8 -> S -> M QueryFailure S)
    (f : ObjectRef -> PreparedUtf8 -> S -> result QueryFailure S) s :
  source_ok namespace (captured_source entry) -> prepared_ok entry ->
  (forall artifact view, representation entry = Ok (inr (artifact, view)) ->
     refines (visit artifact view s) (f artifact view s)) ->
  refines (visit_representation blake3 root entry visit s)
    (rep ← representation entry;
     match rep with
     | inl gap => Ok (Some gap, s)
     | inr (artifact, view) => s ← f artifact view s; Ok (None, s)
     end).
Proof.
  intros Hs Hp Hvisit. unfold visit_representation, representation, query_check in *.
  refine_step; [auto with eliot..|].
  destruct (current_outcome (captured_preparation entry)) as [outcome|] eqn:Ho; [|apply refines_fail].
  cbn [ok_or] in *. rewrite lift_ok_bind. cbn [mbind result_bind] in *.
  destruct (outcome_result outcome) as [artifact|gap] eqn:Hr; [|apply refines_ret].
  destruct (Hp _ _ Ho Hr) as (_ & _ & _ & Hlen).
  assert (0 <= byte_length (object_ref (captured_source entry))) as Hb.
  { destruct Hs as ((_ & _ & _ & _ & _ & _ & _ & _ & _ & ?) & _). lia. }
  assert (forall e, interrupt e -> exists e', (fail (object_failure e) : M QueryFailure (option RepresentationGap * S))
    = fail e' /\ interrupt e') as Hint by (intros e He; exists (object_failure e); split; [done|by apply object_failure_interrupt]).
  eapply refines_match; [apply read_object_refines; [done|unfold MAX_SOURCE_OBJECT_BYTES; width]|..].
  { intros e He. destruct (Hint e He) as (e' & Hf & Hi). exists e'. by destruct He as [-> | [-> | -> ] ]. }
  destruct (object_at _ _ (object_ref _) _) as [source|e] eqn:Hsrc.
  2:{ destruct e; first [apply refines_fail|apply refines_ret]. }
  eapply refines_match; [apply read_object_refines; [lia|width]|..].
  { intros e He. destruct (Hint e He) as (e' & Hf & Hi). exists e'. by destruct He as [-> | [-> | -> ] ]. }
  destruct (object_at _ _ artifact _) as [bytes|e] eqn:Hart.
  2:{ destruct e; first [apply refines_fail|apply refines_ret]. }
  pose proof (refines_lift_err decode_failure _ _ decode_failure_interrupt
    (decode_prepared_uniform blake3 bytes (captured_source entry) (settings (captured_preparation entry)) decoded_limits)) as Hdec.
  destruct (run (decode_prepared_utf8 _ _ _ _ _) []) as [view|e]; cbn [map_err mbind result_bind] in *;
    [|by eapply refines_bind_err].
  eapply refines_bind_ok; [exact Hdec|].
  case_bool_decide as Ht; cbn [negb reject_if mbind result_bind] in *; [|apply refines_lift].
  rewrite lift_ok_bind. refine_step; [auto with eliot..|].
  apply (refines_bind _ (f artifact view s)); [by apply Hvisit|]. intros s' _. apply refines_ret.
Qed.

Lemma artifact_dto_valid artifact :
  object_wf artifact -> kind artifact = Registry.Prepared -> format_version artifact = SOURCE_OBJECT_FORMAT_VERSION ->
  0 < byte_length artifact <= 64 * 1024 * 1024 ->
  ObjectRefDto.validate (object_dto artifact) Dto.Prepared = Ok tt.
Proof.
  intros (_ & [Hd1 Hd2] & _) Hk Hv Hb. unfold ObjectRefDto.validate. apply invalid_if_ok. cbn. rewrite Hv, Hk.
  rewrite hex_lower_ok by (done || unfold len; lia).
  is_false (64 * 1024 * 1024 <? byte_length artifact). is_false (byte_length artifact =? 0). done.
Qed.

Lemma decoded_report_ok namespace literal entry r :
  literal <> [] -> len literal <= MAX_QUERY_BYTES ->
  source_ok namespace (captured_source entry) -> prepared_ok entry ->
  decoded_report literal entry = Ok r -> report_ok (captured_source entry) r.
Proof.
  intros Hl Hmax Hs Hp Hr. pose proof (source_dto_valid _ _ Hs) as Hv. unfold decoded_report in Hr.
  apply bind_ok_inv in Hr as ([gap|[artifact view]] & Hrep & Hr); apply ok_inj in Hr as <-.
  - apply representation_gap in Hrep. split; cbn [report_items]; [|done]. constructor; [|done]. cbn. split; [done|].
    unfold DecodedUtf8Item.validate. cbn. rewrite Hv. cbn [mbind result_bind].
    destruct (gap_prepared gap) as [artifact|]; cbn [fmap option_map].
    + destruct Hrep as (Hreason & outcome & Ho & Ha). destruct (Hp _ _ Ho Ha) as (? & ? & ? & ?). cbn.
      rewrite artifact_dto_valid by done. by destruct Hreason as [-> | -> ].
    + cbn. by rewrite Hrep.
  - apply representation_text in Hrep as (Hu & Hlen & outcome & Ho & Ha).
    destruct (Hp _ _ Ho Ha) as (Hw & Hk & Hf & Hb). pose proof (artifact_dto_valid _ Hw Hk Hf Hb) as Hav.
    pose proof (len_nonneg literal) as Hl0. assert (0 < len literal) as Hlp.
    { destruct literal; [done|]. rewrite len_cons. pose proof (len_nonneg literal). lia. }
    assert (byte_length (object_ref (captured_source entry)) <= MAX_SOURCE_OBJECT_BYTES) as Hbl.
    { by destruct Hs as (_ & _ & _ & _ & _ & _ & _ & _ & ?). }
    split; cbn [report_items].
    + apply Forall_fmap, Forall_forall. intros start (H0 & Hsl)%occurrences_in. cbn.
      split; [done|]. apply slice_inv in Hsl as (H1 & H2 & _).
      unfold DecodedUtf8Item.validate. cbn. rewrite Hv. cbn [mbind result_bind]. rewrite Hav. cbn [mbind result_bind].
      apply invalid_if_ok. rewrite checked_sub_some by lia. replace (start + len literal - start) with (len literal) by lia.
      rewrite try_from_some by (unfold MAX_QUERY_BYTES in *; width). rewrite bool_decide_true by done.
      rewrite !Z.eqb_refl. is_false (start + len literal <=? start).
      is_false (byte_length (object_ref (captured_source entry)) <? start + len literal).
      is_false (MAX_QUERY_BYTES <? len literal). done.
    + split_and!; [by apply Forall_fmap, Forall_forall| | |done].
      * pose proof (occurrences_sorted literal (prepared_text view)) as Hso. induction Hso as [|x l Hso IH Hx]; [constructor|].
        cbn. constructor; [done|]. apply Forall_fmap. eapply Forall_impl; [exact Hx|]. intros y Hy. cbn.
        rewrite bool_decide_true by done. by apply Z.ltb_lt.
      * rewrite len_fmap. pose proof (occurrences_count literal (prepared_text view) Hl). lia.
Qed.

(** The callback without its observations. *)
Definition decoded_found_pure (binding : RawSourceRef.t) (prepared : ObjectRefDto.t) (text : list Z)
    (limit start stop : Z) (r : DecodedUtf8Result.t) : result QueryFailure DecodedUtf8Result.t :=
  matches ← ok_or input_limit (checked_add U64_MAX (DecodedUtf8Result.matches r) 1);
  items ←
    (if len (DecodedUtf8Result.items r) <? limit then
       matched ← ok_or range_invalid (str_get text start stop);
       start ← ok_or range_invalid (try_from U64_MAX start);
       stop ← ok_or range_invalid (try_from U64_MAX stop);
       Ok (DecodedUtf8Result.items r ++ [DecodedUtf8Item.Match
         {| DecodedUtf8Match.source := binding; DecodedUtf8Match.prepared := prepared;
            DecodedUtf8Match.representation_start := start; DecodedUtf8Match.representation_end := stop;
            DecodedUtf8Match.source_start := start; DecodedUtf8Match.source_end := stop;
            DecodedUtf8Match.text := matched |}])
     else Ok (DecodedUtf8Result.items r));
  Ok (decoded_update r (DecodedUtf8Result.scanned_sources r) (DecodedUtf8Result.gap_sources r)
        (DecodedUtf8Result.scanned_bytes r) matches items).

Lemma decoded_found_refines binding prepared text limit start stop r :
  refines (decoded_found binding prepared text limit start stop r)
    (decoded_found_pure binding prepared text limit start stop r).
Proof.
  unfold decoded_found, decoded_found_pure. apply refines_bind; [apply refines_lift|intros matches _].
  apply refines_bind; [|intros items _; apply refines_ret].
  destruct (len (DecodedUtf8Result.items r) <? limit); [|apply refines_ret].
  apply refines_bind; [apply refines_lift|intros matched _].
  refine_step; [auto with eliot|].
  apply refines_bind; [apply refines_lift|intros a _].
  apply refines_bind; [apply refines_lift|intros b _]. apply refines_ret.
Qed.

Definition decoded_tally (t : tally) (limit : Z) (ms : list DecodedUtf8Item.t) : tally :=
  {| t_scanned := t_scanned t; t_unavailable := t_unavailable t; t_bytes := t_bytes t;
     t_found := t_found t + len ms; t_items := foldl (push_bounded limit) (t_items t) ms |}.

Lemma decoded_found_all generation selected s artifact text literal limit starts : forall t,
  utf8_valid text = true -> utf8_valid literal = true -> literal <> [] ->
  len text <= MAX_SOURCE_OBJECT_BYTES -> (forall x, x ∈ starts -> x ∈ occurrences literal text) ->
  t_found t + len starts <= U64_MAX ->
  fold_found (decoded_found_pure (source_dto s) (object_dto artifact) text limit) (len literal) starts
    (decoded_of generation selected t)
  = Ok (decoded_of generation selected (decoded_tally t limit (decoded_match s artifact literal <$> starts))).
Proof.
  unfold decoded_tally. induction starts as [|start starts IH]; intros t Hu Hlu Hne Hb Hin Hf; cbn [fold_found].
  - f_equal. destruct t. cbn. by rewrite Z.add_0_r.
  - rewrite len_cons in Hf. pose proof (len_nonneg starts).
    destruct (proj1 (occurrences_in _ _ _) (Hin start (list_elem_of_here _ _))) as [H0 Hsl].
    pose proof (slice_inv _ _ _ _ Hsl) as (H1 & H2 & _). unfold MAX_SOURCE_OBJECT_BYTES in Hb.
    apply str_get_occurrence in Hsl; try done.
    assert (decoded_found_pure (source_dto s) (object_dto artifact) text limit start (start + len literal)
        (decoded_of generation selected t)
      = Ok (decoded_of generation selected {| t_scanned := t_scanned t; t_unavailable := t_unavailable t;
              t_bytes := t_bytes t; t_found := t_found t + 1;
              t_items := push_bounded limit (t_items t) (decoded_match s artifact literal start) |})) as ->.
    { unfold decoded_found_pure. cbn [decoded_of DecodedUtf8Result.matches DecodedUtf8Result.items].
      rewrite checked_add_some by lia. cbn [ok_or mbind result_bind].
      rewrite Hsl, !try_from_some by width. unfold push_bounded. by destruct (len (t_items t) <? limit). }
    cbn [mbind result_bind].
    rewrite IH; try done; [|intros x Hx; by apply Hin, list_elem_of_further|cbn; lia].
    cbn. rewrite len_cons, Z.add_assoc. done.
Qed.
End DecodedSpec.

(** ** The executor refines the specification *)

Section DecodedRefinement.
Context (blake3 : list Z -> list Z) (root : directory).

(** The state after one more source. *)
Local Abbreviation after generation selected limit rs := (decoded_of generation selected (tally_of limit rs)).

Lemma decoded_visit_refines generation selected literal limit entry rs artifact view :
  literal_ok literal -> utf8_valid (lit_bytes literal) = true -> 0 <= limit ->
  byte_length (object_ref (captured_source entry)) <= MAX_SOURCE_OBJECT_BYTES ->
  0 <= total found_of rs -> 0 <= total bytes_of rs ->
  total found_of rs + MAX_SOURCE_OBJECT_BYTES <= U64_MAX ->
  total bytes_of rs + MAX_SOURCE_OBJECT_BYTES <= U64_MAX ->
  representation blake3 root entry = Ok (inr (artifact, view)) ->
  refines (decoded_visit (source_dto (captured_source entry)) (captured_source entry) literal limit artifact view
             (after generation selected limit rs))
    (Ok (after generation selected limit (rs ++
       [Scanned (decoded_match (captured_source entry) artifact (lit_bytes literal) <$>
          occurrences (lit_bytes literal) (prepared_text view)) (byte_length (object_ref (captured_source entry)))]))).
Proof.
  intros Hlit Hlu Hlimit Hbl Hf0 Hb0 Hf Hb Hrep. destruct (representation_text blake3 root _ _ _ Hrep) as (Hu & Hlen & _).
  pose proof (len_nonneg (prepared_text view)). unfold decoded_visit.
  eapply refines_bind_ok; [apply object_ref_refines|].
  pose proof (occurrences_count (lit_bytes literal) (prepared_text view) (proj1 Hlit)) as Hcount.
  eapply refines_bind_ok.
  { pose proof (scan_refines literal
      (decoded_found (source_dto (captured_source entry)) (object_dto artifact) (prepared_text view) limit)
      (decoded_found_pure (source_dto (captured_source entry)) (object_dto artifact) (prepared_text view) limit) Hlit
      (decoded_found_refines _ _ _ limit) (prepared_text view) (after generation selected limit rs)) as Hscan.
    rewrite decoded_found_all in Hscan; [exact Hscan|done|done|apply Hlit|lia|done|]. cbn. lia. }
  cbn [decoded_of decoded_tally tally_of t_scanned t_unavailable t_bytes t_found t_items
    DecodedUtf8Result.scanned_bytes DecodedUtf8Result.scanned_sources DecodedUtf8Result.gap_sources
    DecodedUtf8Result.matches DecodedUtf8Result.items].
  rewrite checked_add_some by lia. cbn [ok_or]. rewrite lift_ok_bind.
  assert (forall x y : DecodedUtf8Result.t, x = y -> refines (mret x : M QueryFailure _) (Ok y)) as Heq
    by (intros x y ->; apply refines_ret). apply Heq.
  unfold decoded_of, tally_of, decoded_update. cbn. rewrite !total_app, all_items_app.
  cbn [scanned_of unavailable_of found_of bytes_of report_items]. rewrite push_bounded_fold by done.
  by rewrite len_fmap, Z.add_0_r.
Qed.

(** The reasons of a gap are failure codes of the wire. *)
Lemma gap_reason_code entry gap :
  representation blake3 root entry = Ok (inl gap) ->
  map_err protocol_failure (FailureCode.new (gap_reason gap)) = Ok (gap_reason gap).
Proof.
  intros H%representation_gap. destruct (gap_prepared gap).
  - destruct H as ([-> | -> ] & _); vm_compute; reflexivity.
  - rewrite H. vm_compute; reflexivity.
Qed.

Lemma gap_prepared_refines gap :
  refines (match gap_prepared gap with
           | None => mret None
           | Some reference => dto ← object_ref_dto reference; mret (Some dto)
           end) (Ok (object_dto <$> gap_prepared gap)).
Proof.
  destruct (gap_prepared gap); [|apply refines_ret]. eapply refines_bind_ok; [apply object_ref_refines|apply refines_ret].
Qed.

Lemma decoded_scan_refines generation selected literal limit entry rs namespace :
  literal_ok literal -> utf8_valid (lit_bytes literal) = true -> 0 <= limit ->
  source_ok namespace (captured_source entry) -> prepared_ok entry ->
  0 <= total found_of rs -> 0 <= total bytes_of rs ->
  total found_of rs + MAX_SOURCE_OBJECT_BYTES <= U64_MAX ->
  total bytes_of rs + MAX_SOURCE_OBJECT_BYTES <= U64_MAX ->
  refines (decoded_scan_source blake3 root entry literal limit (after generation selected limit rs))
    (r ← decoded_report blake3 root (lit_bytes literal) entry; Ok (after generation selected limit (rs ++ [r]))).
Proof.
  intros Hlit Hlu Hlimit Hs Hp Hf0 Hb0 Hf Hb. unfold decoded_scan_source, decoded_report.
  assert (byte_length (object_ref (captured_source entry)) <= MAX_SOURCE_OBJECT_BYTES) as Hbl.
  { by destruct Hs as (_ & _ & _ & _ & _ & _ & _ & _ & ?). }
  eapply refines_bind_ok; [apply source_ref_refines|].
  pose proof (visit_refines blake3 root entry namespace
    (decoded_visit (source_dto (captured_source entry)) (captured_source entry) literal limit)
    (fun artifact view _ => Ok (after generation selected limit (rs ++
       [Scanned (decoded_match (captured_source entry) artifact (lit_bytes literal) <$>
          occurrences (lit_bytes literal) (prepared_text view)) (byte_length (object_ref (captured_source entry)))])))
    (after generation selected limit rs) Hs Hp
    ltac:(intros artifact view Hrep; by eapply decoded_visit_refines)) as Hvisit.
  destruct (representation blake3 root entry) as [[gap|[artifact view]]|e] eqn:Hrep; cbn [mbind result_bind] in *.
  - eapply refines_bind_ok; [exact Hvisit|]. cbn [decoded_of tally_of t_items DecodedUtf8Result.items].
    set (item := decoded_gap (captured_source entry) gap).
    apply (refines_bind_ok _ (push_bounded limit (take (Z.to_nat limit) (all_items rs)) item)).
    + unfold push_bounded. destruct (len (take (Z.to_nat limit) (all_items rs)) <? limit); [|apply refines_ret].
      eapply refines_bind_ok; [apply gap_prepared_refines|].
      rewrite (gap_reason_code entry) by done. rewrite lift_ok_bind. apply refines_ret.
    + rewrite push_bounded_take by done.
      assert (forall x y : DecodedUtf8Result.t, x = y -> refines (mret x : M QueryFailure _) (Ok y)) as Heq
        by (intros x y ->; apply refines_ret). apply Heq.
      unfold decoded_of, tally_of, decoded_update. cbn. rewrite !total_app, all_items_app.
      cbn [scanned_of unavailable_of found_of bytes_of report_items]. by rewrite !Z.add_0_r.
  - eapply refines_bind_ok; [exact Hvisit|]. apply refines_ret.
  - by eapply refines_bind_err.
Qed.

Lemma decoded_loop_refines generation selected literal limit namespace inventory : forall rs,
  literal_ok literal -> utf8_valid (lit_bytes literal) = true -> 0 <= limit ->
  len (lit_bytes literal) <= MAX_QUERY_BYTES ->
  Forall (fun e => source_ok namespace (captured_source e)) inventory -> Forall prepared_ok inventory ->
  0 <= total found_of rs <= total bytes_of rs ->
  total bytes_of rs + MAX_SOURCE_OBJECT_BYTES * len inventory <= U64_MAX ->
  refines (decoded_loop blake3 root inventory literal limit (after generation selected limit rs))
    (reports ← mapM (decoded_report blake3 root (lit_bytes literal)) inventory;
     Ok (after generation selected limit (rs ++ reports))).
Proof.
  induction inventory as [|entry inventory IH]; intros rs Hlit Hlu Hlimit Hmax Hok Hprep Hf Hb; cbn [decoded_loop mapM].
  - cbn. rewrite app_nil_r. apply refines_ret.
  - apply Forall_cons in Hok as [Hs Hok], Hprep as [Hp Hprep]. rewrite len_cons in Hb.
    pose proof (len_nonneg inventory). unfold MAX_SOURCE_OBJECT_BYTES in *.
    pose proof (decoded_scan_refines generation selected literal limit entry rs namespace Hlit Hlu Hlimit Hs Hp) as Hscan.
    specialize (Hscan ltac:(lia) ltac:(lia) ltac:(unfold MAX_SOURCE_OBJECT_BYTES; lia)
      ltac:(unfold MAX_SOURCE_OBJECT_BYTES; lia)).
    destruct (decoded_report blake3 root (lit_bytes literal) entry) as [r|e] eqn:Hr; cbn [mbind result_bind] in *;
      [|by eapply refines_bind_err].
    eapply refines_bind_ok; [exact Hscan|].
    assert (0 <= found_of r <= bytes_of r /\ bytes_of r <= 8 * 1024 * 1024) as Hrb.
    { pose proof (decoded_report_ok blake3 root namespace _ _ _ (proj1 Hlit) Hmax Hs Hp Hr) as [_ Hro].
      destruct r as [|ms n]; cbn; [lia|]. destruct Hro as (_ & _ & ?). pose proof (len_nonneg ms).
      unfold MAX_SOURCE_OBJECT_BYTES in *. lia. }
    specialize (IH (rs ++ [r]) Hlit Hlu Hlimit Hmax Hok Hprep). rewrite !total_app in IH.
    specialize (IH ltac:(lia) ltac:(lia)).
    destruct (mapM (decoded_report blake3 root (lit_bytes literal)) inventory); cbn [mbind result_bind] in *; [|done].
    by rewrite <- (assoc_L (++)) in IH.
Qed.

Lemma decoded_literal_loop literal items :
  Forall (fun i => match i with
    | DecodedUtf8Item.Match hit => DecodedUtf8Match.text hit = literal
    | DecodedUtf8Item.Gap _ => True
    end) items ->
  DecodedUtf8Result.literal_loop literal items = Ok tt.
Proof.
  induction 1 as [|i items Hi _ IH]; [done|]. cbn [DecodedUtf8Result.literal_loop].
  destruct i as [hit|gap]; cbn [mbind result_bind]; [|done]. unfold invalid_if. by rewrite bool_decide_true.
Qed.

Lemma decoded_reports_ok namespace literal selected reports :
  literal <> [] -> len literal <= MAX_QUERY_BYTES ->
  Forall (fun e => source_ok namespace (captured_source e)) selected -> Forall prepared_ok selected ->
  mapM (decoded_report blake3 root literal) selected = Ok reports ->
  Forall2 (fun e r => report_ok (captured_source e) r) selected reports.
Proof.
  intros Hne Hmax Hall Hprep Hrep. apply mapM_forall2 in Hrep.
  induction Hrep as [|e r selected reports Hr _ IH]; [constructor|].
  apply Forall_cons in Hall as [He Hall], Hprep as [Hp Hprep].
  constructor; [by eapply decoded_report_ok|by apply IH].
Qed.

(** The items of the answer are what the client compares with the literal. *)
Lemma decoded_items_literal literal selected reports n :
  mapM (decoded_report blake3 root literal) selected = Ok reports ->
  Forall (fun i => match i with
    | DecodedUtf8Item.Match hit => DecodedUtf8Match.text hit = literal
    | DecodedUtf8Item.Gap _ => True
    end /\ exists e, e ∈ selected /\ DecodedUtf8Item.source i = source_dto (captured_source e)) (take n (all_items reports)).
Proof.
  intros Hrep. apply Forall_take. apply mapM_forall2 in Hrep. unfold all_items.
  induction Hrep as [|e r selected reports Hr _ IH]; [constructor|]. cbn [mbind list_bind]. apply Forall_app. split.
  - unfold decoded_report in Hr. apply bind_ok_inv in Hr as ([gap|[artifact view]] & _ & Hr); apply ok_inj in Hr as <-;
      cbn [report_items].
    + constructor; [|constructor]. split; [done|]. exists e. split; [apply list_elem_of_here|done].
    + apply Forall_fmap, Forall_forall. intros start _. cbn. split; [done|].
      exists e. split; [apply list_elem_of_here|done].
  - eapply Forall_impl; [exact IH|]. cbv beta. intros x [? (e' & ? & ?)]. split; [done|].
    exists e'. split; [by apply list_elem_of_further|done].
Qed.

Lemma decoded_answer_valid namespace generation inventory selected request reports :
  0 < generation -> inventory_ok namespace inventory -> Forall prepared_ok selected ->
  DecodedUtf8Request.validate request = Ok tt -> 0 <= DecodedUtf8Request.limit request ->
  selection inventory (DecodedUtf8Request.source_ids request) = Ok selected ->
  mapM (decoded_report blake3 root (DecodedUtf8Request.literal request)) selected = Ok reports ->
  DecodedUtf8Result.validate_request (decoded_answer generation (DecodedUtf8Request.limit request) reports) request = Ok tt.
Proof.
  intros Hgen Hinv Hprep Hreq Hlimit0 Hsel Hrep. pose proof Hreq as Hreq'. unfold DecodedUtf8Request.validate in Hreq'.
  apply seq_unit in Hreq' as [Hg%invalid_if_ok Hids]. to_prop.
  destruct (selection_ok _ _ _ _ Hinv Hsel Hids) as [Hok Hids'].
  set (literal := DecodedUtf8Request.literal request) in *. set (limit := DecodedUtf8Request.limit request) in *.
  assert (literal <> []) as Hne by (intros E; rewrite E in *; done).
  pose proof (decoded_reports_ok _ _ _ _ Hne ltac:(done) (proj2 (proj2 Hok)) Hprep Hrep) as Hreports.
  destruct (reports_loop namespace selected reports (Z.to_nat limit) Hok Hreports) as (m & g & Hloop & Hm & Hgap).
  destruct (reports_bounds namespace selected reports Hok Hreports) as (Hf & Hb & Hsum & Hs0 & Hu0 & Hz).
  pose proof (Forall2_length _ _ _ Hreports) as Hlen. pose proof (all_items_count reports) as Hall.
  assert (0 <= len selected <= MAX_SOURCES) as Hsl by (pose proof (len_nonneg selected); destruct Hok as (_ & ? & _); lia).
  assert (len reports = len selected) as Hlr by (unfold len; lia).
  assert (len (take (Z.to_nat limit) (all_items reports)) = Z.min limit (len (all_items reports))) as Htake.
  { unfold len. rewrite length_take. lia. }
  unfold MAX_SOURCE_OBJECT_BYTES, MAX_SOURCES, MAX_QUERY_BYTES, MAX_ITEMS in *.
  unfold DecodedUtf8Result.validate_request. rewrite Hreq. cbn [mbind result_bind]. fold limit.
  assert (DecodedUtf8Result.validate (decoded_answer generation limit reports) limit = Ok tt) as ->.
  { unfold DecodedUtf8Result.validate. cbn [decoded_answer DecodedUtf8Result.generation
      DecodedUtf8Result.selected_sources DecodedUtf8Result.scanned_sources DecodedUtf8Result.gap_sources
      DecodedUtf8Result.scanned_bytes DecodedUtf8Result.matches DecodedUtf8Result.items
      DecodedUtf8Result.scan_complete DecodedUtf8Result.complete_negative DecodedUtf8Result.stop].
    rewrite !checked_add_some by width. cbn [ok_or mbind result_bind]. rewrite Htake.
    rewrite seq_unit. split.
    - apply invalid_if_ok. unfold MAX_ITEMS.
      repeat (apply orb_false_intro); try (apply Z.eqb_neq; lia); try (apply Z.ltb_ge; lia).
      + rewrite bool_decide_true; [done|]. f_equal. lia.
      + apply eqb_false_negb. destruct (Z.eqb_spec (total unavailable_of reports) 0), (Z.eqb_spec (total scanned_of reports) (len reports)); lia || done.
      + apply eqb_false_negb. done.
      + destruct (Z.eqb_spec (total scanned_of reports) 0) as [E|]; [|done]. cbn. rewrite (Hz E). done.
      + apply eqb_false_negb. destruct (Z.leb_spec (len (all_items reports)) limit); cbn; symmetry;
          [apply Z.eqb_eq|apply Z.eqb_neq]; lia.
    - change (DecodedUtf8Result.items_loop None 0 0) with (li_loop (T := DecodedUtf8Item.t) None 0 0).
      rewrite Hloop. cbn [mbind result_bind]. apply invalid_if_ok. apply orb_false_intro; apply Z.ltb_ge; lia. }
  cbn [mbind result_bind]. rewrite seq_unit. split.
  - destruct (DecodedUtf8Request.source_ids request) as [ids|]; [|done]. destruct Hids' as [Hn Hcontains].
    apply invalid_if_ok. apply orb_false_intro.
    + cbn [decoded_answer DecodedUtf8Result.selected_sources]. rewrite Hlr, Hn, try_from_some by width.
      by rewrite bool_decide_true.
    + cbn [decoded_answer DecodedUtf8Result.items]. apply not_true_iff_false. intros (i & Hi & Hc)%existsb_exists.
      pose proof (decoded_items_literal _ _ _ (Z.to_nat limit) Hrep) as Hitems. rewrite Forall_forall in Hitems.
      destruct (Hitems i ltac:(by apply list_elem_of_In)) as [_ (e & He & Hsrc)].
      rewrite Hsrc in Hc. cbn in Hc. by rewrite (Hcontains e He) in Hc.
  - fold literal. cbn [decoded_answer DecodedUtf8Result.items]. apply decoded_literal_loop.
    eapply Forall_impl; [apply (decoded_items_literal _ _ _ (Z.to_nat limit) Hrep)|]. by intros x [? _].
Qed.

Lemma decoded_finish_answer generation request reports :
  0 <= DecodedUtf8Request.limit request ->
  0 <= total found_of reports -> 0 <= total unavailable_of reports ->
  total found_of reports + total unavailable_of reports <= U64_MAX ->
  DecodedUtf8Result.validate_request (decoded_answer generation (DecodedUtf8Request.limit request) reports) request = Ok tt ->
  decoded_finish request (after generation (len reports) (DecodedUtf8Request.limit request) reports)
  = Ok (decoded_answer generation (DecodedUtf8Request.limit request) reports).
Proof.
  set (limit := DecodedUtf8Request.limit request). intros Hl Hf Hu Hsum Hvalid. unfold decoded_finish.
  cbn [decoded_of tally_of t_scanned t_unavailable t_bytes t_found t_items DecodedUtf8Result.generation
      DecodedUtf8Result.selected_sources DecodedUtf8Result.scanned_sources DecodedUtf8Result.gap_sources
      DecodedUtf8Result.scanned_bytes DecodedUtf8Result.matches DecodedUtf8Result.items
      DecodedUtf8Result.scan_complete DecodedUtf8Result.complete_negative DecodedUtf8Result.stop].
  rewrite checked_add_some by done. cbn [ok_or mbind result_bind].
  pose proof (all_items_count reports) as Hall.
  assert (len (take (Z.to_nat limit) (all_items reports)) = Z.min limit (len (all_items reports))) as Htake.
  { unfold len. rewrite length_take. lia. }
  assert ((if negb (bool_decide (try_from U64_MAX (len (take (Z.to_nat limit) (all_items reports)))
      = Some (total found_of reports + total unavailable_of reports))) then OutputLimit else Complete)
    = if len (all_items reports) <=? limit then Complete else OutputLimit) as ->.
  { rewrite Htake, try_from_some by lia. rewrite <- Hall.
    destruct (Z.leb_spec (len (all_items reports)) limit).
    - rewrite bool_decide_true; [done|]. f_equal. lia.
    - rewrite bool_decide_false; [done|]. intros [= E]. lia. }
  fold (decoded_answer generation limit reports).
  change (map_err protocol_failure (DecodedUtf8Result.validate_request (decoded_answer generation limit reports) request)
    ≫= (fun _ : () => Ok (decoded_answer generation limit reports)) = Ok (decoded_answer generation limit reports)).
  by rewrite Hvalid.
Qed.
End DecodedRefinement.

(** C8. Decoded exact search is exact.  Over an inventory of well-formed rows whose
    outcomes name supported artifacts, and any object directory, the executor returns
    precisely the answer of the specification: every selected source either contributes
    every occurrence of the literal in its accepted text, or one gap that says whether the
    preparation, the source object or the prepared object is missing; a row without an
    outcome, an unreadable object, a refused artifact and an accepted text that differs
    from the source bytes stop the search with their own codes.  Every reported range lies
    between character boundaries, so the executor's own slicing cannot fail; no counter
    overflows; and the finished result always passes the wire's validation against the
    request.  Only cancellation, the deadline, refused memory and a failed read of the
    snapshot can give another error, and never another answer. *)
Theorem decoded_execute_exact blake3 root view inventory namespace request
    (Hgeneration : 0 < view_generation view) (Hinventory : inventory_ok namespace inventory)
    (Hprepared : Forall prepared_ok inventory)
    (Hview : refines (source_inventory view) (Ok inventory))
    (Hliteral : utf8_valid (DecodedUtf8Request.literal request) = true)
    (Hlimit : 0 <= DecodedUtf8Request.limit request) :
  refines (decoded_execute blake3 root view request)
    (decoded_spec blake3 root (view_generation view) inventory request) /\
  forall answer, decoded_spec blake3 root (view_generation view) inventory request = Ok answer ->
    DecodedUtf8Result.validate_request answer request = Ok tt.
Proof.
  unfold decoded_spec. destruct (DecodedUtf8Request.validate request) as [[]|e] eqn:Hreq; cbn [map_err mbind result_bind].
  2:{ split; [|done]. unfold decoded_execute, query_check. refine_step; [auto with eliot..|]. rewrite Hreq. apply refines_lift. }
  pose proof Hreq as Hg. unfold DecodedUtf8Request.validate in Hg. apply seq_unit in Hg as [Hg%invalid_if_ok Hids]. to_prop.
  destruct (literal_new_refines (DecodedUtf8Request.literal request)) as (l & Hl & Hlok & Hnew).
  assert (DecodedUtf8Request.literal request <> []) as Hne by (intros E; rewrite E in *; done).
  is_false (len (DecodedUtf8Request.literal request) =? 0) in Hnew.
  assert (forall selected, selection inventory (DecodedUtf8Request.source_ids request) = Ok selected ->
    Forall prepared_ok selected) as Hsub.
  { intros selected Hs. apply Forall_forall. intros e He. rewrite Forall_forall in Hprepared. apply Hprepared.
    unfold selection in Hs. destruct (DecodedUtf8Request.source_ids request); [|by apply ok_inj in Hs as <-].
    apply bind_ok_inv in Hs as (? & _ & Hs). apply ok_inj in Hs as <-. by apply list_elem_of_filter in He as [_ ?]. }
  assert (forall selected reports, selection inventory (DecodedUtf8Request.source_ids request) = Ok selected ->
    mapM (decoded_report blake3 root (DecodedUtf8Request.literal request)) selected = Ok reports ->
    DecodedUtf8Result.validate_request (decoded_answer (view_generation view) (DecodedUtf8Request.limit request) reports)
      request = Ok tt) as Hvalid.
  { intros selected reports Hs Hr. apply (decoded_answer_valid blake3 root namespace _ inventory selected); try done.
    by apply Hsub. }
  split.
  - unfold decoded_execute, query_check. refine_step; [auto with eliot..|]. rewrite Hreq. cbn [map_err]. rewrite lift_ok_bind.
    eapply refines_bind_ok; [exact Hnew|]. eapply refines_bind_ok; [exact Hview|].
    pose proof (select_refines inventory (DecodedUtf8Request.source_ids request)) as Hsel.
    destruct (selection inventory (DecodedUtf8Request.source_ids request)) as [selected|e] eqn:Eq;
      cbn [mbind result_bind]; [|by eapply refines_bind_err].
    eapply refines_bind_ok; [exact Hsel|].
    destruct (selection_ok _ _ _ _ Hinventory Eq Hids) as [Hsok _]. destruct Hsok as (Hsorted & Hlen & Hok).
    pose proof (len_nonneg selected). unfold MAX_SOURCES in Hlen. rewrite try_from_some by width.
    cbn [ok_or]. rewrite lift_ok_bind. refine_step; [auto with eliot|].
    pose proof (decoded_loop_refines blake3 root (view_generation view) (len selected) l
      (DecodedUtf8Request.limit request) namespace selected []) as Hloop.
    rewrite Hl in Hloop. specialize (Hloop (Hlok Hne) Hliteral Hlimit ltac:(done) Hok (Hsub _ eq_refl) ltac:(done)).
    specialize (Hloop ltac:(unfold MAX_SOURCE_OBJECT_BYTES; cbn [total foldr]; width)).
    change (decoded_of (view_generation view) (len selected) (tally_of (DecodedUtf8Request.limit request) []))
      with (decoded_of (view_generation view) (len selected) {| t_scanned := 0; t_unavailable := 0; t_bytes := 0;
        t_found := 0; t_items := take (Z.to_nat (DecodedUtf8Request.limit request)) [] |}) in Hloop.
    rewrite take_nil in Hloop. cbn [app] in Hloop.
    destruct (mapM (decoded_report blake3 root (DecodedUtf8Request.literal request)) selected) as [reports|e] eqn:Hrep;
      cbn [mbind result_bind] in *; [|by eapply refines_bind_err].
    eapply refines_bind_ok; [exact Hloop|]. refine_step; [auto with eliot..|].
    pose proof (decoded_reports_ok blake3 root _ _ _ _ Hne ltac:(done) Hok (Hsub _ eq_refl) Hrep) as Hreports.
    assert (len reports = len selected) as Hlr by (pose proof (Forall2_length _ _ _ Hreports); unfold len; lia).
    rewrite <- Hlr.
    destruct (reports_bounds namespace selected reports) as (Hf & Hb & Hsum & Hs0 & Hu & _); [by split_and!|done|].
    rewrite decoded_finish_answer; [apply refines_lift|done|lia|lia| |by apply (Hvalid selected)].
    unfold MAX_SOURCE_OBJECT_BYTES, MAX_SOURCES in *. width.
  - intros answer Ha. apply bind_ok_inv in Ha as (selected & Hs & Ha). apply bind_ok_inv in Ha as (reports & Hr & Ha).
    apply ok_inj in Ha as <-. by apply (Hvalid selected).
Qed.

(** A prepared source that holds two short lines, searched for "b". *)
Definition lines_text : list Z := str "ab" ++ [10] ++ str "b".
Definition lines_source : CurrentSourceRecord :=
  {| source_namespace_id := replicate 16 1; source_id := replicate 16 2; row_revision := 1;
     registration_revision := 1; locator := str "/a"; file_key := Unix 1 2;
     object_ref := source_ref (toy_digest lines_text) (len lines_text) |}.
Definition lines_artifact : list Z :=
  match run (prepare_utf8 toy_digest lines_source lines_text default_settings decoded_limits) [] with
  | Ok bytes => bytes
  | Err _ => []
  end.
Definition lines_prepared : ObjectRef := prepared_ref (toy_digest lines_artifact) (len lines_artifact).
Definition lines_entry : CapturedSource :=
  {| captured_source := lines_source;
     captured_preparation := {| prep_namespace := replicate 16 1; prep_source_id := replicate 16 2;
       settings_revision := 1; settings := default_settings; outcome_revision := 1;
       current_outcome := Some {| source_row_revision := 1; bound_registration := 1;
         input := object_ref lines_source; bound_settings := default_settings;
         outcome_result := Ready lines_prepared |} |} |}.
Definition lines_root : directory := fun name =>
  if bool_decide (name = str "v1-source-" ++ hex_encode (toy_digest lines_text)) then at_rest lines_text
  else at_rest lines_artifact.
Definition lines_view : PublishedView :=
  {| view_generation := 5; source_inventory := mret [lines_entry] |}.
Definition lines_request : DecodedUtf8Request.t :=
  {| DecodedUtf8Request.literal := str "b"; DecodedUtf8Request.source_ids := None; DecodedUtf8Request.limit := 8 |}.

Lemma lines_prepared_ok : prepared_ok lines_entry.
Proof.
  intros outcome artifact [= <-] [= <-]. split_and!; try (vm_compute; (reflexivity || congruence)).
  - split_and!; try (vm_compute; congruence); apply (bool_decide_eq_true_1 _); vm_compute; reflexivity.
Qed.

Lemma decoded_execute_exact_witness :
  exists answer, run (decoded_execute toy_digest lines_root lines_view lines_request) [] = Ok answer /\
    DecodedUtf8Result.matches answer = 2 /\ DecodedUtf8Result.validate_request answer lines_request = Ok tt.
Proof.
  destruct (decoded_execute_exact toy_digest lines_root lines_view [lines_entry] (replicate 16 1) lines_request
    ltac:(vm_compute; reflexivity)
    ltac:(split; [repeat constructor|split; [vm_compute; congruence|constructor; [|constructor]]];
          split; [split_and!; try (split; [reflexivity|]); try (apply (bool_decide_eq_true_1 _); vm_compute; reflexivity);
                  vm_compute; try split_and!; try congruence;
                  apply (bool_decide_eq_true_1 _); vm_compute; reflexivity
                 |split_and!; vm_compute; congruence])
    ltac:(constructor; [apply lines_prepared_ok|constructor])
    (refines_ret _)
    ltac:(vm_compute; reflexivity) ltac:(vm_compute; congruence)) as [Href Hvalid].
  assert (exists answer, decoded_spec toy_digest lines_root (view_generation lines_view) [lines_entry] lines_request
    = Ok answer /\ DecodedUtf8Result.matches answer = 2) as (answer & Hs & Hm).
  { eexists. split; [vm_compute; reflexivity|reflexivity]. }
  exists answer. split; [exact (eq_trans (refines_calm _ _ [] Href (Forall_nil_2 _)) Hs)|]. split; [exact Hm|].
  exact (Hvalid answer Hs).
Defined.
