(* ===== verification/Database.v ===== *)
(** The embedded key-value store as the control crate uses it.  The store itself is the
    crate [redb], a dependency: its snapshots and transactions are an interface here, with
    the documented meaning of each call as a law over the tables' contents.  A finite map
    of finite maps is one implementation. *)

From Stdlib Require Import Sorted.
From stdpp Require Import gmap sorting.
From S2P Require Import Prelude Bytes.

(** A table is a finite map from keys to values, both byte strings. *)
Abbreviation table := (gmap (list Z) (list Z)).

Class Redb (D : Type) := {
  (** The names of the tables and of the multimap tables of a snapshot. *)
  list_tables : D -> list (list Z);
  list_multimap_tables : D -> list (list Z);
  (** [table.get(key)] and [table.iter()] on an opened table. *)
  table_get : D -> list Z -> list Z -> option (list Z);
  table_iter : D -> list Z -> list (list Z * list Z);
  (** A write transaction's [open_table] (it creates a missing table), [insert] and
      [remove]. *)
  table_open : D -> list Z -> D;
  table_insert : D -> list Z -> list Z -> list Z -> D;
  table_remove : D -> list Z -> list Z -> D;

  contents : D -> gmap (list Z) table;
  list_tables_law d :
    NoDup (list_tables d) /\ forall n, n ∈ list_tables d <-> is_Some (contents d !! n);
  get_law d n k : table_get d n k = default ∅ (contents d !! n) !! k;
  iter_law d n :
    StronglySorted (fun a b => bytes_lt (fst a) (fst b) = true) (table_iter d n) /\
    forall k v, (k, v) ∈ table_iter d n <-> default ∅ (contents d !! n) !! k = Some v;
  open_law d n : contents (table_open d n) = <[n := default ∅ (contents d !! n)]> (contents d);
  insert_law d n k v :
    contents (table_insert d n k v) = <[n := <[k := v]> (default ∅ (contents d !! n))]> (contents d);
  remove_law d n k :
    contents (table_remove d n k) = <[n := delete k (default ∅ (contents d !! n))]> (contents d);
  open_multimaps d n : list_multimap_tables (table_open d n) = list_multimap_tables d;
  insert_multimaps d n k v : list_multimap_tables (table_insert d n k v) = list_multimap_tables d;
  remove_multimaps d n k : list_multimap_tables (table_remove d n k) = list_multimap_tables d;
}.

(** The rows of one table, present or not. *)
Definition rows_of `{Redb D} (d : D) (n : list Z) : table := default ∅ (contents d !! n).

Section Laws.
Context `{Redb D}.
Implicit Types d : D.

Lemma rows_open d n m : rows_of (table_open d n) m = rows_of d m.
Proof.
  unfold rows_of. rewrite open_law. destruct (decide (n = m)) as [->|Hne].
  - by rewrite lookup_insert_eq.
  - by rewrite lookup_insert_ne.
Qed.

Lemma rows_insert d n k v m :
  rows_of (table_insert d n k v) m = if decide (m = n) then <[k := v]> (rows_of d n) else rows_of d m.
Proof.
  unfold rows_of. rewrite insert_law. case_decide as Hm.
  - subst. by rewrite lookup_insert_eq.
  - by rewrite lookup_insert_ne.
Qed.

Lemma rows_remove d n k m :
  rows_of (table_remove d n k) m = if decide (m = n) then delete k (rows_of d n) else rows_of d m.
Proof.
  unfold rows_of. rewrite remove_law. case_decide as Hm.
  - subst. by rewrite lookup_insert_eq.
  - by rewrite lookup_insert_ne.
Qed.

Lemma get_rows d n k : table_get d n k = rows_of d n !! k.
Proof. apply get_law. Qed.

(** The names of a snapshot's tables. *)
Definition names_of d : gset (list Z) := dom (contents d).

Lemma names_open d n : names_of (table_open d n) = {[n]} ∪ names_of d.
Proof. unfold names_of. rewrite open_law. by rewrite dom_insert_L. Qed.
Lemma names_insert d n k v : names_of (table_insert d n k v) = {[n]} ∪ names_of d.
Proof. unfold names_of. rewrite insert_law. by rewrite dom_insert_L. Qed.
Lemma names_remove d n k : names_of (table_remove d n k) = {[n]} ∪ names_of d.
Proof. unfold names_of. rewrite remove_law. by rewrite dom_insert_L. Qed.

Lemma list_tables_names d : NoDup (list_tables d) /\ forall n, n ∈ list_tables d <-> n ∈ names_of d.
Proof.
  destruct (list_tables_law d) as [Hnd Hin]. split; [done|]. intros n. rewrite Hin. unfold names_of.
  by rewrite elem_of_dom.
Qed.
End Laws.

(** Lists strictly sorted by key with the same entries are equal. *)
Definition key_lt (a b : list Z * list Z) : Prop := bytes_lt (fst a) (fst b) = true.

Lemma strictly_sorted_eq (l k : list (list Z * list Z)) :
  StronglySorted key_lt l -> StronglySorted key_lt k -> (forall x, x ∈ l <-> x ∈ k) -> l = k.
Proof.
  assert (forall x, ~ key_lt x x) as Hirr by (intros x; unfold key_lt; by rewrite bytes_lt_irrefl).
  intros Hl. revert k. induction Hl as [|x l Hl IH Hx]; intros k Hk Hin.
  - destruct k as [|y k]; [done|]. specialize (Hin y). set_solver.
  - destruct Hk as [|y k Hk Hy]; [specialize (Hin x); set_solver|].
    rewrite Forall_forall in Hx, Hy.
    assert (x = y) as <-.
    { pose proof (proj1 (Hin x) (list_elem_of_here _ _)) as Hxk. pose proof (proj2 (Hin y) (list_elem_of_here _ _)) as Hyl.
      apply elem_of_cons in Hxk as [->|Hxk]; [done|]. apply elem_of_cons in Hyl as [->|Hyl]; [done|].
      exfalso. apply (Hirr x). unfold key_lt in *. by eapply bytes_lt_trans; [apply Hx|apply Hy]. }
    f_equal. apply IH; [done|]. intros z. specialize (Hin z). rewrite !elem_of_cons in Hin.
    split; intros Hz; [destruct (proj1 Hin) as [->|]|destruct (proj2 Hin) as [->|]]; auto.
    + by destruct (Hirr x); apply Hx.
    + by destruct (Hirr x); apply Hy.
Qed.

Lemma strictly_sorted_nodup (l : list (list Z * list Z)) : StronglySorted key_lt l -> NoDup l.
Proof.
  induction 1 as [|x l Hl IH Hx]; constructor; [|done]. intros Hin. rewrite Forall_forall in Hx.
  specialize (Hx x Hin). unfold key_lt in Hx. by rewrite bytes_lt_irrefl in Hx.
Qed.

Lemma table_iter_eq `{Redb D} (d : D) n l :
  StronglySorted key_lt l -> (forall k v, (k, v) ∈ l <-> rows_of d n !! k = Some v) -> table_iter d n = l.
Proof.
  intros Hl Hin. destruct (iter_law d n) as [Hs Hi]. apply strictly_sorted_eq; [done..|].
  intros [k v]. by rewrite Hi, Hin.
Qed.

(** ** Calls, each of which may fail *)

Section Calls.
Context `{Redb D} {E : Type}.

(** [tx.open_table(..).map_err(|_| e)?] of a read transaction: a missing table is an error. *)
Definition open_read (e : E) (d : D) (n : list Z) : M E unit :=
  _ ← call e; lift (reject_if (negb (bool_decide (n ∈ list_tables d))) e).
(** The same when a missing table is no error: whether it is there. *)
Definition open_optional (e : E) (d : D) (n : list Z) : M E bool :=
  _ ← call e; mret (bool_decide (n ∈ list_tables d)).
Definition get (e : E) (d : D) (n k : list Z) : M E (option (list Z)) := _ ← call e; mret (table_get d n k).
Definition iterate (e : E) (d : D) (n : list Z) : M E (list (list Z * list Z)) := _ ← call e; mret (table_iter d n).
Definition open_write (e : E) (d : D) (n : list Z) : M E D := _ ← call e; mret (table_open d n).
Definition insert (e : E) (d : D) (n k v : list Z) : M E D := _ ← call e; mret (table_insert d n k v).
(** [table.remove(key)], with the value it removed. *)
Definition remove (e : E) (d : D) (n k : list Z) : M E (option (list Z) * D) :=
  _ ← call e; mret (table_get d n k, table_remove d n k).

(** [tx.commit().is_ok()] with the state it leaves: a failed commit leaves the old state,
    or the new one when only the report was lost. *)
Definition commit (old new : D) : M E (bool * D) := fun w =>
  match observe w with
  | (CallFailed, w') => (Ok (false, old), w')
  | (ReportLost, w') => (Ok (false, new), w')
  | (_, w') => (Ok (true, new), w')
  end.

Context `{Interrupt E}.

Lemma refines_open_read e d n : interrupt e -> n ∈ names_of d -> refines (open_read e d n) (Ok tt).
Proof.
  intros He Hn. unfold open_read. refine_step. rewrite bool_decide_true; [apply refines_lift|].
  by apply list_tables_names.
Qed.
Lemma refines_get e d n k : interrupt e -> refines (get e d n k) (Ok (rows_of d n !! k)).
Proof. intros He. unfold get. refine_step. rewrite get_rows. apply refines_ret. Qed.
Lemma refines_iterate e d n : interrupt e -> refines (iterate e d n) (Ok (table_iter d n)).
Proof. intros He. unfold iterate. refine_step. apply refines_ret. Qed.
Lemma refines_open_write e d n : interrupt e -> refines (open_write e d n) (Ok (table_open d n)).
Proof. intros He. unfold open_write. refine_step. apply refines_ret. Qed.
Lemma refines_insert e d n k v : interrupt e -> refines (insert e d n k v) (Ok (table_insert d n k v)).
Proof. intros He. unfold insert. refine_step. apply refines_ret. Qed.
Lemma refines_remove e d n k : interrupt e -> refines (remove e d n k) (Ok (rows_of d n !! k, table_remove d n k)).
Proof. intros He. unfold remove. refine_step. rewrite get_rows. apply refines_ret. Qed.
End Calls.
#[export] Hint Resolve refines_open_read refines_get refines_iterate refines_open_write refines_insert
  refines_remove : eliot.

(** ** A map of maps is a database *)

Record store := { store_tables : gmap (list Z) table; store_multimaps : list (list Z) }.

Definition key_le (a b : list Z * list Z) : Prop := bytes_compare (fst a) (fst b) <> Gt.
#[export] Instance key_le_dec a b : Decision (key_le a b).
Proof. unfold key_le. apply _. Defined.
#[export] Instance key_le_total : Total key_le.
Proof.
  intros a b. unfold key_le. rewrite (bytes_compare_antisym (fst a) (fst b)).
  destruct (bytes_compare (fst a) (fst b)); cbn; auto; by left + by right.
Qed.
#[export] Instance key_le_trans : Transitive key_le.
Proof.
  intros a b c Hab Hbc. unfold key_le in *.
  destruct (bytes_compare (fst a) (fst b)) eqn:E1; [|clear Hab|done].
  - apply bytes_compare_eq in E1. by rewrite E1.
  - destruct (bytes_compare (fst b) (fst c)) eqn:E2; [|clear Hbc|done].
    + apply bytes_compare_eq in E2. rewrite <- E2, E1. done.
    + assert (bytes_lt (fst a) (fst c) = true) as Hlt.
      { eapply bytes_lt_trans; unfold bytes_lt; [by rewrite E1|by rewrite E2]. }
      unfold bytes_lt in Hlt. by destruct (bytes_compare (fst a) (fst c)).
Qed.

Lemma sorted_iter (m : table) :
  StronglySorted (fun a b => bytes_lt (fst a) (fst b) = true) (merge_sort key_le (map_to_list m)) /\
  forall k v, (k, v) ∈ merge_sort key_le (map_to_list m) <-> m !! k = Some v.
Proof.
  pose proof (merge_sort_Permutation key_le (map_to_list m)) as Hp. split.
  - assert (NoDup (fst <$> merge_sort key_le (map_to_list m))) as Hnd.
    { rewrite Hp. apply NoDup_fst_map_to_list. }
    pose proof (StronglySorted_merge_sort key_le (map_to_list m)) as Hs. clear Hp.
    induction Hs as [|x l Hs IH Hx]; [constructor|]. cbn in Hnd. apply NoDup_cons in Hnd as [Hn Hnd].
    constructor; [by apply IH|]. apply Forall_forall. intros y Hy. rewrite Forall_forall in Hx.
    specialize (Hx y Hy). unfold key_le, bytes_lt in *.
    destruct (bytes_compare (fst x) (fst y)) eqn:Hc; [|done|done]. apply bytes_compare_eq in Hc.
    exfalso. apply Hn, list_elem_of_fmap. eauto.
  - intros k v. rewrite Hp. apply elem_of_map_to_list.
Qed.

#[export] Instance store_redb : Redb store.
Proof.
  refine {|
    list_tables d := fst <$> map_to_list (store_tables d);
    list_multimap_tables := store_multimaps;
    table_get d n k := store_tables d !! n ≫= fun t => t !! k;
    table_iter d n := merge_sort key_le (map_to_list (default ∅ (store_tables d !! n)));
    table_open d n := {| store_tables := <[n := default ∅ (store_tables d !! n)]> (store_tables d);
                         store_multimaps := store_multimaps d |};
    table_insert d n k v := {| store_tables := <[n := <[k := v]> (default ∅ (store_tables d !! n))]> (store_tables d);
                               store_multimaps := store_multimaps d |};
    table_remove d n k := {| store_tables := <[n := delete k (default ∅ (store_tables d !! n))]> (store_tables d);
                             store_multimaps := store_multimaps d |};
    contents := store_tables |}; try done.
  - intros d. split; [apply NoDup_fst_map_to_list|]. intros n. rewrite list_elem_of_fmap. split.
    + intros ([m t] & -> & Hin). apply elem_of_map_to_list in Hin. by eexists.
    + intros [t Ht]. exists (n, t). split; [done|]. by apply elem_of_map_to_list.
  - intros d n k. cbn. destruct (store_tables d !! n); [done|]. symmetry. apply lookup_empty.
  - intros d n. apply sorted_iter.
Defined.
