(* ===== verification/Control.v ===== *)
(** Current-source control (crates/search-control-redb/src/current_source.rs): the
    catalogue check, the reads, and the guarded transactions that register, update and
    remove sources, over the key-value interface.  Locators are the bytes of Unix paths. *)

From stdpp Require Import gmap sorting.
From S2P Require Import Prelude Bytes Ids Registry SourceRow Database.

Definition META_TABLE_NAME : list Z := str "plain_control_meta".
Definition SOURCE_STATE : list Z := str "source_state".
Definition SOURCE_ROWS : list Z := str "current_source_rows".
Definition SOURCE_LOCATORS : list Z := str "current_source_locators".
Definition PREPARATIONS : list Z := str "current_preparations".
Definition SOURCE_SCHEMA_VERSION : list Z := [1].
Definition SCHEMA_VERSION_KEY : list Z := str "schema_version".
Definition NAMESPACE_KEY : list Z := str "source_namespace_id".
Definition WANTED_REVISION_KEY : list Z := str "wanted_corpus_revision".
Definition MAX_CURRENT_SOURCES : Z := 4096.
Definition MAX_CURRENT_SOURCE_BYTES : Z := 16 * 1024 * 1024.

(** The publication tables (publication.rs). *)
Definition TABLE_NAMES : list (list Z) :=
  [str "publication_state"; str "generation_sources"; str "generation_pages"; str "generation_evidence";
   str "retired_generations"].

(** The failures an environment can cause: interruptions, and calls that fail.  A failed
    [open_table] of a read is reported as corruption, refused memory as the inventory
    limit. *)
#[export] Instance source_interrupt : Interrupt SourceControlError := fun e =>
  e ∈ [Cancelled; Deadline; Database; RandomUnavailable; Corrupt; InventoryLimit].
Lemma source_interrupt_in e :
  bool_decide (e ∈ [Cancelled; Deadline; Database; RandomUnavailable; Corrupt; InventoryLimit]) = true -> interrupt e.
Proof. apply bool_decide_eq_true_1. Qed.
Lemma source_cancelled : interrupt Cancelled. Proof. by apply source_interrupt_in. Qed.
Lemma source_deadline : interrupt Deadline. Proof. by apply source_interrupt_in. Qed.
Lemma source_database : interrupt Database. Proof. by apply source_interrupt_in. Qed.
Lemma source_random : interrupt RandomUnavailable. Proof. by apply source_interrupt_in. Qed.
Lemma source_corrupt : interrupt Corrupt. Proof. by apply source_interrupt_in. Qed.
Lemma source_limit : interrupt InventoryLimit. Proof. by apply source_interrupt_in. Qed.
#[export] Hint Resolve source_cancelled source_deadline source_database source_random source_corrupt
  source_limit : eliot.

(** [SourceCapture] *)
Record SourceCapture := {
  source_capture_namespace : list Z;
  source_capture_id : list Z;
  source_capture_locator : list Z;
  expected_namespace : option (list Z);
  expected_row_revision : option Z;
  expected_registration_revision : option Z }.

Definition source_check : M SourceControlError unit := check_with Cancelled Deadline.

(** [random_id]; the drawn bytes are an argument. *)
Definition random_id (bytes : list Z) : M SourceControlError (list Z) := _ ← call RandomUnavailable; mret bytes.

(** [path.is_absolute()] on Unix. *)
Definition is_absolute (path : list Z) : bool := match path with b :: _ => b =? 47 | [] => false end.

Definition source_locator_bytes (path : list Z) : result SourceControlError (list Z) :=
  _ ← reject_if (negb (is_absolute path)) InvalidLocator;
  _ ← reject_if ((len path =? 0) || (MAX_LOCATOR_BYTES <? len path)) InvalidLocator;
  Ok path.

Definition source_path_from_locator (locator : list Z) : result SourceControlError (list Z) :=
  _ ← reject_if ((len locator =? 0) || (MAX_LOCATOR_BYTES <? len locator)) InvalidLocator;
  _ ← reject_if (negb (is_absolute locator)) Corrupt;
  Ok locator.

(** [names.sort_unstable()] *)
Definition name_le (a b : list Z) : Prop := bytes_compare a b <> Gt.
#[export] Instance name_le_dec a b : Decision (name_le a b).
Proof. unfold name_le. apply _. Defined.
Definition sort_names (names : list (list Z)) : list (list Z) := merge_sort name_le names.

Definition catalogue_names (names : list (list Z)) (has_multimap : bool) : result SourceControlError bool :=
  _ ← reject_if has_multimap UnsupportedSchema;
  let publication_count := len (filter (fun name => name ∈ TABLE_NAMES) names) in
  _ ← reject_if (negb (publication_count =? 0) && negb (publication_count =? len TABLE_NAMES)) UnsupportedSchema;
  let names := sort_names (filter (fun name => name ∉ TABLE_NAMES) names) in
  if bool_decide (names = [META_TABLE_NAME]) then Ok false
  else
    let expected := [META_TABLE_NAME; SOURCE_STATE; SOURCE_ROWS; SOURCE_LOCATORS] in
    if bool_decide (names = sort_names expected) then Ok true
    else if bool_decide (names = sort_names (sort_names expected ++ [PREPARATIONS])) then Ok true
    else Err UnsupportedSchema.

(** [value.try_into()] to an array of [n] bytes. *)
Definition to_array (n : Z) (value : list Z) : result SourceControlError (list Z) :=
  _ ← reject_if (negb (len value =? n)) Corrupt; Ok value.

Section Control.
Context {D : Type} `{Redb D}.
Implicit Types d tx : D.

(** [read_source_schema] *)
Definition read_source_schema d : M SourceControlError bool :=
  _ ← call Database;
  let names := list_tables d in
  _ ← call Database;
  let has_multimap := negb (len (list_multimap_tables d) =? 0) in
  lift (catalogue_names names has_multimap).

Definition read_namespace d : M SourceControlError (option (list Z)) :=
  _ ← open_read Corrupt d SOURCE_STATE;
  version ← get Database d SOURCE_STATE SCHEMA_VERSION_KEY;
  namespace ← get Database d SOURCE_STATE NAMESPACE_KEY;
  match version, namespace with
  | None, None => mret None
  | Some version, Some namespace =>
      if bool_decide (version = SOURCE_SCHEMA_VERSION) then
        id ← lift (to_array 16 namespace); mret (Some id)
      else fail Corrupt
  | _, _ => fail Corrupt
  end.

Definition read_source_by_id d (id : list Z) : M SourceControlError (option CurrentSourceRecord) :=
  _ ← open_read Corrupt d SOURCE_ROWS;
  value ← get Database d SOURCE_ROWS id;
  match value with
  | None => mret None
  | Some value =>
      source ← lift (decode_record value);
      _ ← lift (reject_if (negb (bool_decide (source_id source = id))) Corrupt);
      mret (Some source)
  end.

(** The revision in a stored value, zero when absent. *)
Definition revision_value (value : option (list Z)) : result SourceControlError Z :=
  match value with
  | None => Ok 0
  | Some value => v ← to_array 8 value; Ok (le_value v)
  end.

Definition wanted_revision d : M SourceControlError Z :=
  _ ← open_read Corrupt d SOURCE_STATE;
  value ← get Database d SOURCE_STATE WANTED_REVISION_KEY;
  lift (revision_value value).

Definition write_wanted_revision tx : M SourceControlError (D * Z) :=
  tx ← open_write Database tx SOURCE_STATE;
  value ← get Database tx SOURCE_STATE WANTED_REVISION_KEY;
  revision ← lift (revision_value value);
  mret (tx, revision).

Definition advance_wanted_revision tx : M SourceControlError D :=
  current ← write_wanted_revision tx;
  let '(tx, revision) := current in
  next ← lift (ok_or RevisionExhausted (checked_add U64_MAX revision 1));
  tx ← open_write Database tx SOURCE_STATE;
  insert Database tx SOURCE_STATE WANTED_REVISION_KEY (le_bytes 8 next).

Definition load_locator_row d (locator_bytes : list Z) : M SourceControlError (option CurrentSourceRecord) :=
  _ ← open_read Corrupt d SOURCE_LOCATORS;
  id ← get Database d SOURCE_LOCATORS locator_bytes;
  match id with
  | None => mret None
  | Some id =>
      id ← lift (to_array 16 id);
      _ ← open_read Corrupt d SOURCE_ROWS;
      row ← get Database d SOURCE_ROWS id;
      row ← lift (ok_or Corrupt row);
      record ← lift (decode_record row);
      _ ← lift (reject_if (negb (bool_decide (source_id record = id))
                  || negb (bool_decide (locator record = locator_bytes))) Corrupt);
      mret (Some record)
  end.

(** [capture_source_database]; the two random identities it may draw are arguments. *)
Definition capture_source_database d (locator_bytes random_namespace random_source : list Z)
    : M SourceControlError SourceCapture :=
  _ ← source_check;
  _ ← call Database;
  _ ← source_check;
  is_current_schema ← read_source_schema d;
  if negb is_current_schema then
    namespace ← random_id random_namespace;
    id ← random_id random_source;
    mret {| source_capture_namespace := namespace; source_capture_id := id;
            source_capture_locator := locator_bytes; expected_namespace := None;
            expected_row_revision := None; expected_registration_revision := None |}
  else
    namespace ← read_namespace d;
    namespace ← lift (ok_or Corrupt namespace);
    record ← load_locator_row d locator_bytes;
    _ ← source_check;
    found ← match record with
      | Some record =>
          _ ← lift (reject_if (negb (bool_decide (source_namespace_id record = namespace))) Corrupt);
          mret (source_id record, (Some (row_revision record), Some (registration_revision record)))
      | None => id ← random_id random_source; mret (id, (None, None))
      end;
    let '(id, (row, registration)) := found in
    mret {| source_capture_namespace := namespace; source_capture_id := id;
            source_capture_locator := locator_bytes; expected_namespace := Some namespace;
            expected_row_revision := row; expected_registration_revision := registration |}.

(** [ControlWriter::capture_current_source] *)
Definition capture_current_source d (selected_file random_namespace random_source : list Z)
    : M SourceControlError SourceCapture :=
  locator_bytes ← lift (source_locator_bytes selected_file);
  capture_source_database d locator_bytes random_namespace random_source.

(** The guards of [source_revisions] on the namespace. *)
Definition namespace_current (expected version namespace : option (list Z)) : bool :=
  match expected, version, namespace with
  | None, None, None => true
  | Some expected, Some version, Some namespace =>
      bool_decide (version = SOURCE_SCHEMA_VERSION) && bool_decide (namespace = expected)
  | _, _, _ => false
  end.

(** [source_revisions], with the transaction whose tables it opened. *)
Definition source_revisions tx (capture : SourceCapture) : M SourceControlError (D * (Z * Z)) :=
  tx ← open_write Database tx SOURCE_STATE;
  tx ← open_write Database tx SOURCE_ROWS;
  tx ← open_write Database tx SOURCE_LOCATORS;
  version ← get Database tx SOURCE_STATE SCHEMA_VERSION_KEY;
  namespace ← get Database tx SOURCE_STATE NAMESPACE_KEY;
  _ ← lift (reject_if (negb (namespace_current (expected_namespace capture) version namespace)) Stale);
  existing_locator ← get Database tx SOURCE_LOCATORS (source_capture_locator capture);
  match expected_row_revision capture, expected_registration_revision capture, existing_locator with
  | None, None, None =>
      row ← get Database tx SOURCE_ROWS (source_capture_id capture);
      _ ← lift (reject_if (bool_decide (is_Some row)) Stale);
      mret (tx, (1, 1))
  | Some expected_row, Some expected_registration, Some source_id' =>
      if bool_decide (source_id' = source_capture_id capture) then
        stored ← get Database tx SOURCE_ROWS (source_capture_id capture);
        stored ← lift (ok_or Stale stored);
        current ← lift (decode_record stored);
        _ ← lift (reject_if (negb (bool_decide (source_namespace_id current = source_capture_namespace capture))
                    || negb (bool_decide (source_id current = source_capture_id capture))
                    || negb (row_revision current =? expected_row)
                    || negb (registration_revision current =? expected_registration)
                    || negb (bool_decide (locator current = source_capture_locator capture))) Stale);
        next ← lift (ok_or RevisionExhausted (checked_add U64_MAX expected_row 1));
        mret (tx, (next, expected_registration))
      else fail Stale
  | _, _, _ => fail Stale
  end.

(** [commit_source_database] up to its commit: the record, and the transaction to commit
    unless the stored row already has this content. *)
Definition prepare_source tx (capture : SourceCapture) (file : NativeFileKey) (object : ObjectRef)
    : M SourceControlError (CurrentSourceRecord * option D) :=
  revisions ← source_revisions tx capture;
  let '(tx, (row, registration)) := revisions in
  tx ← open_write Database tx SOURCE_STATE;
  tx ← open_write Database tx SOURCE_ROWS;
  tx ← open_write Database tx SOURCE_LOCATORS;
  unchanged ← match expected_row_revision capture with
    | None => mret None
    | Some _ =>
        current ← get Database tx SOURCE_ROWS (source_capture_id capture);
        current ← lift (ok_or Stale current);
        current ← lift (decode_record current);
        mret (if bool_decide (object_ref current = object) && bool_decide (file_key current = file)
              then Some current else None)
    end;
  match unchanged with
  | Some current => mret (current, None)
  | None =>
      let record := {| source_namespace_id := source_capture_namespace capture;
        source_id := source_capture_id capture; row_revision := row; registration_revision := registration;
        locator := source_capture_locator capture; file_key := file; object_ref := object |} in
      encoded ← lift (encode_record record);
      tx ← match expected_namespace capture with
        | None =>
            tx ← insert Database tx SOURCE_STATE SCHEMA_VERSION_KEY SOURCE_SCHEMA_VERSION;
            insert Database tx SOURCE_STATE NAMESPACE_KEY (source_capture_namespace capture)
        | Some _ => mret tx
        end;
      tx ← insert Database tx SOURCE_ROWS (source_capture_id capture) encoded;
      tx ← insert Database tx SOURCE_LOCATORS (locator record) (source_capture_id capture);
      tx ← advance_wanted_revision tx;
      mret (record, Some tx)
  end.

(** [commit_source_database]: the record, whether the commit was confirmed, and the
    committed state afterwards; an error drops the transaction. *)
Definition commit_source_database d (capture : SourceCapture) (file : NativeFileKey) (object : ObjectRef)
    : M SourceControlError (CurrentSourceRecord * (bool * D)) :=
  _ ← source_check;
  _ ← call Database;
  _ ← source_check;
  prepared ← prepare_source d capture file object;
  match prepared with
  | (current, None) => mret (current, (true, d))
  | (record, Some tx) =>
      _ ← source_check;
      committed ← commit d tx;
      mret (record, committed)
  end.

Definition load_current_source_database d (locator_bytes : list Z)
    : M SourceControlError (option CurrentSourceRecord) :=
  _ ← source_check;
  _ ← call Database;
  schema ← read_source_schema d;
  if negb schema then mret None
  else
    record ← load_locator_row d locator_bytes;
    _ ← source_check;
    mret record.

Definition resolve_source_commit (record : CurrentSourceRecord)
    (observed : result SourceControlError (option CurrentSourceRecord))
    : result SourceControlError CurrentSourceRecord :=
  match observed with
  | Ok (Some observed) => if bool_decide (observed = record) then Ok record else Err Stale
  | Ok None | Err _ => Err Database
  end.

(** The verification loop of [remove_sources_database]. *)
Fixpoint verify_sources tx (namespace : list Z) (ids locators : gset (list Z)) (expected : list CurrentSourceRecord)
    : M SourceControlError unit :=
  match expected with
  | [] => mret tt
  | source :: expected =>
      _ ← source_check;
      _ ← lift (reject_if (negb (bool_decide (source_namespace_id source = namespace))
                  || bool_decide (source_id source ∈ ids) || bool_decide (locator source ∈ locators)) Stale);
      row ← get Database tx SOURCE_ROWS (source_id source);
      row ← lift (ok_or Stale row);
      current ← lift (decode_record row);
      _ ← lift (reject_if (negb (bool_decide (current = source))) Stale);
      indexed ← get Database tx SOURCE_LOCATORS (locator source);
      indexed ← lift (ok_or Stale indexed);
      _ ← lift (reject_if (negb (bool_decide (indexed = source_id source))) Stale);
      verify_sources tx namespace ({[source_id source]} ∪ ids) ({[locator source]} ∪ locators) expected
  end.

(** [remove_source_preparation]; a write transaction's [open_table] creates the table. *)
Definition remove_source_preparation tx (id : list Z) : M SourceControlError D :=
  tx ← open_write Database tx PREPARATIONS;
  removed ← remove Database tx PREPARATIONS id;
  mret (snd removed).

(** The removal loop. *)
Fixpoint remove_rows tx (expected : list CurrentSourceRecord) : M SourceControlError D :=
  match expected with
  | [] => mret tx
  | source :: expected =>
      _ ← source_check;
      removed ← remove Database tx SOURCE_ROWS (source_id source);
      let '(row, tx) := removed in
      _ ← lift (reject_if (bool_decide (row = None)) Stale);
      removed ← remove Database tx SOURCE_LOCATORS (locator source);
      let '(indexed, tx) := removed in
      _ ← lift (reject_if (bool_decide (indexed = None)) Stale);
      tx ← remove_source_preparation tx (source_id source);
      remove_rows tx expected
  end.

(** [remove_sources_database] from its first read to its commit. *)
Definition prepare_removal tx (expected : list CurrentSourceRecord) : M SourceControlError D :=
  tx ← open_write Database tx SOURCE_STATE;
  version ← get Database tx SOURCE_STATE SCHEMA_VERSION_KEY;
  version ← lift (ok_or Stale version);
  namespace ← get Database tx SOURCE_STATE NAMESPACE_KEY;
  namespace ← lift (ok_or Stale namespace);
  _ ← lift (reject_if (negb (bool_decide (version = SOURCE_SCHEMA_VERSION))) Stale);
  namespace ← lift (to_array 16 namespace);
  tx ← open_write Database tx SOURCE_ROWS;
  tx ← open_write Database tx SOURCE_LOCATORS;
  _ ← verify_sources tx namespace ∅ ∅ expected;
  tx ← remove_rows tx expected;
  advance_wanted_revision tx.

Definition remove_sources_database d (expected : list CurrentSourceRecord) : M SourceControlError (bool * D) :=
  if bool_decide (expected = []) then mret (true, d)
  else
    _ ← lift (reject_if (MAX_CURRENT_SOURCES <? len expected) InventoryLimit);
    _ ← source_check;
    _ ← call Database;
    _ ← source_check;
    tx ← prepare_removal d expected;
    _ ← source_check;
    commit d tx.

(** The row loop of [capture_sources_database]. *)
Fixpoint inventory_rows d (namespace : list Z) (rows : list (list Z * list Z)) (charged : Z)
    (reverse : gmap (list Z) (list Z)) (sources : list CurrentSourceRecord)
    : M SourceControlError (gmap (list Z) (list Z) * list CurrentSourceRecord) :=
  match rows with
  | [] => mret (reverse, sources)
  | (id, bytes) :: rows =>
      _ ← source_check;
      _ ← call Database;
      charged ← lift (ok_or InventoryLimit (checked_add USIZE_MAX charged (len bytes)));
      _ ← lift (reject_if ((MAX_CURRENT_SOURCES <=? len sources) || (MAX_CURRENT_SOURCE_BYTES <? charged))
                  InventoryLimit);
      source ← lift (decode_record bytes);
      _ ← lift (reject_if (negb (bool_decide (id = source_id source))
                  || negb (bool_decide (source_namespace_id source = namespace))) Corrupt);
      indexed ← get Database d SOURCE_LOCATORS (locator source);
      indexed ← lift (ok_or Corrupt indexed);
      _ ← lift (reject_if (negb (bool_decide (indexed = source_id source))) Corrupt);
      charged ← lift (ok_or InventoryLimit (checked_add USIZE_MAX charged (len (locator source))));
      _ ← lift (reject_if (MAX_CURRENT_SOURCE_BYTES <? charged) InventoryLimit);
      _ ← reserve_with InventoryLimit;
      inventory_rows d namespace rows charged (<[source_id source := locator source]> reverse)
        (sources ++ [source])
  end.

(** The locator loop. *)
Fixpoint inventory_locators (items : list (list Z * list Z)) (locator_count : Z)
    (reverse : gmap (list Z) (list Z)) : M SourceControlError (Z * gmap (list Z) (list Z)) :=
  match items with
  | [] => mret (locator_count, reverse)
  | (locator_bytes, id) :: items =>
      _ ← source_check;
      _ ← call Database;
      locator_count ← lift (ok_or InventoryLimit (checked_add USIZE_MAX locator_count 1));
      _ ← lift (reject_if (MAX_CURRENT_SOURCES <? locator_count) InventoryLimit);
      _ ← lift (reject_if (negb (bool_decide (reverse !! id = Some locator_bytes))) Corrupt);
      inventory_locators items locator_count (delete id reverse)
  end.

Definition capture_sources_database d : M SourceControlError (list CurrentSourceRecord) :=
  _ ← source_check;
  _ ← call Database;
  schema ← read_source_schema d;
  if negb schema then mret []
  else
    namespace ← read_namespace d;
    namespace ← lift (ok_or Corrupt namespace);
    _ ← open_read Corrupt d SOURCE_ROWS;
    _ ← open_read Corrupt d SOURCE_LOCATORS;
    rows ← iterate Database d SOURCE_ROWS;
    read ← inventory_rows d namespace rows 0 ∅ [];
    let '(reverse, sources) := read in
    items ← iterate Database d SOURCE_LOCATORS;
    counted ← inventory_locators items 0 reverse;
    let '(locator_count, reverse) := counted in
    _ ← lift (reject_if (negb (locator_count =? len sources) || negb (bool_decide (reverse = ∅))) Corrupt);
    _ ← source_check;
    mret sources.

(** ** The operations as their callers see them

    The answer, and the committed state afterwards. *)

(** [ControlWriter::commit_current_source] *)
Definition writer_commit d capture file object (w : env) : (result SourceControlError CurrentSourceRecord * D) * env :=
  match commit_source_database d capture file object w with
  | (Ok (record, (true, d')), w') => ((Ok record, d'), w')
  | (Ok (_, (false, d')), w') => ((Err Database, d'), w')
  | (Err e, w') => ((Err e, d), w')
  end.

(** The free function [commit_current_source]: an unconfirmed commit is resolved by
    reading the row back. *)
Definition path_commit d capture file object (w : env) : (result SourceControlError CurrentSourceRecord * D) * env :=
  match (_ ← source_check; _ ← call Database; commit_source_database d capture file object) w with
  | (Ok (record, (true, d')), w') => ((Ok record, d'), w')
  | (Ok (record, (false, d')), w') =>
      let '(observed, w'') :=
        (_ ← source_check; _ ← call Database; load_current_source_database d' (locator record)) w' in
      ((resolve_source_commit record observed, d'), w'')
  | (Err e, w') => ((Err e, d), w')
  end.

(** [ControlWriter::remove_current_sources] *)
Definition writer_remove d expected (w : env) : (result SourceControlError unit * D) * env :=
  match remove_sources_database d expected w with
  | (Ok (true, d'), w') => ((Ok tt, d'), w')
  | (Ok (false, d'), w') => ((Err Database, d'), w')
  | (Err e, w') => ((Err e, d), w')
  end.
End Control.
