(* ===== verification/ControlSpec.v ===== *)
(** The abstract corpus a control database stands for, the specification of each
    current-source operation on it, and the facts that relate stored tables to it. *)

From stdpp Require Import gmap sorting.
From S2P Require Import Prelude Bytes Ids Registry SourceRow Database Control.

(** ** The abstract state *)

Record corpus := {
  namespace : option (list Z);
  sources : gmap (list Z) CurrentSourceRecord;
  prepared_rows : table;
  wanted : Z }.

(** A row that both directions of its codec accept. *)
Definition row_ok (r : CurrentSourceRecord) : Prop :=
  record_wf r /\ encodable r /\ byte_length (object_ref r) <= MAX_SOURCE_OBJECT_BYTES.

Definition corpus_wf (c : corpus) : Prop :=
  (forall n, namespace c = Some n -> Uuid.wf n) /\ 0 <= wanted c <= U64_MAX /\
  (forall id r, sources c !! id = Some r ->
     source_id r = id /\ namespace c = Some (source_namespace_id r) /\ row_ok r) /\
  (forall i j r s, sources c !! i = Some r -> sources c !! j = Some s -> locator r = locator s -> i = j).

(** The source registered at a locator. *)
Definition locate (c : corpus) (l : list Z) : option CurrentSourceRecord :=
  head (filter (fun r => locator r = l) (snd <$> map_to_list (sources c))).

(** What [capture_source_database] reads. *)
Definition capture_spec (c : corpus) (l random_namespace random_source : list Z) : SourceCapture :=
  match namespace c with
  | None =>
      {| source_capture_namespace := random_namespace; source_capture_id := random_source;
         source_capture_locator := l; expected_namespace := None; expected_row_revision := None;
         expected_registration_revision := None |}
  | Some n =>
      match locate c l with
      | Some r =>
          {| source_capture_namespace := n; source_capture_id := source_id r; source_capture_locator := l;
             expected_namespace := Some n; expected_row_revision := Some (row_revision r);
             expected_registration_revision := Some (registration_revision r) |}
      | None =>
          {| source_capture_namespace := n; source_capture_id := random_source; source_capture_locator := l;
             expected_namespace := Some n; expected_row_revision := None;
             expected_registration_revision := None |}
      end
  end.

Definition revisions_spec (c : corpus) (capture : SourceCapture) : result SourceControlError (Z * Z) :=
  _ ← reject_if (negb (bool_decide (expected_namespace capture = namespace c))) Stale;
  match expected_row_revision capture, expected_registration_revision capture,
        locate c (source_capture_locator capture) with
  | None, None, None =>
      _ ← reject_if (bool_decide (is_Some (sources c !! source_capture_id capture))) Stale;
      Ok (1, 1)
  | Some row, Some registration, Some current =>
      _ ← reject_if (negb (bool_decide (source_id current = source_capture_id capture))
            || negb (bool_decide (source_namespace_id current = source_capture_namespace capture))
            || negb (row_revision current =? row)
            || negb (registration_revision current =? registration)) Stale;
      next ← ok_or RevisionExhausted (checked_add U64_MAX row 1);
      Ok (next, registration)
  | _, _, _ => Err Stale
  end.

(** The row a commit stores. *)
Definition committed_row (capture : SourceCapture) (file : NativeFileKey) (object : ObjectRef) (row registration : Z)
    : CurrentSourceRecord :=
  {| source_namespace_id := source_capture_namespace capture; source_id := source_capture_id capture;
     row_revision := row; registration_revision := registration;
     locator := source_capture_locator capture; file_key := file; object_ref := object |}.

(** Whether the captured row already has the content. *)
Definition unchanged (c : corpus) (capture : SourceCapture) (file : NativeFileKey) (object : ObjectRef)
    : option CurrentSourceRecord :=
  match expected_row_revision capture with
  | None => None
  | Some _ =>
      current ← sources c !! source_capture_id capture;
      if bool_decide (object_ref current = object) && bool_decide (file_key current = file)
      then Some current else None
  end.

(** A commit: the record it answers with, and the new state unless nothing changes. *)
Definition commit_spec (c : corpus) (capture : SourceCapture) (file : NativeFileKey) (object : ObjectRef)
    : result SourceControlError (CurrentSourceRecord * option corpus) :=
  revisions ← revisions_spec c capture;
  let '(row, registration) := revisions in
  match unchanged c capture file object with
  | Some current => Ok (current, None)
  | None =>
      let record := committed_row capture file object row registration in
      _ ← encode_record record;
      next ← ok_or RevisionExhausted (checked_add U64_MAX (wanted c) 1);
      Ok (record, Some {| namespace := Some (source_capture_namespace capture);
                          sources := <[source_capture_id capture := record]> (sources c);
                          prepared_rows := prepared_rows c; wanted := next |})
  end.

Definition removed (c : corpus) (expected : list CurrentSourceRecord) (next : Z) : corpus :=
  {| namespace := namespace c;
     sources := foldl (fun m r => delete (source_id r) m) (sources c) expected;
     prepared_rows := foldl (fun m r => delete (source_id r) m) (prepared_rows c) expected;
     wanted := next |}.

(** A removal: every row must be exactly the stored one, and be named once. *)
Definition removal_spec (c : corpus) (expected : list CurrentSourceRecord) : result SourceControlError corpus :=
  match namespace c with
  | None => Err Stale
  | Some _ =>
      _ ← reject_if (negb (bool_decide (NoDup (source_id <$> expected)
            /\ Forall (fun r => sources c !! source_id r = Some r) expected))) Stale;
      next ← ok_or RevisionExhausted (checked_add U64_MAX (wanted c) 1);
      Ok (removed c expected next)
  end.

(** ** Stored tables *)

Definition stored_row (r : CurrentSourceRecord) : list Z := 1 :: row_fields r.

(** The tables hold the corpus. *)
Definition holds {D} `{Redb D} (d : D) (c : corpus) : Prop :=
  rows_of d SOURCE_STATE !! SCHEMA_VERSION_KEY = (fun _ => SOURCE_SCHEMA_VERSION) <$> namespace c /\
  rows_of d SOURCE_STATE !! NAMESPACE_KEY = namespace c /\
  revision_value (rows_of d SOURCE_STATE !! WANTED_REVISION_KEY) = Ok (wanted c) /\
  rows_of d SOURCE_ROWS = stored_row <$> sources c /\
  (forall l id, rows_of d SOURCE_LOCATORS !! l = Some id <->
     exists r, sources c !! id = Some r /\ locator r = l) /\
  rows_of d PREPARATIONS = prepared_rows c /\
  corpus_wf c.

(** The tables that exist: the metadata table alone, or the source tables with or without
    preparations, and all publication tables or none. *)
Definition publication_names : gset (list Z) := list_to_set TABLE_NAMES.
Definition catalogue (names : gset (list Z)) (initialized : bool) : Prop :=
  (publication_names ⊆ names \/ publication_names ## names) /\
  if initialized then
    names ∖ publication_names = list_to_set [META_TABLE_NAME; SOURCE_STATE; SOURCE_ROWS; SOURCE_LOCATORS] \/
    names ∖ publication_names = list_to_set [META_TABLE_NAME; SOURCE_STATE; SOURCE_ROWS; SOURCE_LOCATORS; PREPARATIONS]
  else names ∖ publication_names = {[META_TABLE_NAME]}.

Definition initialized (c : corpus) : bool := bool_decide (is_Some (namespace c)).

(** The database stands for the corpus. *)
Definition represents {D} `{Redb D} (d : D) (c : corpus) : Prop :=
  list_multimap_tables d = [] /\ catalogue (names_of d) (initialized c) /\ holds d c.

(** ** The row codec on well-formed rows *)

Lemma encode_row r : row_ok r -> encode_record r = Ok (stored_row r).
Proof. intros (_ & He & _). by apply encode_record_ok. Qed.

Lemma stored_row_bytes r : row_ok r -> bytes_ok (stored_row r) /\ len (stored_row r) <= ISIZE_MAX.
Proof.
  intros (HW & (_ & _ & _ & _ & Hl) & _).
  destruct HW as ([Ln ?] & [Li ?] & _ & _ & ? & _ & _ & _ & [Ld ?] & _). split.
  - constructor; [unfold is_byte; lia|]. unfold row_fields, bytes_ok. rewrite !Forall_app.
    split_and!; try done; try apply le_bytes_ok; try apply key_to_bytes_ok.
    repeat constructor; destruct (kind (object_ref r)); cbn; lia.
  - unfold stored_row, row_fields. rewrite len_cons, !len_app, !len_le_bytes.
    assert (len (key_to_bytes (file_key r)) = 17) as -> by (destruct (file_key r); cbn; unfold len; by rewrite ?length_app, ?le_bytes_length).
    unfold len in *. rewrite Ln, Li, Ld. cbn [length]. unfold MAX_LOCATOR_BYTES in *. width.
Qed.

Lemma decode_row r : row_ok r -> decode_record (stored_row r) = Ok r.
Proof.
  intros Hr. destruct (stored_row_bytes r Hr). destruct Hr as (HW & (? & ? & ? & ? & ?) & ?).
  apply decode_record_ok; try done. split_and!; try done. unfold MAX_LOCATOR_BYTES in *. width.
Qed.

(** ** Locating *)

Lemma locate_spec c l r :
  corpus_wf c -> locate c l = Some r <-> sources c !! source_id r = Some r /\ locator r = l.
Proof.
  intros (_ & _ & Hrow & Hinj). unfold locate.
  assert (forall s, s ∈ filter (fun s => locator s = l) (snd <$> map_to_list (sources c)) <->
    sources c !! source_id s = Some s /\ locator s = l) as Hin.
  { intros s. rewrite list_elem_of_filter, list_elem_of_fmap. split.
    - intros (Hl & [id s'] & -> & Hin). apply elem_of_map_to_list in Hin. cbn in *.
      destruct (Hrow _ _ Hin) as (-> & _). by split.
    - intros [Hs Hl]. split; [done|]. exists (source_id s, s). split; [done|]. by apply elem_of_map_to_list. }
  split.
  - intros Hh. apply Hin. destruct (filter _ _); [done|]. injection Hh as <-. apply list_elem_of_here.
  - intros Hr. apply Hin in Hr as Hr'. destruct (filter _ _) as [|s rest] eqn:Hf; [by apply elem_of_nil in Hr'|].
    cbn. f_equal. assert (sources c !! source_id s = Some s /\ locator s = l) as [Hs Hsl].
    { apply Hin. apply list_elem_of_here. }
    destruct Hr as [Hr Hrl]. assert (source_id s = source_id r) as Hid by (apply (Hinj _ _ s r); congruence).
    congruence.
Qed.

Lemma locate_none c l :
  corpus_wf c -> locate c l = None <-> forall id r, sources c !! id = Some r -> locator r <> l.
Proof.
  intros Hwf. split.
  - intros Hn id r Hr Hl. destruct (proj1 (proj2 (proj2 Hwf)) _ _ Hr) as (Hid & _).
    assert (locate c l = Some r) by (apply locate_spec; [done|]; by rewrite Hid). congruence.
  - intros Hn. destruct (locate c l) as [r|] eqn:Hl; [|done]. apply locate_spec in Hl as [Hr Hl]; [|done].
    by destruct (Hn _ _ Hr).
Qed.
