(* ===== verification/ControlRefine.v ===== *)
(** The current-source operations refine their specification: every read returns what
    the corpus holds, and every committed transaction turns the tables of one corpus into
    the tables of the next. *)

From stdpp Require Import gmap sorting.
From S2P Require Import Prelude Bytes Ids Registry SourceRow Database Control ControlSpec.

(** ** Catalogues *)

#[export] Instance name_le_total : Total name_le.
Proof.
  intros a b. unfold name_le. rewrite (bytes_compare_antisym a b).
  destruct (bytes_compare a b); cbn; by left + by right.
Qed.
#[export] Instance name_le_trans : Transitive name_le.
Proof. intros a b c Hab Hbc. exact (key_le_trans (a, []) (b, []) (c, []) Hab Hbc). Qed.
#[export] Instance name_le_antisymm : AntiSymm (=) name_le.
Proof.
  intros a b Hab Hba. unfold name_le in *. rewrite (bytes_compare_antisym a b) in Hba.
  destruct (bytes_compare a b) eqn:E; cbn in *; [by apply bytes_compare_eq|done..].
Qed.

Lemma sort_names_eq a b : sort_names a = sort_names b <-> a ≡ₚ b.
Proof.
  unfold sort_names. split.
  - intros H. rewrite <- (merge_sort_Permutation name_le a), <- (merge_sort_Permutation name_le b). by rewrite H.
  - intros Hp. apply (StronglySorted_unique name_le); try apply StronglySorted_merge_sort; try apply _.
    by rewrite !merge_sort_Permutation.
Qed.

Lemma sort_single (names : list (list Z)) n : sort_names names = [n] <-> names ≡ₚ [n].
Proof. change [n] with (sort_names [n]) at 1. apply sort_names_eq. Qed.

Lemma names_permutation (l k : list (list Z)) :
  NoDup l -> NoDup k -> (list_to_set l : gset (list Z)) = list_to_set k -> l ≡ₚ k.
Proof.
  intros Hl Hk Hs. apply NoDup_Permutation; [done..|]. intros x.
  assert (x ∈ (list_to_set l : gset (list Z)) <-> x ∈ (list_to_set k : gset (list Z))) as Hx by by rewrite Hs.
  by rewrite !elem_of_list_to_set in Hx.
Qed.

Lemma catalogue_ok names S b :
  NoDup names -> (forall n, n ∈ names <-> n ∈ S) -> catalogue S b -> catalogue_names names false = Ok b.
Proof.
  intros Hnd Hin [Hpub Hrest]. unfold catalogue_names. cbn [reject_if mbind result_bind].
  assert (NoDup (filter (fun n => n ∈ TABLE_NAMES) names)) as Hn1 by by apply NoDup_filter.
  assert (NoDup (filter (fun n => n ∉ TABLE_NAMES) names)) as Hn2 by by apply NoDup_filter.
  assert (NoDup TABLE_NAMES) as Hn3 by (apply (bool_decide_eq_true_1 _); vm_compute; reflexivity).
  rewrite reject_if_false.
  2:{ destruct Hpub as [Hsub|Hdis].
      - apply andb_false_iff. right. apply negb_false_iff, Z.eqb_eq. unfold len. f_equal.
        apply Permutation_length, NoDup_Permutation; [done..|]. intros n. rewrite list_elem_of_filter, Hin.
        split; [by intros []|]. intros Hn. split; [done|]. apply Hsub. unfold publication_names.
        by apply elem_of_list_to_set.
      - apply andb_false_iff. left. apply negb_false_iff, Z.eqb_eq.
        destruct (filter (fun n => n ∈ TABLE_NAMES) names) as [|n rest] eqn:Hf; [done|].
        assert (n ∈ filter (fun n => n ∈ TABLE_NAMES) names) as Hn by (rewrite Hf; apply list_elem_of_here).
        apply list_elem_of_filter in Hn as [Hn Hn']. exfalso. apply (Hdis n); [|by apply Hin].
        unfold publication_names. by apply elem_of_list_to_set. }
  cbn [mbind result_bind].
  assert ((list_to_set (filter (fun n => n ∉ TABLE_NAMES) names) : gset (list Z)) = S ∖ publication_names) as Hset.
  { apply set_eq. intros n. rewrite elem_of_list_to_set, list_elem_of_filter, Hin, elem_of_difference.
    unfold publication_names. rewrite elem_of_list_to_set. tauto. }
  set (rest := filter (fun n => n ∉ TABLE_NAMES) names) in *.
  assert (forall k, NoDup k -> S ∖ publication_names = list_to_set k -> rest ≡ₚ k) as Hperm.
  { intros k Hk HS. apply names_permutation; [done..|]. by rewrite Hset. }
  destruct b.
  - destruct Hrest as [Hrest|Hrest]; apply Hperm in Hrest;
      try (apply (bool_decide_eq_true_1 _); vm_compute; reflexivity).
    + rewrite bool_decide_false; [|rewrite sort_single, Hrest; intros Hp; by apply Permutation_length in Hp].
      cbv zeta. rewrite bool_decide_true; [done|]. by apply sort_names_eq.
    + rewrite bool_decide_false; [|rewrite sort_single, Hrest; intros Hp; by apply Permutation_length in Hp].
      cbv zeta. rewrite bool_decide_false; [|rewrite sort_names_eq, Hrest; intros Hp; by apply Permutation_length in Hp].
      rewrite bool_decide_true; [done|]. apply sort_names_eq. rewrite Hrest.
      change [META_TABLE_NAME; SOURCE_STATE; SOURCE_ROWS; SOURCE_LOCATORS; PREPARATIONS]
        with ([META_TABLE_NAME; SOURCE_STATE; SOURCE_ROWS; SOURCE_LOCATORS] ++ [PREPARATIONS]).
      apply Permutation_app; [|done]. symmetry. apply merge_sort_Permutation.
  - assert (rest ≡ₚ [META_TABLE_NAME]) as Hp.
    { apply Hperm; [repeat constructor; by intros ?%elem_of_nil|]. rewrite Hrest. cbn. set_solver. }
    rewrite bool_decide_true; [done|]. by apply sort_single.
Qed.

(** Source tables, and the three that initialization creates. *)
Definition core_names : gset (list Z) := list_to_set [SOURCE_STATE; SOURCE_ROWS; SOURCE_LOCATORS].
Definition source_names : gset (list Z) := list_to_set [SOURCE_STATE; SOURCE_ROWS; SOURCE_LOCATORS; PREPARATIONS].

Lemma source_names_apart : source_names ## publication_names.
Proof. apply (bool_decide_eq_true_1 _). vm_compute. reflexivity. Qed.

(** The shapes of an initialized catalogue under more source tables, for any core, any
    further table and any other part. *)
Lemma grow_shapes (M core rest X T : gset (list Z)) (p : list Z) :
  X ⊆ core ∪ {[p]} -> T = M ∪ core \/ T = M ∪ (core ∪ {[p]}) \/ (T = M /\ core ⊆ X) ->
  X ∪ T = M ∪ core \/ X ∪ T = M ∪ (core ∪ {[p]}).
Proof.
  intros HX HT. destruct (decide (p ∈ X)) as [Hp|Hp].
  - right. destruct HT as [-> |[-> |[-> HcX]]]; set_solver.
  - assert (X ⊆ core) by set_solver. destruct HT as [-> |[-> |[-> HcX]]]; [left|right|left]; set_solver.
Qed.

Lemma list_to_set_cons' (n : list Z) l : (list_to_set (n :: l) : gset (list Z)) = {[n]} ∪ list_to_set l.
Proof. done. Qed.

Lemma source_names_split : source_names = core_names ∪ {[PREPARATIONS]}.
Proof. apply (bool_decide_eq_true_1 _). vm_compute. reflexivity. Qed.
Lemma four_names :
  (list_to_set [META_TABLE_NAME; SOURCE_STATE; SOURCE_ROWS; SOURCE_LOCATORS] : gset (list Z))
  = {[META_TABLE_NAME]} ∪ core_names.
Proof. done. Qed.
Lemma five_names :
  (list_to_set [META_TABLE_NAME; SOURCE_STATE; SOURCE_ROWS; SOURCE_LOCATORS; PREPARATIONS] : gset (list Z))
  = {[META_TABLE_NAME]} ∪ (core_names ∪ {[PREPARATIONS]}).
Proof. rewrite <- source_names_split. done. Qed.

Lemma difference_disjoint (X S P : gset (list Z)) : X ## P -> (X ∪ S) ∖ P = X ∪ S ∖ P.
Proof. set_solver. Qed.
Lemma disjoint_union (X S P : gset (list Z)) : X ## P -> S ## P -> X ∪ S ## P.
Proof. set_solver. Qed.

(** Opening source tables keeps a catalogue; opening the core ones initializes it. *)
Lemma catalogue_grow S X b :
  catalogue S b -> X ⊆ source_names -> (b = true \/ core_names ⊆ X) -> catalogue (X ∪ S) true.
Proof.
  unfold catalogue. intros [Hpub Hrest] HX Hcore.
  assert (X ## publication_names) as Hapart by (intros n Hn; apply (source_names_apart n), HX, Hn).
  split.
  - destruct Hpub as [Hsub|Hdis].
    + left. etransitivity; [exact Hsub|apply union_subseteq_r].
    + right. symmetry. apply disjoint_union; [done|by symmetry].
  - rewrite difference_disjoint by done. rewrite four_names, five_names in *.
    apply grow_shapes; [done|by rewrite <- source_names_split|].
    destruct b; [destruct Hrest as [-> | -> ]; auto|]. right; right. destruct Hcore; [done|]. by rewrite Hrest.
Qed.

(** ** Reads *)

Section Reads.
Context {D : Type} `{Redb D}.
Implicit Types d tx : D.

Lemma schema_refines d c : represents d c -> refines (read_source_schema d) (Ok (initialized c)).
Proof.
  intros (Hm & Hcat & _). unfold read_source_schema. refine_step; [auto with eliot|]. cbv zeta.
  refine_step; [auto with eliot|]. rewrite Hm. destruct (list_tables_names d) as [Hnd Hin].
  change (negb (len (@nil (list Z)) =? 0)) with false.
  rewrite (catalogue_ok (list_tables d) (names_of d) (initialized c)) by done. apply refines_lift.
Qed.

Lemma initialized_some c n : namespace c = Some n -> initialized c = true.
Proof. intros Hn. unfold initialized. rewrite bool_decide_true; [done|]. by exists n. Qed.


Lemma core_present S n : catalogue S true -> n ∈ core_names -> n ∈ S.
Proof.
  unfold catalogue. intros [_ Hrest] Hn. rewrite four_names, five_names in Hrest.
  assert (n ∈ S ∖ publication_names) as Hin; [|by apply elem_of_difference in Hin as [? _]].
  destruct Hrest as [-> | -> ].
  - apply elem_of_union. by right.
  - apply elem_of_union. right. apply elem_of_union. by left.
Qed.

Lemma state_core : SOURCE_STATE ∈ core_names.
Proof. apply (bool_decide_eq_true_1 _). vm_compute. reflexivity. Qed.
Lemma rows_core : SOURCE_ROWS ∈ core_names.
Proof. apply (bool_decide_eq_true_1 _). vm_compute. reflexivity. Qed.
Lemma locators_core : SOURCE_LOCATORS ∈ core_names.
Proof. apply (bool_decide_eq_true_1 _). vm_compute. reflexivity. Qed.

Lemma open_core d c k n e :
  represents d c -> namespace c = Some k -> n ∈ core_names -> interrupt e -> refines (open_read e d n) (Ok tt).
Proof.
  intros (_ & Hcat & _) Hk Hn He. apply refines_open_read; [done|].
  eapply core_present; [|done]. by rewrite (initialized_some c k) in Hcat.
Qed.

Lemma namespace_array c n : corpus_wf c -> namespace c = Some n -> to_array 16 n = Ok n.
Proof.
  intros (Hns & _) Hn. destruct (Hns _ Hn) as [Hl _]. unfold to_array. rewrite reject_if_false; [done|].
  apply negb_false_iff, Z.eqb_eq. unfold len. lia.
Qed.

Lemma namespace_refines d c n :
  represents d c -> namespace c = Some n -> refines (read_namespace d) (Ok (Some n)).
Proof.
  intros Hr Hn. pose proof Hr as (_ & _ & Hv & Hns & _ & _ & _ & _ & Hwf). unfold read_namespace.
  eapply refines_bind_ok; [apply (open_core d c n); [done|done|apply state_core|auto with eliot]|].
  eapply refines_bind_ok; [apply refines_get; auto with eliot|].
  eapply refines_bind_ok; [apply refines_get; auto with eliot|].
  rewrite Hv, Hns, Hn. cbn [fmap option_fmap option_map]. rewrite bool_decide_true by done.
  rewrite (namespace_array c n) by done. rewrite lift_ok_bind. apply refines_ret.
Qed.

(** A stored row decodes to the source. *)
Lemma rows_lookup d c id : holds d c -> rows_of d SOURCE_ROWS !! id = stored_row <$> sources c !! id.
Proof. intros (_ & _ & _ & -> & _). apply lookup_fmap. Qed.

Lemma source_by_id_refines d c n id :
  represents d c -> namespace c = Some n -> refines (read_source_by_id d id) (Ok (sources c !! id)).
Proof.
  intros Hr Hn. pose proof Hr as (_ & _ & Hh). pose proof Hh as (_ & _ & _ & _ & _ & _ & Hwf).
  unfold read_source_by_id. eapply refines_bind_ok; [apply (open_core d c n); [done|done|apply rows_core|auto with eliot]|].
  eapply refines_bind_ok; [apply refines_get; auto with eliot|].
  rewrite (rows_lookup d c id Hh). destruct (sources c !! id) as [r|] eqn:Hs; [|apply refines_ret].
  cbn [fmap option_fmap option_map]. destruct (proj1 (proj2 (proj2 Hwf)) _ _ Hs) as (<- & _ & Hok).
  rewrite (decode_row r Hok), lift_ok_bind. rewrite bool_decide_true by done. apply refines_ret.
Qed.

(** The locator index. *)
Lemma locators_lookup d c l :
  holds d c -> rows_of d SOURCE_LOCATORS !! l = source_id <$> locate c l.
Proof.
  intros (_ & _ & _ & _ & Hl & _ & Hwf).
  destruct (locate c l) as [r|] eqn:Hloc; cbn [fmap option_fmap option_map].
  - apply locate_spec in Hloc as [Hr Hlr]; [|done]. apply Hl. eauto.
  - destruct (rows_of d SOURCE_LOCATORS !! l) as [id|] eqn:Hid; [|done].
    apply Hl in Hid as (r & Hr & Hlr). by destruct (proj1 (locate_none c l Hwf) Hloc _ _ Hr).
Qed.

Lemma locator_row_refines d c n l :
  represents d c -> namespace c = Some n -> refines (load_locator_row d l) (Ok (locate c l)).
Proof.
  intros Hr Hn. pose proof Hr as (_ & _ & Hh). pose proof Hh as (_ & _ & _ & _ & _ & _ & Hwf).
  unfold load_locator_row. eapply refines_bind_ok; [apply (open_core d c n); [done|done|apply locators_core|auto with eliot]|].
  eapply refines_bind_ok; [apply refines_get; auto with eliot|].
  rewrite (locators_lookup d c l Hh). destruct (locate c l) as [r|] eqn:Hloc; [|apply refines_ret].
  cbn [fmap option_fmap option_map]. apply locate_spec in Hloc as [Hs Hlr]; [|done].
  destruct (proj1 (proj2 (proj2 Hwf)) _ _ Hs) as (_ & _ & Hok).
  assert (to_array 16 (source_id r) = Ok (source_id r)) as ->.
  { destruct Hok as ((_ & [Hi _] & _) & _). unfold to_array. rewrite reject_if_false; [done|].
    apply negb_false_iff, Z.eqb_eq. unfold len. lia. }
  rewrite lift_ok_bind. eapply refines_bind_ok; [apply (open_core d c n); [done|done|apply rows_core|auto with eliot]|].
  eapply refines_bind_ok; [apply refines_get; auto with eliot|].
  rewrite (rows_lookup d c _ Hh), Hs. cbn [fmap option_fmap option_map ok_or]. rewrite lift_ok_bind.
  rewrite (decode_row r Hok), lift_ok_bind. rewrite !bool_decide_true by done. apply refines_ret.
Qed.

Lemma capture_refines d c l rn rs :
  represents d c -> refines (capture_source_database d l rn rs) (Ok (capture_spec c l rn rs)).
Proof.
  intros Hr. unfold capture_source_database, capture_spec, source_check.
  refine_step; [auto with eliot..|]. refine_step; [auto with eliot..|]. refine_step; [auto with eliot..|].
  eapply refines_bind_ok; [by apply schema_refines|].
  assert (forall b, refines (random_id b) (Ok b)) as Hrandom.
  { intros b. unfold random_id. refine_step; [auto with eliot|]. apply refines_ret. }
  destruct (namespace c) as [n|] eqn:Hn.
  - rewrite (initialized_some c n Hn). cbn [negb].
    eapply refines_bind_ok; [by apply (namespace_refines d c n)|]. cbn [ok_or]. rewrite lift_ok_bind.
    eapply refines_bind_ok; [by apply (locator_row_refines d c n)|].
    refine_step; [auto with eliot..|].
    pose proof Hr as (_ & _ & _ & _ & _ & _ & _ & _ & Hwf).
    destruct (locate c l) as [r|] eqn:Hl.
    + apply locate_spec in Hl as [Hs _]; [|done]. destruct (proj1 (proj2 (proj2 Hwf)) _ _ Hs) as (_ & Hns & _).
      rewrite bool_decide_true by congruence. eapply refines_bind_ok; [apply refines_ret|]. apply refines_ret.
    + eapply refines_bind_ok; [eapply refines_bind_ok; [apply Hrandom|apply refines_ret]|]. apply refines_ret.
  - assert (initialized c = false) as ->.
    { unfold initialized. rewrite Hn. rewrite bool_decide_false; [done|]. by intros [? ?]. }
    cbn [negb]. eapply refines_bind_ok; [apply Hrandom|]. eapply refines_bind_ok; [apply Hrandom|]. apply refines_ret.
Qed.

Lemma load_refines d c l :
  represents d c -> refines (load_current_source_database d l) (Ok (locate c l)).
Proof.
  intros Hr. unfold load_current_source_database, source_check.
  refine_step; [auto with eliot..|]. refine_step; [auto with eliot..|].
  eapply refines_bind_ok; [by apply schema_refines|].
  pose proof Hr as (_ & _ & _ & _ & _ & _ & _ & _ & Hwf).
  destruct (namespace c) as [n|] eqn:Hn.
  - rewrite (initialized_some c n Hn). cbn [negb]. eapply refines_bind_ok; [by eapply locator_row_refines|].
    refine_step; [auto with eliot..|]. apply refines_ret.
  - assert (initialized c = false) as ->.
    { unfold initialized. rewrite Hn. rewrite bool_decide_false; [done|]. by intros [? ?]. }
    cbn [negb]. destruct (locate c l) as [r|] eqn:Hl; [|apply refines_ret].
    apply locate_spec in Hl as [Hs _]; [|done]. destruct (proj1 (proj2 (proj2 Hwf)) _ _ Hs) as (_ & ? & _). congruence.
Qed.
End Reads.

(** ** Transactions *)

(** What [source_locator_bytes] and the capture operations guarantee of a capture. *)
Definition capture_wf (capture : SourceCapture) : Prop :=
  Uuid.wf (source_capture_namespace capture) /\ Uuid.wf (source_capture_id capture) /\
  bytes_ok (source_capture_locator capture) /\ 0 < len (source_capture_locator capture) <= MAX_LOCATOR_BYTES /\
  (forall n, expected_namespace capture = Some n -> n = source_capture_namespace capture).

(** The arguments of a commit: a file key and a reference to a retained source object. *)
Definition content_ok (file : NativeFileKey) (object : ObjectRef) : Prop :=
  key_wf file /\ object_wf object /\ byte_length object <= MAX_SOURCE_OBJECT_BYTES.

(** Evaluate the rows of a transaction's tables. *)
Ltac tables :=
  repeat first [ rewrite rows_open | rewrite rows_insert | rewrite rows_remove
               | rewrite decide_True by reflexivity
               | rewrite decide_False by (vm_compute; discriminate) ].
(** Evaluate a lookup under insertions at constant keys. *)
Ltac keys :=
  repeat first [ rewrite lookup_insert_eq | rewrite lookup_insert_ne by (vm_compute; discriminate) ].

Lemma revision_le v : 0 <= v <= U64_MAX -> revision_value (Some (le_bytes 8 v)) = Ok v.
Proof.
  intros Hv. unfold revision_value, to_array. rewrite reject_if_false.
  - cbn [mbind result_bind]. f_equal. apply le_value_le_bytes. width.
  - apply negb_false_iff, Z.eqb_eq. apply len_le_bytes.
Qed.

Section Transactions.
Context {D : Type} `{Redb D}.
Implicit Types d tx : D.

Lemma holds_open tx c n : holds tx c -> holds (table_open tx n) c.
Proof. unfold holds. by rewrite !rows_open. Qed.

Definition opened tx : D := table_open (table_open (table_open tx SOURCE_STATE) SOURCE_ROWS) SOURCE_LOCATORS.

Lemma holds_opened tx c : holds tx c -> holds (opened tx) c.
Proof. intros. by do 3 apply holds_open. Qed.

Lemma namespace_current_spec c expected :
  namespace_current expected ((fun _ => SOURCE_SCHEMA_VERSION) <$> namespace c) (namespace c)
  = bool_decide (expected = namespace c).
Proof.
  destruct expected as [e|], (namespace c) as [n|]; cbn [namespace_current fmap option_fmap option_map].
  - rewrite bool_decide_true by done. cbn [andb]. apply bool_decide_ext. naive_solver.
  - by rewrite bool_decide_false.
  - by rewrite bool_decide_false.
  - by rewrite bool_decide_true.
Qed.

Lemma opened_refines tx (B : Type) (k : D -> M SourceControlError B) r :
  refines (k (opened tx)) r ->
  refines (tx ← open_write Database tx SOURCE_STATE; tx ← open_write Database tx SOURCE_ROWS;
           tx ← open_write Database tx SOURCE_LOCATORS; k tx) r.
Proof. intros Hk. do 3 (eapply refines_bind_ok; [apply refines_open_write; auto with eliot|]). exact Hk. Qed.

Lemma revisions_refines tx c capture :
  holds tx c -> refines (source_revisions tx capture) (r ← revisions_spec c capture; Ok (opened tx, r)).
Proof.
  intros Hh. unfold source_revisions. apply opened_refines.
  pose proof (holds_opened tx c Hh) as Hh'. pose proof Hh' as (Hv & Hn & _ & _ & _ & _ & Hwf). unfold revisions_spec.
  eapply refines_bind_ok; [apply refines_get; auto with eliot|].
  eapply refines_bind_ok; [apply refines_get; auto with eliot|].
  rewrite Hv, Hn, namespace_current_spec.
  destruct (bool_decide (expected_namespace capture = namespace c)); cbn [negb reject_if mbind result_bind]; [|apply refines_lift].
  rewrite lift_ok_bind. eapply refines_bind_ok; [apply refines_get; auto with eliot|].
  rewrite (locators_lookup _ c _ Hh').
  destruct (expected_row_revision capture) as [row|], (expected_registration_revision capture) as [reg|],
    (locate c (source_capture_locator capture)) as [cur|] eqn:Hl; cbn [fmap option_fmap option_map]; try apply refines_fail.
  - apply locate_spec in Hl as [Hs Hloc]; [|done]. destruct (proj1 (proj2 (proj2 Hwf)) _ _ Hs) as (_ & _ & Hok).
    destruct (bool_decide (source_id cur = source_capture_id capture)) eqn:Hid; cbn [negb orb]; [|apply refines_fail].
    to_prop. eapply refines_bind_ok; [apply refines_get; auto with eliot|].
    rewrite (rows_lookup _ c _ Hh'), <- Hid, Hs. cbn [fmap option_fmap option_map ok_or]. rewrite lift_ok_bind.
    rewrite (decode_row cur Hok), lift_ok_bind. rewrite (bool_decide_true (source_id cur = source_id cur)) by done.
    rewrite (bool_decide_true (locator cur = _)) by done. cbn [negb]. rewrite !orb_false_r.
    destruct (reject_if _ Stale); cbn [mbind result_bind]; [rewrite lift_ok_bind|apply refines_lift].
    destruct (ok_or _ _); cbn [mbind result_bind]; [rewrite lift_ok_bind; apply refines_ret|apply refines_lift].
  - eapply refines_bind_ok; [apply refines_get; auto with eliot|].
    rewrite (rows_lookup _ c _ Hh').
    assert (bool_decide (is_Some (stored_row <$> sources c !! source_capture_id capture))
      = bool_decide (is_Some (sources c !! source_capture_id capture))) as ->.
    { apply bool_decide_ext. by rewrite fmap_is_Some. }
    destruct (reject_if _ Stale); cbn [mbind result_bind]; [rewrite lift_ok_bind; apply refines_ret|apply refines_lift].
Qed.

(** What accepted revisions say of the corpus: the locator is free and so is the drawn
    identity, or the locator's row is the captured one. *)
Lemma revisions_cases c capture row reg :
  corpus_wf c -> revisions_spec c capture = Ok (row, reg) ->
  expected_namespace capture = namespace c /\ 1 <= row <= U64_MAX /\ 1 <= reg <= U64_MAX /\
  ((expected_row_revision capture = None /\ row = 1 /\ reg = 1 /\
    locate c (source_capture_locator capture) = None /\ sources c !! source_capture_id capture = None) \/
   (exists cur, expected_row_revision capture = Some (row_revision cur) /\
      locate c (source_capture_locator capture) = Some cur /\ sources c !! source_capture_id capture = Some cur /\
      locator cur = source_capture_locator capture /\ source_id cur = source_capture_id capture /\
      source_namespace_id cur = source_capture_namespace capture /\
      row = row_revision cur + 1 /\ reg = registration_revision cur)).
Proof.
  intros Hwf Hr. unfold revisions_spec in Hr. apply bind_ok_inv in Hr as ([] & Hg%reject_if_ok & Hr). to_prop.
  split; [done|].
  destruct (expected_row_revision capture) as [er|], (expected_registration_revision capture) as [eg|],
    (locate c (source_capture_locator capture)) as [cur|] eqn:Hl; try done.
  - apply bind_ok_inv in Hr as ([] & Hg2%reject_if_ok & Hr). to_prop.
    apply bind_ok_inv in Hr as (next & Hnext%ok_or_inv%checked_add_inv & Hr). apply ok_inj in Hr.
    injection Hr as <- <-. destruct Hnext as [-> Hmax]. subst.
    apply locate_spec in Hl as [Hs Hloc]; [|done].
    destruct (proj1 (proj2 (proj2 Hwf)) _ _ Hs) as (_ & _ & HW & (? & ? & _) & _).
    destruct HW as (_ & _ & ? & ? & _). split_and!; try lia. right. exists cur. split_and!; try congruence.
  - apply bind_ok_inv in Hr as ([] & Hg2%reject_if_ok & Hr). to_prop. apply ok_inj in Hr.
    injection Hr as <- <-. split_and!; try (width). left. split_and!; try done.
    destruct (sources c !! source_capture_id capture) eqn:E; [|done]. exfalso. by eauto.
Qed.

Lemma committed_row_ok capture file object row reg bytes :
  capture_wf capture -> content_ok file object -> 0 <= row <= U64_MAX -> 0 <= reg <= U64_MAX ->
  encode_record (committed_row capture file object row reg) = Ok bytes ->
  row_ok (committed_row capture file object row reg) /\
  bytes = stored_row (committed_row capture file object row reg).
Proof.
  intros (Hn & Hi & Hl & Hll & _) (Hk & Ho & Hb) Hrow Hreg He. apply encode_record_ok in He as [He ->].
  split; [|done]. split_and!; try done.
  unfold record_wf. cbn. split_and!; try apply Hn; try apply Hi; try done; try lia.
  unfold MAX_LOCATOR_BYTES in Hll. width.
Qed.

(** The next corpus is well formed. *)
Lemma committed_wf c capture file object row reg bytes next :
  corpus_wf c -> capture_wf capture -> content_ok file object ->
  revisions_spec c capture = Ok (row, reg) ->
  encode_record (committed_row capture file object row reg) = Ok bytes -> 0 <= next <= U64_MAX ->
  corpus_wf {| namespace := Some (source_capture_namespace capture);
    sources := <[source_capture_id capture := committed_row capture file object row reg]> (sources c);
    prepared_rows := prepared_rows c; wanted := next |}.
Proof.
  intros Hwf Hcap Hcontent Hrev Henc Hnext. pose proof Hwf as (Hns & _ & Hrow & Hinj).
  destruct (revisions_cases c capture row reg Hwf Hrev) as (Hexp & Hr1 & Hr2 & Hcase).
  destruct (committed_row_ok capture file object row reg bytes Hcap Hcontent ltac:(lia) ltac:(lia) Henc) as [Hok _].
  pose proof Hcap as (Hwn & _ & _ & _ & Hcn).
  assert (forall id r, sources c !! id = Some r -> id <> source_capture_id capture ->
    locator r <> source_capture_locator capture) as Hfree.
  { intros id r Hs Hne Hloc. destruct Hcase as [(_ & _ & _ & Hnone & _)|(cur & _ & _ & Hcur & Hcl & _)].
    - by destruct (proj1 (locate_none c _ Hwf) Hnone _ _ Hs).
    - apply Hne. apply (Hinj _ _ r cur); congruence. }
  unfold corpus_wf. cbn [namespace sources wanted]. split_and!; [by intros ? [= <-]|lia|lia|..].
  - intros id r Hs. apply lookup_insert_Some in Hs as [[<- <-]|[Hne Hs]]; [done|].
    destruct (Hrow _ _ Hs) as (Hid & Hn & Hrok). split_and!; try done. rewrite Hn in Hexp.
    f_equal. symmetry. by apply Hcn.
  - intros i j r s Hi Hj Hloc. apply lookup_insert_Some in Hi as [[<- <-]|[Hi Hri]];
      apply lookup_insert_Some in Hj as [[<- <-]|[Hj Hrj]]; try done.
    + exfalso. by apply (Hfree _ _ Hrj).
    + exfalso. by apply (Hfree _ _ Hri).
    + by apply (Hinj _ _ r s).
Qed.

(** The locator index after a commit. *)
Lemma committed_locators d c capture file object row reg :
  holds d c -> revisions_spec c capture = Ok (row, reg) ->
  forall l id, <[source_capture_locator capture := source_capture_id capture]> (rows_of d SOURCE_LOCATORS) !! l = Some id <->
    exists r, <[source_capture_id capture := committed_row capture file object row reg]> (sources c) !! id = Some r /\
      locator r = l.
Proof.
  intros (_ & _ & _ & _ & Hloc & _ & Hwf) Hrev l id.
  destruct (revisions_cases c capture row reg Hwf Hrev) as (_ & _ & _ & Hcase).
  destruct (decide (l = source_capture_locator capture)) as [-> |Hne].
  - rewrite lookup_insert_eq. split.
    + intros [= <-]. eexists. by rewrite lookup_insert_eq.
    + intros (r & Hs & Hl). apply lookup_insert_Some in Hs as [[<- _]|[Hid Hs]]; [done|]. exfalso.
      destruct Hcase as [(_ & _ & _ & Hnone & _)|(cur & _ & _ & Hcur & Hcl & _)].
      * by destruct (proj1 (locate_none c _ Hwf) Hnone _ _ Hs).
      * apply Hid. destruct Hwf as (_ & _ & _ & Hinj). apply (Hinj _ _ cur r); congruence.
  - rewrite lookup_insert_ne by done. rewrite Hloc. split; intros (r & Hs & Hl); exists r; (split; [|done]).
    + destruct (decide (id = source_capture_id capture)) as [-> |Hid]; [|by rewrite lookup_insert_ne].
      exfalso. destruct Hcase as [(_ & _ & _ & _ & Hnone)|(cur & _ & _ & Hcur & Hcl & _)]; congruence.
    + apply lookup_insert_Some in Hs as [[<- <-]|[_ Hs]]; [|done]. by cbn in Hl.
Qed.

(** The transaction of a commit. *)
Definition committed_tx tx capture (encoded : list Z) (next : Z) : D :=
  let tx := match expected_namespace capture with
    | None => table_insert (table_insert tx SOURCE_STATE SCHEMA_VERSION_KEY SOURCE_SCHEMA_VERSION)
                SOURCE_STATE NAMESPACE_KEY (source_capture_namespace capture)
    | Some _ => tx
    end in
  let tx := table_insert tx SOURCE_ROWS (source_capture_id capture) encoded in
  let tx := table_insert tx SOURCE_LOCATORS (source_capture_locator capture) (source_capture_id capture) in
  table_insert (table_open (table_open tx SOURCE_STATE) SOURCE_STATE) SOURCE_STATE WANTED_REVISION_KEY (le_bytes 8 next).

Lemma holds_committed tx c capture file object row reg bytes next :
  holds tx c -> capture_wf capture -> content_ok file object ->
  revisions_spec c capture = Ok (row, reg) ->
  encode_record (committed_row capture file object row reg) = Ok bytes -> 0 <= next <= U64_MAX ->
  holds (committed_tx tx capture bytes next)
    {| namespace := Some (source_capture_namespace capture);
       sources := <[source_capture_id capture := committed_row capture file object row reg]> (sources c);
       prepared_rows := prepared_rows c; wanted := next |}.
Proof.
  intros Hh Hcap Hcontent Hrev Henc Hnext. pose proof Hh as (Hv & Hn & Hw & Hrows & _ & Hprep & Hwf).
  destruct (revisions_cases c capture row reg Hwf Hrev) as (Hexp & Hr1 & Hr2 & _).
  destruct (committed_row_ok capture file object row reg bytes Hcap Hcontent ltac:(lia) ltac:(lia) Henc) as [Hok ->].
  pose proof Hcap as (_ & _ & _ & _ & Hcn). unfold holds, committed_tx. cbn [namespace sources prepared_rows wanted].
  split_and!.
  - destruct (expected_namespace capture) as [n|]; tables; keys; [|done]. by rewrite Hv, <- Hexp.
  - destruct (expected_namespace capture) as [n|]; tables; keys; [|done]. rewrite Hn, <- Hexp. f_equal. by apply Hcn.
  - tables. keys. by apply revision_le.
  - rewrite fmap_insert, <- Hrows. destruct (expected_namespace capture) as [n|]; by tables.
  - intros l id. rewrite <- (committed_locators tx c capture file object row reg Hh Hrev l id).
    destruct (expected_namespace capture) as [n|]; by tables.
  - rewrite <- Hprep. destruct (expected_namespace capture) as [n|]; by tables.
  - by eapply committed_wf.
Qed.

Lemma advance_refines tx c :
  holds tx c ->
  refines (advance_wanted_revision tx)
    (next ← ok_or RevisionExhausted (checked_add U64_MAX (wanted c) 1);
     Ok (table_insert (table_open (table_open tx SOURCE_STATE) SOURCE_STATE) SOURCE_STATE WANTED_REVISION_KEY
           (le_bytes 8 next))).
Proof.
  intros (_ & _ & Hw & _). unfold advance_wanted_revision, write_wanted_revision. apply refines_assoc.
  eapply refines_bind_ok; [apply refines_open_write; auto with eliot|]. apply refines_assoc.
  eapply refines_bind_ok; [apply refines_get; auto with eliot|]. tables. rewrite Hw. apply refines_assoc.
  rewrite lift_ok_bind. apply refines_seq_ret. apply refines_bind; [apply refines_lift|]. intros next _.
  eapply refines_bind_ok; [apply refines_open_write; auto with eliot|]. apply refines_insert. auto with eliot.
Qed.

(** The same, where only the revision key matters. *)
Lemma advance_refines_wanted tx v :
  revision_value (rows_of tx SOURCE_STATE !! WANTED_REVISION_KEY) = Ok v ->
  refines (advance_wanted_revision tx)
    (next ← ok_or RevisionExhausted (checked_add U64_MAX v 1);
     Ok (table_insert (table_open (table_open tx SOURCE_STATE) SOURCE_STATE) SOURCE_STATE WANTED_REVISION_KEY
           (le_bytes 8 next))).
Proof.
  intros Hw. unfold advance_wanted_revision, write_wanted_revision. apply refines_assoc.
  eapply refines_bind_ok; [apply refines_open_write; auto with eliot|]. apply refines_assoc.
  eapply refines_bind_ok; [apply refines_get; auto with eliot|]. tables. rewrite Hw. apply refines_assoc.
  rewrite lift_ok_bind. apply refines_seq_ret. apply refines_bind; [apply refines_lift|]. intros next _.
  eapply refines_bind_ok; [apply refines_open_write; auto with eliot|]. apply refines_insert. auto with eliot.
Qed.

(** [prepare_source] in terms of the specification. *)
Definition prepare_spec tx c capture file object : result SourceControlError (CurrentSourceRecord * option D) :=
  revisions ← revisions_spec c capture;
  let '(row, registration) := revisions in
  match unchanged c capture file object with
  | Some current => Ok (current, None)
  | None =>
      let record := committed_row capture file object row registration in
      encoded ← encode_record record;
      next ← ok_or RevisionExhausted (checked_add U64_MAX (wanted c) 1);
      Ok (record, Some (committed_tx (opened (opened tx)) capture encoded next))
  end.

Lemma prepare_refines tx c capture file object :
  holds tx c -> refines (prepare_source tx capture file object) (prepare_spec tx c capture file object).
Proof.
  intros Hh. unfold prepare_source, prepare_spec.
  pose proof (revisions_refines tx c capture Hh) as Hrev.
  destruct (revisions_spec c capture) as [[row reg]|e] eqn:Hspec; cbn [mbind result_bind] in *;
    [|by eapply refines_bind_err].
  eapply refines_bind_ok; [exact Hrev|]. apply opened_refines.
  pose proof (holds_opened _ _ (holds_opened _ _ Hh)) as Hh'. pose proof Hh' as (_ & _ & Hw & _ & _ & _ & Hwf).
  destruct (revisions_cases c capture row reg Hwf Hspec) as (_ & _ & _ & Hcase).
  apply (refines_bind_ok _ (unchanged c capture file object)).
  { unfold unchanged. destruct (expected_row_revision capture) as [er|] eqn:Her; [|apply refines_ret].
    destruct Hcase as [(? & _)|(cur & _ & _ & Hcur & _)]; [done|].
    eapply refines_bind_ok; [apply refines_get; auto with eliot|].
    destruct (proj1 (proj2 (proj2 Hwf)) _ _ Hcur) as (_ & _ & Hok).
    rewrite (rows_lookup _ c _ Hh'), Hcur. cbn [fmap option_fmap option_map ok_or]. rewrite lift_ok_bind.
    rewrite (decode_row cur Hok), lift_ok_bind. apply refines_ret. }
  destruct (unchanged c capture file object) as [cur|]; [apply refines_ret|]. cbv zeta.
  fold (committed_row capture file object row reg).
  destruct (encode_record (committed_row capture file object row reg)) as [bytes|e]; cbn [mbind result_bind];
    [rewrite lift_ok_bind|apply refines_lift].
  set (tx0 := opened (opened tx)) in *.
  apply (refines_bind_ok _ (match expected_namespace capture with
    | None => table_insert (table_insert tx0 SOURCE_STATE SCHEMA_VERSION_KEY SOURCE_SCHEMA_VERSION)
                SOURCE_STATE NAMESPACE_KEY (source_capture_namespace capture)
    | Some _ => tx0
    end)).
  { destruct (expected_namespace capture); [apply refines_ret|].
    eapply refines_bind_ok; [apply refines_insert; auto with eliot|]. apply refines_insert. auto with eliot. }
  set (tx1 := match expected_namespace capture with Some _ => _ | None => _ end).
  assert (rows_of tx1 SOURCE_STATE !! WANTED_REVISION_KEY = rows_of tx0 SOURCE_STATE !! WANTED_REVISION_KEY) as Hkeep.
  { unfold tx1. destruct (expected_namespace capture); [done|]. tables. by keys. }
  eapply refines_bind_ok; [apply refines_insert; auto with eliot|].
  eapply refines_bind_ok; [apply refines_insert; auto with eliot|].
  pose proof (advance_refines_wanted (table_insert (table_insert tx1 SOURCE_ROWS (source_capture_id capture) bytes)
    SOURCE_LOCATORS (source_capture_locator capture) (source_capture_id capture)) (wanted c)) as Hadv.
  specialize (Hadv ltac:(tables; by rewrite Hkeep)).
  destruct (ok_or RevisionExhausted (checked_add U64_MAX (wanted c) 1)) as [next|e]; cbn [mbind result_bind] in *.
  - eapply refines_bind_ok; [exact Hadv|]. apply refines_ret.
  - by eapply refines_bind_err.
Qed.

Lemma names_opened tx : names_of (opened tx) = core_names ∪ names_of tx.
Proof.
  unfold opened. rewrite !names_open. unfold core_names. rewrite !list_to_set_cons'. cbn [list_to_set].
  generalize SOURCE_STATE SOURCE_ROWS SOURCE_LOCATORS. intros a b e. set_solver.
Qed.

Lemma multimaps_opened tx : list_multimap_tables (opened tx) = list_multimap_tables tx.
Proof. unfold opened. by rewrite !open_multimaps. Qed.

Lemma core_source : core_names ⊆ source_names.
Proof. rewrite source_names_split. apply union_subseteq_l. Qed.

(** Writing to core tables of a transaction whose tables are open changes no name. *)
Lemma names_core_insert tx n k v :
  n ∈ core_names -> core_names ⊆ names_of tx -> names_of (table_insert tx n k v) = names_of tx.
Proof. intros Hn Hc. rewrite names_insert. set_solver. Qed.
Lemma names_core_open tx n : n ∈ core_names -> core_names ⊆ names_of tx -> names_of (table_open tx n) = names_of tx.
Proof. intros Hn Hc. rewrite names_open. set_solver. Qed.

Lemma core_insert tx n k v : core_names ⊆ names_of tx -> core_names ⊆ names_of (table_insert tx n k v).
Proof. intros Hc. rewrite names_insert. set_solver. Qed.
Lemma core_open tx n : core_names ⊆ names_of tx -> core_names ⊆ names_of (table_open tx n).
Proof. intros Hc. rewrite names_open. set_solver. Qed.

Lemma names_committed tx capture encoded next :
  names_of (committed_tx (opened tx) capture encoded next) = core_names ∪ names_of tx.
Proof.
  assert (core_names ⊆ names_of (opened tx)) as Hc by (rewrite names_opened; apply union_subseteq_l).
  unfold committed_tx. destruct (expected_namespace capture); cbv zeta;
    repeat first [rewrite names_core_insert | rewrite names_core_open];
    first [apply names_opened | auto 20 using state_core, rows_core, locators_core, core_insert, core_open].
Qed.

Lemma multimaps_committed tx capture encoded next :
  list_multimap_tables (committed_tx (opened tx) capture encoded next) = list_multimap_tables tx.
Proof.
  unfold committed_tx. destruct (expected_namespace capture); cbv zeta;
    by rewrite ?insert_multimaps, ?open_multimaps, ?insert_multimaps, ?multimaps_opened.
Qed.

(** The prepared transaction stands for the specified next corpus. *)
Lemma prepare_represents d c capture file object :
  represents d c -> capture_wf capture -> content_ok file object ->
  match commit_spec c capture file object with
  | Err e => prepare_spec d c capture file object = Err e
  | Ok (record, None) => prepare_spec d c capture file object = Ok (record, None)
  | Ok (record, Some c') =>
      exists tx, prepare_spec d c capture file object = Ok (record, Some tx) /\ represents tx c'
  end.
Proof.
  intros (Hm & Hcat & Hh) Hcap Hcontent. unfold commit_spec, prepare_spec.
  destruct (revisions_spec c capture) as [[row reg]|e] eqn:Hrev; cbn [mbind result_bind]; [|done].
  destruct (unchanged c capture file object) as [cur|]; [done|]. cbv zeta.
  destruct (encode_record (committed_row capture file object row reg)) as [bytes|e] eqn:Henc; cbn [mbind result_bind]; [|done].
  destruct (checked_add U64_MAX (wanted c) 1) as [next|] eqn:Hnext; cbn [ok_or mbind result_bind]; [|done].
  apply checked_add_inv in Hnext as [-> Hmax].
  assert (0 <= wanted c + 1 <= U64_MAX) as Hn by (destruct Hh as (_ & _ & _ & _ & _ & _ & _ & ? & _); lia).
  eexists. split; [reflexivity|]. split_and!.
  - by rewrite multimaps_committed, multimaps_opened.
  - rewrite names_committed, names_opened. rewrite (assoc_L (∪)), (idemp_L (∪)).
    change (initialized _) with true. eapply catalogue_grow; [exact Hcat|apply core_source|by right].
  - eapply holds_committed; try done. by do 2 apply holds_opened.
Qed.
End Transactions.
