(* ===== verification/ControlState.v ===== *)
(** Commits, removals and histories of the current-source database: what each answer says
    of the committed state, under every environment. *)

From stdpp Require Import gmap.
From S2P Require Import Prelude Bytes Ids Registry SourceRow Database Control ControlSpec ControlRefine.

Section State.
Context {D : Type} `{Redb D}.
Implicit Types (d tx : D) (c : corpus).

Lemma commit_cases {E} d tx (w : env) :
  exists b d' w', commit d tx w = (@Ok E _ (b, d'), w') /\
    (if b then d' = tx else d' = d \/ d' = tx) /\ (calm w -> b = true /\ calm w').
Proof.
  unfold commit. destruct w as [|o w]; cbn.
  - exists true, tx, []. by split_and!.
  - destruct o; eexists _, _, _; (split; [reflexivity|]); (split; [auto|]);
      intros Hc; apply Forall_cons in Hc as [Ho Hc]; done.
Qed.

Lemma check_refines : refines source_check (Ok tt).
Proof. unfold source_check. apply refines_check; auto with eliot. Qed.
Lemma call_refines e : interrupt e -> refines (call e) (Ok tt).
Proof. apply refines_call. Qed.

(** The possible results of [commit_source_database]. *)
Lemma commit_outcome d c capture file object w :
  represents d c -> capture_wf capture -> content_ok file object ->
  match run (commit_source_database d capture file object) w with
  | Ok (record, (confirmed, d')) =>
      exists next, commit_spec c capture file object = Ok (record, next) /\
        (represents d' (default c next) \/ (confirmed = false /\ d' = d)) /\
        (confirmed = false -> next <> None) /\ (calm w -> confirmed = true)
  | Err e => commit_spec c capture file object = Err e \/ (interrupt e /\ ~ calm w)
  end.
Proof.
  intros Hr Hcap Hcontent. unfold commit_source_database.
  pose (P r := match r with
    | Ok (record, (confirmed, d')) =>
        exists next, commit_spec c capture file object = Ok (record, next) /\
          (represents d' (default c next) \/ (confirmed = false /\ d' = d)) /\
          (confirmed = false -> next <> None) /\ (calm w -> confirmed = true)
    | Err e => commit_spec c capture file object = Err e \/ (interrupt e /\ ~ calm w)
    end). change (P (run (commit_source_database d capture file object) w)). unfold commit_source_database.
  apply (run_then _ tt); [apply check_refines|by intros e He Hc; right; tauto|intros w1 H1].
  apply (run_then _ tt); [apply call_refines; auto with eliot|by intros e He Hc; right; tauto|intros w2 H2].
  apply (run_then _ tt); [apply check_refines|by intros e He Hc; right; tauto|intros w3 H3].
  pose proof (prepare_refines d c capture file object (proj2 (proj2 Hr))) as Hprep.
  pose proof (prepare_represents d c capture file object Hr Hcap Hcontent) as Hspec.
  destruct (commit_spec c capture file object) as [[record [c'|]]|e] eqn:Hcs.
  - destruct Hspec as (tx & Hps & Htx). rewrite Hps in Hprep.
    apply (run_then _ (record, Some tx)); [exact Hprep|by intros e He Hc; right; tauto|intros w4 H4].
    apply (run_then _ tt); [apply check_refines|by intros e He Hc; right; tauto|intros w5 H5].
    destruct (commit_cases (E := SourceControlError) d tx w5) as (b & d' & w6 & Hcommit & Hb & Hcalm).
    unfold run, mbind, M_bind. rewrite Hcommit. cbn. exists (Some c'). split; [done|]. split; [|split; [done|]].
    + destruct b; [by rewrite Hb; left|]. destruct Hb as [-> | -> ]; [by right|by left].
    + intros Hw. apply Hcalm. tauto.
  - rewrite Hspec in Hprep. apply (run_then _ (record, None)); [exact Hprep|by intros e He Hc; right; tauto|intros w4 H4].
    exists None. split; [done|]. split; [by left|]. by split.
  - rewrite Hspec in Hprep. destruct (refines_stop _ _ (fun prepared => match prepared with
      | (current, None) => mret (current, (true, d))
      | (record, Some tx) => _ ← source_check; committed ← commit d tx; mret (record, committed)
      end) w3 Hprep) as [E|(e' & E & Hi & Hc)]; unfold P; cbv beta in *.
    + rewrite E. by left.
    + rewrite E. right. split; [done|]. tauto.
Qed.
(** ** Removal *)

Definition stored_in c (s : CurrentSourceRecord) : Prop := sources c !! source_id s = Some s.
#[local] Instance stored_in_dec c s : Decision (stored_in c s).
Proof. unfold stored_in. apply _. Defined.

(** The state without one source, or with another wanted revision. *)
Definition drop_source c (s : CurrentSourceRecord) : corpus :=
  {| namespace := namespace c; sources := delete (source_id s) (sources c);
     prepared_rows := delete (source_id s) (prepared_rows c); wanted := wanted c |}.

Lemma drop_source_stored c s l :
  source_id s ∉ source_id <$> l -> Forall (stored_in c) l -> Forall (stored_in (drop_source c s)) l.
Proof.
  intros Hn Hl. apply Forall_forall. intros r Hr. rewrite Forall_forall in Hl. unfold stored_in, drop_source. cbn.
  rewrite lookup_delete_ne; [by apply Hl|]. intros E. apply Hn. apply list_elem_of_fmap. by exists r.
Qed.

Lemma removed_cons c s l next : removed c (s :: l) next = removed (drop_source c s) l next.
Proof. done. Qed.
Lemma removed_nil c : removed c [] (wanted c) = c.
Proof. by destruct c. Qed.

Lemma drop_source_wf c s : corpus_wf c -> corpus_wf (drop_source c s).
Proof.
  intros (H1 & H2 & H3 & H4). unfold drop_source. split; [done|]. split; [done|]. split; cbn.
  - intros id r Hr. apply lookup_delete_Some in Hr as [_ Hr]. by apply H3.
  - intros i j r t Hr Ht. apply lookup_delete_Some in Hr as [_ Hr]. apply lookup_delete_Some in Ht as [_ Ht].
    by apply (H4 i j r t).
Qed.

(** The transaction after one source is removed. *)
Definition dropped tx (s : CurrentSourceRecord) : D :=
  table_remove (table_open (table_remove (table_remove tx SOURCE_ROWS (source_id s)) SOURCE_LOCATORS (locator s))
    PREPARATIONS) PREPARATIONS (source_id s).

Lemma holds_dropped tx c s : holds tx c -> stored_in c s -> holds (dropped tx s) (drop_source c s).
Proof.
  intros (Hv & Hn & Hw & Hrows & Hloc & Hprep & Hwf) Hs. unfold dropped, holds. tables. cbn [namespace sources prepared_rows wanted drop_source].
  split; [done|]. split; [done|]. split; [done|]. split; [by rewrite Hrows, fmap_delete|].
  split; [|split; [by rewrite Hprep|by apply drop_source_wf]].
  intros l id. rewrite lookup_delete_Some, Hloc. destruct Hwf as (_ & _ & H3 & H4). split.
  - intros [Hl (r & Hr & Hrl)]. exists r. split; [|done]. rewrite lookup_delete_Some. split; [|done].
    intros E. unfold stored_in in Hs. rewrite E in Hs. congruence.
  - intros (r & Hr & Hrl). apply lookup_delete_Some in Hr as [Hid Hr]. split; [|eauto].
    intros Hl. apply Hid. apply (H4 _ _ s r); [done|done|congruence].
Qed.

(** What the verification loop asks of the rows to remove, given the identities seen. *)
Definition removable c (ids : gset (list Z)) (expected : list CurrentSourceRecord) : Prop :=
  (NoDup (source_id <$> expected) /\ Forall (fun s => source_id s ∉ ids) expected) /\ Forall (stored_in c) expected.
#[local] Instance removable_dec c ids expected : Decision (removable c ids expected).
Proof. unfold removable. apply _. Defined.

Lemma removable_cons c ids s l :
  removable c ids (s :: l) <-> (stored_in c s /\ source_id s ∉ ids) /\ removable c ({[source_id s]} ∪ ids) l.
Proof.
  unfold removable. rewrite fmap_cons, NoDup_cons, !Forall_cons, !Forall_forall, list_elem_of_fmap.
  setoid_rewrite not_elem_of_union. setoid_rewrite not_elem_of_singleton.
  split.
  - intros [[[Hn Hnd] [Hi Hf]] [Hs Hst]]. split; [done|]. split; [split; [done|]|done].
    intros x Hx. split; [|by apply Hf]. intros E. apply Hn. by exists x.
  - intros [[Hs Hi] [[Hnd Hf] Hst]]. split; [split; [split; [|done]|split; [done|]]|by split].
    + intros (r & E & Hr). destruct (Hf r Hr). congruence.
    + intros x Hx. by apply Hf.
Qed.

Lemma verify_refines tx c n ids locators expected :
  holds tx c -> namespace c = Some n ->
  (forall l, l ∈ locators -> exists id r, id ∈ ids /\ sources c !! id = Some r /\ locator r = l) ->
  refines (verify_sources tx n ids locators expected)
    (reject_if (negb (bool_decide (removable c ids expected))) Stale).
Proof.
  intros Hh Hn. pose proof Hh as (_ & _ & _ & _ & _ & _ & (_ & _ & H3 & H4)).
  revert ids locators. induction expected as [|s expected IH]; intros ids locators Hl; cbn [verify_sources].
  { rewrite bool_decide_true; [apply refines_ret|]. repeat constructor. }
  apply refines_seq; [apply check_refines|].
  assert (~ (stored_in c s /\ source_id s ∉ ids) ->
    reject_if (negb (bool_decide (removable c ids (s :: expected)))) Stale = Err Stale) as Hbad.
  { intros Hx. rewrite bool_decide_false; [done|]. by intros [? _]%removable_cons. }
  apply refines_guard.
  { intros Hb. apply Hbad. intros [Hs Hi]. destruct (H3 _ _ Hs) as (_ & Hns & _).
    apply orb_true_iff in Hb as [Hb|Hb]; [apply orb_true_iff in Hb as [Hb|Hb]|]; to_prop; [congruence|done|].
    destruct (Hl _ Hb) as (id & r & Hid & Hr & Hrl). assert (id = source_id s) by by apply (H4 _ _ r s). congruence. }
  intros Hb. apply orb_false_iff in Hb as [Hb Hb3]. apply orb_false_iff in Hb as [Hb1 Hb2]. to_prop.
  eapply refines_bind_ok; [apply refines_get; auto with eliot|]. rewrite (rows_lookup tx c) by done.
  destruct (sources c !! source_id s) as [r|] eqn:Hr; cbn [fmap option_fmap option_map ok_or];
    [|rewrite Hbad; [apply refines_fail|unfold stored_in; rewrite Hr; naive_solver]].
  rewrite lift_ok_bind. destruct (H3 _ _ Hr) as (Hid & _ & Hok). rewrite (decode_row r Hok), lift_ok_bind.
  apply refines_guard.
  { intros Hx. to_prop. apply Hbad. unfold stored_in. rewrite Hr. naive_solver. }
  intros Hx. to_prop. subst r. eapply refines_bind_ok; [apply refines_get; auto with eliot|].
  rewrite (locators_lookup tx c) by done.
  assert (locate c (locator s) = Some s) as -> by (apply locate_spec; [apply Hh|done]).
  cbn [fmap option_fmap option_map ok_or]. rewrite lift_ok_bind, bool_decide_true by done.
  cbn [negb reject_if]. rewrite lift_ok_bind.
  rewrite (bool_decide_ext _ (removable c ({[source_id s]} ∪ ids) expected)) by (rewrite removable_cons; naive_solver).
  apply IH. intros l Hin. apply elem_of_union in Hin as [Hin|Hin].
  - apply elem_of_singleton in Hin as ->. exists (source_id s), s. split; [set_solver|done].
  - destruct (Hl l Hin) as (id & r & ? & ? & ?). exists id, r. split; [set_solver|done].
Qed.

Lemma drops_refine tx c expected :
  holds tx c -> NoDup (source_id <$> expected) -> Forall (stored_in c) expected ->
  refines (remove_rows tx expected) (Ok (foldl dropped tx expected)) /\
  holds (foldl dropped tx expected) (removed c expected (wanted c)).
Proof.
  revert tx c. induction expected as [|s expected IH]; intros tx c Hh Hnd Hst; cbn [remove_rows foldl].
  { split; [apply refines_ret|]. by rewrite removed_nil. }
  cbn in Hnd. apply NoDup_cons in Hnd as [Hn Hnd]. apply Forall_cons in Hst as [Hs Hst].
  destruct (IH (dropped tx s) (drop_source c s)) as [IH1 IH2]; [by apply holds_dropped|done|by apply drop_source_stored|].
  split; [|by rewrite removed_cons].
  apply refines_seq; [apply check_refines|].
  eapply refines_bind_ok; [apply refines_remove; auto with eliot|]. rewrite (rows_lookup tx c), Hs by done.
  cbn [fmap option_fmap option_map]. rewrite bool_decide_false by done. cbn [reject_if]. rewrite lift_ok_bind.
  eapply refines_bind_ok; [apply refines_remove; auto with eliot|]. tables. rewrite (locators_lookup tx c) by done.
  assert (locate c (locator s) = Some s) as -> by (apply locate_spec; [apply Hh|done]).
  cbn [fmap option_fmap option_map]. rewrite bool_decide_false by done. cbn [reject_if]. rewrite lift_ok_bind.
  eapply refines_bind_ok; [|exact IH1]. unfold remove_source_preparation.
  eapply refines_bind_ok; [apply refines_open_write; auto with eliot|].
  eapply refines_bind_ok; [apply refines_remove; auto with eliot|]. apply refines_ret.
Qed.

Definition with_wanted c (next : Z) : corpus :=
  {| namespace := namespace c; sources := sources c; prepared_rows := prepared_rows c; wanted := next |}.
Definition advanced tx (next : Z) : D :=
  table_insert (table_open (table_open tx SOURCE_STATE) SOURCE_STATE) SOURCE_STATE WANTED_REVISION_KEY (le_bytes 8 next).

Lemma holds_advanced tx c next : holds tx c -> 0 <= next <= U64_MAX -> holds (advanced tx next) (with_wanted c next).
Proof.
  intros (Hv & Hn & Hw & Hrows & Hloc & Hprep & (W1 & W2 & W3)) Hnext. unfold advanced, holds. tables. keys.
  split; [done|]. split; [done|]. split; [by apply revision_le|]. split; [done|]. split; [done|]. split; [done|].
  by split.
Qed.

Lemma names_advanced tx next : core_names ⊆ names_of tx -> names_of (advanced tx next) = names_of tx.
Proof.
  intros Hc. unfold advanced. pose proof state_core as Hs. repeat first [rewrite names_core_insert | rewrite names_core_open];
    auto using core_open.
Qed.

Lemma names_dropped tx l :
  core_names ⊆ names_of tx -> exists X, X ⊆ {[PREPARATIONS]} /\ names_of (foldl dropped tx l) = X ∪ names_of tx.
Proof.
  revert tx. induction l as [|s l IH]; intros tx Hc; cbn [foldl]; [exists ∅; split; set_solver|].
  assert (names_of (dropped tx s) = {[PREPARATIONS]} ∪ names_of tx) as Hs.
  { unfold dropped. rewrite !names_remove, names_open, !names_remove. pose proof rows_core. pose proof locators_core.
    generalize dependent core_names. generalize PREPARATIONS SOURCE_ROWS SOURCE_LOCATORS. set_solver. }
  destruct (IH (dropped tx s)) as (X & HX & ->); [rewrite Hs; set_solver|].
  exists (X ∪ {[PREPARATIONS]}). rewrite Hs. split; [set_solver|by rewrite (assoc_L (∪))].
Qed.

Lemma multimaps_dropped tx l : list_multimap_tables (foldl dropped tx l) = list_multimap_tables tx.
Proof.
  revert tx. induction l as [|s l IH]; intros tx; cbn [foldl]; [done|]. rewrite IH. unfold dropped.
  by rewrite !remove_multimaps, open_multimaps, !remove_multimaps.
Qed.

(** The transaction of a removal, and the state it stands for. *)
Lemma removal_prepared d c expected :
  represents d c ->
  match removal_spec c expected with
  | Ok c' => exists tx, refines (prepare_removal d expected) (Ok tx) /\ represents tx c'
  | Err e => refines (prepare_removal d expected) (Err e)
  end.
Proof.
  intros (Hm & Hcat & Hh). pose proof (holds_opened d c Hh) as Ho. pose proof Hh as (Hv & Hns & _ & _ & _ & _ & Hwf).
  assert (forall r, (forall n, namespace c = Some n ->
      refines (_ ← verify_sources (opened d) n ∅ ∅ expected; tx ← remove_rows (opened d) expected; advance_wanted_revision tx) r) ->
    (namespace c = None -> r = Err Stale) -> refines (prepare_removal d expected) r) as Hstart.
  { intros r Hsome Hnone. unfold prepare_removal. eapply refines_bind_ok; [apply refines_open_write; auto with eliot|].
    eapply refines_bind_ok; [apply refines_get; auto with eliot|]. rewrite rows_open, Hv.
    destruct (namespace c) as [n|] eqn:Hn; cbn [fmap option_fmap option_map ok_or]; [|rewrite Hnone by done; apply refines_fail].
    rewrite lift_ok_bind. eapply refines_bind_ok; [apply refines_get; auto with eliot|]. rewrite rows_open, Hns.
    cbn [ok_or]. rewrite lift_ok_bind, bool_decide_true by done. cbn [negb reject_if].
    rewrite lift_ok_bind, (namespace_array c n), lift_ok_bind by done.
    eapply refines_bind_ok; [apply refines_open_write; auto with eliot|].
    eapply refines_bind_ok; [apply refines_open_write; auto with eliot|]. by apply Hsome. }
  unfold removal_spec. destruct (namespace c) as [n|] eqn:Hn; [|apply Hstart; congruence].
  pose proof (fun r => verify_refines (opened d) c n ∅ ∅ r Ho Hn ltac:(set_solver)) as Hverify.
  assert (removable c ∅ expected <-> NoDup (source_id <$> expected) /\ Forall (fun r => sources c !! source_id r = Some r) expected) as Hrem.
  { unfold removable, stored_in. assert (Forall (fun s => source_id s ∉ (∅ : gset (list Z))) expected)
      by (apply Forall_forall; set_solver). naive_solver. }
  specialize (Hverify expected). destruct (decide (removable c ∅ expected)) as [Hgood|Hgood].
  2: { rewrite bool_decide_false in Hverify by done. rewrite bool_decide_false by (by rewrite <- Hrem).
       apply Hstart; [intros n' [= <-]|congruence]. by apply refines_bind_err. }
  rewrite bool_decide_true in Hverify by done. rewrite bool_decide_true by (by rewrite <- Hrem).
  cbn [negb reject_if mbind result_bind] in *. destruct (proj1 Hrem Hgood) as [Hnd Hst]. destruct (drops_refine (opened d) c expected Ho Hnd Hst) as [Hrows Hholds].
  pose proof (advance_refines _ _ Hholds) as Hadv. cbn [wanted removed] in Hadv.
  assert (forall r, refines (advance_wanted_revision (foldl dropped (opened d) expected)) r ->
    refines (prepare_removal d expected) r) as Hrun.
  { intros r Hr. apply Hstart; [|congruence]. intros n' [= <-]. eapply refines_bind_ok; [exact Hverify|].
    by eapply refines_bind_ok. }
  destruct (checked_add U64_MAX (wanted c) 1) as [next|] eqn:Hnext; cbn [ok_or mbind result_bind] in *; [|by apply Hrun].
  apply checked_add_inv in Hnext as [-> Hnext]. pose proof (proj1 (proj2 Hwf)) as Hw.
  eexists. split; [apply Hrun; exact Hadv|]. fold (advanced (foldl dropped (opened d) expected) (wanted c + 1)).
  assert (core_names ⊆ names_of (opened d)) as Hcore by (rewrite names_opened; apply union_subseteq_l).
  destruct (names_dropped (opened d) expected Hcore) as (X & HX & HnX). split; [|split].
  - unfold advanced. by rewrite insert_multimaps, !open_multimaps, multimaps_dropped, multimaps_opened.
  - rewrite names_advanced by (rewrite HnX; etrans; [exact Hcore|apply union_subseteq_r]).
    rewrite HnX, names_opened, (assoc_L (∪)). rewrite (initialized_some c n Hn) in Hcat.
    rewrite (initialized_some (removed c expected (wanted c + 1)) n) by done.
    eapply catalogue_grow; [exact Hcat| |by left]. rewrite source_names_split. set_solver.
  - apply (holds_advanced _ _ (wanted c + 1)) in Hholds; [exact Hholds|lia].
Qed.

(** What [remove_sources_database] answers, and the state to commit unless nothing is
    asked of it. *)
Definition removal_answer c expected : result SourceControlError (option corpus) :=
  if bool_decide (expected = []) then Ok None
  else
    _ ← reject_if (MAX_CURRENT_SOURCES <? len expected) InventoryLimit;
    c' ← removal_spec c expected;
    Ok (Some c').

Lemma removal_outcome d c expected w :
  represents d c ->
  match run (remove_sources_database d expected) w with
  | Ok (confirmed, d') =>
      exists next, removal_answer c expected = Ok next /\
        (represents d' (default c next) \/ (confirmed = false /\ d' = d)) /\
        (confirmed = false -> next <> None) /\ (calm w -> confirmed = true)
  | Err e => removal_answer c expected = Err e \/ (interrupt e /\ ~ calm w)
  end.
Proof.
  intros Hr.
  pose (P r := match r with
    | Ok (confirmed, d') =>
        exists next, removal_answer c expected = Ok next /\
          (represents d' (default c next) \/ (confirmed = false /\ d' = d)) /\
          (confirmed = false -> next <> None) /\ (calm w -> confirmed = true)
    | Err e => removal_answer c expected = Err e \/ (interrupt e /\ ~ calm w)
    end). change (P (run (remove_sources_database d expected) w)).
  pose proof (removal_prepared d c expected Hr) as Hp. unfold remove_sources_database, removal_answer in *.
  case_bool_decide; [exists None; split; [done|]; split; [by left|]; by split|].
  destruct (MAX_CURRENT_SOURCES <? len expected); [by left|]. cbn [reject_if mbind result_bind] in *. rewrite lift_ok_bind.
  apply (run_then _ tt); [apply check_refines|by intros e He Hc; right; tauto|intros w1 H1].
  apply (run_then _ tt); [apply call_refines; auto with eliot|by intros e He Hc; right; tauto|intros w2 H2].
  apply (run_then _ tt); [apply check_refines|by intros e He Hc; right; tauto|intros w3 H3].
  destruct (removal_spec c expected) as [c'|e] eqn:Hs.
  - destruct Hp as (tx & Htx & Hrep).
    apply (run_then _ tx); [exact Htx|by intros e He Hc; right; tauto|intros w4 H4].
    apply (run_then _ tt); [apply check_refines|by intros e He Hc; right; tauto|intros w5 H5].
    destruct (commit_cases (E := SourceControlError) d tx w5) as (b & d' & w6 & Hcommit & Hb & Hcalm).
    unfold run. rewrite Hcommit. cbn. exists (Some c'). split; [done|]. split; [|split; [done|]].
    + destruct b; [by rewrite Hb; left|]. destruct Hb as [-> | -> ]; [by right|by left].
    + intros Hw. apply Hcalm. tauto.
  - destruct (refines_stop _ _ (fun tx => _ ← source_check; commit d tx) w3 Hp) as [E|(e' & E & Hi & Hc)];
      unfold P; cbv beta in *; rewrite E; [by left|right; tauto].
Qed.

End State.
