(* ===== verification/ControlSample.v ===== *)
(** Concrete control databases, over the map-of-maps store: a new one, and the one left by
    registering a source in it. *)

From stdpp Require Import gmap.
From S2P Require Import Prelude Bytes Ids Registry SourceRow Database Control ControlSpec ControlRefine ControlState.

Definition empty_store : store := {| store_tables := {[META_TABLE_NAME := ∅]}; store_multimaps := [] |}.
Definition empty_corpus : corpus := {| namespace := None; sources := ∅; prepared_rows := ∅; wanted := 0 |}.

Lemma empty_represents : represents empty_store empty_corpus.
Proof.
  split; [done|]. split.
  - split; [right; apply (bool_decide_eq_true_1 _); vm_compute; reflexivity|].
    change (initialized empty_corpus) with false. apply (bool_decide_eq_true_1 _). vm_compute. reflexivity.
  - split; [done|]. split; [done|]. split; [done|]. split; [done|]. split; [|split; [done|]].
    + intros l id. split; [done|]. by intros (r & Hr & _).
    + split; [done|]. split; [cbn; width|]. by split.
Qed.

Definition sample_namespace : list Z := repeat 1 16.
Definition sample_id : list Z := repeat 2 16.
Definition sample_locator : list Z := str "/notes/a.txt".
Definition sample_capture : SourceCapture :=
  capture_spec empty_corpus sample_locator sample_namespace sample_id.
Definition sample_file : NativeFileKey := Unix 7 11.
Definition sample_object : ObjectRef := source_ref (repeat 9 32) 5.
Definition sample_record : CurrentSourceRecord := committed_row sample_capture sample_file sample_object 1 1.
Definition sample_corpus : corpus :=
  {| namespace := Some sample_namespace; sources := {[sample_id := sample_record]}; prepared_rows := ∅; wanted := 1 |}.
Definition sample_store : store :=
  match run (commit_source_database empty_store sample_capture sample_file sample_object) [] with
  | Ok (_, (_, d)) => d
  | Err _ => empty_store
  end.

Lemma sample_capture_wf : capture_wf sample_capture.
Proof.
  unfold capture_wf, sample_capture. cbn. split_and!; try (by apply (bool_decide_eq_true_1 _); vm_compute); try done.
Qed.

Lemma sample_content : content_ok sample_file sample_object.
Proof.
  unfold content_ok, object_wf, Digest.wf. cbn. unfold SOURCE_OBJECT_FORMAT_VERSION, MAX_SOURCE_OBJECT_BYTES.
  split_and!; try (by apply (bool_decide_eq_true_1 _); vm_compute); try done; width.
Qed.

Lemma sample_commit : commit_spec empty_corpus sample_capture sample_file sample_object = Ok (sample_record, Some sample_corpus).
Proof. vm_compute. reflexivity. Qed.

Lemma sample_represents : represents sample_store sample_corpus.
Proof.
  pose proof (commit_outcome empty_store empty_corpus sample_capture sample_file sample_object []
    empty_represents sample_capture_wf sample_content) as Hout.
  unfold sample_store. rewrite sample_commit in Hout.
  destruct (run _ []) as [[record [b d]]|e].
  - destruct Hout as (next & [= <- <-] & [Hd|[-> _]] & _ & Hb); [exact Hd|]. by specialize (Hb ltac:(constructor)).
  - destruct Hout as [Hout|[_ Hc]]; [done|]. destruct Hc. constructor.
Qed.
