(* ===== verification/ControlInventory.v ===== *)
(** The whole inventory of current sources as one read: the row loop, the locator loop and
    the bounds on both, against the rows of the corpus in the order of their identities. *)

From Stdlib Require Import Sorted.
From stdpp Require Import gmap sorting.
From S2P Require Import Prelude Bytes Ids Registry SourceRow Database Control ControlSpec ControlRefine ControlState ControlSample.

(** ** The rows of a corpus in order *)

Definition id_le (a b : CurrentSourceRecord) : Prop := bytes_compare (source_id a) (source_id b) <> Gt.
#[export] Instance id_le_dec a b : Decision (id_le a b).
Proof. unfold id_le. apply _. Defined.

Definition listing (c : corpus) : list CurrentSourceRecord := merge_sort id_le (snd <$> map_to_list (sources c)).

Definition row_charge (r : CurrentSourceRecord) : Z := len (stored_row r) + len (locator r).
Definition charges (l : list CurrentSourceRecord) : Z := foldr (fun r n => row_charge r + n) 0 l.

Lemma charges_cons r l : charges (r :: l) = row_charge r + charges l.
Proof. done. Qed.
Lemma charges_nonneg l : 0 <= charges l.
Proof. induction l; [done|]. rewrite charges_cons. unfold row_charge, len. lia. Qed.

(** What [capture_sources_database] reads. *)
Definition inventory_spec (c : corpus) : result SourceControlError (list CurrentSourceRecord) :=
  _ ← reject_if ((MAX_CURRENT_SOURCES <? len (listing c)) || (MAX_CURRENT_SOURCE_BYTES <? charges (listing c)))
        InventoryLimit;
  Ok (listing c).

Lemma listing_in c r : corpus_wf c -> r ∈ listing c <-> sources c !! source_id r = Some r.
Proof.
  intros (_ & _ & Hrow & _). unfold listing. rewrite merge_sort_Permutation, list_elem_of_fmap. split.
  - intros ([id r'] & -> & Hin). apply elem_of_map_to_list in Hin. cbn. by destruct (Hrow _ _ Hin) as (-> & _).
  - intros Hr. exists (source_id r, r). split; [done|]. by apply elem_of_map_to_list.
Qed.

Lemma listing_ids c : corpus_wf c -> NoDup (source_id <$> listing c).
Proof.
  intros (_ & _ & Hrow & _). unfold listing. rewrite merge_sort_Permutation, <- list_fmap_compose.
  assert (source_id ∘ snd <$> map_to_list (sources c) = fst <$> map_to_list (sources c)) as ->;
    [|apply NoDup_fst_map_to_list].
  apply list_fmap_ext. intros i [id r] Hi. apply list_elem_of_lookup_2, elem_of_map_to_list in Hi. cbn. by apply Hrow.
Qed.

#[export] Instance id_le_total : Total id_le.
Proof. intros a b. exact (key_le_total (source_id a, []) (source_id b, [])). Qed.
#[export] Instance id_le_trans : Transitive id_le.
Proof. intros a b c. exact (key_le_trans (source_id a, []) (source_id b, []) (source_id c, [])). Qed.

Lemma listing_sorted c : StronglySorted id_le (listing c).
Proof. apply StronglySorted_merge_sort; apply _. Qed.

Lemma listing_strict c :
  corpus_wf c -> StronglySorted (fun a b => bytes_lt (source_id a) (source_id b) = true) (listing c).
Proof.
  intros Hwf. pose proof (listing_sorted c) as Hs. pose proof (listing_ids c Hwf) as Hn.
  induction Hs as [|r l Hs IH Hr]; [constructor|]. cbn in Hn. apply NoDup_cons in Hn as [Hn Hnd].
  constructor; [by apply IH|]. apply Forall_forall. intros s Hin. rewrite Forall_forall in Hr. specialize (Hr s Hin).
  unfold id_le, bytes_lt in *. destruct (bytes_compare (source_id r) (source_id s)) eqn:E; [|done|done].
  apply bytes_compare_eq in E. destruct Hn. rewrite E. by apply list_elem_of_fmap_2.
Qed.

Definition row_item (r : CurrentSourceRecord) : list Z * list Z := (source_id r, stored_row r).

Lemma listing_items c : corpus_wf c -> StronglySorted key_lt (row_item <$> listing c).
Proof.
  intros Hwf. induction (listing_strict c Hwf) as [|r l Hs IH Hr]; constructor; [done|].
  by apply Forall_fmap.
Qed.

Section Inventory.
Context {D : Type} `{Redb D}.
Implicit Types (d : D) (c : corpus).

Lemma rows_iter d c : holds d c -> table_iter d SOURCE_ROWS = row_item <$> listing c.
Proof.
  intros Hh. pose proof Hh as (_ & _ & _ & Hrows & _ & _ & Hwf). apply table_iter_eq; [by apply listing_items|].
  intros k v. rewrite Hrows, lookup_fmap, fmap_Some, list_elem_of_fmap. split.
  - intros (r & [= -> ->] & Hr). apply listing_in in Hr; [|done]. eauto.
  - intros (r & Hr & ->). exists r. destruct Hwf as (? & ? & Hrow & ?). destruct (Hrow _ _ Hr) as (<- & _). split; [done|].
    by apply listing_in.
Qed.

(** The reverse index the row loop builds. *)
Definition reverse_index (l : list CurrentSourceRecord) (m : gmap (list Z) (list Z)) : gmap (list Z) (list Z) :=
  foldl (fun m r => <[source_id r := locator r]> m) m l.

Lemma inventory_rows_refines d c n l charged reverse acc :
  holds d c -> namespace c = Some n -> Forall (stored_in c) l -> 0 <= charged <= MAX_CURRENT_SOURCE_BYTES ->
  len acc <= MAX_CURRENT_SOURCES ->
  refines (inventory_rows d n (row_item <$> l) charged reverse acc)
    (_ ← reject_if ((MAX_CURRENT_SOURCES <? len acc + len l) || (MAX_CURRENT_SOURCE_BYTES <? charged + charges l))
           InventoryLimit;
     Ok (reverse_index l reverse, acc ++ l)).
Proof.
  intros Hh Hn. pose proof Hh as (_ & _ & _ & _ & _ & _ & (Hns & _ & Hrow & _)) .
  revert charged reverse acc. induction l as [|r l IH]; intros charged reverse acc Hl Hc Ha; cbn [fmap list_fmap inventory_rows].
  { unfold len in *. cbn [length charges foldr]. rewrite reject_if_false by solve_bool.
    cbn [mbind result_bind reverse_index foldl]. rewrite app_nil_r. apply refines_ret. }
  apply Forall_cons in Hl as [Hr Hl]. destruct (Hrow _ _ Hr) as (_ & Hrn & Hok).
  destruct (stored_row_bytes r Hok) as [_ Hlen]. pose proof Hok as (_ & (_ & _ & _ & _ & Hlr) & _).
  assert (0 <= len (stored_row r)) by (unfold len; lia). assert (0 <= len (locator r)) by (unfold len; lia).
  pose proof (charges_nonneg l) as Hpos. pose proof (charges_cons r l) as Hch. unfold row_charge in Hch.
  assert (len (r :: l) = 1 + len l) as Hcount by (unfold len; cbn; lia).
  unfold row_item at 1. apply refines_seq; [apply check_refines|]. apply refines_seq; [apply call_refines; auto with eliot|].
  rewrite checked_add_some by (unfold MAX_CURRENT_SOURCE_BYTES in *; width). cbn [ok_or]. rewrite lift_ok_bind.
  rewrite Hch, Hcount.
  destruct ((MAX_CURRENT_SOURCES <=? len acc) || (MAX_CURRENT_SOURCE_BYTES <? charged + len (stored_row r))) eqn:Hb1.
  { cbn [reject_if]. assert ((MAX_CURRENT_SOURCES <? len acc + (1 + len l))
      || (MAX_CURRENT_SOURCE_BYTES <? charged + (len (stored_row r) + len (locator r) + charges l)) = true) as ->.
    { apply orb_true_iff in Hb1 as [Hb1|Hb1]; to_prop; apply orb_true_iff; [left|right]; solve_bool.
      unfold len in *. lia. }
    apply refines_fail. }
  to_prop. cbn [reject_if]. rewrite lift_ok_bind, (decode_row r Hok), lift_ok_bind.
  rewrite (bool_decide_true (source_id r = source_id r)), (bool_decide_true (source_namespace_id r = n)) by congruence.
  cbn [negb orb reject_if]. rewrite lift_ok_bind. eapply refines_bind_ok; [apply refines_get; auto with eliot|].
  rewrite (locators_lookup d c) by done.
  assert (locate c (locator r) = Some r) as -> by (apply locate_spec; [apply Hh|done]).
  cbn [fmap option_fmap option_map ok_or]. rewrite lift_ok_bind, bool_decide_true by done.
  cbn [negb reject_if]. rewrite lift_ok_bind.
  rewrite checked_add_some by (unfold MAX_CURRENT_SOURCE_BYTES, MAX_LOCATOR_BYTES in *; width). cbn [ok_or]. rewrite lift_ok_bind.
  destruct (MAX_CURRENT_SOURCE_BYTES <? charged + len (stored_row r) + len (locator r)) eqn:Hb2.
  { cbn [reject_if]. to_prop.
    is_true (MAX_CURRENT_SOURCE_BYTES <? charged + (len (stored_row r) + len (locator r) + charges l)).
    rewrite orb_true_r. apply refines_fail. }
  to_prop. cbn [reject_if]. rewrite lift_ok_bind. apply refines_seq; [apply refines_reserve; auto with eliot|].
  specialize (IH (charged + len (stored_row r) + len (locator r)) (<[source_id r := locator r]> reverse) (acc ++ [r])).
  rewrite <- (assoc_L (++)), len_app in IH. cbn [app] in IH.
  replace (len acc + (1 + len l)) with (len acc + len [r] + len l) by (unfold len; cbn; lia).
  replace (charged + (len (stored_row r) + len (locator r) + charges l))
    with (charged + len (stored_row r) + len (locator r) + charges l) by lia.
  apply IH; [done|lia|unfold len in *; cbn; lia].
Qed.

(** The locator loop consumes the whole index. *)
Lemma inventory_locators_refines items count reverse :
  NoDup (snd <$> items) -> (forall l id, reverse !! id = Some l <-> (l, id) ∈ items) ->
  0 <= count -> count + len items <= MAX_CURRENT_SOURCES ->
  refines (inventory_locators items count reverse) (Ok (count + len items, ∅)).
Proof.
  revert count reverse. induction items as [|[l id] items IH]; intros count reverse Hnd Hin H0 Hc; cbn [inventory_locators].
  { assert (reverse = ∅) as ->; [|replace (count + len []) with count by (unfold len; cbn; lia); apply refines_ret].
    apply map_empty. intros id. apply eq_None_not_Some. intros [l Hl]. apply Hin in Hl. by apply elem_of_nil in Hl. }
  assert (len ((l, id) :: items) = 1 + len items) as Hlen by (unfold len; cbn; lia). rewrite Hlen in Hc |- *.
  assert (0 <= len items) by (unfold len; lia). cbn in Hnd. apply NoDup_cons in Hnd as [Hn Hnd].
  apply refines_seq; [apply check_refines|]. apply refines_seq; [apply call_refines; auto with eliot|].
  rewrite checked_add_some by (unfold MAX_CURRENT_SOURCES in *; width). cbn [ok_or]. rewrite lift_ok_bind.
  is_false (MAX_CURRENT_SOURCES <? count + 1). cbn [reject_if]. rewrite lift_ok_bind.
  rewrite bool_decide_true by (apply Hin; left). cbn [negb reject_if]. rewrite lift_ok_bind, Z.add_assoc.
  apply IH; [done| |lia|lia]. intros l' id'. destruct (decide (id' = id)) as [->|Hne].
  - rewrite lookup_delete_eq. split; [done|]. intros Hx. destruct Hn. apply list_elem_of_fmap. by exists (l', id).
  - rewrite lookup_delete_ne, Hin, elem_of_cons by congruence.
    split; [intros [[= ? ?]|?]; [congruence|done]|by right].
Qed.

Lemma reverse_index_lookup l m id loc :
  NoDup (source_id <$> l) ->
  (reverse_index l m !! id = Some loc) <->
    ((exists r, r ∈ l /\ source_id r = id /\ locator r = loc) \/ ((id ∉ (source_id <$> l)) /\ m !! id = Some loc)).
Proof.
  revert m. induction l as [|r l IH]; intros m Hnd; cbn [reverse_index foldl].
  { split; [right; split; [apply not_elem_of_nil|done]|]. intros [(r & Hr & _)|[_ ?]]; [by apply elem_of_nil in Hr|done]. }
  cbn in Hnd. apply NoDup_cons in Hnd as [Hn Hnd]. fold (reverse_index l (<[source_id r := locator r]> m)).
  rewrite IH, fmap_cons, not_elem_of_cons by done. setoid_rewrite elem_of_cons.
  destruct (decide (id = source_id r)) as [->|Hne].
  - rewrite lookup_insert_eq. split.
    + intros [(s & Hs & E & _)|[_ [= <-]]]; [|left; by eauto]. destruct Hn. rewrite <- E. by apply list_elem_of_fmap_2.
    + intros [(s & [->|Hs] & E & <-)|[[? _] _]]; [right; by split| |done].
      destruct Hn. rewrite <- E. by apply list_elem_of_fmap_2.
  - rewrite lookup_insert_ne by congruence. split.
    + intros [(s & Hs & E & Hl)|[Hx Hm]]; [left; eauto|right; naive_solver].
    + intros [(s & [->|Hs] & E & Hl)|[[? Hx] Hm]]; [congruence|left; eauto|right; naive_solver].
Qed.

Definition locator_item (r : CurrentSourceRecord) : list Z * list Z := (locator r, source_id r).

Lemma locators_iter d c : holds d c -> table_iter d SOURCE_LOCATORS ≡ₚ locator_item <$> listing c.
Proof.
  intros Hh. pose proof Hh as (_ & _ & _ & _ & Hloc & _ & Hwf). pose proof Hwf as (_ & _ & Hrow & Hinj).
  destruct (iter_law d SOURCE_LOCATORS) as [Hs Hi]. apply NoDup_Permutation.
  - by apply strictly_sorted_nodup.
  - eapply (NoDup_fmap_1 snd). rewrite <- list_fmap_compose. exact (listing_ids c Hwf).
  - intros [l id]. rewrite Hi. change (default ∅ (contents d !! SOURCE_LOCATORS)) with (rows_of d SOURCE_LOCATORS).
    rewrite Hloc, list_elem_of_fmap. unfold locator_item. split.
    + intros (r & Hr & <-). destruct (Hrow _ _ Hr) as (<- & _). exists r. split; [done|]. by apply listing_in.
    + intros (r & [= -> ->] & Hr). exists r. split; [|done]. by apply listing_in.
Qed.

Lemma inventory_refines d c :
  represents d c -> refines (capture_sources_database d) (inventory_spec c).
Proof.
  intros Hr. pose proof Hr as (_ & _ & Hh). pose proof Hh as (_ & _ & _ & _ & _ & _ & Hwf). pose proof Hwf as (_ & _ & Hrow & _).
  unfold capture_sources_database.
  apply refines_seq; [apply check_refines|]. apply refines_seq; [apply call_refines; auto with eliot|].
  eapply refines_bind_ok; [by apply schema_refines|]. unfold inventory_spec.
  destruct (namespace c) as [n|] eqn:Hn.
  2: { unfold initialized. rewrite bool_decide_false by (rewrite Hn; by intros [? ?]). cbn [negb].
       assert (listing c = []) as ->; [|apply refines_ret]. destruct (listing c) as [|r l] eqn:Hl; [done|].
       assert (sources c !! source_id r = Some r) as Hs by (apply listing_in; [done|]; rewrite Hl; left).
       destruct (Hrow _ _ Hs) as (_ & ? & _). congruence. }
  rewrite (initialized_some c n) by done. cbn [negb].
  eapply refines_bind_ok; [by apply (namespace_refines d c n)|]. cbn [ok_or]. rewrite lift_ok_bind.
  eapply refines_bind_ok; [apply (open_core d c n); [done|done|apply rows_core|auto with eliot]|].
  eapply refines_bind_ok; [apply (open_core d c n); [done|done|apply locators_core|auto with eliot]|].
  eapply refines_bind_ok; [apply refines_iterate; auto with eliot|]. rewrite (rows_iter d c) by done.
  pose proof (inventory_rows_refines d c n (listing c) 0 ∅ [] Hh Hn) as Hrows.
  assert (Forall (stored_in c) (listing c)) as Hst by (apply Forall_forall; intros r Hin; by apply listing_in).
  specialize (Hrows Hst ltac:(unfold MAX_CURRENT_SOURCE_BYTES; lia) ltac:(done)). cbn [app] in Hrows.
  change (len []) with 0 in Hrows. rewrite !Z.add_0_l in Hrows.
  destruct ((MAX_CURRENT_SOURCES <? len (listing c)) || (MAX_CURRENT_SOURCE_BYTES <? charges (listing c))) eqn:Hb;
    cbn [reject_if mbind result_bind] in *; [by apply refines_bind_err|].
  eapply refines_bind_ok; [exact Hrows|]. cbv beta iota. eapply refines_bind_ok; [apply refines_iterate; auto with eliot|].
  pose proof (locators_iter d c Hh) as Hperm. to_prop.
  assert (len (table_iter d SOURCE_LOCATORS) = len (listing c)) as Hlen by (unfold len; by rewrite Hperm, length_fmap).
  eapply refines_bind_ok; [apply inventory_locators_refines|].
  - rewrite Hperm, <- list_fmap_compose. exact (listing_ids c Hwf).
  - intros l id. rewrite reverse_index_lookup, Hperm, (list_elem_of_fmap locator_item) by by apply listing_ids.
    unfold locator_item. rewrite lookup_empty. split.
    + intros [(r & Hin & <- & <-)|[_ ?]]; [by exists r|done].
    + intros (r & [= -> ->] & Hin). left. by exists r.
  - lia.
  - lia.
  - cbv beta iota. rewrite Hlen, Z.add_0_l, Z.eqb_refl, bool_decide_true by done. cbn [negb orb reject_if].
    rewrite lift_ok_bind. apply refines_seq; [apply check_refines|]. apply refines_ret.
Qed.
End Inventory.

(** [capture_sources_database] over a database that stands for a corpus: the list it
    returns holds exactly the registered rows, strictly ordered by identity, at most 4,096
    of them and 16 MiB of stored bytes; it refuses with the inventory limit only a corpus
    beyond one of the two bounds, and any other error needs an interruption.  So a calm
    read of a corpus within the bounds returns all of it. *)
Theorem inventory_complete {D} `{Redb D} (d : D) (c : corpus) (w : env) :
  represents d c ->
  match run (capture_sources_database d) w with
  | Ok l =>
      StronglySorted (fun a b => bytes_lt (source_id a) (source_id b) = true) l /\
      (forall r, r ∈ l <-> sources c !! source_id r = Some r) /\
      len l = Z.of_nat (size (sources c)) /\ len l <= 4096 /\ charges l <= 16 * 1024 * 1024
  | Err e =>
      (e = InventoryLimit /\ (4096 < Z.of_nat (size (sources c)) \/ 16 * 1024 * 1024 < charges (listing c))) \/
      (interrupt e /\ ~ calm w)
  end.
Proof.
  intros Hr. pose proof (outcome_refines _ _ (fun l => inventory_spec c = Ok l) (fun e => inventory_spec c = Err e)
    (inventory_refines d c Hr) (fun _ E => E) (fun _ E => E) w) as [Hout _].
  assert (corpus_wf c) as Hwf by apply Hr.
  assert (len (listing c) = Z.of_nat (size (sources c))) as Hlen.
  { unfold listing, len. by rewrite merge_sort_Permutation, length_fmap, length_map_to_list. }
  destruct (run _ w) as [l|e]; unfold inventory_spec in Hout.
  - inv_ok. to_prop. unfold MAX_CURRENT_SOURCES, MAX_CURRENT_SOURCE_BYTES in *. split_and!; try lia.
    + by apply listing_strict.
    + intros r. by apply listing_in.
  - destruct Hout as [Hlim|?]; [left|by right].
    destruct ((MAX_CURRENT_SOURCES <? len (listing c)) || _) eqn:Hb in Hlim; cbn in Hlim; [|done].
    injection Hlim as <-. split; [done|]. rewrite <- Hlen. apply orb_true_iff in Hb as [?|?]; to_prop; auto.
Qed.

Lemma inventory_complete_witness :
  represents sample_store sample_corpus /\
  exists l, run (capture_sources_database sample_store) [] = Ok l /\ l = [sample_record] /\
    (forall r, r ∈ l <-> sources sample_corpus !! source_id r = Some r).
Proof.
  split; [exact sample_represents|]. pose proof (inventory_complete sample_store sample_corpus [] sample_represents) as Hout.
  assert (run (capture_sources_database sample_store) [] = Ok [sample_record]) as E by (vm_compute; reflexivity).
  rewrite E in Hout. exists [sample_record]. split; [exact E|]. split; [reflexivity|]. apply Hout.
Defined.
