(* ===== verification/ControlWriter.v ===== *)
(** The current-source operations as their callers see them: what an answer says of the
    committed state, under every environment and exactly in a calm one. *)

From stdpp Require Import gmap.
From S2P Require Import Prelude Bytes Ids Registry SourceRow Database Control ControlSpec ControlRefine ControlState ControlSample.

Section Writer.
Context {D : Type} `{Redb D}.
Implicit Types (d : D) (c : corpus).

(** [answered spec c answer c' w]: an operation with this specification that gave [answer]
    may have moved the corpus from [c] to [c']. *)
Definition answered {A} (spec : result SourceControlError (A * option corpus)) c
    (answer : result SourceControlError A) c' (w : env) : Prop :=
  match answer with
  | Ok a => exists next, spec = Ok (a, next) /\ c' = default c next
  | Err e =>
      (spec = Err e /\ c' = c) \/
      (~ calm w /\ (interrupt e \/ e = Stale) /\
       (c' = c \/ (e = Database /\ exists a, spec = Ok (a, Some c'))))
  end.

Lemma writer_commit_outcome d c capture file object w :
  represents d c -> capture_wf capture -> content_ok file object ->
  let '((answer, d'), _) := writer_commit d capture file object w in
  exists c', represents d' c' /\ answered (commit_spec c capture file object) c answer c' w.
Proof.
  intros Hr Hcap Hcontent. pose proof (commit_outcome d c capture file object w Hr Hcap Hcontent) as Hout.
  unfold writer_commit, run in *.
  destruct (commit_source_database d capture file object w) as [[[record [b d']]|e] w']; cbn in *.
  - destruct Hout as (next & Hs & Hd & Hnext & Hcalm). destruct b.
    + destruct Hd as [Hd|[? _]]; [|done]. exists (default c next). split; [done|]. by exists next.
    + assert (~ calm w) as Hnc by (intros Hw; by specialize (Hcalm Hw)).
      destruct next as [c1|]; [|by destruct (Hnext eq_refl)]. destruct Hd as [Hd|[_ ->]].
      * exists c1. split; [done|]. right. split; [done|]. split; [left; auto with eliot|]. right. split; [done|by exists record].
      * exists c. split; [done|]. right. split; [done|]. split; [left; auto with eliot|by left].
  - exists c. split; [done|]. destruct Hout as [Hs|[Hi Hc]]; [by left|right]. split; [done|]. split; [by left|by left].
Qed.

Lemma represents_wf d c : represents d c -> corpus_wf c.
Proof. intros (_ & _ & _ & _ & _ & _ & _ & _ & Hwf). exact Hwf. Qed.

(** A row that is not stored is not what a committed row reads back as. *)
Lemma committed_absent c capture file object record c' :
  corpus_wf c -> commit_spec c capture file object = Ok (record, Some c') -> locate c (locator record) <> Some record.
Proof.
  intros Hwf. unfold commit_spec.
  destruct (revisions_spec c capture) as [[row reg]|] eqn:Hrev; cbn [mbind result_bind]; [|done].
  destruct (unchanged _ _ _ _); [done|]. destruct (encode_record _); cbn [mbind result_bind]; [|done].
  destruct (checked_add _ _ _); cbn [ok_or mbind result_bind]; [|done]. intros [= <- <-]. cbn [locator committed_row].
  destruct (revisions_cases c capture row reg Hwf Hrev) as (_ & _ & _ & [(_ & _ & _ & Hl & _)|(cur & Hc)]); [congruence|].
  destruct Hc as (_ & Hl & _ & _ & _ & _ & -> & _). rewrite Hl. intros [= E]. apply (f_equal row_revision) in E. cbn in E. lia.
Qed.

(** A commit's record is found at its locator afterwards. *)
Lemma committed_located c capture file object record c' :
  corpus_wf c -> corpus_wf c' -> commit_spec c capture file object = Ok (record, Some c') ->
  locate c' (locator record) = Some record.
Proof.
  intros Hwf Hwf'. unfold commit_spec.
  destruct (revisions_spec c capture) as [[row reg]|] eqn:Hrev; cbn [mbind result_bind]; [|done].
  destruct (unchanged _ _ _ _); [done|]. destruct (encode_record _); cbn [mbind result_bind]; [|done].
  destruct (checked_add _ _ _); cbn [ok_or mbind result_bind]; [|done]. intros [= <- <-].
  apply locate_spec; [done|]. cbn. by rewrite lookup_insert_eq.
Qed.

(** The read-back of an unconfirmed commit. *)
Lemma read_back_refines d c l :
  represents d c ->
  refines (_ ← source_check; _ ← call Database; load_current_source_database d l) (Ok (locate c l)).
Proof.
  intros Hr. apply refines_seq; [apply check_refines|]. apply refines_seq; [apply call_refines; auto with eliot|].
  by apply load_refines.
Qed.

Lemma path_commit_outcome d c capture file object w :
  represents d c -> capture_wf capture -> content_ok file object ->
  let '((answer, d'), _) := path_commit d capture file object w in
  exists c', represents d' c' /\ answered (commit_spec c capture file object) c answer c' w.
Proof.
  intros Hr Hcap Hcontent. unfold path_commit.
  pose (P r := match r with
    | Ok (record, (confirmed, d')) =>
        exists next, commit_spec c capture file object = Ok (record, next) /\
          (represents d' (default c next) \/ (confirmed = false /\ d' = d)) /\
          (confirmed = false -> next <> None) /\ (calm w -> confirmed = true)
    | Err e => commit_spec c capture file object = Err e \/ (interrupt e /\ ~ calm w)
    end).
  assert (P (run (_ ← source_check; _ ← call Database; commit_source_database d capture file object) w)) as Hout.
  { apply (run_then _ tt); [apply check_refines|by intros e He Hc; right|intros w1 H1].
    apply (run_then _ tt); [apply call_refines; auto with eliot|by intros e He Hc; right; tauto|intros w2 H2].
    pose proof (commit_outcome d c capture file object w2 Hr Hcap Hcontent) as Hout. unfold P.
    destruct (run _ w2) as [[record [b d']]|e]; [|naive_solver].
    destruct Hout as (next & ? & ? & ? & ?). exists next. naive_solver. }
  unfold run, P in Hout. clear P.
  destruct ((_ ← source_check; _ ← call Database; commit_source_database d capture file object) w)
    as [[[record [b d']]|e] w']; cbn [fst snd] in Hout.
  2: { exists c. split; [done|]. destruct Hout as [Hs|[Hi Hc]]; [by left|right]. split; [done|]. split; [by left|by left]. }
  destruct Hout as (next & Hs & Hd & Hnext & Hcalm). destruct b.
  { destruct Hd as [Hd|[? _]]; [|done]. exists (default c next). split; [done|]. by exists next. }
  assert (~ calm w) as Hnc by (intros Hw; by specialize (Hcalm Hw)).
  destruct next as [c1|]; [|by destruct (Hnext eq_refl)]. cbn [default] in Hd.
  assert (exists c2, represents d' c2 /\ (c2 = c1 \/ c2 = c)) as (c2 & Hr2 & Hc2).
  { destruct Hd as [Hd|[_ ->]]; [exists c1|exists c]; auto. }
  pose proof (refines_any _ _ w' (read_back_refines d' c2 (locator record) Hr2)) as Hback. unfold run in Hback.
  destruct ((_ ← source_check; _ ← call Database; load_current_source_database d' (locator record)) w') as [observed w''].
  cbn [fst] in Hback. exists c2. split; [done|].
  assert (forall e, interrupt e \/ e = Stale -> (c2 = c \/ e = Database) ->
    answered (commit_spec c capture file object) c (Err e) c2 w) as Herr.
  { intros e He Hc. right. split; [done|]. split; [done|]. destruct Hc2 as [-> | -> ]; [|by left].
    destruct Hc as [-> | -> ]; [by left|right]. split; [done|by exists record]. }
  destruct Hback as [-> |(e & -> & He)]; cbn [resolve_source_commit]; [|apply Herr; [left; auto with eliot|by right]].
  destruct (locate c2 (locator record)) as [r|] eqn:Hloc; [|apply Herr; [left; auto with eliot|by right]].
  case_bool_decide as Hrec.
  - subst r. destruct Hc2 as [-> | -> ]; [by exists (Some c1)|].
    by destruct (committed_absent c capture file object record c1 (represents_wf _ _ Hr) Hs).
  - apply Herr; [by right|]. left. destruct Hc2 as [-> | -> ]; [|done]. exfalso. apply Hrec.
    assert (locate c1 (locator record) = Some record); [|congruence].
    apply (committed_located c capture file object record c1); [by apply represents_wf in Hr|by apply represents_wf in Hr2|done].
Qed.

Lemma writer_remove_outcome d c expected w :
  represents d c ->
  let '((answer, d'), _) := writer_remove d expected w in
  exists c', represents d' c' /\ answered ((fun next => (tt, next)) <$> removal_answer c expected) c answer c' w.
Proof.
  intros Hr. pose proof (removal_outcome d c expected w Hr) as Hout. unfold writer_remove, run in *.
  destruct (remove_sources_database d expected w) as [[[b d']|e] w']; cbn in *.
  - destruct Hout as (next & Hs & Hd & Hnext & Hcalm). rewrite Hs. cbn. destruct b.
    + destruct Hd as [Hd|[? _]]; [|done]. exists (default c next). split; [done|]. by exists next.
    + assert (~ calm w) as Hnc by (intros Hw; by specialize (Hcalm Hw)).
      destruct next as [c1|]; [|by destruct (Hnext eq_refl)]. destruct Hd as [Hd|[_ ->]].
      * exists c1. split; [done|]. right. split; [done|]. split; [left; auto with eliot|]. right. split; [done|by exists tt].
      * exists c. split; [done|]. right. split; [done|]. split; [left; auto with eliot|by left].
  - exists c. split; [done|]. destruct Hout as [Hs|[Hi Hc]]; [left; by rewrite Hs|right]. split; [done|]. split; [by left|by left].
Qed.

Lemma answered_located c capture file object record next :
  corpus_wf c -> corpus_wf (default c next) -> commit_spec c capture file object = Ok (record, next) ->
  locate (default c next) (locator record) = Some record.
Proof.
  intros Hwf Hwf' Hs. destruct next as [c'|]; [by apply (committed_located c capture file object)|]. cbn.
  unfold commit_spec in Hs. apply bind_ok_inv in Hs as ([row reg] & Hrev & Hs).
  destruct (unchanged c capture file object) as [cur|] eqn:Hu.
  - apply ok_inj in Hs. injection Hs as <-. unfold unchanged in Hu.
    destruct (expected_row_revision capture); [|done]. destruct (sources c !! _) as [r|] eqn:Hr; cbn in Hu; [|done].
    case_match; [|done]. injection Hu as <-. destruct (proj1 (proj2 (proj2 Hwf)) _ _ Hr) as (Hid & _).
    apply locate_spec; [done|]. by rewrite Hid.
  - apply bind_ok_inv in Hs as (? & _ & Hs). by apply bind_ok_inv in Hs as (? & _ & Hs).
Qed.

Lemma foldl_delete_lookup {A} (m : gmap (list Z) A) (l : list CurrentSourceRecord) id :
  foldl (fun m r => delete (source_id r) m) m l !! id = if decide (id ∈ source_id <$> l) then None else m !! id.
Proof.
  revert m. induction l as [|r l IH]; intros m; cbn [foldl].
  - rewrite decide_False; [done|]. apply not_elem_of_nil.
  - rewrite IH. destruct (decide (id ∈ source_id <$> l)) as [Hin|Hin].
    + rewrite decide_True; [done|]. by right.
    + destruct (decide (id = source_id r)) as [->|Hne].
      * rewrite lookup_delete_eq, decide_True; [done|]. left.
      * rewrite lookup_delete_ne by congruence. rewrite decide_False; [done|]. rewrite fmap_cons, elem_of_cons. tauto.
Qed.

Lemma removal_effect c expected c' :
  removal_spec c expected = Ok c' ->
  Forall (fun r => sources c !! source_id r = Some r) expected /\ NoDup (source_id <$> expected) /\
  (forall id, sources c' !! id = if decide (id ∈ source_id <$> expected) then None else sources c !! id) /\
  (forall id, prepared_rows c' !! id = if decide (id ∈ source_id <$> expected) then None else prepared_rows c !! id) /\
  wanted c' = wanted c + 1.
Proof.
  unfold removal_spec. destruct (namespace c); [|done]. intros Hs.
  apply bind_ok_inv in Hs as (? & Hg%reject_if_ok & Hs). to_prop. destruct Hg as [Hnd Hst].
  apply bind_ok_inv in Hs as (next & Hn%ok_or_inv%checked_add_inv & Hs). apply ok_inj in Hs as <-.
  destruct Hn as [-> _]. split; [done|]. split; [done|]. split; [|split; [|done]]; intros id; apply foldl_delete_lookup.
Qed.
End Writer.

(** Registering or updating a source refines its specification on the abstract corpus.
    From a database that stands for [c] and a well-formed capture, in a calm environment,
    the writer's commit and the path's commit both answer exactly what the specification
    says (stale on any changed guard, exhausted revisions, an unencodable row, the old row
    when nothing changes) and leave a database that stands for the specified corpus: the
    row, its locator, the schema version, the namespace and the wanted revision together,
    or none of them. *)
Theorem commit_refines {D} `{Redb D} (d : D) (c : corpus) capture file object w :
  represents d c -> capture_wf capture -> content_ok file object -> calm w ->
  forall commit, commit = writer_commit \/ commit = path_commit ->
  let '((answer, d'), _) := commit d capture file object w in
  answer = fst <$> commit_spec c capture file object /\
  represents d' match commit_spec c capture file object with Ok (_, Some c') => c' | _ => c end.
Proof.
  intros Hr Hcap Hcontent Hw commit Hcommit.
  assert (let '((answer, d'), _) := commit d capture file object w in
    exists c', represents d' c' /\ answered (commit_spec c capture file object) c answer c' w) as Hout.
  { destruct Hcommit as [-> | -> ]; [by apply writer_commit_outcome|by apply path_commit_outcome]. }
  destruct (commit d capture file object w) as [[answer d'] w']. destruct Hout as (c' & Hd & Ha).
  destruct answer as [record|e]; cbn in Ha.
  - destruct Ha as (next & -> & ->). by destruct next.
  - destruct Ha as [[-> ->]|[Hc _]]; [done|by destruct Hc].
Qed.

Lemma commit_refines_witness :
  (represents empty_store empty_corpus /\ capture_wf sample_capture /\ content_ok sample_file sample_object /\ calm []) /\
  fst (fst (path_commit empty_store sample_capture sample_file sample_object [])) = Ok sample_record.
Proof.
  assert (calm []) as Hw by constructor.
  split; [exact (conj empty_represents (conj sample_capture_wf (conj sample_content Hw)))|].
  pose proof (commit_refines empty_store empty_corpus sample_capture sample_file sample_object [] empty_represents
    sample_capture_wf sample_content Hw path_commit (or_intror eq_refl)) as Hout.
  destruct (path_commit empty_store sample_capture sample_file sample_object []) as [[answer d'] w'].
  destruct Hout as [-> _]. vm_compute. reflexivity.
Defined.

(** C14. No environment makes a commit lie.  Whatever fails, is cancelled or loses its
    report, the database afterwards stands for the corpus before or after the specified
    commit; a record is answered only when the committed state holds it, and an error
    other than a database failure means that nothing was committed. *)
Theorem commit_answers_truly {D} `{Redb D} (d : D) (c : corpus) capture file object w :
  represents d c -> capture_wf capture -> content_ok file object ->
  forall commit, commit = writer_commit \/ commit = path_commit ->
  let '((answer, d'), _) := commit d capture file object w in
  exists c', represents d' c' /\
    (c' = c \/ exists record, commit_spec c capture file object = Ok (record, Some c')) /\
    match answer with
    | Ok record => sources c' !! source_id record = Some record /\ locate c' (locator record) = Some record
    | Err e => c' = c \/ e = Database
    end.
Proof.
  intros Hr Hcap Hcontent commit Hcommit.
  assert (let '((answer, d'), _) := commit d capture file object w in
    exists c', represents d' c' /\ answered (commit_spec c capture file object) c answer c' w) as Hout.
  { destruct Hcommit as [-> | -> ]; [by apply writer_commit_outcome|by apply path_commit_outcome]. }
  destruct (commit d capture file object w) as [[answer d'] w']. destruct Hout as (c' & Hd & Ha).
  exists c'. split; [done|]. destruct answer as [record|e]; cbn in Ha.
  - destruct Ha as (next & Hs & ->). split; [destruct next; [right; by exists record|by left]|].
    assert (locate (default c next) (locator record) = Some record) as Hloc.
    { apply (answered_located c capture file object record next); [by apply (represents_wf d)|by apply (represents_wf d')|done]. }
    split; [|done]. apply locate_spec in Hloc; [apply Hloc|by apply (represents_wf d')].
  - destruct Ha as [[_ ->]|(_ & _ & [->|(-> & record & Hs)])]; [by split; left|by split; left|].
    split; [right; by exists record|by right].
Qed.

Lemma commit_answers_truly_witness :
  (represents empty_store empty_corpus /\ capture_wf sample_capture /\ content_ok sample_file sample_object) /\
  exists d' w', path_commit empty_store sample_capture sample_file sample_object (repeat Calm 24 ++ [ReportLost]) = ((Ok sample_record, d'), w') /\
  exists c', represents d' c' /\ locate c' (locator sample_record) = Some sample_record.
Proof.
  split; [exact (conj empty_represents (conj sample_capture_wf sample_content))|].
  pose proof (commit_answers_truly empty_store empty_corpus sample_capture sample_file sample_object
    (repeat Calm 24 ++ [ReportLost]) empty_represents sample_capture_wf sample_content path_commit (or_intror eq_refl)) as Hout.
  assert (fst (fst (path_commit empty_store sample_capture sample_file sample_object (repeat Calm 24 ++ [ReportLost])))
    = Ok sample_record) as E by (vm_compute; reflexivity).
  destruct (path_commit empty_store sample_capture sample_file sample_object (repeat Calm 24 ++ [ReportLost])) as [[answer d'] w'].
  cbn in E. subst answer. exists d', w'. split; [reflexivity|]. destruct Hout as (c' & Hd & _ & _ & Hl). by exists c'.
Defined.

(** Removing sources is all or nothing.  The removal answers success only when every
    given row is, unchanged, the stored row of its identity, each named once and at most
    4,096 of them; then exactly those rows, their locators and their preparations are gone
    and the wanted revision has advanced by one.  Under any other answer than a database
    failure the corpus is the one before, and in a calm environment the answer is the
    specified one. *)
Theorem removal_atomic {D} `{Redb D} (d : D) (c : corpus) expected w :
  represents d c ->
  let '((answer, d'), _) := writer_remove d expected w in
  exists c', represents d' c' /\
    (c' = c \/ (expected <> [] /\ removal_spec c expected = Ok c')) /\
    match answer with
    | Ok _ => Forall (fun r => sources c !! source_id r = Some r) expected /\ NoDup (source_id <$> expected) /\
        len expected <= 4096 /\
        (forall id, sources c' !! id = if decide (id ∈ source_id <$> expected) then None else sources c !! id) /\
        (forall id, prepared_rows c' !! id = if decide (id ∈ source_id <$> expected) then None else prepared_rows c !! id) /\
        wanted c' = (if decide (expected = []) then wanted c else wanted c + 1)
    | Err e => c' = c \/ e = Database
    end /\
    (calm w -> answer = (fun _ => tt) <$> removal_answer c expected).
Proof.
  intros Hr. pose proof (writer_remove_outcome d c expected w Hr) as Hout.
  destruct (writer_remove d expected w) as [[answer d'] w']. destruct Hout as (c' & Hd & Ha).
  exists c'. split; [done|]. destruct answer as [[]|e]; cbn in Ha.
  - destruct Ha as (next & Hs & ->). unfold removal_answer in *.
    destruct (decide (expected = [])) as [->|Hne].
    { rewrite bool_decide_true in Hs by done. injection Hs as <-. cbn. split; [by left|]. split; [|done].
      split; [done|]. split; [constructor|]. split; [done|]. by split. }
    rewrite bool_decide_false in Hs |- * by done.
    destruct (MAX_CURRENT_SOURCES <? len expected) eqn:Hlen; [done|]. cbn [reject_if mbind result_bind] in *.
    destruct (removal_spec c expected) as [c1|] eqn:Hspec; [|done]. injection Hs as <-. cbn [default].
    split; [right; by split|]. split; [|done]. apply removal_effect in Hspec as (H1 & H2 & H3 & H4 & H5). to_prop.
    unfold MAX_CURRENT_SOURCES in *. by split_and!.
  - destruct Ha as [[Hs ->]|(Hc & _ & Hcases)].
    + split; [by left|]. split; [by left|]. intros _. by destruct (removal_answer c expected); inversion Hs.
    + destruct Hcases as [->|(-> & [] & Hs)]; [split; [by left|]; split; [by left|]; by intros|].
      split; [|split; [by right|by intros]]. right. unfold removal_answer in Hs. case_bool_decide; [done|]. split; [done|].
      destruct (MAX_CURRENT_SOURCES <? len expected); [done|]. cbn [reject_if mbind result_bind] in Hs.
      destruct (removal_spec c expected); [|done]. by injection Hs as <-.
Qed.

Lemma removal_atomic_witness :
  represents sample_store sample_corpus /\
  fst (fst (writer_remove sample_store [sample_record] [])) = Ok tt /\
  exists c', represents (snd (fst (writer_remove sample_store [sample_record] []))) c' /\ sources c' !! sample_id = None.
Proof.
  split; [exact sample_represents|].
  pose proof (removal_atomic sample_store sample_corpus [sample_record] [] sample_represents) as Hout.
  assert (fst (fst (writer_remove sample_store [sample_record] [])) = Ok tt) as E by (vm_compute; reflexivity).
  split; [exact E|]. destruct (writer_remove sample_store [sample_record] []) as [[answer d'] w']. cbn in E |- *. subst answer.
  destruct Hout as (c' & Hd & _ & (_ & _ & _ & Hs & _) & _). exists c'. split; [exact Hd|].
  rewrite Hs. rewrite decide_True; [reflexivity|]. left.
Defined.
