(* ===== verification/ControlAdmission.v ===== *)
(** Admitted selections (crates/search-control-redb/src/current_source.rs): the durable
    choice of files and trees, kept as prefixed rows of the source-state table, their
    bounded read and their admission.  The JSON of a stored selection is serde's, an
    argument here, with its round trip as a law. *)

From Stdlib Require Import Sorted.
From stdpp Require Import gmap sorting.
From S2P Require Import Prelude Bytes Ids Registry SourceRow Database Control ControlSpec ControlRefine ControlState.
From S2P Require Import ControlSample ControlWriter.

Definition SELECTION_PREFIX : list Z := str "admitted_selection:".

Inductive SelectionKind : Type := File | Tree.
#[export] Instance SelectionKind_eq : EqDecision SelectionKind.
Proof. solve_decision. Defined.

Record AdmittedSelection := { selection_path : list Z; selection_kind : SelectionKind }.
#[export] Instance AdmittedSelection_eq : EqDecision AdmittedSelection.
Proof. solve_decision. Defined.

Record StoredSelection := { stored_version : Z; stored_locator : list Z; stored_kind : SelectionKind }.

Definition selection_key (locator : list Z) : list Z := SELECTION_PREFIX ++ hex_encode locator.

(** What the code relies on of [serde_json] for [StoredSelection]. *)
Class SelectionJson := {
  from_slice : list Z -> option StoredSelection;
  to_vec : StoredSelection -> list Z;
  json_roundtrip s : bytes_ok (stored_locator s) -> from_slice (to_vec s) = Some s;
  json_locator v s : from_slice v = Some s -> bytes_ok (stored_locator s) }.

Section Admission.
Context `{SelectionJson} {D : Type} `{Redb D}.
Implicit Types d tx : D.

Definition decode_selection (key bytes : list Z) : result SourceControlError AdmittedSelection :=
  stored ← ok_or Corrupt (from_slice bytes);
  _ ← reject_if (negb (stored_version stored =? 1)
        || negb (bool_decide (selection_key (stored_locator stored) = key))) Corrupt;
  path ← source_path_from_locator (stored_locator stored);
  Ok {| selection_path := path; selection_kind := stored_kind stored |}.

(** The row loop of [capture_selections_database]. *)
Fixpoint selection_rows (items : list (list Z * list Z)) (charged : Z) (selections : list AdmittedSelection)
    : M SourceControlError (list AdmittedSelection) :=
  match items with
  | [] => mret selections
  | (key, value) :: items =>
      _ ← source_check;
      _ ← call Database;
      if negb (starts_with key SELECTION_PREFIX) then selection_rows items charged selections
      else
        charged ← lift (ok_or InventoryLimit (checked_add USIZE_MAX charged (len key + len value)));
        _ ← lift (reject_if ((MAX_CURRENT_SOURCES <=? len selections) || (MAX_CURRENT_SOURCE_BYTES <? charged)) InventoryLimit);
        selection ← lift (decode_selection key value);
        selection_rows items charged (selections ++ [selection])
  end.

Definition capture_selections_database d : M SourceControlError (list AdmittedSelection) :=
  _ ← source_check;
  _ ← call Database;
  schema ← read_source_schema d;
  if negb schema then mret []
  else
    namespace ← read_namespace d;
    _ ← lift (ok_or Corrupt namespace);
    _ ← open_read Corrupt d SOURCE_STATE;
    items ← iterate Database d SOURCE_STATE;
    selections ← selection_rows items 0 [];
    _ ← source_check;
    mret selections.

(** [ensure_admission_schema]; the identity it may draw is an argument. *)
Definition ensure_admission_schema tx (random_namespace : list Z) : M SourceControlError D :=
  _ ← call Database;
  let names := list_tables tx in
  _ ← call Database;
  let has_multimap := negb (len (list_multimap_tables tx) =? 0) in
  exists_schema ← lift (catalogue_names names has_multimap);
  tx ← open_write Database tx SOURCE_STATE;
  if (exists_schema : bool) then
    version ← get Database tx SOURCE_STATE SCHEMA_VERSION_KEY;
    namespace ← get Database tx SOURCE_STATE NAMESPACE_KEY;
    _ ← lift (reject_if (negb (bool_decide (version = Some SOURCE_SCHEMA_VERSION))
          || match namespace with Some value => negb (len value =? 16) | None => true end) Corrupt);
    mret tx
  else
    tx ← insert Database tx SOURCE_STATE SCHEMA_VERSION_KEY SOURCE_SCHEMA_VERSION;
    namespace ← random_id random_namespace;
    tx ← insert Database tx SOURCE_STATE NAMESPACE_KEY namespace;
    tx ← open_write Database tx SOURCE_ROWS;
    open_write Database tx SOURCE_LOCATORS.

(** The loop that charges the other selections. *)
Fixpoint admission_charge (key : list Z) (items : list (list Z * list Z)) (count charged : Z) : M SourceControlError unit :=
  match items with
  | [] => mret tt
  | (stored_key, value) :: items =>
      _ ← source_check;
      _ ← call Database;
      next ← (if starts_with stored_key SELECTION_PREFIX && negb (bool_decide (stored_key = key)) then
                charged ← lift (ok_or InventoryLimit (checked_add USIZE_MAX charged (len stored_key + len value)));
                mret (count + 1, charged)
              else mret (count, charged));
      let '(count, charged) := next in
      _ ← lift (reject_if ((MAX_CURRENT_SOURCES <? count) || (MAX_CURRENT_SOURCE_BYTES <? charged)) InventoryLimit);
      admission_charge key items count charged
  end.

(** [admit_selection_database]: whether the commit was confirmed, and the state it leaves. *)
Definition admit_selection_database d (selection : AdmittedSelection) (random_namespace : list Z)
    : M SourceControlError (bool * D) :=
  _ ← source_check;
  locator ← lift (source_locator_bytes (selection_path selection));
  let key := selection_key locator in
  let bytes := to_vec {| stored_version := 1; stored_locator := locator; stored_kind := selection_kind selection |} in
  _ ← call Database;
  tx ← ensure_admission_schema d random_namespace;
  tx ← open_write Database tx SOURCE_STATE;
  existing ← get Database tx SOURCE_STATE key;
  same ← lift match existing with
    | Some existing => stored ← decode_selection key existing; Ok (bool_decide (stored = selection))
    | None => Ok false
    end;
  if (same : bool) then mret (true, d)
  else
    items ← iterate Database tx SOURCE_STATE;
    _ ← admission_charge key items 1 (len key + len bytes);
    tx ← insert Database tx SOURCE_STATE key bytes;
    _ ← source_check;
    commit d tx.

(** [ControlWriter::admit_selection] *)
Definition admit_selection d selection random_namespace (w : env) : (result SourceControlError unit * D) * env :=
  match admit_selection_database d selection random_namespace w with
  | (Ok (true, d'), w') => ((Ok tt, d'), w')
  | (Ok (false, d'), w') => ((Err Database, d'), w')
  | (Err e, w') => ((Err e, d), w')
  end.

(** ** The selections of a database *)

(** A database that was never initialized has no source state. *)
Lemma state_absent d : catalogue (names_of d) false -> rows_of d SOURCE_STATE = ∅.
Proof.
  intros [_ Hnames]. unfold rows_of. assert (SOURCE_STATE ∉ names_of d) as Hn.
  { intros Hin. assert (SOURCE_STATE ∈ names_of d ∖ publication_names) as Hd.
    { apply elem_of_difference. split; [done|]. apply (bool_decide_eq_true_1 _). vm_compute. reflexivity. }
    rewrite Hnames in Hd. apply elem_of_singleton in Hd. by vm_compute in Hd. }
  unfold names_of in Hn. apply not_elem_of_dom in Hn. by rewrite Hn.
Qed.

Definition selection_items d : list (list Z * list Z) :=
  filter (fun kv => starts_with (fst kv) SELECTION_PREFIX = true) (table_iter d SOURCE_STATE).
Definition item_charges (items : list (list Z * list Z)) : Z := foldr (fun kv n => len (fst kv) + len (snd kv) + n) 0 items.

(** The stored selections, in key order, within both bounds. *)
Definition selections_at d (ss : list AdmittedSelection) : Prop :=
  Forall2 (fun kv s => decode_selection (fst kv) (snd kv) = Ok s) (selection_items d) ss /\
  len ss <= MAX_CURRENT_SOURCES /\ item_charges (selection_items d) <= MAX_CURRENT_SOURCE_BYTES.

Lemma item_charges_cons kv l : item_charges (kv :: l) = len (fst kv) + len (snd kv) + item_charges l.
Proof. done. Qed.

Lemma item_charges_nonneg l : 0 <= item_charges l.
Proof. induction l as [|kv l IH]; [done|]. rewrite item_charges_cons. unfold len. lia. Qed.

Lemma item_charges_perm l k : l ≡ₚ k -> item_charges l = item_charges k.
Proof. induction 1; rewrite ?item_charges_cons; lia. Qed.

Lemma selection_items_in d k v :
  (k, v) ∈ selection_items d <-> starts_with k SELECTION_PREFIX = true /\ rows_of d SOURCE_STATE !! k = Some v.
Proof. unfold selection_items. rewrite list_elem_of_filter. cbn. destruct (iter_law d SOURCE_STATE) as [_ Hi]. by rewrite Hi. Qed.

Lemma selection_items_nodup d : NoDup (selection_items d).
Proof. apply NoDup_filter, strictly_sorted_nodup. apply iter_law. Qed.

(** ** The read *)

Lemma selection_rows_refines items charged acc ss :
  Forall2 (fun kv s => decode_selection (fst kv) (snd kv) = Ok s)
    (filter (fun kv => starts_with (fst kv) SELECTION_PREFIX = true) items) ss ->
  0 <= charged -> len acc + len ss <= MAX_CURRENT_SOURCES ->
  charged + item_charges (filter (fun kv => starts_with (fst kv) SELECTION_PREFIX = true) items) <= MAX_CURRENT_SOURCE_BYTES ->
  refines (selection_rows items charged acc) (Ok (acc ++ ss)).
Proof.
  revert charged acc ss. induction items as [|[k v] items IH]; intros charged acc ss Hd Hc Hn Hb; cbn [selection_rows].
  { apply Forall2_nil_inv_l in Hd as ->. rewrite app_nil_r. apply refines_ret. }
  apply refines_seq; [apply check_refines|]. apply refines_seq; [apply call_refines; auto with eliot|].
  rewrite filter_cons in Hd, Hb. cbn [fst snd] in Hd, Hb.
  destruct (starts_with k SELECTION_PREFIX); cbn [negb]; [rewrite decide_True in Hd, Hb by done|rewrite decide_False in Hd, Hb by done; by apply IH].
  apply Forall2_cons_inv_l in Hd as (x & ss' & Hx & Hd & ->). cbn [fst snd] in Hx. rewrite item_charges_cons in Hb. cbn [fst snd] in Hb.
  pose proof (item_charges_nonneg (filter (fun kv => starts_with (fst kv) SELECTION_PREFIX = true) items)) as Hpos.
  assert (len (x :: ss') = 1 + len ss') as Hl by (unfold len; cbn; lia). pose proof (len_nonneg ss'). pose proof (len_nonneg k). pose proof (len_nonneg v).
  rewrite checked_add_some by (unfold MAX_CURRENT_SOURCE_BYTES in *; width). cbn [ok_or]. rewrite lift_ok_bind.
  is_false (MAX_CURRENT_SOURCES <=? len acc). is_false (MAX_CURRENT_SOURCE_BYTES <? charged + (len k + len v)). cbn [orb reject_if].
  rewrite lift_ok_bind, Hx, lift_ok_bind. specialize (IH (charged + (len k + len v)) (acc ++ [x]) ss').
  rewrite <- (assoc_L (++)) in IH. apply IH; [done|lia|rewrite len_app; unfold len in *; cbn; lia|lia].
Qed.

Lemma capture_selections_refines d c ss :
  represents d c -> selections_at d ss -> refines (capture_selections_database d) (Ok ss).
Proof.
  intros Hr (Hd & Hn & Hb). unfold capture_selections_database.
  apply refines_seq; [apply check_refines|]. apply refines_seq; [apply call_refines; auto with eliot|].
  eapply refines_bind_ok; [by apply schema_refines|].
  destruct (namespace c) as [n|] eqn:Hns.
  - rewrite (initialized_some c n) by done. cbn [negb]. eapply refines_bind_ok; [by apply (namespace_refines d c n)|].
    cbn [ok_or]. rewrite lift_ok_bind.
    eapply refines_bind_ok; [apply (open_core d c n); [done|done|apply state_core|auto with eliot]|].
    eapply refines_bind_ok; [apply refines_iterate; auto with eliot|].
    eapply refines_bind_ok; [apply (selection_rows_refines _ 0 [] ss); [exact Hd|done|exact Hn|exact Hb]|].
    apply refines_seq; [apply check_refines|]. apply refines_ret.
  - assert (initialized c = false) as Hi by (unfold initialized; rewrite Hns; by rewrite bool_decide_false by (by intros [? ?])).
    rewrite Hi. cbn [negb]. assert (ss = []) as ->; [|apply refines_ret].
    assert (selection_items d = []) as Hnil; [|rewrite Hnil in Hd; by apply Forall2_nil_inv_l in Hd].
    destruct (selection_items d) as [|[k v] l] eqn:Hs; [done|]. exfalso.
    assert ((k, v) ∈ selection_items d) as Hin by (rewrite Hs; left). apply selection_items_in in Hin as [_ Hin].
    assert (rows_of d SOURCE_STATE = ∅) as He; [|by rewrite He in Hin].
    destruct Hr as (_ & Hcat & _). rewrite Hi in Hcat. by apply state_absent.
Qed.

(** ** The admission *)

(** The corpus once its namespace exists. *)
Definition with_namespace c (rn : list Z) : corpus :=
  {| namespace := Some (default rn (namespace c)); sources := sources c; prepared_rows := prepared_rows c; wanted := wanted c |}.

(** The transaction of [ensure_admission_schema]. *)
Definition ensured d c (rn : list Z) : D :=
  match namespace c with
  | Some _ => table_open d SOURCE_STATE
  | None =>
      table_open (table_open (table_insert (table_insert (table_open d SOURCE_STATE) SOURCE_STATE SCHEMA_VERSION_KEY SOURCE_SCHEMA_VERSION)
        SOURCE_STATE NAMESPACE_KEY rn) SOURCE_ROWS) SOURCE_LOCATORS
  end.

Lemma ensure_refines d c rn : represents d c -> refines (ensure_admission_schema d rn) (Ok (ensured d c rn)).
Proof.
  intros (Hm & Hcat & Hh). pose proof Hh as (Hv & Hns & _ & _ & _ & _ & Hwf). unfold ensure_admission_schema, ensured.
  apply refines_seq; [apply call_refines; auto with eliot|]. cbv zeta. apply refines_seq; [apply call_refines; auto with eliot|]. cbv zeta.
  rewrite Hm. change (negb (len (@nil (list Z)) =? 0)) with false. destruct (list_tables_names d) as [Hnd Hin].
  rewrite (catalogue_ok (list_tables d) (names_of d) (initialized c)), lift_ok_bind by done.
  eapply refines_bind_ok; [apply refines_open_write; auto with eliot|].
  destruct (namespace c) as [n|] eqn:Hn.
  - rewrite (initialized_some c n) by done. eapply refines_bind_ok; [apply refines_get; auto with eliot|].
    eapply refines_bind_ok; [apply refines_get; auto with eliot|]. rewrite !rows_open, Hv, Hns. cbn [fmap option_fmap option_map].
    rewrite bool_decide_true by done. destruct (proj1 Hwf n Hn) as [Hlen _]. unfold len. rewrite Hlen. change (Z.of_nat 16 =? 16) with true. cbn [negb orb reject_if].
    rewrite lift_ok_bind. apply refines_ret.
  - unfold initialized. rewrite Hn, bool_decide_false by (by intros [? ?]).
    eapply refines_bind_ok; [apply refines_insert; auto with eliot|].
    eapply (refines_bind_ok _ rn); [unfold random_id; apply refines_seq; [apply call_refines; auto with eliot|apply refines_ret]|].
    eapply refines_bind_ok; [apply refines_insert; auto with eliot|].
    eapply refines_bind_ok; [apply refines_open_write; auto with eliot|]. apply refines_open_write; auto with eliot.
Qed.

Lemma with_namespace_same c rn : is_Some (namespace c) -> with_namespace c rn = c.
Proof. intros [n Hn]. unfold with_namespace. rewrite Hn. destruct c. cbn in *. by subst. Qed.

Lemma empty_unregistered c : corpus_wf c -> namespace c = None -> sources c = ∅.
Proof.
  intros (_ & _ & Hrow & _) Hn. apply map_empty. intros id. apply eq_None_not_Some. intros [r Hr].
  destruct (Hrow _ _ Hr) as (_ & ? & _). congruence.
Qed.

Lemma with_namespace_wf c rn : corpus_wf c -> Uuid.wf rn -> corpus_wf (with_namespace c rn).
Proof.
  intros Hwf Hrn. pose proof Hwf as (Hns & Hw & Hrow & Hinj). destruct (namespace c) as [n|] eqn:Hn.
  - by rewrite with_namespace_same by (by exists n).
  - split; [cbn; rewrite Hn; by intros ? [= <-]|]. split; [done|]. split; [|done]. intros id r Hr. cbn in Hr.
    by rewrite (empty_unregistered c Hwf Hn) in Hr.
Qed.

Lemma ensured_represents d c rn :
  represents d c -> Uuid.wf rn -> represents (ensured d c rn) (with_namespace c rn) /\ core_names ⊆ names_of (ensured d c rn).
Proof.
  intros Hr Hrn. pose proof Hr as (Hm & Hcat & Hh). pose proof (with_namespace_wf c rn (represents_wf d c Hr) Hrn) as Hwf'.
  pose proof Hh as (Hv & Hns & Hw & Hrows & Hloc & Hprep & Hwf). unfold ensured. destruct (namespace c) as [n|] eqn:Hn.
  - rewrite with_namespace_same by (by exists n). rewrite (initialized_some c n) in Hcat by done.
    assert (core_names ⊆ names_of d) as Hcore by (intros x Hx; by eapply core_present).
    split; [|by apply core_open]. split; [by rewrite open_multimaps|]. split; [|by apply holds_open].
    rewrite names_core_open, (initialized_some c n) by (done || apply state_core). done.
  - split; [split; [|split]|].
    + by rewrite !open_multimaps, !insert_multimaps, open_multimaps.
    + rewrite (initialized_some (with_namespace c rn) rn) by (unfold with_namespace; by rewrite Hn).
      assert (names_of (table_open (table_open (table_insert (table_insert (table_open d SOURCE_STATE) SOURCE_STATE SCHEMA_VERSION_KEY SOURCE_SCHEMA_VERSION)
        SOURCE_STATE NAMESPACE_KEY rn) SOURCE_ROWS) SOURCE_LOCATORS) = core_names ∪ names_of d) as ->.
      { rewrite !names_open, !names_insert, names_open. unfold core_names. rewrite !list_to_set_cons'. cbn [list_to_set].
        generalize SOURCE_STATE SOURCE_ROWS SOURCE_LOCATORS. intros a b e. set_solver. }
      eapply catalogue_grow; [exact Hcat|apply core_source|by right].
    + unfold holds. tables. keys. unfold with_namespace. rewrite Hn. cbn [namespace sources prepared_rows wanted default fmap option_fmap option_map].
      unfold with_namespace in Hwf'. rewrite Hn in Hwf'. by split_and!.
    + rewrite !names_open, !names_insert, names_open. unfold core_names. rewrite !list_to_set_cons'. cbn [list_to_set].
      generalize SOURCE_STATE SOURCE_ROWS SOURCE_LOCATORS. intros a b e. set_solver.
Qed.

(** Only selections change in the source state. *)
Lemma ensured_items d c rn : represents d c -> forall k v,
  starts_with k SELECTION_PREFIX = true -> rows_of (ensured d c rn) SOURCE_STATE !! k = Some v <-> rows_of d SOURCE_STATE !! k = Some v.
Proof.
  intros Hr k v Hk. unfold ensured. destruct (namespace c); tables; [done|].
  rewrite !lookup_insert_ne; [done|intros <-; by vm_compute in Hk..].
Qed.

Lemma admit_represents tx c key bytes n :
  represents tx c -> namespace c = Some n -> starts_with key SELECTION_PREFIX = true ->
  represents (table_insert (table_open tx SOURCE_STATE) SOURCE_STATE key bytes) c.
Proof.
  intros (Hm & Hcat & Hh) Hn Hk. pose proof Hh as (Hv & Hns & Hw & Hrows & Hloc & Hprep & Hwf).
  rewrite (initialized_some c n) in Hcat by done. assert (core_names ⊆ names_of tx) as Hcore by (intros x Hx; by eapply core_present).
  split; [by rewrite insert_multimaps, open_multimaps|]. split.
  - rewrite names_core_insert, names_core_open, (initialized_some c n) by (done || apply state_core || by apply core_open). done.
  - unfold holds. tables. rewrite !lookup_insert_ne by (intros E; rewrite E in Hk; by vm_compute in Hk). by split_and!.
Qed.

Lemma selections_exist (items : list (list Z * list Z)) :
  (forall kv, kv ∈ items -> exists s, decode_selection (fst kv) (snd kv) = Ok s) ->
  exists ss, Forall2 (fun kv s => decode_selection (fst kv) (snd kv) = Ok s) items ss.
Proof.
  induction items as [|kv items IH]; intros Hd; [by exists []; constructor|].
  destruct (Hd kv ltac:(left)) as [s Hs]. destruct IH as [ss Hss]; [intros x Hx; apply Hd; by right|].
  exists (s :: ss). by constructor.
Qed.

Lemma selections_elem items ss x :
  Forall2 (fun kv s => decode_selection (fst kv) (snd kv) = Ok s) items ss ->
  x ∈ ss <-> exists kv, kv ∈ items /\ decode_selection (fst kv) (snd kv) = Ok x.
Proof.
  induction 1 as [|kv s items ss Hs Hss IH].
  - split; [intros Hx; by apply elem_of_nil in Hx|]. intros (kv & Hx & _). by apply elem_of_nil in Hx.
  - rewrite elem_of_cons, IH. split.
    + intros [->|(k & Hk & Hd)]; [exists kv; by split; [left|]|exists k; by split; [right|]].
    + intros (k & [->|Hk]%elem_of_cons & Hd); [left; congruence|right; by exists k].
Qed.

(** A decoded selection is at its key. *)
Lemma decoded_key k v s : decode_selection k v = Ok s -> k = selection_key (selection_path s) /\ bytes_ok (selection_path s).
Proof.
  unfold decode_selection. intros Hd. apply bind_ok_inv in Hd as (st & Hst%ok_or_inv & Hd).
  apply bind_ok_inv in Hd as (? & Hg%reject_if_ok & Hd). apply bind_ok_inv in Hd as (p & Hp & Hd). apply ok_inj in Hd as <-.
  unfold source_path_from_locator in Hp. inv_ok. to_prop. subst. split; [done|]. by eapply json_locator.
Qed.

Lemma selection_key_inj l m : bytes_ok l -> bytes_ok m -> selection_key l = selection_key m -> l = m.
Proof.
  intros Hl Hm E. apply app_inv_head in E. pose proof (Uuid.pair_loop_hex l Hl) as H1. rewrite E, Uuid.pair_loop_hex in H1 by done.
  by injection H1.
Qed.

Lemma key_starts l : starts_with (selection_key l) SELECTION_PREFIX = true.
Proof. unfold starts_with, selection_key. by rewrite take_app_length, bool_decide_true. Qed.

Definition others (key : list Z) (items : list (list Z * list Z)) : list (list Z * list Z) :=
  filter (fun kv => fst kv <> key) (filter (fun kv => starts_with (fst kv) SELECTION_PREFIX = true) items).

Lemma admission_charge_outcome key items count charged :
  0 <= count -> 0 <= charged ->
  outcome (admission_charge key items count charged)
    (fun _ => items = [] \/ (count + len (others key items) <= MAX_CURRENT_SOURCES /\
                              charged + item_charges (others key items) <= MAX_CURRENT_SOURCE_BYTES))
    (fun e => e = InventoryLimit).
Proof.
  revert count charged. induction items as [|[k v] items IH]; intros count charged Hcount Hcharged; cbn [admission_charge].
  { apply outcome_ret. by left. }
  apply outcome_seq; [apply check_refines|]. apply outcome_seq; [apply call_refines; auto with eliot|].
  pose proof (len_nonneg k). pose proof (len_nonneg v).
  assert (forall count' charged', 0 <= count' -> 0 <= charged' ->
    count' + len (others key items) = count + len (others key ((k, v) :: items)) ->
    charged' + item_charges (others key items) = charged + item_charges (others key ((k, v) :: items)) ->
    outcome (_ ← lift (reject_if ((MAX_CURRENT_SOURCES <? count') || (MAX_CURRENT_SOURCE_BYTES <? charged')) InventoryLimit);
             admission_charge key items count' charged')
      (fun _ => (k, v) :: items = [] \/ (count + len (others key ((k, v) :: items)) <= MAX_CURRENT_SOURCES /\
                 charged + item_charges (others key ((k, v) :: items)) <= MAX_CURRENT_SOURCE_BYTES))
      (fun e => e = InventoryLimit)) as Hrest.
  { intros count' charged' Hc1 Hc2 E1 E2. apply outcome_guard; [done|]. intros Hg. to_prop.
    eapply outcome_weaken; [by apply IH| |done]. intros _ [->|[? ?]]; right; [|lia].
    change (others key []) with (@nil (list Z * list Z)) in E1, E2. change (len (@nil (list Z * list Z))) with 0 in E1.
    change (item_charges []) with 0 in E2. lia. }
  destruct (starts_with k SELECTION_PREFIX) eqn:Hk; cbn [andb].
  - destruct (decide (k = key)) as [->|Hne].
    + rewrite bool_decide_true by done. cbn [negb]. apply (Hrest count charged); try lia;
        unfold others; rewrite filter_cons_True, filter_cons_False by (done || naive_solver); done.
    + rewrite bool_decide_false by done. cbn [negb].
      assert (others key ((k, v) :: items) = (k, v) :: others key items) as Ho
        by (unfold others; by rewrite !filter_cons_True).
      destruct (checked_add USIZE_MAX charged (len k + len v)) as [next|] eqn:Hadd.
      * apply checked_add_inv in Hadd as [-> _]. apply (Hrest (count + 1) (charged + (len k + len v))); rewrite ?Ho; try lia.
        -- unfold len. cbn [length]. lia.
        -- rewrite item_charges_cons. cbn. lia.
      * intros w. split; [left; done|done].
  - apply (Hrest count charged); try lia; unfold others; rewrite filter_cons, decide_False by (cbn [fst]; by rewrite Hk); done.
Qed.

(** What an admission of [selection] makes of the selections [ss]. *)
Definition selected (selection : AdmittedSelection) (ss ss' : list AdmittedSelection) : Prop :=
  selection ∈ ss' /\ (forall x, x ∈ ss' -> x = selection \/ x ∈ ss) /\
  (forall x, x ∈ ss -> selection_path x <> selection_path selection -> x ∈ ss').

Lemma encoded_selection selection locator :
  bytes_ok (selection_path selection) -> source_locator_bytes (selection_path selection) = Ok locator ->
  decode_selection (selection_key locator)
    (to_vec {| stored_version := 1; stored_locator := locator; stored_kind := selection_kind selection |}) = Ok selection /\
  locator = selection_path selection.
Proof.
  unfold source_locator_bytes. intros Hbytes Hl. apply bind_ok_inv in Hl as (? & Ha%reject_if_ok & Hl).
  apply bind_ok_inv in Hl as (? & Hb%reject_if_ok & Hl). apply ok_inj in Hl as <-. split; [|done].
  unfold decode_selection. rewrite json_roundtrip by done. cbn [ok_or mbind result_bind stored_version stored_locator stored_kind].
  rewrite bool_decide_true by done. cbn [Z.eqb negb orb reject_if mbind result_bind]. unfold source_path_from_locator.
  rewrite Hb, Ha. cbn [reject_if mbind result_bind]. by destruct selection.
Qed.

Lemma insert_selection tx d ss bytes selection :
  let key := selection_key (selection_path selection) in
  selection_items (table_open tx SOURCE_STATE) ≡ₚ selection_items d -> selections_at d ss ->
  bytes_ok (selection_path selection) -> decode_selection key bytes = Ok selection ->
  1 + len (others key (table_iter (table_open tx SOURCE_STATE) SOURCE_STATE)) <= MAX_CURRENT_SOURCES ->
  len key + len bytes + item_charges (others key (table_iter (table_open tx SOURCE_STATE) SOURCE_STATE)) <= MAX_CURRENT_SOURCE_BYTES ->
  exists ss', selections_at (table_insert (table_open tx SOURCE_STATE) SOURCE_STATE key bytes) ss' /\ selected selection ss ss'.
Proof.
  intros key Hitems (Hd & Hn & Hb) Hbytes Hdec Hcount Hcharge.
  pose proof (key_starts (selection_path selection) : starts_with key SELECTION_PREFIX = true) as Hkey.
  change (others key (table_iter (table_open tx SOURCE_STATE) SOURCE_STATE))
    with (filter (fun kv => fst kv <> key) (selection_items (table_open tx SOURCE_STATE))) in Hcount, Hcharge.
  set (new := table_insert (table_open tx SOURCE_STATE) SOURCE_STATE key bytes).
  assert (selection_items new ≡ₚ (key, bytes) :: filter (fun kv => fst kv <> key) (selection_items (table_open tx SOURCE_STATE))) as Hnew.
  { apply NoDup_Permutation; [apply selection_items_nodup| |].
    - constructor; [rewrite list_elem_of_filter; by intros [? _]|apply NoDup_filter, selection_items_nodup].
    - intros [k v]. rewrite elem_of_cons, list_elem_of_filter, !selection_items_in. unfold new. tables. cbn [fst].
      destruct (decide (k = key)) as [->|Hne].
      + rewrite lookup_insert_eq. split; [intros [_ [= <-]]; by left|]. intros [[= <-]|[? _]]; done.
      + rewrite lookup_insert_ne by congruence. split; [intros [? ?]; by right|]. intros [[= ? ?]|[_ ?]]; done. }
  assert (forall kv, kv ∈ selection_items new <-> kv = (key, bytes) \/ (fst kv <> key /\ kv ∈ selection_items d)) as Hin.
  { intros kv. by rewrite Hnew, elem_of_cons, list_elem_of_filter, Hitems. }
  destruct (selections_exist (selection_items new)) as [ss' Hss'].
  { intros kv [->|[_ Hkv]]%Hin; [by exists selection|]. destruct (list_elem_of_lookup_1 _ _ Hkv) as [i Hi].
    destruct (Forall2_lookup_l _ _ _ _ _ Hd Hi) as (x & _ & Hx). by exists x. }
  exists ss'. split; [split; [done|]|split; [|split]].
  - apply Forall2_length in Hss'. split.
    + unfold len in *. rewrite <- Hss', Hnew. cbn [length]. lia.
    + rewrite (item_charges_perm _ _ Hnew), item_charges_cons. cbn [fst snd]. lia.
  - apply (selections_elem _ _ _ Hss'). exists (key, bytes). split; [apply Hin; by left|done].
  - intros x Hx. apply (selections_elem _ _ _ Hss') in Hx as (kv & [->|[_ Hkv]]%Hin & Hx); [left; cbn [fst snd] in Hx; rewrite Hdec in Hx; by injection Hx|right].
    apply (selections_elem _ _ _ Hd). by exists kv.
  - intros x Hx Hpath. apply (selections_elem _ _ _ Hd) in Hx as (kv & Hkv & Hx). apply (selections_elem _ _ _ Hss').
    exists kv. split; [|done]. apply Hin. right. split; [|done]. destruct (decoded_key _ _ _ Hx) as [-> Hxb].
    intros E. by apply Hpath, selection_key_inj.
Qed.

(** What an admission leaves, confirmed or not. *)
Definition admitted d (c : corpus) (ss : list AdmittedSelection) (selection : AdmittedSelection) rn (r : bool * D) : Prop :=
  exists c' ss', represents (snd r) c' /\ selections_at (snd r) ss' /\
    ((c' = c /\ ss' = ss /\ (fst r = true -> selection ∈ ss)) \/ (c' = with_namespace c rn /\ selected selection ss ss')).

Lemma ensured_selections d c rn n :
  represents d c -> selection_items (table_open (ensured d c rn) n) ≡ₚ selection_items d.
Proof.
  intros Hr. apply NoDup_Permutation; [apply selection_items_nodup..|]. intros [k v].
  rewrite !selection_items_in, rows_open. split; intros [? ?]; (split; [done|]); by apply (ensured_items d c rn Hr).
Qed.

(** The version row: the source state of an initialized database is not empty. *)
Lemma state_nonempty tx c n : holds tx c -> namespace c = Some n -> table_iter tx SOURCE_STATE <> [].
Proof.
  intros (Hv & _) Hn E. destruct (iter_law tx SOURCE_STATE) as [_ Hi].
  change (default ∅ (contents tx !! SOURCE_STATE)) with (rows_of tx SOURCE_STATE) in Hi.
  rewrite Hn in Hv. apply Hi in Hv. rewrite E in Hv. by apply elem_of_nil in Hv.
Qed.

Lemma admit_commit d c ss selection rn tx :
  represents d c -> selections_at d ss ->
  (exists ss', represents tx (with_namespace c rn) /\ selections_at tx ss' /\ selected selection ss ss') ->
  outcome (_ ← source_check; commit d tx) (admitted d c ss selection rn) (fun e => e = InvalidLocator \/ e = InventoryLimit).
Proof.
  intros Hr Hss (ss' & Htx & Hss' & Hsel). apply outcome_seq; [apply check_refines|].
  assert (forall b, admitted d c ss selection rn (b, tx)) as Hnew by (intros b; exists (with_namespace c rn), ss'; cbn; split; [done|]; split; [done|]; by right).
  assert (admitted d c ss selection rn (false, d)) as Hold by (exists c, ss; cbn; split; [done|]; split; [done|]; by left).
  intros w. unfold run, commit. destruct w as [|o w]; cbn; [split; [apply Hnew|constructor]|].
  destruct o; cbn; (split; [auto|]); intros Hc; apply Forall_cons in Hc as [Ho Hc]; done.
Qed.

Lemma admit_outcome d c ss selection rn :
  represents d c -> selections_at d ss -> Uuid.wf rn -> bytes_ok (selection_path selection) ->
  outcome (admit_selection_database d selection rn)
    (admitted d c ss selection rn) (fun e => e = InvalidLocator \/ e = InventoryLimit).
Proof.
  intros Hr Hss Hrn Hbytes. unfold admit_selection_database.
  apply outcome_seq; [apply check_refines|]. apply outcome_pure.
  2: { unfold source_locator_bytes. intros e He. left. destruct (negb _); cbn in He; [congruence|]. destruct (_ || _); cbn in He; congruence. }
  intros locator Hloc. destruct (encoded_selection selection locator Hbytes Hloc) as [Henc ->]. cbv zeta.
  set (key := selection_key (selection_path selection)) in *. set (bytes := to_vec _) in *.
  pose proof (key_starts (selection_path selection) : starts_with key SELECTION_PREFIX = true) as Hkey.
  apply outcome_seq; [apply call_refines; auto with eliot|].
  destruct (ensured_represents d c rn Hr Hrn) as [Hrt Hcore]. pose proof (ensured_selections d c rn SOURCE_STATE Hr) as Hitems.
  pose proof (ensured_items d c rn Hr) as Hrows.
  eapply outcome_known; [by apply ensure_refines|]. set (tx := ensured d c rn) in *.
  eapply outcome_known; [apply refines_open_write; auto with eliot|].
  eapply outcome_known; [apply refines_get; auto with eliot|]. rewrite rows_open.
  assert (forall v, rows_of tx SOURCE_STATE !! key = Some v -> exists x, x ∈ ss /\ decode_selection key v = Ok x) as Hfound.
  { intros v Hv. apply (Hrows key v Hkey) in Hv. assert ((key, v) ∈ selection_items d) as Hin by (by apply selection_items_in).
    destruct (list_elem_of_lookup_1 _ _ Hin) as [i Hi]. destruct (Forall2_lookup_l _ _ _ _ _ (proj1 Hss) Hi) as (x & Hx & Hdec).
    exists x. split; [by eapply list_elem_of_lookup_2|done]. }
  apply outcome_pure.
  2: { intros e He. destruct (rows_of tx SOURCE_STATE !! key) as [v|]; [|done]. destruct (Hfound v eq_refl) as (x & _ & Hx). by rewrite Hx in He. }
  intros same Hsame. destruct same.
  { apply outcome_ret. exists c, ss. split; [done|]. split; [done|]. left. split; [done|]. split; [done|]. intros _.
    destruct (rows_of tx SOURCE_STATE !! key) as [v|]; [|done]. destruct (Hfound v eq_refl) as (x & Hx & Hdec). rewrite Hdec in Hsame.
    cbn in Hsame. apply ok_inj, bool_decide_eq_true_1 in Hsame. by subst. }
  eapply outcome_known; [apply refines_iterate; auto with eliot|]. pose proof (len_nonneg key). pose proof (len_nonneg bytes).
  eapply outcome_bind; [eapply outcome_weaken; [apply (admission_charge_outcome key _ 1 (len key + len bytes)); lia|intros ? Hq; exact Hq|by right]|].
  intros _ [Hnil|[Hcount Hcharges]].
  { exfalso. eapply (state_nonempty (table_open tx SOURCE_STATE)); [apply holds_open, Hrt|reflexivity|exact Hnil]. }
  eapply outcome_known; [apply refines_insert; auto with eliot|]. apply admit_commit; [done|done|].
  destruct (insert_selection tx d ss bytes selection) as (ss' & Hss' & Hsel); [done..|].
  exists ss'. split; [|by split]. by eapply admit_represents.
Qed.

(** Whatever the stored selections are, an admission changes at most the namespace of the
    corpus. *)
Lemma admit_represents_any d c selection rn :
  represents d c -> Uuid.wf rn ->
  outcome (admit_selection_database d selection rn)
    (fun r => represents (snd r) c \/ represents (snd r) (with_namespace c rn)) (fun _ => True).
Proof.
  intros Hr Hrn. unfold admit_selection_database. destruct (ensured_represents d c rn Hr Hrn) as [Hrt Hcore].
  apply outcome_seq; [apply check_refines|]. apply outcome_pure; [|done]. intros locator _. cbv zeta.
  apply outcome_seq; [apply call_refines; auto with eliot|]. eapply outcome_known; [by apply ensure_refines|].
  eapply outcome_known; [apply refines_open_write; auto with eliot|].
  eapply outcome_known; [apply refines_get; auto with eliot|]. apply outcome_pure; [|done]. intros [] _; [apply outcome_ret; by left|].
  eapply outcome_known; [apply refines_iterate; auto with eliot|].
  eapply (outcome_bind _ _ (fun _ => True)).
  { eapply outcome_weaken; [apply admission_charge_outcome|done|done]; pose proof (len_nonneg (selection_key locator)).
    - lia.
    - pose proof (len_nonneg (to_vec {| stored_version := 1; stored_locator := locator; stored_kind := selection_kind selection |})). lia. }
  intros _ _. eapply outcome_known; [apply refines_insert; auto with eliot|]. apply outcome_seq; [apply check_refines|].
  assert (represents (table_insert (table_open (ensured d c rn) SOURCE_STATE) SOURCE_STATE (selection_key locator)
    (to_vec {| stored_version := 1; stored_locator := locator; stored_kind := selection_kind selection |})) (with_namespace c rn)) as Hnew
    by (eapply admit_represents; [done|reflexivity|apply key_starts]).
  intros w. unfold run, commit. destruct w as [|o w]; cbn; [split; [by right|constructor]|].
  destruct o; cbn; (split; [auto|]); intros Hc; apply Forall_cons in Hc as [Ho Hc]; done.
Qed.
End Admission.

(** C15. Admission keeps the selections readable.  From a database that stands for a corpus
    and whose stored selections are within the bounds of the reader (4,096 selections,
    16 MiB of keys and values), admitting one more, whatever the environment does, leaves
    such a database: the reader returns every selection, among them the admitted one when
    the commit was confirmed, with its kind replaced if the path was there before and every
    other path untouched; no registered source, preparation or wanted revision changes.
    An admission that would break a bound is refused before anything is written. *)
Theorem admission_bounded `{SelectionJson} {D : Type} `{Redb D} (d : D) c ss selection rn w :
  represents d c -> selections_at d ss -> Uuid.wf rn -> bytes_ok (selection_path selection) ->
  match run (admit_selection_database d selection rn) w with
  | Ok (confirmed, d') =>
      exists c' ss', represents d' c' /\ selections_at d' ss' /\ len ss' <= 4096 /\
        refines (capture_selections_database d') (Ok ss') /\
        (confirmed = true -> selection ∈ ss') /\ (forall x, x ∈ ss' -> x = selection \/ x ∈ ss) /\
        (forall x, x ∈ ss -> selection_path x <> selection_path selection -> x ∈ ss') /\
        sources c' = sources c /\ prepared_rows c' = prepared_rows c /\ wanted c' = wanted c
  | Err e => (e = InvalidLocator \/ e = InventoryLimit) \/ (interrupt e /\ ~ calm w)
  end.
Proof.
  intros Hr Hss Hrn Hb. destruct (admit_outcome d c ss selection rn Hr Hss Hrn Hb w) as [Hout _].
  destruct (run _ w) as [[confirmed d']|e]; [|done]. destruct Hout as (c' & ss' & Hr' & Hss' & Hcases). cbn in *.
  exists c', ss'. split; [done|]. split; [done|]. split; [apply Hss'|]. split; [by eapply capture_selections_refines|].
  destruct Hcases as [(-> & -> & Hin)|(-> & Hin & Hold & Hkeep)]; [by split_and!; auto|by split_and!].
Qed.

(** One codec with these laws. *)
#[export] Instance sample_json : SelectionJson.
Proof.
  refine {|
    from_slice v := match v with
      | version :: tag :: l =>
          if bool_decide (bytes_ok l)
          then Some {| stored_version := version; stored_locator := l; stored_kind := if tag =? 0 then File else Tree |}
          else None
      | _ => None
      end;
    to_vec s := stored_version s :: (match stored_kind s with File => 0 | Tree => 1 end) :: stored_locator s |}.
  - intros [version l k] Hl. cbn in *. rewrite bool_decide_true by done. by destruct k.
  - intros [|version [|tag l]] s Hs; [done|done|]. case_bool_decide; [|done]. by injection Hs as <-.
Defined.

Lemma admission_bounded_witness :
  (represents sample_store sample_corpus /\ selections_at sample_store [] /\ Uuid.wf sample_namespace /\ bytes_ok (str "/notes")) /\
  exists d', run (admit_selection_database sample_store {| selection_path := str "/notes"; selection_kind := Tree |} sample_namespace) []
    = Ok (true, d') /\
  exists ss, refines (capture_selections_database d') (Ok ss) /\ {| selection_path := str "/notes"; selection_kind := Tree |} ∈ ss.
Proof.
  assert (selections_at sample_store []) as Hss.
  { assert (selection_items sample_store = []) as E by (vm_compute; reflexivity).
    split; [rewrite E; constructor|]. split; [vm_compute; discriminate|]. rewrite E. vm_compute. discriminate. }
  assert (Uuid.wf sample_namespace) as Hn by (split; [reflexivity|apply (bool_decide_eq_true_1 _); vm_compute; reflexivity]).
  assert (bytes_ok (str "/notes")) as Hb by (apply (bool_decide_eq_true_1 _); vm_compute; reflexivity).
  split; [exact (conj sample_represents (conj Hss (conj Hn Hb)))|].
  pose proof (admission_bounded sample_store sample_corpus [] {| selection_path := str "/notes"; selection_kind := Tree |}
    sample_namespace [] sample_represents Hss Hn Hb) as Hout.
  assert (match run (admit_selection_database sample_store {| selection_path := str "/notes"; selection_kind := Tree |} sample_namespace) []
    with Ok (b, _) => b | Err _ => false end = true) as E by (vm_compute; reflexivity).
  destruct (run (admit_selection_database sample_store {| selection_path := str "/notes"; selection_kind := Tree |} sample_namespace) [])
    as [[b d']|e]; [|discriminate E]. subst b. exists d'. split; [reflexivity|].
  destruct Hout as (c' & ss' & _ & _ & _ & Hread & Hin & _). exists ss'. exact (conj Hread (Hin eq_refl)).
Defined.
