(* ===== verification/PreparationControl.v ===== *)
(** Preparation control (crates/search-control-redb/src/current_preparation.rs): the read
    of one source with its preparation, the selection of settings and the guarded commit of
    an outcome, as transactions of the same database. *)

From stdpp Require Import gmap.
From S2P Require Import Prelude Bytes Ids Registry SourceRow PreparationRow Database Control.

Module Prep := PreparationControlError.

(** The failures an environment can cause; a failed [open_table] of the source readers is
    reported as corruption. *)
#[export] Instance preparation_interrupt : Interrupt Prep.t := fun e =>
  e ∈ [Prep.Cancelled; Prep.Deadline; Prep.Database; Prep.Corrupt].
Lemma preparation_interrupt_in e :
  bool_decide (e ∈ [Prep.Cancelled; Prep.Deadline; Prep.Database; Prep.Corrupt]) = true -> interrupt e.
Proof. apply bool_decide_eq_true_1. Qed.
Lemma selection_cancelled : interrupt Prep.Cancelled. Proof. by apply preparation_interrupt_in. Qed.
Lemma selection_deadline : interrupt Prep.Deadline. Proof. by apply preparation_interrupt_in. Qed.
Lemma preparation_database : interrupt Prep.Database. Proof. by apply preparation_interrupt_in. Qed.
Lemma source_error_interrupt e : interrupt e -> interrupt (source_error e).
Proof. destruct e; intros H; try (by apply preparation_interrupt_in); revert H; unfold interrupt, source_interrupt; set_solver. Qed.
#[export] Hint Resolve selection_cancelled selection_deadline preparation_database source_error_interrupt : eliot.

Definition preparation_check : M Prep.t unit := check_with Prep.Cancelled Prep.Deadline.

(** [value.map(decode).transpose()] *)
Definition decode_found (value : option (list Z)) : result Prep.t (option CurrentPreparation) :=
  match value with
  | None => Ok None
  | Some bytes => row ← decode_preparation bytes; Ok (Some row)
  end.

Section Preparations.
Context {D : Type} `{Redb D}.
Implicit Types d tx : D.

Definition read_database d (id : list Z) : M Prep.t (CurrentSourceRecord * option CurrentPreparation) :=
  _ ← preparation_check;
  _ ← call Prep.Database;
  _ ← call Prep.Database;
  let names := list_tables d in
  _ ← call Prep.Database;
  let multi := negb (len (list_multimap_tables d) =? 0) in
  current ← lift (map_err source_error (catalogue_names names multi));
  _ ← lift (reject_if (negb current) Prep.NotRetained);
  source ← lift_err source_error (read_source_by_id d id);
  source ← lift (ok_or Prep.NotRetained source);
  ns ← lift_err source_error (read_namespace d);
  ns ← lift (ok_or Prep.Corrupt ns);
  _ ← lift (reject_if (negb (bool_decide (ns = source_namespace_id source))) Prep.Corrupt);
  exists_table ← open_optional Prep.Database d PREPARATIONS;
  row ← (if exists_table : bool then
           value ← get Prep.Database d PREPARATIONS id; lift (decode_found value)
         else mret None);
  _ ← lift match row with
    | Some r => reject_if (negb (bool_decide (prep_source_id r = id)) || negb (bool_decide (prep_namespace r = ns))) Prep.Corrupt
    | None => Ok tt
    end;
  _ ← preparation_check;
  mret (source, row).

(** [write_source], with the transaction whose tables it opened. *)
Definition write_source tx (id : list Z) : M Prep.t (D * CurrentSourceRecord) :=
  tx ← open_write Prep.Database tx SOURCE_STATE;
  version ← get Prep.Database tx SOURCE_STATE SCHEMA_VERSION_KEY;
  version ← lift (ok_or Prep.Corrupt version);
  _ ← lift (reject_if (negb (bool_decide (version = SOURCE_SCHEMA_VERSION))) Prep.UnsupportedSchema);
  ns ← get Prep.Database tx SOURCE_STATE NAMESPACE_KEY;
  ns ← lift (ok_or Prep.Corrupt ns);
  tx ← open_write Prep.Database tx SOURCE_ROWS;
  value ← get Prep.Database tx SOURCE_ROWS id;
  value ← lift (ok_or Prep.NotRetained value);
  source ← lift (map_err source_error (decode_record value));
  _ ← lift (reject_if (negb (bool_decide (source_id source = id))
              || negb (bool_decide (source_namespace_id source = ns))) Prep.Corrupt);
  mret (tx, source).

(** The row [write_settings] stores. *)
Definition next_settings (source : CurrentSourceRecord) (id : list Z) (chosen : PreparationSettings)
    (found : option CurrentPreparation) : result Prep.t CurrentPreparation :=
  match found with
  | Some row =>
      revision ← ok_or Prep.RevisionExhausted (checked_add U64_MAX (settings_revision row) 1);
      Ok {| prep_namespace := prep_namespace row; prep_source_id := prep_source_id row;
            settings_revision := revision; settings := chosen;
            outcome_revision := outcome_revision row; current_outcome := current_outcome row |}
  | None =>
      Ok {| prep_namespace := source_namespace_id source; prep_source_id := id; settings_revision := 1;
            settings := chosen; outcome_revision := 0; current_outcome := None |}
  end.

Definition write_settings d (id : list Z) (chosen : PreparationSettings) (source : CurrentSourceRecord)
    (previous : option CurrentPreparation) : M Prep.t (D * CurrentPreparation) :=
  _ ← call Prep.Database;
  current ← write_source d id;
  let '(tx, current) := current in
  _ ← lift (reject_if (negb (bool_decide (source_namespace_id current = source_namespace_id source))
              || negb (registration_revision current =? registration_revision source)) Prep.Stale);
  tx ← open_write Prep.Database tx PREPARATIONS;
  found ← get Prep.Database tx PREPARATIONS id;
  found ← lift (decode_found found);
  _ ← lift (reject_if (negb (bool_decide (found = previous))) Prep.Stale);
  row ← lift (next_settings source id chosen found);
  bytes ← lift (encode_preparation row);
  tx ← insert Prep.Database tx PREPARATIONS id bytes;
  tx ← lift_err source_error (advance_wanted_revision tx);
  mret (tx, row).

(** [capture_view] *)
Definition capture_view (source : CurrentSourceRecord) (row : option CurrentPreparation) : result Prep.t PreparationCapture :=
  row ← ok_or Prep.NotSelected row;
  Ok {| capture_source := source; capture_settings := settings row;
        capture_settings_revision := settings_revision row;
        expected_outcome_revision := outcome_revision row; expected_outcome := current_outcome row |}.

(** [check_outcome] *)
Definition check_outcome (result : PreparationOutcome) : M Prep.t unit :=
  _ ← preparation_check;
  lift match result with
    | Ready artifact => reject_if (negb (valid_object artifact Prepared)) Prep.InvalidOutcome
    | Gap _ => Ok tt
    end.

(** The guard of [write_outcome] on the stored row. *)
Definition outcome_guard (capture : PreparationCapture) (source : CurrentSourceRecord) (row : CurrentPreparation) : bool :=
  let outcome_changed := negb (bool_decide ((outcome_revision row, current_outcome row)
    = (expected_outcome_revision capture, expected_outcome capture))) in
  negb (bool_decide (prep_namespace row = source_namespace_id source))
  || negb (bool_decide (prep_source_id row = source_id source))
  || negb (settings_revision row =? capture_settings_revision capture)
  || negb (bool_decide (settings row = capture_settings capture))
  || outcome_changed.

(** [matches!(result, Gap { .. }) && ..]: a gap found after a ready outcome of the same
    input does not replace it. *)
Definition keeps_ready (capture : PreparationCapture) (source : CurrentSourceRecord) (row : CurrentPreparation)
    (result : PreparationOutcome) : bool :=
  match result, current_outcome row with
  | Gap _, Some o =>
      matches_input o source (capture_settings capture)
      && match outcome_result o with Ready _ => true | Gap _ => false end
  | _, _ => false
  end.

Definition bind_outcome (capture : PreparationCapture) (source : CurrentSourceRecord) (result : PreparationOutcome)
    : BoundPreparationOutcome :=
  {| source_row_revision := row_revision source; bound_registration := registration_revision source;
     input := object_ref source; bound_settings := capture_settings capture; outcome_result := result |}.

Definition with_outcome (row : CurrentPreparation) (revision : Z) (o : BoundPreparationOutcome) : CurrentPreparation :=
  {| prep_namespace := prep_namespace row; prep_source_id := prep_source_id row;
     settings_revision := settings_revision row; settings := settings row;
     outcome_revision := revision; current_outcome := Some o |}.

Definition write_outcome d (capture : PreparationCapture) (result : PreparationOutcome)
    : M Prep.t (option D * CurrentPreparation) :=
  _ ← call Prep.Database;
  written ← write_source d (source_id (capture_source capture));
  let '(tx, source) := written in
  _ ← lift (reject_if (negb (bool_decide (source = capture_source capture))) Prep.Stale);
  tx ← open_write Prep.Database tx PREPARATIONS;
  value ← get Prep.Database tx PREPARATIONS (source_id source);
  value ← lift (ok_or Prep.Stale value);
  row ← lift (decode_preparation value);
  _ ← lift (reject_if (outcome_guard capture source row) Prep.Stale);
  if keeps_ready capture source row result then mret (None, row)
  else
    let outcome := bind_outcome capture source result in
    if bool_decide (current_outcome row = Some outcome) then mret (None, row)
    else
      revision ← lift (ok_or Prep.RevisionExhausted (checked_add U64_MAX (outcome_revision row) 1));
      let row := with_outcome row revision outcome in
      bytes ← lift (encode_preparation row);
      tx ← insert Prep.Database tx PREPARATIONS (source_id source) bytes;
      tx ← lift_err source_error (advance_wanted_revision tx);
      mret (Some tx, row).

(** ** The operations of [ControlWriter]

    The answer, whether the commit was confirmed, and the state it leaves.  An unconfirmed
    commit is answered [Database] ([finish_borrowed_commit]). *)

Definition finish_borrowed_commit d tx (proposed : CurrentPreparation) : M Prep.t (CurrentPreparation * (bool * D)) :=
  _ ← preparation_check;
  committed ← commit d tx;
  mret (proposed, committed).

Definition select_settings_on d (id : list Z) (chosen : PreparationSettings) (initialize_only : bool)
    : M Prep.t (CurrentPreparation * (bool * D)) :=
  _ ← lift (reject_if (negb (is_supported chosen)) Prep.InvalidSettings);
  view ← read_database d id;
  let '(source, previous) := view in
  match previous with
  | Some row =>
      if initialize_only || bool_decide (settings row = chosen) then mret (row, (true, d))
      else
        written ← write_settings d id chosen source previous;
        finish_borrowed_commit d (fst written) (snd written)
  | None =>
      written ← write_settings d id chosen source previous;
      finish_borrowed_commit d (fst written) (snd written)
  end.

Definition commit_outcome_on d (capture : PreparationCapture) (result : PreparationOutcome)
    : M Prep.t (CurrentPreparation * (bool * D)) :=
  _ ← check_outcome result;
  written ← write_outcome d capture result;
  match written with
  | (Some tx, row) => finish_borrowed_commit d tx row
  | (None, row) => mret (row, (true, d))
  end.

Definition settled {A} d (m : M Prep.t (A * (bool * D))) (w : env) : (result Prep.t A * D) * env :=
  match m w with
  | (Ok (a, (true, d')), w') => ((Ok a, d'), w')
  | (Ok (_, (false, d')), w') => ((Err Prep.Database, d'), w')
  | (Err e, w') => ((Err e, d), w')
  end.

(** [ControlWriter::{ensure_preparation_settings, capture_preparation, commit_preparation}] *)
Definition ensure_preparation_settings d (id : list Z) (w : env) :=
  settled d (select_settings_on d id default_settings true) w.
Definition capture_preparation d (id : list Z) : M Prep.t PreparationCapture :=
  view ← read_database d id;
  let '(source, row) := view in
  lift (capture_view source row).
Definition commit_preparation d capture result (w : env) := settled d (commit_outcome_on d capture result) w.

(** ** The operations on a path

    Each opens the database itself; an unconfirmed commit is resolved by reading the
    preparation back. *)

Definition read_view d (id : list Z) : M Prep.t (CurrentSourceRecord * option CurrentPreparation) :=
  _ ← preparation_check;
  _ ← call Prep.Database;
  observed ← read_database d id;
  _ ← call Prep.Database;
  mret observed.

Definition finish_commit d (m : M Prep.t (CurrentPreparation * (bool * D))) (w : env)
    : (result Prep.t CurrentPreparation * D) * env :=
  match m w with
  | (Ok (row, (true, d')), w') => ((Ok row, d'), w')
  | (Ok (proposed, (false, d')), w') =>
      let '(observed, w'') := read_view d' (prep_source_id proposed) w' in
      (match observed with
       | Ok (_, observed) => if bool_decide (observed = Some proposed) then Ok proposed else Err Prep.Stale
       | Err e => Err e
       end, d', w'')
  | (Err e, w') => ((Err e, d), w')
  end.

Definition path_select_settings d (id : list Z) (chosen : PreparationSettings) (initialize_only : bool) :=
  finish_commit d
    (_ ← lift (reject_if (negb (is_supported chosen)) Prep.InvalidSettings);
     view ← read_view d id;
     let '(source, previous) := view in
     let write := (_ ← call Prep.Database; written ← write_settings d id chosen source previous;
                   finish_borrowed_commit d (fst written) (snd written)) in
     match previous with
     | Some row => if initialize_only || bool_decide (settings row = chosen) then mret (row, (true, d)) else write
     | None => write
     end).

(** [ensure_preparation_settings] *)
Definition path_ensure_settings d (id : list Z) (w : env) : (result Prep.t CurrentPreparation * D) * env :=
  match read_view d id w with
  | (Ok (_, Some row), w') => ((Ok row, d), w')
  | (Ok (_, None), w') => path_select_settings d id default_settings true w'
  | (Err e, w') => ((Err e, d), w')
  end.

Definition path_commit_preparation d (capture : PreparationCapture) (result : PreparationOutcome) :=
  finish_commit d
    (_ ← check_outcome result;
     _ ← call Prep.Database;
     written ← write_outcome d capture result;
     match written with
     | (Some tx, row) => finish_borrowed_commit d tx row
     | (None, row) => mret (row, (true, d))
     end).
End Preparations.
