(* ===== verification/PreparationSpec.v ===== *)
(** The preparations of a corpus, the specification of each preparation operation, and the
    proof that the transactions implement it. *)

From stdpp Require Import gmap.
From S2P Require Import Prelude Bytes Ids Registry SourceRow PreparationRow Database Control.
From S2P Require Import ControlSpec ControlRefine ControlState PreparationControl.

Abbreviation preparations := (gmap (list Z) CurrentPreparation).

(** A stored preparation of a registered source. *)
Definition preparation_ok (c : corpus) (id : list Z) (p : CurrentPreparation) : Prop :=
  preparation_wf p /\ validate_row p = Ok tt /\ prep_source_id p = id /\
  namespace c = Some (prep_namespace p) /\ is_Some (sources c !! id).

(** The preparation table holds these preparations. *)
Definition prepared (c : corpus) (ps : preparations) : Prop :=
  prepared_rows c = row_bytes <$> ps /\ forall id p, ps !! id = Some p -> preparation_ok c id p.

(** What [read_database] reads. *)
Definition view_spec (c : corpus) (ps : preparations) (id : list Z)
    : result Prep.t (CurrentSourceRecord * option CurrentPreparation) :=
  source ← ok_or Prep.NotRetained (sources c !! id); Ok (source, ps !! id).

(** The corpus after a preparation is written. *)
Definition with_preparation (c : corpus) (id : list Z) (p : CurrentPreparation) (next : Z) : corpus :=
  {| namespace := namespace c; sources := sources c; prepared_rows := <[id := row_bytes p]> (prepared_rows c);
     wanted := next |}.

(** Writing one preparation: an exhausted wanted revision is reported as [Database]. *)
Definition write_spec (c : corpus) (id : list Z) (p : CurrentPreparation) : result Prep.t (CurrentPreparation * option corpus) :=
  next ← ok_or Prep.Database (checked_add U64_MAX (wanted c) 1);
  Ok (p, Some (with_preparation c id p next)).

(** Choosing settings against a view read before. *)
Definition settings_spec (c : corpus) (ps : preparations) (id : list Z) (chosen : PreparationSettings)
    (source : CurrentSourceRecord) (previous : option CurrentPreparation)
    : result Prep.t (CurrentPreparation * option corpus) :=
  _ ← ok_or Prep.Corrupt (namespace c);
  current ← ok_or Prep.NotRetained (sources c !! id);
  _ ← reject_if (negb (bool_decide (source_namespace_id current = source_namespace_id source))
        || negb (registration_revision current =? registration_revision source)) Prep.Stale;
  _ ← reject_if (negb (bool_decide (ps !! id = previous))) Prep.Stale;
  row ← next_settings source id chosen previous;
  write_spec c id row.

(** Selecting settings: what is already selected stays. *)
Definition select_spec (c : corpus) (ps : preparations) (id : list Z) (chosen : PreparationSettings)
    (initialize_only : bool) : result Prep.t (CurrentPreparation * option corpus) :=
  _ ← reject_if (negb (is_supported chosen)) Prep.InvalidSettings;
  source ← ok_or Prep.NotRetained (sources c !! id);
  match ps !! id with
  | Some row =>
      if initialize_only || bool_decide (settings row = chosen) then Ok (row, None)
      else row ← next_settings source id chosen (Some row); write_spec c id row
  | None => row ← next_settings source id chosen None; write_spec c id row
  end.

(** Committing an outcome: every captured guard must still hold; a gap does not replace a
    ready outcome of the same input, and the outcome already stored is not written again. *)
Definition outcome_spec (c : corpus) (ps : preparations) (capture : PreparationCapture) (result : PreparationOutcome)
    : Prelude.result Prep.t (CurrentPreparation * option corpus) :=
  _ ← match result with
    | Ready artifact => reject_if (negb (valid_object artifact Prepared)) Prep.InvalidOutcome
    | Gap _ => Ok tt
    end;
  let id := source_id (capture_source capture) in
  _ ← ok_or Prep.Corrupt (namespace c);
  source ← ok_or Prep.NotRetained (sources c !! id);
  _ ← reject_if (negb (bool_decide (source = capture_source capture))) Prep.Stale;
  row ← ok_or Prep.Stale (ps !! id);
  _ ← reject_if (outcome_guard capture source row) Prep.Stale;
  if keeps_ready capture source row result then Ok (row, None)
  else
    let outcome := bind_outcome capture source result in
    if bool_decide (current_outcome row = Some outcome) then Ok (row, None)
    else
      revision ← ok_or Prep.RevisionExhausted (checked_add U64_MAX (outcome_revision row) 1);
      write_spec c id (with_outcome row revision outcome).

Section Preparations.
Context {D : Type} `{Redb D}.
Implicit Types (d tx : D) (c : corpus) (ps : preparations).

Lemma preparation_check_refines : refines preparation_check (Ok tt).
Proof. unfold preparation_check. apply refines_check; auto with eliot. Qed.

Lemma prep_call_refines : refines (call Prep.Database) (Ok tt).
Proof. apply refines_call. auto with eliot. Qed.

Lemma source_refines {A} (m : M SourceControlError A) (r : result SourceControlError A) :
  refines m r -> refines (lift_err source_error m) (map_err source_error r).
Proof. intros Hm. apply refines_lift_err; [auto with eliot|done]. Qed.

(** The rows of the preparation table decode to the preparations. *)
Lemma decode_stored c ps id :
  prepared c ps -> decode_found (prepared_rows c !! id) = Ok (ps !! id).
Proof.
  intros [Hrows Hok]. rewrite Hrows, lookup_fmap. destruct (ps !! id) as [p|] eqn:Hp; [|done]. cbn [fmap option_fmap option_map decode_found].
  destruct (Hok id p Hp) as (Hwf & Hv & _). pose proof (row_bytes_ok p Hwf) as Hb. pose proof (row_bytes_len p Hwf) as Hl.
  rewrite (proj2 (decode_preparation_ok p (row_bytes p) Hb ltac:(width))); [done|]. by split.
Qed.

Lemma read_database_refines d c ps id :
  represents d c -> prepared c ps -> refines (read_database d id) (view_spec c ps id).
Proof.
  intros Hr Hp. pose proof Hr as (Hm & Hcat & Hh). pose proof Hh as (_ & _ & _ & _ & _ & Hprep & Hwf).
  pose proof Hwf as (Hns & _ & Hrow & _). unfold read_database, view_spec.
  apply refines_seq; [apply preparation_check_refines|]. apply refines_seq; [apply prep_call_refines|].
  apply refines_seq; [apply prep_call_refines|]. cbv zeta. apply refines_seq; [apply prep_call_refines|]. cbv zeta.
  rewrite Hm. change (negb (len (@nil (list Z)) =? 0)) with false. destruct (list_tables_names d) as [Hnd Hin].
  rewrite (catalogue_ok (list_tables d) (names_of d) (initialized c)) by done. cbn [map_err]. rewrite lift_ok_bind.
  destruct (namespace c) as [n|] eqn:Hn.
  2: { unfold initialized. rewrite bool_decide_false by (rewrite Hn; by intros [? ?]).
       destruct (sources c !! id) eqn:Hs; [destruct (Hrow _ _ Hs) as (_ & ? & _); congruence|]. apply refines_fail. }
  rewrite (initialized_some c n) by done. cbn [negb reject_if]. rewrite lift_ok_bind.
  eapply refines_bind_ok.
  { by apply (source_refines _ (Ok (sources c !! id))), (source_by_id_refines d c n). }
  destruct (sources c !! id) as [source|] eqn:Hs; cbn [ok_or]; [|apply refines_fail]. rewrite lift_ok_bind.
  destruct (Hrow _ _ Hs) as (Hid & Hsn & _).
  eapply refines_bind_ok.
  { by apply (source_refines _ (Ok (Some n))), (namespace_refines d c n). }
  cbn [ok_or]. rewrite lift_ok_bind, bool_decide_true by congruence. cbn [negb reject_if]. rewrite lift_ok_bind.
  unfold open_optional. apply refines_assoc, refines_seq; [apply prep_call_refines|]. apply refines_seq_ret.
  assert (decode_found (rows_of d PREPARATIONS !! id) = Ok (ps !! id)) as Hdec by (rewrite Hprep; by apply decode_stored).
  eapply (refines_bind_ok _ (ps !! id)).
  { case_bool_decide as Hin'.
    - eapply refines_bind_ok; [apply refines_get; auto with eliot|]. rewrite Hdec. apply refines_lift.
    - assert (rows_of d PREPARATIONS = ∅) as He.
      { unfold rows_of. rewrite Hin in Hin'. unfold names_of in Hin'. apply not_elem_of_dom in Hin'. by rewrite Hin'. }
      rewrite He, lookup_empty in Hdec. cbn in Hdec. apply ok_inj in Hdec as <-. apply refines_ret. }
  destruct (ps !! id) as [p|] eqn:Hpid.
  - destruct (proj2 Hp id p Hpid) as (_ & _ & Hpi & Hpn & _). rewrite !bool_decide_true by congruence. cbn [negb orb reject_if].
    rewrite lift_ok_bind. apply refines_seq; [apply preparation_check_refines|]. apply refines_ret.
  - rewrite lift_ok_bind. apply refines_seq; [apply preparation_check_refines|]. apply refines_ret.
Qed.

Lemma write_source_refines tx c id :
  holds tx c ->
  refines (write_source tx id)
    (_ ← ok_or Prep.Corrupt (namespace c);
     source ← ok_or Prep.NotRetained (sources c !! id);
     Ok (table_open (table_open tx SOURCE_STATE) SOURCE_ROWS, source)).
Proof.
  intros Hh. pose proof Hh as (Hv & Hns & _ & _ & _ & _ & (_ & _ & Hrow & _)). unfold write_source.
  eapply refines_bind_ok; [apply refines_open_write; auto with eliot|].
  eapply refines_bind_ok; [apply refines_get; auto with eliot|]. rewrite rows_open, Hv.
  destruct (namespace c) as [n|] eqn:Hn; cbn [fmap option_fmap option_map ok_or mbind result_bind]; [|apply refines_fail].
  rewrite lift_ok_bind, bool_decide_true by done. cbn [negb reject_if]. rewrite lift_ok_bind.
  eapply refines_bind_ok; [apply refines_get; auto with eliot|]. rewrite rows_open, Hns. cbn [ok_or]. rewrite lift_ok_bind.
  eapply refines_bind_ok; [apply refines_open_write; auto with eliot|].
  eapply refines_bind_ok; [apply refines_get; auto with eliot|]. rewrite !rows_open, (rows_lookup tx c) by done.
  destruct (sources c !! id) as [r|] eqn:Hr; cbn [fmap option_fmap option_map ok_or mbind result_bind]; [|apply refines_fail].
  destruct (Hrow _ _ Hr) as (Hid & Hrn & Hok). rewrite lift_ok_bind, (decode_row r Hok). cbn [map_err].
  rewrite lift_ok_bind, !bool_decide_true by congruence. cbn [negb orb reject_if]. rewrite lift_ok_bind. apply refines_ret.
Qed.
End Preparations.

(** ** Writing a preparation *)

Definition stored_tx {D} `{Redb D} (tx : D) (id bytes : list Z) (next : Z) : D :=
  advanced (table_insert (table_open (table_open (table_open tx SOURCE_STATE) SOURCE_ROWS) PREPARATIONS) PREPARATIONS id bytes) next.

Section Writes.
Context {D : Type} `{Redb D}.
Implicit Types (d tx : D) (c : corpus) (ps : preparations).

Lemma stored_represents d c id p :
  represents d c -> is_Some (namespace c) -> 0 <= wanted c + 1 <= U64_MAX ->
  represents (stored_tx d id (row_bytes p) (wanted c + 1)) (with_preparation c id p (wanted c + 1)).
Proof.
  intros (Hm & Hcat & Hh) [n Hn] Hw. unfold stored_tx.
  set (tx := table_insert _ PREPARATIONS id (row_bytes p)).
  assert (names_of tx = {[PREPARATIONS]} ∪ ({[SOURCE_ROWS]} ∪ ({[SOURCE_STATE]} ∪ names_of d))) as Hnames.
  { unfold tx. rewrite names_insert, !names_open. generalize PREPARATIONS SOURCE_ROWS SOURCE_STATE. set_solver. }
  rewrite (initialized_some c n) in Hcat by done. split; [|split].
  - unfold advanced, tx. by rewrite !insert_multimaps, !open_multimaps, insert_multimaps, !open_multimaps.
  - rewrite names_advanced.
    + rewrite Hnames, !(assoc_L (∪)). rewrite (initialized_some _ n) by done.
      eapply catalogue_grow; [exact Hcat| |by left]. rewrite source_names_split.
      pose proof state_core. pose proof rows_core. set_solver.
    + rewrite Hnames. intros x Hx. do 3 (apply elem_of_union; right). by eapply core_present.
  - pose proof Hh as (Hv & Hns & Hwd & Hrows & Hloc & Hprep & Hwf).
    assert (holds tx {| namespace := namespace c; sources := sources c;
      prepared_rows := <[id := row_bytes p]> (prepared_rows c); wanted := wanted c |}) as Htx.
    { unfold tx, holds. tables. rewrite Hprep. by split_and!. }
    exact (holds_advanced _ _ _ Htx Hw).
Qed.

Lemma stored_refines (B : Type) tx c id bytes (k : D -> M Prep.t B) r :
  holds tx c ->
  (forall next, checked_add U64_MAX (wanted c) 1 = Some next -> refines (k (stored_tx tx id bytes next)) r) ->
  (checked_add U64_MAX (wanted c) 1 = None -> r = Err Prep.Database) ->
  refines (tx' ← insert Prep.Database (table_open (table_open (table_open tx SOURCE_STATE) SOURCE_ROWS) PREPARATIONS)
             PREPARATIONS id bytes;
           tx' ← lift_err source_error (advance_wanted_revision tx'); k tx') r.
Proof.
  intros (Hv & Hns & Hwd & _) Hsome Hnone.
  eapply refines_bind_ok; [apply refines_insert; auto with eliot|].
  set (tx' := table_insert _ PREPARATIONS id bytes).
  assert (revision_value (rows_of tx' SOURCE_STATE !! WANTED_REVISION_KEY) = Ok (wanted c)) as Hw' by (unfold tx'; by tables).
  pose proof (source_refines _ _ (advance_refines_wanted tx' (wanted c) Hw')) as Hadv.
  destruct (checked_add U64_MAX (wanted c) 1) as [next|]; cbn [ok_or mbind result_bind map_err] in Hadv.
  - eapply refines_bind_ok; [exact Hadv|]. by apply Hsome.
  - rewrite (Hnone eq_refl). by apply refines_bind_err.
Qed.
End Writes.

Lemma supported_wf s : is_supported s = true -> settings_wf s.
Proof.
  unfold is_supported, settings_wf. intros Hs. to_prop. unfold MAX_PREPARATION_UNIT_BYTES in *. width.
Qed.

Lemma encode_ok p : validate_row p = Ok tt -> encode_preparation p = Ok (row_bytes p).
Proof. unfold encode_preparation. by intros ->. Qed.

(** The row a selection stores is well formed. *)
Lemma next_settings_ok c id chosen source found row n :
  namespace c = Some n -> Uuid.wf n -> Uuid.wf id -> is_Some (sources c !! id) -> source_namespace_id source = n ->
  (forall p, found = Some p -> preparation_ok c id p) -> is_supported chosen = true ->
  next_settings source id chosen found = Ok row -> preparation_ok c id row.
Proof.
  intros Hn Hnwf Hid Hs Hsn Hfound Hsup Hnext. pose proof (supported_wf _ Hsup) as Hswf.
  destruct found as [p|]; cbn [next_settings] in Hnext.
  - apply bind_ok_inv in Hnext as (rev & Hrev%ok_or_inv%checked_add_inv & Hnext). apply ok_inj in Hnext as <-. destruct Hrev as [-> Hrev].
    destruct (Hfound p eq_refl) as ((W1 & W2 & W3 & W4 & W5 & W6) & Hv & Hpi & Hpn & _).
    split; [by split_and!; try done; cbn; lia|]. split; [|by split_and!]. unfold validate_row in *. cbn.
    apply bind_ok_inv in Hv as ([] & Hg%reject_if_ok & Hv). rewrite reject_if_false; [exact Hv|].
    to_prop. rewrite Hsup. solve_bool.
  - apply ok_inj in Hnext as <-. split; [unfold preparation_wf; cbn; rewrite Hsn; split_and!; try done; width|].
    split; [unfold validate_row; cbn; by rewrite Hsup|]. cbn. rewrite Hsn. by split_and!.
Qed.

(** The row a commit of an outcome stores is well formed. *)
Lemma with_outcome_ok c id capture source result p revision :
  corpus_wf c -> preparation_ok c id p -> sources c !! id = Some source -> settings p = capture_settings capture ->
  match result with Ready artifact => object_wf artifact /\ valid_object artifact Prepared = true | Gap _ => True end ->
  revision = outcome_revision p + 1 -> revision <= U64_MAX ->
  preparation_ok c id (with_outcome p revision (bind_outcome capture source result)).
Proof.
  intros (_ & _ & Hrow & _) ((W1 & W2 & W3 & W4 & W5 & W6) & Hv & Hpi & Hpn & Hin) Hs Hset Hres -> Hrev.
  destruct (Hrow _ _ Hs) as (_ & _ & HW & (E1 & E2 & E3 & E4 & _) & Hlen).
  destruct HW as (_ & _ & ? & ? & _ & Hver & Hdig).
  unfold validate_row in Hv. apply bind_ok_inv in Hv as ([] & Hg%reject_if_ok & _). to_prop.
  destruct Hdig as [_ Hobj].
  split; [|split; [|by split_and!]].
  - unfold preparation_wf. split_and!; try done; try (cbn; lia). unfold bound_wf, outcome_wf.
    cbn [with_outcome current_outcome bind_outcome source_row_revision bound_registration input bound_settings outcome_result].
    split; [done|]. split; [done|]. split; [done|]. split; [cbn [bind_outcome bound_settings]; by rewrite <- Hset|]. cbn; destruct result; tauto.
  - unfold validate_row. cbn [settings_revision with_outcome settings current_outcome outcome_revision bind_outcome source_row_revision bound_registration bound_settings input outcome_result].
    rewrite (reject_if_false ((settings_revision p =? 0) || negb (is_supported (settings p)))) by solve_bool. cbn [mbind result_bind].
    assert (valid_object (object_ref source) Source = true) as Hvo.
    { unfold valid_object. rewrite E3, E4. unfold MAX_SOURCE_OBJECT_BYTES in *. solve_bool. }
    rewrite reject_if_false.
    + cbn [mbind result_bind]. destruct result as [a|g]; [|done]. destruct Hres as [_ ->]. done.
    + rewrite Hvo, <- Hset. solve_bool.
Qed.

(** [installs wrap m spec]: a transaction body [m] fails as [spec] says, or gives the row
    with no transaction, or with one that stands for the specified corpus, whose
    preparations differ at [id]. *)
Definition installs {D B} `{Redb D} (wrap : option D -> CurrentPreparation -> B) (m : M Prep.t B)
    (c : corpus) (ps : preparations) (id : list Z) (spec : result Prep.t (CurrentPreparation * option corpus)) : Prop :=
  match spec with
  | Ok (row, Some c') => exists tx, refines m (Ok (wrap (Some tx) row)) /\ represents tx c' /\ prepared c' (<[id := row]> ps) /\
      c' = with_preparation c id row (wanted c + 1)
  | Ok (row, None) => refines m (Ok (wrap None row))
  | Err e => refines m (Err e)
  end.

Section Transactions.
Context {D : Type} `{Redb D}.
Implicit Types (d tx : D) (c : corpus) (ps : preparations).

Lemma prepared_write c ps id row next :
  prepared c ps -> preparation_ok c id row -> prepared (with_preparation c id row next) (<[id := row]> ps).
Proof.
  intros [Hrows Hok] Hrow. split; [cbn; by rewrite Hrows, fmap_insert|]. intros i p Hp.
  assert (preparation_ok c i p) as (? & ? & ? & ? & ?); [|by split_and!].
  apply lookup_insert_Some in Hp as [[<- <-]|[_ Hp]]; [done|by apply Hok].
Qed.

(** Opening the tables and storing a row. *)
Lemma install_row {B} (wrap : option D -> CurrentPreparation -> B) d c ps id row :
  represents d c -> prepared c ps -> is_Some (namespace c) -> preparation_ok c id row ->
  installs wrap (tx ← insert Prep.Database (table_open (table_open (table_open d SOURCE_STATE) SOURCE_ROWS) PREPARATIONS)
             PREPARATIONS id (row_bytes row);
            tx ← lift_err source_error (advance_wanted_revision tx); mret (wrap (Some tx) row)) c ps id (write_spec c id row).
Proof.
  intros Hr Hp Hn Hrow. pose proof Hr as (_ & _ & Hh). assert (0 <= wanted c <= U64_MAX) as Hw by apply Hh.
  unfold installs, write_spec. destruct (checked_add U64_MAX (wanted c) 1) as [next|] eqn:Hnext; cbn [ok_or mbind result_bind].
  - pose proof (checked_add_inv _ _ _ _ Hnext) as [-> Hmax].
    exists (stored_tx d id (row_bytes row) (wanted c + 1)). split; [|split; [|split; [|done]]].
    + apply (stored_refines _ d c); [done| |congruence]. intros next E. assert (next = wanted c + 1) as -> by congruence. apply refines_ret.
    + apply stored_represents; [done..|lia].
    + by apply prepared_write.
  - apply (stored_refines _ d c); [done|congruence|done].
Qed.

Lemma installs_bind {A B} (wrap : option D -> CurrentPreparation -> B) (m : M Prep.t A) (r : result Prep.t A)
    (k : A -> M Prep.t B) c ps id spec :
  refines m r -> (forall a, r = Ok a -> installs wrap (k a) c ps id (spec a)) ->
  installs wrap (m ≫= k) c ps id (r ≫= spec).
Proof.
  intros Hm Hk. destruct r as [a|e]; cbn [mbind result_bind]; [|by apply refines_bind_err].
  specialize (Hk a eq_refl). unfold installs in *. destruct (spec a) as [[row [c'|]]|e].
  - destruct Hk as (tx & ? & ?). exists tx. split; [by eapply refines_bind_ok|done].
  - by eapply refines_bind_ok.
  - by eapply refines_bind_ok.
Qed.

Lemma installs_step {A B} (wrap : option D -> CurrentPreparation -> B) (m : M Prep.t A) a
    (k : A -> M Prep.t B) c ps id spec :
  refines m (Ok a) -> installs wrap (k a) c ps id spec -> installs wrap (m ≫= k) c ps id spec.
Proof. intros Hm Hk. apply (installs_bind wrap m (Ok a) k c ps id (fun _ => spec)); [done|]. by intros ? [= <-]. Qed.

(** [write_source] and the guards behind it. *)
Lemma installs_source {B} (wrap : option D -> CurrentPreparation -> B) d c ps id
    (k : D * CurrentSourceRecord -> M Prep.t B) spec :
  represents d c ->
  (forall n source, namespace c = Some n -> sources c !! id = Some source -> source_id source = id ->
     source_namespace_id source = n ->
     installs wrap (k (table_open (table_open d SOURCE_STATE) SOURCE_ROWS, source)) c ps id (spec source)) ->
  installs wrap (_ ← call Prep.Database; written ← write_source d id; k written) c ps id
    (_ ← ok_or Prep.Corrupt (namespace c); source ← ok_or Prep.NotRetained (sources c !! id); spec source).
Proof.
  intros (_ & _ & Hh) Hk. pose proof Hh as (_ & _ & _ & _ & _ & _ & (_ & _ & Hrow & _)).
  eapply installs_step; [apply prep_call_refines|]. pose proof (write_source_refines d c id Hh) as Hsrc.
  destruct (namespace c) as [n|] eqn:Hn; cbn [ok_or mbind result_bind] in *; [|by apply refines_bind_err].
  destruct (sources c !! id) as [source|] eqn:Hs; cbn [ok_or mbind result_bind] in *; [|by apply refines_bind_err].
  eapply installs_step; [exact Hsrc|]. destruct (Hrow _ _ Hs) as (? & ? & _). apply (Hk n); congruence.
Qed.

Lemma write_settings_installs d c ps id chosen source previous :
  represents d c -> prepared c ps -> Uuid.wf id -> is_supported chosen = true ->
  installs (fun written row => (default d written, row)) (write_settings d id chosen source previous) c ps id
    (settings_spec c ps id chosen source previous).
Proof.
  intros Hr Hp Hid Hsup. pose proof Hr as (_ & _ & Hh). pose proof Hh as (_ & _ & _ & _ & _ & Hprep & (Hns & _)).
  unfold write_settings, settings_spec. apply installs_source; [done|]. intros n current Hn Hs Hcid Hcn. cbv beta iota.
  apply (installs_bind _ _ _ _ c ps id (fun _ => _ ← reject_if (negb (bool_decide (ps !! id = previous))) Prep.Stale;
    row ← next_settings source id chosen previous; write_spec c id row)); [apply refines_lift|].
  intros [] Hg%reject_if_ok. to_prop.
  eapply installs_step; [apply refines_open_write; auto with eliot|].
  eapply installs_step; [apply refines_get; auto with eliot|]. rewrite !rows_open, Hprep, (decode_stored c ps) by done.
  rewrite lift_ok_bind. apply installs_bind; [apply refines_lift|]. intros [] Hg2%reject_if_ok. to_prop. subst previous.
  apply (installs_bind _ _ _ _ c ps id (fun row => write_spec c id row)); [apply refines_lift|]. intros row Hrow.
  assert (preparation_ok c id row) as Hok.
  { apply (next_settings_ok c id chosen source (ps !! id) row n); [done|by apply Hns|done|by exists current|congruence| |done|done].
    intros p Hpi. by apply (proj2 Hp). }
  rewrite (encode_ok row) by apply Hok. rewrite lift_ok_bind. by apply (install_row (fun written row => (default d written, row))); try exists n.
Qed.

Lemma write_outcome_installs d c ps capture result :
  represents d c -> prepared c ps ->
  match result with Ready artifact => object_wf artifact /\ valid_object artifact Prepared = true | Gap _ => True end ->
  installs pair (write_outcome d capture result) c ps (source_id (capture_source capture)) (outcome_spec c ps capture result).
Proof.
  intros Hr Hp Hres. pose proof Hr as (_ & _ & Hh). pose proof Hh as (_ & _ & _ & _ & _ & Hprep & Hwf).
  unfold write_outcome, outcome_spec.
  assert (match result with Ready artifact => reject_if (negb (valid_object artifact Prepared)) Prep.InvalidOutcome | Gap _ => Ok tt end
    = Ok tt) as -> by (destruct result as [a|g]; [by destruct Hres as [_ ->]|done]). cbn [mbind result_bind].
  apply installs_source; [done|]. intros n source Hn Hs Hsid Hsn. cbv beta iota.
  apply (installs_bind _ _ _ _ c ps _ (fun _ => row ← ok_or Prep.Stale (ps !! source_id (capture_source capture));
    _ ← reject_if (outcome_guard capture source row) Prep.Stale; _)); [apply refines_lift|].
  intros [] Hg%reject_if_ok. to_prop. subst source.
  eapply installs_step; [apply refines_open_write; auto with eliot|].
  eapply installs_step; [apply refines_get; auto with eliot|]. rewrite !rows_open, Hprep.
  pose proof (decode_stored c ps (source_id (capture_source capture)) Hp) as Hdec.
  destruct (ps !! source_id (capture_source capture)) as [row|] eqn:Hrow.
  2: { destruct (prepared_rows c !! _); [cbn in Hdec; destruct (decode_preparation _); done|]. apply refines_fail. }
  destruct (prepared_rows c !! _) as [bytes|]; [|done]. cbn [decode_found] in Hdec.
  apply bind_ok_inv in Hdec as (row' & Hdec & E). injection E as ->. cbn [ok_or]. rewrite lift_ok_bind, Hdec, lift_ok_bind.
  cbn [mbind result_bind].
  apply (installs_bind _ _ _ _ c ps _ (fun _ => if keeps_ready capture (capture_source capture) row result then _ else _));
    [apply refines_lift|].
  intros [] Hguard%reject_if_ok. destruct (keeps_ready _ _ _ _); [apply refines_ret|]. cbv zeta.
  case_bool_decide; [apply refines_ret|].
  apply (installs_bind _ _ _ _ c ps _ (fun revision => write_spec c _ (with_outcome row revision _))); [apply refines_lift|].
  intros revision Hrev%ok_or_inv%checked_add_inv. destruct Hrev as [-> Hmax].
  assert (preparation_ok c (source_id (capture_source capture))
    (with_outcome row (outcome_revision row + 1) (bind_outcome capture (capture_source capture) result))) as Hok.
  { apply with_outcome_ok; try done; [by apply (proj2 Hp)|]. unfold outcome_guard in Hguard. by to_prop. }
  rewrite (encode_ok _) by apply Hok. rewrite lift_ok_bind. by apply (install_row pair); try exists n.
Qed.
End Transactions.
