(* ===== verification/PreparationState.v ===== *)
(** The preparation operations as their callers see them: every answer against the
    specification, on a borrowed database and on a path. *)

From stdpp Require Import gmap.
From S2P Require Import Prelude Bytes Ids Registry SourceRow PreparationRow Database Control.
From S2P Require Import ControlSpec ControlRefine ControlState ControlSample ControlWriter PreparationControl PreparationSpec.

Section State.
Context {D : Type} `{Redb D}.
Implicit Types (d tx : D) (c : corpus) (ps : preparations).

(** The database stands for the corpus and its preparations. *)
Definition state_at d c ps : Prop := represents d c /\ prepared c ps.

(** The preparations after a transaction that wrote [row], or none. *)
Definition written ps (id : list Z) (row : CurrentPreparation) (next : option corpus) : preparations :=
  match next with Some _ => <[id := row]> ps | None => ps end.

(** What an operation with this specification may return before its answer. *)
Definition attempted d c ps (id : list Z) (spec : result Prep.t (CurrentPreparation * option corpus)) (w : env)
    (r : result Prep.t (CurrentPreparation * (bool * D))) : Prop :=
  match r with
  | Ok (row, (confirmed, d')) =>
      exists next, spec = Ok (row, next) /\
        (state_at d' (default c next) (written ps id row next) \/ (confirmed = false /\ d' = d)) /\
        (confirmed = false -> next <> None) /\ (calm w -> confirmed = true)
  | Err e => spec = Err e \/ (interrupt e /\ ~ calm w)
  end.

Lemma attempted_calm d c ps id spec w w' r :
  (calm w -> calm w') -> attempted d c ps id spec w' r -> attempted d c ps id spec w r.
Proof.
  intros Hw. destruct r as [[row [b d']]|e]; cbn; [|naive_solver].
  intros (next & ? & ? & ? & ?). exists next. naive_solver.
Qed.

Lemma attempted_then {A} d c ps id spec w (m : M Prep.t A) a k :
  refines m (Ok a) -> (forall w', attempted d c ps id spec w' (run (k a) w')) ->
  attempted d c ps id spec w (run (m ≫= k) w).
Proof.
  intros Hm Hk. apply (run_then _ a); [done|intros e He Hc; by right|].
  intros w' Hw. by apply (attempted_calm _ _ _ _ _ w w').
Qed.

Lemma attempted_stop {A} d c ps id w (m : M Prep.t A) e k :
  refines m (Err e) -> attempted d c ps id (Err e) w (run (m ≫= k) w).
Proof. intros Hm. destruct (refines_stop m e k w Hm) as [-> |(e' & -> & ? & ?)]; cbn; auto. Qed.

Lemma finish_attempted d c ps id row c' tx w :
  state_at tx c' (<[id := row]> ps) -> attempted d c ps id (Ok (row, Some c')) w (run (finish_borrowed_commit d tx row) w).
Proof.
  intros Htx. unfold finish_borrowed_commit. apply attempted_then with (a := tt); [apply preparation_check_refines|].
  intros w'. destruct (commit_cases (E := Prep.t) d tx w') as (b & d' & w2 & Hcommit & Hb & Hcalm).
  unfold run, mbind, M_bind. rewrite Hcommit. cbn. exists (Some c'). split; [done|]. split; [|split; [done|]].
  - destruct b; [by rewrite Hb; left|]. destruct Hb as [-> | -> ]; [by right|by left].
  - intros Hw. by apply Hcalm.
Qed.

(** A body, then its commit. *)
Lemma installs_attempted {B} (wrap : option D -> CurrentPreparation -> B) m (k : B -> M Prep.t (CurrentPreparation * (bool * D)))
    d c ps id spec w :
  state_at d c ps -> installs wrap m c ps id spec ->
  (forall tx row, k (wrap (Some tx) row) = finish_borrowed_commit d tx row) ->
  (forall row, spec = Ok (row, None) -> k (wrap None row) = mret (row, (true, d))) ->
  attempted d c ps id spec w (run (m ≫= k) w).
Proof.
  intros Hst Hm Hsome Hnone. destruct spec as [[row [c'|]]|e]; cbn [installs] in Hm.
  - destruct Hm as (tx & Hm & Hr & Hp & _). eapply attempted_then; [exact Hm|]. intros w'. rewrite Hsome.
    by apply finish_attempted.
  - eapply attempted_then; [exact Hm|]. intros w'. rewrite Hnone by done. exists None. cbn. split; [done|].
    split; [by left|done].
  - by apply attempted_stop.
Qed.

(** The outcome a caller passes: a reference in its widths. *)
Definition result_wf (result : PreparationOutcome) : Prop :=
  match result with Ready artifact => object_wf artifact | Gap _ => True end.

Lemma check_outcome_refines result :
  refines (check_outcome result)
    match result with
    | Ready artifact => reject_if (negb (valid_object artifact Prepared)) Prep.InvalidOutcome
    | Gap _ => Ok tt
    end.
Proof. unfold check_outcome. apply refines_seq; [apply preparation_check_refines|apply refines_lift]. Qed.

Lemma commit_attempted d c ps capture result w :
  state_at d c ps -> result_wf result ->
  attempted d c ps (source_id (capture_source capture)) (outcome_spec c ps capture result) w
    (run (commit_outcome_on d capture result) w).
Proof.
  intros Hst Hres. unfold commit_outcome_on. pose proof (check_outcome_refines result) as Hcheck.
  destruct (match result with Ready artifact => reject_if (negb (valid_object artifact Prepared)) Prep.InvalidOutcome | Gap _ => Ok tt end)
    as [[]|e] eqn:Hr.
  - eapply attempted_then; [exact Hcheck|]. intros w'. eapply (installs_attempted pair); [done|apply write_outcome_installs|done|done].
    + apply Hst.
    + apply Hst.
    + destruct result as [a|g]; [|done]. apply reject_if_ok in Hr. by to_prop.
  - unfold outcome_spec. rewrite Hr. by apply attempted_stop.
Qed.

(** The specification of a selection is its view, then the guarded choice of settings. *)
Lemma select_spec_view c ps id chosen init source row :
  sources c !! id = Some source -> namespace c = Some (source_namespace_id source) -> ps !! id = row ->
  is_supported chosen = true ->
  (forall r, row = Some r -> init || bool_decide (settings r = chosen) = false) ->
  select_spec c ps id chosen init = settings_spec c ps id chosen source row.
Proof.
  intros Hs Hn Hrow Hsup Hsel. unfold select_spec, settings_spec. rewrite Hs, Hn, Hsup, Hrow. cbn [negb reject_if ok_or mbind result_bind].
  rewrite bool_decide_true, Z.eqb_refl, bool_decide_true by done. cbn [negb orb reject_if mbind result_bind].
  destruct row as [r|]; [|done]. by rewrite (Hsel r).
Qed.

Lemma select_attempted d c ps id chosen init w :
  state_at d c ps -> Uuid.wf id ->
  attempted d c ps id (select_spec c ps id chosen init) w (run (select_settings_on d id chosen init) w).
Proof.
  intros Hst Hid. pose proof Hst as [Hr Hp]. unfold select_settings_on.
  destruct (is_supported chosen) eqn:Hsup; cbn [negb reject_if].
  2: { unfold select_spec. rewrite Hsup. by left. }
  rewrite lift_ok_bind. pose proof (read_database_refines d c ps id Hr Hp) as Hview. unfold view_spec in Hview.
  destruct (sources c !! id) as [source|] eqn:Hs; cbn [ok_or mbind result_bind] in Hview.
  2: { unfold select_spec. rewrite Hsup, Hs. by apply attempted_stop. }
  eapply attempted_then; [exact Hview|]. intros w'. cbv beta iota.
  assert (namespace c = Some (source_namespace_id source)) as Hn.
  { pose proof (represents_wf d c Hr) as (_ & _ & Hrow & _). by apply (Hrow id). }
  assert (forall row, ps !! id = row -> (forall r, row = Some r -> init || bool_decide (settings r = chosen) = false) ->
    attempted d c ps id (select_spec c ps id chosen init) w'
      (run (written ← write_settings d id chosen source row; finish_borrowed_commit d (fst written) (snd written)) w')) as Hwrite.
  { intros row Hrow Hsel. rewrite (select_spec_view c ps id chosen init source row) by done.
    eapply (installs_attempted (fun written row => (default d written, row))); [done|by apply write_settings_installs|done|].
    intros r E. exfalso. unfold settings_spec in E. inv_ok. unfold write_spec in *. by inv_ok. }
  destruct (ps !! id) as [row|] eqn:Hrow; [|by apply Hwrite].
  destruct (init || bool_decide (settings row = chosen)) eqn:Hsel; [|apply Hwrite; [done|by intros r [= <-]]].
  unfold select_spec. rewrite Hsup, Hs, Hrow, Hsel. exists None. by split; [|split; [left|]].
Qed.

(** ** Answers *)

(** [concluded spec .. answer c' ps' w]: an operation with this specification that gave
    [answer] may have moved the state from [c], [ps] to [c'], [ps']. *)
Definition concluded (spec : result Prep.t (CurrentPreparation * option corpus)) c ps (id : list Z)
    (answer : result Prep.t CurrentPreparation) c' ps' (w : env) : Prop :=
  match answer with
  | Ok row => exists next, spec = Ok (row, next) /\ c' = default c next /\ ps' = written ps id row next
  | Err e =>
      (spec = Err e /\ c' = c /\ ps' = ps) \/
      (~ calm w /\ (interrupt e \/ e = Prep.Stale) /\
       ((c' = c /\ ps' = ps) \/
        (e <> Prep.Stale /\ exists row, spec = Ok (row, Some c') /\ ps' = <[id := row]> ps)))
  end.

Lemma settled_concluded d c ps id spec (m : M Prep.t (CurrentPreparation * (bool * D))) w :
  state_at d c ps -> attempted d c ps id spec w (run m w) ->
  let '((answer, d'), _) := settled d m w in
  exists c' ps', state_at d' c' ps' /\ concluded spec c ps id answer c' ps' w.
Proof.
  intros Hst Hm. unfold settled, run in *. destruct (m w) as [[[row [b d']]|e] w']; cbn in Hm.
  2: { exists c, ps. split; [done|]. destruct Hm as [->|[? ?]]; [by left|right]. split; [done|]. split; [by left|by left]. }
  destruct Hm as (next & -> & Hd & Hnext & Hcalm). destruct b.
  { destruct Hd as [Hd|[? _]]; [|done]. eexists _, _. split; [exact Hd|]. by exists next. }
  assert (~ calm w) as Hc by (intros Hw; by specialize (Hcalm Hw)).
  destruct next as [c1|]; [|by destruct (Hnext eq_refl)]. destruct Hd as [Hd|[_ ->]].
  - exists c1, (<[id := row]> ps). split; [done|]. right. split; [done|]. split; [left; auto with eliot|right].
    split; [done|by exists row].
  - exists c, ps. split; [done|]. right. split; [done|]. split; [left; auto with eliot|by left].
Qed.

Lemma read_view_refines d c ps id :
  state_at d c ps -> refines (read_view d id) (view_spec c ps id).
Proof.
  intros [Hr Hp]. unfold read_view. apply refines_seq; [apply preparation_check_refines|].
  apply refines_seq; [apply prep_call_refines|].
  pose proof (read_database_refines d c ps id Hr Hp) as Hview. destruct (view_spec c ps id) as [v|e].
  - eapply refines_bind_ok; [exact Hview|]. apply refines_seq; [apply prep_call_refines|]. apply refines_ret.
  - by apply refines_bind_err.
Qed.

(** What is stored when a row is written: it was not there before, and its source is
    registered. *)
Definition fresh_write c ps (id : list Z) (spec : result Prep.t (CurrentPreparation * option corpus)) : Prop :=
  forall row c', spec = Ok (row, Some c') -> ps !! id <> Some row /\ is_Some (sources c !! id) /\
    is_Some (sources c' !! id) /\ prep_source_id row = id.

Lemma finish_concluded d c ps id spec (m : M Prep.t (CurrentPreparation * (bool * D))) w :
  state_at d c ps -> attempted d c ps id spec w (run m w) -> fresh_write c ps id spec ->
  let '((answer, d'), _) := finish_commit d m w in
  exists c' ps', state_at d' c' ps' /\ concluded spec c ps id answer c' ps' w.
Proof.
  intros Hst Hm Hfresh. unfold finish_commit, run in *. destruct (m w) as [[[row [b d']]|e] w']; cbn [fst] in Hm.
  2: { exists c, ps. split; [done|]. destruct Hm as [->|[? ?]]; [by left|right]. split; [done|]. split; [by left|by left]. }
  destruct Hm as (next & -> & Hd & Hnext & Hcalm). destruct b.
  { destruct Hd as [Hd|[? _]]; [|done]. eexists _, _. split; [exact Hd|]. by exists next. }
  assert (~ calm w) as Hc by (intros Hw; by specialize (Hcalm Hw)).
  destruct next as [c1|]; [|by destruct (Hnext eq_refl)]. cbn [default written] in Hd.
  destruct (Hfresh row c1 eq_refl) as (Hnew & [s0 Hs0] & [s1 Hs1] & Hid).
  assert (exists c2 ps2, state_at d' c2 ps2 /\ is_Some (sources c2 !! id) /\
    ((c2 = c1 /\ ps2 = <[id := row]> ps) \/ (c2 = c /\ ps2 = ps))) as (c2 & ps2 & Hst2 & [s2 Hs2] & Hcases).
  { destruct Hd as [Hd|[_ ->]]; [exists c1, (<[id := row]> ps)|exists c, ps]; eauto 6. }
  pose proof (read_view_refines d' c2 ps2 (prep_source_id row) Hst2) as Hview. rewrite Hid in *.
  unfold view_spec in Hview. rewrite Hs2 in Hview. cbn [ok_or mbind result_bind] in Hview.
  pose proof (refines_any _ _ w' Hview) as Hback. unfold run in Hback.
  destruct (read_view d' id w') as [observed w'']. cbn [fst] in Hback. exists c2, ps2. split; [done|].
  destruct Hback as [-> |(e & -> & He)].
  - destruct Hcases as [[-> ->]|[-> ->]].
    + rewrite lookup_insert_eq, bool_decide_true by done. by exists (Some c1).
    + rewrite bool_decide_false by done. right. split; [done|]. split; [by right|by left].
  - right. split; [done|]. split; [by left|]. destruct Hcases as [[-> ->]|[-> ->]]; [right|by left].
    split; [|by exists row]. intros ->. revert He. unfold interrupt, preparation_interrupt. set_solver.
Qed.

Lemma write_spec_inv c id p row next :
  write_spec c id p = Ok (row, next) -> row = p /\ next = Some (with_preparation c id p (wanted c + 1)) /\ wanted c + 1 <= U64_MAX.
Proof.
  unfold write_spec. intros Hw. apply bind_ok_inv in Hw as (n & Hn%ok_or_inv%checked_add_inv & Hw). destruct Hn as [-> ?].
  apply ok_inj in Hw. by injection Hw as <- <-.
Qed.

(** What the specification of an outcome accepts. *)
Lemma outcome_cases c ps capture result row next :
  outcome_spec c ps capture result = Ok (row, next) ->
  let id := source_id (capture_source capture) in
  sources c !! id = Some (capture_source capture) /\
  exists old, ps !! id = Some old /\ settings old = capture_settings capture /\
    settings_revision old = capture_settings_revision capture /\
    (outcome_revision old, current_outcome old) = (expected_outcome_revision capture, expected_outcome capture) /\
    ((row = old /\ next = None /\ (keeps_ready capture (capture_source capture) old result = true \/
        current_outcome old = Some (bind_outcome capture (capture_source capture) result))) \/
     (row = with_outcome old (outcome_revision old + 1) (bind_outcome capture (capture_source capture) result) /\
      keeps_ready capture (capture_source capture) old result = false /\
      next = Some (with_preparation c id row (wanted c + 1)))).
Proof.
  unfold outcome_spec. intros E. cbv zeta. apply bind_ok_inv in E as (? & _ & E). cbv zeta in E.
  apply bind_ok_inv in E as (? & _ & E). apply bind_ok_inv in E as (source & Hs%ok_or_inv & E).
  apply bind_ok_inv in E as (? & Heq%reject_if_ok & E). apply bind_ok_inv in E as (old & Hp%ok_or_inv & E).
  apply bind_ok_inv in E as (? & Hg%reject_if_ok & E). unfold outcome_guard in Hg. to_prop. subst source.
  split; [done|]. exists old. split; [done|]. split; [done|]. split; [done|]. split; [done|].
  destruct (keeps_ready _ _ _ _) eqn:Hk; [left; apply ok_inj in E; injection E as <- <-; by split_and!; try left|].
  case_bool_decide; [left; apply ok_inj in E; injection E as <- <-; split_and!; try done; by right|].
  apply bind_ok_inv in E as (rev & Hrev%ok_or_inv%checked_add_inv & E). apply write_spec_inv in E as (-> & -> & _).
  destruct Hrev as [-> _]. by right.
Qed.

Lemma outcome_fresh c ps capture result :
  prepared c ps -> fresh_write c ps (source_id (capture_source capture)) (outcome_spec c ps capture result).
Proof.
  intros [_ Hok] row c'. unfold outcome_spec. intros E. apply bind_ok_inv in E as (? & _ & E). cbv zeta in E.
  apply bind_ok_inv in E as (? & _ & E). apply bind_ok_inv in E as (source & Hs%ok_or_inv & E).
  apply bind_ok_inv in E as (? & _ & E). apply bind_ok_inv in E as (p & Hp%ok_or_inv & E).
  apply bind_ok_inv in E as (? & _ & E). destruct (keeps_ready _ _ _ _); [done|]. case_bool_decide; [done|].
  apply bind_ok_inv in E as (rev & Hrev%ok_or_inv%checked_add_inv & E). apply write_spec_inv in E as (-> & [= ->] & _).
  destruct Hrev as [-> _]. rewrite Hp, Hs. split; [|split; [done|split; [cbn; by rewrite Hs|]]].
  - intros [= E]. apply (f_equal outcome_revision) in E. cbn in E. lia.
  - cbn. by apply (Hok _ p).
Qed.

Lemma select_fresh c ps id chosen init :
  prepared c ps -> fresh_write c ps id (select_spec c ps id chosen init).
Proof.
  intros [_ Hok] row c'. unfold select_spec. intros E. apply bind_ok_inv in E as (? & _ & E).
  apply bind_ok_inv in E as (source & Hs%ok_or_inv & E). destruct (ps !! id) as [p|] eqn:Hp.
  - destruct (init || _); [done|]. apply bind_ok_inv in E as (r & Hr & E). apply write_spec_inv in E as (-> & [= ->] & _).
    cbn [next_settings] in Hr. apply bind_ok_inv in Hr as (rev & Hrev%ok_or_inv%checked_add_inv & Hr). apply ok_inj in Hr as <-.
    destruct Hrev as [-> _]. split; [|split; [done|split; [cbn; by rewrite Hs|]]].
    + intros [= E]. apply (f_equal settings_revision) in E. cbn in E. lia.
    + cbn. by apply (Hok _ p).
  - apply bind_ok_inv in E as (r & Hr & E). apply write_spec_inv in E as (-> & [= ->] & _). apply ok_inj in Hr as <-.
    split; [done|]. split; [done|]. split; [cbn; by rewrite Hs|done].
Qed.

(** ** The operations *)

Lemma commit_preparation_concluded d c ps capture result w :
  state_at d c ps -> result_wf result ->
  let '((answer, d'), _) := commit_preparation d capture result w in
  exists c' ps', state_at d' c' ps' /\
    concluded (outcome_spec c ps capture result) c ps (source_id (capture_source capture)) answer c' ps' w.
Proof. intros Hst Hres. apply settled_concluded; [done|]. by apply commit_attempted. Qed.

Lemma ensure_settings_concluded d c ps id w :
  state_at d c ps -> Uuid.wf id ->
  let '((answer, d'), _) := ensure_preparation_settings d id w in
  exists c' ps', state_at d' c' ps' /\ concluded (select_spec c ps id default_settings true) c ps id answer c' ps' w.
Proof. intros Hst Hid. apply settled_concluded; [done|]. by apply select_attempted. Qed.

Lemma path_commit_preparation_concluded d c ps capture result w :
  state_at d c ps -> result_wf result ->
  let '((answer, d'), _) := path_commit_preparation d capture result w in
  exists c' ps', state_at d' c' ps' /\
    concluded (outcome_spec c ps capture result) c ps (source_id (capture_source capture)) answer c' ps' w.
Proof.
  intros Hst Hres. apply finish_concluded; [done| |apply outcome_fresh, Hst].
  pose proof (check_outcome_refines result) as Hcheck.
  destruct (match result with Ready artifact => reject_if (negb (valid_object artifact Prepared)) Prep.InvalidOutcome | Gap _ => Ok tt end)
    as [[]|e] eqn:Hr.
  - eapply attempted_then; [exact Hcheck|]. intros w'. eapply attempted_then; [apply prep_call_refines|]. intros w2.
    eapply (installs_attempted pair); [done|apply write_outcome_installs; [apply Hst|apply Hst|]|done|done].
    destruct result as [a|g]; [|done]. apply reject_if_ok in Hr. by to_prop.
  - unfold outcome_spec. rewrite Hr. by apply attempted_stop.
Qed.

Lemma path_select_concluded d c ps id chosen init w :
  state_at d c ps -> Uuid.wf id ->
  let '((answer, d'), _) := path_select_settings d id chosen init w in
  exists c' ps', state_at d' c' ps' /\ concluded (select_spec c ps id chosen init) c ps id answer c' ps' w.
Proof.
  intros Hst Hid. apply finish_concluded; [done| |apply select_fresh, Hst].
  pose proof Hst as [Hr Hp]. destruct (is_supported chosen) eqn:Hsup; cbn [negb reject_if].
  2: { unfold select_spec. rewrite Hsup. by left. }
  rewrite lift_ok_bind. pose proof (read_view_refines d c ps id Hst) as Hview. unfold view_spec in Hview.
  destruct (sources c !! id) as [source|] eqn:Hs; cbn [ok_or mbind result_bind] in Hview.
  2: { unfold select_spec. rewrite Hsup, Hs. by apply attempted_stop. }
  eapply attempted_then; [exact Hview|]. intros w'. cbv beta iota zeta.
  assert (namespace c = Some (source_namespace_id source)) as Hn.
  { pose proof (represents_wf d c Hr) as (_ & _ & Hrow & _). by apply (Hrow id). }
  assert (forall row, ps !! id = row -> (forall r, row = Some r -> init || bool_decide (settings r = chosen) = false) ->
    attempted d c ps id (select_spec c ps id chosen init) w'
      (run (_ ← call Prep.Database; written ← write_settings d id chosen source row;
            finish_borrowed_commit d (fst written) (snd written)) w')) as Hwrite.
  { intros row Hrow Hsel. rewrite (select_spec_view c ps id chosen init source row) by done.
    eapply attempted_then; [apply prep_call_refines|]. intros w2.
    eapply (installs_attempted (fun written row => (default d written, row))); [done|by apply write_settings_installs|done|].
    intros r E. exfalso. unfold settings_spec in E. inv_ok. unfold write_spec in *. by inv_ok. }
  destruct (ps !! id) as [row|] eqn:Hrow; [|by apply Hwrite].
  destruct (init || bool_decide (settings row = chosen)) eqn:Hsel; [|apply Hwrite; [done|by intros r [= <-]]].
  unfold select_spec. rewrite Hsup, Hs, Hrow, Hsel. exists None. by split; [|split; [left|]].
Qed.

Lemma concluded_calm spec c ps id answer c' ps' w w' :
  (calm w -> calm w') -> concluded spec c ps id answer c' ps' w' -> concluded spec c ps id answer c' ps' w.
Proof. intros Hw. destruct answer as [row|e]; cbn; [done|naive_solver]. Qed.

Lemma path_ensure_concluded d c ps id w :
  state_at d c ps -> Uuid.wf id ->
  let '((answer, d'), _) := path_ensure_settings d id w in
  exists c' ps', state_at d' c' ps' /\ concluded (select_spec c ps id default_settings true) c ps id answer c' ps' w.
Proof.
  intros Hst Hid. unfold path_ensure_settings. pose proof (read_view_refines d c ps id Hst) as Hview.
  pose proof (fun w' => path_select_concluded d c ps id default_settings true w' Hst Hid) as Hselect.
  destruct (Hview w) as [Hany Hcalm]. unfold run in *. unfold view_spec in *.
  assert (forall e, (select_spec c ps id default_settings true = Err e \/ (interrupt e /\ ~ calm w)) ->
    exists c' ps', state_at d c' ps' /\ concluded (select_spec c ps id default_settings true) c ps id (Err e) c' ps' w) as Herr.
  { intros e [He|[He Hc]]; exists c, ps; (split; [done|]); [by left|right]. split; [done|]. split; [by left|by left]. }
  destruct (sources c !! id) as [source|] eqn:Hs; cbn [ok_or mbind result_bind] in *.
  - destruct (ps !! id) as [row|] eqn:Hrow.
    + destruct (read_view d id w) as [[[s [r|]]|e] w']; cbn [fst snd] in *.
      * exists c, ps. split; [done|]. exists None. destruct Hany as [[= -> ->]|(? & ? & _)]; [|done].
        unfold select_spec. rewrite Hs, Hrow. by split.
      * destruct Hany as [?|(? & ? & _)]; done.
      * apply (Herr e). right. destruct Hany as [?|(? & [= <-] & ?)]; [done|]. split; [done|].
        intros Hw. by destruct (Hcalm Hw).
    + destruct (read_view d id w) as [[[s [r|]]|e] w']; cbn [fst snd] in *.
      * destruct Hany as [?|(? & ? & _)]; done.
      * specialize (Hselect w'). destruct (path_select_settings _ _ _ _ w') as [[answer d'] w2].
        destruct Hselect as (c' & ps' & ? & Hc). exists c', ps'. split; [done|]. eapply concluded_calm; [|exact Hc].
        intros Hw. by apply Hcalm.
      * apply (Herr e). right. destruct Hany as [?|(? & [= <-] & ?)]; [done|]. split; [done|].
        intros Hw. by destruct (Hcalm Hw).
  - assert (select_spec c ps id default_settings true = Err Prep.NotRetained) as Hspec by (unfold select_spec; by rewrite Hs).
    destruct (read_view d id w) as [[[s [r|]]|e] w']; cbn [fst snd] in *; try (destruct Hany as [?|(? & ? & _)]; done).
    apply (Herr e). destruct Hany as [[= ->]|(? & [= <-] & ?)]; [by left|].
    destruct (decide (calm w)) as [Hw|Hw]; [|by right]. left. destruct (Hcalm Hw) as [[= ->] _]. done.
Qed.

Lemma capture_preparation_refines d c ps id :
  state_at d c ps ->
  refines (capture_preparation d id)
    (source ← ok_or Prep.NotRetained (sources c !! id); capture_view source (ps !! id)).
Proof.
  intros [Hr Hp]. unfold capture_preparation. pose proof (read_database_refines d c ps id Hr Hp) as Hview.
  unfold view_spec in Hview. destruct (sources c !! id); cbn [ok_or mbind result_bind] in *; [|by apply refines_bind_err].
  eapply refines_bind_ok; [exact Hview|]. apply refines_lift.
Qed.
End State.

(** ** Concrete preparations *)

Definition sample_row : CurrentPreparation :=
  {| prep_namespace := sample_namespace; prep_source_id := sample_id; settings_revision := 1;
     settings := default_settings; outcome_revision := 0; current_outcome := None |}.
Definition sample_prepared_corpus : corpus := with_preparation sample_corpus sample_id sample_row 2.
Definition sample_preparations : preparations := {[sample_id := sample_row]}.
Definition sample_prepared_store : store := snd (fst (ensure_preparation_settings sample_store sample_id [])).
Definition sample_preparation_capture : PreparationCapture :=
  {| capture_source := sample_record; capture_settings := default_settings; capture_settings_revision := 1;
     expected_outcome_revision := 0; expected_outcome := None |}.

Lemma sample_state : state_at sample_store sample_corpus ∅.
Proof. split; [exact sample_represents|]. split; [vm_compute; reflexivity|]. intros id p Hp. done. Qed.

Lemma sample_id_wf : Uuid.wf sample_id.
Proof. split; [reflexivity|]. apply (bool_decide_eq_true_1 _). vm_compute. reflexivity. Qed.

Lemma sample_prepared_state : state_at sample_prepared_store sample_prepared_corpus sample_preparations.
Proof.
  pose proof (ensure_settings_concluded sample_store sample_corpus ∅ sample_id [] sample_state sample_id_wf) as Hout.
  unfold sample_prepared_store. destruct (ensure_preparation_settings sample_store sample_id []) as [[answer d'] w'].
  destruct Hout as (c' & ps' & Hst & Ha).
  assert (select_spec sample_corpus ∅ sample_id default_settings true = Ok (sample_row, Some sample_prepared_corpus)) as Hs
    by (vm_compute; reflexivity).
  rewrite Hs in Ha. destruct answer as [row|e]; cbn in Ha.
  - destruct Ha as (next & [= <- <-] & -> & ->). exact Hst.
  - destruct Ha as [[? _]|[Hc _]]; [done|]. destruct Hc. constructor.
Qed.

(** ** Properties *)

(** The row holds an artifact made of exactly the captured input and settings. *)
Definition holds_ready (capture : PreparationCapture) (row : CurrentPreparation) : Prop :=
  exists o artifact, current_outcome row = Some o /\ outcome_result o = Ready artifact /\
    bound_registration o = registration_revision (capture_source capture) /\
    input o = object_ref (capture_source capture) /\ bound_settings o = capture_settings capture.

Definition gap_result (result : PreparationOutcome) : Prop := exists gap, result = Gap gap.

Lemma keeps_ready_iff capture old result :
  keeps_ready capture (capture_source capture) old result = true <-> gap_result result /\ holds_ready capture old.
Proof.
  unfold keeps_ready, matches_input, gap_result, holds_ready. destruct result as [a|g]; [split; [done|by intros [[? ?] _]]|].
  destruct (current_outcome old) as [o|]; [|split; [done|by intros [_ (? & ? & ? & _)]]].
  rewrite andb_true_iff, bool_decide_eq_true. split.
  - intros [E Hr]. injection E as E1 E2 E3. destruct (outcome_result o) as [a|] eqn:Ho; [|done].
    split; [by exists g|by exists o, a].
  - intros [_ (o' & a & [= <-] & Hr & -> & -> & ->)]. by rewrite Hr.
Qed.

(** C16. Committing a preparation outcome is guarded by everything it depended on.  On a
    borrowed database or a path, under any environment: an answered row means that the
    source is exactly the captured one, that settings and the previous outcome are exactly
    the captured ones, and that the committed preparation is that row.  It is the old row
    when the same outcome is already bound, and also when the new result is a gap while a
    ready artifact of the same input and settings is stored: a gap never destroys a ready
    outcome.  Otherwise it carries the new outcome bound to this source revision and
    input, and both the outcome revision and the wanted revision advance by one.  An
    error leaves everything as it was unless the environment interfered. *)
Theorem outcome_guarded {D} `{Redb D} (d : D) (c : corpus) (ps : preparations) capture result w :
  state_at d c ps -> result_wf result ->
  forall commit, commit = commit_preparation \/ commit = path_commit_preparation ->
  let '((answer, d'), _) := commit d capture result w in
  let id := source_id (capture_source capture) in
  exists c' ps', state_at d' c' ps' /\ sources c' = sources c /\ (forall other, other <> id -> ps' !! other = ps !! other) /\
    match answer with
    | Ok row =>
        sources c !! id = Some (capture_source capture) /\ ps' !! id = Some row /\
        exists old, ps !! id = Some old /\ settings old = capture_settings capture /\
          settings_revision old = capture_settings_revision capture /\
          (outcome_revision old, current_outcome old) = (expected_outcome_revision capture, expected_outcome capture) /\
          ((row = old /\ c' = c /\ ((gap_result result /\ holds_ready capture old) \/
              current_outcome old = Some (bind_outcome capture (capture_source capture) result))) \/
           (row = with_outcome old (outcome_revision old + 1) (bind_outcome capture (capture_source capture) result) /\
            ~ (gap_result result /\ holds_ready capture old) /\ wanted c' = wanted c + 1))
    | Err e => (c' = c /\ ps' = ps) \/ ~ calm w
    end.
Proof.
  intros Hst Hres commit Hcommit.
  assert (let '((answer, d'), _) := commit d capture result w in
    exists c' ps', state_at d' c' ps' /\
      concluded (outcome_spec c ps capture result) c ps (source_id (capture_source capture)) answer c' ps' w) as Hout.
  { destruct Hcommit as [-> | -> ]; [by apply commit_preparation_concluded|by apply path_commit_preparation_concluded]. }
  destruct (commit d capture result w) as [[answer d'] w']. destruct Hout as (c' & ps' & Hst' & Ha). cbv zeta.
  exists c', ps'. split; [done|]. destruct (outcome_spec c ps capture result) as [[row next]|e] eqn:Hspec.
  - pose proof (outcome_cases c ps capture result row next Hspec) as (Hs & old & Hold & H1 & H2 & H3 & Hcases).
    assert (sources (default c next) = sources c /\
      (forall other, other <> source_id (capture_source capture) -> written ps (source_id (capture_source capture)) row next !! other = ps !! other) /\
      written ps (source_id (capture_source capture)) row next !! source_id (capture_source capture) = Some row) as (Hsrc & Hother & Hself).
    { destruct Hcases as [(-> & -> & _)|(_ & _ & ->)]; cbn; [done|]. split; [done|]. split; [|apply lookup_insert_eq].
      intros other Hne. by rewrite lookup_insert_ne. }
    destruct answer as [row'|e]; cbn in Ha.
    + destruct Ha as (next' & [= <- <-] & -> & ->). split; [done|]. split; [done|]. split; [done|]. split; [done|].
      exists old. split_and!; try done. rewrite <- keeps_ready_iff.
      destruct Hcases as [(-> & -> & ?)|(-> & Hk & ->)]; [by left|right]. by rewrite Hk.
    + destruct Ha as [(? & _)|(Hc & _ & [[-> ->]|(_ & row' & [= <- Hn] & ->)])]; [done|split_and!; try done; by right|].
      subst next. split; [done|]. split; [done|by right].
  - destruct answer as [row'|e']; cbn in Ha; [by destruct Ha as (? & ? & _)|].
    destruct Ha as [(_ & -> & ->)|(Hc & _ & [[-> ->]|(_ & row' & ? & _)])]; [split_and!; try done; by left|split_and!; try done; by right|done].
Qed.

Lemma outcome_guarded_witness :
  (state_at sample_prepared_store sample_prepared_corpus sample_preparations /\ result_wf (Gap BinaryContent)) /\
  exists row d' w', commit_preparation sample_prepared_store sample_preparation_capture (Gap BinaryContent) [] = ((Ok row, d'), w') /\
  exists c' ps', state_at d' c' ps' /\ ps' !! sample_id = Some row.
Proof.
  split; [exact (conj sample_prepared_state I)|].
  pose proof (outcome_guarded sample_prepared_store sample_prepared_corpus sample_preparations sample_preparation_capture
    (Gap BinaryContent) [] sample_prepared_state I commit_preparation (or_introl eq_refl)) as Hout.
  assert (is_ok (fst (fst (commit_preparation sample_prepared_store sample_preparation_capture (Gap BinaryContent) []))) = true) as E
    by (vm_compute; reflexivity).
  destruct (commit_preparation sample_prepared_store sample_preparation_capture (Gap BinaryContent) []) as [[answer d'] w'].
  destruct answer as [row|e]; [|discriminate E]. exists row, d', w'. split; [reflexivity|].
  destruct Hout as (c' & ps' & Hst & _ & _ & _ & Hrow & _). exists c', ps'. exact (conj Hst Hrow).
Defined.

(** Initial settings never overwrite a selection.  Under any environment, the answered
    row is the stored one; a row that was there is answered unchanged and nothing is
    written; otherwise it is the default selection at revision one with no outcome.  A
    calm call on a registered source always answers one. *)
Theorem ensure_settings_idempotent {D} `{Redb D} (d : D) (c : corpus) (ps : preparations) id source w :
  state_at d c ps -> Uuid.wf id -> sources c !! id = Some source -> wanted c < U64_MAX ->
  forall ensure, ensure = ensure_preparation_settings \/ ensure = path_ensure_settings ->
  let '((answer, d'), _) := ensure d id w in
  exists c' ps', state_at d' c' ps' /\ sources c' = sources c /\
    (forall old, ps !! id = Some old -> c' = c /\ ps' = ps) /\
    match answer with
    | Ok row => ps' !! id = Some row /\ forall old, ps !! id = Some old \/ (ps !! id = None /\ old =
        {| prep_namespace := source_namespace_id source; prep_source_id := id; settings_revision := 1;
           settings := default_settings; outcome_revision := 0; current_outcome := None |}) -> row = old
    | Err e => ~ calm w
    end.
Proof.
  intros Hst Hid Hs Hw ensure Hensure.
  assert (let '((answer, d'), _) := ensure d id w in
    exists c' ps', state_at d' c' ps' /\ concluded (select_spec c ps id default_settings true) c ps id answer c' ps' w) as Hout.
  { destruct Hensure as [-> | -> ]; [by apply ensure_settings_concluded|by apply path_ensure_concluded]. }
  destruct (ensure d id w) as [[answer d'] w']. destruct Hout as (c' & ps' & Hst' & Ha).
  assert (0 <= wanted c) by (destruct Hst as [Hr _]; apply (represents_wf _ _ Hr)).
  exists c', ps'. split; [done|]. unfold select_spec in Ha. rewrite Hs in Ha. cbn [negb reject_if ok_or mbind result_bind] in Ha.
  destruct (ps !! id) as [old|] eqn:Hold; cbn [orb] in Ha.
  - destruct answer as [row|e]; cbn in Ha.
    + destruct Ha as (next & [= <- <-] & -> & ->). cbn. split_and!; try done. intros old' [[= ->]|[? _]]; done.
    + destruct Ha as [(? & _)|(Hc & _ & [[-> ->]|(_ & row & ? & _)])]; [done|by split_and!|done].
  - unfold write_spec in Ha. rewrite checked_add_some in Ha by lia. cbn [ok_or mbind result_bind next_settings] in Ha.
    destruct answer as [row|e]; cbn in Ha.
    + destruct Ha as (next & [= <- <-] & -> & ->). cbn. split; [done|]. split; [done|]. split; [apply lookup_insert_eq|].
      intros old [?|[_ ->]]; done.
    + destruct Ha as [(? & _)|(Hc & _ & [[-> ->]|(_ & row & [= <- <-] & ->)])]; [done|by split_and!|by split_and!].
Qed.

Lemma ensure_settings_idempotent_witness :
  (state_at sample_prepared_store sample_prepared_corpus sample_preparations /\ Uuid.wf sample_id /\
   sources sample_prepared_corpus !! sample_id = Some sample_record /\ wanted sample_prepared_corpus < U64_MAX) /\
  fst (fst (path_ensure_settings sample_prepared_store sample_id [])) = Ok sample_row.
Proof.
  assert (sources sample_prepared_corpus !! sample_id = Some sample_record) as Hs by (vm_compute; reflexivity).
  assert (wanted sample_prepared_corpus < U64_MAX) as Hw by (vm_compute; reflexivity).
  split; [exact (conj sample_prepared_state (conj sample_id_wf (conj Hs Hw)))|].
  pose proof (ensure_settings_idempotent sample_prepared_store sample_prepared_corpus sample_preparations sample_id sample_record []
    sample_prepared_state sample_id_wf Hs Hw path_ensure_settings (or_intror eq_refl)) as Hout.
  destruct (path_ensure_settings sample_prepared_store sample_id []) as [[answer d'] w'].
  destruct Hout as (c' & ps' & _ & _ & _ & Ha). destruct answer as [row|e].
  - destruct Ha as [_ Ha]. cbn. f_equal. apply Ha. left. vm_compute. reflexivity.
  - exfalso. apply Ha. constructor.
Defined.
