(* ===== verification/PreparedSource.v ===== *)
(** The daemon's preparation of one source (bins/eliot-searchd/src/prepared_source.rs): the
    settings, the capture, the stored object and the outcome are composed from the control
    state, the object store and the unitizer; the response is JSON. *)

From stdpp Require Import gmap.
From S2P Require Import Prelude Bytes Utf8 Ids Registry Layout Prepared SourceRow PreparationRow ObjectStore.
From S2P Require Import Database Control PreparationControl State Json.

(** The root's control database and its objects. *)
Record Root (D : Type) := { control : D; objects : directory }.
Arguments control {D} r.
Arguments objects {D} r.
Definition with_control {D} (d : D) (r : Root D) : Root D := {| control := d; objects := objects r |}.
Definition with_objects {D} (o : directory) (r : Root D) : Root D := {| control := control r; objects := o |}.

(** The verified preparation: the source, its committed preparation, and the stored artifact
    with its bytes. *)
Record PreparedSource := {
  prepared_source : CurrentSourceRecord;
  prepared_current : CurrentPreparation;
  stored_artifact : option (ObjectRef * list Z) }.

Definition prepare_limits : PreparationLimits :=
  {| max_input_bytes := 8 * 1024 * 1024; max_output_bytes := 8 * 1024 * 1024; max_lines := 1000000;
     max_units := 1000000; max_encoded_bytes := 64 * 1024 * 1024 |}.

(** An error is a code. *)
Abbreviation Code := (list Z).
Definition prepare_check {S} : St S Code unit :=
  st_env (check_with (str "PREPARATION_CANCELLED") (str "PREPARATION_DEADLINE")).

(** [gap] *)
Definition preparation_gap (error : PreparationError) : option PreparationGap :=
  match error with
  | Layout.BinaryContent => Some BinaryContent
  | Layout.InvalidUtf8 => Some InvalidUtf8
  | Layout.InputTooLarge => Some InputTooLarge
  | Layout.OutputTooLarge => Some OutputTooLarge
  | Layout.TooManyLines => Some TooManyLines
  | Layout.TooManyUnits => Some TooManyUnits
  | Layout.UnitTooLarge => Some UnitTooLarge
  | Layout.EncodedTooLarge => Some EncodedTooLarge
  | _ => None
  end.

Section Prepare.
Context (blake3 : list Z -> list Z).
Context (publish : directory -> list Z -> list Z -> list Z -> Z -> M PlainRootError.t directory).
Context {D : Type} `{Redb D}.

(** [read_object(root, ..).map_err(code)?] *)
Definition read_stored (reference : ObjectRef) (maximum : Z) : St (Root D) Code (list Z) :=
  st_err object_code (st_read (fun s => read_object blake3 (objects s) reference maximum)).
(** [store_object(root, ..).map_err(code)?] *)
Definition store_prepared (bytes : list Z) (maximum : Z) : St (Root D) Code ObjectRef :=
  stored ← st_err object_code (st_read (fun s => store_object blake3 publish (objects s) Prepared bytes maximum));
  _ ← st_modify (with_objects (snd stored));
  mret (fst stored).

Definition create_outcome (source : CurrentSourceRecord) (settings : PreparationSettings) (budget : PreparationLimits)
    : St (Root D) Code PreparationOutcome :=
  input_limit ← st_lift (ok_or (str "PREPARATION_LIMITS_INVALID") (try_from U64_MAX (max_input_bytes budget)));
  if input_limit <? byte_length (object_ref source) then mret (Gap InputTooLarge)
  else
    bytes ← read_stored (object_ref source) (Z.min input_limit MAX_SOURCE_OBJECT_BYTES);
    encoded ← st_result (st_env (prepare_utf8 blake3 source bytes settings budget));
    match encoded with
    | Ok encoded =>
        maximum ← st_lift (ok_or (str "PREPARATION_LIMITS_INVALID") (try_from U64_MAX (max_encoded_bytes budget)));
        artifact ← store_prepared encoded maximum;
        mret (Ready artifact)
    | Err error =>
        match preparation_gap error with
        | None => st_lift (Err (Layout.code error))
        | Some reason => mret (Gap reason)
        end
    end.

(** The operations of [prepare] on the control database, through a borrowed writer or on the
    root's path. *)
Definition on_control {A} (m : D -> env -> (result Prep.t A * D) * env) : St (Root D) Code A :=
  st_err Prep.code (st_on control with_control m).
Definition path_capture_preparation d (id : list Z) : M Prep.t PreparationCapture :=
  view ← read_view d id;
  let '(source, row) := view in
  lift (capture_view source row).
Definition ensure (borrowed : bool) (id : list Z) : St (Root D) Code CurrentPreparation :=
  on_control (fun d => if borrowed then ensure_preparation_settings d id else path_ensure_settings d id).
Definition capture (borrowed : bool) (id : list Z) : St (Root D) Code PreparationCapture :=
  on_control (st_read (fun d => if borrowed then capture_preparation d id else path_capture_preparation d id)).
Definition commit_result (borrowed : bool) (capture : PreparationCapture) (result : PreparationOutcome)
    : St (Root D) Code CurrentPreparation :=
  on_control (fun d => if borrowed then commit_preparation d capture result else path_commit_preparation d capture result).

(** The artifact of an earlier outcome of the same input and settings. *)
Definition reusable (capture : PreparationCapture) : option ObjectRef :=
  match expected_outcome capture with
  | Some o =>
      if matches_input o (capture_source capture) (capture_settings capture) then
        match outcome_result o with Ready artifact => Some artifact | Gap _ => None end
      else None
  | None => None
  end.

(** Reading an artifact back and decoding it. *)
Definition load_artifact (source : CurrentSourceRecord) (settings : PreparationSettings) (artifact : ObjectRef) (encoded_limit : Z)
    : St (Root D) Code (list Z) :=
  stored ← read_stored artifact encoded_limit;
  _ ← st_err Layout.code (st_env (decode_prepared_utf8 blake3 stored source settings prepare_limits));
  mret stored.

Definition prepare (borrowed : bool) (id : list Z) : St (Root D) Code PreparedSource :=
  _ ← prepare_check;
  _ ← ensure borrowed id;
  captured ← capture borrowed id;
  let source := capture_source captured in
  let settings := capture_settings captured in
  encoded_limit ← st_lift (ok_or (str "PREPARATION_LIMITS_INVALID") (try_from U64_MAX (max_encoded_bytes prepare_limits)));
  outcome ← match reusable captured with
    | Some artifact => mret (Ready artifact)
    | None => create_outcome source settings prepare_limits
    end;
  match outcome with
  | Ready artifact =>
      stored ← load_artifact source settings artifact encoded_limit;
      current ← commit_result borrowed captured outcome;
      mret {| prepared_source := source; prepared_current := current; stored_artifact := Some (artifact, stored) |}
  | Gap reason =>
      current ← commit_result borrowed captured outcome;
      match outcome_result <$> current_outcome current with
      | Some (Ready artifact) =>
          stored ← load_artifact source settings artifact encoded_limit;
          mret {| prepared_source := source; prepared_current := current; stored_artifact := Some (artifact, stored) |}
      | Some (Gap actual) =>
          if bool_decide (actual = reason) then
            mret {| prepared_source := source; prepared_current := current; stored_artifact := None |}
          else st_lift (Err (str "PREPARATION_CONTROL_CORRUPT"))
      | None => st_lift (Err (str "PREPARATION_CONTROL_CORRUPT"))
      end
  end.
End Prepare.

(** ** The response *)

Section Response.
Context (blake3 : list Z -> list Z).

Definition object_json (reference : ObjectRef) : Value :=
  Value.object [(str "version", Value.Number (format_version reference));
    (str "kind", Value.String (kind_name (kind reference)));
    (str "digest", Value.String (hex_encode (digest reference)));
    (str "bytes", Value.Number (byte_length reference))].
Definition settings_json (s : PreparationSettings) : Value :=
  Value.object [(str "utf8_version", Value.Number (utf8_version s));
    (str "line_unitizer_version", Value.Number (line_unitizer_version s));
    (str "preferred_unit_bytes", Value.Number (preferred_unit_bytes s));
    (str "max_unit_bytes", Value.Number (max_unit_bytes s))].

Definition base (source : CurrentSourceRecord) (state : CurrentPreparation) : Value :=
  Value.object [(str "operation", Value.String (str "prepare-source"));
    (str "state", Value.String (str "gap"));
    (str "source_namespace_id", Value.String (Uuid.display (source_namespace_id source)));
    (str "source_id", Value.String (Uuid.display (source_id source)));
    (str "source_row_revision", Value.Number (row_revision source));
    (str "registration_revision", Value.Number (registration_revision source));
    (str "settings_revision", Value.Number (settings_revision state));
    (str "outcome_revision", Value.Number (outcome_revision state));
    (str "settings", settings_json (settings state));
    (str "input", object_json (object_ref source));
    (str "artifact", Value.Null); (str "representation_bytes", Value.Null);
    (str "unit_count", Value.Null); (str "unit", Value.Null); (str "gap", Value.Null)].

Definition unit_json (ordinal : Z) (unit : UnitSpan) (text : list Z) : Value :=
  Value.object [(str "ordinal", Value.Number ordinal);
    (str "start", Value.Number (unit_start unit)); (str "end", Value.Number (unit_end unit));
    (str "line_start", Value.Number (logical_line_start unit));
    (str "line_end", Value.Number (logical_line_end unit));
    (str "starts_at_line_boundary", Value.Bool (starts_at_line_boundary unit));
    (str "ends_at_line_boundary", Value.Bool (ends_at_line_boundary unit));
    (str "text", Value.String text)].

Definition ready_response (source : CurrentSourceRecord) (state : CurrentPreparation) (artifact : ObjectRef)
    (view : PreparedUtf8) (ordinal : Z) : result Code Value :=
  let response := base source state in
  let response := Value.set response (str "artifact") (object_json artifact) in
  let response := Value.set response (str "representation_bytes") (Value.Number (len (prepared_text view))) in
  let response := Value.set response (str "unit_count") (Value.Number (len (prepared_units view))) in
  if len (prepared_units view) =? 0 then
    _ ← reject_if (negb (len (prepared_text view) =? 0)) (str "PREPARATION_ARTIFACT_INVALID");
    _ ← reject_if (negb (ordinal =? 0)) (str "PREPARATION_UNIT_OUT_OF_RANGE");
    Ok (Value.set response (str "state") (Value.String (str "empty")))
  else
    unit ← ok_or (str "PREPARATION_UNIT_OUT_OF_RANGE") (at_ (prepared_units view) ordinal);
    text ← ok_or (str "PREPARATION_ARTIFACT_INVALID") (str_get (prepared_text view) (unit_start unit) (unit_end unit));
    let response := Value.set response (str "state") (Value.String (str "ready")) in
    Ok (Value.set response (str "unit") (unit_json ordinal unit text)).

Definition response (prepared : PreparedSource) (ordinal : Z) : M Code Value :=
  let state := prepared_current prepared in
  match outcome_result <$> current_outcome state with
  | Some (Ready artifact) =>
      found ← lift (ok_or (str "PREPARATION_CONTROL_CORRUPT")
        (option_keep (fun stored => bool_decide (fst stored = artifact)) (stored_artifact prepared)));
      let '(stored_ref, stored) := found in
      view ← lift_err Layout.code
        (decode_prepared_utf8 blake3 stored (prepared_source prepared) (settings state) prepare_limits);
      lift (ready_response (prepared_source prepared) state stored_ref view ordinal)
  | Some (Gap reason) =>
      mret (Value.set (base (prepared_source prepared) state) (str "gap") (Value.String (gap_code reason)))
  | None => fail (str "PREPARATION_CONTROL_CORRUPT")
  end.

(** What [run] writes to standard output after [prepare]: one line, or nothing and the code
    of the failure. *)
Definition response_line `{SerdeJson} (prepared : PreparedSource) (ordinal : Z) : M Code (list Z) :=
  value ← response prepared ordinal;
  bytes ← lift (ok_or (str "PREPARATION_RESPONSE_TOO_LARGE")
    (option_keep (fun bytes => len bytes <? MAX_PREPARATION_RESPONSE_BYTES) (to_vec value)));
  _ ← check_with (str "PREPARATION_CANCELLED") (str "PREPARATION_DEADLINE");
  mret (bytes ++ [10]).
End Response.
