(* ===== verification/PreparedSafety.v ===== *)
(** What the daemon's preparation of a source guarantees, whatever the environment, the
    object directory and the publication of objects do. *)

From stdpp Require Import gmap.
From S2P Require Import Prelude Bytes Utf8 Ids Registry Layout Prepared SourceRow PreparationRow ObjectStore.
From S2P Require Import Database Control ControlSpec ControlSample PreparationControl PreparationSpec PreparationState State PreparedSource.

(** Files hold bytes. *)
Definition directory_typed (root : directory) : Prop :=
  forall name length contents after, root name = File length (Some contents) after -> bytes_ok contents.

(** A failure of the root's owner when the environment stops it. *)
#[export] Instance root_interrupt : Interrupt PlainRootError.t := fun e =>
  e = PlainRootError.Cancelled \/ e = PlainRootError.Deadline.

(** The input of a gap cannot be prepared, for this reason. *)
Definition gap_true (blake3 : list Z -> list Z) (source : CurrentSourceRecord) (settings : PreparationSettings)
    (reason : PreparationGap) : Prop :=
  exists bytes e, blake3 bytes = digest (object_ref source) /\ len bytes = byte_length (object_ref source) /\
    prepare_refused blake3 source settings prepare_limits bytes e /\ preparation_gap e = Some reason.

(** Stored bytes that are the artifact of a source under these settings. *)
Definition artifact_true (blake3 : list Z -> list Z) (source : CurrentSourceRecord) (settings : PreparationSettings)
    (artifact : ObjectRef) (stored : list Z) (view : PreparedUtf8) : Prop :=
  blake3 stored = digest artifact /\ len stored = byte_length artifact /\ bytes_ok stored /\
  stored = artifact_of source settings view /\ accepted blake3 source settings prepare_limits view.

(** [PreparedSource] as [prepare] makes it: its outcome is of exactly this input and these
    settings, and a ready outcome comes with the bytes of its artifact. *)
Definition preparation_sound (blake3 : list Z -> list Z) (p : PreparedSource) : Prop :=
  row_ok (prepared_source p) /\ validate_row (prepared_current p) = Ok tt /\ preparation_wf (prepared_current p) /\
  exists o, current_outcome (prepared_current p) = Some o /\
    matches_input o (prepared_source p) (settings (prepared_current p)) = true /\
    match outcome_result o with
    | Ready artifact => exists stored view, stored_artifact p = Some (artifact, stored) /\
        artifact_true blake3 (prepared_source p) (settings (prepared_current p)) artifact stored view
    | Gap _ => stored_artifact p = None
    end.

Section Objects.
Context (blake3 : list Z -> list Z) (Hdigest : forall bytes, bytes_ok bytes -> Digest.wf (blake3 bytes)).

Lemma object_at_typed root reference maximum bytes :
  directory_typed root -> object_at blake3 root reference maximum = Ok bytes -> bytes_ok bytes.
Proof.
  intros Hr H. unfold object_at in H. apply bind_ok_inv in H as (name & _ & H).
  destruct (root name) as [| | |length contents after] eqn:He; try done.
  destruct (negb _ || _); [done|]. apply bind_ok_inv in H as (c & Hc%ok_or_inv & H). subst contents.
  destruct (negb _ || _); [done|]. apply bind_ok_inv in H as (a & _ & H).
  destruct (a =? byte_length reference); [|done]. apply ok_inj in H as <-. apply Forall_take. by eapply Hr.
Qed.

Lemma read_outcome root reference maximum :
  directory_typed root -> 0 <= byte_length reference -> maximum < U64_MAX ->
  outcome (read_object blake3 root reference maximum)
    (fun bytes => blake3 bytes = digest reference /\ len bytes = byte_length reference /\ byte_length reference <= maximum /\ bytes_ok bytes)
    (fun _ => True).
Proof.
  intros Hr Hl Hm. eapply outcome_refines; [by apply read_object_refines| |done]. intros bytes Hok.
  destruct (object_at_ok blake3 _ _ _ _ Hok) as (? & ? & ? & _). split_and!; try done. by eapply object_at_typed.
Qed.

Lemma make_reference_ok k bytes maximum reference :
  make_reference blake3 k bytes maximum = Ok reference ->
  reference = {| format_version := SOURCE_OBJECT_FORMAT_VERSION; kind := k; digest := blake3 bytes; byte_length := len bytes |} /\
  len bytes <= U64_MAX.
Proof.
  intros H. unfold make_reference in H. apply bind_ok_inv in H as (n & Hn%ok_or_inv%try_from_inv & H). destruct Hn as [-> Hn].
  apply bind_ok_inv in H as ([] & _ & H). cbv zeta in H. apply bind_ok_inv in H as (nm & _ & H). split; [|lia].
  destruct k; by injection H as <-.
Qed.

Context (publish : directory -> list Z -> list Z -> list Z -> Z -> M PlainRootError.t directory)
  (Hpublish : forall root name stage bytes maximum, directory_typed root -> bytes_ok bytes ->
     outcome (publish root name stage bytes maximum) directory_typed (fun _ => True)).

Lemma store_outcome root bytes maximum :
  directory_typed root -> bytes_ok bytes -> maximum < U64_MAX ->
  outcome (store_object blake3 publish root Prepared bytes maximum)
    (fun stored => fst stored = prepared_ref (blake3 bytes) (len bytes) /\ object_wf (fst stored) /\ directory_typed (snd stored))
    (fun _ => True).
Proof.
  intros Hr Hb Hm. unfold store_object. apply outcome_seq; [apply refines_check; auto with eliot|].
  apply outcome_pure; [|done]. intros reference (-> & Hl)%make_reference_ok. apply outcome_pure; [|done]. intros name _. cbv zeta.
  eapply (outcome_bind _ _ directory_typed).
  - eapply (outcome_lift_err publish_failure); [by apply Hpublish| |done].
    intros e [->| ->]; auto with eliot.
  - intros root' Hr'. pose proof (len_nonneg bytes). eapply (outcome_bind _ _ (fun _ => True)).
    + eapply outcome_weaken; [by apply read_outcome|done|done].
    + intros back _. apply Prelude.outcome_guard; [done|]. intros _. apply outcome_ret. split; [done|]. split; [|done].
      split; [cbn; unfold SOURCE_OBJECT_FORMAT_VERSION; width|]. split; [by apply Hdigest|]. cbn. lia.
Qed.
End Objects.

(** What the selection of settings and the commit of an outcome leave of other sources. *)
Definition spares (spec : result Prep.t (CurrentPreparation * option corpus)) (c : corpus) : Prop :=
  forall row next, spec = Ok (row, Some next) -> sources next = sources c.

Lemma select_spares c ps id chosen init : spares (select_spec c ps id chosen init) c.
Proof.
  intros row next E. unfold select_spec in E. apply bind_ok_inv in E as (? & _ & E). apply bind_ok_inv in E as (source & _ & E).
  destruct (ps !! id).
  - destruct (init || _); [done|]. apply bind_ok_inv in E as (r & _ & E). by apply write_spec_inv in E as (_ & [= ->] & _).
  - apply bind_ok_inv in E as (r & _ & E). by apply write_spec_inv in E as (_ & [= ->] & _).
Qed.
Lemma outcome_spares c ps captured result : spares (outcome_spec c ps captured result) c.
Proof.
  intros row next E. destruct (outcome_cases c ps captured result row (Some next) E) as (_ & old & _ & _ & _ & _ & Hcases).
  destruct Hcases as [(_ & ? & _)|(_ & _ & Hn)]; [done|]. cbn in Hn. naive_solver.
Qed.

Lemma concluded_spares spec c ps id answer c' ps' w :
  spares spec c -> concluded spec c ps id answer c' ps' w ->
  sources c' = sources c /\ forall other, other <> id -> ps' !! other = ps !! other.
Proof.
  intros Hs Hc. assert (forall row, (<[id := row]> ps : preparations) = ps' -> forall other, other <> id -> ps' !! other = ps !! other) as Hins.
  { intros row <- other Hne. by rewrite lookup_insert_ne. }
  destruct answer as [row|e]; cbn in Hc.
  - destruct Hc as (next & E & -> & ->). destruct next as [c1|]; cbn; [|done]. split; [by eapply Hs|by eapply Hins].
  - destruct Hc as [(_ & -> & ->)|(_ & _ & [[-> ->]|(_ & row & E & ->)])]; try done. split; [by eapply Hs|by eapply Hins].
Qed.

Section Prepare.
Context (blake3 : list Z -> list Z) (Hdigest : forall bytes, bytes_ok bytes -> Digest.wf (blake3 bytes)).
Context (publish : directory -> list Z -> list Z -> list Z -> Z -> M PlainRootError.t directory)
  (Hpublish : forall root name stage bytes maximum, directory_typed root -> bytes_ok bytes ->
     outcome (publish root name stage bytes maximum) directory_typed (fun _ => True)).
Context {D : Type} `{Redb D} (c0 : corpus) (ps0 : preparations) (id : list Z) (Hid : Uuid.wf id).

(** Only the preparation of [id] may have changed. *)
Definition preparing (c : corpus) (ps : preparations) (r : Root D) : Prop :=
  state_at (control r) c ps /\ sources c = sources c0 /\ (forall other, other <> id -> ps !! other = ps0 !! other) /\
  directory_typed (objects r).
Definition kept (r : Root D) : Prop := exists c ps, preparing c ps r.

(** An operation on the control database that is concluded as its specification says. *)
Lemma control_runs (m : D -> env -> (result Prep.t CurrentPreparation * D) * env)
    (spec : corpus -> preparations -> result Prep.t (CurrentPreparation * option corpus)) :
  (forall d w c ps, state_at d c ps ->
     let '((answer, d'), _) := m d w in
     exists c' ps', state_at d' c' ps' /\ concluded (spec c ps) c ps id answer c' ps' w) ->
  (forall c ps, spares (spec c ps) c) ->
  runs kept (on_control m)
    (fun row r => exists c ps next, spec c ps = Ok (row, next) /\ preparing (default c next) (written ps id row next) r)
    (fun _ => kept).
Proof.
  intros Hm Hs. unfold on_control. eapply runs_err; [|by intros e s Hx; exact Hx]. apply runs_on.
  intros r w (c & ps & Hst & Hsrc & Hoth & Hdir). specialize (Hm (control r) w c ps Hst).
  destruct (m (control r) w) as [[answer d'] w']. destruct Hm as (c' & ps' & Hst' & Hc). cbn [fst].
  destruct (concluded_spares _ _ _ _ _ _ _ _ (Hs c ps) Hc) as [E1 E2].
  assert (preparing c' ps' (with_control d' r)) as Hk.
  { split; [done|]. split; [congruence|]. split; [|done]. intros other Hne. rewrite E2 by done. by apply Hoth. }
  destruct answer as [row|e]; [|by exists c', ps']. destruct Hc as (next & E & -> & ->). by exists c, ps, next.
Qed.

Lemma ensure_runs borrowed : runs kept (ensure borrowed id) (fun _ => kept) (fun _ => kept).
Proof.
  eapply runs_weaken; [|done| |by intros e s Hx; exact Hx].
  - apply (control_runs _ (fun c ps => select_spec c ps id default_settings true)); [|intros; apply select_spares].
    intros d w c ps Hst. destruct borrowed; [by apply ensure_settings_concluded|by apply path_ensure_concluded].
  - intros row r (c & ps & next & _ & Hp). by exists (default c next), (written ps id row next).
Qed.

(** What a capture tells of the source and of an outcome it expects. *)
Definition captured_ok (captured : PreparationCapture) : Prop :=
  source_id (capture_source captured) = id /\ row_ok (capture_source captured) /\
  is_supported (capture_settings captured) = true /\
  forall o artifact, expected_outcome captured = Some o -> outcome_result o = Ready artifact -> object_wf artifact.

Lemma capture_runs borrowed : runs kept (capture borrowed id) (fun captured r => captured_ok captured /\ kept r) (fun _ => kept).
Proof.
  unfold capture, on_control. eapply runs_err; [|by intros e s Hx; exact Hx]. apply runs_on.
  intros r w Hk. pose proof Hk as (c & ps & Hst & _). assert (with_control (control r) r = r) as Hr by (by destruct r). unfold st_read.
  assert (refines (if borrowed then capture_preparation (control r) id else path_capture_preparation (control r) id)
    (source ← ok_or Prep.NotRetained (sources c !! id); capture_view source (ps !! id))) as Hm.
  { destruct borrowed; [by apply capture_preparation_refines|]. unfold path_capture_preparation.
    pose proof (read_view_refines (control r) c ps id Hst) as Hv. unfold view_spec in Hv.
    destruct (sources c !! id); cbn [ok_or mbind result_bind] in *; [|by apply refines_bind_err].
    eapply refines_bind_ok; [exact Hv|]. apply refines_lift. }
  destruct (Hm w) as [Hany _]. unfold run in Hany.
  set (m := if borrowed then capture_preparation (control r) id else _) in *. destruct (m w) as [[captured|e] w']; cbn [fst] in *; rewrite Hr; [|done].
  destruct Hany as [E|(? & [=] & _)]. split; [|done]. symmetry in E. apply bind_ok_inv in E as (source & Hs%ok_or_inv & E).
  unfold capture_view in E. apply bind_ok_inv in E as (row & Hrow%ok_or_inv & E). apply ok_inj in E as <-.
  destruct Hst as [(_ & _ & Hh) [_ Hps]]. assert (corpus_wf c) as (_ & _ & Hrows & _) by apply Hh.
  destruct (Hrows _ _ Hs) as (? & _ & ?). destruct (Hps _ _ Hrow) as (Hwf & Hv & _). unfold captured_ok; cbn.
  split; [done|]. split; [done|]. unfold validate_row in Hv. apply bind_ok_inv in Hv as ([] & Hg%reject_if_ok & _). to_prop.
  split; [done|]. intros o artifact Ho Hr'. destruct Hwf as (_ & _ & _ & _ & _ & Hb). rewrite Ho in Hb.
  destruct Hb as (_ & _ & _ & _ & Hout). by rewrite Hr' in Hout.
Qed.

Lemma objects_typed r : kept r -> directory_typed (objects r).
Proof. by intros (c & ps & _ & _ & _ & ?). Qed.
Lemma kept_objects r root : kept r -> directory_typed root -> kept (with_objects root r).
Proof. intros (c & ps & ? & ? & ? & _) Hd. by exists c, ps. Qed.

(** Reads keep whatever held. *)
Lemma read_stored_runs (P : Root D -> Prop) reference maximum :
  (forall r, P r -> directory_typed (objects r)) -> 0 <= byte_length reference -> maximum < U64_MAX ->
  runs P (read_stored blake3 reference maximum)
    (fun bytes r => (blake3 bytes = digest reference /\ len bytes = byte_length reference /\ byte_length reference <= maximum /\
       bytes_ok bytes) /\ P r) (fun _ => P).
Proof.
  intros HP Hl Hm. unfold read_stored. eapply runs_err; [|by intros e s Hx; exact Hx].
  eapply runs_outcome; [intros r Hr; apply read_outcome; [by apply HP|done..]| |done].
  intros bytes r Hr Hb. by split.
Qed.

(** The object is the artifact of the source under the settings. *)
Definition artifact_of_source (source : CurrentSourceRecord) (settings : PreparationSettings) (artifact : ObjectRef)
    (stored : list Z) : Prop := exists view, artifact_true blake3 source settings artifact stored view.

Lemma load_artifact_runs (P : Root D -> Prop) source settings artifact limit :
  (forall r, P r -> directory_typed (objects r)) -> row_ok source -> settings_wf settings -> object_wf artifact -> limit < ISIZE_MAX ->
  runs P (load_artifact blake3 source settings artifact limit)
    (fun stored r => artifact_of_source source settings artifact stored /\ P r) (fun _ => P).
Proof.
  intros HP (Hwf & _) Hs (_ & _ & Hl) Hlim. unfold load_artifact. eapply runs_bind; [apply read_stored_runs; [done|lia|width]|].
  intros stored. cbv beta. apply runs_pull. intros (Hb & Hlen & Hmax & Hok). eapply (runs_bind _ _ (fun _ r => artifact_of_source source settings artifact stored /\ P r)).
  - eapply runs_err; [|by intros e s Hx; exact Hx]. apply runs_env; [|done]. intros view w r Hrun Hr. split; [|done].
    assert (0 <= max_lines prepare_limits) as Hml by (vm_compute; congruence).
    destruct (outcome_ok _ _ _ _ _ (decode_prepared_outcome blake3 stored source settings prepare_limits Hwf Hs Hml Hok ltac:(lia)) Hrun)
      as (_ & Hstored & Hacc). by exists view.
  - intros _. by apply runs_ret.
Qed.

(** What [create_outcome] makes is true of the source. *)
Definition outcome_true (source : CurrentSourceRecord) (settings : PreparationSettings) (result : PreparationOutcome) : Prop :=
  result_wf result /\ match result with Ready _ => True | Gap reason => gap_true blake3 source settings reason end.

Lemma create_outcome_runs source settings :
  row_ok source ->
  runs kept (create_outcome blake3 publish source settings prepare_limits)
    (fun result r => outcome_true source settings result /\ kept r) (fun _ => kept).
Proof.
  intros (Hwf & _ & Hmax). unfold create_outcome. apply runs_pure; [|done]. intros limit Hlim%ok_or_inv%try_from_inv. destruct Hlim as [-> _].
  assert (max_input_bytes prepare_limits = MAX_SOURCE_OBJECT_BYTES) as Hin by reflexivity.
  replace (max_input_bytes prepare_limits <? byte_length (object_ref source)) with false by lia.
  assert (0 <= byte_length (object_ref source)) as Hl by (destruct Hwf as (_ & _ & _ & _ & _ & _ & _ & _ & _ & ?); lia).
  assert (MAX_SOURCE_OBJECT_BYTES < ISIZE_MAX) as Hms by reflexivity.
  eapply runs_bind; [apply read_stored_runs; [apply objects_typed|done|rewrite Hin; width]|]. intros bytes. cbv beta. apply runs_pull. intros (Hb & Hlen & _ & Hok).
  pose proof (prepare_outcome blake3 source settings prepare_limits Hwf ltac:(vm_compute; congruence) bytes Hok ltac:(lia) ltac:(vm_compute; congruence)) as Hprep.
  eapply (runs_bind _ _ (fun encoded r => match encoded with Ok a => bytes_ok a | Err e =>
    forall reason, preparation_gap e = Some reason -> gap_true blake3 source settings reason end /\ kept r)).
  - intros r w Hr. unfold st_result, st_env, st_read. destruct (Hprep w) as [Hrun _]. unfold run in Hrun.
    destruct (prepare_utf8 blake3 source bytes settings prepare_limits w) as [[a|e] w']; cbn [fst] in *; (split; [|done]).
    + destruct Hrun as (us & -> & Hacc & _). apply artifact_bytes_ok; [done|apply Hacc].
    + intros reason He. destruct Hrun as [Hrun|[[->|[->| ->]] _]]; [by exists bytes, e|done..].
  - intros [encoded|e]; cbv beta iota; apply runs_pull; intros Hok'.
    + apply runs_pure; [|done]. intros maximum Hmx%ok_or_inv%try_from_inv. destruct Hmx as [-> _]. unfold store_prepared.
      eapply (runs_bind _ _ (fun artifact r => object_wf artifact /\ kept r)).
      * eapply (runs_bind _ _ (fun stored r => (object_wf (fst stored) /\ directory_typed (snd stored)) /\ kept r)).
        -- eapply runs_err; [|by intros e s Hx; exact Hx].
           eapply runs_outcome; [intros r Hr; apply (store_outcome blake3 Hdigest publish Hpublish); [by apply objects_typed|done|reflexivity]| |done].
           intros stored r Hr (_ & Hs). by split.
        -- intros stored. cbv beta. apply runs_pull. intros [Ho Hd]. eapply (runs_bind _ _ (fun _ => kept)).
           ++ apply runs_modify. intros r Hr. by apply kept_objects.
           ++ intros _. by apply runs_ret.
      * intros artifact. cbv beta. apply runs_pull. intros Ho. by apply runs_ret.
    + destruct (preparation_gap e) as [reason|]; [|by apply runs_lift]. apply runs_ret. intros r Hr. split; [|done]. split; [done|]. by apply Hok'.
Qed.

(** The row a commit leaves is of the captured input and settings. *)
Lemma commit_runs borrowed captured result :
  source_id (capture_source captured) = id -> result_wf result ->
  runs kept (commit_result borrowed captured result)
    (fun row r => exists c ps o, preparing c ps r /\ sources c !! id = Some (capture_source captured) /\ ps !! id = Some row /\
       settings row = capture_settings captured /\ current_outcome row = Some o /\
       matches_input o (capture_source captured) (settings row) = true /\
       (outcome_result o = result \/ exists reason artifact, result = Gap reason /\ outcome_result o = Ready artifact))
    (fun _ => kept).
Proof.
  intros Hcid Hres. eapply runs_weaken; [|done| |by intros e s Hx; exact Hx].
  - apply (control_runs _ (fun c ps => outcome_spec c ps captured result)); [|intros; apply outcome_spares].
    intros d w c ps Hst. rewrite <- Hcid. destruct borrowed; [by apply commit_preparation_concluded|by apply path_commit_preparation_concluded].
  - intros row r (c & ps & next & E & Hp). destruct (outcome_cases _ _ _ _ _ _ E) as (Hs & old & Hold & Hset & _ & _ & Hcases).
    rewrite Hcid in *. exists (default c next), (written ps id row next).
    assert (forall res, matches_input (bind_outcome captured (capture_source captured) res) (capture_source captured) (capture_settings captured) = true) as Hmatch
      by (intros; by apply bool_decide_eq_true).
    destruct Hcases as [(-> & -> & Hkeep)|(-> & _ & ->)].
    + destruct Hkeep as [Hkeep|Ho].
      * apply keeps_ready_iff in Hkeep as [[reason ->] (o & artifact & Ho & Hr & H1 & H2 & H3)]. exists o. split_and!; try done.
        { unfold matches_input. apply bool_decide_eq_true. congruence. }
        right. by exists reason, artifact.
      * eexists. split_and!; [done..|exact Ho| |by left]. by rewrite Hset.
    + eexists. split_and!; [done|done|by cbn; rewrite lookup_insert_eq|done|reflexivity| |by left]. cbn. by rewrite Hset.
Qed.

(** What [prepare] returns. *)
Definition prepared_from (p : PreparedSource) (r : Root D) : Prop :=
  preparation_sound blake3 p /\
  (forall o reason, current_outcome (prepared_current p) = Some o -> outcome_result o = Gap reason ->
     gap_true blake3 (prepared_source p) (settings (prepared_current p)) reason) /\
  exists c ps, preparing c ps r /\ sources c !! id = Some (prepared_source p) /\ ps !! id = Some (prepared_current p).

(** The answer is put together from a committed row and what was read of its artifact. *)
Lemma prepared_intro source row o stored c ps r :
  preparing c ps r -> sources c !! id = Some source -> ps !! id = Some row -> current_outcome row = Some o ->
  matches_input o source (settings row) = true ->
  match outcome_result o with
  | Ready artifact => exists bytes, stored = Some (artifact, bytes) /\ artifact_of_source source (settings row) artifact bytes
  | Gap reason => stored = None /\ gap_true blake3 source (settings row) reason
  end ->
  prepared_from {| prepared_source := source; prepared_current := row; stored_artifact := stored |} r.
Proof.
  intros Hp Hs Hrow Ho Hm Hout. pose proof Hp as ([(_ & _ & Hh) [_ Hps]] & _). assert (corpus_wf c) as (_ & _ & Hrows & _) by apply Hh.
  destruct (Hrows _ _ Hs) as (_ & _ & Hok). destruct (Hps _ _ Hrow) as (Hwf & Hv & _). split; [|split].
  - split; [done|]. split; [done|]. split; [done|]. exists o. split; [done|]. split; [done|]. cbn.
    destruct (outcome_result o); [|by destruct Hout]. destruct Hout as (bytes & -> & view & Hview). by exists bytes, view.
  - cbn. intros o' reason Ho' Hr. assert (o' = o) as -> by congruence. rewrite Hr in Hout. by destruct Hout.
  - by exists c, ps.
Qed.

Lemma prepare_runs borrowed : runs kept (prepare blake3 publish borrowed id) prepared_from (fun _ => kept).
Proof.
  unfold prepare. apply runs_seq; [by apply runs_env|]. intros _. apply runs_seq; [apply ensure_runs|]. intros _.
  eapply runs_bind; [apply capture_runs|]. intros captured. cbv beta. apply runs_pull. intros (Hcid & Hrow & Hsup & Hexp).
  cbv zeta. set (source := capture_source captured) in *. set (chosen := capture_settings captured) in *.
  pose proof (supported_wf _ Hsup) as Hset. apply runs_pure; [|done]. intros limit Hlim%ok_or_inv%try_from_inv. destruct Hlim as [-> _].
  assert (max_encoded_bytes prepare_limits < ISIZE_MAX) as Hlim by reflexivity.
  eapply (runs_bind _ _ (fun result r => outcome_true source chosen result /\ kept r)).
  { destruct (reusable captured) as [artifact|] eqn:Hreuse; [|by apply create_outcome_runs].
    apply runs_ret. intros r Hr. split; [|done]. split; [|done]. unfold reusable in Hreuse.
    destruct (expected_outcome captured) as [o|] eqn:Ho; [|done]. destruct (matches_input o _ _); [|done].
    destruct (outcome_result o) as [a|g] eqn:Hr'; [|done]. injection Hreuse as ->. by eapply Hexp. }
  intros result. cbv beta. apply runs_pull. intros [Hres Htrue]. destruct result as [artifact|reason].
  - eapply runs_bind; [apply load_artifact_runs; [apply objects_typed|done..]|]. intros stored. cbv beta. apply runs_pull. intros Hart.
    eapply runs_bind; [by apply (commit_runs borrowed captured (Ready artifact))|]. intros row. apply runs_ret.
    intros r (c & ps & o & Hp & Hs & Hr & Hse & Ho & Hm & Hcase). eapply prepared_intro; [done..|].
    destruct Hcase as [-> | (? & ? & [=] & _)]. exists stored. split; [done|]. by rewrite Hse.
  - eapply runs_bind; [by apply (commit_runs borrowed captured (Gap reason))|]. intros row.
    apply runs_ex. intros c. apply runs_ex. intros ps. apply runs_ex. intros o.
    apply (runs_facts (sources c !! id = Some source /\ ps !! id = Some row /\ settings row = chosen /\ current_outcome row = Some o /\
      matches_input o source (settings row) = true /\
      (outcome_result o = Gap reason \/ exists r artifact, Gap reason = Gap r /\ outcome_result o = Ready artifact) /\
      forall artifact, outcome_result o = Ready artifact -> object_wf artifact) _ (preparing c ps)).
    { intros r (Hp & Hs & Hr & Hse & Ho & Hm & Hcase). split; [|done]. split_and!; try done. intros artifact Hor.
      destruct Hp as ([_ [_ Hps]] & _). destruct (Hps _ _ Hr) as ((_ & _ & _ & _ & _ & Hb) & _). rewrite Ho in Hb.
      destruct Hb as (_ & _ & _ & _ & Hb). by rewrite Hor in Hb. }
    intros (Hs & Hr & Hse & Ho & Hm & Hcase & Hobj).
    rewrite Ho. cbn [fmap option_fmap option_map]. destruct (outcome_result o) as [a|actual] eqn:Hor.
    + apply (runs_weaken (preparing c ps) _ _ prepared_from _ (fun _ => preparing c ps)); [|done..|intros e r Hp; by exists c, ps].
      eapply runs_bind; [apply load_artifact_runs; [by intros r (_ & _ & _ & ?)|done|done|by apply Hobj|done]|].
      intros stored. cbv beta. apply runs_pull. intros Hart. apply runs_ret. intros r Hp. eapply prepared_intro; [done..|].
      rewrite Hor. exists stored. split; [done|]. by rewrite Hse.
    + assert (actual = reason) as -> by (destruct Hcase as [[=]|(? & ? & _ & [=])]; done). rewrite bool_decide_true by done. apply runs_ret. intros r Hp.
      eapply prepared_intro; [done..|]. rewrite Hor. split; [done|]. by rewrite Hse.
Qed.
End Prepare.

(** C32. A prepared source is verified.  Whatever the environment, the object directory and
    the publication of objects do, [prepare] changes at most the preparation of the selected
    source.  When it answers, the source is the registered one and the preparation the
    committed one; its outcome is of exactly this input and these settings.  A ready outcome
    comes with stored bytes that have the artifact's length and digest and are the canonical
    artifact of this source: their text is the source's bytes and their units partition it.
    A gap is answered only for bytes of this source that cannot be prepared for that
    reason. *)
Theorem prepare_verified (blake3 : list Z -> list Z)
    (publish : directory -> list Z -> list Z -> list Z -> Z -> M PlainRootError.t directory)
    {D} `{Redb D} (borrowed : bool) (c : corpus) (ps : preparations) (id : list Z) (r : Root D) (w : env)
    (Hdigest : forall bytes, bytes_ok bytes -> Digest.wf (blake3 bytes))
    (Hpublish : forall root name stage bytes maximum, directory_typed root -> bytes_ok bytes ->
       outcome (publish root name stage bytes maximum) directory_typed (fun _ => True))
    (Hstate : state_at (control r) c ps) (Hid : Uuid.wf id) (Hobjects : directory_typed (objects r)) :
  let '((answer, r'), _) := prepare blake3 publish borrowed id r w in
  exists c' ps', state_at (control r') c' ps' /\ sources c' = sources c /\
    (forall other, other <> id -> ps' !! other = ps !! other) /\ directory_typed (objects r') /\
    match answer with
    | Ok p =>
        sources c !! id = Some (prepared_source p) /\ ps' !! id = Some (prepared_current p) /\ preparation_sound blake3 p /\
        forall o reason, current_outcome (prepared_current p) = Some o -> outcome_result o = Gap reason ->
          gap_true blake3 (prepared_source p) (settings (prepared_current p)) reason
    | Err _ => True
    end.
Proof.
  assert (kept c ps id r) as Hk by (exists c, ps; by split_and!).
  pose proof (prepare_runs blake3 Hdigest publish Hpublish c ps id Hid borrowed r w Hk) as Hout.
  destruct (prepare blake3 publish borrowed id r w) as [[[p|e] r'] w']; cbn [fst] in Hout.
  - destruct Hout as (Hs & Hg & c' & ps' & (Hst & Hsrc & Hoth & Hd) & Hin & Hrow). exists c', ps'. split_and!; try done. congruence.
  - destruct Hout as (c' & ps' & Hst & Hsrc & Hoth & Hd). by exists c', ps'.
Qed.

(** ** The sample *)

Definition sample_content : list Z := replicate (Z.to_nat (byte_length (object_ref sample_record))) 97.
Definition sample_hash (_ : list Z) : list Z := digest (object_ref sample_record).
(** A directory whose publications succeed at once. *)
Definition sample_publish (root : directory) (name _ bytes : list Z) (_ : Z) : M PlainRootError.t directory :=
  mret (fun other => if bool_decide (other = name) then at_rest bytes else root other).
Definition sample_root : Root store := {| control := sample_store; objects := fun _ => at_rest sample_content |}.

Lemma sample_hash_wf bytes : bytes_ok bytes -> Digest.wf (sample_hash bytes).
Proof. intros _. split; [vm_compute; reflexivity|]. apply (bool_decide_eq_true_1 (bytes_ok (sample_hash bytes))). vm_compute. reflexivity. Qed.
Lemma sample_publish_typed root name stage bytes maximum : directory_typed root -> bytes_ok bytes ->
  outcome (sample_publish root name stage bytes maximum) directory_typed (fun _ => True).
Proof.
  intros Hr Hb. apply outcome_ret. intros n l c a. case_bool_decide; [|by apply Hr]. unfold at_rest. by intros [= _ -> _].
Qed.
Lemma sample_root_typed : directory_typed (objects sample_root).
Proof.
  intros n l c a [= _ <- _]. apply (bool_decide_eq_true_1 (bytes_ok sample_content)). vm_compute. reflexivity.
Qed.

Definition sample_prepared_answer := prepare sample_hash sample_publish true sample_id sample_root [].

Lemma prepare_verified_witness :
  exists p r' w', prepare sample_hash sample_publish true sample_id sample_root [] = ((Ok p, r'), w') /\
    preparation_sound sample_hash p /\ sources sample_corpus !! sample_id = Some (prepared_source p).
Proof.
  pose proof (prepare_verified sample_hash sample_publish true sample_corpus ∅ sample_id sample_root [] sample_hash_wf sample_publish_typed
    sample_state sample_id_wf sample_root_typed) as Hout.
  assert (is_ok (fst (fst sample_prepared_answer)) = true) as Hok by (vm_compute; reflexivity). unfold sample_prepared_answer in Hok.
  destruct (prepare sample_hash sample_publish true sample_id sample_root []) as [[[p|e] r'] w']; [|done].
  destruct Hout as (c' & ps' & _ & _ & _ & _ & Hs & _ & Hp & _). exists p, r', w'. split; [reflexivity|]. split; [exact Hp|exact Hs].
Defined.
