(* ===== verification/ClientResponse.v ===== *)
(** The command line's checks of the daemon's responses before it prints them
    (bins/eliot-search/src/{prepared_response,published_response}.rs). *)

From stdpp Require Import gmap.
From S2P Require Import Prelude Bytes Utf8 Json Ids Registry.

(** ** Accessors *)

Definition keys (value : Value) (names : list (list Z)) : bool :=
  match value with
  | Value.Object fields =>
      (Z.of_nat (size fields) =? len names) && forallb (fun name => bool_decide (is_Some (fields !! name))) names
  | _ => false
  end.
(** [b.is_ascii_digit() || (b'a'..=b'f').contains(&b)] *)
Definition lower_digit (b : Z) : bool := between 48 57 b || between 97 102 b.
Definition hex (value : list Z) (length : Z) : bool := (len value =? length) && forallb lower_digit value.
Fixpoint uuid_bytes (i : Z) (bytes : list Z) : bool :=
  match bytes with
  | [] => true
  | b :: bytes =>
      (if (i =? 8) || (i =? 13) || (i =? 18) || (i =? 23) then b =? 45 else lower_digit b) && uuid_bytes (i + 1) bytes
  end.
Definition uuid (value : list Z) : bool := (len value =? 36) && uuid_bytes 0 value.
Definition number (value : Value) (key : list Z) : option Z := Value.get value key ≫= Value.as_u64.
Definition positive (value : Value) (key : list Z) : bool :=
  match number value key with Some n => 0 <? n | None => false end.
(** [value.get(key)?.as_str()?] *)
Definition text_of (value : Value) (key : list Z) : option (list Z) := Value.get value key ≫= Value.as_str.
(** [if bad { return None }] *)
Definition keep_if (good : bool) : option unit := if good then Some tt else None.

(** [strip_suffix] *)
Definition strip_suffix (suffix text : list Z) : option (list Z) :=
  let n := (length text - length suffix)%nat in
  if bool_decide (drop n text = suffix) then Some (take n text) else None.

(** ** prepared_response.rs *)

Module PreparedResponse.

Definition object (value : Value) (kind : list Z) (maximum : Z) : option Z :=
  _ ← keep_if (keys value [str "version"; str "kind"; str "digest"; str "bytes"]);
  version ← number value (str "version");
  _ ← keep_if (version =? 1);
  actual ← text_of value (str "kind");
  _ ← keep_if (bool_decide (actual = kind));
  digest ← text_of value (str "digest");
  _ ← keep_if (hex digest 64);
  bytes ← number value (str "bytes");
  if (maximum <? bytes) || (bool_decide (kind = str "prepared") && (bytes =? 0)) then None else Some bytes.

Definition settings (value : Value) : option PreparationSettings :=
  _ ← keep_if (keys value [str "utf8_version"; str "line_unitizer_version"; str "preferred_unit_bytes"; str "max_unit_bytes"]);
  utf8 ← number value (str "utf8_version"); utf8 ← try_from U16_MAX utf8;
  line ← number value (str "line_unitizer_version"); line ← try_from U16_MAX line;
  preferred ← number value (str "preferred_unit_bytes"); preferred ← try_from U32_MAX preferred;
  maximum ← number value (str "max_unit_bytes"); maximum ← try_from U32_MAX maximum;
  option_keep is_supported
    (Some {| utf8_version := utf8; line_unitizer_version := line; preferred_unit_bytes := preferred; max_unit_bytes := maximum |}).

Definition unit (value : Value) (ordinal count representation hard : Z) : bool :=
  default false
    (_ ← keep_if (keys value [str "ordinal"; str "start"; str "end"; str "line_start"; str "line_end";
           str "starts_at_line_boundary"; str "ends_at_line_boundary"; str "text"]);
     start ← number value (str "start");
     stop ← number value (str "end");
     first ← number value (str "line_start");
     last ← number value (str "line_end");
     text ← text_of value (str "text");
     _ ← keep_if (bool_decide (number value (str "ordinal") = Some ordinal));
     Some ((ordinal <? count) && (start <? stop) && (stop <=? representation) && (stop - start <=? hard)
       && bool_decide (try_from U64_MAX (len text) = Some (stop - start)) && (first <? last)
       && match Value.get value (str "starts_at_line_boundary") with Some v => Value.is_boolean v | None => false end
       && match Value.get value (str "ends_at_line_boundary") with Some v => Value.is_boolean v | None => false end)).

Definition bounded_line (bytes : list Z) : option (list Z) :=
  _ ← keep_if (len bytes <=? MAX_PREPARATION_RESPONSE_BYTES);
  _ ← keep_if (utf8_valid bytes);
  let line := match strip_suffix [13; 10] bytes with
    | Some line => line
    | None => default bytes (strip_suffix [10] bytes)
    end in
  _ ← keep_if (negb (len line =? 0) && negb (existsb (fun b => (b =? 13) || (b =? 10)) line));
  Some line.

(** ** [validate] *)

Definition response_keys : list (list Z) :=
  [str "operation"; str "state"; str "source_namespace_id"; str "source_id"; str "source_row_revision";
   str "registration_revision"; str "settings_revision"; str "outcome_revision"; str "settings"; str "input";
   str "artifact"; str "representation_bytes"; str "unit_count"; str "unit"; str "gap"].
Definition gap_names : list (list Z) :=
  [str "binary_content"; str "invalid_utf8"; str "input_too_large"; str "output_too_large"; str "too_many_lines";
   str "too_many_units"; str "unit_too_large"; str "encoded_too_large"].
Definition null_at (value : Value) (key : list Z) : bool :=
  match Value.get value key with Some v => Value.is_null v | None => false end.

(** The arm of a gap. *)
Definition validate_gap (value : Value) : option (Datatypes.unit) :=
  _ ← keep_if (forallb (null_at value) [str "artifact"; str "representation_bytes"; str "unit_count"; str "unit"]);
  gap ← text_of value (str "gap");
  keep_if (bool_decide (gap ∈ gap_names)).

(** The arm of a ready or an empty preparation. *)
Definition validate_ready (value : Value) (state : list Z) (selected : PreparationSettings) (input ordinal : Z) : option (Datatypes.unit) :=
  artifact ← Value.get value (str "artifact");
  _ ← object artifact (str "prepared") (64 * 1024 * 1024);
  gap ← Value.get value (str "gap");
  _ ← keep_if (Value.is_null gap);
  representation ← number value (str "representation_bytes");
  count ← number value (str "unit_count");
  _ ← keep_if ((representation =? input) && (count <=? 1000000));
  item ← Value.get value (str "unit");
  if bool_decide (state = str "empty") then
    keep_if ((input =? 0) && (count =? 0) && (ordinal =? 0) && Value.is_null item)
  else
    keep_if (negb (representation =? 0) && negb (count =? 0)
      && unit item ordinal count representation (max_unit_bytes selected)).

Definition validate_value (value : Value) (source_id : list Z) (ordinal : Z) : option (Datatypes.unit) :=
  _ ← keep_if (keys value response_keys);
  operation ← text_of value (str "operation");
  _ ← keep_if (bool_decide (operation = str "prepare-source"));
  id ← text_of value (str "source_id");
  _ ← keep_if (bool_decide (id = source_id) && uuid source_id);
  namespace ← text_of value (str "source_namespace_id");
  _ ← keep_if (uuid namespace);
  _ ← keep_if (forallb (positive value)
        [str "source_row_revision"; str "registration_revision"; str "settings_revision"; str "outcome_revision"]);
  chosen ← Value.get value (str "settings");
  selected ← settings chosen;
  source ← Value.get value (str "input");
  input ← object source (str "source") MAX_SOURCE_OBJECT_BYTES;
  state ← text_of value (str "state");
  if bool_decide (state = str "gap") then validate_gap value
  else if bool_decide (state = str "ready") || bool_decide (state = str "empty") then
    validate_ready value state selected input ordinal
  else None.

Definition validate `{SerdeJson} (bytes source_id : list Z) (ordinal : Z) : option (list Z) :=
  line ← bounded_line bytes;
  value ← from_slice line;
  _ ← validate_value value source_id ordinal;
  Some line.
End PreparedResponse.

(** ** published_response.rs *)

Module PublishedResponse.
(** [u64::to_string] *)
Fixpoint decimal (fuel : nat) (n : Z) : list Z :=
  match fuel with
  | O => []
  | S fuel => (if n <? 10 then [] else decimal fuel (n / 10)) ++ [48 + n mod 10]
  end.

(** [strip_prefix] *)
Definition strip_prefix (prefix text : list Z) : option (list Z) :=
  if bool_decide (take (length prefix) text = prefix) then Some (drop (length prefix) text) else None.
(** [split_once]: before and after the first occurrence. *)
Fixpoint split_once (separator text : list Z) : option (list Z * list Z) :=
  match strip_prefix separator text with
  | Some rest => Some ([], rest)
  | None =>
      match text with
      | [] => None
      | b :: text => split ← split_once separator text; Some (b :: fst split, snd split)
      end
  end.

Definition response_keys : list (list Z) :=
  [str "operation"; str "state"; str "collection"; str "generation"; str "source_count"; str "gap_count";
   str "point_count"; str "page_count"].

Definition validate_value (value : Value) : option unit :=
  _ ← keep_if (keys value response_keys);
  operation ← text_of value (str "operation");
  _ ← keep_if (bool_decide (operation = str "publish-prepared"));
  state ← text_of value (str "state");
  _ ← keep_if (bool_decide (state = str "published"));
  generation ← number value (str "generation");
  name ← text_of value (str "collection");
  collection ← strip_prefix (str "eliot_") name;
  split ← split_once (str "_g") collection;
  let '(namespace, sequence) := split in
  _ ← keep_if (negb (generation =? 0) && hex namespace 32 && bool_decide (sequence = decimal 20 generation));
  sources ← number value (str "source_count");
  gaps ← number value (str "gap_count");
  points ← number value (str "point_count");
  pages ← number value (str "page_count");
  keep_if ((sources <=? 4096) && (gaps <=? sources) && (points <=? 1000000) && (pages <=? points)
    && Bool.eqb (points =? 0) (pages =? 0)).

Definition validate `{SerdeJson} (bytes : list Z) : option (list Z) :=
  _ ← keep_if (len bytes <=? MAX_PUBLICATION_RESPONSE_BYTES);
  _ ← keep_if (utf8_valid bytes);
  line ← strip_suffix [10] bytes;
  _ ← keep_if (negb (existsb (fun b => (b =? 13) || (b =? 10)) line));
  value ← from_slice line;
  _ ← validate_value value;
  Some line.
End PublishedResponse.
