(* ===== verification/ResponseAccepted.v ===== *)
(** The daemon's prepared-source response and the command line's check of it agree: every
    response [prepared_source.rs] can write, [prepared_response.rs] accepts. *)

From stdpp Require Import gmap fin_maps fin_map_dom.
From S2P Require Import Prelude Bytes Utf8 Json Ids Dto DtoFacts Registry Materializer Layout Prepared SourceRow PreparationRow ObjectStore.
From S2P Require Import Database ControlSpec ControlSample PreparationSpec PreparationState State PreparedSource PreparedSafety ClientResponse.

(** ** Lines of text *)

Lemma strip_suffix_app text suffix : strip_suffix suffix (text ++ suffix) = Some text.
Proof.
  unfold strip_suffix. rewrite length_app. replace (length text + length suffix - length suffix)%nat with (length text) by lia.
  by rewrite drop_app_length, bool_decide_true, take_app_length by done.
Qed.
Lemma strip_crlf text : ~ (13 ∈ text) -> strip_suffix [13; 10] (text ++ [10]) = None.
Proof.
  intros Hno. unfold strip_suffix. case_bool_decide as He; [|done]. exfalso. apply Hno.
  rewrite length_app in He. cbn [length] in He. destruct text as [|b text] using rev_ind; [done|]. clear IHtext.
  rewrite length_app in He. cbn [length] in He. rewrite <- (assoc_L (++)) in He.
  replace (length text + 1 + 1 - 2)%nat with (length text) in He by lia. rewrite drop_app_length in He.
  cbn in He. injection He as ->. apply elem_of_app. right. apply list_elem_of_here.
Qed.
Lemma clean_line text : ~ (10 ∈ text) -> ~ (13 ∈ text) -> existsb (fun b => (b =? 13) || (b =? 10)) text = false.
Proof.
  intros H10 H13. destruct (existsb _ text) eqn:He; [|done]. apply existsb_exists in He as (b & Hb%list_elem_of_In & He).
  apply orb_true_iff in He as [He|He]; apply Z.eqb_eq in He; by subst.
Qed.
Lemma utf8_newline text : utf8_valid text = true -> utf8_valid (text ++ [10]) = true.
Proof. intros Hv. by apply utf8_valid_app. Qed.

Lemma bounded_line_ok text :
  len text < MAX_PREPARATION_RESPONSE_BYTES -> utf8_valid text = true -> text <> [] -> ~ (10 ∈ text) -> ~ (13 ∈ text) ->
  PreparedResponse.bounded_line (text ++ [10]) = Some text.
Proof.
  intros Hl Hv Hne H10 H13. unfold PreparedResponse.bounded_line. rewrite len_app. change (len [10]) with 1.
  is_true (len text + 1 <=? MAX_PREPARATION_RESPONSE_BYTES). cbn [keep_if mbind option_bind].
  rewrite utf8_newline by done. cbn [keep_if mbind option_bind]. rewrite strip_crlf, strip_suffix_app by done. cbn [default].
  rewrite clean_line by done. assert (0 < len text) by (destruct text; [done|rewrite len_cons; pose proof (len_nonneg text); lia]).
  unfold id. by is_false (len text =? 0).
Qed.

(** ** Identities and digests *)

Lemma uuid_bytes_positions v : forall i, uuid_bytes i v = uuid_positions i v.
Proof. induction v as [|b v IH]; intros i; [done|]. cbn [uuid_bytes uuid_positions]. by rewrite IH. Qed.
Lemma uuid_display id : Uuid.wf id -> uuid (Uuid.display id) = true.
Proof.
  intros Hid. unfold uuid. destruct (parse_dashes _ _ (Uuid.parse_display_ok id Hid)) as (Hl & Hd & c & Hc & _).
  rewrite Hl, uuid_bytes_positions. by apply (compact_uuid_positions _ 0 c).
Qed.
Lemma hex_digest bytes n : bytes_ok bytes -> length bytes = n -> hex (hex_encode bytes) (Z.of_nat (2 * n)) = true.
Proof.
  intros Hb Hn. unfold hex, len. rewrite hex_encode_length, Hn, Z.eqb_refl. apply forallb_forall. intros d Hd%list_elem_of_In.
  pose proof (hex_encode_lower bytes Hb) as Hl. rewrite Forall_forall in Hl. exact (Hl d Hd).
Qed.

(** ** Objects and settings *)

Lemma keys_spec value names : bool_decide (NoDup names) = true -> Value.has_keys value names -> keys value names = true.
Proof.
  intros Hnd%bool_decide_eq_true (fields & -> & Hd). unfold keys.
  rewrite <- (size_dom fields), Hd, size_list_to_set by done.
  apply andb_true_iff. split; [by apply Z.eqb_eq|]. apply forallb_forall. intros name Hin%list_elem_of_In.
  apply bool_decide_eq_true, elem_of_dom. rewrite Hd. by apply elem_of_list_to_set.
Qed.
Lemma keys_object fields names : fields.*1 = names -> bool_decide (NoDup names) = true -> keys (Value.object fields) names = true.
Proof. intros Hf Hn. apply keys_spec; [done|]. by apply Value.has_keys_object. Qed.

Lemma number_at value key n : Value.get value key = Some (Value.Number n) -> number value key = Some n.
Proof. unfold number. by intros ->. Qed.
Lemma text_at value key text : Value.get value key = Some (Value.String text) -> text_of value key = Some text.
Proof. unfold text_of. by intros ->. Qed.

(** A field of [json!({..})]: the name is a literal. *)
Lemma field_at fields key v : Value.find fields key = Some v -> Value.get (Value.object fields) key = Some v.
Proof. by rewrite Value.get_object. Qed.

Ltac advance := cbn [keep_if mbind option_bind].
Ltac read_number n :=
  match goal with |- mbind _ (number ?v ?k) = _ => rewrite (number_at v k n) by by apply field_at end; advance.
Ltac read_text text :=
  match goal with |- mbind _ (text_of ?v ?k) = _ => rewrite (text_at v k text) by by apply field_at end; advance.

Lemma object_accepted reference maximum :
  Digest.wf (digest reference) -> format_version reference = SOURCE_OBJECT_FORMAT_VERSION -> byte_length reference <= maximum ->
  (kind reference = Prepared -> byte_length reference <> 0) ->
  PreparedResponse.object (object_json reference) (kind_name (kind reference)) maximum = Some (byte_length reference).
Proof.
  intros [Hd Hb] Hv Hm Hz. unfold PreparedResponse.object, object_json. rewrite keys_object by done. advance.
  read_number (format_version reference). rewrite Hv. cbn [Z.eqb Pos.eqb SOURCE_OBJECT_FORMAT_VERSION]. advance.
  read_text (kind_name (kind reference)).
  rewrite (bool_decide_true (kind_name (kind reference) = kind_name (kind reference))) by done. advance.
  read_text (hex_encode (digest reference)). rewrite (hex_digest _ 32 Hb Hd : hex _ 64 = true). advance.
  read_number (byte_length reference). is_false (maximum <? byte_length reference). cbn [orb]. destruct (kind reference).
  - reflexivity.
  - rewrite bool_decide_true by done. cbn [andb]. specialize (Hz eq_refl). by is_false (byte_length reference =? 0).
Qed.

Lemma settings_accepted s : is_supported s = true -> PreparedResponse.settings (settings_json s) = Some s.
Proof.
  intros Hs. destruct (supported_wf s Hs) as (H1 & H2 & H3 & H4). unfold PreparedResponse.settings, settings_json.
  rewrite keys_object by done. advance.
  read_number (utf8_version s). rewrite try_from_some by done. advance.
  read_number (line_unitizer_version s). rewrite try_from_some by done. advance.
  read_number (preferred_unit_bytes s). rewrite try_from_some by done. advance.
  read_number (max_unit_bytes s). rewrite try_from_some by done. advance.
  assert (Some s = option_keep is_supported (Some s)) as -> by (cbn; by rewrite Hs). by destruct s.
Qed.

(** ** One unit *)

Lemma tiled_order ls : forall size n s l l',
  tiled size n s ls -> l ∈ ls -> l' ∈ ls -> line_index l < line_index l' -> source_end l <= source_start l'.
Proof.
  induction ls as [|x ls IH]; intros size n s l l' Ht Hl Hl' Hlt; [by apply elem_of_nil in Hl|].
  destruct Ht as (Hi & _ & _ & _ & Ht). apply elem_of_cons in Hl, Hl'.
  assert (forall y, y ∈ ls -> source_end x <= source_start y /\ n + 1 <= line_index y) as Hm
    by (intros y Hy; destruct (tiled_member _ _ _ _ _ Ht Hy) as (? & ? & ?); lia).
  destruct Hl as [->|Hl], Hl' as [->|Hl']; [lia|by apply Hm| |by eapply IH]. destruct (Hm _ Hl). lia.
Qed.

Lemma unit_accepted text hard u ordinal count :
  unit_valid text hard u -> len text <= ISIZE_MAX -> ordinal < count ->
  exists part, str_get text (unit_start u) (unit_end u) = Some part /\
    PreparedResponse.unit (unit_json ordinal u part) ordinal count (len text) hard = true.
Proof.
  intros Hu Hl Ho. destruct (unit_valid_wf text hard u Hl Hu) as (Hs & He & _).
  destruct Hu as (Hse & Hend & Hb1 & Hb2 & f & l & Hf & Hin & Hfs & Hls & Hlf & Hll & _).
  unfold str_get. rewrite Hb1, Hb2. cbn [andb].
  pose proof (slice_some text (unit_start u) (unit_end u) ltac:(lia) ltac:(lia)) as Hsl. eexists. split; [exact Hsl|].
  pose proof (slice_length _ _ _ _ Hsl) as Hpl. match type of Hsl with _ = Some ?x => set (part := x) in * end.
  assert (logical_line_start u < logical_line_end u) as Hlines.
  { pose proof (tiled_logical_lines text) as Ht. rewrite Hlf, Hll.
    destruct (Z.lt_ge_cases (line_index l) (line_index f)) as [Hlt|]; [|lia].
    pose proof (tiled_order _ _ _ _ _ _ Ht Hin Hf Hlt). lia. }
  unfold PreparedResponse.unit, unit_json. rewrite keys_object by done. advance.
  match goal with |- default false ?m = true => cut (m = Some true); [by intros ->|] end.
  read_number (unit_start u). read_number (unit_end u). read_number (logical_line_start u). read_number (logical_line_end u).
  read_text part. rewrite (number_at _ (str "ordinal") ordinal) by by apply field_at. rewrite (bool_decide_true (Some ordinal = Some ordinal)) by done. advance.
  rewrite (field_at _ (str "starts_at_line_boundary") (Value.Bool (starts_at_line_boundary u))) by done.
  rewrite (field_at _ (str "ends_at_line_boundary") (Value.Bool (ends_at_line_boundary u))) by done. cbn [Value.is_boolean].
  rewrite Hpl, try_from_some, bool_decide_true by (done || width). f_equal. rewrite !andb_true_iff, !Z.ltb_lt, !Z.leb_le.
  split_and!; try done; lia.
Qed.

(** ** Whole responses *)

(** The fields of [base] that every response keeps. *)
Definition updates_free (updates : list (list Z * Value)) : bool :=
  forallb (fun update => bool_decide (fst update ∈ [str "state"; str "artifact"; str "representation_bytes"; str "unit_count";
    str "unit"; str "gap"])) updates.

Lemma base_keys source state updates : updates_free updates = true ->
  Value.has_keys (Value.sets (base source state) updates) PreparedResponse.response_keys.
Proof.
  intros Hu. apply Value.has_keys_sets; [by apply Value.has_keys_object|]. unfold updates_free in Hu. rewrite !forallb_forall in *.
  intros x Hx. specialize (Hu x Hx). rewrite bool_decide_eq_true in *. unfold PreparedResponse.response_keys. set_solver.
Qed.

Lemma find_kept updates key fields : updates_free updates = true ->
  bool_decide (key ∈ [str "state"; str "artifact"; str "representation_bytes"; str "unit_count"; str "unit"; str "gap"]) = false ->
  Value.find (reverse updates ++ fields) key = Value.find fields key.
Proof.
  intros Hu Hk%bool_decide_eq_false. rewrite Value.find_app.
  assert (forall l : list (list Z * Value), (forall x, x ∈ l -> x ∈ updates) -> Value.find l key = None) as Hnone.
  { induction l as [|[k v] l IH]; intros Hl; [done|]. cbn. rewrite bool_decide_false.
    - apply IH. intros x Hx. apply Hl. by apply list_elem_of_further.
    - intros ->. apply Hk. unfold updates_free in Hu. rewrite forallb_forall in Hu.
      specialize (Hu (key, v) ltac:(apply list_elem_of_In, Hl, list_elem_of_here)). by apply bool_decide_eq_true in Hu. }
  rewrite Hnone; [done|]. intros x Hx. by rewrite elem_of_reverse in Hx.
Qed.

(** What the check reads before the arms. *)
Lemma response_checked source state updates ordinal kind :
  row_ok source -> validate_row state = Ok tt -> preparation_wf state -> is_Some (current_outcome state) -> updates_free updates = true ->
  let value := Value.sets (base source state) updates in
  Value.get value (str "state") = Some (Value.String kind) ->
  PreparedResponse.validate_value value (Uuid.display (source_id source)) ordinal
    = (if bool_decide (kind = str "gap") then PreparedResponse.validate_gap value
       else if bool_decide (kind = str "ready") || bool_decide (kind = str "empty") then
         PreparedResponse.validate_ready value kind (settings state) (byte_length (object_ref source)) ordinal
       else None).
Proof.
  intros Hsource Hvalid Hwf [o Ho] Hu value Hkind. unfold PreparedResponse.validate_value.
  rewrite keys_spec; [|vm_compute; reflexivity|by apply base_keys]. advance.
  assert (forall key v, bool_decide (key ∈ [str "state"; str "artifact"; str "representation_bytes"; str "unit_count"; str "unit"; str "gap"]) = false ->
    Value.get (base source state) key = Some v -> Value.get value key = Some v) as Hkept.
  { intros key v Hk Hv. unfold value, base in *. rewrite Value.get_sets, find_kept by done. by rewrite <- Value.get_object. }
  assert (forall key n, bool_decide (key ∈ [str "state"; str "artifact"; str "representation_bytes"; str "unit_count"; str "unit"; str "gap"]) = false ->
    Value.get (base source state) key = Some (Value.Number n) -> 0 < n -> positive value key = true) as Hpos.
  { intros key n Hk Hv Hn. unfold positive. rewrite (number_at _ _ n) by by apply Hkept. by apply Z.ltb_lt. }
  pose proof Hsource as ((Hns & Hid & Hrr & Hreg & _ & _ & _ & Hobj) & (E1 & E2 & E3 & E4 & _) & Hmax).
  destruct Hwf as (_ & _ & Hsr & _ & Hor & _). unfold validate_row in Hvalid.
  apply bind_ok_inv in Hvalid as ([] & Hg%reject_if_ok & Hvalid). rewrite Ho in Hvalid.
  apply bind_ok_inv in Hvalid as ([] & Hg2%reject_if_ok & _). to_prop.
  rewrite (text_at _ (str "operation") (str "prepare-source")) by by apply Hkept. advance. rewrite bool_decide_true by done. advance.
  rewrite (text_at _ (str "source_id") (Uuid.display (source_id source))) by by apply Hkept. advance.
  rewrite bool_decide_true, uuid_display by done. advance. cbn [andb]. advance.
  rewrite (text_at _ (str "source_namespace_id") (Uuid.display (source_namespace_id source))) by by apply Hkept. advance.
  rewrite uuid_display by done. advance. cbn [forallb].
  rewrite (Hpos (str "source_row_revision") (row_revision source)), (Hpos (str "registration_revision") (registration_revision source)),
    (Hpos (str "settings_revision") (settings_revision state)), (Hpos (str "outcome_revision") (outcome_revision state)) by (done || lia).
  cbn [andb]. advance. rewrite (Hkept (str "settings") (settings_json (settings state))) by done. advance.
  rewrite settings_accepted by done. advance. rewrite (Hkept (str "input") (object_json (object_ref source))) by done. advance.
  pose proof (object_accepted (object_ref source) MAX_SOURCE_OBJECT_BYTES ltac:(by apply Hobj) E4 Hmax ltac:(congruence)) as Hin.
  rewrite E3 in Hin. cbn [kind_name] in Hin. rewrite Hin. advance. by rewrite (text_at _ _ kind).
Qed.

(** *** The arms *)

Ltac dressed := unfold base; rewrite Value.get_sets; reflexivity.

Lemma gap_accepted source state reason ordinal :
  row_ok source -> validate_row state = Ok tt -> preparation_wf state -> is_Some (current_outcome state) ->
  PreparedResponse.validate_value (Value.set (base source state) (str "gap") (Value.String (gap_code reason)))
    (Uuid.display (source_id source)) ordinal = Some tt.
Proof.
  intros Hs Hv Hw Ho. set (updates := [(str "gap", Value.String (gap_code reason))]).
  change (Value.set _ _ _) with (Value.sets (base source state) updates).
  rewrite (response_checked source state updates ordinal (str "gap")); [|done..|dressed]. rewrite bool_decide_true by done.
  unfold PreparedResponse.validate_gap. cbn [forallb]. unfold PreparedResponse.null_at.
  assert (forall key, bool_decide (key ∈ [str "artifact"; str "representation_bytes"; str "unit_count"; str "unit"]) = true ->
    Value.get (Value.sets (base source state) updates) key = Some Value.Null) as Hnull.
  { intros key Hk%bool_decide_eq_true. rewrite !elem_of_cons, elem_of_nil in Hk. destruct Hk as [->|[->|[->|[->|[]]]]]; dressed. }
  rewrite !Hnull by done. cbn [Value.is_null andb].
  advance. rewrite (text_at _ _ (gap_code reason)) by dressed. advance. rewrite bool_decide_true; [done|].
  apply (bool_decide_eq_true_1 (gap_code reason ∈ _)). by destruct reason.
Qed.

Section Ready.
Context (source : CurrentSourceRecord) (state : CurrentPreparation) (artifact : ObjectRef) (view : PreparedUtf8) (ordinal : Z).
Context (Hsource : row_ok source) (Hvalid : validate_row state = Ok tt) (Hwf : preparation_wf state) (Hout : is_Some (current_outcome state)).
Context (Hartifact : object_wf artifact) (Hprepared : valid_object artifact Prepared = true) (Hsize : byte_length artifact <= 64 * 1024 * 1024).
Context (Hlen : len (prepared_text view) = byte_length (object_ref source)) (Hunits : len (prepared_units view) <= 1000000).

(** What a ready and an empty response share. *)
Definition ready_updates (more : list (list Z * Value)) : list (list Z * Value) :=
  (str "artifact", object_json artifact) :: (str "representation_bytes", Value.Number (len (prepared_text view)))
  :: (str "unit_count", Value.Number (len (prepared_units view))) :: more.

Lemma ready_checked kind more item :
  updates_free more = true -> kind = str "ready" \/ kind = str "empty" ->
  let value := Value.sets (base source state) (ready_updates more) in
  Value.get value (str "state") = Some (Value.String kind) -> Value.get value (str "unit") = Some item ->
  Value.find (reverse more) (str "artifact") = None -> Value.find (reverse more) (str "gap") = None ->
  Value.find (reverse more) (str "representation_bytes") = None -> Value.find (reverse more) (str "unit_count") = None ->
  PreparedResponse.validate_value value (Uuid.display (source_id source)) ordinal
    = keep_if (if bool_decide (kind = str "empty") then
        (len (prepared_text view) =? 0) && (len (prepared_units view) =? 0) && (ordinal =? 0) && Value.is_null item
      else negb (len (prepared_text view) =? 0) && negb (len (prepared_units view) =? 0)
        && PreparedResponse.unit item ordinal (len (prepared_units view)) (len (prepared_text view)) (max_unit_bytes (settings state))).
Proof.
  intros Hu Hkind value Hst Hitem Ha Hg Hr Hc. unfold value. rewrite (response_checked source state (ready_updates more) ordinal kind); try done.
  fold value. assert (bool_decide (kind = str "gap") = false) as -> by (by destruct Hkind as [-> | ->]).
  assert (bool_decide (kind = str "ready") || bool_decide (kind = str "empty") = true) as -> by (by destruct Hkind as [-> | ->]).
  assert (forall key v, Value.find (reverse more) key = None ->
    Value.find ([(str "unit_count", Value.Number (len (prepared_units view)));
      (str "representation_bytes", Value.Number (len (prepared_text view))); (str "artifact", object_json artifact)]
      ++ [(str "gap", Value.Null)]) key = Some v -> bool_decide (key ∈ [str "artifact"; str "representation_bytes"; str "unit_count"; str "gap"]) = true ->
    Value.get value key = Some v) as Hget.
  { intros key v Hn Hf Hk. unfold value, base. rewrite Value.get_sets. unfold ready_updates. rewrite !reverse_cons, !Value.find_app, Hn.
    apply bool_decide_eq_true in Hk. rewrite !elem_of_cons, elem_of_nil in Hk.
    destruct Hk as [->|[->|[->|[->|[]]]]]; injection Hf as <-; reflexivity. }
  unfold PreparedResponse.validate_ready. rewrite (Hget (str "artifact") (object_json artifact)) by done. advance.
  pose proof Hprepared as Hp. unfold valid_object in Hp. rewrite !andb_true_iff in Hp.
  destruct Hp as [[[Hk%bool_decide_eq_true Hver%Z.eqb_eq] _] Hpos].
  rewrite bool_decide_true in Hpos by done. cbn [negb orb] in Hpos. apply Z.ltb_lt in Hpos.
  pose proof (object_accepted artifact (64 * 1024 * 1024) ltac:(by apply Hartifact) Hver Hsize ltac:(intros _; lia)) as Hobj.
  rewrite Hk in Hobj. cbn [kind_name] in Hobj.
  rewrite Hobj. advance. rewrite (Hget (str "gap") Value.Null) by done. advance. cbn [Value.is_null]. advance.
  rewrite (number_at value (str "representation_bytes") (len (prepared_text view))) by by apply Hget. advance.
  rewrite (number_at value (str "unit_count") (len (prepared_units view))) by by apply Hget. advance.
  rewrite Hlen, Z.eqb_refl. is_true (len (prepared_units view) <=? 1000000). cbn [andb]. advance. rewrite Hitem. advance.
  by destruct (bool_decide (kind = str "empty")).
Qed.
End Ready.

Lemma partition_member text hard us : forall start u, unit_partition text hard start us -> u ∈ us -> unit_valid text hard u.
Proof.
  induction us as [|x us IH]; intros start u Hp Hu; [by apply elem_of_nil in Hu|]. destruct Hp as (_ & Hv & Hp).
  apply elem_of_cons in Hu as [->|Hu]; [done|by eapply IH].
Qed.

Lemma ready_accepted blake3 source state artifact view ordinal value :
  row_ok source -> validate_row state = Ok tt -> preparation_wf state -> is_Some (current_outcome state) ->
  object_wf artifact -> valid_object artifact Prepared = true -> byte_length artifact <= 64 * 1024 * 1024 ->
  accepted blake3 source (settings state) prepare_limits view ->
  ready_response source state artifact view ordinal = Ok value ->
  PreparedResponse.validate_value value (Uuid.display (source_id source)) ordinal = Some tt.
Proof.
  intros Hs Hv Hw Ho Ha Hp Hsize Hacc Hr. destruct Hacc as (_ & _ & Hlen & Hpart & _ & Hunits & Hmax & _ & _).
  change (max_units prepare_limits) with 1000000 in Hunits.
  assert (len (prepared_text view) <= ISIZE_MAX) as Hl by (change (max_input_bytes prepare_limits) with 8388608 in Hmax; width).
  unfold ready_response in Hr. cbv zeta in Hr. destruct (Z.eqb_spec (len (prepared_units view)) 0) as [Hz|Hz].
  - apply bind_ok_inv in Hr as ([] & Ht%reject_if_ok & Hr). apply bind_ok_inv in Hr as ([] & Hn%reject_if_ok & Hr). apply ok_inj in Hr as <-.
    change (Value.set _ _ _) with (Value.sets (base source state) (ready_updates artifact view [(str "state", Value.String (str "empty"))])).
    rewrite (ready_checked source state artifact view ordinal Hs Hv Hw Ho Ha Hp Hsize Hlen Hunits (str "empty") _ Value.Null);
      [|done|by right|dressed|dressed|done..].
    rewrite bool_decide_true by done. rewrite Hz. to_prop. by rewrite Ht, Hn.
  - apply bind_ok_inv in Hr as (u & Hu%ok_or_inv & Hr). apply bind_ok_inv in Hr as (part & Hpart'%ok_or_inv & Hr). apply ok_inj in Hr as <-.
    unfold at_ in Hu. destruct (0 <=? ordinal) eqn:Hn; [|done]. apply Z.leb_le in Hn.
    pose proof (lookup_lt_Some _ _ _ Hu) as Hlt. assert (ordinal < len (prepared_units view)) as Hcount by (unfold len; lia).
    pose proof (partition_member _ _ _ _ u Hpart (list_elem_of_lookup_2 _ _ _ Hu)) as Huv.
    destruct (unit_accepted (prepared_text view) (max_unit_bytes (settings state)) u ordinal (len (prepared_units view)) Huv Hl Hcount)
      as (part' & Hget & Hunit).
    assert (part' = part) as -> by congruence.
    change (Value.set _ _ _) with (Value.sets (base source state) (ready_updates artifact view
      [(str "state", Value.String (str "ready")); (str "unit", unit_json ordinal u part)])).
    rewrite (ready_checked source state artifact view ordinal Hs Hv Hw Ho Ha Hp Hsize Hlen Hunits (str "ready") _ (unit_json ordinal u part));
      [|done|by left|dressed|dressed|done..].
    rewrite bool_decide_false by done. rewrite Hunit.
    destruct (unit_valid_wf _ _ _ Hl Huv) as (Hs0 & _). destruct Huv as (Hse & Hend & _).
    assert (len (prepared_text view) <> 0) as Ht0 by (clear -Hs0 Hse Hend; lia).
    apply Z.eqb_neq in Ht0, Hz. by rewrite Ht0, Hz.
Qed.

Lemma response_accepted blake3 p ordinal w value :
  preparation_sound blake3 p -> run (response blake3 p ordinal) w = Ok value ->
  PreparedResponse.validate_value value (Uuid.display (source_id (prepared_source p))) ordinal = Some tt.
Proof.
  intros (Hs & Hv & Hw & o & Ho & _ & Hout) Hr. assert (is_Some (current_outcome (prepared_current p))) as His by by exists o.
  unfold response in Hr. rewrite Ho in Hr. cbn [fmap option_fmap option_map] in Hr. destruct (outcome_result o) as [artifact|reason] eqn:Hres.
  2: { apply ok_inj in Hr as <-. by apply gap_accepted. }
  destruct Hout as (stored & view0 & Hstored & _ & Hlen & Hok & Heq & Hacc0). rewrite Hstored in Hr. cbn [option_keep fst] in Hr.
  rewrite bool_decide_true in Hr by done. cbn [ok_or] in Hr. rewrite lift_ok_bind in Hr.
  apply run_bind_ok in Hr as (view & w' & Hd & Hr). unfold lift_err in Hd.
  destruct (decode_prepared_utf8 blake3 stored (prepared_source p) (settings (prepared_current p)) prepare_limits w) as [[view1|e] w1] eqn:Hrun; [|done].
  injection Hd as -> ->. pose proof Hw as (_ & _ & _ & Hset & _ & Hb). rewrite Ho in Hb. destruct Hb as (_ & _ & _ & _ & Hb). rewrite Hres in Hb.
  assert (len stored <= 64 * 1024 * 1024) as Hmax by (rewrite Heq; apply Hacc0).
  assert (run (decode_prepared_utf8 blake3 stored (prepared_source p) (settings (prepared_current p)) prepare_limits) w = Ok view) as Hrun'
    by (unfold run; by rewrite Hrun).
  pose proof Hs as (Hrw & _). assert (0 <= max_lines prepare_limits) as Hml by (vm_compute; congruence).
  assert (len stored <= ISIZE_MAX) as Hsz by (clear -Hmax; width).
  destruct (outcome_ok _ _ _ _ _ (decode_prepared_outcome blake3 stored (prepared_source p) (settings (prepared_current p)) prepare_limits
    Hrw Hset Hml Hok Hsz) Hrun') as (_ & _ & Hacc).
  eapply ready_accepted; [done..| | |exact Hacc|exact Hr].
  - unfold validate_row in Hv. apply bind_ok_inv in Hv as (? & _ & Hv). rewrite Ho in Hv. apply bind_ok_inv in Hv as (? & _ & Hv).
    rewrite Hres in Hv. apply reject_if_ok in Hv. by to_prop.
  - lia.
Qed.

(** C33. The daemon and the command line agree on prepared-source responses.  Whenever the
    daemon writes a line for a verified preparation and a unit ordinal, in whatever
    environment, the command line's check of that line for the same source and ordinal
    accepts it, whole: the identities and digests are canonical, the revisions positive, the
    settings supported, the sizes within the bounds of both programs, and the unit lies
    inside the representation with as many bytes of text as it claims. *)
Theorem response_line_accepted `{SerdeJson} (blake3 : list Z -> list Z) (p : PreparedSource) (ordinal : Z) (w : env) (line : list Z)
    (Hsound : preparation_sound blake3 p) (Hline : run (response_line blake3 p ordinal) w = Ok line) :
  exists text, line = text ++ [10] /\
    PreparedResponse.validate line (Uuid.display (source_id (prepared_source p))) ordinal = Some text.
Proof.
  unfold response_line in Hline. apply run_bind_ok in Hline as (value & w1 & Hv & Hline).
  apply run_lift_ok in Hline as (text & Ht%ok_or_inv & Hline). apply option_keep_inv in Ht as [Ht Hl%Z.ltb_lt].
  apply run_bind_ok in Hline as ([] & w2 & _ & Hline). apply ok_inj in Hline as <-. exists text. split; [done|].
  destruct (to_vec_line value text Ht) as (Hutf & Hne & H10 & H13 & Hfrom). unfold PreparedResponse.validate.
  rewrite bounded_line_ok by done. advance. rewrite Hfrom. advance.
  rewrite (response_accepted blake3 p ordinal w value); [done|done|]. unfold run. by rewrite Hv.
Qed.

(** ** The sample *)

Definition sample_prepared : PreparedSource :=
  match fst (fst sample_prepared_answer) with
  | Ok p => p
  | Err _ => {| prepared_source := sample_record; prepared_current := sample_row; stored_artifact := None |}
  end.
Definition sample_response : Value := match run (response sample_hash sample_prepared 0) [] with Ok v => v | Err _ => Value.Null end.

(** A printer of one value. *)
#[export] Instance sample_serde : SerdeJson.
Proof.
  refine {| to_vec := fun v => if bool_decide (v = sample_response) then Some (str "{}") else None;
            from_slice := fun _ => Some sample_response |}.
  intros v text Ht. case_bool_decide as Hv; [|done]. injection Ht as <-. split; [vm_compute; reflexivity|]. split; [done|].
  split; [apply (bool_decide_eq_true_1 (~ (10 ∈ _))); vm_compute; reflexivity|].
  split; [apply (bool_decide_eq_true_1 (~ (13 ∈ _))); vm_compute; reflexivity|by subst].
Defined.

Lemma sample_prepared_sound : preparation_sound sample_hash sample_prepared.
Proof.
  assert (kept sample_corpus ∅ sample_id sample_root) as Hk
    by (exists sample_corpus, ∅; split; [exact sample_state|]; split; [done|]; split; [done|exact sample_root_typed]).
  pose proof (prepare_runs sample_hash sample_hash_wf sample_publish sample_publish_typed sample_corpus ∅ sample_id sample_id_wf true
    sample_root [] Hk) as Hout.
  assert (is_ok (fst (fst sample_prepared_answer)) = true) as Hok by (vm_compute; reflexivity).
  unfold sample_prepared, sample_prepared_answer in *.
  destruct (prepare sample_hash sample_publish true sample_id sample_root []) as [[[p|e] r'] w']; [|done]. by destruct Hout as [? _].
Qed.

Lemma response_line_accepted_witness :
  run (response_line sample_hash sample_prepared 0) [] = Ok (str "{}" ++ [10]) /\
  PreparedResponse.validate (str "{}" ++ [10]) (Uuid.display (source_id (prepared_source sample_prepared))) 0 = Some (str "{}").
Proof.
  assert (run (response_line sample_hash sample_prepared 0) [] = Ok (str "{}" ++ [10])) as Hrun by (vm_compute; reflexivity).
  split; [exact Hrun|].
  destruct (response_line_accepted sample_hash sample_prepared 0 [] _ sample_prepared_sound Hrun) as (text & Ht & Hv).
  assert (text = str "{}") as -> by (apply (app_inv_tail [10]); exact (eq_sym Ht)). exact Hv.
Defined.
