(* ===== verification/ControlHistory.v ===== *)
(** Histories of the control database: any sequence of captures, commits, removals and
    preparation writes, in any environment, as a transition system over the database, the
    captures still held and the identities drawn so far; the abstract system it implements;
    and what holds of every history. *)

From stdpp Require Import gmap relations.
From S2P Require Import Prelude Bytes Ids Registry SourceRow PreparationRow Database Control.
From S2P Require Import ControlSpec ControlRefine ControlState ControlSample ControlWriter ControlAdmission.
From S2P Require Import PreparationControl PreparationSpec PreparationState.

(** ** The abstract system *)

Record abstract := { rows : corpus; prepared_sources : preparations }.

Definition forget (ps : preparations) (expected : list CurrentSourceRecord) : preparations :=
  foldl (fun m r => delete (source_id r) m) ps expected.

Inductive move : abstract -> abstract -> Prop :=
  | move_stay a : move a a
  | move_commit c c' ps capture file object record :
      capture_wf capture -> content_ok file object ->
      commit_spec c capture file object = Ok (record, Some c') ->
      move {| rows := c; prepared_sources := ps |} {| rows := c'; prepared_sources := ps |}
  | move_remove c c' ps expected :
      removal_spec c expected = Ok c' ->
      move {| rows := c; prepared_sources := ps |} {| rows := c'; prepared_sources := forget ps expected |}
  | move_admit c ps rn :
      namespace c = None -> Uuid.wf rn ->
      move {| rows := c; prepared_sources := ps |} {| rows := with_namespace c rn; prepared_sources := ps |}
  | move_prepare c ps id row :
      preparation_ok c id row -> wanted c + 1 <= U64_MAX ->
      move {| rows := c; prepared_sources := ps |}
           {| rows := with_preparation c id row (wanted c + 1); prepared_sources := <[id := row]> ps |}.

(** The same sources and preparations, up to a namespace drawn in between. *)
Definition same_content (a b : abstract) : Prop :=
  sources (rows b) = sources (rows a) /\ prepared_rows (rows b) = prepared_rows (rows a) /\
  prepared_sources b = prepared_sources a /\ (forall n, namespace (rows a) = Some n -> namespace (rows b) = Some n).

(** The wanted revision counts the moves that change the content. *)
Lemma move_counts a b :
  move a b -> (wanted (rows b) = wanted (rows a) /\ same_content a b) \/ wanted (rows b) = wanted (rows a) + 1.
Proof.
  intros Hm. destruct Hm as [a|c c' ps capture file object record _ _ Hs|c c' ps expected Hs|c ps rn Hn _|c ps id row _ _].
  - left. by split.
  - right. cbn. unfold commit_spec in Hs. apply bind_ok_inv in Hs as ([row reg] & _ & Hs). destruct (unchanged _ _ _ _); [done|].
    apply bind_ok_inv in Hs as (? & _ & Hs). apply bind_ok_inv in Hs as (next & Hnext%ok_or_inv%checked_add_inv & Hs).
    apply ok_inj in Hs. injection Hs as _ <-. cbn. tauto.
  - right. by apply removal_effect in Hs as (_ & _ & _ & _ & ?).
  - left. cbn. split; [done|]. split; [done|]. split; [done|]. split; [done|]. cbn. rewrite Hn. done.
  - by right.
Qed.

Lemma moves_count a b :
  rtc move a b -> wanted (rows a) <= wanted (rows b) /\ (wanted (rows b) = wanted (rows a) -> same_content a b).
Proof.
  induction 1 as [a|a b b' Hm _ [IH1 IH2]]; [by split|]. apply move_counts in Hm as [[E (S1 & S2 & S3 & S4)]|E]; [|lia].
  split; [lia|]. intros E'. destruct IH2 as (T1 & T2 & T3 & T4); [lia|]. unfold same_content. split_and!; try congruence.
  intros n Hn. by apply T4, S4.
Qed.

Lemma forget_lookup ps expected id :
  forget ps expected !! id = if decide (id ∈ source_id <$> expected) then None else ps !! id.
Proof. apply foldl_delete_lookup. Qed.

(** ** The concrete system *)

Section History.
Context `{SelectionJson} {D : Type} `{Redb D}.
Implicit Types (d : D) (c : corpus) (ps : preparations).

(** The database, the captures taken and not yet spent, each with the database it was taken
    from, and the identities the random source has given. *)
Record world := { database : D; captures : list (SourceCapture * D); drawn : gset (list Z) }.

Definition with_database (s : world) d : world := {| database := d; captures := captures s; drawn := drawn s |}.

Inductive step : world -> world -> Prop :=
  (** A capture; the identity it may use was never drawn before. *)
  | step_capture s path rn rs w capture :
      bytes_ok path -> Uuid.wf rn -> Uuid.wf rs -> rs ∉ drawn s ->
      run (capture_current_source (database s) path rn rs) w = Ok capture ->
      step s {| database := database s; captures := (capture, database s) :: captures s; drawn := {[rs]} ∪ drawn s |}
  (** A commit takes its capture by value. *)
  | step_commit s before capture d0 after file object w w' answer d' commit :
      captures s = before ++ (capture, d0) :: after -> content_ok file object ->
      commit = writer_commit \/ commit = path_commit ->
      commit (database s) capture file object w = ((answer, d'), w') ->
      step s {| database := d'; captures := before ++ after; drawn := drawn s |}
  | step_remove s expected w w' answer d' :
      writer_remove (database s) expected w = ((answer, d'), w') -> step s (with_database s d')
  | step_admit s selection rn w w' answer d' :
      Uuid.wf rn -> admit_selection (database s) selection rn w = ((answer, d'), w') -> step s (with_database s d')
  | step_ensure s id w w' answer d' ensure :
      Uuid.wf id -> ensure = ensure_preparation_settings \/ ensure = path_ensure_settings ->
      ensure (database s) id w = ((answer, d'), w') -> step s (with_database s d')
  | step_outcome s capture result w w' answer d' commit :
      result_wf result -> commit = commit_preparation \/ commit = path_commit_preparation ->
      commit (database s) capture result w = ((answer, d'), w') -> step s (with_database s d').

(** The abstraction relation. *)
Definition stands_for (s : world) (a : abstract) : Prop :=
  state_at (database s) (rows a) (prepared_sources a) /\ Forall (fun x => capture_wf (fst x)) (captures s).

Lemma prepared_commit c c' ps capture file object record :
  commit_spec c capture file object = Ok (record, Some c') -> capture_wf capture -> corpus_wf c -> prepared c ps -> prepared c' ps.
Proof.
  intros Hs Hcap Hwf [Hrows Hok]. unfold commit_spec in Hs. apply bind_ok_inv in Hs as ([row reg] & Hrev & Hs).
  destruct (unchanged _ _ _ _); [done|]. apply bind_ok_inv in Hs as (? & _ & Hs).
  apply bind_ok_inv in Hs as (next & _ & Hs). apply ok_inj in Hs. injection Hs as _ <-.
  split; [done|]. intros id p Hp. destruct (Hok id p Hp) as (K1 & K2 & K3 & K4 & K5). split_and!; try done; cbn.
  - destruct (revisions_cases c capture row reg Hwf Hrev) as (Hns & _). rewrite K4 in Hns.
    destruct Hcap as (_ & _ & _ & _ & Hcap). by rewrite (Hcap _ Hns).
  - destruct (decide (source_capture_id capture = id)) as [->|Hne]; [rewrite lookup_insert_eq; by eexists|by rewrite lookup_insert_ne].
Qed.

Lemma prepared_removal c c' ps expected :
  removal_spec c expected = Ok c' -> prepared c ps -> prepared c' (forget ps expected).
Proof.
  intros Hs [Hrows Hok]. assert (namespace c' = namespace c) as Hns.
  { unfold removal_spec in Hs. destruct (namespace c) eqn:E; [|done]. inv_ok. done. }
  apply removal_effect in Hs as (_ & _ & Hsrc & Hprep & _). split.
  - apply map_eq. intros id. rewrite Hprep, lookup_fmap, forget_lookup, Hrows. case_decide; [done|]. by rewrite lookup_fmap.
  - intros id p. rewrite forget_lookup. case_decide as Hin; [done|]. intros Hp.
    destruct (Hok id p Hp) as (K1 & K2 & K3 & K4 & K5). split_and!; try done; [by rewrite Hns|].
    by rewrite Hsrc, decide_False.
Qed.

Lemma prepare_moves d c ps id spec answer c' ps' w d' :
  state_at d c ps -> state_at d' c' ps' -> concluded spec c ps id answer c' ps' w ->
  (forall row next, spec = Ok (row, Some next) -> next = with_preparation c id row (wanted c + 1) /\ preparation_ok c id row /\ wanted c + 1 <= U64_MAX) ->
  move {| rows := c; prepared_sources := ps |} {| rows := c'; prepared_sources := ps' |} /\ sources c' = sources c.
Proof.
  intros _ _ Hc Hspec. destruct answer as [row|e]; cbn in Hc.
  - destruct Hc as (next & Hs & -> & ->). destruct next as [next|]; cbn [default written]; [|by split; [constructor|]].
    destruct (Hspec row next Hs) as (-> & ? & ?). by split; [constructor|].
  - destruct Hc as [(_ & -> & ->)|(_ & _ & [[-> ->]|(_ & row & Hs & ->)])]; [by split; [constructor|]..|].
    destruct (Hspec row c' Hs) as (-> & ? & ?). by split; [constructor|].
Qed.

Lemma outcome_writes c ps capture result row next :
  corpus_wf c -> prepared c ps -> result_wf result ->
  outcome_spec c ps capture result = Ok (row, Some next) ->
  next = with_preparation c (source_id (capture_source capture)) row (wanted c + 1) /\
  preparation_ok c (source_id (capture_source capture)) row /\ wanted c + 1 <= U64_MAX.
Proof.
  intros Hwf [_ Hok] Hres. unfold outcome_spec. intros E. apply bind_ok_inv in E as ([] & Hv & E). cbv zeta in E.
  apply bind_ok_inv in E as (? & _ & E). apply bind_ok_inv in E as (source & Hs%ok_or_inv & E).
  apply bind_ok_inv in E as (? & _ & E). apply bind_ok_inv in E as (p & Hp%ok_or_inv & E).
  apply bind_ok_inv in E as (? & Hg%reject_if_ok & E). destruct (keeps_ready _ _ _ _); [done|]. case_bool_decide; [done|].
  apply bind_ok_inv in E as (rev & Hrev%ok_or_inv%checked_add_inv & E). apply write_spec_inv in E as (-> & [= ->] & ?).
  destruct Hrev as [-> ?]. split; [done|]. split; [|done]. unfold outcome_guard in Hg. to_prop.
  apply with_outcome_ok; try done; [by apply Hok|]. destruct result as [a|g]; [|done]. apply reject_if_ok in Hv. by to_prop.
Qed.

Lemma select_writes c ps id chosen init row next :
  corpus_wf c -> prepared c ps -> Uuid.wf id -> select_spec c ps id chosen init = Ok (row, Some next) ->
  next = with_preparation c id row (wanted c + 1) /\ preparation_ok c id row /\ wanted c + 1 <= U64_MAX.
Proof.
  intros (Hns & _ & Hrow & _) [_ Hok] Hid. unfold select_spec. intros E. apply bind_ok_inv in E as ([] & Hsup%reject_if_ok & E).
  to_prop. apply bind_ok_inv in E as (source & Hs%ok_or_inv & E). destruct (Hrow _ _ Hs) as (_ & Hn & _).
  assert (forall found r, next_settings source id chosen found = Ok r -> (forall p, found = Some p -> ps !! id = Some p) ->
    preparation_ok c id r) as Hnext.
  { intros found r Hr Hf. apply (next_settings_ok c id chosen source found r (source_namespace_id source));
      [done|by apply Hns|done|by exists source|done| |done|done]. intros p Hp. by apply Hok, Hf. }
  destruct (ps !! id) as [p|] eqn:Hp; [destruct (init || _); [done|]|];
    apply bind_ok_inv in E as (r & Hr & E); apply write_spec_inv in E as (-> & [= ->] & ?);
    (split; [done|]; split; [by eapply Hnext; [exact Hr|intros ? [= <-]]|done]).
Qed.

Lemma capture_spec_wf c l rn rs :
  corpus_wf c -> bytes_ok l -> 0 < len l <= MAX_LOCATOR_BYTES -> Uuid.wf rn -> Uuid.wf rs -> capture_wf (capture_spec c l rn rs).
Proof.
  intros Hwf Hl Hlen Hn Hs. unfold capture_spec, capture_wf. destruct (namespace c) as [n|] eqn:Hns; [|cbn; split_and!; by try lia].
  pose proof (proj1 Hwf n Hns) as Hnwf.
  destruct (locate c l) as [r|] eqn:Hloc; cbn; [|split_and!; try done; try lia; by intros ? [= <-]].
  apply locate_spec in Hloc as [Hr _]; [|done]. destruct (proj1 (proj2 (proj2 Hwf)) _ _ Hr) as (_ & _ & (_ & Hrid & _) & _).
  split_and!; try done; try lia. by intros ? [= <-].
Qed.

Lemma capture_run d c path rn rs w capture :
  represents d c -> run (capture_current_source d path rn rs) w = Ok capture ->
  0 < len path <= MAX_LOCATOR_BYTES /\ capture = capture_spec c path rn rs.
Proof.
  intros Hr Hrun. unfold capture_current_source in Hrun. apply run_lift_ok in Hrun as (l & Hl & Hrun).
  unfold source_locator_bytes in Hl. apply bind_ok_inv in Hl as (? & _ & Hl).
  apply bind_ok_inv in Hl as (? & Hg%reject_if_ok & Hl). apply ok_inj in Hl as <-. to_prop. pose proof (len_nonneg path). split; [lia|].
  pose proof (refines_ok _ _ w capture (capture_refines d c path rn rs Hr) Hrun). congruence.
Qed.

(** ** Captures and the rows they saw *)

(** What a capture taken from [c0] remembers of the row at its locator. *)
Definition remembers (capture : SourceCapture) (c0 : corpus) : Prop :=
  expected_namespace capture = namespace c0 /\
  match locate c0 (source_capture_locator capture) with
  | Some r0 => expected_row_revision capture = Some (row_revision r0) /\ source_capture_id capture = source_id r0
  | None => expected_row_revision capture = None
  end.

(** The identities of captures of unregistered locators. *)
Definition pending (caps : list (SourceCapture * D)) : list (list Z) :=
  source_capture_id ∘ fst <$> filter (fun x => expected_row_revision (fst x) = None) caps.

(** A capture of a registered row: the row is as it was, has a later revision, or is gone
    and its identity cannot come back. *)
Definition row_tracked (c : corpus) (caps : list (SourceCapture * D)) (id : list Z) (r0 : CurrentSourceRecord) : Prop :=
  (id ∉ pending caps) /\ forall r, sources c !! id = Some r -> r = r0 \/ row_revision r0 < row_revision r.

Definition capture_tracked (c : corpus) (s : world) (x : SourceCapture * D) : Prop :=
  source_capture_id (fst x) ∈ drawn s /\
  exists c0, represents (snd x) c0 /\ remembers (fst x) c0 /\
    forall r0, locate c0 (source_capture_locator (fst x)) = Some r0 -> row_tracked c (captures s) (source_id r0) r0.

Definition tracked (c : corpus) (s : world) : Prop :=
  (forall id, is_Some (sources c !! id) -> id ∈ drawn s) /\
  NoDup (pending (captures s)) /\ (forall id, id ∈ pending (captures s) -> sources c !! id = None) /\
  Forall (capture_tracked c s) (captures s).

Lemma pending_cons x caps :
  pending (x :: caps) =
    if decide (expected_row_revision (fst x) = None) then source_capture_id (fst x) :: pending caps else pending caps.
Proof. unfold pending. rewrite filter_cons. by case_decide. Qed.

Lemma pending_app caps1 caps2 : pending (caps1 ++ caps2) = pending caps1 ++ pending caps2.
Proof. unfold pending. by rewrite filter_app, fmap_app. Qed.

Lemma pending_drawn c s id : Forall (capture_tracked c s) (captures s) -> id ∈ pending (captures s) -> id ∈ drawn s.
Proof.
  intros Hf Hin. unfold pending in Hin. apply list_elem_of_fmap in Hin as (x & -> & Hx). apply list_elem_of_filter in Hx as [_ Hx].
  rewrite Forall_forall in Hf. by apply (Hf x Hx).
Qed.

(** Anything that removes rows or leaves them, with fewer captures pending. *)
Lemma tracked_shrink c c' s s' :
  tracked c s -> captures s' `sublist_of` captures s -> drawn s' = drawn s ->
  (forall id r, sources c' !! id = Some r -> sources c !! id = Some r) -> tracked c' s'.
Proof.
  intros (Hdom & Hnd & Hpend & Hcaps) Hsub Hdrawn Hsrc.
  assert (pending (captures s') `sublist_of` pending (captures s)) as Hps.
  { unfold pending. clear -Hsub. induction Hsub as [|x l k Hl IH|x l k Hl IH]; [done|..]; rewrite !filter_cons.
    - case_decide; [by constructor|done].
    - case_decide; [by constructor|done]. }
  split; [|split; [|split]].
  - intros id [r Hr]. rewrite Hdrawn. apply Hdom. eauto.
  - by eapply sublist_NoDup.
  - intros id Hid. destruct (sources c' !! id) as [r|] eqn:Hr; [|done]. apply Hsrc in Hr.
    assert (sources c !! id = None) by (apply Hpend; by eapply elem_of_sublist). congruence.
  - apply Forall_forall. intros x Hx. rewrite Forall_forall in Hcaps.
    destruct (Hcaps x (elem_of_sublist _ _ _ Hx Hsub)) as (Hid & c0 & Hr0 & Hrem & Hrow).
    split; [by rewrite Hdrawn|]. exists c0. split; [done|]. split; [done|]. intros r0 Hl. destruct (Hrow r0 Hl) as [Hn Hrev].
    split; [intros Hp; apply Hn; by eapply elem_of_sublist|]. intros r Hr. by apply Hrev, Hsrc.
Qed.

(** A capture joins the tracked ones. *)
Lemma tracked_capture c s path rn rs :
  represents (database s) c -> tracked c s -> rs ∉ drawn s ->
  tracked c {| database := database s; captures := (capture_spec c path rn rs, database s) :: captures s;
               drawn := {[rs]} ∪ drawn s |}.
Proof.
  intros Hr (Hdom & Hnd & Hpend & Hcaps) Hfresh. pose proof (represents_wf _ _ Hr) as Hwf.
  set (cap := capture_spec c path rn rs).
  assert (remembers cap c /\ source_capture_locator cap = path /\
    match locate c path with Some r => source_capture_id cap = source_id r | None => source_capture_id cap = rs end)
    as (Hrem & Hpath & Hid).
  { unfold remembers, cap, capture_spec. destruct (namespace c) as [n|] eqn:Hn.
    - destruct (locate c path) as [r|] eqn:Hl; cbn; rewrite Hl; by split_and!.
    - assert (locate c path = None) as Hl.
      { apply locate_none; [done|]. intros id r Hs. destruct (proj1 (proj2 (proj2 Hwf)) _ _ Hs) as (_ & ? & _). congruence. }
      cbn. rewrite Hl. by split_and!. }
  assert (expected_row_revision cap = None <-> locate c path = None) as Hexp.
  { destruct Hrem as [_ Hrem]. rewrite Hpath in Hrem. destruct (locate c path); [|by split]. destruct Hrem as [-> _]. by split. }
  assert (forall id, id ∈ pending ((cap, database s) :: captures s) -> id = rs /\ locate c path = None \/ id ∈ pending (captures s)) as Hpc.
  { intros id. rewrite pending_cons. cbn [fst]. case_decide as He; [|by right]. apply Hexp in He as Hl. rewrite Hl in Hid.
    rewrite elem_of_cons. intros [->|?]; [left; by split|by right]. }
  assert (forall id, id ∈ pending (captures s) -> id ∈ drawn s) as Hpd by (intros id; by eapply pending_drawn).
  assert (sources c !! rs = None) as Hrs.
  { apply eq_None_not_Some. intros Hs. by apply Hfresh, Hdom. }
  split; [|split; [|split]]; cbn [captures drawn].
  - intros id Hs. apply elem_of_union. right. by apply Hdom.
  - rewrite pending_cons. cbn [fst]. case_decide as He; [|done]. apply Hexp in He. rewrite He in Hid. constructor; [|done].
    rewrite Hid. intros Hin. by apply Hfresh, Hpd.
  - intros id Hin. apply Hpc in Hin as [[-> _]|Hin]; [done|by apply Hpend].
  - assert (forall x, capture_tracked c s x -> capture_tracked c {| database := database s; captures := (cap, database s) :: captures s;
      drawn := {[rs]} ∪ drawn s |} x) as Hkeep.
    { intros x (Hx & c0 & Hr0 & Hrem0 & Hrow). split; [apply elem_of_union; by right|]. exists c0. split; [done|]. split; [done|].
      intros r0 Hl. destruct (Hrow r0 Hl) as [Hn Hrev]. split; [|done]. intros [[Eid _]|Hin]%Hpc; [|done].
      apply Hfresh. destruct Hrem0 as [_ Hrem0]. rewrite Hl in Hrem0. destruct Hrem0 as [_ E]. by rewrite <- Eid, <- E. }
    constructor; [|by eapply Forall_impl].
    split; cbn [fst snd captures drawn].
    + destruct (locate c path) as [r|] eqn:Hl; rewrite Hid; [|set_solver].
      apply locate_spec in Hl as [Hs _]; [|done]. apply elem_of_union. right. apply Hdom. by exists r.
    + exists c. split; [done|]. split; [done|]. rewrite Hpath. intros r0 Hl. apply locate_spec in Hl as Hs; [|done]. destruct Hs as [Hs _].
      split; [|intros r Hr'; left; congruence]. intros [[_ ?]|Hin]%Hpc; [congruence|]. apply Hpend in Hin. congruence.
Qed.

(** A commit spends its capture. *)
Lemma tracked_commit c c' s before capture d0 after file object record d' :
  corpus_wf c -> tracked c s -> captures s = before ++ (capture, d0) :: after -> capture_wf capture ->
  commit_spec c capture file object = Ok (record, Some c') ->
  tracked c' {| database := d'; captures := before ++ after; drawn := drawn s |}.
Proof.
  intros Hwf (Hdom & Hnd & Hpend & Hcaps) Hc Hcap Hs.
  assert (exists row reg next, revisions_spec c capture = Ok (row, reg) /\ record = committed_row capture file object row reg /\
    c' = {| namespace := Some (source_capture_namespace capture); sources := <[source_capture_id capture := record]> (sources c);
            prepared_rows := prepared_rows c; wanted := next |}) as (row & reg & next & Hrev & -> & ->).
  { unfold commit_spec in Hs. apply bind_ok_inv in Hs as ([row reg] & Hrev & Hs). destruct (unchanged _ _ _ _); [done|].
    apply bind_ok_inv in Hs as (? & _ & Hs). apply bind_ok_inv in Hs as (next & _ & Hs). apply ok_inj in Hs.
    injection Hs as <- <-. by exists row, reg, next. }
  destruct (revisions_cases c capture row reg Hwf Hrev) as (_ & _ & _ & Hcases).
  rewrite Hc in Hnd, Hpend. rewrite pending_app, pending_cons in Hnd, Hpend. cbn [fst] in Hnd, Hpend.
  assert (source_capture_id capture ∉ pending (before ++ after)) as Hout.
  { rewrite pending_app. destruct Hcases as [(He & _)|(cur & _ & _ & Hcur & _)].
    - rewrite decide_True in Hnd by done. apply NoDup_app in Hnd as (_ & Hd & Hnd). apply NoDup_cons in Hnd as [Hnd _].
      rewrite elem_of_app. intros [Hin|Hin]; [|done]. apply (Hd _ Hin). by left.
    - intros Hin. assert (sources c !! source_capture_id capture = None); [|congruence]. apply Hpend.
      rewrite elem_of_app in Hin |- *. case_decide; rewrite ?elem_of_cons; tauto. }
  assert (NoDup (pending (before ++ after)) /\ forall id, id ∈ pending (before ++ after) ->
    id ∈ pending before ++ (if decide (expected_row_revision capture = None) then source_capture_id capture :: pending after else pending after))
    as [Hnd' Hsub].
  { rewrite pending_app. case_decide; [|by split]. split.
    - apply NoDup_app in Hnd as (K1 & K2 & K3). apply NoDup_cons in K3 as [K3 K4]. apply NoDup_app. split_and!; try done.
      intros x Hx Hy. apply (K2 x Hx). by right.
    - intros id. rewrite !elem_of_app, elem_of_cons. tauto. }
  rewrite Forall_forall in Hcaps.
  assert (forall x, x ∈ before ++ after -> x ∈ captures s) as Hin.
  { intros x. rewrite Hc, !elem_of_app, elem_of_cons. tauto. }
  split; [|split; [|split]]; cbn [captures drawn sources].
  - intros id Hid. destruct (decide (source_capture_id capture = id)) as [<-|Hne].
    + apply (Hcaps (capture, d0)). rewrite Hc, elem_of_app. right. left.
    + rewrite lookup_insert_ne in Hid by done. by apply Hdom.
  - done.
  - intros id Hid. rewrite lookup_insert_ne by congruence. by apply Hpend, Hsub.
  - apply Forall_forall. intros x Hx. destruct (Hcaps x (Hin x Hx)) as (Hxd & c0 & Hr0 & Hrem & Hrow).
    split; [done|]. exists c0. split; [done|]. split; [done|]. intros r0 Hl. destruct (Hrow r0 Hl) as [Hn Hrev0].
    rewrite Hc, pending_app, pending_cons in Hn. cbn [fst] in Hn. split; [intros Hp; by apply Hn, Hsub|].
    intros r. cbn [sources]. destruct (decide (source_capture_id capture = source_id r0)) as [E|Hne].
    + rewrite E, lookup_insert_eq. intros [= <-]. right. cbn.
      destruct Hcases as [(He & _)|(cur & _ & _ & Hcur & _ & _ & _ & -> & _)].
      * exfalso. apply Hn. rewrite decide_True by done. rewrite elem_of_app, elem_of_cons. auto.
      * rewrite E in Hcur. destruct (Hrev0 cur Hcur) as [->|?]; lia.
    + rewrite lookup_insert_ne by done. apply Hrev0.
Qed.

(** ** Simulation *)

(** Forward simulation: a step of the database is a move of the corpus. *)
Lemma step_moves s s' a : step s s' -> stands_for s a ->
  exists b, stands_for s' b /\ move a b /\ (tracked (rows a) s -> tracked (rows b) s').
Proof.
  intros Hstep [[Hr Hp] Hcaps]. destruct a as [c ps]. cbn [rows prepared_sources] in *. pose proof (represents_wf _ _ Hr) as Hwf.
  destruct Hstep as [s path rn rs w capture Hb Hn Hi Hfresh Hrun|s before capture d0 after file object w w' answer d' commit Hc Hcontent Hcommit Hrun
    |s expected w w' answer d' Hrun|s selection rn w w' answer d' Hrn Hrun|s id w w' answer d' ensure Hid Hensure Hrun|s capture result w w' answer d' commit Hres Hcommit Hrun].
  - apply (capture_run _ c) in Hrun as [Hlen ->]; [|done].
    exists {| rows := c; prepared_sources := ps |}. split; [|split; [constructor|intros Ht; by apply tracked_capture]].
    split; [by split|]. constructor; [|done]. by apply capture_spec_wf.
  - rewrite Hc in Hcaps. apply Forall_app in Hcaps as [Hbefore Hcaps]. apply Forall_cons in Hcaps as [Hcap Hafter]. cbn in Hcap.
    assert (exists c', represents d' c' /\ answered (commit_spec c capture file object) c answer c' w) as (c' & Hr' & Ha).
    { destruct Hcommit as [-> | -> ]; [pose proof (writer_commit_outcome (database s) c capture file object w Hr Hcap Hcontent) as Ho
        |pose proof (path_commit_outcome (database s) c capture file object w Hr Hcap Hcontent) as Ho]; by rewrite Hrun in Ho. }
    assert (c' = c \/ exists record, commit_spec c capture file object = Ok (record, Some c')) as [->|[record Hs]].
    { destruct answer as [record|e]; cbn in Ha.
      - destruct Ha as (next & Hs & ->). destruct next; [right; by exists record|by left].
      - destruct Ha as [[_ ->]|(_ & _ & [->|(_ & record & Hs)])]; [by left|by left|right; by exists record]. }
    + exists {| rows := c; prepared_sources := ps |}. split; [split; [by split|by apply Forall_app]|]. split; [constructor|].
      intros Ht. eapply (tracked_shrink c c s); [done| |done|done]. cbn. rewrite Hc. apply sublist_app; [done|]. by constructor.
    + exists {| rows := c'; prepared_sources := ps |}. split; [split; [|by apply Forall_app]|].
      { split; [done|]. by eapply prepared_commit. }
      split; [by eapply move_commit|]. intros Ht. by eapply tracked_commit.
  - pose proof (writer_remove_outcome (database s) c expected w Hr) as Ho. rewrite Hrun in Ho. destruct Ho as (c' & Hr' & Ha).
    assert (c' = c \/ removal_spec c expected = Ok c') as [->|Hs].
    { assert (forall next, removal_answer c expected = Ok next -> next = None \/ exists c1, next = Some c1 /\ removal_spec c expected = Ok c1) as Hans.
      { intros next. unfold removal_answer. case_bool_decide; [intros [= <-]; by left|]. intros E. inv_ok. right. by eexists. }
      destruct answer as [[]|e]; cbn in Ha.
      - destruct Ha as (next & Hs & ->). destruct (removal_answer c expected) as [next'|]; [|done]. cbn in Hs. injection Hs as ->.
        destruct (Hans next eq_refl) as [->|(c1 & -> & Hs)]; [by left|by right].
      - destruct Ha as [[_ ->]|(_ & _ & [->|(_ & [] & Hs)])]; [by left|by left|].
        destruct (removal_answer c expected) as [next'|]; [|done]. cbn in Hs. injection Hs as ->.
        destruct (Hans (Some c') eq_refl) as [?|(c1 & [= <-] & Hs)]; [done|by right]. }
    + exists {| rows := c; prepared_sources := ps |}. split; [by split|]. split; [constructor|].
      intros Ht. by eapply (tracked_shrink c c s).
    + exists {| rows := c'; prepared_sources := forget ps expected |}. split; [split; [|done]|].
      { split; [done|]. by eapply prepared_removal. }
      split; [by constructor|]. intros Ht. eapply (tracked_shrink c c' s); [done|done|done|].
      apply removal_effect in Hs as (_ & _ & Hsrc & _). intros id r. rewrite Hsrc. by case_decide.
  - pose proof (admit_represents_any (database s) c selection rn Hr Hrn w) as [Ho _]. unfold admit_selection, run in *.
    assert (represents d' c \/ represents d' (with_namespace c rn)) as Hd.
    { destruct (admit_selection_database (database s) selection rn w) as [[[[] d1]|e] w1]; cbn in Ho; injection Hrun as <- <- <-; auto. }
    assert (tracked c s -> tracked c (with_database s d')) as Ht by (intros Ht; by eapply (tracked_shrink c c s)).
    destruct Hd as [Hd|Hd]; [exists {| rows := c; prepared_sources := ps |}; split; [by split|]; split; [constructor|done]|].
    destruct (namespace c) as [n|] eqn:Hn.
    + rewrite with_namespace_same in Hd by (by rewrite Hn).
      exists {| rows := c; prepared_sources := ps |}; split; [by split|]; split; [constructor|done].
    + exists {| rows := with_namespace c rn; prepared_sources := ps |}. split; [|split; [by constructor|]].
      * split; [|done]. split; [done|]. destruct Hp as [Hrows Hok]. split; [done|]. intros id p Hp.
        destruct (Hok id p Hp) as (_ & _ & _ & ? & _). congruence.
      * intros Ht'. by eapply (tracked_shrink c (with_namespace c rn) s).
  - assert (exists c' ps', state_at d' c' ps' /\ concluded (select_spec c ps id default_settings true) c ps id answer c' ps' w)
      as (c' & ps' & Hst & Ha).
    { destruct Hensure as [-> | -> ]; [pose proof (ensure_settings_concluded (database s) c ps id w (conj Hr Hp) Hid) as Ho
        |pose proof (path_ensure_concluded (database s) c ps id w (conj Hr Hp) Hid) as Ho]; by rewrite Hrun in Ho. }
    exists {| rows := c'; prepared_sources := ps' |}. split; [by split|].
    edestruct (prepare_moves (database s) c ps id) as [Hmove Hsrc]; [by split|exact Hst|exact Ha| |].
    { intros row next Hs. by eapply select_writes. }
    split; [done|]. intros Ht. eapply (tracked_shrink c c' s); [done|done|done|]. by rewrite Hsrc.
  - assert (exists c' ps', state_at d' c' ps' /\
      concluded (outcome_spec c ps capture result) c ps (source_id (capture_source capture)) answer c' ps' w) as (c' & ps' & Hst & Ha).
    { destruct Hcommit as [-> | -> ]; [pose proof (commit_preparation_concluded (database s) c ps capture result w (conj Hr Hp) Hres) as Ho
        |pose proof (path_commit_preparation_concluded (database s) c ps capture result w (conj Hr Hp) Hres) as Ho]; by rewrite Hrun in Ho. }
    exists {| rows := c'; prepared_sources := ps' |}. split; [by split|].
    edestruct (prepare_moves (database s) c ps) as [Hmove Hsrc]; [by split|exact Hst|exact Ha| |].
    { intros row next Hs. by eapply outcome_writes. }
    split; [done|]. intros Ht. eapply (tracked_shrink c c' s); [done|done|done|]. by rewrite Hsrc.
Qed.

Lemma steps_move s s' a : rtc step s s' -> stands_for s a ->
  exists b, stands_for s' b /\ rtc move a b /\ (tracked (rows a) s -> tracked (rows b) s').
Proof.
  intros Hs. revert a. induction Hs as [s|s t s' Hst _ IH]; intros a Ha; [by exists a|].
  destruct (step_moves s t a Hst Ha) as (b & Hb & Hm & Ht). destruct (IH b Hb) as (e & He & Hms & Hts).
  exists e. split; [done|]. split; [by eapply rtc_l|]. auto.
Qed.

End History.

(** ** What holds of every history *)

(** A process starts with no capture, over a database whose identities count as drawn. *)
Definition starts {D : Type} `{Redb D} (s : world (D := D)) (a : abstract) : Prop :=
  state_at (database s) (rows a) (prepared_sources a) /\ captures s = [] /\
  forall id, is_Some (sources (rows a) !! id) -> id ∈ drawn s.

Lemma starts_stands {D} `{Redb D} (s : world (D := D)) a : starts s a -> stands_for s a /\ tracked (rows a) s.
Proof.
  intros (Hst & Hc & Hd). split; [split; [done|by rewrite Hc]|]. split; [done|]. rewrite Hc.
  split; [constructor|]. split; [|constructor]. intros id Hin. by apply elem_of_nil in Hin.
Qed.

Definition sample_world : world := {| database := empty_store; captures := []; drawn := ∅ |}.
Definition sample_abstract : abstract := {| rows := empty_corpus; prepared_sources := ∅ |}.
Definition sample_captured : world :=
  {| database := empty_store; captures := [(sample_capture, empty_store)]; drawn := {[sample_id]} |}.
Definition sample_committed : world := {| database := sample_store; captures := []; drawn := {[sample_id]} |}.

Lemma sample_starts : starts sample_world sample_abstract.
Proof.
  split; [|split; [done|]].
  - split; [exact empty_represents|]. split; [by vm_compute|]. done.
  - intros id [r Hr]. done.
Qed.

Lemma sample_steps : step sample_world sample_captured /\ step sample_captured sample_committed.
Proof.
  split.
  - replace sample_captured with {| database := database sample_world; captures := (sample_capture, database sample_world) :: captures sample_world;
      drawn := {[sample_id]} ∪ drawn sample_world |} by (unfold sample_captured; f_equal; vm_compute; reflexivity).
    eapply (step_capture sample_world sample_locator sample_namespace sample_id []).
    + apply (bool_decide_eq_true_1 _). vm_compute. reflexivity.
    + split; [reflexivity|]. apply (bool_decide_eq_true_1 _). vm_compute. reflexivity.
    + split; [reflexivity|]. apply (bool_decide_eq_true_1 _). vm_compute. reflexivity.
    + apply not_elem_of_empty.
    + vm_compute. reflexivity.
  - destruct (writer_commit empty_store sample_capture sample_file sample_object []) as [[answer d'] w'] eqn:E.
    assert (d' = sample_store) as ->.
    { pose proof (f_equal (fun x => snd (fst x)) E) as E'. cbn in E'. rewrite <- E'. vm_compute. reflexivity. }
    exact (step_commit sample_captured [] sample_capture empty_store [] sample_file sample_object [] w' answer sample_store
      writer_commit eq_refl sample_content (or_introl eq_refl) E).
Qed.

(** C11. The control database implements the abstract corpus.  Along any interleaving of
    captures, commits, removals, admissions, initial settings and preparation outcomes, each
    run in an arbitrary environment (cancelled, expired, refused memory, failed calls, lost
    commit reports), the tables always stand for a well-formed corpus with its
    preparations, and that corpus changes only by whole moves of the abstract system: a
    specified commit, a specified removal, a first namespace, or one well-formed
    preparation written. *)
Theorem history_refines `{SelectionJson} {D : Type} `{Redb D} (s s' : world (D := D)) (a : abstract) :
  starts s a -> rtc step s s' ->
  exists b, rtc move a b /\ represents (database s') (rows b) /\ prepared (rows b) (prepared_sources b).
Proof.
  intros Hs Hsteps. destruct (starts_stands s a Hs) as [Hst _].
  destruct (steps_move s s' a Hsteps Hst) as (b & [[Hr Hp] _] & Hm & _). by exists b.
Qed.

Lemma history_refines_witness :
  (starts sample_world sample_abstract /\ rtc step sample_world sample_committed) /\
  exists b, rtc move sample_abstract b /\ represents sample_store (rows b) /\ prepared (rows b) (prepared_sources b).
Proof.
  pose proof sample_steps as [K1 K2].
  assert (rtc step sample_world sample_committed) as Hs by (eapply rtc_l; [exact K1|eapply rtc_l; [exact K2|apply rtc_refl]]).
  split; [exact (conj sample_starts Hs)|]. exact (history_refines sample_world sample_committed sample_abstract sample_starts Hs).
Defined.

(** The wanted revision never goes back, and every change of a source or of a
    preparation advances it: between two points of any history it is the same only if no
    source and no preparation changed (a first admission may have drawn the namespace), so
    a reader that finds the revision it built for has the state it built for. *)
Theorem wanted_counts_changes `{SelectionJson} {D : Type} `{Redb D} (s s' : world (D := D)) (a : abstract) :
  stands_for s a -> rtc step s s' ->
  exists b, stands_for s' b /\ wanted (rows a) <= wanted (rows b) <= U64_MAX /\
    (wanted (rows b) = wanted (rows a) -> same_content a b).
Proof.
  intros Hs Hsteps. destruct (steps_move s s' a Hsteps Hs) as (b & Hb & Hm & _). exists b. split; [done|].
  destruct (moves_count a b Hm) as [Hle Heq]. split; [|done].
  split; [done|]. apply (represents_wf (database s') (rows b)). apply Hb.
Qed.

Lemma wanted_counts_changes_witness :
  (stands_for sample_world sample_abstract /\ rtc step sample_world sample_committed) /\
  exists b, stands_for sample_committed b /\ wanted (rows b) <> 0.
Proof.
  pose proof sample_steps as [K1 K2].
  assert (rtc step sample_world sample_committed) as Hs by (eapply rtc_l; [exact K1|eapply rtc_l; [exact K2|apply rtc_refl]]).
  pose proof (proj1 (starts_stands _ _ sample_starts)) as Hst. split; [exact (conj Hst Hs)|].
  destruct (wanted_counts_changes sample_world sample_committed sample_abstract Hst Hs) as (b & Hb & _ & Heq). exists b.
  split; [exact Hb|]. intros E. destruct (Heq E) as (Hsrc & _). destruct Hb as [[Hr _] _]. destruct Hr as (_ & _ & _ & _ & _ & Hrows & _).
  rewrite Hsrc in Hrows. revert Hrows. vm_compute. discriminate.
Defined.

(** C12. No update is lost.  At any point of any history, if committing a held capture
    answers with a row, then the namespace and the row at the capture's locator were still
    exactly those the capture saw, even when sources were removed and registered again in
    between; otherwise the answer is an error.  The identities drawn are assumed distinct,
    and a capture is spent by one commit. *)
Theorem no_lost_update `{SelectionJson} {D : Type} `{Redb D} (s s' : world (D := D)) (a : abstract) capture d0 file object w record d' w' :
  starts s a -> rtc step s s' -> (capture, d0) ∈ captures s' -> content_ok file object ->
  forall commit, commit = writer_commit \/ commit = path_commit ->
  commit (database s') capture file object w = ((Ok record, d'), w') ->
  exists c0 c, represents d0 c0 /\ represents (database s') c /\ namespace c = namespace c0 /\
    locate c (source_capture_locator capture) = locate c0 (source_capture_locator capture).
Proof.
  intros Hs Hsteps Hin Hcontent commit Hcommit Hrun. destruct (starts_stands s a Hs) as [Hst Ht].
  destruct (steps_move s s' a Hsteps Hst) as (b & [[Hr Hp] Hcaps] & _ & Htr). specialize (Htr Ht) as (_ & _ & _ & Htr).
  rewrite Forall_forall in Hcaps, Htr. specialize (Hcaps _ Hin). destruct (Htr _ Hin) as (_ & c0 & Hr0 & Hrem & Hrow). cbn in *.
  pose proof (represents_wf _ _ Hr) as Hwf. exists c0, (rows b). split; [done|]. split; [done|].
  assert (exists c', represents d' c' /\ answered (commit_spec (rows b) capture file object) (rows b) (Ok record) c' w)
    as (c' & _ & next & Hspec & _).
  { destruct Hcommit as [-> | -> ]; [pose proof (writer_commit_outcome _ _ capture file object w Hr Hcaps Hcontent) as Ho
      |pose proof (path_commit_outcome _ _ capture file object w Hr Hcaps Hcontent) as Ho]; by rewrite Hrun in Ho. }
  apply bind_ok_inv in Hspec as ([row reg] & Hrev & _).
  destruct (revisions_cases _ capture row reg Hwf Hrev) as (Hns & _ & _ & Hcases). destruct Hrem as [Hrns Hrem].
  split; [congruence|]. destruct (locate c0 (source_capture_locator capture)) as [r0|] eqn:Hl0.
  - destruct Hrem as [He Hid]. destruct Hcases as [(He' & _)|(cur & He' & Hl & Hcur & _)]; [congruence|].
    destruct (Hrow r0 eq_refl) as [_ Hrev0]. rewrite Hid in Hcur. destruct (Hrev0 cur Hcur) as [->|?]; [done|].
    rewrite He in He'. injection He' as E. lia.
  - destruct Hcases as [(_ & _ & _ & Hl & _)|(cur & He' & _)]; [done|congruence].
Qed.

Lemma no_lost_update_witness :
  (starts sample_world sample_abstract /\ rtc step sample_world sample_captured /\
   (sample_capture, empty_store) ∈ captures sample_captured /\ content_ok sample_file sample_object) /\
  exists d' w', writer_commit empty_store sample_capture sample_file sample_object [] = ((Ok sample_record, d'), w') /\
  exists c0 c, represents empty_store c0 /\ represents empty_store c /\ locate c sample_locator = locate c0 sample_locator.
Proof.
  pose proof sample_steps as [K1 _]. assert (rtc step sample_world sample_captured) as Hs by (eapply rtc_l; [exact K1|apply rtc_refl]).
  assert ((sample_capture, empty_store) ∈ captures sample_captured) as Hin by left.
  split; [exact (conj sample_starts (conj Hs (conj Hin sample_content)))|].
  assert (fst (fst (writer_commit empty_store sample_capture sample_file sample_object [])) = Ok sample_record) as E
    by (vm_compute; reflexivity).
  destruct (writer_commit empty_store sample_capture sample_file sample_object []) as [[answer d'] w'] eqn:Hrun.
  cbn in E. subst answer. exists d', w'. split; [reflexivity|].
  destruct (no_lost_update sample_world sample_captured sample_abstract sample_capture empty_store sample_file sample_object [] sample_record d' w'
    sample_starts Hs Hin sample_content writer_commit (or_introl eq_refl) Hrun) as (c0 & c & Hc0 & Hc & _ & Hl).
  exists c0, c. exact (conj Hc0 (conj Hc Hl)).
Defined.

(** ** Progress *)

(** Committing a fresh capture against the corpus it was taken from. *)
Lemma commit_captured c path rn rs file digest n :
  corpus_wf c -> sources c !! rs = None -> 0 < len path <= MAX_LOCATOR_BYTES -> wanted c < U64_MAX ->
  (forall r, locate c path = Some r -> row_revision r < U64_MAX) ->
  exists record next, commit_spec c (capture_spec c path rn rs) file (source_ref digest n) = Ok (record, next) /\
    locator record = path /\ object_ref record = source_ref digest n /\ file_key record = file /\
    source_id record = match locate c path with Some r => source_id r | None => rs end.
Proof.
  intros Hwf Hrs Hlen Hw Hrev. pose proof Hwf as (_ & Hwanted & Hrow & _).
  set (cap := capture_spec c path rn rs).
  assert (source_capture_locator cap = path /\ expected_namespace cap = namespace c /\
    source_capture_id cap = match locate c path with Some r => source_id r | None => rs end /\
    match locate c path with
    | Some r => expected_row_revision cap = Some (row_revision r) /\ expected_registration_revision cap = Some (registration_revision r)
        /\ source_capture_namespace cap = source_namespace_id r
    | None => expected_row_revision cap = None /\ expected_registration_revision cap = None end) as (Hpath & Hns & Hid & Hexp).
  { unfold cap, capture_spec. destruct (namespace c) as [nm|] eqn:Hn.
    - destruct (locate c path) as [r|] eqn:Hl; cbn; [|done]. apply locate_spec in Hl as [Hs _]; [|done].
      destruct (Hrow _ _ Hs) as (_ & E & _). split_and!; try done. congruence.
    - assert (locate c path = None) as ->; [|done]. apply locate_none; [done|]. intros id r Hs.
      destruct (Hrow _ _ Hs) as (_ & ? & _). congruence. }
  assert (exists row reg, revisions_spec c cap = Ok (row, reg) /\ row <> 0 /\ reg <> 0) as (row & reg & Hspec & Hrow0 & Hreg0).
  { unfold revisions_spec. rewrite Hns, (bool_decide_true (namespace c = namespace c)), Hpath, Hid by done. cbn [negb reject_if mbind result_bind].
    destruct (locate c path) as [r|] eqn:Hl.
    - destruct Hexp as (-> & -> & ->). rewrite !bool_decide_true, !Z.eqb_refl by done. cbn [negb orb reject_if mbind result_bind].
      apply locate_spec in Hl as [Hs _]; [|done]. destruct (Hrow _ _ Hs) as (_ & _ & HW & (? & ? & _) & _).
      destruct HW as (_ & _ & ? & _). specialize (Hrev r eq_refl).
      rewrite checked_add_some by lia. exists (row_revision r + 1), (registration_revision r). split; [done|]. split; [lia|done].
    - destruct Hexp as [-> ->]. rewrite Hrs, bool_decide_false by (by intros [? ?]). exists 1, 1. by split_and!. }
  unfold commit_spec. rewrite Hspec. cbn [mbind result_bind].
  destruct (unchanged c cap file (source_ref digest n)) as [cur|] eqn:Hun.
  - unfold unchanged in Hun. rewrite Hid in Hun. destruct (locate c path) as [r|] eqn:Hl.
    + destruct Hexp as (He & _). rewrite He in Hun. apply locate_spec in Hl as [Hs Hloc]; [|done]. rewrite Hs in Hun. cbn in Hun.
      destruct (bool_decide _) eqn:B1; [|done]. destruct (bool_decide (file_key r = file)) eqn:B2; [|done]. injection Hun as <-. to_prop.
      exists r, None. by split_and!.
    + destruct Hexp as (He & _). by rewrite He in Hun.
  - assert (encodable (committed_row cap file (source_ref digest n) row reg)) as Henc.
    { unfold encodable. cbn. rewrite Hpath. split_and!; try done; lia. }
    rewrite (proj2 (encode_record_ok _ _) (conj Henc eq_refl)). cbn [mbind result_bind]. rewrite checked_add_some by lia.
    eexists _, _. split; [reflexivity|]. by split_and!.
Qed.

(** C13. Retrying makes progress.  Undisturbed, a capture of an absolute path followed by
    the commit of an object under it succeeds, whatever happened before: the row it
    answers has that locator, object and file key, under the identity already registered
    at the locator or else the newly drawn one.  Only an exhausted revision, or a drawn
    identity that is already taken, can refuse it. *)
Theorem retry_succeeds {D} `{Redb D} (d : D) (c : corpus) path rn rs file digest n w :
  represents d c -> bytes_ok path -> is_absolute path = true -> len path <= MAX_LOCATOR_BYTES ->
  Uuid.wf rn -> Uuid.wf rs -> content_ok file (source_ref digest n) -> calm w ->
  sources c !! rs = None -> wanted c < U64_MAX ->
  (forall r, locate c path = Some r -> row_revision r < U64_MAX) ->
  exists capture w1 record d' w2,
    capture_current_source d path rn rs w = (Ok capture, w1) /\
    writer_commit d capture file (source_ref digest n) w1 = ((Ok record, d'), w2) /\
    locator record = path /\ object_ref record = source_ref digest n /\ file_key record = file /\
    source_id record = match locate c path with Some r => source_id r | None => rs end.
Proof.
  intros Hr Hb Habs Hlen Hrn Hrs Hcontent Hw Hfresh Hwanted Hrev. pose proof (represents_wf _ _ Hr) as Hwf.
  assert (0 < len path) as Hpos by (destruct path; [done|]; unfold len; cbn; lia).
  destruct (commit_captured c path rn rs file digest n Hwf Hfresh (conj Hpos Hlen) Hwanted Hrev) as (record & next & Hspec & Hrec).
  assert (refines (capture_current_source d path rn rs) (Ok (capture_spec c path rn rs))) as Hcap.
  { unfold capture_current_source, source_locator_bytes. rewrite Habs.
    is_false (len path =? 0). is_false (MAX_LOCATOR_BYTES <? len path). cbn [negb orb reject_if mbind result_bind].
    rewrite lift_ok_bind. by apply capture_refines. }
  destruct (Hcap w) as [_ Hcalm]. specialize (Hcalm Hw) as [Hrun Hw1]. unfold run in Hrun.
  destruct (capture_current_source d path rn rs w) as [o w1]. cbn in Hrun, Hw1. subst o.
  pose proof (writer_commit_outcome d c (capture_spec c path rn rs) file (source_ref digest n) w1 Hr
    (capture_spec_wf c path rn rs Hwf Hb (conj Hpos Hlen) Hrn Hrs) Hcontent) as Ho.
  destruct (writer_commit d (capture_spec c path rn rs) file (source_ref digest n) w1) as [[answer d'] w2] eqn:Hcommit.
  destruct Ho as (c' & _ & Ha). rewrite Hspec in Ha. destruct answer as [record'|e]; cbn in Ha.
  - destruct Ha as (next' & [= <- <-] & _). by exists (capture_spec c path rn rs), w1, record, d', w2.
  - destruct Ha as [[? _]|[Hc _]]; [done|by destruct Hc].
Qed.

Lemma retry_succeeds_witness :
  represents sample_store sample_corpus /\ (forall r, locate sample_corpus sample_locator = Some r -> row_revision r < U64_MAX) /\
  exists capture w1 record d' w2,
    capture_current_source sample_store sample_locator sample_namespace (repeat 3 16) [] = (Ok capture, w1) /\
    writer_commit sample_store capture sample_file (source_ref (repeat 4 32) 6) w1 = ((Ok record, d'), w2) /\ source_id record = sample_id.
Proof.
  assert (locate sample_corpus sample_locator = Some sample_record) as Hl by (vm_compute; reflexivity).
  assert (forall r, locate sample_corpus sample_locator = Some r -> row_revision r < U64_MAX) as Hrev.
  { intros r Hr. rewrite Hl in Hr. injection Hr as <-. vm_compute. reflexivity. }
  split; [exact sample_represents|]. split; [exact Hrev|].
  assert (Uuid.wf sample_namespace /\ Uuid.wf (repeat 3 16)) as [Hn Hs].
  { split; (split; [reflexivity|apply (bool_decide_eq_true_1 _); vm_compute; reflexivity]). }
  assert (bytes_ok sample_locator) as Hb by (apply (bool_decide_eq_true_1 _); vm_compute; reflexivity).
  assert (content_ok sample_file (source_ref (repeat 4 32) 6)) as Hc.
  { unfold content_ok, object_wf, Digest.wf. cbn. unfold SOURCE_OBJECT_FORMAT_VERSION, MAX_SOURCE_OBJECT_BYTES.
    split_and!; try (by apply (bool_decide_eq_true_1 _); vm_compute); try done; width. }
  destruct (retry_succeeds sample_store sample_corpus sample_locator sample_namespace (repeat 3 16) sample_file (repeat 4 32) 6 []
    sample_represents Hb eq_refl ltac:(vm_compute; discriminate) Hn Hs Hc ltac:(constructor) ltac:(vm_compute; reflexivity)
    ltac:(vm_compute; reflexivity) Hrev) as (capture & w1 & record & d' & w2 & K1 & K2 & _ & _ & _ & Hid).
  rewrite Hl in Hid. exists capture, w1, record, d', w2. exact (conj K1 (conj K2 Hid)).
Defined.
