(* ===== verification/PublicationRow.v ===== *)
(** The stored rows of a generation: captured sources, upload pages and point evidence,
    with their bounded encodings (crates/search-control-redb/src/publication.rs for the
    data and the errors, publication/codec.rs for the encodings). *)

From S2P Require Import Prelude Bytes Reader Utf8 Ids Registry SourceRow PreparationRow.

Module PublicationError.
Inductive t : Type :=
  | Unprepared | NotPublished | Stale | Unresolved | Corrupt | UnsupportedSchema | Limit | Allocation
  | Database | Random | Cancelled | Deadline.
#[global] Instance t_eq : EqDecision t.
Proof. solve_decision. Defined.

Definition code (e : t) : list Z :=
  match e with
  | Unprepared => str "PUBLICATION_SOURCE_NOT_PREPARED"
  | NotPublished => str "PUBLICATION_NOT_PUBLISHED"
  | Stale => str "PUBLICATION_STALE"
  | Unresolved => str "PUBLICATION_EFFECT_UNRESOLVED"
  | Corrupt => str "PUBLICATION_CORRUPT"
  | UnsupportedSchema => str "PUBLICATION_SCHEMA_UNSUPPORTED"
  | Limit => str "PUBLICATION_LIMIT"
  | Allocation => str "PUBLICATION_ALLOCATION_FAILED"
  | Database => str "PUBLICATION_CONTROL_IO"
  | Random => str "PUBLICATION_RANDOM_UNAVAILABLE"
  | Cancelled => str "PUBLICATION_CANCELLED"
  | Deadline => str "PUBLICATION_DEADLINE"
  end.
End PublicationError.
Module Pub := PublicationError.

(** [source_error] of publication.rs *)
Definition publication_source_error (e : SourceControlError) : Pub.t :=
  match e with
  | Database => Pub.Database
  | UnsupportedSchema => Pub.UnsupportedSchema
  | Stale => Pub.Stale
  | Deadline => Pub.Deadline
  | Cancelled => Pub.Cancelled
  | RevisionExhausted | InventoryLimit => Pub.Limit
  | RandomUnavailable => Pub.Random
  | Corrupt | InvalidLocator | UnsupportedPlatform => Pub.Corrupt
  end.

(** The failures an environment can cause. *)
#[export] Instance publication_interrupt : Interrupt Pub.t := fun e =>
  e ∈ [Pub.Cancelled; Pub.Deadline; Pub.Database; Pub.Random; Pub.Corrupt; Pub.Allocation; Pub.Limit].
Lemma publication_interrupt_in e :
  bool_decide (e ∈ [Pub.Cancelled; Pub.Deadline; Pub.Database; Pub.Random; Pub.Corrupt; Pub.Allocation; Pub.Limit]) = true ->
  interrupt e.
Proof. apply bool_decide_eq_true_1. Qed.
Lemma publication_cancelled : interrupt Pub.Cancelled. Proof. by apply publication_interrupt_in. Qed.
Lemma publication_deadline : interrupt Pub.Deadline. Proof. by apply publication_interrupt_in. Qed.
Lemma publication_database : interrupt Pub.Database. Proof. by apply publication_interrupt_in. Qed.
Lemma publication_random : interrupt Pub.Random. Proof. by apply publication_interrupt_in. Qed.
Lemma publication_corrupt : interrupt Pub.Corrupt. Proof. by apply publication_interrupt_in. Qed.
Lemma publication_allocation : interrupt Pub.Allocation. Proof. by apply publication_interrupt_in. Qed.
Lemma publication_limit : interrupt Pub.Limit. Proof. by apply publication_interrupt_in. Qed.
#[export] Hint Resolve publication_cancelled publication_deadline publication_database publication_random
  publication_corrupt publication_allocation publication_limit : eliot.

Definition publication_check : M Pub.t unit := check_with Pub.Cancelled Pub.Deadline.

Module PointEvidence.
Record t := {
  source_namespace_id : list Z;
  source_id : list Z;
  input : ObjectRef;
  prepared : ObjectRef;
  unit : Z;
  start : Z;
  stop : Z;
  line_start : Z;
  line_end : Z;
  starts_at_line_boundary : bool;
  ends_at_line_boundary : bool }.
#[global] Instance t_eq : EqDecision t.
Proof. solve_decision. Defined.
End PointEvidence.
Abbreviation PointEvidence := PointEvidence.t.

Record UploadPoint := { point_id : list Z; point_evidence : PointEvidence }.
#[export] Instance UploadPoint_eq : EqDecision UploadPoint.
Proof. solve_decision. Defined.

Record UploadPage := { page_points : list UploadPoint; request_bytes : option Z }.
#[export] Instance UploadPage_eq : EqDecision UploadPage.
Proof. solve_decision. Defined.

Record SourceEntry := { entry_captured : CapturedSource; staged_units : Z; entry_complete : bool }.
#[export] Instance SourceEntry_eq : EqDecision SourceEntry.
Proof. solve_decision. Defined.

(** [ResolvedPoint] *)
Module ResolvedPoint.
Record t := { evidence : PointEvidence; captured : CapturedSource }.
End ResolvedPoint.

(** ** codec.rs *)

Definition MAX_PAGE_BYTES : Z := 1048576.
Definition MAX_PAGE_POINTS : Z := 128.
Definition MAX_TEXT_BYTES : Z := 65536.
Definition PAGE_MAGIC : list Z := str "ELSUPG02".
Definition LEGACY_PAGE_MAGIC : list Z := str "ELSUPG01".
Definition EVIDENCE_BYTES : Z := 160.
Definition MAX_ENTRY_BYTES : Z := 64 * 1024.

(** [Cursor] *)
Definition page_take (size : Z) : P Pub.t (list Z) := dec_take Pub.Corrupt size.
Definition page_uint (n : nat) : P Pub.t Z := dec_uint Pub.Corrupt n.
Definition boolean_of (v : Z) : result Pub.t bool :=
  if v =? 0 then Ok false else if v =? 1 then Ok true else Err Pub.Corrupt.
Definition page_boolean : P Pub.t bool := v ← page_uint 1; of_result (boolean_of v).

(** The size bound of an object in the control tables. *)
Definition object_bound (k : ObjectKind) : Z :=
  match k with Source => MAX_SOURCE_OBJECT_BYTES | Prepared => 64 * 1024 * 1024 end.

Definition page_object (kind : ObjectKind) : P Pub.t ObjectRef :=
  version ← page_uint 2;
  actual_kind ← page_uint 1 ≫= fun v => of_result (ok_or Pub.Corrupt (kind_from_tag v));
  digest ← page_take 32;
  byte_length ← page_uint 8;
  _ ← of_result (reject_if (negb (version =? 1) || negb (bool_decide (actual_kind = kind))
        || (object_bound kind <? byte_length)
        || (bool_decide (kind = Prepared) && (byte_length =? 0))) Pub.Corrupt);
  mret {| format_version := version; kind := kind; digest := digest; byte_length := byte_length |}.

Definition flag_byte (b : bool) : list Z := [if b then 1 else 0].

Definition put_evidence (e : PointEvidence) : list Z :=
  PointEvidence.source_namespace_id e ++ PointEvidence.source_id e
  ++ put_object (PointEvidence.input e) ++ put_object (PointEvidence.prepared e)
  ++ le_bytes 8 (PointEvidence.unit e) ++ le_bytes 8 (PointEvidence.start e) ++ le_bytes 8 (PointEvidence.stop e)
  ++ le_bytes 8 (PointEvidence.line_start e) ++ le_bytes 8 (PointEvidence.line_end e)
  ++ flag_byte (PointEvidence.starts_at_line_boundary e) ++ flag_byte (PointEvidence.ends_at_line_boundary e).

Definition validate_evidence (e : PointEvidence) : result Pub.t unit :=
  reject_if (negb (format_version (PointEvidence.input e) =? 1)
    || negb (bool_decide (kind (PointEvidence.input e) = Source))
    || (MAX_SOURCE_OBJECT_BYTES <? byte_length (PointEvidence.input e))
    || negb (format_version (PointEvidence.prepared e) =? 1)
    || negb (bool_decide (kind (PointEvidence.prepared e) = Prepared))
    || (byte_length (PointEvidence.prepared e) =? 0)
    || (64 * 1024 * 1024 <? byte_length (PointEvidence.prepared e))
    || (PointEvidence.stop e <=? PointEvidence.start e)
    || (byte_length (PointEvidence.input e) <? PointEvidence.stop e)
    || (MAX_TEXT_BYTES <? PointEvidence.stop e - PointEvidence.start e)
    || (PointEvidence.line_end e <=? PointEvidence.line_start e)) Pub.Corrupt.

Definition page_evidence : P Pub.t PointEvidence :=
  namespace ← page_take 16; id ← page_take 16;
  input ← page_object Source; prepared ← page_object Prepared;
  unit ← page_uint 8; start ← page_uint 8; stop ← page_uint 8;
  line_start ← page_uint 8; line_end ← page_uint 8;
  starts ← page_boolean; ends ← page_boolean;
  let e := {| PointEvidence.source_namespace_id := namespace; PointEvidence.source_id := id;
    PointEvidence.input := input; PointEvidence.prepared := prepared; PointEvidence.unit := unit;
    PointEvidence.start := start; PointEvidence.stop := stop; PointEvidence.line_start := line_start;
    PointEvidence.line_end := line_end; PointEvidence.starts_at_line_boundary := starts;
    PointEvidence.ends_at_line_boundary := ends |} in
  _ ← of_result (validate_evidence e);
  mret e.

Definition encode_evidence (e : PointEvidence) : list Z := put_evidence e.

Definition decode_evidence (bytes : list Z) : result Pub.t PointEvidence :=
  _ ← reject_if (negb (len bytes =? EVIDENCE_BYTES)) Pub.Corrupt;
  read ← page_evidence (Reader bytes 0);
  let '(e, cursor) := read in
  _ ← reject_if (negb (at_end cursor)) Pub.Corrupt;
  Ok e.

(** [page_size]: the loop over the points, then the guard on their number around it. *)
Fixpoint points_size (points : list UploadPoint) (size : Z) : result Pub.t Z :=
  match points with
  | [] => Ok size
  | point :: points =>
      _ ← validate_evidence (point_evidence point);
      size ← ok_or Pub.Limit (checked_add USIZE_MAX size (16 + EVIDENCE_BYTES));
      _ ← reject_if (MAX_PAGE_BYTES <? size) Pub.Limit;
      points_size points size
  end.
Definition page_size (page : UploadPage) : result Pub.t Z :=
  _ ← reject_if (bool_decide (page_points page = []) || (MAX_PAGE_POINTS <? len (page_points page))) Pub.Limit;
  points_size (page_points page) 20.

Definition put_point (point : UploadPoint) : list Z := point_id point ++ put_evidence (point_evidence point).

Definition encode_page (page : UploadPage) : M Pub.t (list Z) :=
  size ← lift (page_size page);
  request ← lift (ok_or Pub.Corrupt
    (option_keep (fun n => (0 <? n) && (n <=? MAX_PAGE_BYTES)) (request_bytes page)));
  _ ← reserve_with Pub.Allocation;
  count ← lift (ok_or Pub.Limit (try_from U16_MAX (len (page_points page))));
  mret (PAGE_MAGIC ++ le_bytes 2 2 ++ le_bytes 2 count ++ le_bytes 8 request
        ++ (page_points page ≫= put_point)).

(** The saved text of a version-one point: its length and framing are checked and the text
    discarded. *)
Definition legacy_text (evidence : PointEvidence) : P Pub.t unit :=
  size ← page_uint 4 ≫= fun v => of_result (ok_or Pub.Corrupt (try_from USIZE_MAX v));
  _ ← of_result (reject_if ((MAX_TEXT_BYTES <? size)
        || negb (size =? PointEvidence.stop evidence - PointEvidence.start evidence)) Pub.Corrupt);
  text ← page_take size;
  of_result (reject_if (negb (utf8_valid text)) Pub.Corrupt).

Fixpoint read_points (legacy : bool) (count : nat) : P Pub.t (list UploadPoint) :=
  match count with
  | O => mret []
  | S count =>
      id ← page_take 16;
      evidence ← page_evidence;
      _ ← (if legacy then legacy_text evidence else mret tt);
      points ← read_points legacy count;
      mret ({| point_id := id; point_evidence := evidence |} :: points)
  end.

(** What stands before the points: the format, the number of points and, in version two,
    the measured request size. *)
Definition page_header : P Pub.t (bool * (Z * option Z)) :=
  magic ← page_take 8;
  version ← page_uint 2;
  let legacy := bool_decide (magic = LEGACY_PAGE_MAGIC) && (version =? 1) in
  _ ← of_result (reject_if (negb (legacy || (bool_decide (magic = PAGE_MAGIC) && (version =? 2)))) Pub.Corrupt);
  count ← page_uint 2;
  _ ← of_result (reject_if ((count =? 0) || (MAX_PAGE_POINTS <? count)) Pub.Corrupt);
  request ← (if legacy then mret None else
    size ← page_uint 8;
    _ ← of_result (reject_if ((size =? 0) || (MAX_PAGE_BYTES <? size)) Pub.Corrupt);
    mret (Some size));
  mret (legacy, (count, request)).

Definition decode_page (bytes : list Z) : M Pub.t UploadPage :=
  _ ← lift (reject_if (MAX_PAGE_BYTES <? len bytes) Pub.Corrupt);
  header ← lift (page_header (Reader bytes 0));
  let '((legacy, (count, request)), cursor) := header in
  _ ← reserve_with Pub.Allocation;
  read ← lift (read_points legacy (Z.to_nat count) cursor);
  let '(points, cursor) := read in
  _ ← lift (reject_if (negb (at_end cursor)) Pub.Corrupt);
  let page := {| page_points := points; request_bytes := request |} in
  if (legacy : bool) then mret page
  else
    size ← lift (page_size page);
    _ ← lift (reject_if (negb (size =? len bytes)) Pub.Corrupt);
    mret page.

Definition entry_bytes (source prep : list Z) (entry : SourceEntry) : list Z :=
  le_bytes 4 (len source) ++ source ++ le_bytes 4 (len prep) ++ prep
  ++ le_bytes 8 (staged_units entry) ++ flag_byte (entry_complete entry).

Definition encode_source (entry : SourceEntry) : M Pub.t (list Z) :=
  source ← lift (map_err publication_source_error (encode_record (captured_source (entry_captured entry))));
  prep ← lift (map_err (fun _ => Pub.Corrupt) (encode_preparation (captured_preparation (entry_captured entry))));
  size ← lift (ok_or Pub.Limit (checked_add USIZE_MAX 8 (len source) ≫= fun n =>
    checked_add USIZE_MAX n (len prep) ≫= fun n => checked_add USIZE_MAX n 9));
  _ ← lift (reject_if (MAX_ENTRY_BYTES <? size) Pub.Limit);
  _ ← reserve_with Pub.Allocation;
  _ ← lift (ok_or Pub.Limit (try_from U32_MAX (len source)));
  _ ← lift (ok_or Pub.Limit (try_from U32_MAX (len prep)));
  mret (entry_bytes source prep entry).

(** The fields of an entry and the end of its bytes. *)
Definition read_entry : P Pub.t SourceEntry :=
  source_size ← page_uint 4 ≫= fun v => of_result (ok_or Pub.Corrupt (try_from USIZE_MAX v));
  source ← page_take source_size ≫= fun bytes => of_result (map_err publication_source_error (decode_record bytes));
  prep_size ← page_uint 4 ≫= fun v => of_result (ok_or Pub.Corrupt (try_from USIZE_MAX v));
  preparation ← page_take prep_size ≫= fun bytes => of_result (map_err (fun _ => Pub.Corrupt) (decode_preparation bytes));
  units ← page_uint 8;
  complete ← page_boolean;
  mret {| entry_captured := {| captured_source := source; captured_preparation := preparation |};
          staged_units := units; entry_complete := complete |}.

(** The binding of the two rows of a captured source. *)
Definition captured_matches (c : CapturedSource) : bool :=
  bool_decide (source_id (captured_source c) = prep_source_id (captured_preparation c))
  && bool_decide (source_namespace_id (captured_source c) = prep_namespace (captured_preparation c))
  && match current_outcome (captured_preparation c) with
     | Some o => matches_input o (captured_source c) (settings (captured_preparation c))
     | None => false
     end.

Definition decode_source (bytes : list Z) : result Pub.t SourceEntry :=
  _ ← reject_if (MAX_ENTRY_BYTES <? len bytes) Pub.Corrupt;
  read ← read_entry (Reader bytes 0);
  let '(entry, cursor) := read in
  _ ← reject_if (negb (at_end cursor)) Pub.Corrupt;
  _ ← reject_if (negb (captured_matches (entry_captured entry))) Pub.Corrupt;
  Ok entry.

(** ** Laws *)

(** Reading ends with a check of the fields read before. *)
Lemma codec_ret_if {E A} (x : result E unit) (v : A) (W : A -> Prop) :
  (forall u, W u <-> x = Ok tt /\ u = v) -> codec (_ ← of_result x; mret v : P E A) (fun _ => []) W.
Proof.
  intros HW. split.
  - intros u [Hx ->]%HW. apply (parses_bind_nil _ _ [] tt v); [by apply parses_of_result|apply parses_ret].
  - eapply accounts_weaken.
    + eapply accounts_bind; [apply accounts_of_result|]. intros u. apply accounts_ret.
    + cbv beta. intros u xs ([] & ys & zs & -> & [Hx ->] & [-> ->]). split; [done|]. by apply HW.
Qed.

Lemma codec_boolean : codec page_boolean flag_byte (fun _ => True).
Proof.
  unfold page_boolean, page_uint, dec_uint.
  eapply codec_ext; [eapply (codec_map (fun b : bool => if b then 1 else 0) _ _ (le_bytes 1)); [apply codec_uint| |]|].
  - intros b _. split; [destruct b; cbn; lia|by destruct b].
  - intros v b _. unfold boolean_of. destruct (Z.eqb_spec v 0) as [->|]; [by intros [= <-]|].
    destruct (Z.eqb_spec v 1) as [->|]; [by intros [= <-]|done].
  - intros b _. by destruct b.
Qed.

Definition object_valid (k : ObjectKind) (o : ObjectRef) : Prop :=
  object_wf o /\ format_version o = 1 /\ kind o = k /\ byte_length o <= object_bound k /\
  (k = Prepared -> byte_length o <> 0).

Lemma codec_page_object k : codec (page_object k) put_object (object_valid k).
Proof.
  unfold page_object, put_object, object_valid, object_wf, Digest.wf, page_uint, page_take, dec_uint, dec_take. eapply codec_ext.
  - eapply (codec_bind format_version); [apply codec_uint|intros ? ?; cbv beta in *; width|intros v Hv].
    eapply (codec_bind kind); [apply codec_kind|done|intros k' _].
    eapply (codec_bind digest); [by apply codec_bytes| |intros d Hd].
    { intros o H. unfold len. split; [lia|tauto]. }
    eapply (codec_bind byte_length); [apply codec_uint|intros ? ?; cbv beta in *; width|intros n Hn].
    apply codec_ret_if. intros [fv' k2 d' n']. unfold len in *. cbn. split.
    + intros H. decompose record H. subst. split; [|done]. rewrite reject_if_false; [done|]. solve_bool.
      case_bool_decide; cbn; [apply Z.eqb_neq; auto|done].
    + intros [Hx [= -> -> -> ->]]. apply reject_if_ok in Hx. to_prop. subst.
      split_and!; try tauto; try width. intros ->. by apply andb_false_iff in H0 as [?%bool_decide_eq_false_1|?%Z.eqb_neq].
  - intros o _. cbn. by rewrite app_nil_r.
Qed.

(** Widths of the Rust type. *)
Definition evidence_wf (e : PointEvidence) : Prop :=
  Uuid.wf (PointEvidence.source_namespace_id e) /\ Uuid.wf (PointEvidence.source_id e) /\
  object_wf (PointEvidence.input e) /\ object_wf (PointEvidence.prepared e) /\
  0 <= PointEvidence.unit e <= U64_MAX /\ 0 <= PointEvidence.start e <= U64_MAX /\
  0 <= PointEvidence.stop e <= U64_MAX /\ 0 <= PointEvidence.line_start e <= U64_MAX /\
  0 <= PointEvidence.line_end e <= U64_MAX.

Definition evidence_valid (e : PointEvidence) : Prop := evidence_wf e /\ validate_evidence e = Ok tt.

Lemma evidence_objects e :
  evidence_valid e -> object_valid Source (PointEvidence.input e) /\ object_valid Prepared (PointEvidence.prepared e).
Proof.
  intros [HW HV]. apply reject_if_ok in HV. to_prop. unfold evidence_wf in HW. unfold object_valid, object_bound.
  split_and!; try done; try lia; tauto.
Qed.

Lemma codec_evidence : codec page_evidence put_evidence evidence_valid.
Proof.
  unfold page_evidence, put_evidence, page_uint, page_take, dec_uint, dec_take. eapply codec_ext.
  - eapply (codec_bind PointEvidence.source_namespace_id); [by apply codec_bytes|unfold evidence_valid, evidence_wf, Uuid.wf, len; split; [lia|tauto]|intros ns Hns].
    eapply (codec_bind PointEvidence.source_id); [by apply codec_bytes|unfold evidence_valid, evidence_wf, Uuid.wf, len; split; [lia|tauto]|intros id Hid].
    eapply (codec_bind PointEvidence.input); [apply codec_page_object|intros e H; by apply evidence_objects, H|intros i Hi].
    eapply (codec_bind PointEvidence.prepared); [apply codec_page_object|intros e H; by apply evidence_objects, H|intros p Hp].
    eapply (codec_bind PointEvidence.unit); [apply codec_uint|unfold evidence_valid, evidence_wf; intros; width|intros u Hu].
    eapply (codec_bind PointEvidence.start); [apply codec_uint|unfold evidence_valid, evidence_wf; intros; width|intros s Hs].
    eapply (codec_bind PointEvidence.stop); [apply codec_uint|unfold evidence_valid, evidence_wf; intros; width|intros t Ht].
    eapply (codec_bind PointEvidence.line_start); [apply codec_uint|unfold evidence_valid, evidence_wf; intros; width|intros ls Hls].
    eapply (codec_bind PointEvidence.line_end); [apply codec_uint|unfold evidence_valid, evidence_wf; intros; width|intros le Hle].
    eapply (codec_bind PointEvidence.starts_at_line_boundary); [apply codec_boolean|done|intros b1 _].
    eapply (codec_bind PointEvidence.ends_at_line_boundary); [apply codec_boolean|done|intros b2 _].
    apply codec_ret_if. intros e. split.
    + intros H. decompose record H. destruct e. cbn in *. subst. split; [|done]. by match goal with H : evidence_valid _ |- _ => destruct H end.
    + intros [Hv ->]. cbn. split_and!; try done. split; [|done]. unfold evidence_wf, Uuid.wf, object_valid, len in *. cbn.
      split_and!; try tauto; width.
  - intros e _. cbn. by rewrite ?app_nil_r.
Qed.

(** A check between two fields. *)
Lemma codec_check {E A} (x : result E unit) (k : unit -> P E A) enc (W : A -> Prop) :
  (forall b, W b -> x = Ok tt) -> (x = Ok tt -> codec (k tt) enc W) -> codec (of_result x ≫= k) enc W.
Proof.
  intros Hx Hk. split.
  - intros v Hv. pose proof (Hx v Hv) as E0. apply (parses_bind_nil _ _ _ tt v); [by apply parses_of_result|].
    by apply (codec_parses _ _ _ (Hk E0)).
  - intros r s v r' Hr Hs Ht. destruct x as [[]|e]; [|done]. by apply (codec_accounts _ _ _ (Hk eq_refl) r s v r').
Qed.

(** A codec for the same values, described differently. *)
Lemma codec_weaken {E A} (p : P E A) enc (W V : A -> Prop) :
  codec p enc V -> (forall v, W v <-> V v) -> codec p enc W.
Proof.
  intros [Hp Ha] He. split; [intros v Hv%He; by apply Hp|].
  eapply accounts_weaken; [exact Ha|]. cbv beta. intros v xs [-> ?]. split; [done|]. by apply He.
Qed.

(** ** Pages *)

Definition point_valid (p : UploadPoint) : Prop :=
  len (point_id p) = 16 /\ bytes_ok (point_id p) /\ evidence_valid (point_evidence p).

(** What follows a point: the saved text of version one, nothing in version two. *)
Definition text_bytes (legacy : bool) (p : UploadPoint) (bytes : list Z) : Prop :=
  if legacy then exists text, bytes = le_bytes 4 (len text) ++ text /\ utf8_valid text = true /\
    len text = PointEvidence.stop (point_evidence p) - PointEvidence.start (point_evidence p)
  else bytes = [].
Fixpoint points_bytes (legacy : bool) (points : list UploadPoint) (bytes : list Z) : Prop :=
  match points with
  | [] => bytes = []
  | p :: points => exists text rest, bytes = put_point p ++ text ++ rest /\
      text_bytes legacy p text /\ points_bytes legacy points rest
  end.

Lemma points_bytes_current points bytes : points_bytes false points bytes <-> bytes = points ≫= put_point.
Proof.
  revert bytes. induction points as [|p points IH]; intros bytes; cbn; [done|]. split.
  - intros (text & rest & -> & -> & ->%IH). done.
  - intros ->. exists [], (points ≫= put_point). by split_and!; [| |apply IH].
Qed.

Lemma evidence_text e : evidence_valid e -> 0 < PointEvidence.stop e - PointEvidence.start e <= MAX_TEXT_BYTES.
Proof. intros [_ H]. apply reject_if_ok in H. to_prop. lia. Qed.

Lemma parses_text legacy p bytes :
  evidence_valid (point_evidence p) -> text_bytes legacy p bytes ->
  parses (if legacy then legacy_text (point_evidence p) else mret tt) bytes tt.
Proof.
  intros Hv%evidence_text. destruct legacy; cbn; [|intros ->; apply parses_ret]. intros (text & -> & Hu & Hl).
  unfold legacy_text, page_uint, page_take, dec_uint, dec_take. unfold MAX_TEXT_BYTES in *.
  eapply parses_bind; [apply (codec_parses _ _ _ (codec_usize32 Pub.Corrupt)); width|].
  eapply parses_bind_nil; [apply parses_of_result, reject_if_false; unfold MAX_TEXT_BYTES; solve_bool|].
  eapply parses_last; [by apply parses_take|]. apply parses_of_result. by rewrite Hu.
Qed.

Lemma parses_points legacy points bytes :
  Forall point_valid points -> points_bytes legacy points bytes ->
  parses (read_points legacy (length points)) bytes points.
Proof.
  intros Hv. revert bytes. induction Hv as [|p points (Hi & Hb & He) Hv IH]; intros bytes; cbn [points_bytes length read_points].
  - intros ->. apply parses_ret.
  - intros (text & rest & -> & Ht & Hr). unfold put_point. rewrite <- !(assoc_L (++)).
    eapply parses_bind; [by apply parses_take|]. eapply parses_bind; [by apply (codec_parses _ _ _ codec_evidence)|].
    eapply parses_bind; [by apply parses_text|]. eapply parses_last; [by apply IH|]. destruct p. apply parses_ret.
Qed.

Lemma accounts_take_any {E} (o e : E) n : accounts (take_bytes o e n) (fun v xs => v = xs /\ len v = n).
Proof.
  destruct (decide (0 <= n)) as [Hn|Hn]; [by apply accounts_take|]. intros r s v r' _ _. unfold take_bytes.
  destruct (checked_add _ _ _) eqn:Hc; [|done]. apply checked_add_inv in Hc as [-> _].
  destruct (slice _ _ _) as [x|] eqn:Hx; [|done]. apply slice_length in Hx. pose proof (len_nonneg x). lia.
Qed.

Lemma accounts_text (legacy : bool) e :
  accounts (if legacy then legacy_text e else mret tt) (fun _ bytes => forall id, text_bytes legacy {| point_id := id; point_evidence := e |} bytes).
Proof.
  destruct legacy; cbn; [|eapply accounts_weaken; [apply accounts_ret|by intros v xs [_ ->]]].
  unfold legacy_text. eapply accounts_weaken.
  - eapply accounts_bind; [apply (codec_accounts _ _ _ (codec_usize32 Pub.Corrupt))|]. intros size.
    eapply accounts_bind; [apply accounts_of_result|]. intros u.
    eapply accounts_bind; [apply (accounts_take_any Pub.Corrupt Pub.Corrupt size)|]. intros text. apply accounts_of_result.
  - cbv beta. intros _ xs (size & ys & zs & -> & [-> Hsz] & [] & ? & zs' & -> & [Hg%reject_if_ok ->] & text & ? & ? & -> & [-> Hl] & [Hu%reject_if_ok ->]) id.
    to_prop. eexists. rewrite app_nil_r. subst size. split_and!; [by rewrite Hl|done|done].
Qed.

Lemma accounts_points legacy n :
  accounts (read_points legacy n) (fun points xs => length points = n /\ Forall point_valid points /\ points_bytes legacy points xs).
Proof.
  induction n as [|n IH]; cbn [read_points].
  - eapply accounts_weaken; [apply accounts_ret|]. by intros v xs [-> ->].
  - eapply accounts_weaken.
    + eapply accounts_bind; [by apply (codec_accounts _ _ _ (codec_bytes Pub.Corrupt Pub.Corrupt 16 ltac:(lia)))|]. intros id.
      eapply accounts_bind; [apply (codec_accounts _ _ _ codec_evidence)|]. intros e.
      eapply accounts_bind; [apply (accounts_text legacy e)|]. intros u.
      eapply accounts_bind; [apply IH|]. intros points. apply accounts_ret.
    + cbv beta. intros v xs (id & ? & ? & -> & [-> [Hid Hok]] & e & ? & ? & -> & [-> He] & [] & text & ? & -> & Ht & points & rest & ? & -> & (Hn & Hp & Hrest) & -> & ->).
      cbn [length points_bytes]. split_and!; [by rewrite Hn|by constructor|].
      exists text, rest. unfold put_point. cbn [point_id point_evidence]. rewrite app_nil_r, <- !(assoc_L (++)). by split_and!.
Qed.

(** The header of a page, and what it may say. *)
Definition header_bytes (h : bool * (Z * option Z)) : list Z :=
  (if fst h then LEGACY_PAGE_MAGIC else PAGE_MAGIC) ++ le_bytes 2 (if fst h then 1 else 2)
  ++ le_bytes 2 (fst (snd h)) ++ match snd (snd h) with Some n => le_bytes 8 n | None => [] end.
Definition header_valid (h : bool * (Z * option Z)) : Prop :=
  0 < fst (snd h) <= MAX_PAGE_POINTS /\
  if fst h then snd (snd h) = None else exists n, snd (snd h) = Some n /\ 0 < n <= MAX_PAGE_BYTES.

Lemma codec_request (legacy : bool) count :
  0 < count <= MAX_PAGE_POINTS ->
  codec (request ← (if legacy then mret None else
      size ← page_uint 8;
      _ ← of_result (reject_if ((size =? 0) || (MAX_PAGE_BYTES <? size)) Pub.Corrupt);
      mret (Some size));
    mret (legacy, (count, request)))
    (fun h => match snd (snd h) with Some n => le_bytes 8 n | None => [] end)
    (fun h => (header_valid h /\ fst h = legacy) /\ fst (snd h) = count).
Proof.
  intros Hc. destruct legacy.
  - eapply codec_ext; [apply (codec_ret (true, (count, None)))|].
    + intros [l [n r]]. unfold header_valid. cbn. split.
      * intros [[[_ Hr] ->] ->]. cbn in Hr. by rewrite Hr.
      * by intros [= -> -> ->].
    + intros [l [n r]] [[[_ Hr] Hl] _]. cbn in *. subst l. by rewrite Hr.
  - apply (codec_wrap (fun r => (false, (count, r))) _ (fun r => match r with Some n => le_bytes 8 n | None => [] end)
      (fun r => exists n, r = Some n /\ 0 < n <= MAX_PAGE_BYTES)).
    + eapply codec_ext.
      * eapply (codec_bind (fun r => default 0 r) _ _ (le_bytes 8) _ (fun _ => [])); [apply codec_uint| |].
        { intros r (n & -> & Hn). cbn. unfold MAX_PAGE_BYTES in *. width. }
        intros n Hn. apply codec_ret_if. intros r. split.
        -- intros [(m & -> & Hm) Hd]. cbn in Hd. subst. split; [|done]. rewrite reject_if_false; [done|]. solve_bool.
        -- intros [Hx ->]. apply reject_if_ok in Hx. to_prop. split; [|done]. exists n. split; [done|]. width.
      * intros r (n & -> & _). cbn. by rewrite app_nil_r.
    + intros [l [n r]]. unfold header_valid. cbn. split.
      * intros [[[_ Hr] ->] ->]. by exists r.
      * intros (r' & [= -> -> ->] & Hr). cbn. destruct Hr as (m & -> & Hm). split_and!; try done; try lia. by exists m.
    + done.
Qed.

Lemma codec_header : codec page_header header_bytes header_valid.
Proof.
  unfold page_header, header_bytes. eapply codec_ext.
  - eapply (codec_bind (fun h : bool * (Z * option Z) => if fst h then LEGACY_PAGE_MAGIC else PAGE_MAGIC));
      [by apply (codec_take Pub.Corrupt Pub.Corrupt 8)|by intros [[] ?] _|intros magic _].
    eapply (codec_bind (fun h : bool * (Z * option Z) => if fst h then 1 else 2)); [apply codec_uint|intros [[] ?] _; cbn; lia|intros version _].
    cbv zeta. apply codec_check.
    { intros [[] ?] [[_ <-] <-]; reflexivity. }
    intros Hv%reject_if_ok. eapply (codec_bind (fun h : bool * (Z * option Z) => fst (snd h))); [apply codec_uint| |intros count Hcount].
    { intros [l [n r]] [[[Hn _] _] _]. cbn in *. unfold MAX_PAGE_POINTS in *. width. }
    apply codec_check.
    { intros h [[[[Hn _] _] _] <-]. apply reject_if_false. solve_bool. }
    intros Hn%reject_if_ok. to_prop.
    assert (exists legacy : bool, magic = (if legacy then LEGACY_PAGE_MAGIC else PAGE_MAGIC) /\ version = (if legacy then 1 else 2)) as (legacy & -> & ->).
    { apply orb_prop in Hv as [Hv|Hv]; to_prop; [by exists true|by exists false]. }
    replace (bool_decide ((if legacy then LEGACY_PAGE_MAGIC else PAGE_MAGIC) = LEGACY_PAGE_MAGIC) && ((if legacy then 1 else 2) =? 1))
      with legacy by (by destruct legacy).
    eapply codec_ext; [eapply (codec_weaken _ _ _ _ (codec_request legacy count ltac:(width)))|reflexivity].
    intros h. cbv beta. split.
    + intros [[[? Hm] Hver] ?]. split_and!; try done. destruct h as [[] ?], legacy; done.
    + by intros [[? <-] ?].
  - done.
Qed.

(** The bytes of a current page. *)
Definition stored_page (page : UploadPage) : list Z :=
  header_bytes (false, (len (page_points page), request_bytes page)) ++ (page_points page ≫= put_point).
Definition page_valid (page : UploadPage) : Prop :=
  0 < len (page_points page) <= MAX_PAGE_POINTS /\ Forall point_valid (page_points page) /\
  exists n, request_bytes page = Some n /\ 0 < n <= MAX_PAGE_BYTES.

(** A saved version-one page of these points. *)
Definition legacy_page (page : UploadPage) (bytes : list Z) : Prop :=
  request_bytes page = None /\ 0 < len (page_points page) <= MAX_PAGE_POINTS /\ Forall point_valid (page_points page) /\
  len bytes <= MAX_PAGE_BYTES /\
  exists texts, bytes = header_bytes (true, (len (page_points page), None)) ++ texts /\ points_bytes true (page_points page) texts.

Lemma len_put_evidence e : evidence_wf e -> len (put_evidence e) = EVIDENCE_BYTES.
Proof.
  intros ([Hn _] & [Hi _] & Ho & Hp & _). unfold put_evidence. rewrite !len_app, !len_le_bytes, !len_put_object by done.
  unfold flag_byte, len, EVIDENCE_BYTES in *. cbn [length]. lia.
Qed.

Lemma len_put_points points : Forall point_valid points -> len (points ≫= put_point) = 176 * len points.
Proof.
  induction 1 as [|p points (Hi & _ & [He _]) _ IH]; [done|]. cbn [mbind list_bind]. unfold put_point at 1.
  rewrite !len_app, len_put_evidence by done. change (list_bind _ _ put_point points) with (points ≫= put_point).
  rewrite IH, Hi, len_cons. unfold EVIDENCE_BYTES. lia.
Qed.

Lemma points_size_ok points size :
  Forall (fun p => validate_evidence (point_evidence p) = Ok tt) points -> 0 <= size ->
  size + 176 * len points <= MAX_PAGE_BYTES -> points_size points size = Ok (size + 176 * len points).
Proof.
  intros Hv. revert size. induction Hv as [|p points Hp Hv IH]; intros size H0 Hs; cbn [points_size].
  - change (len []) with 0. f_equal. lia.
  - rewrite len_cons in *. pose proof (len_nonneg points). unfold EVIDENCE_BYTES, MAX_PAGE_BYTES in *.
    rewrite Hp. cbn [mbind result_bind]. rewrite checked_add_some by width. cbn [ok_or mbind result_bind].
    is_false (1048576 <? size + (16 + 160)).
    cbn [reject_if mbind result_bind]. rewrite IH by lia. f_equal. lia.
Qed.

Lemma points_size_inv points size n :
  points_size points size = Ok n -> Forall (fun p => validate_evidence (point_evidence p) = Ok tt) points.
Proof.
  revert size. induction points as [|p points IH]; intros size H; cbn [points_size] in H; [constructor|].
  apply bind_ok_inv in H as ([] & Hp & H). apply bind_ok_inv in H as (m & _ & H). apply bind_ok_inv in H as ([] & _ & H).
  constructor; [done|by eapply IH].
Qed.

Lemma points_validate points : Forall point_valid points -> Forall (fun p => validate_evidence (point_evidence p) = Ok tt) points.
Proof. intros Hv. eapply Forall_impl; [exact Hv|]. by intros p (_ & _ & _ & ?). Qed.

Lemma page_size_ok page :
  0 < len (page_points page) <= MAX_PAGE_POINTS -> Forall point_valid (page_points page) ->
  page_size page = Ok (20 + 176 * len (page_points page)).
Proof.
  intros Hl Hv. unfold page_size, MAX_PAGE_POINTS in *.
  rewrite reject_if_false by (solve_bool; intros E; rewrite E in Hl; unfold len in Hl; cbn in Hl; lia). cbn [mbind result_bind].
  apply points_size_ok; [by apply points_validate|lia|unfold MAX_PAGE_BYTES; lia].
Qed.

Lemma encode_page_ok page : page_valid page -> refines (encode_page page) (Ok (stored_page page)).
Proof.
  intros (Hl & Hv & n & Hn & Hb). unfold encode_page. rewrite page_size_ok by done. rewrite lift_ok_bind, Hn.
  cbn [option_keep]. is_true ((0 <? n) && (n <=? MAX_PAGE_BYTES)). cbn [ok_or]. rewrite lift_ok_bind. refine_step; [auto with eliot|].
  unfold MAX_PAGE_POINTS in Hl. rewrite try_from_some by width. cbn [ok_or]. rewrite lift_ok_bind.
  unfold stored_page, header_bytes. cbn [fst snd]. rewrite Hn, <- !(assoc_L (++)). apply refines_ret.
Qed.

(** Widths of the Rust type. *)
Definition point_wf (p : UploadPoint) : Prop := len (point_id p) = 16 /\ bytes_ok (point_id p) /\ evidence_wf (point_evidence p).

Lemma encode_page_inv page w bytes :
  Forall point_wf (page_points page) -> run (encode_page page) w = Ok bytes -> page_valid page.
Proof.
  intros Hwf H. unfold encode_page in H. apply run_lift_ok in H as (size & Hs & H). apply run_lift_ok in H as (n & Hn & _).
  apply ok_or_inv, option_keep_inv in Hn as [Hn Hb]. unfold page_size in Hs. apply bind_ok_inv in Hs as ([] & Hg & Hs).
  apply reject_if_ok in Hg. apply points_size_inv in Hs. to_prop. split_and!.
  - destruct (page_points page); [done|]. rewrite len_cons. pose proof (len_nonneg l). lia.
  - done.
  - apply Forall_forall. intros p Hp. rewrite Forall_forall in Hwf, Hs. destruct (Hwf p Hp) as (? & ? & ?).
    split_and!; try done. split; [done|]. by apply Hs.
  - exists n. split; [done|lia].
Qed.

Lemma decode_page_ok page bytes :
  bytes_ok bytes -> (page_valid page /\ bytes = stored_page page) \/ legacy_page page bytes ->
  refines (decode_page bytes) (Ok page).
Proof.
  intros Hb Hpage.
  assert (exists legacy texts, bytes = header_bytes (legacy, (len (page_points page), request_bytes page)) ++ texts /\
    header_valid (legacy, (len (page_points page), request_bytes page)) /\ Forall point_valid (page_points page) /\
    points_bytes legacy (page_points page) texts /\ len bytes <= MAX_PAGE_BYTES /\
    (legacy = false -> len bytes = 20 + 176 * len (page_points page))) as (legacy & texts & -> & Hh & Hv & Ht & Hl & Hsize).
  { destruct Hpage as [[(Hl & Hv & n & Hn & Hr) ->]|(Hn & Hl & Hv & Hb' & texts & -> & Ht)].
    - exists false, (page_points page ≫= put_point). unfold stored_page.
      assert (len (header_bytes (false, (len (page_points page), request_bytes page))) = 20) as Hhl by (by rewrite Hn).
      rewrite len_app, Hhl, len_put_points by done. unfold MAX_PAGE_POINTS in Hl. split_and!; try done.
      + split; [done|]. by exists n.
      + by apply points_bytes_current.
      + unfold MAX_PAGE_BYTES. lia.
    - exists true, texts. by rewrite Hn. }
  unfold decode_page. is_false (MAX_PAGE_BYTES <? len (header_bytes (legacy, (len (page_points page), request_bytes page)) ++ texts)).
  cbn [reject_if]. rewrite lift_ok_bind. set (bytes := _ ++ texts) in *.
  assert (len bytes <= ISIZE_MAX) as Hi by (unfold MAX_PAGE_BYTES in *; width).
  destruct (codec_parses _ _ _ codec_header _ Hh _ texts (reads_start bytes Hi)) as (r & -> & Hr). rewrite lift_ok_bind. cbn [fst snd].
  refine_step; [auto with eliot|]. rewrite <- (app_nil_r texts) in Hr.
  replace (Z.to_nat (len (page_points page))) with (length (page_points page)) by (unfold len; lia).
  destruct (parses_points legacy _ _ Hv Ht _ _ Hr) as (r' & -> & Hr'). rewrite lift_ok_bind. cbn [fst snd].
  rewrite (reads_at_end _ _ Hr'). cbn [negb reject_if bool_decide]. rewrite bool_decide_true by done. cbn [negb reject_if]. rewrite lift_ok_bind.
  cbv zeta. replace {| page_points := page_points page; request_bytes := request_bytes page |} with page by (by destruct page).
  destruct legacy; [apply refines_ret|]. destruct Hh as [Hn _]. rewrite page_size_ok by done. rewrite lift_ok_bind.
  rewrite Hsize by done. rewrite Z.eqb_refl. apply refines_ret.
Qed.

Lemma decode_page_inv page bytes w :
  bytes_ok bytes -> run (decode_page bytes) w = Ok page ->
  (page_valid page /\ bytes = stored_page page) \/ legacy_page page bytes.
Proof.
  intros Hb H. unfold decode_page in H. apply run_lift_ok in H as ([] & Hl%reject_if_ok & H). to_prop.
  apply run_lift_ok in H as ([[legacy [count request]] r] & Hh & H).
  apply run_bind_ok in H as ([] & w' & _ & H). apply run_lift_ok in H as ([points r'] & Hp & H).
  apply run_lift_ok in H as ([] & He%reject_if_ok & H). to_prop.
  assert (len bytes <= ISIZE_MAX) as Hi by (unfold MAX_PAGE_BYTES in *; width).
  destruct (codec_accounts _ _ _ codec_header _ _ _ _ (reads_start bytes Hi) Hb Hh) as (xs & s & Hbytes & _ & Hr & Hs & -> & HV).
  destruct (accounts_points legacy _ _ _ _ _ Hr Hs Hp) as (texts & s' & -> & _ & Hr' & _ & Hn & Hv & Ht).
  rewrite (reads_at_end _ _ Hr') in He. to_prop. subst s'. rewrite app_nil_r in Hbytes.
  assert (len points = count) as Hcount by (unfold len; destruct HV as [HV _]; cbn in HV; lia).
  destruct HV as [HV Hreq]. cbn [fst snd] in *. destruct legacy.
  - right. injection H as <-. subst request. split_and!; cbn; try done; try lia. exists texts. by rewrite Hcount.
  - left. destruct Hreq as (n & -> & Hreq). cbv zeta in H. apply run_lift_ok in H as (size & _ & H).
    apply run_lift_ok in H as ([] & _ & H). injection H as <-. split; [split_and!; cbn; try done; try lia; by exists n|].
    unfold stored_page. cbn. rewrite Hcount. apply points_bytes_current in Ht as ->. done.
Qed.

(** ** Source entries *)

Definition entry_source (e : SourceEntry) : CurrentSourceRecord := captured_source (entry_captured e).
Definition entry_preparation (e : SourceEntry) : CurrentPreparation := captured_preparation (entry_captured e).

(** The rows of a source that decode. *)
Definition source_valid (r : CurrentSourceRecord) : Prop :=
  record_wf r /\ len (locator r) <= U32_MAX /\ row_revision r <> 0 /\ registration_revision r <> 0 /\
  kind (object_ref r) = Source /\ format_version (object_ref r) = SOURCE_OBJECT_FORMAT_VERSION /\
  byte_length (object_ref r) <= MAX_SOURCE_OBJECT_BYTES.
Definition preparation_valid (row : CurrentPreparation) : Prop := preparation_wf row /\ validate_row row = Ok tt.

Definition source_bytes (r : CurrentSourceRecord) : list Z := 1 :: row_fields r.
Definition stored_entry (e : SourceEntry) : list Z :=
  entry_bytes (source_bytes (entry_source e)) (row_bytes (entry_preparation e)) e.

Lemma source_bytes_ok r : record_wf r -> bytes_ok (source_bytes r) /\ len (source_bytes r) = 113 + len (locator r).
Proof.
  intros ([Ln ?] & [Li ?] & _ & _ & ? & _ & _ & _ & [Ld ?] & _). split.
  - constructor; [unfold is_byte; lia|]. unfold row_fields, bytes_ok. rewrite !Forall_app.
    split_and!; try done; try apply le_bytes_ok; try apply key_to_bytes_ok.
    repeat constructor; destruct (kind (object_ref r)); cbn; lia.
  - unfold source_bytes, row_fields. rewrite len_cons, !len_app, !len_le_bytes.
    assert (len (key_to_bytes (file_key r)) = 17) as -> by (unfold len; by rewrite key_to_bytes_length).
    unfold len in *. rewrite Ln, Li, Ld. cbn [length]. lia.
Qed.

Lemma codec_sized {A E F} (f : list Z -> result F A) (e : F -> E) (o : E) (enc : A -> list Z) (W : A -> Prop) size :
  (forall v, W v -> bytes_ok (enc v)) ->
  (forall v bytes, bytes_ok bytes -> len bytes <= U32_MAX -> f bytes = Ok v <-> W v /\ bytes = enc v) ->
  0 <= size <= U32_MAX ->
  codec (dec_take o size ≫= fun bytes => of_result (map_err e (f bytes))) enc (fun v => W v /\ len (enc v) = size).
Proof.
  intros Hb Hf Hs. eapply (codec_map enc _ _ (fun v => v)); [apply codec_bytes, Hs| |].
  - intros v [Hv Hl]. split; [by auto|]. by rewrite (proj2 (Hf v (enc v) (Hb v Hv) ltac:(lia)) (conj Hv eq_refl)).
  - intros bytes v [Hl Hok] Hr. apply map_err_ok, Hf in Hr as [? ->]; [done|done|lia].
Qed.

Definition entry_readable (e : SourceEntry) : Prop :=
  source_valid (entry_source e) /\ preparation_valid (entry_preparation e) /\
  len (source_bytes (entry_source e)) <= U32_MAX /\ 0 <= staged_units e <= U64_MAX.

Lemma codec_entry : codec read_entry stored_entry entry_readable.
Proof.
  unfold read_entry, page_uint, page_take, dec_uint. eapply codec_ext.
  - eapply (codec_bind (fun e => len (source_bytes (entry_source e)))); [apply codec_usize32| |intros n Hn].
    { intros e (_ & _ & Hl & _). pose proof (len_nonneg (source_bytes (entry_source e))). lia. }
    eapply (codec_bind entry_source _ _ source_bytes); [apply (codec_sized decode_record _ _ source_bytes source_valid n)| |intros s [Hs Hsn]]; [| |exact Hn| |].
    { intros r [Hr _]. by apply source_bytes_ok. }
    { intros r bytes Hb Hl. rewrite decode_record_ok by (done || width). unfold source_valid, source_bytes. naive_solver. }
    { intros e [(Hs & _) <-]. done. }
    eapply (codec_bind (fun e => len (row_bytes (entry_preparation e)))); [apply codec_usize32| |intros m Hm].
    { intros e [[(_ & [Hp _] & _) _] _]. pose proof (row_bytes_len _ Hp). pose proof (len_nonneg (row_bytes (entry_preparation e))). width. }
    eapply (codec_bind entry_preparation _ _ row_bytes); [apply (codec_sized decode_preparation _ _ row_bytes preparation_valid m)| |intros p [Hp Hpm]]; [| |exact Hm| |].
    { intros r [Hr _]. by apply row_bytes_ok. }
    { intros r bytes Hb Hl. rewrite decode_preparation_ok by (done || width). unfold preparation_valid. naive_solver. }
    { intros e [[[(_ & Hp & _) _] _] <-]. done. }
    eapply (codec_bind staged_units); [apply codec_uint| |intros u Hu].
    { unfold entry_readable. intros. width. }
    eapply (codec_bind entry_complete); [apply codec_boolean|done|intros b _].
    apply codec_ret. intros [[s' p'] u' b']. unfold entry_readable, entry_source, entry_preparation in *. cbn. split.
    + intros H. decompose record H. cbn in *. by subst.
    + intros [= -> -> -> ->]. cbn. split_and!; try done; width.
  - intros e _. unfold stored_entry, entry_bytes. by rewrite ?app_nil_r.
Qed.

(** An entry that both directions accept. *)
Definition entry_valid (e : SourceEntry) : Prop :=
  record_wf (entry_source e) /\ encodable (entry_source e) /\ preparation_valid (entry_preparation e) /\
  captured_matches (entry_captured e) = true /\ 0 <= staged_units e <= U64_MAX.

(** The input of a matching outcome is the source's object, so its bound is checked. *)
Lemma captured_bound c :
  validate_row (captured_preparation c) = Ok tt -> captured_matches c = true ->
  byte_length (object_ref (captured_source c)) <= MAX_SOURCE_OBJECT_BYTES.
Proof.
  intros Hv Hm. unfold captured_matches in Hm. to_prop. destruct (current_outcome (captured_preparation c)) as [o|] eqn:Ho; [|done].
  unfold matches_input in *. to_prop. unfold validate_row in Hv. rewrite Ho in Hv.
  apply bind_ok_inv in Hv as ([] & _ & Hv). apply bind_ok_inv in Hv as ([] & Hg & _). apply reject_if_ok in Hg. to_prop.
  match goal with H : valid_object _ _ = true |- _ => unfold valid_object in H end. to_prop.
  match goal with H : _ = (registration_revision _, _, _) |- _ => injection H as _ Hi _ end. rewrite <- Hi.
  match goal with H : _ || (byte_length _ <=? _) = true |- _ => rewrite bool_decide_true in H by done; cbn [negb orb] in H; by apply Z.leb_le end.
Qed.

Lemma entry_valid_readable e : entry_valid e -> entry_readable e /\ len (stored_entry e) <= MAX_ENTRY_BYTES.
Proof.
  intros (Hw & Hen & [Hp Hv] & Hm & Hu). destruct (source_bytes_ok _ Hw) as [_ Hl]. destruct Hen as (? & ? & ? & ? & ?).
  pose proof (captured_bound _ Hv Hm). pose proof (row_bytes_len _ Hp). unfold MAX_LOCATOR_BYTES in *. split.
  - split_and!; try done; try width. split_and!; try done. width.
  - unfold stored_entry, entry_bytes, MAX_ENTRY_BYTES. rewrite !len_app, !len_le_bytes, Hl. change (len (flag_byte (entry_complete e))) with 1.
    lia.
Qed.

Lemma encode_entry e : entry_valid e -> refines (encode_source e) (Ok (stored_entry e)).
Proof.
  intros He. destruct (entry_valid_readable e He) as [_ Hlen]. destruct He as (Hw & Hen & [Hp Hv] & Hm & Hu). unfold encode_source.
  unfold stored_entry, entry_bytes in Hlen. rewrite !len_app, !len_le_bytes in Hlen. change (len (flag_byte (entry_complete e))) with 1 in Hlen.
  change (captured_source (entry_captured e)) with (entry_source e). change (captured_preparation (entry_captured e)) with (entry_preparation e).
  pose proof (len_nonneg (source_bytes (entry_source e))). pose proof (len_nonneg (row_bytes (entry_preparation e))).
  rewrite (proj2 (encode_record_ok (entry_source e) (source_bytes (entry_source e)))) by done. cbn [map_err]. rewrite lift_ok_bind.
  unfold encode_preparation. rewrite Hv. cbn [mbind result_bind map_err]. rewrite lift_ok_bind. unfold MAX_ENTRY_BYTES in *.
  rewrite checked_add_some by width. cbn [mbind option_bind]. rewrite checked_add_some by width. cbn [mbind option_bind].
  rewrite checked_add_some by width. cbn [ok_or]. rewrite lift_ok_bind. rewrite reject_if_false by solve_bool. rewrite lift_ok_bind.
  refine_step; [auto with eliot|]. rewrite !try_from_some by width. cbn [ok_or]. rewrite !lift_ok_bind. apply refines_ret.
Qed.

Lemma decode_entry e bytes :
  bytes_ok bytes ->
  decode_source bytes = Ok e <->
  entry_readable e /\ captured_matches (entry_captured e) = true /\ len bytes <= MAX_ENTRY_BYTES /\ bytes = stored_entry e.
Proof.
  intros Hb. unfold decode_source. assert (len bytes <= MAX_ENTRY_BYTES -> len bytes <= ISIZE_MAX) as Hi by (unfold MAX_ENTRY_BYTES; width). split.
  - intros H. apply bind_ok_inv in H as ([] & Hl%reject_if_ok & H). to_prop. apply bind_ok_inv in H as ([v r] & Hread & H).
    apply bind_ok_inv in H as ([] & He%reject_if_ok & H). apply bind_ok_inv in H as ([] & Hm%reject_if_ok & H). apply ok_inj in H as ->.
    destruct (codec_accounts _ _ _ codec_entry _ _ _ _ (reads_start bytes (Hi Hl)) Hb Hread) as (xs & s & -> & _ & Hr & _ & -> & HW).
    rewrite (reads_at_end _ _ Hr) in He. to_prop. subst s. rewrite app_nil_r in *. done.
  - intros (HW & Hm & Hl & ->). pose proof (reads_start _ (Hi Hl)) as Hr. rewrite reject_if_false by solve_bool. cbn [mbind result_bind].
    rewrite <- (app_nil_r (stored_entry e)) in Hr at 2. destruct (codec_parses _ _ _ codec_entry e HW _ _ Hr) as (r & -> & Hr').
    cbn [mbind result_bind]. rewrite (reads_at_end _ _ Hr'), Hm. done.
Qed.

Lemma stored_entry_bytes e : entry_readable e -> bytes_ok (stored_entry e).
Proof.
  intros ((Hw & _) & [Hp _] & _). unfold stored_entry, entry_bytes, bytes_ok. rewrite !Forall_app.
  split_and!; try apply le_bytes_ok; [by apply source_bytes_ok|by apply row_bytes_ok|].
  repeat constructor; destruct (entry_complete e); cbn; lia.
Qed.

Lemma decode_stored_entry e : entry_valid e -> decode_source (stored_entry e) = Ok e.
Proof.
  intros He. destruct (entry_valid_readable e He) as [Hr Hl]. apply decode_entry; [by apply stored_entry_bytes|]. by destruct He as (_ & _ & _ & ? & _).
Qed.

Lemma put_evidence_ok e : evidence_wf e -> bytes_ok (put_evidence e).
Proof.
  intros ([_ ?] & [_ ?] & ? & ? & _). unfold put_evidence, bytes_ok. rewrite !Forall_app.
  split_and!; try done; try apply le_bytes_ok; try by apply put_object_ok.
  all: repeat constructor; try (destruct (PointEvidence.starts_at_line_boundary e)); try (destruct (PointEvidence.ends_at_line_boundary e)); cbn; lia.
Qed.

Lemma stored_page_ok page : page_valid page -> bytes_ok (stored_page page).
Proof.
  intros (_ & Hv & n & Hn & _). unfold stored_page, header_bytes, bytes_ok. cbn [fst snd]. rewrite Hn, !Forall_app.
  split_and!; try apply le_bytes_ok; [by apply (bool_decide_eq_true_1 _)|].
  induction Hv as [|p points (_ & Hi & [He _]) _ IH]; [constructor|]. cbn [mbind list_bind]. apply Forall_app. split; [|exact IH].
  apply Forall_app. split; [done|by apply put_evidence_ok].
Qed.

Lemma encode_source_inv e w bytes :
  run (encode_source e) w = Ok bytes ->
  encodable (entry_source e) /\ validate_row (entry_preparation e) = Ok tt.
Proof.
  intros H. unfold encode_source in H. apply run_lift_ok in H as (s & Hs & H). apply run_lift_ok in H as (p & Hp & _).
  apply map_err_ok, encode_record_ok in Hs as [? _]. split; [done|]. apply map_err_ok in Hp. unfold encode_preparation in Hp.
  by apply bind_ok_inv in Hp as ([] & ? & _).
Qed.

(** The rows of a generation have canonical encodings.  Evidence: the accepted byte
    strings are exactly the 160-byte encodings of well-formed evidence, one each.  Upload
    pages: a page with its measured request size decodes exactly from the bytes its
    encoder writes, and a page without one exactly from the legacy version-one framing of
    the same points, whose texts are checked and discarded.  Captured sources: an entry
    that binds its preparation to its source decodes exactly from the bytes its encoder
    writes; the encoder alone bounds the locator. *)
Theorem generation_rows_codec :
  (forall e bytes, evidence_wf e /\ validate_evidence e = Ok tt /\ encode_evidence e = bytes <->
     bytes_ok bytes /\ decode_evidence bytes = Ok e) /\
  (forall page bytes, Forall point_wf (page_points page) /\ (exists w, run (encode_page page) w = Ok bytes) <->
     bytes_ok bytes /\ request_bytes page <> None /\ refines (decode_page bytes) (Ok page)) /\
  (forall page bytes, bytes_ok bytes /\ legacy_page page bytes <->
     bytes_ok bytes /\ request_bytes page = None /\ refines (decode_page bytes) (Ok page)) /\
  (forall e bytes, record_wf (entry_source e) /\ preparation_wf (entry_preparation e) /\ 0 <= staged_units e <= U64_MAX /\
     captured_matches (entry_captured e) = true /\ (exists w, run (encode_source e) w = Ok bytes) <->
     bytes_ok bytes /\ decode_source bytes = Ok e /\ 0 < len (locator (entry_source e)) <= MAX_LOCATOR_BYTES).
Proof.
  split_and!.
  - intros e bytes. unfold decode_evidence, encode_evidence. split.
    + intros (HW & HV & <-). pose proof (put_evidence_ok e HW) as Hok. split; [done|]. rewrite (len_put_evidence e HW), reject_if_false by done.
      cbn [mbind result_bind]. assert (len (put_evidence e) <= ISIZE_MAX) as Hi by (rewrite len_put_evidence by done; done).
      pose proof (reads_start _ Hi) as Hr. rewrite <- (app_nil_r (put_evidence e)) in Hr at 2.
      destruct (codec_parses _ _ _ codec_evidence e (conj HW HV) _ _ Hr) as (r & -> & Hr'). cbn [mbind result_bind].
      by rewrite (reads_at_end _ _ Hr').
    + intros [Hb H]. apply bind_ok_inv in H as ([] & Hl%reject_if_ok & H). to_prop. apply bind_ok_inv in H as ([v r] & Hread & H).
      apply bind_ok_inv in H as ([] & He%reject_if_ok & H). apply ok_inj in H as ->.
      assert (len bytes <= ISIZE_MAX) as Hi by (rewrite Hl; done).
      destruct (codec_accounts _ _ _ codec_evidence _ _ _ _ (reads_start bytes Hi) Hb Hread) as (xs & s & -> & _ & Hr & _ & -> & [HW HV]).
      rewrite (reads_at_end _ _ Hr) in He. to_prop. subst s. by rewrite app_nil_r.
  - intros page bytes. split.
    + intros [Hwf [w Hrun]]. pose proof (encode_page_inv _ _ _ Hwf Hrun) as Hv.
      pose proof (refines_ok _ _ _ _ (encode_page_ok page Hv) Hrun) as [= <-]. pose proof (stored_page_ok page Hv) as Hok.
      split; [done|]. split; [destruct Hv as (_ & _ & n & Hn & _); by rewrite Hn|]. apply decode_page_ok; [done|by left].
    + intros (Hb & Hn & Hd). pose proof (refines_calm _ _ [] Hd ltac:(constructor)) as Hrun.
      apply decode_page_inv in Hrun as [[Hv ->]|[Hreq _]]; [|done|done]. split.
      * destruct Hv as (_ & Hv & _). eapply Forall_impl; [exact Hv|]. by intros p (? & ? & ? & _).
      * exists []. apply refines_calm; [by apply encode_page_ok|constructor].
  - intros page bytes. split.
    + intros [Hb Hleg]. split; [done|]. split; [apply Hleg|]. apply decode_page_ok; [done|by right].
    + intros (Hb & Hn & Hd). split; [done|]. pose proof (refines_calm _ _ [] Hd ltac:(constructor)) as Hrun.
      apply decode_page_inv in Hrun as [[(_ & _ & n & Hreq & _) _]|Hleg]; [congruence|done|done].
  - intros e bytes. split.
    + intros (HW & Hp & Hu & Hm & w & Hrun). destruct (encode_source_inv _ _ _ Hrun) as [Hen Hv].
      assert (entry_valid e) as He by (unfold entry_valid, preparation_valid; tauto).
      pose proof (refines_ok _ _ _ _ (encode_entry e He) Hrun) as [= <-]. destruct (entry_valid_readable e He) as [Hr _].
      split; [by apply stored_entry_bytes|]. split; [by apply decode_stored_entry|]. by destruct Hen as (_ & _ & _ & _ & ?).
    + intros (Hb & Hd & Hloc). apply decode_entry in Hd as (Hr & Hm & _ & ->); [|done].
      destruct Hr as ((HW & _ & H1 & H2 & H3 & H4 & _) & [Hp Hv] & _ & Hu).
      split; [done|]. split; [done|]. split; [done|]. split; [done|]. exists [].
      apply refines_calm; [|constructor]. apply encode_entry.
      unfold entry_valid, encodable, preparation_valid. tauto.
Qed.
