(* ===== verification/Publication.v ===== *)
(** Publication of corpus generations (crates/search-control-redb/src/publication.rs): the
    persisted header, the guarded transactions that build, upload, commit, abandon and
    retire a generation.  The header and the retired rows are JSON of serde, an argument
    here with its round trip as a law. *)

From stdpp Require Import gmap.
From S2P Require Import Prelude Bytes Reader Ids Registry SourceRow PreparationRow PublicationRow Database Control.

(** [TABLE_NAMES] and the tables they name. *)
Definition STATE : list Z := str "publication_state".
Definition SOURCES : list Z := str "generation_sources".
Definition PAGES : list Z := str "generation_pages".
Definition EVIDENCE : list Z := str "generation_evidence".
Definition RETIRED : list Z := str "retired_generations".
Definition STATE_KEY : list Z := str "v1".
Definition MAX_CAPTURE_BYTES : Z := 16 * 1024 * 1024.
Definition MAX_STAGED_BYTES : Z := 512 * 1024 * 1024.
Definition MAX_POINTS : Z := 1000000.
Definition MAX_RETIRED : Z := 8.

(** ** Data *)

Module Generation.
Record t := {
  namespace : list Z;
  sequence : Z;
  wanted_revision : Z;
  source_count : Z;
  gap_count : Z;
  point_count : Z;
  page_count : Z }.
#[global] Instance t_eq : EqDecision t.
Proof. solve_decision. Defined.

(** [u64::to_string]; twenty digits are enough for a [u64]. *)
Fixpoint decimal (fuel : nat) (n : Z) : list Z :=
  match fuel with
  | O => []
  | S fuel => (if n <? 10 then [] else decimal fuel (n / 10)) ++ [48 + n mod 10]
  end.
Definition collection (self : t) : list Z :=
  str "eliot_" ++ hex_encode (namespace self) ++ str "_g" ++ decimal 20 (sequence self).

(** Widths of the Rust type. *)
Definition wf (g : t) : Prop :=
  Uuid.wf (namespace g) /\ 0 <= sequence g <= U64_MAX /\ 0 <= wanted_revision g <= U64_MAX /\
  0 <= source_count g <= U64_MAX /\ 0 <= gap_count g <= U64_MAX /\
  0 <= point_count g <= U64_MAX /\ 0 <= page_count g <= U64_MAX.
End Generation.
Abbreviation Generation := Generation.t.

Inductive PendingOperation : Type := Create | Insert (page : Z).
#[export] Instance PendingOperation_eq : EqDecision PendingOperation.
Proof. solve_decision. Defined.

Module Pending.
Record t := {
  generation : Generation;
  capture_complete : bool;
  created : bool;
  uploaded_pages : Z;
  in_flight : option PendingOperation;
  operation_revision : Z;
  completed_sources : Z;
  staged_bytes : Z;
  source_namespace : option (list Z);
  expected_current_revision : Z;
  expected_current : option Generation }.
#[global] Instance t_eq : EqDecision t.
Proof. solve_decision. Defined.

Definition wf (p : t) : Prop :=
  Generation.wf (generation p) /\ 0 <= uploaded_pages p <= U64_MAX /\
  (forall page, in_flight p = Some (Insert page) -> 0 <= page <= U64_MAX) /\
  0 <= operation_revision p <= U64_MAX /\ 0 <= completed_sources p <= U64_MAX /\ 0 <= staged_bytes p <= U64_MAX /\
  (forall n, source_namespace p = Some n -> Uuid.wf n) /\ 0 <= expected_current_revision p <= U64_MAX /\
  (forall g, expected_current p = Some g -> Generation.wf g).
End Pending.
Abbreviation PendingGeneration := Pending.t.

Module PublicationState.
Record t := {
  version : Z;
  namespace : option (list Z);
  next_sequence : Z;
  current_revision : Z;
  current : option Generation;
  pending : option PendingGeneration }.
#[global] Instance t_eq : EqDecision t.
Proof. solve_decision. Defined.

Definition default : t :=
  {| version := 1; namespace := None; next_sequence := 0; current_revision := 0; current := None; pending := None |}.

Definition wf (s : t) : Prop :=
  0 <= version s <= U16_MAX /\ (forall n, namespace s = Some n -> Uuid.wf n) /\
  0 <= next_sequence s <= U64_MAX /\ 0 <= current_revision s <= U64_MAX /\
  (forall g, current s = Some g -> Generation.wf g) /\ (forall p, pending s = Some p -> Pending.wf p).

Definition with_pending (s : t) (p : option PendingGeneration) : t :=
  {| version := version s; namespace := namespace s; next_sequence := next_sequence s;
     current_revision := current_revision s; current := current s; pending := p |}.
End PublicationState.
Abbreviation State := PublicationState.t.

(** [RetiredGeneration] *)
Record RetiredGeneration := {
  retired_generation : Generation;
  remote_owned : bool;
  unresolved_build : option PendingGeneration }.
#[export] Instance RetiredGeneration_eq : EqDecision RetiredGeneration.
Proof. solve_decision. Defined.
Definition retired_wf (r : RetiredGeneration) : Prop :=
  Generation.wf (retired_generation r) /\ forall p, unresolved_build r = Some p -> Pending.wf p.

(** [CorpusCapture] *)
Module Capture.
Record t := {
  sources : list CapturedSource;
  current : option Generation;
  pending : option PendingGeneration;
  source_namespace : option (list Z);
  wanted_revision : Z;
  state : State }.

Definition current_matches (self : t) : bool :=
  match current self with Some g => Generation.wanted_revision g =? wanted_revision self | None => false end.
Definition pending_matches (self : t) : bool :=
  match pending self with
  | Some p =>
      bool_decide (Pending.source_namespace p = source_namespace self)
      && (Generation.wanted_revision (Pending.generation p) =? wanted_revision self)
      && (Pending.expected_current_revision p =? PublicationState.current_revision (state self))
      && bool_decide (Pending.expected_current p = current self)
  | None => false
  end.
End Capture.
Abbreviation CorpusCapture := Capture.t.

(** What the code relies on of [serde_json] for the header and the retired rows: encoding a
    value of the type and decoding it gives it back, and decoding gives values of the
    type. *)
Class PublicationJson := {
  state_from_slice : list Z -> option State;
  state_to_vec : State -> list Z;
  retired_from_slice : list Z -> option RetiredGeneration;
  retired_to_vec : RetiredGeneration -> list Z;
  state_roundtrip s : PublicationState.wf s -> state_from_slice (state_to_vec s) = Some s;
  state_typed v s : state_from_slice v = Some s -> PublicationState.wf s;
  retired_roundtrip r : retired_wf r -> retired_from_slice (retired_to_vec r) = Some r;
  retired_typed v r : retired_from_slice v = Some r -> retired_wf r }.

(** [key] *)
Definition generation_key (sequence : Z) (suffix : list Z) : list Z := be_bytes 8 sequence ++ suffix.

(** The generations named by a header. *)
Definition named_generations (s : State) : list Generation :=
  match PublicationState.current s with Some g => [g] | None => [] end
  ++ match PublicationState.pending s with Some p => [Pending.generation p] | None => [] end.

(** The checks of [decode_state] on a parsed header, in its order. *)
Definition generation_allowed (s : State) (g : Generation) : bool :=
  bool_decide (Some (Generation.namespace g) = PublicationState.namespace s)
  && negb (Generation.sequence g =? 0)
  && (Generation.sequence g <=? PublicationState.next_sequence s)
  && (Generation.source_count g <=? MAX_SOURCES)
  && (Generation.gap_count g <=? Generation.source_count g)
  && (Generation.point_count g <=? MAX_POINTS)
  && (Generation.page_count g <=? MAX_POINTS).
Definition pending_allowed (s : State) (p : PendingGeneration) : bool :=
  let g := Pending.generation p in
  (Pending.completed_sources p <=? Generation.source_count g)
  && (Pending.uploaded_pages p <=? Generation.page_count g)
  && (Pending.staged_bytes p <=? MAX_STAGED_BYTES)
  && match PublicationState.current s with
     | Some current => negb (Generation.sequence current =? Generation.sequence g)
     | None => true
     end
  && (negb (Pending.capture_complete p) || (Pending.completed_sources p =? Generation.source_count g)).
Definition check_state (s : State) : result Pub.t unit :=
  _ ← reject_if (negb (PublicationState.version s =? 1)
        || bool_decide (PublicationState.namespace s = None)
        || (PublicationState.next_sequence s =? 0)) Pub.Corrupt;
  _ ← reject_if (negb (forallb (generation_allowed s) (named_generations s))) Pub.Corrupt;
  _ ← reject_if (negb (Bool.eqb (bool_decide (is_Some (PublicationState.current s)))
        (negb (PublicationState.current_revision s =? 0)))) Pub.Corrupt;
  match PublicationState.pending s with
  | Some p => reject_if (negb (pending_allowed s p)) Pub.Corrupt
  | None => Ok tt
  end.

Section Publication.
Context `{PublicationJson} {D : Type} `{Redb D}.
Implicit Types d tx : D.

Definition state_bytes (s : State) : result Pub.t (list Z) :=
  let bytes := state_to_vec s in
  _ ← reject_if (16 * 1024 <? len bytes) Pub.Limit;
  Ok bytes.

Definition decode_state (bytes : list Z) : result Pub.t State :=
  _ ← reject_if (16 * 1024 <? len bytes) Pub.Corrupt;
  state ← ok_or Pub.Corrupt (state_from_slice bytes);
  _ ← check_state state;
  Ok state.

Definition read_state d : M Pub.t State :=
  present ← open_optional Pub.Database d STATE;
  if (present : bool) then
    value ← get Pub.Database d STATE STATE_KEY;
    value ← lift (ok_or Pub.Corrupt value);
    lift (decode_state value)
  else mret PublicationState.default.

(** ** Transactions *)

(** [observe_database]; the transaction is a snapshot of the database. *)
Definition observe_database {A} d (read : D -> M Pub.t A) : M Pub.t A :=
  _ ← publication_check;
  _ ← call Pub.Database;
  match_result (read d) (fun result =>
    match_result publication_check (fun after =>
      lift (value ← result; _ ← after; Ok value))).

(** [observe] *)
Definition observe_path {A} d (read : D -> M Pub.t A) : M Pub.t A :=
  _ ← publication_check;
  _ ← call Pub.Database;
  match_result (observe_database d read) (fun result =>
    match_result (call Pub.Database) (fun closed =>
      lift (value ← result; _ ← closed; Ok value))).

(** An operation on the database: its answer and the committed state afterwards. *)
Definition Db (A : Type) : Type := D -> env -> (result Pub.t A * D) * env.
#[global] Instance Db_ret : MRet Db := fun A a d w => ((Ok a, d), w).
#[global] Instance Db_bind : MBind Db := fun A B k m d w =>
  match m d w with
  | ((Ok a, d'), w') => k a d' w'
  | ((Err e, d'), w') => ((Err e, d'), w')
  end.
(** A step that reads only. *)
Definition db_read {A} (m : D -> M Pub.t A) : Db A := fun d w =>
  let '(r, w') := m d w in ((r, d), w').

(** The body of an edit: it works on the transaction and on the decoded header. *)
Definition Edit (A : Type) : Type := D -> State -> M Pub.t (A * (D * State)).

Fixpoint open_tables tx (names : list (list Z)) : M Pub.t D :=
  match names with
  | [] => mret tx
  | n :: names => tx ← open_write Pub.Database tx n; open_tables tx names
  end.

(** [edit_database] up to its commit. *)
Definition prepare_edit {A} d (write : Edit A) : M Pub.t (A * D) :=
  _ ← publication_check;
  _ ← call Pub.Database;
  _ ← call Pub.Database;
  let existed := bool_decide (STATE ∈ list_tables d) in
  tx ← open_tables d [SOURCES; PAGES; EVIDENCE; RETIRED];
  tx ← open_write Pub.Database tx STATE;
  value ← get Pub.Database tx STATE STATE_KEY;
  state ← lift match value with
    | Some value => decode_state value
    | None => if existed then Err Pub.Corrupt else Ok PublicationState.default
    end;
  written ← write tx state;
  let '(result, (tx, state)) := written in
  bytes ← lift (state_bytes state);
  tx ← open_write Pub.Database tx STATE;
  tx ← insert Pub.Database tx STATE STATE_KEY bytes;
  _ ← publication_check;
  mret (result, tx).

(** [edit_database] *)
Definition edit_database {A} (write : Edit A) : Db A := fun d w =>
  match prepare_edit d write w with
  | (Ok (result, tx), w') =>
      match commit (E := Pub.t) d tx w' with
      | (Ok (confirmed, d'), w'') => ((if confirmed then Ok result else Err Pub.Database, d'), w'')
      | (Err e, w'') => ((Err e, d), w'')
      end
  | (Err e, w') => ((Err e, d), w')
  end.

(** [edit] *)
Definition edit_path {A} (write : Edit A) : Db A :=
  _ ← db_read (fun _ => _ ← publication_check; call Pub.Database);
  edit_database write.

Definition pending_mut (state : State) (expected : PendingGeneration) : result Pub.t PendingGeneration :=
  pending ← ok_or Pub.Stale (PublicationState.pending state);
  _ ← reject_if (negb (bool_decide (Generation.namespace (Pending.generation pending) = Generation.namespace (Pending.generation expected)))
        || negb (Generation.sequence (Pending.generation pending) =? Generation.sequence (Pending.generation expected))) Pub.Stale;
  Ok pending.

Definition check_wanted tx (namespace : option (list Z)) (revision : Z) : M Pub.t D :=
  _ ← call Pub.Database;
  let present := bool_decide (SOURCE_STATE ∈ list_tables tx) in
  actual ← (if present then
      tx ← open_write Pub.Database tx SOURCE_STATE;
      value ← get Pub.Database tx SOURCE_STATE NAMESPACE_KEY;
      value ← lift (ok_or Pub.Corrupt value);
      ns ← lift (map_err publication_source_error (to_array 16 value));
      read ← lift_err publication_source_error (write_wanted_revision tx);
      mret (fst read, (Some ns, snd read))
    else mret (tx, (None, 0)));
  let '(tx, actual) := actual in
  _ ← lift (reject_if (negb (bool_decide (actual = (namespace, revision)))) Pub.Stale);
  mret tx.

(** ** Building a generation *)

Definition is_gap (s : CapturedSource) : bool :=
  match outcome_result <$> current_outcome (captured_preparation s) with Some (Gap _) => true | _ => false end.

(** The transaction of [start_build]. *)
Definition reserve_build (capture : CorpusCapture) (namespace : list Z) : Edit PendingGeneration := fun tx state =>
  tx ← check_wanted tx (Capture.source_namespace capture) (Capture.wanted_revision capture);
  _ ← lift (reject_if (negb (PublicationState.current_revision state =? PublicationState.current_revision (Capture.state capture))
        || negb (bool_decide (PublicationState.current state = Capture.current capture))
        || bool_decide (is_Some (PublicationState.pending state))
        || bool_decide (is_Some (Capture.pending capture))
        || negb (bool_decide (PublicationState.namespace state = PublicationState.namespace (Capture.state capture)))
        || negb (PublicationState.next_sequence state =? PublicationState.next_sequence (Capture.state capture))) Pub.Stale);
  tx ← open_write Pub.Database tx RETIRED;
  rows ← iterate Pub.Database tx RETIRED;
  _ ← lift (reject_if (MAX_RETIRED <=? len rows) Pub.Limit);
  next ← lift (ok_or Pub.Limit (checked_add U64_MAX (PublicationState.next_sequence state) 1));
  let pending :=
    {| Pending.generation :=
         {| Generation.namespace := namespace; Generation.sequence := next;
            Generation.wanted_revision := Capture.wanted_revision capture;
            Generation.source_count := len (Capture.sources capture);
            Generation.gap_count := len (filter (fun s => is_gap s = true) (Capture.sources capture));
            Generation.point_count := 0; Generation.page_count := 0 |};
       Pending.capture_complete := false; Pending.created := false; Pending.uploaded_pages := 0;
       Pending.in_flight := None; Pending.operation_revision := 0; Pending.completed_sources := 0;
       Pending.staged_bytes := 0; Pending.source_namespace := Capture.source_namespace capture;
       Pending.expected_current_revision := PublicationState.current_revision state;
       Pending.expected_current := PublicationState.current state |} in
  mret (pending, (tx,
    {| PublicationState.version := PublicationState.version state; PublicationState.namespace := Some namespace;
       PublicationState.next_sequence := next;
       PublicationState.current_revision := PublicationState.current_revision state;
       PublicationState.current := PublicationState.current state; PublicationState.pending := Some pending |})).

(** The rows of a chunk of captured sources. *)
Fixpoint encode_chunk (pending : PendingGeneration) (chunk : list CapturedSource) : M Pub.t (list (list Z * list Z)) :=
  match chunk with
  | [] => mret []
  | source :: chunk =>
      bytes ← encode_source {| entry_captured := source; staged_units := 0; entry_complete := false |};
      rows ← encode_chunk pending chunk;
      mret ((generation_key (Generation.sequence (Pending.generation pending)) (source_id (captured_source source)), bytes) :: rows)
  end.

Fixpoint insert_new tx (rows : list (list Z * list Z)) : M Pub.t D :=
  match rows with
  | [] => mret tx
  | (key, bytes) :: rows =>
      old ← get Pub.Database tx SOURCES key;
      _ ← lift (reject_if (bool_decide (is_Some old)) Pub.Corrupt);
      tx ← insert Pub.Database tx SOURCES key bytes;
      insert_new tx rows
  end.

(** The transaction of one chunk. *)
Definition persist_rows (pending : PendingGeneration) (encoded : list (list Z * list Z)) : Edit unit := fun tx state =>
  _ ← lift (pending_mut state pending);
  tx ← open_write Pub.Database tx SOURCES;
  tx ← insert_new tx encoded;
  mret (tt, (tx, state)).

Fixpoint persist_chunks (pending : PendingGeneration) (chunks : list (list CapturedSource)) : Db unit :=
  match chunks with
  | [] => mret tt
  | chunk :: chunks =>
      encoded ← db_read (fun _ => _ ← publication_check; encode_chunk pending chunk);
      _ ← edit_database (persist_rows pending encoded);
      persist_chunks pending chunks
  end.

Definition persist_captured_inputs (pending : PendingGeneration) (sources : list CapturedSource) : Db unit :=
  persist_chunks pending (chunks 32 sources).

(** [start_build]; the namespace it may draw is an argument. *)
Definition start_build (capture : CorpusCapture) (random : list Z) : Db PendingGeneration :=
  namespace ← db_read (fun _ => match PublicationState.namespace (Capture.state capture) with
    | Some namespace => mret namespace
    | None => _ ← call Pub.Random; mret random
    end);
  pending ← edit_database (reserve_build capture namespace);
  _ ← persist_captured_inputs pending (Capture.sources capture);
  mret pending.

(** [upload_page_bytes] *)
Definition upload_page_bytes (page : UploadPage) : result Pub.t Z := page_size page.

(** A header whose pending build has other dimensions. *)
Definition with_points (p : PendingGeneration) (points pages staged : Z) : PendingGeneration :=
  {| Pending.generation :=
       {| Generation.namespace := Generation.namespace (Pending.generation p);
          Generation.sequence := Generation.sequence (Pending.generation p);
          Generation.wanted_revision := Generation.wanted_revision (Pending.generation p);
          Generation.source_count := Generation.source_count (Pending.generation p);
          Generation.gap_count := Generation.gap_count (Pending.generation p);
          Generation.point_count := points; Generation.page_count := pages |};
     Pending.capture_complete := Pending.capture_complete p; Pending.created := Pending.created p;
     Pending.uploaded_pages := Pending.uploaded_pages p; Pending.in_flight := Pending.in_flight p;
     Pending.operation_revision := Pending.operation_revision p; Pending.completed_sources := Pending.completed_sources p;
     Pending.staged_bytes := staged; Pending.source_namespace := Pending.source_namespace p;
     Pending.expected_current_revision := Pending.expected_current_revision p;
     Pending.expected_current := Pending.expected_current p |}.

(** The guards on a point and the source it names, which may be staged next. *)
Definition point_refused (point : UploadPoint) (entry : SourceEntry) : bool :=
  let c := entry_captured entry in
  let e := point_evidence point in
  entry_complete entry
  || negb (bool_decide (PointEvidence.source_namespace_id e = source_namespace_id (captured_source c)))
  || negb (bool_decide (PointEvidence.input e = object_ref (captured_source c)))
  || negb (PointEvidence.unit e =? staged_units entry)
  || negb match outcome_result <$> current_outcome (captured_preparation c) with
          | Some (Ready artifact) => bool_decide (artifact = PointEvidence.prepared e)
          | _ => false
          end.

(** The loop of [stage_page] over the points of generation [sequence]; [index] is its
    point count. *)
Fixpoint stage_points tx (sequence index : Z) (points : list UploadPoint) : M Pub.t (D * Z) :=
  match points with
  | [] => mret (tx, index)
  | point :: points =>
      _ ← publication_check;
      _ ← lift (reject_if (negb (bool_decide (take 8 (point_id point) = be_bytes 8 sequence))
            || negb (bool_decide (drop 8 (point_id point) = be_bytes 8 index))) Pub.Corrupt);
      let source_key := generation_key sequence (PointEvidence.source_id (point_evidence point)) in
      value ← get Pub.Database tx SOURCES source_key;
      value ← lift (ok_or Pub.Corrupt value);
      entry ← lift (decode_source value);
      _ ← lift (reject_if (point_refused point entry) Pub.Corrupt);
      units ← lift (ok_or Pub.Limit (checked_add U64_MAX (staged_units entry) 1));
      encoded_source ← encode_source
        {| entry_captured := entry_captured entry; staged_units := units; entry_complete := entry_complete entry |};
      tx ← insert Pub.Database tx SOURCES source_key encoded_source;
      let evidence_key := generation_key sequence (point_id point) in
      old ← get Pub.Database tx EVIDENCE evidence_key;
      _ ← lift (reject_if (bool_decide (is_Some old)) Pub.Corrupt);
      tx ← insert Pub.Database tx EVIDENCE evidence_key (encode_evidence (point_evidence point));
      index ← lift (ok_or Pub.Limit (option_keep (fun n => n <=? MAX_POINTS) (checked_add U64_MAX index 1)));
      stage_points tx sequence index points
  end.

(** The transaction of [stage_page]. *)
Definition stage_rows (pending : PendingGeneration) (page : UploadPage) (bytes : list Z) : Edit unit := fun tx state =>
  p ← lift (pending_mut state pending);
  _ ← lift (reject_if (Pending.capture_complete p || bool_decide (is_Some (Pending.in_flight p))) Pub.Stale);
  staged ← lift (ok_or Pub.Limit
    (option_keep (fun n => n <=? MAX_STAGED_BYTES) (checked_add U64_MAX (Pending.staged_bytes p) (len bytes))));
  tx ← open_write Pub.Database tx EVIDENCE;
  tx ← open_write Pub.Database tx SOURCES;
  let g := Pending.generation p in
  read ← stage_points tx (Generation.sequence g) (Generation.point_count g) (page_points page);
  let '(tx, points) := read in
  let page_key := generation_key (Generation.sequence g) (be_bytes 8 (Generation.page_count g)) in
  tx ← open_write Pub.Database tx PAGES;
  tx ← insert Pub.Database tx PAGES page_key bytes;
  pages ← lift (ok_or Pub.Limit (checked_add U64_MAX (Generation.page_count g) 1));
  mret (tt, (tx, PublicationState.with_pending state (Some (with_points p points pages staged)))).

Definition stage_page (pending : PendingGeneration) (page : UploadPage) : Db unit :=
  bytes ← db_read (fun _ => encode_page page);
  edit_database (stage_rows pending page bytes).

Definition with_completed (p : PendingGeneration) (completed : Z) (capture_complete : bool) : PendingGeneration :=
  {| Pending.generation := Pending.generation p; Pending.capture_complete := capture_complete;
     Pending.created := Pending.created p; Pending.uploaded_pages := Pending.uploaded_pages p;
     Pending.in_flight := Pending.in_flight p; Pending.operation_revision := Pending.operation_revision p;
     Pending.completed_sources := completed; Pending.staged_bytes := Pending.staged_bytes p;
     Pending.source_namespace := Pending.source_namespace p;
     Pending.expected_current_revision := Pending.expected_current_revision p;
     Pending.expected_current := Pending.expected_current p |}.

(** The transaction of [finish_source]. *)
Definition finish_row (pending : PendingGeneration) (id : list Z) (units : Z) : Edit unit := fun tx state =>
  p ← lift (pending_mut state pending);
  _ ← lift (reject_if (Pending.capture_complete p) Pub.Stale);
  let source_key := generation_key (Generation.sequence (Pending.generation p)) id in
  tx ← open_write Pub.Database tx SOURCES;
  value ← get Pub.Database tx SOURCES source_key;
  value ← lift (ok_or Pub.Corrupt value);
  entry ← lift (decode_source value);
  _ ← lift (reject_if (entry_complete entry || negb (staged_units entry =? units)) Pub.Corrupt);
  bytes ← encode_source
    {| entry_captured := entry_captured entry; staged_units := staged_units entry; entry_complete := true |};
  tx ← insert Pub.Database tx SOURCES source_key bytes;
  completed ← lift (ok_or Pub.Limit (checked_add U64_MAX (Pending.completed_sources p) 1));
  mret (tt, (tx, PublicationState.with_pending state (Some (with_completed p completed (Pending.capture_complete p))))).
Definition finish_source (pending : PendingGeneration) (id : list Z) (units : Z) : Db unit :=
  edit_database (finish_row pending id units).

(** The transaction of [complete_capture]. *)
Definition seal_build (pending : PendingGeneration) : Edit PendingGeneration := fun tx state =>
  p ← lift (pending_mut state pending);
  tx ← check_wanted tx (Pending.source_namespace p) (Generation.wanted_revision (Pending.generation p));
  _ ← lift (reject_if (negb (Pending.completed_sources p =? Generation.source_count (Pending.generation p))) Pub.Corrupt);
  let p := with_completed p (Pending.completed_sources p) true in
  mret (p, (tx, PublicationState.with_pending state (Some p))).
Definition complete_capture (pending : PendingGeneration) : Db PendingGeneration := edit_database (seal_build pending).

(** ** Remote mutations *)

Definition with_dispatch (p : PendingGeneration) (created : bool) (uploaded : Z) (in_flight : option PendingOperation)
    (revision : Z) : PendingGeneration :=
  {| Pending.generation := Pending.generation p; Pending.capture_complete := Pending.capture_complete p;
     Pending.created := created; Pending.uploaded_pages := uploaded;
     Pending.in_flight := in_flight; Pending.operation_revision := revision;
     Pending.completed_sources := Pending.completed_sources p; Pending.staged_bytes := Pending.staged_bytes p;
     Pending.source_namespace := Pending.source_namespace p;
     Pending.expected_current_revision := Pending.expected_current_revision p;
     Pending.expected_current := Pending.expected_current p |}.

(** Whether the operation is the next one of the build. *)
Definition operation_due (p : PendingGeneration) (operation : PendingOperation) : bool :=
  match operation with
  | Create => negb (Pending.created p)
  | Insert page =>
      Pending.created p && (page =? Pending.uploaded_pages p)
      && (page <? Generation.page_count (Pending.generation p))
  end.

(** The transaction of [record_dispatch]. *)
Definition dispatch (pending : PendingGeneration) (operation : PendingOperation) : Edit Z := fun tx state =>
  p ← lift (pending_mut state pending);
  tx ← check_wanted tx (Pending.source_namespace p) (Generation.wanted_revision (Pending.generation p));
  _ ← lift (reject_if (bool_decide (is_Some (Pending.in_flight p))) Pub.Unresolved);
  _ ← lift (reject_if (negb (Pending.operation_revision p =? Pending.operation_revision pending)
        || negb (Pending.uploaded_pages p =? Pending.uploaded_pages pending)
        || negb (Bool.eqb (Pending.created p) (Pending.created pending))) Pub.Stale);
  _ ← lift (reject_if (negb (Pending.capture_complete p) || negb (operation_due p operation)) Pub.Stale);
  revision ← lift (ok_or Pub.Limit (checked_add U64_MAX (Pending.operation_revision p) 1));
  mret (revision, (tx, PublicationState.with_pending state
    (Some (with_dispatch p (Pending.created p) (Pending.uploaded_pages p) (Some operation) revision)))).
Definition record_dispatch (pending : PendingGeneration) (operation : PendingOperation) : Db Z :=
  edit_database (dispatch pending operation).

(** The transaction of [finish_dispatch]. *)
Definition settle_dispatch (pending : PendingGeneration) (operation : PendingOperation) (revision : Z) (applied : bool)
    : Edit unit := fun tx state =>
  p ← lift (pending_mut state pending);
  _ ← lift (reject_if (negb (bool_decide (Pending.in_flight p = Some operation))
        || negb (Pending.operation_revision p =? revision)) Pub.Stale);
  done ← lift (if applied then
      match operation with
      | Create => Ok (true, Pending.uploaded_pages p)
      | Insert _ =>
          uploaded ← ok_or Pub.Limit (checked_add U64_MAX (Pending.uploaded_pages p) 1);
          Ok (Pending.created p, uploaded)
      end
    else Ok (Pending.created p, Pending.uploaded_pages p));
  let '(created, uploaded) := done in
  mret (tt, (tx, PublicationState.with_pending state
    (Some (with_dispatch p created uploaded None (Pending.operation_revision p))))).
Definition finish_dispatch (pending : PendingGeneration) (operation : PendingOperation) (revision : Z) (applied : bool) : Db unit :=
  edit_database (settle_dispatch pending operation revision applied).

(** ** Commit, abandonment and retirement *)

Definition retirement_key (r : RetiredGeneration) : list Z := be_bytes 8 (Generation.sequence (retired_generation r)).

Definition retire tx (r : RetiredGeneration) : M Pub.t D :=
  tx ← open_write Pub.Database tx RETIRED;
  insert Pub.Database tx RETIRED (retirement_key r) (retired_to_vec r).

(** The transaction of [commit_generation]. *)
Definition publish (pending : PendingGeneration) : Edit Generation := fun tx state =>
  p ← lift (pending_mut state pending);
  _ ← lift (reject_if (negb (bool_decide (p = pending))) Pub.Stale);
  tx ← check_wanted tx (Pending.source_namespace p) (Generation.wanted_revision (Pending.generation p));
  _ ← lift (reject_if (bool_decide (is_Some (Pending.in_flight p))) Pub.Unresolved);
  _ ← lift (reject_if (negb (Pending.capture_complete p)
        || negb (Pending.created p)
        || negb (Pending.uploaded_pages p =? Generation.page_count (Pending.generation p))
        || negb (PublicationState.current_revision state =? Pending.expected_current_revision p)
        || negb (bool_decide (PublicationState.current state = Pending.expected_current p))) Pub.Stale);
  tx ← match PublicationState.current state with
    | Some old => retire tx {| retired_generation := old; remote_owned := true; unresolved_build := None |}
    | None => mret tx
    end;
  revision ← lift (ok_or Pub.Limit (checked_add U64_MAX (PublicationState.current_revision state) 1));
  mret (Pending.generation p, (tx,
    {| PublicationState.version := PublicationState.version state;
       PublicationState.namespace := PublicationState.namespace state;
       PublicationState.next_sequence := PublicationState.next_sequence state;
       PublicationState.current_revision := revision;
       PublicationState.current := Some (Pending.generation p); PublicationState.pending := None |})).

(** What [commit_generation] reads back after an unconfirmed or failed transaction. *)
Definition observe_commit (pending : PendingGeneration) d : M Pub.t Generation :=
  state ← read_state d;
  lift (if bool_decide (PublicationState.current state = Some (Pending.generation pending))
           && bool_decide (PublicationState.pending state = None)
           && bool_decide (checked_add U64_MAX (Pending.expected_current_revision pending) 1
                = Some (PublicationState.current_revision state))
        then Ok (Pending.generation pending) else Err Pub.Database).

(** [commit_generation] *)
Definition commit_generation (pending : PendingGeneration) : Db Generation := fun d w =>
  match edit_path (publish pending) d w with
  | ((Err Pub.Database, d'), w') => db_read (fun d => observe_path d (observe_commit pending)) d' w'
  | other => other
  end.

(** The transaction of [abandon_build]. *)
Definition abandon (pending : PendingGeneration) : Edit unit := fun tx state =>
  p ← lift (pending_mut state pending);
  _ ← lift (reject_if (negb (bool_decide (p = pending))) Pub.Stale);
  _ ← lift (reject_if (bool_decide (is_Some (Pending.in_flight p))) Pub.Unresolved);
  tx ← retire tx {| retired_generation := Pending.generation p; remote_owned := Pending.created p; unresolved_build := None |};
  mret (tt, (tx, PublicationState.with_pending state None)).
Definition abandon_build (pending : PendingGeneration) : Db unit := edit_database (abandon pending).

(** A build whose dispatched operation has no known result: what may be superseded, and
    what a retired row may hold. *)
Definition unknown_build (p : PendingGeneration) : bool :=
  Pending.capture_complete p && negb (Pending.operation_revision p =? 0)
  && match Pending.in_flight p with
     | Some Create => negb (Pending.created p) && (Pending.uploaded_pages p =? 0)
     | Some (Insert page) =>
         Pending.created p && (page =? Pending.uploaded_pages p)
         && (page <? Generation.page_count (Pending.generation p))
     | None => false
     end.

(** The transaction of [supersede_unknown_build]. *)
Definition supersede (expected : PendingGeneration) : Edit unit := fun tx state =>
  pending ← lift (pending_mut state expected);
  _ ← lift (reject_if (negb (bool_decide (pending = expected))) Pub.Stale);
  _ ← lift (reject_if (negb (unknown_build pending)) Pub.Unresolved);
  let retired := {| retired_generation := Pending.generation pending; remote_owned := Pending.created pending;
                    unresolved_build := Some pending |} in
  let bytes := retired_to_vec retired in
  _ ← lift (reject_if (4096 <? len bytes) Pub.Limit);
  tx ← open_write Pub.Database tx RETIRED;
  rows ← iterate Pub.Database tx RETIRED;
  _ ← lift (reject_if (MAX_RETIRED <=? len rows) Pub.Limit);
  old ← get Pub.Database tx RETIRED (retirement_key retired);
  _ ← lift (reject_if (bool_decide (is_Some old)) Pub.Corrupt);
  tx ← insert Pub.Database tx RETIRED (retirement_key retired) bytes;
  mret (tt, (tx, PublicationState.with_pending state None)).
Definition supersede_unknown_build (expected : PendingGeneration) : Db unit := edit_database (supersede expected).

(** Whether the header still uses a sequence. *)
Definition uses_sequence (s : State) (sequence : Z) : bool :=
  match PublicationState.current s with Some c => Generation.sequence c =? sequence | None => false end
  || match PublicationState.pending s with
     | Some p => Generation.sequence (Pending.generation p) =? sequence
     | None => false
     end.

(** [check_retired] *)
Definition check_retired tx (state : State) (retired : RetiredGeneration) : M Pub.t D :=
  let g := retired_generation retired in
  _ ← lift (reject_if (negb (bool_decide (PublicationState.namespace state = Some (Generation.namespace g)))
        || uses_sequence state (Generation.sequence g)) Pub.Stale);
  tx ← open_write Pub.Database tx RETIRED;
  value ← get Pub.Database tx RETIRED (retirement_key retired);
  value ← lift (ok_or Pub.Stale value);
  actual ← lift (ok_or Pub.Corrupt (retired_from_slice value));
  _ ← lift (reject_if (negb (bool_decide (retired_generation actual = g))
        || negb (Bool.eqb (remote_owned actual) (remote_owned retired))
        || negb (bool_decide (unresolved_build actual = unresolved_build retired))) Pub.Stale);
  mret tx.

(** [table.range(prefix..)] *)
Definition range_from d (table prefix : list Z) : list (list Z * list Z) :=
  filter (fun row => bytes_lt (fst row) prefix = false) (table_iter d table).

(** The keys among [rows] up to the first one of another generation. *)
Fixpoint prefix_keys (prefix : list Z) (rows : list (list Z * list Z)) : M Pub.t (list (list Z)) :=
  match rows with
  | [] => mret []
  | (key, _) :: rows =>
      _ ← call Pub.Database;
      if negb (starts_with key prefix) then mret []
      else keys ← prefix_keys prefix rows; mret (key :: keys)
  end.

(** At most 32 rows of the generation still in the table. *)
Definition remaining_keys (table prefix : list Z) d : M Pub.t (list (list Z)) :=
  _ ← open_read Pub.Corrupt d table;
  _ ← call Pub.Database;
  prefix_keys prefix (take 32 (range_from d table prefix)).

Fixpoint remove_keys tx (table : list Z) (keys : list (list Z)) : M Pub.t D :=
  match keys with
  | [] => mret tx
  | key :: keys =>
      removed ← remove Pub.Database tx table key;
      remove_keys (snd removed) table keys
  end.

Definition sweep_rows (retired : RetiredGeneration) (table : list Z) (keys : list (list Z)) : Edit unit := fun tx state =>
  tx ← check_retired tx state retired;
  tx ← open_write Pub.Database tx table;
  tx ← remove_keys tx table keys;
  mret (tt, (tx, state)).

(** The loop over one table; it ends when no row is left.  Every round removes rows, so
    [fuel] beyond their number is never used up. *)
Fixpoint sweep_table (fuel : nat) (retired : RetiredGeneration) (table : list Z) : Db unit :=
  match fuel with
  | O => db_read (fun _ => fail Pub.Limit)
  | S fuel =>
      keys ← db_read (fun d => observe_database d (remaining_keys table (retirement_key retired)));
      match keys with
      | [] => mret tt
      | _ => _ ← edit_database (sweep_rows retired table keys); sweep_table fuel retired table
      end
  end.

Definition forget_retired (retired : RetiredGeneration) : Edit unit := fun tx state =>
  tx ← check_retired tx state retired;
  tx ← open_write Pub.Database tx RETIRED;
  removed ← remove Pub.Database tx RETIRED (retirement_key retired);
  mret (tt, (snd removed, state)).

(** [finish_retirement] *)
Definition finish_retirement (fuel : nat) (retired : RetiredGeneration) : Db unit :=
  _ ← db_read (fun _ => lift (reject_if (bool_decide (is_Some (unresolved_build retired))) Pub.Unresolved));
  _ ← sweep_table fuel retired SOURCES;
  _ ← sweep_table fuel retired PAGES;
  _ ← sweep_table fuel retired EVIDENCE;
  edit_database (forget_retired retired).
End Publication.
