(* ===== verification/PublicationSpec.v ===== *)
(** The generations a control database holds, and the specification of every publication
    transaction on them. *)

From stdpp Require Import gmap.
From S2P Require Import Prelude Bytes Ids Registry SourceRow PreparationRow PublicationRow Database Control ControlSpec Publication.

(** The rows of all generations, by their stored keys. *)
Record saved := {
  entries : gmap (list Z) SourceEntry;
  saved_pages : table;
  saved_evidence : table;
  retired_rows : gmap (list Z) RetiredGeneration }.

(** The header, absent until the first transaction, and the rows. *)
Record generations := { header : option State; rows : saved }.

Definition header_or_default (g : generations) : State := default PublicationState.default (header g).

Definition with_entries (r : saved) (e : gmap (list Z) SourceEntry) : saved :=
  {| entries := e; saved_pages := saved_pages r; saved_evidence := saved_evidence r; retired_rows := retired_rows r |}.
Definition with_retired (r : saved) (m : gmap (list Z) RetiredGeneration) : saved :=
  {| entries := entries r; saved_pages := saved_pages r; saved_evidence := saved_evidence r; retired_rows := m |}.

(** Writing one entry. *)
Definition put_entry (r : saved) (k : list Z) (e : SourceEntry) : saved := with_entries r (<[k := e]> (entries r)).

(** An edit as a function of the rows and the header. *)
Definition edit_spec (A : Type) : Type := saved -> State -> result Pub.t (A * (saved * State)).

Section Specs.
Context `{PublicationJson}.

(** [edit_database] *)
Definition transaction {A} (spec : edit_spec A) (g : generations) : result Pub.t (A * generations) :=
  written ← spec (rows g) (header_or_default g);
  let '(a, (r, s)) := written in
  _ ← state_bytes s;
  Ok (a, {| header := Some s; rows := r |}).

Definition wanted_spec (c : corpus) (ns : option (list Z)) (revision : Z) : result Pub.t unit :=
  reject_if (negb (bool_decide ((namespace c, wanted c) = (ns, revision)))) Pub.Stale.

Definition fresh_build (capture : CorpusCapture) (ns : list Z) (s : State) (next : Z) : PendingGeneration :=
  {| Pending.generation :=
       {| Generation.namespace := ns; Generation.sequence := next;
          Generation.wanted_revision := Capture.wanted_revision capture;
          Generation.source_count := len (Capture.sources capture);
          Generation.gap_count := len (filter (fun s => is_gap s = true) (Capture.sources capture));
          Generation.point_count := 0; Generation.page_count := 0 |};
     Pending.capture_complete := false; Pending.created := false; Pending.uploaded_pages := 0;
     Pending.in_flight := None; Pending.operation_revision := 0; Pending.completed_sources := 0;
     Pending.staged_bytes := 0; Pending.source_namespace := Capture.source_namespace capture;
     Pending.expected_current_revision := PublicationState.current_revision s;
     Pending.expected_current := PublicationState.current s |}.

(** Reserving a build: nothing pending, the captured corpus and header unchanged, fewer
    than eight obligations open. *)
Definition reserve_spec (c : corpus) (capture : CorpusCapture) (ns : list Z) : edit_spec PendingGeneration := fun r s =>
  _ ← wanted_spec c (Capture.source_namespace capture) (Capture.wanted_revision capture);
  _ ← reject_if (negb (bool_decide (
        PublicationState.current_revision s = PublicationState.current_revision (Capture.state capture) /\
        PublicationState.current s = Capture.current capture /\
        PublicationState.pending s = None /\ Capture.pending capture = None /\
        PublicationState.namespace s = PublicationState.namespace (Capture.state capture) /\
        PublicationState.next_sequence s = PublicationState.next_sequence (Capture.state capture)))) Pub.Stale;
  _ ← reject_if (8 <=? Z.of_nat (size (retired_rows r))) Pub.Limit;
  next ← ok_or Pub.Limit (checked_add U64_MAX (PublicationState.next_sequence s) 1);
  let pending := fresh_build capture ns s next in
  Ok (pending, (r,
    {| PublicationState.version := PublicationState.version s; PublicationState.namespace := Some ns;
       PublicationState.next_sequence := next; PublicationState.current_revision := PublicationState.current_revision s;
       PublicationState.current := PublicationState.current s; PublicationState.pending := Some pending |})).

(** The pending build, if it is the expected one. *)
Definition pending_spec (s : State) (expected : PendingGeneration) : result Pub.t PendingGeneration := pending_mut s expected.

(** Saving captured sources: every key is new. *)
Definition new_entry (s : CapturedSource) : SourceEntry := {| entry_captured := s; staged_units := 0; entry_complete := false |}.
Definition entry_key (sequence : Z) (s : CapturedSource) : list Z := generation_key sequence (source_id (captured_source s)).
Fixpoint add_entries (sequence : Z) (chunk : list CapturedSource) (m : gmap (list Z) SourceEntry)
    : result Pub.t (gmap (list Z) SourceEntry) :=
  match chunk with
  | [] => Ok m
  | s :: chunk =>
      _ ← reject_if (bool_decide (is_Some (m !! entry_key sequence s))) Pub.Corrupt;
      add_entries sequence chunk (<[entry_key sequence s := new_entry s]> m)
  end.
Definition persist_spec (pending : PendingGeneration) (chunk : list CapturedSource) : edit_spec unit := fun r s =>
  _ ← pending_spec s pending;
  m ← add_entries (Generation.sequence (Pending.generation pending)) chunk (entries r);
  Ok (tt, (with_entries r m, s)).

(** Staging a point: the next of the generation and of its source, the source open. *)
Definition next_unit (e : SourceEntry) (units : Z) : SourceEntry :=
  {| entry_captured := entry_captured e; staged_units := units; entry_complete := entry_complete e |}.
Definition put_point_rows (r : saved) (sequence : Z) (point : UploadPoint) (e : SourceEntry) : saved :=
  {| entries := <[generation_key sequence (PointEvidence.source_id (point_evidence point)) := e]> (entries r);
     saved_pages := saved_pages r;
     saved_evidence := <[generation_key sequence (point_id point) := put_evidence (point_evidence point)]> (saved_evidence r);
     retired_rows := retired_rows r |}.
Fixpoint points_spec (sequence index : Z) (points : list UploadPoint) (r : saved) : result Pub.t (saved * Z) :=
  match points with
  | [] => Ok (r, index)
  | point :: points =>
      _ ← reject_if (negb (bool_decide (point_id point = be_bytes 8 sequence ++ be_bytes 8 index))) Pub.Corrupt;
      e ← ok_or Pub.Corrupt (entries r !! generation_key sequence (PointEvidence.source_id (point_evidence point)));
      _ ← reject_if (point_refused point e) Pub.Corrupt;
      units ← ok_or Pub.Limit (checked_add U64_MAX (staged_units e) 1);
      _ ← reject_if (bool_decide (is_Some (saved_evidence r !! generation_key sequence (point_id point)))) Pub.Corrupt;
      index ← ok_or Pub.Limit (option_keep (fun n => n <=? MAX_POINTS) (checked_add U64_MAX index 1));
      points_spec sequence index points (put_point_rows r sequence point (next_unit e units))
  end.
Definition stage_spec (pending : PendingGeneration) (page : UploadPage) : edit_spec unit := fun r s =>
  p ← pending_spec s pending;
  _ ← reject_if (Pending.capture_complete p || bool_decide (is_Some (Pending.in_flight p))) Pub.Stale;
  staged ← ok_or Pub.Limit
    (option_keep (fun n => n <=? MAX_STAGED_BYTES) (checked_add U64_MAX (Pending.staged_bytes p) (len (stored_page page))));
  let g := Pending.generation p in
  read ← points_spec (Generation.sequence g) (Generation.point_count g) (page_points page) r;
  let '(r, points) := read in
  pages ← ok_or Pub.Limit (checked_add U64_MAX (Generation.page_count g) 1);
  Ok (tt, ({| entries := entries r;
              saved_pages := <[generation_key (Generation.sequence g) (be_bytes 8 (Generation.page_count g)) := stored_page page]> (saved_pages r);
              saved_evidence := saved_evidence r; retired_rows := retired_rows r |},
           PublicationState.with_pending s (Some (with_points p points pages staged)))).

(** Finishing one source: all its units are staged. *)
Definition finish_spec (pending : PendingGeneration) (id : list Z) (units : Z) : edit_spec unit := fun r s =>
  p ← pending_spec s pending;
  _ ← reject_if (Pending.capture_complete p) Pub.Stale;
  let k := generation_key (Generation.sequence (Pending.generation p)) id in
  e ← ok_or Pub.Corrupt (entries r !! k);
  _ ← reject_if (entry_complete e || negb (staged_units e =? units)) Pub.Corrupt;
  completed ← ok_or Pub.Limit (checked_add U64_MAX (Pending.completed_sources p) 1);
  Ok (tt, (put_entry r k {| entry_captured := entry_captured e; staged_units := staged_units e; entry_complete := true |},
           PublicationState.with_pending s (Some (with_completed p completed (Pending.capture_complete p))))).

Definition seal_spec (c : corpus) (pending : PendingGeneration) : edit_spec PendingGeneration := fun r s =>
  p ← pending_spec s pending;
  _ ← wanted_spec c (Pending.source_namespace p) (Generation.wanted_revision (Pending.generation p));
  _ ← reject_if (negb (Pending.completed_sources p =? Generation.source_count (Pending.generation p))) Pub.Corrupt;
  let p := with_completed p (Pending.completed_sources p) true in
  Ok (p, (r, PublicationState.with_pending s (Some p))).

Definition dispatch_spec (c : corpus) (pending : PendingGeneration) (operation : PendingOperation) : edit_spec Z := fun r s =>
  p ← pending_spec s pending;
  _ ← wanted_spec c (Pending.source_namespace p) (Generation.wanted_revision (Pending.generation p));
  _ ← reject_if (bool_decide (is_Some (Pending.in_flight p))) Pub.Unresolved;
  _ ← reject_if (negb (bool_decide (Pending.operation_revision p = Pending.operation_revision pending /\
        Pending.uploaded_pages p = Pending.uploaded_pages pending /\ Pending.created p = Pending.created pending))
        || negb (Pending.capture_complete p) || negb (operation_due p operation)) Pub.Stale;
  revision ← ok_or Pub.Limit (checked_add U64_MAX (Pending.operation_revision p) 1);
  Ok (revision, (r, PublicationState.with_pending s
    (Some (with_dispatch p (Pending.created p) (Pending.uploaded_pages p) (Some operation) revision)))).

(** The progress of a settled operation. *)
Definition progress (p : PendingGeneration) (operation : PendingOperation) (applied : bool) : result Pub.t (bool * Z) :=
  match operation, applied with
  | Create, true => Ok (true, Pending.uploaded_pages p)
  | Insert _, true =>
      uploaded ← ok_or Pub.Limit (checked_add U64_MAX (Pending.uploaded_pages p) 1); Ok (Pending.created p, uploaded)
  | _, false => Ok (Pending.created p, Pending.uploaded_pages p)
  end.
Definition settle_spec (pending : PendingGeneration) (operation : PendingOperation) (revision : Z) (applied : bool)
    : edit_spec unit := fun r s =>
  p ← pending_spec s pending;
  _ ← reject_if (negb (bool_decide (Pending.in_flight p = Some operation /\ Pending.operation_revision p = revision))) Pub.Stale;
  done ← progress p operation applied;
  Ok (tt, (r, PublicationState.with_pending s
    (Some (with_dispatch p (fst done) (snd done) None (Pending.operation_revision p))))).

(** A row for a generation no longer in use. *)
Definition retire_rows (r : saved) (x : RetiredGeneration) : saved := with_retired r (<[retirement_key x := x]> (retired_rows r)).

Definition publish_spec (c : corpus) (pending : PendingGeneration) : edit_spec Generation := fun r s =>
  p ← pending_spec s pending;
  _ ← reject_if (negb (bool_decide (p = pending))) Pub.Stale;
  _ ← wanted_spec c (Pending.source_namespace p) (Generation.wanted_revision (Pending.generation p));
  _ ← reject_if (bool_decide (is_Some (Pending.in_flight p))) Pub.Unresolved;
  _ ← reject_if (negb (bool_decide (Pending.capture_complete p = true /\ Pending.created p = true /\
        Pending.uploaded_pages p = Generation.page_count (Pending.generation p) /\
        PublicationState.current_revision s = Pending.expected_current_revision p /\
        PublicationState.current s = Pending.expected_current p))) Pub.Stale;
  revision ← ok_or Pub.Limit (checked_add U64_MAX (PublicationState.current_revision s) 1);
  Ok (Pending.generation p,
    (match PublicationState.current s with
     | Some old => retire_rows r {| retired_generation := old; remote_owned := true; unresolved_build := None |}
     | None => r
     end,
     {| PublicationState.version := PublicationState.version s; PublicationState.namespace := PublicationState.namespace s;
        PublicationState.next_sequence := PublicationState.next_sequence s; PublicationState.current_revision := revision;
        PublicationState.current := Some (Pending.generation p); PublicationState.pending := None |})).

Definition abandon_spec (pending : PendingGeneration) : edit_spec unit := fun r s =>
  p ← pending_spec s pending;
  _ ← reject_if (negb (bool_decide (p = pending))) Pub.Stale;
  _ ← reject_if (bool_decide (is_Some (Pending.in_flight p))) Pub.Unresolved;
  Ok (tt, (retire_rows r {| retired_generation := Pending.generation p; remote_owned := Pending.created p; unresolved_build := None |},
           PublicationState.with_pending s None)).

Definition unresolved (p : PendingGeneration) : RetiredGeneration :=
  {| retired_generation := Pending.generation p; remote_owned := Pending.created p; unresolved_build := Some p |}.
Definition supersede_spec (expected : PendingGeneration) : edit_spec unit := fun r s =>
  p ← pending_spec s expected;
  _ ← reject_if (negb (bool_decide (p = expected))) Pub.Stale;
  _ ← reject_if (negb (unknown_build p)) Pub.Unresolved;
  _ ← reject_if (4096 <? len (retired_to_vec (unresolved p))) Pub.Limit;
  _ ← reject_if (8 <=? Z.of_nat (size (retired_rows r))) Pub.Limit;
  _ ← reject_if (bool_decide (is_Some (retired_rows r !! retirement_key (unresolved p)))) Pub.Corrupt;
  Ok (tt, (retire_rows r (unresolved p), PublicationState.with_pending s None)).

(** A retirement may be worked on: the generation is out of use and the row is unchanged. *)
Definition retired_spec (r : saved) (s : State) (x : RetiredGeneration) : result Pub.t unit :=
  let g := retired_generation x in
  _ ← reject_if (negb (bool_decide (PublicationState.namespace s = Some (Generation.namespace g)))
        || uses_sequence s (Generation.sequence g)) Pub.Stale;
  reject_if (negb (bool_decide (retired_rows r !! retirement_key x = Some x))) Pub.Stale.

(** Removing rows of one table. *)
Definition drop_keys {A} (keys : list (list Z)) (m : gmap (list Z) A) : gmap (list Z) A := foldl (fun m k => delete k m) m keys.
Definition drop_rows (r : saved) (name : list Z) (keys : list (list Z)) : saved :=
  {| entries := if bool_decide (name = SOURCES) then drop_keys keys (entries r) else entries r;
     saved_pages := if bool_decide (name = PAGES) then drop_keys keys (saved_pages r) else saved_pages r;
     saved_evidence := if bool_decide (name = EVIDENCE) then drop_keys keys (saved_evidence r) else saved_evidence r;
     retired_rows := retired_rows r |}.
Definition sweep_spec (x : RetiredGeneration) (name : list Z) (keys : list (list Z)) : edit_spec unit := fun r s =>
  _ ← retired_spec r s x;
  Ok (tt, (drop_rows r name keys, s)).
Definition forget_spec (x : RetiredGeneration) : edit_spec unit := fun r s =>
  _ ← retired_spec r s x;
  Ok (tt, (with_retired r (delete (retirement_key x) (retired_rows r)), s)).
End Specs.
