(* ===== verification/PublicationLifecycle.v ===== *)
(** The invariant of the generations a database holds, and that every publication
    transaction keeps it: the header stays decodable, retired rows stay readable, and the
    progress of the pending build stays consistent with its saved rows. *)

From stdpp Require Import gmap.
From S2P Require Import Prelude Bytes Ids Registry SourceRow PreparationRow PublicationRow Database Control ControlSpec.
From S2P Require Import Publication PublicationSpec.

Definition no_rows : saved := {| entries := ∅; saved_pages := ∅; saved_evidence := ∅; retired_rows := ∅ |}.

(** ** Headers *)

Definition generation_sound (s : State) (g : Generation) : Prop :=
  PublicationState.namespace s = Some (Generation.namespace g) /\
  0 < Generation.sequence g <= PublicationState.next_sequence s /\
  Generation.source_count g <= MAX_SOURCES /\ Generation.gap_count g <= Generation.source_count g /\
  Generation.point_count g <= MAX_POINTS /\ Generation.page_count g <= MAX_POINTS.
Definition pending_sound (s : State) (p : PendingGeneration) : Prop :=
  generation_sound s (Pending.generation p) /\
  Pending.completed_sources p <= Generation.source_count (Pending.generation p) /\
  Pending.uploaded_pages p <= Generation.page_count (Pending.generation p) /\
  Pending.staged_bytes p <= MAX_STAGED_BYTES /\
  (forall g, PublicationState.current s = Some g -> Generation.sequence g <> Generation.sequence (Pending.generation p)) /\
  (Pending.capture_complete p = true -> Pending.completed_sources p = Generation.source_count (Pending.generation p)).
Definition header_sound (s : State) : Prop :=
  PublicationState.wf s /\ PublicationState.version s = 1 /\ is_Some (PublicationState.namespace s) /\
  0 < PublicationState.next_sequence s /\
  (forall g, PublicationState.current s = Some g -> generation_sound s g) /\
  (forall p, PublicationState.pending s = Some p -> pending_sound s p) /\
  (is_Some (PublicationState.current s) <-> PublicationState.current_revision s <> 0).

Lemma generation_allowed_sound s g :
  Generation.wf g -> generation_allowed s g = true <-> generation_sound s g.
Proof.
  intros Hwf. destruct Hwf as (_ & ? & _). unfold generation_allowed, generation_sound.
  rewrite !andb_true_iff, negb_true_iff, bool_decide_eq_true, Z.eqb_neq, !Z.leb_le.
  split; [intros ((((((? & ?) & ?) & ?) & ?) & ?) & ?)|intros (? & ? & ? & ? & ? & ?)]; split_and!; try done; lia.
Qed.

Lemma pending_allowed_sound s p :
  Pending.wf p -> generation_allowed s (Pending.generation p) = true /\ pending_allowed s p = true <-> pending_sound s p.
Proof.
  intros Hwf. destruct Hwf as (Hg & _). unfold pending_sound, pending_allowed.
  rewrite generation_allowed_sound by done. rewrite !andb_true_iff, orb_true_iff, negb_true_iff, Z.eqb_eq, !Z.leb_le.
  assert (match PublicationState.current s with
     | Some current => negb (Generation.sequence current =? Generation.sequence (Pending.generation p))
     | None => true end = true <->
     (forall g, PublicationState.current s = Some g -> Generation.sequence g <> Generation.sequence (Pending.generation p))) as ->.
  { destruct (PublicationState.current s) as [g|]; [|naive_solver]. rewrite negb_true_iff, Z.eqb_neq. naive_solver. }
  destruct (Pending.capture_complete p); naive_solver.
Qed.

Lemma check_state_sound s : PublicationState.wf s -> check_state s = Ok tt <-> header_sound s.
Proof.
  intros Hwf. pose proof Hwf as (_ & _ & Hnext & _ & Hcur & Hpend). unfold check_state, header_sound, named_generations. split.
  - intros E. apply bind_ok_inv in E as ([] & E1%reject_if_ok & E). apply bind_ok_inv in E as ([] & E2%reject_if_ok & E).
    apply bind_ok_inv in E as ([] & E3%reject_if_ok & E). to_prop. apply (proj1 (Bool.eqb_true_iff _ _)) in E3.
    rewrite forallb_app, andb_true_iff in E2. destruct E2 as [Ec Ep].
    split; [done|]. split; [done|]. split; [by destruct (PublicationState.namespace s)|]. split; [lia|]. split_and!.
    + intros g Hg. rewrite Hg in Ec. cbn in Ec. to_prop. apply generation_allowed_sound; [by apply Hcur|done].
    + intros p Hp. rewrite Hp in Ep, E. apply reject_if_ok in E. cbn in Ep. to_prop.
      apply pending_allowed_sound; [by apply Hpend|by split].
    + rewrite <- (bool_decide_eq_true (is_Some (PublicationState.current s))), E3, negb_true_iff. apply Z.eqb_neq.
  - intros (_ & Hv & Hn & Hx & Hc & Hp & Hr). 
    rewrite (reject_if_false (negb (PublicationState.version s =? 1) || bool_decide (PublicationState.namespace s = None)
      || (PublicationState.next_sequence s =? 0))) by (solve_bool; intros E; rewrite E in Hn; by destruct Hn). cbn [mbind result_bind].
    rewrite (reject_if_false (negb (forallb _ _))).
    2:{ rewrite forallb_app. solve_bool.
        - destruct (PublicationState.current s) as [g|] eqn:Hg; [|done]. cbn. rewrite (proj2 (generation_allowed_sound s g (Hcur g eq_refl))); [done|by apply Hc].
        - destruct (PublicationState.pending s) as [p|] eqn:Hpp; [|done]. cbn.
          by rewrite (proj1 (proj2 (pending_allowed_sound s p (Hpend p eq_refl)) (Hp p eq_refl))). }
    cbn [mbind result_bind]. rewrite reject_if_false.
    2:{ apply negb_false_iff, (proj2 (Bool.eqb_true_iff _ _)). apply eq_true_iff_eq. rewrite bool_decide_eq_true, negb_true_iff, Z.eqb_neq. done. }
    cbn [mbind result_bind]. destruct (PublicationState.pending s) as [p|] eqn:Hpp; [|done].
    by rewrite (proj2 (proj2 (pending_allowed_sound s p (Hpend p eq_refl)) (Hp p eq_refl))).
Qed.

(** ** Rows *)

(** The keys of one generation. *)
Definition keyed (sequence : Z) (k : list Z) : Prop := take 8 k = be_bytes 8 sequence.
#[export] Instance keyed_dec sequence k : Decision (keyed sequence k).
Proof. unfold keyed. apply _. Defined.

Lemma keyed_key sequence id : keyed sequence (generation_key sequence id).
Proof. unfold keyed, generation_key. by rewrite take_app_length' by by rewrite be_bytes_length. Qed.
Lemma keyed_inj a b k : 0 <= a <= U64_MAX -> 0 <= b <= U64_MAX -> keyed a k -> keyed b k -> a = b.
Proof. unfold keyed. intros Ha Hb E1 E2. rewrite E1 in E2. apply (be_bytes_inj 8) in E2; width. Qed.

(** The complete entries of one generation. *)
Definition completed_rows (r : saved) (sequence : Z) : gmap (list Z) SourceEntry :=
  filter (fun ke => keyed sequence (fst ke) /\ entry_complete (snd ke) = true) (entries r).

(** The keys of captured sources, given by the capture of a build. *)
Definition build_sound (K : gset (list Z)) (p : PendingGeneration) (r : saved) : Prop :=
  let g := Pending.generation p in
  Z.of_nat (size K) <= Generation.source_count g /\
  (forall k e, entries r !! k = Some e -> keyed (Generation.sequence g) k -> k ∈ K) /\
  Pending.completed_sources p = Z.of_nat (size (completed_rows r (Generation.sequence g))) /\
  Generation.page_count g <= Generation.point_count g /\
  (Pending.capture_complete p = false -> Pending.created p = false /\ Pending.in_flight p = None) /\
  (Pending.created p = false -> Pending.uploaded_pages p = 0) /\
  (forall op, Pending.in_flight p = Some op -> Pending.operation_revision p <> 0 /\ operation_due p op = true).

Definition retired_sound (s : State) (k : list Z) (x : RetiredGeneration) : Prop :=
  let g := retired_generation x in
  retired_wf x /\ k = retirement_key x /\ PublicationState.namespace s = Some (Generation.namespace g) /\
  0 < Generation.sequence g <= PublicationState.next_sequence s /\ uses_sequence s (Generation.sequence g) = false /\
  (forall p, unresolved_build x = Some p -> remote_owned x = Pending.created p /\ Pending.generation p = g /\ unknown_build p = true).

(** Obligations: retired rows, and the pending build. *)
Definition obligations (s : State) (r : saved) : Z :=
  Z.of_nat (size (retired_rows r)) + if bool_decide (is_Some (PublicationState.pending s)) then 1 else 0.

Definition sound (K : gset (list Z)) (s : State) (r : saved) : Prop :=
  header_sound s /\
  (forall k e, entries r !! k = Some e -> exists sequence, 0 < sequence <= PublicationState.next_sequence s /\ keyed sequence k) /\
  (forall p, PublicationState.pending s = Some p -> build_sound K p r) /\
  map_Forall (retired_sound s) (retired_rows r) /\ obligations s r <= MAX_RETIRED.

(** The invariant, before and after the first transaction. *)
Definition lifecycle_with (K : gset (list Z)) (g : generations) : Prop :=
  match header g with Some s => sound K s (rows g) | None => rows g = no_rows end.
Definition lifecycle (g : generations) : Prop := exists K, lifecycle_with K g.

(** ** Preservation *)

Section Preservation.
Context `{PublicationJson}.

Lemma pending_mut_inv s expected p :
  pending_mut s expected = Ok p ->
  PublicationState.pending s = Some p /\ Generation.sequence (Pending.generation p) = Generation.sequence (Pending.generation expected).
Proof.
  intros E. unfold pending_mut in E. apply bind_ok_inv in E as (q & Hq%ok_or_inv & E).
  apply bind_ok_inv in E as ([] & Hg%reject_if_ok & E). apply ok_inj in E as ->. by to_prop.
Qed.

Lemma with_pending_wf s o :
  PublicationState.wf s -> (forall p, o = Some p -> Pending.wf p) -> PublicationState.wf (PublicationState.with_pending s o).
Proof. intros (? & ? & ? & ? & ? & ?) Ho. by refine (conj _ (conj _ (conj _ (conj _ (conj _ _))))). Qed.

(** A pending build that stays pending. *)
Lemma sound_progress K s r p p' r' :
  sound K s r -> PublicationState.pending s = Some p -> Pending.wf p' -> pending_sound s p' ->
  Generation.sequence (Pending.generation p') = Generation.sequence (Pending.generation p) ->
  build_sound K p' r' -> retired_rows r' = retired_rows r ->
  (forall k e, entries r' !! k = Some e -> exists e', entries r !! k = Some e') ->
  sound K (PublicationState.with_pending s (Some p')) r'.
Proof.
  intros ((Hwf & Hv & Hn & Hx & Hc & Hps & Hrev) & Hent & Hb & Hret & Hob) Hp Hwf' Hsound Hseq Hb' Hrows Hkeys.
  split; [|split; [|split; [|split]]].
  - split; [apply with_pending_wf; [done|by intros q [= <-]]|].
    split; [done|]. split; [done|]. split; [done|]. split; [done|]. split; [by intros q [= <-]|done].
  - intros k e (e' & He)%Hkeys. by apply (Hent k e').
  - by intros q [= <-].
  - rewrite Hrows. intros k x Hxk. destruct (Hret k x Hxk) as (? & ? & ? & ? & Huse & ?).
    refine (conj _ (conj _ (conj _ (conj _ (conj _ _))))); try done. unfold uses_sequence in *. rewrite Hp in Huse. cbn. by rewrite Hseq.
  - unfold obligations in *. rewrite Hrows. rewrite Hp in Hob. exact Hob.
Qed.

(** A pending build that becomes an obligation or the current generation. *)
Lemma sound_settled K s r p x s' :
  sound K s r -> PublicationState.pending s = Some p -> PublicationState.pending s' = None ->
  header_sound s' -> PublicationState.namespace s' = PublicationState.namespace s ->
  PublicationState.next_sequence s' = PublicationState.next_sequence s ->
  (forall sequence, uses_sequence s sequence = false -> uses_sequence s' sequence = false) ->
  (forall y, x = Some y -> retired_sound s' (retirement_key y) y) ->
  sound K s' match x with Some y => retire_rows r y | None => r end.
Proof.
  intros (Hh & Hent & Hb & Hret & Hob) Hp Hp' Hh' Hns Hnext Huse Hx.
  assert (map_Forall (retired_sound s') (retired_rows r)) as Hret'.
  { intros k y Hy. destruct (Hret k y Hy) as (? & ? & ? & ? & ? & ?). rewrite <- Hns, <- Hnext in *.
    refine (conj _ (conj _ (conj _ (conj _ (conj _ _))))); try done; by apply Huse. }
  split; [done|]. split; [|split; [|split]].
  - intros k e He. rewrite Hnext. apply (Hent k e). by destruct x.
  - by rewrite Hp'.
  - destruct x as [y|]; [|done]. apply map_Forall_insert_2; [by apply Hx|done].
  - unfold obligations in *. rewrite Hp in Hob. rewrite Hp'. cbn [bool_decide] in *.
    rewrite (bool_decide_true (is_Some (Some p))) in Hob by by eexists. rewrite (bool_decide_false (is_Some (@None PendingGeneration))) by by intros [? ?].
    destruct x as [y|]; [|lia]. unfold retire_rows, with_retired. cbn [retired_rows].
    pose proof (map_size_insert (retirement_key y) y (retired_rows r)) as Hsize. destruct (retired_rows r !! retirement_key y); cbn in Hsize; lia.
Qed.

(** The header without its pending build. *)
Lemma header_without s : header_sound s -> header_sound (PublicationState.with_pending s None).
Proof.
  intros (Hwf & ? & ? & ? & ? & ? & ?). split; [by apply with_pending_wf|]. by refine (conj _ (conj _ (conj _ (conj _ (conj _ _))))).
Qed.

Lemma uses_without s sequence : uses_sequence s sequence = false -> uses_sequence (PublicationState.with_pending s None) sequence = false.
Proof. unfold uses_sequence. cbn. intros E. to_prop. by rewrite orb_false_r. Qed.

Lemma build_row_sound s p owned unresolved :
  header_sound s -> PublicationState.pending s = Some p ->
  (forall q, unresolved = Some q -> q = p /\ owned = Pending.created p /\ unknown_build p = true) ->
  let x := {| retired_generation := Pending.generation p; remote_owned := owned; unresolved_build := unresolved |} in
  retired_sound (PublicationState.with_pending s None) (retirement_key x) x.
Proof.
  intros (Hwf & _ & _ & _ & _ & Hps & _) Hp Hu. destruct (Hps p Hp) as ((Hns & Hseq & _) & _ & _ & _ & Hne & _).
  destruct Hwf as (_ & _ & _ & _ & _ & Hwf). pose proof (Hwf p Hp) as Hpw. split_and!; cbn.
  - split; [by destruct Hpw|]. cbn. intros q Hq. by destruct (Hu q Hq) as (-> & _).
  - done.
  - done.
  - lia.
  - lia.
  - unfold uses_sequence. cbn. destruct (PublicationState.current s) as [g|]; [|done]. apply orb_false_iff. split; [|done].
    apply Z.eqb_neq. by apply Hne.
  - intros q Hq. by destruct (Hu q Hq) as (-> & -> & ?).
Qed.

Lemma abandon_sound K s r pending a r' s' : sound K s r -> abandon_spec pending r s = Ok (a, (r', s')) -> sound K s' r'.
Proof.
  intros Hs E. unfold abandon_spec, pending_spec in E. apply bind_ok_inv in E as (p & Hp & E). apply pending_mut_inv in Hp as [Hp _].
  apply bind_ok_inv in E as (? & _ & E). apply bind_ok_inv in E as (? & _ & E). apply ok_inj in E. injection E as _ <- <-.
  pose proof Hs as (Hh & _).
  refine (sound_settled K s r p (Some _) (PublicationState.with_pending s None) Hs Hp eq_refl (header_without s Hh) eq_refl eq_refl (uses_without s) _).
  intros y [= <-]. by apply build_row_sound.
Qed.

Lemma supersede_sound K s r pending a r' s' : sound K s r -> supersede_spec pending r s = Ok (a, (r', s')) -> sound K s' r'.
Proof.
  intros Hs E. unfold supersede_spec, pending_spec in E. apply bind_ok_inv in E as (p & Hp & E). apply pending_mut_inv in Hp as [Hp _].
  apply bind_ok_inv in E as (? & _ & E). apply bind_ok_inv in E as (? & Hu%reject_if_ok & E).
  do 3 (apply bind_ok_inv in E as (? & _ & E)). apply ok_inj in E. injection E as _ <- <-. to_prop.
  pose proof Hs as (Hh & _).
  refine (sound_settled K s r p (Some _) (PublicationState.with_pending s None) Hs Hp eq_refl (header_without s Hh) eq_refl eq_refl (uses_without s) _).
  intros y [= <-]. apply build_row_sound; [done|done|]. by intros q [= <-].
Qed.

Lemma publish_sound K c s r pending a r' s' : sound K s r -> publish_spec c pending r s = Ok (a, (r', s')) -> sound K s' r'.
Proof.
  intros Hs E. unfold publish_spec, pending_spec in E. apply bind_ok_inv in E as (p & Hp & E). apply pending_mut_inv in Hp as [Hp _].
  do 3 (apply bind_ok_inv in E as (? & _ & E)). apply bind_ok_inv in E as (? & _ & E).
  apply bind_ok_inv in E as (rev & Hrev%ok_or_inv%checked_add_inv & E). destruct Hrev as [-> Hrev]. apply ok_inj in E.
  pose proof Hs as (Hh & _). pose proof Hh as (Hwf & Hv & Hn & Hx & Hc & Hps & Hcr). destruct (Hps p Hp) as (Hg & _ & _ & _ & Hne & _).
  pose proof Hwf as (W1 & W2 & W3 & W4 & W5 & W6). pose proof (W6 p Hp) as Hpw.
  injection E as _ Er Es.
  assert (r' = match (fun old => {| retired_generation := old; remote_owned := true; unresolved_build := None |}) <$> PublicationState.current s with
    | Some y => retire_rows r y | None => r end) as -> by (rewrite <- Er; by destruct (PublicationState.current s)).
  subst s'. apply (sound_settled K s r p); [done|done|done| |done|done| |]; cbn.
  - split; [|split; [done|split; [done|split; [done|split; [|split; [done|]]]]]]; cbn.
    + split; [done|]. split; [done|]. split; [done|]. split; [cbn; lia|]. split; [|done]. intros g [= <-]. by destruct Hpw.
    + intros g [= <-]. exact Hg.
    + split; [lia|by eexists].
  - intros q. unfold uses_sequence. cbn. rewrite Hp, orb_false_r. by intros [_ ?]%orb_false_iff.
  - intros y Hy. destruct (PublicationState.current s) as [old|] eqn:Hold; [|done]. injection Hy as <-.
    destruct (Hc old eq_refl) as (Ho1 & Ho2 & _). split_and!; cbn; try done; try lia.
    + split; [cbn; by apply W5|by cbn].
    + unfold uses_sequence. cbn. rewrite orb_false_r. apply Z.eqb_neq. intros E. by apply (Hne old).
Qed.

(** ** Building *)

(** A capture as [read_corpus] makes it, with the namespace [start_build] uses. *)
Definition capture_sound (capture : CorpusCapture) (ns : list Z) : Prop :=
  Forall (fun x => entry_valid (new_entry x)) (Capture.sources capture) /\
  len (Capture.sources capture) <= MAX_SOURCES /\ 0 <= Capture.wanted_revision capture <= U64_MAX /\
  (forall n, Capture.source_namespace capture = Some n -> Uuid.wf n) /\
  match PublicationState.namespace (Capture.state capture) with Some n => ns = n | None => Uuid.wf ns end.

(** The keys of its entries under a sequence. *)
Definition capture_keys (sequence : Z) (sources : list CapturedSource) : gset (list Z) :=
  list_to_set (entry_key sequence <$> sources).

Lemma list_to_set_size (l : list (list Z)) : (size (list_to_set l : gset (list Z)) <= length l)%nat.
Proof.
  induction l as [|x l IH]; [done|]. cbn [list_to_set length]. rewrite size_union_alt, size_singleton.
  pose proof (subseteq_size (list_to_set l ∖ {[x]}) (list_to_set l : gset (list Z)) ltac:(set_solver)). lia.
Qed.


(** What a build starts from: a sound header, or none yet. *)
Definition started (K : gset (list Z)) (s : State) (r : saved) : Prop :=
  sound K s r \/ (s = PublicationState.default /\ r = no_rows).

Lemma lifecycle_started K g : lifecycle_with K g -> started K (header_or_default g) (rows g).
Proof. unfold lifecycle_with, header_or_default. destruct (header g); cbn; [by left|by right]. Qed.

Lemma started_facts K s r :
  started K s r ->
  PublicationState.wf s /\ PublicationState.version s = 1 /\ 0 <= PublicationState.next_sequence s /\
  (forall g, PublicationState.current s = Some g -> generation_sound s g) /\
  (is_Some (PublicationState.current s) <-> PublicationState.current_revision s <> 0) /\
  (forall k e, entries r !! k = Some e -> exists sequence, 0 < sequence <= PublicationState.next_sequence s /\ keyed sequence k) /\
  map_Forall (retired_sound s) (retired_rows r).
Proof.
  intros [((Hwf & Hv & _ & Hx & Hc & _ & Hr) & He & _ & Hret & _)|[-> ->]].
  - refine (conj _ (conj _ (conj _ (conj _ (conj _ (conj _ _)))))); try done. lia.
  - split; [|split; [done|split; [done|split; [done|split; [|split; [|apply map_Forall_empty]]]]]].
    + unfold PublicationState.wf. cbn. refine (conj _ (conj _ (conj _ (conj _ (conj _ _))))); try done; width.
    + cbn. split; [by intros [? ?]|done].
    + intros k e He. cbn in He. by rewrite lookup_empty in He.
Qed.

Lemma capture_counts (sources : list CapturedSource) sequence :
  len (filter (fun s => is_gap s = true) sources) <= len sources /\
  Z.of_nat (size (capture_keys sequence sources)) <= len sources.
Proof.
  split.
  - unfold len. pose proof (length_filter (fun s => is_gap s = true) sources). lia.
  - pose proof (list_to_set_size (entry_key sequence <$> sources)) as Hs. rewrite length_fmap in Hs. unfold capture_keys, len. lia.
Qed.

Lemma reserve_sound K c capture ns s r a r' s' :
  started K s r -> capture_sound capture ns -> reserve_spec c capture ns r s = Ok (a, (r', s')) ->
  sound (capture_keys (Generation.sequence (Pending.generation a)) (Capture.sources capture)) s' r' /\
  PublicationState.pending s' = Some a /\ (forall k e, entries r' !! k = Some e -> ~ keyed (Generation.sequence (Pending.generation a)) k).
Proof.
  intros Hst (Hcap & Hlen & Hrev & Hcns & Hns) E. unfold reserve_spec in E. apply bind_ok_inv in E as (? & _ & E).
  apply bind_ok_inv in E as (? & Hg%reject_if_ok & E). apply bind_ok_inv in E as (? & Hsize%reject_if_ok & E).
  apply bind_ok_inv in E as (next & Hnext%ok_or_inv%checked_add_inv & E). destruct Hnext as [Hnext Hmax]. apply ok_inj in E.
  injection E as <- <- <-. to_prop. destruct Hg as (_ & Hcur & Hpend & _ & Hname & _).
  pose proof (started_facts K s r Hst) as (Hwf & Hv & Hx & Hc & Hrv & Hent & Hret).
  pose proof Hwf as (W1 & W2 & W3 & W4 & W5 & W6). destruct (capture_counts (Capture.sources capture) next) as [Hgap Hkeys].
  assert (forall n, PublicationState.namespace s = Some n -> n = ns) as Hsame.
  { intros n Hn. rewrite <- Hname, Hn in Hns. done. }
  assert (Uuid.wf ns) as Hnswf.
  { destruct (PublicationState.namespace s) as [n|] eqn:Hn; [rewrite <- (Hsame n); auto|]. by rewrite <- Hname in Hns. }
  assert (forall k e, entries r !! k = Some e -> ~ keyed next k) as Hfresh.
  { intros k e He Hk. destruct (Hent k e He) as (q & Hq & Hqk). assert (q = next); [|lia]. apply (keyed_inj q next k); try done; lia. }
  pose proof (len_nonneg (Capture.sources capture)). pose proof (len_nonneg (filter (fun x => is_gap x = true) (Capture.sources capture))).
  assert (Generation.wf (Pending.generation (fresh_build capture ns s next))) as Hgwf.
  { unfold Generation.wf. cbn. unfold MAX_SOURCES in *. split; [done|]. split_and!; try lia; width. }
  split; [|split; [done|exact Hfresh]]. cbn [Generation.sequence Pending.generation fresh_build].
  split; [|split; [|split; [|split]]].
  - split; [|split; [done|split; [by eexists|split; [cbn; lia|split; [|split; [|done]]]]]].
    + refine (conj _ (conj _ (conj _ (conj _ (conj _ _))))); cbn; try done; [by intros n [= <-]|lia|].
      intros p [= <-]. refine (conj _ (conj _ (conj _ (conj _ (conj _ (conj _ (conj _ (conj _ _)))))))); cbn; try done; width.
    + cbn. intros g Hgc. destruct (Hc g Hgc) as (G1 & G2 & G3). split; [cbn; f_equal; by rewrite (Hsame _ G1)|]. split; [cbn; lia|done].
    + cbn. intros p [= <-]. split.
      * unfold generation_sound. cbn. split_and!; try done; try lia; unfold MAX_POINTS; lia.
      * cbn. split_and!; try done; try lia; try (unfold MAX_STAGED_BYTES; lia).
        intros g Hgc. destruct (Hc g Hgc) as (_ & G2 & _). lia.
  - intros k e He. destruct (Hent k e He) as (q & Hq & Hqk). exists q. cbn. split; [lia|done].
  - cbn. intros p [= <-]. unfold build_sound. cbn. split; [done|]. split; [intros k e He Hk; by destruct (Hfresh k e He)|].
    split; [|split_and!; try done; lia].
    unfold completed_rows. replace (filter _ (entries r)) with (∅ : gmap (list Z) SourceEntry); [by rewrite map_size_empty|].
    symmetry. apply map_empty_filter_2. intros k e He [Hk _]. by apply (Hfresh k e He).
  - intros k y Hyk. destruct (Hret k y Hyk) as (R1 & R2 & R3 & R4 & R5 & R6). refine (conj _ (conj _ (conj _ (conj _ (conj _ _))))); cbn; try done.
    + by rewrite (Hsame _ R3).
    + lia.
    + unfold uses_sequence in *. cbn. rewrite Hpend, orb_false_r in R5. rewrite R5. cbn. apply Z.eqb_neq. lia.
  - unfold obligations. cbn. unfold MAX_RETIRED. lia.
Qed.

(** Rows change without the header. *)
Lemma sound_rows K s r r' :
  sound K s r -> retired_rows r' = retired_rows r ->
  (forall k e, entries r' !! k = Some e -> exists sequence, 0 < sequence <= PublicationState.next_sequence s /\ keyed sequence k) ->
  (forall p, PublicationState.pending s = Some p ->
     (forall k e, entries r' !! k = Some e -> keyed (Generation.sequence (Pending.generation p)) k -> k ∈ K) /\
     size (completed_rows r' (Generation.sequence (Pending.generation p))) =
     size (completed_rows r (Generation.sequence (Pending.generation p)))) ->
  sound K s r'.
Proof.
  intros (Hh & Hent & Hb & Hret & Hob) Hrows Hkeys Hp. split; [done|]. split; [done|]. split.
  - intros p Hpend. destruct (Hp p Hpend) as [Hk Hsize]. destruct (Hb p Hpend) as (? & _ & Hc & Hrest).
    split; [done|]. split; [done|]. by rewrite Hsize.
  - unfold obligations. by rewrite Hrows.
Qed.

Lemma add_entries_spec sequence chunk : forall m m',
  add_entries sequence chunk m = Ok m' ->
  (forall k e, m' !! k = Some e -> m !! k = Some e \/ exists x, x ∈ chunk /\ k = entry_key sequence x) /\
  (forall q, filter (fun ke : list Z * SourceEntry => keyed q (fst ke) /\ entry_complete (snd ke) = true) m'
     = filter (fun ke : list Z * SourceEntry => keyed q (fst ke) /\ entry_complete (snd ke) = true) m).
Proof.
  induction chunk as [|x chunk IH]; intros m m' E; cbn [add_entries] in E.
  - apply ok_inj in E as ->. split; [by left|done].
  - apply bind_ok_inv in E as (? & Hg%reject_if_ok & E). to_prop. apply IH in E as [Hk Hf].
    assert (m !! entry_key sequence x = None) as Hnone by (by apply eq_None_not_Some). split.
    + intros k e He. apply Hk in He as [He|(y & Hy & ->)]; [|right; exists y; by rewrite elem_of_cons; auto].
      apply lookup_insert_Some in He as [[<- _]|[_ He]]; [right; exists x; by rewrite elem_of_cons; auto|by left].
    + intros q. rewrite Hf. apply map_filter_insert_not'; [by intros [_ ?]|]. intros y Hy. congruence.
Qed.

Lemma persist_sound K s r pending chunk a r' s' :
  sound K s r -> persist_spec pending chunk r s = Ok (a, (r', s')) ->
  (forall x, x ∈ chunk -> entry_key (Generation.sequence (Pending.generation pending)) x ∈ K) -> sound K s' r' /\ s' = s.
Proof.
  intros Hs E Hchunk. unfold persist_spec, pending_spec in E. apply bind_ok_inv in E as (p & Hp & E). apply pending_mut_inv in Hp as [Hp Hseq].
  apply bind_ok_inv in E as (m & Hm & E). apply ok_inj in E. injection E as _ <- <-. split; [|done].
  pose proof Hs as ((Hwf & _ & _ & _ & _ & Hps & _) & Hent & Hb & _). destruct (add_entries_spec _ _ _ _ Hm) as [Hk Hf].
  rewrite <- Hseq in *. destruct (Hps p Hp) as ((_ & Hpseq & _) & _).
  apply (sound_rows K s r); [done|done| |]; cbn [entries with_entries].
  - intros k e He. apply Hk in He as [He|(x & Hx & ->)]; [by apply (Hent k e)|]. eexists. split; [exact Hpseq|apply keyed_key].
  - intros p' Hp'. assert (p' = p) as -> by congruence. split.
    + intros k e He Hq. apply Hk in He as [He|(x & Hx & ->)]; [|by apply Hchunk]. destruct (Hb p Hp) as (_ & Hin & _). by apply (Hin k e).
    + unfold completed_rows. cbn [entries with_entries]. by rewrite Hf.
Qed.

(** One entry is replaced: the complete ones grow by one when it becomes complete. *)
Lemma completed_put r sequence k e e' :
  entries r !! k = Some e -> keyed sequence k -> entry_complete e = false ->
  size (completed_rows (put_entry r k e') sequence) =
  (size (completed_rows r sequence) + if entry_complete e' then 1 else 0)%nat.
Proof.
  intros He Hk Hc. unfold completed_rows, put_entry, with_entries. cbn [entries]. destruct (entry_complete e') eqn:Hc'.
  - rewrite map_filter_insert_True by done. rewrite map_size_insert_None; [lia|]. apply map_lookup_filter_None_2. right.
    intros x Hx [_ Hxc]. cbn in Hxc. congruence.
  - rewrite map_filter_insert_not'; [lia|by intros [_ ?]; cbn in *; congruence|]. intros x Hx [_ Hxc]. cbn in Hxc. congruence.
Qed.

Lemma put_entry_keys r k e e' k' x : entries r !! k = Some e -> entries (put_entry r k e') !! k' = Some x -> is_Some (entries r !! k').
Proof.
  intros He Hx. unfold put_entry, with_entries in Hx. cbn in Hx. apply lookup_insert_Some in Hx as [[<- _]|[_ Hx]]; by eexists.
Qed.

(** Staged points touch entries of the generation that stay incomplete, and count. *)
Lemma points_spec_sound sequence points : forall index r r' index',
  points_spec sequence index points r = Ok (r', index') ->
  retired_rows r' = retired_rows r /\ index' = index + len points /\ (points <> [] -> index' <= MAX_POINTS) /\
  (forall k e, entries r' !! k = Some e -> is_Some (entries r !! k)) /\
  size (completed_rows r' sequence) = size (completed_rows r sequence).
Proof.
  induction points as [|point points IH]; intros index r r' index' E; cbn [points_spec] in E.
  - apply ok_inj in E. injection E as <- <-. split; [done|]. split; [unfold len; cbn; lia|]. split; [done|].
    split; [|done]. intros k e He. by eexists.
  - apply bind_ok_inv in E as (? & _ & E). apply bind_ok_inv in E as (e & He%ok_or_inv & E).
    apply bind_ok_inv in E as (? & Hg%reject_if_ok & E). apply bind_ok_inv in E as (units & _ & E).
    apply bind_ok_inv in E as (? & _ & E). apply bind_ok_inv in E as (next & Hn%ok_or_inv%option_keep_inv & E).
    destruct Hn as [Hn%checked_add_inv Hm]. destruct Hn as [-> _]. to_prop. apply IH in E as (Hr & -> & Hmax & Hkeys & Hsize).
    unfold point_refused in Hg. to_prop. set (k0 := generation_key sequence (PointEvidence.source_id (point_evidence point))) in *.
    split; [done|]. split; [rewrite len_cons; lia|]. split; [|split].
    + intros _. destruct points as [|q points]; [unfold len in *; cbn in *; lia|]. by apply Hmax.
    + intros k z [y Hy]%Hkeys. by apply (put_entry_keys r k0 e (next_unit e units) k y He).
    + rewrite Hsize. pose proof (completed_put r sequence k0 e (next_unit e units) He (keyed_key _ _) ltac:(done)) as Hput.
      cbn [entry_complete next_unit] in Hput. rewrite H0 in Hput. rewrite Nat.add_0_r in Hput. exact Hput.
Qed.

(** The pending build of a sound header. *)
Lemma sound_pending K s r p :
  sound K s r -> PublicationState.pending s = Some p -> Pending.wf p /\ pending_sound s p /\ build_sound K p r.
Proof. intros ((Hwf & _ & _ & _ & _ & Hps & _) & _ & Hb & _) Hp. destruct Hwf as (_ & _ & _ & _ & _ & Hwf). auto. Qed.

Lemma with_points_wf p points pages staged :
  Pending.wf p -> 0 <= points <= U64_MAX -> 0 <= pages <= U64_MAX -> 0 <= staged <= U64_MAX ->
  Pending.wf (with_points p points pages staged).
Proof.
  intros ((G1 & G2 & G3 & G4 & G5 & _) & ? & ? & ? & ? & _ & ? & ? & ?) Hp Hg Hs.
  refine (conj _ (conj _ (conj _ (conj _ (conj _ (conj _ (conj _ (conj _ _)))))))); done.
Qed.

Lemma stage_sound K s r pending page a r' s' :
  sound K s r -> page_valid page -> stage_spec pending page r s = Ok (a, (r', s')) -> sound K s' r'.
Proof.
  intros Hs (Hlen & _) E. unfold stage_spec, pending_spec in E. apply bind_ok_inv in E as (p & Hp & E). apply pending_mut_inv in Hp as [Hp _].
  apply bind_ok_inv in E as (? & Hg%reject_if_ok & E). apply bind_ok_inv in E as (staged & Hst%ok_or_inv%option_keep_inv & E).
  destruct Hst as [Hst%checked_add_inv Hstm]. destruct Hst as [Hst Hstu]. apply bind_ok_inv in E as ([r1 points] & Hpts & E).
  apply bind_ok_inv in E as (pages & Hpg%ok_or_inv%checked_add_inv & E). destruct Hpg as [-> Hpgu]. apply ok_inj in E. injection E as _ <- <-.
  apply points_spec_sound in Hpts as (Hr & -> & Hmax & Hkeys & Hsize). to_prop.
  destruct (sound_pending K s r p Hs Hp) as (Hwf & (Hgs & Hcs & Hup & Hsb & Hne & Hcc) & (Hk & Hin & Hcomp & Hpp & Hun & Hcr & Hfl)).
  pose proof Hwf as ((G1 & G2 & G3 & G4 & G5 & G6 & G7) & W1 & _ & _ & _ & W5 & _). destruct Hgs as (S1 & S2 & S3 & S4 & S5 & S6).
  assert (Generation.point_count (Pending.generation p) + len (page_points page) <= MAX_POINTS) as Hmax'.
  { apply Hmax. intros E. rewrite E in Hlen. unfold len in Hlen. cbn in Hlen. lia. }
  pose proof (len_nonneg (stored_page page)). unfold MAX_POINTS, MAX_STAGED_BYTES in *.
  apply (sound_progress K s r p); try done.
  - apply with_points_wf; try done; try lia; width.
  - split; [unfold generation_sound; cbn; unfold MAX_POINTS; split_and!; done || lia|]. cbn. unfold MAX_STAGED_BYTES.
    split; [done|]. split; [lia|]. split; [lia|done].
  - unfold build_sound. cbn. split; [done|]. split.
    + intros k e He Hq. destruct (Hkeys k e He) as [e' He']. by apply (Hin k e').
    + split; [unfold completed_rows in *; cbn; by rewrite Hsize|]. split; [lia|]. split; [done|]. split; [done|].
      intros op Hop. assert (Pending.in_flight p = None) by (by apply eq_None_not_Some). congruence.
Qed.

Lemma with_completed_wf p completed sealed : Pending.wf p -> 0 <= completed <= U64_MAX -> Pending.wf (with_completed p completed sealed).
Proof.
  intros (? & ? & ? & ? & _ & ? & ? & ? & ?) Hc. by refine (conj _ (conj _ (conj _ (conj _ (conj _ (conj _ (conj _ (conj _ _)))))))).
Qed.

Lemma completed_bound K p r :
  build_sound K p r -> Z.of_nat (size (completed_rows r (Generation.sequence (Pending.generation p)))) <= Generation.source_count (Pending.generation p).
Proof.
  intros (Hk & Hin & _). assert (dom (completed_rows r (Generation.sequence (Pending.generation p))) ⊆ K) as Hsub.
  { intros k Hd. apply elem_of_dom in Hd as [e He]. unfold completed_rows in He. apply map_lookup_filter_Some in He as [He [Hq _]]. by apply (Hin k e). }
  apply subseteq_size in Hsub. rewrite size_dom in Hsub. lia.
Qed.

Lemma finish_sound K s r pending id units a r' s' :
  sound K s r -> finish_spec pending id units r s = Ok (a, (r', s')) -> sound K s' r'.
Proof.
  intros Hs E. unfold finish_spec, pending_spec in E. apply bind_ok_inv in E as (p & Hp & E). apply pending_mut_inv in Hp as [Hp _].
  apply bind_ok_inv in E as (? & Hg%reject_if_ok & E). apply bind_ok_inv in E as (e & He%ok_or_inv & E).
  apply bind_ok_inv in E as (? & Hec%reject_if_ok & E). apply bind_ok_inv in E as (completed & Hc%ok_or_inv%checked_add_inv & E).
  destruct Hc as [-> Hcu]. apply ok_inj in E. injection E as _ <- <-. to_prop.
  destruct (sound_pending K s r p Hs Hp) as (Hwf & (Hgs & Hcs & Hup & Hsb & Hne & Hcc) & Hb).
  set (k0 := generation_key (Generation.sequence (Pending.generation p)) id) in *.
  set (e' := {| entry_captured := entry_captured e; staged_units := staged_units e; entry_complete := true |}).
  pose proof (completed_put r _ k0 e e' He (keyed_key _ _) ltac:(done)) as Hput. cbn [entry_complete e'] in Hput.
  assert (build_sound K (with_completed p (Pending.completed_sources p + 1) (Pending.capture_complete p)) (put_entry r k0 e')) as Hb'.
  { destruct Hb as (Hk & Hin & Hcomp & Hpp & Hun & Hcr & Hfl). unfold build_sound. cbn [Pending.generation Pending.completed_sources
      Pending.capture_complete Pending.created Pending.in_flight Pending.uploaded_pages Pending.operation_revision with_completed].
    split; [done|]. split; [|split; [rewrite Hput; lia|done]].
    intros k z Hz Hq. destruct (put_entry_keys r k0 e e' k z He Hz) as [y Hy]. by apply (Hin k y). }
  pose proof (completed_bound K _ _ Hb') as Hbound. pose proof Hb' as (_ & _ & Hcount & _). cbn in Hbound, Hcount.
  apply (sound_progress K s r p); try done.
  - apply with_completed_wf; [done|]. destruct Hwf as (_ & _ & _ & _ & ? & _). lia.
  - split; [done|]. split; [cbn in *; lia|]. split_and!; try done. cbn. intros ?. congruence.
  - intros k z Hz. by apply (put_entry_keys r k0 e e' k z He Hz).
Qed.

Lemma seal_sound K c s r pending a r' s' : sound K s r -> seal_spec c pending r s = Ok (a, (r', s')) -> sound K s' r'.
Proof.
  intros Hs E. unfold seal_spec, pending_spec in E. apply bind_ok_inv in E as (p & Hp & E). apply pending_mut_inv in Hp as [Hp _].
  apply bind_ok_inv in E as (? & _ & E). apply bind_ok_inv in E as (? & Hg%reject_if_ok & E). apply ok_inj in E. injection E as _ <- <-. to_prop.
  destruct (sound_pending K s r p Hs Hp) as (Hwf & (Hgs & Hcs & Hup & Hsb & Hne & Hcc) & (Hk & Hin & Hcomp & Hpp & Hun & Hcr & Hfl)).
  apply (sound_progress K s r p); try done. intros k e He. by eexists.
Qed.

Lemma with_dispatch_wf p created uploaded op revision :
  Pending.wf p -> 0 <= uploaded <= U64_MAX -> 0 <= revision <= U64_MAX ->
  (forall page, op = Some (Insert page) -> 0 <= page <= U64_MAX) -> Pending.wf (with_dispatch p created uploaded op revision).
Proof.
  intros (? & ? & ? & _ & ? & ? & ? & ? & ?) Hu Hr Hop. by refine (conj _ (conj _ (conj _ (conj _ (conj _ (conj _ (conj _ (conj _ _)))))))).
Qed.

Lemma dispatch_sound K c s r pending operation a r' s' :
  sound K s r -> dispatch_spec c pending operation r s = Ok (a, (r', s')) -> sound K s' r'.
Proof.
  intros Hs E. unfold dispatch_spec, pending_spec in E. apply bind_ok_inv in E as (p & Hp & E). apply pending_mut_inv in Hp as [Hp _].
  apply bind_ok_inv in E as (? & _ & E). apply bind_ok_inv in E as (? & _ & E). apply bind_ok_inv in E as (? & Hg%reject_if_ok & E).
  apply bind_ok_inv in E as (revision & Hrev%ok_or_inv%checked_add_inv & E). destruct Hrev as [-> Hrev]. apply ok_inj in E.
  injection E as _ <- <-. to_prop.
  destruct (sound_pending K s r p Hs Hp) as (Hwf & (Hgs & Hcs & Hup & Hsb & Hne & Hcc) & (Hk & Hin & Hcomp & Hpp & Hun & Hcr & Hfl)).
  pose proof Hwf as (_ & W1 & _ & W3 & _).
  assert (operation_due p operation = true) as Hdue by done.
  apply (sound_progress K s r p); try done; [| |by intros k e He; eexists].
  - apply with_dispatch_wf; try done; try lia. intros page [= ->]. cbn in Hdue. to_prop. lia.
  - unfold build_sound. cbn. split; [done|]. split; [done|]. split; [done|]. split; [done|]. split; [congruence|]. split; [done|].
    intros op [= <-]. split; [lia|]. by destruct operation.
Qed.

Lemma settle_sound K s r pending operation revision applied a r' s' :
  sound K s r -> settle_spec pending operation revision applied r s = Ok (a, (r', s')) -> sound K s' r'.
Proof.
  intros Hs E. unfold settle_spec, pending_spec in E. apply bind_ok_inv in E as (p & Hp & E). apply pending_mut_inv in Hp as [Hp _].
  apply bind_ok_inv in E as (? & Hg%reject_if_ok & E). apply bind_ok_inv in E as ([created uploaded] & Hprog & E). apply ok_inj in E.
  injection E as _ <- <-. to_prop. destruct Hg as [Hfly Hrevision].
  destruct (sound_pending K s r p Hs Hp) as (Hwf & (Hgs & Hcs & Hup & Hsb & Hne & Hcc) & (Hk & Hin & Hcomp & Hpp & Hun & Hcr & Hfl)).
  destruct (Hfl _ Hfly) as [_ Hdue]. pose proof Hwf as ((_ & _ & _ & _ & _ & _ & G7) & W1 & _ & W3 & _).
  assert (Pending.capture_complete p = true) as Hcap.
  { destruct (Pending.capture_complete p); [done|]. destruct (Hun eq_refl). congruence. }
  assert (0 <= uploaded <= U64_MAX /\ uploaded <= Generation.page_count (Pending.generation p) /\ (created = false -> uploaded = 0)) as (Hu1 & Hu2 & Hu3).
  { destruct operation, applied; cbn in Hprog, Hdue; to_prop.
    - injection Hprog as <- <-. split_and!; [lia..|done].
    - injection Hprog as <- <-. split_and!; [lia..|done].
    - apply bind_ok_inv in Hprog as (u & Hu%ok_or_inv%checked_add_inv & Hprog). destruct Hu as [-> ?]. injection Hprog as <- <-.
      split_and!; [lia..|congruence].
    - injection Hprog as <- <-. split_and!; [lia..|done]. }
  apply (sound_progress K s r p); try done; [by apply with_dispatch_wf| |by intros k e He; eexists].
  unfold build_sound. cbn. split; [done|]. split; [done|]. split; [done|]. split; [done|]. split; [congruence|]. by split.
Qed.

(** ** Retirement *)

Lemma drop_keys_lookup {A} (keys : list (list Z)) (m : gmap (list Z) A) k :
  drop_keys keys m !! k = if decide (k ∈ keys) then None else m !! k.
Proof.
  revert m. induction keys as [|q keys IH]; intros m; cbn [drop_keys foldl]; [by rewrite decide_False by apply not_elem_of_nil|].
  change (foldl _ (delete q m) keys) with (drop_keys keys (delete q m)). rewrite IH. destruct (decide (k ∈ keys)) as [Hk|Hk].
  - by rewrite decide_True by (apply elem_of_cons; by right).
  - destruct (decide (k = q)) as [->|Hne]; [by rewrite lookup_delete_eq, decide_True by (apply elem_of_cons; by left)|].
    rewrite lookup_delete_ne by done. rewrite decide_False; [done|]. rewrite elem_of_cons. tauto.
Qed.

Lemma retired_spec_inv r s x u :
  retired_spec r s x = Ok u ->
  PublicationState.namespace s = Some (Generation.namespace (retired_generation x)) /\
  uses_sequence s (Generation.sequence (retired_generation x)) = false /\ retired_rows r !! retirement_key x = Some x.
Proof.
  intros E. unfold retired_spec in E. apply bind_ok_inv in E as (? & Hg%reject_if_ok & E). apply reject_if_ok in E. by to_prop.
Qed.

Lemma sweep_sound K s r x name keys a r' s' :
  sound K s r -> Forall (keyed (Generation.sequence (retired_generation x))) keys ->
  sweep_spec x name keys r s = Ok (a, (r', s')) -> sound K s' r' /\ s' = s.
Proof.
  intros Hs Hkeys E. unfold sweep_spec in E. apply bind_ok_inv in E as (? & Hx%retired_spec_inv & E). apply ok_inj in E. injection E as _ <- <-.
  split; [|done]. destruct Hx as (_ & Huse & Hx). pose proof Hs as (Hh & Hent & Hb & Hret & _).
  destruct (Hret _ _ Hx) as ((Hxw & _) & _ & _ & Hxs & _). pose proof Hxw as (_ & Hxu & _).
  assert (forall k e, entries (drop_rows r name keys) !! k = Some e -> entries r !! k = Some e) as Hsub.
  { intros k e He. unfold drop_rows in He. cbn in He. case_bool_decide; [|done]. rewrite drop_keys_lookup in He. by case_decide. }
  apply (sound_rows K s r); [done|done|by intros k e He%Hsub; apply (Hent k e)|].
  intros p Hp. destruct (Hb p Hp) as (_ & Hin & _). split; [by intros k e He%Hsub; apply (Hin k e)|].
  f_equal. unfold completed_rows, drop_rows. cbn [entries]. case_bool_decide; [|done].
  apply map_eq. intros k. apply option_eq. intros e. rewrite !map_lookup_filter_Some, drop_keys_lookup. case_decide as Hk; [|done].
  split; [by intros [? _]|]. intros [_ [Hq _]]. cbn in Hq. exfalso. rewrite Forall_forall in Hkeys. specialize (Hkeys k Hk).
  destruct (sound_pending K s r p Hs Hp) as (Hpw & _). destruct Hpw as ((_ & Hpu & _) & _).
  assert (Generation.sequence (retired_generation x) = Generation.sequence (Pending.generation p)) as Heq by (by apply (keyed_inj _ _ k)).
  unfold uses_sequence in Huse. rewrite Hp, orb_false_iff, Z.eqb_neq in Huse. destruct Huse as [_ Huse]. congruence.
Qed.

Lemma forget_sound K s r x a r' s' : sound K s r -> forget_spec x r s = Ok (a, (r', s')) -> sound K s' r' /\ s' = s.
Proof.
  intros (Hh & Hent & Hb & Hret & Hob) E. unfold forget_spec in E. apply bind_ok_inv in E as (? & Hx%retired_spec_inv & E).
  apply ok_inj in E. injection E as _ <- <-. split; [|done]. split; [done|]. split; [done|]. split; [done|]. split; cbn.
  - by apply map_Forall_delete.
  - unfold obligations in *. cbn. pose proof (map_size_delete (retirement_key x) (retired_rows r)) as Hsize.
    destruct (retired_rows r !! retirement_key x); cbn in Hsize; lia.
Qed.

(** ** The invariant of committed generations *)

Lemma sound_header K g s : lifecycle_with K g -> header g = Some s -> header_sound s.
Proof. unfold lifecycle_with. intros Hl Hs. rewrite Hs in Hl. apply Hl. Qed.

(** A transaction keeps the invariant when its specification does. *)
Lemma transaction_lifecycle {A} K K' (spec : edit_spec A) g a g' :
  lifecycle_with K g -> transaction spec g = Ok (a, g') ->
  (forall r' s', started K (header_or_default g) (rows g) -> spec (rows g) (header_or_default g) = Ok (a, (r', s')) -> sound K' s' r') ->
  lifecycle_with K' g'.
Proof.
  intros Hl Ht Hspec. unfold transaction in Ht. apply bind_ok_inv in Ht as ([a' [r' s']] & Es & Ht).
  apply bind_ok_inv in Ht as (? & _ & Ht). apply ok_inj in Ht. injection Ht as -> <-. cbn.
  apply Hspec; [by apply lifecycle_started|done].
Qed.

(** Only the reservation works without a header. *)
Lemma pending_started K s r pending p : started K s r -> pending_mut s pending = Ok p -> sound K s r.
Proof. intros [Hs|[-> ->]] E; [done|]. by apply pending_mut_inv in E as [? _]. Qed.
Lemma retired_started K s r x u : started K s r -> retired_spec r s x = Ok u -> sound K s r.
Proof. intros [Hs|[-> ->]] E; [done|]. by apply retired_spec_inv in E as (? & _). Qed.
End Preservation.
