(* ===== verification/PublicationRefine.v ===== *)
(** The publication transactions implement their specification: whatever the environment
    does, a body either stops without a result or leaves exactly the specified rows and
    header. *)

From stdpp Require Import gmap.
From S2P Require Import Prelude Bytes Ids Registry SourceRow PreparationRow PublicationRow Database Control ControlSpec.
From S2P Require Import ControlRefine ControlState Publication PublicationSpec.

(** Names of the publication tables, evaluated. *)
Lemma publication_member n : bool_decide (n ∈ TABLE_NAMES) = true -> n ∈ publication_names.
Proof. intros Hn%bool_decide_eq_true_1. unfold publication_names. by apply elem_of_list_to_set. Qed.
Lemma not_publication n : bool_decide (n ∉ TABLE_NAMES) = true -> n ∉ publication_names.
Proof. intros Hn%bool_decide_eq_true_1. unfold publication_names. by rewrite elem_of_list_to_set. Qed.

Ltac publication_table := first [apply publication_member; vm_compute; reflexivity | apply not_publication; vm_compute; reflexivity].

Section Relation.
Context `{PublicationJson} {D : Type} `{Redb D}.
Implicit Types (d tx : D) (c : corpus) (r : saved) (g : generations) (keys : list (list Z)).

(** The tables of a database hold the rows. *)
Definition holds_rows d r : Prop :=
  rows_of d SOURCES = stored_entry <$> entries r /\ map_Forall (fun _ => entry_valid) (entries r) /\
  rows_of d PAGES = saved_pages r /\ rows_of d EVIDENCE = saved_evidence r /\
  rows_of d RETIRED = retired_to_vec <$> retired_rows r /\ map_Forall (fun _ => retired_wf) (retired_rows r).

(** Inside a transaction: all publication tables exist. *)
Definition in_tx tx c r : Prop := represents tx c /\ publication_names ⊆ names_of tx /\ holds_rows tx r.

(** A committed database: with a header it decodes, or without any publication table. *)
Definition readable (s : State) : Prop :=
  PublicationState.wf s /\ check_state s = Ok tt /\ len (state_to_vec s) <= 16 * 1024.
Definition denotes d c g : Prop :=
  represents d c /\ holds_rows d (rows g) /\
  match header g with
  | Some s => publication_names ⊆ names_of d /\ rows_of d STATE !! STATE_KEY = Some (state_to_vec s) /\ readable s
  | None => publication_names ## names_of d
  end.

(** Changes that the sources do not see. *)
Lemma represents_frame d d' c :
  represents d c -> list_multimap_tables d' = list_multimap_tables d ->
  names_of d' ∖ publication_names = names_of d ∖ publication_names -> publication_names ⊆ names_of d' ->
  (forall n, n ∉ publication_names -> rows_of d' n = rows_of d n) -> represents d' c.
Proof.
  intros (Hm & [_ Hcat] & Hh) Hm' Hn Hsub Hrows. split; [by rewrite Hm'|]. split.
  - split; [by left|]. by rewrite Hn.
  - unfold holds in *. by rewrite !Hrows by publication_table.
Qed.

Lemma represents_touch d d' c n :
  represents d c -> publication_names ⊆ names_of d -> n ∈ publication_names ->
  list_multimap_tables d' = list_multimap_tables d -> names_of d' = {[n]} ∪ names_of d ->
  (forall m, m <> n -> rows_of d' m = rows_of d m) -> represents d' c /\ publication_names ⊆ names_of d'.
Proof.
  intros Hr Hsub Hn Hm Hnames Hrows.
  assert (names_of d' = names_of d) as E by (rewrite Hnames; apply subseteq_union_L, singleton_subseteq_l, Hsub, Hn).
  rewrite E. split; [|done]. apply (represents_frame d); [done|done|by rewrite E|by rewrite E|].
  intros m Hm'. apply Hrows. intros ->. by apply Hm'.
Qed.

Lemma in_tx_open tx c r n : in_tx tx c r -> n ∈ names_of tx -> in_tx (table_open tx n) c r.
Proof.
  intros (Hr & Hsub & Hh) Hn. assert (names_of (table_open tx n) = names_of tx) as E
    by (rewrite names_open; apply subseteq_union_L, singleton_subseteq_l, Hn).
  split; [|split; [by rewrite E|by unfold holds_rows; rewrite !rows_open]].
  apply (represents_frame tx); [done|apply open_multimaps|by rewrite E|by rewrite E|]. intros m _. apply rows_open.
Qed.

Lemma in_tx_open_pub tx c r n : in_tx tx c r -> n ∈ publication_names -> in_tx (table_open tx n) c r.
Proof. intros Htx Hn. apply in_tx_open; [done|]. by apply Htx. Qed.

Lemma in_tx_insert tx c r r' n k v :
  in_tx tx c r -> n ∈ publication_names ->
  (holds_rows tx r -> holds_rows (table_insert tx n k v) r') -> in_tx (table_insert tx n k v) c r'.
Proof.
  intros (Hr & Hsub & Hh) Hn Hnew.
  destruct (represents_touch tx (table_insert tx n k v) c n Hr Hsub Hn (insert_multimaps _ _ _ _) (names_insert _ _ _ _)) as [? ?].
  { intros m Hm. by rewrite rows_insert, decide_False. }
  split; [done|]. split; [done|]. by apply Hnew.
Qed.

Lemma in_tx_remove tx c r r' n k :
  in_tx tx c r -> n ∈ publication_names ->
  (holds_rows tx r -> holds_rows (table_remove tx n k) r') -> in_tx (table_remove tx n k) c r'.
Proof.
  intros (Hr & Hsub & Hh) Hn Hnew.
  destruct (represents_touch tx (table_remove tx n k) c n Hr Hsub Hn (remove_multimaps _ _ _) (names_remove _ _ _)) as [? ?].
  { intros m Hm. by rewrite rows_remove, decide_False. }
  split; [done|]. split; [done|]. by apply Hnew.
Qed.

(** The writes of the publication tables. *)
Lemma in_tx_entry tx c r k e :
  in_tx tx c r -> entry_valid e -> in_tx (table_insert tx SOURCES k (stored_entry e)) c (put_entry r k e).
Proof.
  intros Htx He. eapply in_tx_insert; [done|publication_table|]. intros (H1 & H2 & H3 & H4 & H5 & H6).
  unfold holds_rows. tables. cbn [entries saved_pages saved_evidence retired_rows put_entry with_entries with_retired retire_rows]. split; [by rewrite H1, fmap_insert|]. split; [by apply map_Forall_insert_2|done].
Qed.
Lemma in_tx_page tx c r k v :
  in_tx tx c r -> in_tx (table_insert tx PAGES k v) c
    {| entries := entries r; saved_pages := <[k := v]> (saved_pages r); saved_evidence := saved_evidence r; retired_rows := retired_rows r |}.
Proof.
  intros Htx. eapply in_tx_insert; [done|publication_table|]. intros (H1 & H2 & H3 & H4 & H5 & H6).
  unfold holds_rows. tables. cbn [entries saved_pages saved_evidence retired_rows put_entry with_entries with_retired retire_rows]. by rewrite H3.
Qed.
Lemma in_tx_evidence tx c r k v :
  in_tx tx c r -> in_tx (table_insert tx EVIDENCE k v) c
    {| entries := entries r; saved_pages := saved_pages r; saved_evidence := <[k := v]> (saved_evidence r); retired_rows := retired_rows r |}.
Proof.
  intros Htx. eapply in_tx_insert; [done|publication_table|]. intros (H1 & H2 & H3 & H4 & H5 & H6).
  unfold holds_rows. tables. cbn [entries saved_pages saved_evidence retired_rows put_entry with_entries with_retired retire_rows]. by rewrite H4.
Qed.
Lemma in_tx_retire tx c r x :
  in_tx tx c r -> retired_wf x -> in_tx (table_insert tx RETIRED (retirement_key x) (retired_to_vec x)) c (retire_rows r x).
Proof.
  intros Htx Hx. eapply in_tx_insert; [done|publication_table|]. intros (H1 & H2 & H3 & H4 & H5 & H6).
  unfold holds_rows. tables. cbn [entries saved_pages saved_evidence retired_rows put_entry with_entries with_retired retire_rows]. split_and!; try done; [by rewrite H5, fmap_insert|by apply map_Forall_insert_2].
Qed.
Lemma in_tx_forget tx c r k : in_tx tx c r -> in_tx (table_remove tx RETIRED k) c (with_retired r (delete k (retired_rows r))).
Proof.
  intros Htx. eapply in_tx_remove; [done|publication_table|]. intros (H1 & H2 & H3 & H4 & H5 & H6).
  unfold holds_rows. tables. cbn [entries saved_pages saved_evidence retired_rows put_entry with_entries with_retired retire_rows]. split_and!; try done; [by rewrite H5, fmap_delete|by apply map_Forall_delete].
Qed.

(** Reads inside a transaction. *)
Lemma entry_lookup tx c r k :
  in_tx tx c r -> decode_source <$> rows_of tx SOURCES !! k = Ok <$> entries r !! k.
Proof.
  intros (_ & _ & H1 & H2 & _). rewrite H1, lookup_fmap. destruct (entries r !! k) as [e|] eqn:He; [|done]. cbn.
  f_equal. apply decode_stored_entry. by apply (H2 k).
Qed.

Lemma table_iter_size d n : len (table_iter d n) = Z.of_nat (size (rows_of d n)).
Proof.
  unfold len. f_equal. rewrite <- length_map_to_list. apply Permutation_length, NoDup_Permutation.
  - apply strictly_sorted_nodup. apply iter_law.
  - apply NoDup_map_to_list.
  - intros [k v]. destruct (iter_law d n) as [_ Hi]. rewrite Hi. by rewrite elem_of_map_to_list.
Qed.

Lemma retired_size tx c r : in_tx tx c r -> len (table_iter tx RETIRED) = Z.of_nat (size (retired_rows r)).
Proof. intros (_ & _ & _ & _ & _ & _ & H5 & _). by rewrite table_iter_size, H5, map_size_fmap. Qed.

(** ** Steps of a body *)

Lemma source_error_publication e : interrupt e -> interrupt (publication_source_error e).
Proof.
  intros He. destruct e; try (by apply publication_interrupt_in); revert He; unfold interrupt, source_interrupt; set_solver.
Qed.

Lemma publication_check_refines : refines publication_check (Ok tt).
Proof. unfold publication_check. apply refines_check; auto with eliot. Qed.
Lemma pub_call_refines : refines (call Pub.Database) (Ok tt).
Proof. apply refines_call. auto with eliot. Qed.

Lemma yields_open {B X} tx n (k : D -> M Pub.t B) (R : B -> X -> Prop) (s : result Pub.t X) :
  yields (k (table_open tx n)) R s -> yields (tx ← open_write Pub.Database tx n; k tx) R s.
Proof. intros Hk. eapply yields_known; [apply refines_open_write; auto with eliot|done]. Qed.
Lemma yields_get {B X} tx n key (k : option (list Z) -> M Pub.t B) (R : B -> X -> Prop) (s : result Pub.t X) :
  yields (k (rows_of tx n !! key)) R s -> yields (v ← get Pub.Database tx n key; k v) R s.
Proof. intros Hk. eapply yields_known; [apply refines_get; auto with eliot|done]. Qed.
Lemma yields_insert {B X} tx n key v (k : D -> M Pub.t B) (R : B -> X -> Prop) (s : result Pub.t X) :
  yields (k (table_insert tx n key v)) R s -> yields (tx ← insert Pub.Database tx n key v; k tx) R s.
Proof. intros Hk. eapply yields_known; [apply refines_insert; auto with eliot|done]. Qed.
Lemma yields_iterate {B X} tx n (k : list (list Z * list Z) -> M Pub.t B) (R : B -> X -> Prop) (s : result Pub.t X) :
  yields (k (table_iter tx n)) R s -> yields (v ← iterate Pub.Database tx n; k v) R s.
Proof. intros Hk. eapply yields_known; [apply refines_iterate; auto with eliot|done]. Qed.
Lemma yields_remove {B X} tx n key (k : option (list Z) * D -> M Pub.t B) (R : B -> X -> Prop) (s : result Pub.t X) :
  yields (k (rows_of tx n !! key, table_remove tx n key)) R s -> yields (v ← remove Pub.Database tx n key; k v) R s.
Proof. intros Hk. eapply yields_known; [apply refines_remove; auto with eliot|done]. Qed.

Lemma source_state_present tx c n :
  represents tx c -> namespace c = Some n -> SOURCE_STATE ∈ names_of tx.
Proof.
  intros (_ & Hcat & _) Hn. eapply core_present; [|apply state_core]. by rewrite (initialized_some c n) in Hcat.
Qed.
Lemma source_state_absent tx c : represents tx c -> namespace c = None -> SOURCE_STATE ∉ names_of tx.
Proof.
  intros (_ & [_ Hcat] & _) Hn Hin. unfold initialized in Hcat. rewrite Hn, bool_decide_false in Hcat by (by intros [? ?]).
  assert (SOURCE_STATE ∈ names_of tx ∖ publication_names) as Hin'.
  { apply elem_of_difference. split; [done|publication_table]. }
  rewrite Hcat in Hin'. by apply elem_of_singleton in Hin'.
Qed.

Lemma listed tx n : bool_decide (n ∈ list_tables tx) = bool_decide (n ∈ names_of tx).
Proof. apply bool_decide_ext, list_tables_names. Qed.

Lemma check_wanted_yields tx c r ns revision :
  in_tx tx c r -> yields (check_wanted tx ns revision) (fun tx' (_ : unit) => in_tx tx' c r) (wanted_spec c ns revision).
Proof.
  intros Htx. pose proof Htx as (Hr & Hsub & Hh). pose proof Hr as (Hm & Hcat & (Hv & Hn & Hw & Hrows & Hloc & Hprep & Hwf)).
  unfold check_wanted, wanted_spec. eapply yields_known; [apply pub_call_refines|]. cbv zeta. rewrite listed.
  destruct (namespace c) as [n|] eqn:Hns.
  - rewrite bool_decide_true by by eapply source_state_present. apply yields_assoc, yields_open.
    apply yields_assoc, yields_get. rewrite rows_open, Hn. cbn [ok_or]. apply yields_assoc. rewrite lift_ok_bind.
    apply yields_assoc. rewrite (namespace_array c n) by done. cbn [map_err]. rewrite lift_ok_bind.
    apply yields_assoc. eapply yields_known.
    { apply (refines_lift_err publication_source_error _ (Ok (table_open (table_open tx SOURCE_STATE) SOURCE_STATE, wanted c)));
        [apply source_error_publication|]. unfold write_wanted_revision.
      eapply refines_bind_ok; [apply refines_open_write; auto with eliot|].
      eapply refines_bind_ok; [apply refines_get; auto with eliot|]. rewrite !rows_open, Hw. rewrite lift_ok_bind. apply refines_ret. }
    apply yields_seq_ret. cbn [fst snd]. apply yields_tail. intros [] _. apply yields_ret.
    apply in_tx_open; [|rewrite names_open; set_solver]. apply in_tx_open; [done|by eapply source_state_present].
  - rewrite bool_decide_false by by eapply source_state_absent.
    assert (wanted c = 0) as ->.
    { assert (rows_of tx SOURCE_STATE = ∅) as E.
      { unfold rows_of. pose proof (source_state_absent tx c Hr Hns) as Hno. unfold names_of in Hno.
        apply not_elem_of_dom in Hno. by rewrite Hno. }
      rewrite E, lookup_empty in Hw. by injection Hw. }
    apply yields_seq_ret, yields_tail. intros [] _. by apply yields_ret.
Qed.

(** ** The bodies *)

(** A body's result stands for the specification's: the same answer and header, and the
    transaction holds the rows. *)
Definition performs {A} c (x : A * (D * State)) (y : A * (saved * State)) : Prop :=
  fst x = fst y /\ snd (snd x) = snd (snd y) /\ in_tx (fst (snd x)) c (fst (snd y)).

Lemma performs_ret {A} c (a : A) tx r s :
  in_tx tx c r -> yields (mret (a, (tx, s)) : M Pub.t _) (performs c) (Ok (a, (r, s))).
Proof. intros. by apply yields_ret. Qed.

(** Opening publication tables that exist. *)
Lemma performs_open {B X} tx c r n (k : D -> M Pub.t B) (R : B -> X -> Prop) (s : result Pub.t X) :
  n ∈ publication_names -> in_tx tx c r -> (in_tx (table_open tx n) c r -> yields (k (table_open tx n)) R s) ->
  yields (tx ← open_write Pub.Database tx n; k tx) R s.
Proof. intros Hn Htx Hk. apply yields_open, Hk. by apply in_tx_open_pub. Qed.

Lemma wanted_then {B X} tx c r ns revision (k : D -> M Pub.t B) (R : B -> X -> Prop) (s : unit -> result Pub.t X) :
  in_tx tx c r -> (forall tx', in_tx tx' c r -> yields (k tx') R (s tt)) ->
  yields (tx ← check_wanted tx ns revision; k tx) R (wanted_spec c ns revision ≫= s).
Proof. intros Htx Hk. eapply yields_bind; [by apply check_wanted_yields|]. intros tx' [] _ Htx'. by apply Hk. Qed.

Lemma reserve_yields tx c r s capture ns :
  in_tx tx c r -> yields (reserve_build capture ns tx s) (performs c) (reserve_spec c capture ns r s).
Proof.
  intros Htx. unfold reserve_build, reserve_spec. eapply wanted_then; [done|]. clear Htx. intros tx' Htx.
  apply yields_guard.
  { apply eq_true_iff_eq. rewrite !orb_true_iff, !negb_true_iff, !Z.eqb_neq, !bool_decide_eq_true, !bool_decide_eq_false.
    split.
    - intros [[[[[?|?]|[? ?]]|[? ?]]|?]|?] (? & ? & ? & ? & ? & ?); congruence.
    - intros Hn. destruct (decide (PublicationState.current_revision s = PublicationState.current_revision (Capture.state capture))); [|tauto].
      destruct (decide (PublicationState.current s = Capture.current capture)); [|tauto].
      destruct (PublicationState.pending s) eqn:E1; [left; left; left; right; by eexists|].
      destruct (Capture.pending capture) eqn:E2; [left; left; right; by eexists|].
      destruct (decide (PublicationState.namespace s = PublicationState.namespace (Capture.state capture))); [|tauto].
      destruct (decide (PublicationState.next_sequence s = PublicationState.next_sequence (Capture.state capture))); [|tauto]. tauto. }
  intros _. apply (performs_open tx' c r); [publication_table|done|]. intros Htx2. apply yields_iterate. rewrite (retired_size _ c r) by done.
  apply yields_guard; [done|]. intros _. apply yields_pure. intros next _. by apply performs_ret.
Qed.

Lemma insert_new_yields tx c r seq (chunk : list CapturedSource) :
  in_tx tx c r -> Forall (fun x => entry_valid (new_entry x)) chunk ->
  yields (insert_new tx ((fun x => (entry_key seq x, stored_entry (new_entry x))) <$> chunk))
    (fun tx' m => in_tx tx' c (with_entries r m)) (add_entries seq chunk (entries r)).
Proof.
  intros Htx Hv. revert tx r Htx. induction Hv as [|x chunk Hx Hv IH]; intros tx r Htx; cbn [insert_new fmap list_fmap add_entries].
  - apply yields_ret. by destruct r.
  - apply yields_get. apply yields_guard.
    + apply bool_decide_ext. pose proof (entry_lookup tx c r (entry_key seq x) Htx) as E.
      destruct (rows_of tx SOURCES !! entry_key seq x), (entries r !! entry_key seq x); try done.
    + intros _. apply yields_insert. pose proof (in_tx_entry tx c r (entry_key seq x) _ Htx Hx) as Htx'.
      exact (IH _ _ Htx').
Qed.

Lemma persist_yields tx c r s pending chunk :
  in_tx tx c r -> Forall (fun x => entry_valid (new_entry x)) chunk ->
  yields (persist_rows pending ((fun x => (entry_key (Generation.sequence (Pending.generation pending)) x, stored_entry (new_entry x))) <$> chunk) tx s)
    (performs c) (persist_spec pending chunk r s).
Proof.
  intros Htx Hv. unfold persist_rows, persist_spec, pending_spec. apply yields_pure. intros p _.
  apply (performs_open tx c r); [publication_table|done|]. intros Htx'.
  eapply yields_bind; [by apply insert_new_yields|]. intros tx' m _ Hm. by apply performs_ret.
Qed.

Lemma entry_valid_update e units complete :
  entry_valid e -> 0 <= units <= U64_MAX ->
  entry_valid {| entry_captured := entry_captured e; staged_units := units; entry_complete := complete |}.
Proof. intros (? & ? & ? & ? & ?) ?. by refine (conj _ (conj _ (conj _ (conj _ _)))). Qed.

(** Reading an entry. *)
Lemma entry_then {B X} tx c r k (f : SourceEntry -> M Pub.t B) (R : B -> X -> Prop) s :
  in_tx tx c r -> (forall e, entries r !! k = Some e -> entry_valid e -> yields (f e) R (s e)) ->
  yields (value ← get Pub.Database tx SOURCES k; value ← lift (ok_or Pub.Corrupt value); e ← lift (decode_source value); f e) R
    (ok_or Pub.Corrupt (entries r !! k) ≫= s).
Proof.
  intros Htx Hf. pose proof Htx as (_ & _ & H1 & H2 & _). apply yields_get. rewrite H1, lookup_fmap.
  destruct (entries r !! k) as [e|] eqn:He; cbn [fmap option_fmap option_map ok_or].
  - rewrite lift_ok_bind. pose proof (H2 k e He) as Hv. cbn in Hv. rewrite decode_stored_entry by done. rewrite lift_ok_bind. by apply Hf.
  - apply yields_stop.
Qed.

Lemma be_bytes_split a b id :
  negb (bool_decide (take 8 id = be_bytes 8 a)) || negb (bool_decide (drop 8 id = be_bytes 8 b))
  = negb (bool_decide (id = be_bytes 8 a ++ be_bytes 8 b)).
Proof.
  rewrite <- negb_andb, <- bool_decide_and. f_equal. apply bool_decide_ext. split.
  - intros [<- <-]. by rewrite take_drop.
  - intros ->. by rewrite take_app_length', drop_app_length' by by rewrite be_bytes_length.
Qed.

Lemma stage_points_yields tx c r seq index points :
  in_tx tx c r ->
  yields (stage_points tx seq index points) (fun x y => snd x = snd y /\ in_tx (fst x) c (fst y)) (points_spec seq index points r).
Proof.
  revert tx r index. induction points as [|point points IH]; intros tx r index Htx; cbn [stage_points points_spec].
  - by apply yields_ret.
  - eapply yields_known; [apply publication_check_refines|]. apply yields_guard; [apply be_bytes_split|]. intros _. cbv zeta.
    eapply entry_then; [done|]. intros e He Hv. apply yields_guard; [done|]. intros _. apply yields_pure. intros units Hu.
    apply ok_or_inv, checked_add_inv in Hu as [-> Hu].
    assert (entry_valid (next_unit e (staged_units e + 1))) as Hv'.
    { apply entry_valid_update; [done|]. destruct Hv as (_ & _ & _ & _ & ?). lia. }
    eapply yields_known; [apply (encode_entry (next_unit e (staged_units e + 1))), Hv'|].
    apply yields_insert. pose proof (in_tx_entry tx c r (generation_key seq (PointEvidence.source_id (point_evidence point))) _ Htx Hv') as Htx1.
    apply yields_get. pose proof Htx1 as (_ & _ & _ & _ & _ & HE & _). rewrite HE. cbn [saved_evidence put_entry with_entries].
    apply yields_guard; [done|]. intros _. apply yields_insert.
    pose proof (in_tx_evidence _ c _ (generation_key seq (point_id point)) (encode_evidence (point_evidence point)) Htx1) as Htx2.
    apply yields_pure. intros index' _. apply IH. exact Htx2.
Qed.

Lemma stage_yields tx c r s pending page :
  in_tx tx c r -> yields (stage_rows pending page (stored_page page) tx s) (performs c) (stage_spec pending page r s).
Proof.
  intros Htx. unfold stage_rows, stage_spec, pending_spec. apply yields_pure. intros p _. apply yields_guard; [done|]. intros _.
  apply yields_pure. intros staged _. apply (performs_open tx c r); [publication_table|done|]. intros Htx1.
  apply (performs_open _ c r); [publication_table|done|]. intros Htx2. cbv zeta.
  eapply yields_bind; [by apply stage_points_yields|]. intros [tx3 idx] [r3 idx'] _ [Hidx Htx3]. cbn [fst snd] in *. subst idx'.
  apply (performs_open _ c r3); [publication_table|done|]. intros Htx4. apply yields_insert. apply yields_pure. intros pages _.
  apply performs_ret. by apply in_tx_page.
Qed.

Lemma finish_yields tx c r s pending id units :
  in_tx tx c r -> yields (finish_row pending id units tx s) (performs c) (finish_spec pending id units r s).
Proof.
  intros Htx. unfold finish_row, finish_spec, pending_spec. apply yields_pure. intros p _. apply yields_guard; [done|]. intros _.
  cbv zeta. apply (performs_open tx c r); [publication_table|done|]. intros Htx1. eapply entry_then; [done|]. intros e He Hv.
  apply yields_guard; [done|]. intros _.
  pose proof (entry_valid_update e (staged_units e) true Hv (proj2 (proj2 (proj2 (proj2 Hv))))) as Hv'.
  eapply yields_known; [apply encode_entry, Hv'|]. apply yields_insert. apply yields_pure. intros completed _.
  apply performs_ret. by apply in_tx_entry.
Qed.

Lemma seal_yields tx c r s pending :
  in_tx tx c r -> yields (seal_build pending tx s) (performs c) (seal_spec c pending r s).
Proof.
  intros Htx. unfold seal_build, seal_spec, pending_spec. apply yields_pure. intros p _. eapply wanted_then; [done|].
  intros tx' Htx'. apply yields_guard; [done|]. intros _. by apply performs_ret.
Qed.

Lemma dispatch_yields tx c r s pending operation :
  in_tx tx c r -> yields (dispatch pending operation tx s) (performs c) (dispatch_spec c pending operation r s).
Proof.
  intros Htx. unfold dispatch, dispatch_spec, pending_spec. apply yields_pure. intros p _. eapply wanted_then; [done|].
  intros tx' Htx'. apply yields_guard; [done|]. intros _.
  assert (negb (bool_decide (Pending.operation_revision p = Pending.operation_revision pending /\
        Pending.uploaded_pages p = Pending.uploaded_pages pending /\ Pending.created p = Pending.created pending))
    = negb (Pending.operation_revision p =? Pending.operation_revision pending)
        || negb (Pending.uploaded_pages p =? Pending.uploaded_pages pending)
        || negb (Bool.eqb (Pending.created p) (Pending.created pending))) as ->.
  { rewrite <- !negb_andb. f_equal. apply eq_true_iff_eq. rewrite bool_decide_eq_true, !andb_true_iff, !Z.eqb_eq, Bool.eqb_true_iff. tauto. }
  destruct (negb _ || negb _ || negb _); [apply yields_stop|]. cbn [reject_if orb]. rewrite lift_ok_bind.
  apply yields_guard; [done|]. intros _. apply yields_pure. intros revision _. by apply performs_ret.
Qed.

Lemma settle_yields tx c r s pending operation revision applied :
  in_tx tx c r -> yields (settle_dispatch pending operation revision applied tx s) (performs c) (settle_spec pending operation revision applied r s).
Proof.
  intros Htx. unfold settle_dispatch, settle_spec, pending_spec. apply yields_pure. intros p _. apply yields_guard.
  { rewrite bool_decide_and, negb_andb. f_equal. f_equal. apply eq_true_iff_eq. by rewrite Z.eqb_eq, bool_decide_eq_true. }
  intros _. assert (progress p operation applied = if applied then match operation with
      | Create => Ok (true, Pending.uploaded_pages p)
      | Insert _ => uploaded ← ok_or Pub.Limit (checked_add U64_MAX (Pending.uploaded_pages p) 1); Ok (Pending.created p, uploaded)
      end else Ok (Pending.created p, Pending.uploaded_pages p)) as -> by (by destruct operation, applied).
  apply yields_pure. intros [created uploaded] _. by apply performs_ret.
Qed.

Lemma retire_yields {B X} tx c r x (k : D -> M Pub.t B) (R : B -> X -> Prop) (s : result Pub.t X) :
  in_tx tx c r -> retired_wf x -> (forall tx', in_tx tx' c (retire_rows r x) -> yields (k tx') R s) ->
  yields (tx ← retire tx x; k tx) R s.
Proof.
  intros Htx Hx Hk. unfold retire. apply yields_assoc. apply (performs_open tx c r); [publication_table|done|]. intros Htx1.
  apply yields_insert. apply Hk. by apply in_tx_retire.
Qed.

Lemma pending_wf s pending p : PublicationState.wf s -> pending_mut s pending = Ok p -> Pending.wf p.
Proof.
  intros (_ & _ & _ & _ & _ & Hp) E. unfold pending_mut in E. apply bind_ok_inv in E as (q & Hq%ok_or_inv & E).
  apply bind_ok_inv in E as (? & _ & E). apply ok_inj in E as ->. by apply Hp.
Qed.

Lemma current_wf s old : PublicationState.wf s -> PublicationState.current s = Some old -> Generation.wf old.
Proof. intros (_ & _ & _ & _ & Hc & _). apply Hc. Qed.

Lemma settled_wf old owned : Generation.wf old -> retired_wf {| retired_generation := old; remote_owned := owned; unresolved_build := None |}.
Proof. intros Hg. by split. Qed.
Lemma unresolved_wf p : Pending.wf p -> retired_wf (unresolved p).
Proof. intros Hp. split; [by destruct Hp|]. by intros q [= <-]. Qed.

Lemma publish_yields tx c r s pending :
  in_tx tx c r -> PublicationState.wf s -> yields (publish pending tx s) (performs c) (publish_spec c pending r s).
Proof.
  intros Htx Hs. unfold publish, publish_spec, pending_spec. apply yields_pure. intros p Hp. apply yields_guard; [done|]. intros _.
  eapply wanted_then; [done|]. intros tx' Htx'. apply yields_guard; [done|]. intros _. apply yields_guard.
  { apply eq_true_iff_eq. rewrite !orb_true_iff, !negb_true_iff, !Z.eqb_neq, !bool_decide_eq_false.
    destruct (Pending.capture_complete p), (Pending.created p); try naive_solver.
    destruct (decide (Pending.uploaded_pages p = Generation.page_count (Pending.generation p))); [|naive_solver].
    destruct (decide (PublicationState.current_revision s = Pending.expected_current_revision p)); [|naive_solver].
    destruct (decide (PublicationState.current s = Pending.expected_current p)); naive_solver. }
  intros _. destruct (PublicationState.current s) as [old|] eqn:Hold.
  - apply (retire_yields tx' c r); [done|by eapply settled_wf, current_wf|]. intros tx2 Htx2. apply yields_pure. intros revision _.
    by apply performs_ret.
  - apply yields_seq_ret, yields_pure. intros revision _. by apply performs_ret.
Qed.

Lemma abandon_yields tx c r s pending :
  in_tx tx c r -> PublicationState.wf s -> yields (abandon pending tx s) (performs c) (abandon_spec pending r s).
Proof.
  intros Htx Hs. unfold abandon, abandon_spec, pending_spec. apply yields_pure. intros p Hp. apply yields_guard; [done|]. intros _.
  apply yields_guard; [done|]. intros _. apply pending_wf in Hp; [|done].
  apply (retire_yields tx c r); [done|by apply settled_wf; destruct Hp|]. intros tx2 Htx2. by apply performs_ret.
Qed.

Lemma retired_lookup tx c r k : in_tx tx c r -> rows_of tx RETIRED !! k = retired_to_vec <$> retired_rows r !! k.
Proof. intros (_ & _ & _ & _ & _ & _ & H5 & _). by rewrite H5, lookup_fmap. Qed.

Lemma supersede_yields tx c r s expected :
  in_tx tx c r -> PublicationState.wf s -> yields (supersede expected tx s) (performs c) (supersede_spec expected r s).
Proof.
  intros Htx Hs. unfold supersede, supersede_spec, pending_spec. apply yields_pure. intros p Hp. apply yields_guard; [done|]. intros _.
  apply yields_guard; [done|]. intros _. cbv zeta. change ({| retired_generation := Pending.generation p; remote_owned := Pending.created p; unresolved_build := Some p |}) with (unresolved p).
  apply yields_guard; [done|]. intros _. apply (performs_open tx c r); [publication_table|done|]. intros Htx1.
  apply yields_iterate. rewrite (retired_size _ c r) by done. apply yields_guard; [done|]. intros _. apply yields_get.
  rewrite (retired_lookup _ c r) by done. apply yields_guard.
  { apply bool_decide_ext. by rewrite fmap_is_Some. }
  intros _. apply yields_insert. apply performs_ret. apply in_tx_retire; [done|]. apply unresolved_wf. by eapply pending_wf.
Qed.

Lemma check_retired_yields tx c r s x :
  in_tx tx c r -> yields (check_retired tx s x) (fun tx' (_ : unit) => in_tx tx' c r) (retired_spec r s x).
Proof.
  intros Htx. unfold check_retired, retired_spec. cbv zeta. apply yields_guard; [done|]. intros _.
  apply (performs_open tx c r); [publication_table|done|]. intros Htx1. apply yields_get. rewrite (retired_lookup _ c r) by done.
  destruct (retired_rows r !! retirement_key x) as [y|] eqn:Hy; cbn [fmap option_fmap option_map ok_or].
  - rewrite lift_ok_bind. pose proof Htx as (_ & _ & _ & _ & _ & _ & _ & Hwf). pose proof (Hwf _ _ Hy) as Hy'. cbn in Hy'.
    rewrite retired_roundtrip by done. cbn [ok_or]. rewrite lift_ok_bind.
    assert (negb (bool_decide (retired_generation y = retired_generation x)) || negb (Bool.eqb (remote_owned y) (remote_owned x))
        || negb (bool_decide (unresolved_build y = unresolved_build x)) = negb (bool_decide (Some y = Some x))) as ->.
    { rewrite <- !negb_andb. f_equal. apply eq_true_iff_eq. rewrite !andb_true_iff, !bool_decide_eq_true, Bool.eqb_true_iff.
      destruct x, y. cbn. naive_solver. }
    apply yields_tail. intros [] _. by apply yields_ret.
  - rewrite bool_decide_false by done. apply yields_stop.
Qed.

Lemma retired_then {B X} tx c r s x (k : D -> M Pub.t B) (R : B -> X -> Prop) (f : unit -> result Pub.t X) :
  in_tx tx c r -> (forall tx', in_tx tx' c r -> yields (k tx') R (f tt)) ->
  yields (tx ← check_retired tx s x; k tx) R (retired_spec r s x ≫= f).
Proof. intros Htx Hk. eapply yields_bind; [by apply check_retired_yields|]. intros tx' [] _ Htx'. by apply Hk. Qed.

(** The tables that [finish_retirement] sweeps. *)
Definition swept : list (list Z) := [SOURCES; PAGES; EVIDENCE].

Lemma drop_rows_cons r name k keys : drop_rows r name (k :: keys) = drop_rows (drop_rows r name [k]) name keys.
Proof. unfold drop_rows. cbn. by repeat case_bool_decide. Qed.

Lemma in_tx_drop tx c r name k : in_tx tx c r -> name ∈ swept -> in_tx (table_remove tx name k) c (drop_rows r name [k]).
Proof.
  intros Htx Hn. unfold swept in Hn.
  assert (name = SOURCES \/ name = PAGES \/ name = EVIDENCE) as Hname by set_solver. clear Hn.
  eapply in_tx_remove; [done|destruct Hname as [-> |[-> | -> ]]; publication_table|].
  intros (H1 & H2 & H3 & H4 & H5 & H6). unfold holds_rows.
  destruct Hname as [-> |[-> | -> ]]; tables; unfold drop_rows, drop_keys;
    cbn [entries saved_pages saved_evidence retired_rows foldl];
    repeat match goal with |- context [bool_decide (?a = ?b)] =>
      first [rewrite (bool_decide_true (a = b)) by reflexivity | rewrite (bool_decide_false (a = b)) by (vm_compute; discriminate)] end.
  - split_and!; try done; [by rewrite H1, fmap_delete|by apply map_Forall_delete].
  - split_and!; try done. by rewrite H3.
  - split_and!; try done. by rewrite H4.
Qed.

Lemma remove_keys_refines tx c r name keys :
  in_tx tx c r -> name ∈ swept -> outcome (remove_keys tx name keys) (fun tx' => in_tx tx' c (drop_rows r name keys)) (fun _ => False).
Proof.
  intros Htx Hn. revert tx r Htx. induction keys as [|k keys IH]; intros tx r Htx; cbn [remove_keys].
  - apply outcome_ret. unfold drop_rows, drop_keys. cbn. destruct r. by repeat case_bool_decide.
  - eapply outcome_known; [apply refines_remove; auto with eliot|]. cbn [snd]. rewrite drop_rows_cons. apply IH. by apply in_tx_drop.
Qed.

Lemma swept_publication name : name ∈ swept -> name ∈ publication_names.
Proof.
  unfold swept. intros Hn. assert (name = SOURCES \/ name = PAGES \/ name = EVIDENCE) as Hname by set_solver.
  destruct Hname as [-> |[-> | -> ]]; publication_table.
Qed.

Lemma sweep_yields tx c r s x name keys :
  in_tx tx c r -> name ∈ swept -> yields (sweep_rows x name keys tx s) (performs c) (sweep_spec x name keys r s).
Proof.
  intros Htx Hn. unfold sweep_rows, sweep_spec. eapply retired_then; [done|]. intros tx1 Htx1.
  apply (performs_open tx1 c r); [by apply swept_publication|done|]. intros Htx2.
  eapply outcome_bind.
  - eapply outcome_weaken; [by apply remove_keys_refines|intros tx3 Htx3; exact Htx3|done].
  - intros tx3 Htx3. by apply performs_ret.
Qed.

Lemma forget_yields tx c r s x :
  in_tx tx c r -> yields (forget_retired x tx s) (performs c) (forget_spec x r s).
Proof.
  intros Htx. unfold forget_retired, forget_spec. eapply retired_then; [done|]. intros tx1 Htx1.
  apply (performs_open tx1 c r); [publication_table|done|]. intros Htx2. apply yields_remove. cbn [snd].
  apply performs_ret. by apply in_tx_forget.
Qed.

(** ** Whole transactions *)

Definition opened_tx d : D :=
  table_open (table_open (table_open (table_open (table_open d SOURCES) PAGES) EVIDENCE) RETIRED) STATE.

Lemma opened_names d : names_of (opened_tx d) = publication_names ∪ names_of d.
Proof.
  unfold opened_tx. rewrite !names_open. unfold publication_names. change TABLE_NAMES with [STATE; SOURCES; PAGES; EVIDENCE; RETIRED].
  cbn [list_to_set]. set_solver.
Qed.

Lemma opened_in_tx d c g : denotes d c g -> in_tx (opened_tx d) c (rows g).
Proof.
  intros (Hr & Hh & _). split; [|split].
  - apply (represents_frame d); [done|by unfold opened_tx; rewrite !open_multimaps| | |].
    + rewrite opened_names. set_solver.
    + rewrite opened_names. set_solver.
    + intros n _. unfold opened_tx. by rewrite !rows_open.
  - rewrite opened_names. set_solver.
  - unfold holds_rows, opened_tx in *. by rewrite !rows_open.
Qed.

Lemma readable_decode s : readable s -> decode_state (state_to_vec s) = Ok s.
Proof.
  intros (Hwf & Hc & Hl). unfold decode_state. rewrite reject_if_false by solve_bool. cbn [mbind result_bind].
  rewrite state_roundtrip by done. cbn [ok_or mbind result_bind]. by rewrite Hc.
Qed.

(** The header inside the transaction. *)
Lemma header_read d c g :
  denotes d c g ->
  match rows_of (opened_tx d) STATE !! STATE_KEY with
  | Some value => decode_state value
  | None => if bool_decide (STATE ∈ list_tables d) then Err Pub.Corrupt else Ok PublicationState.default
  end = Ok (header_or_default g).
Proof.
  intros (_ & _ & Hs). unfold opened_tx, header_or_default. rewrite !rows_open. destruct (header g) as [s|].
  - destruct Hs as (_ & -> & Hs). by rewrite readable_decode.
  - assert (STATE ∉ names_of d) as Hno by (intros Hin; apply (Hs STATE); [publication_table|done]).
    assert (rows_of d STATE = ∅) as ->.
    { unfold rows_of. unfold names_of in Hno. apply not_elem_of_dom in Hno. by rewrite Hno. }
    rewrite lookup_empty, listed, bool_decide_false by done. done.
Qed.

(** A transaction ready to commit: like [denotes], before the header is known to decode. *)
Definition ready tx c g : Prop :=
  in_tx tx c (rows g) /\ exists s, header g = Some s /\ rows_of tx STATE !! STATE_KEY = Some (state_to_vec s) /\
    len (state_to_vec s) <= 16 * 1024.

Lemma in_tx_state tx c r v : in_tx tx c r -> in_tx (table_insert (table_open tx STATE) STATE STATE_KEY v) c r.
Proof.
  intros Htx. apply (in_tx_insert _ c r); [by apply in_tx_open_pub; [|publication_table]|publication_table|].
  unfold holds_rows. tables. done.
Qed.

Lemma prepare_edit_yields {A} d c g (write : Edit A) (spec : edit_spec A) :
  denotes d c g ->
  (forall tx, in_tx tx c (rows g) -> yields (write tx (header_or_default g)) (performs c) (spec (rows g) (header_or_default g))) ->
  yields (prepare_edit d write) (fun x y => fst x = fst y /\ ready (snd x) c (snd y)) (transaction spec g).
Proof.
  intros Hd Hw. unfold prepare_edit, transaction.
  eapply yields_known; [apply publication_check_refines|]. eapply yields_known; [apply pub_call_refines|].
  eapply yields_known; [apply pub_call_refines|]. cbv zeta. unfold open_tables. do 4 (apply yields_assoc, yields_open). apply yields_seq_ret.
  apply yields_open. apply yields_get. fold (opened_tx d). rewrite (header_read d c g Hd), lift_ok_bind.
  eapply yields_bind; [by apply Hw, opened_in_tx|]. intros [a [tx s]] [a' [r s']] _ (Ea & Es & Htx). cbn [fst snd] in *. subst a' s'.
  eapply yields_bind; [eapply yields_refines, refines_lift|]. intros bytes bytes' Hb ->.
  apply yields_open, yields_insert. eapply yields_known; [apply publication_check_refines|]. apply yields_ret. cbn [fst snd].
  split; [done|]. unfold state_bytes in Hb. apply bind_ok_inv in Hb as ([] & Hl%reject_if_ok & Hb). apply ok_inj in Hb as <-. to_prop.
  split; [by apply in_tx_state|]. exists s. split; [done|]. split; [|done].
  tables. by rewrite lookup_insert_eq.
Qed.

(** What an operation with this specification may answer, and the generations it leaves. *)
Definition settles {A} (spec : edit_spec A) g (answer : result Pub.t A) g' (w : env) : Prop :=
  match answer with
  | Ok a => transaction spec g = Ok (a, g')
  | Err e => (transaction spec g = Err e /\ g' = g) \/
      (~ calm w /\ interrupt e /\ (g' = g \/ exists a, transaction spec g = Ok (a, g')))
  end.

(** The specification keeps the header decodable. *)
Definition keeps {A} (spec : edit_spec A) g : Prop :=
  forall a g' s, transaction spec g = Ok (a, g') -> header g' = Some s -> PublicationState.wf s /\ check_state s = Ok tt.

Lemma ready_denotes tx c g :
  ready tx c g -> (forall s, header g = Some s -> PublicationState.wf s /\ check_state s = Ok tt) -> denotes tx c g.
Proof.
  intros ((Hr & Hsub & Hh) & s & Hs & Hv & Hl) Hk. split; [done|]. split; [done|]. rewrite Hs.
  destruct (Hk s Hs) as [? ?]. done.
Qed.

Lemma edit_settles {A} d c g (write : Edit A) (spec : edit_spec A) w :
  denotes d c g ->
  (forall tx, in_tx tx c (rows g) -> yields (write tx (header_or_default g)) (performs c) (spec (rows g) (header_or_default g))) ->
  keeps spec g ->
  let '((answer, d'), w') := edit_database write d w in
  exists g', denotes d' c g' /\ settles spec g answer g' w /\ (calm w -> calm w').
Proof.
  intros Hd Hw Hk. destruct (prepare_edit_yields d c g write spec Hd Hw w) as [Hres Hcalm]. unfold edit_database.
  unfold run in Hres. destruct (prepare_edit d write w) as [[[a tx]|e] w'] eqn:Ep; cbn [fst snd] in *.
  - destruct Hres as ([a' g'] & Ht & Ea & Hready). cbn [fst snd] in *. subst a'.
    assert (denotes tx c g') as Hd' by (apply ready_denotes; [done|]; intros s; by apply (Hk a g')).
    destruct (commit_cases (E := Pub.t) d tx w') as (b & d' & w'' & -> & Hb & Hc).
    destruct b.
    + subst d'. exists g'. split; [done|]. split; [done|]. intros Hw'. by apply Hc, Hcalm.
    + assert (~ calm w) as Hn by (intros Hw'; by destruct (Hc (Hcalm Hw'))).
      destruct Hb as [-> | -> ].
      * exists g. split; [done|]. split; [|by intros ?]. right. split; [done|]. split; [auto with eliot|]. by left.
      * exists g'. split; [done|]. split; [|by intros ?]. right. split; [done|]. split; [auto with eliot|]. right. eauto.
  - exists g. split; [done|]. split; [|done]. destruct Hres as [He|[Hi Hn]]; [by left|right]. split; [done|]. split; [done|]. by left.
Qed.
End Relation.
