(* ===== verification/PublicationHistory.v ===== *)
(** Publication operations as their callers see them: every operation, under every
    environment, leaves a database of generations that satisfy the invariant, reached by
    whole specified transactions. *)

From stdpp Require Import gmap.
From S2P Require Import Prelude Bytes Ids Registry SourceRow PreparationRow PublicationRow Database Control ControlSpec.
From S2P Require Import ControlRefine ControlState Publication PublicationSpec PublicationRefine PublicationLifecycle.

(** ** Moves: one committed transaction each, except that a start saves its inputs in
    several. *)

Section Moves.
Context `{PublicationJson}.
Implicit Types (c : corpus) (g : generations).

(** Saving chunks of captured sources, one transaction each. *)
Inductive persisted (pending : PendingGeneration) : list (list CapturedSource) -> generations -> generations -> Prop :=
  | persisted_nil g : persisted pending [] g g
  | persisted_cons chunk chunks g g1 g2 :
      transaction (persist_spec pending chunk) g = Ok (tt, g1) -> persisted pending chunks g1 g2 ->
      persisted pending (chunk :: chunks) g g2.

Inductive move c g : generations -> Prop :=
  | move_start capture ns pending chunks rest g1 g2 :
      capture_sound capture ns -> transaction (reserve_spec c capture ns) g = Ok (pending, g1) ->
      Bytes.chunks 32 (Capture.sources capture) = chunks ++ rest -> persisted pending chunks g1 g2 -> move c g g2
  | move_stage pending page g' : page_valid page -> transaction (stage_spec pending page) g = Ok (tt, g') -> move c g g'
  | move_finish pending id units g' : transaction (finish_spec pending id units) g = Ok (tt, g') -> move c g g'
  | move_seal pending p g' : transaction (seal_spec c pending) g = Ok (p, g') -> move c g g'
  | move_dispatch pending operation revision g' :
      transaction (dispatch_spec c pending operation) g = Ok (revision, g') -> move c g g'
  | move_settle pending operation revision applied g' :
      transaction (settle_spec pending operation revision applied) g = Ok (tt, g') -> move c g g'
  | move_publish pending generation g' : transaction (publish_spec c pending) g = Ok (generation, g') -> move c g g'
  | move_abandon pending g' : transaction (abandon_spec pending) g = Ok (tt, g') -> move c g g'
  | move_supersede pending g' : transaction (supersede_spec pending) g = Ok (tt, g') -> move c g g'
  | move_sweep x name keys g' :
      Forall (keyed (Generation.sequence (retired_generation x))) keys ->
      transaction (sweep_spec x name keys) g = Ok (tt, g') -> move c g g'
  | move_forget x g' : unresolved_build x = None -> transaction (forget_spec x) g = Ok (tt, g') -> move c g g'.

(** What a transaction answers and leaves. *)
Lemma transaction_inv {A} (spec : edit_spec A) g a g' :
  transaction spec g = Ok (a, g') ->
  exists s', spec (rows g) (header_or_default g) = Ok (a, (rows g', s')) /\ header g' = Some s'.
Proof.
  intros Ht. unfold transaction in Ht. apply bind_ok_inv in Ht as ([a' [r' s']] & Es & Ht).
  apply bind_ok_inv in Ht as (? & _ & Ht). apply ok_inj in Ht. injection Ht as -> <-. cbn. eauto.
Qed.

Lemma persist_lifecycle K pending chunk g g' :
  lifecycle_with K g -> transaction (persist_spec pending chunk) g = Ok (tt, g') ->
  (forall x, x ∈ chunk -> entry_key (Generation.sequence (Pending.generation pending)) x ∈ K) -> lifecycle_with K g'.
Proof.
  intros Hl Ht Hk. apply (transaction_lifecycle K K (persist_spec pending chunk) g tt g' Hl Ht). intros r' s' Hst E.
  assert (sound K (header_or_default g) (rows g)) as Hs.
  { pose proof E as E'. unfold persist_spec, pending_spec in E'. apply bind_ok_inv in E' as (p & Hp & _). by eapply pending_started. }
  by apply (persist_sound K _ _ _ _ _ _ _ Hs E).
Qed.

Lemma persisted_lifecycle K pending chunks g g' :
  persisted pending chunks g g' -> lifecycle_with K g ->
  (forall chunk x, chunk ∈ chunks -> x ∈ chunk -> entry_key (Generation.sequence (Pending.generation pending)) x ∈ K) -> lifecycle_with K g'.
Proof.
  induction 1 as [g|chunk chunks g g1 g2 Ht Hp IH]; intros Hl Hk; [done|]. apply IH.
  - apply (persist_lifecycle K pending chunk g g1); [done|done|]. intros x Hx. apply (Hk chunk); [apply list_elem_of_here|done].
  - intros ch x Hch Hx. apply (Hk ch); [by apply list_elem_of_further|done].
Qed.

(** The specifications that need a pending build need a sound header. *)
Lemma pending_lifecycle {A} K g (spec : edit_spec A) a g' :
  lifecycle_with K g -> transaction spec g = Ok (a, g') ->
  (forall r s b, spec r s = Ok b -> exists pending p, pending_mut s pending = Ok p) ->
  (forall r s r' s', sound K s r -> spec r s = Ok (a, (r', s')) -> sound K s' r') -> lifecycle_with K g'.
Proof.
  intros Hl Ht Hp Hs. apply (transaction_lifecycle K K spec g a g' Hl Ht). intros r' s' Hst E.
  destruct (Hp _ _ _ E) as (pending & p & Hm). apply (Hs (rows g) (header_or_default g)); [|done]. by eapply pending_started.
Qed.

Lemma retired_lifecycle {A} K g (spec : edit_spec A) a g' :
  lifecycle_with K g -> transaction spec g = Ok (a, g') ->
  (forall r s b, spec r s = Ok b -> exists x u, retired_spec r s x = Ok u) ->
  (forall r s r' s', sound K s r -> spec r s = Ok (a, (r', s')) -> sound K s' r') -> lifecycle_with K g'.
Proof.
  intros Hl Ht Hp Hs. apply (transaction_lifecycle K K spec g a g' Hl Ht). intros r' s' Hst E.
  destruct (Hp _ _ _ E) as (x & u & Hm). apply (Hs (rows g) (header_or_default g)); [|done]. by eapply retired_started.
Qed.

Ltac first_step := intros ? ? ? E; apply bind_ok_inv in E as (? & ? & _); by eexists _, _.

Lemma start_lifecycle K c capture ns pending chunks rest g g1 g2 :
  lifecycle_with K g -> capture_sound capture ns -> transaction (reserve_spec c capture ns) g = Ok (pending, g1) ->
  Bytes.chunks 32 (Capture.sources capture) = chunks ++ rest -> persisted pending chunks g1 g2 ->
  lifecycle_with (capture_keys (Generation.sequence (Pending.generation pending)) (Capture.sources capture)) g2.
Proof.
  intros Hl Hc Ht Hchunks Hp. eapply persisted_lifecycle; [exact Hp| |].
  - apply (transaction_lifecycle K _ (reserve_spec c capture ns) g pending g1 Hl Ht). intros r' s' Hst E.
    by apply (reserve_sound K c capture ns _ _ _ _ _ Hst Hc E).
  - intros chunk x Hchunk Hx. unfold capture_keys. apply elem_of_list_to_set, list_elem_of_fmap. exists x. split; [done|].
    rewrite <- (chunks_concat 32 (Capture.sources capture)) by lia. rewrite Hchunks. apply list_elem_of_In, in_concat.
    exists chunk. split; [|by apply list_elem_of_In]. apply in_app_iff. left. by apply list_elem_of_In.
Qed.

Lemma move_lifecycle c g g' : lifecycle g -> move c g g' -> lifecycle g'.
Proof.
  intros [K Hl] Hm. destruct Hm as [capture ns pending chunks rest g1 g2 Hc Ht Hch Hp|pending page g' Hv Ht|pending id units g' Ht|pending p g' Ht
    |pending op rev g' Ht|pending op rev ap g' Ht|pending gen g' Ht|pending g' Ht|pending g' Ht|x name keys g' Hk Ht|x g' Hx Ht].
  - eexists. by eapply start_lifecycle.
  - exists K. eapply pending_lifecycle; [done|exact Ht|first_step|]. intros; by eapply stage_sound.
  - exists K. eapply pending_lifecycle; [done|exact Ht|first_step|]. intros; by eapply finish_sound.
  - exists K. eapply pending_lifecycle; [done|exact Ht|first_step|]. intros; by eapply seal_sound.
  - exists K. eapply pending_lifecycle; [done|exact Ht|first_step|]. intros; by eapply dispatch_sound.
  - exists K. eapply pending_lifecycle; [done|exact Ht|first_step|]. intros; by eapply settle_sound.
  - exists K. eapply pending_lifecycle; [done|exact Ht|first_step|]. intros; by eapply publish_sound.
  - exists K. eapply pending_lifecycle; [done|exact Ht|first_step|]. intros; by eapply abandon_sound.
  - exists K. eapply pending_lifecycle; [done|exact Ht|first_step|]. intros; by eapply supersede_sound.
  - exists K. eapply retired_lifecycle; [done|exact Ht|first_step|]. intros r s r' s' Hs E. by apply (sweep_sound K s r x name keys tt r' s').
  - exists K. eapply retired_lifecycle; [done|exact Ht|first_step|]. intros r s r' s' Hs E. by apply (forget_sound K s r x tt r' s').
Qed.
End Moves.

(** ** Databases without generations *)

(** No generation yet. *)
Definition fresh : generations := {| header := None; rows := no_rows |}.
Definition unpublished {D} `{Redb D} (d : D) : Prop := publication_names ## names_of d.

Lemma fresh_denotes `{PublicationJson} {D} `{Redb D} (d : D) (c : corpus) : represents d c -> unpublished d -> denotes d c fresh.
Proof.
  intros Hr Hn. assert (forall n, n ∈ publication_names -> rows_of d n = ∅) as Hrows.
  { intros n Hin. unfold rows_of. assert (n ∉ names_of d) as Hno by (intros Hin'; by apply (Hn n)). unfold names_of in Hno.
    apply not_elem_of_dom in Hno. by rewrite Hno. }
  split; [done|]. split; [|done]. unfold holds_rows. cbn. rewrite !Hrows by publication_table. rewrite !fmap_empty. done.
Qed.
Lemma fresh_lifecycle : lifecycle fresh.
Proof. by exists ∅. Qed.
