(* ===== verification/PublicationSample.v ===== *)
(** A concrete codec with the laws of [PublicationJson], and a build of one prepared source
    with one page, taken through its whole life in the map-of-maps store. *)

From stdpp Require Import gmap.
From S2P Require Import Prelude Bytes Ids Registry SourceRow PreparationRow PublicationRow Database Control ControlSpec.
From S2P Require Import ControlRefine ControlState ControlSample Publication PublicationSpec PublicationRefine PublicationLifecycle PublicationHistory.

(** ** A flat codec *)

(** [f] writes cells that [p] reads back, whatever follows. *)
Definition cells {A} (f : A -> list Z) (p : list Z -> option (A * list Z)) : Prop :=
  forall a rest, p (f a ++ rest) = Some (a, rest).

Definition put_option {A} (f : A -> list Z) (o : option A) : list Z := match o with Some a => 1 :: f a | None => [0] end.
Definition take_option {A} (p : list Z -> option (A * list Z)) (l : list Z) : option (option A * list Z) :=
  match l with
  | 1 :: l => '(a, l) ← p l; Some (Some a, l)
  | _ :: l => Some (None, l)
  | [] => None
  end.
Definition take_cell (l : list Z) : option (Z * list Z) := match l with z :: l => Some (z, l) | [] => None end.
Definition put_bytes (b : list Z) : list Z := Z.of_nat (length b) :: b.
Definition read_bytes (l : list Z) : option (list Z * list Z) :=
  match l with n :: l => Some (take (Z.to_nat n) l, drop (Z.to_nat n) l) | [] => None end.
Definition put_bool (b : bool) : list Z := [if b then 1 else 0].
Definition take_bool (l : list Z) : option (bool * list Z) := match l with z :: l => Some (z =? 1, l) | [] => None end.

Lemma cells_option {A} (f : A -> list Z) p : cells f p -> cells (put_option f) (take_option p).
Proof. intros Hf [a|] rest; [|done]. cbn. by rewrite Hf. Qed.
Lemma cells_bytes : cells put_bytes read_bytes.
Proof. intros b rest. cbn. by rewrite Nat2Z.id, take_app_length, drop_app_length. Qed.
Lemma cells_bool : cells put_bool take_bool.
Proof. by intros [] rest. Qed.

Definition put_generation (x : Generation) : list Z :=
  [Generation.sequence x; Generation.wanted_revision x; Generation.source_count x; Generation.gap_count x;
   Generation.point_count x; Generation.page_count x] ++ put_bytes (Generation.namespace x).
Definition take_generation (l : list Z) : option (Generation * list Z) :=
  match l with
  | s :: w :: sc :: gc :: pc :: gp :: l =>
      '(n, l) ← read_bytes l;
      Some ({| Generation.namespace := n; Generation.sequence := s; Generation.wanted_revision := w;
               Generation.source_count := sc; Generation.gap_count := gc; Generation.point_count := pc;
               Generation.page_count := gp |}, l)
  | _ => None
  end.
Lemma cells_generation : cells put_generation take_generation.
Proof. intros [] rest. cbn [take_generation put_generation app]. by rewrite cells_bytes. Qed.

Definition put_operation (o : PendingOperation) : list Z := match o with Create => [0; 0] | Insert page => [1; page] end.
Definition take_operation (l : list Z) : option (PendingOperation * list Z) :=
  match l with 0 :: _ :: l => Some (Create, l) | _ :: page :: l => Some (Insert page, l) | _ => None end.
Lemma cells_operation : cells put_operation take_operation.
Proof. by intros [|page] rest. Qed.

Definition put_pending (p : PendingGeneration) : list Z :=
  [Pending.uploaded_pages p; Pending.operation_revision p; Pending.completed_sources p; Pending.staged_bytes p;
   Pending.expected_current_revision p]
  ++ put_bool (Pending.capture_complete p) ++ put_bool (Pending.created p)
  ++ put_generation (Pending.generation p) ++ put_option put_operation (Pending.in_flight p)
  ++ put_option put_bytes (Pending.source_namespace p) ++ put_option put_generation (Pending.expected_current p).
Definition take_pending (l : list Z) : option (PendingGeneration * list Z) :=
  match l with
  | up :: rev :: cs :: sb :: er :: l =>
      '(cc, l) ← take_bool l; '(cr, l) ← take_bool l; '(g, l) ← take_generation l;
      '(fl, l) ← take_option take_operation l; '(ns, l) ← take_option read_bytes l; '(ec, l) ← take_option take_generation l;
      Some ({| Pending.generation := g; Pending.capture_complete := cc; Pending.created := cr; Pending.uploaded_pages := up;
               Pending.in_flight := fl; Pending.operation_revision := rev; Pending.completed_sources := cs;
               Pending.staged_bytes := sb; Pending.source_namespace := ns; Pending.expected_current_revision := er;
               Pending.expected_current := ec |}, l)
  | _ => None
  end.

(** Reads the next field back. *)
Ltac cell H := rewrite <- ?(assoc_L (++)); rewrite H; cbn [mbind option_bind].

Lemma cells_pending : cells put_pending take_pending.
Proof.
  intros [] rest. unfold put_pending. cbn [Pending.generation Pending.capture_complete Pending.created Pending.uploaded_pages Pending.in_flight
    Pending.operation_revision Pending.completed_sources Pending.staged_bytes Pending.source_namespace Pending.expected_current_revision
    Pending.expected_current take_pending app].
  cell cells_bool. cell cells_bool. cell cells_generation. cell (cells_option _ _ cells_operation).
  cell (cells_option _ _ cells_bytes). cell (cells_option _ _ cells_generation). done.
Qed.

Definition put_state (s : State) : list Z :=
  [PublicationState.version s; PublicationState.next_sequence s; PublicationState.current_revision s]
  ++ put_option put_bytes (PublicationState.namespace s) ++ put_option put_generation (PublicationState.current s)
  ++ put_option put_pending (PublicationState.pending s).
Definition take_state (l : list Z) : option (State * list Z) :=
  match l with
  | v :: n :: r :: l =>
      '(ns, l) ← take_option read_bytes l; '(c, l) ← take_option take_generation l; '(p, l) ← take_option take_pending l;
      Some ({| PublicationState.version := v; PublicationState.namespace := ns; PublicationState.next_sequence := n;
               PublicationState.current_revision := r; PublicationState.current := c; PublicationState.pending := p |}, l)
  | _ => None
  end.
Lemma cells_state : cells put_state take_state.
Proof.
  intros [] rest. unfold put_state. cbn [PublicationState.version PublicationState.namespace PublicationState.next_sequence
    PublicationState.current_revision PublicationState.current PublicationState.pending take_state app].
  cell (cells_option _ _ cells_bytes). cell (cells_option _ _ cells_generation). cell (cells_option _ _ cells_pending). done.
Qed.

Definition put_retired (x : RetiredGeneration) : list Z :=
  put_bool (remote_owned x) ++ put_generation (retired_generation x) ++ put_option put_pending (unresolved_build x).
Definition take_retired (l : list Z) : option (RetiredGeneration * list Z) :=
  '(o, l) ← take_bool l; '(g, l) ← take_generation l; '(u, l) ← take_option take_pending l;
  Some ({| retired_generation := g; remote_owned := o; unresolved_build := u |}, l).
Lemma cells_retired : cells put_retired take_retired.
Proof.
  intros [x o u] rest. unfold put_retired, take_retired. cbn [remote_owned retired_generation unresolved_build].
  cell cells_bool. cell cells_generation. cell (cells_option _ _ cells_pending). done.
Qed.

(** ** The types are decidable *)

#[local] Instance option_all_dec {A} (P : A -> Prop) `{forall a, Decision (P a)} (o : option A) : Decision (forall a, o = Some a -> P a).
Proof.
  refine (match o with Some a => cast_if (decide (P a)) | None => left _ end).
  - by intros a' [= <-].
  - intros Hn. by apply n, Hn.
  - done.
Defined.
#[local] Instance uuid_wf_dec u : Decision (Uuid.wf u).
Proof. unfold Uuid.wf. apply _. Defined.
#[local] Instance generation_wf_dec x : Decision (Generation.wf x).
Proof. unfold Generation.wf. apply _. Defined.
#[local] Instance operation_wf_dec (o : option PendingOperation) : Decision (forall page, o = Some (Insert page) -> 0 <= page <= U64_MAX).
Proof.
  refine (match o with Some (Insert page) => cast_if (decide (0 <= page <= U64_MAX)) | _ => left _ end); try by intros.
  - by intros q [= <-].
  - intros Hn. by apply n, Hn.
Defined.
#[local] Instance pending_wf_dec p : Decision (Pending.wf p).
Proof. unfold Pending.wf. apply _. Defined.
#[local] Instance state_wf_dec s : Decision (PublicationState.wf s).
Proof. unfold PublicationState.wf. apply _. Defined.
#[local] Instance retired_wf_dec x : Decision (retired_wf x).
Proof. unfold retired_wf. apply _. Defined.

(** The values of the type that cells stand for. *)
Definition typed {A} (P : A -> Prop) `{forall a, Decision (P a)} (o : option (A * list Z)) : option A :=
  '(a, _) ← o; if decide (P a) then Some a else None.

#[export] Instance sample_publication_json : PublicationJson.
Proof.
  refine {| state_from_slice v := typed PublicationState.wf (take_state v); state_to_vec := put_state;
            retired_from_slice v := typed retired_wf (take_retired v); retired_to_vec := put_retired |}.
  - intros s Hs. rewrite <- (app_nil_r (put_state s)), cells_state. cbn. by rewrite decide_True.
  - intros v s Hs. unfold typed in Hs. destruct (take_state v) as [[s' l]|]; [|done]. cbn in Hs. case_decide; [|done]. by injection Hs as <-.
  - intros x Hx. rewrite <- (app_nil_r (put_retired x)), cells_retired. cbn. by rewrite decide_True.
  - intros v x Hx. unfold typed in Hx. destruct (take_retired v) as [[x' l]|]; [|done]. cbn in Hx. case_decide; [|done]. by injection Hx as <-.
Defined.

(** ** A build *)

Definition sample_generation_namespace : list Z := repeat 3 16.
Definition sample_artifact : ObjectRef := prepared_ref (repeat 8 32) 7.
Definition sample_captured_source : CapturedSource :=
  {| captured_source := sample_record;
     captured_preparation :=
       {| prep_namespace := sample_namespace; prep_source_id := sample_id; settings_revision := 1; settings := default_settings;
          outcome_revision := 1;
          current_outcome := Some
            {| source_row_revision := 1; bound_registration := 1; input := object_ref sample_record;
               bound_settings := default_settings; outcome_result := Ready sample_artifact |} |} |}.
Definition sample_corpus_capture : CorpusCapture :=
  {| Capture.sources := [sample_captured_source]; Capture.current := None; Capture.pending := None;
     Capture.source_namespace := Some sample_namespace; Capture.wanted_revision := 1; Capture.state := PublicationState.default |}.
Definition sample_page : UploadPage :=
  {| page_points :=
       [{| point_id := be_bytes 8 1 ++ be_bytes 8 0;
           point_evidence :=
             {| PointEvidence.source_namespace_id := sample_namespace; PointEvidence.source_id := sample_id;
                PointEvidence.input := object_ref sample_record; PointEvidence.prepared := sample_artifact;
                PointEvidence.unit := 0; PointEvidence.start := 0; PointEvidence.stop := 5; PointEvidence.line_start := 0;
                PointEvidence.line_end := 1; PointEvidence.starts_at_line_boundary := true;
                PointEvidence.ends_at_line_boundary := true |} |}];
     request_bytes := Some 1000 |}.

(** The pending build that a calm operation leaves. *)
Definition sample_after {A} (m : Db A) (d : store) : store := snd (fst (m d [])).
Definition sample_pending (d : store) : PendingGeneration :=
  match run (read_state d) [] with
  | Ok s => default (fresh_build sample_corpus_capture [] s 0) (PublicationState.pending s)
  | Err _ => fresh_build sample_corpus_capture [] PublicationState.default 0
  end.
Definition sample_on {A} (m : PendingGeneration -> Db A) (d : store) : store := sample_after (m (sample_pending d)) d.

Definition sample_started : store := sample_after (start_build sample_corpus_capture sample_generation_namespace) sample_store.
Definition sample_sealed : store :=
  sample_on complete_capture (sample_on (fun p => finish_source p sample_id 1) (sample_on (fun p => stage_page p sample_page) sample_started)).
Definition sample_sent : store := sample_on (fun p => record_dispatch p Create) sample_sealed.
Definition sample_uploaded : store :=
  sample_on (fun p => finish_dispatch p (Insert 0) 2 true)
    (sample_on (fun p => record_dispatch p (Insert 0)) (sample_on (fun p => finish_dispatch p Create 1 true) sample_sent)).
Definition sample_published : store := sample_on commit_generation sample_uploaded.

(** Closed facts about bytes and widths. *)
Ltac closed_fact := first [apply (bool_decide_eq_true_1 _); vm_compute; reflexivity | width | done].

Lemma sample_row_ok : row_ok sample_record.
Proof. pose proof sample_represents as (_ & _ & (_ & _ & _ & _ & _ & _ & Hwf)). by apply (Hwf : corpus_wf sample_corpus) with sample_id. Qed.

Lemma sample_artifact_wf : object_wf sample_artifact.
Proof. split; [closed_fact|split; [split; closed_fact|closed_fact]]. Qed.

Lemma sample_entry_valid : entry_valid (new_entry sample_captured_source).
Proof.
  pose proof sample_row_ok as (Hw & He & _). pose proof sample_content as (_ & Ho & _). split; [done|]. split; [done|].
  split; [|split; [vm_compute; reflexivity|cbn; width]]. split; [|vm_compute; reflexivity].
  assert (settings_wf default_settings) as Hs by (unfold settings_wf; split_and!; closed_fact).
  refine (conj _ (conj _ (conj _ (conj Hs (conj _ _))))); cbn; [split; closed_fact|split; closed_fact|closed_fact|closed_fact|].
  refine (conj _ (conj _ (conj _ (conj Hs _)))); cbn; [closed_fact|closed_fact|exact Ho|exact sample_artifact_wf].
Qed.

Lemma sample_capture_sound : capture_sound sample_corpus_capture sample_generation_namespace.
Proof.
  split; [by repeat constructor; apply sample_entry_valid|]. split; [vm_compute; discriminate|]. split; [cbn; width|].
  split; [intros n [= <-]; split; closed_fact|]. split; closed_fact.
Qed.

Lemma sample_fresh : denotes sample_store sample_corpus fresh.
Proof. apply fresh_denotes; [exact sample_represents|]. unfold unpublished. apply (bool_decide_eq_true_1 _). vm_compute. reflexivity. Qed.
