(* ===== verification/PublicationOutcome.v ===== *)
(** Publication operations as their callers see them: what each one answers and which
    generations it leaves, under every environment, and that it leaves them by moves of the
    invariant. *)

From stdpp Require Import gmap.
From S2P Require Import Prelude Bytes Ids Registry SourceRow PreparationRow PublicationRow Database Control ControlSpec.
From S2P Require Import ControlRefine ControlState ControlSample Publication PublicationSpec PublicationRefine PublicationLifecycle PublicationHistory PublicationSample.

Section Outcomes.
Context `{PublicationJson} {D : Type} `{Redb D}.
Implicit Types (d : D) (c : corpus) (g : generations) (w : env).

(** [guides c g m I Q X]: on every database of [g], [m] leaves generations satisfying [I];
    a value satisfies [Q] with them, and an error [X], unless the environment interrupted. *)
Definition guides {A} c g (m : Db A) (I : generations -> Prop) (Q : A -> generations -> Prop)
    (X : Pub.t -> generations -> Prop) : Prop :=
  forall d w, denotes d c g ->
    let '((answer, d'), w') := m d w in
    exists g', denotes d' c g' /\ I g' /\ (calm w -> calm w') /\
      match answer with Ok a => Q a g' | Err e => X e g' \/ (interrupt e /\ ~ calm w) end.

Lemma guides_ret {A} c g (a : A) (I : generations -> Prop) (Q : A -> generations -> Prop) X :
  I g -> Q a g -> guides c g (mret a) I Q X.
Proof. intros HI HQ d w Hd. cbn. by exists g. Qed.

Lemma guides_bind {A B} c g (m : Db A) (k : A -> Db B) I Q X (I' : generations -> Prop) Q' (X' : Pub.t -> generations -> Prop) :
  guides c g m I Q X -> (forall g', I g' -> I' g') -> (forall e g', I g' -> X e g' -> X' e g') ->
  (forall a g', I g' -> Q a g' -> guides c g' (k a) I' Q' X') -> guides c g (m ≫= k) I' Q' X'.
Proof.
  intros Hm HI HX Hk d w Hd. specialize (Hm d w Hd). unfold mbind, Db_bind. destruct (m d w) as [[[a|e] d'] w'].
  - destruct Hm as (g' & Hd' & Hi & Hc & Hq). specialize (Hk a g' Hi Hq d' w' Hd'). destruct (k a d' w') as [[answer d''] w''].
    destruct Hk as (g'' & ? & ? & Hc' & Ha). exists g''. split; [done|]. split; [done|]. split; [auto|]. destruct answer; [done|].
    destruct Ha as [Ha|[? Hn]]; [by left|right]. split; [done|]. intros Hw. apply Hn. auto.
  - destruct Hm as (g' & Hd' & Hi & Hc & Hx). exists g'. split; [done|]. split; [auto|]. split; [done|]. destruct Hx; auto.
Qed.

Lemma guides_weaken {A} c g (m : Db A) I Q X (I' : generations -> Prop) (Q' : A -> generations -> Prop) (X' : Pub.t -> generations -> Prop) :
  guides c g m I Q X -> (forall g', I g' -> I' g') -> (forall a g', I g' -> Q a g' -> Q' a g') ->
  (forall e g', I g' -> X e g' -> X' e g') -> guides c g m I' Q' X'.
Proof.
  intros Hm HI HQ HX d w Hd. specialize (Hm d w Hd). destruct (m d w) as [[answer d'] w'].
  destruct Hm as (g' & ? & ? & ? & Ha). exists g'. split; [done|]. split; [auto|]. split; [done|].
  destruct answer; [auto|]. destruct Ha; auto.
Qed.

(** A read leaves everything as it is. *)
Lemma guides_read {A} c g (m : D -> M Pub.t A) (Q : A -> Prop) (X : Pub.t -> Prop) :
  (forall d, denotes d c g -> outcome (m d) Q X) ->
  guides c g (db_read m) (fun g' => g' = g) (fun a _ => Q a) (fun e _ => X e).
Proof.
  intros Hm d w Hd. destruct (Hm d Hd w) as [Hr Hc]. unfold db_read, run in *. destruct (m d w) as [r w'].
  exists g. by split_and!.
Qed.

(** What a transaction may leave. *)
Definition edited {A} (spec : edit_spec A) g g' : Prop := g' = g \/ exists a, transaction spec g = Ok (a, g').

Lemma guides_edit {A} c g (write : Edit A) (spec : edit_spec A) :
  lifecycle g -> (forall a g', transaction spec g = Ok (a, g') -> lifecycle g') ->
  (forall tx, in_tx tx c (rows g) -> yields (write tx (header_or_default g)) (performs c) (spec (rows g) (header_or_default g))) ->
  guides c g (edit_database write) (edited spec g) (fun a g' => transaction spec g = Ok (a, g'))
    (fun e g' => transaction spec g = Err e /\ g' = g).
Proof.
  intros Hl Hm Hw d w Hd. pose proof (edit_settles d c g write spec w Hd Hw) as Hs.
  assert (keeps spec g) as Hk.
  { intros a g' s Ht Es. destruct (Hm a g' Ht) as [K Hl']. pose proof (sound_header K g' s Hl' Es) as Hh.
    split; [apply Hh|]. apply check_state_sound; [apply Hh|done]. }
  specialize (Hs Hk). destruct (edit_database write d w) as [[answer d'] w']. destruct Hs as (g' & Hd' & Ha & Hc).
  exists g'. split; [done|]. unfold edited. destruct answer as [a|e]; cbn in Ha.
  - split; [right; by exists a|]. by split.
  - destruct Ha as [[? ->]|(? & ? & Hg)]; [|by auto]. split; [by left|]. split; [done|]. by left.
Qed.

(** [edit_path] opens the file first. *)
Lemma guides_path {A} c g (write : Edit A) (spec : edit_spec A) :
  lifecycle g -> (forall a g', transaction spec g = Ok (a, g') -> lifecycle g') ->
  (forall tx, in_tx tx c (rows g) -> yields (write tx (header_or_default g)) (performs c) (spec (rows g) (header_or_default g))) ->
  guides c g (edit_path write) (edited spec g) (fun a g' => transaction spec g = Ok (a, g'))
    (fun e g' => transaction spec g = Err e /\ g' = g).
Proof.
  intros Hl Hm Hw. unfold edit_path. eapply guides_bind.
  - apply (guides_read _ _ _ (fun _ => True) (fun _ => False)). intros d Hd.
    eapply outcome_known; [apply publication_check_refines|]. eapply outcome_refines; [apply pub_call_refines|done|done].
  - intros g' ->. by left.
  - done.
  - intros [] g' -> _. by apply guides_edit.
Qed.

(** The header of generations satisfying the invariant has the types of the code. *)
Lemma lifecycle_typed g : lifecycle g -> PublicationState.wf (header_or_default g).
Proof.
  intros [K Hl]. unfold lifecycle_with, header_or_default in *. destruct (header g) as [s|]; [apply Hl|]. cbn.
  unfold PublicationState.wf, PublicationState.default. cbn. split_and!; try done; width.
Qed.

(** A move keeps the invariant. *)
Lemma edited_moves {A} c (spec : edit_spec A) g g' :
  (forall a g', transaction spec g = Ok (a, g') -> move c g g') -> edited spec g g' -> rtc (move c) g g'.
Proof. intros Hm [->|[a Ha]]; [done|]. by eapply rtc_once, Hm. Qed.

Lemma moves_lifecycle c g g' : rtc (move c) g g' -> lifecycle g -> lifecycle g'.
Proof. induction 1 as [|g g1 g2 Hm _ IH]; [done|]. intros Hl. by eapply IH, move_lifecycle. Qed.

(** ** Operations of one transaction *)

(** An operation whose transaction has this specification. *)
Definition implements {A} c g (m : Db A) (spec : edit_spec A) : Prop :=
  guides c g m (edited spec g) (fun a g' => transaction spec g = Ok (a, g')) (fun e g' => transaction spec g = Err e /\ g' = g).

Lemma implements_edit {A} c g (write : Edit A) (spec : edit_spec A) :
  lifecycle g -> (forall a g', transaction spec g = Ok (a, g') -> move c g g') ->
  (forall tx, in_tx tx c (rows g) -> yields (write tx (header_or_default g)) (performs c) (spec (rows g) (header_or_default g))) ->
  implements c g (edit_database write) spec.
Proof. intros Hl Hm. apply guides_edit; [done|]. intros a g' Ht. by eapply move_lifecycle, Hm. Qed.

Lemma finish_source_implements c g pending id units :
  lifecycle g -> implements c g (finish_source pending id units) (finish_spec pending id units).
Proof.
  intros Hl. apply implements_edit; [done| |intros; by apply finish_yields]. intros [] g' Ht. by eapply move_finish.
Qed.
Lemma complete_capture_implements c g pending : lifecycle g -> implements c g (complete_capture pending) (seal_spec c pending).
Proof. intros Hl. apply implements_edit; [done| |intros; by apply seal_yields]. intros p g' Ht. by eapply move_seal. Qed.
Lemma record_dispatch_implements c g pending operation :
  lifecycle g -> implements c g (record_dispatch pending operation) (dispatch_spec c pending operation).
Proof. intros Hl. apply implements_edit; [done| |intros; by apply dispatch_yields]. intros rev g' Ht. by eapply move_dispatch. Qed.
Lemma finish_dispatch_implements c g pending operation revision applied :
  lifecycle g -> implements c g (finish_dispatch pending operation revision applied) (settle_spec pending operation revision applied).
Proof. intros Hl. apply implements_edit; [done| |intros; by apply settle_yields]. intros [] g' Ht. by eapply move_settle. Qed.
Lemma abandon_build_implements c g pending : lifecycle g -> implements c g (abandon_build pending) (abandon_spec pending).
Proof.
  intros Hl. apply implements_edit; [done| |intros; by apply abandon_yields, lifecycle_typed]. intros [] g' Ht. by eapply move_abandon.
Qed.
Lemma supersede_implements c g pending : lifecycle g -> implements c g (supersede_unknown_build pending) (supersede_spec pending).
Proof.
  intros Hl. apply implements_edit; [done| |intros; by apply supersede_yields, lifecycle_typed]. intros [] g' Ht. by eapply move_supersede.
Qed.
Lemma publish_implements c g pending : lifecycle g -> implements c g (edit_path (publish pending)) (publish_spec c pending).
Proof.
  intros Hl. apply guides_path; [done| |intros; by apply publish_yields, lifecycle_typed]. intros gen g' Ht.
  by eapply move_lifecycle, move_publish.
Qed.

(** ** Staging a page *)

Lemma encode_page_steps page : outcome (encode_page page) (fun _ => True) (fun _ => True).
Proof.
  unfold encode_page. apply outcome_pure; [intros size _|done]. apply outcome_pure; [intros n _|done].
  apply outcome_seq; [apply refines_reserve; auto with eliot|]. apply outcome_pure; [intros count _; by apply outcome_ret|done].
Qed.

Lemma stage_page_guides c g pending page :
  lifecycle g -> Forall point_wf (page_points page) ->
  guides c g (stage_page pending page) (fun g' => page_valid page /\ edited (stage_spec pending page) g g' \/ g' = g)
    (fun a g' => page_valid page /\ transaction (stage_spec pending page) g = Ok (a, g'))
    (fun e g' => g' = g /\ (page_valid page -> transaction (stage_spec pending page) g = Err e)).
Proof.
  intros Hl Hwf. unfold stage_page. eapply guides_bind.
  - apply (guides_read _ _ _ (fun bytes => page_valid page /\ bytes = stored_page page) (fun e => ~ page_valid page)).
    intros d _. assert (page_valid page \/ ~ page_valid page) as [Hv|Hv].
    { destruct (run (encode_page page) []) as [bytes|e] eqn:E; [left; by eapply encode_page_inv|right]. intros Hv.
      pose proof (refines_calm _ _ [] (encode_page_ok page Hv) ltac:(constructor)) as Hok. congruence. }
    + eapply outcome_refines; [by apply encode_page_ok|by intros bytes [= <-]|done].
    + intros w. split.
      * destruct (run (encode_page page) w) as [bytes|e] eqn:E; [|by left]. destruct Hv. by eapply encode_page_inv.
      * by apply (encode_page_steps page w).
  - intros g' ->. by right.
  - intros e g' -> Hn. by split.
  - intros bytes g' -> [Hv ->]. eapply guides_weaken; [apply (guides_edit c g _ (stage_spec pending page)); [done| |]|..].
    + intros [] g' Ht. by apply (move_lifecycle c g), (move_stage c g pending page).
    + intros. by apply stage_yields.
    + intros g' Hg. by left.
    + by intros.
    + intros e g' _ [? ->]. by split.
Qed.

(** ** Starting a build *)

Lemma encode_chunk_refines pending chunk :
  Forall (fun x => entry_valid (new_entry x)) chunk ->
  refines (encode_chunk pending chunk)
    (Ok ((fun x => (entry_key (Generation.sequence (Pending.generation pending)) x, stored_entry (new_entry x))) <$> chunk)).
Proof.
  induction 1 as [|x chunk Hx Hv IH]; cbn [encode_chunk fmap list_fmap]; [apply refines_ret|].
  eapply refines_bind_ok; [apply (encode_entry (new_entry x)), Hx|]. eapply refines_bind_ok; [exact IH|]. apply refines_ret.
Qed.

(** The chunks whose keys the capture of the build covers. *)
Definition covered (K : gset (list Z)) (pending : PendingGeneration) (chunks : list (list CapturedSource)) : Prop :=
  Forall (fun chunk => Forall (fun x => entry_valid (new_entry x)) chunk /\
    forall x, x ∈ chunk -> entry_key (Generation.sequence (Pending.generation pending)) x ∈ K) chunks.

Lemma persist_chunks_guides K c g pending chunks :
  lifecycle_with K g -> covered K pending chunks ->
  guides c g (persist_chunks pending chunks) (fun g' => exists saved rest, chunks = saved ++ rest /\ persisted pending saved g g')
    (fun _ g' => persisted pending chunks g g')
    (fun e g' => exists saved chunk rest, chunks = saved ++ chunk :: rest /\ persisted pending saved g g' /\
       transaction (persist_spec pending chunk) g' = Err e).
Proof.
  intros Hl Hcov. revert g Hl. induction Hcov as [|chunk chunks [Hv Hk] Hcov IH]; intros g Hl; cbn [persist_chunks].
  - apply guides_ret; [exists [], []; split; [done|constructor]|constructor].
  - eapply guides_bind.
    + apply (guides_read _ _ _ (fun rows => rows = (fun x => (entry_key (Generation.sequence (Pending.generation pending)) x, stored_entry (new_entry x))) <$> chunk)
        (fun _ => False)). intros d _. eapply outcome_seq; [apply publication_check_refines|].
      eapply outcome_refines; [by apply encode_chunk_refines|by intros ? [= <-]|done].
    + intros g' ->. exists [], (chunk :: chunks). split; [done|constructor].
    + done.
    + intros rows g' -> ->. eapply guides_bind.
      * apply (guides_edit c g _ (persist_spec pending chunk)); [by exists K| |intros; by apply persist_yields].
        intros [] g' Ht. exists K. by eapply persist_lifecycle.
      * intros g' [->|[[] Ht]]; [exists [], (chunk :: chunks); split; [done|constructor]|].
        exists [chunk], chunks. split; [done|]. econstructor; [exact Ht|constructor].
      * intros e g' _ [Ht ->]. exists [], chunk, chunks. split; [done|]. split; [constructor|done].
      * intros [] g' _ Ht. eapply guides_weaken; [apply (IH g'); by eapply persist_lifecycle|..].
        -- intros g2 (l & rest & E & Hp). exists (chunk :: l), rest. rewrite E. split; [done|by econstructor].
        -- intros [] g2 ? Hp. by econstructor.
        -- intros e g2 _ (l & ch & rest & E & Hp & He). exists (chunk :: l), ch, rest. rewrite E. split; [done|]. split; [by econstructor|done].
Qed.

(** The namespace of a new build. *)
Definition build_namespace (capture : CorpusCapture) (random : list Z) : list Z :=
  default random (PublicationState.namespace (Capture.state capture)).

(** What [start_build] may leave: nothing, or its reservation with some of its inputs. *)
Definition begun c (capture : CorpusCapture) (random : list Z) g g' : Prop :=
  g' = g \/ exists pending saved rest g1,
    transaction (reserve_spec c capture (build_namespace capture random)) g = Ok (pending, g1) /\
    Bytes.chunks 32 (Capture.sources capture) = saved ++ rest /\ persisted pending saved g1 g'.

Lemma start_build_guides c g capture random :
  lifecycle g -> capture_sound capture (build_namespace capture random) ->
  guides c g (start_build capture random) (begun c capture random g)
    (fun pending g' => exists g1, transaction (reserve_spec c capture (build_namespace capture random)) g = Ok (pending, g1) /\
       persisted pending (Bytes.chunks 32 (Capture.sources capture)) g1 g')
    (fun e g' => (g' = g /\ transaction (reserve_spec c capture (build_namespace capture random)) g = Err e) \/
       exists pending saved chunk rest g1, transaction (reserve_spec c capture (build_namespace capture random)) g = Ok (pending, g1) /\
         Bytes.chunks 32 (Capture.sources capture) = saved ++ chunk :: rest /\ persisted pending saved g1 g' /\
         transaction (persist_spec pending chunk) g' = Err e).
Proof.
  intros [K Hl] Hc. unfold start_build. eapply guides_bind.
  { apply (guides_read _ _ _ (fun ns => ns = build_namespace capture random) (fun _ => False)). intros d _. unfold build_namespace.
    destruct (PublicationState.namespace (Capture.state capture)) as [ns|]; [by apply outcome_ret|].
    eapply outcome_seq; [apply refines_call; auto with eliot|]. by apply outcome_ret. }
  { intros g' ->. by left. }
  { done. }
  intros ns g' -> ->.
  assert (forall pending g1, transaction (reserve_spec c capture (build_namespace capture random)) g = Ok (pending, g1) ->
    lifecycle_with (capture_keys (Generation.sequence (Pending.generation pending)) (Capture.sources capture)) g1) as Hres.
  { intros pending g1 Ht. by eapply (start_lifecycle K c capture _ pending [] _ g g1 g1 Hl Hc Ht); [reflexivity|constructor]. }
  eapply guides_bind.
  { apply (guides_edit c g _ (reserve_spec c capture (build_namespace capture random))); [by exists K| |intros; by apply reserve_yields].
    intros pending g1 Ht. eexists. by apply Hres. }
  { intros g' [->|[pending Ht]]; [by left|right]. exists pending, [], (Bytes.chunks 32 (Capture.sources capture)), g'.
    split; [done|]. split; [done|constructor]. }
  { intros e g' _ [Ht ->]. by left. }
  intros pending g1 _ Ht. pose proof (Hres _ _ Ht) as Hl1. eapply guides_bind.
  - unfold persist_captured_inputs. eapply (persist_chunks_guides _ c g1); [exact Hl1|].
    destruct Hc as (Hv & _). apply Forall_forall. intros chunk Hchunk.
    assert (forall x, x ∈ chunk -> x ∈ Capture.sources capture) as Hin.
    { intros x Hx. rewrite <- (chunks_concat 32 (Capture.sources capture)) by lia. apply list_elem_of_In, in_concat. exists chunk.
      split; by apply list_elem_of_In. }
    split.
    + apply Forall_forall. intros x Hx. rewrite Forall_forall in Hv. by apply Hv, Hin.
    + intros x Hx. apply elem_of_list_to_set, list_elem_of_fmap. exists x. split; [done|by apply Hin].
  - intros g' (saved & rest & Hch & Hp). right. by exists pending, saved, rest, g1.
  - intros e g' _ (saved & chunk & rest & Hch & Hp & He). right. by exists pending, saved, chunk, rest, g1.
  - intros [] g' (saved & rest & Hch & Hp) Hp'. apply guides_ret; [right; by exists pending, saved, rest, g1|]. by exists g1.
Qed.

(** ** Reading the header *)

Lemma read_state_refines d c g : denotes d c g -> refines (read_state d) (Ok (header_or_default g)).
Proof.
  intros (_ & _ & Hs). unfold read_state, open_optional, header_or_default. apply refines_assoc. eapply refines_seq; [apply pub_call_refines|]. apply refines_seq_ret.
  rewrite listed. destruct (header g) as [s|].
  - destruct Hs as (Hsub & Hrow & Hread). rewrite bool_decide_true by (apply Hsub; publication_table).
    eapply refines_bind_ok; [apply refines_get; auto with eliot|]. rewrite Hrow. cbn [ok_or]. rewrite lift_ok_bind.
    rewrite readable_decode by done. apply refines_lift.
  - rewrite bool_decide_false; [apply refines_ret|]. intros Hin. apply (Hs STATE); [publication_table|done].
Qed.

(** Work framed by a last check. *)
Lemma outcome_last {A} (m : M Pub.t A) (last : M Pub.t unit) (Q : A -> Prop) X :
  outcome m Q X -> refines last (Ok tt) ->
  outcome (match_result m (fun result => match_result last (fun after => lift (value ← result; _ ← after; Ok value)))) Q X.
Proof.
  intros Hm Hl w. destruct (Hm w) as [Hr Hc]. unfold run, match_result in *. destruct (m w) as [r w'] eqn:E. cbn in *.
  destruct (outcome_refines last _ (fun _ => True) (fun _ => False) Hl ltac:(done) ltac:(done) w') as [Ha Hc'].
  unfold run in Ha. destruct (last w') as [a w'']. cbn in *. split; [|auto].
  destruct r as [v|e]; cbn; [|done]. destruct a as [[]|e]; cbn; [done|]. destruct Ha as [[]|[? Hn]]. right. split; [done|]. auto.
Qed.

Lemma outcome_observe {A} d (read : D -> M Pub.t A) (Q : A -> Prop) X :
  outcome (read d) Q X -> outcome (observe_database d read) Q X.
Proof.
  intros Hr. unfold observe_database. eapply outcome_seq; [apply publication_check_refines|].
  eapply outcome_seq; [apply pub_call_refines|]. apply outcome_last; [done|apply publication_check_refines].
Qed.

Lemma outcome_observe_path {A} d (read : D -> M Pub.t A) (Q : A -> Prop) X :
  outcome (read d) Q X -> outcome (observe_path d read) Q X.
Proof.
  intros Hr. unfold observe_path. eapply outcome_seq; [apply publication_check_refines|].
  eapply outcome_seq; [apply pub_call_refines|]. apply outcome_last; [by apply outcome_observe|apply pub_call_refines].
Qed.

(** ** Committing a generation *)

(** The build's generation is the current one, as the build expected. *)
Definition is_published (pending : PendingGeneration) g : Prop :=
  exists s, header g = Some s /\ PublicationState.current s = Some (Pending.generation pending) /\
    PublicationState.pending s = None /\
    PublicationState.current_revision s = Pending.expected_current_revision pending + 1.

Lemma observe_commit_outcome d c g pending :
  denotes d c g ->
  outcome (observe_commit pending d) (fun gen => gen = Pending.generation pending /\ is_published pending g)
    (fun e => e = Pub.Database /\ ~ is_published pending g).
Proof.
  intros Hd. unfold observe_commit. eapply outcome_known; [by eapply read_state_refines|]. apply outcome_lift.
  - intros gen. case_match eqn:E; [|done]. intros [= <-]. split; [done|].
    rewrite !andb_true_iff, !bool_decide_eq_true in E. destruct E as [[Ec Ep] Er].
    unfold header_or_default in *. destruct (header g) as [s|] eqn:Es; [|done]. cbn in *. exists s. split_and!; try done.
    apply checked_add_inv in Er. by destruct Er.
  - intros e. destruct (_ && _ && _) eqn:E; [done|]. intros [= <-]. split; [done|]. intros (s & Es & Ec & Ep & Er).
    unfold header_or_default in E. rewrite Es in E. cbn in E. rewrite Ec, Ep, Er in E. rewrite !bool_decide_true in E; [done| |done|done].
    unfold checked_add. assert (Pending.expected_current_revision pending + 1 <= U64_MAX) as Hle; [|by is_true (Pending.expected_current_revision pending + 1 <=? U64_MAX)].
    destruct Hd as (_ & _ & Hs). rewrite Es in Hs. destruct Hs as (_ & _ & (Hwf & _)). destruct Hwf as (_ & _ & _ & Hb & _). lia.
Qed.

Lemma publish_spec_inv c pending g gen g' :
  transaction (publish_spec c pending) g = Ok (gen, g') -> gen = Pending.generation pending /\ is_published pending g'.
Proof.
  intros (s' & E & Hh)%transaction_inv. unfold publish_spec, pending_spec in E. apply bind_ok_inv in E as (p & Hp & E).
  apply bind_ok_inv in E as (? & Heq%reject_if_ok & E). apply bind_ok_inv in E as (? & _ & E). apply bind_ok_inv in E as (? & _ & E).
  apply bind_ok_inv in E as (? & Hg%reject_if_ok & E). apply bind_ok_inv in E as (rev & Hrev%ok_or_inv%checked_add_inv & E).
  apply ok_inj in E. injection E as <- _ <-. to_prop. destruct Hg as (_ & _ & _ & Hr & _). destruct Hrev as [-> _].
  rewrite Heq in *. split; [done|]. eexists. split; [exact Hh|]. cbn. split_and!; try done. by rewrite Hr.
Qed.

Lemma publish_spec_database c pending g : transaction (publish_spec c pending) g <> Err Pub.Database.
Proof.
  unfold transaction, publish_spec, pending_spec, pending_mut, wanted_spec, state_bytes.
  repeat match goal with
  | |- context [ok_or _ ?o] => destruct o; cbn [ok_or]
  | |- context [reject_if ?b _] => destruct b; cbn [reject_if]
  | |- _ => progress cbn [mbind result_bind]
  end; done.
Qed.

(** An unconfirmed transaction is looked up again; what is answered holds. *)
Lemma commit_generation_guides c g pending :
  lifecycle g ->
  guides c g (commit_generation pending) (edited (publish_spec c pending) g)
    (fun gen g' => gen = Pending.generation pending /\ is_published pending g')
    (fun e g' => transaction (publish_spec c pending) g = Err e /\ g' = g).
Proof.
  intros Hl d w Hd. pose proof (publish_implements c g pending Hl d w Hd) as Hp. unfold commit_generation.
  destruct (edit_path (publish pending) d w) as [[answer d'] w']. destruct Hp as (g' & Hd' & Hi & Hc & Ha).
  assert (answer <> Err Pub.Database ->
    exists g', denotes d' c g' /\ edited (publish_spec c pending) g g' /\ (calm w -> calm w') /\
      match answer with Ok gen => gen = Pending.generation pending /\ is_published pending g'
      | Err e => (transaction (publish_spec c pending) g = Err e /\ g' = g) \/ (interrupt e /\ ~ calm w) end) as Hother.
  { intros _. exists g'. split; [done|]. split; [done|]. split; [done|]. destruct answer; [by eapply publish_spec_inv|done]. }
  destruct answer as [gen|e]; [by apply Hother|]. destruct (decide (e = Pub.Database)) as [->|Hne].
  - destruct Ha as [[Ht _]|[_ Hn]]; [by destruct (publish_spec_database c pending g)|].
    pose proof (guides_read c g' (fun d => observe_path d (observe_commit pending)) _ _
      (fun d Hd => outcome_observe_path d _ _ _ (observe_commit_outcome d c g' pending Hd)) d' w' Hd') as Ho.
    destruct (db_read _ d' w') as [[answer d''] w'']. destruct Ho as (g'' & Hd'' & -> & Hc' & Ha).
    exists g'. split; [done|]. split; [done|]. split; [auto|]. destruct answer as [gen|e]; [done|]. right. split; [|done].
    destruct Ha as [[-> _]|[? _]]; [auto with eliot|done].
  - destruct e; try (apply Hother; congruence). done.
Qed.

(** ** What a started build saves *)

Lemma add_entries_map sequence chunk : forall m m',
  add_entries sequence chunk m = Ok m' ->
  (forall s, s ∈ chunk -> m !! entry_key sequence s = None) /\
  m' = list_to_map ((fun s => (entry_key sequence s, new_entry s)) <$> chunk) ∪ m /\ NoDup (entry_key sequence <$> chunk).
Proof.
  induction chunk as [|s chunk IH]; intros m m' E; cbn [add_entries] in E.
  - apply ok_inj in E as <-. split; [by intros ? ?%not_elem_of_nil|]. split; [symmetry; apply (left_id_L ∅ (∪))|constructor].
  - apply bind_ok_inv in E as ([] & Hno%reject_if_ok & E). to_prop. apply eq_None_not_Some in Hno.
    apply IH in E as (Hnew & -> & Hnd). assert (entry_key sequence s ∉ (entry_key sequence <$> chunk)) as Hs.
    { intros (s' & Es & Hin)%list_elem_of_fmap. specialize (Hnew s' Hin). by rewrite <- Es, lookup_insert_eq in Hnew. }
    split; [|split].
    + intros s' [->|Hin]%elem_of_cons; [done|]. specialize (Hnew s' Hin). apply lookup_insert_None in Hnew. by destruct Hnew.
    + cbn. rewrite <- insert_union_r, insert_union_l; [done|]. apply not_elem_of_list_to_map_1. by rewrite <- list_fmap_compose.
    + cbn. by constructor.
Qed.

Lemma persisted_entries pending chunks g g' :
  persisted pending chunks g g' ->
  let seq := Generation.sequence (Pending.generation pending) in
  header_or_default g' = header_or_default g /\ NoDup (entry_key seq <$> concat chunks) /\
  rows g' = with_entries (rows g) (list_to_map ((fun s => (entry_key seq s, new_entry s)) <$> concat chunks) ∪ entries (rows g)) /\
  (forall s, s ∈ concat chunks -> entries (rows g) !! entry_key seq s = None).
Proof.
  intros Hp. cbv zeta. set (seq := Generation.sequence (Pending.generation pending)) in *. induction Hp as [g|chunk chunks g g1 g2 Ht _ IH].
  - split; [done|]. split; [constructor|]. split; [|by intros ? ?%not_elem_of_nil].
    unfold with_entries. destruct g as [h []]. cbn [rows]. f_equal. symmetry. apply (left_id_L ∅ (∪)).
  - apply transaction_inv in Ht as (s' & E & Hs). unfold persist_spec, pending_spec in E. apply bind_ok_inv in E as (p & _ & E).
    apply bind_ok_inv in E as (m & Hm & E). apply ok_inj in E. injection E as Er Es. apply add_entries_map in Hm as (Hnew & -> & Hnd).
    destruct IH as (Hst & Hnd' & Hrows & Hno). fold seq in Hnew, Hnd, Er. rewrite <- Er in Hrows, Hno. cbn [entries with_entries] in Hrows, Hno.
    split; [|split; [|split]].
    + rewrite Hst. unfold header_or_default at 1. by rewrite Hs, <- Es.
    + cbn [concat]. rewrite fmap_app. apply NoDup_app. split; [done|]. split; [|done]. intros k (s & -> & Hin)%list_elem_of_fmap (s2 & Ek & Hin')%list_elem_of_fmap.
      specialize (Hno s2 Hin'). apply lookup_union_None in Hno as [Hno _]. apply not_elem_of_list_to_map_2 in Hno.
      rewrite <- list_fmap_compose in Hno. apply Hno, list_elem_of_fmap. exists s. by rewrite <- Ek.
    + rewrite Hrows. cbn [concat with_entries]. unfold with_entries. cbn. f_equal. rewrite fmap_app, list_to_map_app, (assoc_L (∪)). f_equal.
      apply map_union_comm. apply map_disjoint_spec. intros k x y Hx Hy. apply elem_of_list_to_map_2 in Hx, Hy.
      apply list_elem_of_fmap in Hx as (s & [= -> ->] & Hin). apply list_elem_of_fmap in Hy as (s'' & [= Ek ->] & Hin').
      specialize (Hno s Hin). apply lookup_union_None in Hno as [Hno _]. apply not_elem_of_list_to_map_2 in Hno.
      rewrite <- list_fmap_compose in Hno. apply Hno, list_elem_of_fmap. exists s''. split; [|done].
      unfold compose, entry_key. cbn. by rewrite Ek.
    + cbn [concat]. intros s [Hin|Hin]%elem_of_app; [by apply Hnew|]. specialize (Hno s Hin). by apply lookup_union_None in Hno as [_ ?].
Qed.

Lemma add_entries_err sequence chunk : forall m e,
  add_entries sequence chunk m = Err e ->
  e = Pub.Corrupt /\ (NoDup (entry_key sequence <$> chunk) -> exists s, s ∈ chunk /\ is_Some (m !! entry_key sequence s)).
Proof.
  induction chunk as [|s chunk IH]; intros m e E; cbn [add_entries] in E; [done|].
  case_bool_decide as Hs; cbn in E.
  - injection E as <-. split; [done|]. intros _. exists s. split; [apply list_elem_of_here|done].
  - apply IH in E as [-> Hdup]. split; [done|]. cbn. intros [Hno Hnd]%NoDup_cons. destruct (Hdup Hnd) as (s' & Hin & Hs').
    exists s'. split; [by apply list_elem_of_further|]. rewrite lookup_insert_ne in Hs'; [done|]. intros Ek. apply Hno. rewrite Ek.
    apply list_elem_of_fmap. by exists s'.
Qed.

(** The reservation leaves the build pending with no entry of its own. *)
Lemma reserved c capture ns g pending g1 :
  lifecycle g -> capture_sound capture ns -> transaction (reserve_spec c capture ns) g = Ok (pending, g1) ->
  pending = fresh_build capture ns (header_or_default g) (PublicationState.next_sequence (header_or_default g) + 1) /\
  rows g1 = rows g /\ PublicationState.pending (header_or_default g1) = Some pending /\
  (namespace c, wanted c) = (Capture.source_namespace capture, Capture.wanted_revision capture) /\
  (forall k e, entries (rows g) !! k = Some e -> ~ keyed (Generation.sequence (Pending.generation pending)) k).
Proof.
  intros [K Hl] Hc (s & E & Hs)%transaction_inv. destruct (reserve_sound K c capture ns _ _ _ _ _ (lifecycle_started K g Hl) Hc E) as (_ & Hp & Hk).
  unfold reserve_spec in E. apply bind_ok_inv in E as ([] & Hw%reject_if_ok & E). do 2 (apply bind_ok_inv in E as (? & _ & E)).
  apply bind_ok_inv in E as (next & Hn%ok_or_inv%checked_add_inv & E). destruct Hn as [-> _]. apply ok_inj in E. injection E as Ea Er Es.
  to_prop. split; [done|]. split; [done|]. split; [unfold header_or_default; by rewrite Hs|]. split; [done|]. by rewrite Er.
Qed.

(** Saving may fail only on a source that the capture has twice. *)
Lemma persist_refused pending saved chunk rest g1 g' e :
  (forall k x, entries (rows g1) !! k = Some x -> ~ keyed (Generation.sequence (Pending.generation pending)) k) ->
  PublicationState.pending (header_or_default g1) = Some pending -> is_Some (header g') ->
  (forall s, header g' = Some s -> len (state_to_vec s) <= 16 * 1024) ->
  persisted pending saved g1 g' -> transaction (persist_spec pending chunk) g' = Err e ->
  e = Pub.Corrupt /\ ~ NoDup ((fun s => source_id (captured_source s)) <$> concat (saved ++ chunk :: rest)).
Proof.
  intros Hk Hp [s Hs] Hb (Hst & _ & Hrows & _)%persisted_entries Ht. set (seq := Generation.sequence (Pending.generation pending)) in *.
  unfold transaction, persist_spec, pending_spec, pending_mut in Ht. rewrite Hst, Hp in Ht. cbn [ok_or mbind result_bind] in Ht.
  rewrite bool_decide_true, Z.eqb_refl in Ht by done. cbn [negb orb reject_if mbind result_bind] in Ht.
  destruct (add_entries _ _ _) as [m|e'] eqn:Ea; cbn [mbind result_bind] in Ht.
  - unfold state_bytes in Ht. rewrite reject_if_false in Ht; [done|]. apply Z.ltb_ge. rewrite <- Hst. unfold header_or_default. rewrite Hs. by apply Hb.
  - injection Ht as ->. apply add_entries_err in Ea as [-> Hdup]. split; [done|]. intros Hnd. fold seq in Hdup.
    assert (NoDup (entry_key seq <$> concat (saved ++ chunk :: rest))) as Hnd'.
    { replace (entry_key seq <$> concat (saved ++ chunk :: rest))
        with ((fun id => be_bytes 8 seq ++ id) <$> ((fun s => source_id (captured_source s)) <$> concat (saved ++ chunk :: rest)))
        by (by rewrite <- list_fmap_compose).
      apply NoDup_fmap_2; [|done]. intros a b Eab. by apply (inj (app (be_bytes 8 seq))). }
    rewrite concat_app, fmap_app, NoDup_app in Hnd'. destruct Hnd' as (_ & Hapart & Hnd'). cbn [concat] in Hapart, Hnd'.
    rewrite fmap_app, NoDup_app in Hnd'. destruct Hnd' as (Hndc & _ & _). destruct (Hdup Hndc) as (x & Hx & Hsome).
    rewrite Hrows in Hsome. cbn in Hsome. destruct Hsome as [v Hv]. apply lookup_union_Some_raw in Hv as [Hv|[_ Hv]].
    + apply elem_of_list_to_map_2, list_elem_of_fmap in Hv as (y & [= Ek _] & Hy). apply (Hapart (entry_key seq x)).
      * apply list_elem_of_fmap. exists y. split; [|done]. unfold entry_key, generation_key. by rewrite Ek.
      * rewrite fmap_app. apply elem_of_app. left. apply list_elem_of_fmap. by exists x.
    + apply (Hk _ _ Hv), keyed_key.
Qed.

(** What [start_build] promises: an [Ok] means that the sources and their wanted
    revision are still the captured ones, that the pending build is new, under a sequence
    that no generation ever had, and that beside the old rows every captured source is
    saved under it, unfinished and without units.  An error changes nothing, or reports a
    source captured twice, or comes from the environment; the invariant holds in any case. *)
Theorem start_build_saves d c g capture random w :
  denotes d c g -> lifecycle g -> capture_sound capture (build_namespace capture random) ->
  let '((answer, d'), w') := start_build capture random d w in
  exists g', denotes d' c g' /\ lifecycle g' /\
    match answer with
    | Ok p =>
        let seq := Generation.sequence (Pending.generation p) in
        (namespace c, wanted c) = (Capture.source_namespace capture, Capture.wanted_revision capture) /\
        p = fresh_build capture (build_namespace capture random) (header_or_default g) seq /\
        seq = PublicationState.next_sequence (header_or_default g) + 1 /\
        PublicationState.pending (header_or_default g') = Some p /\
        (forall k e, entries (rows g) !! k = Some e -> ~ keyed seq k) /\
        rows g' = with_entries (rows g)
          (list_to_map ((fun s => (entry_key seq s, new_entry s)) <$> Capture.sources capture) ∪ entries (rows g))
    | Err e =>
        (g' = g /\ transaction (reserve_spec c capture (build_namespace capture random)) g = Err e) \/
        (e = Pub.Corrupt /\ ~ NoDup ((fun s => source_id (captured_source s)) <$> Capture.sources capture)) \/
        (interrupt e /\ ~ calm w)
    end.
Proof.
  intros Hd Hl Hc. pose proof (start_build_guides c g capture random Hl Hc d w Hd) as Hg.
  destruct (start_build capture random d w) as [[answer d'] w']. destruct Hg as (g' & Hd' & Hb & _ & Ha).
  exists g'. split; [done|]. split.
  { destruct Hb as [->|(pending & saved & rest & g1 & Ht & Hch & Hp)]; [done|]. apply (move_lifecycle c g); [done|].
    by apply (move_start c g capture (build_namespace capture random) pending saved rest g1 g'). }
  pose proof (chunks_concat 32 (Capture.sources capture) ltac:(lia)) as Hall. destruct answer as [p|e].
  - destruct Ha as (g1 & Ht & Hp). destruct (reserved c capture _ g p g1 Hl Hc Ht) as (Ep & Er & Hpend & Hw & Hfresh).
    apply persisted_entries in Hp as (Hst & _ & Hrows & _). rewrite Hall in Hrows. cbv zeta.
    assert (Generation.sequence (Pending.generation p) = PublicationState.next_sequence (header_or_default g) + 1) as Eseq by by rewrite Ep.
    rewrite Eseq in *. split_and!; [done|by rewrite <- Ep|done|by rewrite Hst|done|by rewrite Hrows, Er].
  - destruct Ha as [[[-> Ht]|(p & saved & chunk & rest & g1 & Ht & Hch & Hp & He)]|Ha]; [by left| |by right; right].
    right. left. destruct (reserved c capture _ g p g1 Hl Hc Ht) as (_ & Er & Hpend & _ & Hfresh).
    rewrite <- Hall, Hch. apply (persist_refused p saved chunk rest g1 g'); try done.
    + by rewrite Er.
    + destruct (header g') eqn:Eh; [by eexists|]. apply persisted_entries in Hp as (Hst & _). rewrite <- Hst in Hpend.
      unfold header_or_default in Hpend. by rewrite Eh in Hpend.
    + intros s Hs. destruct Hd' as (_ & _ & Hh). rewrite Hs in Hh. by destruct Hh as (_ & _ & _ & _ & ?).
Qed.
End Outcomes.

Lemma start_build_saves_witness :
  (denotes sample_store sample_corpus fresh /\ lifecycle fresh /\
   capture_sound sample_corpus_capture (build_namespace sample_corpus_capture sample_generation_namespace)) /\
  exists p g', start_build sample_corpus_capture sample_generation_namespace sample_store [] = ((Ok p, sample_started), []) /\
    denotes sample_started sample_corpus g' /\ lifecycle g' /\ PublicationState.pending (header_or_default g') = Some p.
Proof.
  split; [exact (conj sample_fresh (conj fresh_lifecycle sample_capture_sound))|].
  assert (is_ok (fst (fst (start_build sample_corpus_capture sample_generation_namespace sample_store []))) = true) as Hok
    by (vm_compute; reflexivity).
  assert (snd (start_build sample_corpus_capture sample_generation_namespace sample_store []) = []) as Hw by (vm_compute; reflexivity).
  pose proof (start_build_saves sample_store sample_corpus fresh sample_corpus_capture sample_generation_namespace [] sample_fresh
    fresh_lifecycle sample_capture_sound) as Hs.
  unfold sample_started, sample_after. destruct (start_build _ _ _ _) as [[[p|e] d'] w']; [|done]. cbn in Hw |- *. subst w'.
  destruct Hs as (g' & ? & ? & _ & _ & _ & ? & _). by exists p, g'.
Defined.

(** Generations that a calm operation leaves behind. *)
Lemma sample_leaves {A} (m : Db A) (d : store) c (g : generations) I Q X :
  denotes d c g -> guides c g m I Q X -> (forall g', I g' -> lifecycle g') ->
  exists g', denotes (sample_after m d) c g' /\ lifecycle g'.
Proof.
  intros Hd Hm HI. specialize (Hm d [] Hd). unfold sample_after. destruct (m d []) as [[answer d'] w']. cbn.
  destruct Hm as (g' & ? & ? & _). eauto.
Qed.
Lemma sample_started_holds : exists g, denotes sample_started sample_corpus g /\ lifecycle g.
Proof.
  pose proof (start_build_guides sample_corpus fresh sample_corpus_capture sample_generation_namespace fresh_lifecycle sample_capture_sound) as Hs.
  apply (sample_leaves _ _ _ _ _ _ _ sample_fresh Hs). intros g' [->|(pending & saved & rest & g1 & Ht & Hch & Hp)]; [exact fresh_lifecycle|].
  apply (move_lifecycle sample_corpus fresh); [exact fresh_lifecycle|].
  by apply (move_start sample_corpus fresh sample_corpus_capture (build_namespace sample_corpus_capture sample_generation_namespace) pending saved rest g1 g'); [exact sample_capture_sound|..].
Qed.
