(* ===== verification/PublicationRetire.v ===== *)
(** Retirement: [finish_retirement] removes the saved rows of a generation table by table,
    at most 32 in a transaction, and ends. *)

From Stdlib Require Import Sorted.
From stdpp Require Import gmap.
From S2P Require Import Prelude Bytes Ids Registry SourceRow PreparationRow PublicationRow Database Control ControlSpec.
From S2P Require Import ControlRefine ControlState ControlSample Publication PublicationSpec PublicationRefine PublicationLifecycle PublicationHistory PublicationSample PublicationOutcome.

(** ** Keys with a prefix *)

Lemma starts_with_iff key prefix : starts_with key prefix = true <-> exists rest, key = prefix ++ rest.
Proof.
  unfold starts_with. rewrite bool_decide_eq_true. split.
  - intros E. exists (drop (length prefix) key). rewrite <- E at 1. symmetry. apply take_drop.
  - intros [rest ->]. by rewrite take_app_length.
Qed.

(** Between a prefix and a key with it, every key has it. *)
Lemma prefix_between prefix rest h :
  bytes_lt h prefix = false -> bytes_lt (prefix ++ rest) h = false -> starts_with h prefix = true.
Proof.
  intros Hl Hr. apply starts_with_iff. revert h Hl Hr. induction prefix as [|x prefix IH]; intros h Hl Hr; [by exists h|].
  destruct h as [|y h]; [done|]. unfold bytes_lt in *. cbn in *. rewrite (Z.compare_antisym y x) in Hr.
  destruct (y ?= x) eqn:E; cbn in Hr; [|done|done]. apply Z.compare_eq in E as ->.
  destruct (IH h Hl Hr) as [rest' ->]. by exists rest'.
Qed.

Lemma prefix_not_before prefix rest : bytes_lt (prefix ++ rest) prefix = false.
Proof.
  unfold bytes_lt. induction prefix as [|x prefix IH]; cbn; [by destruct rest|]. by rewrite Z.compare_refl.
Qed.

Lemma starts_with_keyed sequence key : starts_with key (be_bytes 8 sequence) = bool_decide (keyed sequence key).
Proof. unfold starts_with, keyed. by rewrite be_bytes_length. Qed.

(** ** Rows of one table *)

Implicit Types (keys : list (list Z)) (sequence : Z) (c : corpus) (g : generations) (r : saved).

Definition stored_keys (r : saved) (name : list Z) : gset (list Z) :=
  if bool_decide (name = SOURCES) then dom (entries r)
  else if bool_decide (name = PAGES) then dom (saved_pages r) else dom (saved_evidence r).

Lemma swept_cases name : name ∈ swept -> name = SOURCES \/ name = PAGES \/ name = EVIDENCE.
Proof. unfold swept. set_solver. Qed.

Ltac swept_name := intros; match goal with Hn : _ ∈ swept |- _ => apply swept_cases in Hn as [-> |[-> | -> ]] end.
(** The tables' names are apart. *)
Ltac table_cases :=
  repeat match goal with |- context [bool_decide (?a = ?b)] =>
    first [rewrite (bool_decide_true (a = b)) by reflexivity | rewrite (bool_decide_false (a = b)) by (vm_compute; discriminate)] end.

Lemma drop_keys_dom {A} keys (m : gmap (list Z) A) : dom (drop_keys keys m) = dom m ∖ list_to_set keys.
Proof.
  apply set_eq. intros k. rewrite elem_of_difference, elem_of_list_to_set, !elem_of_dom, drop_keys_lookup.
  case_decide as Hk; split; [by intros [? ?]|by intros [_ ?]|by intros ?|by intros [? _]].
Qed.

Lemma stored_keys_drop r name keys :
  name ∈ swept -> stored_keys (drop_rows r name keys) name = stored_keys r name ∖ list_to_set keys.
Proof. swept_name; unfold stored_keys, drop_rows; cbn; table_cases; apply drop_keys_dom. Qed.

(** The rows of a table without those of one generation. *)
Definition others {A} (sequence : Z) (m : gmap (list Z) A) : gmap (list Z) A :=
  filter (fun kv => ~ keyed sequence (fst kv)) m.
Definition clear_rows (r : saved) (name : list Z) (sequence : Z) : saved :=
  {| entries := if bool_decide (name = SOURCES) then others sequence (entries r) else entries r;
     saved_pages := if bool_decide (name = PAGES) then others sequence (saved_pages r) else saved_pages r;
     saved_evidence := if bool_decide (name = EVIDENCE) then others sequence (saved_evidence r) else saved_evidence r;
     retired_rows := retired_rows r |}.

Lemma others_drop {A} sequence keys (m : gmap (list Z) A) :
  Forall (keyed sequence) keys -> others sequence (drop_keys keys m) = others sequence m.
Proof.
  intros Hk. rewrite Forall_forall in Hk. apply map_eq. intros k. apply option_eq. intros v. unfold others.
  rewrite !map_lookup_filter_Some, drop_keys_lookup. cbn. case_decide as Hin; [|done].
  split; [by intros [? _]|]. intros [_ Hn]. by destruct Hn; apply Hk.
Qed.
Lemma others_none {A} sequence (m : gmap (list Z) A) :
  (forall k, k ∈ dom m -> ~ keyed sequence k) -> others sequence m = m.
Proof. intros Hk. apply map_filter_id. intros k v Hv. cbn. apply Hk. by apply elem_of_dom_2 in Hv. Qed.

Lemma clear_drop r name keys sequence :
  Forall (keyed sequence) keys -> clear_rows (drop_rows r name keys) name sequence = clear_rows r name sequence.
Proof. intros Hk. unfold clear_rows, drop_rows. cbn. f_equal; case_bool_decide; by rewrite ?others_drop. Qed.
Lemma clear_none r name sequence :
  name ∈ swept -> (forall k, k ∈ stored_keys r name -> ~ keyed sequence k) -> clear_rows r name sequence = r.
Proof.
  destruct r. swept_name; unfold stored_keys, clear_rows in *; cbn in *;
    match goal with Hk : context [bool_decide] |- _ => revert Hk end; table_cases; intros Hk; by rewrite others_none.
Qed.

Section Retire.
Context `{PublicationJson} {D : Type} `{Redb D}.
Implicit Types (d tx : D) (w : env) (x : RetiredGeneration) (rows : list (list Z * list Z)).

(** ** One look at a table *)

Fixpoint leading (prefix : list Z) rows : list (list Z) :=
  match rows with
  | [] => []
  | (key, _) :: rows => if starts_with key prefix then key :: leading prefix rows else []
  end.

Lemma prefix_keys_refines prefix rows : refines (prefix_keys prefix rows) (Ok (leading prefix rows)).
Proof.
  induction rows as [|[key v] rows IH]; cbn [prefix_keys leading]; [apply refines_ret|].
  eapply refines_seq; [apply pub_call_refines|]. destruct (starts_with key prefix); cbn [negb]; [|apply refines_ret].
  eapply refines_bind_ok; [exact IH|]. apply refines_ret.
Qed.

Lemma leading_in prefix rows k : k ∈ leading prefix rows -> starts_with k prefix = true /\ exists v, (k, v) ∈ rows.
Proof.
  induction rows as [|[key v] rows IH]; cbn [leading]; [by intros ?%not_elem_of_nil|].
  destruct (starts_with key prefix) eqn:E; [|by intros ?%not_elem_of_nil]. rewrite elem_of_cons. intros [->|Hk].
  - split; [done|]. exists v. apply list_elem_of_here.
  - destruct (IH Hk) as (? & u & Hu). split; [done|]. exists u. by apply list_elem_of_further.
Qed.

Lemma range_sorted d name prefix : StronglySorted key_lt (range_from d name prefix).
Proof.
  unfold range_from. destruct (iter_law d name) as [Hs _]. change (StronglySorted key_lt (table_iter d name)) in Hs.
  induction Hs as [|row rows Hs IH Hrow]; [constructor|]. rewrite filter_cons. case_decide; [|done].
  constructor; [done|]. rewrite Forall_forall in *. intros y [_ Hy]%list_elem_of_filter. by apply Hrow.
Qed.

(** The look is empty only when no key has the prefix. *)
Lemma leading_none d name prefix k :
  leading prefix (take 32 (range_from d name prefix)) = [] -> k ∈ dom (rows_of d name) -> starts_with k prefix = false.
Proof.
  intros Hl [v Hv]%elem_of_dom. destruct (starts_with k prefix) eqn:E; [|done]. exfalso.
  assert ((k, v) ∈ range_from d name prefix) as Hin.
  { unfold range_from. apply list_elem_of_filter. split; [|by apply (iter_law d name)]. cbn.
    apply starts_with_iff in E as [rest ->]. apply prefix_not_before. }
  pose proof (range_sorted d name prefix) as Hs. destruct (range_from d name prefix) as [|[h u] rows] eqn:Er; [by apply not_elem_of_nil in Hin|].
  cbn in Hl. assert (starts_with h prefix = true) as Hh; [|by rewrite Hh in Hl].
  assert ((h, u) ∈ range_from d name prefix) as [Hlow _]%list_elem_of_filter by (rewrite Er; apply list_elem_of_here).
  apply starts_with_iff in E as [rest ->]. apply (prefix_between prefix rest); [done|].
  apply elem_of_cons in Hin as [[= <- _]|Hin]; [apply bytes_lt_irrefl|].
  inversion Hs as [|? ? _ Hall]; subst. rewrite Forall_forall in Hall. specialize (Hall _ Hin). unfold key_lt in Hall. cbn in Hall.
  destruct (bytes_lt (prefix ++ rest) h) eqn:Elt; [|done]. pose proof (bytes_lt_trans _ _ _ Hall Elt) as Hirr. by rewrite bytes_lt_irrefl in Hirr.
Qed.

(** What a look finds: keys of the generation in the table, and none only if none is left. *)
Definition found (x : RetiredGeneration) (name : list Z) g keys : Prop :=
  Forall (keyed (Generation.sequence (retired_generation x))) keys /\
  (forall k, k ∈ keys -> k ∈ stored_keys (rows g) name) /\
  (keys = [] -> forall k, k ∈ stored_keys (rows g) name -> ~ keyed (Generation.sequence (retired_generation x)) k).

Lemma stored_rows d c g name : denotes d c g -> name ∈ swept -> dom (rows_of d name) = stored_keys (rows g) name.
Proof.
  intros (_ & (H1 & _ & H3 & H4 & _) & _). swept_name; unfold stored_keys; table_cases; [|by rewrite H3|by rewrite H4].
  by rewrite H1, dom_fmap_L.
Qed.

Lemma remaining_keys_outcome d c g x name :
  denotes d c g -> name ∈ swept ->
  outcome (observe_database d (remaining_keys name (retirement_key x))) (fun keys => found x name g keys /\ is_Some (header g))
    (fun e => header g = None /\ e = Pub.Corrupt).
Proof.
  intros Hd Hn. apply outcome_observe. unfold remaining_keys. pose proof (stored_rows d c g name Hd Hn) as Hdom.
  destruct Hd as (_ & _ & Hs). destruct (header g) as [s|].
  - destruct Hs as (Hsub & _). eapply outcome_seq; [apply refines_open_read; [auto with eliot|by apply Hsub, swept_publication]|].
    eapply outcome_seq; [apply pub_call_refines|]. eapply outcome_refines; [apply prefix_keys_refines| |done].
    intros keys [= <-]. split; [|done]. unfold found. split; [|split]; rewrite <- ?Hdom.
    + apply Forall_forall. intros k [Hk _]%leading_in. unfold retirement_key in Hk. rewrite starts_with_keyed in Hk. by to_prop.
    + intros k [_ [v Hv]]%leading_in. apply elem_of_take in Hv as (i & Hv & _). apply list_elem_of_lookup_2 in Hv.
      unfold range_from in Hv. apply list_elem_of_filter in Hv as [_ Hv]. apply elem_of_dom. exists v. by apply (iter_law d name).
    + intros Hnil k Hk. pose proof (leading_none d name _ k Hnil Hk) as Hf. unfold retirement_key in Hf. rewrite starts_with_keyed in Hf. by to_prop.
  - apply (outcome_bind _ _ (fun _ => False)); [|done]. unfold open_read. eapply outcome_seq; [apply refines_call; auto with eliot|].
    rewrite listed, bool_decide_false; [cbn [negb reject_if]; apply outcome_lift; [done|by intros e [= <-]]|]. intros Hin. apply (Hs name); [by apply swept_publication|done].
Qed.

(** ** The loop over one table *)

(** Rows of the retired generation removed from one table. *)
Definition shed x name g g' : Prop :=
  exists keys, Forall (keyed (Generation.sequence (retired_generation x))) keys /\
    g' = {| header := header g; rows := drop_rows (rows g) name keys |}.
Definition cleared x name g : generations :=
  {| header := header g; rows := clear_rows (rows g) name (Generation.sequence (retired_generation x)) |}.

(** The header fits its row. *)
Definition bounded g : Prop := forall s, header g = Some s -> len (state_to_vec s) <= 16 * 1024.
Lemma denotes_bounded d c g : denotes d c g -> bounded g.
Proof. intros (_ & _ & Hs) s Es. rewrite Es in Hs. apply Hs. Qed.

Lemma bounded_bytes g s : bounded g -> header g = Some s -> state_bytes s = Ok (state_to_vec s).
Proof. intros Hb Hs. unfold state_bytes. rewrite reject_if_false; [done|]. apply Z.ltb_ge. by apply Hb. Qed.

(** A retirement that this database may carry out. *)
Definition retirable x g : result Pub.t unit := retired_spec (rows g) (header_or_default g) x.

Lemma sweep_transaction x name keys g s :
  bounded g -> header g = Some s ->
  transaction (sweep_spec x name keys) g
  = (_ ← retirable x g; Ok (tt, {| header := header g; rows := drop_rows (rows g) name keys |})).
Proof.
  intros Hb Hs. unfold transaction, sweep_spec, retirable. destruct (retired_spec _ _ _); cbn [mbind result_bind]; [|done].
  unfold header_or_default. rewrite Hs. cbn [default]. by erewrite bounded_bytes.
Qed.

Lemma drop_rows_app r name keys keys' : drop_rows (drop_rows r name keys) name keys' = drop_rows r name (keys ++ keys').
Proof. unfold drop_rows, drop_keys. cbn. by repeat case_bool_decide; rewrite ?foldl_app. Qed.

Lemma shed_refl x name g : shed x name g g.
Proof. exists []. split; [done|]. unfold drop_rows, drop_keys. cbn. destruct g as [h []]. cbn. by repeat case_bool_decide. Qed.
Lemma shed_step x name g keys g' :
  Forall (keyed (Generation.sequence (retired_generation x))) keys ->
  shed x name {| header := header g; rows := drop_rows (rows g) name keys |} g' -> shed x name g g'.
Proof.
  intros Hk (keys' & Hk' & ->). exists (keys ++ keys'). split; [by apply Forall_app|]. cbn. by rewrite drop_rows_app.
Qed.

Lemma sweep_edit c g x name keys :
  lifecycle g -> name ∈ swept -> Forall (keyed (Generation.sequence (retired_generation x))) keys ->
  implements c g (edit_database (sweep_rows x name keys)) (sweep_spec x name keys).
Proof.
  intros Hl Hn Hk. apply implements_edit; [done| |intros; by apply sweep_yields]. intros [] g' Ht. by apply (move_sweep c g x name keys).
Qed.

(** A round leaves fewer rows. *)
Lemma round_smaller x name g keys :
  name ∈ swept -> found x name g keys -> keys <> [] ->
  (size (stored_keys (drop_rows (rows g) name keys) name) < size (stored_keys (rows g) name))%nat.
Proof.
  intros Hn (_ & Hin & _) Hne. rewrite stored_keys_drop by done. apply subset_size. destruct keys as [|k keys]; [done|].
  specialize (Hin k (list_elem_of_here _ _)). set_solver.
Qed.

(** One look at a table and one round, from any state of the database. *)
Lemma sweep_round c g x name keys w d answer d' w' :
  denotes d c g -> lifecycle g -> name ∈ swept -> found x name g keys -> is_Some (header g) ->
  edit_database (sweep_rows x name keys) d w = ((answer, d'), w') ->
  exists g', denotes d' c g' /\ (calm w -> calm w') /\ shed x name g g' /\ lifecycle g' /\
    match answer with
    | Ok _ => retirable x g = Ok tt /\ g' = {| header := header g; rows := drop_rows (rows g) name keys |}
    | Err e => (retirable x g = Err e /\ g' = g) \/ (interrupt e /\ ~ calm w)
    end.
Proof.
  intros Hd Hl Hn Hf [s Hs] E. pose proof (denotes_bounded d c g Hd) as Hb. destruct Hf as (Hk & _).
  pose proof (sweep_edit c g x name keys Hl Hn Hk d w Hd) as He. rewrite E in He. destruct He as (g' & Hd' & Hi & Hc & Ha).
  exists g'. split; [done|]. split; [done|]. unfold edited in Hi. rewrite (sweep_transaction x name keys g s) in Hi by done.
  assert (shed x name g g') as Hshed.
  { destruct Hi as [->|[[] Ht]]; [apply shed_refl|]. apply bind_ok_inv in Ht as (? & _ & Ht). apply ok_inj in Ht. injection Ht as <-. by exists keys. }
  split; [done|]. split.
  { destruct Hi as [->|[[] Ht]]; [done|]. rewrite <- (sweep_transaction x name keys g s) in Ht by done.
    by apply (move_lifecycle c g), (move_sweep c g x name keys). }
  destruct answer as [[]|e].
  - rewrite (sweep_transaction x name keys g s) in Ha by done. apply bind_ok_inv in Ha as ([] & Hr & Ha). apply ok_inj in Ha.
    by injection Ha as <-.
  - destruct Ha as [[Ht ->]|Ha]; [left|by right]. rewrite (sweep_transaction x name keys g s) in Ht by done.
    destruct (retirable x g) as [[]|e']; [done|]. cbn in Ht. by injection Ht as ->.
Qed.

(** A calm database answers; what the loop leaves when it does. *)
Lemma shed_header x name g g' : shed x name g g' -> header g' = header g /\ retired_rows (rows g') = retired_rows (rows g).
Proof. by intros (keys & _ & ->). Qed.
Lemma shed_cleared x name g g' : shed x name g g' -> cleared x name g' = cleared x name g.
Proof. intros (keys & Hk & ->). unfold cleared. cbn. by rewrite clear_drop. Qed.
Lemma shed_trans x name g g1 g2 : shed x name g g1 -> shed x name g1 g2 -> shed x name g g2.
Proof. intros (keys & Hk & ->) Hs. by apply (shed_step x name g keys). Qed.
Lemma shed_retirable x name g g' : shed x name g g' -> retirable x g' = retirable x g.
Proof. intros (keys & _ & ->). done. Qed.

Lemma found_cleared x name g : name ∈ swept -> found x name g [] -> cleared x name g = g.
Proof. intros Hn (_ & _ & Hk). unfold cleared. rewrite clear_none; [by destruct g|done|by apply Hk]. Qed.

(** Why a sweep may stop without an interruption. *)
Definition sweep_error x (e : Pub.t) g0 g : Prop :=
  g = g0 /\ ((header g = None /\ e = Pub.Corrupt) \/ retirable x g = Err e).

Lemma sweep_table_guides c x name fuel : forall g,
  lifecycle g -> name ∈ swept -> (size (stored_keys (rows g) name) < fuel)%nat ->
  guides c g (sweep_table fuel x name) (fun g' => shed x name g g' /\ lifecycle g')
    (fun _ g' => g' = cleared x name g /\ is_Some (header g) /\ (g' = g \/ retirable x g = Ok tt)) (fun e g' => sweep_error x e g g').
Proof.
  induction fuel as [|fuel IH]; intros g Hl Hn Hfuel; [lia|]. cbn [sweep_table]. eapply guides_bind.
  - apply guides_read. intros d Hd. by apply (remaining_keys_outcome d c g x name).
  - intros g' ->. split; [apply shed_refl|done].
  - intros e g' -> He. split; [done|by left].
  - intros keys g' -> [Hf Hs]. destruct keys as [|k keys].
    + apply guides_ret; [split; [apply shed_refl|done]|]. rewrite found_cleared by done. split_and!; [done|done|by left].
    + intros d w Hd. unfold mbind, Db_bind. destruct (edit_database _ d w) as [[answer d'] w'] eqn:E.
      destruct (sweep_round c g x name _ w d answer d' w' Hd Hl Hn Hf Hs E) as (g' & Hd' & Hc & Hshed & Hl' & Ha).
      destruct answer as [[]|e].
      * destruct Ha as [Hr ->].
        assert (size (stored_keys (drop_rows (rows g) name (k :: keys)) name) < fuel)%nat as Hsmall.
        { pose proof (round_smaller x name g (k :: keys) Hn Hf ltac:(done)). lia. }
        pose proof (IH _ Hl' Hn Hsmall d' w' Hd') as Hrest. destruct (sweep_table fuel x name d' w') as [[answer d''] w''].
        destruct Hrest as (g'' & ? & [Hs' ?] & Hc' & Ha). exists g''. split; [done|]. split; [split; [by eapply shed_trans|done]|]. split; [auto|].
        destruct answer as [[]|e].
        -- destruct Ha as [-> _]. split; [by apply shed_cleared|]. split; [done|by right].
        -- destruct Ha as [[-> [[Hno _]|Herr]]|[? Hnc]]; [|rewrite (shed_retirable _ _ _ _ Hshed) in Herr; congruence|right; auto].
           cbn in Hno. rewrite Hno in Hs. by destruct Hs.
      * exists g'. split; [done|]. split; [done|]. split; [done|]. destruct Ha as [[? ->]|Ha]; [left|by right].
        split; [done|by right].
Qed.

(** Fuel beyond the number of rows is never used up. *)
Lemma sweep_table_fuel c x name fuel : forall fuel' g d w,
  denotes d c g -> lifecycle g -> name ∈ swept ->
  (size (stored_keys (rows g) name) < fuel)%nat -> (size (stored_keys (rows g) name) < fuel')%nat ->
  sweep_table fuel x name d w = sweep_table fuel' x name d w.
Proof.
  induction fuel as [|fuel IH]; intros [|fuel'] g d w Hd Hl Hn Hf Hf'; try lia. cbn [sweep_table]. unfold mbind, Db_bind.
  pose proof (guides_read c g _ _ _ (fun d Hd => remaining_keys_outcome d c g x name Hd Hn) d w Hd) as Hread.
  destruct (db_read _ d w) as [[[keys|e] d'] w']; [|done]. destruct Hread as (g' & Hd' & -> & _ & Hfound & Hs).
  destruct keys as [|k keys]; [done|]. destruct (edit_database _ d' w') as [[answer d''] w''] eqn:E.
  destruct (sweep_round c g x name _ w' d' answer d'' w'' Hd' Hl Hn Hfound Hs E) as (g' & Hd'' & _ & _ & Hl' & Ha).
  destruct answer as [[]|e]; [|done]. destruct Ha as [_ ->]. pose proof (round_smaller x name g _ Hn Hfound ltac:(done)).
  eapply IH; [exact Hd''|done|done|cbn; lia|cbn; lia].
Qed.

(** ** [finish_retirement] *)

(** All saved rows, and what is left of them without those of the retired generation. *)
Definition saved_rows g : nat := size (entries (rows g)) + size (saved_pages (rows g)) + size (saved_evidence (rows g)).
Definition all_cleared x g : generations := cleared x EVIDENCE (cleared x PAGES (cleared x SOURCES g)).
Definition forgotten x g : generations :=
  {| header := header g; rows := with_retired (rows g) (delete (retirement_key x) (retired_rows (rows g))) |}.

Lemma others_size {A} sequence (m : gmap (list Z) A) : (size (others sequence m) <= size m)%nat.
Proof. unfold others. apply map_size_filter. Qed.

Lemma stored_rows_bound r name : (size (stored_keys r name) <= size (entries r) + size (saved_pages r) + size (saved_evidence r))%nat.
Proof. unfold stored_keys. repeat case_bool_decide; rewrite size_dom; lia. Qed.
Lemma cleared_bound x name g : (saved_rows (cleared x name g) <= saved_rows g)%nat.
Proof.
  unfold saved_rows, cleared, clear_rows. cbn.
  pose proof (others_size (Generation.sequence (retired_generation x)) (entries (rows g))).
  pose proof (others_size (Generation.sequence (retired_generation x)) (saved_pages (rows g))).
  pose proof (others_size (Generation.sequence (retired_generation x)) (saved_evidence (rows g))).
  repeat case_bool_decide; lia.
Qed.
Lemma enough name g fuel : (saved_rows g < fuel)%nat -> (size (stored_keys (rows g) name) < fuel)%nat.
Proof. pose proof (stored_rows_bound (rows g) name). unfold saved_rows. lia. Qed.

(** Why a retirement is refused. *)
Definition refused x g (e : Pub.t) : Prop :=
  (is_Some (unresolved_build x) /\ e = Pub.Unresolved) \/
  (unresolved_build x = None /\ ((header g = None /\ e = Pub.Corrupt) \/ retirable x g = Err e)).

(** Some rows of the generation are gone, from each table. *)
Definition partial x g g' : Prop :=
  exists g1 g2 g3, shed x SOURCES g g1 /\ shed x PAGES g1 g2 /\ shed x EVIDENCE g2 g3 /\
    (g' = g3 \/ (g' = forgotten x (all_cleared x g) /\ retirable x g = Ok tt /\ unresolved_build x = None)).

(** A step of the sequence of sweeps. *)
Definition done_with x g g' : Prop := is_Some (header g) /\ (g' = g \/ retirable x g = Ok tt).
Lemma done_next x g g1 g2 :
  retirable x g1 = retirable x g -> done_with x g g1 -> done_with x g1 g2 -> done_with x g g2.
Proof. intros E [Hs H1] [_ H2]. split; [done|]. rewrite E in H2. destruct H1 as [->|]; [done|by right]. Qed.
Lemma cleared_retirable x name g : retirable x (cleared x name g) = retirable x g.
Proof. done. Qed.
Lemma sweep_refused x e g g0 g' :
  unresolved_build x = None -> retirable x g = retirable x g0 -> header g = header g0 -> done_with x g0 g -> sweep_error x e g g' -> refused x g0 e /\ g' = g0.
Proof.
  intros Hu Hr Hh [[s Hs] Hd] [-> [[Hno _]|He]]; [congruence|]. rewrite Hr in He.
  split; [right; auto|]. destruct Hd as [->|Hok]; [done|congruence].
Qed.

Lemma forget_transaction x g :
  bounded g -> is_Some (header g) -> transaction (forget_spec x) g = (_ ← retirable x g; Ok (tt, forgotten x g)).
Proof.
  intros Hb [s Hs]. unfold transaction, forget_spec, retirable. destruct (retired_spec _ _ _); cbn [mbind result_bind]; [|done].
  unfold forgotten, header_or_default. rewrite Hs. cbn [default]. by erewrite bounded_bytes.
Qed.

Lemma forget_edit c g x :
  lifecycle g -> unresolved_build x = None -> implements c g (edit_database (forget_retired x)) (forget_spec x).
Proof.
  intros Hl Hu. apply implements_edit; [done| |intros; by apply forget_yields]. intros [] g' Ht. by apply (move_forget c g x).
Qed.

(** One sweep, as part of the whole. *)
Lemma sweep_then c x name fuel g0 g (k : Db unit) (I : generations -> Prop) (Q : unit -> generations -> Prop) :
  unresolved_build x = None -> lifecycle g -> name ∈ swept -> (saved_rows g < fuel)%nat ->
  retirable x g = retirable x g0 -> header g = header g0 -> done_with x g0 g ->
  (forall g', shed x name g g' -> lifecycle g' -> I g') ->
  (shed x name g (cleared x name g) -> lifecycle (cleared x name g) -> done_with x g0 (cleared x name g) ->
   guides c (cleared x name g) k I Q (fun e g' => refused x g0 e /\ g' = g0)) ->
  guides c g (_ ← sweep_table fuel x name; k) I Q (fun e g' => refused x g0 e /\ g' = g0).
Proof.
  intros Hu Hl Hn Hf Hr Hh Hd HI Hk. eapply guides_bind.
  - apply (sweep_table_guides c x name fuel g); [done|done|by apply enough].
  - intros g' [Hs Hl']. by apply HI.
  - intros e g' _ He. by apply (sweep_refused x e g g0 g').
  - intros [] g' [Hs Hl'] (-> & Hsome & Hor). apply Hk; [done|done|]. apply (done_next x g0 g); [done|done|by split].
Qed.

Lemma finish_retirement_guides c g x fuel :
  lifecycle g -> bounded g -> (saved_rows g < fuel)%nat ->
  guides c g (finish_retirement fuel x) (fun g' => partial x g g' /\ lifecycle g')
    (fun _ g' => g' = forgotten x (all_cleared x g) /\ retirable x g = Ok tt /\ unresolved_build x = None)
    (fun e g' => refused x g e /\ g' = g).
Proof.
  intros Hl Hb Hf. unfold finish_retirement.
  assert (partial x g g) as Hself by (exists g, g, g; split_and!; try apply shed_refl; by left).
  eapply guides_bind.
  { apply (guides_read c g _ (fun _ => unresolved_build x = None) (fun e => is_Some (unresolved_build x) /\ e = Pub.Unresolved)).
    intros d _. apply outcome_lift; intros a E; destruct (unresolved_build x); cbn in E; try done. by injection E as <-. }
  { by intros g' ->. }
  { intros e g' -> [? ->]. split; [by left; split|done]. }
  intros [] g' -> Hu. destruct (header g) as [s|] eqn:Hs.
  - assert (done_with x g g) as H0' by (split; [by rewrite Hs; eexists|by left]).
    eapply (sweep_then c x SOURCES fuel g g); try done; [unfold swept; set_solver| |].
    { intros g' Hs1 Hl1. split; [|done]. exists g', g', g'. split_and!; [done|apply shed_refl|apply shed_refl|by left]. }
    intros S1 L1 D1. eapply (sweep_then c x PAGES fuel g (cleared x SOURCES g)); try done; [unfold swept; set_solver| | |].
    { pose proof (cleared_bound x SOURCES g). lia. }
    { intros g' Hs1 Hl1. split; [|done]. exists (cleared x SOURCES g), g', g'. split_and!; [done|done|apply shed_refl|by left]. }
    intros S2 L2 D2. eapply (sweep_then c x EVIDENCE fuel g (cleared x PAGES (cleared x SOURCES g))); try done; [unfold swept; set_solver| | |].
    { pose proof (cleared_bound x SOURCES g). pose proof (cleared_bound x PAGES (cleared x SOURCES g)). lia. }
    { intros g' Hs1 Hl1. split; [|done]. exists (cleared x SOURCES g), (cleared x PAGES (cleared x SOURCES g)), g'. split_and!; [done|done|done|by left]. }
    intros S3 L3 D3. fold (all_cleared x g). fold (all_cleared x g) in S3, L3, D3.
    assert (transaction (forget_spec x) (all_cleared x g) = (_ ← retirable x g; Ok (tt, forgotten x (all_cleared x g)))) as Et.
    { rewrite forget_transaction; [done|exact Hb|]. cbn. by rewrite Hs; eexists. }
    assert (partial x g (all_cleared x g) /\ (retirable x g = Ok tt -> partial x g (forgotten x (all_cleared x g)))) as [P1 P2].
    { split; [|intros Hr]; exists (cleared x SOURCES g), (cleared x PAGES (cleared x SOURCES g)), (all_cleared x g); split_and!; auto. }
    eapply guides_weaken; [by apply (forget_edit c (all_cleared x g) x)|..].
    + intros g' [->|[[] Ht]]; [done|]. pose proof (move_lifecycle c _ g' L3 (move_forget c _ x g' Hu Ht)) as Hl'. rewrite Et in Ht.
      apply bind_ok_inv in Ht as ([] & ? & Ht). apply ok_inj in Ht. injection Ht as <-. split; [by apply P2|done].
    + intros [] g' _ Ht. rewrite Et in Ht. apply bind_ok_inv in Ht as ([] & ? & Ht). apply ok_inj in Ht. by injection Ht as <-.
    + intros e g' _ [Ht ->]. rewrite Et in Ht. destruct (retirable x g) as [[]|e'] eqn:Er; [done|]. cbn in Ht. injection Ht as ->.
      split; [right; auto|]. destruct D3 as [_ [->|?]]; [done|congruence].
  - eapply guides_bind.
    + apply (sweep_table_guides c x SOURCES fuel g); [done|unfold swept; set_solver|by apply enough].
    + intros g' [Hs1 Hl1]. split; [|done]. exists g', g', g'. split_and!; [done|apply shed_refl|apply shed_refl|by left].
    + intros e g' _ [-> [[_ ->]|He]]; (split; [right; split; [done|auto]|done]).
    + intros [] g' _ (_ & [? Hno] & _). congruence.
Qed.

(** The same steps with more fuel. *)
Lemma sweep_table_twice c g x name fuel fuel' (k k' : Db unit) d w :
  denotes d c g -> lifecycle g -> name ∈ swept -> (saved_rows g < fuel)%nat -> (saved_rows g < fuel')%nat ->
  (forall d' w', denotes d' c (cleared x name g) -> lifecycle (cleared x name g) -> k d' w' = k' d' w') ->
  (_ ← sweep_table fuel x name; k) d w = (_ ← sweep_table fuel' x name; k') d w.
Proof.
  intros Hd Hl Hn Hf Hf' Hk. unfold mbind, Db_bind.
  rewrite <- (sweep_table_fuel c x name fuel fuel' g d w) by (try done; by apply enough).
  pose proof (sweep_table_guides c x name fuel g Hl Hn (enough _ _ _ Hf) d w Hd) as Hg.
  destruct (sweep_table fuel x name d w) as [[[[]|e] d'] w']; [|done]. destruct Hg as (g' & Hd' & [_ Hl'] & _ & (-> & _)). by apply Hk.
Qed.

Lemma finish_retirement_fuel c g x fuel fuel' d w :
  denotes d c g -> lifecycle g -> (saved_rows g < fuel)%nat -> (saved_rows g < fuel')%nat ->
  finish_retirement fuel' x d w = finish_retirement fuel x d w.
Proof.
  intros Hd Hl Hf Hf'. unfold finish_retirement. unfold mbind at 1, Db_bind at 1. unfold mbind at 4, Db_bind at 4.
  unfold db_read, lift. destruct (reject_if _ _); [|done].
  apply (sweep_table_twice c g); try done; [unfold swept; set_solver|]. intros d1 w1 Hd1 Hl1.
  pose proof (cleared_bound x SOURCES g). apply (sweep_table_twice c (cleared x SOURCES g)); try done; [unfold swept; set_solver|lia|lia|].
  intros d2 w2 Hd2 Hl2. pose proof (cleared_bound x PAGES (cleared x SOURCES g)).
  apply (sweep_table_twice c (cleared x PAGES (cleared x SOURCES g))); try done; [unfold swept; set_solver|lia|lia].
Qed.

(** All rows a database holds for generations. *)
Definition row_count d : nat := size (rows_of d SOURCES) + size (rows_of d PAGES) + size (rows_of d EVIDENCE).
Lemma row_count_saved d c g : denotes d c g -> row_count d = saved_rows g.
Proof. intros (_ & (H1 & _ & H3 & H4 & _) & _). unfold row_count, saved_rows. by rewrite H1, H3, H4, map_size_fmap. Qed.

(** C20. Retirement ends and does what it says: on every database of generations, with fuel
    beyond the number of saved rows [finish_retirement] never runs out of it, whatever the
    environment does.  When it answers [Ok] exactly the rows of the retired generation and
    its obligation are gone; when it refuses nothing has changed; when the environment
    interrupts it, only rows of that generation have been removed and the invariant still
    holds, so that it can be tried again. *)
Theorem finish_retirement_ends c g x fuel d w :
  denotes d c g -> lifecycle g -> (saved_rows g < fuel)%nat ->
  (forall fuel', (saved_rows g < fuel')%nat -> finish_retirement fuel' x d w = finish_retirement fuel x d w) /\
  let '((answer, d'), w') := finish_retirement fuel x d w in
  exists g', denotes d' c g' /\ lifecycle g' /\ partial x g g' /\
    match answer with
    | Ok _ => g' = forgotten x (all_cleared x g) /\ retirable x g = Ok tt /\ unresolved_build x = None
    | Err e => (refused x g e /\ g' = g) \/ (interrupt e /\ ~ calm w)
    end.
Proof.
  intros Hd Hl Hf. pose proof (denotes_bounded d c g Hd) as Hb. split.
  - intros fuel' Hf'. by apply (finish_retirement_fuel c g).
  - pose proof (finish_retirement_guides c g x fuel Hl Hb Hf d w Hd) as Hg.
    destruct (finish_retirement fuel x d w) as [[answer d'] w']. destruct Hg as (g' & ? & [? ?] & _ & ?). by exists g'.
Qed.
End Retire.

(** ** A started build, abandoned and retired *)

Definition sample_abandoned : store := sample_on abandon_build sample_started.
Definition sample_retired : RetiredGeneration :=
  {| retired_generation := Pending.generation (sample_pending sample_started); remote_owned := false; unresolved_build := None |}.

Lemma sample_abandoned_holds : exists g, denotes sample_abandoned sample_corpus g /\ lifecycle g.
Proof.
  destruct sample_started_holds as (g & Hd & Hl). apply (sample_leaves _ _ _ g _ _ _ Hd (abandon_build_implements sample_corpus g _ Hl)).
  intros g' [->|[[] Ht]]; [done|]. by eapply (move_lifecycle sample_corpus g), move_abandon.
Qed.

Lemma finish_retirement_ends_witness :
  exists g, (denotes sample_abandoned sample_corpus g /\ lifecycle g /\ (saved_rows g < 5)%nat) /\
    is_ok (fst (fst (finish_retirement 5 sample_retired sample_abandoned []))) = true /\
    row_count (snd (fst (finish_retirement 5 sample_retired sample_abandoned []))) = 0%nat /\
    exists g', denotes (snd (fst (finish_retirement 5 sample_retired sample_abandoned []))) sample_corpus g' /\ lifecycle g'.
Proof.
  destruct sample_abandoned_holds as (g & Hd & Hl). assert (saved_rows g < 5)%nat as Hf.
  { rewrite <- (row_count_saved _ _ g Hd). apply (bool_decide_eq_true_1 _). vm_compute. reflexivity. }
  exists g. split; [done|]. split; [vm_compute; reflexivity|]. split; [vm_compute; reflexivity|].
  destruct (finish_retirement_ends sample_corpus g sample_retired 5 sample_abandoned [] Hd Hl Hf) as [_ Hout].
  destruct (finish_retirement 5 sample_retired sample_abandoned []) as [[answer d'] w']. destruct Hout as (g' & ? & ? & _). by exists g'.
Defined.
