(* ===== verification/PublicationSafety.v ===== *)
(** The safety of publication: every public operation of the crate as a request, what each
    may change, and the invariants of the databases they reach. *)

From stdpp Require Import gmap.
From S2P Require Import Prelude Bytes Ids Registry SourceRow PreparationRow PublicationRow Database Control ControlSpec.
From S2P Require Import ControlRefine ControlState ControlSample Publication PublicationSpec PublicationRefine PublicationLifecycle PublicationHistory PublicationSample PublicationOutcome PublicationRetire.

(** The writing operations of [ControlDatabase] on generations. *)
Inductive request :=
  | StartBuild (capture : CorpusCapture) (random : list Z)
  | StagePage (pending : PendingGeneration) (page : UploadPage)
  | FinishSource (pending : PendingGeneration) (id : list Z) (units : Z)
  | CompleteCapture (pending : PendingGeneration)
  | RecordDispatch (pending : PendingGeneration) (operation : PendingOperation)
  | FinishDispatch (pending : PendingGeneration) (operation : PendingOperation) (revision : Z) (applied : bool)
  | CommitGeneration (pending : PendingGeneration)
  | AbandonBuild (pending : PendingGeneration)
  | SupersedeUnknownBuild (pending : PendingGeneration)
  | FinishRetirement (fuel : nat) (retired : RetiredGeneration).

Section Requests.
Context `{PublicationJson} {D : Type} `{Redb D}.
Implicit Types (d : D) (c : corpus) (g : generations) (w : env) (r : request).

(** Its operation, without the answer's value. *)
Definition handle r : Db unit :=
  match r with
  | StartBuild capture random => _ ← start_build capture random; mret tt
  | StagePage pending page => stage_page pending page
  | FinishSource pending id units => finish_source pending id units
  | CompleteCapture pending => _ ← complete_capture pending; mret tt
  | RecordDispatch pending operation => _ ← record_dispatch pending operation; mret tt
  | FinishDispatch pending operation revision applied => finish_dispatch pending operation revision applied
  | CommitGeneration pending => _ ← commit_generation pending; mret tt
  | AbandonBuild pending => abandon_build pending
  | SupersedeUnknownBuild pending => supersede_unknown_build pending
  | FinishRetirement fuel retired => finish_retirement fuel retired
  end.

(** Arguments of the types of the code, and enough fuel. *)
Definition request_ok d r : Prop :=
  match r with
  | StartBuild capture random => capture_sound capture (build_namespace capture random)
  | StagePage pending page => Forall point_wf (page_points page)
  | FinishRetirement fuel _ => (row_count d < fuel)%nat
  | _ => True
  end.

(** What a request may change. *)
Definition effect c g r g' : Prop :=
  match r with
  | StartBuild capture random => capture_sound capture (build_namespace capture random) /\ begun c capture random g g'
  | StagePage pending page => page_valid page /\ edited (stage_spec pending page) g g' \/ g' = g
  | FinishSource pending id units => edited (finish_spec pending id units) g g'
  | CompleteCapture pending => edited (seal_spec c pending) g g'
  | RecordDispatch pending operation => edited (dispatch_spec c pending operation) g g'
  | FinishDispatch pending operation revision applied => edited (settle_spec pending operation revision applied) g g'
  | CommitGeneration pending => edited (publish_spec c pending) g g'
  | AbandonBuild pending => edited (abandon_spec pending) g g'
  | SupersedeUnknownBuild pending => edited (supersede_spec pending) g g'
  | FinishRetirement _ x => partial x g g' /\ lifecycle g'
  end.

Lemma guides_effect {A} c g (m : Db A) I Q X (R : generations -> Prop) :
  guides c g m I Q X -> (forall g', I g' -> R g') -> guides c g (_ ← m; mret tt) R (fun _ _ => True) (fun _ _ => True).
Proof. intros Hm HR. eapply guides_bind; [exact Hm|done|done|]. intros a g' HI _. apply guides_ret; [by apply HR|done]. Qed.
Lemma guides_state {A} c g (m : Db A) I Q X (R : generations -> Prop) :
  guides c g m I Q X -> (forall g', I g' -> R g') -> guides c g m R (fun _ _ => True) (fun _ _ => True).
Proof. intros Hm HR. by eapply guides_weaken; [exact Hm|..]. Qed.

(** Every request has its effect, under every environment. *)
Lemma handle_effect d c g r w :
  denotes d c g -> lifecycle g -> request_ok d r ->
  let '((answer, d'), w') := handle r d w in exists g', denotes d' c g' /\ effect c g r g'.
Proof.
  intros Hd Hl Hr. assert (guides c g (handle r) (effect c g r) (fun _ _ => True) (fun _ _ => True)) as Hg.
  { destruct r as [capture random|pending page|pending id units|pending|pending op|pending op rev ap|pending|pending|pending|fuel x]; cbn in Hr |- *.
    - eapply guides_effect; [by apply (start_build_guides c g)|]. by intros g' Hg.
    - eapply guides_state; [by apply (stage_page_guides c g)|done].
    - eapply guides_state; [by apply (finish_source_implements c g)|done].
    - eapply guides_effect; [by apply (complete_capture_implements c g)|done].
    - eapply guides_effect; [by apply (record_dispatch_implements c g)|done].
    - eapply guides_state; [by apply (finish_dispatch_implements c g)|done].
    - eapply guides_effect; [by apply (commit_generation_guides c g)|done].
    - eapply guides_state; [by apply (abandon_build_implements c g)|done].
    - eapply guides_state; [by apply (supersede_implements c g)|done].
    - eapply guides_state; [apply (finish_retirement_guides c g); [done|by eapply denotes_bounded|]|done].
      by rewrite <- (row_count_saved d c g Hd). }
  specialize (Hg d w Hd). destruct (handle r d w) as [[answer d'] w']. destruct Hg as (g' & ? & ? & _). by exists g'.
Qed.

(** The invariant is kept. *)
Lemma edited_lifecycle {A} c (spec : edit_spec A) g g' :
  lifecycle g -> (forall a g', transaction spec g = Ok (a, g') -> move c g g') -> edited spec g g' -> lifecycle g'.
Proof. intros Hl Hm [->|[a Ha]]; [done|]. by eapply move_lifecycle, Hm. Qed.

Lemma effect_lifecycle c g r g' : lifecycle g -> effect c g r g' -> lifecycle g'.
Proof.
  intros Hl. destruct r as [capture random|pending page|pending id units|pending|pending op|pending op rev ap|pending|pending|pending|fuel x]; cbn.
  - intros [Hc [->|(pending & saved & rest & g1 & Ht & Hch & Hp)]]; [done|]. apply (move_lifecycle c g); [done|].
    by apply (move_start c g capture (build_namespace capture random) pending saved rest g1 g').
  - intros [[Hv He]| -> ]; [|done]. apply (edited_lifecycle c (stage_spec pending page) g); [done| |done]. intros [] g2 Ht. by eapply move_stage.
  - apply (edited_lifecycle c); [done|]. intros [] g2 Ht. by eapply move_finish.
  - apply (edited_lifecycle c); [done|]. intros p g2 Ht. by eapply move_seal.
  - apply (edited_lifecycle c); [done|]. intros rev g2 Ht. by eapply move_dispatch.
  - apply (edited_lifecycle c); [done|]. intros [] g2 Ht. by eapply move_settle.
  - apply (edited_lifecycle c); [done|]. intros gen g2 Ht. by eapply move_publish.
  - apply (edited_lifecycle c); [done|]. intros [] g2 Ht. by eapply move_abandon.
  - apply (edited_lifecycle c); [done|]. intros [] g2 Ht. by eapply move_supersede.
  - by intros [_ ?].
Qed.

(** ** What the requests reach *)

(** The databases that publication requests reach from one without generations; the
    environment of each request is arbitrary. *)
Inductive reached c : D -> Prop :=
  | reached_new d : represents d c -> unpublished d -> reached c d
  | reached_request d r w answer d' w' :
      reached c d -> request_ok d r -> handle r d w = ((answer, d'), w') -> reached c d'.

Lemma reached_lifecycle c d : reached c d -> exists g, denotes d c g /\ lifecycle g.
Proof.
  induction 1 as [d Hr Hn|d r w answer d' w' _ (g & Hd & Hl) Hok E].
  - exists fresh. split; [by apply fresh_denotes|exact fresh_lifecycle].
  - pose proof (handle_effect d c g r w Hd Hl Hok) as He. rewrite E in He. destruct He as (g' & Hd' & He). exists g'.
    split; [done|]. by eapply effect_lifecycle.
Qed.

(** ** What a request changes in the header and in the obligations *)

Definition state_of g : State := header_or_default g.

(** The obligation that a build without a known result becomes. *)
Inductive change c r g g' : Prop :=
  (** The header and the obligations stay. *)
  | change_none :
      state_of g' = state_of g -> retired_rows (rows g') = retired_rows (rows g) -> change c r g g'
  (** A build is reserved under the next sequence. *)
  | change_reserve capture random p :
      r = StartBuild capture random -> PublicationState.pending (state_of g) = None ->
      Generation.sequence (Pending.generation p) = PublicationState.next_sequence (state_of g) + 1 ->
      Pending.in_flight p = None ->
      state_of g' = {| PublicationState.version := PublicationState.version (state_of g);
        PublicationState.namespace := Some (Generation.namespace (Pending.generation p));
        PublicationState.next_sequence := PublicationState.next_sequence (state_of g) + 1;
        PublicationState.current_revision := PublicationState.current_revision (state_of g);
        PublicationState.current := PublicationState.current (state_of g); PublicationState.pending := Some p |} ->
      retired_rows (rows g') = retired_rows (rows g) -> change c r g g'
  (** The pending build advances; only a report ends its operation in flight. *)
  | change_progress p p' :
      PublicationState.pending (state_of g) = Some p ->
      Generation.sequence (Pending.generation p') = Generation.sequence (Pending.generation p) ->
      state_of g' = PublicationState.with_pending (state_of g) (Some p') ->
      retired_rows (rows g') = retired_rows (rows g) ->
      Pending.in_flight p = None \/
      (Pending.in_flight p' = Pending.in_flight p /\ Pending.operation_revision p' = Pending.operation_revision p) \/
      (exists pending operation applied, r = FinishDispatch pending operation (Pending.operation_revision p) applied /\
         Generation.sequence (Pending.generation pending) = Generation.sequence (Pending.generation p) /\
         Pending.in_flight p = Some operation) -> change c r g g'
  (** The pending build becomes an obligation, with its operation if that has no result. *)
  | change_retire p owned unresolved :
      PublicationState.pending (state_of g) = Some p ->
      state_of g' = PublicationState.with_pending (state_of g) None ->
      retired_rows (rows g') = <[be_bytes 8 (Generation.sequence (Pending.generation p)) :=
        {| retired_generation := Pending.generation p; remote_owned := owned; unresolved_build := unresolved |}]> (retired_rows (rows g)) ->
      unresolved = Some p \/ Pending.in_flight p = None -> change c r g g'
  (** The pending build becomes the current generation and the last one an obligation. *)
  | change_publish p revision :
      r = CommitGeneration p -> PublicationState.pending (state_of g) = Some p ->
      publish_spec c p (rows g) (state_of g) = Ok (Pending.generation p, (rows g', state_of g')) ->
      state_of g' = {| PublicationState.version := PublicationState.version (state_of g);
        PublicationState.namespace := PublicationState.namespace (state_of g);
        PublicationState.next_sequence := PublicationState.next_sequence (state_of g);
        PublicationState.current_revision := revision;
        PublicationState.current := Some (Pending.generation p); PublicationState.pending := None |} ->
      Pending.in_flight p = None -> change c r g g'
  (** A retired generation whose rows are gone is forgotten. *)
  | change_forget x :
      state_of g' = state_of g -> retired_rows (rows g) !! retirement_key x = Some x -> unresolved_build x = None ->
      retired_rows (rows g') = delete (retirement_key x) (retired_rows (rows g)) -> change c r g g'.

Lemma spec_change {A} c r (spec : edit_spec A) g g' :
  edited spec g g' ->
  (forall a, spec (rows g) (state_of g) = Ok (a, (rows g', state_of g')) -> change c r g g') -> change c r g g'.
Proof.
  intros [->|[a (s' & E & Hs)%transaction_inv]] Hc; [by apply change_none|]. apply (Hc a). unfold state_of, header_or_default at 2. by rewrite Hs.
Qed.

(** Reads the steps of a successful specification. *)
Ltac read_spec E :=
  repeat match type of E with
  | (reject_if _ _ ≫= _) = Ok _ => apply bind_ok_inv in E as (? & ?%reject_if_ok & E)
  | (pending_mut _ _ ≫= _) = Ok _ => let Hp := fresh "Hp" in apply bind_ok_inv in E as (? & Hp & E); apply pending_mut_inv in Hp as [? ?]
  | (_ ≫= _) = Ok _ => apply bind_ok_inv in E as (? & ? & E)
  | (let '(_, _) := ?x in _) = Ok _ => destruct x
  end; apply ok_inj in E; to_prop.

Lemma points_retired sequence points : forall index (a b : saved) index',
  points_spec sequence index points a = Ok (b, index') -> retired_rows b = retired_rows a.
Proof.
  induction points as [|point points IH]; intros index a b index' E; cbn [points_spec] in E; [by injection E as <- _|].
  do 6 (apply bind_ok_inv in E as (? & _ & E)). by apply IH in E.
Qed.

Lemma persisted_keeps pending chunks g g' :
  persisted pending chunks g g' -> state_of g' = state_of g /\ retired_rows (rows g') = retired_rows (rows g).
Proof.
  induction 1 as [|chunk chunks g g1 g2 Ht _ [IH1 IH2]]; [done|]. apply transaction_inv in Ht as (s & E & Hs). rewrite IH1, IH2.
  unfold persist_spec, pending_spec in E. read_spec E. injection E as Er <-. unfold state_of, header_or_default. rewrite Hs, <- Er. done.
Qed.

Lemma begun_change c capture random g g' : begun c capture random g g' -> change c (StartBuild capture random) g g'.
Proof.
  intros [->|(pending & saved & rest & g1 & (s & E & Hs)%transaction_inv & _ & Hp)]; [by apply change_none|].
  apply persisted_keeps in Hp as [Hst Hret]. unfold reserve_spec in E. read_spec E. injection E as Ea Er Es.
  match goal with Hn : ok_or _ (checked_add _ _ _) = Ok _ |- _ => apply ok_or_inv, checked_add_inv in Hn as [-> _] end.
  apply (change_reserve _ _ _ _ capture random pending); rewrite <- ?Ea; [done|unfold state_of; tauto|done|done| |].
  - rewrite Hst. unfold state_of at 1, header_or_default at 1. by rewrite Hs, <- Es.
  - rewrite Hret. by rewrite <- Er.
Qed.

Lemma effect_change c g r g' : effect c g r g' -> change c r g g'.
Proof.
  destruct r as [capture random|pending page|pending id units|pending|pending op|pending op rev ap|pending|pending|pending|fuel x]; cbn.
  - intros [_ Hb]. by apply begun_change.
  - intros [[_ He]| ->]; [|by apply change_none]. eapply spec_change; [exact He|]. intros a E. unfold stage_spec, pending_spec in E.
    read_spec E. injection E as _ Er Es. eapply change_progress; [done| |by rewrite <- Es| |].
    + done.
    + rewrite <- Er. cbn. by eapply points_retired.
    + left. by apply eq_None_not_Some.
  - intros He. eapply spec_change; [exact He|]. intros a E. unfold finish_spec, pending_spec in E. read_spec E. injection E as _ Er Es.
    eapply change_progress; [done| |by rewrite <- Es|by rewrite <- Er|right; by left]. done.
  - intros He. eapply spec_change; [exact He|]. intros a E. unfold seal_spec, pending_spec in E. read_spec E. injection E as _ Er Es.
    eapply change_progress; [done| |by rewrite <- Es|by rewrite <- Er|right; by left]. done.
  - intros He. eapply spec_change; [exact He|]. intros a E. unfold dispatch_spec, pending_spec in E. read_spec E. injection E as _ Er Es.
    eapply change_progress; [done| |by rewrite <- Es|by rewrite <- Er|left; by apply eq_None_not_Some]. done.
  - intros He. eapply spec_change; [exact He|]. intros a E. unfold settle_spec, pending_spec in E. read_spec E. injection E as _ Er Es.
    eapply change_progress; [done| |by rewrite <- Es|by rewrite <- Er|]; [done|]. right. right. exists pending, op, ap. naive_solver.
  - intros He. eapply spec_change; [exact He|]. intros a E. pose proof E as E'. unfold publish_spec, pending_spec in E. read_spec E.
    injection E as Ea _ Es. subst. eapply change_publish; [done|done|exact E'|by rewrite <- Es|by apply eq_None_not_Some].
  - intros He. eapply spec_change; [exact He|]. intros a E. unfold abandon_spec, pending_spec in E. read_spec E. injection E as _ Er Es.
    eapply change_retire; [done|by rewrite <- Es|by rewrite <- Er|right; by apply eq_None_not_Some].
  - intros He. eapply spec_change; [exact He|]. intros a E. unfold supersede_spec, pending_spec in E. read_spec E. injection E as _ Er Es.
    eapply change_retire; [done|by rewrite <- Es|by rewrite <- Er|by left].
  - intros [(g1 & g2 & g3 & [A1 B1]%shed_header & [A2 B2]%shed_header & [A3 B3]%shed_header & [->|(-> & Hr & Hu)]) _].
    + apply change_none; [unfold state_of, header_or_default; by rewrite A3, A2, A1|by rewrite B3, B2, B1].
    + eapply (change_forget _ _ _ _ x); [done| |done|done]. unfold retirable in Hr. by apply retired_spec_inv in Hr as (_ & _ & ?).
Qed.

(** ** The published generation *)

Definition current_of g : option Generation := PublicationState.current (state_of g).

(** The build [p] is complete: its sources are finished, its collection is created, every
    page uploaded and confirmed, and what it was built from is still current. *)
Definition publishable c g (p : PendingGeneration) : Prop :=
  PublicationState.pending (state_of g) = Some p /\ Pending.in_flight p = None /\ Pending.created p = true /\
  Pending.uploaded_pages p = Generation.page_count (Pending.generation p) /\
  (forall k e, entries (rows g) !! k = Some e -> keyed (Generation.sequence (Pending.generation p)) k -> entry_complete e = true) /\
  namespace c = Pending.source_namespace p /\ wanted c = Generation.wanted_revision (Pending.generation p) /\
  current_of g = Pending.expected_current p /\
  PublicationState.current_revision (state_of g) = Pending.expected_current_revision p.

(** A sealed build of a sound header has only complete entries. *)
Lemma sealed_complete K g s p :
  sound K s (rows g) -> PublicationState.pending s = Some p -> Pending.capture_complete p = true ->
  forall k e, entries (rows g) !! k = Some e -> keyed (Generation.sequence (Pending.generation p)) k -> entry_complete e = true.
Proof.
  intros Hs Hp Hc k e He Hk. destruct (sound_pending K s (rows g) p Hs Hp) as (_ & (_ & _ & _ & _ & _ & Hseal) & (HK & Hin & Hcount & _)).
  specialize (Hseal Hc). set (seq := Generation.sequence (Pending.generation p)) in *.
  assert (dom (completed_rows (rows g) seq) ⊆ K) as Hsub.
  { intros q [e' He']%elem_of_dom. unfold completed_rows in He'. apply map_lookup_filter_Some in He' as [He' [Hq _]]. by apply (Hin q e'). }
  assert (dom (completed_rows (rows g) seq) = K) as HdK.
  { apply leibniz_equiv. apply set_subseteq_size_equiv; [done|]. rewrite size_dom. lia. }
  assert (k ∈ dom (completed_rows (rows g) seq)) as [e' He']%elem_of_dom by (rewrite HdK; by apply (Hin k e)).
  unfold completed_rows in He'. apply map_lookup_filter_Some in He' as [He' [_ Hd]]. cbn in Hd. congruence.
Qed.

Lemma publish_publishable c g p b :
  lifecycle g -> publish_spec c p (rows g) (state_of g) = Ok b -> publishable c g p.
Proof.
  intros [K Hl] E. unfold publish_spec, pending_spec in E. apply bind_ok_inv in E as (q & Hq & E).
  assert (sound K (state_of g) (rows g)) as Hs by (eapply pending_started; [by apply lifecycle_started|exact Hq]).
  apply pending_mut_inv in Hq as [Hq _]. apply bind_ok_inv in E as ([] & Heq%reject_if_ok & E). to_prop. subst q.
  apply bind_ok_inv in E as ([] & Hw%reject_if_ok & E). apply bind_ok_inv in E as ([] & Hf%reject_if_ok & E).
  apply bind_ok_inv in E as ([] & Hg%reject_if_ok & E). to_prop. destruct Hg as (Hc & Hcr & Hu & Hrev & Hcur). injection Hw as Hns Hwanted.
  refine (conj _ (conj _ (conj _ (conj _ (conj _ (conj _ (conj _ (conj _ _)))))))); try done.
  - by apply eq_None_not_Some.
  - by apply (sealed_complete K g (state_of g) p).
Qed.

(** C17. Only a complete build is ever published: whatever request runs, under every
    environment, either the current generation and its revision stay, or the request is
    [CommitGeneration] of the pending build, all of whose sources are complete, whose
    collection is created, whose pages are all confirmed and whose captured revision and
    predecessor are still current; then its generation is the current one under the next
    revision, nothing is pending, and its predecessor is kept as an obligation to retire. *)
Theorem published_complete d c g r w :
  denotes d c g -> lifecycle g -> request_ok d r ->
  let '((answer, d'), w') := handle r d w in
  exists g', denotes d' c g' /\
    ((current_of g' = current_of g /\
      PublicationState.current_revision (state_of g') = PublicationState.current_revision (state_of g)) \/
     exists p, r = CommitGeneration p /\ publishable c g p /\
       current_of g' = Some (Pending.generation p) /\ PublicationState.pending (state_of g') = None /\
       PublicationState.current_revision (state_of g') = PublicationState.current_revision (state_of g) + 1 /\
       forall old, current_of g = Some old ->
         retired_rows (rows g') !! be_bytes 8 (Generation.sequence old)
         = Some {| retired_generation := old; remote_owned := true; unresolved_build := None |}).
Proof.
  intros Hd Hl Hr. pose proof (handle_effect d c g r w Hd Hl Hr) as He. destruct (handle r d w) as [[answer d'] w'].
  destruct He as (g' & Hd' & He). exists g'. split; [done|]. unfold current_of. apply effect_change in He. destruct He as
    [Es _|capture random p _ _ _ _ Es _|p p' _ _ Es _ _|p owned un _ Es _ _|p revision -> Hp E Es _|x Es _ _ _]; [left; by rewrite Es..| |left; by rewrite Es].
  right. exists p. split; [done|]. pose proof (publish_publishable c g p _ Hl E) as Hpub. split; [done|].
  unfold publish_spec, pending_spec in E. read_spec E. injection E as Ex Er Es'.
  match goal with Hn : ok_or _ (checked_add _ _ _) = Ok _ |- _ => apply ok_or_inv, checked_add_inv in Hn as [-> _] end.
  rewrite <- Es'. cbn. split; [|split; [done|split; [done|]]]; [congruence|].
  intros old Hold. rewrite Hold in Er. rewrite <- Er. unfold retire_rows, with_retired, retirement_key. cbn. by rewrite lookup_insert_eq.
Qed.

(** ** Operations in flight *)

(** The operation that generation [n] sent as its revision, without a known result: in
    the pending build, or in the obligation that the build became. *)
Definition in_flight_record g (n : Z) (operation : PendingOperation) (revision : Z) : Prop :=
  exists p, Generation.sequence (Pending.generation p) = n /\ Pending.in_flight p = Some operation /\
    Pending.operation_revision p = revision /\
    (PublicationState.pending (state_of g) = Some p \/
     exists k x, retired_rows (rows g) !! k = Some x /\ unresolved_build x = Some p).

(** An obligation's key is not one of a generation in use. *)
Lemma unused_key g k x n :
  lifecycle g -> retired_rows (rows g) !! k = Some x -> uses_sequence (state_of g) n = true -> 0 <= n <= U64_MAX -> k <> be_bytes 8 n.
Proof.
  intros [K Hl] Hx Hn Hb ->. destruct (lifecycle_started K g Hl) as [Hs|[_ E]]; [|by rewrite E in Hx].
  destruct Hs as (_ & _ & _ & Hret & _). destruct (Hret _ _ Hx) as ((Hw & _) & Hk & _ & _ & Hu & _).
  unfold retirement_key in Hk. apply (be_bytes_inj 8) in Hk; [|width|destruct Hw as (_ & ? & _); width].
  unfold state_of in *. rewrite Hk in Hn. congruence.
Qed.

Lemma pending_typed g p : lifecycle g -> PublicationState.pending (state_of g) = Some p -> Pending.wf p.
Proof. intros Hl Hp. pose proof (lifecycle_typed g Hl) as (_ & _ & _ & _ & _ & Hw). by apply Hw. Qed.
Lemma current_typed g x : lifecycle g -> PublicationState.current (state_of g) = Some x -> Generation.wf x.
Proof. intros Hl Hx. pose proof (lifecycle_typed g Hl) as (_ & _ & _ & _ & Hw & _). by apply Hw. Qed.

(** A new obligation of a generation in use keeps the old ones. *)
Lemma insert_keeps g k x n y :
  lifecycle g -> retired_rows (rows g) !! k = Some x -> uses_sequence (state_of g) n = true -> 0 <= n <= U64_MAX ->
  <[be_bytes 8 n := y]> (retired_rows (rows g)) !! k = Some x.
Proof.
  intros Hl Hx Hn Hb. rewrite lookup_insert_ne; [done|]. intros E. by apply (unused_key g k x n Hl Hx Hn Hb).
Qed.
Lemma uses_pending s p : PublicationState.pending s = Some p -> uses_sequence s (Generation.sequence (Pending.generation p)) = true.
Proof. intros Hp. unfold uses_sequence. rewrite Hp, Z.eqb_refl. apply orb_true_r. Qed.
Lemma uses_current s x : PublicationState.current s = Some x -> uses_sequence s (Generation.sequence x) = true.
Proof. intros Hx. unfold uses_sequence. by rewrite Hx, Z.eqb_refl. Qed.

Lemma in_flight_change c r g g' n operation revision :
  lifecycle g -> change c r g g' -> in_flight_record g n operation revision ->
  in_flight_record g' n operation revision \/
  exists pending applied, r = FinishDispatch pending operation revision applied /\ Generation.sequence (Pending.generation pending) = n.
Proof.
  intros Hl Hch (p & Hn & Hf & Hrev & Hin).
  destruct Hch as [Es Er|capture random q _ Hq _ _ Es Er|q q' Hq Hseq Es Er Hfl|q owned un Hq Es Er Hun|q rev _ Hq E Es Hqf|x Es Hx Hu Er].
  - left. exists p. by rewrite Es, Er.
  - left. exists p. rewrite Er. destruct Hin as [Hp|Hin]; [congruence|]. by split_and!; try right.
  - destruct Hin as [Hp|Hin]; [|left; exists p; rewrite Er; by split_and!; try right]. assert (q = p) as -> by congruence.
    destruct Hfl as [Hno|[[Hfl Hrv]|(pending & op & ap & -> & Hsq & Hop)]]; [congruence| |].
    + left. exists q'. rewrite Es. split_and!; [congruence..|by left].
    + right. exists pending, ap. split; [|congruence]. congruence.
  - left. exists p. split_and!; [done..|]. right. destruct Hin as [Hp|(k & x & Hx & Hxu)].
    + assert (q = p) as -> by congruence. destruct Hun as [->|Hno]; [|congruence]. eexists _, _. rewrite Er.
      split; [apply lookup_insert_eq|done].
    + exists k, x. split; [|done]. rewrite Er. apply insert_keeps; [done|done|by apply uses_pending|].
      pose proof (pending_typed g q Hl Hq) as ((_ & ? & _) & _). done.
  - left. exists p. split_and!; [done..|]. right. destruct Hin as [Hp|(k & x & Hx & Hxu)]; [congruence|]. exists k, x. split; [|done].
    unfold publish_spec, pending_spec in E. read_spec E. injection E as Ex Er Es'. rewrite <- Er.
    destruct (PublicationState.current (state_of g)) as [old|] eqn:Hold; [|done]. unfold retire_rows, with_retired, retirement_key.
    cbn [retired_rows retired_generation]. apply insert_keeps; [done|done|by apply uses_current|].
    pose proof (current_typed g old Hl Hold) as (_ & ? & _). done.
  - left. exists p. rewrite Es. split_and!; [done..|]. destruct Hin as [Hp|(k & y & Hy & Hyu)]; [by left|right].
    exists k, y. split; [|done]. rewrite Er. rewrite lookup_delete_ne; [done|]. intros E. rewrite E in Hx. congruence.
Qed.

(** C18. An operation in flight is never forgotten: once an operation was recorded as sent
    to the remote side, every request, under every environment, keeps it - in the pending
    build or in its unresolved obligation - until [FinishDispatch] reports the result of
    exactly this operation at exactly its revision; in particular a build with an operation
    in flight is never published, abandoned or retired away. *)
Theorem in_flight_kept d c g r w n operation revision :
  denotes d c g -> lifecycle g -> request_ok d r -> in_flight_record g n operation revision ->
  let '((answer, d'), w') := handle r d w in
  exists g', denotes d' c g' /\
    (in_flight_record g' n operation revision \/
     exists pending applied, r = FinishDispatch pending operation revision applied /\
       Generation.sequence (Pending.generation pending) = n).
Proof.
  intros Hd Hl Hr Hf. pose proof (handle_effect d c g r w Hd Hl Hr) as He. destruct (handle r d w) as [[answer d'] w'].
  destruct He as (g' & Hd' & He). exists g'. split; [done|]. by eapply in_flight_change, Hf; [|eapply effect_change].
Qed.

(** ** What every reached database holds *)

(** C19. Publication never corrupts its own state: on every database that requests reach
    from one without generations - each request under an arbitrary environment, failing,
    cancelled or with lost commit reports - the header decodes under all checks of
    [decode_state], every saved source entry decodes, every obligation decodes to a
    generation out of use stored under its own sequence, and the obligations with the
    pending build are at most eight. *)
Theorem reached_type_safe c d :
  reached c d ->
  exists s, refines (read_state d) (Ok s) /\ (s = PublicationState.default \/ decode_state (state_to_vec s) = Ok s) /\
    (forall k v, rows_of d SOURCES !! k = Some v -> exists e, decode_source v = Ok e) /\
    (forall k v, rows_of d RETIRED !! k = Some v ->
       exists x, retired_from_slice v = Some x /\ k = retirement_key x /\
         PublicationState.namespace s = Some (Generation.namespace (retired_generation x)) /\
         uses_sequence s (Generation.sequence (retired_generation x)) = false) /\
    Z.of_nat (size (rows_of d RETIRED)) + (if bool_decide (is_Some (PublicationState.pending s)) then 1 else 0) <= MAX_RETIRED.
Proof.
  intros (g & Hd & [K Hl])%reached_lifecycle. exists (header_or_default g). split; [by apply (read_state_refines d c)|].
  pose proof Hd as (_ & (H1 & H2 & _ & _ & H5 & H6) & Hh). rewrite H1, H5, map_size_fmap. split; [|split; [|split]].
  - unfold header_or_default. destruct (header g) as [s|]; [right|by left]. destruct Hh as (_ & _ & Hs). by apply readable_decode.
  - intros k v Hv. rewrite lookup_fmap in Hv. apply fmap_Some in Hv as (e & He & ->). exists e. apply decode_stored_entry. by apply (H2 k).
  - intros k v Hv. rewrite lookup_fmap in Hv. apply fmap_Some in Hv as (x & Hx & ->). exists x.
    rewrite retired_roundtrip by by apply (H6 k). split; [done|]. destruct (lifecycle_started K g Hl) as [Hs|[_ E]]; [|by rewrite E in Hx].
    destruct Hs as (_ & _ & _ & Hret & _). destruct (Hret _ _ Hx) as (_ & ? & ? & _ & ? & _). done.
  - destruct (lifecycle_started K g Hl) as [Hs|[-> E]]; [by apply Hs|]. rewrite E. done.
Qed.
End Requests.

(** ** The sample build *)

Lemma reached_after c (d : store) (r : request) : reached c d -> request_ok d r -> reached c (sample_after (handle r) d).
Proof.
  intros Hd Hr. unfold sample_after. destruct (handle r d []) as [[answer d'] w'] eqn:E. by eapply reached_request.
Qed.
Lemma after_unit {A} (m : Db A) (d : store) : sample_after (_ ← m; mret tt) d = sample_after m d.
Proof. unfold sample_after, mbind, Db_bind. destruct (m d []) as [[[a|e] d'] w']; done. Qed.

Lemma sample_page_wf : Forall point_wf (page_points sample_page).
Proof.
  constructor; [|constructor]. split; [reflexivity|]. split; [closed_fact|]. pose proof sample_content as (_ & Ho & _).
  refine (conj _ (conj _ (conj Ho (conj sample_artifact_wf _)))); cbn; [split; closed_fact|split; closed_fact|].
  split_and!; closed_fact.
Qed.

Lemma sample_started_reached : reached sample_corpus sample_started.
Proof.
  unfold sample_started. rewrite <- after_unit.
  apply (reached_after sample_corpus sample_store (StartBuild sample_corpus_capture sample_generation_namespace)); [|exact sample_capture_sound].
  apply reached_new; [exact sample_represents|]. unfold unpublished. apply (bool_decide_eq_true_1 _). vm_compute. reflexivity.
Qed.
(** An operation on the pending build. *)
Lemma reached_on {A} c (d : store) (m : PendingGeneration -> Db A) (r : PendingGeneration -> request) :
  (forall p, handle (r p) = (_ ← m p; mret tt)) -> reached c d -> (forall p, request_ok d (r p)) -> reached c (sample_on m d).
Proof.
  intros Hm Hd Hr. unfold sample_on. rewrite <- after_unit, <- Hm. by apply reached_after.
Qed.
Lemma reached_on_unit c (d : store) (m : PendingGeneration -> Db unit) (r : PendingGeneration -> request) :
  (forall p, handle (r p) = m p) -> reached c d -> (forall p, request_ok d (r p)) -> reached c (sample_on m d).
Proof. intros Hm Hd Hr. unfold sample_on. rewrite <- Hm. by apply reached_after. Qed.

Lemma sample_sealed_reached : reached sample_corpus sample_sealed.
Proof.
  refine (reached_on sample_corpus _ complete_capture CompleteCapture (fun _ => eq_refl) _ (fun _ => I)).
  refine (reached_on_unit sample_corpus _ (fun p => finish_source p sample_id 1) (fun p => FinishSource p sample_id 1) (fun _ => eq_refl) _ (fun _ => I)).
  refine (reached_on_unit sample_corpus _ (fun p => stage_page p sample_page) (fun p => StagePage p sample_page) (fun _ => eq_refl) _ (fun _ => sample_page_wf)).
  exact sample_started_reached.
Qed.
Lemma sample_sent_reached : reached sample_corpus sample_sent.
Proof.
  exact (reached_on sample_corpus _ (fun p => record_dispatch p Create) (fun p => RecordDispatch p Create) (fun _ => eq_refl)
    sample_sealed_reached (fun _ => I)).
Qed.
Lemma sample_uploaded_reached : reached sample_corpus sample_uploaded.
Proof.
  refine (reached_on_unit sample_corpus _ (fun p => finish_dispatch p (Insert 0) 2 true) (fun p => FinishDispatch p (Insert 0) 2 true) (fun _ => eq_refl) _ (fun _ => I)).
  refine (reached_on sample_corpus _ (fun p => record_dispatch p (Insert 0)) (fun p => RecordDispatch p (Insert 0)) (fun _ => eq_refl) _ (fun _ => I)).
  refine (reached_on_unit sample_corpus _ (fun p => finish_dispatch p Create 1 true) (fun p => FinishDispatch p Create 1 true) (fun _ => eq_refl) _ (fun _ => I)).
  exact sample_sent_reached.
Qed.
Lemma sample_published_reached : reached sample_corpus sample_published.
Proof.
  exact (reached_on sample_corpus _ commit_generation CommitGeneration (fun _ => eq_refl) sample_uploaded_reached (fun _ => I)).
Qed.

(** The header that a database of generations decodes to. *)
Lemma state_read (d : store) c g : denotes d c g -> run (read_state d) [] = Ok (state_of g).
Proof. intros Hd. apply refines_calm; [by apply (read_state_refines d c)|constructor]. Qed.
Lemma current_read (d : store) c g o :
  denotes d c g -> PublicationState.current <$> run (read_state d) [] = Ok o -> current_of g = o.
Proof. intros Hd. rewrite (state_read d c g Hd). cbn. intros E. by apply ok_inj in E. Qed.
Lemma pending_read (d : store) c g o :
  denotes d c g -> PublicationState.pending <$> run (read_state d) [] = Ok o -> PublicationState.pending (state_of g) = o.
Proof. intros Hd. rewrite (state_read d c g Hd). cbn. intros E. by apply ok_inj in E. Qed.

Lemma reached_type_safe_witness :
  reached sample_corpus sample_published /\
  exists s, refines (read_state sample_published) (Ok s) /\ PublicationState.current s = Some (Pending.generation (sample_pending sample_uploaded)).
Proof.
  assert (PublicationState.current <$> run (read_state sample_published) [] = Ok (Some (Pending.generation (sample_pending sample_uploaded)))) as E
    by (vm_compute; reflexivity).
  split; [exact sample_published_reached|].
  destruct (reached_type_safe sample_corpus sample_published sample_published_reached) as (s & Hs & _). exists s. split; [exact Hs|].
  rewrite (refines_calm _ _ [] Hs ltac:(constructor)) in E. cbn in E. by apply ok_inj in E.
Defined.

Lemma commit_inj p q : CommitGeneration p = CommitGeneration q -> p = q.
Proof. by intros [= ->]. Qed.

Lemma published_complete_witness :
  exists g, (denotes sample_uploaded sample_corpus g /\ lifecycle g /\ request_ok sample_uploaded (CommitGeneration (sample_pending sample_uploaded))) /\
    publishable sample_corpus g (sample_pending sample_uploaded) /\
    exists g', denotes sample_published sample_corpus g' /\ current_of g' = Some (Pending.generation (sample_pending sample_uploaded)).
Proof.
  destruct (reached_lifecycle _ _ sample_uploaded_reached) as (g & Hd & Hl). exists g. split; [done|].
  assert (PublicationState.current <$> run (read_state sample_uploaded) [] = Ok None) as Eb by (vm_compute; reflexivity).
  assert (PublicationState.current <$> run (read_state sample_published) [] = Ok (Some (Pending.generation (sample_pending sample_uploaded)))) as Ea
    by (vm_compute; reflexivity).
  apply (current_read _ _ _ _ Hd) in Eb.
  pose proof (published_complete sample_uploaded sample_corpus g (CommitGeneration (sample_pending sample_uploaded)) [] Hd Hl I) as Hp.
  assert (sample_published = sample_after (handle (CommitGeneration (sample_pending sample_uploaded))) sample_uploaded) as Es
    by (unfold sample_published, sample_on; symmetry; apply after_unit).
  revert Ea. rewrite Es. unfold sample_after. destruct (handle _ _ _) as [[answer d'] w']. cbn [fst snd]. intros Ea.
  destruct Hp as (g' & Hd' & Hcase). pose proof (current_read _ _ _ _ Hd' Ea) as Ec.
  destruct Hcase as [[Hsame _]|(p & Hr & Hpub & _)].
  - rewrite Eb, Ec in Hsame. discriminate Hsame.
  - apply commit_inj in Hr. rewrite <- Hr in Hpub. split; [exact Hpub|]. exists g'. exact (conj Hd' Ec).
Defined.

Lemma in_flight_kept_witness :
  exists g, (denotes sample_sent sample_corpus g /\ lifecycle g /\ request_ok sample_sent (AbandonBuild (sample_pending sample_sent)) /\
     in_flight_record g 1 Create 1) /\
    exists g', denotes (sample_after (handle (AbandonBuild (sample_pending sample_sent))) sample_sent) sample_corpus g' /\ in_flight_record g' 1 Create 1.
Proof.
  destruct (reached_lifecycle _ _ sample_sent_reached) as (g & Hd & Hl).
  assert (PublicationState.pending <$> run (read_state sample_sent) [] = Ok (Some (sample_pending sample_sent))) as E by (vm_compute; reflexivity).
  assert (in_flight_record g 1 Create 1) as Hf.
  { exists (sample_pending sample_sent). split; [vm_compute; reflexivity|]. split; [vm_compute; reflexivity|]. split; [vm_compute; reflexivity|].
    left. exact (pending_read _ _ _ _ Hd E). }
  exists g. split; [exact (conj Hd (conj Hl (conj I Hf)))|].
  pose proof (in_flight_kept sample_sent sample_corpus g (AbandonBuild (sample_pending sample_sent)) [] 1 Create 1 Hd Hl I Hf) as Hk.
  unfold sample_after. destruct (handle _ _ _) as [[answer d'] w']. cbn [fst snd].
  destruct Hk as (g' & Hd' & [Hk|(pending & applied & Hno & _)]); [|discriminate Hno].
  exists g'. exact (conj Hd' Hk).
Defined.
