(* ===== verification/PublicationRead.v ===== *)
(** Reads of a publication (crates/search-control-redb/src/publication.rs): the capture of
    the current corpus, saved pages and sources, retired obligations, and the view pinned
    to the committed generation; and the exhaustive verification of a saved generation
    (publication/verify.rs). *)

From stdpp Require Import gmap.
From S2P Require Import Prelude Bytes Reader Ids Registry SourceRow PreparationRow PublicationRow Database Control Publication.

(** ** The capture of the current corpus *)

Section Capture.
Context `{PublicationJson} {D : Type} `{Redb D}.
Implicit Types d : D.

(** The row loop of [read_corpus]; [prepared] says whether the preparations exist. *)
Fixpoint corpus_rows d (ns : list Z) (prepared : bool) (rows : list (list Z * list Z)) (charged : Z)
    (sources : list CapturedSource) : M Pub.t (list CapturedSource) :=
  match rows with
  | [] => mret sources
  | (id, bytes) :: rows =>
      _ ← publication_check;
      _ ← call Pub.Database;
      charged ← lift (ok_or Pub.Limit (checked_add USIZE_MAX charged (len bytes)));
      _ ← lift (reject_if ((MAX_SOURCES <=? len sources) || (MAX_CAPTURE_BYTES <? charged)) Pub.Limit);
      source ← lift (map_err publication_source_error (decode_record bytes));
      _ ← lift (reject_if (negb (bool_decide (id = source_id source))
            || negb (bool_decide (source_namespace_id source = ns))) Pub.Corrupt);
      _ ← lift (reject_if (negb prepared) Pub.Unprepared);
      value ← get Pub.Database d PREPARATIONS id;
      value ← lift (ok_or Pub.Unprepared value);
      charged ← lift (ok_or Pub.Limit (checked_add USIZE_MAX charged (len value)));
      _ ← lift (reject_if (MAX_CAPTURE_BYTES <? charged) Pub.Limit);
      preparation ← lift (map_err (fun _ => Pub.Corrupt) (decode_preparation value));
      _ ← lift (reject_if (negb (bool_decide (prep_namespace preparation = ns))
            || negb (bool_decide (prep_source_id preparation = source_id source))) Pub.Corrupt);
      _ ← lift (reject_if (negb match current_outcome preparation with
            | Some outcome => matches_input outcome source (settings preparation)
            | None => false
            end) Pub.Unprepared);
      _ ← reserve_with Pub.Allocation;
      corpus_rows d ns prepared rows charged
        (sources ++ [{| captured_source := source; captured_preparation := preparation |}])
  end.

Definition read_corpus d : M Pub.t CorpusCapture :=
  _ ← call Pub.Database;
  let names := list_tables d in
  _ ← call Pub.Database;
  let multi := negb (len (list_multimap_tables d) =? 0) in
  has_sources ← lift (map_err publication_source_error (catalogue_names names multi));
  state ← read_state d;
  read ← (if (has_sources : bool) then
      ns ← lift_err publication_source_error (read_namespace d);
      ns ← lift (ok_or Pub.Corrupt ns);
      revision ← lift_err publication_source_error (wanted_revision d);
      _ ← open_read Pub.Database d SOURCE_ROWS;
      prepared ← open_optional Pub.Database d PREPARATIONS;
      rows ← iterate Pub.Database d SOURCE_ROWS;
      sources ← corpus_rows d ns prepared rows 0 [];
      mret (Some ns, (revision, sources))
    else mret (None, (0, [])));
  let '(namespace, (revision, sources)) := read in
  mret {| Capture.sources := sources; Capture.current := PublicationState.current state;
          Capture.pending := PublicationState.pending state; Capture.source_namespace := namespace;
          Capture.wanted_revision := revision; Capture.state := state |}.

(** [ControlWriter::capture_corpus] *)
Definition capture_corpus d : M Pub.t CorpusCapture := observe_database d read_corpus.

(** ** Saved pages, sources and obligations *)

(** [ControlWriter::load_pending] *)
Definition load_pending d : M Pub.t (option PendingGeneration) :=
  observe_database d (fun d => state ← read_state d; mret (PublicationState.pending state)).

(** Whether a header names the generation, as the current one or as a pending one that
    satisfies [p]. *)
Definition names_generation (p : PendingGeneration -> bool) (s : State) (g : Generation) : bool :=
  bool_decide (PublicationState.current s = Some g)
  || match PublicationState.pending s with
     | Some pending => p pending && bool_decide (Pending.generation pending = g)
     | None => false
     end.

Definition read_saved_page d (g : Generation) (page : Z) : M Pub.t UploadPage :=
  state ← read_state d;
  _ ← lift (reject_if ((Generation.page_count g <=? page) || negb (names_generation (fun _ => true) state g)) Pub.Stale);
  _ ← open_read Pub.Corrupt d PAGES;
  value ← get Pub.Database d PAGES (generation_key (Generation.sequence g) (be_bytes 8 page));
  value ← lift (ok_or Pub.Corrupt value);
  decode_page value.
Definition read_upload_page d (g : Generation) (page : Z) : M Pub.t UploadPage :=
  observe_path d (fun d => read_saved_page d g page).
(** [ControlWriter::read_upload_page] *)
Definition writer_read_upload_page d (g : Generation) (page : Z) : M Pub.t UploadPage :=
  observe_database d (fun d => read_saved_page d g page).

Definition read_saved_source d (g : Generation) (id : list Z) : M Pub.t CapturedSource :=
  state ← read_state d;
  _ ← lift (reject_if (negb (names_generation Pending.capture_complete state g)) Pub.Stale);
  _ ← open_read Pub.Corrupt d SOURCES;
  value ← get Pub.Database d SOURCES (generation_key (Generation.sequence g) id);
  value ← lift (ok_or Pub.Corrupt value);
  entry ← lift (decode_source value);
  _ ← lift (reject_if (negb (entry_complete entry)
        || negb (bool_decide (source_id (captured_source (entry_captured entry)) = id))) Pub.Corrupt);
  mret (entry_captured entry).
Definition read_generation_source d (g : Generation) (id : list Z) : M Pub.t CapturedSource :=
  observe_path d (fun d => read_saved_source d g id).
(** [ControlWriter::read_generation_source] *)
Definition writer_read_generation_source d (g : Generation) (id : list Z) : M Pub.t CapturedSource :=
  observe_database d (fun d => read_saved_source d g id).

(** The guards of [read_retirements] on one row. *)
Definition retirement_refused (s : State) (id : list Z) (retired : RetiredGeneration) : bool :=
  let g := retired_generation retired in
  negb (bool_decide (id = be_bytes 8 (Generation.sequence g)))
  || negb (bool_decide (PublicationState.namespace s = Some (Generation.namespace g)))
  || (Generation.sequence g =? 0)
  || (PublicationState.next_sequence s <? Generation.sequence g)
  || uses_sequence s (Generation.sequence g).
Definition obligation_refused (retired : RetiredGeneration) : bool :=
  match unresolved_build retired with
  | Some pending =>
      negb (Bool.eqb (remote_owned retired) (Pending.created pending))
      || negb (bool_decide (Pending.generation pending = retired_generation retired))
      || negb (unknown_build pending)
  | None => false
  end.

Fixpoint retirement_rows (s : State) (rows : list (list Z * list Z)) : M Pub.t (list RetiredGeneration) :=
  match rows with
  | [] => mret []
  | (id, value) :: rows =>
      _ ← call Pub.Database;
      _ ← lift (reject_if (4096 <? len value) Pub.Corrupt);
      retired ← lift (ok_or Pub.Corrupt (retired_from_slice value));
      _ ← lift (reject_if (retirement_refused s id retired) Pub.Corrupt);
      _ ← lift (reject_if (obligation_refused retired) Pub.Corrupt);
      out ← retirement_rows s rows;
      mret (retired :: out)
  end.

Definition read_retirements d : M Pub.t (list RetiredGeneration) :=
  state ← read_state d;
  if bool_decide (PublicationState.namespace state = None) then mret []
  else
    _ ← open_read Pub.Corrupt d RETIRED;
    _ ← call Pub.Database;
    _ ← lift (reject_if (MAX_RETIRED <? len (table_iter d RETIRED)) Pub.Limit);
    rows ← iterate Pub.Database d RETIRED;
    retirement_rows state rows.
(** [ControlWriter::retired_generations] *)
Definition retired_generations d : M Pub.t (list RetiredGeneration) := observe_database d read_retirements.
End Capture.

(** ** Rows of one generation *)

(** [for row in table.range(prefix..) { check; row?; if !starts_with(prefix) break; .. }]:
    the loop of every scan over one generation, with the state [S] of its body. *)
Section Scan.
Context {S : Type} (prefix : list Z) (body : S -> list Z -> list Z -> M Pub.t S).

Fixpoint scan_rows (rows : list (list Z * list Z)) (s : S) : M Pub.t S :=
  match rows with
  | [] => mret s
  | (key, value) :: rows =>
      _ ← publication_check;
      _ ← call Pub.Database;
      if negb (starts_with key prefix) then mret s
      else s ← body s key value; scan_rows rows s
  end.
End Scan.

Definition scan_generation {S D} `{Redb D} (d : D) (table : list Z) (sequence : Z)
    (body : S -> list Z -> list Z -> M Pub.t S) (s : S) : M Pub.t S :=
  _ ← call Pub.Database;
  scan_rows (be_bytes 8 sequence) body (range_from d table (be_bytes 8 sequence)) s.

(** ** verify.rs *)

Module SourceProgress.
Record t := {
  id : list Z;
  namespace : list Z;
  input : ObjectRef;
  prepared : option ObjectRef;
  units : Z;
  seen : Z;
  byte_end : Z }.

Definition from_entry (entry : SourceEntry) : result Pub.t t :=
  _ ← reject_if (negb (entry_complete entry) || (MAX_POINTS <? staged_units entry)) Pub.Corrupt;
  let source := captured_source (entry_captured entry) in
  outcome ← ok_or Pub.Corrupt (current_outcome (captured_preparation (entry_captured entry)));
  prepared ← match outcome_result outcome with
    | Ready artifact =>
        _ ← reject_if (negb (Bool.eqb (byte_length (object_ref source) =? 0) (staged_units entry =? 0))) Pub.Corrupt;
        Ok (Some artifact)
    | Gap _ =>
        _ ← reject_if (negb (staged_units entry =? 0)) Pub.Corrupt;
        Ok None
    end;
  Ok {| id := source_id source; namespace := source_namespace_id source; input := object_ref source;
        prepared := prepared; units := staged_units entry; seen := 0; byte_end := 0 |}.

Definition accept (self : t) (e : PointEvidence) : result Pub.t t :=
  _ ← reject_if (negb (bool_decide (PointEvidence.source_namespace_id e = namespace self))
        || negb (bool_decide (PointEvidence.source_id e = id self))
        || negb (bool_decide (PointEvidence.input e = input self))
        || negb (bool_decide (Some (PointEvidence.prepared e) = prepared self))
        || negb (PointEvidence.unit e =? seen self)
        || negb (PointEvidence.start e =? byte_end self)
        || (byte_length (input self) <? PointEvidence.stop e)
        || (units self <=? seen self)) Pub.Corrupt;
  seen ← ok_or Pub.Limit (checked_add U64_MAX (seen self) 1);
  Ok {| id := id self; namespace := namespace self; input := input self; prepared := prepared self;
        units := units self; seen := seen; byte_end := PointEvidence.stop e |}.

Definition complete (self : t) : bool :=
  (seen self =? units self)
  && (bool_decide (prepared self = None) || (byte_end self =? byte_length (input self))).
End SourceProgress.
Abbreviation SourceProgress := SourceProgress.t.

(** What [sources] accumulates. *)
Record SourcesScan := {
  scan_progress : list SourceProgress;
  scan_gaps : Z;
  scan_units : Z;
  scan_namespace : option (list Z) }.

(** Another total within [MAX_POINTS]. *)
Definition add_units (total units : Z) : result Pub.t Z :=
  ok_or Pub.Corrupt (option_keep (fun n => n <=? MAX_POINTS) (checked_add U64_MAX total units)).

Definition source_step (count : Z) (s : SourcesScan) (key value : list Z) : result Pub.t SourcesScan :=
  _ ← reject_if (negb (len key =? 24) || (count <=? len (scan_progress s))) Pub.Corrupt;
  entry ← decode_source value;
  source ← SourceProgress.from_entry entry;
  _ ← reject_if (negb (bool_decide (drop 8 key = SourceProgress.id source))
        || match scan_namespace s with
           | Some expected => negb (bool_decide (expected = SourceProgress.namespace source))
           | None => false
           end) Pub.Corrupt;
  units ← add_units (scan_units s) (SourceProgress.units source);
  Ok {| scan_progress := scan_progress s ++ [source];
        scan_gaps := scan_gaps s + (if bool_decide (SourceProgress.prepared source = None) then 1 else 0);
        scan_units := units; scan_namespace := Some (SourceProgress.namespace source) |}.

Section Verify.
Context {D : Type} `{Redb D}.
Implicit Types d : D.

(** [sources] *)
Definition graph_sources d (g : Generation) : M Pub.t (list SourceProgress) :=
  count ← lift (ok_or Pub.Corrupt (try_from USIZE_MAX (Generation.source_count g)));
  _ ← lift (reject_if (MAX_SOURCES <? count) Pub.Corrupt);
  _ ← open_read Pub.Corrupt d SOURCES;
  _ ← reserve_with Pub.Allocation;
  s ← scan_generation d SOURCES (Generation.sequence g) (fun s key value => lift (source_step count s key value))
    {| scan_progress := []; scan_gaps := 0; scan_units := 0; scan_namespace := None |};
  _ ← lift (reject_if (negb (len (scan_progress s) =? count)
        || negb (scan_gaps s =? Generation.gap_count g)
        || negb (scan_units s =? Generation.point_count g)) Pub.Corrupt);
  mret (scan_progress s).

(** [point] *)
Definition verify_point (g : Generation) (point : UploadPoint) (ordinal : Z) (saved_evidence : list Z)
    (progress : list SourceProgress) : result Pub.t (list SourceProgress) :=
  _ ← reject_if (negb (bool_decide (take 8 (point_id point) = be_bytes 8 (Generation.sequence g)))
        || negb (bool_decide (drop 8 (point_id point) = be_bytes 8 ordinal))) Pub.Corrupt;
  saved ← decode_evidence saved_evidence;
  _ ← reject_if (negb (bool_decide (saved = point_evidence point))) Pub.Corrupt;
  source ← ok_or Pub.Corrupt (binary_search (SourceProgress.id <$> progress) (PointEvidence.source_id (point_evidence point)));
  found ← ok_or Pub.Corrupt (at_ progress source);
  accepted ← SourceProgress.accept found (point_evidence point);
  Ok (<[Z.to_nat source := accepted]> progress).

(** The state of the page loop of [generation]. *)
Record PagesScan := {
  pages_seen : Z;
  points_seen : Z;
  pages_charged : Z;
  pages_progress : list SourceProgress }.

(** The points of one page, with the number of points before them. *)
Fixpoint verify_page_points d (g : Generation) (points : list UploadPoint) (ordinal : Z) (progress : list SourceProgress)
    : M Pub.t (Z * list SourceProgress) :=
  match points with
  | [] => mret (ordinal, progress)
  | saved :: points =>
      _ ← publication_check;
      _ ← lift (reject_if (Generation.point_count g <=? ordinal) Pub.Corrupt);
      value ← get Pub.Database d EVIDENCE (generation_key (Generation.sequence g) (point_id saved));
      value ← lift (ok_or Pub.Corrupt value);
      progress ← lift (verify_point g saved ordinal value progress);
      ordinal ← lift (ok_or Pub.Corrupt (checked_add U64_MAX ordinal 1));
      verify_page_points d g points ordinal progress
  end.

Definition page_step d (g : Generation) (s : PagesScan) (key value : list Z) : M Pub.t PagesScan :=
  _ ← lift (reject_if ((Generation.page_count g <=? pages_seen s)
        || negb (bool_decide (key = generation_key (Generation.sequence g) (be_bytes 8 (pages_seen s))))) Pub.Corrupt);
  charged ← lift (ok_or Pub.Corrupt
    (option_keep (fun n => n <=? MAX_STAGED_BYTES) (checked_add U64_MAX (pages_charged s) (len value))));
  page ← decode_page value;
  read ← verify_page_points d g (page_points page) (points_seen s) (pages_progress s);
  let '(points, progress) := read in
  pages ← lift (ok_or Pub.Corrupt (checked_add U64_MAX (pages_seen s) 1));
  mret {| pages_seen := pages; points_seen := points; pages_charged := charged; pages_progress := progress |}.

(** One row of [evidence_count]. *)
Definition evidence_step (g : Generation) (count : Z) (key value : list Z) : result Pub.t Z :=
  _ ← reject_if (negb (len key =? 24)
        || negb (bool_decide (take 8 (drop 8 key) = be_bytes 8 (Generation.sequence g)))) Pub.Corrupt;
  let ordinal := be_value (take 8 (drop 16 key)) in
  _ ← reject_if (Generation.point_count g <=? ordinal) Pub.Corrupt;
  ok_or Pub.Corrupt (option_keep (fun n => n <=? Generation.point_count g) (checked_add U64_MAX count 1)).

Definition evidence_count d (g : Generation) : M Pub.t unit :=
  _ ← open_read Pub.Corrupt d EVIDENCE;
  count ← scan_generation d EVIDENCE (Generation.sequence g) (fun s key value => lift (evidence_step g s key value)) 0;
  lift (reject_if (negb (count =? Generation.point_count g)) Pub.Corrupt).

(** [generation] *)
Definition verify_generation d (g : Generation) : M Pub.t unit :=
  progress ← graph_sources d g;
  _ ← open_read Pub.Corrupt d PAGES;
  _ ← open_read Pub.Corrupt d EVIDENCE;
  s ← scan_generation d PAGES (Generation.sequence g) (page_step d g)
    {| pages_seen := 0; points_seen := 0; pages_charged := 0; pages_progress := progress |};
  _ ← lift (reject_if (negb (pages_seen s =? Generation.page_count g)
        || negb (points_seen s =? Generation.point_count g)
        || existsb (fun source => negb (SourceProgress.complete source)) (pages_progress s)) Pub.Corrupt);
  evidence_count d g.
End Verify.

(** ** The pinned view *)

(** [PublishedView]: the committed generation and the snapshot of the read transaction. *)
Record Pinned (D : Type) := { pinned_generation : Generation; transaction : D }.
Arguments pinned_generation {D} _.
Arguments transaction {D} _.
Arguments Build_Pinned {D} _ _.

(** What [source_inventory] accumulates. *)
Record InventoryScan := {
  inventory : list CapturedSource;
  inventory_gaps : Z;
  inventory_units : Z;
  inventory_namespace : option (list Z) }.

Definition inventory_step (count : Z) (s : InventoryScan) (key value : list Z) : result Pub.t InventoryScan :=
  _ ← reject_if (negb (len key =? 24) || (count <=? len (inventory s))) Pub.Corrupt;
  entry ← decode_source value;
  let source := captured_source (entry_captured entry) in
  _ ← reject_if (negb (entry_complete entry) || negb (bool_decide (drop 8 key = source_id source))
        || match inventory_namespace s with
           | Some expected => negb (bool_decide (expected = source_namespace_id source))
           | None => false
           end) Pub.Corrupt;
  outcome ← ok_or Pub.Corrupt (current_outcome (captured_preparation (entry_captured entry)));
  gaps ← match outcome_result outcome with
    | Ready _ =>
        _ ← reject_if (negb (Bool.eqb (byte_length (object_ref source) =? 0) (staged_units entry =? 0))) Pub.Corrupt;
        Ok (inventory_gaps s)
    | Gap _ =>
        _ ← reject_if (negb (staged_units entry =? 0)) Pub.Corrupt;
        Ok (inventory_gaps s + 1)
    end;
  units ← add_units (inventory_units s) (staged_units entry);
  Ok {| inventory := inventory s ++ [entry_captured entry]; inventory_gaps := gaps; inventory_units := units;
        inventory_namespace := Some (source_namespace_id source) |}.

(** The guards of [resolve_point] that bind a point to its source entry. *)
Definition unbound (e : PointEvidence) (entry : SourceEntry) : bool :=
  let s := captured_source (entry_captured entry) in
  negb (entry_complete entry)
  || negb (bool_decide (PointEvidence.source_id e = source_id s))
  || (staged_units entry <=? PointEvidence.unit e)
  || negb (bool_decide (PointEvidence.source_namespace_id e = source_namespace_id s))
  || negb (bool_decide (PointEvidence.input e = object_ref s))
  || negb match outcome_result <$> current_outcome (captured_preparation (entry_captured entry)) with
          | Some (Ready artifact) => bool_decide (artifact = PointEvidence.prepared e)
          | _ => false
          end.

Module PublishedView.
Section PublishedView.
Context `{PublicationJson} {D : Type} `{Redb D}.
Implicit Types self : Pinned D.

(** [PublishedView::source] *)
Definition source self (id : list Z) : M Pub.t CapturedSource :=
  _ ← publication_check;
  source ← read_saved_source (transaction self) (pinned_generation self) id;
  _ ← publication_check;
  mret source.

(** [PublishedView::source_inventory] *)
Definition source_inventory self : M Pub.t (list CapturedSource) :=
  let g := pinned_generation self in
  _ ← publication_check;
  count ← lift (ok_or Pub.Corrupt (try_from USIZE_MAX (Generation.source_count g)));
  _ ← lift (reject_if (MAX_SOURCES <? count) Pub.Corrupt);
  _ ← open_read Pub.Corrupt (transaction self) SOURCES;
  _ ← reserve_with Pub.Allocation;
  s ← scan_generation (transaction self) SOURCES (Generation.sequence g)
    (fun s key value => lift (inventory_step count s key value))
    {| inventory := []; inventory_gaps := 0; inventory_units := 0; inventory_namespace := None |};
  _ ← lift (reject_if (negb (len (inventory s) =? count)
        || negb (inventory_gaps s =? Generation.gap_count g)
        || negb (inventory_units s =? Generation.point_count g)) Pub.Corrupt);
  _ ← publication_check;
  mret (inventory s).

(** [PublishedView::resolve_point]; a point's identity is 16 bytes. *)
Definition resolve_point self (id : list Z) : M Pub.t ResolvedPoint.t :=
  let g := pinned_generation self in
  _ ← lift (reject_if (negb (bool_decide (take 8 id = be_bytes 8 (Generation.sequence g)))
        || (Generation.point_count g <=? be_value (drop 8 id))) Pub.Corrupt);
  _ ← open_read Pub.Corrupt (transaction self) EVIDENCE;
  value ← get Pub.Database (transaction self) EVIDENCE (generation_key (Generation.sequence g) id);
  value ← lift (ok_or Pub.Corrupt value);
  evidence ← lift (decode_evidence value);
  _ ← open_read Pub.Corrupt (transaction self) SOURCES;
  source ← get Pub.Database (transaction self) SOURCES
    (generation_key (Generation.sequence g) (PointEvidence.source_id evidence));
  source ← lift (ok_or Pub.Corrupt source);
  entry ← lift (decode_source source);
  _ ← lift (reject_if (unbound evidence entry) Pub.Corrupt);
  mret {| ResolvedPoint.evidence := evidence; ResolvedPoint.captured := entry_captured entry |}.
End PublishedView.
End PublishedView.

Section Pin.
Context `{PublicationJson} {D : Type} `{Redb D}.
Implicit Types d : D.

(** [pin_published] *)
Definition pin_published d : M Pub.t (Pinned D) :=
  _ ← publication_check;
  _ ← call Pub.Database;
  _ ← call Pub.Database;
  state ← read_state d;
  g ← lift (ok_or Pub.NotPublished (PublicationState.current state));
  _ ← open_read Pub.Corrupt d SOURCES;
  _ ← open_read Pub.Corrupt d EVIDENCE;
  _ ← open_read Pub.Corrupt d PAGES;
  _ ← publication_check;
  mret {| pinned_generation := g; transaction := d |}.

(** [open_published] *)
Definition open_published d : M Pub.t (Pinned D) :=
  view ← pin_published d;
  _ ← verify_generation (transaction view) (pinned_generation view);
  mret view.

(** [validate_generation] *)
Definition validate_generation d (g : Generation) : M Pub.t unit :=
  observe_path d (fun d =>
    state ← read_state d;
    _ ← lift (reject_if (negb (names_generation Pending.capture_complete state g)) Pub.Stale);
    verify_generation d g).
End Pin.
