(* ===== verification/PublicationVerify.v ===== *)
(** The exhaustive verification of a saved generation accepts exactly the complete point
    graphs: every source accounted for, its units contiguous from the first byte to the
    last, and every point with its evidence row and no other. *)

From Stdlib Require Import Sorted.
From stdpp Require Import gmap.
From S2P Require Import Prelude Bytes Reader Ids Registry SourceRow PreparationRow PublicationRow Database Control ControlSpec.
From S2P Require Import ControlRefine Publication PublicationSpec PublicationLifecycle PublicationRefine PublicationRetire PublicationSample PublicationRead.

(** ** Scans of one generation *)

(** The rows of a generation, in the order of their keys. *)
Definition generation_rows `{Redb D} (d : D) (table : list Z) (sequence : Z) : list (list Z * list Z) :=
  filter (fun row => starts_with (fst row) (be_bytes 8 sequence) = true) (table_iter d table).

Fixpoint leading_rows (prefix : list Z) (rows : list (list Z * list Z)) : list (list Z * list Z) :=
  match rows with
  | [] => []
  | row :: rows => if starts_with (fst row) prefix then row :: leading_rows prefix rows else []
  end.

(** In key order the keys with a prefix stand together, from the first one not before it. *)
Lemma leading_all prefix (rows : list (list Z * list Z)) :
  StronglySorted key_lt rows -> Forall (fun row => bytes_lt (fst row) prefix = false) rows ->
  leading_rows prefix rows = filter (fun row => starts_with (fst row) prefix = true) rows.
Proof.
  induction 1 as [|[k v] rows Hs IH Hrow]; intros Hlow; [done|]. apply Forall_cons in Hlow as [Hk Hlow].
  rewrite filter_cons. cbn [leading_rows fst]. destruct (starts_with k prefix) eqn:E.
  - rewrite decide_True by done. by rewrite IH.
  - rewrite decide_False by done. symmetry. apply elem_of_nil_inv. intros [k' v'] [E' Hin]%list_elem_of_filter. cbn in *.
    rewrite Forall_forall in Hrow. specialize (Hrow _ Hin). unfold key_lt in Hrow. cbn in Hrow.
    apply starts_with_iff in E' as [rest ->]. enough (starts_with k prefix = true) by congruence. apply (prefix_between prefix rest); [done|].
    destruct (bytes_lt (prefix ++ rest) k) eqn:Elt; [|done]. pose proof (bytes_lt_trans _ _ _ Hrow Elt) as Hirr.
    by rewrite bytes_lt_irrefl in Hirr.
Qed.

Lemma generation_rows_range `{Redb D} (d : D) table sequence :
  leading_rows (be_bytes 8 sequence) (range_from d table (be_bytes 8 sequence)) = generation_rows d table sequence.
Proof.
  rewrite leading_all; [|apply range_sorted|].
  - unfold generation_rows, range_from. rewrite list_filter_filter_l; [done|]. intros [k v] E. cbn in *.
    apply starts_with_iff in E as [rest ->]. apply prefix_not_before.
  - unfold range_from. apply Forall_forall. by intros row [Hr _]%list_elem_of_filter.
Qed.

Lemma generation_rows_sorted `{Redb D} (d : D) table sequence : StronglySorted key_lt (generation_rows d table sequence).
Proof.
  unfold generation_rows. destruct (iter_law d table) as [Hs _]. change (StronglySorted key_lt (table_iter d table)) in Hs.
  induction Hs as [|row rows Hs IH Hrow]; [constructor|]. rewrite filter_cons. case_decide; [|done].
  constructor; [done|]. rewrite Forall_forall in *. intros y [_ Hy]%list_elem_of_filter. by apply Hrow.
Qed.

Lemma generation_rows_in `{Redb D} (d : D) table sequence k v :
  (k, v) ∈ generation_rows d table sequence <-> keyed sequence k /\ rows_of d table !! k = Some v.
Proof.
  unfold generation_rows. rewrite list_elem_of_filter. cbn. rewrite starts_with_keyed, bool_decide_eq_true.
  destruct (iter_law d table) as [_ Hi]. by rewrite Hi.
Qed.

(** A scan whose step relates the states before and after a row, or refuses the row. *)
Fixpoint folds {S} (step : S -> list Z * list Z -> S -> Prop) (rows : list (list Z * list Z)) (s s' : S) : Prop :=
  match rows with
  | [] => s' = s
  | row :: rows => exists s1, step s row s1 /\ folds step rows s1 s'
  end.

Section Scan.
Context {S : Type} (prefix : list Z) (body : S -> list Z -> list Z -> M Pub.t S).
Context (step : S -> list Z * list Z -> S -> Prop) (P : list Z * list Z -> Prop).
Hypothesis step_functional : forall s row a b, step s row a -> step s row b -> a = b.
Hypothesis body_step : forall s k v, P (k, v) ->
  outcome (body s k v) (step s (k, v)) (fun _ => ~ exists s', step s (k, v) s').

Lemma scan_rows_outcome rows s :
  Forall P rows ->
  outcome (scan_rows prefix body rows s) (folds step (leading_rows prefix rows) s)
    (fun _ => ~ exists s', folds step (leading_rows prefix rows) s s').
Proof.
  intros Hp. revert s. induction Hp as [|[k v] rows Hk _ IH]; intros s; cbn [scan_rows leading_rows folds fst].
  { by apply outcome_ret. }
  eapply outcome_seq; [apply publication_check_refines|]. eapply outcome_seq; [apply pub_call_refines|].
  destruct (starts_with k prefix); cbn [negb folds]; [|by apply outcome_ret].
  eapply outcome_bind.
  - eapply outcome_weaken; [by apply body_step|intros s1 E; exact E|]. intros e E (s' & s1 & Hs & _). apply E. by exists s1.
  - intros s1 E. cbn beta in E. eapply outcome_weaken; [apply IH|intros s' Hs'; by exists s1|].
    intros e Hno (s' & s2 & Hs & Hs'). apply Hno. exists s'. by rewrite (step_functional _ _ _ _ E Hs).
Qed.
End Scan.

Lemma scan_generation_outcome {S D} `{Redb D} (d : D) table sequence body (step : S -> list Z * list Z -> S -> Prop)
    (P : list Z * list Z -> Prop) s :
  (forall s row a b, step s row a -> step s row b -> a = b) ->
  (forall s k v, P (k, v) -> outcome (body s k v) (step s (k, v)) (fun _ => ~ exists s', step s (k, v) s')) ->
  (forall k v, rows_of d table !! k = Some v -> P (k, v)) ->
  outcome (scan_generation d table sequence body s) (folds step (generation_rows d table sequence) s)
    (fun _ => ~ exists s', folds step (generation_rows d table sequence) s s').
Proof.
  intros Hfun Hbody Hp. unfold scan_generation. eapply outcome_seq; [apply pub_call_refines|].
  rewrite <- generation_rows_range. apply (scan_rows_outcome _ _ step P); [done..|].
  apply Forall_forall. intros [k v] [_ Hin]%list_elem_of_filter. apply Hp. by apply (iter_law d table).
Qed.

Lemma outcome_lifted {A} (r : result Pub.t A) : outcome (lift r) (fun a => r = Ok a) (fun _ => ~ exists a, r = Ok a).
Proof. apply outcome_lift; [done|]. by intros e -> [a Ha]. Qed.

Lemma outcome_open_read {E} `{Interrupt E} {D} `{Redb D} (e : E) (d : D) n :
  interrupt e -> outcome (open_read e d n) (fun _ => n ∈ names_of d) (fun _ => n ∉ names_of d).
Proof.
  intros He. unfold open_read. eapply outcome_seq; [by apply refines_call|]. rewrite listed. apply outcome_lift; intros ?; case_bool_decide; done.
Qed.

(** ** The sources of a generation *)

(** An entry whose units can be accounted for. *)
Definition entry_sound (e : SourceEntry) : Prop :=
  entry_complete e = true /\
  match outcome_result <$> current_outcome (entry_preparation e) with
  | Some (Ready _) => byte_length (object_ref (entry_source e)) = 0 <-> staged_units e = 0
  | Some (Gap _) => staged_units e = 0
  | None => False
  end.

Definition artifact_of (e : SourceEntry) : option ObjectRef :=
  match outcome_result <$> current_outcome (entry_preparation e) with Some (Ready artifact) => Some artifact | _ => None end.

(** Totals over the entries of a generation. *)
Definition units_of (entries : list SourceEntry) : Z := foldr (fun e n => staged_units e + n) 0 entries.
Definition gaps_of (entries : list SourceEntry) : Z := len (filter (fun e => artifact_of e = None) entries).

Definition holds_entry (sequence : Z) (row : list Z * list Z) (e : SourceEntry) : Prop :=
  fst row = generation_key sequence (source_id (entry_source e)) /\ decode_source (snd row) = Ok e.

(** The source rows of a generation are these entries, all complete and of one namespace,
    and its counts are theirs. *)
Definition saved_entries `{Redb D} (d : D) (g : Generation) (entries : list SourceEntry) : Prop :=
  SOURCES ∈ names_of d /\
  Forall2 (holds_entry (Generation.sequence g)) (generation_rows d SOURCES (Generation.sequence g)) entries /\
  Forall entry_sound entries /\ (exists ns, Forall (fun e => source_namespace_id (entry_source e) = ns) entries) /\
  len entries = Generation.source_count g /\ len entries <= MAX_SOURCES /\
  gaps_of entries = Generation.gap_count g /\ units_of entries = Generation.point_count g /\ units_of entries <= MAX_POINTS.

Lemma units_app a b : units_of (a ++ b) = units_of a + units_of b.
Proof. unfold units_of. induction a as [|e a IH]; cbn; [done|]. lia. Qed.
Lemma gaps_app a b : gaps_of (a ++ b) = gaps_of a + gaps_of b.
Proof. unfold gaps_of. by rewrite filter_app, len_app. Qed.
Lemma units_nonneg entries : Forall (fun e => 0 <= staged_units e) entries -> 0 <= units_of entries.
Proof. unfold units_of. induction 1; cbn; lia. Qed.

(** The next entry of a scan that has read [acc]. *)
Definition next_entry (sequence count : Z) (acc : list SourceEntry) (row : list Z * list Z) (e : SourceEntry) : Prop :=
  holds_entry sequence row e /\ entry_sound e /\ len acc < count /\
  match last acc with Some x => source_namespace_id (entry_source x) = source_namespace_id (entry_source e) | None => True end /\
  units_of acc + staged_units e <= MAX_POINTS.

Lemma decoded_entry bytes e :
  bytes_ok bytes -> decode_source bytes = Ok e -> entry_readable e /\ captured_matches (entry_captured e) = true.
Proof. intros Hb H. by apply decode_entry in H as (? & ? & _). Qed.

Lemma decoded_units bytes e : bytes_ok bytes -> decode_source bytes = Ok e -> 0 <= staged_units e <= U64_MAX.
Proof. intros Hb H. by destruct (decoded_entry bytes e Hb H) as [(_ & _ & _ & ?) _]. Qed.

Lemma decoded_id bytes e : bytes_ok bytes -> decode_source bytes = Ok e -> len (source_id (entry_source e)) = 16.
Proof.
  intros Hb H. destruct (decoded_entry bytes e Hb H) as [((Hw & _) & _) _]. destruct Hw as (_ & [Hl _] & _).
  unfold len. by rewrite Hl.
Qed.

(** The guards on a key: it is the one of the identity. *)
Lemma key_guard sequence key id :
  keyed sequence key -> len id = 16 ->
  len key = 24 /\ drop 8 key = id <-> key = generation_key sequence id.
Proof.
  unfold keyed, generation_key. intros Hk Hid. split.
  - intros [_ <-]. rewrite <- Hk. symmetry. apply take_drop.
  - intros ->. rewrite drop_app_length' by by rewrite be_bytes_length. rewrite len_app. unfold len in *.
    rewrite be_bytes_length. split; [lia|done].
Qed.

Lemma add_units_ok a b n : 0 <= a -> 0 <= b -> add_units a b = Ok n <-> n = a + b /\ a + b <= MAX_POINTS.
Proof.
  intros Ha Hb. unfold add_units. split.
  - intros H. apply ok_or_inv, option_keep_inv in H as [H Hn]. apply checked_add_inv in H as [H _]. to_prop. lia.
  - intros [-> Hn]. rewrite checked_add_some by (unfold MAX_POINTS in *; width). cbn. by is_true (a + b <=? MAX_POINTS).
Qed.

Definition entry_progress (e : SourceEntry) : SourceProgress :=
  {| SourceProgress.id := source_id (entry_source e); SourceProgress.namespace := source_namespace_id (entry_source e);
     SourceProgress.input := object_ref (entry_source e); SourceProgress.prepared := artifact_of e;
     SourceProgress.units := staged_units e; SourceProgress.seen := 0; SourceProgress.byte_end := 0 |}.

Lemma eqb_iff a b : Bool.eqb (a =? 0) (b =? 0) = true <-> (a = 0 <-> b = 0).
Proof. rewrite Bool.eqb_true_iff. destruct (Z.eqb_spec a 0), (Z.eqb_spec b 0); naive_solver. Qed.

Lemma from_entry_ok e p :
  SourceProgress.from_entry e = Ok p <-> entry_sound e /\ staged_units e <= MAX_POINTS /\ p = entry_progress e.
Proof.
  unfold SourceProgress.from_entry, entry_sound, entry_progress, artifact_of, entry_preparation, entry_source.
  destruct (entry_complete e); cbn [negb orb]; [|split; [done|by intros ([? _] & _)]].
  destruct (MAX_POINTS <? staged_units e) eqn:Hm; to_prop; cbn [reject_if mbind result_bind].
  { split; [done|lia]. }
  destruct (current_outcome _) as [o|]; cbn [ok_or fmap option_fmap option_map]; [|split; [done|by intros ([_ []] & _)]].
  cbn [mbind result_bind]. destruct (outcome_result o) as [a|gap].
  - destruct (Bool.eqb _ _) eqn:E; cbn [negb reject_if mbind result_bind].
    + apply eqb_iff in E. split; [by intros [= <-]|by intros (_ & _ & ->)].
    + split; [done|]. intros ([_ Hb] & _). apply eqb_iff in Hb. congruence.
  - destruct (Z.eqb_spec (staged_units e) 0); cbn [negb reject_if mbind result_bind].
    + split; [by intros [= <-]|by intros (_ & _ & ->)].
    + split; [done|]. by intros ([_ Hb] & _).
Qed.

(** The state of [sources] after some entries. *)
Definition sources_view (acc : list SourceEntry) : SourcesScan :=
  {| scan_progress := entry_progress <$> acc; scan_gaps := gaps_of acc; scan_units := units_of acc;
     scan_namespace := (fun e => source_namespace_id (entry_source e)) <$> last acc |}.

Definition good_row (sequence : Z) (row : list Z * list Z) : Prop := keyed sequence (fst row) /\ bytes_ok (snd row).

Lemma gaps_single e : gaps_of [e] = if bool_decide (artifact_of e = None) then 1 else 0.
Proof. unfold gaps_of. rewrite filter_cons. by destruct (bool_decide_reflect (artifact_of e = None)); [rewrite decide_True by done|rewrite decide_False by done]. Qed.
Lemma units_single e : units_of [e] = staged_units e.
Proof. unfold units_of. cbn. lia. Qed.

Lemma namespace_guard (last : option SourceEntry) e :
  match (fun e => source_namespace_id (entry_source e)) <$> last with
  | Some expected => negb (bool_decide (expected = source_namespace_id (entry_source e)))
  | None => false
  end = false <->
  match last with Some x => source_namespace_id (entry_source x) = source_namespace_id (entry_source e) | None => True end.
Proof. destruct last as [x|]; cbn; [|done]. by rewrite negb_false_iff, bool_decide_eq_true. Qed.

Lemma source_step_view sequence count acc row s' :
  good_row sequence row -> 0 <= units_of acc ->
  source_step count (sources_view acc) (fst row) (snd row) = Ok s' <->
  exists e, next_entry sequence count acc row e /\ s' = sources_view (acc ++ [e]).
Proof.
  destruct row as [k v]. intros [Hk Hv] Hu. cbn [fst snd] in *. unfold source_step, next_entry, holds_entry. cbn [fst snd sources_view scan_progress
    scan_gaps scan_units scan_namespace]. assert (len (entry_progress <$> acc) = len acc) as -> by (unfold len; by rewrite length_fmap).
  split.
  - intros H. apply bind_ok_inv in H as ([] & Hg%reject_if_ok & H). to_prop. apply bind_ok_inv in H as (e & He & H).
    apply bind_ok_inv in H as (p & Hp & H). apply from_entry_ok in Hp as (Hs & Hm & ->). apply bind_ok_inv in H as ([] & Hn%reject_if_ok & H).
    apply orb_false_iff in Hn as [Hid Hn]. apply namespace_guard in Hn. to_prop.
    apply bind_ok_inv in H as (n & Ha & H). apply ok_inj in H as <-.
    apply add_units_ok in Ha as [-> Hmax]; [|done|by apply (decoded_units v e)]. exists e. split.
    + split_and!; try done. apply key_guard; [done|by apply (decoded_id v)|done].
    + unfold sources_view. rewrite fmap_app, gaps_app, units_app, last_snoc, gaps_single, units_single. done.
  - intros (e & ((Hkey & He) & Hs & Hc & Hn & Hmax) & ->).
    apply key_guard in Hkey as [Hl Hd]; [|done|by apply (decoded_id v)].
    rewrite reject_if_false by solve_bool. cbn [mbind result_bind]. rewrite He. cbn [mbind result_bind].
    pose proof (decoded_units v e Hv He). rewrite (proj2 (from_entry_ok e _)) by (split_and!; [done|lia|done]). cbn [mbind result_bind].
    rewrite Hd. cbn [SourceProgress.id SourceProgress.namespace entry_progress]. rewrite (bool_decide_true (source_id (entry_source e) = source_id (entry_source e))) by done. cbn [negb orb].
    rewrite (proj2 (namespace_guard (last acc) e)) by done. cbn [reject_if mbind result_bind].
    change (SourceProgress.units (entry_progress e)) with (staged_units e).
    assert (add_units (units_of acc) (staged_units e) = Ok (units_of acc + staged_units e)) as ->
      by (apply add_units_ok; [done|lia|done]). cbn [mbind result_bind].
    unfold sources_view. by rewrite fmap_app, gaps_app, units_app, last_snoc, gaps_single, units_single.
Qed.

(** A scan reads the entries of its rows one after another. *)
Fixpoint extends (sequence count : Z) (acc : list SourceEntry) (rows : list (list Z * list Z)) (es : list SourceEntry) : Prop :=
  match rows, es with
  | [], [] => True
  | row :: rows, e :: es => next_entry sequence count acc row e /\ extends sequence count (acc ++ [e]) rows es
  | _, _ => False
  end.

Lemma next_entry_units sequence count acc row e :
  good_row sequence row -> 0 <= units_of acc -> next_entry sequence count acc row e ->
  0 <= staged_units e /\ 0 <= units_of (acc ++ [e]).
Proof.
  intros [_ Hv] Hu ((_ & He) & _). pose proof (decoded_units _ _ Hv He). rewrite units_app, units_single. lia.
Qed.

Lemma fold_entries {S} (step : S -> list Z * list Z -> S -> Prop) (view : list SourceEntry -> S) sequence count rows :
  (forall acc row s', good_row sequence row -> 0 <= units_of acc ->
     step (view acc) row s' <-> exists e, next_entry sequence count acc row e /\ s' = view (acc ++ [e])) ->
  Forall (good_row sequence) rows -> forall acc s', 0 <= units_of acc ->
  folds step rows (view acc) s' <-> exists es, extends sequence count acc rows es /\ s' = view (acc ++ es).
Proof.
  intros Hstep Hg. induction Hg as [|row rows Hrow _ IH]; intros acc s' Hu; cbn [folds extends].
  - split; [intros ->; exists []; by rewrite app_nil_r|]. intros ([|? ?] & ? & ->); [by rewrite app_nil_r|done].
  - split.
    + intros (s1 & Hs & H). apply Hstep in Hs as (e & He & ->); [|done..].
      apply IH in H as (es & Hes & ->); [|by eapply next_entry_units]. exists (e :: es). by rewrite <- (assoc_L (++)).
    + intros ([|e es] & Hes & ->); [done|]. destruct Hes as [He Hes]. exists (view (acc ++ [e])). split; [apply Hstep; eauto|].
      apply IH; [by eapply next_entry_units|]. exists es. by rewrite <- (assoc_L (++)).
Qed.

Definition one_namespace (entries : list SourceEntry) : Prop :=
  exists ns, Forall (fun e => source_namespace_id (entry_source e) = ns) entries.

Lemma one_namespace_snoc acc e :
  one_namespace acc -> one_namespace (acc ++ [e]) <->
  match last acc with Some x => source_namespace_id (entry_source x) = source_namespace_id (entry_source e) | None => True end.
Proof.
  intros [ns Hns]. destruct (last acc) as [x|] eqn:Hl.
  - assert (x ∈ acc) as Hx by (apply last_Some in Hl as [l' ->]; set_solver). split.
    + intros [n [Ha He]%Forall_app]. apply Forall_cons in He as [He _]. rewrite Forall_forall in Ha. by rewrite (Ha x Hx).
    + intros E. exists ns. apply Forall_app. split; [done|]. rewrite Forall_forall in Hns. repeat constructor. rewrite <- E. by apply Hns.
  - apply last_None in Hl as ->. split; [done|]. intros _. eexists. by repeat constructor.
Qed.

Lemma one_namespace_app acc es : one_namespace (acc ++ es) -> one_namespace acc.
Proof. intros [n [Ha _]%Forall_app]. by exists n. Qed.

Lemma held_units sequence rows es :
  Forall (good_row sequence) rows -> Forall2 (holds_entry sequence) rows es -> 0 <= units_of es.
Proof.
  intros Hg Hh. apply units_nonneg. induction Hh as [|row e rows es [_ He] _ IH]; [constructor|].
  apply Forall_cons in Hg as [[_ Hv] Hg]. constructor; [by apply (decoded_units (snd row) e)|by apply IH].
Qed.

Lemma extends_spec sequence count rows es : forall acc,
  Forall (good_row sequence) rows -> 0 <= units_of acc -> one_namespace acc -> len acc <= count -> units_of acc <= MAX_POINTS ->
  extends sequence count acc rows es <->
  Forall2 (holds_entry sequence) rows es /\ Forall entry_sound es /\ one_namespace (acc ++ es) /\
  len acc + len es <= count /\ units_of acc + units_of es <= MAX_POINTS.
Proof.
  revert es. induction rows as [|row rows IH]; intros es acc Hg Hu Hn Hc Hm; cbn [extends].
  { destruct es; [|split; [done|by intros (H & _); inversion H]]. split; [|done]. intros _. rewrite app_nil_r.
    change (len (@nil SourceEntry)) with 0. change (units_of []) with 0. split_and!; try done; try lia; constructor. }
  destruct es as [|e es]; [split; [done|by intros (H & _); inversion H]|]. apply Forall_cons in Hg as [Hrow Hg].
  assert (acc ++ e :: es = (acc ++ [e]) ++ es) as Eapp by by rewrite <- (assoc_L (++)).
  assert (units_of (e :: es) = staged_units e + units_of es) as Eu by done. rewrite Eapp, len_cons, Eu.
  split.
  - intros [He Hes]. destruct (next_entry_units _ _ _ _ _ Hrow Hu He) as [Hue Hue']. destruct He as (Hh & Hs & Hlt & Hlast & Hmax).
    apply IH in Hes as (Hh' & Hs' & Hn' & Hc' & Hm'); [|done|done|by apply one_namespace_snoc|by rewrite len_app; change (len [e]) with 1; lia|
      by rewrite units_app, units_single]. rewrite len_app in Hc'. change (len [e]) with 1 in Hc'. rewrite units_app, units_single in Hm'.
    split_and!; try done; try lia; by constructor.
  - intros (Hh & Hs & Hns & Hlen & Hmax). inversion Hh as [|? ? ? ? Hhe Hh']; subst. apply Forall_cons in Hs as [Hse Hs].
    pose proof (held_units _ _ _ Hg Hh'). pose proof (len_nonneg es). assert (0 <= staged_units e).
    { destruct Hrow as [_ Hv], Hhe as [_ He]. by apply (decoded_units (snd row) e). }
    assert (next_entry sequence count acc row e) as Hnext.
    { split_and!; [done|done|lia| |lia]. apply one_namespace_snoc; [done|]. by apply one_namespace_app in Hns. }
    split; [done|]. apply IH; [done|by eapply next_entry_units|by apply one_namespace_app in Hns| |rewrite units_app, units_single; lia|].
    + rewrite len_app. change (len [e]) with 1. lia.
    + rewrite len_app, units_app, units_single. change (len [e]) with 1. split_and!; try done; lia.
Qed.

Section Entries.
Context {D : Type} `{Redb D} (d : D) (g : Generation).
Abbreviation seq := (Generation.sequence g).

(** Stored keys and values are bytes. *)
Definition typed (table : list Z) : Prop := forall k v, rows_of d table !! k = Some v -> bytes_ok k /\ bytes_ok v.

Lemma good_rows table : typed table -> Forall (good_row seq) (generation_rows d table seq).
Proof.
  intros Ht. apply Forall_forall. intros [k v] [Hk Hv]%generation_rows_in. split; [done|]. by apply (Ht k).
Qed.

(** What a scan of the sources with a limit on their number accepts. *)
Definition scanned (count : Z) (es : list SourceEntry) : Prop :=
  Forall2 (holds_entry seq) (generation_rows d SOURCES seq) es /\ Forall entry_sound es /\ one_namespace es /\
  len es <= count /\ units_of es <= MAX_POINTS.

Lemma scan_entries_outcome {S} (f : S -> list Z -> list Z -> result Pub.t S) (view : list SourceEntry -> S) count :
  typed SOURCES -> 0 <= count ->
  (forall acc row s', good_row seq row -> 0 <= units_of acc ->
     f (view acc) (fst row) (snd row) = Ok s' <-> exists e, next_entry seq count acc row e /\ s' = view (acc ++ [e])) ->
  outcome (scan_generation d SOURCES seq (fun s key value => lift (f s key value)) (view []))
    (fun s => exists es, scanned count es /\ s = view es) (fun _ => ~ exists es, scanned count es).
Proof.
  intros Ht Hc Hf.
  set (step s (row : list Z * list Z) s' := f s (fst row) (snd row) = Ok s').
  assert (forall s', folds step (generation_rows d SOURCES seq) (view []) s' <->
    exists es, scanned count es /\ s' = view es) as Hfold.
  { intros s'. rewrite (fold_entries _ view seq count); [|exact Hf|by apply good_rows|done]. cbn [app].
    split; intros (es & Hes & ->); exists es; (split; [|done]).
    - apply extends_spec in Hes; [|by apply good_rows|done|by exists []; constructor|done|done]. exact Hes.
    - apply extends_spec; [by apply good_rows|done|by exists []; constructor|done|done|exact Hes]. }
  eapply outcome_weaken; [apply (scan_generation_outcome d _ _ _ step (fun _ => True)); [unfold step; congruence| |done]| |].
  - intros s k v _. apply outcome_lifted.
  - by intros s ?%Hfold.
  - intros e E (es & Hes). apply E. exists (view es). apply Hfold. by exists es.
Qed.

Lemma scanned_unique count count' es es' : scanned count es -> scanned count' es' -> es = es'.
Proof.
  intros (Ha & _) (Hb & _). revert es' Hb. induction Ha as [|row e rows es [_ He] _ IH]; intros es' Hb; inversion Hb as [|? e' ? ? [_ He']]; subst; [done|].
  f_equal; [congruence|by apply IH].
Qed.

Lemma saved_scanned es :
  saved_entries d g es <->
  SOURCES ∈ names_of d /\ Generation.source_count g <= MAX_SOURCES /\ scanned (Generation.source_count g) es /\
  len es = Generation.source_count g /\ gaps_of es = Generation.gap_count g /\ units_of es = Generation.point_count g.
Proof. unfold saved_entries, scanned, one_namespace. split; intros; destruct_and!; split_and!; try done; lia. Qed.

Lemma graph_sources_outcome :
  typed SOURCES -> Generation.wf g ->
  outcome (graph_sources d g) (fun progress => exists es, saved_entries d g es /\ progress = entry_progress <$> es)
    (fun _ => ~ exists es, saved_entries d g es).
Proof.
  intros Ht (_ & _ & _ & Hs & _). unfold graph_sources. rewrite try_from_some by width. cbn [ok_or]. rewrite lift_ok_bind.
  apply outcome_guard; [intros Hm; to_prop; intros (es & (_ & ? & _)%saved_scanned); lia|]. intros Hm. to_prop.
  eapply outcome_bind.
  { eapply outcome_weaken; [apply outcome_open_read; auto with eliot|intros u Hin; exact Hin|]. by intros e Hn (es & [? _]%saved_scanned). }
  intros [] Hin. cbn beta in Hin. eapply outcome_seq; [apply refines_reserve; auto with eliot|]. eapply outcome_bind.
  { eapply outcome_weaken; [apply (scan_entries_outcome (source_step (Generation.source_count g)) sources_view (Generation.source_count g)); [done|lia|]|intros s Hes; exact Hes|].
    - intros acc row s'. apply source_step_view.
    - intros e Hno (es & (_ & _ & Hsc & _)%saved_scanned). apply Hno. by exists es. }
  intros s (es & Hsc & ->). cbn [sources_view scan_progress scan_gaps scan_units].
  assert (len (entry_progress <$> es) = len es) as -> by (unfold len; by rewrite length_fmap).
  apply outcome_guard.
  - intros E (es' & (_ & _ & Hsc' & Hl & Hg & Hu)%saved_scanned). rewrite (scanned_unique _ _ _ _ Hsc' Hsc) in *.
    rewrite Hl, Hg, Hu, !Z.eqb_refl in E. done.
  - intros E. to_prop. apply outcome_ret. exists es. split; [|done]. apply saved_scanned. done.
Qed.
End Entries.

(** ** Units of one source *)

(** The evidence of consecutive units: numbered from [unit], each starting where the one
    before it stopped, from [start] to [stop]. *)
Fixpoint tiles (unit start : Z) (es : list PointEvidence) (stop : Z) : Prop :=
  match es with
  | [] => start = stop
  | e :: es =>
      PointEvidence.unit e = unit /\ PointEvidence.start e = start /\ tiles (unit + 1) (PointEvidence.stop e) es stop
  end.

(** Evidence of a unit of the source, from its prepared artifact. *)
Definition evidence_of (p : SourceProgress) (e : PointEvidence) : Prop :=
  PointEvidence.source_namespace_id e = SourceProgress.namespace p /\ PointEvidence.source_id e = SourceProgress.id p /\
  PointEvidence.input e = SourceProgress.input p /\ SourceProgress.prepared p = Some (PointEvidence.prepared e) /\
  PointEvidence.stop e <= byte_length (SourceProgress.input p).

(** The progress after the units up to [seen], which end at [byte_end]. *)
Definition progress_at (p : SourceProgress) (seen byte_end : Z) : SourceProgress :=
  {| SourceProgress.id := SourceProgress.id p; SourceProgress.namespace := SourceProgress.namespace p;
     SourceProgress.input := SourceProgress.input p; SourceProgress.prepared := SourceProgress.prepared p;
     SourceProgress.units := SourceProgress.units p; SourceProgress.seen := seen; SourceProgress.byte_end := byte_end |}.

Lemma accept_ok p e p' :
  SourceProgress.units p <= U64_MAX ->
  SourceProgress.accept p e = Ok p' <->
  evidence_of p e /\ PointEvidence.unit e = SourceProgress.seen p /\ PointEvidence.start e = SourceProgress.byte_end p /\
  SourceProgress.seen p < SourceProgress.units p /\ p' = progress_at p (SourceProgress.seen p + 1) (PointEvidence.stop e).
Proof.
  intros Hw. unfold SourceProgress.accept, evidence_of, progress_at. split.
  - intros H. apply bind_ok_inv in H as ([] & Hg%reject_if_ok & H). to_prop.
    apply bind_ok_inv in H as (n & Hn%ok_or_inv & H). apply checked_add_inv in Hn as [-> _]. apply ok_inj in H as <-. done.
  - intros (H & Hu & Hs & Hlt & ->). destruct_and!. rewrite reject_if_false by solve_bool. cbn [mbind result_bind].
    rewrite checked_add_some by lia. done.
Qed.

Fixpoint accept_run (p : SourceProgress) (es : list PointEvidence) : option SourceProgress :=
  match es with
  | [] => Some p
  | e :: es => result_ok (SourceProgress.accept p e) ≫= fun p => accept_run p es
  end.

Lemma result_ok_some {E A} (r : result E A) a : result_ok r = Some a <-> r = Ok a.
Proof. destruct r; cbn; naive_solver. Qed.

Lemma accept_run_spec es : forall p p',
  SourceProgress.units p <= U64_MAX ->
  accept_run p es = Some p' <->
  exists stop, Forall (evidence_of p) es /\ tiles (SourceProgress.seen p) (SourceProgress.byte_end p) es stop /\
    (es = [] \/ SourceProgress.seen p + len es <= SourceProgress.units p) /\
    p' = progress_at p (SourceProgress.seen p + len es) stop.
Proof.
  induction es as [|e es IH]; intros p p' Hw; cbn [accept_run tiles].
  { change (len (@nil PointEvidence)) with 0. rewrite Z.add_0_r. split.
    - intros [= <-]. exists (SourceProgress.byte_end p). split_and!; [constructor|done|by left|by destruct p].
    - intros (stop & _ & <- & _ & ->). by destruct p. }
  rewrite len_cons. pose proof (len_nonneg es). split.
  - intros (p1 & H1%result_ok_some & Hr)%bind_Some. apply accept_ok in H1 as (He & Hu & Hs & Hlt & ->); [|done].
    apply IH in Hr as (stop & Hall & Ht & Hl & ->); [|done]. exists stop. cbn in *. split_and!; try done.
    + constructor; [done|exact Hall].
    + right. destruct Hl as [->|]; [unfold len; cbn; lia|lia].
    + unfold progress_at. cbn. f_equal. lia.
  - intros (stop & Hall & (Hu & Hs & Ht) & [?|Hl] & ->); [done|]. apply Forall_cons in Hall as [He Hall].
    apply bind_Some. exists (progress_at p (SourceProgress.seen p + 1) (PointEvidence.stop e)). split.
    + apply result_ok_some, accept_ok; [done|]. split_and!; try done. lia.
    + apply IH; [done|]. exists stop. cbn. split_and!; [exact Hall|done|right; lia|]. unfold progress_at. cbn. f_equal. lia.
Qed.

(** The evidence of a source accounts for all of it: contiguous units from the first byte
    to the last, as many as were staged, and none for a source with a gap. *)
Definition source_tiled (entry : SourceEntry) (es : list PointEvidence) : Prop :=
  match artifact_of entry with
  | Some artifact =>
      Forall (fun e => PointEvidence.source_namespace_id e = source_namespace_id (entry_source entry) /\
        PointEvidence.input e = object_ref (entry_source entry) /\ PointEvidence.prepared e = artifact) es /\
      len es = staged_units entry /\ tiles 0 0 es (byte_length (object_ref (entry_source entry)))
  | None => es = []
  end.

Lemma validated_stop e : validate_evidence e = Ok tt -> PointEvidence.stop e <= byte_length (PointEvidence.input e).
Proof. unfold validate_evidence. intros H%reject_if_ok. to_prop. lia. Qed.

Lemma tiled_run entry es :
  entry_sound entry -> 0 <= staged_units entry <= U64_MAX -> Forall (fun e => validate_evidence e = Ok tt) es ->
  Forall (fun e => PointEvidence.source_id e = source_id (entry_source entry)) es ->
  (exists p, accept_run (entry_progress entry) es = Some p /\ SourceProgress.complete p = true) <-> source_tiled entry es.
Proof.
  intros [_ Hs] Hu Hv Hid. rewrite Forall_forall in Hv, Hid.
  assert ((exists a, artifact_of entry = Some a) \/ (artifact_of entry = None /\ staged_units entry = 0)) as Hcase.
  { unfold artifact_of. destruct (outcome_result <$> _) as [[artifact|gap]|]; [left; eauto|by right|done]. }
  unfold source_tiled, SourceProgress.complete. split.
  - intros (p & Hrun & Hc). apply accept_run_spec in Hrun as (stop & Hall & Ht & Hl & ->); [|cbn; lia].
    unfold evidence_of in Hall. cbn -[artifact_of] in *. apply andb_true_iff in Hc as [Hc1 Hc2].
    destruct Hcase as [[artifact Ha]|[Ha _]]; rewrite Ha in *.
    + rewrite bool_decide_false in Hc2 by done. cbn [orb] in Hc2. to_prop. subst stop. split_and!; [|lia|done].
      eapply Forall_impl; [exact Hall|]. cbn. intros e (? & ? & ? & [= ->] & ?). done.
    + destruct es as [|e es]; [done|]. by apply Forall_cons in Hall as [(_ & _ & _ & ? & _) _].
  - destruct Hcase as [[artifact Ha]|[Ha Hz]]; rewrite Ha.
    + intros (Hall & Hl & Ht). rewrite Forall_forall in Hall. eexists. split.
      * apply accept_run_spec; [cbn; lia|]. eexists. split_and!; [|exact Ht|right; cbn -[artifact_of]; lia|done].
        apply Forall_forall. intros e He. destruct (Hall e He) as (? & Hi & Hp).
        pose proof (validated_stop e (Hv e He)). rewrite Hi in *. unfold evidence_of. cbn -[artifact_of]. rewrite (Hid e He), Ha, Hp. done.
      * cbn -[artifact_of]. rewrite Hl, !Z.eqb_refl. by rewrite orb_true_r.
    + intros ->. eexists. split; [by cbn|]. cbn -[artifact_of]. by rewrite Ha, Hz.
Qed.

(** ** The progress of all sources *)

(** One point accepted by the source it names. *)
Definition accept_at (progress : list SourceProgress) (e : PointEvidence) : option (list SourceProgress) :=
  i ← binary_search (SourceProgress.id <$> progress) (PointEvidence.source_id e);
  found ← at_ progress i;
  accepted ← result_ok (SourceProgress.accept found e);
  Some (<[Z.to_nat i := accepted]> progress).

Fixpoint accept_all (progress : list SourceProgress) (es : list PointEvidence) : option (list SourceProgress) :=
  match es with
  | [] => Some progress
  | e :: es => accept_at progress e ≫= fun progress => accept_all progress es
  end.

Lemma accept_all_app progress a b : accept_all progress (a ++ b) = accept_all progress a ≫= fun p => accept_all p b.
Proof.
  revert progress. induction a as [|e a IH]; intros progress; [done|]. cbn [app accept_all].
  destruct (accept_at progress e); [apply IH|done].
Qed.

Lemma accept_id p e a : SourceProgress.accept p e = Ok a -> SourceProgress.id a = SourceProgress.id p.
Proof.
  unfold SourceProgress.accept. intros H. apply bind_ok_inv in H as (? & _ & H). apply bind_ok_inv in H as (? & _ & H).
  by apply ok_inj in H as <-.
Qed.

Lemma accept_at_spec progress e progress' :
  sorted_keys (SourceProgress.id <$> progress) ->
  accept_at progress e = Some progress' <->
  exists i p a, progress !! i = Some p /\ SourceProgress.id p = PointEvidence.source_id e /\
    SourceProgress.accept p e = Ok a /\ progress' = <[i := a]> progress.
Proof.
  intros Hs. unfold accept_at. split.
  - intros (n & Hn & H)%bind_Some. apply binary_search_spec in Hn as [Hn Hk]; [|done].
    apply bind_Some in H as (p & Hp & H). apply bind_Some in H as (a & Ha%result_ok_some & [= <-]).
    rewrite list_lookup_fmap in Hk. replace n with (Z.of_nat (Z.to_nat n)) in Hp by lia. rewrite at_nat in Hp. rewrite Hp in Hk.
    injection Hk as Hk. by exists (Z.to_nat n), p, a.
  - intros (i & p & a & Hp & Hid & Ha & ->). apply bind_Some. exists (Z.of_nat i). split.
    { apply binary_search_spec; [done|]. rewrite Nat2Z.id, list_lookup_fmap, Hp. cbn. split; [lia|by rewrite Hid]. }
    rewrite at_nat, Hp, Nat2Z.id. cbn [mbind option_bind]. by rewrite Ha.
Qed.

Lemma insert_ids (progress : list SourceProgress) i p a :
  progress !! i = Some p -> SourceProgress.id a = SourceProgress.id p ->
  SourceProgress.id <$> <[i := a]> progress = SourceProgress.id <$> progress.
Proof. intros Hp Ha. rewrite list_fmap_insert, Ha. apply list_insert_id. by rewrite list_lookup_fmap, Hp. Qed.

(** The evidence of one source. *)
Definition evidence_by (id : list Z) (es : list PointEvidence) : list PointEvidence :=
  filter (fun e => PointEvidence.source_id e = id) es.

(** All points are accepted when each names a source and each source accepts its own. *)
Lemma accept_all_spec es : forall progress progress',
  sorted_keys (SourceProgress.id <$> progress) ->
  accept_all progress es = Some progress' <->
  Forall (fun e => PointEvidence.source_id e ∈ (SourceProgress.id <$> progress)) es /\
  Forall2 (fun p p' => accept_run p (evidence_by (SourceProgress.id p) es) = Some p') progress progress'.
Proof.
  induction es as [|e es IH]; intros progress progress' Hs; cbn [accept_all].
  { split.
    - intros [= <-]. split; [constructor|]. apply Forall_Forall2_diag, Forall_true. done.
    - intros [_ Hall]. f_equal. clear Hs. induction Hall as [|? ? ? ? [= ->] _ IH]; [done|]. by f_equal. }
  assert (forall i p, progress !! i = Some p -> SourceProgress.id p = PointEvidence.source_id e ->
    forall j q, progress !! j = Some q -> SourceProgress.id q = PointEvidence.source_id e -> j = i) as Huniq.
  { intros i p Hp Hpe j q Hq Hqe. apply (sorted_keys_inj _ j i (PointEvidence.source_id e) Hs); rewrite list_lookup_fmap.
    - rewrite Hq. cbn. by rewrite Hqe.
    - rewrite Hp. cbn. by rewrite Hpe. }
  split.
  - intros (progress1 & Hat & Hall)%bind_Some. apply accept_at_spec in Hat as (i & p & a & Hp & Hid & Ha & ->); [|done].
    pose proof (insert_ids progress i p a Hp (accept_id p e a Ha)) as Hids. apply IH in Hall as [Hin Hall]; [|by rewrite Hids].
    rewrite Hids in Hin. split.
    + constructor; [|done]. apply list_elem_of_fmap. exists p. split; [done|]. by eapply list_elem_of_lookup_2.
    + apply Forall2_same_length_lookup. apply Forall2_same_length_lookup in Hall as [Hl Hall]. rewrite length_insert in Hl. split; [done|].
      intros j q q' Hq Hq'. unfold evidence_by. rewrite filter_cons. destruct (decide (i = j)) as [<-|Hij].
      * assert (q = p) as -> by congruence. rewrite decide_True by done. cbn [accept_run]. rewrite Ha. cbn [result_ok mbind option_bind].
        rewrite <- (accept_id p e a Ha). apply (Hall i); [|done]. apply list_lookup_insert_eq. by apply lookup_lt_Some in Hp.
      * rewrite decide_False by (intros E; apply Hij; symmetry; by eapply Huniq). apply (Hall j); [|done]. by rewrite list_lookup_insert_ne.
  - intros [Hin Hall]. apply Forall_cons in Hin as [(p & Hid & (i & Hp)%list_elem_of_lookup)%list_elem_of_fmap Hin].
    apply Forall2_same_length_lookup in Hall as [Hl Hall]. destruct (lookup_lt_is_Some_2 progress' i) as [p' Hp'].
    { rewrite <- Hl. by apply lookup_lt_Some in Hp. }
    pose proof (Hall i p p' Hp Hp') as Hrun. unfold evidence_by in Hrun. rewrite filter_cons, decide_True in Hrun by done.
    cbn [accept_run] in Hrun. apply bind_Some in Hrun as (a & Ha%result_ok_some & Hrun).
    pose proof (insert_ids progress i p a Hp (accept_id p e a Ha)) as Hids.
    apply bind_Some. exists (<[i := a]> progress). split; [apply accept_at_spec; [done|]; by exists i, p, a|].
    apply IH; [by rewrite Hids|]. rewrite Hids. split; [done|]. apply Forall2_same_length_lookup. rewrite length_insert. split; [done|].
    intros j q q' Hq Hq'. destruct (decide (i = j)) as [<-|Hij].
    + rewrite list_lookup_insert_eq in Hq by by apply lookup_lt_Some in Hp. injection Hq as <-.
      rewrite (accept_id p e a Ha). assert (q' = p') as -> by congruence. exact Hrun.
    + rewrite list_lookup_insert_ne in Hq by done. pose proof (Hall j q q' Hq Hq') as Hr. unfold evidence_by in Hr.
      rewrite filter_cons, decide_False in Hr; [exact Hr|]. intros E. apply Hij. symmetry. by eapply Huniq.
Qed.

(** ** Pages and their points *)

(** [P] of every element and its number, counted from [n]. *)
Fixpoint numbered {A} (P : Z -> A -> Prop) (n : Z) (l : list A) : Prop :=
  match l with [] => True | x :: l => P n x /\ numbered P (n + 1) l end.

Lemma numbered_app {A} (P : Z -> A -> Prop) n a b : numbered P n (a ++ b) <-> numbered P n a /\ numbered P (n + len a) b.
Proof.
  revert n. induction a as [|x a IH]; intros n; cbn [app numbered].
  - change (len (@nil A)) with 0. rewrite Z.add_0_r. tauto.
  - rewrite IH, len_cons. replace (n + 1 + len a) with (n + (len a + 1)) by lia. replace (n + (1 + len a)) with (n + (len a + 1)) by lia. tauto.
Qed.

Lemma numbered_lookup {A} (P : Z -> A -> Prop) n l i x : numbered P n l -> l !! i = Some x -> P (n + Z.of_nat i) x.
Proof.
  revert n i. induction l as [|y l IH]; intros n i Hn Hi; [done|]. destruct Hn as [Hy Hn]. destruct i as [|i]; cbn in Hi.
  - injection Hi as ->. by replace (n + Z.of_nat 0) with n by lia.
  - replace (n + Z.of_nat (S i)) with (n + 1 + Z.of_nat i) by lia. by apply IH.
Qed.

(** What the bytes of a page hold. *)
Definition page_of (bytes : list Z) : option UploadPage := result_ok (run (decode_page bytes) []).

Lemma decode_page_steps bytes : outcome (decode_page bytes) (fun _ => True) (fun _ => True).
Proof.
  unfold decode_page. apply outcome_pure; [intros _ _|done]. apply outcome_pure; [intros [[legacy [count request]] r] _|done].
  apply outcome_seq; [apply refines_reserve; auto with eliot|]. apply outcome_pure; [intros [points r'] _|done].
  apply outcome_pure; [intros _ _|done]. cbv zeta. destruct legacy; [by apply outcome_ret|].
  apply outcome_pure; [intros size _|done]. apply outcome_pure; [intros _ _; by apply outcome_ret|done].
Qed.

Lemma decode_page_outcome bytes :
  bytes_ok bytes -> outcome (decode_page bytes) (fun page => page_of bytes = Some page) (fun _ => page_of bytes = None).
Proof.
  intros Hb w. destruct (decode_page_steps bytes w) as [_ Hc]. split; [|done]. unfold page_of.
  destruct (run (decode_page bytes) w) as [page|e] eqn:E.
  - apply decode_page_inv, (decode_page_ok page) in E; [|done..]. destruct (E []) as [_ Hcalm]. by destruct (Hcalm (Forall_nil_2 _)) as [-> _].
  - destruct (run (decode_page bytes) []) as [page|e'] eqn:E0; [|by left]. right.
    apply decode_page_inv, (decode_page_ok page) in E0; [|done..]. destruct (E0 w) as [[Hw|(e1 & Hw & Hi)] Hcalm]; [congruence|].
    rewrite E in Hw. injection Hw as ->. split; [done|]. intros Hw. destruct (Hcalm Hw) as [Hr _]. congruence.
Qed.

(** The identity and the key of the point with an ordinal, and the key of a page. *)
Definition point_name (sequence ordinal : Z) : list Z := be_bytes 8 sequence ++ be_bytes 8 ordinal.
Definition point_key (sequence ordinal : Z) : list Z := generation_key sequence (point_name sequence ordinal).
Definition page_key (sequence page : Z) : list Z := generation_key sequence (be_bytes 8 page).

Section Points.
Context {D : Type} `{Redb D} (d : D) (g : Generation).
Abbreviation seq := (Generation.sequence g).

(** A point stands at its ordinal, below the count, and its evidence row says the same. *)
Definition saved_point (ordinal : Z) (p : UploadPoint) : Prop :=
  ordinal < Generation.point_count g /\ point_id p = point_name seq ordinal /\
  exists v, rows_of d EVIDENCE !! point_key seq ordinal = Some v /\ decode_evidence v = Ok (point_evidence p).

Definition points_accepted (ordinal : Z) (points : list UploadPoint) (progress progress' : list SourceProgress) : Prop :=
  numbered saved_point ordinal points /\ accept_all progress (point_evidence <$> points) = Some progress'.

Lemma verify_point_ok point ordinal v progress progress' :
  verify_point g point ordinal v progress = Ok progress' <->
  point_id point = point_name seq ordinal /\ decode_evidence v = Ok (point_evidence point) /\
  accept_at progress (point_evidence point) = Some progress'.
Proof.
  unfold verify_point, accept_at. rewrite be_bytes_split. fold (point_name seq ordinal). split.
  - intros R. apply bind_ok_inv in R as ([] & H1%reject_if_ok & R). apply bind_ok_inv in R as (saved & H2 & R).
    apply bind_ok_inv in R as ([] & H3%reject_if_ok & R). to_prop. subst saved. split_and!; [done..|].
    apply bind_ok_inv in R as (i & Hi%ok_or_inv & R). apply bind_ok_inv in R as (p & Hp%ok_or_inv & R).
    apply bind_ok_inv in R as (a & Ha & R). apply ok_inj in R as <-. rewrite Hi. cbn [mbind option_bind]. rewrite Hp. cbn [mbind option_bind].
    by rewrite Ha.
  - intros (H1 & H2 & R). rewrite bool_decide_true by done. cbn [negb reject_if mbind result_bind]. rewrite H2. cbn [mbind result_bind].
    rewrite bool_decide_true by done. cbn [negb reject_if mbind result_bind]. apply bind_Some in R as (i & -> & R).
    apply bind_Some in R as (p & Hp & R). apply bind_Some in R as (a & Ha%result_ok_some & [= <-]). cbn [ok_or mbind result_bind].
    rewrite Hp. cbn [ok_or mbind result_bind]. by rewrite Ha.
Qed.

Lemma verify_page_points_outcome points : forall ordinal progress,
  Generation.point_count g <= U64_MAX ->
  outcome (verify_page_points d g points ordinal progress)
    (fun r => points_accepted ordinal points progress (snd r) /\ fst r = ordinal + len points)
    (fun _ => ~ exists progress', points_accepted ordinal points progress progress').
Proof.
  induction points as [|point points IH]; intros ordinal progress Hmax; cbn [verify_page_points].
  { apply outcome_ret. split; [by split|]. change (len (@nil UploadPoint)) with 0. cbn. lia. }
  eapply outcome_seq; [apply publication_check_refines|]. unfold points_accepted. cbn [numbered fmap list_fmap accept_all].
  apply outcome_guard. { intros Hlt (progress' & ((Hlt' & _) & _) & _). to_prop. lia. } intros Hlt. to_prop.
  eapply outcome_known; [apply refines_get; auto with eliot|]. apply outcome_pure.
  2:{ intros e Hn (progress' & ((_ & Hid & v & Hv & _) & _) & _). unfold point_key in Hv. rewrite Hid, Hv in Hn. done. }
  intros v Hv%ok_or_inv. apply outcome_pure.
  2:{ intros e Hn (progress' & ((_ & Hid & v' & Hv' & Hd) & _) & Ha). apply bind_Some in Ha as (progress1 & Ha & _).
      unfold point_key in Hv'. rewrite Hid, Hv' in Hv. injection Hv as ->.
      enough (verify_point g point ordinal v progress = Ok progress1) by congruence. by apply verify_point_ok. }
  intros progress1 (Hid & Hd & Ha)%verify_point_ok. rewrite checked_add_some by lia. cbn [ok_or]. rewrite lift_ok_bind, Ha.
  cbn [mbind option_bind]. eapply outcome_weaken; [by apply IH| |].
  - intros [n progress'] ((Hn & Hall) & Hl). cbn in *. rewrite len_cons. split; [|lia]. split; [|exact Hall]. split; [|exact Hn].
    rewrite Hid in Hv. split_and!; [lia|done|by exists v].
  - intros e Hno (progress' & (_ & Hn) & Hall). apply Hno. by exists progress'.
Qed.

Lemma points_accepted_app ordinal a b progress progress' :
  points_accepted ordinal (a ++ b) progress progress' <->
  exists progress1, points_accepted ordinal a progress progress1 /\ points_accepted (ordinal + len a) b progress1 progress'.
Proof.
  unfold points_accepted. rewrite numbered_app, fmap_app, accept_all_app. split.
  - intros [[Ha Hb] (progress1 & Hp & Hq)%bind_Some]. by exists progress1.
  - intros (progress1 & [Ha Hp] & [Hb Hq]). split; [done|]. apply bind_Some. by exists progress1.
Qed.
End Points.

Section Pages.
Context {D : Type} `{Redb D} (d : D) (g : Generation).
Abbreviation seq := (Generation.sequence g).

Definition page_at (page : Z) (row : list Z * list Z) : Prop := page < Generation.page_count g /\ fst row = page_key seq page.

(** One row of the page loop. *)
Definition page_read (s : PagesScan) (row : list Z * list Z) (s' : PagesScan) : Prop :=
  exists page progress', page_at (pages_seen s) row /\ pages_charged s + len (snd row) <= MAX_STAGED_BYTES /\
    page_of (snd row) = Some page /\
    points_accepted d g (points_seen s) (page_points page) (pages_progress s) progress' /\
    s' = {| pages_seen := pages_seen s + 1; points_seen := points_seen s + len (page_points page);
            pages_charged := pages_charged s + len (snd row); pages_progress := progress' |}.

Lemma page_read_functional s row a b : page_read s row a -> page_read s row b -> a = b.
Proof.
  intros (p & r & _ & _ & Hp & [_ Hr] & ->) (p' & r' & _ & _ & Hp' & [_ Hr'] & ->).
  rewrite Hp in Hp'. injection Hp' as <-. rewrite Hr in Hr'. by injection Hr' as <-.
Qed.

Lemma page_step_outcome s k v :
  Generation.wf g -> bytes_ok v ->
  outcome (page_step d g s k v) (page_read s (k, v)) (fun _ => ~ exists s', page_read s (k, v) s').
Proof.
  intros (_ & _ & _ & _ & _ & Hpoints & Hpages) Hv. unfold page_step. fold (page_key seq (pages_seen s)). apply outcome_guard.
  { intros Hg (s' & page & progress' & [Hlt Hk] & _). cbn in Hk. subst k. rewrite bool_decide_true in Hg by done. to_prop. lia. }
  intros Hg. to_prop. apply outcome_pure.
  2:{ intros e Hn (s' & page & progress' & _ & Hc & _). cbn in Hc. rewrite checked_add_some in Hn by (unfold MAX_STAGED_BYTES in *; width).
      revert Hn. cbn [option_keep]. by is_true (pages_charged s + len v <=? MAX_STAGED_BYTES). }
  intros charged Hc%ok_or_inv. apply option_keep_inv in Hc as [Hc Hm]. apply checked_add_inv in Hc as [-> _]. to_prop.
  eapply outcome_bind.
  { eapply outcome_weaken; [by apply decode_page_outcome|intros page Hp; exact Hp|]. intros e Hn (s' & page & progress' & _ & _ & Hp & _).
    cbn in Hp. congruence. }
  intros page Hp. cbn beta in Hp. eapply outcome_bind.
  { eapply outcome_weaken; [apply verify_page_points_outcome; lia|intros r Hr; exact Hr|]. intros e Hn (s' & page' & progress' & _ & _ & Hp' & Ha & _).
    cbn in Hp'. rewrite Hp in Hp'. injection Hp' as <-. apply Hn. by exists progress'. }
  intros [n progress'] [Ha Hn]. cbn in Ha, Hn. subst n. rewrite checked_add_some by lia. cbn [ok_or]. rewrite lift_ok_bind. apply outcome_ret.
  exists page, progress'. by split_and!.
Qed.

Definition bytes_total (rows : list (list Z * list Z)) : Z := foldr (fun row n => len (snd row) + n) 0 rows.

Lemma bytes_total_nonneg rows : 0 <= bytes_total rows.
Proof. unfold bytes_total. induction rows as [|row rows IH]; cbn; [done|]. pose proof (len_nonneg (snd row)). lia. Qed.

Definition holds_page (row : list Z * list Z) (page : UploadPage) : Prop := page_of (snd row) = Some page.

Lemma pages_fold rows : forall s s',
  pages_charged s <= MAX_STAGED_BYTES ->
  folds page_read rows s s' <->
  exists pages progress', Forall2 holds_page rows pages /\ numbered page_at (pages_seen s) rows /\
    pages_charged s + bytes_total rows <= MAX_STAGED_BYTES /\
    points_accepted d g (points_seen s) (pages ≫= page_points) (pages_progress s) progress' /\
    s' = {| pages_seen := pages_seen s + len pages; points_seen := points_seen s + len (pages ≫= page_points);
            pages_charged := pages_charged s + bytes_total rows; pages_progress := progress' |}.
Proof.
  induction rows as [|row rows IH]; intros s s' Hc; cbn [folds numbered bytes_total foldr].
  { split.
    - intros ->. exists [], (pages_progress s). cbn. change (len (@nil UploadPage)) with 0. change (len (@nil UploadPoint)) with 0.
      rewrite !Z.add_0_r. split; [constructor|]. split_and!; try done. by destruct s.
    - intros (pages & progress' & Hp & _ & _ & [_ Ha] & ->). inversion Hp; subst. cbn in *. injection Ha as <-.
      change (len (@nil UploadPage)) with 0. change (len (@nil UploadPoint)) with 0. rewrite !Z.add_0_r. by destruct s. }
  fold (bytes_total rows). pose proof (bytes_total_nonneg rows). split.
  - intros (s1 & (page & progress1 & Hk & Hch & Hp & Ha & ->) & Hf). apply IH in Hf as (pages & progress' & Hps & Hn & Hch' & Ha' & ->); [|done].
    cbn in *. exists (page :: pages), progress'. cbn [mbind list_bind]. rewrite !len_app, !len_cons. split; [by constructor|]. split; [by split|]. split; [lia|].
    split; [apply points_accepted_app; by exists progress1|f_equal; lia].
  - intros (pages & progress' & Hp & [Hk Hn] & Hch & Ha & ->). inversion Hp as [|? page ? pages' Hpage Hps]; subst. clear Hp.
    cbn [mbind list_bind] in *. apply points_accepted_app in Ha as (progress1 & Ha & Ha'). eexists. split.
    + exists page, progress1. split_and!; [done|lia|done|done|reflexivity].
    + apply IH; [cbn; lia|]. exists pages', progress'. cbn. rewrite !len_app, !len_cons. split_and!; try done; [lia|]. f_equal; lia.
Qed.

(** The scan of the pages. *)
Lemma pages_outcome progress :
  typed d PAGES -> Generation.wf g ->
  let start := {| pages_seen := 0; points_seen := 0; pages_charged := 0; pages_progress := progress |} in
  outcome (scan_generation d PAGES seq (page_step d g) start) (folds page_read (generation_rows d PAGES seq) start)
    (fun _ => ~ exists s', folds page_read (generation_rows d PAGES seq) start s').
Proof.
  intros Ht Hwf start. apply (scan_generation_outcome d _ _ _ page_read (fun row => bytes_ok (snd row))).
  - apply page_read_functional.
  - intros s k v Hv. by apply page_step_outcome.
  - intros k v Hv. by apply (Ht k v).
Qed.
End Pages.

(** ** Evidence rows *)

Lemma decoded_evidence v e : bytes_ok v -> decode_evidence v = Ok e -> evidence_valid e.
Proof.
  intros Hb H. unfold decode_evidence in H. apply bind_ok_inv in H as ([] & Hl%reject_if_ok & H). to_prop.
  apply bind_ok_inv in H as ([e' r] & Hr & H). apply bind_ok_inv in H as ([] & _ & H). apply ok_inj in H as ->.
  assert (len v <= ISIZE_MAX) as Hi by (unfold EVIDENCE_BYTES in *; width).
  destruct (codec_accounts _ _ _ codec_evidence _ _ _ _ (reads_start v Hi) Hb Hr) as (xs & s & _ & _ & _ & _ & _ & HW). exact HW.
Qed.

Section Evidence.
Context {D : Type} `{Redb D} (d : D) (g : Generation).
Abbreviation seq := (Generation.sequence g).

Definition evidence_key (k : list Z) : Prop := exists i, 0 <= i < Generation.point_count g /\ k = point_key seq i.

Lemma point_key_parts i :
  len (point_key seq i) = 24 /\ take 8 (drop 8 (point_key seq i)) = be_bytes 8 seq /\ take 8 (drop 16 (point_key seq i)) = be_bytes 8 i.
Proof.
  unfold point_key, generation_key, point_name. split_and!.
  - rewrite !len_app. unfold len. rewrite !be_bytes_length. done.
  - rewrite drop_app_length' by by rewrite be_bytes_length. by rewrite take_app_length' by by rewrite be_bytes_length.
  - rewrite (assoc_L (++)), drop_app_length' by by rewrite length_app, !be_bytes_length. rewrite take_ge; [done|]. by rewrite be_bytes_length.
Qed.

Lemma evidence_step_ok count k v n :
  keyed seq k -> bytes_ok k -> 0 <= Generation.point_count g <= U64_MAX ->
  evidence_step g count k v = Ok n <-> evidence_key k /\ n = count + 1 /\ count + 1 <= Generation.point_count g.
Proof.
  intros Hk Hb Hc. unfold evidence_step, evidence_key. split.
  - intros R. apply bind_ok_inv in R as ([] & H1%reject_if_ok & R). apply bind_ok_inv in R as ([] & H2%reject_if_ok & R).
    apply ok_or_inv, option_keep_inv in R as [R Hn]. apply checked_add_inv in R as [-> _]. to_prop. split; [|done].
    match goal with E : take 8 (drop 8 k) = _ |- _ => rename E into Hmid end.
    assert (bytes_ok (take 8 (drop 16 k))) as Hbo by by apply Forall_take, Forall_drop.
    assert (length (take 8 (drop 16 k)) = 8%nat) as Hlen.
    { unfold len in *. rewrite length_take, length_drop. lia. }
    exists (be_value (take 8 (drop 16 k))). split; [split; [|done]|].
    + unfold be_value. apply le_value_bound. unfold bytes_ok in *. rewrite Forall_forall in *. intros x Hx. apply Hbo. rewrite list_elem_of_In in *. by apply in_rev.
    + unfold point_key, generation_key, point_name. rewrite be_bytes_be_value by done. unfold keyed in Hk. rewrite <- Hmid at 2. rewrite <- Hk.
      rewrite <- (take_drop 8 k) at 1. f_equal. rewrite <- (take_drop 8 (drop 8 k)) at 1. f_equal. rewrite drop_drop, take_ge; [done|].
      rewrite length_drop. unfold len in *. lia.
  - intros ((i & Hi & ->) & -> & Hn). destruct (point_key_parts i) as (Hl & H8 & H16). rewrite H8, H16, Hl.
    rewrite bool_decide_true by done. cbn [negb orb reject_if mbind result_bind Z.eqb Pos.eqb].
    rewrite be_value_be_bytes by width. is_false (Generation.point_count g <=? i). cbn [reject_if mbind result_bind].
    rewrite checked_add_some by lia. cbn [option_keep]. by is_true (count + 1 <=? Generation.point_count g).
Qed.

Definition evidence_read (count : Z) (row : list Z * list Z) (n : Z) : Prop := evidence_step g count (fst row) (snd row) = Ok n.

Lemma evidence_fold rows : forall count n,
  Forall (fun row => keyed seq (fst row) /\ bytes_ok (fst row)) rows -> 0 <= Generation.point_count g <= U64_MAX ->
  folds evidence_read rows count n <->
  Forall (fun row => evidence_key (fst row)) rows /\ n = count + len rows /\ (rows = [] \/ count + len rows <= Generation.point_count g).
Proof.
  induction rows as [|row rows IH]; intros count n Hg Hc; cbn [folds].
  { change (len (@nil (list Z * list Z))) with 0. rewrite Z.add_0_r. split; [intros ->; by split_and!; [constructor| |left]|tauto]. }
  apply Forall_cons in Hg as [[Hk Hb] Hg]. rewrite len_cons. pose proof (len_nonneg rows). split.
  - intros (n1 & H1 & Hf). apply evidence_step_ok in H1 as (He & -> & Hn); [|done..]. apply IH in Hf as (Hall & -> & Hl); [|done..].
    split_and!; [by constructor|lia|right]. destruct Hl as [->|]; [unfold len; cbn; lia|lia].
  - intros (Hall & -> & [?|Hl]); [done|]. apply Forall_cons in Hall as [He Hall]. exists (count + 1).
    split; [apply evidence_step_ok; [done..|]; split_and!; [done|done|lia]|]. apply IH; [done..|]. split_and!; [done|lia|right; lia].
Qed.

(** No evidence of this generation but that of its points. *)
Definition no_orphans : Prop := forall k v, rows_of d EVIDENCE !! k = Some v -> keyed seq k -> evidence_key k.

(** Every point of the generation has its row. *)
Definition all_present : Prop :=
  forall i, 0 <= i < Generation.point_count g -> is_Some (rows_of d EVIDENCE !! point_key seq i).

Lemma point_key_inj i j : 0 <= i <= U64_MAX -> 0 <= j <= U64_MAX -> point_key seq i = point_key seq j -> i = j.
Proof. unfold point_key, generation_key, point_name. intros Hi Hj E%app_inj_1%proj2%app_inj_1%proj2; [|done..]. apply (be_bytes_inj 8) in E; width. Qed.

(** Then the rows are as many as the points. *)
Lemma evidence_rows_count :
  0 <= Generation.point_count g <= U64_MAX -> no_orphans -> all_present ->
  len (generation_rows d EVIDENCE seq) = Generation.point_count g.
Proof.
  intros Hc Hno Hall. set (keys := point_key seq <$> seqZ 0 (Generation.point_count g)).
  assert ((fst <$> generation_rows d EVIDENCE seq) ≡ₚ keys) as Hp.
  { apply NoDup_Permutation.
    - pose proof (generation_rows_sorted d EVIDENCE seq) as Hs. induction Hs as [|row rows Hs IH Hrow]; cbn; constructor; [|done].
      intros (row' & E & Hin)%list_elem_of_fmap. rewrite Forall_forall in Hrow. specialize (Hrow _ Hin). unfold key_lt in Hrow.
      rewrite E in Hrow. by rewrite bytes_lt_irrefl in Hrow.
    - apply NoDup_fmap_2_strong; [|apply NoDup_seqZ]. intros i j Hi%elem_of_seqZ Hj%elem_of_seqZ. apply point_key_inj; lia.
    - intros k. unfold keys. rewrite !list_elem_of_fmap. split.
      + intros ([k' v] & -> & [Hk Hv]%generation_rows_in). destruct (Hno k' v Hv Hk) as (i & Hi & ->). exists i. split; [done|]. apply elem_of_seqZ. lia.
      + intros (i & -> & Hi%elem_of_seqZ). destruct (Hall i) as [v Hv]; [lia|]. exists (point_key seq i, v). split; [done|].
        apply generation_rows_in. split; [apply keyed_key|done]. }
  apply Permutation_length in Hp. unfold keys in Hp. rewrite !length_fmap, length_seqZ in Hp. unfold len. lia.
Qed.

Lemma evidence_count_outcome :
  typed d EVIDENCE -> 0 <= Generation.point_count g <= U64_MAX -> all_present ->
  outcome (evidence_count d g) (fun _ => no_orphans) (fun _ => ~ (EVIDENCE ∈ names_of d /\ no_orphans)).
Proof.
  intros Ht Hc Hall. unfold evidence_count. eapply outcome_bind.
  { eapply outcome_weaken; [apply outcome_open_read; auto with eliot|intros u Hin; exact Hin|]. by intros e Hn [? _]. }
  intros [] _.
  assert (Forall (fun row => keyed seq (fst row) /\ bytes_ok (fst row)) (generation_rows d EVIDENCE seq)) as Hgood.
  { apply Forall_forall. intros [k v] [Hk Hv]%generation_rows_in. split; [done|]. by apply (Ht k v). }
  assert (no_orphans -> folds evidence_read (generation_rows d EVIDENCE seq) 0 (Generation.point_count g)) as Hfold.
  { intros Hno. apply evidence_fold; [done..|]. rewrite evidence_rows_count by done. split_and!; [|lia|right; lia].
    apply Forall_forall. intros [k v] [Hk Hv]%generation_rows_in. by apply (Hno k v). }
  eapply outcome_bind.
  { eapply outcome_weaken; [apply (scan_generation_outcome d _ _ _ evidence_read (fun _ => True)); [unfold evidence_read; congruence| |done]| |].
    - intros s k v _. apply outcome_lifted.
    - intros n Hn. exact Hn.
    - intros e Hno [_ Ho]. apply Hno. eexists. by apply Hfold. }
  intros n Hn. cbn beta in Hn. apply outcome_lift.
  - intros [] _ k v Hv Hk. apply evidence_fold in Hn as (Hkeys & _); [|done..]. rewrite Forall_forall in Hkeys.
    apply (Hkeys (k, v)), generation_rows_in. done.
  - intros e He [_ Hno]. apply evidence_fold in Hn as (_ & -> & _); [|done..]. rewrite evidence_rows_count in He by done.
    by rewrite Z.add_0_l, Z.eqb_refl in He.
Qed.
End Evidence.

(** ** Complete graphs *)

Section Graph.
Context {D : Type} `{Redb D} (d : D) (g : Generation).
Abbreviation seq := (Generation.sequence g).
Implicit Types (entries : list SourceEntry) (pages : list UploadPage).

Definition points_of (pages : list UploadPage) : list UploadPoint := pages ≫= page_points.
Definition evidence_in (pages : list UploadPage) : list PointEvidence := point_evidence <$> points_of pages.

(** The saved generation is whole: its source rows are the complete entries it counts; its
    page rows are numbered from zero and hold its points in order, each with its evidence
    row; every point is of one of the sources, and the points of each source are its units
    from the first byte to the last; and no other evidence is saved for it. *)
Record complete_graph entries pages : Prop := {
  graph_entries : saved_entries d g entries;
  graph_tables : PAGES ∈ names_of d /\ EVIDENCE ∈ names_of d;
  graph_page_rows : Forall2 holds_page (generation_rows d PAGES seq) pages;
  graph_page_keys : numbered (page_at g) 0 (generation_rows d PAGES seq);
  graph_page_count : len pages = Generation.page_count g;
  graph_page_bytes : bytes_total (generation_rows d PAGES seq) <= MAX_STAGED_BYTES;
  graph_points : numbered (saved_point d g) 0 (points_of pages);
  graph_point_count : len (points_of pages) = Generation.point_count g;
  graph_named : Forall (fun e => PointEvidence.source_id e ∈ ((fun x => source_id (entry_source x)) <$> entries)) (evidence_in pages);
  graph_tiled : Forall (fun x => source_tiled x (evidence_by (source_id (entry_source x)) (evidence_in pages))) entries;
  graph_orphans : no_orphans d g }.

Lemma generation_key_lt a b : bytes_lt (generation_key seq a) (generation_key seq b) = bytes_lt a b.
Proof.
  unfold generation_key, bytes_lt. f_equal. induction (be_bytes 8 seq) as [|x l IH]; [done|]. cbn. by rewrite Z.compare_refl.
Qed.

Lemma entries_sorted entries :
  Forall2 (holds_entry seq) (generation_rows d SOURCES seq) entries ->
  sorted_keys ((fun x => source_id (entry_source x)) <$> entries).
Proof.
  intros Hh. pose proof (generation_rows_sorted d SOURCES seq) as Hs. unfold sorted_keys.
  induction Hh as [|row e rows entries [Hk _] Hh IH]; cbn; constructor; [by apply IH; inversion Hs|].
  inversion Hs as [|? ? _ Hlt]; subst. apply Forall_fmap. clear IH Hs. revert Hlt.
  induction Hh as [|row' e' rows entries [Hk' _] _ IH]; intros Hlt; constructor.
  - apply Forall_cons in Hlt as [Hlt _]. unfold key_lt in Hlt. by rewrite Hk, Hk', generation_key_lt in Hlt.
  - apply IH. by apply Forall_cons in Hlt as [_ ?].
Qed.

Lemma progress_ids entries : SourceProgress.id <$> (entry_progress <$> entries) = (fun x => source_id (entry_source x)) <$> entries.
Proof. by rewrite <- list_fmap_compose. Qed.

Lemma saved_entry_facts entries :
  typed d SOURCES -> saved_entries d g entries -> Forall (fun x => entry_sound x /\ 0 <= staged_units x <= U64_MAX) entries.
Proof.
  intros Ht (_ & Hh & Hs & _). pose proof (good_rows d g SOURCES Ht) as Hg.
  induction Hh as [|row e rows entries [_ He] _ IH]; [constructor|]. apply Forall_cons in Hs as [Hs1 Hs], Hg as [[_ Hv] Hg].
  constructor; [|by apply IH]. split; [done|]. by apply (decoded_units (snd row)).
Qed.

Lemma saved_validated ordinal points :
  typed d EVIDENCE -> numbered (saved_point d g) ordinal points ->
  Forall (fun e => validate_evidence e = Ok tt) (point_evidence <$> points).
Proof.
  intros Ht. revert ordinal. induction points as [|p points IH]; intros ordinal Hn; [constructor|].
  destruct Hn as [(_ & _ & v & Hv & Hd) Hn]. constructor; [|by eapply IH].
  apply (decoded_evidence v); [by apply (Ht (point_key seq ordinal))|done].
Qed.

Lemma evidence_by_facts id es :
  Forall (fun e => validate_evidence e = Ok tt) es ->
  Forall (fun e => PointEvidence.source_id e = id) (evidence_by id es) /\
  Forall (fun e => validate_evidence e = Ok tt) (evidence_by id es).
Proof.
  intros Hv. rewrite Forall_forall in Hv. split; apply Forall_forall; intros e [? ?]%list_elem_of_filter; [done|by apply Hv].
Qed.

(** What the accounting of the sources says once all points are accepted. *)
Lemma accounted entries points progress' :
  typed d SOURCES -> typed d EVIDENCE -> saved_entries d g entries ->
  numbered (saved_point d g) 0 points ->
  let es := point_evidence <$> points in
  accept_all (entry_progress <$> entries) es = Some progress' ->
  Forall (fun e => PointEvidence.source_id e ∈ ((fun x => source_id (entry_source x)) <$> entries)) es /\
  (existsb (fun p => negb (SourceProgress.complete p)) progress' = false <->
   Forall (fun x => source_tiled x (evidence_by (source_id (entry_source x)) es)) entries).
Proof.
  intros Hts Hte Hsv Hn es Hacc. pose proof (saved_validated 0 points Hte Hn) as Hval.
  pose proof (saved_entry_facts entries Hts Hsv) as Hfacts. destruct Hsv as (_ & Hh & _).
  apply accept_all_spec in Hacc as [Hin Hall]; [|rewrite progress_ids; by apply entries_sorted].
  rewrite progress_ids in Hin. split; [done|]. clear Hh Hin. apply Forall2_fmap_l in Hall.
  induction Hall as [|x p entries progress' Hrun _ IH]; cbn [existsb]; [by split|].
  apply Forall_cons in Hfacts as [[Hs Hu] Hfacts]. rewrite orb_false_iff, Forall_cons, IH by done. cbn beta.
  destruct (evidence_by_facts (source_id (entry_source x)) es Hval) as [Hid Hvx].
  rewrite <- (tiled_run x _ Hs Hu Hvx Hid).
  cbn [SourceProgress.id entry_progress] in Hrun. rewrite negb_false_iff. split.
  - intros [Hc ?]. split; [|done]. by exists p.
  - intros [(q & Hq & Hc) ?]. split; [|done]. rewrite Hrun in Hq. by injection Hq as ->.
Qed.
Lemma Forall_choice {A B} (R : A -> B -> Prop) l : Forall (fun x => exists y, R x y) l -> exists k, Forall2 R l k.
Proof. induction 1 as [|x l [y Hy] _ [k Hk]]; [by exists []|]. exists (y :: k). by constructor. Qed.

(** On a complete graph every point is accepted and every source completed. *)
Lemma graph_accepts entries pages :
  typed d SOURCES -> typed d EVIDENCE -> complete_graph entries pages ->
  exists progress', accept_all (entry_progress <$> entries) (evidence_in pages) = Some progress' /\
    existsb (fun p => negb (SourceProgress.complete p)) progress' = false.
Proof.
  intros Hts Hte Hg. destruct Hg as [Hsv _ _ _ _ _ Hn _ Hin Ht _].
  pose proof (saved_validated 0 _ Hte Hn) as Hval. fold (evidence_in pages) in Hval.
  pose proof (saved_entry_facts entries Hts Hsv) as Hfacts. pose proof Hsv as (_ & Hh & _).
  assert (exists progress', Forall2 (fun x p' => accept_run (entry_progress x) (evidence_by (source_id (entry_source x)) (evidence_in pages)) = Some p')
    entries progress') as (progress' & Hall).
  { apply Forall_choice. rewrite Forall_forall in Hfacts, Ht |- *. intros x Hx. destruct (Hfacts x Hx) as [Hs Hu].
    destruct (evidence_by_facts (source_id (entry_source x)) (evidence_in pages) Hval) as [Hid Hvx].
    destruct (proj2 (tiled_run x _ Hs Hu Hvx Hid) (Ht x Hx)) as (p & Hp & _). by exists p. }
  assert (accept_all (entry_progress <$> entries) (evidence_in pages) = Some progress') as Hacc.
  { apply accept_all_spec; [rewrite progress_ids; by apply entries_sorted|]. rewrite progress_ids. split; [done|].
    apply Forall2_fmap_l. exact Hall. }
  exists progress'. split; [done|]. by apply (accounted entries (points_of pages) progress').
Qed.

Lemma points_present points :
  numbered (saved_point d g) 0 points -> len points = Generation.point_count g -> all_present d g.
Proof.
  intros Hn Hl i Hi. destruct (lookup_lt_is_Some_2 points (Z.to_nat i)) as [p Hp]; [unfold len in Hl; lia|].
  pose proof (numbered_lookup _ _ _ _ _ Hn Hp) as (_ & _ & v & Hv & _). rewrite Z2Nat.id, Z.add_0_l in Hv by lia. by exists v.
Qed.

(** The scan of the pages reads a graph's pages and leaves the progress of its sources. *)
Lemma pages_scan entries s' :
  let start := {| pages_seen := 0; points_seen := 0; pages_charged := 0; pages_progress := entry_progress <$> entries |} in
  folds (page_read d g) (generation_rows d PAGES seq) start s' <->
  exists pages, Forall2 holds_page (generation_rows d PAGES seq) pages /\
    numbered (page_at g) 0 (generation_rows d PAGES seq) /\
    bytes_total (generation_rows d PAGES seq) <= MAX_STAGED_BYTES /\
    numbered (saved_point d g) 0 (points_of pages) /\
    accept_all (entry_progress <$> entries) (evidence_in pages) = Some (pages_progress s') /\
    pages_seen s' = len pages /\ points_seen s' = len (points_of pages) /\ pages_charged s' = bytes_total (generation_rows d PAGES seq).
Proof.
  intros start. rewrite pages_fold by (unfold MAX_STAGED_BYTES; cbn; lia). cbn [pages_seen points_seen pages_charged pages_progress start].
  unfold points_accepted. split.
  - intros (pages & progress' & Hp & Hk & Hb & [Hn Ha] & ->). by exists pages.
  - intros (pages & Hp & Hk & Hb & Hn & Ha & H1 & H2 & H3). exists pages, (pages_progress s'). split_and!; try done.
    destruct s'. cbn in *. by subst.
Qed.

Lemma verify_outcome :
  typed d SOURCES -> typed d PAGES -> typed d EVIDENCE -> Generation.wf g ->
  outcome (verify_generation d g) (fun _ => exists entries pages, complete_graph entries pages)
    (fun _ => ~ exists entries pages, complete_graph entries pages).
Proof.
  intros Hts Htp Hte Hwf. unfold verify_generation. eapply outcome_bind.
  { eapply outcome_weaken; [by apply graph_sources_outcome|intros progress Hp; exact Hp|].
    intros e Hn (entries & pages & Hg). apply Hn. exists entries. by apply Hg. }
  intros progress (entries & Hsv & ->). eapply outcome_bind.
  { eapply outcome_weaken; [apply outcome_open_read; auto with eliot|intros u Hin; exact Hin|]. intros e Hn (en & pages & Hg). by apply Hn, Hg. }
  intros [] Hpages. eapply outcome_bind.
  { eapply outcome_weaken; [apply outcome_open_read; auto with eliot|intros u Hin; exact Hin|]. intros e Hn (en & pages & Hg). by apply Hn, Hg. }
  intros [] Hevidence. cbn beta in Hpages, Hevidence.
  assert (forall en pages, complete_graph en pages -> en = entries) as Hsame.
  { intros en pages [Hsv' _ _ _ _ _ _ _ _ _ _]. apply saved_scanned in Hsv, Hsv'. destruct_and!. by eapply scanned_unique. }
  eapply outcome_bind.
  { eapply outcome_weaken; [by apply pages_outcome|intros s Hs; exact Hs|]. intros e Hn (en & pages & Hg). apply Hn.
    rewrite <- (Hsame en pages Hg). destruct (graph_accepts en pages Hts Hte Hg) as (progress' & Ha & _). destruct Hg.
    exists {| pages_seen := len pages; points_seen := len (points_of pages);
              pages_charged := bytes_total (generation_rows d PAGES seq); pages_progress := progress' |}.
    apply pages_scan. by exists pages. }
  intros s (pages & Hp & Hk & Hb & Hn & Ha & Hps & Hqs & _)%pages_scan.
  destruct (accounted entries (points_of pages) (pages_progress s) Hts Hte Hsv Hn Ha) as [Hin Hcomplete].
  assert (forall en pages', complete_graph en pages' -> pages' = pages) as Hsamep.
  { intros en pages' [_ _ Hp' _ _ _ _ _ _ _ _]. clear -Hp Hp'. revert pages' Hp'. induction Hp as [|row page rows pages Hr _ IH];
      intros pages' Hp'; inversion Hp' as [|? page' ? ? Hr']; subst; [done|]. unfold holds_page in *. f_equal; [congruence|by apply IH]. }
  apply outcome_guard.
  - intros Hg (en & pages' & Hgr). pose proof (Hsame _ _ Hgr). pose proof (Hsamep _ _ Hgr). subst en pages'.
    destruct Hgr as [_ _ _ _ Hc _ _ Hpc _ Ht _]. apply Hcomplete in Ht. rewrite Hps, Hqs, Hc, Hpc, Ht, !Z.eqb_refl in Hg. done.
  - intros Hg. apply orb_false_iff in Hg as [Hg Ht]. to_prop. apply Hcomplete in Ht.
    assert (len (points_of pages) = Generation.point_count g) as Hpc by congruence. pose proof (points_present _ Hn Hpc) as Hall.
    destruct Hwf as (_ & _ & _ & _ & _ & Hpoints & _).
    eapply outcome_weaken; [apply evidence_count_outcome; [done|lia|done]| |].
    + intros u Ho. exists entries, pages. split; try done. congruence.
    + intros e Hn' (en & pages' & Hgr). apply Hn'. split; [done|]. by apply Hgr.
Qed.
End Graph.

(** C29. Exhaustive verification is exact.  Over any stored bytes, [verify_generation]
    accepts a generation only when its saved rows are a complete graph; it refuses only
    when they are not, or when the environment interrupted it.  So in a calm environment it
    accepts exactly the complete graphs. *)
Theorem verify_generation_exact {D} `{Redb D} (d : D) (g : Generation) (w : env) :
  typed d SOURCES -> typed d PAGES -> typed d EVIDENCE -> Generation.wf g ->
  match run (verify_generation d g) w with
  | Ok _ => exists entries pages, complete_graph d g entries pages
  | Err e => ~ (exists entries pages, complete_graph d g entries pages) \/ (interrupt e /\ ~ calm w)
  end.
Proof. intros Hts Htp Hte Hwf. apply (verify_outcome d g Hts Htp Hte Hwf w). Qed.

(** The published sample. *)
Definition sample_generation : Generation :=
  {| Generation.namespace := sample_generation_namespace; Generation.sequence := 1; Generation.wanted_revision := 1;
     Generation.source_count := 1; Generation.gap_count := 0; Generation.point_count := 1; Generation.page_count := 1 |}.

Definition typed_rows (rows : list (list Z * list Z)) : bool :=
  forallb (fun kv => bool_decide (bytes_ok (fst kv)) && bool_decide (bytes_ok (snd kv))) rows.

Lemma typed_iter {D} `{Redb D} (d : D) table : typed_rows (table_iter d table) = true -> typed d table.
Proof.
  intros Ht k v Hv. unfold typed_rows in Ht. rewrite forallb_forall in Ht.
  assert ((k, v) ∈ table_iter d table) as Hin by by apply (iter_law d table). apply list_elem_of_In in Hin.
  specialize (Ht _ Hin). cbn in Ht. by to_prop.
Qed.

Lemma sample_typed table : table ∈ [SOURCES; PAGES; EVIDENCE] -> typed sample_published table.
Proof.
  intros Hin. apply typed_iter. revert table Hin. apply Forall_forall. repeat constructor; vm_compute; reflexivity.
Qed.

Lemma sample_generation_wf : Generation.wf sample_generation.
Proof. split; [split; closed_fact|]. split_and!; cbn; width. Qed.

Lemma verify_generation_exact_witness :
  exists entries pages, complete_graph sample_published sample_generation entries pages.
Proof.
  pose proof (verify_generation_exact sample_published sample_generation [] (sample_typed SOURCES ltac:(set_solver))
    (sample_typed PAGES ltac:(set_solver)) (sample_typed EVIDENCE ltac:(set_solver)) sample_generation_wf) as Hv.
  assert (run (verify_generation sample_published sample_generation) [] = Ok tt) as E by (vm_compute; reflexivity).
  rewrite E in Hv. exact Hv.
Defined.
