(* ===== verification/PublicationCapture.v ===== *)
(** The capture of the current corpus: one short read gives every registered source with
    its stored preparation, or names a source that has none, and what it gives is what a
    build may start from. *)

From stdpp Require Import gmap sorting.
From S2P Require Import Prelude Bytes Ids Registry SourceRow PreparationRow PublicationRow Database Control ControlSpec ControlRefine ControlState.
From S2P Require Import ControlSample ControlInventory PreparationControl PreparationSpec PreparationState Publication PublicationSpec PublicationLifecycle PublicationRefine.
From S2P Require Import PublicationHistory PublicationSample PublicationOutcome PublicationRead.

(** A source with a stored preparation of exactly this input. *)
Definition ready (ps : preparations) (r : CurrentSourceRecord) : Prop :=
  exists p o, ps !! source_id r = Some p /\ current_outcome p = Some o /\ matches_input o r (settings p) = true.

Definition captures (ps : preparations) (x : CapturedSource) : Prop :=
  ps !! source_id (captured_source x) = Some (captured_preparation x) /\ captured_matches x = true.

(** The bytes a capture of the sources reads. *)
Definition capture_charge (ps : preparations) (r : CurrentSourceRecord) : Z :=
  len (stored_row r) + match ps !! source_id r with Some p => len (row_bytes p) | None => 0 end.
Definition capture_bytes (ps : preparations) (l : list CurrentSourceRecord) : Z :=
  foldr (fun r n => capture_charge ps r + n) 0 l.

Lemma capture_charge_nonneg ps r : 0 <= capture_charge ps r.
Proof. unfold capture_charge, len. destruct (ps !! _); lia. Qed.
Lemma capture_bytes_nonneg ps l : 0 <= capture_bytes ps l.
Proof. unfold capture_bytes. induction l as [|r l IH]; cbn; [done|]. pose proof (capture_charge_nonneg ps r). lia. Qed.

(** What [corpus_rows] does to rows that are stored in the corpus. *)
Definition capture_failure (ps : preparations) (count bytes : Z) (l : list CurrentSourceRecord) (e : Pub.t) : Prop :=
  (e = Pub.Unprepared /\ exists r, r ∈ l /\ ~ ready ps r) \/
  (e = Pub.Limit /\ (MAX_SOURCES < count + len l \/ MAX_CAPTURE_BYTES < bytes + capture_bytes ps l)).

Lemma capture_failure_later ps count bytes r l e :
  capture_failure ps (count + 1) (bytes + capture_charge ps r) l e -> capture_failure ps count bytes (r :: l) e.
Proof.
  unfold capture_failure. rewrite len_cons. cbn [capture_bytes foldr]. fold (capture_bytes ps l). intros [[-> (s & Hs & Hn)]|[-> Hb]].
  - left. split; [done|]. exists s. split; [by right|done].
  - right. split; [done|]. destruct Hb; [left|right]; lia.
Qed.

Section Capture.
Context `{PublicationJson} {D : Type} `{Redb D}.
Implicit Types (d : D) (c : corpus) (ps : preparations).

Lemma corpus_rows_outcome d c ps n present l : forall charged acc,
  represents d c -> prepared c ps -> namespace c = Some n -> (present = false -> ps = ∅) -> Forall (stored_in c) l ->
  0 <= charged <= MAX_CAPTURE_BYTES -> len acc <= MAX_SOURCES ->
  outcome (corpus_rows d n present (row_item <$> l) charged acc)
    (fun out => exists caps, out = acc ++ caps /\ captured_source <$> caps = l /\ Forall (captures ps) caps /\
       len acc + len l <= MAX_SOURCES /\ charged + capture_bytes ps l <= MAX_CAPTURE_BYTES)
    (capture_failure ps (len acc) charged l).
Proof.
  induction l as [|r l IH]; intros charged acc Hr Hp Hn Hpres Hl Hc Ha; cbn [fmap list_fmap corpus_rows].
  { apply outcome_ret. exists []. change (len (@nil CurrentSourceRecord)) with 0. cbn. rewrite app_nil_r. split_and!; try done; try lia; constructor. }
  apply Forall_cons in Hl as [Hst Hl]. pose proof Hr as (_ & _ & Hh). pose proof Hh as (_ & _ & _ & _ & _ & Hprep & Hwf).
  pose proof Hwf as (_ & _ & Hrow & _). destruct (Hrow _ _ Hst) as (_ & Hns & Hok). destruct Hp as [Hpr Hps].
  destruct (stored_row_bytes r Hok) as [_ Hlen]. assert (0 <= len (stored_row r)) by apply len_nonneg.
  pose proof (capture_bytes_nonneg ps l) as Hpos. pose proof (capture_charge_nonneg ps r) as Hchp. pose proof (len_nonneg l).
  assert (capture_bytes ps (r :: l) = capture_charge ps r + capture_bytes ps l) as Hch by done.
  unfold row_item at 1. eapply outcome_seq; [apply publication_check_refines|]. eapply outcome_seq; [apply pub_call_refines|].
  rewrite checked_add_some by (unfold MAX_CAPTURE_BYTES in *; width). cbn [ok_or]. rewrite lift_ok_bind.
  apply Prelude.outcome_guard.
  { intros Hb. right. split; [done|]. rewrite len_cons, Hch. apply orb_true_iff in Hb as [Hb|Hb]; to_prop; [left; lia|right].
    unfold capture_charge in *. destruct (ps !! source_id r); unfold len in *; lia. }
  intros Hb. to_prop. rewrite (decode_row r Hok). cbn [map_err]. rewrite lift_ok_bind.
  rewrite (bool_decide_true (source_id r = source_id r)), (bool_decide_true (source_namespace_id r = n)) by congruence.
  cbn [negb orb reject_if]. rewrite lift_ok_bind. destruct present.
  2:{ cbn [negb reject_if]. apply outcome_pure; [done|]. intros e [= <-]. left. split; [done|]. exists r. split; [left|].
      rewrite (Hpres eq_refl). intros (p & o & Hx & _). by rewrite lookup_empty in Hx. }
  cbn [negb reject_if]. rewrite lift_ok_bind. eapply outcome_known; [apply refines_get; auto with eliot|].
  rewrite Hprep, Hpr, lookup_fmap. destruct (ps !! source_id r) as [p|] eqn:Hpp; cbn [fmap option_fmap option_map ok_or].
  2:{ apply outcome_pure; [done|]. intros e [= <-]. left. split; [done|]. exists r. split; [left|].
      intros (p & o & Hx & _). congruence. }
  rewrite lift_ok_bind. destruct (Hps _ _ Hpp) as (Hpw & Hpv & Hpid & Hpns & _). pose proof (row_bytes_len p Hpw) as Hpl.
  assert (0 <= len (row_bytes p)) by apply len_nonneg.
  assert (capture_charge ps r = len (stored_row r) + len (row_bytes p)) as Hcharge by (unfold capture_charge; by rewrite Hpp).
  rewrite checked_add_some by (unfold MAX_CAPTURE_BYTES in *; width). cbn [ok_or]. rewrite lift_ok_bind. apply Prelude.outcome_guard.
  { intros Hb2. to_prop. right. split; [done|]. right. lia. }
  intros Hb2. to_prop. assert (decode_preparation (row_bytes p) = Ok p) as ->.
  { apply decode_preparation_ok; [by apply row_bytes_ok|width|done]. }
  cbn [map_err]. rewrite lift_ok_bind. rewrite (bool_decide_true (prep_namespace p = n)), (bool_decide_true (prep_source_id p = source_id r)) by congruence.
  cbn [negb orb reject_if]. rewrite lift_ok_bind. apply Prelude.outcome_guard.
  { intros Hm. left. split; [done|]. exists r. split; [left|]. intros (p' & o & Hx & Ho & Hmo). rewrite Hpp in Hx. injection Hx as <-.
    by rewrite Ho, Hmo in Hm. }
  intros Hm. apply negb_false_iff in Hm. eapply outcome_seq; [apply refines_reserve; auto with eliot|].
  set (x := {| captured_source := r; captured_preparation := p |}).
  assert (captures ps x) as Hx.
  { split; [done|]. unfold captured_matches. cbn [captured_source captured_preparation x]. rewrite !bool_decide_true by congruence.
    destruct (current_outcome p); [|done]. exact Hm. }
  assert (len (acc ++ [x]) = len acc + 1) as Hla by by rewrite len_app.
  eapply outcome_weaken; [apply (IH (charged + len (stored_row r) + len (row_bytes p)) (acc ++ [x])); try done; lia| |].
  - intros out (caps & -> & Hcs & Hall & Hl1 & Hl2). exists (x :: caps). rewrite <- (assoc_L (++)), len_cons, fmap_cons, Hcs, Hch.
    split_and!; try done; [by constructor|lia|lia].
  - intros e He. apply capture_failure_later. rewrite Hla in He. by rewrite Hcharge, Z.add_assoc.
Qed.

(** What a capture says of the corpus and of the header it was read with. *)
Definition corpus_captured c g ps (cap : CorpusCapture) : Prop :=
  captured_source <$> Capture.sources cap = listing c /\ Forall (captures ps) (Capture.sources cap) /\
  len (listing c) <= MAX_SOURCES /\ capture_bytes ps (listing c) <= MAX_CAPTURE_BYTES /\
  Capture.state cap = header_or_default g /\ Capture.current cap = PublicationState.current (header_or_default g) /\
  Capture.pending cap = PublicationState.pending (header_or_default g) /\
  Capture.source_namespace cap = namespace c /\
  Capture.wanted_revision cap = match namespace c with Some _ => wanted c | None => 0 end.

Lemma source_error_interrupts {A} (m : M SourceControlError A) r :
  refines m (Ok r) -> refines (lift_err publication_source_error m) (Ok r).
Proof. intros Hm. exact (refines_lift_err publication_source_error m (Ok r) source_error_publication Hm). Qed.

Lemma wanted_revision_refines d c n : represents d c -> namespace c = Some n -> refines (wanted_revision d) (Ok (wanted c)).
Proof.
  intros Hr Hn. pose proof Hr as (_ & _ & _ & _ & Hw & _). unfold wanted_revision.
  eapply refines_seq; [apply (open_core d c n); [done|done|apply state_core|auto with eliot]|].
  eapply refines_bind_ok; [apply refines_get; auto with eliot|]. rewrite Hw. apply refines_lift.
Qed.

Lemma read_corpus_outcome d c g ps :
  denotes d c g -> prepared c ps ->
  outcome (read_corpus d) (corpus_captured c g ps) (capture_failure ps 0 0 (listing c)).
Proof.
  intros Hd Hp. pose proof Hd as (Hr & _). pose proof Hr as (Hm & Hcat & Hh). pose proof Hh as (_ & _ & _ & _ & _ & Hprep & Hwf).
  unfold read_corpus. eapply outcome_seq; [apply pub_call_refines|]. cbv zeta. eapply outcome_seq; [apply pub_call_refines|].
  rewrite Hm. destruct (list_tables_names d) as [Hnd Hin]. change (negb (len (@nil (list Z)) =? 0)) with false.
  rewrite (catalogue_ok (list_tables d) (names_of d) (initialized c)) by done. cbn [map_err]. rewrite lift_ok_bind.
  eapply outcome_known; [by eapply read_state_refines|].
  destruct (namespace c) as [n|] eqn:Hn.
  - rewrite (initialized_some c n) in * by done. eapply outcome_bind with (R := fun read => exists caps,
      read = (Some n, (wanted c, caps)) /\ captured_source <$> caps = listing c /\ Forall (captures ps) caps /\
      len (listing c) <= MAX_SOURCES /\ capture_bytes ps (listing c) <= MAX_CAPTURE_BYTES).
    + eapply outcome_known; [eapply source_error_interrupts, namespace_refines; done|]. cbn [ok_or]. rewrite lift_ok_bind.
      eapply outcome_known; [by eapply source_error_interrupts, wanted_revision_refines|].
      eapply outcome_seq; [apply refines_open_read; [auto with eliot|]; by apply (core_present _ _ Hcat), rows_core|].
      eapply outcome_known with (a := bool_decide (PREPARATIONS ∈ names_of d)).
      { unfold open_optional. eapply refines_seq; [apply pub_call_refines|]. rewrite listed. apply refines_ret. }
      eapply outcome_known; [apply refines_iterate; auto with eliot|]. rewrite (rows_iter d c) by done.
      eapply outcome_bind.
      { eapply outcome_weaken; [apply (corpus_rows_outcome d c ps n); try done|intros out Ho; exact Ho|].
        - intros Ha%bool_decide_eq_false_1. assert (rows_of d PREPARATIONS = ∅) as He.
          { unfold rows_of. unfold names_of in Ha. by rewrite (not_elem_of_dom_1 _ _ Ha). }
          rewrite Hprep, (proj1 Hp) in He. by apply fmap_empty_inv in He.
        - apply Forall_forall. intros r Hl. by apply listing_in.
        - done. }
      intros out (caps & -> & Hcs & Hall & Hl & Hb). apply outcome_ret. exists caps. by rewrite !Z.add_0_l in *.
    + intros read (caps & -> & Hcs & Hall & Hl & Hb). apply outcome_ret. unfold corpus_captured. cbn. by rewrite Hn.
  - unfold initialized in *. rewrite Hn, bool_decide_false in * by (by intros [? ?]).
    assert (listing c = []) as Hnil.
    { destruct (listing c) as [|r l] eqn:Hl; [done|]. assert (sources c !! source_id r = Some r) as Hs by (apply listing_in; [done|]; rewrite Hl; left).
      destruct Hwf as (_ & _ & Hrow & _). destruct (Hrow _ _ Hs) as (_ & ? & _). congruence. }
    eapply outcome_bind with (R := fun read => read = (None, (0, []))); [by apply outcome_ret|]. intros read ->. apply outcome_ret.
    unfold corpus_captured. rewrite Hnil, Hn. cbn. split_and!; try done; constructor.
Qed.

(** A capture is what a build may start from. *)
Lemma captured_sound d c g ps cap random :
  denotes d c g -> prepared c ps -> corpus_captured c g ps cap -> Uuid.wf random ->
  capture_sound cap (build_namespace cap random).
Proof.
  intros Hd [_ Hps] (Hl & Hall & Hlen & _ & Hst & _ & _ & Hns & Hw) Hrandom. destruct Hd as ((_ & _ & Hh) & _ & Hhead).
  pose proof Hh as (_ & _ & _ & _ & _ & _ & (Hnw & Hwb & Hrow & _)). refine (conj _ (conj _ (conj _ (conj _ _)))).
  - apply Forall_forall. intros x Hx. rewrite Forall_forall in Hall. destruct (Hall x Hx) as [Hpx Hmx].
    assert (captured_source x ∈ listing c) as Hin by (rewrite <- Hl; by apply list_elem_of_fmap_2).
    apply listing_in in Hin; [|apply Hh]. destruct (Hrow _ _ Hin) as (_ & _ & (Hrw & Hen & _)). destruct (Hps _ _ Hpx) as (Hpw & Hpv & _).
    by split_and!.
  - assert (len (Capture.sources cap) = len (listing c)) as -> by (rewrite <- Hl; unfold len; by rewrite length_fmap). done.
  - rewrite Hw. destruct (namespace c); [exact Hwb|width].
  - intros n Hn. rewrite Hns in Hn. by apply Hnw.
  - unfold build_namespace. by destruct (PublicationState.namespace (Capture.state cap)).
Qed.
End Capture.

(** C31. A capture is the whole corpus.  Over a database that stands for a corpus, its
    preparations and its generations, [capture_corpus] returns every registered source
    exactly once, in the order of identities, each with its stored preparation, whose
    outcome is of exactly this input and these settings; with the namespace, the wanted
    revision and the header of the same snapshot; and it satisfies all that [start_build]
    asks of a capture.  It refuses only because some source has no such outcome, or for a
    bound on the sources or their bytes, or when interrupted. *)
Theorem capture_corpus_complete `{PublicationJson} {D} `{Redb D} (d : D) (c : corpus) (g : generations) (ps : preparations)
    (w : env) (random : list Z) :
  denotes d c g -> prepared c ps -> Uuid.wf random ->
  match run (capture_corpus d) w with
  | Ok cap =>
      corpus_captured c g ps cap /\ capture_sound cap (build_namespace cap random) /\
      (forall r, sources c !! source_id r = Some r <-> r ∈ captured_source <$> Capture.sources cap)
  | Err e => capture_failure ps 0 0 (listing c) e \/ (interrupt e /\ ~ calm w)
  end.
Proof.
  intros Hd Hp Hrandom. destruct (outcome_observe d read_corpus _ _ (read_corpus_outcome d c g ps Hd Hp) w) as [Hout _].
  unfold capture_corpus. destruct (run _ w) as [cap|e]; [|exact Hout]. split; [exact Hout|]. split; [by eapply captured_sound|].
  intros r. destruct Hout as (-> & _). symmetry. apply listing_in. destruct Hd as ((_ & _ & Hh) & _). apply Hh.
Qed.

(** The registered sample with a ready preparation. *)
Definition sample_ready_row : CurrentPreparation :=
  with_outcome sample_row 1 (bind_outcome sample_preparation_capture sample_record (Ready sample_artifact)).
Definition sample_ready_corpus : corpus := with_preparation sample_prepared_corpus sample_id sample_ready_row 3.
Definition sample_ready_preparations : preparations := {[sample_id := sample_ready_row]}.
Definition sample_ready_store : store :=
  snd (fst (commit_preparation sample_prepared_store sample_preparation_capture (Ready sample_artifact) [])).

Lemma sample_ready_state : state_at sample_ready_store sample_ready_corpus sample_ready_preparations.
Proof.
  pose proof (commit_preparation_concluded sample_prepared_store sample_prepared_corpus sample_preparations sample_preparation_capture
    (Ready sample_artifact) [] sample_prepared_state sample_artifact_wf) as Hout.
  unfold sample_ready_store. destruct (commit_preparation _ _ _ []) as [[answer d'] w']. destruct Hout as (c' & ps' & Hst & Ha).
  assert (outcome_spec sample_prepared_corpus sample_preparations sample_preparation_capture (Ready sample_artifact)
    = Ok (sample_ready_row, Some sample_ready_corpus)) as Hs by (vm_compute; reflexivity).
  rewrite Hs in Ha. destruct answer as [row|e]; cbn in Ha.
  - destruct Ha as (next & [= <- <-] & -> & ->). exact Hst.
  - destruct Ha as [[? _]|[Hc _]]; [done|]. destruct Hc. constructor.
Qed.

Lemma sample_ready_denotes : denotes sample_ready_store sample_ready_corpus fresh /\ prepared sample_ready_corpus sample_ready_preparations.
Proof.
  destruct sample_ready_state as [Hr Hp]. split; [|exact Hp]. apply fresh_denotes; [exact Hr|].
  unfold unpublished. apply (bool_decide_eq_true_1 _). vm_compute. reflexivity.
Qed.

Lemma capture_corpus_complete_witness :
  (denotes sample_ready_store sample_ready_corpus fresh /\ prepared sample_ready_corpus sample_ready_preparations /\
   Uuid.wf sample_generation_namespace) /\
  exists cap, run (capture_corpus sample_ready_store) [] = Ok cap /\ capture_sound cap (build_namespace cap sample_generation_namespace) /\
    sample_record ∈ captured_source <$> Capture.sources cap.
Proof.
  destruct sample_ready_denotes as [Hd Hp]. assert (Uuid.wf sample_generation_namespace) as Hw by (split; closed_fact).
  split; [exact (conj Hd (conj Hp Hw))|].
  pose proof (capture_corpus_complete sample_ready_store sample_ready_corpus fresh sample_ready_preparations []
    sample_generation_namespace Hd Hp Hw) as Hc.
  assert (is_ok (run (capture_corpus sample_ready_store) []) = true) as E by (vm_compute; reflexivity).
  destruct (run (capture_corpus sample_ready_store) []) as [cap|e]; [|discriminate E]. exists cap.
  destruct Hc as (_ & Hs & Hin). split; [reflexivity|]. split; [exact Hs|]. apply Hin. vm_compute. reflexivity.
Defined.
