(* ===== verification/VerifiedQuery.v ===== *)
(** The search executor of [eliot-searchd]: server nominations resolved and verified
    against one pinned published generation (bins/eliot-searchd/src/verified_query.rs). *)

From stdpp Require Import gmap.
From S2P Require Import Prelude Bytes Utf8 Ids Registry Layout Prepared.
From S2P Require Import Dto DtoFacts SourceRow PreparationRow PublicationRow ObjectStore Literal ExactResult RawExact DecodedExact Qdrant.

Local Abbreviation take := List.firstn.

(** [QueryFailure::publication], [QueryFailure::backend] and [QueryFailure::root]. *)
Definition publication_failure (e : Pub.t) : QueryFailure :=
  match e with
  | Pub.Cancelled => QueryCancelled
  | Pub.Deadline => QueryDeadline
  | other => Code (Pub.code other)
  end.
Definition backend_failure (e : Back.t) : QueryFailure :=
  match e with
  | Back.Cancelled => QueryCancelled
  | Back.Deadline => QueryDeadline
  | other => Code (Back.code other)
  end.
Definition root_failure (e : PlainRootError.t) : QueryFailure :=
  match e with
  | PlainRootError.Cancelled => QueryCancelled
  | PlainRootError.Deadline => QueryDeadline
  | PlainRootError.Busy => Code (str "ROOT_BUSY")
  | PlainRootError.Absent => Code (str "ROOT_ABSENT")
  | PlainRootError.InvalidPath => Code (str "ROOT_INVALID_PATH")
  | PlainRootError.Unsupported => Code (str "ROOT_UNSUPPORTED")
  | PlainRootError.Corrupt => Code (str "ROOT_CORRUPT")
  | PlainRootError.NeedsRepair => Code (str "ROOT_NEEDS_REPAIR")
  | PlainRootError.Archive => Code (str "ROOT_ARCHIVE")
  | PlainRootError.IncompleteImport => Code (str "ROOT_INCOMPLETE_IMPORT")
  | PlainRootError.WrongState => Code (str "ROOT_WRONG_STATE")
  | PlainRootError.AlreadyExists => Code (str "ROOT_ALREADY_EXISTS")
  | PlainRootError.Io => Code (str "ROOT_IO")
  | PlainRootError.TooLarge => Code (str "ROOT_TOO_LARGE")
  | PlainRootError.Unavailable => Code (str "ROOT_UNAVAILABLE")
  | PlainRootError.ProbeLimit => Code (str "ROOT_PROBE_LIMIT")
  end.

(** What the query side uses of a pinned view: the executors' inventory, the collection of
    the generation, one captured source, one resolved point. *)
Record View := {
  pinned : PublishedView;
  view_collection : list Z;
  view_source : list Z -> M Pub.t CapturedSource;
  resolve_point : list Z -> M Pub.t ResolvedPoint.t }.

Record RankedPoint := { rank : Z; hit : Hit.t; resolved : ResolvedPoint.t }.

Definition object_metadata (reference : ObjectRef) : ObjectRefDto.t :=
  {| ObjectRefDto.version := format_version reference; ObjectRefDto.kind := dto_kind (kind reference);
     ObjectRefDto.digest := hex_encode (digest reference); ObjectRefDto.bytes := byte_length reference |}.

Definition metadata (generation : Z) (point : RankedPoint) : EvidenceMetadata.t :=
  let e := ResolvedPoint.evidence (resolved point) in
  {| EvidenceMetadata.generation := generation;
     EvidenceMetadata.point_id := hex_encode (Hit.id (hit point));
     EvidenceMetadata.source_namespace_id := Uuid.display (PointEvidence.source_namespace_id e);
     EvidenceMetadata.source_id := Uuid.display (PointEvidence.source_id e);
     EvidenceMetadata.input := object_metadata (PointEvidence.input e);
     EvidenceMetadata.prepared := object_metadata (PointEvidence.prepared e);
     EvidenceMetadata.unit_ordinal := PointEvidence.unit e;
     EvidenceMetadata.start := PointEvidence.start e; EvidenceMetadata.stop := PointEvidence.stop e;
     EvidenceMetadata.line_start := PointEvidence.line_start e; EvidenceMetadata.line_end := PointEvidence.line_end e;
     EvidenceMetadata.starts_at_line_boundary := PointEvidence.starts_at_line_boundary e;
     EvidenceMetadata.ends_at_line_boundary := PointEvidence.ends_at_line_boundary e |}.

(** [gap] *)
Definition search_gap (generation : Z) (point : RankedPoint) (code : list Z) : result QueryFailure SearchItem.t :=
  code ← map_err (fun _ => Code (str "QUERY_INTERNAL_ERROR")) (FailureCode.new code);
  Ok (SearchItem.Gap {| SearchGap.rank := rank point; SearchGap.score := Hit.score (hit point);
        SearchGap.evidence := metadata generation point; SearchGap.code := code |}).

Definition search_hit (generation : Z) (point : RankedPoint) (text : list Z) : SearchItem.t :=
  SearchItem.Hit {| SearchHit.rank := rank point; SearchHit.score := Hit.score (hit point);
    SearchHit.evidence := metadata generation point; SearchHit.unit_text := text |}.

(** [same_group] *)
Definition same_group (left right : RankedPoint) : bool :=
  bool_decide (ResolvedPoint.captured (resolved left) = ResolvedPoint.captured (resolved right))
  && bool_decide (PointEvidence.prepared (ResolvedPoint.evidence (resolved left))
                  = PointEvidence.prepared (ResolvedPoint.evidence (resolved right))).

Definition evidence_range_invalid : QueryFailure := Code (str "EVIDENCE_RANGE_INVALID").
Definition text_mismatch : QueryFailure := Code (str "EVIDENCE_TEXT_MISMATCH").

Definition verify_unit (source : list Z) (prepared : PreparedUtf8) (e : PointEvidence)
    : result QueryFailure (list Z) :=
  ordinal ← ok_or evidence_range_invalid (try_from USIZE_MAX (PointEvidence.unit e));
  unit ← ok_or evidence_range_invalid (at_ (prepared_units prepared) ordinal);
  _ ← reject_if (negb (bool_decide (try_from U64_MAX (unit_start unit) = Some (PointEvidence.start e)))
        || negb (bool_decide (try_from U64_MAX (unit_end unit) = Some (PointEvidence.stop e)))
        || negb (logical_line_start unit =? PointEvidence.line_start e)
        || negb (logical_line_end unit =? PointEvidence.line_end e)
        || negb (eqb (starts_at_line_boundary unit) (PointEvidence.starts_at_line_boundary e))
        || negb (eqb (ends_at_line_boundary unit) (PointEvidence.ends_at_line_boundary e)))
        (Code (str "EVIDENCE_RANGE_MISMATCH"));
  text ← ok_or evidence_range_invalid (str_get (prepared_text prepared) (unit_start unit) (unit_end unit));
  original ← ok_or evidence_range_invalid (slice source (unit_start unit) (unit_end unit));
  _ ← reject_if (negb (bool_decide (original = text)) || (65536 <? len text)) text_mismatch;
  Ok text.

Abbreviation slots := (list (option SearchItem.t)).

Section Query.
Context (blake3 : list Z -> list Z) (root : directory).

(** [for index in indices { slots\[index\] = Some(gap(..)?) }] *)
Fixpoint gap_loop (generation : Z) (code : list Z) (points : list RankedPoint) (indices : list Z) (s : slots)
    : result QueryFailure slots :=
  match indices with
  | [] => Ok s
  | index :: indices =>
      point ← ok_or PANIC (at_ points index);
      item ← search_gap generation point code;
      gap_loop generation code points indices (<[Z.to_nat index := Some item]> s)
  end.
(** The last loop of [fill_group]. *)
Fixpoint hit_loop (generation : Z) (source : list Z) (prepared : PreparedUtf8) (points : list RankedPoint)
    (indices : list Z) (s : slots) : M QueryFailure slots :=
  match indices with
  | [] => mret s
  | index :: indices =>
      _ ← query_check;
      point ← lift (ok_or PANIC (at_ points index));
      text ← lift (verify_unit source prepared (ResolvedPoint.evidence (resolved point)));
      _ ← reserve_with allocation_failed;
      hit_loop generation source prepared points indices
        (<[Z.to_nat index := Some (search_hit generation point text)]> s)
  end.

(** The positions of the points in the group of [first]. *)
Definition group_indices (first : RankedPoint) (points : list RankedPoint) : list Z :=
  List.filter (fun i => match at_ points i with Some p => same_group first p | None => false end)
    (seqZ 0 (len points)).

Definition fill_group (generation first : Z) (points : list RankedPoint) (s : slots) : M QueryFailure slots :=
  leader ← lift (ok_or PANIC (at_ points first));
  let binding := resolved leader in
  let indices := group_indices leader points in
  match_result (read_object blake3 root (PointEvidence.input (ResolvedPoint.evidence binding)) MAX_SOURCE_OBJECT_BYTES)
    (fun read =>
    match read with
    | Err Missing => lift (gap_loop generation (str "SOURCE_OBJECT_MISSING") points indices s)
    | Err e => fail (object_failure e)
    | Ok source =>
        match_result (read_object blake3 root (PointEvidence.prepared (ResolvedPoint.evidence binding)) (64 * 1024 * 1024))
          (fun read =>
          match read with
          | Err Missing => lift (gap_loop generation (str "PREPARED_OBJECT_MISSING") points indices s)
          | Err e => fail (object_failure e)
          | Ok artifact =>
              prepared ← lift_err decode_failure
                (decode_prepared_utf8 blake3 artifact (captured_source (ResolvedPoint.captured binding))
                   (settings (captured_preparation (ResolvedPoint.captured binding))) decoded_limits);
              _ ← lift (reject_if (negb (bool_decide (prepared_text prepared = source))) text_mismatch);
              hit_loop generation source prepared points indices s
          end)
    end).

(** [for index in 0..points.len()], from [index] on. *)
Fixpoint items_loop (generation : Z) (points : list RankedPoint) (n : nat) (index : Z) (s : slots)
    : M QueryFailure (list SearchItem.t) :=
  match n with
  | O => mret []
  | S n =>
      s ← (if bool_decide (mjoin (at_ s index) = None) then fill_group generation index points s else mret s);
      item ← lift (ok_or (Code (str "QUERY_INTERNAL_ERROR")) (mjoin (at_ s index)));
      rest ← items_loop generation points n (index + 1) (<[Z.to_nat index := None]> s);
      mret (item :: rest)
  end.

(** [for (index, hit) in hits.into_iter().enumerate()] *)
Fixpoint resolve_loop (view : View) (index : Z) (hits : list Hit.t) : M QueryFailure (list RankedPoint) :=
  match hits with
  | [] => mret []
  | hit :: hits =>
      _ ← query_check;
      resolved ← lift_err publication_failure (resolve_point view (Hit.id hit));
      _ ← lift (reject_if (negb (bool_decide (Hit.source_id hit
                  = PointEvidence.source_id (ResolvedPoint.evidence resolved)))
                || negb (is_finite (Hit.score hit))) (Code (str "QUERY_POINT_ROUTE_MISMATCH")));
      rank ← lift (ok_or (Code (str "QUERY_LIMIT")) (try_from U8_MAX (index + 1)));
      rest ← resolve_loop view (index + 1) hits;
      mret ({| rank := rank; hit := hit; resolved := resolved |} :: rest)
  end.

(** [published_corpus::api_key]: [None] when the variable is absent, [Some None] when it is
    not Unicode. *)
Definition api_key (variable : option (option (list Z))) : result (list Z) (option (list Z)) :=
  match variable with
  | None => Ok None
  | Some value =>
      value ← ok_or (str "BACKEND_AUTHENTICATION_FAILED") value;
      _ ← reject_if ((len value =? 0) || (4096 <? len value) || bool_decide (0 ∈ value))
            (str "BACKEND_AUTHENTICATION_FAILED");
      Ok (Some value)
  end.

Context `{Prost UpsertPoints, Prost Named, Prost GetPoints, Prost QueryPoints, Prost Probe}.
(** The credential's environment variable, the server, and whether the thread runs inside
    an async runtime. *)
Context (variable : option (option (list Z))) (server : Connection) (channel : Channel) (in_runtime : bool).

(** The part of [execute] before the points are verified. *)
Definition nominate (view : View) (endpoint : list Z) (request : SearchRequest.t) : M QueryFailure (list RankedPoint) :=
  _ ← query_check;
  _ ← lift (map_err protocol_failure (SearchRequest.validate request));
  key ← lift (map_err Code (api_key variable));
  _ ← lift_err backend_failure (connect default_limits server in_runtime endpoint key);
  _ ← lift_err backend_failure (verify_schema default_limits channel in_runtime (view_collection view));
  hits ← lift_err backend_failure
           (query_text default_limits channel in_runtime (view_collection view)
              (SearchRequest.query request) (SearchRequest.limit request));
  _ ← reserve_with allocation_failed;
  resolve_loop view 0 hits.

(** [execute] *)
Definition search_execute (view : View) (endpoint : list Z) (request : SearchRequest.t)
    : M QueryFailure (list SearchItem.t) :=
  points ← nominate view endpoint request;
  _ ← reserve_with allocation_failed;
  items ← items_loop (view_generation (pinned view)) points (length points) 0 (replicate (length points) None);
  _ ← query_check;
  mret items.
End Query.

(** ** Specification *)

Section QuerySpec.
Context (blake3 : list Z -> list Z) (root : directory) (generation : Z).

(** What one resolved point is answered with, on its own. *)
Definition search_report (p : RankedPoint) : result QueryFailure SearchItem.t :=
  let e := ResolvedPoint.evidence (resolved p) in
  let c := ResolvedPoint.captured (resolved p) in
  match object_at blake3 root (PointEvidence.input e) MAX_SOURCE_OBJECT_BYTES with
  | Err Missing => search_gap generation p (str "SOURCE_OBJECT_MISSING")
  | Err e => Err (object_failure e)
  | Ok source =>
      match object_at blake3 root (PointEvidence.prepared e) (64 * 1024 * 1024) with
      | Err Missing => search_gap generation p (str "PREPARED_OBJECT_MISSING")
      | Err e => Err (object_failure e)
      | Ok artifact =>
          prepared ← map_err decode_failure
            (run (decode_prepared_utf8 blake3 artifact (captured_source c) (settings (captured_preparation c)) decoded_limits) []);
          _ ← reject_if (negb (bool_decide (prepared_text prepared = source))) text_mismatch;
          text ← verify_unit source prepared e;
          Ok (search_hit generation p text)
      end
  end.

(** What the view promises of a point it resolves: the evidence is bound to the captured
    source and to its ready preparation, and both references are readable ones. *)
Definition point_bound (r : ResolvedPoint.t) : Prop :=
  let e := ResolvedPoint.evidence r in
  let s := captured_source (ResolvedPoint.captured r) in
  PointEvidence.source_id e = source_id s /\ PointEvidence.source_namespace_id e = source_namespace_id s /\
  PointEvidence.input e = object_ref s /\ 0 <= byte_length (PointEvidence.input e) /\
  0 <= byte_length (PointEvidence.prepared e).

Lemma search_gap_missing p code :
  code = str "SOURCE_OBJECT_MISSING" \/ code = str "PREPARED_OBJECT_MISSING" ->
  search_gap generation p code =
  Ok (SearchItem.Gap {| SearchGap.rank := rank p; SearchGap.score := Hit.score (hit p);
        SearchGap.evidence := metadata generation p; SearchGap.code := code |}).
Proof. intros [-> | ->]; reflexivity. Qed.

(** Slots hold the answers of some points and nothing else. *)
Definition slot_answers (points : list RankedPoint) (s : slots) : Prop :=
  length s = length points /\
  forall i p o, points !! i = Some p -> s !! i = Some o ->
    match o with None => True | Some item => search_report p = Ok item end.

Lemma group_member first points i :
  i ∈ group_indices first points <->
  exists p, at_ points i = Some p /\ same_group first p = true.
Proof.
  unfold group_indices. rewrite list_elem_of_In, filter_In, <- list_elem_of_In, elem_of_seqZ. split.
  - intros [_ Hp]. destruct (at_ points i) as [p|]; [by exists p|done].
  - intros (p & Hp & Hg). rewrite Hp. split; [|done]. unfold at_ in Hp.
    destruct (0 <=? i) eqn:Hi; [|done]. to_prop. apply lookup_lt_Some in Hp. unfold len. lia.
Qed.

(** Filling the slots of a list of positions whose points are answered by [f]. *)
Lemma slots_step points s i p item :
  slot_answers points s -> at_ points i = Some p -> search_report p = Ok item ->
  slot_answers points (<[Z.to_nat i := Some item]> s).
Proof.
  intros [Hl Hs] Hp Hr. split; [by rewrite length_insert|]. intros j q o Hq Ho.
  unfold at_ in Hp. destruct (0 <=? i); [|done]. destruct (decide (j = Z.to_nat i)) as [->|Hne].
  - rewrite list_lookup_insert_eq in Ho by (rewrite Hl; by eapply lookup_lt_Some). injection Ho as <-. congruence.
  - rewrite list_lookup_insert_ne in Ho by done. by eapply Hs.
Qed.

Definition filled (s : slots) (i : Z) : Prop := exists item, at_ s i = Some (Some item).
Definition failing (points : list RankedPoint) (e : QueryFailure) : Prop :=
  exists p, p ∈ points /\ search_report p = Err e.

Lemma at_elem {A} (l : list A) i x : at_ l i = Some x -> x ∈ l.
Proof. unfold at_. destruct (0 <=? i); [|done]. apply list_elem_of_lookup_2. Qed.

Lemma filled_step points s i j p item :
  slot_answers points s -> at_ points i = Some p -> filled s j \/ j = i ->
  filled (<[Z.to_nat i := Some item]> s) j.
Proof.
  intros [Hl _] Hp Hj. unfold filled, at_ in *. destruct (0 <=? i) eqn:Hi; [|done].
  assert (Z.to_nat i < length s)%nat as Hlt by (rewrite Hl; by eapply lookup_lt_Some).
  destruct (decide (Z.to_nat j = Z.to_nat i)) as [Heq|Hne].
  - rewrite Heq, list_lookup_insert_eq by done. exists item. destruct Hj as [(o & Ho)| ->]; [|by rewrite Hi].
    by destruct (0 <=? j).
  - rewrite list_lookup_insert_ne by done. destruct Hj as [(o & Ho)| ->]; [by exists o|done].
Qed.

Lemma gap_loop_ok code points indices : forall s,
  (forall i, i ∈ indices -> exists p item, at_ points i = Some p /\ search_gap generation p code = Ok item /\
     search_report p = Ok item) ->
  slot_answers points s ->
  exists s', gap_loop generation code points indices s = Ok s' /\ slot_answers points s' /\
    (forall i, filled s i \/ i ∈ indices -> filled s' i).
Proof.
  induction indices as [|index indices IH]; intros s Hp Hs.
  { exists s. split_and!; [done|done|]. intros i [?|?%not_elem_of_nil]; done. }
  destruct (Hp index ltac:(left)) as (p & item & Hat & Hgap & Hrep). cbn [gap_loop].
  rewrite Hat. cbn [ok_or mbind result_bind]. rewrite Hgap. cbn [mbind result_bind].
  destruct (IH (<[Z.to_nat index := Some item]> s)) as (s' & Hrun & Hs' & Hf).
  { intros i Hi. apply Hp. by right. }
  { by eapply slots_step. }
  exists s'. split_and!; [done|done|]. intros i Hi. apply Hf.
  destruct Hi as [Hi|[-> |Hi]%elem_of_cons]; [left|left|by right]; eapply filled_step; eauto.
Qed.

Lemma hit_loop_outcome source prepared points indices : forall s,
  (forall i, i ∈ indices -> exists p, at_ points i = Some p /\
     search_report p = (text ← verify_unit source prepared (ResolvedPoint.evidence (resolved p));
                        Ok (search_hit generation p text))) ->
  slot_answers points s ->
  outcome (hit_loop generation source prepared points indices s)
    (fun s' => slot_answers points s' /\ forall i, filled s i \/ i ∈ indices -> filled s' i) (failing points).
Proof.
  induction indices as [|index indices IH]; intros s Hp Hs; cbn [hit_loop].
  { apply outcome_ret. split; [done|]. intros i [?|?%not_elem_of_nil]; done. }
  destruct (Hp index ltac:(left)) as (p & Hat & Hrep).
  apply outcome_seq; [apply refines_check; auto with eliot|]. rewrite Hat. cbn [ok_or]. rewrite lift_ok_bind.
  apply outcome_pure.
  2:{ intros e He. exists p. split; [by eapply at_elem|]. by rewrite Hrep, He. }
  intros text Ht. rewrite Ht in Hrep. cbn in Hrep.
  apply outcome_seq; [apply refines_reserve; auto with eliot|].
  eapply outcome_weaken; [apply IH| |done].
  - intros i Hi. apply Hp. by right.
  - by eapply slots_step.
  - intros s' [Hs' Hf]. split; [done|]. intros i Hi. apply Hf.
    destruct Hi as [Hi|[-> |Hi]%elem_of_cons]; [left|left|by right]; eapply filled_step; eauto.
Qed.

Lemma object_interrupts {A} (m : M QueryFailure A) e :
  interrupt e -> (e <> Missing -> m = fail (object_failure e)) -> exists f, m = fail f /\ interrupt f.
Proof.
  intros He Hm. exists (object_failure e). split; [|by apply object_failure_interrupt].
  apply Hm. intros ->. by destruct He as [|[|]].
Qed.

Lemma fill_group_outcome points first s :
  Forall (fun p => point_bound (resolved p)) points -> slot_answers points s -> 0 <= first < len points ->
  outcome (fill_group blake3 root generation first points s)
    (fun s' => slot_answers points s' /\ filled s' first) (failing points).
Proof.
  intros Hb Hs Hfirst. destruct (lookup_lt_is_Some_2 points (Z.to_nat first)) as [leader Hat]; [unfold len in *; lia|].
  assert (at_ points first = Some leader) as Hat' by (unfold at_; by replace (0 <=? first) with true by lia).
  assert (first ∈ group_indices leader points) as Hin.
  { apply group_member. exists leader. split; [done|]. unfold same_group. by rewrite !bool_decide_true. }
  assert (forall i, i ∈ group_indices leader points -> exists p, at_ points i = Some p /\
    ResolvedPoint.captured (resolved p) = ResolvedPoint.captured (resolved leader) /\
    PointEvidence.prepared (ResolvedPoint.evidence (resolved p)) = PointEvidence.prepared (ResolvedPoint.evidence (resolved leader)) /\
    PointEvidence.input (ResolvedPoint.evidence (resolved p)) = PointEvidence.input (ResolvedPoint.evidence (resolved leader))) as Hgroup.
  { intros i (p & Hp & Hg)%group_member. exists p. unfold same_group in Hg. to_prop.
    rewrite Forall_forall in Hb. destruct (Hb p (at_elem _ _ _ Hp)) as (_ & _ & Hi & _).
    destruct (Hb leader (at_elem _ _ _ Hat')) as (_ & _ & Hi' & _). split_and!; congruence. }
  rewrite Forall_forall in Hb. destruct (Hb leader (at_elem _ _ _ Hat')) as (_ & _ & _ & Hi0 & Hp0).
  assert (forall e, search_report leader = Err e -> failing points e) as Hlead.
  { intros e He. exists leader. split; [by eapply at_elem|done]. }
  assert (forall code, code = str "SOURCE_OBJECT_MISSING" \/ code = str "PREPARED_OBJECT_MISSING" ->
    (forall i p, i ∈ group_indices leader points -> at_ points i = Some p -> search_report p = search_gap generation p code) ->
    outcome (lift (gap_loop generation code points (group_indices leader points) s))
      (fun s' => slot_answers points s' /\ filled s' first) (failing points)) as Hgaps.
  { intros code Hcode Hall. destruct (gap_loop_ok code points (group_indices leader points) s) as (s' & Hrun & Hs' & Hf); [|done|].
    - intros i Hi. destruct (Hgroup i Hi) as (p & Hp & _). exists p. eexists. rewrite (Hall i p Hi Hp).
      rewrite search_gap_missing by done. by split_and!.
    - rewrite Hrun. apply outcome_ret. split; [done|]. apply Hf. by right. }
  unfold fill_group. rewrite Hat'. cbn [ok_or]. rewrite lift_ok_bind. cbv zeta.
  eapply outcome_match; [apply read_object_refines; [done|unfold MAX_SOURCE_OBJECT_BYTES; width]| |].
  { intros e He. apply (object_interrupts _ e He). by destruct e. }
  destruct (object_at _ _ (PointEvidence.input _) _) as [source|e] eqn:Hsrc.
  2:{ destruct e; try (apply outcome_fail, Hlead; unfold search_report; by rewrite Hsrc).
      apply Hgaps; [by left|]. intros i p Hi Hp. destruct (Hgroup i Hi) as (q & Hq & _ & _ & Hin').
      assert (q = p) as -> by congruence. unfold search_report. by rewrite Hin', Hsrc. }
  eapply outcome_match; [apply read_object_refines; [done|width]| |].
  { intros e He. apply (object_interrupts _ e He). by destruct e. }
  destruct (object_at _ _ (PointEvidence.prepared _) _) as [artifact|e] eqn:Hart.
  2:{ destruct e; try (apply outcome_fail, Hlead; unfold search_report; by rewrite Hsrc, Hart).
      apply Hgaps; [by right|]. intros i p Hi Hp. destruct (Hgroup i Hi) as (q & Hq & _ & Hpr & Hin').
      assert (q = p) as -> by congruence. unfold search_report. by rewrite Hin', Hsrc, Hpr, Hart. }
  pose proof (refines_lift_err decode_failure _ _ decode_failure_interrupt
    (decode_prepared_uniform blake3 artifact (captured_source (ResolvedPoint.captured (resolved leader)))
       (settings (captured_preparation (ResolvedPoint.captured (resolved leader)))) decoded_limits)) as Hdec.
  destruct (run (decode_prepared_utf8 _ _ _ _ _) []) as [prepared|e] eqn:Hrun; cbn [map_err] in Hdec.
  2:{ apply (outcome_bind _ _ (fun _ => False)); [|done]. eapply outcome_refines; [exact Hdec|done|].
      intros e' [= <-]. apply Hlead. unfold search_report. by rewrite Hsrc, Hart, Hrun. }
  eapply outcome_known; [exact Hdec|]. apply outcome_guard.
  { intros Hne. apply Hlead. unfold search_report. rewrite Hsrc, Hart, Hrun. cbn. by rewrite Hne. }
  intros Heq. eapply outcome_weaken; [apply hit_loop_outcome; [|done]| |done].
  - intros i Hi. destruct (Hgroup i Hi) as (p & Hp & Hc & Hpr & Hinp). exists p. split; [done|].
    unfold search_report. rewrite Hinp, Hsrc, Hpr, Hart, Hc, Hrun. cbn. by rewrite Heq.
  - intros s' [Hs' Hf]. split; [done|]. apply Hf. by right.
Qed.

Lemma items_loop_outcome points n : forall index s,
  Forall (fun p => point_bound (resolved p)) points -> 0 <= index -> index + Z.of_nat n = len points ->
  slot_answers points s ->
  outcome (items_loop blake3 root generation points n index s)
    (fun items => mapM search_report (drop (Z.to_nat index) points) = Ok items) (failing points).
Proof.
  induction n as [|n IH]; intros index s Hb H0 Hn Hs; cbn [items_loop].
  { apply outcome_ret. rewrite drop_ge by (unfold len in *; lia). done. }
  destruct (lookup_lt_is_Some_2 points (Z.to_nat index)) as [p Hp]; [unfold len in *; lia|].
  apply (outcome_bind _ _ (fun s' => slot_answers points s' /\ filled s' index)).
  { case_bool_decide as Hnone; [apply fill_group_outcome; [done|done|lia]|].
    apply outcome_ret. split; [done|]. destruct (at_ s index) as [[item|]|] eqn:Hat; [by exists item|done|done]. }
  intros s' [Hs' (item & Hat)]. rewrite Hat. cbn [mjoin option_join ok_or]. rewrite lift_ok_bind.
  assert (search_report p = Ok item) as Hrep.
  { destruct Hs' as [_ Hs']. unfold at_ in Hat. destruct (0 <=? index); [|done]. by apply (Hs' _ _ _ Hp Hat). }
  eapply outcome_bind; [apply IH; [done|lia|lia|]|].
  - destruct Hs' as [Hl Hs']. split; [by rewrite length_insert|]. intros i q o Hq Ho.
    destruct (decide (i = Z.to_nat index)) as [->|Hne].
    + rewrite list_lookup_insert_eq in Ho; [by injection Ho as <-|]. rewrite Hl. unfold len in *. lia.
    + rewrite list_lookup_insert_ne in Ho by done. by eapply Hs'.
  - intros rest Hrest. apply outcome_ret. rewrite (drop_S _ _ _ Hp). cbn [mapM].
    replace (S (Z.to_nat index)) with (Z.to_nat (index + 1)) by lia. rewrite Hrep. cbn [mbind result_bind].
    by rewrite Hrest.
Qed.

(** ** What one answer is *)

(** A hit's text is the stored source at the evidence's range; a gap names an object that
    is not there. *)
Definition answer_true (p : RankedPoint) (item : SearchItem.t) : Prop :=
  let e := ResolvedPoint.evidence (resolved p) in
  match item with
  | SearchItem.Hit h =>
      h = {| SearchHit.rank := rank p; SearchHit.score := Hit.score (hit p);
             SearchHit.evidence := metadata generation p; SearchHit.unit_text := SearchHit.unit_text h |} /\
      exists source, object_at blake3 root (PointEvidence.input e) MAX_SOURCE_OBJECT_BYTES = Ok source /\
        slice source (PointEvidence.start e) (PointEvidence.stop e) = Some (SearchHit.unit_text h) /\
        utf8_valid source = true /\ len (SearchHit.unit_text h) <= 65536
  | SearchItem.Gap g =>
      g = {| SearchGap.rank := rank p; SearchGap.score := Hit.score (hit p);
             SearchGap.evidence := metadata generation p; SearchGap.code := SearchGap.code g |} /\
      ((SearchGap.code g = str "SOURCE_OBJECT_MISSING" /\
        object_at blake3 root (PointEvidence.input e) MAX_SOURCE_OBJECT_BYTES = Err Missing) \/
       (SearchGap.code g = str "PREPARED_OBJECT_MISSING" /\
        object_at blake3 root (PointEvidence.prepared e) (64 * 1024 * 1024) = Err Missing))
  end.

Lemma verify_unit_ok source prepared e text :
  verify_unit source prepared e = Ok text ->
  slice source (PointEvidence.start e) (PointEvidence.stop e) = Some text /\ len text <= 65536.
Proof.
  unfold verify_unit. intros H. apply bind_ok_inv in H as (ordinal & _ & H).
  apply bind_ok_inv in H as (unit & _ & H). apply bind_ok_inv in H as ([] & Hg%reject_if_ok & H).
  apply bind_ok_inv in H as (t & _ & H). apply bind_ok_inv in H as (original & Ho%ok_or_inv & H).
  apply bind_ok_inv in H as ([] & Hm%reject_if_ok & H). apply ok_inj in H as <-. to_prop.
  repeat match goal with K : try_from _ _ = Some _ |- _ => apply try_from_inv in K as [K _] end.
  split; [congruence|done].
Qed.

Lemma search_report_true p item : search_report p = Ok item -> answer_true p item.
Proof.
  unfold search_report. destruct (object_at _ _ (PointEvidence.input _) _) as [source|e] eqn:Hs.
  2:{ destruct e; try done. rewrite search_gap_missing by (by left). intros [= <-]. cbn. eauto. }
  destruct (object_at _ _ (PointEvidence.prepared _) _) as [artifact|e] eqn:Ha.
  2:{ destruct e; try done. rewrite search_gap_missing by (by right). intros [= <-]. cbn. eauto. }
  intros H. apply bind_ok_inv in H as (prepared & Hp%map_err_ok & H).
  apply bind_ok_inv in H as ([] & Hg%reject_if_ok & H). apply bind_ok_inv in H as (text & Ht & H).
  apply ok_inj in H as <-. to_prop. apply verify_unit_ok in Ht as [Hsl Hlen]. split; [done|].
  exists source. split_and!; [done|done| |done]. rewrite <- Hg. by eapply decode_prepared_valid.
Qed.
End QuerySpec.

(** ** Answers pass the wire's validation *)

Lemma le_value_snoc l b : le_value (l ++ [b]) = le_value l + 256 ^ len l * b.
Proof.
  induction l as [|x l IH]; [cbn [app]; unfold le_value; change (256 ^ len []) with 1; lia|].
  change (le_value ((x :: l) ++ [b])) with (x + 256 * le_value (l ++ [b])).
  change (le_value (x :: l)) with (x + 256 * le_value l). rewrite IH, len_cons, Z.pow_add_r by (pose proof (len_nonneg l); lia).
  lia.
Qed.

Lemma be_value_cons b l : be_value (b :: l) = b * 256 ^ len l + be_value l.
Proof. unfold be_value. cbn [rev]. rewrite le_value_snoc. unfold len. rewrite length_rev. lia. Qed.

Lemma radix16_pair b v rest :
  is_byte b -> 0 <= v -> v * 256 + b <= U64_MAX ->
  radix16_loop v (hex_pair b ++ rest) = radix16_loop (v * 256 + b) rest.
Proof.
  intros Hb H0 Hmax.
  assert (radix16_digit (hex_digit (Z.shiftr b 4)) = Some (Z.shiftr b 4) /\
          radix16_digit (hex_digit (Z.land b 15)) = Some (Z.land b 15)) as [Hh Hl].
  { clear Hmax. split; revert b Hb; refine (forall_bytes_dec _ _); by vm_compute. }
  destruct (hex_pair_value b Hb) as (_ & _ & Hj & _). unfold is_byte in Hb.
  assert (0 <= Z.shiftr b 4 /\ 0 <= Z.land b 15) as [? ?]
    by (split; [apply Z.shiftr_nonneg|apply Z.land_nonneg]; lia).
  unfold hex_pair. cbn [app radix16_loop]. rewrite Hh. cbn [mbind option_bind].
  rewrite checked_mul_some by lia. cbn [mbind option_bind]. rewrite checked_add_some by lia. cbn [mbind option_bind].
  rewrite Hl. cbn [mbind option_bind]. rewrite checked_mul_some by lia. cbn [mbind option_bind].
  rewrite checked_add_some by lia. cbn [mbind option_bind]. f_equal. lia.
Qed.

Lemma radix16_hex bs : forall v, bytes_ok bs -> 0 <= v -> v * 256 ^ len bs + be_value bs <= U64_MAX ->
  radix16_loop v (hex_encode bs) = Some (v * 256 ^ len bs + be_value bs).
Proof.
  induction bs as [|b bs IH]; intros v Hb H0 Hmax.
  { change (256 ^ len []) with 1. change (be_value []) with 0. cbn. f_equal. lia. }
  apply Forall_cons in Hb as [Hb Hbs]. rewrite hex_encode_cons. rewrite be_value_cons, len_cons in *.
  rewrite Z.pow_add_r in * by (pose proof (len_nonneg bs); lia). change (256 ^ 1) with 256 in *.
  assert (0 <= be_value bs) as Hbv.
  { unfold be_value. assert (bytes_ok (rev bs)) as Hr by (apply Forall_forall; intros x Hx; unfold bytes_ok in Hbs;
      rewrite Forall_forall in Hbs; apply Hbs; rewrite list_elem_of_In in *; by apply in_rev).
    pose proof (le_value_bound _ Hr). lia. }
  assert (0 < 256 ^ len bs) as Hpow by (apply Z.pow_pos_nonneg; [lia|apply len_nonneg]). unfold is_byte in Hb.
  rewrite radix16_pair by (unfold is_byte; nia). rewrite IH by (done || nia). f_equal. nia.
Qed.

Lemma hex_encode_take n bs : take (2 * n) (hex_encode bs) = hex_encode (take n bs).
Proof.
  revert bs. induction n as [|n IH]; intros [|b bs]; [done..|].
  rewrite hex_encode_cons. replace (2 * S n)%nat with (S (S (2 * n))) by lia. cbn [hex_pair app List.firstn].
  rewrite hex_encode_cons, IH. done.
Qed.

(** The point identity of a generation parses back to its sequence. *)
Lemma point_generation id generation :
  Uuid.wf id -> take 8 id = be_bytes 8 generation -> 0 <= generation <= U64_MAX ->
  from_str_radix_16 (take 16 (hex_encode id)) = Some generation.
Proof.
  intros [Hl Hb] Hid Hg. change 16%nat with (2 * 8)%nat. rewrite hex_encode_take, Hid.
  assert (bytes_ok (be_bytes 8 generation)) as Hbs by (rewrite <- Hid; by apply Forall_take).
  assert (be_value (be_bytes 8 generation) = generation) as Hv by (apply be_value_be_bytes; width).
  pose proof (radix16_hex _ 0 Hbs (Z.le_refl 0)) as Hr. rewrite Hv, Z.mul_0_l, Z.add_0_l in Hr.
  specialize (Hr ltac:(lia)). unfold from_str_radix_16.
  pose proof (be_bytes_length 8 generation) as Hlen.
  destruct (be_bytes 8 generation) as [|b bs] eqn:Hbe; [done|]. rewrite hex_encode_cons in *. cbn [hex_pair app] in *.
  assert ((hex_digit (Z.shiftr b 4) =? 43) = false) as ->; [|exact Hr].
  apply Forall_cons in Hbs as [Hbb _]. apply Z.eqb_neq. intros Heq.
  pose proof (hex_pair_lower b Hbb) as Hlow. apply Forall_cons in Hlow as [Hlow _]. by rewrite Heq in Hlow.
Qed.

(** What a pinned generation promises of the point [id]. *)
Definition resolved_ok (generation : Z) (id : list Z) (r : ResolvedPoint.t) : Prop :=
  let e := ResolvedPoint.evidence r in
  take 8 id = be_bytes 8 generation /\ point_bound r /\ validate_evidence e = Ok tt /\
  object_wf (PointEvidence.prepared e) /\
  exists namespace, source_ok namespace (captured_source (ResolvedPoint.captured r)).

(** A point as the search resolves it. *)
Definition point_ok (generation : Z) (p : RankedPoint) : Prop :=
  resolved_ok generation (Hit.id (hit p)) (resolved p) /\ Uuid.wf (Hit.id (hit p)) /\
  Hit.source_id (hit p) = PointEvidence.source_id (ResolvedPoint.evidence (resolved p)) /\
  is_finite (Hit.score (hit p)) = true.

Lemma metadata_valid generation p :
  0 < generation <= U64_MAX -> point_ok generation p -> EvidenceMetadata.validate (metadata generation p) generation = Ok tt.
Proof.
  intros Hg ((Hid & (Hsid & Hns & Hin & _) & Hv & Hpw & namespace & Hsrc) & Hwf & _ & _).
  pose proof (object_dto_valid _ _ Hsrc) as Hinput.
  destruct Hsrc as ((Hnsw & Hidw & _) & Hnsv & Hn1 & Hn2 & _). subst namespace.
  unfold validate_evidence in Hv. apply reject_if_ok in Hv. to_prop. destruct Hwf as [Hl Hb].
  unfold EvidenceMetadata.validate, metadata. cbn. rewrite seq_unit, invalid_if_ok. split.
  - rewrite Hns, Hsid, !display_canonical by done. rewrite hex_lower_ok by (done || unfold len; lia).
    change (List.firstn 16 (hex_encode (Hit.id (hit p)))) with (take 16 (hex_encode (Hit.id (hit p)))).
    rewrite (point_generation _ generation) by (done || lia).
    rewrite bool_decide_true by done. unfold MAX_TEXT_BYTES, MAX_UNIT_TEXT_BYTES in *.
    repeat apply orb_false_intro; solve_bool.
  - rewrite seq_unit. split; [|rewrite seq_unit, invalid_if_ok; split].
    + rewrite Hin. exact Hinput.
    + solve_bool.
    + pose proof Hpw as (_ & _ & ? & _). apply artifact_dto_valid; [done|done|done|lia].
Qed.

Lemma search_report_valid blake3 root generation p item :
  0 < generation <= U64_MAX -> point_ok generation p -> search_report blake3 root generation p = Ok item ->
  SearchItem.validate item generation = Ok tt /\ SearchItem.rank item = rank p /\
  EvidenceMetadata.point_id (SearchItem.evidence item) = hex_encode (Hit.id (hit p)).
Proof.
  intros Hg Hp Hr%search_report_true. pose proof (metadata_valid generation p Hg Hp) as Hmeta.
  destruct Hp as (_ & _ & _ & Hfin). destruct item as [[r score ev text]|[r score ev code]]; cbn in Hr.
  - destruct Hr as ([= -> -> ->] & source & _ & Hsl & _ & Hlen). split_and!; [|done|done].
    pose proof (slice_length _ _ _ _ Hsl) as Hsize. apply slice_inv in Hsl as (H0 & _ & _).
    unfold SearchItem.validate. rewrite seq_ok. exists (Hit.score (hit p)). split.
    + rewrite seq_unit. split; [|done]. apply invalid_if_ok. unfold MAX_UNIT_TEXT_BYTES. cbn -[Z.mul].
      rewrite checked_sub_some by lia. rewrite try_from_some by (rewrite Hsize; width).
      rewrite bool_decide_true by congruence. solve_bool.
    + rewrite seq_unit, invalid_if_ok. split; [by rewrite Hfin|exact Hmeta].
  - destruct Hr as ([= -> -> ->] & Hcode). split_and!; [|done|done].
    unfold SearchItem.validate. rewrite seq_ok. exists (Hit.score (hit p)). split.
    + rewrite seq_unit. split; [|done]. apply invalid_if_ok. cbn [SearchGap.code].
      destruct Hcode as [[-> _]|[-> _]]; reflexivity.
    + rewrite seq_unit, invalid_if_ok. split; [by rewrite Hfin|exact Hmeta].
Qed.

Lemma lift_err_ok {E F A} (f : E -> F) (m : M E A) w a w' : lift_err f m w = (Ok a, w') -> run m w = Ok a.
Proof. unfold lift_err, run. destruct (m w) as [[b|e] v]; [|done]. by intros [= <- <-]. Qed.

Lemma mapM_forall2_inv {A B E} (f : A -> result E B) l : forall k,
  mapM f l = Ok k -> Forall2 (fun a b => f a = Ok b) l k.
Proof.
  induction l as [|a l IH]; intros k H; cbn [mapM] in H; [apply ok_inj in H as <-; constructor|].
  apply bind_ok_inv in H as (b & Hb & H). apply bind_ok_inv in H as (k' & Hk & H). apply ok_inj in H as <-.
  constructor; [done|by apply IH].
Qed.

Lemma forall2_at {A B} (P : A -> B -> Prop) l k i b :
  Forall2 P l k -> k !! i = Some b -> exists a, l !! i = Some a /\ P a b.
Proof. intros Hf Hb. by eapply Forall2_lookup_r. Qed.

(** The grouped slots give each point its own answer. *)
Lemma items_loop_answers blake3 root generation points w items :
  Forall (fun p => point_bound (resolved p)) points ->
  run (items_loop blake3 root generation points (length points) 0 (replicate (length points) None)) w = Ok items ->
  mapM (search_report blake3 root generation) points = Ok items.
Proof.
  intros Hb Hrun. refine (outcome_ok _ (fun items => mapM (search_report blake3 root generation) (drop 0 points) = Ok items)
    _ w items (items_loop_outcome blake3 root generation points (length points) 0 _ Hb _ _ _) Hrun); [lia|unfold len; lia|].
  split; [apply length_replicate|]. intros i p o _ Ho%lookup_replicate. by destruct Ho as [-> _].
Qed.

Section Answers.
Context (blake3 : list Z -> list Z) (root : directory).
Context `{Prost UpsertPoints, Prost Named, Prost GetPoints, Prost QueryPoints, Prost Probe}.
Context (variable : option (option (list Z))) (server : Connection) (channel : Channel) (in_runtime : bool).
Context (view : View).
Let generation := view_generation (pinned view).

(** What a pinned view promises of every point it resolves; [PublicationRead] discharges
    it for the views of a database. *)
Definition view_resolves : Prop :=
  forall id w r, run (resolve_point view id) w = Ok r -> resolved_ok generation id r.

Lemma resolve_loop_ok (Hview : view_resolves) hits : forall index w points,
  run (resolve_loop view index hits) w = Ok points ->
  hit <$> points = hits /\ (forall i p, points !! i = Some p -> rank p = index + Z.of_nat i + 1) /\
  Forall (fun p => resolved_ok generation (Hit.id (hit p)) (resolved p) /\
    Hit.source_id (hit p) = PointEvidence.source_id (ResolvedPoint.evidence (resolved p)) /\
    is_finite (Hit.score (hit p)) = true) points.
Proof.
  induction hits as [|h hits IH]; intros index w points Hr; cbn [resolve_loop] in Hr.
  { apply ok_inj in Hr as <-. split_and!; [done|done|constructor]. }
  apply run_bind_ok in Hr as (_ & w1 & _ & Hr). apply run_bind_ok in Hr as (r & w2 & Hres & Hr).
  apply run_lift_ok in Hr as (u & Hg%reject_if_ok & Hr). apply run_lift_ok in Hr as (rk & Hrk & Hr).
  apply run_bind_ok in Hr as (rest & w3 & Hrest & Hr). apply ok_inj in Hr as <-.
  apply ok_or_inv, try_from_inv in Hrk as [-> _]. to_prop.
  destruct (IH (index + 1) w2 rest) as (Hhits & Hranks & Hall); [unfold run; by rewrite Hrest|].
  split_and!.
  - cbn. by rewrite Hhits.
  - intros [|i] p Hp; [injection Hp as <-; cbn; lia|]. rewrite (Hranks i p Hp). lia.
  - constructor; [|done]. cbn. split_and!; [|done|done]. apply (Hview _ w1). unfold lift_err in Hres. unfold run.
    destruct (resolve_point view (Hit.id h) w1) as [[r'|e] w']; [|done]. by injection Hres as <- <-.
Qed.

Lemma nominate_ok (Hview : view_resolves) endpoint request w points :
  run (nominate variable server channel in_runtime view endpoint request) w = Ok points ->
  exists reply,
    finished (on_query channel {| query_collection := view_collection view;
      query_string := SearchRequest.query request; query_only := None;
      query_limit := SearchRequest.limit request |}) = Some (Answer reply) /\
    Forall2 (fun scored p => nominates scored (hit p)) reply points /\
    NoDup (Hit.id ∘ hit <$> points) /\ len points <= SearchRequest.limit request /\
    SearchRequest.validate request = Ok tt /\
    (forall i p, points !! i = Some p -> rank p = Z.of_nat i + 1) /\ Forall (point_ok generation) points.
Proof.
  unfold nominate. intros Hr. apply run_bind_ok in Hr as (_ & w1 & _ & Hr).
  apply run_lift_ok in Hr as ([] & Hvalid%map_err_ok & Hr). apply run_lift_ok in Hr as (key & _ & Hr).
  apply run_bind_ok in Hr as (_ & w2 & _ & Hr). apply run_bind_ok in Hr as (_ & w3 & _ & Hr).
  apply run_bind_ok in Hr as (hits & w4 & Hq & Hr). apply run_bind_ok in Hr as (_ & w5 & _ & Hr).
  apply (resolve_loop_ok Hview) in Hr as (<- & Hranks & Hall).
  assert (run (query_text default_limits channel in_runtime (view_collection view) (SearchRequest.query request)
    (SearchRequest.limit request)) w3 = Ok (hit <$> points)) as Hrun.
  { unfold lift_err in Hq. unfold run. destruct (query_text _ _ _ _ _ _ w3) as [[h|e] w']; [|done].
    by injection Hq as <- <-. }
  apply query_text_ok in Hrun as (query & reply & Hf & -> & Hlen & Hn & Hnd).
  exists reply. rewrite Forall2_fmap_r in Hn. rewrite <- list_fmap_compose in Hnd.
  split_and!; [done|done|done| |done| |].
  - unfold len in *. by rewrite length_fmap in Hlen.
  - intros i p Hp. rewrite (Hranks i p Hp). lia.
  - apply Forall_lookup. intros i p Hp. rewrite Forall_lookup in Hall.
    destruct (Hall i p Hp) as (Hok & Hsid & Hfin).
    destruct (forall2_at _ _ _ _ _ Hn Hp) as (scored & _ & _ & Hwf & _). by split_and!.
Qed.

(** The items of a search: the reports of the nominated points, ranked and distinct. *)
Lemma search_items (Hview : view_resolves) (Hgen : 0 < generation <= U64_MAX) endpoint request w items :
  run (search_execute blake3 root variable server channel in_runtime view endpoint request) w = Ok items ->
  exists reply points,
    finished (on_query channel {| query_collection := view_collection view;
      query_string := SearchRequest.query request; query_only := None;
      query_limit := SearchRequest.limit request |}) = Some (Answer reply) /\
    Forall2 (fun scored p => nominates scored (hit p)) reply points /\
    Forall (point_ok generation) points /\
    Forall2 (fun p item => search_report blake3 root generation p = Ok item) points items /\
    SearchRequest.validate request = Ok tt /\ len items <= SearchRequest.limit request /\
    (forall i item, items !! i = Some item ->
       SearchItem.validate item generation = Ok tt /\ SearchItem.rank item = Z.of_nat i + 1) /\
    NoDup (map (fun item => EvidenceMetadata.point_id (SearchItem.evidence item)) items).
Proof.
  intros Hrun. unfold search_execute in Hrun. apply run_bind_ok in Hrun as (points & w1 & Hnom & Hrun).
  assert (run (nominate variable server channel in_runtime view endpoint request) w = Ok points) as Hn
    by (unfold run; by rewrite Hnom).
  apply (nominate_ok Hview) in Hn as (reply & Hf & Hpoints & Hnd & Hlen & Hvalid & Hranks & Hok).
  apply run_bind_ok in Hrun as (_ & w2 & _ & Hrun). apply run_bind_ok in Hrun as (items' & w3 & Hloop & Hrun).
  apply run_bind_ok in Hrun as (_ & w4 & _ & Hrun). apply ok_inj in Hrun as ->.
  assert (mapM (search_report blake3 root generation) points = Ok items) as Hmap.
  { apply (items_loop_answers blake3 root generation points w2); [|exact (f_equal fst Hloop)].
    eapply Forall_impl; [exact Hok|]. by intros p [(_ & ? & _) _]. }
  apply mapM_forall2_inv in Hmap. exists reply, points.
  assert (forall i item, items !! i = Some item -> SearchItem.validate item generation = Ok tt /\
    SearchItem.rank item = Z.of_nat i + 1 /\ exists p, points !! i = Some p /\
      EvidenceMetadata.point_id (SearchItem.evidence item) = hex_encode (Hit.id (hit p))) as Hitem.
  { intros i item Hi. destruct (forall2_at _ _ _ _ _ Hmap Hi) as (p & Hp & Hrep).
    rewrite Forall_lookup in Hok. destruct (search_report_valid _ _ _ _ _ Hgen (Hok i p Hp) Hrep) as (? & Hr & ?).
    rewrite Hr, (Hranks i p Hp). split_and!; [done|done|eauto]. }
  split_and!; try done.
  - apply Forall2_length in Hmap. unfold len in *. lia.
  - intros i item Hi. by destruct (Hitem i item Hi) as (? & ? & _).
  - apply NoDup_alt. intros i j x Hi Hj. rewrite list_lookup_fmap in Hi, Hj.
    destruct (items !! i) as [a|] eqn:Ha, (items !! j) as [b|] eqn:Hb; try done.
    cbn in Hi, Hj. injection Hi as <-. injection Hj as Hj.
    destruct (Hitem i a Ha) as (_ & _ & p & Hp & Hpid). destruct (Hitem j b Hb) as (_ & _ & q & Hq & Hqid).
    rewrite Hpid, Hqid in Hj. eapply NoDup_lookup; [exact Hnd| |].
    + rewrite list_lookup_fmap, Hp. reflexivity.
    + rewrite list_lookup_fmap, Hq. cbn. f_equal. rewrite Forall_lookup in Hok.
      destruct (Hok i p Hp) as (_ & [_ ?] & _), (Hok j q Hq) as (_ & [_ ?] & _). by apply hex_encode_inj.
Qed.

(** C23. Every answer of a search is verified.  When the executor answers, its items
    correspond one to one and in order to the nominations of the server's reply to exactly
    that query: distinct points, at most the requested number, ranked 1, 2, 3, ...  Each
    nominated point is bound by the pinned generation to its source and preparation; a hit
    carries the stored source's own bytes at that range, of an object with the referenced
    hash, and a gap names an object that is not there.  The whole answer passes the wire's
    validation.  A view that resolves only its own points is assumed. *)
Theorem search_answers_verified (Hview : view_resolves) (Hgen : 0 < generation <= U64_MAX)
    endpoint request w items
    (Hrun : run (search_execute blake3 root variable server channel in_runtime view endpoint request) w = Ok items) :
  exists reply points,
    finished (on_query channel {| query_collection := view_collection view;
      query_string := SearchRequest.query request; query_only := None;
      query_limit := SearchRequest.limit request |}) = Some (Answer reply) /\
    Forall2 (fun scored p => nominates scored (hit p)) reply points /\
    Forall (point_ok generation) points /\
    Forall2 (answer_true blake3 root generation) points items /\
    Terminal.validate {| Terminal.request_id := QUERY_REQUEST_ID;
      Terminal.outcome := QueryOutcome.Complete generation items Complete |} (SearchRequest.limit request) = Ok tt.
Proof.
  apply (search_items Hview Hgen) in Hrun as (reply & points & Hf & Hpoints & Hok & Hmap & Hvalid & Hlen & Hitem & Hnd).
  exists reply, points. split_and!; [done|done|done| |].
  - eapply Forall2_impl; [exact Hmap|]. intros p item. apply search_report_true.
  - unfold SearchRequest.validate in Hvalid. apply invalid_if_ok in Hvalid. to_prop.
    apply terminal_complete_iff. unfold MAX_ITEMS in *. split_and!; try done; try lia.
    + intros i item Hi. by destruct (Hitem i item Hi).
    + apply Forall_lookup. intros i item Hi. by destruct (Hitem i item Hi).
Qed.
End Answers.

(** ** A generation of one point *)

Definition found_id : list Z := be_bytes 8 5 ++ be_bytes 8 0.
Definition found_point : ResolvedPoint.t :=
  {| ResolvedPoint.evidence :=
       {| PointEvidence.source_namespace_id := replicate 16 1; PointEvidence.source_id := replicate 16 2;
          PointEvidence.input := object_ref lines_source; PointEvidence.prepared := lines_prepared;
          PointEvidence.unit := 0; PointEvidence.start := 0; PointEvidence.stop := 4;
          PointEvidence.line_start := 0; PointEvidence.line_end := 2;
          PointEvidence.starts_at_line_boundary := true; PointEvidence.ends_at_line_boundary := true |};
     ResolvedPoint.captured := lines_entry |}.
Definition found_view : View :=
  {| pinned := lines_view; view_collection := str "g5";
     view_source id := if bool_decide (id = replicate 16 2) then mret lines_entry else fail Pub.Corrupt;
     resolve_point id := if bool_decide (id = found_id) then mret found_point else fail Pub.Corrupt |}.
Definition found_info : CollectionInfo :=
  {| green := true;
     collection_params := Some {| shard_number := 1; replication_factor := Some 1;
       write_consistency_factor := Some 1; auto_sharding := true; vectors_config := Some true;
       sparse_vectors := None |};
     payload_schema := {[TEXT_FIELD := {| text_type := true; text_index := Some {|
       code_tokenizer := true; lowercase := Some true; ascii_folding := Some false;
       phrase_matching := Some false; enable_hnsw := Some false; pinned_memory := true; bm25_scoring := true;
       disabled_stemmer := true; stopwords := false; min_token_len := None; max_token_len := None;
       nested := false |} |}]} |}.
(** A score of one, as a bit pattern. *)
Definition found_channel : Channel := {|
  on_create := on_create sample_channel; on_index := on_index sample_channel;
  on_info _ := {| waiting := 1; finished := Some (Answer (Some found_info)) |};
  on_exists := on_exists sample_channel; on_delete := on_delete sample_channel;
  on_upsert := on_upsert sample_channel; on_get := on_get sample_channel; on_count := on_count sample_channel;
  on_query _ := {| waiting := 2; finished := Some (Answer
    [{| scored_id := Some (point_id found_id);
        scored_payload := {[SOURCE_ID_KEY := Some (StringValue (Uuid.display (replicate 16 2)))]};
        scored_score := 1065353216; scored_vectors := false |}]) |} |}.
Definition found_server : Connection := {|
  parse_authority _ := Some (true, 6334); ascii_metadata _ := true;
  on_connect _ := [Arrived (Ok tt)];
  on_health := {| waiting := 0; finished := Some (Answer (str "1.20.0")) |};
  on_list := {| waiting := 0; finished := Some (Answer tt) |} |}.
Definition found_request : SearchRequest.t := {| SearchRequest.query := str "ab"; SearchRequest.limit := 4 |}.
Definition found_search : M QueryFailure (list SearchItem.t) :=
  @search_execute toy_digest lines_root no_length no_length no_length None found_server found_channel false
    found_view (str "http://127.0.0.1:6334") found_request.

Lemma found_source_ok : source_ok (replicate 16 1) lines_source.
Proof.
  split; [split_and!; try (split; [reflexivity|]); try (apply (bool_decide_eq_true_1 _); vm_compute; reflexivity);
          vm_compute; try split_and!; try congruence; apply (bool_decide_eq_true_1 _); vm_compute; reflexivity
         |split_and!; vm_compute; congruence].
Qed.

Lemma found_view_resolves : view_resolves found_view.
Proof.
  intros id w r. cbn. case_bool_decide as Hid; [|done]. intros [= <-]. subst id.
  destruct (lines_prepared_ok _ _ eq_refl eq_refl) as (Hwf & _ & _ & Hlen).
  split; [vm_compute; reflexivity|]. split.
  { split_and!; try reflexivity; [vm_compute; congruence|]. cbn -[lines_prepared]. lia. }
  split; [vm_compute; reflexivity|]. split; [exact Hwf|]. exists (replicate 16 1). exact found_source_ok.
Qed.

Lemma search_answers_verified_witness :
  exists item, run found_search [] = Ok [item] /\
    exists p, answer_true toy_digest lines_root 5 p item.
Proof.
  assert (exists item, run found_search [] = Ok [item]) as (item & Hrun).
  { eexists. vm_compute. reflexivity. }
  exists item. split; [exact Hrun|].
  destruct (@search_answers_verified toy_digest lines_root no_length no_length no_length None found_server
    found_channel false found_view found_view_resolves ltac:(vm_compute; split; congruence)
    (str "http://127.0.0.1:6334") found_request [] [item] Hrun) as (reply & points & _ & _ & _ & Htrue & _).
  inversion Htrue as [|p i ps rest Hp Hrest Heq1 Heq2]. exists p. exact Hp.
Defined.
