(* ===== verification/Window.v ===== *)
(** One result vector of a session over its pinned view: opening, paging under the frame
    ceiling, the cursor that only a flush moves, and bounded context of emitted items
    (bins/eliot-searchd/src/framed_search/window.rs, window/expand.rs). *)

From Stdlib Require Import Sorted.
From stdpp Require Import gmap.
From S2P Require Import Prelude Bytes Utf8 Ids Registry Layout Prepared Dto DtoSession DtoFacts Frame.
From S2P Require Import SourceRow PreparationRow PublicationRow ObjectStore Literal ExactResult RawExact DecodedExact Qdrant VerifiedQuery.

Local Abbreviation take := List.firstn.

(** ** Expansion (expand.rs) *)

Definition binding_invalid : QueryFailure := Code (str "EVIDENCE_BINDING_INVALID").
Definition window_range_invalid : QueryFailure := Code (str "WINDOW_RANGE_INVALID").

Module Anchor.
Record t := {
  id : list Z; source_namespace_id : list Z; input : ObjectRefDto.t; source : option RawSourceRef.t;
  prepared : option ObjectRefDto.t; start : Z; stop : Z; original : list Z }.

Definition from_item (item : WindowItem.t) : result QueryFailure t :=
  match item with
  | WindowItem.Search (SearchItem.Hit hit) =>
      let e := SearchHit.evidence hit in
      Ok {| id := EvidenceMetadata.source_id e; source_namespace_id := EvidenceMetadata.source_namespace_id e;
            input := EvidenceMetadata.input e; source := None; prepared := Some (EvidenceMetadata.prepared e);
            start := EvidenceMetadata.start e; stop := EvidenceMetadata.stop e;
            original := SearchHit.unit_text hit |}
  | WindowItem.Raw (RawExactItem.Match hit) =>
      let s := RawExactMatch.source hit in
      Ok {| id := RawSourceRef.source_id s; source_namespace_id := RawSourceRef.source_namespace_id s;
            input := RawSourceRef.input s; source := Some s; prepared := None;
            start := RawExactMatch.start hit; stop := RawExactMatch.stop hit;
            original := RawExactMatch.bytes_hex hit |}
  | WindowItem.DecodedUtf8 (DecodedUtf8Item.Match hit) =>
      let s := DecodedUtf8Match.source hit in
      Ok {| id := RawSourceRef.source_id s; source_namespace_id := RawSourceRef.source_namespace_id s;
            input := RawSourceRef.input s; source := Some s; prepared := Some (DecodedUtf8Match.prepared hit);
            start := DecodedUtf8Match.representation_start hit; stop := DecodedUtf8Match.representation_end hit;
            original := DecodedUtf8Match.text hit |}
  | _ => Err (Code (str "WINDOW_ITEM_UNAVAILABLE"))
  end.

Definition context (self : t) (before after : Z) : result QueryFailure (Z * Z) :=
  start' ← ok_or window_range_invalid (checked_sub (start self) before);
  stop' ← ok_or window_range_invalid
            (option_keep (fun stop => stop <=? ObjectRefDto.bytes (input self)) (checked_add U64_MAX (stop self) after));
  _ ← reject_if ((stop self <=? start self) || (MAX_EXPANSION_BYTES <? stop' - start'))
        (Code (str "WINDOW_EXPANSION_LIMIT"));
  start' ← ok_or window_range_invalid (try_from USIZE_MAX start');
  stop' ← ok_or window_range_invalid (try_from USIZE_MAX stop');
  Ok (start', stop').
End Anchor.

(** The expansion before its content is known. *)
Definition expansion_of (item_index : Z) (source : RawSourceRef.t) (start stop : Z)
    (prepared : option ObjectRefDto.t) (content : ExpansionContent.t) : WindowExpansion.t :=
  {| WindowExpansion.window_id := SESSION_WINDOW_ID; WindowExpansion.item_index := item_index;
     WindowExpansion.source := source; WindowExpansion.prepared := prepared;
     WindowExpansion.representation_start := start; WindowExpansion.representation_end := stop;
     WindowExpansion.source_start := start; WindowExpansion.source_end := stop;
     WindowExpansion.content := content |}.

Section Expand.
Context (blake3 : list Z -> list Z) (root : directory).

(** The callback of [visit_representation]; its state is the artifact and the text it
    stores in the expansion. *)
Definition expand_visit (anchor : Anchor.t) (expected : ObjectRefDto.t) (original range : Z * Z)
    (artifact : ObjectRef) (utf8 : PreparedUtf8) (_ : option (ObjectRefDto.t * list Z))
    : M QueryFailure (option (ObjectRefDto.t * list Z)) :=
  prepared ← object_ref_dto artifact;
  _ ← lift (reject_if (negb (bool_decide (prepared = expected))
        || negb (bool_decide (str_get (prepared_text utf8) (fst original) (snd original)
                              = Some (Anchor.original anchor)))) text_mismatch);
  text ← lift (ok_or (Code (str "WINDOW_UTF8_BOUNDARY")) (str_get (prepared_text utf8) (fst range) (snd range)));
  _ ← reserve_with allocation_failed;
  mret (Some (prepared, text)).

(** [execute] *)
Definition expand_execute (view : View) (item_index : Z) (item : WindowItem.t) (before after : Z)
    : M QueryFailure WindowExpansion.t :=
  _ ← query_check;
  anchor ← lift (Anchor.from_item item);
  range ← lift (Anchor.context anchor before after);
  start ← lift (ok_or window_range_invalid (try_from USIZE_MAX (Anchor.start anchor)));
  stop ← lift (ok_or window_range_invalid (try_from USIZE_MAX (Anchor.stop anchor)));
  id ← lift (map_err (fun _ => binding_invalid) (Uuid.parse (Anchor.id anchor)));
  captured ← lift_err publication_failure (view_source view id);
  source ← source_ref_dto (captured_source captured);
  _ ← lift (reject_if (negb (bool_decide (RawSourceRef.input source = Anchor.input anchor))
        || negb (bool_decide (RawSourceRef.source_namespace_id source = Anchor.source_namespace_id anchor))
        || match Anchor.source anchor with None => false | Some expected => negb (bool_decide (expected = source)) end)
        binding_invalid);
  first ← lift (ok_or window_range_invalid (try_from U64_MAX (fst range)));
  last ← lift (ok_or window_range_invalid (try_from U64_MAX (snd range)));
  expansion ←
    match Anchor.prepared anchor with
    | Some expected =>
        visited ← visit_representation blake3 root captured
                    (expand_visit anchor expected (start, stop) range) None;
        match fst visited with
        | Some gap => fail (Code (gap_reason gap))
        | None =>
            mret match snd visited with
              | Some (prepared, text) =>
                  expansion_of item_index source first last (Some prepared) (ExpansionContent.Utf8 text)
              | None => expansion_of item_index source first last None (ExpansionContent.Raw [])
              end
        end
    | None =>
        bytes ← lift_err object_failure
                  (read_object blake3 root (object_ref (captured_source captured)) MAX_SOURCE_OBJECT_BYTES);
        original ← lift (ok_or window_range_invalid (slice bytes start stop));
        digits ← hex original;
        _ ← lift (reject_if (negb (bool_decide (digits = Anchor.original anchor))) text_mismatch);
        bytes ← lift (ok_or window_range_invalid (slice bytes (fst range) (snd range)));
        digits ← hex bytes;
        mret (expansion_of item_index source first last None (ExpansionContent.Raw digits))
    end;
  _ ← query_check;
  _ ← lift (map_err protocol_failure (WindowExpansion.validate expansion));
  mret expansion.
End Expand.

(** ** The window (window.rs) *)

Record PreparedPage := { page_bytes : list Z; expected_cursor : Z; next_cursor : Z }.

(** The effective deadline of every operation is the earlier of its own and [expires]. *)
Record Window := {
  window_view : View;
  window_root : directory;
  window_expires : Z;
  window_items : list WindowItem.t;
  window_summary : WindowSummary.t;
  window_cursor : Z }.

Definition item_limit : QueryFailure := Code (str "WINDOW_ITEM_LIMIT").

Section Open.
Context (blake3 : list Z -> list Z).
Context `{Prost UpsertPoints, Prost Named, Prost GetPoints, Prost QueryPoints, Prost Probe}.
Context (variable : option (option (list Z))) (server : Connection) (channel : Channel) (in_runtime : bool).
(** [open_plain(path, ..)] and [pin_published(&root.control_path(), ..)]. *)
Context (open_plain : M PlainRootError.t directory) (pin_published : directory -> M Pub.t View).

(** The summary before and after an exact query. *)
Definition search_summary (generation retained : Z) : WindowSummary.t :=
  {| WindowSummary.generation := generation; WindowSummary.retained_items := retained;
     WindowSummary.found_matches := None; WindowSummary.scan_complete := None;
     WindowSummary.complete_negative := None; WindowSummary.result_stop := Complete |}.
Definition exact_summary (generation retained matches : Z) (scan_complete complete_negative : bool)
    (stop : StopReason) : WindowSummary.t :=
  {| WindowSummary.generation := generation; WindowSummary.retained_items := retained;
     WindowSummary.found_matches := Some matches; WindowSummary.scan_complete := Some scan_complete;
     WindowSummary.complete_negative := Some complete_negative; WindowSummary.result_stop := stop |}.

(** The [match query] of [open]: the items, and the summary for their number. *)
Definition window_query (root : directory) (view : View) (endpoint : option (list Z)) (query : WindowQuery.t)
    : M QueryFailure (list WindowItem.t * (Z -> WindowSummary.t)) :=
  let generation := view_generation (pinned view) in
  match query with
  | WindowQuery.Search request =>
      endpoint ← lift (ok_or (Code (str "QUERY_ENDPOINT_REQUIRED")) endpoint);
      items ← search_execute blake3 root variable server channel in_runtime view endpoint request;
      mret (WindowItem.Search <$> items, search_summary generation)
  | WindowQuery.Raw request =>
      r ← raw_execute blake3 root (pinned view) request;
      mret (WindowItem.Raw <$> RawExactResult.items r, fun retained =>
        exact_summary generation retained (RawExactResult.matches r) (RawExactResult.scan_complete r)
          (RawExactResult.complete_negative r) (RawExactResult.stop r))
  | WindowQuery.DecodedUtf8 request =>
      r ← decoded_execute blake3 root (pinned view) request;
      mret (WindowItem.DecodedUtf8 <$> DecodedUtf8Result.items r, fun retained =>
        exact_summary generation retained (DecodedUtf8Result.matches r) (DecodedUtf8Result.scan_complete r)
          (DecodedUtf8Result.complete_negative r) (DecodedUtf8Result.stop r))
  end.

Definition window_open (endpoint : option (list Z)) (query : WindowQuery.t) (expires : Z) : M QueryFailure Window :=
  _ ← query_check;
  _ ← lift (map_err protocol_failure (WindowQuery.validate query));
  _ ← reserve_with allocation_failed;
  root ← lift_err root_failure open_plain;
  view ← lift_err publication_failure (pin_published root);
  found ← window_query root view endpoint query;
  retained ← lift (ok_or item_limit (try_from U8_MAX (len (fst found))));
  _ ← query_check;
  mret {| window_view := view; window_root := root; window_expires := expires; window_items := fst found;
          window_summary := snd found retained; window_cursor := 0 |}.
End Open.

Section Page.
Context `{Json SessionReply.t}.

(** [for index in cursor..end], [n] turns from [index] on. *)
Fixpoint page_entries (items : list WindowItem.t) (n : nat) (index : Z) : result QueryFailure (list WindowEntry.t) :=
  match n with
  | O => Ok []
  | S n =>
      item_index ← ok_or item_limit (try_from U8_MAX index);
      item ← ok_or PANIC (at_ items index);
      rest ← page_entries items n (index + 1);
      Ok ({| WindowEntry.item_index := item_index; WindowEntry.item := item |} :: rest)
  end.

Definition page_reply (request_id : Z) (page : WindowPage.t) : SessionReply.t :=
  {| SessionReply.request_id := request_id; SessionReply.outcome := SessionOutcome.Page page |}.

(** The branch for a frame that is too large: without the last entry. *)
Definition clip_page (page : WindowPage.t) : WindowPage.t :=
  {| WindowPage.window_id := WindowPage.window_id page; WindowPage.summary := WindowPage.summary page;
     WindowPage.start_index := WindowPage.start_index page; WindowPage.next_index := WindowPage.next_index page - 1;
     WindowPage.items := removelast (WindowPage.items page); WindowPage.has_more := true;
     WindowPage.page_stop := OutputLimit |}.

(** The encoding loop; every turn drops one entry. *)
Fixpoint page_loop (fuel : nat) (request_id cursor : Z) (page : WindowPage.t) : M QueryFailure PreparedPage :=
  _ ← query_check;
  match_result (encode_session_reply (page_reply request_id page)) (fun encoded =>
    _ ← query_check;
    match encoded with
    | Ok bytes => mret {| page_bytes := bytes; expected_cursor := cursor; next_cursor := WindowPage.next_index page |}
    | Err FrameTooLarge =>
        if len (WindowPage.items page) <=? 1 then fail (Code (str "WINDOW_ITEM_TOO_LARGE"))
        else match fuel with
             | O => fail (Code (str "QUERY_INTERNAL_ERROR"))
             | S fuel => page_loop fuel request_id cursor (clip_page page)
             end
    | Err error => fail (protocol_failure error)
    end).

(** [Window::page] *)
Definition window_page (self : Window) (request_id page_size : Z) : M QueryFailure PreparedPage :=
  _ ← query_check;
  let cursor := window_cursor self in
  let stop := Z.min (len (window_items self)) (cursor + page_size) in
  _ ← reserve_with allocation_failed;
  entries ← lift (page_entries (window_items self) (Z.to_nat (stop - cursor)) cursor);
  next_index ← lift (ok_or item_limit (try_from U8_MAX stop));
  page_loop (length (window_items self)) request_id cursor
    {| WindowPage.window_id := SESSION_WINDOW_ID; WindowPage.summary := window_summary self;
       WindowPage.start_index := cursor; WindowPage.next_index := next_index; WindowPage.items := entries;
       WindowPage.has_more := (stop <? len (window_items self)); WindowPage.page_stop := Complete |}.
End Page.

(** [Window::commit_page] *)
Definition commit_page (self : Window) (expected next : Z) : result QueryFailure Window :=
  _ ← reject_if (negb (window_cursor self =? expected) || (next <? expected) || (len (window_items self) <? next))
        (Code (str "WINDOW_CURSOR_STALE"));
  Ok {| window_view := window_view self; window_root := window_root self; window_expires := window_expires self;
        window_items := window_items self; window_summary := window_summary self; window_cursor := next |}.

(** [Window::expand] *)
Definition window_expand (blake3 : list Z -> list Z) (self : Window) (item_index before after : Z)
    : M QueryFailure WindowExpansion.t :=
  let not_emitted := Code (str "WINDOW_ITEM_NOT_EMITTED") in
  _ ← lift (reject_if (window_cursor self <=? item_index) not_emitted);
  item ← lift (ok_or not_emitted (at_ (window_items self) item_index));
  expand_execute blake3 (window_root self) (window_view self) item_index item before after.

(** ** A well-formed result vector *)

Definition item_point (i : WindowItem.t) : option (list Z) :=
  match i with
  | WindowItem.Search item => Some (EvidenceMetadata.point_id (SearchItem.evidence item))
  | _ => None
  end.
Definition count_of (p : WindowItem.t -> bool) (items : list WindowItem.t) : Z :=
  len (filter (fun i => p i = true) items).

(** What a vector retained for [query] must satisfy for its pages to be accepted: every
    item answers the query, in order, ranked and distinct, and the summary counts it. *)
Record window_fit (query : WindowQuery.t) (items : list WindowItem.t) (s : WindowSummary.t) : Prop := {
  fit_query : WindowQuery.validate query = Ok tt;
  fit_retained : WindowSummary.retained_items s = len items;
  fit_limit : len items <= WindowQuery.limit query <= MAX_ITEMS;
  fit_generation : WindowSummary.generation s <> 0;
  fit_items : Forall (fun i => WindowItem.validate_request i query (WindowSummary.generation s) = Ok tt) items;
  fit_order : Sorted in_order items;
  fit_points : NoDup (omap item_point items);
  fit_ranks : forall i item, items !! i = Some (WindowItem.Search item) -> SearchItem.rank item = Z.of_nat i + 1;
  fit_kind : WindowQuery.is_search query = bool_decide (WindowSummary.found_matches s = None);
  fit_summary :
    match WindowSummary.found_matches s, WindowSummary.scan_complete s, WindowSummary.complete_negative s with
    | None, None, None => True
    | Some total, Some scan, Some negative =>
        count_of is_found items <= total /\ (0 < count_of is_gap items -> scan = false) /\
        negative = scan && (total =? 0) /\
        (WindowSummary.result_stop s = Complete ->
           count_of is_found items = total /\ scan = (count_of is_gap items =? 0))
    | _, _, _ => False
    end }.

(** The entries of [items] from [start] on, [k] of them. *)
Definition page_slice (items : list WindowItem.t) (start k : Z) : list WindowEntry.t :=
  imap (fun i item => {| WindowEntry.item_index := start + Z.of_nat i; WindowEntry.item := item |})
    (take (Z.to_nat k) (drop (Z.to_nat start) items)).

Lemma page_slice_items items start k :
  map WindowEntry.item (page_slice items start k) = take (Z.to_nat k) (drop (Z.to_nat start) items).
Proof.
  unfold page_slice. generalize (take (Z.to_nat k) (drop (Z.to_nat start) items)). intros l. revert start.
  induction l as [|i l IH]; intros start; [done|]. rewrite imap_cons. cbn [map WindowEntry.item]. f_equal.
  rewrite <- (IH (start + 1)) at 2. f_equal. apply imap_ext. intros j x _. cbn. f_equal. lia.
Qed.

Lemma page_slice_len items start k :
  0 <= start -> 0 <= k -> start + k <= len items -> len (page_slice items start k) = k.
Proof. intros. unfold page_slice, len in *. rewrite length_imap, length_take, length_drop. lia. Qed.

Lemma page_slice_lookup items start k i e :
  0 <= start -> page_slice items start k !! i = Some e ->
  WindowEntry.item_index e = start + Z.of_nat i /\ items !! (Z.to_nat start + i)%nat = Some (WindowEntry.item e).
Proof.
  intros H0. unfold page_slice. rewrite list_lookup_imap. destruct (take _ _ !! i) as [x|] eqn:Hx; [|done].
  cbn. intros [= <-]. split; [done|]. cbn. apply lookup_take_Some in Hx as [Hx _]. by rewrite lookup_drop in Hx.
Qed.

Lemma page_slice_app items start a b :
  0 <= start -> 0 <= a -> 0 <= b -> start + a <= len items ->
  page_slice items start (a + b) = page_slice items start a ++ page_slice items (start + a) b.
Proof.
  intros. unfold page_slice. replace (Z.to_nat (a + b)) with (Z.to_nat a + Z.to_nat b)%nat by lia.
  rewrite <- (take_take_drop (drop (Z.to_nat start) items)), imap_app. f_equal. rewrite drop_drop.
  replace (Z.to_nat start + Z.to_nat a)%nat with (Z.to_nat (start + a)) by lia.
  apply imap_ext. intros i x _. unfold compose. f_equal. rewrite length_take, length_drop.
  unfold len in *. rewrite Nat.min_l by lia. lia.
Qed.

Lemma page_entries_ok items n : forall index,
  0 <= index -> index + Z.of_nat n <= len items -> len items <= 255 ->
  page_entries items n index = Ok (page_slice items index (Z.of_nat n)).
Proof.
  induction n as [|n IH]; intros index H0 Hn Hmax; [done|]. cbn [page_entries].
  rewrite try_from_some by width. cbn [ok_or mbind result_bind].
  destruct (lookup_lt_is_Some_2 items (Z.to_nat index)) as [item Hitem]; [unfold len in *; lia|].
  unfold at_. is_true (0 <=? index). rewrite Hitem. cbn [ok_or mbind result_bind].
  rewrite IH by lia. cbn [mbind result_bind]. f_equal.
  replace (Z.of_nat (S n)) with (1 + Z.of_nat n) by lia. rewrite page_slice_app by lia.
  assert (page_slice items index 1 = [{| WindowEntry.item_index := index; WindowEntry.item := item |}]) as ->; [|done].
  unfold page_slice. rewrite (drop_S _ _ _ Hitem). change (Z.to_nat 1) with 1%nat. cbn. by rewrite Z.add_0_r.
Qed.

(** ** Accepted pages *)

Lemma request_loop_complete query generation entries : forall f g prior previous,
  Forall (fun e => WindowItem.validate_request (WindowEntry.item e) query generation = Ok tt) entries ->
  Sorted in_order (option_list previous ++ map WindowEntry.item entries) ->
  NoDup (omap point_of (prior ++ entries)) ->
  WindowPage.request_loop query generation f g prior previous entries
  = Ok (f + count_items_of is_found entries, g + count_items_of is_gap entries).
Proof.
  induction entries as [|e entries IH]; intros f g prior previous Hall Hsort Hnd.
  { cbn. by rewrite !count_items_nil, !Z.add_0_r. }
  apply Forall_cons in Hall as [He Hall]. cbn [WindowPage.request_loop]. rewrite He. cbn [mbind result_bind].
  assert (match previous with Some earlier => validate_window_order earlier (WindowEntry.item e) | None => Ok tt end = Ok tt /\
          Sorted in_order (WindowEntry.item e :: map WindowEntry.item entries)) as [Hprev Hrest].
  { destruct previous as [p|]; cbn [option_list app map] in Hsort; [|done]. apply Sorted_inv in Hsort as [Hs Hh].
    split; [|done]. apply HdRel_inv in Hh. unfold validate_window_order. unfold in_order in Hh. by rewrite Hh. }
  assert (forall c : Z * Z, (_ ← match previous with Some earlier => validate_window_order earlier (WindowEntry.item e) | None => Ok tt end;
    WindowPage.request_loop query generation (fst c) (snd c) (prior ++ [e]) (Some (WindowEntry.item e)) entries)
    = Ok (fst c + count_items_of is_found entries, snd c + count_items_of is_gap entries)) as Hnext.
  { intros c. rewrite Hprev. cbn [mbind result_bind]. apply IH; [done|exact Hrest|]. by rewrite <- (assoc_L (++)). }
  rewrite !count_items_cons. set (cf := count_items_of is_found entries) in *.
  set (cg := count_items_of is_gap entries) in *. unfold is_found, is_gap.
  assert (forall item, WindowEntry.item e = WindowItem.Search item ->
    existsb (fun p => match WindowEntry.item p with
      | WindowItem.Search q => bool_decide (EvidenceMetadata.point_id (SearchItem.evidence q) = EvidenceMetadata.point_id (SearchItem.evidence item))
      | _ => false end) prior = false) as Hdup.
  { intros item Hitem. apply not_true_is_false. rewrite existsb_exists. intros (p & Hp & Heq).
    rewrite omap_app in Hnd. apply NoDup_app in Hnd as (_ & Hd & _).
    destruct (WindowEntry.item p) as [q| |] eqn:Hq; try done. apply bool_decide_eq_true_1 in Heq.
    apply (Hd (EvidenceMetadata.point_id (SearchItem.evidence q))).
    - apply list_elem_of_omap. exists p. split; [by apply list_elem_of_In|]. unfold point_of. by rewrite Hq.
    - cbn [omap list_omap]. unfold point_of at 1. rewrite Hitem, Heq. apply list_elem_of_here. }
  destruct (WindowEntry.item e) as [item|[]|[]] eqn:Hitem; cbn [mbind result_bind].
  - rewrite (Hdup item eq_refl). cbn [invalid_if reject_if mbind result_bind].
    rewrite (Hnext (f, g)). cbn. do 2 f_equal; lia.
  - rewrite (Hnext (f + 1, g)). cbn. do 2 f_equal; lia.
  - rewrite (Hnext (f, g + 1)). cbn. do 2 f_equal; lia.
  - rewrite (Hnext (f + 1, g)). cbn. do 2 f_equal; lia.
  - rewrite (Hnext (f, g + 1)). cbn. do 2 f_equal; lia.
Qed.

Lemma entries_loop_complete page entries : forall index,
  (forall i e, entries !! i = Some e ->
     WindowEntry.item_index e = WindowPage.start_index page + index + Z.of_nat i /\
     WindowItem.validate (WindowEntry.item e) (WindowSummary.generation (WindowPage.summary page)) = Ok tt /\
     WindowItem.is_search (WindowEntry.item e) = bool_decide (WindowSummary.found_matches (WindowPage.summary page) = None) /\
     match WindowEntry.item e with
     | WindowItem.Search item => SearchItem.rank item = WindowEntry.item_index e + 1
     | _ => True
     end) ->
  WindowPage.entries_loop page index entries = Ok tt.
Proof.
  induction entries as [|e entries IH]; intros index Hall; [done|]. cbn [WindowPage.entries_loop].
  destruct (Hall 0%nat e eq_refl) as (Hi & Hv & Hk & Hr).
  rewrite seq_unit, invalid_if_ok. split; [rewrite negb_false_iff, Z.eqb_eq; lia|].
  rewrite seq_unit. split; [done|]. rewrite seq_unit, invalid_if_ok. split; [by rewrite Hk, eqb_reflx|].
  rewrite seq_unit. split.
  - destruct (WindowEntry.item e); [|done..]. apply invalid_if_ok. rewrite negb_false_iff, Z.eqb_eq. lia.
  - apply IH. intros i x Hx. destruct (Hall (S i) x Hx) as (? & ? & ? & ?). split_and!; try done. lia.
Qed.

Lemma validate_request_parts item query generation :
  WindowItem.validate_request item query generation = Ok tt ->
  WindowItem.validate item generation = Ok tt /\ WindowItem.is_search item = WindowQuery.is_search query.
Proof.
  unfold WindowItem.validate_request. intros H. apply bind_ok_inv in H as ([] & Hv & H). split; [done|].
  apply bind_ok_inv in H as (selected & Hs & _). by destruct item, query.
Qed.

Lemma count_entries p entries : count_items_of p entries = count_of p (map WindowEntry.item entries).
Proof.
  unfold count_items_of, count_of. induction entries as [|e entries IH]; [done|]. cbn [map].
  rewrite !filter_cons. repeat case_decide; rewrite ?len_cons; try done. lia.
Qed.

Lemma count_of_app p a b : count_of p (a ++ b) = count_of p a + count_of p b.
Proof. unfold count_of. rewrite filter_app. apply len_app. Qed.
Lemma count_of_take p n l : 0 <= count_of p (take n l) <= count_of p l.
Proof.
  rewrite <- (take_drop n l) at 3. rewrite count_of_app.
  pose proof (len_nonneg (filter (fun i => p i = true) (take n l))).
  pose proof (len_nonneg (filter (fun i => p i = true) (drop n l))). unfold count_of in *. lia.
Qed.

(** How many entries a page of [size] has at most. *)
Definition wanted (items : list WindowItem.t) (cursor size : Z) : Z := Z.min size (len items - cursor).

(** The page of [k] entries at the cursor. *)
Definition page_of (items : list WindowItem.t) (s : WindowSummary.t) (cursor size k : Z) : WindowPage.t :=
  {| WindowPage.window_id := SESSION_WINDOW_ID; WindowPage.summary := s; WindowPage.start_index := cursor;
     WindowPage.next_index := cursor + k; WindowPage.items := page_slice items cursor k;
     WindowPage.has_more := (cursor + k <? len items);
     WindowPage.page_stop := if k =? wanted items cursor size then Complete else OutputLimit |}.

Lemma sorted_take {A} (R : A -> A -> Prop) n l : Sorted R l -> Sorted R (take n l).
Proof.
  intros Hs. revert n. induction Hs as [|x l Hs IH Hh]; intros [|n]; cbn [List.firstn]; constructor; [apply IH|].
  destruct Hh, n; cbn [List.firstn]; constructor; done.
Qed.

Lemma nodup_omap_take {A B} (f : A -> option B) n l : NoDup (omap f l) -> NoDup (omap f (take n l)).
Proof.
  intros Hnd. rewrite <- (take_drop n l), omap_app in Hnd. by apply NoDup_app in Hnd as (? & _).
Qed.

Section Accepted.
Context (query : WindowQuery.t) (items : list WindowItem.t) (s : WindowSummary.t) (Hfit : window_fit query items s).
Context (cursor size k : Z) (Hcursor : 0 <= cursor <= len items) (Hsize : 1 <= size <= MAX_ITEMS)
        (Hk : 0 <= k <= wanted items cursor size) (Hnonempty : 1 <= k \/ k = wanted items cursor size).

Lemma page_of_length : len (page_slice items cursor k) = k.
Proof. unfold wanted in Hk. apply page_slice_len; lia. Qed.

Lemma page_of_valid : WindowPage.validate (page_of items s cursor size k) = Ok tt.
Proof.
  pose proof (fit_limit _ _ _ Hfit). pose proof (fit_retained _ _ _ Hfit) as Hr.
  unfold WindowPage.validate. cbn [page_of WindowPage.window_id WindowPage.summary WindowPage.items
    WindowPage.start_index WindowPage.next_index WindowPage.has_more].
  rewrite seq_unit. split; [done|]. rewrite seq_unit, invalid_if_ok, page_of_length, Hr. split.
  - pose proof (fit_generation _ _ _ Hfit). pose proof (fit_summary _ _ _ Hfit) as Hsum.
    unfold WindowPage.summary_shape, wanted in *.
    is_false (WindowSummary.generation s =? 0). is_false (MAX_ITEMS <? len items).
    is_false (cursor + k <? cursor). is_false (len items <? cursor + k). is_true (cursor + k - cursor =? k).
    rewrite eqb_reflx. cbn [orb negb].
    assert ((k =? 0) && (cursor + k <? len items) = false) as -> by (apply andb_false_iff; rewrite Z.eqb_neq, Z.ltb_ge; lia).
    destruct (WindowSummary.found_matches s), (WindowSummary.scan_complete s), (WindowSummary.complete_negative s);
      try done. destruct Hsum as (_ & _ & -> & _). cbn [orb negb]. apply negb_false_iff, eqb_true_iff.
    destruct b, (Z.eqb_spec z 0) as [->|]; repeat case_bool_decide; cbn; congruence.
  - apply entries_loop_complete. intros i e He. cbn [page_of WindowPage.start_index WindowPage.summary].
    apply page_slice_lookup in He as [Hi He]; [|lia]. pose proof (fit_items _ _ _ Hfit) as Hall.
    rewrite Forall_lookup in Hall. destruct (validate_request_parts _ _ _ (Hall _ _ He)) as [Hv Hs].
    split_and!; [lia|done|by rewrite Hs, (fit_kind _ _ _ Hfit)|].
    destruct (WindowEntry.item e) as [item| |] eqn:Hitem; [|done..]. rewrite (fit_ranks _ _ _ Hfit _ _ He). lia.
Qed.

(** The peer that has accepted the entries before the cursor accepts the page. *)
Lemma page_of_accepted :
  WindowPage.validate_request (page_of items s cursor size k) query (page_slice items 0 cursor) size = Ok tt.
Proof.
  pose proof (fit_limit _ _ _ Hfit) as Hlim. pose proof (fit_retained _ _ _ Hfit) as Hr.
  assert (page_slice items 0 cursor ++ page_slice items cursor k = page_slice items 0 (cursor + k)) as Happ.
  { rewrite page_slice_app by lia. done. }
  assert (map WindowEntry.item (page_slice items 0 (cursor + k)) = take (Z.to_nat (cursor + k)) items) as Hmap
    by (by rewrite page_slice_items, drop_0).
  unfold WindowPage.validate_request. rewrite page_of_valid. cbn [mbind result_bind].
  rewrite (fit_query _ _ _ Hfit). cbn [mbind result_bind]. unfold validate_page_size.
  is_false (size =? 0). is_false (MAX_ITEMS <? size). cbn [orb invalid_if reject_if mbind result_bind].
  cbn [page_of WindowPage.window_id WindowPage.summary WindowPage.items WindowPage.start_index
    WindowPage.next_index WindowPage.has_more WindowPage.page_stop].
  rewrite page_of_length, page_slice_len by lia. rewrite Hr, Happ. unfold saturating_sub.
  rewrite (Z.max_r 0) by lia. fold (wanted items cursor size).
  rewrite seq_unit, invalid_if_ok. split.
  { is_true (cursor =? cursor). is_false (WindowQuery.limit query <? len items). is_false (wanted items cursor size <? k).
    rewrite (fit_kind _ _ _ Hfit), eqb_reflx. unfold is_complete. by destruct (k =? wanted items cursor size). }
  rewrite request_loop_complete.
  - cbn [mbind result_bind]. rewrite !Z.add_0_l, !count_entries, Hmap.
    pose proof (fit_summary _ _ _ Hfit) as Hsum.
    destruct (WindowSummary.found_matches s) as [total|]; [|done].
    destruct (WindowSummary.scan_complete s) as [scan|]; [|done].
    destruct (WindowSummary.complete_negative s); [|done]. destruct Hsum as (Hfound & Hgap & _ & Hstop).
    pose proof (count_of_take is_found (Z.to_nat (cursor + k)) items).
    pose proof (count_of_take is_gap (Z.to_nat (cursor + k)) items).
    apply invalid_if_ok. rewrite !orb_false_iff. split_and!; [apply Z.ltb_ge; lia| |].
    + destruct (0 <? count_of is_gap _) eqn:E; [|done]. to_prop. rewrite Hgap by lia. done.
    + destruct (cursor + k =? len items) eqn:E; [|done]. to_prop. unfold is_complete.
      case_bool_decide as Hc; [|done]. cbn [andb]. rewrite take_ge by (unfold len in *; lia).
      destruct (Hstop Hc) as [-> ->]. rewrite Z.eqb_refl, bool_decide_true by done. done.
  - pose proof (proj1 (Forall_lookup _ _) (fit_items _ _ _ Hfit)) as Hall. apply Forall_lookup. intros i e He.
    apply page_slice_lookup in He as [_ He]; [|lia]. by eapply Hall.
  - cbn [option_list app]. rewrite Hmap. apply sorted_take, (fit_order _ _ _ Hfit).
  - assert (forall l, omap point_of l = omap item_point (map WindowEntry.item l)) as Homap.
    { intros l. induction l as [|e l IH]; [done|]. cbn. rewrite IH. unfold point_of. by destruct (WindowEntry.item e). }
    rewrite app_nil_l, Homap, Hmap. eapply nodup_omap_take, (fit_points _ _ _ Hfit).
Qed.
End Accepted.

(** ** The largest page that fits *)

Section Pages.
Context `{Json SessionReply.t}.
Context (items : list WindowItem.t) (s : WindowSummary.t) (request_id cursor size : Z).

(** The written reply of [k] entries, and whether its frame is over the ceiling. *)
Definition page_written (k : Z) : written := to_writer (page_reply request_id (page_of items s cursor size k)).
Definition page_too_large (k : Z) : Prop := MAX_FRAME_BYTES < 4 + len (json_bytes (page_written k)).

Lemma clip_page_of k :
  0 <= cursor -> 1 <= k <= wanted items cursor size ->
  clip_page (page_of items s cursor size k) = page_of items s cursor size (k - 1).
Proof.
  intros Hc Hk. unfold clip_page, page_of. cbn [WindowPage.window_id WindowPage.summary WindowPage.items
    WindowPage.start_index WindowPage.next_index]. unfold wanted in *.
  f_equal; [lia| |symmetry; apply Z.ltb_lt; lia|].
  - replace k with ((k - 1) + 1) at 1 by lia. rewrite page_slice_app by lia.
    assert (exists e, page_slice items (cursor + (k - 1)) 1 = [e]) as [e ->]; [|apply removelast_last].
    destruct (lookup_lt_is_Some_2 items (Z.to_nat (cursor + (k - 1)))) as [item Hitem]; [unfold len in *; lia|].
    unfold page_slice. rewrite (drop_S _ _ _ Hitem). by eexists.
  - destruct (k - 1 =? Z.min size (len items - cursor)) eqn:E; [|done]. to_prop. lia.
Qed.

(** What the loop gives when it starts with [k] entries. *)
Definition page_result (k : Z) (p : PreparedPage) : Prop :=
  exists j, 0 <= j <= k /\ (1 <= j \/ j = k) /\ page_bytes p = frame_of (json_bytes (page_written j)) /\
    len (page_bytes p) <= MAX_FRAME_BYTES /\ expected_cursor p = cursor /\ next_cursor p = cursor + j /\
    forall i, j < i <= k -> page_too_large i.
Definition page_failure (k : Z) (e : QueryFailure) : Prop :=
  (e = Code (str "WINDOW_ITEM_TOO_LARGE") /\ forall i, (1 <= i <= k \/ i = k) -> page_too_large i) \/
  (e = protocol_failure Serialization /\ exists j, 0 <= j <= k /\ serialized (page_written j) = false).

Lemma page_loop_outcome fuel : forall k,
  0 <= cursor -> 0 <= k <= wanted items cursor size -> k <= Z.of_nat fuel + 1 ->
  (forall j, 0 <= j <= k -> 1 <= j \/ j = k ->
     SessionReply.validate (page_reply request_id (page_of items s cursor size j)) = Ok tt) ->
  outcome (page_loop fuel request_id cursor (page_of items s cursor size k)) (page_result k) (page_failure k).
Proof.
  induction fuel as [|fuel IH]; intros k Hc Hk Hfuel Hvalid.
  all: cbn [page_loop]; apply outcome_seq; [apply refines_check; auto with eliot|].
  all: eapply outcome_handle.
  all: try (unfold encode_session_reply; rewrite Hvalid by lia; rewrite lift_ok_bind; apply frame_encode_outcome;
    unfold MAX_FRAME_BYTES; lia).
  all: try (intros e ->; apply outcome_seq; [apply refines_check; auto with eliot|];
    apply outcome_fail; auto with eliot; fail).
  1, 3: intros f (-> & Hl & _); apply outcome_seq; [apply refines_check; auto with eliot|];
    apply outcome_ret; exists k; split_and!; [lia|lia|by right|done|done|done|done|intros i ?; lia].
  all: intros e He; apply outcome_seq; [apply refines_check; auto with eliot|].
  all: assert (len (WindowPage.items (page_of items s cursor size k)) = k) as Hlen
    by (unfold wanted in Hk; apply page_slice_len; lia).
  all: destruct He as [[-> Hlarge]|[-> Hs]]; [|apply outcome_fail; right; split; [done|]; exists k; split; [lia|done]].
  all: rewrite Hlen; destruct (k <=? 1) eqn:E; to_prop.
  1, 3: apply outcome_fail; left; split; [done|]; intros i Hi; replace i with k by lia; exact Hlarge.
  - lia.
  - rewrite clip_page_of by lia.
    eapply outcome_weaken; [apply IH; [lia|lia|lia|]| |].
    + intros j Hj Hj'. apply Hvalid; lia.
    + intros p (j & Hj & Hj' & Hb & Hl & He & Hn & Hall). exists j. split_and!; try done; try lia.
      intros i Hi. destruct (decide (i = k)) as [->|]; [exact Hlarge|]. apply Hall. lia.
    + intros e [[-> Hall]|[-> (j & Hj & Hs)]]; [left|right].
      * split; [done|]. intros i Hi. destruct (decide (i = k)) as [->|]; [exact Hlarge|]. apply Hall. lia.
      * split; [done|]. exists j. split; [lia|done].
Qed.
End Pages.

(** A window whose vector is fit and whose cursor is inside it. *)
Definition window_ok (query : WindowQuery.t) (w : Window) : Prop :=
  window_fit query (window_items w) (window_summary w) /\ 0 <= window_cursor w <= len (window_items w).

Lemma window_page_outcome `{Json SessionReply.t} query (w : Window) request_id size :
  window_ok query w -> request_id <> 0 -> 1 <= size <= MAX_ITEMS ->
  outcome (window_page w request_id size)
    (page_result (window_items w) (window_summary w) request_id (window_cursor w) size
       (wanted (window_items w) (window_cursor w) size))
    (page_failure (window_items w) (window_summary w) request_id (window_cursor w) size
       (wanted (window_items w) (window_cursor w) size)).
Proof.
  intros [Hfit Hc] Hid Hsize. unfold window_page. pose proof (fit_limit _ _ _ Hfit). unfold MAX_ITEMS in *.
  apply outcome_seq; [apply refines_check; auto with eliot|]. apply outcome_seq; [apply refines_reserve; auto with eliot|].
  set (k := wanted (window_items w) (window_cursor w) size).
  assert (Z.min (len (window_items w)) (window_cursor w + size) = window_cursor w + k) as -> by (unfold k, wanted; lia).
  assert (0 <= k <= len (window_items w)) as Hk by (unfold k, wanted; lia).
  replace (window_cursor w + k - window_cursor w) with k by lia.
  rewrite page_entries_ok by (unfold k, wanted in *; lia). rewrite lift_ok_bind.
  rewrite try_from_some by (unfold k, wanted in *; width). cbn [ok_or]. rewrite lift_ok_bind.
  rewrite Z2Nat.id by lia.
  assert ({| WindowPage.window_id := SESSION_WINDOW_ID; WindowPage.summary := window_summary w;
     WindowPage.start_index := window_cursor w; WindowPage.next_index := window_cursor w + k;
     WindowPage.items := page_slice (window_items w) (window_cursor w) k;
     WindowPage.has_more := window_cursor w + k <? len (window_items w); WindowPage.page_stop := Complete |}
     = page_of (window_items w) (window_summary w) (window_cursor w) size k) as ->.
  { unfold page_of. fold k. by rewrite Z.eqb_refl. }
  apply page_loop_outcome; [lia|lia|unfold len in *; lia|].
  intros j Hj Hj'. unfold SessionReply.validate. cbn [page_reply SessionReply.request_id SessionReply.outcome].
  is_false (request_id =? 0). cbn [andb reject_if mbind result_bind].
  apply (page_of_valid query); [done|lia|unfold MAX_ITEMS; lia|lia|lia].
Qed.

(** ** The vectors of the three queries are fit *)

Section LiteralFit.
Context {T : Type} `{LiteralItem T} (inj : T -> WindowItem.t).
Hypothesis Horder : forall a b, precedes a b -> in_order (inj a) (inj b).
Hypothesis Hfound : forall a, is_found (inj a) = li_match a.
Hypothesis Hgap : forall a, is_gap (inj a) = negb (li_match a).
Hypothesis Hkind : forall a, WindowItem.is_search (inj a) = false.

Lemma count_found items : count_of is_found (inj <$> items) = matches_in items.
Proof.
  unfold count_of, matches_in. induction items as [|a items IH]; [done|]. rewrite fmap_cons, !filter_cons, Hfound.
  repeat case_decide; rewrite ?len_cons; try done. lia.
Qed.
Lemma count_gaps items : count_of is_gap (inj <$> items) = gaps_in items.
Proof.
  unfold count_of, gaps_in. induction items as [|a items IH]; [done|]. rewrite fmap_cons, !filter_cons, Hgap.
  destruct (li_match a); cbn; repeat case_decide; rewrite ?len_cons; try done. lia.
Qed.

Lemma literal_fit query generation items limit selected scanned gaps found scan negative stop :
  result_facts limit selected scanned gaps found items scan negative stop ->
  WindowQuery.validate query = Ok tt -> WindowQuery.limit query = limit -> WindowQuery.is_search query = false ->
  generation <> 0 -> Forall (fun a => WindowItem.validate_request (inj a) query generation = Ok tt) items ->
  window_fit query (inj <$> items) (exact_summary generation (len (inj <$> items)) found scan negative stop).
Proof.
  intros (Hsort & _ & _ & Hlim & Hm & Hg & Hstop & Hscan & Hneg & _) Hq <- Hs Hgen Hall.
  pose proof (counts_nonneg items) as [? ?]. constructor; cbn [exact_summary WindowSummary.retained_items
    WindowSummary.generation WindowSummary.found_matches WindowSummary.scan_complete
    WindowSummary.complete_negative WindowSummary.result_stop].
  - done.
  - done.
  - unfold len in *. rewrite length_fmap. lia.
  - done.
  - by apply Forall_fmap.
  - apply StronglySorted_Sorted in Hsort. clear -Hsort Horder. induction Hsort as [|a l Hs IH Hh]; cbn; constructor; [done|].
    destruct Hh; cbn; constructor. by apply Horder.
  - assert (omap item_point (inj <$> items) = []) as ->; [|constructor]. clear -Hkind.
    induction items as [|a items IH]; [done|]. cbn. rewrite IH. specialize (Hkind a). by destruct (inj a).
  - intros i item Hi. rewrite list_lookup_fmap in Hi. destruct (items !! i) as [a|]; [|done].
    injection Hi as Ha. specialize (Hkind a). by rewrite Ha in Hkind.
  - by rewrite Hs.
  - rewrite count_found, count_gaps. split_and!.
    + lia.
    + intros Hpos. apply not_true_is_false. rewrite Hscan. lia.
    + apply eq_true_iff_eq. rewrite Hneg, andb_true_iff, Hscan, Z.eqb_eq. done.
    + intros Hc. apply Hstop in Hc as [-> Hc]. split; [done|]. apply eq_true_iff_eq. rewrite Hscan, Z.eqb_eq. lia.
Qed.
End LiteralFit.

Lemma raw_literal_each literal length items :
  RawExactResult.literal_loop literal length items = Ok tt ->
  Forall (fun item => match item with
    | RawExactItem.Match hit => (negb (RawExactMatch.stop hit - RawExactMatch.start hit =? length)
        || hex_differs (RawExactMatch.bytes_hex hit) literal) = false
    | RawExactItem.Gap _ => True end) items.
Proof.
  induction items as [|item items IH]; intros Hl; constructor; cbn [RawExactResult.literal_loop] in Hl;
    apply bind_ok_inv in Hl as ([] & Hi & Hl); [|by apply IH].
  destruct item; [|done]. by apply invalid_if_ok in Hi.
Qed.
Lemma decoded_literal_each literal items :
  DecodedUtf8Result.literal_loop literal items = Ok tt ->
  Forall (fun item => match item with
    | DecodedUtf8Item.Match hit => DecodedUtf8Match.text hit = literal
    | DecodedUtf8Item.Gap _ => True end) items.
Proof.
  induction items as [|item items IH]; intros Hl; constructor; cbn [DecodedUtf8Result.literal_loop] in Hl;
    apply bind_ok_inv in Hl as ([] & Hi & Hl); [|by apply IH].
  destruct item; [|done]. apply invalid_if_ok in Hi. by to_prop.
Qed.

Lemma existsb_none {A} (p : A -> bool) l a : existsb p l = false -> a ∈ l -> p a = false.
Proof.
  intros Hp Ha. apply not_true_is_false. intros Hpa. apply not_false_iff_true in Hpa.
  revert Hp. apply not_false_iff_true. apply existsb_exists. exists a. split; [by apply list_elem_of_In|].
  by apply not_false_iff_true in Hpa.
Qed.

Lemma raw_fit generation r request :
  generation <> 0 -> RawExactResult.validate_request r request = Ok tt ->
  window_fit (WindowQuery.Raw request) (WindowItem.Raw <$> RawExactResult.items r)
    (exact_summary generation (len (WindowItem.Raw <$> RawExactResult.items r)) (RawExactResult.matches r)
       (RawExactResult.scan_complete r) (RawExactResult.complete_negative r) (RawExactResult.stop r)).
Proof.
  intros Hgen Hv. unfold RawExactResult.validate_request in Hv. apply bind_ok_inv in Hv as ([] & Hq & Hv).
  apply bind_ok_inv in Hv as ([] & Hself & Hv). apply bind_ok_inv in Hv as ([] & Hids & Hv).
  apply bind_ok_inv in Hv as (length & Hl%ok_or_inv%try_from_inv & Hv). destruct Hl as [-> _].
  apply raw_literal_each in Hv. pose proof (raw_result_facts _ _ Hself) as Hfacts.
  eapply literal_fit; try done.
  - intros a b [Hns Hab]. unfold in_order, window_order. rewrite bool_decide_true by done. cbn [andb].
    destruct Hab as [Hlt|[Heq Hlater]]; apply orb_true_iff; [left; exact Hlt|right].
    cbn in Heq. rewrite bool_decide_true by done. exact Hlater.
  - by intros [].
  - destruct Hfacts as (_ & Hvalid & _). rewrite Forall_forall in Hvalid, Hv. apply Forall_forall. intros item Hi.
    unfold WindowItem.validate_request. cbn [WindowItem.validate]. pose proof (Hvalid item Hi) as Hok. cbn in Hok.
    rewrite Hok. cbn [mbind result_bind]. specialize (Hv item Hi). destruct item as [hit|gap].
    + unfold invalid_if at 1. rewrite Hv. cbn [reject_if mbind result_bind]. apply invalid_if_ok.
      destruct (RawExactRequest.source_ids request) as [ids|]; [|done]. apply invalid_if_ok, orb_false_iff in Hids as [_ Hids].
      by apply (existsb_none _ _ _ Hids) in Hi.
    + cbn [mbind result_bind]. apply invalid_if_ok.
      destruct (RawExactRequest.source_ids request) as [ids|]; [|done]. apply invalid_if_ok, orb_false_iff in Hids as [_ Hids].
      by apply (existsb_none _ _ _ Hids) in Hi.
Qed.

Lemma decoded_fit generation r request :
  generation <> 0 -> DecodedUtf8Result.validate_request r request = Ok tt ->
  window_fit (WindowQuery.DecodedUtf8 request) (WindowItem.DecodedUtf8 <$> DecodedUtf8Result.items r)
    (exact_summary generation (len (WindowItem.DecodedUtf8 <$> DecodedUtf8Result.items r)) (DecodedUtf8Result.matches r)
       (DecodedUtf8Result.scan_complete r) (DecodedUtf8Result.complete_negative r) (DecodedUtf8Result.stop r)).
Proof.
  intros Hgen Hv. unfold DecodedUtf8Result.validate_request in Hv. apply bind_ok_inv in Hv as ([] & Hq & Hv).
  apply bind_ok_inv in Hv as ([] & Hself & Hv). apply bind_ok_inv in Hv as ([] & Hids & Hv).
  apply decoded_literal_each in Hv. pose proof (decoded_result_facts _ _ Hself) as Hfacts.
  eapply literal_fit; try done.
  - intros a b [Hns Hab]. unfold in_order, window_order. rewrite bool_decide_true by done. cbn [andb].
    destruct Hab as [Hlt|[Heq Hlater]]; apply orb_true_iff; [left; exact Hlt|right].
    cbn in Heq. rewrite bool_decide_true by done. exact Hlater.
  - by intros [].
  - destruct Hfacts as (_ & Hvalid & _). rewrite Forall_forall in Hvalid, Hv. apply Forall_forall. intros item Hi.
    unfold WindowItem.validate_request. cbn [WindowItem.validate]. pose proof (Hvalid item Hi) as Hok. cbn in Hok.
    rewrite Hok. cbn [mbind result_bind]. specialize (Hv item Hi). destruct item as [hit|gap].
    + rewrite bool_decide_true by done. cbn [negb invalid_if reject_if mbind result_bind]. apply invalid_if_ok.
      destruct (DecodedUtf8Request.source_ids request) as [ids|]; [|done]. apply invalid_if_ok, orb_false_iff in Hids as [_ Hids].
      by apply (existsb_none _ _ _ Hids) in Hi.
    + cbn [mbind result_bind]. apply invalid_if_ok.
      destruct (DecodedUtf8Request.source_ids request) as [ids|]; [|done]. apply invalid_if_ok, orb_false_iff in Hids as [_ Hids].
      by apply (existsb_none _ _ _ Hids) in Hi.
Qed.

Lemma search_fit generation items request :
  generation <> 0 -> SearchRequest.validate request = Ok tt -> len items <= SearchRequest.limit request ->
  (forall i item, items !! i = Some item ->
     SearchItem.validate item generation = Ok tt /\ SearchItem.rank item = Z.of_nat i + 1) ->
  NoDup (map (fun item => EvidenceMetadata.point_id (SearchItem.evidence item)) items) ->
  window_fit (WindowQuery.Search request) (WindowItem.Search <$> items)
    (search_summary generation (len (WindowItem.Search <$> items))).
Proof.
  intros Hgen Hq Hlen Hall Hnd. constructor; cbn [search_summary WindowSummary.retained_items
    WindowSummary.generation WindowSummary.found_matches WindowSummary.scan_complete
    WindowSummary.complete_negative WindowSummary.result_stop WindowQuery.limit]; try done.
  - unfold len in *. rewrite length_fmap. split; [done|]. unfold SearchRequest.validate in Hq.
    apply invalid_if_ok in Hq. to_prop. lia.
  - apply Forall_fmap, Forall_lookup. intros i item Hi. cbn. destruct (Hall i item Hi) as [Hv _].
    unfold WindowItem.validate_request. cbn [WindowItem.validate]. by rewrite Hv.
  - assert (len items <= 255) as Hmax.
    { unfold SearchRequest.validate in Hq. apply invalid_if_ok in Hq. to_prop. unfold MAX_ITEMS in *. lia. }
    assert (forall k, (forall i item, items !! i = Some item -> SearchItem.rank item = k + Z.of_nat i + 1) ->
      0 <= k -> k + len items <= 255 -> Sorted in_order (WindowItem.Search <$> items)) as Hsort.
    { clear. induction items as [|a items IH]; intros k Hk H0 Hl; cbn; constructor.
      - rewrite len_cons in Hl. apply (IH (k + 1)); [|lia|lia]. intros i item Hi. rewrite (Hk (S i) item Hi). lia.
      - destruct items as [|b items]; cbn; constructor. unfold in_order, window_order. apply bool_decide_eq_true_2.
        rewrite !len_cons in Hl. pose proof (len_nonneg items).
        rewrite (Hk 0%nat a eq_refl), (Hk 1%nat b eq_refl), checked_add_some by width. f_equal. lia. }
    apply (Hsort 0); [|lia|lia]. intros i item Hi. destruct (Hall i item Hi) as [_ ->]. lia.
  - assert (omap item_point (WindowItem.Search <$> items)
      = map (fun item => EvidenceMetadata.point_id (SearchItem.evidence item)) items) as ->; [|done].
    clear. induction items as [|a items IH]; [done|]. cbn. by rewrite <- IH.
  - intros i item Hi. rewrite list_lookup_fmap in Hi. destruct (items !! i) as [a|] eqn:Ha; [|done].
    injection Hi as <-. by destruct (Hall i a Ha).
Qed.

(** A result the executors return has passed its own validation. *)
Lemma raw_execute_valid blake3 root view request w r :
  run (raw_execute blake3 root view request) w = Ok r -> RawExactResult.validate_request r request = Ok tt.
Proof.
  unfold raw_execute. intros Hr. repeat (apply run_bind_ok in Hr as (? & ? & _ & Hr)).
  unfold run, lift in Hr. cbn [fst] in Hr. unfold raw_finish in Hr. cbv zeta in Hr.
  apply bind_ok_inv in Hr as (total & _ & Hr). apply bind_ok_inv in Hr as ([] & Hv%map_err_ok & Hr).
  by apply ok_inj in Hr as <-.
Qed.
Lemma decoded_execute_valid blake3 root view request w r :
  run (decoded_execute blake3 root view request) w = Ok r -> DecodedUtf8Result.validate_request r request = Ok tt.
Proof.
  unfold decoded_execute. intros Hr. repeat (apply run_bind_ok in Hr as (? & ? & _ & Hr)).
  unfold run, lift in Hr. cbn [fst] in Hr. unfold decoded_finish in Hr. cbv zeta in Hr.
  apply bind_ok_inv in Hr as (total & _ & Hr). apply bind_ok_inv in Hr as ([] & Hv%map_err_ok & Hr).
  by apply ok_inj in Hr as <-.
Qed.

(** ** Opening, paging, committing *)

Lemma window_query_fit blake3 root `{Prost UpsertPoints, Prost Named, Prost GetPoints, Prost QueryPoints, Prost Probe}
    variable server channel in_runtime view endpoint query w found :
  view_resolves view -> 0 < view_generation (pinned view) <= U64_MAX ->
  run (window_query blake3 variable server channel in_runtime root view endpoint query) w = Ok found ->
  window_fit query (fst found) (snd found (len (fst found))).
Proof.
  intros Hview Hgen Hrun. destruct query as [request|request|request]; cbn [window_query] in Hrun.
  - apply run_lift_ok in Hrun as (e & _ & Hrun). apply run_bind_ok in Hrun as (items & w1 & Hs & Hrun).
    apply ok_inj in Hrun as <-.
    edestruct search_items as (_ & _ & _ & _ & _ & _ & Hv & Hl & Hall & Hnd); [exact Hview|exact Hgen| |].
    { unfold run. rewrite Hs. reflexivity. }
    apply search_fit; [lia|done..].
  - apply run_bind_ok in Hrun as (r & w1 & Hr & Hrun). apply ok_inj in Hrun as <-. apply raw_fit; [lia|].
    assert (run (raw_execute blake3 root (pinned view) request) w = Ok r) as Hok by (unfold run; by rewrite Hr).
    by apply raw_execute_valid in Hok.
  - apply run_bind_ok in Hrun as (r & w1 & Hr & Hrun). apply ok_inj in Hrun as <-. apply decoded_fit; [lia|].
    assert (run (decoded_execute blake3 root (pinned view) request) w = Ok r) as Hok by (unfold run; by rewrite Hr).
    by apply decoded_execute_valid in Hok.
Qed.

(** What the opener relies on: [pin_published] gives a view of a settled generation that
    resolves only its own points. *)
Class Pins (pin_published : directory -> M Pub.t View) := {
  pins_resolves root w view : run (pin_published root) w = Ok view -> view_resolves view;
  pins_generation root w view : run (pin_published root) w = Ok view -> 0 < view_generation (pinned view) <= U64_MAX }.

Lemma window_opened blake3 `{Prost UpsertPoints, Prost Named, Prost GetPoints, Prost QueryPoints, Prost Probe}
    variable server channel in_runtime open_plain pin_published `{!Pins pin_published} endpoint query expires w win :
  run (window_open blake3 variable server channel in_runtime open_plain pin_published endpoint query expires) w = Ok win ->
  window_ok query win /\ window_cursor win = 0 /\ window_expires win = expires /\
  exists root w1, run open_plain w1 = Ok root /\ window_root win = root /\
  exists w2, run (pin_published root) w2 = Ok (window_view win).
Proof.
  intros Hrun. unfold window_open in Hrun. apply run_bind_ok in Hrun as (_ & w1 & _ & Hrun).
  apply run_lift_ok in Hrun as ([] & _ & Hrun). apply run_bind_ok in Hrun as (_ & w2 & _ & Hrun).
  apply run_bind_ok in Hrun as (root & w3 & Hroot & Hrun). apply run_bind_ok in Hrun as (view & w4 & Hview & Hrun).
  apply run_bind_ok in Hrun as (found & w5 & Hfound & Hrun). apply run_lift_ok in Hrun as (retained & Hret & Hrun).
  apply run_bind_ok in Hrun as (_ & w6 & _ & Hrun). apply ok_inj in Hrun as <-. cbn.
  apply ok_or_inv, try_from_inv in Hret as [-> _].
  apply lift_err_ok in Hroot. apply lift_err_ok in Hview.
  split; [split; [|cbn; split; [lia|apply len_nonneg]]|].
  - refine (window_query_fit blake3 root variable server channel in_runtime view endpoint query w4 found _ _ _).
    + by apply (pins_resolves root w3).
    + by apply (pins_generation root w3).
    + unfold run. by rewrite Hfound.
  - split_and!; [done|done|]. exists root. eauto.
Qed.

Lemma window_summary_generation blake3 `{Prost UpsertPoints, Prost Named, Prost GetPoints, Prost QueryPoints, Prost Probe}
    variable server channel in_runtime open_plain pin_published endpoint query expires w win :
  run (window_open blake3 variable server channel in_runtime open_plain pin_published endpoint query expires) w = Ok win ->
  WindowSummary.generation (window_summary win) = view_generation (pinned (window_view win)).
Proof.
  unfold window_open. intros Hrun. repeat (apply run_bind_ok in Hrun as (? & ? & ? & Hrun)).
  apply ok_inj in Hrun as <-. cbn.
  match goal with Hq : window_query _ _ _ _ _ _ _ _ _ ?w0 = (Ok ?found, _) |- _ => assert (run (window_query blake3
    variable server channel in_runtime _ _ endpoint query) w0 = Ok found) as Hfound by (unfold run; by rewrite Hq) end.
  destruct query; cbn [window_query] in Hfound.
  all: repeat (apply run_bind_ok in Hfound as (? & ? & _ & Hfound)).
  all: apply ok_inj in Hfound as <-; done.
Qed.

Lemma commit_page_ok query w k :
  window_ok query w -> 0 <= k -> window_cursor w + k <= len (window_items w) ->
  exists w', commit_page w (window_cursor w) (window_cursor w + k) = Ok w' /\
    window_ok query w' /\ window_cursor w' = window_cursor w + k /\
    window_items w' = window_items w /\ window_summary w' = window_summary w /\ window_view w' = window_view w.
Proof.
  intros [Hfit Hc] Hk Hn. unfold commit_page. is_true (window_cursor w =? window_cursor w).
  is_false (window_cursor w + k <? window_cursor w). is_false (len (window_items w) <? window_cursor w + k).
  eexists. split; [reflexivity|]. split_and!; try done. split; [exact Hfit|cbn; lia].
Qed.

(** C24. A page is the largest that fits, and the peer accepts it.  For a window over a fit
    vector, [page] fails only with an interruption, with WINDOW_ITEM_TOO_LARGE when not
    even one entry fits a frame, or with the serializer's own failure.  A page it returns
    holds the next entries in order, at least one unless the vector is exhausted, within
    the frame ceiling; one entry more would not have fit; the client that holds the
    entries before the cursor accepts it for its query; and committing it is never stale
    and moves the cursor just past it. *)
Theorem window_page_largest `{Json SessionReply.t} query w request_id size
    (Hok : window_ok query w) (Hid : request_id <> 0) (Hsize : 1 <= size <= MAX_ITEMS) :
  outcome (window_page w request_id size)
    (fun p => exists k,
       let items := window_items w in
       let page := page_of items (window_summary w) (window_cursor w) size k in
       0 <= k <= wanted items (window_cursor w) size /\ (k = 0 -> window_cursor w = len items) /\
       page_bytes p = frame_of (json_bytes (to_writer (page_reply request_id page))) /\
       len (page_bytes p) <= MAX_FRAME_BYTES /\
       (forall i, k < i <= wanted items (window_cursor w) size ->
          page_too_large items (window_summary w) request_id (window_cursor w) size i) /\
       WindowPage.validate_request page query (page_slice items 0 (window_cursor w)) size = Ok tt /\
       exists w', commit_page w (expected_cursor p) (next_cursor p) = Ok w' /\
         window_ok query w' /\ window_cursor w' = window_cursor w + k)
    (page_failure (window_items w) (window_summary w) request_id (window_cursor w) size
       (wanted (window_items w) (window_cursor w) size)).
Proof.
  eapply outcome_weaken; [by apply (window_page_outcome query)| |done].
  intros p (k & Hk & Hk1 & Hb & Hl & He & Hn & Hbig). exists k. cbv zeta. rewrite He, Hn.
  destruct (commit_page_ok query w k Hok) as (w' & Hcommit & Hok' & Hcur & _); [lia|unfold wanted in Hk; lia|].
  destruct Hok as [Hfit Hcursor].
  split_and!; try done; try lia.
  - unfold wanted in *. lia.
  - apply page_of_accepted; (done || lia).
  - by exists w'.
Qed.

(** An opened window is one its pages can be trusted from.  When [open] answers, the
    query was valid, the view is one that was pinned, the cursor is at the start, and the
    retained vector answers the query: every item valid for it, in order, search results
    ranked and distinct, at most the requested number, and the summary's counts, scan and
    negative claims true of the items. *)
Theorem window_open_fit blake3 `{Prost UpsertPoints, Prost Named, Prost GetPoints, Prost QueryPoints, Prost Probe}
    variable server channel in_runtime open_plain pin_published `{!Pins pin_published} endpoint query expires w win
    (Hrun : run (window_open blake3 variable server channel in_runtime open_plain pin_published endpoint query expires) w
            = Ok win) :
  window_fit query (window_items win) (window_summary win) /\ window_cursor win = 0 /\
  WindowSummary.generation (window_summary win) = view_generation (pinned (window_view win)) /\
  exists root w1, run (pin_published root) w1 = Ok (window_view win).
Proof.
  pose proof (window_summary_generation blake3 variable server channel in_runtime open_plain pin_published
    endpoint query expires w win Hrun) as Hgen.
  destruct (window_opened blake3 variable server channel in_runtime open_plain pin_published endpoint query expires
    w win Hrun) as ([Hfit _] & Hc & _ & root & _ & _ & _ & w2 & Hpin). eauto 6.
Qed.

(** ** The context of an emitted item *)

Lemma slice_within {A} (l x y : list A) a b s e :
  slice l a b = Some x -> slice l s e = Some y -> a <= s -> e <= b -> slice x (s - a) (e - a) = Some y.
Proof.
  intros Hx Hy Ha Hb. pose proof (slice_length _ _ _ _ Hx) as Hlx. apply slice_inv in Hx as (? & ? & Hx).
  apply slice_inv in Hy as (? & ? & Hy). rewrite slice_some by lia. f_equal. subst x y.
  rewrite skipn_firstn_comm, firstn_firstn, drop_drop. f_equal; [lia|f_equal; lia].
Qed.

Lemma slice_at {A} (l x : list A) a b i c :
  slice l a b = Some x -> at_ x i = Some c -> at_ l (a + i) = Some c.
Proof.
  intros Hx Hc. apply slice_inv in Hx as (? & ? & ->). unfold at_ in *.
  destruct (0 <=? i) eqn:Hi; [|done]. to_prop. is_true (0 <=? a + i).
  apply lookup_take_Some in Hc as [Hc _]. rewrite lookup_drop in Hc. by replace (Z.to_nat (a + i)) with (Z.to_nat a + Z.to_nat i)%nat by lia.
Qed.

Lemma sub_boundary l x a b s :
  slice l a b = Some x -> is_char_boundary l s = true -> a <= s <= b -> is_char_boundary x (s - a) = true.
Proof.
  intros Hx Hs Hr. pose proof (slice_length _ _ _ _ Hx) as Hlx. pose proof (slice_inv _ _ _ _ Hx) as (? & ? & _).
  unfold is_char_boundary in *. destruct (s - a =? 0) eqn:E0; [done|]. to_prop. replace (s =? 0) with false in Hs by lia.
  destruct (at_ x (s - a)) as [c|] eqn:Hc.
  - apply (slice_at _ _ _ _ _ _ Hx) in Hc. replace (a + (s - a)) with s in Hc by lia. by rewrite Hc in Hs.
  - apply Z.eqb_eq. destruct (decide (s = b)) as [->|]; [lia|]. exfalso. unfold at_ in Hc.
    replace (0 <=? s - a) with true in Hc by lia. apply lookup_ge_None in Hc. unfold len in Hlx. lia.
Qed.

(** The client finds the item's text at its place in the expansion. *)
Lemma str_get_within text x y a b s e :
  str_get text a b = Some x -> str_get text s e = Some y -> a <= s -> e <= b ->
  str_get x (s - a) (e - a) = Some y.
Proof.
  unfold str_get. intros Hx Hy Ha Hb. destruct (is_char_boundary text a && is_char_boundary text b); [|done].
  destruct (is_char_boundary text s && is_char_boundary text e) eqn:Hse; [|done].
  apply andb_true_iff in Hse as [Hs He]. pose proof (slice_inv _ _ _ _ Hy) as (? & ? & _).
  rewrite (sub_boundary _ _ _ _ _ Hx Hs), (sub_boundary _ _ _ _ _ Hx He) by lia.
  by eapply slice_within.
Qed.

Lemma hex_encode_drop n bs : drop (2 * n) (hex_encode bs) = hex_encode (drop n bs).
Proof.
  revert bs. induction n as [|n IH]; intros bs; [done|]. destruct bs as [|b bs]; [by rewrite drop_nil|].
  replace (2 * S n)%nat with (S (S (2 * n))) by lia. rewrite hex_encode_cons. cbn [hex_pair app drop skipn]. apply IH.
Qed.

Lemma str_get_ascii l s e : Forall (fun d => lower_hex_byte d = true) l -> 0 <= s <= e -> e <= len l ->
  str_get l s e = slice l s e.
Proof.
  intros Hl Hs He. unfold str_get.
  assert (forall i, 0 <= i <= len l -> is_char_boundary l i = true) as Hb.
  { intros i Hi. unfold is_char_boundary. destruct (i =? 0); [done|]. destruct (at_ l i) as [c|] eqn:Hc.
    - unfold at_ in Hc. destruct (0 <=? i); [|done]. rewrite Forall_lookup in Hl. specialize (Hl _ _ Hc).
      unfold lower_hex_byte, ascii_digit, ascii_af in Hl. unfold continuation, between. lia.
    - apply Z.eqb_eq. unfold at_ in Hc. replace (0 <=? i) with true in Hc by lia.
      apply lookup_ge_None in Hc. unfold len in *. lia. }
  by rewrite !Hb by lia.
Qed.

Lemma hex_within bytes x y a b s e :
  Forall (fun d => lower_hex_byte d = true) (hex_encode x) ->
  slice bytes a b = Some x -> slice bytes s e = Some y -> a <= s -> e <= b ->
  str_get (hex_encode x) ((s - a) * 2) ((e - a) * 2) = Some (hex_encode y).
Proof.
  intros Hxok Hx Hy Ha Hb. pose proof (slice_length _ _ _ _ Hx) as Hlx.
  pose proof (slice_within _ _ _ _ _ _ _ Hx Hy Ha Hb) as Hin. apply slice_inv in Hin as (? & ? & ->).
  assert (len (hex_encode x) = 2 * len x) as Hlen by (unfold len; rewrite hex_encode_length; lia).
  rewrite str_get_ascii; [|exact Hxok|lia|lia].
  rewrite slice_some by lia. f_equal.
  replace (Z.to_nat ((e - a) * 2 - (s - a) * 2)) with (2 * Z.to_nat (e - a - (s - a)))%nat by lia.
  replace (Z.to_nat ((s - a) * 2)) with (2 * Z.to_nat (s - a))%nat by lia.
  by rewrite hex_encode_drop, hex_encode_take.
Qed.

Lemma anchor_origin item a :
  Anchor.from_item item = Ok a ->
  exists o, WindowExpansion.original_of item = Some o /\
    WindowExpansion.o_namespace o = Anchor.source_namespace_id a /\ WindowExpansion.o_id o = Anchor.id a /\
    WindowExpansion.o_input o = Anchor.input a /\ WindowExpansion.o_prepared o = Anchor.prepared a /\
    WindowExpansion.o_start o = Anchor.start a /\ WindowExpansion.o_end o = Anchor.stop a /\
    WindowExpansion.o_source o = Anchor.source a /\
    match Anchor.prepared a with
    | Some _ => WindowExpansion.o_text o = Some (Anchor.original a) /\ WindowExpansion.o_hex o = None
    | None => WindowExpansion.o_text o = None /\ WindowExpansion.o_hex o = Some (Anchor.original a)
    end.
Proof.
  intros H. destruct item as [[]|[]|[]]; try discriminate H; cbn in H; injection H as H; subst a.
  all: eexists; split; [reflexivity|]; cbn; split_and!; reflexivity.
Qed.

Lemma context_ok a before after s e :
  Anchor.context a before after = Ok (s, e) -> 0 <= before -> 0 <= after ->
  s = Anchor.start a - before /\ 0 <= s /\ e = Anchor.stop a + after /\ e <= U64_MAX /\
  e <= ObjectRefDto.bytes (Anchor.input a) /\ Anchor.start a < Anchor.stop a.
Proof.
  intros H Hb Ha. unfold Anchor.context in H. apply bind_ok_inv in H as (s0 & Hs%ok_or_inv & H).
  apply bind_ok_inv in H as (e0 & He%ok_or_inv & H). apply bind_ok_inv in H as ([] & Hg%reject_if_ok & H).
  apply bind_ok_inv in H as (s1 & Hs1%ok_or_inv%try_from_inv & H). destruct Hs1 as [-> _].
  apply bind_ok_inv in H as (e1 & He1%ok_or_inv%try_from_inv & H). destruct He1 as [-> _].
  apply ok_inj in H as [= <- <-]. apply checked_sub_inv in Hs as [-> ?].
  apply option_keep_inv in He as [[-> ?]%checked_add_inv ?]. to_prop. lia.
Qed.

Lemma run_match_result {E F A B} (m : M E A) (k : result E A -> M F B) w b :
  run (match_result m k) w = Ok b -> exists r w', m w = (r, w') /\ run (k r) w' = Ok b.
Proof. unfold run, match_result. destruct (m w) as [r w']. eauto. Qed.

Lemma bind_run {E A B} (m : M E A) (k : A -> M E B) w b w' :
  (m ≫= k) w = (Ok b, w') -> exists a v, m w = (Ok a, v) /\ k a v = (Ok b, w').
Proof. unfold mbind, M_bind. destruct (m w) as [[a|e] v]; [eauto|done]. Qed.
Lemma mret_run {E A} (a b : A) w w' : (mret a : M E A) w = (Ok b, w') -> a = b.
Proof. by intros [= -> _]. Qed.
Lemma lift_run {E A} (r : result E A) w a w' : lift r w = (Ok a, w') -> r = Ok a.
Proof. by intros [= -> _]. Qed.
Lemma hex_run bytes w digits w' : hex bytes w = (Ok digits, w') -> digits = hex_encode bytes.
Proof. intros H. pose proof (refines_ok _ _ w digits (hex_refines bytes) (f_equal fst H)) as Heq. by injection Heq. Qed.

(** What the visitor of [execute] has stored. *)
Lemma visit_representation_stored blake3 root captured anchor expected original range w stored :
  run (visit_representation blake3 root captured (expand_visit anchor expected original range) None) w = Ok (None, stored) ->
  exists text whole, stored = Some (expected, text) /\
    str_get whole (fst range) (snd range) = Some text /\
    str_get whole (fst original) (snd original) = Some (Anchor.original anchor).
Proof.
  unfold visit_representation. intros Hr. apply run_bind_ok in Hr as (_ & w1 & _ & Hr).
  apply run_lift_ok in Hr as (outcome & _ & Hr). destruct (outcome_result outcome) as [artifact|]; [|done].
  apply run_match_result in Hr as (r1 & w2 & _ & Hr). destruct r1 as [source|[]]; try done.
  apply run_match_result in Hr as (r2 & w3 & _ & Hr). destruct r2 as [bytes|[]]; try done.
  apply run_bind_ok in Hr as (utf8 & w4 & _ & Hr). apply run_bind_ok in Hr as (_ & w5 & _ & Hr).
  apply run_bind_ok in Hr as (_ & w6 & _ & Hr). apply run_bind_ok in Hr as (s & w7 & Hv & Hr).
  apply ok_inj in Hr as [= ->].
  assert (run (expand_visit anchor expected original range artifact utf8 None) w6 = Ok stored) as Hrun
    by (unfold run; by rewrite Hv).
  clear Hv. unfold expand_visit in Hrun. apply run_bind_ok in Hrun as (prepared & w8 & _ & Hrun).
  apply run_lift_ok in Hrun as ([] & Hg%reject_if_ok & Hrun). apply run_lift_ok in Hrun as (text & Ht%ok_or_inv & Hrun).
  apply run_bind_ok in Hrun as (_ & w9 & _ & Hrun). apply ok_inj in Hrun as <-. to_prop.
  exists text, (prepared_text utf8). split_and!; congruence.
Qed.

(** The content of an expansion against the item it expands, as the client compares them. *)
Definition content_holds (a : Anchor.t) (start : Z) (e : WindowExpansion.t) : Prop :=
  WindowExpansion.prepared e = Anchor.prepared a /\
  match WindowExpansion.content e with
  | ExpansionContent.Utf8 text =>
      Anchor.prepared a <> None /\
      str_get text (Anchor.start a - start) (Anchor.stop a - start) = Some (Anchor.original a)
  | ExpansionContent.Raw digits =>
      Anchor.prepared a = None /\
      str_get digits ((Anchor.start a - start) * 2) ((Anchor.stop a - start) * 2) = Some (Anchor.original a)
  end.

Lemma expansion_digits e digits :
  WindowExpansion.validate e = Ok tt -> WindowExpansion.content e = ExpansionContent.Raw digits ->
  Forall (fun d => lower_hex_byte d = true) digits.
Proof.
  intros Hv Hc. unfold WindowExpansion.validate in Hv. repeat (apply bind_ok_inv in Hv as (? & _ & Hv)).
  rewrite Hc in Hv. destruct (WindowExpansion.prepared e); [done|].
  apply bind_ok_inv in Hv as (n & _ & Hv%invalid_if_ok). apply negb_false_iff in Hv. unfold lower_hex in Hv. apply andb_true_iff in Hv as [_ Hv].
  rewrite forallb_forall in Hv. apply Forall_forall. intros b Hb%list_elem_of_In. by apply Hv.
Qed.

Lemma expand_execute_holds blake3 root view index item before after w e :
  (forall id w c, run (view_source view id) w = Ok c -> source_id (captured_source c) = id) ->
  0 <= before -> 0 <= after ->
  run (expand_execute blake3 root view index item before after) w = Ok e ->
  exists a, Anchor.from_item item = Ok a /\
    let start := Anchor.start a - before in
    0 <= start /\ Anchor.start a < Anchor.stop a /\
    Anchor.stop a + after <= U64_MAX /\ Anchor.stop a + after <= ObjectRefDto.bytes (Anchor.input a) /\
    WindowExpansion.validate e = Ok tt /\ WindowExpansion.window_id e = SESSION_WINDOW_ID /\
    WindowExpansion.item_index e = index /\ WindowExpansion.representation_start e = start /\
    WindowExpansion.representation_end e = Anchor.stop a + after /\
    RawSourceRef.source_namespace_id (WindowExpansion.source e) = Anchor.source_namespace_id a /\
    RawSourceRef.source_id (WindowExpansion.source e) = Anchor.id a /\
    RawSourceRef.input (WindowExpansion.source e) = Anchor.input a /\
    (forall s, Anchor.source a = Some s -> s = WindowExpansion.source e) /\
    content_holds a start e.
Proof.
  intros Hview Hb Ha Hr. unfold expand_execute in Hr. apply run_bind_ok in Hr as (_ & w1 & _ & Hr).
  apply run_lift_ok in Hr as (a & Hitem & Hr). apply run_lift_ok in Hr as ([s0 e0] & Hctx & Hr).
  apply (context_ok a before after s0 e0) in Hctx as (-> & H0 & -> & Hmax & Hbytes & Hlt); [|done..].
  cbn [fst snd] in Hr. apply run_lift_ok in Hr as (s1 & Hs1%ok_or_inv%try_from_inv & Hr). destruct Hs1 as [-> _].
  apply run_lift_ok in Hr as (e1 & He1%ok_or_inv%try_from_inv & Hr). destruct He1 as [-> _].
  apply run_lift_ok in Hr as (id & Hid%map_err_ok%Uuid.parse_ok_display & Hr). destruct Hid as [Hid _].
  apply run_bind_ok in Hr as (captured & w2 & Hsrc%lift_err_ok%Hview & Hr).
  apply run_bind_ok in Hr as (source & w3 & Hdto & Hr).
  assert (source = source_dto (captured_source captured)) as ->.
  { pose proof (refines_ok _ _ w2 source (source_ref_refines (captured_source captured))
      ltac:(unfold run; by rewrite Hdto)) as Heq. by injection Heq. }
  apply run_lift_ok in Hr as ([] & Hg%reject_if_ok & Hr). apply orb_false_iff in Hg as [Hg Hsame]. to_prop.
  apply run_lift_ok in Hr as (s2 & Hs2%ok_or_inv%try_from_inv & Hr). destruct Hs2 as [-> _].
  apply run_lift_ok in Hr as (e2 & He2%ok_or_inv%try_from_inv & Hr). destruct He2 as [-> _].
  apply run_bind_ok in Hr as (ex & w4 & Hex & Hr). apply run_bind_ok in Hr as (_ & w5 & _ & Hr).
  apply run_lift_ok in Hr as ([] & Hvalid%map_err_ok & Hr). apply ok_inj in Hr as ->.
  exists a. split; [done|]. cbv zeta.
  assert (exists prepared content, e = expansion_of index (source_dto (captured_source captured))
      (Anchor.start a - before) (Anchor.stop a + after) prepared content /\
    content_holds a (Anchor.start a - before) e) as (prepared & content & -> & Hholds); cycle 1.
  { split_and!; try done; cbn; [congruence|].
    intros s Hs. rewrite Hs in Hsame. by to_prop. }
  destruct (Anchor.prepared a) as [expected|] eqn:Hprep.
  - apply bind_run in Hex as (visited & w6 & Hvisit & Hex). destruct visited as [[gap|] stored]; [done|].
    destruct (visit_representation_stored blake3 root captured a expected (Anchor.start a, Anchor.stop a)
      (Anchor.start a - before, Anchor.stop a + after) w3 stored) as (text & whole & -> & Ht & Ho);
      [unfold run; by rewrite Hvisit|].
    cbn [fst snd] in *. apply mret_run in Hex as <-. do 2 eexists. split; [reflexivity|].
    split; [cbn; by rewrite Hprep|]. cbn. rewrite Hprep. split; [done|].
    eapply str_get_within; [exact Ht|exact Ho|lia|lia].
  - apply bind_run in Hex as (bytes & w6 & _ & Hex). apply bind_run in Hex as (original & w7 & Ho & Hex).
    apply bind_run in Hex as (digits & w8 & Hd & Hex). apply bind_run in Hex as ([] & w9 & Hm & Hex).
    apply bind_run in Hex as (context & w10 & Hc & Hex). apply bind_run in Hex as (out & w11 & Hh & Hex).
    apply mret_run in Hex as <-. do 2 eexists. split; [reflexivity|]. split; [by rewrite Hprep|]. cbn. split; [done|].
    apply hex_run in Hd as ->. apply hex_run in Hh as ->. apply lift_run in Ho as Ho%ok_or_inv.
    apply lift_run in Hm as Hm%reject_if_ok. apply lift_run in Hc as Hc%ok_or_inv. to_prop. rewrite <- Hm.
    eapply hex_within; [by eapply expansion_digits|exact Hc|exact Ho|lia|lia].
Qed.

(** C25. An expansion is the context of an emitted item.  An item at or past the cursor is
    refused as not emitted.  An expansion that is returned is of an item before the cursor
    and passes the client's own check against that item and request: the same pinned
    source, namespace, input and prepared artifact, exactly the asked-for range inside the
    input, and the item's text or hex digits at their place in the returned content.  A
    view whose sources carry the identity they are asked for is assumed. *)
Theorem window_expand_accepted blake3 win request_id remaining_ms index before after w
    (Hview : forall id v c, run (view_source (window_view win) id) v = Ok c -> source_id (captured_source c) = id)
    (Hb : 0 <= before) (Ha : 0 <= after) :
  (window_cursor win <= index ->
   run (window_expand blake3 win index before after) w = Err (Code (str "WINDOW_ITEM_NOT_EMITTED"))) /\
  (forall e, run (window_expand blake3 win index before after) w = Ok e ->
   exists item, 0 <= index < window_cursor win /\ window_items win !! Z.to_nat index = Some item /\
     WindowExpansion.validate_request e
       (SessionClientFrame.Expand request_id remaining_ms SESSION_WINDOW_ID index before after) item = Ok tt).
Proof.
  split; [intros Hc; unfold window_expand; by is_true (window_cursor win <=? index)|].
  intros e Hr. unfold window_expand in Hr. apply run_lift_ok in Hr as ([] & Hg%reject_if_ok & Hr).
  apply run_lift_ok in Hr as (item & Hat%ok_or_inv & Hr). to_prop. unfold at_ in Hat.
  destruct (0 <=? index) eqn:H0; [|done]. to_prop. exists item. split_and!; [lia|lia|done|].
  apply expand_execute_holds in Hr as (a & Hitem & H1 & H2 & H3 & H4 & Hvalid & Hw & Hi & Hs & He & Hns & Hid & Hin & Hsrc & Hp & Hc);
    [|done..].
  apply anchor_origin in Hitem as (o & Ho & Ens & Eid & Ein & Ep & Es & Ee & Esrc & Etext).
  unfold WindowExpansion.validate_request. rewrite Hvalid, Ho. cbn [mbind result_bind ok_or].
  rewrite Es, Ee, checked_add_some by lia. cbn [mbind result_bind ok_or]. unfold saturating_sub.
  rewrite (Z.max_r 0) by lia. rewrite Ein, (Z.min_l (Anchor.stop a + after)) by lia. rewrite seq_unit. split.
  { apply invalid_if_ok. rewrite Hw, Hi, Hs, He, Hns, Hid, Hin, Hp, Ens, Eid, Ep, Esrc, !Z.eqb_refl, !bool_decide_true by done.
    cbn [negb orb]. rewrite !orb_false_r. destruct (Anchor.source a); [|done]. by rewrite bool_decide_true by auto. }
  rewrite !try_from_some by width. cbn [ok_or mbind result_bind].
  destruct (WindowExpansion.content e) as [digits|text], Hc as [Hnone Hc], (Anchor.prepared a); try done;
    destruct Etext as [-> ->]; apply invalid_if_ok; by rewrite Hc, bool_decide_true.
Qed.

(** ** A window over "banana" *)

Definition banana_pinned : View :=
  {| pinned := banana_view; view_collection := str "g5"; 
     view_source id := if bool_decide (id = replicate 16 2) then mret banana_entry else fail Pub.Corrupt;
     resolve_point _ := fail Pub.Corrupt |}.
#[export] Instance banana_pins : Pins (fun _ => mret banana_pinned).
Proof.
  split; intros root w view [= <-].
  - intros id w' r. discriminate.
  - split; [reflexivity|vm_compute; congruence].
Qed.
Definition banana_window : M QueryFailure Window :=
  @window_open toy_digest no_length no_length no_length None found_server found_channel false
    (mret (toy_root banana)) (fun _ => mret banana_pinned) None (WindowQuery.Raw banana_request) 60.

Lemma window_open_fit_witness :
  exists win, run banana_window [] = Ok win /\ window_ok (WindowQuery.Raw banana_request) win /\
    len (window_items win) = 2.
Proof.
  assert (exists win, run banana_window [] = Ok win) as (win & Hrun) by (eexists; vm_compute; reflexivity).
  exists win. split; [exact Hrun|].
  destruct (@window_open_fit toy_digest no_length no_length no_length no_length no_length None found_server
    found_channel false (mret (toy_root banana)) (fun _ => mret banana_pinned) banana_pins None
    (WindowQuery.Raw banana_request) 60 [] win Hrun) as (Hfit & Hc & _).
  assert (len (window_items win) = 2) as Hl.
  { vm_compute in Hrun. injection Hrun as <-. reflexivity. }
  split; [|exact Hl]. split; [exact Hfit|]. rewrite Hc, Hl. lia.
Defined.

(** A codec that writes two bytes for every entry. *)
Definition brief_json : Json SessionReply.t :=
  {| to_writer := fun reply =>
       {| chunks_of := match SessionReply.outcome reply with
            | SessionOutcome.Page page => map (fun _ => [123; 125]) (WindowPage.items page)
            | _ => []
            end; serialized := true |};
     from_slice := fun _ => None |}.

Definition banana_win : Window :=
  match run banana_window [] with
  | Ok win => win
  | Err _ => {| window_view := banana_pinned; window_root := toy_root banana; window_expires := 0;
                window_items := []; window_summary := search_summary 0 0; window_cursor := 0 |}
  end.
Lemma banana_win_ok : window_ok (WindowQuery.Raw banana_request) banana_win.
Proof.
  destruct (window_opened toy_digest (H:=no_length) (H0:=no_length) (H1:=no_length) (H2:=no_length) (H3:=no_length)
    None found_server found_channel false (mret (toy_root banana)) (fun _ => mret banana_pinned) None
    (WindowQuery.Raw banana_request) 60 [] banana_win) as [Hok _]; [|exact Hok].
  vm_compute. reflexivity.
Qed.

Lemma window_page_largest_witness :
  exists p, run (@window_page brief_json banana_win 2 1) [] = Ok p /\ next_cursor p = 1 /\
    len (page_bytes p) <= MAX_FRAME_BYTES.
Proof.
  destruct (@window_page_largest brief_json (WindowQuery.Raw banana_request) banana_win 2 1 banana_win_ok
    ltac:(congruence) ltac:(vm_compute; split; congruence) []) as [Hrun _].
  assert (exists p, run (@window_page brief_json banana_win 2 1) [] = Ok p /\ next_cursor p = 1) as (p & Hp & Hn)
    by (eexists; split; vm_compute; reflexivity).
  exists p. rewrite Hp in Hrun. destruct Hrun as (k & _ & _ & _ & Hl & _). auto.
Defined.

Lemma window_expand_accepted_witness :
  exists win e item, commit_page banana_win 0 2 = Ok win /\
    run (window_expand toy_digest win 0 1 2) [] = Ok e /\
    WindowExpansion.validate_request e (SessionClientFrame.Expand 3 1000 1 0 1 2) item = Ok tt /\
    WindowExpansion.content e = ExpansionContent.Raw (hex_encode banana).
Proof.
  destruct (commit_page banana_win 0 2) as [win|] eqn:Hwin; [|vm_compute in Hwin; discriminate Hwin].
  assert (window_view win = banana_pinned) as Hview by (vm_compute in Hwin; injection Hwin as <-; reflexivity).
  destruct (window_expand_accepted toy_digest win 3 1000 0 1 2 []) as [_ Hok]; [|lia|lia|].
  - rewrite Hview. intros id v c. cbn. case_bool_decide as Hid; [|discriminate]. intros [= <-]. by symmetry.
  - assert (exists e, run (window_expand toy_digest win 0 1 2) [] = Ok e /\
      WindowExpansion.content e = ExpansionContent.Raw (hex_encode banana)) as (e & He & Hc).
    { vm_compute in Hwin. injection Hwin as <-. eexists. split; vm_compute; reflexivity. }
    destruct (Hok e He) as (item & _ & _ & Hv). exists win, e, item. auto.
Defined.
