(* ===== verification/PublicationPin.v ===== *)
(** The view pinned to the committed generation as the query side uses it: what its reads
    give on a verified generation, and the interface that windows are opened over. *)

From Stdlib Require Import Sorted.
From stdpp Require Import gmap.
From S2P Require Import Prelude Bytes Reader Ids Registry SourceRow PreparationRow PublicationRow Database Control ControlSpec.
From S2P Require Import ObjectStore Literal ExactResult RawExact VerifiedQuery Window Publication PublicationSpec PublicationLifecycle PublicationRefine PublicationRetire PublicationSample.
From S2P Require Import PublicationRead PublicationVerify.

Lemma refines_outcome {E A} `{Interrupt E} (m : M E A) v :
  outcome m (fun a => a = v) (fun _ => False) -> refines m (Ok v).
Proof.
  intros Hm w. destruct (Hm w) as [Hr Hc]. destruct (run m w) as [a|e].
  - subst a. split; [by left|]. intros Hw. auto.
  - destruct Hr as [[]|[Hi Hn]]. split; [right; eauto|done].
Qed.

(** ** The inventory of a generation *)

(** The state of [source_inventory] after some entries. *)
Definition inventory_view (acc : list SourceEntry) : InventoryScan :=
  {| inventory := entry_captured <$> acc; inventory_gaps := gaps_of acc; inventory_units := units_of acc;
     inventory_namespace := (fun e => source_namespace_id (entry_source e)) <$> last acc |}.

(** What the outcome of an entry adds to the gaps, refused unless its units fit. *)
Lemma entry_gap e n m :
  entry_complete e = true ->
  (outcome ← ok_or Pub.Corrupt (current_outcome (captured_preparation (entry_captured e)));
   match outcome_result outcome with
   | Ready _ =>
       _ ← reject_if (negb (Bool.eqb (byte_length (object_ref (captured_source (entry_captured e))) =? 0) (staged_units e =? 0))) Pub.Corrupt;
       Ok n
   | Gap _ => _ ← reject_if (negb (staged_units e =? 0)) Pub.Corrupt; Ok (n + 1)
   end) = Ok m <-> entry_sound e /\ m = n + gaps_of [e].
Proof.
  intros Hc. rewrite gaps_single. unfold entry_sound, artifact_of, entry_preparation, entry_source.
  destruct (current_outcome _) as [o|]; cbn [ok_or fmap option_fmap option_map mbind result_bind]; [|split; [done|by intros [[_ []] _]]].
  destruct (outcome_result o) as [a|gap].
  - rewrite (bool_decide_false (Some a = None)) by done. rewrite Z.add_0_r. destruct (Bool.eqb _ _) eqn:E; cbn [negb reject_if mbind result_bind].
    + apply eqb_iff in E. split; [by intros [= ->]|by intros [_ ->]].
    + split; [done|]. intros [[_ Hb] _]. apply eqb_iff in Hb. congruence.
  - rewrite (bool_decide_true (@None ObjectRef = None)) by done. destruct (Z.eqb_spec (staged_units e) 0); cbn [negb reject_if mbind result_bind].
    + split; [by intros [= ->]|by intros [_ ->]].
    + split; [done|]. by intros [[_ Hb] _].
Qed.

Lemma inventory_step_view sequence count acc row s' :
  good_row sequence row -> 0 <= units_of acc ->
  inventory_step count (inventory_view acc) (fst row) (snd row) = Ok s' <->
  exists e, next_entry sequence count acc row e /\ s' = inventory_view (acc ++ [e]).
Proof.
  destruct row as [k v]. intros [Hk Hv] Hu. cbn [fst snd] in *. unfold inventory_step, next_entry, holds_entry.
  cbn [fst snd inventory_view inventory inventory_gaps inventory_units inventory_namespace].
  assert (len (entry_captured <$> acc) = len acc) as -> by (unfold len; by rewrite length_fmap). split.
  - intros H. apply bind_ok_inv in H as ([] & Hg%reject_if_ok & H). to_prop. apply bind_ok_inv in H as (e & He & H). cbv zeta in H.
    apply bind_ok_inv in H as ([] & Hn%reject_if_ok & H). fold (entry_source e) in Hn. apply orb_false_iff in Hn as [Hid Hn].
    apply namespace_guard in Hn. to_prop. apply bind_ok_inv in H as (o & Ho & H). apply bind_ok_inv in H as (gaps & Hgaps & H).
    assert (entry_sound e /\ gaps = gaps_of acc + gaps_of [e]) as [Hs ->].
    { apply entry_gap; [done|]. rewrite Ho. exact Hgaps. }
    apply bind_ok_inv in H as (n & Ha & H). apply ok_inj in H as <-. apply add_units_ok in Ha as [-> Hmax]; [|done|by apply (decoded_units v e)].
    exists e. split.
    + split_and!; try done. apply key_guard; [done|by apply (decoded_id v)|done].
    + unfold inventory_view. rewrite fmap_app, gaps_app, units_app, last_snoc, units_single. done.
  - intros (e & ((Hkey & He) & Hs & Hc & Hn & Hmax) & ->).
    apply key_guard in Hkey as [Hl Hd]; [|done|by apply (decoded_id v)].
    rewrite reject_if_false by solve_bool. cbn [mbind result_bind]. rewrite He. cbn [mbind result_bind]. cbv zeta.
    pose proof (decoded_units v e Hv He). fold (entry_source e). rewrite Hd, (proj1 Hs), (bool_decide_true (source_id (entry_source e) = _)) by done.
    cbn [negb orb]. rewrite (proj2 (namespace_guard (last acc) e)) by done. cbn [reject_if mbind result_bind].
    pose proof (proj2 (entry_gap e (gaps_of acc) _ (proj1 Hs)) (conj Hs eq_refl)) as Hgap.
    apply bind_ok_inv in Hgap as (o & -> & Hgap). cbn [mbind result_bind]. fold (entry_source e) in Hgap. rewrite Hgap. cbn [mbind result_bind].
    assert (add_units (units_of acc) (staged_units e) = Ok (units_of acc + staged_units e)) as ->
      by (apply add_units_ok; [done|lia|done]). cbn [mbind result_bind].
    unfold inventory_view. by rewrite fmap_app, gaps_app, units_app, last_snoc, units_single.
Qed.

Section Reads.
Context `{PublicationJson} {D : Type} `{Redb D} (view : Pinned D).
Let d := transaction view.
Let g := pinned_generation view.
Abbreviation seq := (Generation.sequence g).

(** On the saved entries of a generation the inventory is their captures. *)
Lemma inventory_outcome entries :
  typed d SOURCES -> Generation.wf g -> saved_entries d g entries ->
  refines (PublishedView.source_inventory view) (Ok (entry_captured <$> entries)).
Proof.
  intros Ht (_ & _ & _ & Hs & _) Hsv. apply saved_scanned in Hsv as (Hin & Hmax & Hsc & Hl & Hgaps & Hunits).
  unfold PublishedView.source_inventory. fold d g. eapply refines_seq; [apply publication_check_refines|].
  rewrite try_from_some by width. cbn [ok_or]. rewrite lift_ok_bind. is_false (MAX_SOURCES <? Generation.source_count g).
  cbn [reject_if]. rewrite lift_ok_bind. eapply refines_seq; [apply refines_open_read; [auto with eliot|done]|].
  eapply refines_seq; [apply refines_reserve; auto with eliot|]. eapply refines_bind_ok.
  - apply (refines_outcome _ (inventory_view entries)).
    eapply outcome_weaken; [apply (scan_entries_outcome d g (inventory_step (Generation.source_count g)) inventory_view (Generation.source_count g)); [done|lia|]| |].
    + intros acc row s'. apply inventory_step_view.
    + intros s (es & Hes & ->). f_equal. by eapply scanned_unique.
    + intros e Hno. apply Hno. by exists entries.
  - cbn [inventory inventory_gaps inventory_units inventory_view].
    assert (len (entry_captured <$> entries) = Generation.source_count g) as -> by (rewrite <- Hl; unfold len; by rewrite length_fmap).
    rewrite Hgaps, Hunits, !Z.eqb_refl. cbn [negb orb reject_if]. rewrite lift_ok_bind.
    eapply refines_seq; [apply publication_check_refines|]. apply refines_ret.
Qed.

Lemma tiles_unit unit start es stop i e :
  tiles unit start es stop -> es !! i = Some e -> PointEvidence.unit e = unit + Z.of_nat i.
Proof.
  revert unit start i. induction es as [|x es IH]; intros unit start i Ht Hi; [done|]. destruct Ht as (Hu & _ & Ht).
  destruct i as [|i]; cbn in Hi; [injection Hi as ->; lia|]. rewrite (IH _ _ i Ht Hi). lia.
Qed.

(** The source of a point on a complete graph: its row binds the point. *)
Lemma point_bound_entry entries pages e :
  complete_graph d g entries pages -> e ∈ evidence_in pages ->
  exists x v, x ∈ entries /\ source_id (entry_source x) = PointEvidence.source_id e /\
    rows_of d SOURCES !! generation_key seq (PointEvidence.source_id e) = Some v /\ decode_source v = Ok x /\ unbound e x = false.
Proof.
  intros [Hsv _ _ _ _ _ _ _ Hnamed Htiled _] He. rewrite Forall_forall in Hnamed. rewrite Forall_forall in Htiled.
  pose proof (Hnamed e He) as (x & Hid & Hx)%list_elem_of_fmap. destruct Hsv as (_ & Hh & Hs & _).
  pose proof Hx as (i & Hi)%list_elem_of_lookup. destruct (Forall2_lookup_r _ _ _ _ _ Hh Hi) as ([k v] & Hrow & Hk & Hd).
  cbn in Hk, Hd. apply list_elem_of_lookup_2, generation_rows_in in Hrow as [_ Hrow]. rewrite Hk, <- Hid in Hrow. exists x, v.
  split_and!; try done. unfold unbound. rewrite Forall_forall in Hs. destruct (Hs x Hx) as [Hc _]. specialize (Htiled x Hx).
  unfold source_tiled, artifact_of in Htiled. assert (e ∈ evidence_by (source_id (entry_source x)) (evidence_in pages)) as Hby
    by (apply list_elem_of_filter; done).
  fold (entry_source x). fold (entry_preparation x). destruct (outcome_result <$> _) as [[artifact|gap]|];
    [|by rewrite Htiled in Hby; apply not_elem_of_nil in Hby|by rewrite Htiled in Hby; apply not_elem_of_nil in Hby].
  destruct Htiled as (Hall & Hl & Ht). rewrite Forall_forall in Hall. destruct (Hall e Hby) as (Hns & Hin & Hpr).
  apply list_elem_of_lookup in Hby as (n & Hn). pose proof (tiles_unit _ _ _ _ _ _ Ht Hn) as Hu. apply lookup_lt_Some in Hn.
  rewrite Hc, !bool_decide_true by done. cbn [negb orb]. rewrite orb_false_r. solve_bool. unfold len in Hl. lia.
Qed.

(** Every point of a complete graph resolves to its own evidence and its own source. *)
Lemma resolve_point_refines entries pages i p :
  typed d SOURCES -> Generation.wf g -> complete_graph d g entries pages -> points_of pages !! i = Some p ->
  exists x, x ∈ entries /\ source_id (entry_source x) = PointEvidence.source_id (point_evidence p) /\
    refines (PublishedView.resolve_point view (point_id p))
      (Ok {| ResolvedPoint.evidence := point_evidence p; ResolvedPoint.captured := entry_captured x |}).
Proof.
  intros Ht Hwf Hg Hp. destruct (point_bound_entry entries pages (point_evidence p) Hg) as (x & v & Hx & Hid & Hv & Hd & Hb).
  { apply list_elem_of_fmap. exists p. split; [done|]. by eapply list_elem_of_lookup_2. }
  exists x. split_and!; [done..|]. destruct Hg as [Hsv [_ Hev] _ _ _ _ Hn Hc _ _ _]. destruct Hsv as (Hsrc & _).
  destruct (numbered_lookup _ _ _ _ _ Hn Hp) as (Hlt & Hname & u & Hu & Hde). rewrite Z.add_0_l in *.
  destruct Hwf as (_ & _ & _ & _ & _ & Hcount & _). unfold PublishedView.resolve_point. fold d g.
  assert (take 8 (point_id p) = be_bytes 8 seq) as Htake.
  { rewrite Hname. unfold point_name. by rewrite take_app_length' by by rewrite be_bytes_length. }
  assert (be_value (drop 8 (point_id p)) = Z.of_nat i) as Hvalue.
  { rewrite Hname. unfold point_name. rewrite drop_app_length' by by rewrite be_bytes_length. apply be_value_be_bytes. width. }
  rewrite Htake, Hvalue, bool_decide_true by done. is_false (Generation.point_count g <=? Z.of_nat i). cbn [negb orb reject_if].
  rewrite lift_ok_bind. eapply refines_seq; [apply refines_open_read; [auto with eliot|done]|].
  eapply refines_bind_ok; [apply refines_get; auto with eliot|]. rewrite Hname. fold (point_key seq (Z.of_nat i)). rewrite Hu. cbn [ok_or].
  rewrite lift_ok_bind, Hde, lift_ok_bind. eapply refines_seq; [apply refines_open_read; [auto with eliot|done]|].
  eapply refines_bind_ok; [apply refines_get; auto with eliot|]. rewrite Hv. cbn [ok_or]. rewrite lift_ok_bind, Hd, lift_ok_bind, Hb.
  cbn [reject_if]. rewrite lift_ok_bind. apply refines_ret.
Qed.
End Reads.

(** ** The view of the query side *)

(** [PublishedView] as the executors use it. *)
Definition as_view `{PublicationJson} {D} `{Redb D} (p : Pinned D) : View :=
  {| pinned :=
       {| view_generation := Generation.sequence (pinned_generation p);
          source_inventory := lift_err publication_failure (PublishedView.source_inventory p) |};
     view_collection := Generation.collection (pinned_generation p);
     view_source := PublishedView.source p;
     resolve_point := PublishedView.resolve_point p |}.

(** Saved sources carry identities that were drawn, not the nil one. *)
Definition identified {D} `{Redb D} (d : D) : Prop :=
  forall k v e, rows_of d SOURCES !! k = Some v -> decode_source v = Ok e ->
    source_namespace_id (entry_source e) <> replicate 16 0 /\ source_id (entry_source e) <> replicate 16 0.

Section View.
Context `{PublicationJson} {D : Type} `{Redb D}.
Implicit Types (d : D) (p : Pinned D).

Lemma decode_state_current bytes s g :
  decode_state bytes = Ok s -> PublicationState.current s = Some g -> Generation.wf g /\ 0 < Generation.sequence g <= U64_MAX.
Proof.
  unfold decode_state. intros R Hc. apply bind_ok_inv in R as ([] & _ & R). apply bind_ok_inv in R as (s' & Hs%ok_or_inv & R).
  apply bind_ok_inv in R as ([] & Hk & R). apply ok_inj in R as ->. apply state_typed in Hs. apply check_state_sound in Hk; [|done].
  destruct Hs as (_ & _ & _ & _ & Hcur & _). pose proof (Hcur g Hc) as Hg. split; [done|]. destruct Hg as (_ & Hseq & _).
  destruct Hk as (_ & _ & _ & _ & Hall & _). destruct (Hall g Hc) as (_ & ? & _). lia.
Qed.

Lemma pin_published_inv d w p :
  run (pin_published d) w = Ok p ->
  transaction p = d /\ Generation.wf (pinned_generation p) /\ 0 < Generation.sequence (pinned_generation p) <= U64_MAX.
Proof.
  unfold pin_published. intros R. do 3 (apply run_bind_ok in R as (? & ? & _ & R)).
  apply run_bind_ok in R as (s & w1 & Hs & R). apply run_lift_ok in R as (g & Hg%ok_or_inv & R).
  do 4 (apply run_bind_ok in R as (? & ? & _ & R)). apply ok_inj in R as <-. cbn. split; [done|].
  unfold read_state in Hs. apply (f_equal fst) in Hs. cbn [fst] in Hs. apply run_bind_ok in Hs as (present & w2 & _ & Hs). destruct present.
  - apply run_bind_ok in Hs as (value & w3 & _ & Hs). apply run_lift_ok in Hs as (bytes & _ & Hs). exact (decode_state_current bytes s g Hs Hg).
  - apply ok_inj in Hs as <-. done.
Qed.

Lemma source_answers p id w c : run (PublishedView.source p id) w = Ok c -> source_id (captured_source c) = id.
Proof.
  unfold PublishedView.source, read_saved_source. intros R. apply run_bind_ok in R as (? & w1 & _ & R).
  apply run_bind_ok in R as (c' & w2 & Hr & R). apply run_bind_ok in R as (? & w3 & _ & R). apply ok_inj in R as <-.
  apply (f_equal fst) in Hr. cbn [fst] in Hr. apply run_bind_ok in Hr as (s & w4 & _ & Hr). apply run_lift_ok in Hr as ([] & _ & Hr).
  do 2 (apply run_bind_ok in Hr as (? & ? & _ & Hr)). apply run_lift_ok in Hr as (v & _ & Hr). apply run_lift_ok in Hr as (e & _ & Hr).
  apply run_lift_ok in Hr as ([] & Hg%reject_if_ok & Hr). apply ok_inj in Hr as <-. by to_prop.
Qed.

Lemma readable_source ns e :
  entry_readable e -> source_namespace_id (entry_source e) = ns -> ns <> replicate 16 0 -> source_id (entry_source e) <> replicate 16 0 ->
  source_ok ns (captured_source (entry_captured e)).
Proof. intros ((Hw & _ & ? & ? & ? & ? & ?) & _) Hns Hn Hi. fold (entry_source e). by split_and!. Qed.

(** What a resolved point is, on any stored bytes. *)
Lemma resolve_point_inv p id w r :
  typed (transaction p) EVIDENCE -> typed (transaction p) SOURCES ->
  run (PublishedView.resolve_point p id) w = Ok r ->
  take 8 id = be_bytes 8 (Generation.sequence (pinned_generation p)) /\
  be_value (drop 8 id) < Generation.point_count (pinned_generation p) /\
  exists k v entry, rows_of (transaction p) SOURCES !! k = Some v /\ decode_source v = Ok entry /\ bytes_ok v /\
    ResolvedPoint.captured r = entry_captured entry /\
    evidence_valid (ResolvedPoint.evidence r) /\ unbound (ResolvedPoint.evidence r) entry = false.
Proof.
  intros Hte Hts R. unfold PublishedView.resolve_point in R. apply run_lift_ok in R as ([] & Hg%reject_if_ok & R). to_prop.
  split_and!; [done|done|]. apply run_bind_ok in R as (? & w1 & _ & R). apply run_bind_ok in R as (value & w2 & Hv & R).
  apply run_lift_ok in R as (v & ->%ok_or_inv & R). apply run_lift_ok in R as (e & He & R).
  apply run_bind_ok in R as (? & w3 & _ & R). apply run_bind_ok in R as (row & w4 & Hrow & R).
  apply run_lift_ok in R as (v' & ->%ok_or_inv & R). apply run_lift_ok in R as (entry & Hd & R).
  apply run_lift_ok in R as ([] & Hu%reject_if_ok & R). apply ok_inj in R as <-. cbn [ResolvedPoint.evidence ResolvedPoint.captured].
  apply (f_equal fst) in Hv, Hrow. cbn [fst] in Hv, Hrow.
  apply (refines_ok _ _ _ _ (refines_get _ _ _ _ publication_database)) in Hv, Hrow. injection Hv as Hv. injection Hrow as Hrow.
  exists (generation_key (Generation.sequence (pinned_generation p)) (PointEvidence.source_id e)), v', entry. split_and!; try done.
  - by eapply Hts.
  - apply (decoded_evidence v); [by eapply Hte|done].
Qed.
End View.

(** The control database of each root; its stored sources have bytes and identities. *)
Section Pins.
Context `{PublicationJson} {D : Type} `{Redb D} (control : directory -> D).
Hypothesis control_typed : forall root, typed (control root) SOURCES /\ typed (control root) EVIDENCE.
Hypothesis control_identified : forall root, identified (control root).

Definition pin_root (root : directory) : M Pub.t View := p ← pin_published (control root); mret (as_view p).

Lemma resolved_point_ok p id w r root :
  transaction p = control root -> run (PublishedView.resolve_point p id) w = Ok r ->
  resolved_ok (Generation.sequence (pinned_generation p)) id r.
Proof.
  intros Ht R. destruct (control_typed root) as [Hts Hte]. rewrite <- Ht in Hts, Hte.
  destruct (resolve_point_inv p id w r Hte Hts R) as (Hid & _ & k & v & x & Hv & Hd & Hb & Hc & [Hew Hev] & Hu).
  unfold unbound in Hu. to_prop. destruct (decoded_entry v x Hb Hd) as [Hread _].
  rewrite Ht in Hv. destruct (control_identified root k v x Hv Hd) as [Hnn Hni].
  pose proof Hew as (_ & _ & (_ & _ & Hib) & Hpw & _). pose proof Hpw as (_ & _ & Hpb).
  unfold resolved_ok, point_bound. rewrite Hc. cbv zeta. split; [done|]. split; [split_and!; try done; lia|].
  split; [done|]. split; [done|]. exists (source_namespace_id (entry_source x)). by apply readable_source.
Qed.

#[export] Instance pin_root_pins : Pins pin_root.
Proof.
  split; intros root w view R; unfold pin_root in R; apply run_bind_ok in R as (p & w1 & Hp & R); apply ok_inj in R as <-;
    apply (f_equal fst) in Hp; destruct (pin_published_inv _ _ _ Hp) as (Ht & Hwf & Hseq).
  - intros id w2 r R. by eapply resolved_point_ok.
  - exact Hseq.
Qed.

Lemma pin_root_source root w view id w' c :
  run (pin_root root) w = Ok view -> run (view_source view id) w' = Ok c -> source_id (captured_source c) = id.
Proof.
  unfold pin_root. intros R. apply run_bind_ok in R as (p & w1 & _ & R). apply ok_inj in R as <-. apply source_answers.
Qed.
End Pins.

(** The captures of a complete graph are an inventory as the exact executors expect it. *)
Lemma graph_inventory_ok {D} `{Redb D} (d : D) g entries :
  typed d SOURCES -> identified d -> saved_entries d g entries ->
  exists ns, inventory_ok ns (entry_captured <$> entries).
Proof.
  intros Ht Hid Hsv. destruct Hsv as (_ & Hh & _ & [ns Hns] & _ & Hmax & _). exists ns. split; [|split].
  - pose proof (entries_sorted d g entries Hh) as Hs. unfold sorted_inventory, sorted_keys in *.
    clear -Hs. induction entries as [|x entries IH]; cbn in *; [constructor|]. inversion Hs as [|? ? Hs' Hx]; subst.
    constructor; [by apply IH|]. apply Forall_fmap. by apply Forall_fmap in Hx.
  - unfold len in *. by rewrite length_fmap.
  - apply Forall_fmap, Forall_forall. intros x Hx. cbn. rewrite Forall_forall in Hns. pose proof Hx as (i & Hi)%list_elem_of_lookup.
    destruct (Forall2_lookup_r _ _ _ _ _ Hh Hi) as ([k v] & Hrow & Hk & Hd). cbn in Hk, Hd.
    apply list_elem_of_lookup_2, generation_rows_in in Hrow as [_ Hrow]. destruct (Ht k v Hrow) as [_ Hb].
    destruct (decoded_entry v x Hb Hd) as [Hread _]. destruct (Hid k v x Hrow Hd) as [Hnn Hni]. rewrite (Hns x Hx) in Hnn.
    apply readable_source; [done|by apply Hns|done|done].
Qed.

(** C30. A verified generation serves all of its points and no others.  When
    [open_published] accepts a database, the pinned generation is a complete graph, and
    then, under every environment: the inventory read gives the captures of exactly its
    sources, in the order the exact executors need; every point of its pages resolves to
    its own evidence and to the captured source it names; and no other identity resolves to
    anything.  Each of these reads can fail only when it is interrupted. *)
Theorem open_published_serves `{PublicationJson} {D} `{Redb D} (d : D) (w : env) (p : Pinned D)
    (Htyped : forall table, table ∈ [SOURCES; PAGES; EVIDENCE] -> typed d table) (Hids : identified d)
    (Hopen : run (open_published d) w = Ok p) :
  exists entries pages, complete_graph d (pinned_generation p) entries pages /\
    refines (PublishedView.source_inventory p) (Ok (entry_captured <$> entries)) /\
    (exists ns, inventory_ok ns (entry_captured <$> entries)) /\
    (forall i point, points_of pages !! i = Some point ->
       exists x, x ∈ entries /\ source_id (entry_source x) = PointEvidence.source_id (point_evidence point) /\
         refines (PublishedView.resolve_point p (point_id point))
           (Ok {| ResolvedPoint.evidence := point_evidence point; ResolvedPoint.captured := entry_captured x |})) /\
    (forall id v r, bytes_ok id -> len id = 16 -> run (PublishedView.resolve_point p id) v = Ok r ->
       id ∈ point_id <$> points_of pages).
Proof.
  unfold open_published in Hopen. apply run_bind_ok in Hopen as (p' & w1 & Hp & Hopen). apply run_bind_ok in Hopen as ([] & w2 & Hv & Hopen).
  apply ok_inj in Hopen as ->. apply (f_equal fst) in Hp, Hv. cbn [fst] in Hp, Hv.
  destruct (pin_published_inv _ _ _ Hp) as (Ht & Hwf & _). rewrite Ht in Hv.
  pose proof (Htyped SOURCES ltac:(set_solver)) as Hts. pose proof (Htyped PAGES ltac:(set_solver)) as Htp.
  pose proof (Htyped EVIDENCE ltac:(set_solver)) as Hte.
  destruct (verify_outcome d (pinned_generation p) Hts Htp Hte Hwf w1) as [Hout _]. unfold run in Hout. rewrite Hv in Hout.
  destruct Hout as (entries & pages & Hg). exists entries, pages. split; [done|]. pose proof Hg as [Hsv _ _ _ _ _ Hn Hc _ _ _].
  rewrite <- Ht in Hts, Hte, Hg, Hsv, Hn. split; [by apply inventory_outcome|]. split.
  { refine (graph_inventory_ok (transaction p) (pinned_generation p) entries Hts _ Hsv). by rewrite Ht. }
  split; [intros i point; by eapply resolve_point_refines|].
  intros id v r Hb Hl R. destruct (resolve_point_inv p id v r Hte Hts R) as (Htake & Hlt & _).
  assert (length (drop 8 id) = 8%nat) as Hl8 by (rewrite length_drop; unfold len in Hl; lia).
  assert (bytes_ok (drop 8 id)) as Hb8 by by apply Forall_drop.
  pose proof (le_value_bound (rev (drop 8 id))) as Hpos.
  assert (0 <= be_value (drop 8 id)) as Hnn by (unfold be_value; apply Hpos, Forall_rev; done).
  destruct (lookup_lt_is_Some_2 (points_of pages) (Z.to_nat (be_value (drop 8 id)))) as [q Hq]; [unfold len in Hc; lia|].
  apply list_elem_of_fmap. exists q. split; [|by eapply list_elem_of_lookup_2].
  destruct (numbered_lookup _ _ _ _ _ Hn Hq) as (_ & -> & _). rewrite Z.add_0_l, Z2Nat.id by done. unfold point_name.
  rewrite be_bytes_be_value by done. rewrite <- Htake. symmetry. apply take_drop.
Qed.

Definition identified_rows (rows : list (list Z * list Z)) : bool :=
  forallb (fun kv => match decode_source (snd kv) with
    | Ok e => bool_decide (source_namespace_id (entry_source e) <> replicate 16 0) && bool_decide (source_id (entry_source e) <> replicate 16 0)
    | Err _ => true
    end) rows.

Lemma identified_iter {D} `{Redb D} (d : D) : identified_rows (table_iter d SOURCES) = true -> identified d.
Proof.
  intros Hi k v e Hv Hd. unfold identified_rows in Hi. rewrite forallb_forall in Hi.
  assert ((k, v) ∈ table_iter d SOURCES) as Hin by by apply (iter_law d SOURCES). apply list_elem_of_In in Hin.
  specialize (Hi _ Hin). cbn in Hi. rewrite Hd in Hi. by to_prop.
Qed.

Definition sample_view : Pinned store := {| pinned_generation := sample_generation; transaction := sample_published |}.

Lemma sample_identified : identified sample_published.
Proof. apply identified_iter. vm_compute. reflexivity. Qed.

Lemma open_published_serves_witness :
  run (open_published sample_published) [] = Ok sample_view /\
  exists entries pages, complete_graph sample_published sample_generation entries pages /\
    refines (PublishedView.source_inventory sample_view) (Ok (entry_captured <$> entries)) /\
    forall id v r, bytes_ok id -> len id = 16 -> run (PublishedView.resolve_point sample_view id) v = Ok r ->
      id ∈ point_id <$> points_of pages.
Proof.
  assert (run (open_published sample_published) [] = Ok sample_view) as E by (vm_compute; reflexivity). split; [exact E|].
  destruct (open_published_serves sample_published [] sample_view sample_typed sample_identified E)
    as (entries & pages & Hg & Hi & _ & _ & Hr).
  exists entries, pages. exact (conj Hg (conj Hi Hr)).
Defined.
