(* ===== verification/PlainControl.v ===== *)
(** The control file (crates/search-control-redb/src/plain_control.rs): its errors, the
    scoped writer, the initialization of a fresh root's file, its inspection, and its
    recovery by way of a copy.  The files and the storage engine are interfaces. *)

From stdpp Require Import gmap.
From S2P Require Import Prelude Bytes State Database Control.

(** ** Errors *)

Module PlainControlError.
Inductive t : Type :=
  | Cancelled | Deadline | Unavailable | Corrupt | NeedsRepair | Unsupported | Busy | ProbeLimit.
#[global] Instance t_eq : EqDecision t.
Proof. solve_decision. Defined.

Definition code (e : t) : list Z :=
  match e with
  | Cancelled => str "cancelled"
  | Deadline => str "deadline"
  | Unavailable => str "unavailable"
  | Corrupt => str "corrupt"
  | NeedsRepair => str "needs_repair"
  | Unsupported => str "unsupported"
  | Busy => str "busy"
  | ProbeLimit => str "probe_limit"
  end.
End PlainControlError.
Module Plain := PlainControlError.

(** The errors of the engine that the code tells apart. *)
Module StorageError.
Inductive t : Type := Corrupted | ValueTooLarge | Unsupported | Other.
End StorageError.
Module DatabaseError.
Inductive t : Type :=
  | DatabaseAlreadyOpen | LockProtocolMismatch | TransactionInProgress | RepairAborted | UpgradeRequired
  | Storage (e : StorageError.t) | Other.
End DatabaseError.

Module TransactionError.
Inductive t : Type := Storage (e : StorageError.t) | ReadTransactionStillInUse | WouldBlock | Other.
End TransactionError.
Module TableError.
Inductive t : Type := TableDoesNotExist | TableExists | TableAlreadyOpen | Storage (e : StorageError.t) | Other.
End TableError.
Module CommitError.
Inductive t : Type := Storage (e : StorageError.t) | Other.
End CommitError.
(** [io::ErrorKind], as far as the code tells it apart. *)
Module IoError.
Inductive t : Type := NotFound | AlreadyExists | WouldBlock | Other.
End IoError.

Definition map_io_error (e : IoError.t) : Plain.t :=
  match e with IoError.AlreadyExists | IoError.WouldBlock => Plain.Busy | _ => Plain.Unavailable end.
Definition map_storage_error (e : StorageError.t) : Plain.t :=
  match e with
  | StorageError.Corrupted => Plain.Corrupt
  | StorageError.ValueTooLarge | StorageError.Unsupported => Plain.Unsupported
  | StorageError.Other => Plain.Unavailable
  end.
Definition map_database_error (e : DatabaseError.t) : Plain.t :=
  match e with
  | DatabaseError.DatabaseAlreadyOpen | DatabaseError.LockProtocolMismatch | DatabaseError.TransactionInProgress => Plain.Busy
  | DatabaseError.RepairAborted => Plain.Corrupt
  | DatabaseError.UpgradeRequired => Plain.Unsupported
  | DatabaseError.Storage e => map_storage_error e
  | DatabaseError.Other => Plain.Unavailable
  end.

Definition map_transaction_error (e : TransactionError.t) : Plain.t :=
  match e with
  | TransactionError.Storage e => map_storage_error e
  | TransactionError.ReadTransactionStillInUse | TransactionError.WouldBlock => Plain.Busy
  | TransactionError.Other => Plain.Unavailable
  end.
Definition map_table_error (e : TableError.t) : Plain.t :=
  match e with
  | TableError.TableDoesNotExist | TableError.TableExists => Plain.Corrupt
  | TableError.TableAlreadyOpen => Plain.Busy
  | TableError.Storage e => map_storage_error e
  | TableError.Other => Plain.Unsupported
  end.
Definition map_commit_error (e : CommitError.t) : Plain.t :=
  match e with CommitError.Storage e => map_storage_error e | CommitError.Other => Plain.Unavailable end.

Definition plain_check : M Plain.t unit := check_with Plain.Cancelled Plain.Deadline.

(** ** The writer *)

(** [ControlWriter::close]; the engine's own answer is an argument. *)
Definition writer_close (closed : result DatabaseError.t unit) : M Plain.t unit :=
  match_result plain_check (fun before =>
    match_result plain_check (fun after =>
      lift (_ ← before; _ ← after; map_err map_database_error closed))).

(** ** The storage engine

    [redb] on the bytes of one file.  A snapshot has its tables, and whether a persistent
    savepoint retains earlier ones.  Every call may fail as it likes. *)
Record Image (D : Type) := { tables : D; savepoints : bool }.
Arguments tables {D} i.
Arguments savepoints {D} i.
Arguments Build_Image {D} _ _.

Class Engine (D W : Type) := {
  (** [FileBackend::new] *)
  file_backend : M DatabaseError.t unit;
  (** [open_read_only_with_backend] and [ReadOnlyDatabase::close] *)
  reader_open : list Z -> M DatabaseError.t (Image D);
  reader_close : M DatabaseError.t unit;
  begin_read : M TransactionError.t unit;
  begin_write : M TransactionError.t unit;
  (** a read or a write of the catalogue or of a row; the opening of a table *)
  storage_call : M StorageError.t unit;
  table_call : M TableError.t unit;
  (** [create_with_backend] whose repair is refused, and [create_with_backend] or [open]
      (when told not to create) that repairs and checks the integrity *)
  writer_create : St (list Z) DatabaseError.t W;
  writer_recover : bool -> St (list Z) DatabaseError.t W;
  (** [Database::open] *)
  writer_open : St (list Z) DatabaseError.t W;
  writer_image : W -> Image D;
  (** the commit of these tables, and [Database::close] *)
  writer_commit : D -> St W CommitError.t unit;
  engine_close : W -> St (list Z) DatabaseError.t unit }.

(** ** Files

    The file under the path and any others, by their inodes.  A change of the contents moves
    the modification time. *)
Record Node := { content : list Z; regular : bool; modified : Z }.
Record Disk := {
  (** the inode under the path, and whether the path itself is a symbolic link *)
  named : option nat; symlink : bool;
  node : nat -> Node;
  (** the inode of the next file *)
  unused : nat }.

Definition with_node (n : nat) (x : Node) (d : Disk) : Disk :=
  {| named := named d; symlink := symlink d; node := fun m => if decide (m = n) then x else node d m; unused := unused d |}.
Definition put_content (n : nat) (bytes : list Z) (d : Disk) : Disk :=
  with_node n {| content := bytes; regular := regular (node d n);
    modified := if decide (bytes = content (node d n)) then modified (node d n) else modified (node d n) + 1 |} d.

(** [check?; let x = m; check?; x?] *)
Definition framed {S A} (m : St S Plain.t A) : St S Plain.t A :=
  _ ← st_env plain_check;
  result ← st_result m;
  _ ← st_env plain_check;
  st_lift result.
(** [call.map_err(f)] *)
Definition call_err {S E A} (f : E -> Plain.t) (m : M E A) : St S Plain.t A := st_err f (st_env m).

Inductive EmptyControlState := Preformat | Formatted | NotEmpty.
#[export] Instance EmptyControlState_eq : EqDecision EmptyControlState.
Proof. solve_decision. Defined.

Definition FORMAT_VERSION_KEY : list Z := str "format_version".
Definition FORMAT_VERSION : Z := 1.
Definition EMPTY_PROBE_BYTES : Z := 64 * 1024 * 1024.

Section Files.
Context {D W : Type} `{Redb D} `{Engine D W}.
(** A system call, which may fail with any kind of error; and how many bytes a read gives
    of those it could. *)
Context (io : M IoError.t unit) (short : Z -> env -> Z * env).
Abbreviation Act := (St Disk Plain.t).

Definition sys : Act unit := call_err map_io_error io.
Definition on_file {E A} (file : nat) (m : St (list Z) E A) : St Disk E A :=
  st_on (fun d => content (node d file)) (put_content file) m.

Definition opened_file_len (file : nat) : Act Z :=
  metadata ← framed (_ ← sys; st_gets (fun d => node d file));
  if regular metadata then mret (len (content metadata)) else st_lift (Err Plain.Unsupported).

(** ** Reading a database *)

Definition close_read_only {A} (operation : result Plain.t A) : Act A :=
  before ← st_result (st_env plain_check);
  closed ← st_result (call_err map_database_error (reader_close (D := D) (W := W)));
  after ← st_result (st_env plain_check);
  st_lift (_ ← before; _ ← after; value ← operation; _ ← closed; Ok value).

Definition open_read_only_file (file : nat) (byte_limit : option Z) : Act (Image D) :=
  length ← opened_file_len file;
  _ ← st_lift (reject_if match byte_limit with Some limit => limit <? length | None => false end Plain.ProbeLimit);
  _ ← framed (call_err map_database_error (file_backend (D := D) (W := W)));
  _ ← st_env plain_check;
  bytes ← st_gets (fun d => content (node d file));
  opened ← st_result (st_env (reader_open (W := W) bytes));
  after ← st_result (st_env plain_check);
  match opened with
  | Ok database =>
      match after with
      | Err error => _ ← st_result (E := Plain.t) (close_read_only (Ok tt)); st_lift (Err error)
      | Ok _ => mret database
      end
  | Err DatabaseError.RepairAborted => _ ← st_lift after; st_lift (Err Plain.NeedsRepair)
  | Err error => _ ← st_lift after; st_lift (Err (map_database_error error))
  end.

Section Reading.
Context {S : Type}.
Definition begin_reading : St S Plain.t unit := framed (call_err map_transaction_error (begin_read (D := D) (W := W))).
Definition stored {A} (a : A) : St S Plain.t A :=
  framed (_ ← call_err map_storage_error (storage_call (D := D) (W := W)); mret a).

(** The format row of an opened snapshot. *)
Definition read_version (d : D) : St S Plain.t unit :=
  _ ← framed (call_err map_table_error (_ ← table_call (D := D) (W := W);
        lift (reject_if (negb (bool_decide (META_TABLE_NAME ∈ list_tables d))) TableError.TableDoesNotExist)));
  version ← stored (table_get d META_TABLE_NAME FORMAT_VERSION_KEY);
  version ← st_lift (ok_or Plain.Corrupt version);
  st_lift (reject_if (negb (le_value version =? FORMAT_VERSION)) Plain.Unsupported).
Definition read_format_metadata (d : D) : St S Plain.t unit := _ ← begin_reading; read_version d.

(** The loop over the listed tables. *)
Fixpoint count_tables (names : list (list Z)) (count : Z) (only : bool) : St S Plain.t (Z * bool) :=
  match names with
  | [] => mret (count, only)
  | name :: names => _ ← st_env plain_check; count_tables names (count + 1) (only && bool_decide (name = META_TABLE_NAME))
  end.

Definition read_empty_state (database : Image D) : St S Plain.t EmptyControlState :=
  let d := tables database in
  retained ← stored (savepoints database);
  if (retained : bool) then mret NotEmpty
  else
    _ ← begin_reading;
    listed ← stored (list_tables d);
    counted ← count_tables listed 0 true;
    let '(regular_table_count, only_expected_table) := counted in
    _ ← st_env plain_check;
    multimaps ← stored (list_multimap_tables d);
    let has_multimap := negb (bool_decide (multimaps = [])) in
    _ ← st_env plain_check;
    if (regular_table_count =? 0) && negb has_multimap then mret Preformat
    else if negb (regular_table_count =? 1) || negb only_expected_table || has_multimap then mret NotEmpty
    else
      _ ← read_version d;
      metadata_rows ← stored (len (table_iter d META_TABLE_NAME));
      mret (if metadata_rows =? 1 then Formatted else NotEmpty).
End Reading.

Definition inspect_open_file (file : nat) : Act unit :=
  database ← open_read_only_file file None;
  result ← st_result (read_format_metadata (tables database));
  close_read_only result.
Definition empty_state_open_file (file : nat) : Act EmptyControlState :=
  database ← open_read_only_file file (Some EMPTY_PROBE_BYTES);
  result ← st_result (read_empty_state database);
  close_read_only result.

(** ** Opening and creating files *)

(** [File::open], [OpenOptions::open] *)
Definition open_named : St Disk IoError.t nat :=
  _ ← st_env io;
  file ← st_gets named;
  st_lift (ok_or IoError.NotFound file).
Definition open_initialization_file : Act nat :=
  st_err (fun error => match error with IoError.NotFound => Plain.Busy | error => map_io_error error end) open_named.
Definition create_new_file : Act nat :=
  st_err map_io_error (
    _ ← st_env io;
    file ← st_gets named;
    _ ← st_lift (reject_if (bool_decide (is_Some file)) IoError.AlreadyExists);
    created ← st_gets unused;
    _ ← st_modify (fun d => with_node created {| content := []; regular := true; modified := 0 |}
          {| named := Some created; symlink := false; node := node d; unused := S (unused d) |});
    mret created).

Definition inspect_plain_control : Act unit :=
  _ ← st_env plain_check;
  opened ← st_result open_named;
  _ ← st_env plain_check;
  file ← st_lift (map_err map_io_error opened);
  inspect_open_file file.

(** [plain_control_is_empty] *)
Definition plain_control_is_empty : Act bool :=
  _ ← st_env plain_check;
  opened ← st_result open_named;
  _ ← st_env plain_check;
  file ← st_lift (map_err map_io_error opened);
  state ← empty_state_open_file file;
  mret (negb (bool_decide (state = NotEmpty))).

(** ** Initialization *)

(** The transaction that writes the format row, on an open database. *)
Definition write_format_metadata : St W Plain.t unit :=
  _ ← framed (call_err map_transaction_error (begin_write (D := D) (W := W)));
  database ← st_gets writer_image;
  let d := tables database in
  has_savepoint ← stored (savepoints database);
  _ ← st_env plain_check;
  _ ← st_lift (reject_if has_savepoint Plain.Unsupported);
  listed ← stored (list_tables d);
  _ ← st_env plain_check;
  multimaps ← stored (list_multimap_tables d);
  _ ← st_env plain_check;
  _ ← st_lift (reject_if (negb (bool_decide (listed = [])) || negb (bool_decide (multimaps = []))) Plain.Unsupported);
  tx ← framed (_ ← call_err map_table_error (table_call (D := D) (W := W)); mret (table_open d META_TABLE_NAME));
  tx ← stored (table_insert tx META_TABLE_NAME FORMAT_VERSION_KEY (le_bytes 8 FORMAT_VERSION));
  framed (st_err map_commit_error (writer_commit tx)).

(** A run on an open database, which keeps the database it reached. *)
Definition on_writer_of {A} (writer : W) (m : St W Plain.t A) : Act (result Plain.t A * W) := fun d e =>
  let '((r, writer), e) := m writer e in ((Ok (r, writer), d), e).

Definition close_writable (file : nat) (writer : W) (operation : result Plain.t unit) : Act unit :=
  before ← st_result (st_env plain_check);
  closed ← st_result (st_err map_database_error (on_file file (engine_close writer)));
  after ← st_result (st_env plain_check);
  st_lift (_ ← before; _ ← after; _ ← operation; closed).

Definition initialize_empty_file (file : nat) : Act unit :=
  _ ← framed (call_err map_database_error (file_backend (D := D) (W := W)));
  _ ← st_env plain_check;
  opened ← st_result (on_file file writer_create);
  after ← st_result (st_env plain_check);
  writer ← match opened with
    | Ok writer => mret writer
    | Err error => _ ← st_lift after; st_lift (Err (map_database_error error))
    end;
  _ ← match after with
    | Err error => _ ← st_result (E := Plain.t) (close_writable file writer (Ok tt)); st_lift (Err error)
    | Ok _ => mret tt
    end;
  done ← on_writer_of writer write_format_metadata;
  let '(operation, writer) := done in
  _ ← close_writable file writer operation;
  inspect_plain_control.

Definition initialize_fresh (file : nat) : Act unit :=
  length ← opened_file_len file;
  _ ← st_lift (reject_if (negb (length =? 0)) Plain.Busy);
  initialize_empty_file file.

Definition complete_preformat_initialization : Act unit :=
  file ← framed open_initialization_file;
  length ← opened_file_len file;
  if length =? 0 then initialize_fresh file
  else
    (* [try_clone]: the same file *)
    _ ← framed sys;
    state ← empty_state_open_file file;
    match state with
    | Formatted => mret tt
    | NotEmpty => st_lift (Err Plain.Unsupported)
    | Preformat =>
        now ← opened_file_len file;
        _ ← st_lift (reject_if (negb (now =? length)) Plain.Busy);
        initialize_empty_file file
    end.

Definition accept_existing_initialization (file : nat) : Act unit :=
  state ← empty_state_open_file file;
  match state with
  | Formatted => mret tt
  | NotEmpty => st_lift (Err Plain.Unsupported)
  | Preformat => complete_preformat_initialization
  end.

Definition initialize_opened (file : nat) : Act unit :=
  length ← opened_file_len file;
  if 0 <? length then accept_existing_initialization file else initialize_fresh file.

Definition initialize_plain_control : Act unit :=
  _ ← st_env plain_check;
  existing ← st_result open_named;
  _ ← st_env plain_check;
  match existing with
  | Ok file =>
      length ← opened_file_len file;
      if 0 <? length then accept_existing_initialization file
      else
        file ← framed open_initialization_file;
        initialize_opened file
  | Err IoError.NotFound =>
      created ← st_result create_new_file;
      _ ← st_env plain_check;
      file ← st_lift created;
      initialize_opened file
  | Err error => st_lift (Err (map_io_error error))
  end.

(** ** The writer of an existing file *)

(** [ControlWriter::open]: the file and its open database. *)
Definition control_writer_open : Act (nat * W) :=
  _ ← st_env plain_check;
  file ← st_err (fun _ => map_database_error DatabaseError.Other) open_named;
  database ← st_err map_database_error (on_file file writer_open);
  after ← st_result (st_env plain_check);
  match after with
  | Err error => _ ← st_result (E := Plain.t) (on_file file (engine_close database)); st_lift (Err error)
  | Ok _ => mret (file, database)
  end.

(** ** Recovery *)

Definition copy_buffer : Z := 64 * 1024.

(** One [read] of at most [limit] bytes at [position]: some of those left, at least one. *)
Definition read_some (file : nat) (position limit : Z) : Act (list Z) := fun d e =>
  match run io e with
  | Err error => ((Err (map_io_error error), d), snd (io e))
  | Ok _ =>
      let '(wanted, e') := short limit (snd (io e)) in
      let rest := drop (Z.to_nat position) (content (node d file)) in
      let count := Z.min (len rest) (Z.min limit (Z.max 1 wanted)) in
      ((Ok (firstn (Z.to_nat count) rest), d), e')
  end.

(** The copying loop; every turn reads at least a byte. *)
Fixpoint copy_loop (fuel : nat) (original candidate : nat) (position remaining : Z) : Act Z :=
  if remaining =? 0 then mret position
  else
    match fuel with
    | O => st_lift (Err Plain.Unavailable)
    | S fuel =>
        _ ← st_env plain_check;
        bytes ← read_some original position (Z.min remaining copy_buffer);
        _ ← st_lift (reject_if (bool_decide (bytes = [])) Plain.Busy);
        _ ← st_env plain_check;
        _ ← sys;
        written ← st_gets (fun d => content (node d candidate));
        _ ← st_modify (put_content candidate (written ++ bytes));
        copy_loop fuel original candidate (position + len bytes) (remaining - len bytes)
    end.

Definition copy_recovery_source (original candidate : nat) (length : Z) : Act unit :=
  _ ← (if length =? 0 then st_lift (Err Plain.Unsupported)
       else
         size ← opened_file_len candidate;
         st_lift (reject_if (negb (size =? 0)) Plain.Unsupported));
  _ ← sys;
  _ ← sys;
  position ← copy_loop (Z.to_nat length) original candidate 0 length;
  _ ← st_env plain_check;
  more ← read_some original position 1;
  _ ← st_lift (reject_if (negb (bool_decide (more = []))) Plain.Busy);
  _ ← sys;
  _ ← st_env plain_check;
  size ← opened_file_len candidate;
  st_lift (reject_if (negb (size =? length)) Plain.Busy).

(** [original] still is the file under the path, unchanged since [snapshot]. *)
Definition verify_recovery_source (original : nat) (snapshot : Node) : Act unit :=
  _ ← st_env plain_check;
  held ← (_ ← sys; st_gets (fun d => node d original));
  found ← (_ ← sys; st_gets named);
  under ← st_lift (ok_or (map_io_error IoError.NotFound) found);
  link ← st_gets symlink;
  entry ← st_gets (fun d => node d under);
  _ ← st_lift (reject_if (negb (regular held) || negb (regular entry) || (link : bool)) Plain.Unsupported);
  _ ← sys;
  _ ← st_lift (reject_if (negb (len (content held) =? len (content snapshot)) || negb (len (content entry) =? len (content snapshot)))
        Plain.Busy);
  _ ← sys;
  _ ← st_lift (reject_if (negb (modified held =? modified snapshot)) Plain.Busy);
  _ ← sys;
  _ ← st_lift (reject_if (negb (modified entry =? modified snapshot)) Plain.Busy);
  _ ← st_lift (reject_if (negb (bool_decide (under = original))) Plain.Busy);
  st_env plain_check.

(** On a repaired database, or the error of opening it. *)
Definition inspect_recovered_control (file : nat) (create : bool) : Act unit :=
  opened ← st_result (on_file file (writer_recover create));
  after ← st_result (st_env plain_check);
  match opened with
  | Ok writer =>
      inspected ← match after with
        | Err error => mret (Err error)
        | Ok _ => st_result (read_format_metadata (tables (writer_image writer)))
        end;
      close_writable file writer inspected
  | Err error => _ ← st_lift after; st_lift (Err (map_database_error error))
  end.

Definition recover_plain_control (candidate : nat) : Act unit :=
  _ ← st_env plain_check;
  original ← st_err map_io_error open_named;
  snapshot ← (_ ← sys; st_gets (fun d => node d original));
  inspected ← st_result inspect_plain_control;
  match inspected with
  | Ok _ => mret tt
  | Err Plain.NeedsRepair =>
      _ ← copy_recovery_source original candidate (len (content snapshot));
      _ ← verify_recovery_source original snapshot;
      _ ← st_env plain_check;
      _ ← call_err map_database_error (file_backend (D := D) (W := W));
      _ ← inspect_recovered_control candidate true;
      _ ← verify_recovery_source original snapshot;
      again ← st_result inspect_plain_control;
      match again with
      | Err Plain.NeedsRepair =>
          _ ← st_env plain_check;
          opened ← st_result (st_err (fun _ => DatabaseError.Other) open_named);
          match opened with
          | Ok file => inspect_recovered_control file false
          | Err error => _ ← st_env plain_check; st_lift (Err (map_database_error error))
          end
      | Ok _ => st_lift (Err Plain.Busy)
      | Err error => st_lift (Err error)
      end
  | Err error => st_lift (Err error)
  end.
End Files.
