(* ===== verification/PlainSafety.v ===== *)
(** The control file is never lost: initialization writes only to a file that holds nothing,
    and leaves the empty corpus; recovery touches the file only after it succeeded on a
    copy. *)

From stdpp Require Import gmap.
From S2P Require Import Prelude Bytes State Database Control ControlSpec ControlRefine ControlState ControlSample PlainControl.
From S2P Require Import Publication PublicationSpec PublicationRefine PublicationLifecycle PublicationHistory.

(** ** The engine's promises

    [committed]: what a clean database file holds. *)
Class EngineLaws (D W : Type) `{Redb D} `{Engine D W} (committed : list Z -> option (Image D)) := {
  reader_law bytes e x e' : reader_open (W := W) bytes e = (Ok x, e') -> committed bytes = Some x;
  create_law bytes e t bytes' e' : writer_create bytes e = ((Ok t, bytes'), e') ->
    if decide (bytes = []) then
      names_of (tables (writer_image t)) = ∅ /\ list_multimap_tables (tables (writer_image t)) = [] /\ savepoints (writer_image t) = false
    else committed bytes = Some (writer_image t);
  commit_law d t e t' e' : writer_commit d t e = ((Ok tt, t'), e') ->
    writer_image t' = {| tables := d; savepoints := savepoints (writer_image t) |};
  close_law t bytes e bytes' e' : engine_close t bytes e = ((Ok tt, bytes'), e') -> committed bytes' = Some (writer_image t) }.

Section Safety.
Context {D W : Type} `{Redb D} `{Engine D W} (committed : list Z -> option (Image D)) `{!EngineLaws D W committed}.
Context (io : M IoError.t unit).
Implicit Types (d : Disk) (x : Image D).

(** ** What files hold *)

(** No table and no savepoint. *)
Definition unformatted x : Prop :=
  names_of (tables x) = ∅ /\ list_multimap_tables (tables x) = [] /\ savepoints x = false.
(** The format row. *)
Definition current_format (t : D) : Prop :=
  META_TABLE_NAME ∈ names_of t /\ exists v, rows_of t META_TABLE_NAME !! FORMAT_VERSION_KEY = Some v /\ le_value v = FORMAT_VERSION.
(** Nothing but the format row. *)
Definition formatted x : Prop :=
  names_of (tables x) = {[META_TABLE_NAME]} /\ list_multimap_tables (tables x) = [] /\ savepoints x = false /\
  current_format (tables x) /\ size (rows_of (tables x) META_TABLE_NAME) = 1%nat.

Lemma formatted_empty x : formatted x -> represents (tables x) empty_corpus /\ unpublished (tables x).
Proof.
  intros (Hn & Hm & _). assert (forall n, n <> META_TABLE_NAME -> rows_of (tables x) n = ∅) as Hrows.
  { intros n Hne. unfold rows_of. assert (n ∉ names_of (tables x)) as Hno by set_solver. unfold names_of in Hno.
    apply not_elem_of_dom in Hno. by rewrite Hno. }
  split.
  - split; [done|]. split.
    + split; [right; rewrite Hn; apply (bool_decide_eq_true_1 _); vm_compute; reflexivity|].
      change (initialized empty_corpus) with false. cbv iota. rewrite Hn. apply (bool_decide_eq_true_1 _). vm_compute. reflexivity.
    + unfold holds. rewrite !Hrows by done. cbn. rewrite fmap_empty. repeat split; try done; try (cbn; width).
      by intros (r & Hr & _).
  - unfold unpublished. rewrite Hn. apply (bool_decide_eq_true_1 _). vm_compute. reflexivity.
Qed.

(** ** Rules for framed calls *)

Section Rules.
Context {S : Type}.
Implicit Types (P X : S -> Prop).

Lemma plain_check_runs P X : (forall s, P s -> X s) -> runs P (st_env (S := S) plain_check) (fun _ => P) (fun _ => X).
Proof. intros HX. by apply runs_env. Qed.
Lemma framed_runs {A} P (m : St S Plain.t A) (Q : A -> S -> Prop) X :
  runs P m Q (fun _ => X) -> (forall s, P s -> X s) -> (forall a s, Q a s -> X s) -> runs P (framed m) Q (fun _ => X).
Proof.
  intros Hm HP HQ. unfold framed. eapply runs_seq; [by apply plain_check_runs|]. intros _.
  eapply (runs_bind _ _ (fun r s => match r with Ok a => Q a s | Err _ => X s end)).
  - eapply runs_result; [exact Hm|done|done].
  - intros r. eapply runs_seq; [apply plain_check_runs; intros s; destruct r; [apply HQ|done]|]. intros _.
    apply runs_lift; [by intros a s ->|intros e s ->; done].
Qed.
Lemma call_runs {E A} P (f : E -> Plain.t) (m : M E A) (F : A -> Prop) X :
  (forall a e, run m e = Ok a -> F a) -> (forall s, P s -> X s) -> runs P (call_err (S := S) f m) (fun a s => F a /\ P s) (fun _ => X).
Proof.
  intros HF HX. eapply runs_err; [|by intros e s Hs; exact Hs]. apply runs_env; [|intros _; exact HX]. intros a w s Hr Hs. split; [by eapply HF|done].
Qed.
Lemma stored_runs {A} P (a : A) X :
  (forall s, P s -> X s) -> runs P (stored (D := D) (W := W) a) (fun b s => b = a /\ P s) (fun _ => X).
Proof.
  intros HX. apply framed_runs; [|done|by intros b s [_ Hs]; apply HX]. eapply runs_seq.
  - eapply runs_weaken; [by apply (call_runs P _ _ (fun _ => True))|done|by intros b s [_ Hs]|done].
  - intros _. by apply runs_ret.
Qed.
Lemma begin_reading_runs P X : (forall s, P s -> X s) -> runs P (begin_reading (D := D) (W := W)) (fun _ => P) (fun _ => X).
Proof.
  intros HX. apply framed_runs; [|done|done]. eapply runs_weaken; [by apply (call_runs P _ _ (fun _ => True))|done|by intros b s [_ Hs]|done].
Qed.

(** ** Reading *)

Lemma read_version_runs P (t : D) X :
  (forall s, P s -> X s) -> runs P (read_version (W := W) t) (fun _ s => current_format t /\ P s) (fun _ => X).
Proof.
  intros HX. unfold read_version. eapply (runs_bind _ _ (fun _ s => META_TABLE_NAME ∈ names_of t /\ P s)).
  - apply framed_runs; [|done|by intros b s [_ Hs]; apply HX]. apply call_runs; [|done]. intros [] e Hr.
    apply run_bind_ok in Hr as ([] & e1 & _ & Hr). unfold run, lift in Hr. cbn in Hr.
    case_bool_decide as Hin; [by apply (proj2 (list_tables_names t))|done].
  - intros []. apply runs_pull. intros Hin. eapply runs_bind; [by apply stored_runs|]. intros o. cbv beta. apply runs_pull. intros ->.
    apply runs_pure; [intros v Hv%ok_or_inv|intros e s _; apply HX]. apply runs_lift; [|intros e s _; apply HX].
    intros [] s Hf%reject_if_ok Hs. to_prop. split; [|done]. split; [done|]. exists v. by rewrite get_rows in Hv.
Qed.
Lemma read_format_runs P (t : D) X :
  (forall s, P s -> X s) -> runs P (read_format_metadata (W := W) t) (fun _ s => current_format t /\ P s) (fun _ => X).
Proof. intros HX. unfold read_format_metadata. eapply runs_seq; [by apply begin_reading_runs|]. intros []. by apply read_version_runs. Qed.

Lemma count_tables_runs P names X : (forall s, P s -> X s) -> forall count only,
  runs P (count_tables (S := S) names count only)
    (fun r s => (fst r = count + len names /\ (snd r = true <-> only = true /\ Forall (fun n => n = META_TABLE_NAME) names)) /\ P s) (fun _ => X).
Proof.
  intros HX. induction names as [|name names IH]; intros count only; cbn [count_tables].
  - apply runs_ret. intros s Hs. split; [|done]. cbn. split; [unfold len; cbn; lia|]. split; [by split|by intros []].
  - eapply runs_seq; [by apply plain_check_runs|]. intros _. eapply runs_weaken; [apply IH|done| |done].
    intros r s ([Hc Ho] & Hs). split; [|done]. rewrite len_cons. split; [lia|]. rewrite Ho, andb_true_iff, Forall_cons, bool_decide_eq_true. tauto.
Qed.

(** What the empty probe says of a snapshot. *)
Definition probed x (state : EmptyControlState) : Prop :=
  match state with Preformat => unformatted x | Formatted => formatted x | NotEmpty => True end.

Lemma read_empty_runs P x X :
  (forall s, P s -> X s) -> runs P (read_empty_state (W := W) x) (fun state s => probed x state /\ P s) (fun _ => X).
Proof.
  intros HX. unfold read_empty_state. eapply runs_bind; [by apply stored_runs|]. intros retained. cbv beta. apply runs_pull. intros ->.
  destruct (savepoints x) eqn:Hsave; [by apply runs_ret|]. eapply runs_seq; [by apply begin_reading_runs|]. intros [].
  eapply runs_bind; [by apply stored_runs|]. intros listed. cbv beta. apply runs_pull. intros ->.
  eapply runs_bind; [by apply count_tables_runs|]. intros [count only]. cbv beta. apply runs_pull. cbn [fst snd]. intros [-> Honly].
  eapply runs_seq; [by apply plain_check_runs|]. intros _. eapply runs_bind; [by apply stored_runs|]. intros multi. cbv beta. apply runs_pull. intros ->.
  eapply runs_seq; [by apply plain_check_runs|]. intros _. rewrite Z.add_0_l. destruct (list_tables_names (tables x)) as [Hnd Hin].
  destruct (_ && _) eqn:Epre.
  - apply runs_ret. intros s Hs. split; [|done]. to_prop. split; [|done].
    assert (list_tables (tables x) = []) as Hnil by (apply nil_length_inv; unfold len in *; lia).
    apply leibniz_equiv. intros n. rewrite <- Hin, Hnil. set_solver.
  - destruct (_ || _ || _) eqn:Eone; [by apply runs_ret|]. to_prop.
    eapply runs_bind; [by apply read_version_runs|]. intros []. cbv beta. apply runs_pull. intros Hf.
    eapply runs_bind; [by apply stored_runs|]. intros n. cbv beta. apply runs_pull. intros ->. apply runs_ret. intros s Hs. split; [|done].
    destruct (Z.eqb_spec (len (table_iter (tables x) META_TABLE_NAME)) 1) as [Hlen|_]; [|done].
    subst only. destruct (proj1 Honly eq_refl) as [_ Hall]. destruct (list_tables (tables x)) as [|n [|? ?]] eqn:El; [unfold len in *; cbn [length] in *; lia| |].
    + apply Forall_cons in Hall as [-> _]. split; [|split; [done|split; [done|split; [done|]]]].
      * apply leibniz_equiv. intros n. rewrite <- Hin. set_solver.
      * pose proof (table_iter_size (tables x) META_TABLE_NAME) as Hsz. unfold len in *. lia.
    + unfold len in *. cbn [length] in *. lia.
Qed.
End Rules.

(** ** Files *)

Abbreviation sys := (PlainControl.sys io).
Implicit Types (P X : Disk -> Prop).

Lemma sys_runs P X : (forall d, P d -> X d) -> runs P sys (fun _ => P) (fun _ => X).
Proof. intros HX. eapply runs_weaken; [by apply (call_runs P _ _ (fun _ => True))|done|by intros b d [_ Hd]|done]. Qed.

Lemma opened_file_len_runs P file X :
  (forall d, P d -> X d) -> runs P (opened_file_len io file) (fun n d => n = len (content (node d file)) /\ P d) (fun _ => X).
Proof.
  intros HX. unfold opened_file_len. eapply (runs_bind _ _ (fun m d => m = node d file /\ P d)).
  - apply framed_runs; [|done|by intros m d [_ Hd]; apply HX]. eapply runs_seq; [by apply sys_runs|]. intros []. by apply runs_gets.
  - intros m. destruct (regular m) eqn:Hreg.
    + apply runs_ret. by intros d [-> Hd].
    + apply runs_lift; [done|]. intros e d _ [_ Hd]. by apply HX.
Qed.

Lemma close_read_only_runs {A} P (operation : result Plain.t A) X :
  (forall d, P d -> X d) -> runs P (close_read_only (D := D) (W := W) operation) (fun a d => operation = Ok a /\ P d) (fun _ => X).
Proof.
  intros HX. unfold close_read_only. eapply (runs_seq (S := Disk)); [by apply runs_attempt|].
  intros before. eapply (runs_seq (S := Disk)).
  { eapply runs_result; [by apply (call_runs P _ _ (fun _ => True) P)|by intros a d [_ Hd]|done]. }
  intros closed. eapply (runs_seq (S := Disk)); [by apply runs_attempt|].
  intros after. apply runs_lift; [|intros e d _; apply HX]. intros a d E Hd. split; [|done].
  apply bind_ok_inv in E as (? & _ & E). apply bind_ok_inv in E as (? & _ & E). apply bind_ok_inv in E as (b & -> & E).
  by apply bind_ok_inv in E as (? & _ & [= ->]).
Qed.

Lemma open_read_only_runs P file limit X :
  (forall d, P d -> X d) ->
  runs P (open_read_only_file (D := D) (W := W) io file limit) (fun x d => committed (content (node d file)) = Some x /\ P d) (fun _ => X).
Proof.
  intros HX. unfold open_read_only_file. eapply runs_bind; [by apply opened_file_len_runs|]. intros n. cbv beta.
  eapply (runs_weaken P _ _ _ _ (fun _ => X)); [|by intros d [_ Hd]|intros x d Hx; exact Hx|done].
  apply runs_pure; [intros [] _|intros e d _; apply HX]. eapply (runs_seq (S := Disk)).
  { apply framed_runs; [|done|exact (fun _ => HX)]. eapply runs_weaken; [by apply (call_runs P _ _ (fun _ => True))|done|by intros b d [_ Hd]|done]. }
  intros []. eapply runs_seq; [by apply plain_check_runs|]. intros _.
  eapply (runs_bind _ _ (fun bytes d => bytes = content (node d file) /\ P d)); [by apply runs_gets|]. intros bytes.
  eapply (runs_bind _ _ (fun opened d => (forall x, opened = Ok x -> committed (content (node d file)) = Some x) /\ P d)).
  { apply runs_attempt. intros r e d Hr [-> Hd]. split; [|done]. intros x ->. unfold run in Hr. destruct (reader_open _ e) as [r e'] eqn:E.
    cbn in Hr. subst r. by eapply reader_law. }
  intros opened. eapply (runs_seq (S := Disk)).
  { by apply runs_attempt. }
  intros after. set (P' := fun d => (forall x, opened = Ok x -> committed (content (node d file)) = Some x) /\ P d).
  assert (forall e : Plain.t, runs P' (_ ← st_lift after; st_lift (Err e)) (fun x d => committed (content (node d file)) = Some x /\ P d) (fun _ => X)) as Hfail.
  { intros e. apply runs_pure; [intros [] _|by intros x d _ [_ Hd]; apply HX]. apply runs_lift; [done|]. intros x d _ [_ Hd]. by apply HX. }
  destruct opened as [x|[]]; try apply Hfail. destruct after as [[]|e].
  - apply runs_ret. intros d [Hx Hd]. split; [by apply Hx|done].
  - eapply (runs_seq (S := Disk)).
    { eapply (runs_result P' _ (fun _ => P') (fun _ => P') (fun _ => P')); [|done|done].
      eapply runs_weaken; [by apply (close_read_only_runs P')|done|by intros a d [_ Hd]|done]. }
    intros r. apply runs_lift; [done|]. intros x' d _ [_ Hd]. by apply HX.
Qed.

(** What the open database of a file shows. *)
Lemma read_file_runs {A} P file limit (read : Image D -> St Disk Plain.t A) (F : Image D -> A -> Prop) X :
  (forall d, P d -> X d) ->
  (forall x (R : Disk -> Prop), runs R (read x) (fun a d => F x a /\ R d) (fun _ => R)) ->
  runs P (database ← open_read_only_file (D := D) (W := W) io file limit; result ← st_result (read database); close_read_only (D := D) (W := W) result)
    (fun a d => (exists x, committed (content (node d file)) = Some x /\ F x a) /\ P d) (fun _ => X).
Proof.
  intros HX Hread. eapply runs_bind; [by apply open_read_only_runs|]. intros x. cbv beta. set (R := fun d => committed (content (node d file)) = Some x /\ P d).
  assert (forall d, R d -> X d) as HRX by (intros d [_ Hd]; by apply HX).
  eapply (runs_bind _ _ (fun r d => (forall a, r = Ok a -> F x a) /\ R d)).
  - eapply runs_result; [apply (Hread x R)| |]; [intros a d [Hf Hd]; split; [by intros a' [= <-]|done]|by intros e d Hd].
  - intros r. apply runs_pull. intros Hr. eapply runs_weaken; [by apply (close_read_only_runs R r)|done| |done].
    intros a d (-> & Hx & Hd). split; [|done]. exists x. split; [done|by apply Hr].
Qed.
Lemma empty_state_runs P file X :
  (forall d, P d -> X d) ->
  runs P (empty_state_open_file (D := D) (W := W) io file)
    (fun state d => (exists x, committed (content (node d file)) = Some x /\ probed x state) /\ P d) (fun _ => X).
Proof. intros HX. apply (read_file_runs P file _ _ probed); [done|]. intros x R. by apply read_empty_runs. Qed.
Lemma inspect_open_runs P file X :
  (forall d, P d -> X d) ->
  runs P (inspect_open_file (D := D) (W := W) io file)
    (fun _ d => (exists x, committed (content (node d file)) = Some x /\ current_format (tables x)) /\ P d) (fun _ => X).
Proof.
  intros HX. apply (read_file_runs P file _ (fun x => read_format_metadata (tables x)) (fun x _ => current_format (tables x))); [done|].
  intros x R. by apply read_format_runs.
Qed.
Lemma open_named_runs P : runs P (open_named io) (fun n d => named d = Some n /\ P d) (fun _ => P).
Proof.
  unfold open_named. eapply runs_seq; [by apply runs_env|]. intros []. eapply (runs_bind _ _ (fun o d => o = named d /\ P d)); [by apply runs_gets|].
  intros o. apply runs_lift; [|by intros e d _ [_ Hd]]. by intros n d Hn%ok_or_inv [<- Hd].
Qed.
Lemma inspect_runs P X :
  (forall d, P d -> X d) ->
  runs P (inspect_plain_control (D := D) (W := W) io)
    (fun _ d => (exists n x, named d = Some n /\ committed (content (node d n)) = Some x /\ current_format (tables x)) /\ P d) (fun _ => X).
Proof.
  intros HX. unfold inspect_plain_control. eapply runs_seq; [by apply plain_check_runs|]. intros _.
  eapply (runs_bind _ _ (fun r d => (forall n, r = Ok n -> named d = Some n) /\ P d)).
  { eapply runs_result; [apply open_named_runs| |by intros e d Hd]. intros n d [Hn Hd]. split; [by intros m [= <-]|done]. }
  intros r. eapply runs_seq; [apply plain_check_runs; intros d [_ Hd]; by apply HX|]. intros _. apply runs_pure; [intros n Hn|by intros e d _ [_ Hd]; apply HX].
  destruct r as [n'|]; [|done]. apply ok_inj in Hn as ->. eapply runs_weaken; [apply (inspect_open_runs (fun d => named d = Some n /\ P d) n X)| | |done].
  - intros d [_ Hd]. by apply HX.
  - intros d [Hn Hd]. split; [by apply Hn|done].
  - intros a d ((x & Hx & Hf) & Hn & Hd). split; [|done]. by exists n, x.
Qed.

(** ** Initialization *)

(** The file under the path is [n], and no other differs. *)
Definition only n d0 d : Prop := named d = Some n /\ forall m, m <> n -> node d m = node d0 m.
(** Nothing is lost by writing the file. *)
Definition vacant d n : Prop :=
  content (node d n) = [] \/ exists x, committed (content (node d n)) = Some x /\ unformatted x.
Definition ready_file d n : Prop := exists x, committed (content (node d n)) = Some x /\ formatted x.

Lemma only_put n d0 d bytes : only n d0 d -> only n d0 (put_content n bytes d).
Proof. intros [Hn Ho]. split; [done|]. intros m Hm. cbn. case_decide; [done|by apply Ho]. Qed.
Lemma put_get n bytes d : content (node (put_content n bytes d) n) = bytes.
Proof. cbn. by rewrite decide_True. Qed.

Lemma write_format_runs t :
  unformatted (writer_image t) ->
  runs (fun t' => t' = t) (write_format_metadata (D := D) (W := W)) (fun _ t' => formatted (writer_image t')) (fun _ _ => True).
Proof.
  intros (Hn & Hm & Hs). unfold write_format_metadata. set (P := fun t' : W => t' = t).
  assert (forall t', P t' -> True) as HT by done. eapply (runs_seq (S := W)).
  { apply framed_runs; [|done|done]. eapply runs_weaken; [by apply (call_runs P _ _ (fun _ => True) (fun _ => True))|done|by intros b d [_ Hd]|done]. }
  intros []. eapply (runs_bind _ _ (fun x t' => x = writer_image t /\ P t')); [apply runs_gets; by intros t' ->|].
  intros x. apply runs_pull. intros ->. cbv zeta. eapply runs_bind; [by apply (stored_runs P _ (fun _ => True))|]. intros has. cbv beta. apply runs_pull. intros ->.
  eapply runs_seq; [by apply plain_check_runs|]. intros _. apply runs_pure; [intros [] _|done].
  eapply runs_bind; [by apply (stored_runs P _ (fun _ => True))|]. intros listed. cbv beta. apply runs_pull. intros ->.
  eapply runs_seq; [by apply plain_check_runs|]. intros _. eapply runs_bind; [by apply (stored_runs P _ (fun _ => True))|]. intros multi. cbv beta.
  apply runs_pull. intros ->. eapply runs_seq; [by apply plain_check_runs|]. intros _. apply runs_pure; [intros [] _|done].
  set (opened := table_open (tables (writer_image t)) META_TABLE_NAME).
  eapply (runs_bind _ _ (fun tx t' => tx = opened /\ P t')).
  { apply framed_runs; [|done|done]. eapply runs_seq; [|intros _; by apply runs_ret].
    eapply runs_weaken; [by apply (call_runs P _ _ (fun _ => True) (fun _ => True))|done|by intros b d [_ Hd]|done]. }
  intros tx. apply runs_pull. intros ->. eapply runs_bind; [by apply (stored_runs P _ (fun _ => True))|]. intros tx. cbv beta. apply runs_pull. intros ->.
  apply framed_runs; [|done|done]. eapply (runs_err _ _ _ _ (fun _ _ => True)); [|done]. intros t' e ->.
  destruct (writer_commit _ t e) as [[[[]|er] t'] e'] eqn:E; cbn [fst]; [|done]. rewrite (commit_law _ _ _ _ _ E).
  assert (rows_of (tables (writer_image t)) META_TABLE_NAME = ∅) as Hempty.
  { unfold rows_of. assert (META_TABLE_NAME ∉ names_of (tables (writer_image t))) as Hno by (rewrite Hn; set_solver).
    unfold names_of in Hno. apply not_elem_of_dom in Hno. by rewrite Hno. }
  assert (rows_of (table_insert opened META_TABLE_NAME FORMAT_VERSION_KEY (le_bytes 8 FORMAT_VERSION)) META_TABLE_NAME
    = {[FORMAT_VERSION_KEY := le_bytes 8 FORMAT_VERSION]}) as Hrow.
  { rewrite rows_insert, decide_True by done. unfold opened. by rewrite rows_open, Hempty. }
  assert (names_of (table_insert opened META_TABLE_NAME FORMAT_VERSION_KEY (le_bytes 8 FORMAT_VERSION)) = {[META_TABLE_NAME]}) as Hnames.
  { unfold opened. rewrite names_insert, names_open, Hn. set_solver. }
  split; [exact Hnames|]. split; [cbn; unfold opened; by rewrite insert_multimaps, open_multimaps|]. split; [exact Hs|]. cbn [tables]. split.
  - split; [rewrite Hnames; set_solver|]. exists (le_bytes 8 FORMAT_VERSION). rewrite Hrow, lookup_singleton_eq. done.
  - by rewrite Hrow, map_size_singleton.
Qed.

Lemma on_writer_of_runs {A} (P : Disk -> Prop) t (m : St W Plain.t A) (Q : A -> W -> Prop) X :
  runs (fun t' => t' = t) m Q (fun _ _ => True) ->
  runs P (on_writer_of t m) (fun done d => (forall a, fst done = Ok a -> Q a (snd done)) /\ P d) (fun _ => X).
Proof.
  intros Hm d e Hd. specialize (Hm t e eq_refl). unfold on_writer_of. destruct (m t e) as [[[a|er] t'] e']; cbn [fst snd] in *; (split; [|done]).
  - by intros b [= <-].
  - done.
Qed.

(** What the contents of a file do not matter to. *)
Definition apart n P : Prop := forall bytes d, P d -> P (put_content n bytes d).
Lemma only_apart n d0 : apart n (only n d0).
Proof. intros bytes d. apply only_put. Qed.

Lemma close_writable_runs n P t operation :
  apart n P ->
  runs P (close_writable (D := D) n t operation)
    (fun _ d => (operation = Ok tt /\ committed (content (node d n)) = Some (writer_image t)) /\ P d) (fun _ => P).
Proof.
  intros Hput. unfold close_writable. eapply (runs_seq (S := Disk)); [by apply runs_attempt|]. intros before.
  eapply (runs_bind _ _ (fun closed d => (forall u, closed = Ok u -> committed (content (node d n)) = Some (writer_image t)) /\ P d)).
  - eapply (runs_result _ _ (fun u d => committed (content (node d n)) = Some (writer_image t) /\ P d) (fun _ => P)); [|by intros u d [Hc Hd]|done].
    eapply runs_err; [|by intros e d Hd; exact Hd]. apply runs_on. intros d e Hd.
    destruct (engine_close t (content (node d n)) e) as [[[[]|er] b] e'] eqn:E; cbn [fst]; [|by apply Hput].
    rewrite put_get. split; [by eapply close_law|by apply Hput].
  - intros closed. eapply (runs_seq (S := Disk)); [by apply runs_attempt|]. intros after. apply runs_lift; [|by intros e d _ [_ Hd]].
    intros [] d E [Hc Hd]. apply bind_ok_inv in E as (? & _ & E). apply bind_ok_inv in E as (? & _ & E). apply bind_ok_inv in E as ([] & -> & ->).
    split; [|done]. split; [done|by eapply Hc].
Qed.

Lemma initialize_empty_runs n d0 d1 :
  vacant d1 n -> only n d0 d1 ->
  runs (fun d => d = d1) (initialize_empty_file (D := D) (W := W) io n) (fun _ d => ready_file d n /\ only n d0 d) (fun _ => only n d0).
Proof.
  intros Hv Ho. unfold initialize_empty_file. set (P := fun d => d = d1). assert (forall d, P d -> only n d0 d) as HX by (by intros d ->).
  eapply (runs_seq (S := Disk)).
  { apply framed_runs; [|done|exact (fun _ => HX)]. eapply runs_weaken; [by apply (call_runs P _ _ (fun _ => True))|done|by intros b d [_ Hd]|done]. }
  intros []. eapply runs_seq; [by apply plain_check_runs|]. intros _.
  eapply (runs_bind _ _ (fun opened d => (forall t, opened = Ok t -> unformatted (writer_image t)) /\ only n d0 d)).
  { eapply (runs_result _ _ (fun t d => unformatted (writer_image t) /\ only n d0 d) (fun _ => only n d0)); [|by intros t d [Hu Hd]; split; [intros t' [= <-]|]|done].
    apply runs_on. intros d e ->. destruct (writer_create (content (node d1 n)) e) as [[[t|er] b] e'] eqn:E; cbn [fst]; [|by apply only_put].
    split; [|by apply only_put]. apply create_law in E. case_decide as Hnil; [done|]. destruct Hv as [?|(x & Hx & Hu)]; [done|]. congruence. }
  intros opened. apply runs_pull. intros Hopened. eapply (runs_seq (S := Disk)); [by apply runs_attempt|]. intros after.
  eapply (runs_bind _ _ (fun t d => unformatted (writer_image t) /\ only n d0 d)).
  { destruct opened as [t|er]; [apply runs_ret; intros d Hd; split; [by apply Hopened|done]|].
    apply runs_pure; [intros [] _; by apply runs_lift|by intros]. }
  intros t. apply runs_pull. intros Hu. eapply (runs_seq (S := Disk)).
  { destruct after as [[]|er]; [by apply runs_ret|]. eapply (runs_seq (S := Disk)); [|intros r; by apply runs_lift].
    eapply (runs_result _ _ (fun _ => only n d0) (fun _ => only n d0)); [|done|done].
    eapply runs_weaken; [by apply (close_writable_runs n (only n d0)), only_apart|done|by intros u d [_ Hd]|done]. }
  intros []. eapply runs_bind; [by apply (on_writer_of_runs (only n d0) t _ (fun _ t' => formatted (writer_image t')) (only n d0)), write_format_runs|].
  intros [operation t']. cbn [fst snd]. apply runs_pull. intros Hop. eapply runs_bind; [by apply (close_writable_runs n (only n d0)), only_apart|]. intros []. cbv beta.
  set (R := fun d => committed (content (node d n)) = Some (writer_image t') /\ only n d0 d).
  apply (runs_facts (operation = Ok tt) _ R); [by intros d [[? ?] ?]|]. intros ->. specialize (Hop tt eq_refl).
  eapply runs_weaken; [apply (inspect_runs R (only n d0)); by intros d [_ Hd]|done| |done].
  intros [] d (_ & Hc & Hd). split; [by exists (writer_image t')|done].
Qed.

Lemma fresh_runs n d0 d1 :
  vacant d1 n -> only n d0 d1 ->
  runs (fun d => d = d1) (initialize_fresh (D := D) (W := W) io n) (fun _ d => ready_file d n /\ only n d0 d) (fun _ => only n d0).
Proof.
  intros Hv Ho. unfold initialize_fresh. eapply runs_bind; [by apply (opened_file_len_runs _ n (only n d0)); intros d ->|]. intros size. cbv beta.
  apply (runs_weaken (fun d => d = d1) _ _ (fun _ d => ready_file d n /\ only n d0 d) _ (fun _ => only n d0)); [|by intros d [_ Hd]|done|done].
  apply runs_pure; [intros [] _|by intros e d _ ->]. by apply initialize_empty_runs.
Qed.

(** What an initialization may leave: the disk as it was, or a vacant file written. *)
Definition created d0 n : Prop := named d0 = Some n \/ (named d0 = None /\ n = unused d0).
Definition safely d0 d : Prop :=
  d = d0 \/ exists n, created d0 n /\ (named d0 = Some n -> vacant d0 n) /\ only n d0 d.
Definition initialized_file d0 d : Prop := safely d0 d /\ exists n, named d = Some n /\ ready_file d n.

Lemma vacant_safely d0 d n : named d0 = Some n -> vacant d0 n -> only n d0 d -> safely d0 d.
Proof. intros Hn Hv Ho. right. exists n. split; [by left|]. by split. Qed.

Lemma wrote_runs d0 n (m : St Disk Plain.t unit) :
  named d0 = Some n -> vacant d0 n ->
  runs (fun d => d = d0) m (fun _ d => ready_file d n /\ only n d0 d) (fun _ => only n d0) ->
  runs (fun d => d = d0) m (fun _ => initialized_file d0) (fun _ => safely d0).
Proof.
  intros Hn Hv Hm. eapply runs_weaken; [exact Hm|done| |by intros e d Hd; eapply vacant_safely].
  intros [] d [Hr Ho]. split; [by eapply vacant_safely|]. exists n. by destruct Ho.
Qed.

Lemma length_nil d n : len (content (node d n)) = 0 -> vacant d n.
Proof. intros Hl. left. apply nil_length_inv. unfold len in Hl. lia. Qed.

Section From.
Context (d0 : Disk).
Abbreviation at0 := (fun d => d = d0).
Implicit Types n : nat.

Lemma at_safely d : d = d0 -> safely d0 d.
Proof. by left. Qed.
Lemma at_initialized d n : named d0 = Some n -> ready_file d0 n -> d = d0 -> initialized_file d0 d.
Proof. intros Hn Hr ->. split; [by left|by exists n]. Qed.

Lemma reopen_runs : runs at0 (open_initialization_file io) (fun n d => named d0 = Some n /\ d = d0) (fun _ => safely d0).
Proof.
  unfold open_initialization_file. eapply runs_err; [eapply runs_weaken; [apply (open_named_runs at0)|done| |intros e d Hd; exact Hd]|].
  - by intros n d [Hn ->].
  - intros e d Hd. by apply at_safely.
Qed.
Lemma size_runs n : runs at0 (opened_file_len io n) (fun size d => size = len (content (node d0 n)) /\ d = d0) (fun _ => safely d0).
Proof. eapply runs_weaken; [by apply (opened_file_len_runs at0 n (safely d0)), at_safely|done| |done]. by intros size d [-> ->]. Qed.
Lemma probe_runs n :
  runs at0 (empty_state_open_file (D := D) (W := W) io n)
    (fun state d => (exists x, committed (content (node d0 n)) = Some x /\ probed x state) /\ d = d0) (fun _ => safely d0).
Proof. eapply runs_weaken; [by apply (empty_state_runs at0 n (safely d0)), at_safely|done| |done]. intros state d [Hx ->]. by split. Qed.

Lemma vacant_runs n :
  named d0 = Some n -> vacant d0 n -> runs at0 (initialize_empty_file (D := D) (W := W) io n) (fun _ => initialized_file d0) (fun _ => safely d0).
Proof. intros Hn Hv. apply (wrote_runs d0 n); [done..|]. by apply initialize_empty_runs. Qed.
Lemma fresh_file_runs n :
  named d0 = Some n -> vacant d0 n -> runs at0 (initialize_fresh (D := D) (W := W) io n) (fun _ => initialized_file d0) (fun _ => safely d0).
Proof. intros Hn Hv. apply (wrote_runs d0 n); [done..|]. by apply fresh_runs. Qed.

(** The probed file: kept if formatted, refused if it holds anything, else continued. *)
Lemma probed_runs n x state (m : St Disk Plain.t unit) :
  named d0 = Some n -> committed (content (node d0 n)) = Some x -> probed x state ->
  (vacant d0 n -> runs at0 m (fun _ => initialized_file d0) (fun _ => safely d0)) ->
  runs at0 match state with Formatted => mret tt | NotEmpty => st_lift (Err Plain.Unsupported) | Preformat => m end
    (fun _ => initialized_file d0) (fun _ => safely d0).
Proof.
  intros Hn Hx Hp Hm. destruct state; cbn in Hp.
  - apply Hm. right. by exists x.
  - apply runs_ret. intros d Hd. apply (at_initialized d n); [done| |done]. by exists x.
  - apply runs_lift; [done|]. intros e d _. apply at_safely.
Qed.

Lemma complete_preformat_runs : runs at0 (complete_preformat_initialization (D := D) (W := W) io) (fun _ => initialized_file d0) (fun _ => safely d0).
Proof.
  unfold complete_preformat_initialization. eapply runs_bind.
  { apply framed_runs; [apply reopen_runs|by left|intros n d [_ Hd]; by apply at_safely]. }
  intros n. cbv beta. apply runs_pull. intros Hn. eapply runs_bind; [apply size_runs|]. intros size. cbv beta. apply runs_pull. intros ->.
  destruct (Z.eqb_spec (len (content (node d0 n))) 0) as [Hl|Hl]; [by apply fresh_file_runs, length_nil|].
  eapply (runs_seq (S := Disk)); [apply framed_runs; [by apply (sys_runs at0 (safely d0)), at_safely|apply at_safely|intros []; apply at_safely]|].
  intros []. eapply runs_bind; [apply probe_runs|]. intros state. cbv beta. apply runs_pull. intros (x & Hx & Hp). apply (probed_runs n x); [done..|].
  intros Hv. eapply runs_bind; [apply size_runs|]. intros now. cbv beta. apply runs_pull. intros ->.
  apply runs_pure; [intros [] _; by apply vacant_runs|]. intros e d _. apply at_safely.
Qed.
Lemma accept_existing_runs n :
  named d0 = Some n -> runs at0 (accept_existing_initialization (D := D) (W := W) io n) (fun _ => initialized_file d0) (fun _ => safely d0).
Proof.
  intros Hn. unfold accept_existing_initialization. eapply runs_bind; [apply probe_runs|]. intros state. cbv beta. apply runs_pull.
  intros (x & Hx & Hp). apply (probed_runs n x); [done..|]. intros _. apply complete_preformat_runs.
Qed.
Lemma opened_runs n :
  named d0 = Some n -> runs at0 (initialize_opened (D := D) (W := W) io n) (fun _ => initialized_file d0) (fun _ => safely d0).
Proof.
  intros Hn. unfold initialize_opened. eapply runs_bind; [apply size_runs|]. intros size. cbv beta. apply runs_pull. intros ->.
  destruct (Z.ltb_spec 0 (len (content (node d0 n)))); [by apply accept_existing_runs|]. apply fresh_file_runs; [done|]. apply length_nil.
  pose proof (len_nonneg (content (node d0 n))). lia.
Qed.
End From.

Lemma only_trans n d0 d1 d : only n d0 d1 -> only n d1 d -> only n d0 d.
Proof. intros [_ H1] [Hn H2]. split; [done|]. intros m Hm. by rewrite H2, H1. Qed.
Lemma created_safely d0 d1 d n : named d0 = None -> n = unused d0 -> only n d0 d1 -> safely d1 d -> safely d0 d.
Proof.
  intros Hnone -> Ho Hs. right. exists (unused d0). split; [by right|]. split; [congruence|]. destruct Hs as [->|(m & Hm & _ & Hd)]; [done|].
  destruct Ho as [Hn Ho]. assert (m = unused d0) as -> by (destruct Hm as [?|[? _]]; congruence). by eapply only_trans.
Qed.

Lemma initialize_runs d0 :
  runs (fun d => d = d0) (initialize_plain_control (D := D) (W := W) io) (fun _ => initialized_file d0) (fun _ => safely d0).
Proof.
  unfold initialize_plain_control. eapply runs_seq; [apply plain_check_runs, at_safely|]. intros _.
  eapply (runs_bind _ _ (fun r d => (forall n, r = Ok n -> named d0 = Some n) /\ d = d0)).
  { eapply runs_result; [apply (open_named_runs (fun d => d = d0))| |by intros e d Hd]. intros n d [Hn ->]. split; [by intros m [= <-]|done]. }
  intros r. apply runs_pull. intros Hr. eapply runs_seq; [apply plain_check_runs, at_safely|]. intros _. destruct r as [n|er].
  - specialize (Hr n eq_refl). eapply runs_bind; [apply size_runs|]. intros size. cbv beta. apply runs_pull. intros ->.
    destruct (0 <? _); [by apply accept_existing_runs|]. eapply runs_bind.
    { apply framed_runs; [apply reopen_runs|by left|intros m d [_ Hd]; by apply at_safely]. }
    intros m. cbv beta. apply runs_pull. intros Hm. by apply opened_runs.
  - assert (runs (fun d => d = d0) (st_lift (Err (map_io_error er))) (fun _ : unit => initialized_file d0) (fun _ => safely d0)) as Hfail.
    { apply runs_lift; [done|]. intros e d _. apply at_safely. }
    destruct er; [|exact Hfail..]. clear Hfail.
    set (d1 := with_node (unused d0) {| content := []; regular := true; modified := 0 |}
      {| named := Some (unused d0); symlink := false; node := node d0; unused := S (unused d0) |}).
    assert (only (unused d0) d0 d1) as Ho by (split; [done|]; intros m Hm; cbn; by rewrite decide_False).
    eapply (runs_bind _ _ (fun created d => match created with Ok n => (n = unused d0 /\ named d0 = None) /\ d = d1 | Err _ => d = d0 end)).
    { eapply (runs_result _ _ (fun n d => (n = unused d0 /\ named d0 = None) /\ d = d1) (fun _ d => d = d0)); [|done|done]. unfold create_new_file.
      eapply runs_err; [|by intros e d Hd; exact Hd]. eapply runs_seq; [by apply runs_env|]. intros [].
      eapply (runs_bind _ _ (fun o d => o = named d0 /\ d = d0)); [apply runs_gets; by intros d ->|]. intros o. apply runs_pull. intros ->.
      apply runs_pure; [intros [] Hg%reject_if_ok|done]. to_prop.
      eapply (runs_bind _ _ (fun n d => n = unused d0 /\ d = d0)); [apply runs_gets; by intros d ->|]. intros n. apply runs_pull. intros ->.
      eapply (runs_bind _ _ (fun _ d => d = d1)); [apply runs_modify; by intros d ->|]. intros []. apply runs_ret. intros d ->. split; [|done].
      split; [done|]. by apply eq_None_not_Some. }
    intros created. apply (runs_weaken (fun d => match created with Ok n => (n = unused d0 /\ named d0 = None) /\ d = d1 | Err _ => d = d0 end) _ _
      (fun _ => initialized_file d0) _ (fun _ => safely d0)); [|done|done|done]. destruct created as [n|e].
    + apply runs_pull. intros [-> Hnone]. eapply runs_seq.
      { apply plain_check_runs. intros d ->. right. exists (unused d0). split; [by right|]. by split; [congruence|]. }
      intros _. apply runs_pure; [intros n [= <-]|done]. eapply runs_weaken; [apply (opened_runs d1 (unused d0)); done|done| |].
      * intros [] d [Hs Hr']. split; [by eapply created_safely|done].
      * intros e d Hs. by eapply created_safely.
    + eapply runs_seq; [apply plain_check_runs, at_safely|]. intros _. apply runs_pure; [done|]. intros e' d _. apply at_safely.
Qed.

(** ** Recovery *)

Context (short : Z -> env -> Z * env).

(** No file but [n] differs. *)
Definition touched n d0 d : Prop := named d = named d0 /\ forall m, m <> n -> node d m = node d0 m.
Lemma touched_apart n d0 : apart n (touched n d0).
Proof. intros bytes d [Hn Ho]. split; [done|]. intros m Hm. cbn. case_decide; [done|by apply Ho]. Qed.

Lemma inspect_recovered_runs n create d0 :
  runs (fun d => d = d0) (inspect_recovered_control (D := D) n create)
    (fun _ d => exists t bytes e e', writer_recover create (content (node d0 n)) e = ((Ok t, bytes), e') /\
       current_format (tables (writer_image t)) /\ committed (content (node d n)) = Some (writer_image t) /\ touched n d0 d)
    (fun _ => touched n d0).
Proof.
  unfold inspect_recovered_control.
  eapply (runs_bind _ _ (fun opened d => (forall t, opened = Ok t -> exists bytes e e', writer_recover create (content (node d0 n)) e = ((Ok t, bytes), e')) /\
    touched n d0 d)).
  { eapply (runs_result _ _ (fun t d => (exists bytes e e', writer_recover create (content (node d0 n)) e = ((Ok t, bytes), e')) /\ touched n d0 d) (fun _ => touched n d0));
      [|by intros t d [Hr Hd]; split; [intros t' [= <-]|]|done].
    apply runs_on. intros d e ->. assert (touched n d0 d0) as Ht by done.
    destruct (writer_recover create (content (node d0 n)) e) as [[[t|er] b] e'] eqn:E; cbn [fst]; [|by apply touched_apart].
    split; [by exists b, e, e'|by apply touched_apart]. }
  intros opened. apply runs_pull. intros Hopened. eapply (runs_seq (S := Disk)); [by apply runs_attempt|]. intros after.
  destruct opened as [t|er]; [|apply runs_pure; [intros [] _; by apply runs_lift|by intros]]. destruct (Hopened t eq_refl) as (b & e & e' & Hrec).
  eapply (runs_bind _ _ (fun r d => (r = Ok tt -> current_format (tables (writer_image t))) /\ touched n d0 d)).
  { destruct after as [[]|er]; [|by apply runs_ret]. eapply runs_result; [by apply (read_format_runs (touched n d0) _ (touched n d0))| |].
    - by intros [] d [Hf Hd].
    - by intros er d Hd. }
  intros r. apply runs_pull. intros Hr. eapply runs_weaken; [by apply (close_writable_runs n (touched n d0)), touched_apart|done| |done].
  intros [] d ((Hok & Hc) & Hd). exists t, b, e, e'. split; [done|]. split; [by apply Hr|done].
Qed.

Lemma verify_recovery_runs P n snapshot X :
  (forall d, P d -> X d) -> runs P (verify_recovery_source io n snapshot) (fun _ => P) (fun _ => X).
Proof.
  intros HX. unfold verify_recovery_source. eapply runs_seq; [by apply plain_check_runs|]. intros _.
  assert (forall A (f : Disk -> A), runs P (_ ← sys; st_gets f) (fun _ => P) (fun _ => X)) as Hget.
  { intros A f. eapply runs_seq; [by apply sys_runs|]. intros []. by apply runs_gets. }
  do 2 (eapply runs_seq; [apply Hget|]; intros ?). apply runs_pure; [intros under _|intros e d _; apply HX].
  do 2 (eapply (runs_seq (S := Disk)); [by apply runs_gets|]; intros ?). apply runs_pure; [intros [] _|intros e d _; apply HX].
  do 3 (eapply runs_seq; [by apply sys_runs|]; intros []; apply runs_pure; [intros [] _|intros e d _; apply HX]).
  apply runs_pure; [intros [] _|intros e d _; apply HX]. by apply plain_check_runs.
Qed.

(** *** The copy *)

Section Copy.
Context (n m : nat) (d0 : Disk) (Hne : m <> n).
Let bytes := content (node d0 n).
Definition copied (position : Z) d : Prop :=
  0 <= position /\ content (node d m) = firstn (Z.to_nat position) bytes /\ touched m d0 d.

Lemma firstn_more (p count : nat) (l : list Z) :
  firstn p l ++ firstn count (skipn p l) = firstn (p + length (firstn count (skipn p l))) l.
Proof.
  rewrite <- take_take_drop. f_equal. set (k := skipn p l). rewrite length_firstn.
  destruct (decide (count <= length k)%nat); [by rewrite Nat.min_l|]. rewrite Nat.min_r by lia. by rewrite firstn_all, firstn_all2 by lia.
Qed.

Lemma read_some_runs P position limit :
  (forall d, P d -> node d n = node d0 n) ->
  runs P (read_some io short n position limit)
    (fun l d => (exists count, l = firstn count (skipn (Z.to_nat position) bytes) /\ (0 < limit -> len l <= limit /\ (l = [] -> skipn (Z.to_nat position) bytes = []))) /\ P d)
    (fun _ => P).
Proof.
  intros HP d e Hd. unfold read_some. destruct (run io e) as [[]|er]; [|done]. destruct (short limit _) as [wanted e']. cbn [fst].
  rewrite (HP d Hd). fold bytes. split; [|done]. eexists. split; [reflexivity|]. intros Hl. split; [unfold len; rewrite length_firstn; lia|]. intros Hnil. apply (f_equal length) in Hnil.
  rewrite length_firstn in Hnil. cbn in Hnil. apply nil_length_inv. unfold len in Hnil. lia.
Qed.

Lemma copy_loop_runs fuel : forall position remaining,
  0 <= remaining ->
  runs (copied position) (copy_loop io short fuel n m position remaining) (fun p => copied p) (fun _ => touched m d0).
Proof.
  assert (forall p d, copied p d -> touched m d0 d) as HX by (by intros p d (_ & _ & ?)).
  induction fuel as [|fuel IH]; intros position remaining Hrem; cbn [copy_loop].
  all: destruct (Z.eqb_spec remaining 0) as [_|Hr]; [by apply runs_ret|].
  { apply runs_lift; [done|]. intros e d _. apply HX. }
  eapply runs_seq; [apply plain_check_runs, HX|]. intros _. eapply runs_bind.
  { eapply runs_weaken; [apply (read_some_runs (copied position) position (Z.min remaining copy_buffer))|done|intros l d Hl; exact Hl|intros e d; apply HX].
    intros d (_ & _ & _ & Ho). by apply Ho. }
  intros l. cbv beta. apply runs_pull. intros (count & -> & Hlen). set (l := firstn count (skipn (Z.to_nat position) bytes)).
  apply runs_pure; [intros [] Hnil%reject_if_ok|intros e d _; apply HX]. eapply runs_seq; [apply plain_check_runs, HX|]. intros _.
  eapply runs_seq; [apply sys_runs, HX|]. intros []. eapply (runs_bind _ _ (fun w d => w = firstn (Z.to_nat position) bytes /\ copied position d)).
  { apply runs_gets. intros d Hd. split; [by destruct Hd as (_ & ? & _)|done]. }
  intros w. apply runs_pull. intros ->. eapply (runs_bind _ _ (fun _ => copied (position + len l))).
  { apply runs_modify. intros d (Hp & _ & Ht). split; [pose proof (len_nonneg l); lia|]. split; [|by apply touched_apart]. rewrite put_get.
    unfold l. rewrite firstn_more. f_equal. unfold len. lia. }
  intros []. assert (0 < Z.min remaining copy_buffer) as Hpos by (unfold copy_buffer; lia). destruct (Hlen Hpos) as [Hle _]. fold l in Hle.
  apply IH. lia.
Qed.

Lemma copy_runs (length : Z) :
  runs (fun d => d = d0) (copy_recovery_source io short n m length) (fun _ d => content (node d m) = bytes /\ touched m d0 d) (fun _ => touched m d0).
Proof.
  unfold copy_recovery_source. assert (forall d, d = d0 -> touched m d0 d) as HX by (by intros d ->).
  eapply (runs_bind _ _ (fun _ d => copied 0 d)).
  { destruct (length =? 0); [by apply runs_lift; [|intros e d _; apply HX]|].
    eapply runs_bind; [by apply (opened_file_len_runs (fun d => d = d0) m (touched m d0))|]. intros size. cbv beta.
    apply runs_lift; [|by intros e d _ [_ Hd]; apply HX]. intros [] d Hs%reject_if_ok [-> ->]. to_prop. split; [done|]. split; [|done].
    apply nil_length_inv. unfold len in Hs. lia. }
  intros []. assert (forall p d, copied p d -> touched m d0 d) as HC by (by intros p d (_ & _ & ?)).
  do 2 (eapply runs_seq; [apply sys_runs, HC|]; intros []).
  destruct (decide (0 <= length)) as [Hl|Hl].
  2: { replace (Z.to_nat length) with 0%nat by lia. cbn [copy_loop]. destruct (Z.eqb_spec length 0); [lia|].
    eapply (runs_bind _ _ (fun _ _ => False)); [apply runs_lift; [done|]; intros e d _; apply HC|]. by intros p d e. }
  eapply runs_bind; [by apply copy_loop_runs|]. intros position. cbv beta. eapply runs_seq; [apply plain_check_runs, HC|]. intros _.
  eapply runs_bind.
  { eapply runs_weaken; [apply (read_some_runs (copied position) position 1)|done|intros l d Hx; exact Hx|intros e d; apply HC].
    intros d (_ & _ & _ & Ho). by apply Ho. }
  intros more. cbv beta. apply runs_pull. intros (count & _ & Hmore). apply runs_pure; [intros [] Hg%reject_if_ok|intros e d _; apply HC]. to_prop.
  destruct (Hmore ltac:(lia)) as [_ Hend]. specialize (Hend Hg). eapply runs_seq; [apply sys_runs, HC|]. intros [].
  eapply runs_seq; [apply plain_check_runs, HC|]. intros _. eapply runs_bind; [by apply (opened_file_len_runs (copied position) m (touched m d0)), HC|].
  intros size. cbv beta. apply runs_lift; [|by intros e d _ [_ Hd]; apply (HC position)]. intros [] d _ (_ & (_ & Hc & Ht)). split; [|done].
  rewrite Hc. rewrite <- (firstn_skipn (Z.to_nat position) bytes) at 2. by rewrite Hend, app_nil_r.
Qed.
End Copy.

(** The engine can recover these bytes into a database of the current format. *)
Definition recoverable (create : bool) bytes x : Prop :=
  exists t bytes' e e', writer_recover create bytes e = ((Ok t, bytes'), e') /\ current_format (tables (writer_image t)) /\ writer_image t = x.
(** Files other than the named one and the candidate are as they were; the named one too,
    unless its bytes were recovered on a copy first. *)
Definition guarded n m d0 d : Prop :=
  named d = named d0 /\ (forall k, k <> n -> k <> m -> node d k = node d0 k) /\
  (node d n = node d0 n \/ exists x, recoverable true (content (node d0 n)) x).
(** A clean file is left alone; else the file holds what was recovered of its bytes. *)
Definition recovered n m d0 d : Prop :=
  guarded n m d0 d /\ exists x, committed (content (node d n)) = Some x /\ current_format (tables x) /\
    (d = d0 \/ recoverable false (content (node d0 n)) x).

Lemma touched_guarded n m d0 d : m <> n -> touched m d0 d -> guarded n m d0 d.
Proof. intros Hne [Hn Ho]. split; [done|]. split; [intros k _ Hk; by apply Ho|]. left. by apply Ho. Qed.

Lemma recover_runs n m d0 :
  named d0 = Some n -> m <> n ->
  runs (fun d => d = d0) (recover_plain_control (D := D) (W := W) io short m) (fun _ => recovered n m d0) (fun _ => guarded n m d0).
Proof.
  intros Hn Hne. set (T := touched m d0). assert (forall d, T d -> guarded n m d0 d) as HT by (intros d; by apply touched_guarded).
  assert (forall d, d = d0 -> guarded n m d0 d) as H0' by (intros d ->; by apply HT). unfold recover_plain_control.
  eapply runs_seq; [apply plain_check_runs, H0'|]. intros _. eapply (runs_bind _ _ (fun k d => k = n /\ d = d0)).
  { eapply runs_err; [eapply runs_weaken; [apply (open_named_runs (fun d => d = d0))|done| |intros e d Hd; exact Hd]|intros e d; apply H0'].
    intros k d [Hk ->]. split; [congruence|done]. }
  intros k. apply runs_pull. intros ->. eapply (runs_bind _ _ (fun snapshot d => snapshot = node d0 n /\ d = d0)).
  { eapply runs_seq; [apply (sys_runs (fun d => d = d0)), H0'|]. intros []. apply runs_gets. by intros d ->. }
  intros snapshot. apply runs_pull. intros ->.
  eapply (runs_bind _ _ (fun r d => (forall u, r = Ok u -> exists x, committed (content (node d0 n)) = Some x /\ current_format (tables x)) /\ d = d0)).
  { eapply (runs_result _ _ (fun _ d => (exists x, committed (content (node d0 n)) = Some x /\ current_format (tables x)) /\ d = d0) (fun _ d => d = d0)).
    - eapply runs_weaken; [by apply (inspect_runs (fun d => d = d0) (fun d => d = d0))|done| |done].
      intros [] d ((k & x & Hk & Hx & Hf) & ->). split; [|done]. exists x. assert (k = n) as -> by congruence. done.
    - intros [] d [Hx Hd]. by split.
    - intros e d Hd. by split. }
  intros inspected. apply runs_pull. intros Hins.
  assert (forall e : Plain.t, runs (fun d => d = d0) (st_lift (Err e)) (fun _ : unit => recovered n m d0) (fun _ => guarded n m d0)) as Hfail
    by (intros e; apply runs_lift; [done|intros e' d _; apply H0']).
  destruct inspected as [[]|[]]; try apply Hfail.
  { apply runs_ret. intros d Hd. destruct (Hins tt eq_refl) as (x & Hx & Hf). split; [by apply H0'|]. exists x. subst d. split; [done|]. split; [done|by left]. }
  clear Hins Hfail. set (C := fun d => content (node d m) = content (node d0 n) /\ T d). assert (forall d, C d -> guarded n m d0 d) as HC by (intros d [_ Hd]; by apply HT).
  eapply (runs_bind _ _ (fun _ => C)).
  { eapply runs_weaken; [by apply (copy_runs n m d0 Hne)|done|done|]. intros e d Hd. by apply HT. }
  intros []. eapply runs_seq; [apply verify_recovery_runs, HC|]. intros _. eapply runs_seq; [apply plain_check_runs, HC|]. intros _.
  eapply (runs_seq (S := Disk)).
  { eapply runs_weaken; [by apply (call_runs C _ _ (fun _ => True) (guarded n m d0))|done|by intros b d [_ Hd]|done]. }
  intros []. set (V := fun d => (exists x, recoverable true (content (node d0 n)) x) /\ T d).
  eapply (runs_bind _ _ (fun _ => V)).
  { intros d e [Hc Hd]. pose proof (inspect_recovered_runs m true d d e eq_refl) as Hout. rewrite Hc in Hout.
    assert (forall d', touched m d d' -> T d') as Htr.
    { intros d' [H1 H2]. destruct Hd as [H3 H4]. split; [congruence|]. intros k Hk. by rewrite H2, H4. }
    destruct (fst (inspect_recovered_control m true d e)) as [[[]|er] d'].
    - destruct Hout as (t & b & e1 & e2 & Hr & Hf & _ & Hd'). split; [|by apply Htr]. by exists (writer_image t), t, b, e1, e2.
    - by apply HT, Htr. }
  intros []. apply runs_pull. intros Hv. eapply runs_seq; [apply verify_recovery_runs, HT|]. intros _.
  eapply (runs_seq (S := Disk)).
  { eapply (runs_result T _ (fun _ => T) (fun _ => T)); [|done|done]. eapply runs_weaken; [by apply (inspect_runs T T)|done|by intros b d [_ Hd]|done]. }
  intros again.
  assert (forall e : Plain.t, runs T (st_lift (Err e)) (fun _ : unit => recovered n m d0) (fun _ => guarded n m d0)) as Hfail
    by (intros e; apply runs_lift; [done|intros e' d _; apply HT]).
  destruct again as [u|[]]; try apply Hfail. eapply runs_seq; [apply plain_check_runs, HT|]. intros _.
  eapply (runs_bind _ _ (fun r d => (forall k, r = Ok k -> k = n) /\ T d)).
  { eapply (runs_result _ _ (fun k d => k = n /\ T d) (fun _ => T)); [|by intros k d [-> Hd]; split; [intros ? [= <-]|]|by intros e d Hd].
    eapply (runs_err _ _ _ _ (fun _ => T)); [eapply runs_weaken; [apply (open_named_runs T)|done| |intros e d Hd; exact Hd]|done].
    intros k d [Hk Hd]. split; [|done]. destruct Hd as [Hd _]. congruence. }
  intros opened. apply runs_pull. intros Hopened. destruct opened as [k|error]; [|eapply runs_seq; [apply plain_check_runs, HT|]; intros _; apply Hfail].
  pose proof (Hopened k eq_refl) as ->. clear Hopened. intros d e Hd. pose proof (inspect_recovered_runs n false d d e eq_refl) as Hout.
  assert (node d n = node d0 n) as Hnode by (destruct Hd as [_ Ho]; by apply Ho). rewrite Hnode in Hout.
  assert (forall d', touched n d d' -> guarded n m d0 d') as Hg.
  { intros d' [H1 H2]. destruct Hd as [H3 H4]. split; [congruence|]. split; [|by right]. intros k Hk Hm. by rewrite H2, H4. }
  destruct (fst (inspect_recovered_control n false d e)) as [[[]|er] d']; [|by apply Hg].
  destruct Hout as (t & b & e1 & e2 & Hr & Hf & Hc & Hd'). split; [by apply Hg|]. exists (writer_image t). split; [done|]. split; [done|]. right.
  by exists t, b, e1, e2.
Qed.

(** ** The rounds of the copy *)

Lemma bind_same {S E A B} (m : St S E A) (k k' : A -> St S E B) s w :
  (forall a s' w', m s w = ((Ok a, s'), w') -> k a s' w' = k' a s' w') -> (m ≫= k) s w = (m ≫= k') s w.
Proof. intros Hk. unfold mbind, St_bind. destruct (m s w) as [[[a|e] s'] w'] eqn:Em; [by apply Hk|done]. Qed.

(** Every turn reads a byte, so any more fuel gives the same. *)
Lemma copy_loop_fuel n m fuel : forall fuel' position remaining d e,
  0 <= remaining -> (Z.to_nat remaining <= fuel)%nat -> (Z.to_nat remaining <= fuel')%nat ->
  copy_loop io short fuel n m position remaining d e = copy_loop io short fuel' n m position remaining d e.
Proof.
  induction fuel as [|fuel IH]; intros fuel' position remaining d e Hrem Hf Hf'; destruct fuel' as [|fuel']; cbn [copy_loop];
    (destruct (Z.eqb_spec remaining 0) as [_|Hr]; [done|]); try lia.
  apply bind_same. intros _ d1 e1 _. apply bind_same. intros l d2 e2 Hl. apply bind_same. intros [] d3 e3 Hg. do 4 (apply bind_same; intros ? ? ? _).
  assert (l <> []) as Hne by (unfold st_lift, st_read, lift in Hg; case_bool_decide; [discriminate Hg|done]).
  assert (0 < len l <= Z.min remaining copy_buffer) as Hlen; [|apply IH; lia].
  unfold read_some in Hl. destruct (run io e1) as [[]|er]; [|discriminate Hl]. destruct (short _ _) as [wanted e']. injection Hl as <- _ _.
  split; [destruct (firstn _ _); [done|rewrite len_cons; pose proof (len_nonneg l); lia]|]. unfold copy_buffer, len in *. rewrite length_firstn. lia.
Qed.
End Safety.

(** C34. Initialization formats only a file that holds nothing.  Whatever the environment, the
    system calls and the engine do, [initialize_plain_control] leaves every other file as it
    is, and the file under the path too, unless there was none, it was empty, or it held a
    clean database without a table or a savepoint; an existing database with anything in it
    is never written.  When it succeeds, the file holds a clean database with the format row
    alone: it stands for the empty corpus, and has no publication. *)
Theorem initialize_formats {D W : Type} `{Redb D} `{Engine D W} (committed : list Z -> option (Image D)) `{!EngineLaws D W committed}
    (io : M IoError.t unit) (d : Disk) (e : env) :
  let '((answer, d'), _) := initialize_plain_control (D := D) (W := W) io d e in
  (d' = d \/ exists n, (named d = Some n \/ (named d = None /\ n = unused d)) /\ (named d = Some n -> vacant committed d n) /\
     named d' = Some n /\ forall m, m <> n -> node d' m = node d m) /\
  match answer with
  | Ok _ => exists n x, named d' = Some n /\ committed (content (node d' n)) = Some x /\ formatted x /\
      represents (tables x) empty_corpus /\ unpublished (tables x)
  | Err _ => True
  end.
Proof.
  pose proof (initialize_runs committed io d d e eq_refl) as Hout.
  destruct (initialize_plain_control io d e) as [[[[]|er] d'] e']; cbn [fst] in Hout; [|by split].
  destruct Hout as (Hs & n & Hn & x & Hx & Hf). split; [exact Hs|]. destruct (formatted_empty committed x Hf). by exists n, x.
Qed.

(** C35. Recovery is tried on a copy.  Whatever the environment, the system calls, the sizes
    of the reads and the engine do, [recover_plain_control] leaves the control file as it is
    unless the engine recovered the very same bytes, on the candidate, into a database of the
    current format; no other file but the candidate changes.  When it succeeds, the file holds
    a clean database of the current format, which is what the engine recovers from its bytes,
    or nothing had to be recovered and nothing changed. *)
Theorem recover_guarded {D W : Type} `{Redb D} `{Engine D W} (committed : list Z -> option (Image D)) `{!EngineLaws D W committed}
    (io : M IoError.t unit) (short : Z -> env -> Z * env) (n candidate : nat) (d : Disk) (e : env) :
  named d = Some n -> candidate <> n ->
  let '((answer, d'), _) := recover_plain_control (D := D) (W := W) io short candidate d e in
  named d' = Some n /\ (forall k, k <> n -> k <> candidate -> node d' k = node d k) /\
  (node d' n = node d n \/ exists x, recoverable true (content (node d n)) x) /\
  match answer with
  | Ok _ => exists x, committed (content (node d' n)) = Some x /\ current_format (tables x) /\
      (d' = d \/ recoverable false (content (node d n)) x)
  | Err _ => True
  end.
Proof.
  intros Hn Hne. pose proof (recover_runs committed io short n candidate d Hn Hne d e eq_refl) as Hout.
  destruct (recover_plain_control io short candidate d e) as [[[[]|er] d'] e']; cbn [fst] in Hout.
  - destruct Hout as ((Hn' & Ho & Hg) & Hx). split; [congruence|]. done.
  - destruct Hout as (Hn' & Ho & Hg). split; [congruence|]. done.
Qed.

(** ** An engine of three files

    An empty database, a formatted one, and one that crashed, which recovers. *)

Definition formatted_store : store :=
  table_insert (table_open {| store_tables := ∅; store_multimaps := [] |} META_TABLE_NAME) META_TABLE_NAME FORMAT_VERSION_KEY (le_bytes 8 FORMAT_VERSION).
Definition new_image : Image store := {| tables := {| store_tables := ∅; store_multimaps := [] |}; savepoints := false |}.
Definition formatted_image : Image store := {| tables := formatted_store; savepoints := false |}.
#[export] Instance store_eq : EqDecision store.
Proof. solve_decision. Defined.
#[export] Instance image_eq : EqDecision (Image store).
Proof. solve_decision. Defined.

Definition toy_committed (bytes : list Z) : option (Image store) :=
  if bool_decide (bytes = [1]) then Some new_image else if bool_decide (bytes = [2]) then Some formatted_image else None.
Definition toy_bytes (x : Image store) : list Z :=
  if bool_decide (x = new_image) then [1] else if bool_decide (x = formatted_image) then [2] else [3].
#[export] Instance toy_engine : Engine store (Image store) := {|
  file_backend := mret tt;
  reader_open bytes := match toy_committed bytes with Some x => mret x | None => fail DatabaseError.RepairAborted end;
  reader_close := mret tt; begin_read := mret tt; begin_write := mret tt; storage_call := mret tt; table_call := mret tt;
  writer_create := fun bytes e =>
    if bool_decide (bytes = []) then ((Ok new_image, [1]), e)
    else match toy_committed bytes with Some x => ((Ok x, bytes), e) | None => ((Err DatabaseError.RepairAborted, bytes), e) end;
  writer_recover create := fun bytes e =>
    if bool_decide (bytes = [7; 7]) then ((Ok formatted_image, [2]), e) else ((Err DatabaseError.Other, bytes), e);
  writer_open := fun bytes e => match toy_committed bytes with Some x => ((Ok x, bytes), e) | None => ((Err DatabaseError.Other, bytes), e) end;
  writer_image x := x;
  writer_commit d := fun x e => ((Ok tt, {| tables := d; savepoints := savepoints x |}), e);
  engine_close x := fun bytes e =>
    ((if bool_decide (toy_committed (toy_bytes x) = Some x) then Ok tt else Err DatabaseError.Other, toy_bytes x), e) |}.

Lemma toy_laws : EngineLaws store (Image store) toy_committed.
Proof.
  split.
  - intros bytes e x e' E. cbn in E. by destruct (toy_committed bytes); [injection E as <- _|].
  - intros bytes e t bytes' e' E. cbn in E. rewrite bool_decide_decide in E. case_decide as Hb.
    + injection E as <- _ _. by split_and!; [apply dom_empty_L|..].
    + by destruct (toy_committed bytes); [injection E as <- _ _|].
  - intros d t e t' e' E. cbn in E. by injection E as <- _.
  - intros t bytes e bytes' e' E. cbn in E. injection E as E <- _. by case_bool_decide.
Qed.

Definition no_file : Disk := {| named := None; symlink := false; node _ := {| content := []; regular := true; modified := 0 |}; unused := 4 |}.
Definition crashed_file : Disk :=
  {| named := Some 1%nat; symlink := false;
     node n := {| content := if bool_decide (n = 1%nat) then [7; 7] else []; regular := true; modified := 0 |}; unused := 4 |}.

Lemma initialize_formats_witness :
  EngineLaws store (Image store) toy_committed /\
  exists d' e' n x, initialize_plain_control (D := store) (W := Image store) (mret tt) no_file [] = ((Ok tt, d'), e') /\
    named d' = Some n /\ toy_committed (content (node d' n)) = Some x /\ represents (tables x) empty_corpus.
Proof.
  split; [exact toy_laws|].
  pose proof (@initialize_formats store (Image store) _ _ toy_committed toy_laws (mret tt) no_file []) as Hout.
  assert (is_ok (fst (fst (initialize_plain_control (D := store) (W := Image store) (mret tt) no_file []))) = true) as Hok by (vm_compute; reflexivity).
  destruct (initialize_plain_control (mret tt) no_file []) as [[[[]|er] d'] e']; [|discriminate Hok].
  destruct Hout as (_ & n & x & Hn & Hx & _ & Hr & _). exists d', e', n, x. exact (conj eq_refl (conj Hn (conj Hx Hr))).
Defined.

Lemma recover_guarded_witness :
  (EngineLaws store (Image store) toy_committed /\ named crashed_file = Some 1%nat /\ 2%nat <> 1%nat) /\
  exists d' e' x, recover_plain_control (D := store) (W := Image store) (mret tt) (fun _ e => (1, e)) 2 crashed_file [] = ((Ok tt, d'), e') /\
    toy_committed (content (node d' 1%nat)) = Some x /\ current_format (tables x).
Proof.
  assert (2%nat <> 1%nat) as Hne by discriminate. split; [exact (conj toy_laws (conj eq_refl Hne))|].
  pose proof (@recover_guarded store (Image store) _ _ toy_committed toy_laws (mret tt) (fun _ e => (1, e)) 1 2 crashed_file [] eq_refl Hne) as Hout.
  assert (is_ok (fst (fst (recover_plain_control (D := store) (W := Image store) (mret tt) (fun _ e => (1, e)) 2 crashed_file []))) = true) as Hok
    by (vm_compute; reflexivity).
  destruct (recover_plain_control _ _ 2 crashed_file []) as [[[[]|er] d'] e']; [|discriminate Hok].
  destruct Hout as (_ & _ & _ & x & Hx & Hf & _). exists d', e', x. exact (conj eq_refl (conj Hx Hf)).
Defined.
