(* ===== verification/PublishedCorpus.v ===== *)
(** The daemon's publication of the corpus (bins/eliot-searchd/src/published_corpus.rs): it
    captures, stages, uploads, verifies and commits one generation, and removes the retired
    ones, by composing the control state, the object store and the bridge to the vector
    store. *)

From stdpp Require Import gmap.
From S2P Require Import Prelude Bytes Utf8 Ids Registry Layout Prepared SourceRow PreparationRow ObjectStore.
From S2P Require Import Database Control PublicationRow Publication PublicationRead Qdrant PlainControl State Json PreparedSource.

(** ** The world of a publication

    The server is stateful and not trusted: what it answers to a call is an arbitrary
    function of how many calls came before.  Every call is logged with the control database
    of its moment and whether it succeeded. *)
Inductive BackendCall : Type :=
  | CallExists (name : list Z)
  | CallCreate (name : list Z)
  | CallSchema (name : list Z)
  | CallInsert (name : list Z) (points : list PointInput.t)
  | CallVerify (name : list Z) (points : list PointInput.t)
  | CallCanary (name : list Z) (point : PointInput.t) (query : list Z)
  | CallCount (name : list Z)
  | CallDelete (name : list Z).
Record Sent (D : Type) := { sent_call : BackendCall; sent_control : D; sent_done : bool }.
Arguments sent_call {D} s.
Arguments sent_control {D} s.
Arguments sent_done {D} s.
Record World (D : Type) := { root : Root D; sent : list (Sent D) }.
Arguments root {D} w.
Arguments sent {D} w.
Definition with_root {D} (r : Root D) (w : World D) : World D := {| root := r; sent := sent w |}.

Definition corpus_check {S} : St S Code unit :=
  st_env (check_with (str "PUBLICATION_CANCELLED") (str "PUBLICATION_DEADLINE")).
Definition publication_limits : PreparationLimits :=
  {| max_input_bytes := 8 * 1024 * 1024; max_output_bytes := 8 * 1024 * 1024; max_lines := 1000000;
     max_units := 1000000; max_encoded_bytes := 64 * 1024 * 1024 |}.

Record HydratedPoint := { hydrated_point : UploadPoint; hydrated_text : list Z }.

Definition point_input (point : HydratedPoint) : PointInput.t :=
  {| PointInput.id := PublicationRow.point_id (hydrated_point point);
     PointInput.source_id := PointEvidence.source_id (point_evidence (hydrated_point point));
     PointInput.retrieval_text := hydrated_text point |}.
Definition inputs (page : list HydratedPoint) : list PointInput.t := point_input <$> page.

Definition unit_text (view : PreparedUtf8) (e : PointEvidence) : result Code (list Z) :=
  index ← ok_or (str "PUBLICATION_CORRUPT") (try_from USIZE_MAX (PointEvidence.unit e));
  unit ← ok_or (str "PUBLICATION_CORRUPT") (at_ (prepared_units view) index);
  _ ← reject_if (negb (bool_decide (try_from U64_MAX (unit_start unit) = Some (PointEvidence.start e)))
        || negb (bool_decide (try_from U64_MAX (unit_end unit) = Some (PointEvidence.stop e)))
        || negb (logical_line_start unit =? PointEvidence.line_start e)
        || negb (logical_line_end unit =? PointEvidence.line_end e)
        || negb (Bool.eqb (starts_at_line_boundary unit) (PointEvidence.starts_at_line_boundary e))
        || negb (Bool.eqb (ends_at_line_boundary unit) (PointEvidence.ends_at_line_boundary e))) (str "PUBLICATION_CORRUPT");
  ok_or (str "PUBLICATION_CORRUPT") (str_get (prepared_text view) (unit_start unit) (unit_end unit)).

Definition hydrate_point {S} (view : PreparedUtf8) (source : CurrentSourceRecord) (artifact : ObjectRef) (point : UploadPoint)
    : St S Code HydratedPoint :=
  let e := point_evidence point in
  _ ← st_lift (reject_if (negb (bool_decide (PointEvidence.source_namespace_id e = source_namespace_id source))
        || negb (bool_decide (PointEvidence.input e = object_ref source))
        || negb (bool_decide (PointEvidence.prepared e = artifact))) (str "PUBLICATION_CORRUPT"));
  text ← st_lift (unit_text view e);
  _ ← st_env (reserve_with (str "PUBLICATION_ALLOCATION_FAILED"));
  mret {| hydrated_point := point; hydrated_text := text |}.

(** One verified object and its decoded view, kept until the source changes. *)
Record Held := { held_source : CapturedSource; held_artifact : ObjectRef; held_view : PreparedUtf8 }.
Definition holds_source (held : option Held) (id : list Z) : option Held :=
  option_keep (fun h => bool_decide (id = source_id (captured_source (held_source h)))) held.

Section Corpus.
Context (blake3 : list Z -> list Z).
Context `{PublicationJson} {D : Type} `{Redb D}.
Context `{Prost UpsertPoints, Prost Named, Prost GetPoints, Prost QueryPoints}.
(** The server's answers to each of the calls, whether this thread is in a runtime, and
    [char::is_alphanumeric]. *)
Context (channel : nat -> Channel) (in_runtime : bool) (is_alphanumeric : Z -> bool).
Abbreviation Act := (St (World D) Code).

(** ** Calls of the components *)

Definition on_control {A} (m : D -> env -> (result Pub.t A * D) * env) : Act A :=
  st_on root with_root (st_err Pub.code (st_on control with_control m)).
Definition on_writer_read {A} (m : D -> M Pub.t A) : Act A := on_control (st_read m).
Definition on_backend {A} (c : BackendCall) (m : Channel -> M Back.t A) : St (World D) Back.t A := fun w e =>
  let '(r, e') := m (channel (length (sent w))) e in
  ((r, {| root := root w;
          sent := sent w ++ [{| sent_call := c; sent_control := control (root w);
                                sent_done := match r with Ok _ => true | Err _ => false end |}] |}), e').

Definition exists_collection (name : list Z) : St (World D) Back.t bool :=
  on_backend (CallExists name) (fun ch => exists_generation default_limits ch in_runtime 0 name).
Definition create_collection (name : list Z) : St (World D) Back.t unit :=
  on_backend (CallCreate name) (fun ch => create_generation default_limits ch in_runtime name).
Definition check_schema (name : list Z) : St (World D) Back.t unit :=
  on_backend (CallSchema name) (fun ch => Qdrant.verify_schema default_limits ch in_runtime name).
Definition insert_points (name : list Z) (points : list PointInput.t) : St (World D) Back.t unit :=
  on_backend (CallInsert name points) (fun ch => insert_only default_limits ch in_runtime name points).
Definition read_back (name : list Z) (points : list PointInput.t) : St (World D) Back.t unit :=
  on_backend (CallVerify name points) (fun ch => verify_points default_limits ch in_runtime name points).
Definition try_canary (name : list Z) (point : PointInput.t) (query : list Z) : St (World D) Back.t unit :=
  on_backend (CallCanary name point query)
    (fun ch => verify_canary default_limits ch in_runtime is_alphanumeric name point query).
Definition count_points (name : list Z) : St (World D) Back.t Z :=
  on_backend (CallCount name) (fun ch => count_exact default_limits ch in_runtime name).
Definition delete_collection (name : list Z) : St (World D) Back.t unit :=
  on_backend (CallDelete name) (fun ch => delete_generation default_limits ch in_runtime name).
(** [.map_err(BackendError::code)?] *)
Definition remote {A} (m : St (World D) Back.t A) : Act A := st_err Back.code m.

(** Reading an artifact and decoding it for its source. *)
Definition load_view (captured : CapturedSource) (artifact : ObjectRef) : Act PreparedUtf8 :=
  stored ← st_on root with_root (read_stored blake3 artifact (64 * 1024 * 1024));
  st_err Layout.code (st_env (decode_prepared_utf8 blake3 stored (captured_source captured)
    (settings (captured_preparation captured)) publication_limits)).

(** ** Visiting saved pages *)

Definition read_page (borrowed : bool) (g : Generation) (number : Z) : Act UploadPage :=
  on_writer_read (fun d => if borrowed then writer_read_upload_page d g number else read_upload_page d g number).
Definition load_source (borrowed : bool) (g : Generation) (id : list Z) : Act Held :=
  _ ← corpus_check;
  captured ← on_writer_read (fun d => if borrowed then writer_read_generation_source d g id else read_generation_source d g id);
  artifact ← st_lift match outcome_result <$> current_outcome (captured_preparation captured) with
    | Some (Ready artifact) => Ok artifact
    | _ => Err (str "PUBLICATION_CORRUPT")
    end;
  view ← load_view captured artifact;
  mret {| held_source := captured; held_artifact := artifact; held_view := view |}.

(** The points of one page: the source held is kept while the points are its own, else the
    next one is loaded, whose identity [read_generation_source] has compared. *)
Fixpoint hydrate_points (borrowed : bool) (g : Generation) (held : option Held) (points : list UploadPoint)
    (hydrated : list HydratedPoint) : Act (option Held * list HydratedPoint) :=
  match points with
  | [] => mret (held, hydrated)
  | point :: points =>
      let id := PointEvidence.source_id (point_evidence point) in
      h ← match holds_source held id with
        | Some h => mret h
        | None => load_source borrowed g id
        end;
      _ ← corpus_check;
      filled ← hydrate_point (held_view h) (captured_source (held_source h)) (held_artifact h) point;
      hydrate_points borrowed g (Some h) points (hydrated ++ [filled])
  end.

Section Visit.
Context {V : Type} (borrowed : bool) (g : Generation) (visit : V -> Z -> list HydratedPoint -> Act V).

(** A complete page: its request has the bytes that were saved with it. *)
Definition visit_page (value : V) (number : Z) (page : UploadPage) (hydrated : list HydratedPoint) : Act V :=
  wire ← remote (st_env (batch_request_bytes (Generation.collection g) (inputs hydrated)));
  _ ← st_lift (reject_if match request_bytes page with
        | Some saved => negb (bool_decide (try_from U64_MAX wire = Some saved))
        | None => false
        end (str "PUBLICATION_CORRUPT"));
  visit value number hydrated.

(** The loop over the pages, [more] of which come after this one. *)
Fixpoint visit_loop (more : nat) (number : Z) (held : option Held) (value : V) (page : UploadPage) : Act V :=
  read ← hydrate_points borrowed g held (page_points page) [];
  let '(held, hydrated) := read in
  value ← visit_page value number page hydrated;
  number ← st_lift (ok_or (str "PUBLICATION_LIMIT") (checked_add U64_MAX number 1));
  match more with
  | O => mret value
  | S more =>
      _ ← corpus_check;
      page ← read_page borrowed g number;
      _ ← st_env (reserve_with (str "PUBLICATION_ALLOCATION_FAILED"));
      visit_loop more number held value page
  end.

Definition visit_pages (first stop : Z) (value : V) : Act V :=
  if stop <=? first then mret value
  else
    page ← read_page borrowed g first;
    _ ← st_env (reserve_with (str "PUBLICATION_ALLOCATION_FAILED"));
    if bool_decide (page_points page = []) then st_lift (Err (str "PUBLICATION_CORRUPT"))
    else visit_loop (Z.to_nat (stop - first - 1)) first None value page.
End Visit.

(** ** Staging *)

Definition PAGE_BYTES : Z := 1048576.

(** The inputs of a page whose points are units of [view]. *)
Fixpoint unit_inputs (view : PreparedUtf8) (points : list UploadPoint) : result Code (list PointInput.t) :=
  match points with
  | [] => Ok []
  | point :: points =>
      text ← unit_text view (point_evidence point);
      inputs ← unit_inputs view points;
      Ok ({| PointInput.id := PublicationRow.point_id point; PointInput.source_id := PointEvidence.source_id (point_evidence point);
             PointInput.retrieval_text := text |} :: inputs)
  end.

(** Whether a page must be split, by its encoding and by its request. *)
Definition oversized (points : list UploadPoint) (wire : result Back.t Z) : result Code bool :=
  match upload_page_bytes {| page_points := points; request_bytes := None |} with
  | Err Pub.Limit => Ok true
  | Err error => Err (Pub.code error)
  | Ok size =>
      if PAGE_BYTES <? size then Ok true
      else match wire with
      | Ok size => Ok (Ceiling.MAX_REQUEST_BYTES <? size)
      | Err Back.RequestTooLarge => Ok true
      | Err error => Err (Back.code error)
      end
  end.

(** One page of the stack: staged, or the two halves to stage instead. *)
Definition stage_step (pending : PendingGeneration) (view : PreparedUtf8) (points : list UploadPoint)
    : Act (list (list UploadPoint)) :=
  _ ← corpus_check;
  page_inputs ← st_lift (unit_inputs view points);
  wire ← st_result (st_env (batch_request_bytes (Generation.collection (Pending.generation pending)) page_inputs));
  split ← st_lift (oversized points wire);
  if (split : bool) then
    if len points <=? 1 then st_lift (Err (str "PUBLICATION_UNIT_TOO_LARGE"))
    else
      let half := (length points / 2)%nat in
      mret [firstn half points; skipn half points]
  else
    size ← st_lift (map_err Back.code wire);
    request ← st_lift (ok_or (str "PUBLICATION_LIMIT") (try_from U64_MAX size));
    _ ← on_control (stage_page pending {| page_points := points; request_bytes := Some request |});
    mret [].

(** The stack, its top first.  A page of n points is split at most n - 1 times. *)
Fixpoint stage_stack (fuel : nat) (pending : PendingGeneration) (view : PreparedUtf8) (stack : list (list UploadPoint)) : Act unit :=
  match stack with
  | [] => mret tt
  | points :: stack =>
      match fuel with
      | O => st_lift (Err [])
      | S fuel =>
          halves ← stage_step pending view points;
          stage_stack fuel pending view (halves ++ stack)
      end
  end.
Definition stage_complete_page (pending : PendingGeneration) (view : PreparedUtf8) (points : list UploadPoint) : Act unit :=
  stage_stack (2 * length points + 1) pending view [points].

(** The point of one unit, as number [next] of the generation. *)
Definition upload_point (pending : PendingGeneration) (captured : CapturedSource) (artifact : ObjectRef) (next ordinal : Z)
    (unit : UnitSpan) : result Code UploadPoint :=
  let source := captured_source captured in
  ordinal ← ok_or (str "PUBLICATION_LIMIT") (try_from U64_MAX ordinal);
  start ← ok_or (str "PUBLICATION_LIMIT") (try_from U64_MAX (unit_start unit));
  stop ← ok_or (str "PUBLICATION_LIMIT") (try_from U64_MAX (unit_end unit));
  Ok {| PublicationRow.point_id := be_bytes 8 (Generation.sequence (Pending.generation pending)) ++ be_bytes 8 next;
        point_evidence :=
          {| PointEvidence.source_namespace_id := source_namespace_id source; PointEvidence.source_id := source_id source;
             PointEvidence.input := object_ref source; PointEvidence.prepared := artifact; PointEvidence.unit := ordinal;
             PointEvidence.start := start; PointEvidence.stop := stop;
             PointEvidence.line_start := logical_line_start unit; PointEvidence.line_end := logical_line_end unit;
             PointEvidence.starts_at_line_boundary := starts_at_line_boundary unit;
             PointEvidence.ends_at_line_boundary := ends_at_line_boundary unit |} |}.

Definition page_full (points : list UploadPoint) : bool :=
  (len points =? Ceiling.MAX_PAGE_POINTS)
  || match upload_page_bytes {| page_points := points; request_bytes := None |} with Err Pub.Limit => true | _ => false end.

(** The loop over the units, from number [ordinal] on; it keeps the open page. *)
Fixpoint stage_units (pending : PendingGeneration) (captured : CapturedSource) (artifact : ObjectRef) (view : PreparedUtf8)
    (units : list UnitSpan) (ordinal next : Z) (points : list UploadPoint) : Act (Z * list UploadPoint) :=
  match units with
  | [] => mret (next, points)
  | unit :: units =>
      _ ← corpus_check;
      after ← st_lift (ok_or (str "PUBLICATION_LIMIT") (checked_add U64_MAX next 1));
      _ ← st_env (reserve_with (str "PUBLICATION_ALLOCATION_FAILED"));
      point ← st_lift (upload_point pending captured artifact next ordinal unit);
      let points := points ++ [point] in
      if page_full points then
        _ ← stage_complete_page pending view points;
        stage_units pending captured artifact view units (ordinal + 1) after []
      else stage_units pending captured artifact view units (ordinal + 1) after points
  end.

Definition stage_source (pending : PendingGeneration) (captured : CapturedSource) (next : Z) : Act Z :=
  outcome ← st_lift (ok_or (str "PUBLICATION_SOURCE_NOT_PREPARED") (current_outcome (captured_preparation captured)));
  match outcome_result outcome with
  | Gap _ =>
      _ ← on_control (finish_source pending (source_id (captured_source captured)) 0);
      mret next
  | Ready artifact =>
      view ← load_view captured artifact;
      staged ← stage_units pending captured artifact view (prepared_units view) 0 next [];
      let '(next, points) := staged in
      _ ← (if bool_decide (points = []) then mret tt else stage_complete_page pending view points);
      units ← st_lift (ok_or (str "PUBLICATION_LIMIT") (try_from U64_MAX (len (prepared_units view))));
      _ ← on_control (finish_source pending (source_id (captured_source captured)) units);
      mret next
  end.

Fixpoint stage_sources (pending : PendingGeneration) (sources : list CapturedSource) (next : Z) : Act unit :=
  match sources with
  | [] => mret tt
  | source :: sources => next ← stage_source pending source next; stage_sources pending sources next
  end.
Definition stage_capture (pending : PendingGeneration) (sources : list CapturedSource) : Act PendingGeneration :=
  _ ← stage_sources pending sources 0;
  on_control (complete_capture pending).

(** ** Uploading *)

(** [load_pending(..)?.ok_or("PUBLICATION_STALE")?] *)
Definition reload : Act PendingGeneration :=
  pending ← on_writer_read load_pending;
  st_lift (ok_or (str "PUBLICATION_STALE") pending).

Definition settle (pending : PendingGeneration) (operation : PendingOperation) (revision : Z) (result : result Back.t unit) : Act unit :=
  _ ← st_lift (reject_if (bool_decide (result = Err Back.UnknownDispatch)) (Back.code Back.UnknownDispatch));
  _ ← on_control (finish_dispatch pending operation revision (match result with Ok _ => true | Err _ => false end));
  st_lift (map_err Back.code result).

(** A remote mutation of the build: recorded, sent, settled. *)
Definition dispatch_create (pending : PendingGeneration) (collection : list Z) : Act unit :=
  revision ← on_control (record_dispatch pending Create);
  result ← st_result (create_collection collection);
  settle pending Create revision result.
Definition dispatch_insert (pending : PendingGeneration) (collection : list Z) (number : Z) (page : list HydratedPoint) : Act unit :=
  revision ← on_control (record_dispatch pending (Insert number));
  result ← st_result (insert_points collection (inputs page));
  settle pending (Insert number) revision result.

Definition upload (pending : PendingGeneration) : Act PendingGeneration :=
  let collection := Generation.collection (Pending.generation pending) in
  pending ← (if Pending.created pending then mret pending
    else
      present ← remote (exists_collection collection);
      _ ← st_lift (reject_if present (str "PUBLICATION_COLLECTION_CONFLICT"));
      _ ← dispatch_create pending collection;
      reload);
  _ ← remote (check_schema collection);
  let g := Pending.generation pending in
  _ ← visit_pages true g (fun pending number page =>
        _ ← dispatch_insert pending collection number page;
        reload) (Pending.uploaded_pages pending) (Generation.page_count g) pending;
  reload.

(** ** Verifying *)

(** The bytes of each character. *)
Definition char_width (b : Z) : nat :=
  if between 0 127 b then 1 else if between 194 223 b then 2 else if between 224 239 b then 3 else 4.
Fixpoint char_pieces (text : list Z) (skip : nat) : list (list Z) :=
  match text with
  | [] => []
  | b :: rest =>
      match skip with
      | S skip => char_pieces rest skip
      | O => firstn (char_width b) text :: char_pieces rest (char_width b - 1)
      end
  end.
(** [text.split(separator)] *)
Fixpoint split_words (pieces : list (list Z)) (word : list Z) : list (list Z) :=
  match pieces with
  | [] => [word]
  | piece :: pieces =>
      if forallb (separator is_alphanumeric) (chars piece) then word :: split_words pieces []
      else split_words pieces (word ++ piece)
  end.
Definition canary_query (text : list Z) : option (list Z) :=
  find (fun word => (len word <=? Ceiling.MAX_QUERY_BYTES) && existsb is_alphanumeric (chars word))
    (split_words (char_pieces text 0) []).

(** What the verification accumulates: whether a canary was tried, whether no text has a
    token, and the number of points. *)
Record Readiness := { canary : bool; tokenless : bool; point_total : Z }.

(** The loop over the points of a page. *)
Fixpoint ready_points (collection : list Z) (page : list HydratedPoint) (canary tokenless : bool) : Act (bool * bool) :=
  match page with
  | [] => mret (canary, tokenless)
  | point :: page =>
      let tokenless := tokenless && negb (existsb is_alphanumeric (chars (hydrated_text point))) in
      canary ← match canary, canary_query (hydrated_text point) with
        | false, Some query => _ ← remote (try_canary collection (point_input point) query); mret true
        | canary, _ => mret canary
        end;
      ready_points collection page canary tokenless
  end.
Definition ready_page (collection : list Z) (state : Readiness) (number : Z) (page : list HydratedPoint) : Act Readiness :=
  _ ← corpus_check;
  _ ← remote (read_back collection (inputs page));
  read ← ready_points collection page (canary state) (tokenless state);
  let '(canary, tokenless) := read in
  count ← st_lift (ok_or (str "PUBLICATION_LIMIT") (try_from U64_MAX (len page)));
  total ← st_lift (ok_or (str "PUBLICATION_LIMIT") (checked_add U64_MAX (point_total state) count));
  mret {| canary := canary; tokenless := tokenless; point_total := total |}.

Definition verify_published (g : Generation) : Act unit :=
  _ ← on_writer_read (fun d => validate_generation d g);
  let collection := Generation.collection g in
  _ ← remote (check_schema collection);
  ready ← visit_pages false g (ready_page collection) 0 (Generation.page_count g)
    {| canary := false; tokenless := true; point_total := 0 |};
  remote_count ← remote (count_points collection);
  _ ← st_lift (reject_if (negb (remote_count =? Generation.point_count g) || negb (point_total ready =? Generation.point_count g))
        (str "PUBLICATION_POINT_COUNT_MISMATCH"));
  st_lift (reject_if (negb (point_total ready =? 0) && negb (canary ready) && negb (tokenless ready))
    (str "PUBLICATION_READINESS_NOT_PROVEN")).

(** ** Removing retired generations *)

(** [finish_retirement] with a round for every row that it may remove. *)
Definition finish_retired (retired : RetiredGeneration) : D -> env -> (result Pub.t unit * D) * env := fun d =>
  finish_retirement (S (length (table_iter d SOURCES) + length (table_iter d PAGES) + length (table_iter d EVIDENCE))) retired d.

(** One turn of [cleanup]. *)
Definition remove_retired (retired : RetiredGeneration) : Act unit :=
  _ ← corpus_check;
  if bool_decide (is_Some (unresolved_build retired)) then mret tt
  else
    _ ← (if remote_owned retired then
        let collection := Generation.collection (retired_generation retired) in
        _ ← remote (delete_collection collection);
        present ← remote (exists_collection collection);
        st_lift (reject_if present (str "PUBLICATION_CLEANUP_UNRESOLVED"))
      else mret tt);
    on_control (finish_retired retired).
Fixpoint remove_all (retired : list RetiredGeneration) : Act unit :=
  match retired with
  | [] => mret tt
  | r :: retired => _ ← remove_retired r; remove_all retired
  end.
Definition cleanup : Act unit := retired ← on_writer_read retired_generations; remove_all retired.

(** ** Publishing *)

(** The namespace a first build draws, and the engine's answer to closing the writer. *)
Context (random : list Z) (closed : result DatabaseError.t unit).

(** A build whose operation has no known result is superseded; anything else in flight
    stops the run. *)
Definition supersede_unknown (captured : CorpusCapture) : Act (CorpusCapture * bool) :=
  match Capture.pending captured with
  | Some pending =>
      match Pending.in_flight pending with
      | Some (Create | Insert _) =>
          _ ← on_control (supersede_unknown_build pending);
          captured ← on_writer_read capture_corpus;
          mret (captured, true)
      | None => mret (captured, false)
      end
  | None => mret (captured, false)
  end.
Definition abandon_stale (captured : CorpusCapture) : Act unit :=
  match Capture.pending captured with
  | Some pending =>
      if negb (Pending.capture_complete pending) || negb (Capture.pending_matches captured) then
        _ ← on_control (abandon_build pending);
        st_lift (Err (str "PUBLICATION_STALE"))
      else mret tt
  | None => mret tt
  end.

(** The generation to verify, and the build to commit if there is one. *)
Definition prepare_generation : Act (Generation * option PendingGeneration) :=
  captured ← on_writer_read capture_corpus;
  superseded ← supersede_unknown captured;
  let '(captured, superseded) := superseded in
  _ ← abandon_stale captured;
  _ ← cleanup;
  if bool_decide (Capture.pending captured = None) && Capture.current_matches captured && negb superseded then
    g ← st_lift (ok_or (str "PUBLICATION_NOT_PUBLISHED") (Capture.current captured));
    mret (g, None)
  else
    pending ← match Capture.pending captured with
      | Some pending => mret pending
      | None =>
          pending ← on_control (start_build captured random);
          stage_capture pending (Capture.sources captured)
      end;
    pending ← upload pending;
    mret (Pending.generation pending, Some pending).

Definition prepare_view : Act (Pinned D) :=
  prepared ← st_result prepare_generation;
  _ ← st_err Plain.code (st_env (writer_close closed));
  prepared ← st_lift prepared;
  let '(g, pending) := prepared in
  _ ← verify_published g;
  g ← match pending with
    | Some pending => on_control (commit_generation pending)
    | None => mret g
    end;
  view ← on_writer_read open_published;
  _ ← st_lift (reject_if (negb (bool_decide (pinned_generation view = g))) (str "PUBLICATION_STALE"));
  mret view.
End Corpus.
