(* ===== verification/PublishedSafety.v ===== *)
(** What a publication hands to the vector store, and when: the rules by which its parts keep
    the control state, and what each call of the log was sent under. *)

From stdpp Require Import gmap.
From S2P Require Import Prelude Bytes Utf8 Ids Registry Layout Prepared SourceRow PreparationRow ObjectStore.
From S2P Require Import Database Control ControlSpec ControlRefine ControlState PreparationSpec PreparationState PublicationRow Publication PublicationSpec PublicationRefine PublicationLifecycle.
From S2P Require Import PublicationHistory PublicationOutcome PublicationRetire PublicationSafety PublicationRead PublicationVerify PublicationCapture.
From S2P Require Import Qdrant PlainControl State Json PreparedSource PreparedSafety PublishedCorpus.

(** ** What a call may be sent under *)

(** The stored page under its number. *)
Definition saved_page (g : generations) (sequence number : Z) (page : UploadPage) : Prop :=
  exists bytes w, saved_pages (rows g) !! page_key sequence number = Some bytes /\ run (decode_page bytes) w = Ok page.

(** The text of a point is its unit of the artifact of its source, which has the artifact's
    length and digest and is canonical. *)
Definition text_of_point (blake3 : list Z -> list Z) (g : generations) (sequence : Z) (point : UploadPoint) (text : list Z) : Prop :=
  let e := point_evidence point in
  exists entry stored view,
    entries (rows g) !! generation_key sequence (PointEvidence.source_id e) = Some entry /\ entry_complete entry = true /\
    artifact_of entry = Some (PointEvidence.prepared e) /\ object_ref (entry_source entry) = PointEvidence.input e /\
    artifact_true blake3 (entry_source entry) (settings (entry_preparation entry)) (PointEvidence.prepared e) stored view /\
    unit_text view e = Ok text.

(** What is sent of a point. *)
Definition input_of (blake3 : list Z -> list Z) (g : generations) (sequence : Z) (point : UploadPoint) (input : PointInput.t) : Prop :=
  PointInput.id input = PublicationRow.point_id point /\
  PointInput.source_id input = PointEvidence.source_id (point_evidence point) /\
  text_of_point blake3 g sequence point (PointInput.retrieval_text input).

(** The collection of a generation in use. *)
Definition in_use (s : Publication.State) (name : list Z) : Prop :=
  exists g, g ∈ named_generations s /\ name = Generation.collection g.

(** When a call may be sent: a creation and an insertion when the build in the header has
    exactly this operation in flight, the insertion with the points of its stored page; a
    deletion when the collection is of a resolved obligation, and of no generation in use. *)
Definition call_ok (blake3 : list Z -> list Z) (g : generations) (call : BackendCall) : Prop :=
  let s := state_of g in
  match call with
  | CallCreate name => exists p, PublicationState.pending s = Some p /\ Pending.in_flight p = Some Create /\
      Pending.capture_complete p = true /\ Pending.created p = false /\ name = Generation.collection (Pending.generation p)
  | CallInsert name points => exists p number page, PublicationState.pending s = Some p /\
      Pending.in_flight p = Some (Insert number) /\ number = Pending.uploaded_pages p /\ Pending.capture_complete p = true /\
      Pending.created p = true /\ name = Generation.collection (Pending.generation p) /\
      saved_page g (Generation.sequence (Pending.generation p)) number page /\
      Forall2 (input_of blake3 g (Generation.sequence (Pending.generation p))) (page_points page) points
  | CallDelete name => exists x, retired_rows (rows g) !! retirement_key x = Some x /\ remote_owned x = true /\
      unresolved_build x = None /\ name = Generation.collection (retired_generation x) /\ ~ in_use s name
  | _ => True
  end.

Section Safety.
Context (blake3 : list Z -> list Z).
Context `{PublicationJson} {D : Type} `{Redb D}.
Context `{Prost UpsertPoints, Prost Named, Prost GetPoints, Prost QueryPoints}.
Context (channel : nat -> Channel) (in_runtime : bool) (is_alphanumeric : Z -> bool).
Context (c : corpus).
Implicit Types (g : generations) (w : World D).

Definition sent_ok (s : Sent D) : Prop :=
  exists g, denotes (sent_control s) c g /\ lifecycle g /\ call_ok blake3 g (sent_call s).

(** The control state is that of sound generations, objects are bytes, and everything was
    sent as it may be. *)
Definition live g w : Prop :=
  denotes (PreparedSource.control (root w)) c g /\ lifecycle g /\ directory_typed (objects (root w)) /\ Forall sent_ok (sent w).
Definition kept w : Prop := exists g, live g w.

(** ** The steps *)

Lemma with_same_root w : with_root (with_control (PreparedSource.control (root w)) (root w)) w = w.
Proof. by destruct w as [[]]. Qed.

(** A read of the control database. *)
Lemma read_runs {A} (P : World D -> Prop) (m : D -> M Pub.t A) (Q : A -> World D -> Prop) (X : World D -> Prop) :
  (forall a w e, P w -> run (m (PreparedSource.control (root w))) e = Ok a -> Q a w) -> (forall w, P w -> X w) ->
  runs P (on_writer_read m) Q (fun _ => X).
Proof.
  intros HQ HX w e Hw. unfold on_writer_read, on_control, st_on, st_err, st_read.
  specialize (HQ) with (w := w) (e := e). unfold run in HQ. destruct (m (PreparedSource.control (root w)) e) as [[a|x] e'];
    cbn [map_err fst]; rewrite with_same_root; [by apply HQ|by apply HX].
Qed.

(** A writing operation, by its effect on the generations. *)
Lemma committed_runs {A} g (m : Db A) (I : generations -> Prop) Q X :
  guides c g m I Q X -> (forall g', I g' -> lifecycle g') ->
  runs (live g) (on_control m) (fun a w => exists g', live g' w /\ I g' /\ Q a g') (fun _ => kept).
Proof.
  intros Hm HI w e (Hd & Hl & Ho & Hs). specialize (Hm _ e Hd). unfold on_control, st_on, st_err.
  destruct (m (PreparedSource.control (root w)) e) as [[answer d'] e']. destruct Hm as (g' & Hd' & Hi & _ & Ha). cbn [fst].
  assert (live g' (with_root (with_control d' (root w)) w)) as Hk by (split_and!; try done; by apply HI).
  destruct answer as [a|x]; cbn [map_err]; [by exists g'|by exists g'].
Qed.

(** A call of the server. *)
Definition logged (s : Sent D) w : World D := {| root := root w; sent := sent w ++ [s] |}.
Definition answered (call : BackendCall) w : Prop := exists s, s ∈ sent w /\ sent_call s = call /\ sent_done s = true.
Lemma backend_runs {A} (P : World D -> Prop) call (m : Channel -> M Back.t A) (X : World D -> Prop) :
  (forall w done, P w -> P (logged {| sent_call := call; sent_control := PreparedSource.control (root w); sent_done := done |} w)) ->
  (forall w, P w -> X w) ->
  runs P (on_backend channel call m) (fun _ w => P w /\ answered call w) (fun _ => X).
Proof.
  intros HP HX w e Hw. unfold on_backend. destruct (m _ e) as [r e']. destruct r as [a|x]; cbn [fst].
  - split; [by apply HP|]. eexists. split; [apply elem_of_app; right; left|done].
  - by apply HX, HP.
Qed.

Lemma live_logged g w call done :
  live g w -> call_ok blake3 g call ->
  live g (logged {| sent_call := call; sent_control := PreparedSource.control (root w); sent_done := done |} w).
Proof.
  intros (Hd & Hl & Ho & Hs) Hc. split_and!; [done..|]. apply Forall_app. split; [done|]. constructor; [|constructor]. by exists g.
Qed.
(** Calls that may be sent at any time. *)
Definition harmless (call : BackendCall) : Prop :=
  match call with CallCreate _ | CallInsert _ _ | CallDelete _ => False | _ => True end.
Lemma harmless_ok g call : harmless call -> call_ok blake3 g call.
Proof. by destruct call. Qed.

Lemma remote_runs {A} (P : World D -> Prop) (m : St (World D) Back.t A) Q (X : World D -> Prop) :
  runs P m Q (fun _ => X) -> runs P (remote m) Q (fun _ => X).
Proof. intros Hm. eapply runs_err; [exact Hm|done]. Qed.

Lemma check_runs (P : World D -> Prop) (X : World D -> Prop) : (forall w, P w -> X w) -> runs P (corpus_check (S := World D)) (fun _ => P) (fun _ => X).
Proof. intros HX. by apply runs_env. Qed.
Lemma lift_runs {A} (P : World D -> Prop) (r : result Code A) (X : World D -> Prop) :
  (forall w, P w -> X w) -> runs P (st_lift (S := World D) r) (fun a w => r = Ok a /\ P w) (fun _ => X).
Proof. intros HX. apply runs_lift; [done|]. intros e w _. apply HX. Qed.
Lemma reserve_runs (P : World D -> Prop) (X : World D -> Prop) x :
  (forall w, P w -> X w) -> runs P (st_env (S := World D) (E := Code) (reserve_with x)) (fun _ => P) (fun _ => X).
Proof. intros HX. by apply runs_env. Qed.

(** ** Reading saved pages and sources *)

Lemma refines_step {E A} `{Interrupt E} (m : M E A) v e a e' : refines m (Ok v) -> m e = (Ok a, e') -> a = v.
Proof. intros Hm E0. assert (run m e = Ok a) as Hr by (unfold run; by rewrite E0). apply (refines_ok _ _ _ _ Hm) in Hr. congruence. Qed.

Lemma observe_inv {A} (d : D) (read : D -> M Pub.t A) e a : run (observe_database d read) e = Ok a -> exists e', run (read d) e' = Ok a.
Proof.
  intros Hr. unfold observe_database in Hr. apply run_bind_ok in Hr as ([] & e1 & _ & Hr). apply run_bind_ok in Hr as ([] & e2 & _ & Hr).
  unfold run, match_result in Hr. exists e2. unfold run. destruct (read d e2) as [[x|x] e3]; cbn in *.
  - destruct (publication_check e3) as [[[]|] e4]; cbn in Hr; congruence.
  - by destruct (publication_check e3) as [[[]|] e4].
Qed.
Lemma observe_path_inv {A} (d : D) (read : D -> M Pub.t A) e a : run (observe_path d read) e = Ok a -> exists e', run (read d) e' = Ok a.
Proof.
  intros Hr. unfold observe_path in Hr. apply run_bind_ok in Hr as ([] & e1 & _ & Hr). apply run_bind_ok in Hr as ([] & e2 & _ & Hr).
  unfold run, match_result in Hr. destruct (observe_database d read e2) as [[x|x] e3] eqn:E2; cbn in *.
  - apply (observe_inv d read e2). unfold run. rewrite E2. cbn. destruct (call Pub.Database e3) as [[[]|] e4]; cbn in Hr; congruence.
  - by destruct (call Pub.Database e3) as [[[]|] e4].
Qed.

(** A saved page is read as it is stored. *)
Lemma read_page_runs (P : World D -> Prop) (r : saved) borrowed (gen : Generation) number (X : World D -> Prop) :
  (forall w, P w -> exists g, live g w /\ rows g = r) -> (forall w, P w -> X w) ->
  runs P (read_page borrowed gen number)
    (fun page w => (forall g, rows g = r -> saved_page g (Generation.sequence gen) number page) /\ P w) (fun _ => X).
Proof.
  intros HP HX. apply read_runs; [|done]. intros page w e Hw Hr. split; [|done]. destruct (HP w Hw) as (g & (Hd & _) & Hg).
  assert (exists e', run (read_saved_page (PreparedSource.control (root w)) gen number) e' = Ok page) as [e' Hread]
    by (destruct borrowed; [exact (observe_inv _ (fun d => read_saved_page d gen number) e page Hr)|
      exact (observe_path_inv _ (fun d => read_saved_page d gen number) e page Hr)]).
  unfold read_saved_page in Hread. apply run_bind_ok in Hread as (s & e1 & _ & Hread). apply run_lift_ok in Hread as ([] & _ & Hread).
  apply run_bind_ok in Hread as ([] & e2 & _ & Hread). apply run_bind_ok in Hread as (value & e3 & Hv & Hread).
  apply run_lift_ok in Hread as (bytes & Hb%ok_or_inv & Hread).
  apply (refines_step _ _ _ _ _ (refines_get Pub.Database _ PAGES (page_key (Generation.sequence gen) number) publication_database)) in Hv.
  destruct Hd as (_ & (_ & _ & Hpages & _) & _). rewrite Hpages, Hg in Hv. intros g' Hg'. exists bytes, e3. rewrite Hg'. split; congruence.
Qed.

(** The source that is held while its points are read. *)
Definition held_ok (r : saved) (sequence : Z) (h : Held) : Prop :=
  exists entry stored, entries r !! generation_key sequence (source_id (captured_source (held_source h))) = Some entry /\
    entry_complete entry = true /\ held_source h = entry_captured entry /\ PublicationVerify.artifact_of entry = Some (held_artifact h) /\
    artifact_true blake3 (entry_source entry) (settings (entry_preparation entry)) (held_artifact h) stored (held_view h).

Lemma load_view_runs (P : World D -> Prop) captured artifact (X : World D -> Prop) :
  (forall w, P w -> directory_typed (objects (root w))) -> (forall w, P w -> X w) ->
  record_wf (captured_source captured) -> settings_wf (settings (captured_preparation captured)) -> object_wf artifact ->
  runs P (load_view blake3 captured artifact)
    (fun view w => (exists stored, artifact_true blake3 (captured_source captured) (settings (captured_preparation captured)) artifact stored view) /\ P w)
    (fun _ => X).
Proof.
  intros HP HX Hwf Hs (_ & _ & Hl). unfold load_view.
  eapply (runs_bind _ _ (fun stored w => (blake3 stored = digest artifact /\ len stored = byte_length artifact /\
    byte_length artifact <= 64 * 1024 * 1024 /\ bytes_ok stored) /\ P w)).
  - apply runs_on. intros w e Hw.
    pose proof (read_stored_runs blake3 (fun r => r = root w) artifact (64 * 1024 * 1024) ltac:(intros r ->; by apply HP) ltac:(lia)
      ltac:(clear; width) (root w) e eq_refl) as Hr.
    destruct (read_stored blake3 artifact (64 * 1024 * 1024) (root w) e) as [[[bytes|x] r] e']; cbn [fst] in *.
    + destruct Hr as [Hb ->]. split; [done|]. by destruct w.
    + subst r. apply HX. by destruct w.
  - intros stored. cbv beta. apply runs_pull. intros (Hb & Hlen & Hmax & Hok). eapply runs_err; [|by intros e w Hx; exact Hx].
    apply runs_env; [|intros _; exact HX]. intros view e w Hrun Hw. split; [|done].
    assert (0 <= max_lines publication_limits) as Hml by (vm_compute; congruence).
    destruct (outcome_ok _ _ _ _ _ (decode_prepared_outcome blake3 stored (captured_source captured) _ publication_limits Hwf Hs Hml Hok
      ltac:(clear -Hlen Hmax; width)) Hrun) as (_ & Hstored & Hacc). by exists stored.
Qed.

Lemma load_source_runs (P : World D -> Prop) (r : saved) borrowed (gen : Generation) id (X : World D -> Prop) :
  (forall w, P w -> exists g, live g w /\ rows g = r) -> (forall w, P w -> X w) ->
  runs P (load_source blake3 borrowed gen id)
    (fun h w => (held_ok r (Generation.sequence gen) h /\ source_id (captured_source (held_source h)) = id) /\ P w) (fun _ => X).
Proof.
  intros HP HX. unfold load_source. eapply runs_seq; [by apply check_runs|]. intros _.
  eapply (runs_bind _ _ (fun captured w => (exists entry, entries r !! generation_key (Generation.sequence gen) id = Some entry /\
    entry_complete entry = true /\ entry_valid entry /\ captured = entry_captured entry /\ source_id (captured_source captured) = id) /\ P w)).
  - apply read_runs; [|done]. intros captured w e Hw Hr. split; [|done]. destruct (HP w Hw) as (g & (Hd & _) & Hg).
    assert (exists e', run (read_saved_source (PreparedSource.control (root w)) gen id) e' = Ok captured) as [e' Hread]
      by (destruct borrowed; [exact (observe_inv _ (fun d => read_saved_source d gen id) e captured Hr)|
        exact (observe_path_inv _ (fun d => read_saved_source d gen id) e captured Hr)]).
    unfold read_saved_source in Hread. apply run_bind_ok in Hread as (s & e1 & _ & Hread). apply run_lift_ok in Hread as ([] & _ & Hread).
    apply run_bind_ok in Hread as ([] & e2 & _ & Hread). apply run_bind_ok in Hread as (value & e3 & Hv & Hread).
    apply run_lift_ok in Hread as (bytes & Hb%ok_or_inv & Hread). apply run_lift_ok in Hread as (entry & He & Hread).
    apply run_lift_ok in Hread as ([] & Hok%reject_if_ok & Hread). apply ok_inj in Hread as <-. to_prop.
    apply (refines_step _ _ _ _ _ (refines_get Pub.Database _ SOURCES (generation_key (Generation.sequence gen) id) publication_database)) in Hv.
    destruct Hd as (_ & (Hent & Hval & _) & _). rewrite Hent, lookup_fmap, Hg in Hv. rewrite Hb in Hv. symmetry in Hv.
    apply fmap_Some in Hv as (en & Hen & ->). assert (entry_valid en) as Hve by (apply (Hval (generation_key (Generation.sequence gen) id)); by rewrite Hg).
    rewrite decode_stored_entry in He by done. apply ok_inj in He as <-. by exists en.
  - intros captured. cbv beta. apply runs_pull. intros (entry & Hen & Hc & Hve & -> & Hid).
    eapply (runs_bind _ _ (fun artifact w => PublicationVerify.artifact_of entry = Some artifact /\ P w)).
    + apply runs_lift; [|intros e w _; apply HX]. intros artifact w Ho Hw. split; [|done]. unfold PublicationVerify.artifact_of, entry_preparation.
      destruct (current_outcome _) as [o|]; [|done]. cbn in *. destruct (outcome_result o); [by apply ok_inj in Ho as ->|done].
    + intros artifact. apply runs_pull. intros Ha. destruct Hve as (Hwf & _ & [Hpw Hpv] & _).
      assert (object_wf artifact) as Haw.
      { unfold PublicationVerify.artifact_of in Ha. destruct Hpw as (_ & _ & _ & _ & _ & Hb). unfold entry_preparation in *.
        destruct (current_outcome (captured_preparation (entry_captured entry))) as [o|]; [|done]. destruct Hb as (_ & _ & _ & _ & Hout).
        cbn in Ha. destruct (outcome_result o) as [a|]; [|done]. by injection Ha as ->. }
      eapply runs_bind.
      * apply load_view_runs; [intros w Hw; by destruct (HP w Hw) as (g & (_ & _ & ? & _) & _)|exact HX|done|by destruct Hpw as (_ & _ & _ & ? & _)|done].
      * intros view. cbv beta. apply runs_pull. intros [stored Hst]. apply runs_ret. intros w Hw. split; [|done]. split; [|done].
        exists entry, stored. cbn [held_source held_artifact held_view]. by rewrite Hid.
Qed.

(** A point with its text. *)
Definition filled (r : saved) (sequence : Z) (h : HydratedPoint) : Prop :=
  forall g, rows g = r -> text_of_point blake3 g sequence (hydrated_point h) (hydrated_text h).

Lemma hydrate_point_runs (P : World D -> Prop) (r : saved) sequence h point (X : World D -> Prop) :
  (forall w, P w -> X w) -> held_ok r sequence h ->
  source_id (captured_source (held_source h)) = PointEvidence.source_id (point_evidence point) ->
  runs P (hydrate_point (held_view h) (captured_source (held_source h)) (held_artifact h) point)
    (fun full w => (hydrated_point full = point /\ filled r sequence full) /\ P w) (fun _ => X).
Proof.
  intros HX (entry & stored & Hen & Hc & Hcap & Ha & Hst) Hid. unfold hydrate_point.
  apply runs_pure; [intros [] Hg%reject_if_ok|intros e w _; apply HX]. to_prop.
  apply runs_pure; [intros text Ht|intros e w _; apply HX]. eapply runs_seq; [by apply reserve_runs|]. intros _. apply runs_ret.
  intros w Hw. split; [|done]. split; [done|]. intros g Hr. unfold text_of_point. cbn [hydrated_point hydrated_text]. cbv zeta.
  exists entry, stored, (held_view h). rewrite Hr, <- Hid.
  rewrite Hcap in *. split_and!; try done; congruence.
Qed.

Lemma hydrate_points_runs (P : World D -> Prop) (r : saved) borrowed (gen : Generation) (X : World D -> Prop) points :
  (forall w, P w -> exists g, live g w /\ rows g = r) -> (forall w, P w -> X w) -> forall held hydrated,
  (forall h, held = Some h -> held_ok r (Generation.sequence gen) h) -> Forall (filled r (Generation.sequence gen)) hydrated ->
  runs P (hydrate_points blake3 borrowed gen held points hydrated)
    (fun read w => ((forall h, fst read = Some h -> held_ok r (Generation.sequence gen) h) /\
       Forall (filled r (Generation.sequence gen)) (snd read) /\
       hydrated_point <$> snd read = (hydrated_point <$> hydrated) ++ points) /\ P w) (fun _ => X).
Proof.
  intros HP HX. induction points as [|point points IH]; intros held hydrated Hh Hf; cbn [hydrate_points].
  - apply runs_ret. intros w Hw. split; [|done]. split; [done|]. split; [done|]. by rewrite app_nil_r.
  - eapply (runs_bind _ _ (fun h w => (held_ok r (Generation.sequence gen) h /\
      source_id (captured_source (held_source h)) = PointEvidence.source_id (point_evidence point)) /\ P w)).
    + destruct (holds_source held _) as [h|] eqn:Hs.
      * apply runs_ret. intros w Hw. split; [|done]. apply option_keep_inv in Hs as [-> Hs%bool_decide_eq_true_1]. split; [by apply Hh|done].
      * eapply runs_weaken; [by apply load_source_runs|done|done|done].
    + intros h. apply runs_pull. intros [Hok Hid]. eapply runs_seq; [by apply check_runs|]. intros _.
      eapply runs_bind; [by apply (hydrate_point_runs P r (Generation.sequence gen))|]. intros full. cbv beta. apply runs_pull. intros [Hp Hfull].
      eapply runs_weaken; [apply (IH (Some h) (hydrated ++ [full]))|done| |done].
      * by intros h' [= <-].
      * apply Forall_app. split; [done|]. by constructor.
      * intros read w (Hrd & Hw). cbv beta in Hrd. rewrite fmap_app, <- (assoc_L (++)) in Hrd. cbn [fmap list_fmap app] in Hrd. rewrite Hp in Hrd. done.
Qed.

Lemma filled_inputs r gen g page hydrated :
  rows g = r -> Forall (filled r (Generation.sequence gen)) hydrated -> hydrated_point <$> hydrated = page_points page ->
  Forall2 (input_of blake3 g (Generation.sequence gen)) (page_points page) (inputs hydrated).
Proof.
  intros Hr Hf <-. unfold inputs. induction Hf as [|h hydrated Hh _ IH]; [constructor|]. cbn [fmap list_fmap]. constructor; [|done].
  split; [done|]. split; [done|]. by apply Hh.
Qed.

(** ** Visiting the pages *)

Section Visit.
Context {V : Type} (borrowed : bool) (gen : Generation) (visit : V -> Z -> list HydratedPoint -> St (World D) Code V).
Context (r : saved) (P : V -> Z -> World D -> Prop) (X : World D -> Prop).
Context (HP : forall v n w, P v n w -> exists g, live g w /\ rows g = r) (HX : forall v n w, P v n w -> X w).
Context (Hvisit : forall v n page hydrated,
  (forall g, rows g = r -> saved_page g (Generation.sequence gen) n page) ->
  hydrated_point <$> hydrated = page_points page -> Forall (filled r (Generation.sequence gen)) hydrated ->
  runs (P v n) (visit v n hydrated) (fun v' => P v' (n + 1)) (fun _ => X)).

Lemma visit_loop_runs more : forall n held v page,
  (forall h, held = Some h -> held_ok r (Generation.sequence gen) h) ->
  (forall g, rows g = r -> saved_page g (Generation.sequence gen) n page) ->
  runs (P v n) (visit_loop blake3 borrowed gen visit more n held v page) (fun v' => P v' (n + 1 + Z.of_nat more)) (fun _ => X).
Proof.
  induction more as [|more IH]; intros n held v page Hh Hpage; cbn [visit_loop].
  all: eapply runs_bind; [apply (hydrate_points_runs (P v n) r); [by apply HP|by apply HX|exact Hh|constructor]|].
  all: intros [held' hydrated]; cbv beta; apply runs_pull; intros (Hh' & Hf & Hpts); cbn [fst snd fmap list_fmap app] in *.
  all: eapply (runs_bind _ _ (fun v' => P v' (n + 1))).
  1, 3: unfold visit_page; eapply runs_seq; [apply remote_runs; apply runs_env; [done|intros _ w; apply HX]|]; intros wire;
    apply runs_pure; [intros [] _|intros e w _; apply HX]; by apply (Hvisit v n page).
  all: intros v'; apply runs_pure; [intros n' Hn|intros e w _; apply HX].
  all: apply ok_or_inv, checked_add_inv in Hn as [-> Hn].
  - apply runs_ret. intros w Hw. by rewrite Z.add_0_r.
  - eapply runs_seq; [by apply check_runs, HX|]. intros _.
    eapply runs_bind; [apply (read_page_runs (P v' (n + 1)) r); [by apply HP|by apply HX]|]. intros page'. cbv beta. apply runs_pull. intros Hpage'.
    eapply runs_seq; [by apply reserve_runs, HX|]. intros _.
    eapply runs_weaken; [apply (IH (n + 1) held' v' page'); [exact Hh'|exact Hpage']|done| |done].
    intros v2 w Hw. by replace (n + 1 + Z.of_nat (S more)) with (n + 1 + 1 + Z.of_nat more) by lia.
Qed.

Lemma visit_pages_runs first stop v :
  runs (P v first) (visit_pages blake3 borrowed gen visit first stop v) (fun v' => P v' (Z.max first stop)) (fun _ => X).
Proof.
  unfold visit_pages. destruct (stop <=? first) eqn:E.
  - apply Z.leb_le in E. apply runs_ret. intros w Hw. by rewrite Z.max_l.
  - apply Z.leb_gt in E. eapply runs_bind; [apply (read_page_runs (P v first) r); [by apply HP|by apply HX]|]. intros page. cbv beta. apply runs_pull. intros Hpage.
    eapply runs_seq; [by apply reserve_runs, HX|]. intros _. case_bool_decide.
    + eapply runs_weaken; [apply (lift_runs (P v first)); by apply HX|done| |done]. by intros a w [[=] _].
    + eapply runs_weaken; [apply (visit_loop_runs (Z.to_nat (stop - first - 1)) first None v page); [done|exact Hpage]|done| |done].
      intros v' w Hw. replace (Z.max first stop) with (first + 1 + Z.of_nat (Z.to_nat (stop - first - 1))) by lia. done.
Qed.
End Visit.

(** ** Uploading *)

(** The same generation, whatever its counts. *)
Definition same (a b : Generation) : Prop := Generation.namespace a = Generation.namespace b /\ Generation.sequence a = Generation.sequence b.
Lemma same_collection a b : same a b -> Generation.collection a = Generation.collection b.
Proof. intros [E1 E2]. unfold Generation.collection. by rewrite E1, E2. Qed.

(** The rows stay, and the header has a build of the generation. *)
Definition holding (r : saved) w : Prop := exists g, live g w /\ rows g = r.
Definition building (r : saved) (gen : Generation) w : Prop :=
  exists g p, live g w /\ rows g = r /\ PublicationState.pending (state_of g) = Some p /\ same (Pending.generation p) gen.
Lemma building_holding r gen w : building r gen w -> holding r w.
Proof. intros (g & p & ? & ? & _). by exists g. Qed.
Lemma holding_kept r w : holding r w -> kept w.
Proof. intros (g & ? & _). by exists g. Qed.
Lemma building_kept r gen w : building r gen w -> kept w.
Proof. intros Hb. by eapply holding_kept, building_holding. Qed.

Lemma state_after g s : header g = Some s -> state_of g = s.
Proof. intros Hs. unfold state_of, header_or_default. by rewrite Hs. Qed.

Lemma reload_runs r gen :
  runs (building r gen) reload (fun p w => same (Pending.generation p) gen /\ building r gen w) (fun _ => kept).
Proof.
  unfold reload. eapply (runs_bind _ _ (fun p w => (forall q, p = Some q -> same (Pending.generation q) gen) /\ building r gen w)).
  - apply read_runs; [|by apply building_kept]. intros p w e Hb Hr. split; [|done]. destruct Hb as (g & q & (Hd & _) & _ & Hq & Hs).
    apply observe_inv in Hr as [e' Hr]. apply run_bind_ok in Hr as (s & e1 & Hst & Hr). apply ok_inj in Hr as <-.
    apply (refines_step _ _ _ _ _ (read_state_refines _ c g Hd)) in Hst as ->. unfold state_of in Hq. rewrite Hq. by intros q' [= <-].
  - intros p. cbv beta. apply runs_pull. intros Hp. apply runs_lift; [|intros e w _; by apply building_kept].
    intros q w Hq%ok_or_inv Hw. split; [by apply Hp|done].
Qed.

Lemma pending_mut_same s expected p :
  pending_mut s expected = Ok p -> PublicationState.pending s = Some p /\ same (Pending.generation p) (Pending.generation expected).
Proof.
  intros E. unfold pending_mut in E. apply bind_ok_inv in E as (q & Hq%ok_or_inv & E). apply bind_ok_inv in E as ([] & Hg%reject_if_ok & E).
  apply ok_inj in E as ->. to_prop. done.
Qed.

(** The build has this operation in flight. *)
Definition sending (r : saved) (gen : Generation) (op : PendingOperation) w : Prop :=
  exists g p, live g w /\ rows g = r /\ PublicationState.pending (state_of g) = Some p /\ same (Pending.generation p) gen /\
    Pending.in_flight p = Some op /\ Pending.capture_complete p = true /\ operation_due p op = true.
Lemma sending_holding r gen op w : sending r gen op w -> holding r w.
Proof. intros (g & p & ? & ? & _). by exists g. Qed.

Lemma dispatch_runs r gen pending op :
  same (Pending.generation pending) gen ->
  runs (holding r) (on_control (record_dispatch pending op)) (fun _ => sending r gen op) (fun _ => kept).
Proof.
  intros Hsame. apply runs_ex. intros g. apply (runs_facts (lifecycle g /\ rows g = r) _ (live g)); [by intros w [(? & ? & ?) ?]|]. intros [Hl <-].
  eapply runs_weaken; [eapply (committed_runs g); [by apply (record_dispatch_implements c g pending op)|]|done| |done].
  - intros g' He. apply (effect_lifecycle c g (RecordDispatch pending op) g' Hl He).
  - intros rev w (g' & Hw & _ & Ht). apply transaction_inv in Ht as (s & E & Hs). unfold dispatch_spec, pending_spec in E.
    apply bind_ok_inv in E as (p & Hp & E). apply pending_mut_same in Hp as [Hp Hps]. apply bind_ok_inv in E as ([] & _ & E).
    apply bind_ok_inv in E as ([] & _ & E). apply bind_ok_inv in E as ([] & Hg%reject_if_ok & E). apply bind_ok_inv in E as (n & _ & E).
    apply ok_inj in E. injection E as _ Hr <-. to_prop. eexists g', _. rewrite (state_after g' _ Hs).
    split; [done|]. split; [done|]. split; [done|]. cbn. unfold same in *. split; [intuition congruence|done].
Qed.

Lemma settle_runs r gen pending op rev result :
  same (Pending.generation pending) gen ->
  runs (holding r) (settle pending op rev result) (fun _ => building r gen) (fun _ => kept).
Proof.
  intros Hsame. unfold settle. apply runs_pure; [intros [] _|intros e w _; apply holding_kept].
  eapply (runs_bind _ _ (fun _ => building r gen)).
  - set (applied := match result with Ok _ => true | Err _ => false end).
    apply runs_ex. intros g. apply (runs_facts (lifecycle g /\ rows g = r) _ (live g)); [by intros w [(? & ? & ?) ?]|]. intros [Hl <-].
    eapply runs_weaken; [eapply (committed_runs g); [by apply (finish_dispatch_implements c g)|]|done| |done].
    + intros g' He. by apply (effect_lifecycle c g (FinishDispatch pending op rev applied) g' Hl He).
    + intros [] w (g' & Hw & _ & Ht). apply transaction_inv in Ht as (s & E & Hs). unfold settle_spec, pending_spec in E.
      apply bind_ok_inv in E as (p & Hp & E). apply pending_mut_same in Hp as [Hp Hps]. apply bind_ok_inv in E as ([] & _ & E).
      apply bind_ok_inv in E as ([cr up] & _ & E). apply ok_inj in E. injection E as Hr <-. eexists g', _.
      rewrite (state_after g' _ Hs). split; [done|]. split; [done|]. split; [done|]. cbn. unfold same in *. intuition congruence.
  - intros []. apply runs_lift; [done|]. intros e w _. by apply building_kept.
Qed.

(** A call that the operation in flight allows. *)
Lemma sent_runs {A} r gen op call (m : Channel -> M Back.t A) :
  (forall g p, rows g = r -> PublicationState.pending (state_of g) = Some p -> same (Pending.generation p) gen ->
     Pending.in_flight p = Some op -> Pending.capture_complete p = true -> operation_due p op = true -> call_ok blake3 g call) ->
  runs (sending r gen op) (st_result (E := Code) (on_backend channel call m)) (fun _ => holding r) (fun _ => kept).
Proof.
  intros Hc. eapply runs_result; [|by intros a w Hw; exact Hw|by intros e w Hw; exact Hw].
  eapply runs_weaken; [apply (backend_runs (sending r gen op) call m (holding r))|done| |done].
  - intros w ok (g & p & Hw & Hr & Hp & Hs & Hf & Hcc & Hd). exists g, p. split; [|done]. apply live_logged; [done|]. by apply (Hc g p).
  - intros w. apply sending_holding.
  - intros a w [Hw _]. by eapply sending_holding.
Qed.

Lemma create_runs r gen pending :
  same (Pending.generation pending) gen ->
  runs (holding r) (dispatch_create channel in_runtime pending (Generation.collection gen)) (fun _ => building r gen) (fun _ => kept).
Proof.
  intros Hsame. unfold dispatch_create. eapply runs_bind; [by apply (dispatch_runs r gen)|]. intros rev.
  eapply (runs_bind _ _ (fun _ => holding r)); [|intros result; by apply settle_runs].
  apply sent_runs. intros g p Hr Hp Hs Hf Hcc Hd. exists p. cbn in Hd. apply negb_true_iff in Hd. split_and!; try done. by rewrite (same_collection _ _ Hs).
Qed.

Lemma insert_runs r gen pending number page hydrated :
  same (Pending.generation pending) gen ->
  (forall g, rows g = r -> saved_page g (Generation.sequence gen) number page) ->
  hydrated_point <$> hydrated = page_points page -> Forall (filled r (Generation.sequence gen)) hydrated ->
  runs (holding r) (dispatch_insert channel in_runtime pending (Generation.collection gen) number hydrated) (fun _ => building r gen) (fun _ => kept).
Proof.
  intros Hsame Hpage Hpts Hf. unfold dispatch_insert. eapply runs_bind; [by apply (dispatch_runs r gen)|]. intros rev.
  eapply (runs_bind _ _ (fun _ => holding r)); [|intros result; by apply settle_runs].
  apply sent_runs. intros g p Hr Hp Hs Hfl Hcc Hd. exists p, number, page. cbn in Hd. to_prop. pose proof Hs as [_ Hseq].
  split_and!; try done; [by rewrite (same_collection _ _ Hs)|rewrite Hseq; by apply Hpage|]. rewrite Hseq. by apply (filled_inputs r).
Qed.

(** A call that may be sent at any time. *)
Lemma harmless_runs {A} r call (m : Channel -> M Back.t A) :
  harmless call -> runs (holding r) (remote (on_backend channel call m)) (fun _ w => holding r w /\ answered call w) (fun _ => kept).
Proof.
  intros Hc. apply remote_runs, backend_runs; [|by apply holding_kept]. intros w ok (g & Hw & Hr). exists g. split; [|done].
  apply live_logged; [done|]. by apply harmless_ok.
Qed.
Lemma harmless_keeps {A} r call (m : Channel -> M Back.t A) :
  harmless call -> runs (holding r) (remote (on_backend channel call m)) (fun _ => holding r) (fun _ => kept).
Proof. intros Hc. eapply runs_weaken; [by apply (harmless_runs r)|done|by intros a w [Hw _]|done]. Qed.

Lemma upload_runs pending : runs kept (upload blake3 channel in_runtime pending) (fun _ => kept) (fun _ => kept).
Proof.
  apply runs_ex. intros g0. set (r := rows g0). set (gen := Pending.generation pending).
  apply (runs_weaken (holding r) _ _ (fun _ => kept) _ (fun _ => kept)); [|intros w Hw; by exists g0|done|done]. unfold upload. fold gen.
  eapply (runs_bind _ _ (fun p w => same (Pending.generation p) gen /\ holding r w)).
  - destruct (Pending.created pending); [by apply runs_ret|].
    eapply runs_bind; [by apply (harmless_keeps r)|]. intros present.
    apply runs_pure; [intros [] _|intros e w _; apply holding_kept]. eapply runs_bind; [by apply (create_runs r gen)|]. intros [].
    eapply runs_weaken; [apply (reload_runs r gen)|done| |done]. intros p w [Hp Hb]. split; [done|by eapply building_holding].
  - intros p. cbv beta. apply runs_pull. intros Hp. eapply runs_bind; [by apply (harmless_keeps r)|]. intros [].
    eapply (runs_bind _ _ (fun q => holding r)).
    + eapply runs_weaken; [apply (visit_pages_runs true (Pending.generation p) _ r (fun q n w => same (Pending.generation q) (Pending.generation p) /\ holding r w) kept)| | |done].
      * by intros v n w [_ Hh].
      * intros v n w [_ Hh]. by eapply holding_kept.
      * intros q n page hydrated Hpage Hpts Hf. apply runs_pull. intros Hq. rewrite <- (same_collection _ _ Hp).
        eapply runs_bind; [by apply (insert_runs r (Pending.generation p) q n page hydrated)|]. intros [].
        eapply runs_weaken; [apply (reload_runs r (Pending.generation p))|done| |done]. intros q' w [Hq' Hb]. split; [done|by eapply building_holding].
      * by intros w Hw.
      * by intros q w [_ Hw].
    + intros q. unfold reload. eapply (runs_bind _ _ (fun _ => kept)).
      * apply read_runs; [|by apply holding_kept]. intros _ w e Hw _. by eapply holding_kept.
      * intros o. by apply runs_lift.
Qed.

(** ** Removing the retired *)

(** A decimal text of a number tells it. *)
Definition value_of (text : list Z) : Z := foldl (fun n d => 10 * n + (d - 48)) 0 text.
Lemma value_of_decimal fuel n : 0 <= n < 10 ^ Z.of_nat fuel -> value_of (Generation.decimal fuel n) = n.
Proof.
  revert n. induction fuel as [|fuel IH]; intros n Hn; [cbn in *; lia|]. cbn [Generation.decimal]. unfold value_of. rewrite foldl_app. cbn [foldl].
  rewrite Nat2Z.inj_succ, Z.pow_succ_r in Hn by lia. pose proof (Z.div_mod n 10 ltac:(lia)). pose proof (Z.mod_pos_bound n 10 ltac:(lia)).
  destruct (Z.ltb_spec n 10).
  - cbn [foldl]. lia.
  - fold (value_of (Generation.decimal fuel (n / 10))). rewrite IH by (split; [apply Z.div_pos; lia|apply Z.div_lt_upper_bound; lia]). lia.
Qed.
Lemma collection_sequence a b :
  Generation.namespace a = Generation.namespace b -> 0 <= Generation.sequence a <= U64_MAX -> 0 <= Generation.sequence b <= U64_MAX ->
  Generation.collection a = Generation.collection b -> Generation.sequence a = Generation.sequence b.
Proof.
  intros Hn Ha Hb E. unfold Generation.collection in E. rewrite Hn in E. do 3 apply app_inv_head in E.
  rewrite <- (value_of_decimal 20 (Generation.sequence a)), <- (value_of_decimal 20 (Generation.sequence b)) by (clear -Ha Hb; width).
  by rewrite E.
Qed.

(** The generations a sound header names. *)
Lemma named_facts s gen :
  header_sound s -> gen ∈ named_generations s ->
  Generation.wf gen /\ PublicationState.namespace s = Some (Generation.namespace gen) /\ uses_sequence s (Generation.sequence gen) = true.
Proof.
  intros (Hwf & _ & _ & _ & Hcur & Hpen & _) Hin. destruct Hwf as (_ & _ & _ & _ & Hwc & Hwp). unfold named_generations in Hin.
  apply elem_of_app in Hin as [Hin|Hin].
  - destruct (PublicationState.current s) as [x|] eqn:Hx; [|by apply elem_of_nil in Hin]. apply list_elem_of_singleton in Hin as ->.
    split; [by apply Hwc|]. split; [by apply Hcur|]. by apply uses_current.
  - destruct (PublicationState.pending s) as [p|] eqn:Hp; [|by apply elem_of_nil in Hin]. apply list_elem_of_singleton in Hin as ->.
    split; [by apply Hwp|]. split; [by apply Hpen|]. by apply uses_pending.
Qed.

(** The collection of an obligation is of no generation in use. *)
Lemma retired_unused g x :
  lifecycle g -> retired_rows (rows g) !! retirement_key x = Some x ->
  ~ in_use (state_of g) (Generation.collection (retired_generation x)).
Proof.
  intros [K Hl] Hx (gen & Hin & Hname). destruct (lifecycle_started K g Hl) as [Hs|[_ E]]; [|by rewrite E in Hx].
  destruct Hs as (Hsound & _ & _ & Hret & _). destruct (Hret _ _ Hx) as ((Hw & _) & _ & Hns & _ & Hu & _).
  destruct (named_facts _ gen Hsound Hin) as (Hwg & Hng & Hug). assert (Generation.sequence gen = Generation.sequence (retired_generation x)) as E.
  { apply collection_sequence; [congruence|by destruct Hwg as (_ & ? & _)|by destruct Hw as (_ & ? & _)|done]. }
  rewrite E in Hug. cbv zeta in Hu. congruence.
Qed.

(** The obligations that are read are those of the table, in its order. *)
Lemma retirement_rows_read s l e out :
  run (retirement_rows s l) e = Ok out ->
  Forall2 (fun row x => retired_from_slice (snd row) = Some x /\ fst row = retirement_key x) l out.
Proof.
  revert e out. induction l as [|[k v] l IH]; intros e out Hr; cbn [retirement_rows] in Hr; [apply ok_inj in Hr as <-; constructor|].
  apply run_bind_ok in Hr as ([] & e1 & _ & Hr). apply run_lift_ok in Hr as ([] & _ & Hr). apply run_lift_ok in Hr as (x & Hx%ok_or_inv & Hr).
  apply run_lift_ok in Hr as ([] & Hg%reject_if_ok & Hr). apply run_lift_ok in Hr as ([] & _ & Hr).
  apply run_bind_ok in Hr as (xs & e2 & Hxs & Hr). apply ok_inj in Hr as <-. constructor.
  - split; [done|]. unfold retirement_refused in Hg. to_prop. done.
  - apply (IH e1). unfold run. by rewrite Hxs.
Qed.

Definition owed g (l : list RetiredGeneration) : Prop :=
  NoDup (retirement_key <$> l) /\ Forall (fun x => retired_rows (rows g) !! retirement_key x = Some x) l.

Lemma retired_generations_runs g :
  runs (live g) (on_writer_read retired_generations) (fun l w => owed g l /\ live g w) (fun _ => kept).
Proof.
  apply read_runs; [|by intros w Hw; exists g]. intros out w e Hw Hr. split; [|done]. destruct Hw as (Hd & _).
  apply observe_inv in Hr as [e' Hr]. apply run_bind_ok in Hr as (s & e1 & Hst & Hr).
  case_bool_decide; [apply ok_inj in Hr as <-; split; constructor|]. apply run_bind_ok in Hr as ([] & e2 & _ & Hr).
  apply run_bind_ok in Hr as ([] & e3 & _ & Hr). apply run_lift_ok in Hr as ([] & _ & Hr). apply run_bind_ok in Hr as (l & e4 & Hl & Hr).
  apply (refines_step _ _ _ _ _ (refines_iterate Pub.Database (PreparedSource.control (root w)) RETIRED publication_database)) in Hl as ->.
  apply retirement_rows_read in Hr. destruct (iter_law (PreparedSource.control (root w)) RETIRED) as [Hsort Hin].
  destruct Hd as (_ & (_ & _ & _ & _ & Hret & Hwf) & _).
  assert (forall k v, (k, v) ∈ table_iter (PreparedSource.control (root w)) RETIRED -> exists x, retired_rows (rows g) !! k = Some x /\ v = retired_to_vec x) as Hrow.
  { intros k v Hkv%Hin. fold (rows_of (PreparedSource.control (root w)) RETIRED) in Hkv. rewrite Hret, lookup_fmap in Hkv.
    apply fmap_Some in Hkv as (x & ? & ->). by exists x. }
  split.
  - assert (retirement_key <$> out = fst <$> table_iter (PreparedSource.control (root w)) RETIRED) as ->.
    { clear -Hr. induction Hr as [|row x l out [_ Hk] _ IH]; [done|]. cbn [fmap list_fmap]. by rewrite Hk, IH. }
    apply NoDup_fmap_fst; [|by apply strictly_sorted_nodup]. intros k v1 v2 E1%Hrow E2%Hrow.
    destruct E1 as (x1 & E1 & ->), E2 as (x2 & E2 & ->). congruence.
  - apply Forall_forall. intros x Hx. apply list_elem_of_lookup in Hx as [i Hx]. destruct (Forall2_lookup_r _ _ _ _ _ Hr Hx) as ([k v] & Hl & Hv & Hk).
    cbn in Hv, Hk. apply list_elem_of_lookup_2, Hrow in Hl as (y & Hy & ->). rewrite retired_roundtrip in Hv by by apply (Hwf k).
    rewrite <- Hk. congruence.
Qed.

Lemma finish_retired_runs g x :
  runs (live g) (on_control (finish_retired x)) (fun _ w => exists g', live g' w /\ retired_rows (rows g') = delete (retirement_key x) (retired_rows (rows g)))
    (fun _ => kept).
Proof.
  intros w e Hw. pose proof Hw as (Hd & Hl & _). unfold finish_retired.
  set (fuel := S (length (table_iter (PreparedSource.control (root w)) SOURCES) + length (table_iter (PreparedSource.control (root w)) PAGES)
    + length (table_iter (PreparedSource.control (root w)) EVIDENCE))).
  assert (saved_rows g < fuel)%nat as Hfuel.
  { rewrite <- (row_count_saved _ c g Hd). unfold row_count, fuel.
    pose proof (table_iter_size (PreparedSource.control (root w)) SOURCES). pose proof (table_iter_size (PreparedSource.control (root w)) PAGES).
    pose proof (table_iter_size (PreparedSource.control (root w)) EVIDENCE). unfold len in *. lia. }
  pose proof (committed_runs g (finish_retirement fuel x) _ _ _ (finish_retirement_guides c g x fuel Hl (denotes_bounded _ _ _ Hd) Hfuel)
    ltac:(by intros g' [_ ?]) w e Hw) as Hout.
  change (on_control _ w e) with (on_control (finish_retirement fuel x) w e).
  destruct (on_control (finish_retirement fuel x) w e) as [[[[]|err] w'] e']; cbn [fst] in *; [|done].
  destruct Hout as (g' & Hw' & _ & -> & _). by exists (forgotten x (all_cleared x g)).
Qed.

(** A call under the generations of the moment. *)
Lemma live_call_runs {A} g call (m : Channel -> M Back.t A) :
  call_ok blake3 g call -> runs (live g) (remote (on_backend channel call m)) (fun _ => live g) (fun _ => kept).
Proof.
  intros Hc. apply remote_runs. eapply runs_weaken; [apply (backend_runs (live g) call m kept)|done|by intros a w [Hw _]|done].
  - intros w ok Hw. by apply live_logged.
  - intros w Hw. by exists g.
Qed.

Lemma remove_retired_runs g x l :
  runs (fun w => owed g (x :: l) /\ live g w) (remove_retired channel in_runtime x) (fun _ w => exists g', owed g' l /\ live g' w) (fun _ => kept).
Proof.
  apply runs_pull. intros [[Hx Hnd]%NoDup_cons [Hin Hrest]%Forall_cons].
  apply (runs_facts (lifecycle g) _ (live g)); [by intros w Hw; pose proof Hw as (_ & ? & _)|]. intros Hl. unfold remove_retired.
  assert (forall w, live g w -> kept w) as HX by (intros w Hw; by exists g).
  eapply runs_seq; [by apply check_runs|]. intros _. case_bool_decide as Hu; [apply runs_ret; intros w Hw; exists g; by split_and!|].
  eapply (runs_bind _ _ (fun _ => live g)).
  - destruct (remote_owned x) eqn:Ho; [|by apply runs_ret]. cbv zeta. eapply runs_bind.
    + apply (live_call_runs g). exists x. split_and!; try done; [by apply eq_None_not_Some|]. by apply retired_unused.
    + intros []. eapply runs_bind; [by apply (live_call_runs g)|]. intros present. apply runs_lift; [done|]. intros e w _. apply HX.
  - intros []. eapply runs_weaken; [apply (finish_retired_runs g x)|done| |done]. intros [] w (g' & Hw & Hret). exists g'. split; [|done].
    split; [done|]. rewrite Forall_forall in Hrest |- *. intros y Hy. rewrite Hret, lookup_delete_ne; [by apply Hrest|].
    intros E. apply Hx. rewrite E. by apply list_elem_of_fmap_2.
Qed.

Lemma cleanup_runs : runs kept (cleanup channel in_runtime) (fun _ => kept) (fun _ => kept).
Proof.
  unfold cleanup. apply runs_ex. intros g. eapply runs_bind; [apply retired_generations_runs|]. intros l. cbv beta.
  revert g. induction l as [|x l IH]; intros g; cbn [remove_all]; [apply runs_ret; intros w [_ Hw]; by exists g|].
  eapply runs_bind; [apply remove_retired_runs|]. intros []. apply runs_ex. intros g'. apply IH.
Qed.

(** ** Writing *)

(** A write of the control database that keeps the generations sound. *)
Lemma request_runs {A} g (m : Db A) req I Q X :
  guides c g m I Q X -> (forall g', I g' -> effect c g req g') -> lifecycle g ->
  runs (live g) (on_control m) (fun a w => exists g', live g' w /\ Q a g') (fun _ => kept).
Proof.
  intros Hm HI Hl. eapply runs_weaken; [eapply (committed_runs g); [exact Hm|]|done| |done].
  - intros g' Hi. apply (effect_lifecycle c g req g' Hl). by apply HI.
  - intros a w (g' & ? & _ & ?). by exists g'.
Qed.
Lemma live_sound g w : live g w -> lifecycle g /\ live g w.
Proof. intros Hw. split; [|done]. by destruct Hw as (_ & ? & _). Qed.

Lemma write_runs {A} g (m : Db A) req I Q X :
  guides c g m I Q X -> (forall g', I g' -> effect c g req g') -> lifecycle g -> runs (live g) (on_control m) (fun _ => kept) (fun _ => kept).
Proof.
  intros Hm HI Hl. eapply runs_weaken; [eapply (request_runs g); [exact Hm|exact HI|exact Hl]|done| |done].
  intros a w (g' & Hw & _). by exists g'.
Qed.

(** A write that is refused or committed, from any sound state. *)
Lemma kept_writes {A} (m : Db A) req :
  (forall g, lifecycle g -> exists I Q X, guides c g m I Q X /\ forall g', I g' -> effect c g req g') ->
  runs kept (on_control m) (fun _ => kept) (fun _ => kept).
Proof.
  intros Hm. apply runs_ex. intros g. apply (runs_facts (lifecycle g) _ (live g)); [by apply live_sound|]. intros Hl.
  destruct (Hm g Hl) as (I & Q & X & Hg & Hi). by eapply write_runs.
Qed.

Lemma live_kept g w : live g w -> kept w.
Proof. intros Hw. by exists g. Qed.

(** ** Capturing *)

Section Capturing.
Context (random : list Z) (ps : preparations) (Hps : prepared c ps) (Hrandom : Uuid.wf random).

(** What is captured may start a build. *)
Definition buildable (cap : CorpusCapture) : Prop := capture_sound cap (build_namespace cap random).

Lemma corpus_capture_runs : runs kept (on_writer_read capture_corpus) (fun cap w => buildable cap /\ kept w) (fun _ => kept).
Proof.
  apply read_runs; [|done]. intros cap w e (g & Hw) Hr. split; [|by exists g]. apply observe_inv in Hr as [e' Hr].
  destruct Hw as (Hd & _). pose proof (proj1 (read_corpus_outcome _ c g ps Hd Hps e')) as Ho. rewrite Hr in Ho.
  by eapply captured_sound.
Qed.
End Capturing.

End Safety.
