(* ===== verification/PublishedSample.v ===== *)
(** A sample publication: the prepared sample source, and a server that holds its point. *)

From stdpp Require Import gmap.
From S2P Require Import Prelude Bytes Utf8 Ids Registry Layout Prepared SourceRow PreparationRow ObjectStore.
From S2P Require Import Database Control ControlSpec ControlRefine ControlState ControlSample PreparationSpec PreparationState PublicationRow Publication PublicationSpec PublicationRefine PublicationLifecycle.
From S2P Require Import PublicationHistory PublicationSample PublicationOutcome PublicationSafety PublicationRead PublicationCapture.
From S2P Require Import Qdrant VerifiedQuery PlainControl State PreparedSource PreparedSafety PublishedCorpus PublishedSafety.

(** ** The world before *)

Definition sample_world : World store := {| root := snd (fst sample_prepared_answer); sent := [] |}.

Lemma sample_generation_namespace_wf : Uuid.wf sample_generation_namespace.
Proof. split; [reflexivity|]. closed_fact. Qed.

Lemma sample_world_state :
  exists c ps, denotes (PreparedSource.control (root sample_world)) c fresh /\ prepared c ps /\ directory_typed (objects (root sample_world)).
Proof.
  pose proof (prepare_runs sample_hash sample_hash_wf sample_publish sample_publish_typed sample_corpus ∅ sample_id sample_id_wf true sample_root []) as Hout.
  assert (is_ok (fst (fst sample_prepared_answer)) = true) as Hok by (vm_compute; reflexivity).
  assert (unpublished (PreparedSource.control (root sample_world))) as Hu 
    by (unfold unpublished; apply (bool_decide_eq_true_1 _); vm_compute; reflexivity).
  unfold sample_world, sample_prepared_answer in *. destruct (prepare _ _ _ _ _ []) as [[[p|e] r'] w']; [|done]. cbn [fst snd root] in *.
  destruct Hout as (_ & _ & c & ps & ([Hr Hp] & _ & _ & Ho) & _); [exists sample_corpus, ∅; split_and!; [exact sample_state|done..|exact sample_root_typed]|].
  exists c, ps. split; [by apply fresh_denotes|done].
Qed.
Lemma sample_world_live c : denotes (PreparedSource.control (root sample_world)) c fresh -> directory_typed (objects (root sample_world)) ->
  live sample_hash c fresh sample_world.
Proof. intros Hd Ho. split; [done|]. split; [exact fresh_lifecycle|]. split; [done|constructor]. Qed.

(** ** The server *)

#[export] Instance sample_upsert_length : Prost UpsertPoints := fun _ => 100.
Definition sample_held : PointInput.t :=
  {| PointInput.id := be_bytes 8 1 ++ be_bytes 8 0; PointInput.source_id := sample_id; PointInput.retrieval_text := sample_content |}.
(** It has no collection before the first call. *)
Definition sample_server (k : nat) : Channel := {|
  on_create := on_create sample_channel; on_index := on_index sample_channel;
  on_info _ := {| waiting := 1; finished := Some (Answer (Some found_info)) |};
  on_exists _ _ := {| waiting := 0; finished := Some (Answer (Some (negb (bool_decide (k = 0%nat))))) |};
  on_delete := on_delete sample_channel; on_upsert := on_upsert sample_channel;
  on_get _ := {| waiting := 1; finished := Some (Answer
    [{| retrieved_id := Some (point_id (PointInput.id sample_held));
        retrieved_payload := struct_payload (point_struct sample_held); retrieved_vectors := false |}]) |};
  on_count := on_count sample_channel;
  on_query _ := {| waiting := 0; finished := Some (Answer
    [{| scored_id := Some (point_id (PointInput.id sample_held));
        scored_payload := {[SOURCE_ID_KEY := Some (StringValue (Uuid.display sample_id))]};
        scored_score := 1065353216; scored_vectors := false |}]) |} |}.
Definition sample_letter (z : Z) : bool := between 97 122 z.

(** ** A started build *)

Definition sample_capture : CorpusCapture :=
  match fst (fst (on_writer_read capture_corpus sample_world [])) with
  | Ok cap => cap
  | Err _ => {| Capture.sources := []; Capture.current := None; Capture.pending := None; Capture.source_namespace := None;
                Capture.wanted_revision := 0; Capture.state := PublicationState.default |}
  end.
Definition sample_build : World store := snd (fst (on_control (start_build sample_capture sample_generation_namespace) sample_world [])).
Definition sample_build_pending : PendingGeneration := sample_pending (PreparedSource.control (root sample_build)).

Lemma sample_build_live : exists c g, live sample_hash c g sample_build /\ buildable sample_generation_namespace sample_capture.
Proof.
  destruct sample_world_state as (c & ps & Hd & Hp & Ho). pose proof (sample_world_live c Hd Ho) as Hw. exists c.
  pose proof (corpus_capture_runs sample_hash c sample_generation_namespace ps Hp sample_generation_namespace_wf sample_world [] (live_kept sample_hash c fresh sample_world Hw)) as Hcap.
  assert (is_ok (fst (fst (on_writer_read capture_corpus sample_world []))) = true) as Hok by (vm_compute; reflexivity).
  assert (buildable sample_generation_namespace sample_capture) as Hb.
  { unfold sample_capture. destruct (on_writer_read capture_corpus sample_world []) as [[[cap|e] w'] e']; [|done]. by destruct Hcap. }
  pose proof (kept_writes sample_hash c (start_build sample_capture sample_generation_namespace) (StartBuild sample_capture sample_generation_namespace)) as Hk.
  assert (kept sample_hash c sample_build) as [g Hg]; [|exact (ex_intro _ g (conj Hg Hb))]. unfold sample_build.
  assert (runs (kept sample_hash c) (on_control (start_build sample_capture sample_generation_namespace)) (fun _ => kept sample_hash c) (fun _ => kept sample_hash c)) as Hr.
  { apply Hk. intros g Hl. do 3 eexists. split; [by apply (start_build_guides c g)|]. intros g' Hg'. by split. }
  pose proof (Hr sample_world [] (live_kept sample_hash c fresh sample_world Hw)) as Hout. by destruct (on_control _ sample_world []) as [[[p|e] w'] e'].
Qed.

(** The text of the source, whole, as one unit and one point. *)
Definition sample_unit : UnitSpan :=
  {| unit_start := 0; unit_end := 5; logical_line_start := 0; logical_line_end := 1; starts_at_line_boundary := true; ends_at_line_boundary := true |}.
Definition sample_view : PreparedUtf8 :=
  {| prepared_text := sample_content; prepared_units := [sample_unit] |}.
Definition sample_points : list UploadPoint :=
  [{| PublicationRow.point_id := PointInput.id sample_held;
      point_evidence :=
        {| PointEvidence.source_namespace_id := source_namespace_id sample_record; PointEvidence.source_id := sample_id;
           PointEvidence.input := object_ref sample_record; PointEvidence.prepared := prepared_ref (digest (object_ref sample_record)) 160;
           PointEvidence.unit := 0; PointEvidence.start := 0; PointEvidence.stop := 5; PointEvidence.line_start := 0;
           PointEvidence.line_end := 1; PointEvidence.starts_at_line_boundary := true; PointEvidence.ends_at_line_boundary := true |} |}].
