(* ===== verification/PublishedStaging.v ===== *)
(** The staging of a capture: which pages it writes, that splitting them ends, and that the
    staged points are the units of the verified artifacts, in order. *)

From stdpp Require Import gmap.
From S2P Require Import Prelude Bytes Utf8 Ids Registry Layout Prepared SourceRow PreparationRow ObjectStore.
From S2P Require Import Database Control ControlSpec ControlRefine ControlState PublicationRow Publication PublicationSpec PublicationRefine PublicationLifecycle.
From S2P Require Import PublicationHistory PublicationOutcome PublicationSafety PublicationRead PublicationVerify.
From S2P Require Import Qdrant PlainControl State Json PreparedSource PreparedSafety PublishedCorpus PublishedSafety PublicationSample PublishedSample.

(** ** The plan *)

(** Pages staged one after the other, each in its transaction. *)
Inductive staged `{PublicationJson} (pending : PendingGeneration) : list UploadPage -> generations -> generations -> Prop :=
  | staged_nil g : staged pending [] g g
  | staged_cons page pages g g1 g2 :
      PublicationSpec.transaction (stage_spec pending page) g = Ok (tt, g1) -> staged pending pages g1 g2 -> staged pending (page :: pages) g g2.

(** The points of units, numbered from [next] in the generation and from [ordinal] in their
    source. *)
Fixpoint unit_points (pending : PendingGeneration) (captured : CapturedSource) (artifact : ObjectRef) (next ordinal : Z)
    (units : list UnitSpan) : result Code (list UploadPoint) :=
  match units with
  | [] => Ok []
  | unit :: units =>
      point ← upload_point pending captured artifact next ordinal unit;
      points ← unit_points pending captured artifact (next + 1) (ordinal + 1) units;
      Ok (point :: points)
  end.

(** A page as it is stored: valid, and its request of exactly the recorded size, within the
    bound of the server. *)
Definition page_fits `{Prost UpsertPoints} (pending : PendingGeneration) (view : PreparedUtf8) (page : UploadPage) : Prop :=
  page_valid page /\
  exists points size e, unit_inputs view (page_points page) = Ok points /\
    run (batch_request_bytes (Generation.collection (Pending.generation pending)) points) e = Ok size /\
    request_bytes page = Some size /\ size <= Ceiling.MAX_REQUEST_BYTES.

(** The whole points of a list of pages. *)
Definition points_in (pages : list UploadPage) : list UploadPoint := concat (page_points <$> pages).

Section Plan.
Context (blake3 : list Z -> list Z).
Context `{PublicationJson} `{Prost UpsertPoints}.

(** What staging the sources, from point [next] on, makes of the generations. *)
Inductive plan (pending : PendingGeneration) : list CapturedSource -> Z -> generations -> generations -> Prop :=
  | plan_done next g : plan pending [] next g g
  | plan_gap source sources next reason g g1 g2 :
      outcome_result <$> current_outcome (captured_preparation source) = Some (Gap reason) ->
      PublicationSpec.transaction (finish_spec pending (source_id (captured_source source)) 0) g = Ok (tt, g1) ->
      plan pending sources next g1 g2 -> plan pending (source :: sources) next g g2
  | plan_ready source sources next artifact stored view points pages g g1 g2 g3 :
      outcome_result <$> current_outcome (captured_preparation source) = Some (Ready artifact) ->
      artifact_true blake3 (captured_source source) (settings (captured_preparation source)) artifact stored view ->
      unit_points pending source artifact next 0 (prepared_units view) = Ok points ->
      points_in pages = points -> Forall (page_fits pending view) pages -> staged pending pages g g1 ->
      PublicationSpec.transaction (finish_spec pending (source_id (captured_source source)) (len (prepared_units view))) g1 = Ok (tt, g2) ->
      plan pending sources (next + len (prepared_units view)) g2 g3 -> plan pending (source :: sources) next g g3.
End Plan.

Lemma staged_app `{PublicationJson} pending a b g g1 g2 : staged pending a g g1 -> staged pending b g1 g2 -> staged pending (a ++ b) g g2.
Proof. induction 1 as [|page pages g g0 g1 Ht _ IH]; intros Hb; [done|]. econstructor; [exact Ht|]. by apply IH. Qed.
Lemma points_in_app a b : points_in (a ++ b) = points_in a ++ points_in b.
Proof. unfold points_in. by rewrite fmap_app, concat_app. Qed.

(** ** Points *)

Lemma upload_point_wf pending captured artifact next ordinal unit point :
  upload_point pending captured artifact next ordinal unit = Ok point ->
  record_wf (captured_source captured) -> object_wf artifact -> unit_wf unit -> point_wf point.
Proof.
  intros E Hr Ha (Hs & He & Hls & Hle). unfold upload_point in E. cbv zeta in E.
  apply bind_ok_inv in E as (o & Ho%ok_or_inv%try_from_inv & E). apply bind_ok_inv in E as (s & Hs'%ok_or_inv%try_from_inv & E).
  apply bind_ok_inv in E as (t & Ht%ok_or_inv%try_from_inv & E). apply ok_inj in E as <-.
  destruct Hr as (Hns & Hid & _ & _ & _ & _ & _ & Hobj). split; [cbn; rewrite len_app; unfold len; by rewrite !be_bytes_length|].
  split; [unfold bytes_ok; cbn; rewrite Forall_app; split; apply be_bytes_ok|].
  unfold evidence_wf. cbn. destruct Ho as [-> Ho], Hs' as [-> _], Ht as [-> _]. done.
Qed.

Lemma unit_points_wf pending captured artifact units : forall next ordinal points,
  record_wf (captured_source captured) -> object_wf artifact -> Forall unit_wf units ->
  unit_points pending captured artifact next ordinal units = Ok points -> Forall point_wf points.
Proof.
  induction units as [|unit units IH]; intros next ordinal points Hr Ha Hu E; cbn [unit_points] in E; [apply ok_inj in E as <-; constructor|].
  apply Forall_cons in Hu as [Hu Hus]. apply bind_ok_inv in E as (point & Hp & E). apply bind_ok_inv in E as (rest & Hrest & E).
  apply ok_inj in E as <-. constructor; [by eapply upload_point_wf|by eapply IH].
Qed.

(** ** One page *)

Section Staging.
Context (blake3 : list Z -> list Z).
Context `{PublicationJson} {D : Type} `{Redb D}.
Context `{Prost UpsertPoints, Prost Named, Prost GetPoints, Prost QueryPoints}.
Context (c : corpus).
Implicit Types (g : generations) (w : World D).
Abbreviation live := (PublishedSafety.live blake3 c).
Abbreviation kept := (PublishedSafety.kept blake3 c).

(** The rounds that a page of the stack can take. *)
Definition rounds (points : list UploadPoint) : nat := S (2 * pred (length points)).
Definition rounds_of (stack : list (list UploadPoint)) : nat := foldr (fun points n => (rounds points + n)%nat) 0%nat stack.

(** A page is split in two pages that take fewer rounds. *)
Lemma halves_smaller points :
  1 < len points ->
  let half := (length points / 2)%nat in
  concat [firstn half points; skipn half points] = points /\ (rounds_of [firstn half points; skipn half points] < rounds points)%nat.
Proof.
  intros Hl. assert (length points / 2 <= length points)%nat by (apply Nat.Div0.div_le_upper_bound; lia). unfold len in *.
  assert (1 <= length points / 2)%nat by (apply Nat.div_le_lower_bound; lia). pose proof (Nat.div_mod_eq (length points) 2).
  pose proof (Nat.mod_upper_bound (length points) 2 ltac:(lia)). split.
  - cbn. by rewrite app_nil_r, firstn_skipn.
  - unfold rounds_of, rounds. cbn [foldr]. rewrite length_firstn, length_skipn. lia.
Qed.

Lemma stage_step_runs g pending view points :
  Forall point_wf points ->
  runs (live g) (stage_step (D := D) pending view points)
    (fun halves w => (concat halves = points /\ (rounds_of halves < rounds points)%nat /\ live g w) \/
       (halves = [] /\ exists g' page, live g' w /\ PublicationSpec.transaction (stage_spec pending page) g = Ok (tt, g') /\
          page_points page = points /\ page_fits pending view page))
    (fun _ => kept).
Proof.
  intros Hwf. assert (forall w, live g w -> kept w) as HX by (intros w Hw; by exists g). unfold stage_step.
  eapply runs_seq; [by apply check_runs|]. intros _.
  apply runs_pure; [intros page_inputs Hin|intros e w _; apply HX].
  eapply (runs_bind _ _ (fun wire w => (forall size, wire = Ok size -> exists e,
    run (batch_request_bytes (Generation.collection (Pending.generation pending)) page_inputs) e = Ok size) /\ live g w)).
  { apply runs_attempt. intros r e w <- Hw. split; [|done]. intros size E. by exists e. }
  intros wire. cbv beta. apply runs_pull. intros Hwire. apply runs_pure; [intros split Hsplit|intros e w _; apply HX]. destruct split.
  - destruct (Z.leb_spec (len points) 1); [by apply runs_lift; [|intros e w _; apply HX]|]. cbv zeta. apply runs_ret. intros w Hw. left.
    by destruct (halves_smaller points).
  - unfold oversized in Hsplit. cbv zeta in Hsplit.
    apply runs_pure; [intros size Hsize|intros e w _; apply HX]. apply runs_pure; [intros request Hreq%ok_or_inv|intros e w _; apply HX].
    apply try_from_inv in Hreq as [-> Hreq]. destruct wire as [n|]; [|done]. cbn in Hsize. apply ok_inj in Hsize as ->.
    destruct (Hwire size eq_refl) as [e He]. assert (size <= Ceiling.MAX_REQUEST_BYTES) as Hmax.
    { destruct (upload_page_bytes _) as [n|[]]; try done. destruct (PAGE_BYTES <? n); [done|]. apply ok_inj, Z.ltb_ge in Hsplit. done. }
    apply (runs_facts (lifecycle g) _ (live g)); [by apply live_sound|]. intros Hl.
    set (page := {| page_points := points; request_bytes := Some size |}).
    eapply runs_bind; [eapply (request_runs blake3 c g (stage_page pending page) (StagePage pending page)); [by apply (stage_page_guides c g)|done|done]|].
    intros []. cbv beta. apply runs_ret. intros w (g' & Hw & Hv & Ht). right. split; [done|]. exists g', page.
    do 3 (split; [done|]). split; [done|]. by exists page_inputs, size, e.
Qed.

Lemma rounds_pos points : (0 < rounds points)%nat.
Proof. unfold rounds. lia. Qed.
Lemma rounds_app a b : rounds_of (a ++ b) = (rounds_of a + rounds_of b)%nat.
Proof. unfold rounds_of. induction a as [|x a IH]; cbn [app foldr]; [done|]. rewrite IH. lia. Qed.
Lemma rounds_cons x stack : rounds_of (x :: stack) = (rounds x + rounds_of stack)%nat.
Proof. done. Qed.

Lemma stage_stack_runs pending view fuel : forall g stack,
  Forall point_wf (concat stack) -> (rounds_of stack <= fuel)%nat ->
  runs (live g) (stage_stack fuel pending view stack)
    (fun _ w => exists g' pages, live g' w /\ staged pending pages g g' /\ points_in pages = concat stack /\ Forall (page_fits pending view) pages)
    (fun _ => kept).
Proof.
  induction fuel as [|fuel IH]; intros g stack Hwf Hf; destruct stack as [|points stack]; cbn [stage_stack].
  1, 3: apply runs_ret; intros w Hw; exists g, []; split_and!; try done; constructor.
  { rewrite rounds_cons in Hf. pose proof (rounds_pos points). lia. }
  cbn [concat] in Hwf. apply Forall_app in Hwf as [Hp Hwf]. rewrite rounds_cons in Hf.
  eapply runs_bind; [by apply stage_step_runs|]. intros halves. cbv beta. intros w e [(Hc & Hr & Hw)|(-> & g1 & page & Hw & Ht & <- & Hfit)].
  - pose proof (IH g (halves ++ stack)) as Hrun. rewrite concat_app, Hc, rounds_app in Hrun. apply Hrun; [by apply Forall_app|lia|done].
  - pose proof (rounds_pos (page_points page)).
    pose proof (IH g1 stack Hwf ltac:(lia) w e Hw) as Hrun. cbn [app]. destruct (fst (stage_stack _ _ _ _ w e)) as [[a|x] w']; [|done].
    destruct Hrun as (g2 & pages & ? & Hst & Hpts & Hfits). exists g2, (page :: pages). split; [done|]. split; [by econstructor|].
    split; [|by constructor]. unfold points_in in *. cbn [fmap list_fmap concat]. by rewrite Hpts.
Qed.

Lemma stage_complete_runs g pending view points :
  Forall point_wf points ->
  runs (live g) (stage_complete_page pending view points)
    (fun _ w => exists g' pages, live g' w /\ staged pending pages g g' /\ points_in pages = points /\ Forall (page_fits pending view) pages)
    (fun _ => kept).
Proof.
  intros Hwf. unfold stage_complete_page. pose proof (stage_stack_runs pending view (2 * length points + 1) g [points]) as Hr.
  cbn [concat] in Hr. rewrite app_nil_r in Hr. apply Hr; [done|]. cbn. unfold rounds. lia.
Qed.

(** ** Sources *)

Lemma stage_units_runs pending captured artifact view units :
  record_wf (captured_source captured) -> object_wf artifact -> Forall unit_wf units -> forall g ordinal next points,
  Forall point_wf points ->
  runs (live g) (stage_units pending captured artifact view units ordinal next points)
    (fun read w => exists g' pages news, live g' w /\ staged pending pages g g' /\ Forall (page_fits pending view) pages /\
       unit_points pending captured artifact next ordinal units = Ok news /\ points_in pages ++ snd read = points ++ news /\
       fst read = next + len units /\ Forall point_wf (snd read))
    (fun _ => kept).
Proof.
  intros Hr Ha. induction 1 as [|unit units Hu Hus IH]; intros g ordinal next points Hwf; cbn [stage_units].
  { apply runs_ret. intros w Hw. exists g, [], []. split; [done|]. split; [constructor|]. split; [constructor|]. split; [done|]. cbn.
    split; [by rewrite app_nil_r|]. split; [unfold len; cbn; lia|done]. }
  assert (forall w, live g w -> kept w) as HX by (intros w Hw; by exists g).
  eapply runs_seq; [by apply check_runs|]. intros _. apply runs_pure; [intros after Hn%ok_or_inv|intros e w _; apply HX].
  apply checked_add_inv in Hn as [-> _]. eapply runs_seq; [by apply reserve_runs|]. intros _.
  apply runs_pure; [intros point Hp|intros e w _; apply HX]. cbv zeta.
  assert (Forall point_wf (points ++ [point])) as Hwf' by (apply Forall_app; split; [done|]; constructor; [by eapply upload_point_wf|constructor]).
  assert (forall pages out news, points_in pages ++ out = (points ++ [point]) ++ news -> points_in pages ++ out = points ++ point :: news) as Happ
    by (intros pages out news E; by rewrite E, <- (assoc_L (++))).
  destruct (page_full (points ++ [point])).
  - eapply runs_bind; [by apply stage_complete_runs|]. intros []. cbv beta. intros w e (g1 & pages & Hw & Hst & Hpts & Hfit).
    pose proof (IH g1 (ordinal + 1) (next + 1) [] ltac:(constructor) w e Hw) as Hout.
    destruct (fst (stage_units _ _ _ _ _ _ _ _ w e)) as [[read|x] w']; [|done].
    destruct Hout as (g2 & pages2 & news & ? & Hst2 & ? & Hnews & Hall & Hnext & ?). exists g2, (pages ++ pages2), (point :: news).
    split; [done|]. split; [by eapply staged_app|]. split; [by apply Forall_app|]. split; [cbn [unit_points]; rewrite Hp; cbn [mbind result_bind]; by rewrite Hnews|].
    split; [|split; [rewrite Hnext, len_cons; lia|done]]. rewrite points_in_app, <- (assoc_L (++)), Hall, Hpts. by rewrite <- (assoc_L (++)).
  - eapply runs_weaken; [apply (IH g (ordinal + 1) (next + 1) (points ++ [point]) Hwf')|done| |done].
    intros read w (g2 & pages & news & ? & ? & ? & Hnews & Hall & Hnext & ?). exists g2, pages, (point :: news). cbn [unit_points]. rewrite Hp.
    cbn [mbind result_bind]. rewrite Hnews. split_and!; try done; [by apply Happ|rewrite Hnext, len_cons; lia].
Qed.

(** The captured source can be staged. *)
Definition source_ready (captured : CapturedSource) : Prop :=
  record_wf (captured_source captured) /\ preparation_wf (captured_preparation captured).

Lemma buildable_ready random cap : buildable random cap -> Forall source_ready (Capture.sources cap).
Proof.
  intros (Hv & _). eapply Forall_impl; [exact Hv|]. by intros x (Hr & _ & [Hp _] & _).
Qed.

Lemma finish_source_runs g pending id units :
  runs (live g) (on_control (finish_source pending id units))
    (fun _ w => exists g', live g' w /\ PublicationSpec.transaction (finish_spec pending id units) g = Ok (tt, g')) (fun _ => kept).
Proof.
  apply (runs_facts (lifecycle g) _ (live g)); [by apply live_sound|]. intros Hl.
  eapply runs_weaken; [eapply (request_runs blake3 c g (finish_source pending id units) (FinishSource pending id units)); [by apply (finish_source_implements c g)|done|done]|done| |done].
  by intros [] w Hw.
Qed.

Lemma stage_source_runs g pending captured next :
  source_ready captured ->
  runs (live g) (stage_source blake3 pending captured next)
    (fun next' w => exists g1, live g1 w /\ forall sources g2, plan blake3 pending sources next' g1 g2 -> plan blake3 pending (captured :: sources) next g g2)
    (fun _ => kept).
Proof.
  intros (Hr & Hp). assert (forall w, live g w -> kept w) as HX by (intros w Hw; by exists g). unfold stage_source.
  apply runs_pure; [intros outcome Ho%ok_or_inv|intros e w _; apply HX]. destruct Hp as (_ & _ & _ & Hset & _ & Hout). rewrite Ho in Hout.
  destruct Hout as (_ & _ & _ & _ & Hres). destruct (outcome_result outcome) as [artifact|reason] eqn:Eo.
  - eapply runs_bind; [apply (load_view_runs blake3 (live g) captured artifact kept); try done; by intros w (_ & _ & ? & _)|].
    intros view. cbv beta. apply runs_pull. intros [stored Hst]. pose proof Hst as (_ & _ & _ & _ & Hacc).
    destruct Hacc as (_ & _ & _ & Hpart & _ & _ & Hmax & _ & _).
    assert (Forall unit_wf (prepared_units view)) as Huw.
    { eapply unit_partition_wf; [|exact Hpart]. change (max_input_bytes _) with 8388608 in Hmax. width. }
    eapply runs_bind; [apply (stage_units_runs pending captured artifact view (prepared_units view) Hr Hres Huw g 0 next []); constructor|].
    intros [next' points]. cbv beta. cbn [fst snd]. apply runs_ex. intros g1. apply runs_ex. intros pages. apply runs_ex. intros news.
    apply (runs_facts (staged pending pages g g1 /\ Forall (page_fits pending view) pages /\
      unit_points pending captured artifact next 0 (prepared_units view) = Ok news /\ points_in pages ++ points = [] ++ news /\
      next' = next + len (prepared_units view) /\ Forall point_wf points) _ (live g1)); [by intros w (? & ? & ? & ? & ? & ? & ?)|].
    intros (Hstaged & Hfits & Hnews & Hall & -> & Hwf).
    eapply (runs_bind _ _ (fun _ w => exists g3 pages', live g3 w /\ staged pending pages' g g3 /\ points_in pages' = news /\ Forall (page_fits pending view) pages')).
    + case_bool_decide as Hnil.
      * apply runs_ret. intros w Hw. exists g1, pages. rewrite Hnil, app_nil_r in Hall. by split_and!.
      * eapply runs_weaken; [apply (stage_complete_runs g1 pending view points Hwf)|done| |done].
        intros [] w (g3 & pages' & ? & ? & Hpts & ?). exists g3, (pages ++ pages'). rewrite points_in_app, Hpts. split; [done|].
        split; [by eapply staged_app|]. split; [done|by apply Forall_app].
    + intros []. apply runs_ex. intros g3. apply runs_ex. intros pages'.
      apply (runs_facts (staged pending pages' g g3 /\ points_in pages' = news /\ Forall (page_fits pending view) pages') _ (live g3)); [by intros w (? & ? & ? & ?)|].
      intros (Hs3 & Hp3 & Hf3). apply runs_pure; [intros units Hu%ok_or_inv|intros e w _ Hw; by exists g3]. apply try_from_inv in Hu as [-> _].
      eapply runs_bind; [apply finish_source_runs|]. intros []. apply runs_ret. intros w (g4 & Hw & Ht). exists g4. split; [done|]. intros sources g2 Hplan.
      eapply (plan_ready blake3 pending captured sources next artifact stored view news pages' g g3 g4 g2); try done. by rewrite Ho, <- Eo.
  - eapply runs_bind; [apply finish_source_runs|]. intros []. apply runs_ret. intros w (g1 & Hw & Ht). exists g1. split; [done|]. intros sources g2 Hplan.
    eapply plan_gap; [by rewrite Ho; cbn; rewrite Eo|exact Ht|exact Hplan].
Qed.

Lemma stage_sources_runs pending sources : Forall source_ready sources -> forall g next,
  runs (live g) (stage_sources blake3 pending sources next) (fun _ w => exists g', live g' w /\ plan blake3 pending sources next g g') (fun _ => kept).
Proof.
  induction 1 as [|source sources Hs _ IH]; intros g next; cbn [stage_sources].
  - apply runs_ret. intros w Hw. exists g. split; [done|constructor].
  - eapply runs_bind; [by apply stage_source_runs|]. intros next'. apply runs_ex. intros g1.
    intros w e [Hw Hplan]. pose proof (IH g1 next' w e Hw) as Hout. destruct (fst (stage_sources _ _ _ _ w e)) as [[a|x] w']; [|done].
    destruct Hout as (g2 & ? & Hp). exists g2. split; [done|by apply Hplan].
Qed.

Lemma stage_capture_runs pending sources g :
  Forall source_ready sources ->
  runs (live g) (stage_capture blake3 pending sources)
    (fun p w => exists g1 g', live g' w /\ plan blake3 pending sources 0 g g1 /\ PublicationSpec.transaction (seal_spec c pending) g1 = Ok (p, g'))
    (fun _ => kept).
Proof.
  intros Hs. unfold stage_capture. eapply runs_bind; [by apply stage_sources_runs|]. intros []. apply runs_ex. intros g1.
  apply (runs_facts (lifecycle g1 /\ plan blake3 pending sources 0 g g1) _ (live g1)); [by intros w [(? & ? & ?) ?]|]. intros [Hl Hplan].
  eapply runs_weaken; [eapply (request_runs blake3 c g1 (complete_capture pending) (CompleteCapture pending));
    [by apply (complete_capture_implements c g1)|done|done]|done| |done].
  intros p w (g' & Hw & Ht). by exists g1, g'.
Qed.

(** ** The rounds of splitting *)

Lemma stage_step_rounds pending view points w e halves w' e' :
  stage_step (D := D) pending view points w e = ((Ok halves, w'), e') -> halves <> [] -> (rounds_of halves < rounds points)%nat.
Proof.
  intros E Hne. assert (runs (fun _ => True) (stage_step (D := D) pending view points)
    (fun halves _ => halves = [] \/ (rounds_of halves < rounds points)%nat) (fun _ _ => True)) as Hr.
  { unfold stage_step. eapply runs_seq; [by apply runs_env|]. intros _. apply runs_pure; [intros ins _|done].
    eapply (runs_seq (S := World D)); [by apply runs_attempt|]. intros wire. apply runs_pure; [intros split _|done]. destruct split.
    - destruct (Z.leb_spec (len points) 1); [by apply runs_lift|]. cbv zeta. apply runs_ret. intros _ _. right. by apply halves_smaller.
    - apply runs_pure; [intros size _|done]. apply runs_pure; [intros request _|done].
      eapply (runs_seq (S := World D)); [|intros []; apply runs_ret; by left]. intros w0 e0 _. by destruct (fst (on_control _ w0 e0)) as [[]]. }
  pose proof (Hr w e I) as Ho. rewrite E in Ho. by destruct Ho.
Qed.

(** Any more fuel gives the same. *)
Lemma stage_stack_fuel pending view fuel : forall fuel' stack w e,
  (rounds_of stack <= fuel)%nat -> (rounds_of stack <= fuel')%nat ->
  stage_stack (D := D) fuel pending view stack w e = stage_stack fuel' pending view stack w e.
Proof.
  induction fuel as [|fuel IH]; intros fuel' stack w e Hf Hf'.
  - destruct stack as [|points stack]; [by destruct fuel'|]. rewrite rounds_cons in Hf. pose proof (rounds_pos points). lia.
  - destruct stack as [|points stack]; [by destruct fuel'|]. rewrite rounds_cons in Hf, Hf'. pose proof (rounds_pos points).
    destruct fuel' as [|fuel']; [lia|]. cbn [stage_stack]. unfold mbind, St_bind.
    destruct (stage_step pending view points w e) as [[[halves|x] w'] e'] eqn:E; [|done]. apply IH; rewrite rounds_app.
    all: destruct halves as [|h halves]; [cbn; lia|]; pose proof (stage_step_rounds _ _ _ _ _ _ _ _ E ltac:(done)); lia.
Qed.
End Staging.

(** C39. A capture is staged as planned.  Whatever the environment, staging the sources of a
    capture leaves a database of sound generations; when it answers, the sources were taken
    in their order: each that has a gap finished with no unit, and each that has an artifact
    read and verified, one point per unit of its text, numbered on from the last source,
    every point on one page, in order, and each page valid with a request of the size that
    is saved with it; then the whole was sealed by its transaction. *)
Theorem stage_capture_planned (blake3 : list Z -> list Z) `{PublicationJson} {D : Type} `{Redb D} `{Prost UpsertPoints} (c : corpus)
    (pending : PendingGeneration) (sources : list CapturedSource) (g : generations) (w : World D) (e : env) :
  live blake3 c g w -> Forall source_ready sources ->
  let '((answer, w'), _) := stage_capture blake3 pending sources w e in
  exists g', live blake3 c g' w' /\
    match answer with
    | Ok p => exists g1, plan blake3 pending sources 0 g g1 /\ PublicationSpec.transaction (seal_spec c pending) g1 = Ok (p, g')
    | Err _ => True
    end.
Proof.
  intros Hw Hs. pose proof (stage_capture_runs blake3 c pending sources g Hs w e Hw) as Hout.
  destruct (stage_capture blake3 pending sources w e) as [[[p|x] w'] e']; cbn [fst] in Hout.
  - destruct Hout as (g1 & g' & ? & ? & ?). exists g'. split; [done|]. by exists g1.
  - destruct Hout as [g' ?]. by exists g'.
Qed.
Lemma stage_capture_planned_witness :
  exists c g p w' e', (live sample_hash c g sample_build /\ Forall source_ready (Capture.sources sample_capture)) /\
    stage_capture sample_hash sample_build_pending (Capture.sources sample_capture) sample_build [] = ((Ok p, w'), e') /\
    exists g1 g', plan sample_hash sample_build_pending (Capture.sources sample_capture) 0 g g1 /\ live sample_hash c g' w' /\
      PublicationSpec.transaction (seal_spec c sample_build_pending) g1 = Ok (p, g').
Proof.
  destruct sample_build_live as (c & g & Hw & Hb). pose proof (buildable_ready sample_generation_namespace sample_capture Hb) as Hs.
  pose proof (stage_capture_planned sample_hash c sample_build_pending (Capture.sources sample_capture) g sample_build [] Hw Hs) as Hout.
  assert (is_ok (fst (fst (stage_capture sample_hash sample_build_pending (Capture.sources sample_capture) sample_build []))) = true) as Hok
    by (vm_compute; reflexivity).
  destruct (stage_capture sample_hash sample_build_pending (Capture.sources sample_capture) sample_build []) as [[[p|x] w'] e']; [|discriminate Hok].
  destruct Hout as (g' & Hw' & g1 & Hp & Ht). exists c, g, p, w', e'. split; [exact (conj Hw Hs)|]. split; [reflexivity|].
  exists g1, g'. exact (conj Hp (conj Hw' Ht)).
Defined.

(** C40. Splitting a page ends.  A page of n points is staged within 2n + 1 rounds: with any
    larger bound the loop gives the same answer, the same database and the same environment,
    so the bound never shows.  When it answers, the points are staged in their order on one
    or several pages, each of which is valid and within the bounds on a request. *)
Theorem stage_complete_page_ends (blake3 : list Z -> list Z) `{PublicationJson} {D : Type} `{Redb D} `{Prost UpsertPoints} (c : corpus)
    (pending : PendingGeneration) (view : PreparedUtf8) (points : list UploadPoint) (fuel : nat) (g : generations) (w : World D) (e : env) :
  (2 * length points + 1 <= fuel)%nat -> Forall point_wf points -> live blake3 c g w ->
  stage_stack fuel pending view [points] w e = stage_complete_page pending view points w e /\
  let '((answer, w'), _) := stage_complete_page pending view points w e in
  exists g', live blake3 c g' w' /\
    match answer with
    | Ok _ => exists pages, staged pending pages g g' /\ points_in pages = points /\ Forall (page_fits pending view) pages
    | Err _ => True
    end.
Proof.
  intros Hf Hp Hw. split; [apply stage_stack_fuel; rewrite rounds_cons; unfold rounds, rounds_of; cbn [foldr]; lia|].
  pose proof (stage_complete_runs blake3 c g pending view points Hp w e Hw) as Hout.
  destruct (stage_complete_page pending view points w e) as [[[[]|x] w'] e']; cbn [fst] in Hout.
  - destruct Hout as (g' & pages & ? & ?). exists g'. split; [done|]. by exists pages.
  - destruct Hout as [g' ?]. by exists g'.
Qed.
Lemma stage_complete_page_ends_witness :
  exists c g g' w' pages, (Forall point_wf sample_points /\ live sample_hash c g sample_build) /\
    fst (stage_stack 7 sample_build_pending sample_view [sample_points] sample_build []) = (Ok tt, w') /\
    staged sample_build_pending pages g g' /\ points_in pages = sample_points.
Proof.
  destruct sample_build_live as (c & g & Hw & Hb).
  assert (Forall point_wf sample_points) as Hp by (repeat constructor; closed_fact).
  pose proof (stage_complete_page_ends sample_hash c sample_build_pending sample_view sample_points 7 g sample_build []
    ltac:(vm_compute; lia) Hp Hw) as [Hsame Hout].
  assert (is_ok (fst (fst (stage_complete_page sample_build_pending sample_view sample_points sample_build []))) = true) as Hok
    by (vm_compute; reflexivity).
  rewrite Hsame. destruct (stage_complete_page sample_build_pending sample_view sample_points sample_build []) as [[[[]|x] w'] e']; [|discriminate Hok].
  destruct Hout as (g' & _ & pages & Hst & Hpts & _). exists c, g, g', w', pages. split; [exact (conj Hp Hw)|].
  split; [reflexivity|]. exact (conj Hst Hpts).
Defined.
