(* ===== verification/Session.v ===== *)
(** The framed session: one client, one result window, one worker thread
    (bins/eliot-searchd/src/framed_search/session.rs, session/worker.rs and [output_step] of
    framed_search.rs).

    The exchange is the state of the async loop; its operations run in a monad over the
    whole [System]: the exchange, the command channel, the cancellation flags and reply
    slots that the worker shares (keyed by the number of their job), the worker, the
    standard output and what the surroundings still have in store (clock ticks, memory,
    a worker that ends unexpectedly).  [step] interleaves one turn of the [select!] loop
    with the turns of the worker. *)

From stdpp Require Import gmap.
From S2P Require Import Prelude Bytes Utf8 Ids Dto DtoSession Frame Literal RawExact Qdrant VerifiedQuery Window.

Local Abbreviation take := List.firstn.

(** Instants and durations in nanoseconds. *)
Definition from_millis (ms : Z) : Z := ms * 1000000.
Definition CLEANUP_ALLOWANCE : Z := 5 * 1000000000.

(** ** Data *)

(** worker.rs.  [job_number] names the job's [cancel] flag and its [reply] channel. *)
Record Ready := { ready_bytes : list Z; ready_commit : option (Z * Z); ready_end : bool }.
Record Job := { job_number : nat; job_message : SessionClientFrame.t; job_deadline : Z; job_expires : option Z }.
Inductive Command := Execute (job : Job) | Commit (expected next : Z) | Shutdown.

(** session.rs *)
Record Active := {
  active_id : Z; active_deadline : Z; active_job : nat;
  active_stopped : option QueryFailure; active_cleanup : option Z }.
Record Output := { output_id : Z; output_ready : Ready; output_cursor : Z; output_deadline : Z }.
Record Deferred := { deferred_message : SessionClientFrame.t; deferred_started : Z; deferred_cancelled : bool }.
Record Exchange := {
  x_input : FrameBuffer; x_frame_started : option Z; x_opened : bool; x_last_id : Z;
  x_completed_id : option Z; x_expires : option Z; x_active : option Active;
  x_output : option Output; x_deferred : option Deferred }.

(** The locals of the worker's [run]; [w_busy] is the job it executes, [w_running] whether
    the thread is still there. *)
Record Worker := { w_window : option Window; w_expires : option Z; w_busy : option Job; w_running : bool }.

(** What is still to come from outside: by how much each reading of the clock advances it,
    the allocator's answers, and at which sends the worker turns out to be gone. *)
Record Surroundings := { ticks : list N; memory : env; panics : list bool }.

Inductive Phase := Serving | Expiring | Ended (r : result (list Z) unit).

(** [s_sent], the frames flushed so far, is kept for the statements only. *)
Record System := {
  s_exchange : Exchange; s_queue : list Command; s_jobs : nat; s_flags : gset nat;
  s_replies : gmap nat (result (list Z) Ready); s_worker : Worker; s_stdout : list Z;
  s_sent : list Output; s_now : Z; s_around : Surroundings; s_phase : Phase }.

(** ** Field updates *)

Definition set_input v x : Exchange :=
  {| x_input := v; x_frame_started := x_frame_started x; x_opened := x_opened x; x_last_id := x_last_id x;
     x_completed_id := x_completed_id x; x_expires := x_expires x; x_active := x_active x;
     x_output := x_output x; x_deferred := x_deferred x |}.
Definition set_frame_started v x : Exchange :=
  {| x_input := x_input x; x_frame_started := v; x_opened := x_opened x; x_last_id := x_last_id x;
     x_completed_id := x_completed_id x; x_expires := x_expires x; x_active := x_active x;
     x_output := x_output x; x_deferred := x_deferred x |}.
Definition set_opened v x : Exchange :=
  {| x_input := x_input x; x_frame_started := x_frame_started x; x_opened := v; x_last_id := x_last_id x;
     x_completed_id := x_completed_id x; x_expires := x_expires x; x_active := x_active x;
     x_output := x_output x; x_deferred := x_deferred x |}.
Definition set_last_id v x : Exchange :=
  {| x_input := x_input x; x_frame_started := x_frame_started x; x_opened := x_opened x; x_last_id := v;
     x_completed_id := x_completed_id x; x_expires := x_expires x; x_active := x_active x;
     x_output := x_output x; x_deferred := x_deferred x |}.
Definition set_completed_id v x : Exchange :=
  {| x_input := x_input x; x_frame_started := x_frame_started x; x_opened := x_opened x; x_last_id := x_last_id x;
     x_completed_id := v; x_expires := x_expires x; x_active := x_active x;
     x_output := x_output x; x_deferred := x_deferred x |}.
Definition set_expires v x : Exchange :=
  {| x_input := x_input x; x_frame_started := x_frame_started x; x_opened := x_opened x; x_last_id := x_last_id x;
     x_completed_id := x_completed_id x; x_expires := v; x_active := x_active x;
     x_output := x_output x; x_deferred := x_deferred x |}.
Definition set_active v x : Exchange :=
  {| x_input := x_input x; x_frame_started := x_frame_started x; x_opened := x_opened x; x_last_id := x_last_id x;
     x_completed_id := x_completed_id x; x_expires := x_expires x; x_active := v;
     x_output := x_output x; x_deferred := x_deferred x |}.
Definition set_output v x : Exchange :=
  {| x_input := x_input x; x_frame_started := x_frame_started x; x_opened := x_opened x; x_last_id := x_last_id x;
     x_completed_id := x_completed_id x; x_expires := x_expires x; x_active := x_active x;
     x_output := v; x_deferred := x_deferred x |}.
Definition set_deferred v x : Exchange :=
  {| x_input := x_input x; x_frame_started := x_frame_started x; x_opened := x_opened x; x_last_id := x_last_id x;
     x_completed_id := x_completed_id x; x_expires := x_expires x; x_active := x_active x;
     x_output := x_output x; x_deferred := v |}.

Definition with_exchange (f : Exchange -> Exchange) (s : System) : System :=
  {| s_exchange := f (s_exchange s); s_queue := s_queue s; s_jobs := s_jobs s; s_flags := s_flags s;
     s_replies := s_replies s; s_worker := s_worker s; s_stdout := s_stdout s; s_sent := s_sent s;
     s_now := s_now s; s_around := s_around s; s_phase := s_phase s |}.
Definition with_queue (q : list Command) (s : System) : System :=
  {| s_exchange := s_exchange s; s_queue := q; s_jobs := s_jobs s; s_flags := s_flags s;
     s_replies := s_replies s; s_worker := s_worker s; s_stdout := s_stdout s; s_sent := s_sent s;
     s_now := s_now s; s_around := s_around s; s_phase := s_phase s |}.
Definition with_jobs (n : nat) (s : System) : System :=
  {| s_exchange := s_exchange s; s_queue := s_queue s; s_jobs := n; s_flags := s_flags s;
     s_replies := s_replies s; s_worker := s_worker s; s_stdout := s_stdout s; s_sent := s_sent s;
     s_now := s_now s; s_around := s_around s; s_phase := s_phase s |}.
Definition with_flags (f : gset nat) (s : System) : System :=
  {| s_exchange := s_exchange s; s_queue := s_queue s; s_jobs := s_jobs s; s_flags := f;
     s_replies := s_replies s; s_worker := s_worker s; s_stdout := s_stdout s; s_sent := s_sent s;
     s_now := s_now s; s_around := s_around s; s_phase := s_phase s |}.
Definition with_replies (r : gmap nat (result (list Z) Ready)) (s : System) : System :=
  {| s_exchange := s_exchange s; s_queue := s_queue s; s_jobs := s_jobs s; s_flags := s_flags s;
     s_replies := r; s_worker := s_worker s; s_stdout := s_stdout s; s_sent := s_sent s;
     s_now := s_now s; s_around := s_around s; s_phase := s_phase s |}.
Definition with_worker (w : Worker) (s : System) : System :=
  {| s_exchange := s_exchange s; s_queue := s_queue s; s_jobs := s_jobs s; s_flags := s_flags s;
     s_replies := s_replies s; s_worker := w; s_stdout := s_stdout s; s_sent := s_sent s;
     s_now := s_now s; s_around := s_around s; s_phase := s_phase s |}.
Definition with_output_bytes (bytes : list Z) (s : System) : System :=
  {| s_exchange := s_exchange s; s_queue := s_queue s; s_jobs := s_jobs s; s_flags := s_flags s;
     s_replies := s_replies s; s_worker := s_worker s; s_stdout := s_stdout s ++ bytes; s_sent := s_sent s;
     s_now := s_now s; s_around := s_around s; s_phase := s_phase s |}.
Definition with_sent (o : Output) (s : System) : System :=
  {| s_exchange := s_exchange s; s_queue := s_queue s; s_jobs := s_jobs s; s_flags := s_flags s;
     s_replies := s_replies s; s_worker := s_worker s; s_stdout := s_stdout s; s_sent := s_sent s ++ [o];
     s_now := s_now s; s_around := s_around s; s_phase := s_phase s |}.
Definition with_around (now : Z) (a : Surroundings) (s : System) : System :=
  {| s_exchange := s_exchange s; s_queue := s_queue s; s_jobs := s_jobs s; s_flags := s_flags s;
     s_replies := s_replies s; s_worker := s_worker s; s_stdout := s_stdout s; s_sent := s_sent s;
     s_now := now; s_around := a; s_phase := s_phase s |}.
Definition with_phase (p : Phase) (s : System) : System :=
  {| s_exchange := s_exchange s; s_queue := s_queue s; s_jobs := s_jobs s; s_flags := s_flags s;
     s_replies := s_replies s; s_worker := s_worker s; s_stdout := s_stdout s; s_sent := s_sent s;
     s_now := s_now s; s_around := s_around s; s_phase := p |}.

(** ** The monad of the exchange: errors are the codes the session ends with *)

Definition Turn (A : Type) : Type := System -> result (list Z) A * System.
#[export] Instance turn_ret : MRet Turn := fun A a s => (Ok a, s).
#[export] Instance turn_bind : MBind Turn := fun A B k m s =>
  match m s with
  | (Ok a, s') => k a s'
  | (Err e, s') => (Err e, s')
  end.
Definition lift_s {A} (r : result (list Z) A) : Turn A := fun s => (r, s).
Definition the_exchange : Turn Exchange := fun s => (Ok (s_exchange s), s).
Definition modify (f : System -> System) : Turn unit := fun s => (Ok tt, f s).
Definition update (f : Exchange -> Exchange) : Turn unit := modify (with_exchange f).

(** [Instant::now()] *)
Definition read_clock : Turn Z := fun s =>
  let a := s_around s in
  match ticks a with
  | [] => (Ok (s_now s), s)
  | t :: rest =>
      let now := s_now s + Z.of_N t in
      (Ok now, with_around now {| ticks := rest; memory := memory a; panics := panics a |} s)
  end.

(** A fallible call that allocates. *)
Definition in_memory {A} (m : M (list Z) A) : Turn A := fun s =>
  let a := s_around s in
  let '(r, rest) := m (memory a) in
  (r, with_around (s_now s) {| ticks := ticks a; memory := rest; panics := panics a |} s).

(** The worker's thread ends: its receiver, window and reply senders are dropped. *)
Definition worker_gone (s : System) : System :=
  with_queue [] (with_worker
    {| w_window := None; w_expires := w_expires (s_worker s); w_busy := None; w_running := false |} s).

(** [commands.send(command)]: refused once the worker has dropped its receiver, which it
    may have done since the last time it was looked at. *)
Definition send (command : Command) : Turn bool := fun s =>
  let a := s_around s in
  let gone := match panics a with b :: _ => b | [] => false end in
  let s := with_around (s_now s) {| ticks := ticks a; memory := memory a; panics := tail (panics a) |} s in
  let s := if gone then worker_gone s else s in
  if w_running (s_worker s) then (Ok true, with_queue (s_queue s ++ [command]) s) else (Ok false, s).
Definition worker_panicked : list Z := str "QUERY_WORKER_PANICKED".
Definition query_deadline : list Z := str "QUERY_DEADLINE".
(** [.send(command).map_err(|_| "QUERY_WORKER_PANICKED")?] *)
Definition send_or_fail (command : Command) : Turn unit :=
  sent ← send command;
  lift_s (reject_if (negb sent) worker_panicked).

(** [cancel.store(true, Release)] of a job's flag *)
Definition raise_flag (job : nat) : Turn unit := modify (fun s => with_flags ({[job]} ∪ s_flags s) s).

(** [.is_some_and(|expires| Instant::now() >= expires)] *)
Definition passed (at_ : option Z) : Turn bool :=
  match at_ with
  | None => mret false
  | Some expires => now ← read_clock; mret (expires <=? now)
  end.

Section Session.
Context `{Json SessionReply.t, Json SessionClientFrame.t}.
(** The last representable instant. *)
Context (instant_max : Z).

(** [Instant::now().checked_add(CLEANUP_ALLOWANCE).ok_or("QUERY_DEADLINE")?] *)
Definition cleanup_instant : Turn Z :=
  now ← read_clock;
  lift_s (ok_or query_deadline (checked_add instant_max now CLEANUP_ALLOWANCE)).

(** ** Replies (worker.rs) *)

Definition reply_outcome (request_id : Z) (outcome : SessionOutcome.t) (end_ : bool) : M (list Z) Ready :=
  bytes ← lift_err Dto.code (encode_session_reply
            {| SessionReply.request_id := request_id; SessionReply.outcome := outcome |});
  mret {| ready_bytes := bytes; ready_commit := None; ready_end := end_ |}.

Definition reply_failure (request_id : Z) (failure : QueryFailure) : M (list Z) Ready :=
  outcome ← lift match failure with
    | QueryCancelled => Ok SessionOutcome.Cancelled
    | QueryDeadline => code ← map_err Dto.code (FailureCode.new query_deadline); Ok (SessionOutcome.Failed code)
    | Code code => code ← map_err Dto.code (FailureCode.new code); Ok (SessionOutcome.Failed code)
    end;
  reply_outcome request_id outcome false.

(** ** The exchange (session.rs) *)

Definition new_exchange : result (list Z) Exchange :=
  input ← map_err Dto.code (new MAX_CLIENT_FRAME_BYTES);
  Ok {| x_input := input; x_frame_started := None; x_opened := false; x_last_id := 0; x_completed_id := None;
        x_expires := None; x_active := None; x_output := None; x_deferred := None |}.

Definition cancel_active : Turn unit :=
  x ← the_exchange;
  match x_active x with
  | Some active => raise_flag (active_job active)
  | None => mret tt
  end.

Definition reject (id : Z) (code : list Z) : Turn unit :=
  ready ← in_memory (reply_failure id (Code code));
  deadline ← cleanup_instant;
  update (set_output (Some {| output_id := id; output_ready := ready; output_cursor := 0; output_deadline := deadline |})).

Definition is_close (message : SessionClientFrame.t) : bool :=
  match message with SessionClientFrame.Close _ => true | _ => false end.

Definition stop_active (stopped : option QueryFailure) (cleanup : option Z) (a : Active) : Active :=
  {| active_id := active_id a; active_deadline := active_deadline a; active_job := active_job a;
     active_stopped := stopped; active_cleanup := cleanup |}.

(** The part of [cancel] for the operation that runs or whose reply is written. *)
Definition cancel_current (id : Z) : Turn unit :=
  x ← the_exchange;
  match x_active x with
  | Some active =>
      _ ← lift_s (reject_if (negb (active_id active =? id)) (str "QUERY_RESPONSE_MISMATCH"));
      _ ← raise_flag (active_job active);
      let stopped := match active_stopped active with Some f => Some f | None => Some QueryCancelled end in
      _ ← update (set_active (Some (stop_active stopped (active_cleanup active) active)));
      cleanup ← cleanup_instant;
      let cleanup := match active_cleanup active with Some c => Some c | None => Some cleanup end in
      update (set_active (Some (stop_active stopped cleanup active)))
  | None =>
      match x_output x with
      | Some output =>
          _ ← lift_s (reject_if (negb (output_id output =? id)) (str "QUERY_RESPONSE_MISMATCH"));
          _ ← lift_s (reject_if (negb (output_cursor output =? 0)) (str "SESSION_PARTIAL_OUTPUT_CANCELLED"));
          ready ← in_memory (reply_failure id QueryCancelled);
          update (set_output (Some {| output_id := output_id output; output_ready := ready;
                                      output_cursor := output_cursor output; output_deadline := output_deadline output |}))
      | None => reject id (str "SESSION_NO_ACTIVE_REQUEST")
      end
  end.

Definition session_cancel (id : Z) : Turn unit :=
  x ← the_exchange;
  if match x_completed_id x with Some completed => id <=? completed | None => false end then mret tt
  else
    match x_deferred x with
    | Some d =>
        if (SessionClientFrame.request_id (deferred_message d) =? id) && negb (is_close (deferred_message d)) then
          update (set_deferred (Some {| deferred_message := deferred_message d; deferred_started := deferred_started d;
                                        deferred_cancelled := true |}))
        else cancel_current id
    | None => cancel_current id
    end.

(** The end of [accept]: [message] becomes the worker's next job. *)
Definition dispatch (message : SessionClientFrame.t) (id started remaining : Z) (job_expiry : option Z) : Turn unit :=
  deadline ← lift_s (ok_or query_deadline (checked_add instant_max started (from_millis remaining)));
  x ← the_exchange;
  let deadline := match x_expires x with Some expires => Z.min deadline expires | None => deadline end in
  job ← (fun s => (Ok (s_jobs s), with_jobs (s_jobs s + 1) s)) : Turn nat;
  _ ← send_or_fail (Execute {| job_number := job; job_message := message; job_deadline := deadline;
                              job_expires := job_expiry |});
  update (set_active (Some {| active_id := id; active_deadline := deadline; active_job := job;
                              active_stopped := None; active_cleanup := None |})).

(** The part of [accept] after the guards: the request is now the session's last. *)
Definition admit_window (message : SessionClientFrame.t) (id started : Z) : Turn unit :=
  _ ← update (set_last_id id);
  now ← read_clock;
  x ← the_exchange;
  match message with
  | SessionClientFrame.Open _ remaining_ms _ _ ttl_ms =>
      if x_opened x then reject id (str "WINDOW_ALREADY_OPEN")
      else
        _ ← update (set_opened true);
        expires ← lift_s (ok_or query_deadline (checked_add instant_max now (from_millis ttl_ms)));
        _ ← update (set_expires (Some expires));
        dispatch message id started remaining_ms (Some expires)
  | SessionClientFrame.Continue _ remaining_ms _ _ | SessionClientFrame.Expand _ remaining_ms _ _ _ _ =>
      if negb (x_opened x) then reject id (str "WINDOW_NOT_OPEN")
      else dispatch message id started remaining_ms None
  | SessionClientFrame.Close _ => dispatch message id started 5000 None
  | SessionClientFrame.Cancel _ => lift_s (Err (str "SESSION_CONTROL_INVALID"))
  end.

(** The rest of [accept] once no output is in the way. *)
Definition accept_idle (message : SessionClientFrame.t) (id started : Z) : Turn unit :=
  x ← the_exchange;
  match x_active x with
  | Some active =>
      _ ← lift_s (reject_if (negb (is_close message)) (str "SESSION_REQUEST_IN_FLIGHT"));
      _ ← cancel_active;
      _ ← update (set_active None);
      admit_window message id started
  | None => admit_window message id started
  end.

(** The part of [accept] for everything but a cancellation. *)
Definition accept_request (message : SessionClientFrame.t) (id started : Z) : Turn unit :=
  x ← the_exchange;
  if id <=? x_last_id x then
    match x_active x, x_output x with
    | None, None => reject id (str "SESSION_REQUEST_ID_INVALID")
    | _, _ => lift_s (Err (str "SESSION_REQUEST_ID_INVALID"))
    end
  else
    let close := is_close message in
    match x_output x with
    | Some output =>
        if close && (output_cursor output =? 0) then
          _ ← update (set_output None);
          _ ← update (set_deferred None);
          accept_idle message id started
        else
          _ ← lift_s (reject_if (close && negb (output_cursor output =? len (ready_bytes (output_ready output))))
                       (str "SESSION_PARTIAL_OUTPUT_CLOSE"));
          _ ← lift_s (reject_if (match x_deferred x with Some _ => true | None => false end && negb close)
                       (str "SESSION_REQUEST_IN_FLIGHT"));
          update (set_deferred (Some {| deferred_message := message; deferred_started := started;
                                        deferred_cancelled := false |}))
    | None => accept_idle message id started
    end.

Definition accept (message : SessionClientFrame.t) (started : Z) : Turn unit :=
  let id := SessionClientFrame.request_id message in
  match message with
  | SessionClientFrame.Cancel _ => session_cancel id
  | _ => accept_request message id started
  end.

Definition frame_invalid : list Z := str "QUERY_FRAME_INVALID".

(** [self.input.push(..)], whose one allocation may be refused. *)
Definition push_input (bytes : list Z) : Turn Z := fun s =>
  let a := s_around s in
  let '(o, rest) := observe (memory a) in
  let s := with_around (s_now s) {| ticks := ticks a; memory := rest; panics := panics a |} s in
  let '(r, input) := push (negb (bool_decide (o = NoMemory))) (x_input (s_exchange s)) bytes in
  (map_err Dto.code r, with_exchange (set_input input) s).

(** The loop of [consume]; every turn takes at least one byte. *)
Fixpoint consume (fuel : nat) (bytes : list Z) : Turn unit :=
  match bytes with
  | [] => mret tt
  | _ :: _ =>
      match fuel with
      | O => lift_s (Err frame_invalid)
      | S fuel =>
          x ← the_exchange;
          _ ← (if is_empty (x_input x) then now ← read_clock; update (set_frame_started (Some now)) else mret tt);
          count ← push_input bytes;
          _ ← lift_s (reject_if (count =? 0) frame_invalid);
          x ← the_exchange;
          _ ← match frame (x_input x) with
              | Some body =>
                  message ← lift_s (map_err Dto.code (decode_session_frame body));
                  started ← lift_s (ok_or frame_invalid (x_frame_started x));
                  _ ← update (set_frame_started None);
                  input ← lift_s (map_err Dto.code (new MAX_CLIENT_FRAME_BYTES));
                  _ ← update (set_input input);
                  accept message started
              | None => mret tt
              end;
          consume fuel (drop (Z.to_nat count) bytes)
      end
  end.

Definition received (ready : result (list Z) Ready) : Turn unit :=
  x ← the_exchange;
  active ← lift_s (ok_or (str "SESSION_NO_ACTIVE_REQUEST") (x_active x));
  _ ← update (set_active None);
  ready ← lift_s ready;
  ready ← match active_stopped active with
          | Some failure => if ready_end ready then mret ready else in_memory (reply_failure (active_id active) failure)
          | None => mret ready
          end;
  update (set_output (Some {| output_id := active_id active; output_ready := ready; output_cursor := 0;
    output_deadline := match active_cleanup active with Some c => c | None => active_deadline active end |})).

(** [Exchange::deadline] *)
Definition session_deadline (x : Exchange) (idle : Z) : Z :=
  let end_ := match x_expires x with Some expires => expires | None => idle end in
  let end_ := match x_active x with
    | Some active => Z.min end_ match active_cleanup active with Some c => c | None => active_deadline active end
    | None => end_
    end in
  let end_ := match x_output x with Some output => Z.min end_ (output_deadline output) | None => end_ end in
  match x_frame_started x with
  | Some started =>
      match checked_add instant_max started (from_millis MAX_REMAINING_MS) with
      | Some partial => Z.min end_ partial
      | None => end_
      end
  | None => end_
  end.

Definition timed_out : Turn unit :=
  x ← the_exchange;
  match x_active x with
  | Some active =>
      _ ← lift_s (reject_if (match active_cleanup active with Some _ => true | None => false end)
                   (str "QUERY_CLEANUP_EXPIRED"));
      _ ← raise_flag (active_job active);
      now ← read_clock;
      update (set_active (Some (stop_active (Some QueryDeadline) (checked_add instant_max now CLEANUP_ALLOWANCE) active)))
  | None => lift_s (Err query_deadline)
  end.

Definition output_io : list Z := str "QUERY_OUTPUT_IO".

(** [flushed]; whether the session is over. *)
Definition flushed : Turn bool :=
  x ← the_exchange;
  output ← lift_s (ok_or output_io (x_output x));
  _ ← update (set_output None);
  _ ← modify (with_sent output);
  _ ← match ready_commit (output_ready output) with
      | Some (expected, next) => send_or_fail (Commit expected next)
      | None => mret tt
      end;
  _ ← update (set_completed_id (Some (output_id output)));
  if ready_end (output_ready output) then mret true
  else
    x ← the_exchange;
    _ ← match x_deferred x with
        | Some deferred =>
            _ ← update (set_deferred None);
            if deferred_cancelled deferred then
              let id := SessionClientFrame.request_id (deferred_message deferred) in
              _ ← update (set_last_id id);
              ready ← in_memory (reply_failure id QueryCancelled);
              deadline ← cleanup_instant;
              update (set_output (Some {| output_id := id; output_ready := ready; output_cursor := 0;
                                          output_deadline := deadline |}))
            else accept (deferred_message deferred) (deferred_started deferred)
        | None => mret tt
        end;
    mret false.

(** ** The loop of [exchange] *)

(** Which branch of the [select!] is ready, and with what. *)
Inductive Branch :=
  | Read (r : option (list Z))                        (* stdin: an error, or the bytes read *)
  | Reply (r : option (result (list Z) Ready))        (* the worker's reply, or its sender is gone *)
  | Wrote (r : option Z)                              (* stdout took that many bytes, or failed *)
  | Flushed (ok : bool)
  | Done (ok : bool) (fault : option (Z * list Z))    (* the worker has ended; what happens to the last frame *)
  | Timer.

(** What the turn leaves to do. *)
Inductive Next := Loop | Leave | Expire.

(** The last frame on stdout: all of it, or some bytes and an error. *)
Definition write_last (bytes : list Z) (fault : option (Z * list Z)) : Turn unit :=
  match fault with
  | None => modify (with_output_bytes bytes)
  | Some (count, code) =>
      _ ← modify (with_output_bytes (take (Z.to_nat count) bytes));
      lift_s (Err code)
  end.

Definition exchange_turn (branch : Branch) : Turn Next :=
  x ← the_exchange;
  late ← passed (x_expires x);
  match late with
  | true => mret Expire
  | false =>
    match branch with
    | Read r =>
        bytes ← lift_s (ok_or (str "QUERY_INPUT_IO") r);
        match bytes with
        | [] => if is_empty (x_input x) then mret Leave else lift_s (Err frame_invalid)
        | _ :: _ => _ ← consume (length bytes) bytes; mret Loop
        end
    | Reply r =>
        ready ← lift_s (ok_or worker_panicked r);
        _ ← received ready;
        mret Loop
    | Wrote r =>
        count ← lift_s (ok_or output_io r);
        _ ← lift_s (reject_if (count =? 0) (str "QUERY_OUTPUT_CLOSED"));
        output ← lift_s (ok_or output_io (x_output x));
        let cursor := output_cursor output in
        _ ← modify (with_output_bytes
              (take (Z.to_nat count) (drop (Z.to_nat cursor) (ready_bytes (output_ready output)))));
        _ ← update (set_output (Some {| output_id := output_id output; output_ready := output_ready output;
              output_cursor := cursor + count; output_deadline := output_deadline output |}));
        mret Loop
    | Flushed ok =>
        _ ← lift_s (reject_if (negb ok) output_io);
        late ← passed (x_expires x);
        match late with
        | true => mret Expire
        | false => over ← flushed; mret match over with true => Leave | false => Loop end
        end
    | Done ok fault =>
        _ ← lift_s (reject_if (negb ok) worker_panicked);
        late ← passed (x_expires x);
        _ ← lift_s (reject_if (negb late) worker_panicked);
        ready ← in_memory (reply_outcome 0 SessionOutcome.Expired true);
        _ ← write_last (ready_bytes ready) fault;
        mret Leave
    | Timer =>
        late ← passed (x_expires x);
        match late with true => mret Expire | false => _ ← timed_out; mret Loop end
    end
  end.

(** When [tokio::select!] may take a branch. *)
Definition enabled (idle : Z) (branch : Branch) (s : System) : Prop :=
  let x := s_exchange s in
  match branch with
  | Read r => match r with Some bytes => len bytes <= 8192 | None => True end
  | Reply r =>
      x_output x = None /\
      exists active, x_active x = Some active /\
        match s_replies s !! active_job active with
        | Some reply => r = Some reply
        | None => w_running (s_worker s) = false /\ r = None
        end
  | Wrote r =>
      exists output, x_output x = Some output /\
        output_cursor output < len (ready_bytes (output_ready output)) /\
        match r with
        | Some count => 0 <= count <= len (ready_bytes (output_ready output)) - output_cursor output
        | None => True
        end
  | Flushed _ =>
      exists output, x_output x = Some output /\ len (ready_bytes (output_ready output)) <= output_cursor output
  | Done _ fault =>
      x_active x = None /\ x_output x = None /\ w_running (s_worker s) = false /\
      match fault with Some (count, _) => 0 <= count | None => True end
  | Timer => session_deadline x idle <= s_now s
  end.

(** ** The worker (worker.rs) *)

Context (blake3 : list Z -> list Z).
(** [Window::open(root, endpoint, query, expires, ..)] *)
Context (open_window : WindowQuery.t -> Z -> M QueryFailure Window).

Definition window_not_open : QueryFailure := Code (str "WINDOW_NOT_OPEN").

(** [page] *)
Definition worker_page (window : option Window) (job : Job) (size : Z) : M QueryFailure Ready :=
  window ← lift (ok_or window_not_open window);
  page ← window_page window (SessionClientFrame.request_id (job_message job)) size;
  mret {| ready_bytes := page_bytes page; ready_commit := Some (expected_cursor page, next_cursor page);
          ready_end := false |}.

(** [execute]; the window it leaves behind also when it fails. *)
Definition worker_execute (window : option Window) (job : Job) (w : env)
    : result QueryFailure Ready * option Window * env :=
  let on_window (m : M QueryFailure Ready) (window : option Window) (w : env) :=
    let '(r, w) := m w in (r, window, w) in
  let id := SessionClientFrame.request_id (job_message job) in
  match query_check w with
  | (Err e, w) => (Err e, window, w)
  | (Ok _, w) =>
      match job_message job with
      | SessionClientFrame.Open _ _ query page_size _ =>
          match job_expires job with
          | None => (Err window_not_open, window, w)
          | Some expires =>
              match open_window query expires w with
              | (Err e, w) => (Err e, window, w)
              | (Ok opened, w) => on_window (worker_page (Some opened) job page_size) (Some opened) w
              end
          end
      | SessionClientFrame.Continue _ _ _ page_size => on_window (worker_page window job page_size) window w
      | SessionClientFrame.Expand _ _ _ item_index before_bytes after_bytes =>
          on_window (opened ← lift (ok_or window_not_open window);
                     expansion ← window_expand blake3 opened item_index before_bytes after_bytes;
                     lift_err Code (reply_outcome id (SessionOutcome.Expanded expansion) false)) window w
      | SessionClientFrame.Close _ =>
          on_window (lift_err Code (reply_outcome id SessionOutcome.Closed true)) None w
      | SessionClientFrame.Cancel _ => (Err (Code (str "SESSION_CONTROL_INVALID")), window, w)
      end
  end.

(** [result.or_else(|error| failure(..)).map_err(..)] *)
Definition worker_reply (id : Z) (r : result QueryFailure Ready) : M (list Z) Ready :=
  match r with
  | Ok ready => mret ready
  | Err error => reply_failure id error
  end.

Definition later (at_ : option Z) (now : Z) : bool :=
  match at_ with Some expires => expires <=? now | None => false end.

(** The end of the loop in [run]: the thread ends. *)
Definition with_reply (job : Job) (r : result (list Z) Ready) (s : System) : System :=
  with_replies (<[job_number job := r]> (s_replies s)) s.

(** A turn of [run] up to the job it takes, if it takes one. *)
Definition worker_take (command : Command) (rest : list Command) (w : env) (s : System) : System :=
  let worker := s_worker s in
  let s := with_queue rest s in
  match command with
  | Shutdown => worker_gone s
  | Commit expected next =>
      if later (w_expires worker) (s_now s) then worker_gone s
      else
        match w_window worker with
        | Some window =>
            match commit_page window expected next with
            | Ok window => with_worker {| w_window := Some window; w_expires := w_expires worker; w_busy := None; w_running := true |} s
            | Err _ => worker_gone s
            end
        | None => worker_gone s
        end
  | Execute job =>
      if later (w_expires worker) (s_now s) then
        worker_gone (with_reply job (run (reply_outcome (SessionClientFrame.request_id (job_message job))
          SessionOutcome.Expired true) w) s)
      else
        with_worker {| w_window := w_window worker;
                       w_expires := match job_expires job with Some e => Some e | None => w_expires worker end;
                       w_busy := Some job; w_running := true |} s
  end.

(** The rest of the turn: the job runs to its end, its reply is sent. *)
Definition worker_finish (job : Job) (w : env) (s : System) : System :=
  let worker := s_worker s in
  let id := SessionClientFrame.request_id (job_message job) in
  let '(result, window, w) := worker_execute (w_window worker) job w in
  let ended := later (w_expires worker) (s_now s) in
  let '(result, w) :=
    if ended then lift_err Code (reply_outcome id SessionOutcome.Expired true) w
    else if bool_decide (job_number job ∈ s_flags s) && negb (is_close (job_message job)) then (Err QueryCancelled, w)
    else (result, w) in
  let reply := run (worker_reply id result) w in
  let over := match reply with Ok ready => ready_end ready | Err _ => false end in
  let s := with_reply job reply s in
  if ended || over then worker_gone s
  else with_worker {| w_window := window; w_expires := w_expires worker; w_busy := None; w_running := true |} s.

(** ** The session as a transition system *)

(** What is left to do after a turn: leaving the loop drops the exchange, whose active
    job is cancelled, and [run] then sends the worker a shutdown. *)
Definition drop_exchange (s : System) : System :=
  let s := match x_active (s_exchange s) with
           | Some active => with_flags ({[active_job active]} ∪ s_flags s) s
           | None => s
           end in
  if w_running (s_worker s) then with_queue (s_queue s ++ [Shutdown]) s else s.
Definition settle (r : result (list Z) Next) (s : System) : System :=
  match r with
  | Ok Loop => with_phase Serving s
  | Ok Leave => with_phase (Ended (Ok tt)) (drop_exchange s)
  | Ok Expire => with_phase Expiring (drop_exchange s)
  | Err code => with_phase (Ended (Err code)) (drop_exchange s)
  end.

(** The end of [expire], once the worker is done. *)
Definition expire_end (fault : option (Z * list Z)) : Turn unit :=
  x ← the_exchange;
  _ ← lift_s (reject_if match x_output x with Some output => negb (output_cursor output =? 0) | None => false end
              (str "WINDOW_EXPIRED_PARTIAL_OUTPUT"));
  let id := match x_active x with
    | Some active => active_id active
    | None => match x_output x with Some output => output_id output | None => 0 end
    end in
  ready ← in_memory (reply_outcome id SessionOutcome.Expired true);
  write_last (ready_bytes ready) fault.

Inductive step (idle : Z) : System -> System -> Prop :=
  | step_exchange branch s r s' :
      s_phase s = Serving -> enabled idle branch s -> exchange_turn branch s = (r, s') ->
      step idle s (settle r s')
  | step_expire fault s r s' :
      s_phase s = Expiring -> w_running (s_worker s) = false ->
      match fault with Some (count, _) => 0 <= count | None => True end ->
      expire_end fault s = (r, s') -> step idle s (with_phase (Ended r) s')
  | step_give_up code s :
      (* the worker did not end in time, or panicked *)
      s_phase s = Expiring -> code = str "QUERY_CLEANUP_EXPIRED" \/ code = worker_panicked ->
      step idle s (with_phase (Ended (Err code)) s)
  | step_take command rest w s :
      w_running (s_worker s) = true -> w_busy (s_worker s) = None -> s_queue s = command :: rest ->
      step idle s (worker_take command rest w s)
  | step_finish job w s :
      w_running (s_worker s) = true -> w_busy (s_worker s) = Some job ->
      step idle s (worker_finish job w s)
  | step_idle s :
      (* [recv_timeout] gave up on an empty channel *)
      w_running (s_worker s) = true -> w_busy (s_worker s) = None -> s_queue s = [] ->
      match w_expires (s_worker s) with Some e => e <= s_now s | None => True end ->
      step idle s (worker_gone s)
  | step_panic s : step idle s (worker_gone s)
  | step_around now a s : s_now s <= now -> step idle s (with_around now a s).

(** The system [run] starts. *)
Definition session_start (now : Z) (a : Surroundings) : result (list Z) System :=
  x ← new_exchange;
  Ok {| s_exchange := x; s_queue := []; s_jobs := 0; s_flags := ∅; s_replies := ∅;
        s_worker := {| w_window := None; w_expires := None; w_busy := None; w_running := true |};
        s_stdout := []; s_sent := []; s_now := now; s_around := a; s_phase := Serving |}.

Definition reached (s : System) : Prop :=
  exists now a s0 idle, session_start now a = Ok s0 /\ rtc (step idle) s0 s.
End Session.
