(* ===== verification/SessionSafety.v ===== *)
(** What a session delivers: along every interleaving of the exchange and the worker the
    standard output is a sequence of whole reply frames and a prefix of one more, its pages
    continue one window without loss or repetition, and the worker's cursor check never
    fails. *)

From Stdlib Require Import Sorted.
From stdpp Require Import gmap.
From S2P Require Import Prelude Bytes Utf8 Ids Layout Prepared Dto DtoSession DtoFacts Frame ObjectStore Literal ExactResult RawExact Qdrant VerifiedQuery Window Session.

Local Abbreviation take := List.firstn.

(** ** Outcomes of the exchange's operations *)

Definition wp {A} (m : Turn A) (Q : A -> System -> Prop) (X : System -> Prop) (s : System) : Prop :=
  match m s with (Ok a, s') => Q a s' | (Err _, s') => X s' end.

Section Wp.
Context (X : System -> Prop).

Lemma wp_bind {A B} (m : Turn A) (k : A -> Turn B) Q s :
  wp m (fun a s' => wp (k a) Q X s') X s -> wp (m ≫= k) Q X s.
Proof. unfold wp, mbind, turn_bind. by destruct (m s) as [[a|e] s']. Qed.
Lemma wp_ret {A} (a : A) (Q : A -> System -> Prop) s : Q a s -> wp (mret a) Q X s.
Proof. done. Qed.
Lemma wp_exchange (Q : Exchange -> System -> Prop) s : Q (s_exchange s) s -> wp the_exchange Q X s.
Proof. done. Qed.
Lemma wp_modify f (Q : unit -> System -> Prop) s : Q tt (f s) -> wp (modify f) Q X s.
Proof. done. Qed.
Lemma wp_update f (Q : unit -> System -> Prop) s : Q tt (with_exchange f s) -> wp (update f) Q X s.
Proof. done. Qed.
Lemma wp_lift {A} (r : result (list Z) A) (Q : A -> System -> Prop) s :
  (forall a, r = Ok a -> Q a s) -> X s -> wp (lift_s r) Q X s.
Proof. intros HQ HX. unfold wp, lift_s. destruct r; auto. Qed.
Lemma wp_guard b e (Q : unit -> System -> Prop) s :
  (b = false -> Q tt s) -> X s -> wp (lift_s (reject_if b e)) Q X s.
Proof. intros HQ HX. apply wp_lift; [|done]. intros [] Hb. apply HQ. by destruct b. Qed.
Lemma wp_some {A} (o : option A) e (Q : A -> System -> Prop) s :
  (forall a, o = Some a -> Q a s) -> X s -> wp (lift_s (ok_or e o)) Q X s.
Proof. intros HQ HX. apply wp_lift; [|done]. intros a Ha. apply HQ. by destruct o; [injection Ha as ->|]. Qed.
Lemma wp_clock (Q : Z -> System -> Prop) s :
  (forall now a, Q now (with_around now a s)) -> wp read_clock Q X s.
Proof.
  intros HQ. unfold wp, read_clock. destruct (ticks (s_around s)); [|apply HQ].
  specialize (HQ (s_now s) (s_around s)). by destruct s.
Qed.
Lemma wp_passed at_ (Q : bool -> System -> Prop) s :
  (forall late now a, Q late (with_around now a s)) -> wp (passed at_) Q X s.
Proof.
  intros HQ. unfold passed. destruct at_ as [e|].
  - apply wp_bind, wp_clock. intros now a. apply wp_ret, HQ.
  - apply wp_ret. specialize (HQ false (s_now s) (s_around s)). by destruct s.
Qed.
Lemma wp_memory {A} (m : M (list Z) A) (Q : A -> System -> Prop) s :
  (forall r w a, run m w = Ok r -> Q r (with_around (s_now s) a s)) ->
  (forall a, X (with_around (s_now s) a s)) -> wp (in_memory m) Q X s.
Proof.
  intros HQ HX. unfold wp, in_memory. destruct (m (memory (s_around s))) as [[r|e] w] eqn:Hm; [|apply HX].
  apply (HQ r (memory (s_around s))). unfold run. by rewrite Hm.
Qed.
Lemma wp_send c (Q : unit -> System -> Prop) s :
  (forall a, w_running (s_worker s) = true ->
     Q tt (with_queue (s_queue s ++ [c]) (with_around (s_now s) a s))) ->
  (forall a, X (with_around (s_now s) a s)) -> (forall a, X (worker_gone (with_around (s_now s) a s))) ->
  wp (send_or_fail c) Q X s.
Proof.
  intros HQ HX HG. apply wp_bind. unfold wp at 1, send. cbv zeta. set (a := s_around s) in *.
  destruct (match panics a with b :: _ => b | [] => false end); cbn [worker_gone with_queue with_worker s_worker w_running].
  - apply HG.
  - destruct (w_running (s_worker (with_around _ _ s))) eqn:Hr.
    + exact (HQ _ Hr).
    + apply HX.
Qed.

Lemma wp_weaken {A} (m : Turn A) (Q R : A -> System -> Prop) s :
  wp m Q X s -> (forall a s', Q a s' -> R a s') -> wp m R X s.
Proof. unfold wp. intros Hm HQ. destruct (m s) as [[a|e] s']; auto. Qed.
End Wp.

(** ** What holds between two turns *)

(** [Window::open] gives a window at its start whose vector fits its query. *)
Class Opens (open_window : WindowQuery.t -> Z -> M QueryFailure Window) :=
  opens_fit query expires w win :
    run (open_window query expires) w = Ok win -> window_ok query win /\ window_cursor win = 0.

(** A parsed page size is an unsigned byte. *)
Definition page_size (m : SessionClientFrame.t) : option Z :=
  match m with
  | SessionClientFrame.Open _ _ _ size _ | SessionClientFrame.Continue _ _ _ size => Some size
  | _ => None
  end.
Class Unsigned (codec : Json SessionClientFrame.t) :=
  unsigned_size body m size : from_slice body = Some m -> page_size m = Some size -> 0 <= size.

Definition message_ok (m : SessionClientFrame.t) : Prop :=
  SessionClientFrame.validate m = Ok tt /\ forall size, page_size m = Some size -> 0 <= size.

(** The vector of the session's only window. *)
Record Vector := { v_query : WindowQuery.t; v_items : list WindowItem.t; v_summary : WindowSummary.t }.
Definition vector_of (query : WindowQuery.t) (win : Window) : Vector :=
  {| v_query := query; v_items := window_items win; v_summary := window_summary win |}.

Section Invariant.
Context `{Json SessionReply.t, Json SessionClientFrame.t}.

(** The frame of a valid reply. *)
Definition framed (bytes : list Z) : Prop :=
  exists reply, SessionReply.validate reply = Ok tt /\ bytes = frame_of (json_bytes (to_writer reply)) /\
    len bytes <= MAX_FRAME_BYTES.

(** The frame of the page of [vector] from [e] to [n]. *)
Definition page_frame (q : Vector) (id e n : Z) (bytes : list Z) : Prop :=
  exists size, id <> 0 /\ 1 <= size <= MAX_ITEMS /\ 0 <= e <= len (v_items q) /\
    0 <= n - e <= wanted (v_items q) e size /\ (1 <= n - e \/ n - e = wanted (v_items q) e size) /\
    bytes = frame_of (json_bytes (to_writer (page_reply id (page_of (v_items q) (v_summary q) e size (n - e))))).

Definition ready_ok (v : option Vector) (id : Z) (r : Ready) : Prop :=
  framed (ready_bytes r) /\
  match ready_commit r with
  | Some (e, n) => exists q, v = Some q /\ page_frame q id e n (ready_bytes r)
  | None => True
  end.

(** The cursor after the frames flushed so far. *)
Fixpoint emitted (cursor : Z) (sent : list Output) : Z :=
  match sent with
  | [] => cursor
  | o :: rest => emitted match ready_commit (output_ready o) with Some (_, n) => n | None => cursor end rest
  end.
(** Every frame is whole, and every page starts where the one before it ended. *)
Fixpoint delivered (v : option Vector) (cursor : Z) (sent : list Output) : Prop :=
  match sent with
  | [] => True
  | o :: rest =>
      ready_ok v (output_id o) (output_ready o) /\
      match ready_commit (output_ready o) with
      | Some (e, n) => e = cursor /\ delivered v n rest
      | None => delivered v cursor rest
      end
  end.

(** The commits on their way lead from the worker's cursor to the emitted one. *)
Fixpoint chain (count cursor : Z) (commits : list (Z * Z)) (last : Z) : Prop :=
  match commits with
  | [] => cursor = last
  | (e, n) :: rest => e = cursor /\ e <= n <= count /\ chain count n rest last
  end.

Definition commands_of (commits : list (Z * Z)) (jobs : list Job) : list Command :=
  ((fun c => Commit (fst c) (snd c)) <$> commits) ++ (Execute <$> jobs).
Definition in_flight (busy : option Job) (jobs : list Job) : list Job := option_list busy ++ jobs.
Definition is_open (j : Job) : bool :=
  match job_message j with SessionClientFrame.Open _ _ _ _ _ => true | _ => false end.
Definition opens_in (l : list Job) : list Job := filter (fun j => is_open j = true) l.

Definition sent_bytes (sent : list Output) : list Z := concat (map (fun o => ready_bytes (output_ready o)) sent).
Definition partial_of (output : option Output) : list Z :=
  match output with Some o => take (Z.to_nat (output_cursor o)) (ready_bytes (output_ready o)) | None => [] end.

Record core (v : option Vector) (commits : list (Z * Z)) (jobs : list Job) (active : option Active)
    (output : option Output) (deferred : option Deferred) (opened : bool) (queue : list Command) (count : nat)
    (replies : gmap nat (result (list Z) Ready)) (window : option Window) (busy : option Job) (running : bool)
    (stdout : list Z) (sent : list Output) : Prop := {
  c_vector q : v = Some q -> window_fit (v_query q) (v_items q) (v_summary q);
  c_alone : active = None \/ output = None;
  c_deferred d : deferred = Some d -> output <> None /\ message_ok (deferred_message d);
  c_queue : queue = commands_of commits jobs;
  c_busy : busy <> None -> commits = [];
  c_gone : running = false -> queue = [] /\ busy = None /\ window = None;
  c_numbers : StronglySorted lt (job_number <$> in_flight busy jobs);
  c_count : Forall (fun j => (job_number j < count)%nat) (in_flight busy jobs);
  c_replies k r : replies !! k = Some r -> (k < count)%nat;
  c_pending : Forall (fun j => replies !! job_number j = None) (in_flight busy jobs);
  c_valid : Forall (fun j => message_ok (job_message j)) (in_flight busy jobs);
  c_opens : (length (opens_in (in_flight busy jobs)) <= 1)%nat;
  c_unopened : v <> None -> opens_in (in_flight busy jobs) = [];
  c_closed : opened = false -> opens_in (in_flight busy jobs) = [] /\ v = None;
  c_window : match window with
    | Some w => exists q, v = Some q /\ window_items w = v_items q /\ window_summary w = v_summary q /\
        0 <= window_cursor w <= len (v_items q) /\ chain (len (v_items q)) (window_cursor w) commits (emitted 0 sent)
    | None => commits = []
    end;
  c_output o : output = Some o ->
    ready_ok v (output_id o) (output_ready o) /\ 0 <= output_cursor o <= len (ready_bytes (output_ready o)) /\
    forall e n, ready_commit (output_ready o) = Some (e, n) ->
      e = emitted 0 sent /\ (running = true -> queue = [] /\ busy = None /\ window <> None);
  c_active a : active = Some a ->
    (active_job a < count)%nat /\ active_id a <> 0 /\
    match replies !! active_job a with
    | Some (Ok r) => ready_ok v (active_id a) r /\
        forall e n, ready_commit r = Some (e, n) ->
          e = emitted 0 sent /\ (running = true -> queue = [] /\ busy = None /\ window <> None)
    | Some (Err _) => True
    | None => running = true -> exists pre j, in_flight busy jobs = pre ++ [j] /\ job_number j = active_job a /\
        SessionClientFrame.request_id (job_message j) = active_id a
    end;
  c_sent : delivered v 0 sent;
  c_stdout : stdout = sent_bytes sent ++ partial_of output }.

Definition inv_at (v : option Vector) (commits : list (Z * Z)) (jobs : list Job) (s : System) : Prop :=
    core v commits jobs (x_active (s_exchange s)) (x_output (s_exchange s)) (x_deferred (s_exchange s))
      (x_opened (s_exchange s)) (s_queue s) (s_jobs s) (s_replies s) (w_window (s_worker s)) (w_busy (s_worker s))
      (w_running (s_worker s)) (s_stdout s) (s_sent s).
Definition inv (v : option Vector) (s : System) : Prop := exists commits jobs, inv_at v commits jobs s.

(** While the session expires, and when it is over. *)
Definition vector_ok (v : option Vector) : Prop :=
  forall q, v = Some q -> window_fit (v_query q) (v_items q) (v_summary q).
Definition expiring (v : option Vector) (s : System) : Prop :=
  vector_ok v /\ delivered v 0 (s_sent s) /\
  s_stdout s = sent_bytes (s_sent s) ++ partial_of (x_output (s_exchange s)) /\
  (forall o, x_output (s_exchange s) = Some o -> framed (ready_bytes (output_ready o)) /\ 0 <= output_cursor o).
Definition final (v : option Vector) (s : System) : Prop :=
  vector_ok v /\ delivered v 0 (s_sent s) /\
  exists partial, s_stdout s = sent_bytes (s_sent s) ++ partial /\
    (partial = [] \/ exists whole, framed whole /\ partial `prefix_of` whole).
Definition good (v : option Vector) (s : System) : Prop :=
  match s_phase s with Serving => inv v s | Expiring => expiring v s | Ended _ => final v s end.

Lemma inv_expiring v s : inv v s -> expiring v s.
Proof.
  intros (commits & jobs & Hc). destruct Hc. split_and!; [done|done|done|].
  intros o Ho. destruct (c_output0 o Ho) as ([Hf _] & ? & _). split; [done|lia].
Qed.
Lemma expiring_final v s : expiring v s -> final v s.
Proof.
  intros (Hv & Hd & Hs & Ho). split_and!; [done|done|]. eexists. split; [exact Hs|].
  destruct (x_output (s_exchange s)) as [o|]; [right|by left]. destruct (Ho o eq_refl) as [Hf _].
  eexists. split; [exact Hf|]. apply prefix_take.
Qed.
Lemma inv_final v s : inv v s -> final v s.
Proof. intros Hi. by apply expiring_final, inv_expiring. Qed.

Lemma emitted_app c a b : emitted c (a ++ b) = emitted (emitted c a) b.
Proof. revert c. induction a as [|o a IH]; intros c; [done|apply IH]. Qed.
Lemma delivered_app v c a b : delivered v c (a ++ b) <-> delivered v c a /\ delivered v (emitted c a) b.
Proof.
  revert c. induction a as [|o a IH]; intros c; cbn [app delivered emitted]; [tauto|].
  destruct (ready_commit (output_ready o)) as [[e n]|]; rewrite IH; tauto.
Qed.
Lemma chain_app count c a e n last :
  chain count c a e -> e <= n <= count -> last = n -> chain count c (a ++ [(e, n)]) last.
Proof.
  revert c. induction a as [|[x y] a IH]; intros c; cbn.
  - intros -> ? ->. done.
  - intros (-> & ? & Hc) ? ->. split_and!; [done|lia|lia|]. by apply IH.
Qed.
End Invariant.

(** ** Replies *)

Section Replies.
Context `{Json SessionReply.t}.

Lemma reply_outcome_ok v id outcome end_ w r :
  run (reply_outcome id outcome end_) w = Ok r ->
  ready_ok v id r /\ ready_commit r = None /\ ready_end r = end_.
Proof.
  unfold reply_outcome. intros Hr. apply run_bind_ok in Hr as (bytes & w1 & Hb%lift_err_ok & Hr).
  apply ok_inj in Hr as <-. cbn. split_and!; [|done|done]. split; [|done].
  unfold encode_session_reply in Hb. apply run_lift_ok in Hb as ([] & Hv & Hb).
  destruct (outcome_ok _ _ _ _ _ (frame_encode_outcome (to_writer
    {| SessionReply.request_id := id; SessionReply.outcome := outcome |}) MAX_FRAME_BYTES
    ltac:(unfold MAX_FRAME_BYTES; lia)) Hb) as (-> & Hl & _).
  eexists. split_and!; [exact Hv|reflexivity|done].
Qed.

Lemma reply_failure_ok v id f w r :
  run (reply_failure id f) w = Ok r -> ready_ok v id r /\ ready_commit r = None /\ ready_end r = false.
Proof.
  unfold reply_failure. intros Hr. apply run_lift_ok in Hr as (o & _ & Hr). by eapply reply_outcome_ok.
Qed.

Lemma page_frame_framed query items s id cursor size k :
  window_fit query items s -> id <> 0 -> 1 <= size <= MAX_ITEMS -> 0 <= cursor <= len items ->
  0 <= k <= wanted items cursor size -> 1 <= k \/ k = wanted items cursor size ->
  SessionReply.validate (page_reply id (page_of items s cursor size k)) = Ok tt.
Proof.
  intros. unfold SessionReply.validate. cbn [page_reply SessionReply.request_id SessionReply.outcome].
  is_false (id =? 0). cbn [andb reject_if mbind result_bind]. by eapply page_of_valid.
Qed.

(** A page of a window with a fit vector. *)
Lemma worker_page_ok query win job size w r :
  window_ok query win -> SessionClientFrame.request_id (job_message job) <> 0 -> 1 <= size <= MAX_ITEMS ->
  run (worker_page (Some win) job size) w = Ok r ->
  ready_ok (Some (vector_of query win)) (SessionClientFrame.request_id (job_message job)) r /\
  ready_end r = false /\ exists n, ready_commit r = Some (window_cursor win, n).
Proof.
  intros Hok Hid Hsize Hr. unfold worker_page in Hr. apply run_lift_ok in Hr as (a & [= <-] & Hr).
  apply run_bind_ok in Hr as (p & w1 & Hp & Hr). apply ok_inj in Hr as <-.
  assert (run (window_page win (SessionClientFrame.request_id (job_message job)) size) w = Ok p) as Hrun
    by (unfold run; by rewrite Hp).
  apply (outcome_ok _ _ _ _ _ (window_page_outcome query win _ size Hok Hid Hsize)) in Hrun
    as (k & Hk & Hk1 & Hb & Hl & He & Hn & _).
  destruct Hok as [Hfit Hc]. cbn. rewrite He, Hn. split_and!; [|done|eauto]. split; cbn.
  - eexists. split_and!; [|exact Hb|exact Hl]. by eapply page_frame_framed.
  - exists (vector_of query win). split; [done|]. exists size. cbn. replace (window_cursor win + k - window_cursor win) with k by lia.
    split_and!; try done; lia.
Qed.
End Replies.

(** ** Steps of the core *)

Section Core.
Context `{Json SessionReply.t, Json SessionClientFrame.t}.
Context (v : option Vector).

Lemma core_reply commits jobs output deferred opened queue count replies window busy running stdout sent o :
  core v commits jobs None output deferred opened queue count replies window busy running stdout sent ->
  partial_of output = [] -> output_cursor o = 0 -> ready_ok v (output_id o) (output_ready o) ->
  ready_commit (output_ready o) = None ->
  core v commits jobs None (Some o) deferred opened queue count replies window busy running stdout sent.
Proof.
  intros Hc Hp Ho Hr Hn. destruct Hc. constructor; try done.
  - by left.
  - intros d Hd. by destruct (c_deferred0 d Hd).
  - intros o' [= <-]. rewrite Ho, Hn. split_and!; [done|lia|apply len_nonneg|done].
  - rewrite c_stdout0, Hp. cbn. by rewrite Ho.
Qed.

Lemma core_drop_output commits jobs active output deferred opened queue count replies window busy running stdout sent :
  core v commits jobs active output deferred opened queue count replies window busy running stdout sent ->
  partial_of output = [] ->
  core v commits jobs active None None opened queue count replies window busy running stdout sent.
Proof. intros Hc Hp. destruct Hc. constructor; try done; [by right|]. by rewrite c_stdout0, Hp. Qed.

Lemma core_stopped commits jobs active output deferred opened queue count replies window busy running stdout sent a :
  core v commits jobs (Some active) output deferred opened queue count replies window busy running stdout sent ->
  active_id a = active_id active -> active_job a = active_job active ->
  core v commits jobs (Some a) output deferred opened queue count replies window busy running stdout sent.
Proof.
  intros Hc Hi Hj. destruct Hc. constructor; try done.
  - right. by destruct c_alone0.
  - intros a' [= <-]. specialize (c_active0 _ eq_refl). by rewrite Hi, Hj.
Qed.

Lemma core_inactive commits jobs active output deferred opened queue count replies window busy running stdout sent :
  core v commits jobs active output deferred opened queue count replies window busy running stdout sent ->
  core v commits jobs None output deferred opened queue count replies window busy running stdout sent.
Proof. intros Hc. destruct Hc. constructor; try done. by left. Qed.

Lemma core_defer commits jobs active o deferred opened queue count replies window busy running stdout sent d :
  core v commits jobs active (Some o) deferred opened queue count replies window busy running stdout sent ->
  message_ok (deferred_message d) ->
  core v commits jobs active (Some o) (Some d) opened queue count replies window busy running stdout sent.
Proof. intros Hc Hd. destruct Hc. constructor; try done. by intros d' [= <-]. Qed.

Lemma core_opened commits jobs active output deferred opened queue count replies window busy running stdout sent :
  core v commits jobs active output deferred opened queue count replies window busy running stdout sent ->
  core v commits jobs active output deferred true queue count replies window busy running stdout sent.
Proof. intros Hc. destruct Hc. by constructor. Qed.

Lemma in_flight_snoc busy jobs j : in_flight busy (jobs ++ [j]) = in_flight busy jobs ++ [j].
Proof. unfold in_flight. by rewrite (assoc_L (++)). Qed.

Lemma sorted_snoc (l : list nat) n : StronglySorted lt l -> Forall (fun m => (m < n)%nat) l -> StronglySorted lt (l ++ [n]).
Proof.
  induction 1 as [|m l Hs IH Hall]; intros Hf; cbn; [repeat constructor|]. apply Forall_cons in Hf as [Hm Hf].
  constructor; [by apply IH|]. apply Forall_app. split; [done|by repeat constructor].
Qed.

Lemma core_dispatch commits jobs deferred opened queue count replies window busy stdout sent j a :
  core v commits jobs None None deferred opened queue count replies window busy true stdout sent ->
  message_ok (job_message j) -> job_number j = count ->
  (is_open j = true -> opens_in (in_flight busy jobs) = [] /\ v = None /\ opened = true) ->
  active_job a = count -> active_id a = SessionClientFrame.request_id (job_message j) -> active_id a <> 0 ->
  core v commits (jobs ++ [j]) (Some a) None deferred opened (queue ++ [Execute j]) (Datatypes.S count) replies window busy
    true stdout sent.
Proof.
  intros Hc Hv Hn Hopen Hj Hi Hnz. destruct Hc. constructor; try done.
  - by right.
  - rewrite c_queue0. unfold commands_of. by rewrite fmap_app, (assoc_L (++)).
  - rewrite in_flight_snoc, fmap_app. apply sorted_snoc; [done|]. rewrite Forall_fmap. cbn. rewrite Hn. exact c_count0.
  - rewrite in_flight_snoc. apply Forall_app. split; [|constructor; [lia|constructor]].
    eapply Forall_impl; [exact c_count0|]. cbn. lia.
  - intros k r Hk. apply c_replies0 in Hk. lia.
  - rewrite in_flight_snoc. apply Forall_app. split; [done|]. constructor; [|constructor]. rewrite Hn.
    destruct (replies !! count) as [r|] eqn:Hr; [apply c_replies0 in Hr; lia|done].
  - rewrite in_flight_snoc. apply Forall_app. split; [done|]. by apply Forall_singleton.
  - rewrite in_flight_snoc. unfold opens_in. rewrite filter_app. fold (opens_in (in_flight busy jobs)). rewrite length_app.
    destruct (is_open j) eqn:Ho; [destruct (Hopen eq_refl) as [-> _]; rewrite filter_cons, filter_nil; by case_decide|].
    rewrite filter_cons_False by congruence. cbn. lia.
  - intros Hs. rewrite in_flight_snoc. unfold opens_in. rewrite filter_app. fold (opens_in (in_flight busy jobs)).
    rewrite c_unopened0 by done. cbn [app]. destruct (is_open j) eqn:Ho; [by destruct (Hopen eq_refl) as (_ & -> & _)|].
    by rewrite filter_cons_False by congruence.
  - intros Hs. destruct (c_closed0 Hs) as [Hf ->]. split; [|done]. rewrite in_flight_snoc. unfold opens_in. rewrite filter_app.
    fold (opens_in (in_flight busy jobs)). rewrite Hf. destruct (is_open j) eqn:Ho; [by destruct (Hopen eq_refl) as (_ & _ & ->)|].
    by rewrite filter_cons_False by congruence.
  - intros a' [= <-]. split_and!; [lia|done|]. rewrite Hj.
    destruct (replies !! count) as [r|] eqn:Hr; [apply c_replies0 in Hr; lia|].
    intros _. exists (in_flight busy jobs), j. rewrite in_flight_snoc. split_and!; [done|done|congruence].
Qed.

(** The worker is gone: nothing is on its way any more. *)
Lemma core_gone commits jobs active output deferred opened queue count replies window busy running stdout sent :
  core v commits jobs active output deferred opened queue count replies window busy running stdout sent ->
  core v [] [] active output deferred opened [] count replies None None false stdout sent.
Proof.
  intros Hc. destruct Hc. constructor; try done; try (by constructor).
  - intros Hs. by destruct (c_closed0 Hs).
  - intros o Ho. destruct (c_output0 o Ho) as (? & [? ?] & Hc). split; [done|]. split; [done|]. intros e n Hn.
    by destruct (Hc e n Hn).
  - intros a Ha. destruct (c_active0 a Ha) as (? & ? & Hr). split; [done|]. split; [done|].
    destruct (replies !! active_job a) as [[r|]|]; [|done|done]. destruct Hr as [? Hr]. split; [done|].
    intros e n Hn. by destruct (Hr e n Hn).
Qed.

(** A frame has been flushed: it becomes the last one sent, its commit goes to the worker. *)
Lemma core_flushed commits jobs active o deferred opened queue count replies window busy running stdout sent :
  core v commits jobs active (Some o) deferred opened queue count replies window busy running stdout sent ->
  output_cursor o = len (ready_bytes (output_ready o)) -> ready_commit (output_ready o) = None ->
  core v commits jobs active None None opened queue count replies window busy running stdout (sent ++ [o]).
Proof.
  intros Hc Hl Hn. destruct Hc. assert (emitted 0 (sent ++ [o]) = emitted 0 sent) as He.
  { rewrite emitted_app. cbn. by rewrite Hn. }
  destruct (c_output0 o eq_refl) as (Ho & _ & _). constructor; try done.
  - by right.
  - by rewrite He.
  - rewrite He. done.
  - apply delivered_app. split; [done|]. cbn. by rewrite Hn.
  - rewrite c_stdout0. unfold sent_bytes. rewrite map_app, concat_app. cbn. rewrite Hl. unfold len.
    rewrite Nat2Z.id, take_ge by done. by rewrite !app_nil_r.
Qed.

Lemma core_committed commits jobs active o deferred opened queue count replies window busy stdout sent e n :
  core v commits jobs active (Some o) deferred opened queue count replies window busy true stdout sent ->
  output_cursor o = len (ready_bytes (output_ready o)) -> ready_commit (output_ready o) = Some (e, n) ->
  core v (commits ++ [(e, n)]) jobs active None None opened (queue ++ [Commit e n]) count replies window busy true stdout
    (sent ++ [o]).
Proof.
  intros Hc Hl Hn. destruct Hc. assert (emitted 0 (sent ++ [o]) = n) as He.
  { rewrite emitted_app. cbn. by rewrite Hn. }
  destruct (c_output0 o eq_refl) as (Ho & _ & Hcommit). destruct (Hcommit e n Hn) as (-> & Hidle).
  destruct (Hidle eq_refl) as (-> & -> & Hwin). unfold commands_of in c_queue0.
  symmetry in c_queue0. apply app_nil in c_queue0 as [Hcm%fmap_nil_inv Hjb%fmap_nil_inv]. subst commits jobs.
  assert (active = None) as -> by (by destruct c_alone0).
  constructor; try done.
  - by left.
  - destruct window as [w|]; [|done]. destruct c_window0 as (q & Hq & Hi & Hs & Hcur & Hch). exists q. split_and!; [done..|lia|lia|].
    destruct Ho as [_ Ho]. rewrite Hn in Ho. destruct Ho as (q' & Hq' & size & _ & _ & ? & ? & _).
    assert (q' = q) as -> by congruence. unfold wanted in *. apply (chain_app _ _ [] (emitted 0 sent)); [done|lia|done].
  - apply delivered_app. split; [done|]. cbn. by rewrite Hn.
  - rewrite c_stdout0. unfold sent_bytes. rewrite map_app, concat_app. cbn. rewrite Hl. unfold len.
    rewrite Nat2Z.id, take_ge by done. by rewrite !app_nil_r.
Qed.
(** The worker has taken a commit: the window's cursor moves to where it leads. *)
Lemma core_take_commit commits jobs active output deferred opened queue rest count replies window busy stdout sent e n :
  core v commits jobs active output deferred opened queue count replies window busy true stdout sent ->
  queue = Commit e n :: rest ->
  exists win win' commits', window = Some win /\ commit_page win e n = Ok win' /\
    core v commits' jobs active output deferred opened rest count replies (Some win') busy true stdout sent.
Proof.
  intros Hc Hq. destruct Hc. rewrite Hq in c_queue0. unfold commands_of in c_queue0.
  destruct commits as [|[e' n'] commits]; [by destruct jobs|]. injection c_queue0 as <- <- Hrest.
  destruct window as [win|]; [|done]. destruct c_window0 as (q & Hv & Hi & Hs & Hcur & Hch). cbn in Hch.
  destruct Hch as (-> & Hn & Hch). eexists win, _, commits. split; [done|]. unfold commit_page. is_true (window_cursor win =? window_cursor win).
  is_false (n <? window_cursor win). rewrite Hi. is_false (len (v_items q) <? n). cbn [negb orb reject_if mbind result_bind].
  split; [reflexivity|]. constructor; try done.
  - intros Hb. by apply c_busy0 in Hb.
  - exists q. cbn. split_and!; try done; lia.
  - intros o Ho. destruct (c_output0 o Ho) as (? & ? & Hm). split; [done|]. split; [done|]. intros x y Hxy.
    destruct (Hm x y Hxy) as [? Hidle]. split; [done|]. intros _. destruct (Hidle eq_refl) as [Hnil _]. by rewrite Hq in Hnil.
  - intros a Ha. destruct (c_active0 a Ha) as (? & ? & Hr). split; [done|]. split; [done|].
    destruct (replies !! active_job a) as [[r|]|]; [|done|done]. destruct Hr as [? Hm]. split; [done|].
    intros x y Hxy. destruct (Hm x y Hxy) as [? Hidle]. split; [done|]. intros _. destruct (Hidle eq_refl) as [Hnil _].
    by rewrite Hq in Hnil.
Qed.

Lemma core_take_job commits jobs active output deferred opened queue rest count replies window stdout sent j :
  core v commits jobs active output deferred opened queue count replies window None true stdout sent ->
  queue = Execute j :: rest ->
  exists jobs', commits = [] /\ jobs = j :: jobs' /\
    core v [] jobs' active output deferred opened rest count replies window (Some j) true stdout sent.
Proof.
  intros Hc Hq. destruct Hc. rewrite Hq in c_queue0. unfold commands_of in c_queue0.
  destruct commits as [|[e' n'] commits]; [|done]. destruct jobs as [|j' jobs]; [done|]. cbn in c_queue0.
  injection c_queue0 as <- Hrest. exists jobs. split; [done|]. split; [done|]. constructor; try done.
  - intros o Ho. destruct (c_output0 o Ho) as (? & ? & Hm). split; [done|]. split; [done|]. intros x y Hxy.
    destruct (Hm x y Hxy) as [? Hidle]. split; [done|]. intros _. destruct (Hidle eq_refl) as [Hnil _]. by rewrite Hq in Hnil.
  - intros a Ha. destruct (c_active0 a Ha) as (? & ? & Hr). split; [done|]. split; [done|].
    destruct (replies !! active_job a) as [[r|]|]; [|done|done]. destruct Hr as [? Hm]. split; [done|].
    intros x y Hxy. destruct (Hm x y Hxy) as [? Hidle]. split; [done|]. intros _. destruct (Hidle eq_refl) as [Hnil _].
    by rewrite Hq in Hnil.
Qed.
End Core.

(** ** The worker's turns *)

Section Worker.
Context `{Json SessionReply.t, Json SessionClientFrame.t}.

Definition grows (v v' : option Vector) : Prop := forall q, v = Some q -> v' = Some q.

Lemma ready_ok_grows v v' id r : grows v v' -> ready_ok v id r -> ready_ok v' id r.
Proof.
  intros Hg [Hf Hc]. split; [done|]. destruct (ready_commit r) as [[e n]|]; [|done].
  destruct Hc as (q & Hq & ?). exists q. split; [by apply Hg|done].
Qed.
Lemma delivered_grows v v' sent : grows v v' -> forall c, delivered v c sent -> delivered v' c sent.
Proof.
  intros Hg. induction sent as [|o sent IH]; intros c; [done|]. cbn. intros [Hr Hc].
  split; [by eapply ready_ok_grows|]. destruct (ready_commit (output_ready o)) as [[e n]|]; [|by apply IH].
  destruct Hc as [? Hc]. split; [done|by apply IH].
Qed.
Lemma emitted_none sent : forall c, delivered None c sent -> emitted c sent = c.
Proof.
  induction sent as [|o sent IH]; intros c; [done|]. cbn. intros [[_ Hr] Hc].
  destruct (ready_commit (output_ready o)) as [[e n]|]; [by destruct Hr as (q & ? & _)|by apply IH].
Qed.

(** What the window is after a job: still at the emitted cursor of the session's vector. *)
Definition window_at (v : option Vector) (cursor : Z) (window : option Window) : Prop :=
  match window with
  | Some w => exists q, v = Some q /\ window_items w = v_items q /\ window_summary w = v_summary q /\
      window_cursor w = cursor /\ 0 <= cursor <= len (v_items q)
  | None => True
  end.

(** What a job's reply may be. *)
Definition answers (v : option Vector) (cursor : Z) (window : option Window) (j : Job) (r : Ready) : Prop :=
  ready_ok v (SessionClientFrame.request_id (job_message j)) r /\
  forall e n, ready_commit r = Some (e, n) -> e = cursor /\ window <> None.

(** The job's vector: the session's, or the one an open request has just found. *)
Definition next_vector (v : option Vector) (j : Job) (v' : option Vector) : Prop :=
  v' = v \/ (v = None /\ is_open j = true /\ exists q, v' = Some q /\
              window_fit (v_query q) (v_items q) (v_summary q)).

Lemma opens_tail j jobs : opens_in (j :: jobs) = if is_open j then j :: opens_in jobs else opens_in jobs.
Proof. unfold opens_in. rewrite filter_cons. destruct (is_open j); by case_decide. Qed.

Lemma last_of_sorted (j j' : Job) jobs pre :
  StronglySorted lt (job_number <$> j :: jobs) -> j :: jobs = pre ++ [j'] -> job_number j' = job_number j ->
  jobs = [] /\ j' = j.
Proof.
  intros Hs Heq Hn. destruct pre as [|x pre]; cbn in Heq; injection Heq as -> ->; [done|].
  cbn in Hs. apply StronglySorted_inv in Hs as [_ Hs]. rewrite fmap_app in Hs. apply Forall_app in Hs as [_ Hs].
  apply Forall_cons in Hs as [Hs _]. lia.
Qed.

Lemma core_finished v v' jobs active output deferred opened queue count replies window window' stdout sent j r :
  core v [] jobs active output deferred opened queue count replies window (Some j) true stdout sent ->
  next_vector v j v' -> window_at v' (emitted 0 sent) window' ->
  match r with Ok ready => answers v' (emitted 0 sent) window' j ready | Err _ => True end ->
  core v' [] jobs active output deferred opened queue count (<[job_number j := r]> replies) window' None true stdout sent.
Proof.
  intros Hc Hv Hw Hr. assert (grows v v') as Hg by (destruct Hv as [->|(-> & _)]; by intros q).
  destruct Hc. change (in_flight (Some j) jobs) with (j :: jobs) in *.
  apply Forall_cons in c_count0 as [Hj Hcount]. apply Forall_cons in c_valid0 as [Hjv Hvalid].
  apply Forall_cons in c_pending0 as [Hjp Hpending].
  constructor; try done; change (in_flight None jobs) with jobs.
  - destruct Hv as [->|(_ & _ & q & -> & Hfit)]; [done|]. by intros q' [= <-].
  - cbn in c_numbers0. by apply StronglySorted_inv in c_numbers0 as [? _].
  - intros k r' Hk. destruct (decide (k = job_number j)) as [->|]; [done|]. rewrite lookup_insert_ne in Hk by done. by eapply c_replies0.
  - cbn in c_numbers0. apply StronglySorted_inv in c_numbers0 as [_ Hlt]. rewrite Forall_fmap in Hlt.
    rewrite Forall_forall in Hlt, Hpending |- *. intros j' Hj'. rewrite lookup_insert_ne; [by apply Hpending|].
    specialize (Hlt j' Hj'). cbn in Hlt. lia.
  - rewrite opens_tail in c_opens0. destruct (is_open j); cbn in c_opens0; lia.
  - intros Hs. rewrite opens_tail in c_opens0, c_unopened0. destruct Hv as [->|(_ & Ho & _)].
    + specialize (c_unopened0 Hs). by destruct (is_open j).
    + rewrite Ho in c_opens0. cbn in c_opens0. destruct (opens_in jobs); [done|cbn in c_opens0; lia].
  - intros Hs. destruct (c_closed0 Hs) as [Hf ->]. rewrite opens_tail in Hf.
    destruct (is_open j) eqn:Ho; [done|]. split; [done|]. destruct Hv as [->|(_ & Ho' & _)]; [done|congruence].
  - destruct window' as [w'|]; [|done]. destruct Hw as (q & ? & ? & ? & ? & ?). exists q. split_and!; try done; lia.
  - intros o Ho. destruct (c_output0 o Ho) as (Hro & ? & Hm). split; [by eapply ready_ok_grows|]. split; [done|].
    intros e n Hen. destruct (Hm e n Hen) as [_ Hidle]. by destruct (Hidle eq_refl) as (_ & ? & _).
  - intros a Ha. destruct (c_active0 a Ha) as (? & ? & Hm). split; [done|]. split; [done|].
    destruct (decide (active_job a = job_number j)) as [Heq|Hne].
    + rewrite Heq, lookup_insert_eq in *. rewrite Hjp in Hm. destruct (Hm eq_refl) as (pre & j' & Hpre & Hn & Hid).
      destruct (last_of_sorted _ _ _ _ c_numbers0 Hpre ltac:(congruence)) as [-> ->].
      destruct r as [ready|]; [|done]. destruct Hr as [Hok Hcommit]. rewrite Hid in Hok. split; [done|].
      intros e n Hen. destruct (Hcommit e n Hen) as [? ?]. by rewrite c_queue0.
    + rewrite lookup_insert_ne by done. destruct (replies !! active_job a) as [[r'|]|] eqn:Hra; [|done|].
      * destruct Hm as [? Hm]. split; [by eapply ready_ok_grows|]. intros e n Hen. destruct (Hm e n Hen) as [_ Hidle].
        by destruct (Hidle eq_refl) as (_ & ? & _).
      * intros _. destruct (Hm eq_refl) as (pre & j' & Hpre & Hn & Hid). destruct pre as [|x pre]; cbn in Hpre.
        { injection Hpre as -> _. congruence. }
        injection Hpre as -> Hpre. by exists pre, j'.
  - by eapply delivered_grows.
Qed.
End Worker.

Section Jobs.
Context `{Json SessionReply.t, Json SessionClientFrame.t}.
Context (instant_max : Z) (blake3 : list Z -> list Z) (open_window : WindowQuery.t -> Z -> M QueryFailure Window).
Context `{!Opens open_window}.

Lemma page_answers v cursor win j size w r :
  vector_ok v -> window_at v cursor (Some win) -> SessionClientFrame.request_id (job_message j) <> 0 ->
  1 <= size <= MAX_ITEMS -> run (worker_page (Some win) j size) w = Ok r -> answers v cursor (Some win) j r.
Proof.
  intros Hv (q & -> & Hi & Hs & <- & Hc) Hid Hsize Hr. specialize (Hv q eq_refl).
  assert (q = vector_of (v_query q) win) as Hq by (unfold vector_of; rewrite Hi, Hs; by destruct q).
  destruct (worker_page_ok (v_query q) win j size w r) as (Hok & _ & n & Hn); [|done..|].
  - split; [by rewrite Hi, Hs|by rewrite Hi].
  - split; [by rewrite Hq|]. intros e m Hem. rewrite Hn in Hem. injection Hem as <- <-. done.
Qed.

Lemma plain_answers v cursor window j r :
  ready_ok v (SessionClientFrame.request_id (job_message j)) r -> ready_commit r = None -> answers v cursor window j r.
Proof. intros Hr Hn. split; [done|]. intros e n Hen. congruence. Qed.

Lemma message_valid m :
  message_ok m ->
  SessionClientFrame.request_id m <> 0 /\ forall size, page_size m = Some size -> 1 <= size <= MAX_ITEMS.
Proof.
  unfold message_ok, SessionClientFrame.validate. intros [Hv Hu]. apply bind_ok_inv in Hv as ([] & Hid%reject_if_ok & Hv). to_prop.
  split; [done|]. intros size Hsize. specialize (Hu size Hsize). apply bind_ok_inv in Hv as (ms & Hm & _).
  destruct m; try done; injection Hsize as ->.
  - apply bind_ok_inv in Hm as ([] & _ & Hm). apply bind_ok_inv in Hm as ([] & Hs & _).
    unfold validate_page_size in Hs. apply invalid_if_ok in Hs. to_prop. lia.
  - apply bind_ok_inv in Hm as ([] & _ & Hm). apply bind_ok_inv in Hm as ([] & Hs & _).
    unfold validate_page_size in Hs. apply invalid_if_ok in Hs. to_prop. lia.
Qed.

Lemma worker_execute_ok v cursor window j w :
  vector_ok v -> window_at v cursor window -> message_ok (job_message j) ->
  (is_open j = true -> v = None /\ cursor = 0) ->
  let '(r, window', _) := worker_execute blake3 open_window window j w in
  exists v', next_vector v j v' /\ window_at v' cursor window' /\
    match r with Ok ready => answers v' cursor window' j ready | Err _ => True end.
Proof.
  intros Hv Hw Hm Hopen. apply message_valid in Hm as [Hid Hm].
  assert (forall window' : option Window, window' = window \/ window' = None -> window_at v cursor window') as Hsame
    by (by intros window' [-> | ->]).
  unfold worker_execute. destruct (query_check w) as [[[]|e] w1]; [|exists v; split_and!; [by left|done|done]].
  destruct (job_message j) as [id ms query size ttl|id ms wid size|id ms wid index before after|id|id] eqn:Hmsg;
    rewrite <- Hmsg in *; cbv zeta.
  - destruct (job_expires j) as [expires|]; [|exists v; split_and!; [by left|done|done]].
    destruct (Hopen ltac:(unfold is_open; by rewrite Hmsg)) as [-> ->].
    destruct (open_window query expires w1) as [[win|e] w2] eqn:Hwin; [|exists None; split_and!; [by left|done|done]].
    assert (window_ok query win /\ window_cursor win = 0) as [[Hfit Hc] Hc0].
    { apply (opens_fit query expires w1). unfold run. by rewrite Hwin. }
    destruct (worker_page (Some win) j size w2) as [r w3] eqn:Hpage. exists (Some (vector_of query win)). split_and!.
    + right. split_and!; [done|unfold is_open; by rewrite Hmsg|]. by exists (vector_of query win).
    + exists (vector_of query win). cbn. split_and!; try done; lia.
    + destruct r as [r|]; [|done]. apply (page_answers _ _ win j size w2).
      * by intros q [= <-].
      * exists (vector_of query win). cbn. split_and!; try done; lia.
      * done.
      * apply Hm. by rewrite Hmsg.
      * unfold run. by rewrite Hpage.
  - destruct (worker_page window j size w1) as [r w3] eqn:Hpage. exists v. split_and!; [by left|done|].
    destruct r as [r|]; [|done]. destruct window as [win|]; [|done].
    apply (page_answers _ _ win j size w1); try done.
    + apply Hm. by rewrite Hmsg.
    + unfold run. by rewrite Hpage.
  - match goal with |- context [?m w1] => destruct (m w1) as [r w3] eqn:Hrun end. exists v. split_and!; [by left|done|].
    destruct r as [r|]; [|done]. match type of Hrun with ?m _ = _ => assert (run m w1 = Ok r) as Hr by (unfold run; by rewrite Hrun) end.
    apply run_lift_ok in Hr as (win & _ & Hr). apply run_bind_ok in Hr as (ex & w4 & _ & Hr).
    assert (run (lift_err Code (reply_outcome id (SessionOutcome.Expanded ex) false)) w4 = Ok r) as Hr' by (by rewrite Hmsg in Hr).
    unfold run in Hr'. destruct (lift_err Code _ w4) as [r' w5] eqn:Hl. cbn in Hr'. subst r'. apply lift_err_ok in Hl.
    eapply reply_outcome_ok in Hl as (? & ? & ?). apply plain_answers; [by rewrite Hmsg|done].
  - exists v. split_and!; [by left|done|done].
  - destruct (lift_err Code (reply_outcome (SessionClientFrame.request_id (job_message j)) SessionOutcome.Closed true) w1) as [r w3] eqn:Hl.
    exists v. split_and!; [by left|done|]. destruct r as [r|]; [|done]. apply lift_err_ok in Hl.
    eapply reply_outcome_ok in Hl as (? & ? & ?). by apply plain_answers.
Qed.
Lemma worker_gone_inv v s : inv v s -> inv v (worker_gone s).
Proof. intros (commits & jobs & Hc). exists [], []. by eapply core_gone. Qed.

Lemma core_window v commits jobs active output deferred opened queue count replies window busy running stdout sent :
  core v commits jobs active output deferred opened queue count replies window busy running stdout sent ->
  commits = [] -> window_at v (emitted 0 sent) window.
Proof.
  intros Hc ->. destruct Hc. destruct window as [win|]; [|done]. destruct c_window0 as (q & ? & ? & ? & ? & Hch).
  cbn in Hch. unfold window_at. rewrite <- Hch. by exists q.
Qed.

Lemma worker_take_inv v s command rest w :
  inv v s -> w_running (s_worker s) = true -> w_busy (s_worker s) = None -> s_queue s = command :: rest ->
  inv v (worker_take command rest w s).
Proof.
  intros (commits & jobs & Hc) Hr Hb Hq. unfold worker_take. unfold inv_at in Hc. rewrite Hr, Hb in Hc. destruct command as [job|e n|].
  - destruct (core_take_job v _ _ _ _ _ _ _ _ _ _ _ _ _ _ Hc Hq) as (jobs' & -> & -> & Hc').
    destruct (later _ _).
    + exists [], []. destruct (run (reply_outcome (SessionClientFrame.request_id (job_message job)) SessionOutcome.Expired true) w)
        as [r|code] eqn:Hrun;
        (eapply core_gone, (core_finished v v); [exact Hc'|by left|by eapply core_window|]); [|done].
      destruct (reply_outcome_ok v _ _ _ _ _ Hrun) as (? & ? & _). by apply plain_answers.
    + exists [], jobs'. exact Hc'.
  - destruct (core_take_commit v _ _ _ _ _ _ _ _ _ _ _ _ _ _ _ _ Hc Hq) as (win & win' & commits' & Hw & Hcommit & Hc').
    destruct (later _ _); [exists [], []; by eapply core_gone|]. rewrite Hw, Hcommit. by exists commits', jobs.
  - exists [], []. eapply core_gone. exact Hc.
Qed.

Lemma worker_reply_answers v cursor window j r w ready :
  match r with Ok ready => answers v cursor window j ready | Err _ => True end ->
  run (worker_reply (SessionClientFrame.request_id (job_message j)) r) w = Ok ready ->
  answers v cursor window j ready.
Proof.
  intros Hr Hrun. destruct r as [r|e]; cbn in Hrun.
  - by apply ok_inj in Hrun as <-.
  - destruct (reply_failure_ok v _ _ _ _ Hrun) as (? & ? & _). by apply plain_answers.
Qed.

Lemma worker_finish_inv v s job w :
  inv v s -> w_running (s_worker s) = true -> w_busy (s_worker s) = Some job ->
  exists v', next_vector v job v' /\ inv v' (worker_finish blake3 open_window job w s).
Proof.
  intros (commits & jobs & Hc) Hr Hb. unfold inv_at in Hc. rewrite Hr, Hb in Hc.
  assert (commits = []) as -> by (by apply (c_busy _ _ _ _ _ _ _ _ _ _ _ _ _ _ _ Hc)).
  pose proof (core_window _ _ _ _ _ _ _ _ _ _ _ _ _ _ _ Hc eq_refl) as Hwin.
  assert (message_ok (job_message job)) as Hm by (by apply (Forall_cons_1 _ _ _ (c_valid _ _ _ _ _ _ _ _ _ _ _ _ _ _ _ Hc))).
  assert (is_open job = true -> v = None /\ emitted 0 (s_sent s) = 0) as Hopen.
  { intros Ho. assert (v = None) as ->.
    { destruct v as [q|]; [|done]. pose proof (c_unopened _ _ _ _ _ _ _ _ _ _ _ _ _ _ _ Hc ltac:(done)) as Hf.
      change (in_flight (Some job) jobs) with (job :: jobs) in Hf. rewrite opens_tail, Ho in Hf. done. }
    split; [done|]. apply emitted_none. apply (c_sent _ _ _ _ _ _ _ _ _ _ _ _ _ _ _ Hc). }
  pose proof (worker_execute_ok v _ _ job w (c_vector _ _ _ _ _ _ _ _ _ _ _ _ _ _ _ Hc) Hwin Hm Hopen) as Hex.
  unfold worker_finish. destruct (worker_execute blake3 open_window (w_window (s_worker s)) job w) as [[r window] w1].
  destruct Hex as (v' & Hv' & Hw' & Hans). exists v'. split; [exact Hv'|].
  set (ended := later _ _). match goal with |- context [let '(result, w) := ?e in _] => destruct e as [r' w2] eqn:Hover end.
  assert (match r' with Ok ready => answers v' (emitted 0 (s_sent s)) window job ready | Err _ => True end) as Hans'.
  { destruct ended; [|destruct (_ && _); by injection Hover as <- <-].
    destruct r' as [ready|]; [|done]. apply lift_err_ok in Hover. eapply reply_outcome_ok in Hover as (? & ? & _).
    by apply plain_answers. }
  assert (match run (worker_reply (SessionClientFrame.request_id (job_message job)) r') w2 with
    | Ok ready => answers v' (emitted 0 (s_sent s)) window job ready | Err _ => True end) as Hreply.
  { destruct (run _ w2) as [ready|] eqn:Hrun; [|done]. by eapply worker_reply_answers. }
  pose proof (core_finished v v' jobs _ _ _ _ _ _ _ _ window _ _ job _ Hc Hv' Hw' Hreply) as Hnew.
  destruct (ended || _); [exists [], []; eapply core_gone; exact Hnew|exists [], jobs; exact Hnew].
Qed.
End Jobs.

(** ** The exchange's turns *)

Section Exchange.
Context `{Json SessionReply.t, Json SessionClientFrame.t, !Unsigned _}.
Context (instant_max : Z) (v : option Vector).
Implicit Types s : System.

Lemma wp_cleanup (Q : Z -> System -> Prop) X s :
  (forall t now a, Q t (with_around now a s)) -> (forall now a, X (with_around now a s)) ->
  wp (cleanup_instant instant_max) Q X s.
Proof.
  intros HQ HX. apply wp_bind, wp_clock. intros now a. apply wp_some; [|apply HX]. intros t _. apply HQ.
Qed.

(** A new reply takes the free output. *)
Lemma inv_reply s o :
  inv v s -> x_active (s_exchange s) = None -> partial_of (x_output (s_exchange s)) = [] ->
  output_cursor o = 0 -> ready_ok v (output_id o) (output_ready o) -> ready_commit (output_ready o) = None ->
  inv v (with_exchange (set_output (Some o)) s).
Proof.
  intros (commits & jobs & Hc) Ha Hp Ho Hr Hn. exists commits, jobs. unfold inv_at in *. rewrite Ha in Hc.
  pose proof (core_reply v _ _ _ _ _ _ _ _ _ _ _ _ _ o Hc Hp Ho Hr Hn) as Hnew. cbn. rewrite Ha. exact Hnew.
Qed.

Lemma reject_inv s id code :
  inv v s -> x_active (s_exchange s) = None -> x_output (s_exchange s) = None ->
  wp (reject instant_max id code) (fun _ => inv v) (final v) s.
Proof.
  intros Hi Ha Ho. apply wp_bind, wp_memory; [|intros; exact (inv_final v s Hi)]. intros r w a Hr.
  apply wp_bind, wp_cleanup; [|intros; exact (inv_final v s Hi)]. intros t now a'. apply wp_update.
  destruct (reply_failure_ok v _ _ _ _ Hr) as (? & ? & _). apply inv_reply; try done. cbn. by rewrite Ho.
Qed.

Lemma inv_stopped s a b :
  inv v s -> x_active (s_exchange s) = Some a -> active_id b = active_id a -> active_job b = active_job a ->
  inv v (with_exchange (set_active (Some b)) s).
Proof.
  intros (commits & jobs & Hc) Ha Hid Hj. exists commits, jobs. unfold inv_at in *. rewrite Ha in Hc.
  exact (core_stopped v _ _ _ _ _ _ _ _ _ _ _ _ _ _ b Hc Hid Hj).
Qed.

Lemma cancel_current_inv s id :
  inv v s -> wp (cancel_current instant_max id) (fun _ => inv v) (final v) s.
Proof.
  intros Hi. pose proof (inv_final v s Hi) as Hf. apply wp_bind, wp_exchange.
  destruct (x_active (s_exchange s)) as [active|] eqn:Ha.
  - apply wp_bind, wp_guard; [|exact Hf]. intros _. apply wp_bind, wp_modify. apply wp_bind, wp_update.
    assert (inv v (with_exchange (set_active (Some (stop_active
      match active_stopped active with Some f => Some f | None => Some QueryCancelled end (active_cleanup active) active)))
      (with_flags ({[active_job active]} ∪ s_flags s) s))) as Hi' by (by eapply inv_stopped).
    apply wp_bind, wp_cleanup; [|intros; exact (inv_final v _ Hi')]. intros t now a. apply wp_update.
    eapply inv_stopped; [exact Hi'|reflexivity|done|done].
  - destruct (x_output (s_exchange s)) as [o|] eqn:Ho; [|by apply reject_inv].
    apply wp_bind, wp_guard; [|exact Hf]. intros Hid. apply wp_bind, wp_guard; [|exact Hf]. intros Hcur. to_prop.
    apply wp_bind, wp_memory; [|intros; exact Hf]. intros r w a Hr. apply wp_update.
    destruct (reply_failure_ok v _ _ _ _ Hr) as (? & ? & _). apply inv_reply; try done; cbn.
    + rewrite Ho. cbn. by rewrite Hcur.
    + by rewrite Hid.
Qed.

Lemma session_cancel_inv s id :
  inv v s -> wp (session_cancel instant_max id) (fun _ => inv v) (final v) s.
Proof.
  intros Hi. apply wp_bind, wp_exchange.
  destruct (match x_completed_id (s_exchange s) with Some c => id <=? c | None => false end); [by apply wp_ret|].
  destruct (x_deferred (s_exchange s)) as [d|] eqn:Hd; [|by apply cancel_current_inv].
  destruct (_ && _); [|by apply cancel_current_inv]. apply wp_update.
  destruct Hi as (commits & jobs & Hc). exists commits, jobs. unfold inv_at in *. rewrite Hd in Hc.
  destruct (c_deferred _ _ _ _ _ _ _ _ _ _ _ _ _ _ _ Hc d eq_refl) as [Ho Hm]. cbn.
  destruct (x_output (s_exchange s)) as [o|]; [|done].
  exact (core_defer v _ _ _ _ _ _ _ _ _ _ _ _ _ _ {| deferred_message := deferred_message d;
    deferred_started := deferred_started d; deferred_cancelled := true |} Hc Hm).
Qed.

(** The exchange is free to take a request. *)
Definition free s : Prop :=
  inv v s /\ x_active (s_exchange s) = None /\ x_output (s_exchange s) = None /\ x_deferred (s_exchange s) = None.
Definition opens (m : SessionClientFrame.t) : bool :=
  match m with SessionClientFrame.Open _ _ _ _ _ => true | _ => false end.

Lemma dispatch_inv s commits jobs message id started remaining job_expiry :
  inv_at v commits jobs s -> x_active (s_exchange s) = None -> x_output (s_exchange s) = None ->
  message_ok message -> id = SessionClientFrame.request_id message ->
  (opens message = true ->
     opens_in (in_flight (w_busy (s_worker s)) jobs) = [] /\ v = None /\ x_opened (s_exchange s) = true) ->
  wp (dispatch instant_max message id started remaining job_expiry) (fun _ => inv v) (final v) s.
Proof.
  intros Hc Ha Ho Hm -> Hopen. assert (final v s) as Hf by (apply inv_final; by exists commits, jobs). unfold dispatch.
  apply wp_bind, wp_some; [|exact Hf]. intros deadline _. apply wp_bind, wp_exchange. apply wp_bind.
  unfold wp at 1. apply wp_bind, wp_send.
  2:{ intros a. exact Hf. }
  2:{ intros a. exact Hf. }
  intros a Hr. apply wp_update. cbn in Hr.
  match goal with |- inv v (with_exchange (set_active (Some ?act)) (with_queue (_ ++ [Execute ?job]) _)) =>
    exists commits, (jobs ++ [job]); set (j := job); set (act' := act) end.
  unfold inv_at in *. cbn. rewrite Ho, Hr. rewrite Ha, Ho, Hr in Hc.
  replace (s_jobs s + 1)%nat with (Datatypes.S (s_jobs s)) by lia.
  apply (core_dispatch v _ _ _ _ _ _ _ _ _ _ _ j act'); try done.
  by apply message_valid in Hm as [? _].
Qed.

Lemma admit_inv s message id started :
  free s -> message_ok message -> id = SessionClientFrame.request_id message ->
  wp (admit_window instant_max message id started) (fun _ => inv v) (final v) s.
Proof.
  intros (Hi & Ha & Ho & Hd) Hm Hid. pose proof (inv_final v s Hi) as Hf. unfold admit_window.
  apply wp_bind, wp_update. apply wp_bind, wp_clock. intros now a. apply wp_bind, wp_exchange.
  assert (inv v (with_around now a (with_exchange (set_last_id id) s))) as Hi' by exact Hi.
  pose proof Hi as (commits & jobs & Hc).
  destruct message as [rid ms query size ttl|rid ms wid size|rid ms wid index before after|rid|rid]; cbn [s_exchange with_around with_exchange].
  - destruct (x_opened _) eqn:Hop; [by apply reject_inv|]. cbn in Hop.
    destruct (c_closed _ _ _ _ _ _ _ _ _ _ _ _ _ _ _ Hc Hop) as [Hnone Hv].
    apply wp_bind, wp_update. apply wp_bind, wp_some; [|exact Hf]. intros expires _. apply wp_bind, wp_update.
    apply (dispatch_inv _ commits jobs); try done. unfold inv_at in *. cbn. eapply core_opened. exact Hc.
  - destruct (negb _); [by apply reject_inv|]. by apply (dispatch_inv _ commits jobs).
  - destruct (negb _); [by apply reject_inv|]. by apply (dispatch_inv _ commits jobs).
  - exact Hf.
  - by apply (dispatch_inv _ commits jobs).
Qed.

Lemma accept_idle_inv s message id started :
  inv v s -> x_output (s_exchange s) = None -> x_deferred (s_exchange s) = None -> message_ok message ->
  id = SessionClientFrame.request_id message ->
  wp (accept_idle instant_max message id started) (fun _ => inv v) (final v) s.
Proof.
  intros Hi Ho Hd Hm Hid. pose proof (inv_final v s Hi) as Hf. apply wp_bind, wp_exchange.
  destruct (x_active (s_exchange s)) as [active|] eqn:Ha; [|by apply admit_inv].
  apply wp_bind, wp_guard; [|exact Hf]. intros _. apply wp_bind. unfold cancel_active. apply wp_bind, wp_exchange.
  rewrite Ha. apply wp_modify. apply wp_bind, wp_update. apply admit_inv; [|done|done]. split; [|done].
  destruct Hi as (commits & jobs & Hc). exists commits, jobs. eapply core_inactive. exact Hc.
Qed.

Lemma accept_request_inv s message id started :
  inv v s -> message_ok message -> id = SessionClientFrame.request_id message ->
  wp (accept_request instant_max message id started) (fun _ => inv v) (final v) s.
Proof.
  intros Hi Hm Hid. pose proof (inv_final v s Hi) as Hf. apply wp_bind, wp_exchange. destruct (_ <=? _).
  { destruct (x_active (s_exchange s)) eqn:Ha; [exact Hf|]. destruct (x_output (s_exchange s)) eqn:Ho; [exact Hf|].
    by apply reject_inv. }
  cbv zeta. pose proof Hi as (commits & jobs & Hc). destruct (x_output (s_exchange s)) as [o|] eqn:Ho.
  - destruct (is_close message && (output_cursor o =? 0)) eqn:Hclose.
    + to_prop. apply wp_bind, wp_update. apply wp_bind, wp_update. apply accept_idle_inv; try done.
      exists commits, jobs. eapply core_drop_output; [exact Hc|]. rewrite Ho. cbn.
      match goal with E : output_cursor o = 0 |- _ => by rewrite E end.
    + apply wp_bind, wp_guard; [|exact Hf]. intros _. apply wp_bind, wp_guard; [|exact Hf]. intros _. apply wp_update.
      exists commits, jobs. unfold inv_at in *. rewrite Ho in Hc. cbn. rewrite Ho. by eapply core_defer.
  - apply accept_idle_inv; try done. destruct (x_deferred (s_exchange s)) as [d|] eqn:Hd; [|done].
    destruct (c_deferred _ _ _ _ _ _ _ _ _ _ _ _ _ _ _ Hc d Hd) as [? _]. done.
Qed.

Lemma accept_inv s message started :
  inv v s -> message_ok message -> wp (accept instant_max message started) (fun _ => inv v) (final v) s.
Proof. intros Hi Hm. destruct message; try by apply accept_request_inv. by apply session_cancel_inv. Qed.

Lemma push_input_inv s bytes : inv v s -> wp (push_input bytes) (fun _ => inv v) (final v) s.
Proof.
  intros Hi. unfold wp, push_input. destruct (observe _) as [o rest]. destruct (push _ _ _) as [[count|e] input].
  - exact Hi.
  - exact (inv_final v s Hi).
Qed.

Lemma decoded_ok body m : decode_session_frame body = Ok m -> message_ok m.
Proof.
  unfold decode_session_frame, decode. intros Hd. apply bind_ok_inv in Hd as (m' & Hp & Hd).
  apply bind_ok_inv in Hd as ([] & Hv & Hd). apply ok_inj in Hd as <-. split; [done|]. intros size.
  repeat (apply bind_ok_inv in Hp as (? & _ & Hp)). apply ok_or_inv in Hp. by eapply unsigned_size.
Qed.

Lemma consume_inv fuel : forall bytes s, inv v s -> wp (consume instant_max fuel bytes) (fun _ => inv v) (final v) s.
Proof.
  induction fuel as [|fuel IH]; intros bytes s Hi; destruct bytes as [|b bytes]; try exact Hi; [exact (inv_final v s Hi)|].
  cbn [consume]. apply wp_bind, wp_exchange.
  assert (wp (if is_empty (x_input (s_exchange s)) then now ← read_clock; update (set_frame_started (Some now)) else mret tt)
    (fun _ => inv v) (final v) s) as Hclock.
  { destruct (is_empty _); [|exact Hi]. apply wp_bind, wp_clock. intros now a. apply wp_update. exact Hi. }
  apply wp_bind. eapply wp_weaken; [exact Hclock|]. clear s Hi Hclock. intros [] s Hi.
  apply wp_bind. eapply wp_weaken; [by apply push_input_inv|]. clear s Hi. intros count s Hi.
  apply wp_bind, wp_guard; [|exact (inv_final v s Hi)]. intros _. apply wp_bind, wp_exchange.
  apply wp_bind. eapply (wp_weaken _ _ (fun _ => inv v)); [|intros [] s' Hi'; by apply IH].
  destruct (frame (x_input (s_exchange s))) as [body|]; [|exact Hi].
  apply wp_bind, wp_lift; [|exact (inv_final v s Hi)]. intros m Hm%map_err_ok%decoded_ok.
  apply wp_bind, wp_some; [|exact (inv_final v s Hi)]. intros started _. apply wp_bind, wp_update.
  apply wp_bind, wp_lift; [|exact (inv_final v s Hi)]. intros input _. apply wp_bind, wp_update.
  apply accept_inv; [exact Hi|done].
Qed.

Lemma received_inv s active r :
  inv v s -> x_active (s_exchange s) = Some active -> x_output (s_exchange s) = None ->
  s_replies s !! active_job active = Some r ->
  wp (received r) (fun _ => inv v) (final v) s.
Proof.
  intros Hi Ha Ho Hr. pose proof (inv_final v s Hi) as Hf. apply wp_bind, wp_exchange. apply wp_bind.
  rewrite Ha. apply wp_ret. apply wp_bind, wp_update. apply wp_bind, wp_lift; [|exact Hf]. intros ready ->.
  pose proof Hi as (commits & jobs & Hc). unfold inv_at in Hc. rewrite Ha, Ho in Hc.
  destruct (c_active _ _ _ _ _ _ _ _ _ _ _ _ _ _ _ Hc active eq_refl) as (Hn & Hid & Hans). rewrite Hr in Hans.
  destruct Hans as [Hok Hcommit].
  assert (inv v (with_exchange (set_active None) s)) as Hi'.
  { exists commits, jobs. unfold inv_at. cbn. rewrite Ho. by eapply core_inactive. }
  assert (forall deadline, inv v (with_exchange (set_output (Some {| output_id := active_id active; output_ready := ready;
    output_cursor := 0; output_deadline := deadline |})) (with_exchange (set_active None) s))) as Hplain.
  { intros deadline. exists commits, jobs. unfold inv_at. cbn. apply core_inactive in Hc. destruct Hc. constructor; try done.
    - by left.
    - intros d Hd. by destruct (c_deferred0 d Hd).
    - intros o [= <-]. cbn. split_and!; [done|lia|apply len_nonneg|done]. }
  apply wp_bind. destruct (active_stopped active) as [failure|]; [|apply Hplain].
  destruct (ready_end ready); [apply Hplain|]. apply wp_memory; [|intros; exact Hf]. intros r' w a Hr'. apply wp_update.
  destruct (reply_failure_ok v _ _ _ _ Hr') as (? & ? & _). apply inv_reply; try done. cbn. by rewrite Ho.
Qed.

Lemma timed_out_inv s : inv v s -> wp (timed_out instant_max) (fun _ => inv v) (final v) s.
Proof.
  intros Hi. pose proof (inv_final v s Hi) as Hf. apply wp_bind, wp_exchange.
  destruct (x_active (s_exchange s)) as [active|] eqn:Ha; [|exact Hf]. apply wp_bind, wp_guard; [|exact Hf]. intros _.
  apply wp_bind, wp_modify. apply wp_bind, wp_clock. intros now a. apply wp_update. by eapply inv_stopped.
Qed.

Lemma final_flushed s o :
  inv v s -> x_output (s_exchange s) = Some o -> output_cursor o = len (ready_bytes (output_ready o)) ->
  final v (with_sent o (with_exchange (set_output None) s)).
Proof.
  intros (commits & jobs & Hc) Ho Hl. unfold inv_at in Hc. rewrite Ho in Hc. destruct Hc.
  destruct (c_output0 o eq_refl) as (Hok & _ & Hcommit). split; [done|]. split; cbn.
  - apply delivered_app. split; [done|]. cbn. split; [done|].
    destruct (ready_commit (output_ready o)) as [[e n]|]; [|done]. by destruct (Hcommit e n eq_refl).
  - exists []. split; [|by left]. rewrite c_stdout0. unfold sent_bytes. rewrite map_app, concat_app. cbn. rewrite Hl. unfold len.
    rewrite Nat2Z.id, take_ge by done. by rewrite !app_nil_r.
Qed.

(** After a flush and its commit: the exchange without output and deferred request. *)
Lemma flush_sent s o (commit : Turn unit) :
  inv v s -> x_output (s_exchange s) = Some o -> output_cursor o = len (ready_bytes (output_ready o)) ->
  commit = match ready_commit (output_ready o) with Some (e, n) => send_or_fail (Commit e n) | None => mret tt end ->
  wp commit
    (fun _ s' => final v s' /\ s_exchange s' = set_output None (s_exchange s) /\
                 inv v (with_exchange (set_deferred None) s'))
    (final v) (with_sent o (with_exchange (set_output None) s)).
Proof.
  intros Hi Ho Hl ->. pose proof (final_flushed s o Hi Ho Hl) as Hf.
  destruct Hi as (commits & jobs & Hc). unfold inv_at in Hc. rewrite Ho in Hc.
  destruct (ready_commit (output_ready o)) as [[e n]|] eqn:Hn.
  - apply wp_send; [|intros a; exact Hf|intros a; exact Hf]. intros a Hr. split; [exact Hf|]. split; [done|].
    cbn in Hr. rewrite Hr in Hc. exists (commits ++ [(e, n)]), jobs. unfold inv_at. cbn. rewrite Hr.
    exact (core_committed v _ _ _ _ _ _ _ _ _ _ _ _ _ e n Hc Hl Hn).
  - apply wp_ret. split; [exact Hf|]. split; [done|]. exists commits, jobs.
    exact (core_flushed v _ _ _ _ _ _ _ _ _ _ _ _ _ _ Hc Hl Hn).
Qed.

Lemma flushed_inv s o :
  inv v s -> x_output (s_exchange s) = Some o -> len (ready_bytes (output_ready o)) <= output_cursor o ->
  wp (flushed instant_max) (fun over s' => if over : bool then final v s' else inv v s') (final v) s.
Proof.
  intros Hi Ho Hl. assert (output_cursor o = len (ready_bytes (output_ready o))) as Hlen.
  { pose proof Hi as (commits & jobs & Hc). destruct (c_output _ _ _ _ _ _ _ _ _ _ _ _ _ _ _ Hc o Ho) as (_ & ? & _). lia. }
  assert (forall d, x_deferred (s_exchange s) = Some d -> message_ok (deferred_message d)) as Hdef.
  { intros d Hd. pose proof Hi as (commits & jobs & Hc). by destruct (c_deferred _ _ _ _ _ _ _ _ _ _ _ _ _ _ _ Hc d Hd). }
  apply wp_bind, wp_exchange. apply wp_bind. rewrite Ho. apply wp_ret. apply wp_bind, wp_update. apply wp_bind, wp_modify.
  apply wp_bind. eapply wp_weaken; [by eapply (flush_sent s o)|]. intros [] s' (Hf & Hx & Hi').
  apply wp_bind, wp_update. destruct (ready_end (output_ready o)); [exact Hf|]. apply wp_bind, wp_exchange.
  apply wp_bind. eapply (wp_weaken _ _ (fun _ => inv v)); [|intros [] s'' Hi''; exact Hi''].
  cbn [s_exchange with_exchange x_deferred set_completed_id]. rewrite Hx. cbn [x_deferred set_output].
  destruct (x_deferred (s_exchange s)) as [d|] eqn:Hd.
  - apply wp_bind, wp_update. destruct (deferred_cancelled d).
    + apply wp_bind, wp_update. apply wp_bind, wp_memory; [|intros; exact Hf]. intros r w a Hr.
      apply wp_bind, wp_cleanup; [|intros; exact Hf]. intros t now a'. apply wp_update.
      destruct (reply_failure_ok v _ _ _ _ Hr) as (? & ? & _). apply inv_reply; try done; cbn; [|by rewrite Hx].
      rewrite Hx. cbn. destruct Hi as (commits & jobs & Hc). destruct (c_alone _ _ _ _ _ _ _ _ _ _ _ _ _ _ _ Hc); congruence.
    + apply accept_inv; [exact Hi'|by apply Hdef].
  - apply wp_ret. destruct Hi' as (commits & jobs & Hc). exists commits, jobs. unfold inv_at in *. cbn in *.
    by rewrite Hx in *; cbn in *; rewrite Hd.
Qed.

Lemma wrote_inv s o count :
  inv v s -> x_output (s_exchange s) = Some o -> 0 <= count <= len (ready_bytes (output_ready o)) - output_cursor o ->
  inv v (with_exchange (set_output (Some {| output_id := output_id o; output_ready := output_ready o;
           output_cursor := output_cursor o + count; output_deadline := output_deadline o |}))
    (with_output_bytes (take (Z.to_nat count) (drop (Z.to_nat (output_cursor o)) (ready_bytes (output_ready o)))) s)).
Proof.
  intros (commits & jobs & Hc) Ho Hn. exists commits, jobs. unfold inv_at in *. rewrite Ho in Hc. cbn. destruct Hc.
  destruct (c_output0 o eq_refl) as (Hok & Hcur & Hcommit). constructor; try done.
  - left. by destruct c_alone0.
  - intros d Hd. by destruct (c_deferred0 d Hd).
  - intros o' [= <-]. cbn. split; [done|]. split; [lia|done].
  - rewrite c_stdout0, <- app_assoc. f_equal. cbn. rewrite Z2Nat.inj_add by lia. symmetry.
    rewrite <- (take_take_drop (ready_bytes (output_ready o)) (Z.to_nat (output_cursor o)) (Z.to_nat count)). done.
Qed.

(** The last frame, all of it or a part. *)
Lemma write_last_final s bytes fault :
  vector_ok v -> delivered v 0 (s_sent s) -> s_stdout s = sent_bytes (s_sent s) -> framed bytes ->
  wp (write_last bytes fault) (fun _ => final v) (final v) s.
Proof.
  intros Hv Hd Hs Hb.
  assert (forall part, part `prefix_of` bytes -> final v (with_output_bytes part s)) as Hpart.
  { intros part Hp. split; [done|]. split; [done|]. exists part. cbn. rewrite Hs. split; [done|]. right. by exists bytes. }
  unfold write_last. destruct fault as [[count code]|].
  - apply wp_bind, wp_modify. apply Hpart, prefix_take.
  - apply wp_modify. by apply Hpart.
Qed.

Lemma exchange_turn_good idle branch s :
  inv v s -> enabled instant_max idle branch s ->
  wp (exchange_turn instant_max branch)
    (fun next s' => match next with Loop => inv v s' | Leave => final v s' | Expire => expiring v s' end) (final v) s.
Proof.
  intros Hi He. pose proof (inv_final v s Hi) as Hf. pose proof (inv_expiring v s Hi) as Hx.
  apply wp_bind, wp_exchange. apply wp_bind, wp_passed. intros late now a.
  destruct late; [exact Hx|]. set (s1 := with_around now a s). assert (inv v s1) as Hi1 by exact Hi.
  destruct branch as [r|r|r|ok|ok fault|].
  - apply wp_bind, wp_some; [|exact Hf]. intros bytes _. destruct bytes as [|b bytes].
    + destruct (is_empty _); exact Hf.
    + apply wp_bind. eapply wp_weaken; [by apply consume_inv|]. intros [] s' Hi'. exact Hi'.
  - destruct He as (Ho & active & Ha & Hr). apply wp_bind, wp_some; [|exact Hf]. intros ready ->.
    destruct (s_replies s !! active_job active) as [reply|] eqn:Hreply; [|by destruct Hr].
    injection Hr as ->. apply wp_bind. eapply wp_weaken; [by eapply received_inv|]. intros [] s' Hi'. exact Hi'.
  - destruct He as (o & Ho & Hcur & Hr). apply wp_bind, wp_some; [|exact Hf]. intros count ->.
    apply wp_bind, wp_guard; [|exact Hf]. intros _. apply wp_bind. rewrite Ho. apply wp_ret. cbv zeta.
    apply wp_bind, wp_modify. apply wp_bind, wp_update. apply wp_ret. by apply (wrote_inv s1).
  - destruct He as (o & Ho & Hl). apply wp_bind, wp_guard; [|exact Hf]. intros _. apply wp_bind, wp_passed.
    intros late now' a'. destruct late; [exact Hx|]. apply wp_bind. eapply wp_weaken; [by eapply flushed_inv|].
    intros [|] s' Hi'; exact Hi'.
  - destruct He as (Ha & Ho & _ & Hfault). apply wp_bind, wp_guard; [|exact Hf]. intros _. apply wp_bind, wp_passed.
    intros late now' a'. apply wp_bind, wp_guard; [|exact Hf]. intros _. apply wp_bind, wp_memory; [|intros; exact Hf].
    intros r w a'' Hr. destruct (reply_outcome_ok v _ _ _ _ _ Hr) as ([Hframed _] & _ & _).
    destruct Hx as (Hv & Hd & Hs & _). rewrite Ho in Hs. cbn in Hs. rewrite app_nil_r in Hs.
    apply wp_bind. eapply wp_weaken; [by apply write_last_final|]. intros [] s' Hs'. exact Hs'.
  - apply wp_bind, wp_passed. intros late now' a'. destruct late; [exact Hx|]. apply wp_bind.
    eapply wp_weaken; [by apply timed_out_inv|]. intros [] s' Hi'. exact Hi'.
Qed.

Lemma expire_end_final fault s : expiring v s -> wp (expire_end fault) (fun _ => final v) (final v) s.
Proof.
  intros Hx. pose proof (expiring_final v s Hx) as Hf. apply wp_bind, wp_exchange. apply wp_bind, wp_guard; [|exact Hf].
  intros Hcur. cbv zeta. apply wp_bind, wp_memory; [|intros; exact Hf]. intros r w a Hr.
  destruct (reply_outcome_ok v _ _ _ _ _ Hr) as ([Hframed _] & _ & _). destruct Hx as (Hv & Hd & Hs & Ho).
  apply write_last_final; try done. cbn. rewrite Hs. destruct (x_output (s_exchange s)) as [o|]; [|by rewrite app_nil_r].
  to_prop. cbn. replace (output_cursor o) with 0 by lia. by rewrite app_nil_r.
Qed.
End Exchange.

(** ** Every reached session *)

Section Reached.
Context `{Json SessionReply.t, Json SessionClientFrame.t, !Unsigned _}.
Context (instant_max : Z) (blake3 : list Z -> list Z) (open_window : WindowQuery.t -> Z -> M QueryFailure Window).
Context `{!Opens open_window}.

(** The worker touches neither the exchange nor the output. *)
Definition aside (s s' : System) : Prop :=
  s_exchange s' = s_exchange s /\ s_stdout s' = s_stdout s /\ s_sent s' = s_sent s /\ s_phase s' = s_phase s.

Lemma aside_gone s : aside s (worker_gone s).
Proof. done. Qed.
Lemma aside_take command rest w s : aside s (worker_take command rest w s).
Proof.
  unfold worker_take. destruct command as [job|e n|]; [| |done].
  - by destruct (later _ _).
  - destruct (later _ _); [done|]. destruct (w_window _) as [win|]; [|done]. by destruct (commit_page _ _ _).
Qed.
Lemma aside_finish job w s : aside s (worker_finish blake3 open_window job w s).
Proof.
  unfold worker_finish. destruct (worker_execute _ _ _ _ _) as [[r window] w1].
  match goal with |- context [let '(result, w) := ?e in _] => destruct e as [r' w2] end. by destruct (_ || _).
Qed.

Lemma aside_good v v' s s' :
  aside s s' -> grows v v' -> vector_ok v' -> (s_phase s = Serving -> inv v' s') -> good v s -> good v' s'.
Proof.
  intros (Hx & Ho & Hs & Hp) Hg Hv Hi Hgood. unfold good in *. rewrite Hp. destruct (s_phase s).
  - by apply Hi.
  - destruct Hgood as (_ & Hd & Hout & Hb). unfold expiring. rewrite Hx, Ho, Hs. split; [done|].
    split; [by eapply delivered_grows|]. done.
  - destruct Hgood as (_ & Hd & Hout). unfold final. rewrite Ho, Hs. split; [done|]. split; [by eapply delivered_grows|done].
Qed.

Lemma good_vector v s : good v s -> vector_ok v.
Proof.
  unfold good. destruct (s_phase s); [|by intros (? & _)..]. intros (commits & jobs & Hc).
  exact (c_vector _ _ _ _ _ _ _ _ _ _ _ _ _ _ _ Hc).
Qed.

Lemma worker_finish_grows v s job w :
  inv v s -> w_running (s_worker s) = true -> w_busy (s_worker s) = Some job ->
  exists v', grows v v' /\ inv v' (worker_finish blake3 open_window job w s).
Proof.
  intros Hi Hr Hb. destruct v as [q|].
  - destruct (worker_finish_inv blake3 open_window (Some q) s job w Hi Hr Hb) as (v' & Hv' & Hi').
    exists v'. split; [|done]. destruct Hv' as [->|(? & _)]; [by intros q'|done].
  - destruct (worker_finish_inv blake3 open_window None s job w Hi Hr Hb) as (v' & _ & Hi'). exists v'. by split.
Qed.

Lemma settle_good v r s next_ok :
  wp next_ok (fun next s' => match next with Loop => inv v s' | Leave => final v s' | Expire => expiring v s' end) (final v) r ->
  next_ok r = s -> good v (settle (fst s) (snd s)).
Proof.
  intros Hw <-. unfold wp in Hw. destruct (next_ok r) as [[[]|e] s']; cbn; unfold good; cbn; unfold drop_exchange.
  - exact Hw.
  - destruct (x_active _), (w_running _); exact Hw.
  - destruct (x_active _), (w_running _); exact Hw.
  - destruct (x_active _), (w_running _); exact Hw.
Qed.

Lemma step_good idle v s s' :
  good v s -> step instant_max blake3 open_window idle s s' -> exists v', good v' s'.
Proof.
  intros Hg Hstep. pose proof (good_vector v s Hg) as Hv.
  destruct Hstep as [branch s r s' Hp He Hrun|fault s r s' Hp Hw Hfault Hrun|code s Hp Hcode|command rest w s Hr Hb Hq
    |job w s Hr Hb|s Hr Hb Hq He|s|now a s Hn].
  - exists v. unfold good in Hg. rewrite Hp in Hg.
    exact (settle_good v s (r, s') _ (exchange_turn_good instant_max v idle branch s Hg He) Hrun).
  - exists v. unfold good in *. rewrite Hp in Hg. cbn. pose proof (expire_end_final v fault s Hg) as Hend. unfold wp in Hend.
    rewrite Hrun in Hend. destruct r; exact Hend.
  - exists v. unfold good in *. rewrite Hp in Hg. cbn. exact (expiring_final v s Hg).
  - exists v. eapply aside_good; [apply aside_take|by intros q|done| |exact Hg]. intros Hp. unfold good in Hg. rewrite Hp in Hg.
    by apply worker_take_inv.
  - destruct (s_phase s) eqn:Hp.
    + assert (inv v s) as Hi by (unfold good in Hg; by rewrite Hp in Hg).
      destruct (worker_finish_grows v s job w Hi Hr Hb) as (v' & Hgrow & Hi'). exists v'.
      eapply aside_good; [apply aside_finish|exact Hgrow| |done|exact Hg]. destruct Hi' as (commits & jobs & Hc).
      exact (c_vector _ _ _ _ _ _ _ _ _ _ _ _ _ _ _ Hc).
    + exists v. eapply aside_good; [apply aside_finish|by intros q|done|congruence|exact Hg].
    + exists v. eapply aside_good; [apply aside_finish|by intros q|done|congruence|exact Hg].
  - exists v. eapply aside_good; [apply aside_gone|by intros q|done| |exact Hg]. intros Hp. unfold good in Hg. rewrite Hp in Hg.
    by apply worker_gone_inv.
  - exists v. eapply aside_good; [apply aside_gone|by intros q|done| |exact Hg]. intros Hp. unfold good in Hg. rewrite Hp in Hg.
    by apply worker_gone_inv.
  - exists v. exact Hg.
Qed.

Lemma start_good now a s : session_start now a = Ok s -> good None s.
Proof.
  intros Hs. unfold session_start in Hs. apply bind_ok_inv in Hs as (x & Hx & Hs). apply ok_inj in Hs as <-.
  unfold new_exchange in Hx. apply bind_ok_inv in Hx as (input & _ & Hx). apply ok_inj in Hx as <-.
  exists [], []. unfold inv_at. cbn. constructor; try done; try exact (SSorted_nil _); try exact (List.Forall_nil _);
    try (by left); try (by cbn; lia); intros ?; done.
Qed.

Lemma reached_good s : reached instant_max blake3 open_window s -> exists v, good v s.
Proof.
  intros (now & a & s0 & idle & Hs0 & Hsteps). apply start_good in Hs0. revert Hs0. generalize (@None Vector).
  induction Hsteps as [s|s s1 s2 Hstep _ IH]; intros v Hg; [by exists v|].
  destruct (step_good idle v s s1 Hg Hstep) as (v' & Hg'). by apply (IH v').
Qed.
End Reached.

(** ** What the client has received *)

Section Delivery.
Context `{Json SessionReply.t}.

(** The flushed frames that carry pages, and the pages they carry. *)
Definition page_outputs (sent : list Output) : list Output :=
  filter (fun o => ready_commit (output_ready o) <> None) sent.
Definition carries_page (o : Output) (p : WindowPage.t) : Prop :=
  ready_bytes (output_ready o) = frame_of (json_bytes (to_writer (page_reply (output_id o) p))).

(** The client accepts the pages one after the other, each after the entries it holds. *)
Fixpoint accepted (query : WindowQuery.t) (held : list WindowEntry.t) (pages : list WindowPage.t) : Prop :=
  match pages with
  | [] => True
  | p :: rest =>
      (exists size, WindowPage.validate_request p query held size = Ok tt) /\
      accepted query (held ++ WindowPage.items p) rest
  end.

Lemma delivered_pages q sent : window_fit (v_query q) (v_items q) (v_summary q) -> forall c,
  0 <= c <= len (v_items q) -> delivered (Some q) c sent ->
  exists pages, Forall2 carries_page (page_outputs sent) pages /\
    accepted (v_query q) (page_slice (v_items q) 0 c) pages /\ 0 <= emitted c sent <= len (v_items q) /\
    page_slice (v_items q) 0 c ++ flat_map WindowPage.items pages = page_slice (v_items q) 0 (emitted c sent).
Proof.
  intros Hfit. induction sent as [|o sent IH]; intros c Hc Hd.
  { exists []. cbn. rewrite app_nil_r. by split_and!; try lia. }
  cbn [delivered emitted] in *. destruct Hd as [[_ Hr] Hd]. unfold page_outputs. rewrite filter_cons.
  destruct (ready_commit (output_ready o)) as [[e n]|] eqn:Hcommit; [|destruct (IH c Hc Hd) as (pages & Hp & Hrest)].
  - destruct Hr as (q' & [= <-] & size & Hid & Hsize & He & Hk & Hk1 & Hbytes). destruct Hd as [-> Hd].
    assert (c + (n - c) = n) as Hcn by lia. unfold wanted in Hk.
    destruct (IH n ltac:(lia) Hd) as (pages & Hp & Ha & Hem & Hflat).
    exists (page_of (v_items q) (v_summary q) c size (n - c) :: pages). case_decide; [|done].
    assert (page_slice (v_items q) 0 c ++ page_slice (v_items q) c (n - c) = page_slice (v_items q) 0 n) as Happ.
    { rewrite <- Hcn at 2. rewrite page_slice_app by lia. done. }
    split_and!; [by constructor| |lia|lia|].
    + cbn [accepted page_of WindowPage.items]. split; [exists size; apply page_of_accepted; try done; unfold wanted; lia|].
      by rewrite Happ.
    + cbn [flat_map page_of WindowPage.items]. rewrite (assoc_L (++)), Happ. exact Hflat.
  - exists pages. by case_decide.
Qed.

Lemma delivered_none c sent : delivered None c sent -> page_outputs sent = [].
Proof.
  revert c. induction sent as [|o sent IH]; intros c; [done|]. cbn [delivered]. intros [[_ Hr] Hd].
  unfold page_outputs. rewrite filter_cons. destruct (ready_commit (output_ready o)) as [[e n]|] eqn:Hc.
  - by destruct Hr as (q & ? & _).
  - case_decide; [done|]. by apply (IH c).
Qed.
Lemma delivered_framed v c sent : delivered v c sent -> Forall (fun o => framed (ready_bytes (output_ready o))) sent.
Proof.
  revert c. induction sent as [|o sent IH]; intros c; [constructor|]. cbn [delivered]. intros [[Hf _] Hd].
  constructor; [done|]. destruct (ready_commit (output_ready o)) as [[e n]|]; [destruct Hd as [_ Hd]|]; by eapply IH.
Qed.
End Delivery.

Section Claims.
Context `{Json SessionReply.t, Json SessionClientFrame.t, !Unsigned _}.
Context (instant_max : Z) (blake3 : list Z -> list Z) (open_window : WindowQuery.t -> Z -> M QueryFailure Window).
Context `{!Opens open_window}.

(** C27. What the standard output of a session is, at every moment of every interleaving of
    input, output, timers, worker turns, cancellations, worker failures and refused memory.
    It is the flushed frames one after the other, each the whole frame of a valid reply,
    and then a prefix of one more such frame.  The flushed pages are of one window whose
    vector is fit for its query; the client accepts each of them after the entries it
    already holds, and together they are exactly the vector's entries from the first up to
    the emitted cursor: nothing is lost, repeated or reordered, whatever was cancelled,
    rejected or replaced on the way. *)
Theorem session_delivers s (Hreached : reached instant_max blake3 open_window s) :
  (exists partial, s_stdout s = concat (map (fun o => ready_bytes (output_ready o)) (s_sent s)) ++ partial /\
     (partial = [] \/ exists whole, framed whole /\ partial `prefix_of` whole)) /\
  Forall (fun o => framed (ready_bytes (output_ready o))) (s_sent s) /\
  (page_outputs (s_sent s) = [] \/
   exists q pages, window_fit (v_query q) (v_items q) (v_summary q) /\
     Forall2 carries_page (page_outputs (s_sent s)) pages /\ accepted (v_query q) [] pages /\
     flat_map WindowPage.items pages = page_slice (v_items q) 0 (emitted 0 (s_sent s))).
Proof.
  destruct (reached_good instant_max blake3 open_window s Hreached) as (v & Hg).
  assert (final v s) as (Hv & Hd & Hout).
  { unfold good in Hg. destruct (s_phase s); [by apply inv_final|by apply expiring_final|exact Hg]. }
  split; [exact Hout|]. split; [by eapply delivered_framed|]. destruct v as [q|]; [right|left; by eapply delivered_none].
  destruct (delivered_pages q (s_sent s) (Hv q eq_refl) 0) as (pages & Hp & Ha & _ & Hflat).
  { split; [lia|apply len_nonneg]. }
  { exact Hd. }
  exists q, pages. split_and!; [by apply Hv|done|done|exact Hflat].
Qed.

(** C28. The worker's cursor check never fails.  Whenever a commit is the next command of
    the worker of a session that is served, the worker holds a window whose cursor is
    where the committed page started, and the commit moves it to the page's end; the
    branch that stops the worker for a stale cursor is never taken. *)
Theorem commit_never_stale s (Hreached : reached instant_max blake3 open_window s) expected next rest
    (Hserving : s_phase s = Serving) (Hqueue : s_queue s = Commit expected next :: rest) :
  exists win win', w_window (s_worker s) = Some win /\ commit_page win expected next = Ok win' /\
    window_cursor win = expected /\ window_cursor win' = next.
Proof.
  destruct (reached_good instant_max blake3 open_window s Hreached) as (v & Hg). unfold good in Hg. rewrite Hserving in Hg.
  destruct Hg as (commits & jobs & Hc). unfold inv_at in Hc.
  assert (w_running (s_worker s) = true) as Hr.
  { destruct (w_running (s_worker s)) eqn:Hr; [done|]. destruct (c_gone _ _ _ _ _ _ _ _ _ _ _ _ _ _ _ Hc eq_refl) as (Hq & _).
    congruence. }
  rewrite Hr in Hc.
  destruct (core_take_commit v _ _ _ _ _ _ _ _ _ _ _ _ _ _ _ _ Hc Hqueue) as (win & win' & _ & Hw & Hcommit & _).
  exists win, win'. split_and!; [done|done|..]; unfold commit_page in Hcommit;
    apply bind_ok_inv in Hcommit as ([] & Hg%reject_if_ok & Hcommit); apply ok_inj in Hcommit as <-; to_prop; done.
Qed.
End Claims.

(** ** A session over "banana" *)

#[export] Instance window_opens blake3 `{Prost UpsertPoints, Prost Named, Prost GetPoints, Prost QueryPoints, Prost Probe}
    variable server channel in_runtime open_plain pin_published `{!Pins pin_published} endpoint :
  Opens (window_open blake3 variable server channel in_runtime open_plain pin_published endpoint).
Proof.
  intros query expires w win Hrun.
  by destruct (window_opened blake3 variable server channel in_runtime open_plain pin_published endpoint query expires
    w win Hrun) as (Hok & Hc & _).
Qed.

(** A codec of four one-byte messages. *)
Definition client_json : Json SessionClientFrame.t :=
  {| to_writer _ := {| chunks_of := []; serialized := true |};
     from_slice body := match body with
       | [1] => Some (SessionClientFrame.Open 1 1000 (WindowQuery.Raw banana_request) 1 60000)
       | [2] => Some (SessionClientFrame.Continue 2 1000 1 1)
       | [3] => Some (SessionClientFrame.Cancel 100)
       | [4] => Some (SessionClientFrame.Cancel 1)
       | _ => None
       end |}.
#[export] Instance client_unsigned : Unsigned client_json.
Proof. intros body m size. cbn. repeat case_match; intros [= <-]; cbn; try done; intros [= <-]; lia. Qed.

Definition banana_open : WindowQuery.t -> Z -> M QueryFailure Window :=
  @window_open toy_digest no_length no_length no_length None found_server found_channel false
    (mret (toy_root banana)) (fun _ => mret banana_pinned) None.
#[export] Instance banana_opens : Opens banana_open.
Proof.
  exact (@window_opens toy_digest no_length no_length no_length no_length no_length None found_server found_channel false
    (mret (toy_root banana)) (fun _ => mret banana_pinned) banana_pins None).
Qed.

Definition sample_instant_max : Z := 2 ^ 63 * 1000000000 - 1.
Definition sample_idle : Z := 120 * 1000000000.
Definition sample_step : System -> System -> Prop :=
  @step brief_json client_json sample_instant_max toy_digest banana_open sample_idle.
Definition sample_reached : System -> Prop :=
  @reached brief_json client_json sample_instant_max toy_digest banana_open.
Definition client_frame (kind : Z) : list Z := frame_of [kind].

Definition sample_start : System :=
  {| s_exchange := {| x_input := {| prefix := [0; 0; 0; 0]; prefix_used := 0; buffer := []; used := 0;
                                    maximum := MAX_CLIENT_FRAME_BYTES |};
                      x_frame_started := None; x_opened := false; x_last_id := 0; x_completed_id := None;
                      x_expires := None; x_active := None; x_output := None; x_deferred := None |};
     s_queue := []; s_jobs := 0; s_flags := ∅; s_replies := ∅;
     s_worker := {| w_window := None; w_expires := None; w_busy := None; w_running := true |};
     s_stdout := []; s_sent := []; s_now := 0; s_around := {| ticks := []; memory := []; panics := [] |};
     s_phase := Serving |}.

(** The turns as functions. *)
Definition turn (branch : Branch) (s : System) : System :=
  let '(r, s') := @exchange_turn brief_json client_json sample_instant_max branch s in settle r s'.
Definition read_turn (kind : Z) : System -> System := turn (Read (Some (client_frame kind))).
Definition reply_turn (s : System) : System :=
  match x_active (s_exchange s) with Some a => turn (Reply (s_replies s !! active_job a)) s | None => s end.
Definition write_turn (s : System) : System :=
  match x_output (s_exchange s) with
  | Some o => turn (Wrote (Some (len (ready_bytes (output_ready o))))) s
  | None => s
  end.
Definition flush_turn : System -> System := turn (Flushed true).
Definition take_turn (s : System) : System :=
  match s_queue s with command :: rest => @worker_take brief_json command rest [] s | [] => s end.
Definition finish_turn (s : System) : System :=
  match w_busy (s_worker s) with Some job => @worker_finish brief_json toy_digest banana_open job [] s | None => s end.

Definition serving (s : System) : bool := match s_phase s with Serving => true | _ => false end.
Definition has {A} (o : option A) : bool := match o with Some _ => true | None => false end.

Lemma turn_step branch s :
  serving s = true -> enabled sample_instant_max sample_idle branch s -> sample_step s (turn branch s).
Proof.
  unfold serving, turn. destruct (s_phase s) eqn:Hp; try done. intros _ He.
  destruct (@exchange_turn brief_json client_json sample_instant_max branch s) as [r s'] eqn:Hr. by eapply step_exchange.
Qed.
Lemma read_step kind s : serving s = true -> sample_step s (read_turn kind s).
Proof. intros Hs. apply turn_step; [done|]. change (len (client_frame kind) <= 8192). reflexivity || (vm_compute; discriminate). Qed.
Lemma reply_step s :
  serving s && negb (has (x_output (s_exchange s)))
  && match x_active (s_exchange s) with Some a => has (s_replies s !! active_job a) | None => false end = true ->
  sample_step s (reply_turn s).
Proof.
  rewrite !andb_true_iff. intros [[Hs Ho] Ha]. unfold reply_turn. destruct (x_active (s_exchange s)) as [a|] eqn:Hact; [|done].
  apply turn_step; [done|]. split; [by destruct (x_output (s_exchange s))|]. exists a. split; [done|].
  by destruct (s_replies s !! active_job a).
Qed.
Lemma write_step s :
  serving s && match x_output (s_exchange s) with
               | Some o => (output_cursor o =? 0) && (0 <? len (ready_bytes (output_ready o)))
               | None => false end = true ->
  sample_step s (write_turn s).
Proof.
  rewrite andb_true_iff. intros [Hs Ho]. unfold write_turn. destruct (x_output (s_exchange s)) as [o|] eqn:Hout; [|done].
  apply andb_true_iff in Ho as [Hc%Z.eqb_eq Hl%Z.ltb_lt]. apply turn_step; [done|]. exists o. split; [done|]. cbn. lia.
Qed.
Lemma flush_step s :
  serving s && match x_output (s_exchange s) with
               | Some o => len (ready_bytes (output_ready o)) <=? output_cursor o | None => false end = true ->
  sample_step s (flush_turn s).
Proof.
  rewrite andb_true_iff. intros [Hs Ho]. destruct (x_output (s_exchange s)) as [o|] eqn:Hout; [|done].
  to_prop. apply turn_step; [done|]. by exists o.
Qed.
Lemma take_step s :
  w_running (s_worker s) && negb (has (w_busy (s_worker s))) && match s_queue s with [] => false | _ => true end = true ->
  sample_step s (take_turn s).
Proof.
  rewrite !andb_true_iff. intros [[Hr Hb] Hq]. unfold take_turn. destruct (s_queue s) as [|c rest] eqn:Hqueue; [done|].
  apply step_take; [done| |done]. by destruct (w_busy (s_worker s)).
Qed.
Lemma finish_step s :
  w_running (s_worker s) && has (w_busy (s_worker s)) = true -> sample_step s (finish_turn s).
Proof.
  rewrite andb_true_iff. intros [Hr Hb]. unfold finish_turn. destruct (w_busy (s_worker s)) as [job|] eqn:Hbusy; [|done].
  by apply step_finish.
Qed.

(** The first page: opened, executed, received, written and flushed. *)
Definition sample_paged : System :=
  flush_turn (write_turn (reply_turn (finish_turn (take_turn (read_turn 1 sample_start))))).

Lemma sample_paged_reached : sample_reached sample_paged.
Proof.
  exists 0, {| ticks := []; memory := []; panics := [] |}, sample_start, sample_idle. split; [reflexivity|].
  unfold sample_paged.
  eapply rtc_l; [apply (read_step 1); reflexivity|]. eapply rtc_l; [apply take_step; vm_compute; reflexivity|].
  eapply rtc_l; [apply finish_step; vm_compute; reflexivity|]. eapply rtc_l; [apply reply_step; vm_compute; reflexivity|].
  eapply rtc_l; [apply write_step; vm_compute; reflexivity|]. eapply rtc_l; [apply flush_step; vm_compute; reflexivity|].
  apply rtc_refl.
Qed.

Lemma session_delivers_witness :
  exists s q pages, sample_reached s /\ emitted 0 (s_sent s) = 1 /\
    Forall2 (@carries_page brief_json) (page_outputs (s_sent s)) pages /\
    flat_map WindowPage.items pages = page_slice (v_items q) 0 1.
Proof.
  destruct (@session_delivers brief_json client_json client_unsigned sample_instant_max toy_digest banana_open banana_opens
    sample_paged sample_paged_reached) as (_ & _ & [Hnone|(q & pages & _ & Hp & _ & Hflat)]).
  - vm_compute in Hnone. discriminate Hnone.
  - assert (emitted 0 (s_sent sample_paged) = 1) as He by (vm_compute; reflexivity).
    exists sample_paged, q, pages. rewrite He in Hflat. split; [exact sample_paged_reached|]. auto.
Defined.

Lemma commit_never_stale_witness :
  exists s win win', sample_reached s /\ s_queue s = [Commit 0 1] /\
    w_window (s_worker s) = Some win /\ commit_page win 0 1 = Ok win'.
Proof.
  assert (s_queue sample_paged = [Commit 0 1]) as Hq by (vm_compute; reflexivity).
  destruct (@commit_never_stale brief_json client_json client_unsigned sample_instant_max toy_digest banana_open banana_opens
    sample_paged sample_paged_reached 0 1 [] ltac:(vm_compute; reflexivity) Hq) as (win & win' & Hw & Hc & _).
  exists sample_paged, win, win'. split; [exact sample_paged_reached|]. auto.
Defined.

(** A cancellation of a request that does not exist is answered under its identifier, which
    then counts as completed: the running request of a smaller identifier can no longer be
    cancelled. *)
Definition sample_uncancelled : System :=
  read_turn 4 (read_turn 1 (flush_turn (write_turn (read_turn 3 sample_start)))).

Lemma unknown_cancel_masks : sample_reached sample_uncancelled /\
  x_completed_id (s_exchange sample_uncancelled) = Some 100 /\
  (exists active, x_active (s_exchange sample_uncancelled) = Some active /\ active_id active = 1 /\
     active_stopped active = None) /\
  s_flags sample_uncancelled = ∅ /\ serving sample_uncancelled = true.
Proof.
  split; [|split_and!; try (vm_compute; reflexivity); eexists; split_and!; vm_compute; reflexivity].
  exists 0, {| ticks := []; memory := []; panics := [] |}, sample_start, sample_idle. split; [reflexivity|].
  unfold sample_uncancelled.
  eapply rtc_l; [apply (read_step 3); reflexivity|]. eapply rtc_l; [apply write_step; vm_compute; reflexivity|].
  eapply rtc_l; [apply flush_step; vm_compute; reflexivity|]. eapply rtc_l; [apply (read_step 1); vm_compute; reflexivity|].
  eapply rtc_l; [apply (read_step 4); vm_compute; reflexivity|]. apply rtc_refl.
Qed.
