(* ===== verification/PublishedView.v ===== *)
(** A publication as a whole: every part of it keeps the control state and writes ahead of
    the server, and the view that it returns is of a generation whose every point the
    server gave back. *)

From stdpp Require Import gmap.
From S2P Require Import Prelude Bytes Utf8 Ids Registry Layout Prepared SourceRow PreparationRow ObjectStore.
From S2P Require Import Database Control ControlSpec ControlRefine ControlState PreparationSpec PreparationState PublicationRow Publication PublicationSpec PublicationRefine PublicationLifecycle.
From S2P Require Import PublicationHistory PublicationOutcome PublicationRetire PublicationSafety PublicationRead PublicationVerify PublicationCapture.
From S2P Require Import Qdrant PlainControl State Json PreparedSource PreparedSafety PublishedCorpus PublishedSafety PublicationSample PublishedSample PublishedStaging.

Section View.
Context (blake3 : list Z -> list Z).
Context `{PublicationJson} {D : Type} `{Redb D}.
Context `{Prost UpsertPoints, Prost Named, Prost GetPoints, Prost QueryPoints}.
Context (channel : nat -> Channel) (in_runtime : bool) (is_alphanumeric : Z -> bool).
Context (random : list Z) (closed : result DatabaseError.t unit).
Context (c : corpus) (ps : preparations) (Hps : prepared c ps) (Hrandom : Uuid.wf random).
Implicit Types (g : generations) (w : World D).
Abbreviation live := (PublishedSafety.live blake3 c).
Abbreviation kept := (PublishedSafety.kept blake3 c).
Abbreviation buildable := (PublishedSafety.buildable random).

(** ** Preparing the generation *)

Lemma supersede_unknown_runs cap :
  buildable cap -> runs kept (supersede_unknown cap) (fun read w => buildable (fst read) /\ kept w) (fun _ => kept).
Proof.
  intros Hb. unfold supersede_unknown. destruct (Capture.pending cap) as [p|]; [|by apply runs_ret].
  destruct (Pending.in_flight p) as [op|]; [|by apply runs_ret].
  assert (runs kept (on_control (supersede_unknown_build p)) (fun _ => kept) (fun _ => kept)) as Hs.
  { apply (kept_writes blake3 c _ (SupersedeUnknownBuild p)). intros g Hl. do 3 eexists. split; [by apply (supersede_implements c g)|done]. }
  destruct op; (eapply runs_bind; [exact Hs|]; intros []; eapply runs_bind; [by apply (corpus_capture_runs blake3 c random ps)|]; intros cap';
    apply runs_pull; intros Hb'; by apply runs_ret).
Qed.

Lemma abandon_stale_runs cap : runs kept (abandon_stale cap) (fun _ => kept) (fun _ => kept).
Proof.
  unfold abandon_stale. destruct (Capture.pending cap) as [p|]; [|by apply runs_ret]. destruct (_ || _); [|by apply runs_ret].
  eapply runs_bind.
  - apply (kept_writes blake3 c _ (AbandonBuild p)). intros g Hl. do 3 eexists. split; [by apply (abandon_build_implements c g)|done].
  - intros []. by apply runs_lift.
Qed.

Lemma begin_runs cap :
  buildable cap ->
  runs kept (pending ← on_control (start_build cap random); stage_capture blake3 pending (Capture.sources cap)) (fun _ => kept) (fun _ => kept).
Proof.
  intros Hb. eapply runs_bind.
  - apply (kept_writes blake3 c _ (StartBuild cap random)). intros g Hl. do 3 eexists. split; [by apply (start_build_guides c g)|]. intros g' Hg. by split.
  - intros p. apply runs_ex. intros g. eapply runs_weaken; [apply (stage_capture_runs blake3 c p (Capture.sources cap) g)|done| |done].
    + by apply (buildable_ready random).
    + intros q w (g1 & g' & Hw & _). by exists g'.
Qed.

Lemma prepare_generation_runs :
  runs kept (prepare_generation blake3 channel in_runtime random) (fun read w => (forall p, snd read = Some p -> fst read = Pending.generation p) /\ kept w) (fun _ => kept).
Proof.
  unfold prepare_generation. eapply runs_bind; [by apply (corpus_capture_runs blake3 c random ps)|]. intros cap. apply runs_pull. intros Hb.
  eapply runs_bind; [by apply supersede_unknown_runs|]. intros [cap' superseded]. apply runs_pull. cbn [fst]. intros Hb'.
  eapply runs_bind; [apply abandon_stale_runs|]. intros []. eapply runs_bind; [apply (cleanup_runs blake3 channel in_runtime c)|]. intros [].
  destruct (_ && _ && _).
  - apply runs_pure; [intros gen _; by apply runs_ret|done].
  - eapply (runs_bind _ _ (fun _ => kept)).
    + destruct (Capture.pending cap') as [p|]; [by apply runs_ret|by apply begin_runs].
    + intros p. eapply runs_bind; [apply (upload_runs blake3 channel in_runtime is_alphanumeric c)|]. intros q. apply runs_ret. intros w Hw. split; [by intros p' [= <-]|done].
Qed.

(** ** What the server answered *)

(** Some call of the log was this one, and what its answer gave. *)
Definition replied {A} (call : BackendCall) (m : Channel -> M Back.t A) (a : A) (l : list (Sent D)) : Prop :=
  exists k s e, l !! k = Some s /\ sent_call s = call /\ run (m (channel k)) e = Ok a.
(** What later calls do not undo. *)
Definition grows (F : list (Sent D) -> Prop) : Prop := forall l s, F l -> F (l ++ [s]).
Lemma replied_grows {A} call (m : Channel -> M Back.t A) a : grows (replied call m a).
Proof. intros l s (k & x & e & Hk & Hr). exists k, x, e. split; [by apply lookup_app_l_Some|done]. Qed.

Lemma asks_runs {A} g F call (m : Channel -> M Back.t A) :
  harmless call -> grows F ->
  runs (fun w => live g w /\ F (sent w)) (remote (on_backend channel call m)) (fun a w => live g w /\ F (sent w) /\ replied call m a (sent w)) (fun _ => kept).
Proof.
  intros Hc HF w e [Hw Hf]. unfold remote, st_err, on_backend. destruct (m _ e) as [r e'] eqn:E. set (s := {| sent_call := call; sent_control := _; sent_done := _ |}).
  assert (live g (logged s w)) as Hl by (by apply live_logged, harmless_ok). destruct r as [a|x]; cbn [fst map_err]; [|by apply (live_kept blake3 c g)].
  split; [exact Hl|]. split; [by apply HF|]. exists (length (sent w)), s, e. split; [|split; [done|unfold run; by rewrite E]].
  cbn. rewrite lookup_app_r by done. by rewrite Nat.sub_diag.
Qed.

(** What does not call the server leaves the log. *)
Lemma runs_unsent {A} (m : St (World D) Code A) P (Q : A -> World D -> Prop) (X : Code -> World D -> Prop) (F : list (Sent D) -> Prop) :
  (forall w e, sent (snd (fst (m w e))) = sent w) -> runs P m Q X ->
  runs (fun w => P w /\ F (sent w)) m (fun a w => Q a w /\ F (sent w)) X.
Proof.
  intros Hs Hm w e [Hw Hf]. specialize (Hm w e Hw). specialize (Hs w e). destruct (m w e) as [[[a|x] w'] e']; cbn in *; [|done].
  split; [done|]. by rewrite Hs.
Qed.
Lemma on_control_unsent {A} (m : D -> env -> (result Pub.t A * D) * env) w e : sent (snd (fst (on_control m w e))) = sent w.
Proof. unfold on_control, st_on, st_err. by destruct (m _ e) as [[r d] e']. Qed.

(** ** Verifying *)

Definition wordless (input : PointInput.t) : Prop := existsb is_alphanumeric (chars (PointInput.retrieval_text input)) = false.

(** The server gave back every point of a saved page with the text of its unit. *)
Definition page_returned g (gen : Generation) (tokenless : bool) (n : Z) (l : list (Sent D)) : Prop :=
  exists page points, saved_page g (Generation.sequence gen) n page /\
    Forall2 (input_of blake3 g (Generation.sequence gen)) (page_points page) points /\
    replied (CallVerify (Generation.collection gen) points)
      (fun ch => verify_points default_limits ch in_runtime (Generation.collection gen) points) tt l /\
    (tokenless = true -> Forall wordless points).
(** The server found a point by a word of its text. *)
Definition word_found (name : list Z) (l : list (Sent D)) : Prop :=
  exists point query, canary_query is_alphanumeric (PointInput.retrieval_text point) = Some query /\
    replied (CallCanary name point query) (fun ch => verify_canary default_limits ch in_runtime is_alphanumeric name point query) tt l.

Definition checked g gen (v : Readiness) (n : Z) (l : list (Sent D)) : Prop :=
  (forall m, 0 <= m < n -> page_returned g gen (tokenless v) m l) /\ (canary v = true -> word_found (Generation.collection gen) l).

Lemma page_returned_grows g gen tokenless n : grows (page_returned g gen tokenless n).
Proof. intros l s (page & points & ? & ? & Hr & ?). exists page, points. split; [done|]. split; [done|]. split; [by apply replied_grows|done]. Qed.
Lemma word_found_grows name : grows (word_found name).
Proof. intros l s (point & query & ? & Hr). exists point, query. split; [done|]. by apply replied_grows. Qed.
Lemma checked_grows g gen v n : grows (checked g gen v n).
Proof.
  intros l s [Hp Hw]. split; [|intros Hc; by apply word_found_grows, Hw]. intros m Hm. by apply page_returned_grows, Hp.
Qed.

Lemma ready_points_runs g F name page : grows F -> forall canary tokenless,
  runs (fun w => live g w /\ F (sent w) /\ (canary = true -> word_found name (sent w)))
    (ready_points channel in_runtime is_alphanumeric name page canary tokenless)
    (fun read w => live g w /\ F (sent w) /\ (fst read = true -> word_found name (sent w)) /\
       (snd read = true -> tokenless = true /\ Forall wordless (inputs page)))
    (fun _ => kept).
Proof.
  intros HF. induction page as [|point page IH]; intros canary tokenless; cbn [ready_points].
  - apply runs_ret. intros w (Hw & Hf & Hc). split; [done|]. split; [done|]. split; [done|]. cbn. intros ->. split; [done|by constructor].
  - eapply (runs_bind _ _ (fun canary' w => live g w /\ F (sent w) /\ (canary' = true -> word_found name (sent w)))).
    + assert (runs (fun w => live g w /\ F (sent w) /\ (canary = true -> word_found name (sent w))) (mret canary : St (World D) Code bool)
        (fun canary' w => live g w /\ F (sent w) /\ (canary' = true -> word_found name (sent w))) (fun _ => kept)) as Hsame by (by apply runs_ret).
      destruct canary; [exact Hsame|]. destruct (canary_query _ _) as [query|] eqn:Hq; [|exact Hsame].
      eapply runs_bind; [eapply runs_weaken; [by apply (asks_runs g F)| |intros a w Hw; exact Hw|done]; by intros w (? & ? & _)|].
      intros []. apply runs_ret. intros w (Hw & Hf & Hr). split_and!; try done. intros _. by exists (point_input point), query.
    + intros canary'. eapply runs_weaken; [apply (IH canary')|done| |done]. intros read w (Hw & Hf & Hc & Ht). split_and!; try done.
      intros Hs. apply Ht in Hs as [[Ht' Hn%negb_true_iff]%andb_true_iff Hall]. split; [done|]. unfold inputs. cbn [fmap list_fmap]. by constructor.
Qed.

Lemma ready_page_runs g gen G v n page hydrated :
  grows G -> saved_page g (Generation.sequence gen) n page ->
  Forall2 (input_of blake3 g (Generation.sequence gen)) (page_points page) (inputs hydrated) ->
  runs (fun w => live g w /\ (G (sent w) /\ checked g gen v n (sent w)))
    (ready_page channel in_runtime is_alphanumeric (Generation.collection gen) v n hydrated)
    (fun v' w => live g w /\ (G (sent w) /\ checked g gen v' (n + 1) (sent w))) (fun _ => kept).
Proof.
  intros HG Hpage Hin. assert (forall w, live g w /\ (G (sent w) /\ checked g gen v n (sent w)) -> kept w) as HX by (intros w [Hw _]; by apply (live_kept blake3 c g)).
  unfold ready_page. eapply runs_seq; [by apply check_runs|]. intros _.
  eapply runs_bind; [apply (asks_runs g (fun l => G l /\ checked g gen v n l)); [done|intros l s [? ?]; split; [by apply HG|by apply checked_grows]]|].
  intros []. cbv beta.
  set (F := fun l => ((G l /\ checked g gen v n l) /\ replied (CallVerify (Generation.collection gen) (inputs hydrated))
    (fun ch => verify_points default_limits ch in_runtime (Generation.collection gen) (inputs hydrated)) tt l)).
  assert (grows F) as HF by (intros l s [[Hg Hc] Hr]; split; [split; [by apply HG|by apply checked_grows]|by apply replied_grows]).
  eapply (runs_bind _ _ (fun read w => live g w /\ F (sent w) /\ (fst read = true -> word_found (Generation.collection gen) (sent w)) /\
    (snd read = true -> tokenless v = true /\ Forall wordless (inputs hydrated)))).
  - eapply runs_weaken; [by apply (ready_points_runs g F (Generation.collection gen) hydrated HF (canary v) (tokenless v))| |done|done].
    intros w (Hw & Hc & Hr). split; [done|]. split; [by split|]. by destruct Hc as [_ [_ Hc]].
  - intros [found tokenless']. cbn [fst snd]. apply runs_pure; [intros count _|intros e w _ [Hw _]; by apply (live_kept blake3 c g)].
    apply runs_pure; [intros total _|intros e w _ [Hw _]; by apply (live_kept blake3 c g)]. apply runs_ret.
    intros w (Hw & [[Hg [Hc _]] Hr] & Hf & Ht). split; [done|]. split; [done|]. split; [|done]. cbn [tokenless]. intros m Hm.
    destruct (decide (m < n)) as [Hlt|Hge].
    + destruct (Hc m ltac:(lia)) as (pg & pts & ? & ? & ? & Hwl). exists pg, pts. split_and!; try done. intros E. apply Hwl. by apply Ht.
    + replace m with n by lia. exists page, (inputs hydrated). split_and!; try done. intros E. by apply Ht.
Qed.

(** The server has the schema, every saved page, and no other point; and if any text has
    a word, it found a point by a word. *)
Definition returned g (gen : Generation) (l : list (Sent D)) : Prop :=
  let name := Generation.collection gen in
  replied (CallSchema name) (fun ch => Qdrant.verify_schema default_limits ch in_runtime name) tt l /\
  replied (CallCount name) (fun ch => count_exact default_limits ch in_runtime name) (Generation.point_count gen) l /\
  exists tokenless, (forall n, 0 <= n < Generation.page_count gen -> page_returned g gen tokenless n l) /\
    (Generation.point_count gen = 0 \/ tokenless = true \/ word_found name l).

Lemma verify_published_runs g gen :
  runs (live g) (verify_published blake3 channel in_runtime is_alphanumeric gen) (fun _ w => live g w /\ returned g gen (sent w)) (fun _ => kept).
Proof.
  unfold verify_published. set (name := Generation.collection gen).
  eapply (runs_seq (S := World D)); [apply read_runs; [by intros a w e Hw _|by apply (live_kept blake3 c)]|]. intros _. cbv zeta.
  eapply runs_bind; [eapply runs_weaken; [apply (asks_runs g (fun _ => True) (CallSchema name)); [done|by intros l s]|by intros w Hw|intros a w Hw; exact Hw|done]|].
  intros []. cbv beta. set (G := replied (CallSchema name) (fun ch => Qdrant.verify_schema default_limits ch in_runtime name) tt).
  eapply (runs_bind _ _ (fun v w => live g w /\ (G (sent w) /\ checked g gen v (Z.max 0 (Generation.page_count gen)) (sent w)))).
  - eapply runs_weaken; [apply (visit_pages_runs blake3 c false gen _ (rows g) (fun v n w => live g w /\ (G (sent w) /\ checked g gen v n (sent w))) kept)| | |done].
    + intros v n w [Hw _]. by exists g.
    + intros v n w [Hw _]. by apply (live_kept blake3 c g).
    + intros v n page hydrated Hpage Hpts Hf. apply (ready_page_runs g gen G v n page hydrated); [apply replied_grows|by apply Hpage|].
      by apply (filled_inputs blake3 (rows g)).
    + intros w (Hw & _ & Hg). split; [done|]. split; [done|]. split; [lia|done].
    + done.
  - intros v. eapply runs_bind; [apply (asks_runs g (fun l => G l /\ checked g gen v (Z.max 0 (Generation.page_count gen)) l) (CallCount name)); [done|]|].
    { intros l s [? ?]. split; [by apply replied_grows|by apply checked_grows]. }
    intros n. cbv beta. apply runs_pure; [intros [] Hn%reject_if_ok|intros e w _ [Hw _]; by apply (live_kept blake3 c g)].
    apply runs_lift; [|intros e w _ [Hw _]; by apply (live_kept blake3 c g)]. intros [] w Hr%reject_if_ok (Hw & [Hs [Hp Hc]] & Hcount).
    apply orb_false_iff in Hn as [Hn1 Hn2]. to_prop. subst n. split; [done|]. split; [done|]. split; [done|]. exists (tokenless v). split; [intros m Hm; apply Hp; lia|].
    destruct (point_total v =? 0) eqn:E0; [left; to_prop; congruence|right]. destruct (canary v); [right; by apply Hc|left].
    by destruct (tokenless v).
Qed.

(** ** The view *)

Lemma publish_keeps p g g' :
  edited (publish_spec c p) g g' -> entries (rows g') = entries (rows g) /\ saved_pages (rows g') = saved_pages (rows g).
Proof.
  intros [->|[gen (s' & E & _)%transaction_inv]]; [done|]. unfold publish_spec, pending_spec in E. 
  repeat apply bind_ok_inv in E as (? & _ & E). apply ok_inj in E. injection E as _ Er _. destruct (PublicationState.current _); rewrite <- Er; done.
Qed.
Lemma returned_later g g' gen l :
  entries (rows g') = entries (rows g) -> saved_pages (rows g') = saved_pages (rows g) -> returned g gen l -> returned g' gen l.
Proof.
  intros He Hp (Hs & Hc & tokenless & Hpages & Hw). split; [done|]. split; [done|]. exists tokenless. split; [|done]. intros n Hn.
  destruct (Hpages n Hn) as (page & points & Hpg & Hin & Hr). exists page, points. split; [|split; [|done]].
  - destruct Hpg as (bytes & w & Hb & Hd). exists bytes, w. by rewrite Hp.
  - eapply Forall2_impl; [exact Hin|]. intros point input (Hid & Hsrc & Ht). split; [done|]. split; [done|]. unfold text_of_point in *. by rewrite He.
Qed.

(** A view pinned to the committed generation, all of which the server returned. *)
Definition view_proven (view : Pinned D) w : Prop :=
  exists g, live g w /\ PublicationRead.transaction view = PreparedSource.control (root w) /\
    current_of g = Some (pinned_generation view) /\
    (exists e, run (PublicationRead.verify_generation (PublicationRead.transaction view) (pinned_generation view)) e = Ok tt) /\
    returned g (pinned_generation view) (sent w).

Lemma open_published_runs g F :
  runs (fun w => live g w /\ F (sent w)) (on_writer_read open_published)
    (fun view w => (PublicationRead.transaction view = PreparedSource.control (root w) /\ current_of g = Some (pinned_generation view) /\
       (exists e, run (PublicationRead.verify_generation (PublicationRead.transaction view) (pinned_generation view)) e = Ok tt)) /\
       live g w /\ F (sent w)) (fun _ => kept).
Proof.
  apply read_runs; [|by intros w [Hw _]; apply (live_kept blake3 c g)]. intros view w e [Hw Hf] Hr. split; [|done].
  unfold open_published in Hr. apply run_bind_ok in Hr as (pinned & e1 & Hpin & Hr). apply run_bind_ok in Hr as ([] & e2 & Hv & Hr).
  apply ok_inj in Hr as <-. assert (run (pin_published (PreparedSource.control (root w))) e = Ok pinned) as Hp by (unfold run; by rewrite Hpin).
  unfold pin_published in Hp. apply run_bind_ok in Hp as ([] & e3 & _ & Hp). apply run_bind_ok in Hp as ([] & e4 & _ & Hp).
  apply run_bind_ok in Hp as ([] & e5 & _ & Hp). apply run_bind_ok in Hp as (s & e6 & Hs & Hp). apply run_lift_ok in Hp as (gen & Hg%ok_or_inv & Hp).
  do 4 apply run_bind_ok in Hp as ([] & ? & _ & Hp). apply ok_inj in Hp as <-. destruct Hw as (Hd & _).
  apply (refines_step _ _ _ _ _ (read_state_refines _ c g Hd)) in Hs as ->. split; [done|]. split; [done|].
  exists e1. unfold run. by rewrite Hv.
Qed.

Lemma prepare_view_runs :
  runs kept (prepare_view blake3 channel in_runtime is_alphanumeric random closed) view_proven (fun _ => kept).
Proof.
  unfold prepare_view. eapply (runs_bind _ _ (fun r w => (forall gen o, r = Ok (gen, o) -> forall p, o = Some p -> gen = Pending.generation p) /\ kept w)).
  { eapply runs_result; [apply prepare_generation_runs| |]; [intros [gen o] w [Hp Hw]; split; [by intros ? ? [= <- <-]|done]|done]. }
  intros r. apply runs_pull. intros Hr. eapply (runs_seq (S := World D)).
  { apply (runs_err (S := World D) kept _ _ (fun _ => kept) (fun _ => kept)); [by apply runs_env|done]. }
  intros []. apply runs_pure; [intros [gen o] ->|done]. specialize (Hr gen o eq_refl). apply runs_ex. intros g.
  eapply runs_bind; [apply verify_published_runs|]. intros []. cbv beta.
  eapply (runs_bind _ _ (fun a w => exists g', (a = gen /\ live g' w) /\ returned g' gen (sent w))).
  - destruct o as [p|]; [|apply runs_ret; intros w [Hw Hret]; by exists g]. specialize (Hr p eq_refl). subst gen.
    apply (runs_facts (lifecycle g) _ (fun w => live g w /\ returned g (Pending.generation p) (sent w))).
    { intros w [Hw Hret]. split; [by destruct Hw as (_ & ? & _)|done]. }
    intros Hl. eapply runs_weaken; [apply (runs_unsent _ (live g) (fun a w => exists g', (a = Pending.generation p /\ live g' w) /\ edited (publish_spec c p) g g') _ (returned g (Pending.generation p)));
      [apply on_control_unsent|]| |..].
    + eapply runs_weaken; [eapply (committed_runs blake3 c g); [by apply (commit_generation_guides c g p)|]|done| |].
      * intros g' He. by apply (effect_lifecycle c g (CommitGeneration p) g' Hl).
      * intros a w (g' & Hw & He & -> & _). by exists g'.
      * intros e w Hw. exact Hw.
    + done.
    + intros a w [(g' & Hw & He) Hret]. exists g'. split; [done|]. destruct (publish_keeps p g g' He) as [E1 E2]. by apply (returned_later g).
    + done.
  - intros gen'. apply runs_ex. intros g'. apply (runs_facts (gen' = gen) _ (fun w => live g' w /\ returned g' gen (sent w))); [by intros w [[? ?] ?]|]. intros ->.
    eapply runs_bind; [apply open_published_runs|]. intros view. cbv beta.
    apply runs_pure; [intros [] Hg%reject_if_ok|intros e w _ (_ & Hw & _); by apply (live_kept blake3 c g')]. to_prop. subst gen. apply runs_ret.
    intros w ((Ht & Hc & Hv) & Hw & Hret). by exists g'.
Qed.
End View.

(** C36. A publication writes ahead of the server.  From sound generations, whatever the
    environment, the server and the draws of identities do, [prepare_view] leaves a database
    of sound generations, answering or failing; and each mutation of the log was sent under a
    committed database, of sound generations, that says it: a creation or an insertion when
    the pending build has exactly this operation in flight, the insertion with the points of
    its stored page, each with the text of its unit of the verified artifact of its source;
    a deletion only of a collection whose obligation is resolved, and of no generation in
    use. *)
Theorem corpus_writes_ahead (blake3 : list Z -> list Z) `{PublicationJson} {D : Type} `{Redb D}
    `{Prost UpsertPoints, Prost Named, Prost GetPoints, Prost QueryPoints} (channel : nat -> Channel) (in_runtime : bool)
    (is_alphanumeric : Z -> bool) (random : list Z) (closed : result DatabaseError.t unit) (c : corpus) (ps : preparations)
    (g : generations) (r : Root D) (e : env) :
  prepared c ps -> Uuid.wf random -> denotes (PreparedSource.control r) c g -> lifecycle g -> directory_typed (objects r) ->
  let '((_, w), _) := prepare_view blake3 channel in_runtime is_alphanumeric random closed {| root := r; sent := [] |} e in
  (exists g', denotes (PreparedSource.control (root w)) c g' /\ lifecycle g') /\
  forall s, s ∈ sent w -> exists g', denotes (sent_control s) c g' /\ lifecycle g' /\ call_ok blake3 g' (sent_call s).
Proof.
  intros Hps Hr Hd Hl Ho. assert (kept blake3 c {| root := r; sent := [] |}) as Hk by (exists g; split_and!; done).
  pose proof (prepare_view_runs blake3 channel in_runtime is_alphanumeric random closed c ps Hps Hr _ e Hk) as Hout.
  destruct (prepare_view _ _ _ _ _ _ _ e) as [[[view|x] w] e']; cbn [fst] in Hout.
  - destruct Hout as (g' & (Hd' & Hl' & _ & Hs) & _). split; [by exists g'|]. intros s Hin. rewrite Forall_forall in Hs. by apply Hs.
  - destruct Hout as (g' & (Hd' & Hl' & _ & Hs)). split; [by exists g'|]. intros s Hin. rewrite Forall_forall in Hs. by apply Hs.
Qed.

Definition sample_view_answer :=
  @prepare_view sample_hash _ store _ _ no_length no_length no_length sample_server false sample_letter
    sample_generation_namespace (Ok tt) {| root := root sample_world; sent := [] |} [].

Lemma corpus_writes_ahead_witness :
  exists c ps, (prepared c ps /\ Uuid.wf sample_generation_namespace /\ denotes (PreparedSource.control (root sample_world)) c fresh /\
    lifecycle fresh /\ directory_typed (objects (root sample_world))) /\
  exists s g, s ∈ sent (snd (fst sample_view_answer)) /\
    sent_call s = CallInsert (str "eliot_03030303030303030303030303030303_g1") [sample_held] /\
    denotes (sent_control s) c g /\ call_ok sample_hash g (sent_call s).
Proof.
  destruct sample_world_state as (c & ps & Hd & Hp & Ho). exists c, ps. pose proof sample_generation_namespace_wf as Hn.
  split; [exact (conj Hp (conj Hn (conj Hd (conj fresh_lifecycle Ho))))|].
  pose proof (@corpus_writes_ahead sample_hash _ store _ _ no_length no_length no_length sample_server false sample_letter
    sample_generation_namespace (Ok tt) c ps fresh (root sample_world) [] Hp Hn Hd fresh_lifecycle Ho) as Hout.
  assert (sent_call <$> (sent (snd (fst sample_view_answer)) !! 3%nat)
    = Some (CallInsert (str "eliot_03030303030303030303030303030303_g1") [sample_held])) as Hcall by (vm_compute; reflexivity).
  unfold sample_view_answer in *. destruct (prepare_view _ _ _ _ _ _ _ []) as [[answer w] e']. cbn [fst snd] in *. destruct Hout as [_ Hsent].
  destruct (sent w !! 3%nat) as [s|] eqn:Hs; [|discriminate Hcall]. assert (s ∈ sent w) as Hin by (eapply list_elem_of_lookup_2; exact Hs).
  destruct (Hsent s Hin) as (g & Hg & _ & Hok). exists s, g. injection Hcall as Hcall.
  exact (conj Hin (conj Hcall (conj Hg Hok))).
Defined.

(** C37. A published view is proven.  When [prepare_view] answers, its view reads the
    committed database, whose current generation it is pinned to and which passes the
    exhaustive verification of that generation; and the server, not trusted, has answered for
    it: that its collection has the schema; that it holds exactly as many points as the
    generation; for every page, when asked for its points, exactly these, each once, with
    the identity, the source and the text of the unit of the verified artifact that the
    generation was built from; and, unless no text has a word, one of the points for a word
    of its text. *)
Theorem published_verified (blake3 : list Z -> list Z) `{PublicationJson} {D : Type} `{Redb D}
    `{Prost UpsertPoints, Prost Named, Prost GetPoints, Prost QueryPoints} (channel : nat -> Channel) (in_runtime : bool)
    (is_alphanumeric : Z -> bool) (random : list Z) (closed : result DatabaseError.t unit) (c : corpus) (ps : preparations)
    (g : generations) (r : Root D) (e : env) (view : Pinned D) (w : World D) (e' : env) :
  prepared c ps -> Uuid.wf random -> denotes (PreparedSource.control r) c g -> lifecycle g -> directory_typed (objects r) ->
  prepare_view blake3 channel in_runtime is_alphanumeric random closed {| root := r; sent := [] |} e = ((Ok view, w), e') ->
  let gen := pinned_generation view in
  let name := Generation.collection gen in
  exists g', denotes (PreparedSource.control (root w)) c g' /\ lifecycle g' /\ current_of g' = Some gen /\
    PublicationRead.transaction view = PreparedSource.control (root w) /\
    (exists e1, run (PublicationRead.verify_generation (PublicationRead.transaction view) gen) e1 = Ok tt) /\
    (exists k e1, run (Qdrant.verify_schema default_limits (channel k) in_runtime name) e1 = Ok tt) /\
    (exists k e1, run (count_exact default_limits (channel k) in_runtime name) e1 = Ok (Generation.point_count gen)) /\
    exists tokenless,
      (forall n, 0 <= n < Generation.page_count gen -> exists page points,
         saved_page g' (Generation.sequence gen) n page /\
         Forall2 (input_of blake3 g' (Generation.sequence gen)) (page_points page) points /\
         (tokenless = true -> Forall (wordless is_alphanumeric) points) /\
         (points = [] \/ exists k reply back,
            finished (on_get (channel k) {| get_collection := name; get_ids := point_id ∘ PointInput.id <$> points |}) = Some (Answer reply) /\
            Forall2 holds_point reply back /\ back ≡ₚ points)) /\
      (Generation.point_count gen = 0 \/ tokenless = true \/
       exists k e1 point query, canary_query is_alphanumeric (PointInput.retrieval_text point) = Some query /\
         run (verify_canary default_limits (channel k) in_runtime is_alphanumeric name point query) e1 = Ok tt).
Proof.
  intros Hps Hr Hd Hl Ho E gen name. assert (kept blake3 c {| root := r; sent := [] |}) as Hk by (exists g; split_and!; done).
  pose proof (prepare_view_runs blake3 channel in_runtime is_alphanumeric random closed c ps Hps Hr _ e Hk) as Hout.
  rewrite E in Hout. destruct Hout as (g' & (Hd' & Hl' & _) & Ht & Hc & Hv & (Hschema & Hcount & tokenless & Hpages & Hword)).
  exists g'. split; [done|]. split; [done|]. split; [done|]. split; [done|]. split; [done|].
  split; [destruct Hschema as (k & s & e1 & _ & _ & ?); by exists k, e1|].
  split; [destruct Hcount as (k & s & e1 & _ & _ & ?); by exists k, e1|]. exists tokenless. split.
  - intros n Hn. destruct (Hpages n Hn) as (page & points & Hpg & Hin & (k & s & e1 & _ & _ & Hrun) & Hwl). exists page, points.
    do 3 (split; [done|]). destruct (verify_points_held _ _ _ _ _ _ Hrun) as [->|(reply & back & ?)]; [by left|right]. by exists k, reply, back.
  - destruct Hword as [?|[?|(point & query & Hq & (k & s & e1 & _ & _ & ?))]]; [by left|by right; left|right; right].
    by exists k, e1, point, query.
Qed.

Lemma published_verified_witness :
  exists c ps view w e', (prepared c ps /\ Uuid.wf sample_generation_namespace /\
    denotes (PreparedSource.control (root sample_world)) c fresh /\ lifecycle fresh /\ directory_typed (objects (root sample_world))) /\
    sample_view_answer = ((Ok view, w), e') /\ Generation.page_count (pinned_generation view) = 1 /\
    exists g page points, denotes (PreparedSource.control (root w)) c g /\ current_of g = Some (pinned_generation view) /\
      saved_page g (Generation.sequence (pinned_generation view)) 0 page /\
      Forall2 (input_of sample_hash g (Generation.sequence (pinned_generation view))) (page_points page) points.
Proof.
  destruct sample_world_state as (c & ps & Hd & Hp & Ho). pose proof sample_generation_namespace_wf as Hn.
  assert (is_ok (fst (fst sample_view_answer)) = true) as Hok by (vm_compute; reflexivity).
  assert (match fst (fst sample_view_answer) with Ok v => Generation.page_count (pinned_generation v) | Err _ => 0 end = 1) as Hpage
    by (vm_compute; reflexivity).
  unfold sample_view_answer in *. destruct (prepare_view _ _ _ _ _ _ _ []) as [[[view|x] w] e'] eqn:E; [|discriminate Hok]. cbn [fst] in Hpage. exists c, ps, view, w, e'.
  split; [exact (conj Hp (conj Hn (conj Hd (conj fresh_lifecycle Ho))))|]. split; [reflexivity|]. split; [exact Hpage|].
  destruct (@published_verified sample_hash _ store _ _ no_length no_length no_length sample_server false sample_letter
    sample_generation_namespace (Ok tt) c ps fresh (root sample_world) [] view w e' Hp Hn Hd fresh_lifecycle Ho E)
    as (g & Hg & _ & Hcur & _ & _ & _ & _ & tokenless & Hpages & _).
  destruct (Hpages 0 ltac:(rewrite Hpage; split; reflexivity || discriminate)) as (page & points & Hpg & Hin & _).
  exists g, page, points. exact (conj Hg (conj Hcur (conj Hpg Hin))).
Defined.
