(* ===== verification/PublishedResult.v ===== *)
(** The end of a publication (bins/eliot-searchd/src/published_corpus.rs: [publish],
    [response], [run]): what the daemon writes of a published view, the command line
    accepts. *)

From stdpp Require Import gmap.
From S2P Require Import Prelude Bytes Utf8 Ids Registry SourceRow PreparationRow ObjectStore.
From S2P Require Import Database Control ControlSpec ControlRefine ControlState PreparationSpec PublicationRow Publication PublicationSpec PublicationLifecycle.
From S2P Require Import PublicationHistory PublicationSafety PublicationRefine PublicationRead PublicationVerify PublicationOutcome.
From S2P Require Import Qdrant VerifiedQuery PlainControl State Json ClientResponse ResponseAccepted PreparedSource PreparedSafety PublishedCorpus PublishedSafety.
From S2P Require Import PublicationSample PublishedSample PublishedView.

(** ** The operations *)

(** The connection, then the publication; the writer is closed if there is none. *)
Definition publish_corpus (blake3 : list Z -> list Z) `{PublicationJson} {D : Type} `{Redb D}
    `{Prost UpsertPoints, Prost Named, Prost GetPoints, Prost QueryPoints, Prost Probe} (channel : nat -> Channel) (in_runtime : bool)
    (is_alphanumeric : Z -> bool) (random : list Z) (closed : result DatabaseError.t unit)
    (variable : option (option (list Z))) (server : Connection) (endpoint : list Z) : St (World D) Code (Pinned D) :=
  connected ← st_result (
    key ← st_lift (api_key variable);
    st_err Back.code (st_env (connect default_limits server in_runtime endpoint key)));
  match connected with
  | Ok _ => prepare_view blake3 channel in_runtime is_alphanumeric random closed
  | Err error => _ ← st_err Plain.code (st_env (writer_close closed)); st_lift (Err error)
  end.

Definition published_response (g : Generation) : Value :=
  Value.object [
    (str "operation", Value.String (str "publish-prepared")); (str "state", Value.String (str "published"));
    (str "collection", Value.String (Generation.collection g)); (str "generation", Value.Number (Generation.sequence g));
    (str "source_count", Value.Number (Generation.source_count g)); (str "gap_count", Value.Number (Generation.gap_count g));
    (str "point_count", Value.Number (Generation.point_count g)); (str "page_count", Value.Number (Generation.page_count g))].

(** What [run] writes to standard output after [publish]. *)
Definition published_line `{SerdeJson} (g : Generation) : M Code (list Z) :=
  bytes ← lift (ok_or (str "PUBLICATION_RESPONSE_INVALID") (to_vec (published_response g)));
  _ ← lift (reject_if (MAX_PUBLICATION_RESPONSE_BYTES <=? len bytes) (str "PUBLICATION_RESPONSE_TOO_LARGE"));
  _ ← check_with (str "PUBLICATION_CANCELLED") (str "PUBLICATION_DEADLINE");
  mret (bytes ++ [10]).

(** ** The name of a collection *)

Lemma split_lower (text rest : list Z) : forallb lower_digit text = true ->
  PublishedResponse.split_once (str "_g") (text ++ str "_g" ++ rest) = Some (text, rest).
Proof.
  induction text as [|b text IH]; intros Hl.
  - change ([] ++ str "_g" ++ rest) with (str "_g" ++ rest). change (str "_g" ++ rest) with (95 :: 103 :: rest). reflexivity.
  - cbn [forallb] in Hl. apply andb_true_iff in Hl as [Hb Hl]. cbn [app PublishedResponse.split_once].
    assert (PublishedResponse.strip_prefix (str "_g") (b :: text ++ str "_g" ++ rest) = None) as ->.
    { unfold PublishedResponse.strip_prefix. rewrite bool_decide_false; [done|]. change (length (str "_g")) with 2%nat.
      change (str "_g") with [95; 103]. cbn [take]. intros [= -> _]. discriminate Hb. }
    rewrite IH by done. reflexivity.
Qed.
Lemma hex_lower bytes : bytes_ok bytes -> forallb lower_digit (hex_encode bytes) = true.
Proof. intros Hb. apply forallb_forall. intros d Hd%list_elem_of_In. pose proof (hex_encode_lower bytes Hb) as Hl. rewrite Forall_forall in Hl. exact (Hl d Hd). Qed.

(** ** The counts of a complete generation *)

Lemma pages_points (pages : list UploadPage) :
  Forall (fun page => 0 < len (page_points page)) pages -> len pages <= len (points_of pages) /\ (len pages = 0 <-> len (points_of pages) = 0).
Proof.
  unfold points_of. induction 1 as [|page pages Hp _ [IH _]]; [done|]. cbn [mbind list_bind]. rewrite len_cons, len_app.
  pose proof (len_nonneg pages). lia.
Qed.
Lemma graph_pages {D} `{Redb D} (d : D) g entries pages :
  PublicationVerify.typed d PAGES -> complete_graph d g entries pages ->
  Generation.page_count g <= Generation.point_count g /\ (Generation.page_count g = 0 <-> Generation.point_count g = 0).
Proof.
  intros Ht Hg. rewrite <- (graph_page_count _ _ _ _ Hg), <- (graph_point_count _ _ _ _ Hg). apply pages_points.
  pose proof (graph_page_rows _ _ _ _ Hg) as Hrows. pose proof (good_rows d g PAGES Ht) as Hgood.
  apply Forall_forall. intros page Hin. apply list_elem_of_lookup in Hin as [i Hi]. destruct (Forall2_lookup_r _ _ _ _ _ Hrows Hi) as (row & Hr & Hp).
  unfold holds_page, page_of in Hp. destruct (run (decode_page (snd row)) []) as [p|] eqn:E; [|done]. injection Hp as ->.
  rewrite Forall_forall in Hgood. destruct (Hgood row (list_elem_of_lookup_2 _ _ _ Hr)) as [_ Hb].
  destruct (decode_page_inv page (snd row) [] Hb E) as [[(Hv & _) _]|(_ & Hv & _)]; lia.
Qed.

(** ** The response *)

Lemma published_accepted g :
  Generation.wf g -> 0 < Generation.sequence g -> Generation.source_count g <= MAX_SOURCES -> Generation.gap_count g <= Generation.source_count g ->
  Generation.point_count g <= MAX_POINTS -> Generation.page_count g <= Generation.point_count g ->
  (Generation.page_count g = 0 <-> Generation.point_count g = 0) ->
  PublishedResponse.validate_value (published_response g) = Some tt.
Proof.
  intros ([Hln Hns] & Hseq & _ & Hs & Hg & Hp & Hpg) Hpos Hsrc Hgap Hpts Hpages Hzero. unfold PublishedResponse.validate_value, published_response.
  rewrite keys_object by done. advance. read_text (str "publish-prepared"). rewrite bool_decide_true by done. advance.
  read_text (str "published"). rewrite bool_decide_true by done. advance. read_number (Generation.sequence g).
  read_text (Generation.collection g). unfold Generation.collection.
  assert (PublishedResponse.strip_prefix (str "eliot_") (str "eliot_" ++ hex_encode (Generation.namespace g) ++ str "_g" ++ Generation.decimal 20 (Generation.sequence g))
    = Some (hex_encode (Generation.namespace g) ++ str "_g" ++ Generation.decimal 20 (Generation.sequence g))) as ->.
  { unfold PublishedResponse.strip_prefix. by rewrite take_app_length, bool_decide_true, drop_app_length by done. }
  advance. rewrite split_lower by by apply hex_lower. advance. is_false (Generation.sequence g =? 0).
  assert (length (Generation.namespace g) = 16%nat) as Hn16 by (unfold len in Hln; lia).
  rewrite (hex_digest _ 16 Hns Hn16 : hex _ 32 = true). change (PublishedResponse.decimal 20) with (Generation.decimal 20). rewrite bool_decide_true by done.
  cbn [negb andb]. advance. read_number (Generation.source_count g). read_number (Generation.gap_count g). read_number (Generation.point_count g).
  read_number (Generation.page_count g). unfold MAX_SOURCES, MAX_POINTS in *. is_true (Generation.source_count g <=? 4096).
  is_true (Generation.gap_count g <=? Generation.source_count g). is_true (Generation.point_count g <=? 1000000).
  is_true (Generation.page_count g <=? Generation.point_count g). cbn [andb].
  assert (Bool.eqb (Generation.point_count g =? 0) (Generation.page_count g =? 0) = true) as ->; [|done].
  apply Bool.eqb_true_iff, eq_true_iff_eq. rewrite !Z.eqb_eq. tauto.
Qed.

Lemma current_sound g x : lifecycle g -> current_of g = Some x -> Generation.wf x /\ generation_sound (state_of g) x.
Proof.
  intros Hl Hx. pose proof (current_typed g x Hl Hx) as Hw. split; [done|]. destruct Hl as [K Hl].
  destruct (lifecycle_started K g Hl) as [Hs|[Hs _]].
  - destruct Hs as ((_ & _ & _ & _ & Hcur & _) & _). by apply Hcur.
  - unfold current_of, state_of in *. by rewrite Hs in Hx.
Qed.

(** C38. What a publication writes, the command line accepts.  When [publish] answers a view
    of a database whose rows are bytes, and [run] writes its line, the command line's check
    accepts the line, whole: the collection is named by the namespace and the number of the
    generation, and the counts are within the bounds of both programs and fit each other,
    because the view passed the exhaustive verification. *)
Theorem published_line_accepted `{SerdeJson} (blake3 : list Z -> list Z) `{PublicationJson} {D : Type} `{Redb D}
    `{Prost UpsertPoints, Prost Named, Prost GetPoints, Prost QueryPoints, Prost Probe} (channel : nat -> Channel) (in_runtime : bool)
    (is_alphanumeric : Z -> bool) (random : list Z) (closed : result DatabaseError.t unit) (variable : option (option (list Z)))
    (server : Connection) (endpoint : list Z) (c : corpus) (ps : preparations)
    (g : generations) (r : Root D) (e : env) (view : Pinned D) (w : World D) (e' : env) (w1 : env) (line : list Z) :
  prepared c ps -> Uuid.wf random -> denotes (PreparedSource.control r) c g -> lifecycle g -> directory_typed (objects r) ->
  publish_corpus blake3 channel in_runtime is_alphanumeric random closed variable server endpoint {| root := r; sent := [] |} e = ((Ok view, w), e') ->
  (forall table, table ∈ [SOURCES; PAGES; EVIDENCE] -> PublicationVerify.typed (PublicationRead.transaction view) table) ->
  run (published_line (pinned_generation view)) w1 = Ok line ->
  exists text, line = text ++ [10] /\ PublishedResponse.validate line = Some text.
Proof.
  intros Hps Hrandom Hd Hl Ho Hpub Ht Hline. set (kept := PublishedSafety.kept blake3 c).
  assert (kept {| root := r; sent := [] |}) as Hk by (exists g; split_and!; done).
  assert (runs kept (publish_corpus blake3 channel in_runtime is_alphanumeric random closed variable server endpoint)
    (fun view w => view_proven blake3 channel in_runtime is_alphanumeric c view w) (fun _ => kept)) as Hruns.
  { unfold publish_corpus. eapply (runs_bind _ _ (fun _ => kept)).
    - eapply (runs_result kept _ (fun _ => kept) (fun _ => kept)); [|done|done]. apply runs_pure; [intros key _|done].
      apply (runs_err (S := World D) kept _ _ (fun _ => kept) (fun _ => kept)); [by apply runs_env|done].
    - intros [u|error]; [by apply (prepare_view_runs blake3 channel in_runtime is_alphanumeric random closed c ps)|].
      eapply (runs_seq (S := World D)); [|intros []; by apply runs_lift].
      apply (runs_err (S := World D) kept _ _ (fun _ => kept) (fun _ => kept)); [by apply runs_env|done]. }
  pose proof (Hruns _ e Hk) as Hout. rewrite Hpub in Hout. destruct Hout as (g' & (_ & Hl' & _) & _ & Hc & (e1 & Hv) & _).
  destruct (current_sound g' _ Hl' Hc) as [Hw (_ & Hseq & Hsrc & Hgap & Hpts & _)].
  pose proof (verify_outcome _ _ (Ht SOURCES ltac:(set_solver)) (Ht PAGES ltac:(set_solver)) (Ht EVIDENCE ltac:(set_solver)) Hw e1) as [Hgraph _].
  rewrite Hv in Hgraph. destruct Hgraph as (entries & pages & Hgraph). destruct (graph_pages _ _ _ _ (Ht PAGES ltac:(set_solver)) Hgraph) as [Hpp Hz].
  unfold published_line in Hline. apply run_lift_ok in Hline as (text & Htext%ok_or_inv & Hline).
  apply run_lift_ok in Hline as ([] & Hlen%reject_if_ok & Hline). to_prop. apply run_bind_ok in Hline as ([] & w2 & _ & Hline).
  apply ok_inj in Hline as <-. exists text. split; [done|]. destruct (to_vec_line _ text Htext) as (Hutf & Hne & H10 & H13 & Hfrom).
  unfold PublishedResponse.validate. rewrite len_app. change (len [10]) with 1. is_true (len text + 1 <=? MAX_PUBLICATION_RESPONSE_BYTES). advance.
  rewrite utf8_newline by done. advance. rewrite strip_suffix_app. advance. rewrite clean_line by done. cbn [negb]. advance. rewrite Hfrom. advance.
  rewrite published_accepted; try done; lia.
Qed.

(** ** The sample *)

(** A printer of one value. *)
Definition prints (value : Value) : SerdeJson.
Proof.
  refine {| to_vec := fun v => if bool_decide (v = value) then Some (str "{}") else None; from_slice := fun _ => Some value |}.
  intros v text Ht. case_bool_decide as Hv; [|done]. injection Ht as <-. split; [vm_compute; reflexivity|]. split; [done|].
  split; [apply (bool_decide_eq_true_1 (~ (10 ∈ _))); vm_compute; reflexivity|].
  split; [apply (bool_decide_eq_true_1 (~ (13 ∈ _))); vm_compute; reflexivity|by subst].
Defined.

Definition sample_publication :=
  @publish_corpus sample_hash _ store _ _ no_length no_length no_length no_length sample_server false sample_letter
    sample_generation_namespace (Ok tt) None found_server (str "http://127.0.0.1:6334") {| root := root sample_world; sent := [] |} [].
Definition sample_published : Generation :=
  match fst (fst sample_publication) with Ok view => pinned_generation view | Err _ => Pending.generation sample_build_pending end.

Lemma published_line_accepted_witness :
  exists c ps view w e', (prepared c ps /\ Uuid.wf sample_generation_namespace /\
    denotes (PreparedSource.control (root sample_world)) c fresh /\ lifecycle fresh /\ directory_typed (objects (root sample_world))) /\
    sample_publication = ((Ok view, w), e') /\
    run (@published_line (prints (published_response sample_published)) (pinned_generation view)) [] = Ok [123; 125; 10] /\
    exists text, [123; 125; 10] = text ++ [10] /\
      @PublishedResponse.validate (prints (published_response sample_published)) [123; 125; 10] = Some text.
Proof.
  destruct sample_world_state as (c & ps & Hd & Hp & Ho). pose proof sample_generation_namespace_wf as Hn.
  assert (match fst (fst sample_publication) with
    | Ok v => forallb (fun t => typed_rows (table_iter (PublicationRead.transaction v) t)) [SOURCES; PAGES; EVIDENCE] = true /\
        run (@published_line (prints (published_response sample_published)) (pinned_generation v)) [] = Ok [123; 125; 10]
    | Err _ => False end) as Hok by (vm_compute; split; reflexivity).
  remember (prints (published_response sample_published)) as printer eqn:Hprinter. clear Hprinter.
  unfold sample_publication in *. destruct (publish_corpus _ _ _ _ _ _ _ _ _ _ _) as [[[view|x] w] e'] eqn:E; [|destruct Hok].
  destruct Hok as [Ht Hline]. exists c, ps, view, w, e'.
  split; [exact (conj Hp (conj Hn (conj Hd (conj fresh_lifecycle Ho))))|]. split; [reflexivity|]. split; [exact Hline|].
  refine (@published_line_accepted printer sample_hash _ store _ _ no_length no_length no_length no_length sample_server false sample_letter
    sample_generation_namespace (Ok tt) None found_server (str "http://127.0.0.1:6334") c ps fresh (root sample_world) [] view w e' [] [123; 125; 10]
    Hp Hn Hd fresh_lifecycle Ho E _ Hline).
  intros table Hin. apply typed_iter. rewrite forallb_forall in Ht. apply Ht. by apply list_elem_of_In.
Defined.
