(* ===== verification/FramedSearch.v ===== *)
(** One framed query (bins/eliot-searchd/src/framed_search.rs): one client, one query thread,
    one answer.

    [Exchange] is the state of the async loop; its operations run on the whole [Process]: the
    exchange, the cancellation flag it shares with the thread, the thread, the standard
    output and the clock.  [step] interleaves one turn of the [select!] loop with the turns
    of the thread. *)

From stdpp Require Import gmap relations.
From S2P Require Import Prelude Bytes Utf8 Ids Dto DtoSession Frame ObjectStore PublicationRow Publication PublicationRead Literal ExactResult RawExact DecodedExact.
From S2P Require Import Qdrant VerifiedQuery Session State.

Local Abbreviation take := List.firstn.

(** ** Data *)

Module Request.
Inductive t :=
  | Search (request : SearchRequest.t)
  | RawExact (request : RawExactRequest.t)
  | DecodedUtf8 (request : DecodedUtf8Request.t).
End Request.

(** The query thread: it executes its request, has sent its answer, or has panicked. *)
Inductive Thread :=
  | Executing (request : Request.t) (deadline : Z)
  | Answered (answer : result ProtocolError (list Z))
  | Panicked.

(** [q_receiver]: whether the thread's answer is still awaited. *)
Record Exchange := {
  q_input : FrameBuffer; q_frame_started : option Z; q_request_deadline : option Z;
  q_cleanup_deadline : option Z; q_admitted : bool; q_input_closed : bool;
  q_output : option (list Z); q_cursor : Z; q_receiver : bool }.

(** In the loop; out of it, with the thread still to join; over. *)
Inductive Phase := Serving | Joining (r : result (list Z) unit) | Exited (r : result (list Z) unit).

(** [q_ticks]: by how much each reading of the clock advances it.  [q_read], the bytes the
    client has sent so far, is kept for the statements only. *)
Record Process := {
  q_exchange : Exchange; q_cancel : bool; q_worker : option Thread; q_read : list Z;
  q_stdout : list Z; q_now : Z; q_ticks : list N; q_phase : Phase }.

(** ** Field updates *)

Definition put_input v x : Exchange :=
  {| q_input := v; q_frame_started := q_frame_started x; q_request_deadline := q_request_deadline x;
     q_cleanup_deadline := q_cleanup_deadline x; q_admitted := q_admitted x;
     q_input_closed := q_input_closed x; q_output := q_output x; q_cursor := q_cursor x;
     q_receiver := q_receiver x |}.
Definition put_frame_started v x : Exchange :=
  {| q_input := q_input x; q_frame_started := v; q_request_deadline := q_request_deadline x;
     q_cleanup_deadline := q_cleanup_deadline x; q_admitted := q_admitted x;
     q_input_closed := q_input_closed x; q_output := q_output x; q_cursor := q_cursor x;
     q_receiver := q_receiver x |}.
Definition put_request_deadline v x : Exchange :=
  {| q_input := q_input x; q_frame_started := q_frame_started x; q_request_deadline := v;
     q_cleanup_deadline := q_cleanup_deadline x; q_admitted := q_admitted x;
     q_input_closed := q_input_closed x; q_output := q_output x; q_cursor := q_cursor x;
     q_receiver := q_receiver x |}.
Definition put_cleanup_deadline v x : Exchange :=
  {| q_input := q_input x; q_frame_started := q_frame_started x;
     q_request_deadline := q_request_deadline x; q_cleanup_deadline := v; q_admitted := q_admitted x;
     q_input_closed := q_input_closed x; q_output := q_output x; q_cursor := q_cursor x;
     q_receiver := q_receiver x |}.
Definition put_admitted v x : Exchange :=
  {| q_input := q_input x; q_frame_started := q_frame_started x;
     q_request_deadline := q_request_deadline x; q_cleanup_deadline := q_cleanup_deadline x;
     q_admitted := v; q_input_closed := q_input_closed x; q_output := q_output x;
     q_cursor := q_cursor x; q_receiver := q_receiver x |}.
Definition put_input_closed v x : Exchange :=
  {| q_input := q_input x; q_frame_started := q_frame_started x;
     q_request_deadline := q_request_deadline x; q_cleanup_deadline := q_cleanup_deadline x;
     q_admitted := q_admitted x; q_input_closed := v; q_output := q_output x; q_cursor := q_cursor x;
     q_receiver := q_receiver x |}.
Definition put_output v x : Exchange :=
  {| q_input := q_input x; q_frame_started := q_frame_started x;
     q_request_deadline := q_request_deadline x; q_cleanup_deadline := q_cleanup_deadline x;
     q_admitted := q_admitted x; q_input_closed := q_input_closed x; q_output := v;
     q_cursor := q_cursor x; q_receiver := q_receiver x |}.
Definition put_cursor v x : Exchange :=
  {| q_input := q_input x; q_frame_started := q_frame_started x;
     q_request_deadline := q_request_deadline x; q_cleanup_deadline := q_cleanup_deadline x;
     q_admitted := q_admitted x; q_input_closed := q_input_closed x; q_output := q_output x;
     q_cursor := v; q_receiver := q_receiver x |}.
Definition put_receiver v x : Exchange :=
  {| q_input := q_input x; q_frame_started := q_frame_started x;
     q_request_deadline := q_request_deadline x; q_cleanup_deadline := q_cleanup_deadline x;
     q_admitted := q_admitted x; q_input_closed := q_input_closed x; q_output := q_output x;
     q_cursor := q_cursor x; q_receiver := v |}.

Definition put_exchange v x : Process :=
  {| q_exchange := v; q_cancel := q_cancel x; q_worker := q_worker x; q_read := q_read x;
     q_stdout := q_stdout x; q_now := q_now x; q_ticks := q_ticks x; q_phase := q_phase x |}.
Definition put_cancel v x : Process :=
  {| q_exchange := q_exchange x; q_cancel := v; q_worker := q_worker x; q_read := q_read x;
     q_stdout := q_stdout x; q_now := q_now x; q_ticks := q_ticks x; q_phase := q_phase x |}.
Definition put_worker v x : Process :=
  {| q_exchange := q_exchange x; q_cancel := q_cancel x; q_worker := v; q_read := q_read x;
     q_stdout := q_stdout x; q_now := q_now x; q_ticks := q_ticks x; q_phase := q_phase x |}.
Definition put_read v x : Process :=
  {| q_exchange := q_exchange x; q_cancel := q_cancel x; q_worker := q_worker x; q_read := v;
     q_stdout := q_stdout x; q_now := q_now x; q_ticks := q_ticks x; q_phase := q_phase x |}.
Definition put_stdout v x : Process :=
  {| q_exchange := q_exchange x; q_cancel := q_cancel x; q_worker := q_worker x; q_read := q_read x;
     q_stdout := v; q_now := q_now x; q_ticks := q_ticks x; q_phase := q_phase x |}.
Definition put_now v x : Process :=
  {| q_exchange := q_exchange x; q_cancel := q_cancel x; q_worker := q_worker x; q_read := q_read x;
     q_stdout := q_stdout x; q_now := v; q_ticks := q_ticks x; q_phase := q_phase x |}.
Definition put_ticks v x : Process :=
  {| q_exchange := q_exchange x; q_cancel := q_cancel x; q_worker := q_worker x; q_read := q_read x;
     q_stdout := q_stdout x; q_now := q_now x; q_ticks := v; q_phase := q_phase x |}.
Definition put_phase v x : Process :=
  {| q_exchange := q_exchange x; q_cancel := q_cancel x; q_worker := q_worker x; q_read := q_read x;
     q_stdout := q_stdout x; q_now := q_now x; q_ticks := q_ticks x; q_phase := v |}.

(** ** The operations *)

Definition Turn (A : Type) : Type := St Process (list Z) A.
Definition the_exchange : Turn Exchange := st_gets q_exchange.
Definition update (f : Exchange -> Exchange) : Turn unit := st_modify (fun s => put_exchange (f (q_exchange s)) s).

(** [Instant::now()] *)
Definition read_clock : Turn Z := fun s w =>
  match q_ticks s with
  | [] => ((Ok (q_now s), s), w)
  | t :: rest => let now := q_now s + Z.of_N t in ((Ok now, put_now now (put_ticks rest s)), w)
  end.

Definition frame_invalid : list Z := str "QUERY_FRAME_INVALID".
Definition query_deadline : list Z := str "QUERY_DEADLINE".
Definition worker_panicked : list Z := str "QUERY_WORKER_PANICKED".

Section Query.
Context `{Json Terminal.t, Json ClientFrame.t, Json CompleteWire.t}.
(** The last representable instant. *)
Context (instant_max : Z).
Context (blake3 : list Z -> list Z).
Context `{Prost UpsertPoints, Prost Named, Prost GetPoints, Prost QueryPoints, Prost Probe}.
Context (variable : option (option (list Z))) (server : Connection) (channel : Channel) (in_runtime : bool).
(** [open_plain(path, ..)] and [pin_published(&root.control_path(), ..)]. *)
Context (open_plain : M PlainRootError.t directory) (pin_published : directory -> M Pub.t View).
Context (endpoint : option (list Z)).

Definition stopped (failure : QueryFailure) : M ProtocolError (list Z) :=
  outcome ← lift match failure with
    | QueryCancelled => Ok QueryOutcome.Cancelled
    | QueryDeadline => code ← FailureCode.new query_deadline; Ok (QueryOutcome.Failed code)
    | Code code => code ← FailureCode.new code; Ok (QueryOutcome.Failed code)
    end;
  encode_terminal_frame {| Terminal.request_id := QUERY_REQUEST_ID; Terminal.outcome := outcome |}.

(** [match executed { Ok(value) => prepare(value), Err(error) => stopped(error) }] *)
Definition answer_of {A} (executed : M QueryFailure A) (prepare : A -> M ProtocolError (list Z)) : M ProtocolError (list Z) :=
  match_result executed (fun r => match r with Ok value => prepare value | Err error => stopped error end).

Definition request_execute (root : directory) (view : View) (request : Request.t) : M ProtocolError (list Z) :=
  match request with
  | Request.Search request =>
      match endpoint with
      | None => stopped (Code (str "QUERY_ENDPOINT_REQUIRED"))
      | Some endpoint =>
          answer_of (search_execute blake3 root variable server channel in_runtime view endpoint request)
            (prepare_complete QUERY_REQUEST_ID (view_generation (pinned view)))
      end
  | Request.RawExact request =>
      answer_of (raw_execute blake3 root (pinned view) request) (prepare_raw_exact QUERY_REQUEST_ID)
  | Request.DecodedUtf8 request =>
      answer_of (decoded_execute blake3 root (pinned view) request) (prepare_decoded_utf8 QUERY_REQUEST_ID)
  end.

Definition worker_result (request : Request.t) : M ProtocolError (list Z) :=
  answer_of (lift_err root_failure open_plain) (fun root =>
    answer_of (lift_err publication_failure (pin_published root)) (fun view => request_execute root view request)).

Definition stop (reason : QueryFailure) : Turn unit :=
  _ ← st_modify (put_cancel true);
  x ← the_exchange;
  if q_cursor x =? 0 then
    bytes ← st_err Dto.code (st_env (stopped reason));
    update (put_output (Some bytes))
  else mret tt.

(** The query of a message; a cancellation has none. *)
Definition query_of (message : ClientFrame.t) : option (Z * Request.t) :=
  match message with
  | ClientFrame.Query _ remaining_ms request => Some (remaining_ms, Request.Search request)
  | ClientFrame.RawExact _ remaining_ms request => Some (remaining_ms, Request.RawExact request)
  | ClientFrame.DecodedUtf8 _ remaining_ms request => Some (remaining_ms, Request.DecodedUtf8 request)
  | ClientFrame.Cancel _ => None
  end.

Definition spawn_worker (request : Request.t) (deadline : Z) : Turn unit :=
  _ ← st_env (call (str "QUERY_WORKER_START_FAILED"));
  _ ← st_modify (put_worker (Some (Executing request deadline)));
  update (put_receiver true).

(** The end of [accept]. *)
Definition start_query (remaining_ms : Z) (request : Request.t) (started : Z) : Turn unit :=
  _ ← update (put_admitted true);
  deadline ← st_lift (ok_or query_deadline (checked_add instant_max started (from_millis remaining_ms)));
  _ ← update (put_request_deadline (Some deadline));
  now ← read_clock;
  if deadline <=? now then
    now ← read_clock;
    _ ← update (put_cleanup_deadline (checked_add instant_max now CLEANUP_ALLOWANCE));
    stop QueryDeadline
  else spawn_worker request deadline.

Definition accept (message : ClientFrame.t) (started : Z) : Turn unit :=
  x ← the_exchange;
  match query_of message with
  | None =>
      _ ← st_lift (reject_if (negb (q_admitted x)) (str "QUERY_CANCEL_WITHOUT_REQUEST"));
      stop QueryCancelled
  | Some (remaining_ms, request) =>
      _ ← st_lift (reject_if (q_admitted x) (str "QUERY_DUPLICATE_REQUEST"));
      start_query remaining_ms request started
  end.

(** [self.input.push(..)], whose one allocation may be refused. *)
Definition push_input (bytes : list Z) : Turn Z := fun s w =>
  let '(o, w) := observe w in
  let '(r, input) := push (negb (bool_decide (o = NoMemory))) (q_input (q_exchange s)) bytes in
  ((map_err Dto.code r, put_exchange (put_input input (q_exchange s)) s), w).

(** What [consume] does once a frame may be complete. *)
Definition take_frame : Turn unit :=
  x ← the_exchange;
  match frame (q_input x) with
  | Some body =>
      message ← st_lift (map_err Dto.code (decode_client_frame body));
      started ← st_lift (ok_or frame_invalid (q_frame_started x));
      _ ← update (put_frame_started None);
      input ← st_lift (map_err Dto.code (new MAX_CLIENT_FRAME_BYTES));
      _ ← update (put_input input);
      accept message started
  | None => mret tt
  end.

(** The loop of [consume]; every turn takes at least one byte. *)
Fixpoint consume (fuel : nat) (bytes : list Z) : Turn unit :=
  match bytes with
  | [] => mret tt
  | _ :: _ =>
      match fuel with
      | O => st_lift (Err frame_invalid)
      | S fuel =>
          x ← the_exchange;
          _ ← (if is_empty (q_input x) then now ← read_clock; update (put_frame_started (Some now)) else mret tt);
          count ← push_input bytes;
          _ ← st_lift (reject_if (count =? 0) frame_invalid);
          _ ← take_frame;
          consume fuel (drop (Z.to_nat count) bytes)
      end
  end.

(** ** The loop of [exchange] *)

(** Which branch of the [select!] is ready, and with what. *)
Inductive Branch :=
  | Read (r : option (list Z))                              (* stdin: an error, or the bytes read *)
  | Reply (r : option (result ProtocolError (list Z)))      (* the thread's answer, or its sender is gone *)
  | Wrote (r : option Z)                                    (* stdout took that many bytes, or failed *)
  | Flushed (ok : bool)
  | Timer.

Definition received_answer (r : option (result ProtocolError (list Z))) : Turn unit :=
  _ ← update (put_receiver false);
  answer ← st_lift (ok_or worker_panicked r);
  frame ← st_err Dto.code (st_env match answer with
    | Ok frame => mret frame
    | Err error => stopped (Code (Dto.code error))
    end);
  cancelled ← st_gets q_cancel;
  output ← (if cancelled : bool then st_err Dto.code (st_env (stopped QueryCancelled)) else mret frame);
  update (put_output (Some output)).

Definition wrote (size : Z) : Turn unit :=
  _ ← st_lift (reject_if (size =? 0) (str "QUERY_OUTPUT_CLOSED"));
  x ← the_exchange;
  let bytes := match q_output x with Some bytes => bytes | None => [] end in
  _ ← st_modify (fun s => put_stdout (q_stdout s ++ take (Z.to_nat size) (drop (Z.to_nat (q_cursor x)) bytes)) s);
  update (put_cursor (q_cursor x + size)).

Definition timed_out : Turn unit :=
  x ← the_exchange;
  _ ← st_lift (reject_if (negb (q_admitted x) || bool_decide (is_Some (q_cleanup_deadline x)) || negb (q_cursor x =? 0))
               query_deadline);
  _ ← stop QueryDeadline;
  now ← read_clock;
  update (put_cleanup_deadline (checked_add instant_max now CLEANUP_ALLOWANCE)).

(** One turn; whether the loop is left. *)
Definition exchange_turn (branch : Branch) : Turn bool :=
  match branch with
  | Read r =>
      bytes ← st_lift (ok_or (str "QUERY_INPUT_IO") r);
      match bytes with
      | [] =>
          _ ← update (put_input_closed true);
          x ← the_exchange;
          _ ← st_lift (reject_if (bool_decide (q_output x = None)) (str "QUERY_INPUT_CLOSED"));
          mret false
      | _ :: _ =>
          _ ← st_modify (fun s => put_read (q_read s ++ bytes) s);
          _ ← consume (length bytes) bytes;
          mret false
      end
  | Reply r => _ ← received_answer r; mret false
  | Wrote r => size ← st_lift (ok_or (str "QUERY_OUTPUT_IO") r); _ ← wrote size; mret false
  | Flushed ok => _ ← st_lift (reject_if (negb ok) (str "QUERY_OUTPUT_IO")); mret true
  | Timer => _ ← timed_out; mret false
  end.

(** Until when the loop waits. *)
Definition wait_until (x : Exchange) (idle : Z) : Z :=
  match q_cleanup_deadline x, q_request_deadline x with
  | Some deadline, _ | None, Some deadline => deadline
  | None, None =>
      match q_frame_started x ≫= fun t => checked_add instant_max t (from_millis MAX_REMAINING_MS) with
      | Some deadline => deadline
      | None => idle
      end
  end.

(** When [tokio::select!] may take a branch. *)
Definition enabled (idle : Z) (branch : Branch) (s : Process) : Prop :=
  let x := q_exchange s in
  match branch with
  | Read r => q_input_closed x = false /\ match r with Some bytes => len bytes <= 8192 /\ bytes_ok bytes | None => True end
  | Reply r =>
      q_output x = None /\ q_receiver x = true /\
      match q_worker s with
      | Some (Answered answer) => r = Some answer
      | Some Panicked => r = None
      | _ => False
      end
  | Wrote r =>
      exists bytes, q_output x = Some bytes /\ q_cursor x < len bytes /\
        match r with Some size => 0 <= size <= len bytes - q_cursor x | None => True end
  | Flushed _ => exists bytes, q_output x = Some bytes /\ len bytes <= q_cursor x
  | Timer => wait_until x idle <= q_now s
  end.

(** Out of the loop: [run] raises the flag and joins the thread. *)
Definition settle (r : result (list Z) bool) (s : Process) : Process :=
  match r with
  | Ok false => put_phase Serving s
  | Ok true => put_phase (Joining (Ok tt)) (put_cancel true s)
  | Err code => put_phase (Joining (Err code)) (put_cancel true s)
  end.

Inductive step (idle : Z) : Process -> Process -> Prop :=
  | step_exchange branch s w r s' w' :
      q_phase s = Serving -> enabled idle branch s -> exchange_turn branch s w = ((r, s'), w') ->
      step idle s (settle r s')
  | step_answer request deadline w s :
      q_worker s = Some (Executing request deadline) ->
      step idle s (put_worker (Some (Answered (run (worker_result request) w))) s)
  | step_panic request deadline s :
      q_worker s = Some (Executing request deadline) -> step idle s (put_worker (Some Panicked) s)
  | step_join r s :
      q_phase s = Joining r -> match q_worker s with None | Some (Answered _) => True | _ => False end ->
      step idle s (put_phase (Exited r) s)
  | step_join_panic r s :
      (* also when it panics after its answer *)
      q_phase s = Joining r -> match q_worker s with Some (Answered _) | Some Panicked => True | _ => False end ->
      step idle s (put_phase (Exited (Err worker_panicked)) s)
  | step_around now ticks s : q_now s <= now -> step idle s (put_now now (put_ticks ticks s)).

Definition new_exchange : result (list Z) Exchange :=
  input ← map_err Dto.code (new MAX_CLIENT_FRAME_BYTES);
  Ok {| q_input := input; q_frame_started := None; q_request_deadline := None; q_cleanup_deadline := None;
        q_admitted := false; q_input_closed := false; q_output := None; q_cursor := 0; q_receiver := false |}.

(** The process that enters the loop, and how long it waits for a first byte. *)
Definition query_start (now : Z) (ticks : list N) : result (list Z) (Process * Z) :=
  idle ← ok_or query_deadline (checked_add instant_max now (from_millis MAX_REMAINING_MS));
  x ← new_exchange;
  Ok ({| q_exchange := x; q_cancel := false; q_worker := None; q_read := []; q_stdout := [];
         q_now := now; q_ticks := ticks; q_phase := Serving |}, idle).

Definition reached (s : Process) : Prop :=
  exists now ticks s0 idle, query_start now ticks = Ok (s0, idle) /\ rtc (step idle) s0 s.
End Query.
