(* ===== verification/FramedSafety.v ===== *)
(** What one framed query answers: along every interleaving the output is a prefix of one
    valid answer frame that the client's messages explain, and a process that ends well has
    written all of it and runs no query any more. *)

From stdpp Require Import gmap relations.
From S2P Require Import Prelude Bytes Utf8 Ids Dto DtoSession Frame ObjectStore PublicationRow Publication PublicationRead Literal ExactResult RawExact DecodedExact.
From S2P Require Import Qdrant VerifiedQuery Window Session State FramedSearch.

Local Abbreviation take := List.firstn.
Local Abbreviation received := Frame.received.

(** ** The input buffer between two messages *)

(** The bytes of a first frame, or of less. *)
Definition partial (maximum : Z) (s : list Z) : Prop := header_error maximum s = None /\ taken s = len s.

Lemma taken_bounds maximum s : bytes_ok s -> header_error maximum s = None -> 0 <= taken s <= len s.
Proof.
  intros Hok Hh. pose proof (len_nonneg s). destruct (decide (len s < 4)) as [Hs|Hs].
  - unfold taken. is_true (len s <? 4). lia.
  - destruct (header_none _ _ Hh ltac:(lia) Hok) as [Hd _]. rewrite taken_full by lia. unfold frame_total. lia.
Qed.

(** The part of a stream that belongs to the first frame says it all. *)
Lemma partial_taken maximum s : bytes_ok s -> header_error maximum s = None ->
  partial maximum (take (Z.to_nat (taken s)) s) /\ received maximum (take (Z.to_nat (taken s)) s) = received maximum s.
Proof.
  intros Hok Hh. pose proof (len_nonneg s) as Hl. destruct (decide (len s < 4)) as [Hs|Hs].
  - assert (taken s = len s) as Ht by (unfold taken; by is_true (len s <? 4)).
    rewrite Ht, take_ge by (unfold len in *; lia). split; [by split|done].
  - destruct (header_none _ _ Hh ltac:(lia) Hok) as [Hd Hm]. pose proof (taken_bounds maximum s Hok Hh) as Hb.
    set (t := take (Z.to_nat (taken s)) s). assert (len t = taken s) as Hlt by (by apply len_take_z).
    assert (4 <= taken s) as H4 by (rewrite taken_full by lia; unfold frame_total; lia).
    assert (take 4 t = take 4 s) as Ht4 by (unfold t; rewrite take_take; f_equal; lia).
    assert (frame_total t = frame_total s) as Htot by (unfold frame_total, declared; by rewrite Ht4).
    assert (taken t = taken s) as Htt by (rewrite (taken_full t) by lia; rewrite Hlt, Htot, taken_full by lia; lia).
    split.
    + split; [|lia]. unfold header_error, declared in *. rewrite Ht4, Htot. by is_false (len t <? 4); is_false (len s <? 4) in Hh.
    + unfold received. is_false (len t <? 4). is_false (len s <? 4). rewrite Ht4, Htt, Htot. do 2 f_equal.
      unfold t. rewrite take_take. by rewrite Nat.min_id.
Qed.

Lemma partial_frame maximum s : bytes_ok s -> partial maximum s ->
  frame (received maximum s) = if (4 <=? len s) && (frame_total s =? len s) then Some s else None.
Proof.
  intros Hok [Hh Ht]. unfold received. destruct (decide (len s < 4)) as [Hs|Hs].
  - is_true (len s <? 4). by is_false (4 <=? len s).
  - is_false (len s <? 4). is_true (4 <=? len s). destruct (header_none _ _ Hh ltac:(lia) Hok) as [Hd _].
    rewrite Ht. unfold frame, is_complete_frame. cbn [buffer used]. rewrite take_ge by (unfold len; lia).
    rewrite taken_full in Ht by lia. assert (len (s ++ zeros (frame_total s - len s)) = frame_total s) as ->.
    { rewrite len_app. unfold zeros, len at 2. rewrite length_replicate. lia. }
    unfold frame_total in *. is_false (declared s + 4 =? 0). cbn [negb andb]. rewrite (Z.eqb_sym (len s)).
    destruct (declared s + 4 =? len s) eqn:E; [|done]. to_prop. rewrite E, Z.sub_diag. cbn [zeros Z.to_nat replicate].
    unfold zeros. by rewrite app_nil_r.
Qed.

(** One push: the bytes that belong to the frame, or an error. *)
Lemma push_partial granted s f : bytes_ok (s ++ f) -> partial MAX_CLIENT_FRAME_BYTES s ->
  match push granted (received MAX_CLIENT_FRAME_BYTES s) f with
  | (Ok count, input) => exists more rest, f = more ++ rest /\ len more = count /\ partial MAX_CLIENT_FRAME_BYTES (s ++ more) /\
      input = received MAX_CLIENT_FRAME_BYTES (s ++ more)
  | (Err _, _) => True
  end.
Proof.
  intros Hok [Hh Ht].
  assert (push granted (received MAX_CLIENT_FRAME_BYTES s) f = push true (received MAX_CLIENT_FRAME_BYTES s) f \/
    exists e, fst (push granted (received MAX_CLIENT_FRAME_BYTES s) f) = Err e) as [->|[e He]].
  { destruct granted; [by left|]. unfold push. repeat (case_match; [|try (by left)]); try (by left); right; by eexists. }
  - pose proof (push_received MAX_CLIENT_FRAME_BYTES s f Hok ltac:(vm_compute; discriminate) Hh) as Hp.
    destruct (header_error _ (s ++ f)) as [e|] eqn:He; [by destruct (push _ _ _) as [[] ?]|]. rewrite Hp.
    destruct (partial_taken _ _ Hok He) as [Hpart Hrec]. pose proof (taken_bounds _ _ Hok He) as Hb.
    assert (len s <= taken (s ++ f)) as Hle.
    { rewrite <- Ht. destruct (decide (len s < 4)) as [Hs|Hs].
      - rewrite Ht. unfold taken. destruct (len (s ++ f) <? 4) eqn:E; rewrite len_app; pose proof (len_nonneg f); to_prop; [lia|].
        destruct (header_none _ _ He ltac:(lia) Hok) as [Hd _]. unfold frame_total. rewrite len_app in E. lia.
      - rewrite !taken_full by (rewrite ?len_app; pose proof (len_nonneg f); lia). rewrite len_app.
        unfold frame_total, declared. rewrite take4_app by lia. pose proof (len_nonneg f). lia. }
    set (n := taken (s ++ f)) in *.
    assert (take (Z.to_nat n) (s ++ f) = s ++ take (Z.to_nat (n - len s)) f) as E.
    { rewrite take_app, take_ge by (unfold len in *; lia). do 2 f_equal. unfold len. lia. }
    rewrite E in Hpart, Hrec. exists (take (Z.to_nat (n - len s)) f), (drop (Z.to_nat (n - len s)) f).
    split; [by rewrite take_drop|]. split; [|by rewrite Hrec]. rewrite Ht. apply len_take_z. rewrite len_app in Hb. lia.
  - by destruct (push _ _ _) as [[] ?].
Qed.

(** ** From one state

    The operations but the loop are followed state by state. *)

Section At.
Context {A B : Type} (Q : A -> Process -> Prop) (X : list Z -> Process -> Prop).
Implicit Types (s : Process).

Lemma runs_at P (m : Turn A) : (forall s, P s -> runs (eq s) m Q X) -> runs P m Q X.
Proof. intros Hm s w Hs. exact (Hm s Hs s w eq_refl). Qed.
Lemma at_ret s (a : A) : Q a s -> @runs Process (list Z) A (eq s) (mret a) Q X.
Proof. by intros HQ s' w <-. Qed.
Lemma at_fail s e (k : B -> Turn A) : X e s -> runs (eq s) (st_lift (S := Process) (Err e) ≫= k) Q X.
Proof. by intros HX s' w <-. Qed.
Lemma at_lift s (r : result (list Z) B) (k : B -> Turn A) :
  (forall b, r = Ok b -> runs (eq s) (k b) Q X) -> (forall e, X e s) -> runs (eq s) (st_lift r ≫= k) Q X.
Proof. intros Hk HX. apply runs_pure; [done|]. by intros e s' _ <-. Qed.
Lemma at_exchange s (k : Exchange -> Turn A) : runs (eq s) (k (q_exchange s)) Q X -> runs (eq s) (the_exchange ≫= k) Q X.
Proof. intros Hk s' w <-. exact (Hk s w eq_refl). Qed.
Lemma at_gets s (f : Process -> B) (k : B -> Turn A) : runs (eq s) (k (f s)) Q X -> runs (eq s) (st_gets f ≫= k) Q X.
Proof. intros Hk s' w <-. exact (Hk s w eq_refl). Qed.
Lemma at_modify s f (k : unit -> Turn A) : runs (eq (f s)) (k tt) Q X -> runs (eq s) (st_modify f ≫= k) Q X.
Proof. intros Hk s' w <-. exact (Hk (f s) w eq_refl). Qed.
Lemma at_clock s (k : Z -> Turn A) :
  (forall now ticks, q_now s <= now -> runs (eq (put_now now (put_ticks ticks s))) (k now) Q X) -> runs (eq s) (read_clock ≫= k) Q X.
Proof.
  intros Hk s' w <-. unfold mbind, St_bind, read_clock. destruct (q_ticks s) as [|t rest] eqn:Et.
  - apply (Hk (q_now s) []); [lia|]. destruct s; cbn in Et; by subst.
  - by apply (Hk _ rest); [lia|].
Qed.
Lemma at_weaken s (m : Turn A) (R : A -> Process -> Prop) (Y : list Z -> Process -> Prop) :
  runs (eq s) m R Y -> (forall a s', R a s' -> Q a s') -> (forall e s', Y e s' -> X e s') -> runs (eq s) m Q X.
Proof. intros Hm HQ HX. by eapply runs_weaken. Qed.
Lemma at_code {F} s (f : F -> list Z) (m : M F B) (k : B -> Turn A) :
  (forall w b, run m w = Ok b -> runs (eq s) (k b) Q X) -> (forall e, X e s) -> runs (eq s) (st_err f (st_env m) ≫= k) Q X.
Proof.
  intros Hk HX s' w <-. unfold mbind, St_bind, st_err, st_env, st_read. specialize (Hk w). unfold run in Hk.
  destruct (m w) as [[b|e] w']; [by apply (Hk b)|apply HX].
Qed.
Lemma at_env s (m : M (list Z) B) (k : B -> Turn A) :
  (forall b, runs (eq s) (k b) Q X) -> (forall e, X e s) -> runs (eq s) (st_env m ≫= k) Q X.
Proof. intros Hk HX s' w <-. unfold mbind, St_bind, st_env, st_read. destruct (m w) as [[b|e] w']; [by apply Hk|apply HX]. Qed.
End At.
Lemma at_last (Q : unit -> Process -> Prop) (X : list Z -> Process -> Prop) s f : Q tt (f s) -> runs (eq s) (st_modify f) Q X.
Proof. by intros HQ s' w <-. Qed.

(** ** The answer *)

Section Answer.
Context `{Json Terminal.t, Json ClientFrame.t, Json CompleteWire.t}.
Context (instant_max : Z).
Context (blake3 : list Z -> list Z).
Context `{Prost UpsertPoints, Prost Named, Prost GetPoints, Prost QueryPoints, Prost Probe}.
Context (variable : option (option (list Z))) (server : Connection) (channel : Channel) (in_runtime : bool).
Context (open_plain : M PlainRootError.t directory) (pin_published : directory -> M Pub.t View).
Context (endpoint : option (list Z)).
Abbreviation executed := (worker_result blake3 variable server channel in_runtime open_plain pin_published endpoint).
Abbreviation turn := (exchange_turn instant_max).
Abbreviation moves := (step instant_max blake3 variable server channel in_runtime open_plain pin_published endpoint).

(** A whole frame of a valid answer; the items of a search may be cut to a prefix. *)
Definition terminal_frame (bytes : list Z) : Prop :=
  exists terminal, Terminal.validate terminal MAX_ITEMS = Ok tt /\ len bytes <= MAX_FRAME_BYTES /\
    (bytes = frame_of (json_bytes (to_writer terminal)) \/
     exists generation items n, Terminal.outcome terminal = QueryOutcome.Complete generation items Complete /\
       bytes = frame_of (json_bytes (clipped (Terminal.request_id terminal) generation items n))).

Lemma encode_run value w b : run (encode value MAX_FRAME_BYTES) w = Ok b -> b = frame_of (json_bytes value) /\ len b <= MAX_FRAME_BYTES.
Proof. intros Hb. destruct (outcome_ok _ _ _ _ _ (frame_encode_outcome value MAX_FRAME_BYTES ltac:(unfold MAX_FRAME_BYTES; lia)) Hb) as (? & ? & _). done. Qed.
Lemma limit_ok : ok_or InvalidMessage (try_from U8_MAX MAX_ITEMS) = @Ok ProtocolError Z MAX_ITEMS.
Proof. reflexivity. Qed.

Lemma encode_terminal_frame_run terminal w b : run (encode_terminal_frame terminal) w = Ok b -> terminal_frame b.
Proof.
  unfold encode_terminal_frame. rewrite limit_ok. intros Hb. apply run_lift_ok in Hb as (l & [= <-] & Hb).
  apply run_lift_ok in Hb as ([] & Hv & Hb). apply encode_run in Hb as [-> Hl]. exists terminal. split_and!; [done|done|by left].
Qed.
Lemma prepare_complete_run id generation items w b : run (prepare_complete id generation items) w = Ok b -> terminal_frame b.
Proof.
  unfold prepare_complete. rewrite limit_ok. intros Hb. apply run_lift_ok in Hb as (l & [= <-] & Hb).
  apply run_lift_ok in Hb as ([] & Hv & Hb). apply run_lift_ok in Hb as ([] & _ & Hb).
  - apply encode_run in Hb as [-> Hl]. eexists. split_and!; [exact Hv|done|by left].
  - apply run_lift_ok in Hb as (n & _ & Hb). apply encode_run in Hb as [-> Hl]. eexists. split_and!; [exact Hv|done|].
    right. by exists generation, items, n.
Qed.
Lemma stopped_run failure w b : run (stopped failure) w = Ok b -> terminal_frame b.
Proof. unfold stopped. intros Hb. apply run_lift_ok in Hb as (o & _ & Hb). by eapply encode_terminal_frame_run. Qed.
Lemma answer_of_run {A} (m : M QueryFailure A) (prepare : A -> M ProtocolError (list Z)) :
  (forall a w b, run (prepare a) w = Ok b -> terminal_frame b) -> forall w b, run (answer_of m prepare) w = Ok b -> terminal_frame b.
Proof.
  intros Hp w b. unfold answer_of, match_result, run. destruct (m w) as [[a|e] w']; [apply Hp|apply stopped_run].
Qed.
Lemma executed_run request w b : run (executed request) w = Ok b -> terminal_frame b.
Proof.
  revert w b. apply answer_of_run. intros root. apply answer_of_run. intros view. destruct request as [r|r|r]; cbn [request_execute].
  - destruct endpoint as [e|]; [|apply stopped_run]. apply answer_of_run. intros items. apply prepare_complete_run.
  - apply answer_of_run. intros a w b. apply encode_terminal_frame_run.
  - apply answer_of_run. intros a w b. apply encode_terminal_frame_run.
Qed.

(** What the client has sent: frames, of these messages, and the rest. *)
Definition heard (read : list Z) (messages : list ClientFrame.t) (rest : list Z) : Prop :=
  exists frames, read = concat frames ++ rest /\ Forall2 (fun f m => decode_client_frame f = Ok m) frames messages.

(** A query is answered with what its execution gave, or with its failure to be encoded;
    after a cancellation and after the deadline also with these. *)
Definition explains (late : Prop) (messages : list ClientFrame.t) (answer : list Z) : Prop :=
  exists query cancels remaining_ms request, messages = query :: cancels /\ query_of query = Some (remaining_ms, request) /\
    Forall (fun m => query_of m = None) cancels /\
    ((exists w, run (executed request) w = Ok answer) \/
     (exists w w' e, run (executed request) w = Err e /\ run (stopped (Code (Dto.code e))) w' = Ok answer) \/
     (cancels <> [] /\ exists w, run (stopped QueryCancelled) w = Ok answer) \/
     (late /\ exists w, run (stopped QueryDeadline) w = Ok answer)).

Lemma explains_frame late messages answer : explains late messages answer -> terminal_frame answer.
Proof.
  intros (q & cs & ms & r & _ & _ & _ & [[w Hw]|[(w & w' & e & _ & Hw)|[[_ [w Hw]]|[_ [w Hw]]]]]); [by eapply executed_run|by eapply stopped_run..].
Qed.
Lemma explains_later (late late' : Prop) messages answer : (late -> late') -> explains late messages answer -> explains late' messages answer.
Proof. intros Hl (q & cs & ms & r & ? & ? & ? & Hd). exists q, cs, ms, r. split_and!; [done..|]. tauto. Qed.
Lemma explains_more late messages cancel answer : query_of cancel = None -> explains late messages answer -> explains late (messages ++ [cancel]) answer.
Proof.
  intros Hc (q & cs & ms & r & -> & Hq & Hcs & Hd). exists q, (cs ++ [cancel]), ms, r. split; [done|]. split; [done|].
  split; [apply Forall_app; by split; [|constructor]|]. destruct Hd as [?|[?|[[_ ?]|?]]]; [by left|by right; left|right; right; left|by right; right; right].
  split; [|done]. by destruct cs.
Qed.

(** ** What holds between two turns *)

Definition overdue (s : Process) : Prop := exists deadline, q_request_deadline (q_exchange s) = Some deadline /\ deadline <= q_now s.

Record core (messages : list ClientFrame.t) (s : Process) : Prop := {
  k_query : match messages with
    | [] => q_admitted (q_exchange s) = false /\ q_cancel s = false /\ q_output (q_exchange s) = None /\ q_worker s = None /\
        q_receiver (q_exchange s) = false /\ q_request_deadline (q_exchange s) = None
    | query :: cancels => q_admitted (q_exchange s) = true /\ is_Some (query_of query) /\
        Forall (fun m => query_of m = None) cancels /\ is_Some (q_request_deadline (q_exchange s))
    end;
  k_none : q_output (q_exchange s) = None -> q_cursor (q_exchange s) = 0 /\ q_stdout s = [] /\ q_cancel s = false;
  k_some answer : q_output (q_exchange s) = Some answer ->
    explains (overdue s) messages answer /\ 0 <= q_cursor (q_exchange s) <= len answer /\
    q_stdout s = take (Z.to_nat (q_cursor (q_exchange s))) answer;
  k_worker thread : q_worker s = Some thread -> exists query cancels remaining_ms request,
    messages = query :: cancels /\ query_of query = Some (remaining_ms, request) /\
    match thread with
    | Executing asked _ => asked = request
    | Answered answer => exists w, run (executed request) w = answer
    | Panicked => True
    end }.

(** What is left of it when the loop is left: what was written, of what was asked. *)
Definition told (messages : list ClientFrame.t) (s : Process) : Prop :=
  q_stdout s = [] \/ exists answer, explains (overdue s) messages answer /\ q_stdout s `prefix_of` answer.
Definition ended (s : Process) : Prop := exists messages rest, heard (q_read s) messages rest /\ told messages s.

(** The output is one whole answer. *)
Definition whole (s : Process) : Prop := exists messages rest, heard (q_read s) messages rest /\ explains (overdue s) messages (q_stdout s).

(** In the loop, with [bytes] of what was read still to consume. *)
Definition serving (bytes : list Z) (s : Process) : Prop :=
  exists messages rest, heard (q_read s) messages (rest ++ bytes) /\ bytes_ok (rest ++ bytes) /\
    partial MAX_CLIENT_FRAME_BYTES rest /\ q_input (q_exchange s) = received MAX_CLIENT_FRAME_BYTES rest /\ core messages s.

Definition good (s : Process) : Prop :=
  match q_phase s with
  | Serving => serving [] s
  | Joining r => ended s /\ (r = Ok tt -> whole s)
  | Exited r => ended s /\ (r = Ok tt -> whole s) /\ match q_worker s with Some (Executing _ _) => False | _ => True end
  end.

Lemma core_told messages s : core messages s -> told messages s.
Proof.
  intros Hc. destruct (q_output (q_exchange s)) as [answer|] eqn:Ho.
  - destruct (k_some _ _ Hc answer Ho) as (He & _ & Hs). right. exists answer. split; [done|]. rewrite Hs. apply prefix_take.
  - left. by destruct (k_none _ _ Hc Ho) as (_ & ? & _).
Qed.
Lemma serving_ended bytes s : serving bytes s -> ended s.
Proof. intros (messages & rest & Hh & _ & _ & _ & Hc). exists messages, (rest ++ bytes). split; [done|by apply core_told]. Qed.

(** Only these parts of a process matter to [core]. *)
Definition story (s : Process) :=
  let x := q_exchange s in
  ((q_admitted x, q_output x, q_cursor x, q_receiver x, q_request_deadline x), (q_cancel s, q_worker s, q_stdout s)).
Lemma core_same messages s s' : core messages s -> story s' = story s -> q_now s <= q_now s' -> core messages s'.
Proof.
  intros [Hq Hn Hs Hw] [= Ea Eo Ec Er Ed Ef Et Ew] Hnow. constructor; rewrite ?Ea, ?Eo, ?Ec, ?Er, ?Ed, ?Ef, ?Et, ?Ew; try done.
  intros answer Ha. destruct (Hs answer Ha) as (He & ? & ?). split; [|done]. eapply explains_later; [|exact He].
  intros (d & Hd & Hle). exists d. rewrite Ed. split; [done|lia].
Qed.
Lemma told_later messages s s' :
  told messages s -> q_request_deadline (q_exchange s') = q_request_deadline (q_exchange s) -> q_stdout s' = q_stdout s -> q_now s <= q_now s' ->
  told messages s'.
Proof.
  intros [Hs|(answer & He & Hp)] Ed Eo Hnow; [left; congruence|right]. exists answer. rewrite Eo. split; [|done].
  eapply explains_later; [|exact He]. intros (d & Hd & Hle). exists d. rewrite Ed. split; [done|lia].
Qed.

(** ** The operations *)

(** A part of the process that these operations leave alone. *)
Definition input_of (s : Process) : list Z * FrameBuffer := (q_read s, q_input (q_exchange s)).

Lemma core_admitted messages s : core messages s -> messages <> [] -> q_admitted (q_exchange s) = true /\ is_Some (q_request_deadline (q_exchange s)).
Proof. intros Hc Hm. pose proof (k_query _ _ Hc) as Hq. destruct messages; [done|]. tauto. Qed.

Lemma stop_at messages reason s io :
  core messages s -> input_of s = io -> messages <> [] -> (forall w answer, run (stopped reason) w = Ok answer -> explains (overdue s) messages answer) ->
  runs (eq s) (stop reason) (fun _ s' => core messages s' /\ input_of s' = io) (fun _ s' => told messages s' /\ q_read s' = fst io).
Proof.
  intros Hc Hio Hm He. pose proof (core_told _ _ Hc) as Ht. unfold stop. apply at_modify, at_exchange.
  change (q_exchange (put_cancel true s)) with (q_exchange s). pose proof (k_query _ _ Hc) as Hq. destruct messages as [|m ms]; [done|].
  destruct (q_cursor (q_exchange s) =? 0) eqn:Hz; to_prop.
  - apply at_code; [intros w answer Hrun; apply at_last|intros e; split; [|by subst]].
    + split; [|done]. constructor; cbn; [done|done| |exact (k_worker _ _ Hc)].
      intros a [= <-]. split; [by apply (He w)|]. rewrite Hz. split; [split; [lia|apply len_nonneg]|].
      destruct (q_output (q_exchange s)) as [old|] eqn:Ho; [|by destruct (k_none _ _ Hc Ho) as (_ & -> & _)].
      destruct (k_some _ _ Hc old Ho) as (_ & _ & ->). by rewrite Hz.
    + by apply (told_later _ s).
  - apply at_ret. split; [|done]. constructor; cbn; [done| |exact (k_some _ _ Hc)|exact (k_worker _ _ Hc)].
    intros Ho. by destruct (k_none _ _ Hc Ho) as (? & _ & _).
Qed.

Lemma start_at message remaining_ms request started s io :
  core [] s -> input_of s = io -> query_of message = Some (remaining_ms, request) ->
  runs (eq s) (start_query instant_max remaining_ms request started)
    (fun _ s' => core [message] s' /\ input_of s' = io) (fun _ s' => told [message] s' /\ q_read s' = fst io).
Proof.
  intros Hc Hio Hq. destruct (k_query _ _ Hc) as (_ & Hcancel & Ho & Hw & Hr & _). destruct (k_none _ _ Hc Ho) as (Hcur & Hout & _).
  assert (forall s' : Process, q_stdout s' = [] -> q_read s' = q_read s -> told [message] s' /\ q_read s' = fst io) as HX.
  { intros s' E1 E2. split; [by left|by subst]. }
  unfold start_query. apply at_modify, at_lift; [intros deadline _|by intros e; apply HX]. apply at_modify, at_clock. intros now ticks Hnow.
  assert (forall s', q_exchange s' = put_request_deadline (Some deadline) (put_admitted true (q_exchange s)) \/
      (exists c, q_exchange s' = put_cleanup_deadline c (put_request_deadline (Some deadline) (put_admitted true (q_exchange s)))) ->
      q_cancel s' = q_cancel s -> q_worker s' = q_worker s -> q_stdout s' = q_stdout s -> core [message] s') as Hcore.
  { intros s' Ex Ec Ew Eo. constructor; rewrite ?Ec, ?Ew, ?Eo.
    - split_and!; [|by eexists|constructor|]; destruct Ex as [->|[c ->]]; cbn; eauto.
    - intros _. split_and!; [|done|done]. by destruct Ex as [->|[c ->]].
    - intros a Ha. exfalso. destruct Ex as [Ex|[c Ex]]; rewrite Ex in Ha; cbn in Ha; congruence.
    - intros t Ht. congruence. }
  destruct (deadline <=? now) eqn:Hlate; to_prop.
  - apply at_clock. intros now' ticks' Hnow'. apply at_modify. apply stop_at.
    + apply Hcore; [right; by eexists|done..].
    + done.
    + done.
    + intros w answer Hrun. exists message, [], remaining_ms, request. split_and!; [done|done|constructor|]. do 3 right.
      split; [|by eexists]. exists deadline. cbn in *. split; [done|lia].
  - unfold spawn_worker. apply at_env; [intros []|by intros e; apply HX]. apply at_modify, at_last. split; [|done].
    clear Hcore. constructor; cbn.
    + split_and!; [done|by eexists|constructor|by eexists].
    + done.
    + congruence.
    + intros t [= <-]. exists message, [], remaining_ms, request. done.
Qed.

Lemma accept_at messages message started s io :
  core messages s -> input_of s = io ->
  runs (eq s) (accept instant_max message started) (fun _ s' => core (messages ++ [message]) s' /\ input_of s' = io)
    (fun _ s' => (told messages s' \/ told (messages ++ [message]) s') /\ q_read s' = fst io).
Proof.
  intros Hc Hio. unfold accept. apply at_exchange. pose proof (core_told _ _ Hc) as Ht.
  assert (told messages s /\ q_read s = fst io) as [HX HX'] by by subst.
  destruct (query_of message) as [[remaining_ms request]|] eqn:Hq.
  - apply at_lift; [|by intros e; split; [left|]]. intros [] Had%reject_if_ok. destruct messages as [|m ms].
    + eapply at_weaken; [by apply (start_at message _ _ _ _ io)|done|]. intros e s' [? ?]. split; [by right|done].
    + exfalso. destruct (core_admitted _ _ Hc) as [Ha _]; [done|congruence].
  - apply at_lift; [|by intros e; split; [left|]]. intros [] Had%reject_if_ok. to_prop. destruct messages as [|m ms].
    { exfalso. destruct (k_query _ _ Hc) as [Ha _]. congruence. }
    eapply at_weaken; [apply (stop_at ((m :: ms) ++ [message]) _ _ io)|done|].
    + destruct (k_query _ _ Hc) as (? & Hm & ? & ?). constructor.
      * cbn. split_and!; [done|done|apply Forall_app; by split; [|constructor]|done].
      * exact (k_none _ _ Hc).
      * intros a Ha. destruct (k_some _ _ Hc a Ha) as (? & ?). split; [by apply explains_more|done].
      * intros t Hw. destruct (k_worker _ _ Hc t Hw) as (q & cs & r & rq & [= -> ->] & ? & ?). by exists q, (cs ++ [message]), r, rq.
    + done.
    + done.
    + intros w answer Hrun. destruct (k_query _ _ Hc) as (_ & [[r rq] Hm] & Hf & _). exists m, (ms ++ [message]), r, rq.
      split_and!; [done|done|apply Forall_app; by split; [|constructor]|]. do 2 right. left. split; [by destruct ms|by eexists].
    + intros e s' [? ?]. split; [by right|done].
Qed.

(** Taking a complete frame out of the buffer. *)
Lemma heard_more read messages message frame rest :
  heard read messages (frame ++ rest) -> decode_client_frame frame = Ok message -> heard read (messages ++ [message]) rest.
Proof.
  intros (frames & -> & Hf) Hd. exists (frames ++ [frame]). split; [|by apply Forall2_app; [|constructor; [|constructor]]].
  rewrite concat_app. cbn [concat]. by rewrite app_nil_r, (assoc_L (++)).
Qed.
Lemma serving_same bytes s s' : serving bytes s -> story s' = story s -> input_of s' = input_of s -> q_now s <= q_now s' -> serving bytes s'.
Proof.
  intros (messages & rest & Hh & Hok & Hp & Hin & Hc) Es [= Er Ei] Hnow. exists messages, rest. rewrite Er, Ei.
  split_and!; [done..|]. by eapply core_same.
Qed.
Lemma take_frame_runs bytes : runs (serving bytes) (take_frame instant_max) (fun _ => serving bytes) (fun _ => ended).
Proof.
  apply runs_at. intros s Hs. pose proof (serving_ended _ _ Hs) as HX. pose proof Hs as (messages & rest & Hh & Hok & Hp & Hin & Hc).
  unfold take_frame. apply at_exchange. rewrite Hin. apply Forall_app in Hok as [Hrest Hbytes]. rewrite (partial_frame _ _ Hrest Hp).
  destruct ((4 <=? len rest) && (frame_total rest =? len rest)); [|by apply at_ret].
  apply at_lift; [|done]. intros message Hm%map_err_ok. apply at_lift; [|done]. intros started _. apply at_modify, at_lift; [|done].
  intros input Hnew. change (Ok (received MAX_CLIENT_FRAME_BYTES []) = @Ok (list Z) FrameBuffer input) in Hnew. apply ok_inj in Hnew as <-.
  apply at_modify. pose proof (heard_more _ _ _ _ _ Hh Hm) as Hmore.
  eapply at_weaken; [apply (accept_at messages message started _ (q_read s, received MAX_CLIENT_FRAME_BYTES []))| |];
    [by eapply core_same|done| |].
  - intros [] s' [Hc' [= Er Ei]]. exists (messages ++ [message]), []. rewrite Er, Ei. by split_and!.
  - intros e s' [[Ht|Ht] Er]; [exists messages, (rest ++ bytes)|exists (messages ++ [message]), bytes]; (split; [|done]); by rewrite Er.
Qed.

Lemma push_runs bytes :
  runs (serving bytes) (push_input bytes) (fun count => serving (drop (Z.to_nat count) bytes)) (fun _ => ended).
Proof.
  intros s w Hs. pose proof (serving_ended _ _ Hs) as (m0 & r0 & Hh0 & Ht0). pose proof Hs as (messages & rest & Hh & Hok & Hp & Hin & Hc).
  unfold push_input. destruct (observe w) as [o w']. rewrite Hin.
  pose proof (push_partial (negb (bool_decide (o = NoMemory))) rest bytes Hok Hp) as Hpush.
  destruct (push _ _ bytes) as [[count|e] input]; cbn [fst map_err].
  - destruct Hpush as (more & left & -> & <- & Hp' & ->). exists messages, (rest ++ more). cbn [q_read put_exchange q_exchange q_input put_input].
    assert (drop (Z.to_nat (len more)) (more ++ left) = left) as -> by (unfold len; rewrite Nat2Z.id; by rewrite drop_app_length).
    rewrite <- (assoc_L (++)). split_and!; [done..|]. by eapply core_same.
  - exists m0, r0. split; [done|]. by apply (told_later _ s).
Qed.

Lemma consume_runs fuel : forall bytes, runs (serving bytes) (consume instant_max fuel bytes) (fun _ => serving []) (fun _ => ended).
Proof.
  induction fuel as [|fuel IH]; intros [|b bytes]; cbn [consume].
  - by apply runs_ret.
  - apply runs_lift; [done|]. intros e s _. apply serving_ended.
  - by apply runs_ret.
  - apply runs_at. intros s Hs. apply at_exchange. eapply (runs_bind _ _ (fun _ => serving (b :: bytes))).
    + destruct (is_empty _); [|by apply at_ret]. apply at_clock. intros now ticks Hnow. apply at_last. by eapply serving_same.
    + intros []. eapply runs_bind; [apply push_runs|]. intros count. apply runs_pure; [|intros e s' _; apply serving_ended].
      intros [] _. eapply runs_bind; [apply take_frame_runs|]. intros []. apply IH.
Qed.

(** An answer that arrives finds no other, and no cancellation: the branch for one is never
    taken. *)
Lemma received_at idle r s :
  serving [] s -> enabled instant_max idle (Reply r) s -> runs (eq s) (received_answer r) (fun _ => serving []) (fun _ => ended).
Proof.
  intros Hs (Ho & Hr & Hthread). pose proof (serving_ended _ _ Hs) as (m0 & r0 & Hh0 & Ht0). pose proof Hs as (messages & rest & Hh & Hok & Hp & Hin & Hc).
  destruct (k_none _ _ Hc Ho) as (Hcur & Hout & Hcancel).
  assert (forall s', q_read s' = q_read s -> q_request_deadline (q_exchange s') = q_request_deadline (q_exchange s) -> q_stdout s' = q_stdout s ->
    q_now s <= q_now s' -> ended s') as HX.
  { intros s' E1 E2 E3 E4. exists m0, r0. rewrite E1. split; [done|]. by apply (told_later _ s). }
  unfold received_answer. apply at_modify, at_lift; [intros answer ->%ok_or_inv|by intros e; apply HX].
  destruct (q_worker s) as [[| |]|] eqn:Hw; try done. injection Hthread as <-.
  destruct (k_worker _ _ Hc _ Hw) as (query & cancels & ms & request & -> & Hq & w & Hw'). apply at_code; [|by intros e; apply HX]. intros w0 frame Hframe.
  apply at_gets. change (q_cancel (put_exchange _ s)) with (q_cancel s). rewrite Hcancel. change (runs (eq (put_exchange (put_receiver false (q_exchange s)) s))
    (update (put_output (Some frame))) (fun _ => serving []) (fun _ => ended)). apply at_last.
  exists (query :: cancels), rest. split_and!; [done..|]. destruct (k_query _ _ Hc) as (? & ? & ? & ?). constructor; cbn.
  - done.
  - done.
  - intros a [= <-]. rewrite Hcur. split; [|split; [split; [lia|apply len_nonneg]|done]].
    exists query, cancels, ms, request. split_and!; [done..|]. destruct answer as [f|e].
    + apply ok_inj in Hframe as ->. left. by exists w.
    + right. left. by exists w, w0, e.
  - exact (k_worker _ _ Hc).
Qed.

Lemma wrote_at size bytes s :
  serving [] s -> q_output (q_exchange s) = Some bytes -> 0 <= size <= len bytes - q_cursor (q_exchange s) ->
  runs (eq s) (wrote size) (fun _ => serving []) (fun _ => ended).
Proof.
  intros Hs Ho Hsize. pose proof (serving_ended _ _ Hs) as HX. pose proof Hs as (messages & rest & Hh & Hok & Hp & Hin & Hc).
  unfold wrote. apply at_lift; [intros [] _|done]. apply at_exchange. rewrite Ho. apply at_modify, at_last.
  destruct (k_some _ _ Hc _ Ho) as (He & Hcur & Hout). exists messages, rest. split_and!; [done..|]. destruct Hc as [Hq Hn Ha Hw]. constructor; cbn.
  - by destruct messages.
  - congruence.
  - intros a Ha'. rewrite Ho in Ha'. injection Ha' as <-. split; [done|]. split; [lia|]. rewrite Hout. symmetry. apply take_split; lia.
  - done.
Qed.

Lemma timed_out_at idle s :
  serving [] s -> wait_until instant_max (q_exchange s) idle <= q_now s -> runs (eq s) (timed_out instant_max) (fun _ => serving []) (fun _ => ended).
Proof.
  intros Hs Hlate. pose proof (serving_ended _ _ Hs) as HX. pose proof Hs as (messages & rest & Hh & Hok & Hp & Hin & Hc).
  unfold timed_out. apply at_exchange, at_lift; [intros [] Hb%reject_if_ok|done].
  apply orb_false_iff in Hb as [[Had%negb_false_iff Hclean%bool_decide_eq_false_1]%orb_false_iff _].
  assert (messages <> []) as Hm by (intros ->; destruct (k_query _ _ Hc) as [? _]; congruence).
  destruct (core_admitted _ _ Hc Hm) as [_ [d Hd]]. apply eq_None_not_Some in Hclean.
  unfold wait_until in Hlate. rewrite Hclean, Hd in Hlate.
  eapply (runs_bind _ _ (fun _ s' => core messages s' /\ input_of s' = input_of s)).
  - eapply at_weaken; [apply (stop_at messages _ _ (input_of s))|done|]; [done|done|done| |].
    + intros w answer Hrun. destruct messages as [|query cancels]; [done|]. destruct (k_query _ _ Hc) as (_ & [[ms rq] Hq] & Hf & _).
      exists query, cancels, ms, rq. split_and!; [done..|]. do 3 right. split; [by exists d|by exists w].
    + intros e s' [Ht Er]. exists messages, (rest ++ []). by rewrite Er.
  - intros []. apply runs_at. intros s' [Hc' [= Er Ei]]. apply at_clock. intros now ticks Hnow. apply at_last.
    exists messages, rest. cbn [q_read put_exchange q_exchange put_now put_ticks q_input put_cleanup_deadline]. rewrite Er, Ei. split_and!; [done..|].
    by eapply core_same.
Qed.

(** One turn of the loop. *)
Lemma turn_at idle branch s :
  serving [] s -> enabled instant_max idle branch s ->
  runs (eq s) (exchange_turn instant_max branch) (fun over s' => if over : bool then ended s' /\ whole s' else serving [] s') (fun _ => ended).
Proof.
  intros Hs He. pose proof (serving_ended _ _ Hs) as HX. destruct branch as [r|r|r|ok|]; cbn [exchange_turn].
  - apply at_lift; [intros bytes ->%ok_or_inv|done]. destruct He as (_ & _ & Hbytes). destruct bytes as [|b bytes].
    + apply at_modify, at_exchange, at_lift; [intros [] _|by intros e]. apply at_ret. by eapply serving_same.
    + apply at_modify. eapply (runs_bind _ _ (fun _ => serving [])); [|intros []; by apply runs_ret].
      eapply runs_weaken; [apply (consume_runs (length (b :: bytes)) (b :: bytes))| |done|done]. intros s' <-.
      destruct Hs as (messages & rest & (frames & Hread & Hf) & Hok & Hp & Hin & Hc). rewrite app_nil_r in Hread, Hok. exists messages, rest. cbn [q_read put_read q_exchange].
      split_and!; [|by apply Forall_app|done|done|by eapply core_same]. exists frames. split; [|done]. by rewrite Hread, (assoc_L (++)).
  - eapply runs_bind; [by eapply received_at|]. intros []. by apply runs_ret.
  - apply at_lift; [intros size ->%ok_or_inv|done]. destruct He as (bytes & Ho & _ & Hsize).
    eapply runs_bind; [by eapply wrote_at|]. intros []. by apply runs_ret.
  - apply at_lift; [intros [] _|done]. apply at_ret. split; [done|]. destruct He as (bytes & Ho & Hlen).
    destruct Hs as (messages & rest & Hh & _ & _ & _ & Hc). exists messages, (rest ++ []). split; [done|].
    destruct (k_some _ _ Hc _ Ho) as (Hex & Hcur & ->). rewrite take_ge; [done|]. unfold len in *. lia.
  - eapply runs_bind; [by eapply timed_out_at|]. intros []. by apply runs_ret.
Qed.

Lemma whole_same s s' : whole s -> q_read s' = q_read s -> q_stdout s' = q_stdout s -> q_request_deadline (q_exchange s') = q_request_deadline (q_exchange s) ->
  q_now s <= q_now s' -> whole s'.
Proof.
  intros (messages & rest & Hh & He) E1 E2 E3 Hnow. exists messages, rest. rewrite E1, E2. split; [done|]. eapply explains_later; [|exact He].
  intros (d & Hd & Hle). exists d. rewrite E3. split; [done|lia].
Qed.
Lemma ended_same s s' : ended s -> q_read s' = q_read s -> q_stdout s' = q_stdout s -> q_request_deadline (q_exchange s') = q_request_deadline (q_exchange s) ->
  q_now s <= q_now s' -> ended s'.
Proof. intros (messages & rest & Hh & Ht) E1 E2 E3 Hnow. exists messages, rest. rewrite E1. split; [done|by apply (told_later _ s)]. Qed.

Lemma good_thread request deadline thread s :
  good s -> q_worker s = Some (Executing request deadline) ->
  match thread with Executing _ _ => False | Answered answer => exists w, run (executed request) w = answer | Panicked => True end ->
  good (put_worker (Some thread) s).
Proof.
  intros Hg Hw Ht. unfold good in *. cbn [q_phase put_worker]. destruct (q_phase s) as [|r|r].
  - destruct Hg as (messages & rest & Hh & Hok & Hp & Hin & Hc). exists messages, rest. split_and!; [done..|].
    destruct (k_worker _ _ Hc _ Hw) as (query & cancels & ms & rq & -> & Hq & <-). destruct Hc as [Hq' Hn Ha _].
    constructor; [done|done|done|]. cbn. intros t [= <-]. exists query, cancels, ms, request. by destruct thread.
  - destruct Hg as [He Hd]. split; [by eapply ended_same|]. intros Hr. by eapply whole_same; [apply Hd|..].
  - destruct Hg as (_ & _ & Hn). by rewrite Hw in Hn.
Qed.

Lemma query_step_good idle s s' :
  step instant_max blake3 variable server channel in_runtime open_plain pin_published endpoint idle s s' -> good s -> good s'.
Proof.
  destruct 1 as [branch s w r s' w' Hp He Hrun|request deadline w s Hw|request deadline s Hw|r s Hp Hw|r s Hp Hw|now ticks s Hnow]; intros Hg.
  - unfold good in Hg. rewrite Hp in Hg. pose proof (turn_at idle branch s Hg He s w eq_refl) as Ht. rewrite Hrun in Ht. cbn [fst] in Ht.
    destruct r as [[|]|e]; unfold good; cbn [settle q_phase put_phase].
    + destruct Ht as [Hend Hwhole]. split; [by eapply ended_same|]. intros _. by eapply whole_same.
    + by eapply serving_same.
    + split; [by eapply ended_same|done].
  - eapply good_thread; [done|done|]. by exists w.
  - by eapply good_thread.
  - unfold good in *. rewrite Hp in Hg. cbn [q_phase put_phase q_worker]. destruct Hg as [He Hd]. split; [by eapply ended_same|].
    split; [intros Hr; by eapply whole_same; [apply Hd|..]|]. by destruct (q_worker s) as [[| |]|].
  - unfold good in *. rewrite Hp in Hg. cbn [q_phase put_phase q_worker]. destruct Hg as [He Hd]. split; [by eapply ended_same|].
    split; [done|]. by destruct (q_worker s) as [[| |]|].
  - unfold good in *. cbn [q_phase put_now put_ticks q_worker]. destruct (q_phase s) as [|r|r].
    + by eapply serving_same.
    + destruct Hg as [He Hd]. split; [by eapply ended_same|]. intros Hr. by eapply whole_same; [apply Hd|..].
    + destruct Hg as (He & Hd & ?). split; [by eapply ended_same|]. split; [|done]. intros Hr. by eapply whole_same; [apply Hd|..].
Qed.

Lemma query_reached_good s :
  reached instant_max blake3 variable server channel in_runtime open_plain pin_published endpoint s -> good s.
Proof.
  intros (now & ticks & s0 & idle & Hstart & Hsteps).
  assert (good s0) as Hg0.
  { unfold query_start in Hstart. apply bind_ok_inv in Hstart as (i & _ & Hstart). apply bind_ok_inv in Hstart as (x & Hx & Hstart).
    apply ok_inj in Hstart as [= <- <-]. unfold new_exchange in Hx. apply bind_ok_inv in Hx as (input & Hi & Hx). apply ok_inj in Hx as <-.
    change (Ok (received MAX_CLIENT_FRAME_BYTES []) = @Ok (list Z) FrameBuffer input) in Hi. apply ok_inj in Hi as <-.
    exists [], []. split; [by exists []|]. split; [constructor|]. split; [by split|]. split; [done|]. by constructor. }
  clear Hstart. induction Hsteps as [s|s s' s'' Hstep _ IH]; [done|]. apply IH. by eapply query_step_good.
Qed.

(** C26. A framed query is answered as its client asked.  At every moment of every
    interleaving of the exchange, the thread, the client and the clock, what was read
    starts with the frames of some valid messages, and the standard output is empty or a
    prefix of one whole frame of a valid answer that they explain: the first is a query, the
    others cancel it; the frame is what the execution of this query gave, a failure for an
    answer that did not fit, or, only after a cancellation or past the query's deadline, the
    answer that says so.  A process that ends well has written the frame whole, and the
    query's thread runs no more. *)
Theorem query_answered s
    (Hreached : reached instant_max blake3 variable server channel in_runtime open_plain pin_published endpoint s) :
  (exists messages rest, heard (q_read s) messages rest /\
     (q_stdout s = [] \/ exists answer, explains (overdue s) messages answer /\ terminal_frame answer /\ q_stdout s `prefix_of` answer)) /\
  (q_phase s = Exited (Ok tt) ->
     (exists messages rest, heard (q_read s) messages rest /\ explains (overdue s) messages (q_stdout s) /\ terminal_frame (q_stdout s)) /\
     match q_worker s with Some (Executing _ _) => False | _ => True end).
Proof.
  pose proof (query_reached_good s Hreached) as Hg. unfold good in Hg. split.
  - assert (ended s) as (messages & rest & Hh & Ht).
    { destruct (q_phase s); [by eapply serving_ended|by destruct Hg..]. }
    exists messages, rest. split; [done|]. destruct Ht as [?|(answer & He & Hpre)]; [by left|right]. exists answer.
    split_and!; [done|by eapply explains_frame|done].
  - intros Hp. rewrite Hp in Hg. destruct Hg as (_ & Hd & Hw). split; [|done]. destruct (Hd eq_refl) as (messages & rest & Hh & He).
    exists messages, rest. split_and!; [done|done|by eapply explains_frame].
Qed.
End Answer.

(** ** A query over "banana" *)

(** A codec of a query and of its cancellation, and one that writes an empty object. *)
Definition query_json : Json ClientFrame.t :=
  {| to_writer _ := {| chunks_of := []; serialized := true |};
     from_slice body := match body with
       | [1] => Some (ClientFrame.RawExact QUERY_REQUEST_ID 1000 banana_request)
       | [2] => Some (ClientFrame.Cancel QUERY_REQUEST_ID)
       | _ => None
       end |}.
Definition empty_json {T} : Json T :=
  {| to_writer _ := {| chunks_of := [str "{}"]; serialized := true |}; from_slice _ := None |}.

Definition banana_instants : Z := 2 ^ 63 * 1000000000 - 1.
Definition banana_idle : Z := 120 * 1000000000.
Definition banana_executed : Request.t -> M ProtocolError (list Z) :=
  @worker_result empty_json empty_json toy_digest no_length no_length no_length None found_server found_channel false
    (mret (toy_root banana)) (fun _ => mret banana_pinned) None.
Definition banana_step : Z -> Process -> Process -> Prop :=
  @step empty_json query_json empty_json banana_instants toy_digest no_length no_length no_length None found_server found_channel false
    (mret (toy_root banana)) (fun _ => mret banana_pinned) None.
Definition banana_reached : Process -> Prop :=
  @reached empty_json query_json empty_json banana_instants toy_digest no_length no_length no_length None found_server found_channel false
    (mret (toy_root banana)) (fun _ => mret banana_pinned) None.

Definition banana_start : Process :=
  {| q_exchange := {| q_input := {| prefix := [0; 0; 0; 0]; prefix_used := 0; buffer := []; used := 0; maximum := MAX_CLIENT_FRAME_BYTES |};
                      q_frame_started := None; q_request_deadline := None; q_cleanup_deadline := None; q_admitted := false;
                      q_input_closed := false; q_output := None; q_cursor := 0; q_receiver := false |};
     q_cancel := false; q_worker := None; q_read := []; q_stdout := []; q_now := 0; q_ticks := []; q_phase := Serving |}.

(** The turns as functions. *)
Definition banana_turn (branch : Branch) (s : Process) : Process :=
  let '((r, s'), _) := @exchange_turn empty_json query_json banana_instants branch s [] in settle r s'.
Definition banana_answer (s : Process) : Process :=
  match q_worker s with Some (Executing request _) => put_worker (Some (Answered (run (banana_executed request) []))) s | _ => s end.
Definition banana_reply (s : Process) : Process :=
  match q_worker s with Some (Answered answer) => banana_turn (Reply (Some answer)) s | _ => s end.
Definition banana_asked : Process := banana_answer (banana_turn (Read (Some (frame_of [1]))) banana_start).
Definition banana_written : Process := banana_turn (Wrote (Some 6)) (banana_reply banana_asked).
Definition banana_done : Process := put_phase (Exited (Ok tt)) (banana_turn (Flushed true) banana_written).

Lemma banana_turn_step branch s : q_phase s = Serving -> enabled banana_instants banana_idle branch s -> banana_step banana_idle s (banana_turn branch s).
Proof.
  intros Hp He. unfold banana_turn. destruct (@exchange_turn empty_json query_json banana_instants branch s []) as [[r s'] w'] eqn:Hr.
  by eapply step_exchange.
Qed.
Lemma banana_answer_step s :
  match q_worker s with Some (Executing _ _) => true | _ => false end = true -> banana_step banana_idle s (banana_answer s).
Proof. unfold banana_answer. destruct (q_worker s) as [[request deadline| |]|] eqn:Hw; try done. intros _. by eapply step_answer. Qed.
Lemma banana_reply_step s :
  match q_worker s with Some (Answered _) => true | _ => false end = true -> q_phase s = Serving -> q_output (q_exchange s) = None -> q_receiver (q_exchange s) = true ->
  banana_step banana_idle s (banana_reply s).
Proof.
  unfold banana_reply. destruct (q_worker s) as [[|answer|]|] eqn:Hw; try done. intros _ Hp Ho Hr. apply banana_turn_step; [done|].
  split_and!; [done|done|by rewrite Hw].
Qed.

Lemma banana_done_reached : banana_reached banana_done.
Proof.
  exists 0, [], banana_start, banana_idle. split; [reflexivity|]. unfold banana_done, banana_written, banana_asked.
  eapply rtc_l; [apply (banana_turn_step (Read (Some (frame_of [1])))); [reflexivity|split; [reflexivity|split; [vm_compute; discriminate|]]]|].
  { apply (bool_decide_eq_true_1 _). vm_compute. reflexivity. }
  eapply rtc_l; [apply banana_answer_step; vm_compute; reflexivity|].
  eapply rtc_l; [apply banana_reply_step; vm_compute; reflexivity|].
  eapply rtc_l; [apply (banana_turn_step (Wrote (Some 6))); [vm_compute; reflexivity|]|].
  { exists [2; 0; 0; 0; 123; 125]. split; [vm_compute; reflexivity|]. split; [vm_compute; reflexivity|]. vm_compute. split; discriminate. }
  eapply rtc_l; [apply (banana_turn_step (Flushed true)); [vm_compute; reflexivity|]|].
  { exists [2; 0; 0; 0; 123; 125]. split; [vm_compute; reflexivity|]. vm_compute. discriminate. }
  eapply rtc_l; [apply (step_join _ _ _ _ _ _ _ _ _ _ (Ok tt)); [vm_compute; reflexivity|vm_compute; exact I]|]. apply rtc_refl.
Qed.

Lemma query_answered_witness :
  exists s, banana_reached s /\ q_phase s = Exited (Ok tt) /\ q_stdout s = frame_of (str "{}") /\
    @terminal_frame empty_json empty_json (q_stdout s).
Proof.
  assert (q_phase banana_done = Exited (Ok tt)) as Hp by (vm_compute; reflexivity).
  destruct (@query_answered empty_json query_json empty_json banana_instants toy_digest no_length no_length no_length None found_server found_channel false
    (mret (toy_root banana)) (fun _ => mret banana_pinned) None banana_done banana_done_reached) as [_ Hdone].
  destruct (Hdone Hp) as [(messages & rest & _ & _ & Hf) _].
  exists banana_done. split; [exact banana_done_reached|]. split; [exact Hp|]. split; [vm_compute; reflexivity|exact Hf].
Defined.
